(* ===== verification/_CoqProject ===== *)
-Q . S2P
Prelude.v
Text.v
ByteOrder.v
Runtime.v
Policy.v
PolicyCodec.v
Gateway.v
DnsTypes.v
DnsParse.v
DnsEncode.v
DnsNames.v
DnsRdata.v
DnsMessage.v
Cache.v
CacheInv.v
CacheLru.v
IcannDane.v
LightChain.v
LightSnapshot.v
LightResource.v
LightSync.v
LightSyncInv.v
PrimHash.v
PrimPow.v
PrimHeader.v
PrimPolicy.v
PrimDns.v
PrimDnsProps.v
PrimResource.v
Urkel.v
NsTypes.v
NsService.v
NsPlan.v
NsDecision.v
NsFingerprint.v
LightPeer.v
LightPeerProps.v
DaneDer.v
DaneDerProps.v
DaneMatch.v
DaneMatchProps.v
Dnssec.v
DnssecProps.v
DnssecChain.v
DnssecDenial.v
DnssecDenialProps.v
Resolver.v
ResolverProps.v
Engine.v
EngineProps.v
Provider.v
ProviderProps.v
ProxyHead.v
ProxyHeadProps.v
Proxy.v
ProxyProps.v
RateLimit.v
RateLimitProps.v
RateWindowProps.v
RateRetryProps.v
IpText.v
Http1.v
Http1ReadProps.v
Http1FieldProps.v
Http1BodyProps.v
Http1HeadProps.v
Http1TargetProps.v
WalletBloom.v
WalletBloomProps.v
WalletBlock.v
WalletBlockProps.v
WalletCollectProps.v
WalletMergeProps.v
BrowserChain.v
BrowserChainProps.v
BrowserBatchProps.v
BrowserReachProps.v
