(* ===== verification/Prelude.v ===== *)
(** * HNS DANE engine: verification library (root file)

    A shallow embedding of the core logic of the engine and of the browser crates
    below it, with the theorems that make each part correct. This file is also
    the shared prelude: results and their bind, machine integers and bytes,
    bounded loops, readers, text, and the tactics and hints the files use.

    ** The program and its parts

    The engine answers one question for a browser: which transport, addresses and
    trust decision an origin may use, when the name may exist under Handshake,
    under ICANN, under both or under neither. Every part fails closed.

    - A light client keeps block headers ([LightChain], [LightSync]), talks to its
      peers in solicited exchanges ([LightPeer]) and proves name resources against
      a committed tree root ([LightResource], [Urkel]).
    - The browser keeps a chain of its own ([BrowserChain]): headers verified against
      parent, difficulty, work and checkpoints, with the best one's path canonical.
    - A wallet beside the light client tells peers what to watch by a bloom filter
      ([WalletBloom]) and takes what they answer only as evidence about a header it
      has validated ([WalletBlock]).
    - DNS messages go through strict codecs (the [Dns*] files for the engine's,
      [PrimDns] and [PrimResource] for the browser crates').
    - The policy ([Policy], persisted by [PolicyCodec]) says which transports may
      be tried in which order; the gateway ([Gateway]) drives one query along that
      plan; the runtime ([Runtime]) says when any authority exists at all and
      invalidates work on policy changes.
    - Answers are cached bound to their generation ([Cache], [CacheLru]).
    - DNSSEC ([Dnssec], [DnssecDenial]) authenticates keysets from delegation
      signers, the on-chain ones of a proved resource first of all, and record
      sets and denials from keysets; a resolution ([Resolver]) follows signed
      CNAME records to signed TLSA records under one authority.
    - TLS trust follows from DANE: discovery ([IcannDane]) and the match of a
      presented chain against TLSA records ([DaneDer], [DaneMatch]). The final choice of
      namespace compares the plans of both roots ([NsPlan], [NsDecision]) and
      names the decision by a fingerprint ([NsFingerprint]).
    - The engine facade ([Engine], [Provider]) holds the runtime and the policy
      behind one lock, admits resolutions and what the gateway selected, completes
      them on local evidence, and grants provider authorities for decisions.
    - The loopback proxy ([ProxyHead], [Proxy]) turns such an authority into a
      tunnel: it admits an authenticated CONNECT inside its host scope, publishes
      authorities per origin, and grants a tunnel where both meet. Its product
      listener bounds clients and requests ([RateLimit]) and reads requests by a
      strict HTTP/1 parser ([Http1]).

    ** Files and sources (under src/crates/)

    - [ByteOrder]: the byte order and the sorts by key several parts share.
    - [Text]: literals as lists of characters.
    - [Runtime]: hns-browser-runtime.
    - [Policy], [PolicyCodec]: hns-resolution-policy.
    - [Gateway]: hns-gateway; it uses [Policy] for plans and evidence.
    - [DnsTypes], [DnsParse], [DnsEncode] (definitions), [DnsNames], [DnsRdata],
      [DnsMessage] (theorems): hns-dns-wire. The class [WireCodec] is what the
      message codec needs of its items.
    - [Cache], [CacheInv], [CacheLru]: hns-cache.
    - [IcannDane]: hns-icann-dane.
    - [LightChain], [LightSnapshot], [LightResource]: hns-light-chain.
    - [LightSync], [LightSyncInv]: hns-light-sync, on top of [LightChain].
    - [LightPeer], [LightPeerProps]: hns-light-p2p, the session of one peer.
    - [WalletBloom], [WalletBloomProps], [WalletBlock], [WalletBlockProps] (partial
      trees), [WalletCollectProps], [WalletMergeProps]: hns-light-wallet, on the
      headers of [LightChain].
    - [DaneDer], [DaneDerProps] (the DER reader and the certificate shape),
      [DaneMatch], [DaneMatchProps] (records and chains): hns-dane.
    - [Dnssec], [DnssecProps] (one record set), [DnssecChain] (delegations),
      [DnssecDenial], [DnssecDenialProps]: hns-dnssec, on the records and codec of
      [DnsTypes] and [DnsEncode].
    - [Resolver], [ResolverProps]: hns-resolver, on [Dnssec], the resource of
      [LightResource] and the owner names of [IcannDane].
    - [Engine], [EngineProps] (resolutions and completions), [Provider],
      [ProviderProps] (origin contexts and authorities): hns-dane-engine, its
      lib.rs, on [Runtime], [Policy], [Gateway], [Resolver], [DaneMatch] and the
      decisions of [NsDecision].
    - [ProxyHead], [ProxyHeadProps] (limits, capability, hosts, the CONNECT head),
      [Proxy], [ProxyProps] (the session): hns-loopback-proxy, on the authorities
      of [Provider].
    - [RateLimit] (definitions), [RateLimitProps] (client slots), [RateWindowProps]
      (the reference log), [RateRetryProps] (bounds, waits): the rate_limit.rs of
      hns-browser-loopback-proxy, which its mobile and chromium variants share.
    - [IpText] (addresses as text), [Http1] (definitions), [Http1ReadProps] (readers),
      [Http1FieldProps], [Http1BodyProps], [Http1HeadProps], [Http1TargetProps]: the
      http1.rs of the same crate, shared in the same way.
    - [PrimHash], [PrimPow], [PrimHeader], [PrimPolicy], [PrimDns],
      [PrimDnsProps], [PrimResource]: hns-browser-primitives, a file per module.
    - [BrowserChain] (definitions), [BrowserChainProps] (the store, one header, the
      genesis), [BrowserBatchProps] (batches), [BrowserReachProps] (every chain that
      arises): hns-browser-chain, on the headers and the work of the Prim files.
    - [Urkel]: hns-browser-urkel, with the hash of [PrimHash].
    - [NsTypes], [NsService], [NsPlan], [NsDecision], [NsFingerprint]:
      hns-namespace-resolution.

    A method on [&mut self] is a function to the state after the call and its
    result, also after an error; a [&self] method is a function; a builder is a
    function to the new value. Private fields are record fields. Bytes, octets
    and characters are [Z] in range, strings their bytes, [Vec] a list, a
    [HashMap] a [gmap] whose iteration order is an argument or shown irrelevant.
    Integers are [Z] with the checks, saturations and wrap-arounds written out.
    Clocks and deadlines are arguments.

    ** What the theorems show

    - Authority and transport: no authority without a fresh path through every
      state, stamps survive exactly until an invalidation, attempts follow the
      permitted order with each token used once, a completed query selected its
      answer under the current policy, and a driven query always finishes.
    - Codecs: what is parsed is well formed and re-encodes to itself; encoders
      are inverted; names terminate within bounds; a persisted policy or a
      snapshot is restored exactly or refused, and one changed byte is refused.
    - Cache: hits are current, statistics exact, bounds kept; the LRU refines one
      list in order of use.
    - Chain: appends keep the chain valid and are atomic over a batch; a round
      installs the greatest-work chain enough distinct peers agree on, whatever
      the iteration order, and currency needs such a round; proof of work decides
      the arithmetic target.
    - Browser chain: after any operations on the main network, and after any in which
      the genesis is given to an empty store under the permissive policy, every header
      it keeps is verified against its kept parent, no header has more work than the
      best one, and the canonical chain is the path to that (a second genesis under the
      permissive policy breaks this, as computed); a failed operation changes nothing; a
      batch accepts and keeps what its headers one by one do, and of those that tie for
      most work its best is the last instead of the first; retargeted bits decode
      within the limit.
    - Peers: a ready session completed the whole handshake, every response it
      reports answers the request outstanding, and the receive loop returns.
    - Wallet: a filter matches exactly what its values hash to, also after the peer
      decoded it; a partial tree is accepted exactly if it encodes a pruned tree that
      opens the header's root, its matches are in the block up to a collision among
      the strings hashed, the collector finishes with exactly one transaction for
      each, and views of several peers merge exactly when they are consistent.
    - DNSSEC and DANE: a record set verifies exactly with a current signature by a
      usable key, each refusal naming the furthest stage reached; keysets rest on
      delegation signers and no evidence outlives what it rests on, down to the
      chain anchor; denials over a genuine NSEC3 chain deny nothing that exists, nor
      what the wildcard of the closest encloser supplies; a resolution's evidence is a linked chain of verified sets; the certificate
      key is the one the DER grammar gives, and a chain is accepted only by a
      record that names its leaf or a verified path to the anchor it names. Where
      the code departs from its own documentation the theorem states both: the
      order of the signed data, the NSEC rule below an empty non-terminal, the
      panic on a digest of the wrong length.
    - Proofs: two accepted Urkel proofs under one root agree unless the strings
      hashed break the hash, and a tree's own proofs are accepted; a verified
      resource was committed by the anchor; resource records stay in bailiwick.
    - The facade: verified evidence is shown only with current provenance behind
      it, a strict completion accepts exactly the evidence it names, what the
      gateway selects is admitted; a provider authority goes back to a completion
      for the same origin, service and tree root, is current exactly until the
      first invalidation or its expiry, and the cheap check agrees with
      revalidation. The runs are sequences of whole calls: each method holds the
      lock throughout, except ICANN binding, which is two steps.
    - The proxy: an accepted head is character for character the request line and
      fields it was read as, the capability alone authenticates, the scope is the
      subdomains of its root; every session reached from a new one is well formed,
      a pending request is used once, every grant rests on an authenticated CONNECT
      and a published authority for the same host and port, and it stays valid
      exactly until the next publication or revocation of any origin, the next
      invalidating event of the engine, or the end of its own window. Its runs interleave
      whole calls of the session with whole calls of the engine: each call reads one
      engine state.
    - The listener: the client counter equals the permits held under every
      interleaving of its atomic steps, up to spurious failures of the exchange; the
      request limiter decides as one that keeps the whole log, so no window of
      admitted requests exceeds a limit; and the wait it reports is how long the
      refusal lasts, except for a full host table, where it is a lower bound. A head
      is accepted exactly if it is in the grammar and the second parser agrees, a
      body is framed in one way only, the chunked reader accepts exactly the coded
      bodies and leaves the rest of the stream, all of it however the calls of the
      reader split the bytes; the forwarded fields are exactly those of no hop, not
      the proxy's and not nominated; a target is what the request line reads as, and
      its Host field, with the default port of the target's form, names the same.
    - Namespace decisions: service bindings and plans are canonical and coherent,
      the difference mask is exact, a decision rests on fresh evidence from both
      roots and overrides neither a selection nor an authenticated absence, its
      refusals are exactly classified, and fingerprints separate what a
      connection depends on up to a concrete SHA-256 collision.

    ** Loops and fuel

    Recursion is structural where the source walks a list. Other loops are step
    functions run by [loop] (below) with fuel one more than the bytes or records
    they can consume; running out is a value of its own, and each codec has a
    lemma that it is not reached. The same holds for the DER readers (each element
    takes two bytes at least), for type bitmaps (three bytes a block), for the
    receive loop of a session, for the walks of [BrowserChain] down to a height (a turn
    goes down by one), and for the CNAME loop, whose fuel is one more than
    the hop bound since each turn that goes on adds an edge. A request reader takes a
    byte or a call of the reader with each turn, and has one turn more than these. The height of a partial
    tree is found within the bits of a counter. SHA-256 padding uses 64 turns, enough for any
    length.

    ** External code

    Hash functions, Urkel proofs as seen by hns-light-chain, header consensus and
    the byte encoder of snapshots are crates outside the repository or library
    boundaries of their client: classes with named laws ([Hashers],
    [ChainExternals] and [ChainExternalsLaws], [NameExternals], [WalletExternals]
    and [WalletCodecLaws]) or arguments ([cache_key_derive]). Rust's floating-point
    arithmetic, which shapes a filter from a rate, is the class [Float64]. OpenSSL is the parameter of [DaneMatch] (X.509 parsing
    and path building) and the class [DnssecCrypto] (keys, verifiers, digests,
    [memcmp], its documented length rule being [MemcmpLaws]). Each is instantiated by a concrete function where a
    theorem that needs it is evaluated. The request reader's [httparse] and [idna]
    are arguments: the theorems hold for any, and acceptance is stated with the
    former's answer. Address parsing and display are the standard library's, written
    out in [IpText]. The SHA-256 of hns-namespace-resolution
    is written in that crate, so it is defined and checked on test vectors.

    ** Not modelled

    Sockets, asynchronous tasks, the C ABI, product servers and status texts have
    no kernel-level content of their own; nor do the facade's status report and
    the private transport brokers beside it, which wrap protocol crates outside
    the repository. A lock is poisoned only by a panic under it, which no modelled
    method does. The browser chain's SQLite store is a database schema: the chain is
    written against the class of its store, and proved over the one in memory. The
    P2P transports and the browser sync crate are left, in that order of the plan. *)

From Stdlib Require Export ZArith Lia.
From stdpp Require Export base tactics numbers gmap.
From stdpp Require Export list_basics list_relations list_monad list_misc list_tactics list.

#[export] Set Default Goal Selector "!".
Open Scope Z_scope.

(** ** Fallible computations: Rust's [Result] and the [?] operator *)

Inductive result (E A : Type) : Type :=
| Ok (a : A)
| Err (e : E).
Arguments Ok {E A} a.
Arguments Err {E A} e.

Definition is_ok {E A} (r : result E A) : bool :=
  match r with Ok _ => true | Err _ => false end.

(** [Result::ok]. *)
Definition ok_of {E A} (r : result E A) : option A :=
  match r with Ok a => Some a | Err _ => None end.

(** [Option::ok_or]. *)
Definition ok_or {E A} (o : option A) (e : E) : result E A :=
  match o with Some a => Ok a | None => Err e end.

(** [Result::map_err] with a constant error. *)
Definition map_err {E F A} (r : result E A) (e : F) : result F A :=
  match r with Ok a => Ok a | Err _ => Err e end.

Definition result_map {E A B} (f : A -> B) (r : result E A) : result E B :=
  match r with Ok a => Ok (f a) | Err e => Err e end.

Declare Scope rust_scope.
Delimit Scope rust_scope with rust.
Open Scope rust_scope.

Notation "'let?' x ':=' m 'in' k" :=
  (match m with Ok x => k | Err e => Err e end)
  (at level 10, x pattern, m at level 200, k at level 200,
   format "'[v' 'let?'  x  ':='  m  'in' '/' k ']'") : rust_scope.

(** ** Machine integers

    Every Rust integer is a [Z]; the width is a range predicate and every
    wrap-around, checked or saturating operation is written out. [usize] is the
    64-bit one. *)

Definition u8_max : Z := 255.
Definition u16_max : Z := 65535.
Definition u32_max : Z := 4294967295.
Definition u64_max : Z := 18446744073709551615.

Definition in_u8 (z : Z) : Prop := 0 <= z <= u8_max.
Definition in_u16 (z : Z) : Prop := 0 <= z <= u16_max.
Definition in_u32 (z : Z) : Prop := 0 <= z <= u32_max.
Definition in_u64 (z : Z) : Prop := 0 <= z <= u64_max.

(** [u64::checked_add] and [usize::checked_add]. *)
Definition checked_add (a b : Z) : option Z :=
  if a + b <=? u64_max then Some (a + b) else None.

(** [u64::saturating_add]. *)
Definition saturating_add (a b : Z) : Z := Z.min (a + b) u64_max.

(** [usize::saturating_sub]. *)
Definition saturating_sub (a b : Z) : Z := Z.max (a - b) 0.

(** [u32::wrapping_add], [wrapping_mul], [rotate_right], [rotate_left]. *)
Definition wrapping_add32 (a b : Z) : Z := (a + b) mod 2 ^ 32.
Definition wrapping_mul32 (a b : Z) : Z := (a * b) mod 2 ^ 32.
Definition rotate_right32 (x n : Z) : Z :=
  Z.lor (Z.shiftr x n) (Z.shiftl x (32 - n) mod 2 ^ 32).
Definition rotate_left32 (x n : Z) : Z :=
  Z.lor (Z.shiftl x n mod 2 ^ 32) (Z.shiftr x (32 - n)).

(** ** Byte strings and slices *)

Definition zlen {A} (l : list A) : Z := Z.of_nat (length l).

(** [slice.get(i)]. *)
Definition get {A} (l : list A) (i : Z) : option A :=
  if i <? 0 then None else l !! Z.to_nat i.

(** [slice.get(a..b)]: [None] when [a > b] or [b > len]. *)
Definition get_range {A} (l : list A) (a b : Z) : option (list A) :=
  if (0 <=? a) && (a <=? b) && (b <=? zlen l)
  then Some (take (Z.to_nat (b - a)) (drop (Z.to_nat a) l))
  else None.

(** [slice.get(a..)]. *)
Definition get_from {A} (l : list A) (a : Z) : option (list A) :=
  get_range l a (zlen l).

Definition bytes_ok (l : list Z) : Prop := Forall in_u8 l.

(** [uN::to_be_bytes] for an [n]-byte integer, and [uN::from_be_bytes]. *)
Fixpoint to_be (n : nat) (v : Z) : list Z :=
  match n with
  | O => []
  | S n' => (v / 256 ^ Z.of_nat n') mod 256 :: to_be n' v
  end.

Definition from_be (l : list Z) : Z := fold_left (fun acc b => acc * 256 + b) l 0.

(** Boolean equality of byte strings ([==] on [Vec<u8>], [[u8; N]]). *)
Definition bytes_eqb (a b : list Z) : bool := bool_decide (a = b).

(** ** Tactics *)

Create HintDb hns discriminated.
#[export] Hint Constants Opaque : hns.
#[export] Hint Variables Opaque : hns.

(** Turn boolean tests of the code into propositions. *)
Ltac breflect :=
  repeat match goal with
  | H : (_ && _) = true |- _ => apply andb_true_iff in H; destruct H
  | H : (_ && _) = false |- _ => apply andb_false_iff in H
  | H : (_ || _) = false |- _ => apply orb_false_iff in H; destruct H
  | H : (_ || _) = true |- _ => apply orb_true_iff in H
  | H : negb _ = true |- _ => apply negb_true_iff in H
  | H : negb _ = false |- _ => apply negb_false_iff in H
  | H : (_ =? _) = true |- _ => apply Z.eqb_eq in H
  | H : (_ =? _) = false |- _ => apply Z.eqb_neq in H
  | H : (_ <? _) = true |- _ => apply Z.ltb_lt in H
  | H : (_ <? _) = false |- _ => apply Z.ltb_ge in H
  | H : (_ <=? _) = true |- _ => apply Z.leb_le in H
  | H : (_ <=? _) = false |- _ => apply Z.leb_gt in H
  | H : bool_decide _ = true |- _ => apply bool_decide_eq_true in H
  | H : bool_decide _ = false |- _ => apply bool_decide_eq_false in H
  end.

(** Follow the one execution path on which [H] says the code returned. *)
Ltac run_path H :=
  repeat (case_match; simplify_eq/=; try discriminate H).

(** Same, then turn the guards that were passed into propositions. *)
Ltac run_all := repeat (case_match; simplify_eq/=); breflect.

(** Unfold machine-width constants and range predicates before [lia]. *)
Ltac width :=
  unfold in_u8, in_u16, in_u32, in_u64, u8_max, u16_max, u32_max, u64_max in *.
Ltac width_lia := width; lia.

(** ** Lemmas *)

Section results.
Context {E A : Type}.
Implicit Types (r : result E A).

Lemma is_ok_true r : is_ok r = true <-> exists a, r = Ok a.
Proof. destruct r; naive_solver. Qed.

Lemma Ok_inj (a b : A) : @Ok E A a = Ok b -> a = b.
Proof. congruence. Qed.

Lemma ok_or_Ok (o : option A) (e : E) a : ok_or o e = Ok a <-> o = Some a.
Proof. destruct o; naive_solver. Qed.

Lemma map_err_Ok {F} r (e : F) a : map_err r e = Ok a <-> r = Ok a.
Proof. destruct r; naive_solver. Qed.

Lemma result_map_Ok {B} (f : A -> B) r b :
  result_map f r = Ok b <-> exists a, r = Ok a /\ b = f a.
Proof. destruct r; naive_solver. Qed.
End results.

Lemma checked_add_Some a b c :
  checked_add a b = Some c <-> c = a + b /\ a + b <= u64_max.
Proof. unfold checked_add. case_match; breflect; naive_solver lia. Qed.

Lemma checked_add_small a b : a + b <= u64_max -> checked_add a b = Some (a + b).
Proof. intros. apply checked_add_Some. lia. Qed.

(** Evaluate the comparisons and checked sums of the goal whose outcome [tac]
    (an arithmetic tactic) can prove. *)
Ltac zdecide_with tac :=
  repeat (cbn [ok_or negb andb orb]; match goal with
  | |- context [Z.ltb ?a ?b] =>
      first [ replace (Z.ltb a b) with true by (symmetry; apply Z.ltb_lt; tac)
            | replace (Z.ltb a b) with false by (symmetry; apply Z.ltb_ge; tac) ]
  | |- context [Z.leb ?a ?b] =>
      first [ replace (Z.leb a b) with true by (symmetry; apply Z.leb_le; tac)
            | replace (Z.leb a b) with false by (symmetry; apply Z.leb_gt; tac) ]
  | |- context [Z.eqb ?a ?b] =>
      first [ replace (Z.eqb a b) with true by (symmetry; apply Z.eqb_eq; tac)
            | replace (Z.eqb a b) with false by (symmetry; apply Z.eqb_neq; tac) ]
  | |- context [checked_add ?a ?b] =>
      replace (checked_add a b) with (Some (a + b))
        by (symmetry; apply checked_add_Some; split; [reflexivity|tac])
  end); cbn [ok_or negb andb orb].
Ltac zdecide := zdecide_with ltac:(width_lia).

(** Fields of a word that do not overlap add up. *)
Lemma lor_shift n e m : 0 < n -> 0 <= e -> 0 <= m < 2 ^ n -> Z.lor (Z.shiftl e n) m = e * 2 ^ n + m.
Proof.
  intros Hn He Hm. assert (Hand : Z.land (Z.shiftl e n) m = 0).
  { apply Z.bits_inj_0. intros k. rewrite Z.land_spec. destruct (Z.lt_ge_cases k n).
    - by rewrite Z.shiftl_spec_low.
    - rewrite (Z.bits_above_log2 m), andb_false_r; [done|lia|].
      destruct (decide (m = 0)) as [->|]; [simpl; lia|].
      apply Z.lt_le_trans with n; [apply Z.log2_lt_pow2; lia|lia]. }
  rewrite <- Z.lxor_lor, <- Z.add_nocarry_lxor by done. by rewrite Z.shiftl_mul_pow2 by lia.
Qed.

Section slices.
Context {A : Type}.
Implicit Types (l k : list A) (i a b : Z).

Lemma zlen_nonneg l : 0 <= zlen l.
Proof. unfold zlen. lia. Qed.

Lemma zlen_app l k : zlen (l ++ k) = zlen l + zlen k.
Proof. unfold zlen. rewrite length_app. lia. Qed.

Lemma zlen_cons (x : A) l : zlen (x :: l) = 1 + zlen l.
Proof. unfold zlen. simpl. lia. Qed.

Lemma zlen_nil : zlen (@nil A) = 0.
Proof. done. Qed.

Lemma zlen_0 l : zlen l = 0 -> l = [].
Proof. unfold zlen. destruct l; simpl; [done|lia]. Qed.

Lemma zlen_pos l : l <> [] -> 1 <= zlen l.
Proof. unfold zlen. destruct l; simpl; [done|lia]. Qed.

Lemma get_Some_range l i x : get l i = Some x -> 0 <= i < zlen l.
Proof.
  unfold get, zlen. case_match; [done|]. breflect.
  intros H'%lookup_lt_Some. lia.
Qed.

Lemma get_lookup l i x : get l i = Some x -> l !! Z.to_nat i = Some x.
Proof. unfold get. by destruct (i <? 0). Qed.

Lemma get_is_Some l i : 0 <= i < zlen l -> exists x, get l i = Some x.
Proof.
  intros [? ?]. unfold get, zlen in *. case_match; breflect; [lia|].
  apply lookup_lt_is_Some. lia.
Qed.

Lemma get_None l i : 0 <= i -> get l i = None -> zlen l <= i.
Proof.
  unfold get, zlen. case_match; breflect; [lia|].
  intros ? ?%lookup_ge_None. lia.
Qed.

Lemma get_app_mid l (x : A) k : get (l ++ x :: k) (zlen l) = Some x.
Proof.
  unfold get. case_match; breflect; [pose proof (zlen_nonneg l); lia|].
  unfold zlen. rewrite Nat2Z.id. by apply list_lookup_middle.
Qed.

Lemma get_app_l l k i : i < zlen l -> get (l ++ k) i = get l i.
Proof.
  intros. unfold get, zlen in *. case_match; [done|]. breflect.
  apply lookup_app_l. lia.
Qed.

Lemma get_range_Some l a b k :
  get_range l a b = Some k -> 0 <= a <= b /\ b <= zlen l /\ zlen k = b - a.
Proof.
  unfold get_range. case_match; [|done]. breflect. intros. simplify_eq.
  split_and!; try lia. unfold zlen in *. rewrite length_take, length_drop. lia.
Qed.

Lemma get_range_is_Some l a b :
  0 <= a <= b -> b <= zlen l -> exists k, get_range l a b = Some k.
Proof.
  intros. unfold get_range. rewrite (proj2 (Z.leb_le 0 a)), (proj2 (Z.leb_le a b)),
    (proj2 (Z.leb_le b (zlen l))) by lia. eauto.
Qed.

Lemma get_range_None l a b : 0 <= a <= b -> get_range l a b = None -> zlen l < b.
Proof.
  intros ? H. destruct (decide (zlen l < b)); [done|].
  destruct (get_range_is_Some l a b) as [? Hk]; [lia|lia|]. congruence.
Qed.

Lemma get_range_mid l k r b :
  b = zlen l + zlen k -> get_range (l ++ k ++ r) (zlen l) b = Some k.
Proof.
  intros ->. unfold get_range.
  pose proof (zlen_nonneg l); pose proof (zlen_nonneg k); pose proof (zlen_nonneg r).
  rewrite !zlen_app.
  rewrite (proj2 (Z.leb_le 0 (zlen l))), (proj2 (Z.leb_le (zlen l) (zlen l + zlen k))),
    (proj2 (Z.leb_le (zlen l + zlen k) (zlen l + (zlen k + zlen r)))) by lia.
  simpl. f_equal. replace (zlen l + zlen k - zlen l) with (zlen k) by lia.
  unfold zlen. rewrite !Nat2Z.id, drop_app_length, take_app_length. done.
Qed.

(** The same with the split point as an equation. *)
Lemma get_range_at l k r m a b :
  m = l ++ k ++ r -> a = zlen l -> b = a + zlen k -> get_range m a b = Some k.
Proof. intros -> -> ->. by apply get_range_mid. Qed.

(** Slices of an appended byte string, found by walking over it. *)
Lemma get_skip l k i : zlen l <= i -> get (l ++ k) i = get k (i - zlen l).
Proof.
  intros. pose proof (zlen_nonneg l). unfold get. zdecide.
  unfold zlen in *. rewrite lookup_app_r by lia. f_equal. lia.
Qed.

Lemma get_here (x : A) k i : i = 0 -> get (x :: k) i = Some x.
Proof. by intros ->. Qed.

Lemma get_range_skip l k a b :
  zlen l <= a -> get_range (l ++ k) a b = get_range k (a - zlen l) (b - zlen l).
Proof.
  intros. pose proof (zlen_nonneg l). pose proof (zlen_nonneg k).
  unfold get_range. rewrite zlen_app.
  replace ((0 <=? a - zlen l) && (a - zlen l <=? b - zlen l) && (b - zlen l <=? zlen k))
    with ((0 <=? a) && (a <=? b) && (b <=? zlen l + zlen k)).
  - case_match; [|done]. breflect. f_equal.
    replace (b - zlen l - (a - zlen l)) with (b - a) by lia. f_equal.
    unfold zlen in *. rewrite drop_app_ge by lia. f_equal. lia.
  - apply eq_true_iff_eq. rewrite !andb_true_iff, !Z.leb_le. lia.
Qed.

Lemma get_skip1 (x : A) k i : 1 <= i -> get (x :: k) i = get k (i - 1).
Proof. intros. by apply (get_skip [x]). Qed.

Lemma get_range_skip1 (x : A) k a b :
  1 <= a -> get_range (x :: k) a b = get_range k (a - 1) (b - 1).
Proof. intros. by apply (get_range_skip [x]). Qed.

Lemma get_app_head l k x : get (l ++ k) (zlen l) = Some x -> exists k', k = x :: k'.
Proof.
  rewrite get_skip, Z.sub_diag by lia. destruct k as [|y k]; [done|].
  rewrite get_here by done. intros [= ->]. eauto.
Qed.

(** Cut a list at a length it has. *)
Lemma cut_at l n : 0 <= n <= zlen l -> exists k r, l = k ++ r /\ zlen k = n.
Proof.
  intros. exists (take (Z.to_nat n) l), (drop (Z.to_nat n) l).
  rewrite take_drop. split; [done|]. unfold zlen in *. rewrite length_take. lia.
Qed.

Lemma get_range_here l k a b : a = 0 -> b = zlen l -> get_range (l ++ k) a b = Some l.
Proof. intros -> ->. by apply (get_range_mid [] l k). Qed.

Lemma get_range_all l a b : a = 0 -> b = zlen l -> get_range l a b = Some l.
Proof. intros. rewrite <- (app_nil_r l) at 1. by apply get_range_here. Qed.

Lemma get_range_one l a k :
  get_range l a (a + 1) = Some k -> exists x, k = [x] /\ get l a = Some x.
Proof.
  intros E. destruct (get_range_Some _ _ _ _ E) as (Ha & Hb & Hz).
  destruct k as [|x [|]]; try (unfold zlen in Hz; simpl in Hz; lia). exists x. split; [done|].
  unfold get_range in E. unfold get. zdecide. case_match; [|done]. injection E as E.
  apply (f_equal (fun l => l !! 0%nat)) in E. rewrite lookup_take, lookup_drop in E.
  rewrite decide_True in E by lia. rewrite Nat.add_0_r in E. exact E.
Qed.

Lemma get_range_in l a b k x : get_range l a b = Some k -> x ∈ k -> x ∈ l.
Proof.
  unfold get_range. case_match; [|done]. intros [= <-] Hx.
  by apply (subseteq_drop (Z.to_nat a)), (subseteq_take (Z.to_nat (b - a))).
Qed.
End slices.

Lemma get_range_bytes l a b k : bytes_ok l -> get_range l a b = Some k -> bytes_ok k.
Proof.
  unfold bytes_ok. rewrite !Forall_forall. intros Hl Hk x Hx.
  by eapply Hl, get_range_in.
Qed.

Lemma get_byte l i b : bytes_ok l -> get l i = Some b -> in_u8 b.
Proof.
  unfold get. case_match; [done|]. intros Hl Hb.
  by apply (Forall_lookup_1 _ _ _ _ Hl Hb).
Qed.

Section big_endian.
Implicit Types (n : nat) (v : Z) (l : list Z).

Lemma length_to_be n v : length (to_be n v) = n.
Proof. induction n; simpl; auto. Qed.

Lemma zlen_to_be n v : zlen (to_be n v) = Z.of_nat n.
Proof. unfold zlen. by rewrite length_to_be. Qed.

Lemma to_be_bytes n v : bytes_ok (to_be n v).
Proof.
  induction n; constructor; [|done].
  pose proof (Z.mod_pos_bound (v / 256 ^ Z.of_nat n) 256). width_lia.
Qed.

Lemma from_be_acc l acc :
  fold_left (fun a b => a * 256 + b) l acc = acc * 256 ^ zlen l + from_be l.
Proof.
  unfold from_be. revert acc. induction l as [|b l IH]; intros acc; simpl; [rewrite zlen_nil; lia|].
  rewrite IH, (IH (0 * 256 + b)), zlen_cons, Z.pow_add_r by (pose proof (zlen_nonneg l); lia). lia.
Qed.

Lemma from_be_cons b l : from_be (b :: l) = b * 256 ^ zlen l + from_be l.
Proof. unfold from_be at 1. simpl. rewrite from_be_acc. lia. Qed.

Lemma from_be_snoc l b : from_be (l ++ [b]) = from_be l * 256 + b.
Proof. unfold from_be. by rewrite fold_left_app. Qed.

Lemma from_be_bound l : bytes_ok l -> 0 <= from_be l < 256 ^ zlen l.
Proof.
  induction 1 as [|b l Hb _ IH]; [by vm_compute|].
  rewrite from_be_cons, zlen_cons, Z.pow_add_r by (pose proof (zlen_nonneg l); lia).
  width. nia.
Qed.

Lemma from_be_to_be_mod n v : from_be (to_be n v) = v mod 256 ^ Z.of_nat n.
Proof.
  induction n as [|n IH]; simpl to_be; [by rewrite Z.mod_1_r|].
  rewrite from_be_cons, IH, zlen_to_be, Nat2Z.inj_succ, Z.pow_succ_r by lia.
  rewrite (Z.mul_comm 256), Z.rem_mul_r by lia. lia.
Qed.

Lemma from_be_to_be n v : 0 <= v < 256 ^ Z.of_nat n -> from_be (to_be n v) = v.
Proof. intros. rewrite from_be_to_be_mod. by apply Z.mod_small. Qed.

Lemma to_be_inj n a b :
  0 <= a < 256 ^ Z.of_nat n -> 0 <= b < 256 ^ Z.of_nat n -> to_be n a = to_be n b -> a = b.
Proof. intros Ha Hb E. rewrite <- (from_be_to_be n a Ha), E. by apply from_be_to_be. Qed.

Lemma split_fixed {A} (l1 l2 k1 k2 : list A) :
  length l1 = length l2 -> l1 ++ k1 = l2 ++ k2 -> l1 = l2 /\ k1 = k2.
Proof. intros. by apply app_inj_1. Qed.

Lemma to_be_mod n v m : (n <= m)%nat -> to_be n (v mod 256 ^ Z.of_nat m) = to_be n v.
Proof.
  induction n as [|n IH]; intros Hm; simpl; [done|]. f_equal; [|apply IH; lia].
  replace (256 ^ Z.of_nat m) with (256 ^ Z.of_nat n * (256 * 256 ^ Z.of_nat (m - n - 1))).
  - set (a := 256 ^ Z.of_nat n). assert (0 < a) by (subst a; lia).
    rewrite Z.rem_mul_r, (Z.mul_comm a), Z.div_add by lia.
    rewrite (Z.div_small (v mod a)) by (apply Z.mod_pos_bound; lia). rewrite Z.add_0_l.
    rewrite Z.mod_mod_divide by (exists (256 ^ Z.of_nat (m - n - 1)); lia). done.
  - rewrite <- Z.pow_succ_r, <- Z.pow_add_r by lia. f_equal. lia.
Qed.

Lemma to_be_from_be l : bytes_ok l -> to_be (length l) (from_be l) = l.
Proof.
  induction 1 as [|b l Hb Hl IH]; [done|]. simpl length. simpl to_be.
  pose proof (from_be_bound l Hl). rewrite from_be_cons. unfold zlen in *. f_equal.
  - rewrite Z.div_add_l, Z.div_small, Z.add_0_r by lia. apply Z.mod_small. width_lia.
  - rewrite <- (to_be_mod _ _ (length l)) by lia.
    rewrite Z.add_comm, Z.mod_add, (Z.mod_small (from_be l)) by lia. done.
Qed.
End big_endian.

(** A DNS label length has its two top bits clear. *)
Lemma land_192_small len : 0 <= len < 64 -> Z.land len 192 = 0.
Proof.
  intros. assert (Forall (fun n => Z.land (Z.of_nat n) 192 = 0) (seq 0 64)) as Hall
    by (repeat (apply Forall_cons; split); done || apply Forall_nil).
  rewrite Forall_forall in Hall. rewrite <- (Z2Nat.id len) by lia. apply Hall, elem_of_seq. lia.
Qed.

Create Rewrite HintDb zlen.
#[export] Hint Rewrite @zlen_app @zlen_cons @zlen_nil zlen_to_be : zlen.

(** Compute the lengths of appended byte strings, everywhere. *)
Ltac lens := autorewrite with zlen in *.

(** ** Loops

    A Rust [loop] or [while] is a step function to either the next state or the
    result, iterated with fuel. [loop_terminates] is the one place where fuel
    is shown to be enough: any measure that decreases along the body gives it. *)

Fixpoint loop {St E A} (fuel : nat) (step : St -> result E (St + A)) (s : St)
    : option (result E A) :=
  match fuel with
  | O => None
  | S fuel =>
      match step s with
      | Err e => Some (Err e)
      | Ok (inl s') => loop fuel step s'
      | Ok (inr a) => Some (Ok a)
      end
  end.

Section loops.
Context {St E A : Type} (step : St -> result E (St + A)).

Lemma loop_terminates (I : St -> Prop) (measure : St -> nat) fuel s :
  (forall s s', I s -> step s = Ok (inl s') -> I s' /\ (measure s' < measure s)%nat) ->
  I s -> (measure s < fuel)%nat -> exists r, loop fuel step s = Some r.
Proof.
  intros Hstep. revert s. induction fuel as [|fuel IH]; intros s HI Hm; [lia|]. simpl.
  destruct (step s) as [[s'|a]|e] eqn:Es; eauto.
  destruct (Hstep _ _ HI Es). apply IH; [done|lia].
Qed.

(** An invariant of the body holds of every value the loop returns. *)
Lemma loop_result (I : St -> Prop) (Q : A -> Prop) fuel s a :
  (forall s s', I s -> step s = Ok (inl s') -> I s') ->
  (forall s a, I s -> step s = Ok (inr a) -> Q a) ->
  I s -> loop fuel step s = Some (Ok a) -> Q a.
Proof.
  intros Hs Hr. revert s. induction fuel as [|fuel IH]; intros s HI E1; simpl in E1; [done|].
  destruct (step s) as [[s'|a']|e] eqn:Es; simplify_eq; eauto.
Qed.

(** More fuel never changes a result. *)
Lemma loop_mono fuel fuel' s r :
  (fuel <= fuel')%nat -> loop fuel step s = Some r -> loop fuel' step s = Some r.
Proof.
  revert fuel' s. induction fuel as [|fuel IH]; intros fuel' s Hle E1; [done|].
  destruct fuel' as [|fuel']; [lia|]. simpl in *.
  destruct (step s) as [[s'|a]|e]; try done. apply IH; [lia|done].
Qed.
End loops.

(** ** Folds in any order *)

(** A left fold of steps that commute does not depend on the order. *)
Lemma fold_left_perm {A B} (f : A -> B -> A) l1 l2 a :
  (forall a x y, f (f a x) y = f (f a y) x) -> l1 ≡ₚ l2 -> fold_left f l1 a = fold_left f l2 a.
Proof.
  intros Hf Hp. revert a. induction Hp as [|x l1 l2 _ IH|x y l|l1 l2 l3 _ IH1 _ IH2]; intros a; simpl.
  - done.
  - apply IH.
  - by rewrite Hf.
  - by rewrite IH1.
Qed.

Lemma forallb_perm {A} (f : A -> bool) l1 l2 : l1 ≡ₚ l2 -> forallb f l1 = forallb f l2.
Proof.
  induction 1 as [|x l1 l2 _ IH|x y l|l1 l2 l3 _ IH1 _ IH2]; simpl;
    [done|by rewrite IH|by destruct (f x), (f y)|congruence].
Qed.

(** ** Readers over a byte string

    A component's reader is a record with an input and a position. [reads_back]
    states that an operation reads exactly given bytes wherever it stands, so
    that round trips compose from those of the fields. *)

Class PosReader (R : Type) := { reader_input : R -> list Z; reader_pos : R -> Z }.

Section readers.
Context {R E : Type} `{PosReader R}.

(** The reader has read [pre] and [post] is left. *)
Definition standing (r : R) (pre post : list Z) : Prop :=
  reader_input r = pre ++ post /\ reader_pos r = zlen pre /\ zlen (pre ++ post) <= u64_max.

Definition reads_back {A} (op : R -> result E (A * R)) (x : list Z) (v : A) : Prop :=
  forall r pre post, standing r pre (x ++ post) ->
  exists r', op r = Ok (v, r') /\ standing r' (pre ++ x) post.

Lemma reads_bind {A B} (op : R -> result E (A * R)) (k : A -> R -> result E (B * R)) x y v w :
  reads_back op x v -> reads_back (k v) y w ->
  reads_back (fun r => let? (a, r) := op r in k a r) (x ++ y) w.
Proof.
  intros Hx Hy r pre post Hs. rewrite <- app_assoc in Hs.
  destruct (Hx r pre (y ++ post) Hs) as (r1 & -> & Hs1).
  destruct (Hy r1 _ post Hs1) as (r2 & -> & Hs2). exists r2. by rewrite app_assoc.
Qed.

Lemma reads_ret {A} (v : A) : reads_back (fun r => Ok (v, r)) [] v.
Proof. intros r pre post Hs. exists r. by rewrite app_nil_r. Qed.

Lemma reads_last {A B} (op : R -> result E (A * R)) (f : A -> B) x v :
  reads_back op x v -> reads_back (fun r => let? (a, r) := op r in Ok (f a, r)) x (f v).
Proof. intros Hx. rewrite <- (app_nil_r x). apply (reads_bind op (fun a r => Ok (f a, r)) x [] v); [done|apply reads_ret]. Qed.
End readers.

Lemma from_be_one v : from_be [v] = v.
Proof. change (0 * 256 + v = v). lia. Qed.

(** ** ASCII text

    Strings are their bytes. *)

(** [u8::to_ascii_lowercase]. *)
Definition to_ascii_lowercase (b : Z) : Z :=
  if (65 <=? b) && (b <=? 90) then b + 32 else b.

(** [u8::is_ascii_alphanumeric]. *)
Definition is_ascii_alphanumeric (b : Z) : bool :=
  ((48 <=? b) && (b <=? 57)) || ((65 <=? b) && (b <=? 90)) || ((97 <=? b) && (b <=? 122)).

(** [eq_ignore_ascii_case]. *)
Definition eq_ignore_ascii_case (a b : list Z) : bool :=
  bool_decide (map to_ascii_lowercase a = map to_ascii_lowercase b).

(** [slice.split(|b| *b == sep)]. *)
Fixpoint split_on (sep : Z) (l : list Z) : list (list Z) :=
  match l with
  | [] => [[]]
  | b :: rest =>
      if b =? sep then [] :: split_on sep rest
      else match split_on sep rest with
      | first :: others => (b :: first) :: others
      | [] => [[b]]
      end
  end.

(** [str::strip_suffix('.').unwrap_or]. *)
Definition strip_dot (input : list Z) : list Z :=
  match last input with
  | Some 46 => removelast input
  | _ => input
  end.

(** A Rust [str] is its characters; [char::is_whitespace], and the UTF-8 bytes
    of a character. *)
Definition is_whitespace (c : Z) : bool :=
  ((9 <=? c) && (c <=? 13)) || (c =? 32) || (c =? 0x85) || (c =? 0xa0) || (c =? 0x1680)
  || ((0x2000 <=? c) && (c <=? 0x200a)) || (c =? 0x2028) || (c =? 0x2029) || (c =? 0x202f)
  || (c =? 0x205f) || (c =? 0x3000).
Definition utf8 (c : Z) : list Z :=
  if c <? 0x80 then [c] else
  if c <? 0x800 then [192 + c / 64; 128 + c mod 64] else
  if c <? 0x10000 then [224 + c / 4096; 128 + (c / 64) mod 64; 128 + c mod 64] else
  [240 + c / 262144; 128 + (c / 4096) mod 64; 128 + (c / 64) mod 64; 128 + c mod 64].
Definition str_bytes (s : list Z) : list Z := concat (map utf8 s).

(** Strip matching characters at the front, as [trim_start_matches] does. *)
Fixpoint trim_start (p : Z -> bool) (s : list Z) : list Z :=
  match s with
  | [] => []
  | c :: s' => if p c then trim_start p s' else s
  end.
Definition trim_end (p : Z -> bool) (s : list Z) : list Z := reverse (trim_start p (reverse s)).
Definition trim (s : list Z) : list Z := trim_end is_whitespace (trim_start is_whitespace s).

Lemma lowercase_u8 b : in_u8 b -> in_u8 (to_ascii_lowercase b).
Proof. unfold to_ascii_lowercase. case_match; breflect; width_lia. Qed.

Lemma lowercase_idem b : to_ascii_lowercase (to_ascii_lowercase b) = to_ascii_lowercase b.
Proof. unfold to_ascii_lowercase. repeat case_match; breflect; lia. Qed.

Lemma split_on_nil sep l : split_on sep l <> [].
Proof. destruct l as [|b l]; simpl; [done|]. case_match; [done|]. by case_match. Qed.

Lemma split_on_app sep l r : split_on sep (l ++ sep :: r) = split_on sep l ++ split_on sep r.
Proof.
  induction l as [|b l IH]; simpl; [by rewrite Z.eqb_refl|].
  destruct (b =? sep); simpl; [by rewrite IH|]. rewrite IH.
  pose proof (split_on_nil sep l). by destruct (split_on sep l).
Qed.

Lemma split_on_none sep l : sep ∉ l -> split_on sep l = [l].
Proof.
  induction l as [|b l IH]; simpl; [done|]. rewrite not_elem_of_cons. intros [Hb Hl].
  rewrite (proj2 (Z.eqb_neq b sep)) by done. by rewrite IH.
Qed.

(** Split at the last separator. *)
Lemma last_label sep l :
  exists label, last (split_on sep l) = Some label /\ sep ∉ label /\
    (l = label \/ exists prefix, l = prefix ++ sep :: label).
Proof.
  induction l as [|b l IH] using rev_ind.
  { exists []. split_and!; [done|by apply not_elem_of_nil|by left]. }
  destruct IH as (label & Hl & Hn & Hcase). destruct (decide (b = sep)) as [->|Hb].
  - exists []. rewrite (split_on_app sep l []). cbn [split_on]. rewrite last_snoc.
    split_and!; [done|by apply not_elem_of_nil|right]. by exists l.
  - assert (Hnb : sep ∉ label ++ [b]) by set_solver.
    exists (label ++ [b]). destruct Hcase as [->|[prefix ->]].
    + rewrite split_on_none by done. split_and!; [done|done|by left].
    + rewrite <- app_assoc. cbn [app]. rewrite split_on_app, (split_on_none sep (label ++ [b])) by done.
      rewrite last_snoc. split_and!; [done|done|right]. by exists prefix.
Qed.

Lemma trim_start_id p c l : p c = false -> trim_start p (c :: l) = c :: l.
Proof. intros H. cbn [trim_start]. by rewrite H. Qed.

Lemma trim_end_id p c l : p c = false -> trim_end p (l ++ [c]) = l ++ [c].
Proof.
  intros H. unfold trim_end. rewrite reverse_app. cbn [reverse rev_append app].
  rewrite trim_start_id by done. by rewrite <- (reverse_involutive (l ++ [c])), reverse_app.
Qed.
