(* ===== verification/Text.v ===== *)
(** * Text literals

    ASCII literals of the source as lists of characters. *)

From Stdlib Require String Ascii.
From S2P Require Import Prelude.
Import Stdlib.Strings.String.StringSyntax.
Delimit Scope string_scope with str.

(** The characters of an ASCII literal. *)
Definition text (literal : String.string) : list Z :=
  map (fun c => Z.of_N (Ascii.N_of_ascii c)) (String.list_ascii_of_string literal).
Arguments text literal%_str.
