(* ===== verification/ByteOrder.v ===== *)
(** * Lexicographic order on byte strings, and canonical sorting

    The order of Rust's [Ord] on byte slices, [sort_unstable] by such a key and
    [dedup], shared by the namespace decisions, the proof-of-work comparison and
    DNSSEC. *)

From Stdlib Require Import Sorting.Sorted.
From S2P Require Import Prelude.

(** Order of byte arrays. *)
Fixpoint bytes_leb (a b : list Z) : bool :=
  match a, b with
  | [], _ => true
  | _ :: _, [] => false
  | x :: a, y :: b => if x <? y then true else if y <? x then false else bytes_leb a b
  end.

(** ** Sorting

    [sort_unstable] by a key in lexicographic order, and [dedup]. *)

Section sorting.
Context {A : Type} (key : A -> list Z).

Fixpoint insert_key (x : A) (l : list A) : list A :=
  match l with
  | [] => [x]
  | y :: l' => if bytes_leb (key x) (key y) then x :: l else y :: insert_key x l'
  end.
Definition sort_keys (l : list A) : list A := foldr insert_key [] l.
End sorting.

Fixpoint dedup {A} `{EqDecision A} (l : list A) : list A :=
  match l with
  | [] => []
  | x :: l' =>
      match l' with
      | y :: _ => if decide (x = y) then dedup l' else x :: dedup l'
      | [] => [x]
      end
  end.

(** ** Sorting is canonical *)

Lemma bytes_leb_refl l : bytes_leb l l = true.
Proof. induction l as [|x l IH]; [done|]. cbn. by rewrite Z.ltb_irrefl. Qed.

Lemma bytes_leb_total a b : bytes_leb a b = false -> bytes_leb b a = true.
Proof.
  revert b. induction a as [|x a IH]; intros [|y b]; cbn; try done.
  destruct (Z.ltb_spec x y), (Z.ltb_spec y x); try done; try lia. apply IH.
Qed.

Lemma bytes_leb_antisym a b : bytes_leb a b = true -> bytes_leb b a = true -> a = b.
Proof.
  revert b. induction a as [|x a IH]; intros [|y b]; cbn; try done.
  destruct (Z.ltb_spec x y), (Z.ltb_spec y x); try done; try lia. intros H1 H2.
  assert (x = y) as -> by lia. by rewrite (IH b).
Qed.

Lemma bytes_leb_trans a b c : bytes_leb a b = true -> bytes_leb b c = true -> bytes_leb a c = true.
Proof.
  revert b c. induction a as [|x a IH]; intros [|y b] [|z c]; cbn; try done.
  destruct (Z.ltb_spec x y), (Z.ltb_spec y x), (Z.ltb_spec y z), (Z.ltb_spec z y),
    (Z.ltb_spec x z), (Z.ltb_spec z x); try done; try lia. apply IH.
Qed.

Lemma dedup_sublist {A} `{EqDecision A} (l : list A) x : x ∈ dedup l <-> x ∈ l.
Proof.
  induction l as [|y l IH]; cbn; [done|]. destruct l as [|z l]; [done|].
  case_decide as Hd; [subst|rewrite !(elem_of_cons (dedup _) x y)]; set_solver.
Qed.

Lemma dedup_nodup {A} `{EqDecision A} (l : list A) : NoDup l -> dedup l = l.
Proof.
  induction 1 as [|x l Hx _ IH]; cbn; [done|]. destruct l as [|y l]; [done|].
  case_decide; [subst; set_solver|]. by rewrite IH.
Qed.

Section sorting_facts.
Context {A : Type} (key : A -> list Z).

Definition key_le (x y : A) : Prop := bytes_leb (key x) (key y) = true.

Lemma insert_key_perm x l : insert_key key x l ≡ₚ x :: l.
Proof.
  induction l as [|y l IH]; cbn; [done|]. case_match; [done|]. rewrite IH. apply Permutation_swap.
Qed.

Lemma sort_keys_perm l : sort_keys key l ≡ₚ l.
Proof. unfold sort_keys. induction l as [|x l IH]; cbn; [done|]. by rewrite insert_key_perm, IH. Qed.

Lemma insert_key_sorted x l : StronglySorted key_le l -> StronglySorted key_le (insert_key key x l).
Proof.
  induction 1 as [|y l Hl IH Hy]; cbn; [by repeat constructor|].
  destruct (bytes_leb (key x) (key y)) eqn:E.
  - constructor; [by constructor|]. constructor; [done|]. eapply Forall_impl; [exact Hy|].
    intros z Hz. unfold key_le in *. by eapply bytes_leb_trans.
  - constructor; [done|]. rewrite insert_key_perm. constructor; [by apply bytes_leb_total|done].
Qed.

Lemma sort_keys_sorted l : StronglySorted key_le (sort_keys key l).
Proof. unfold sort_keys. induction l as [|x l IH]; cbn; [constructor|by apply insert_key_sorted]. Qed.

Lemma sort_sorted l : StronglySorted key_le l -> sort_keys key l = l.
Proof.
  unfold sort_keys. induction 1 as [|x l Hl IH Hx]; cbn; [done|]. rewrite IH.
  destruct l as [|y l]; [done|]. cbn. apply Forall_cons in Hx as [Hy _]. unfold key_le in Hy. by rewrite Hy.
Qed.

Context `{!Inj (=) (=) key}.

Lemma insert_key_comm x y l : insert_key key x (insert_key key y l) = insert_key key y (insert_key key x l).
Proof.
  induction l as [|z l IH]; cbn.
  - destruct (bytes_leb (key x) (key y)) eqn:E1, (bytes_leb (key y) (key x)) eqn:E2; try done.
    + assert (x = y) as -> by (by apply (inj key), bytes_leb_antisym). done.
    + apply bytes_leb_total in E1. congruence.
  - destruct (bytes_leb (key y) (key z)) eqn:Eyz, (bytes_leb (key x) (key z)) eqn:Exz; cbn;
      rewrite ?Eyz, ?Exz; [| | |by rewrite IH].
    + destruct (bytes_leb (key x) (key y)) eqn:E1, (bytes_leb (key y) (key x)) eqn:E2; try done.
      * assert (x = y) as -> by (by apply (inj key), bytes_leb_antisym). done.
      * apply bytes_leb_total in E1. congruence.
    + destruct (bytes_leb (key x) (key y)) eqn:E1; [|done].
      exfalso. assert (bytes_leb (key x) (key z) = true) by (by eapply bytes_leb_trans). congruence.
    + destruct (bytes_leb (key y) (key x)) eqn:E1; [|done].
      exfalso. assert (bytes_leb (key y) (key z) = true) by (by eapply bytes_leb_trans). congruence.
Qed.

(** The result does not depend on the order of the input. *)
Lemma sort_keys_canonical l1 l2 : l1 ≡ₚ l2 -> sort_keys key l1 = sort_keys key l2.
Proof.
  unfold sort_keys. induction 1 as [|x l1 l2 _ IH|x y l|l1 l2 l3 _ IH1 _ IH2]; cbn.
  - done.
  - by rewrite IH.
  - apply insert_key_comm.
  - by rewrite IH1.
Qed.

Context `{EqDecision A}.

Lemma dedup_sorted (l : list A) : StronglySorted key_le l -> StronglySorted key_le (dedup l).
Proof.
  induction 1 as [|x l Hl IH Hx]; cbn; [constructor|]. destruct l as [|y l]; [by repeat constructor|].
  case_decide; [done|]. constructor; [done|]. rewrite Forall_forall in *. intros z Hz.
  apply Hx. by apply dedup_sublist.
Qed.

Lemma dedup_sorted_nodup (l : list A) : StronglySorted key_le l -> NoDup (dedup l).
Proof.
  induction 1 as [|x l Hl IH Hx]; cbn; [constructor|]. destruct l as [|y l]; [repeat constructor; set_solver|].
  case_decide as Hd; [done|]. constructor; [|done]. rewrite dedup_sublist. intros Hin.
  apply Forall_cons in Hx as [Hxy _]. apply StronglySorted_inv in Hl as [_ Hy].
  apply elem_of_cons in Hin as [|Hin]; [done|]. rewrite Forall_forall in Hy. specialize (Hy x Hin).
  apply Hd. by apply (inj key), bytes_leb_antisym.
Qed.

Lemma dedup_sort_idem l : dedup (sort_keys key (dedup (sort_keys key l))) = dedup (sort_keys key l).
Proof.
  rewrite (sort_sorted (dedup _)) by (apply dedup_sorted, sort_keys_sorted).
  by apply dedup_nodup, dedup_sorted_nodup, sort_keys_sorted.
Qed.
End sorting_facts.

(** ** Keys that order alike *)

Lemma insert_key_map {A B} (f : A -> B) (key : B -> list Z) x l :
  insert_key key (f x) (map f l) = map f (insert_key (fun a => key (f a)) x l).
Proof. induction l as [|y l IH]; cbn; [done|]. case_match; [done|]. cbn. by rewrite IH. Qed.

Lemma sort_keys_map {A B} (f : A -> B) (key : B -> list Z) l :
  sort_keys key (map f l) = map f (sort_keys (fun a => key (f a)) l).
Proof. unfold sort_keys. induction l as [|x l IH]; cbn; [done|]. by rewrite IH, insert_key_map. Qed.

Lemma insert_key_ext {A} (k1 k2 : A -> list Z) x l :
  (forall y, y ∈ l -> bytes_leb (k1 x) (k1 y) = bytes_leb (k2 x) (k2 y)) -> insert_key k1 x l = insert_key k2 x l.
Proof.
  induction l as [|y l IH]; intros Hk; cbn; [done|]. rewrite (Hk y) by left. case_match; [done|].
  rewrite IH; [done|]. intros z Hz. apply Hk. by right.
Qed.

Lemma sort_keys_ext {A} (k1 k2 : A -> list Z) l :
  (forall x y, x ∈ l -> y ∈ l -> bytes_leb (k1 x) (k1 y) = bytes_leb (k2 x) (k2 y)) ->
  sort_keys k1 l = sort_keys k2 l.
Proof.
  unfold sort_keys. induction l as [|x l IH]; intros Hk; cbn; [done|].
  rewrite <- IH by (intros; apply Hk; by right). apply insert_key_ext. intros y Hy.
  apply Hk; [left|]. right. change (y ∈ sort_keys k1 l) in Hy. by rewrite sort_keys_perm in Hy.
Qed.

Lemma bytes_leb_app p a b : bytes_leb (p ++ a) (p ++ b) = bytes_leb a b.
Proof. induction p as [|x p IH]; cbn; [done|]. by rewrite Z.ltb_irrefl. Qed.
