(* ===== verification/Runtime.v ===== *)
(** * Browser runtime: the authority state machine and its admission stamps

    Models [src/crates/hns-browser-runtime/src/lib.rs]: the [AuthorityState]
    graph, the session-bound event clock of [BrowserRuntime] and the stamps it
    hands to admitted work. A [&mut self] method returning [Result] becomes a
    function to the runtime after the call and the result; the runtime after an
    error is the one the code leaves behind. *)

From S2P Require Import Prelude.

Definition RUNTIME_SCHEMA_VERSION : Z := 2.

Inductive RuntimeError :=
| ZeroSession
| InvalidAuthorityTransition
| CounterExhausted
| RuntimeStopped
| AuthorityNotReady.

Record RuntimeSessionId := { session_bytes : list Z }.

(** [RuntimeSessionId::new]: the sixteen bytes read as a big-endian [u128]. *)
Definition session_new (bytes : list Z) : result RuntimeError RuntimeSessionId :=
  if from_be bytes =? 0 then Err ZeroSession else Ok {| session_bytes := bytes |}.

Inductive AuthorityState :=
| Uninitialized | LocalStateOpened | HeaderSyncing | HeaderCurrent | ProofReady
| ResolutionTransportReady | DnssecVerified | DaneOriginVerified | BrowserBridgeReady
| Active | Degraded | Revoked | Stopped.

#[export] Instance RuntimeSessionId_eq_dec : EqDecision RuntimeSessionId.
Proof. solve_decision. Defined.
#[export] Instance AuthorityState_eq_dec : EqDecision AuthorityState.
Proof. solve_decision. Defined.

Record RuntimeSnapshot := {
  snap_schema_version : Z;
  snap_session : RuntimeSessionId;
  snap_generation : Z;
  snap_event_sequence : Z;
  snap_authority_state : AuthorityState }.

Record RuntimeStamp := {
  stamp_session : RuntimeSessionId;
  stamp_generation : Z;
  stamp_event_sequence : Z }.

Record BrowserRuntime := {
  rt_session : RuntimeSessionId;
  rt_generation : Z;
  rt_event_sequence : Z;
  rt_invalidation_sequence : Z;
  rt_authority_state : AuthorityState }.

Definition runtime_new (session : RuntimeSessionId) : BrowserRuntime :=
  {| rt_session := session; rt_generation := 1; rt_event_sequence := 0;
     rt_invalidation_sequence := 0; rt_authority_state := Uninitialized |}.

Definition runtime_snapshot (r : BrowserRuntime) : RuntimeSnapshot :=
  {| snap_schema_version := RUNTIME_SCHEMA_VERSION; snap_session := rt_session r;
     snap_generation := rt_generation r; snap_event_sequence := rt_event_sequence r;
     snap_authority_state := rt_authority_state r |}.

Definition ensure_policy_change_capacity (r : BrowserRuntime) : result RuntimeError unit :=
  if (rt_generation r =? u64_max) || (rt_event_sequence r =? u64_max)
  then Err CounterExhausted else Ok tt.

Definition policy_changed (r : BrowserRuntime)
    : BrowserRuntime * result RuntimeError RuntimeSnapshot :=
  match ensure_policy_change_capacity r with
  | Err e => (r, Err e)
  | Ok _ =>
      let sequence := rt_event_sequence r + 1 in
      let r' := {| rt_session := rt_session r;
                   rt_generation := rt_generation r + 1;
                   rt_event_sequence := sequence;
                   rt_invalidation_sequence := sequence;
                   rt_authority_state :=
                     if bool_decide (rt_authority_state r <> Stopped)
                     then Revoked else rt_authority_state r |} in
      (r', Ok (runtime_snapshot r'))
  end.

Definition authority_admits_work (s : AuthorityState) : bool :=
  match s with
  | ResolutionTransportReady | DnssecVerified | DaneOriginVerified
  | BrowserBridgeReady | Active => true
  | _ => false
  end.

Definition valid_authority_transition (current next : AuthorityState) : bool :=
  match current, next with
  | Uninitialized, LocalStateOpened => true
  | (LocalStateOpened | Degraded | Revoked), HeaderSyncing => true
  | HeaderSyncing, HeaderCurrent => true
  | HeaderCurrent, ProofReady => true
  | ProofReady, ResolutionTransportReady => true
  | ResolutionTransportReady, (DnssecVerified | BrowserBridgeReady) => true
  | DnssecVerified, (DaneOriginVerified | BrowserBridgeReady) => true
  | DaneOriginVerified, BrowserBridgeReady => true
  | BrowserBridgeReady, Active => true
  | (Uninitialized | LocalStateOpened | HeaderSyncing | HeaderCurrent | ProofReady
     | ResolutionTransportReady | DnssecVerified | DaneOriginVerified
     | BrowserBridgeReady | Active), (Degraded | Revoked | Stopped) => true
  | (Degraded | Revoked), Stopped => true
  | _, _ => false
  end.

(** The [matches!] guard of [BrowserRuntime::transition]. *)
Definition invalidating_state (next : AuthorityState) : bool :=
  match next with Degraded | Revoked | Stopped => true | _ => false end.

Definition transition (r : BrowserRuntime) (next : AuthorityState)
    : BrowserRuntime * result RuntimeError RuntimeSnapshot :=
  if negb (valid_authority_transition (rt_authority_state r) next)
  then (r, Err InvalidAuthorityTransition)
  else match checked_add (rt_event_sequence r) 1 with
  | None => (r, Err CounterExhausted)
  | Some event_sequence =>
      let r' := {| rt_session := rt_session r;
                   rt_generation := rt_generation r;
                   rt_event_sequence := event_sequence;
                   rt_invalidation_sequence :=
                     if invalidating_state next then event_sequence
                     else rt_invalidation_sequence r;
                   rt_authority_state := next |} in
      (r', Ok (runtime_snapshot r'))
  end.

Definition admit_event (r : BrowserRuntime)
    : BrowserRuntime * result RuntimeError RuntimeStamp :=
  if bool_decide (rt_authority_state r = Stopped) then (r, Err RuntimeStopped)
  else if negb (match rt_authority_state r with
                | ResolutionTransportReady | DnssecVerified | DaneOriginVerified
                | BrowserBridgeReady | Active => true
                | _ => false
                end) then (r, Err AuthorityNotReady)
  else match checked_add (rt_event_sequence r) 1 with
  | None => (r, Err CounterExhausted)
  | Some sequence =>
      let r' := {| rt_session := rt_session r;
                   rt_generation := rt_generation r;
                   rt_event_sequence := sequence;
                   rt_invalidation_sequence := rt_invalidation_sequence r;
                   rt_authority_state := rt_authority_state r |} in
      (r', Ok {| stamp_session := rt_session r';
                 stamp_generation := rt_generation r';
                 stamp_event_sequence := rt_event_sequence r' |})
  end.

(** [BrowserRuntime::admits]. *)
Definition runtime_admits (r : BrowserRuntime) (stamp : RuntimeStamp) : bool :=
  authority_admits_work (rt_authority_state r)
  && bool_decide (stamp_session stamp = rt_session r)
  && (stamp_generation stamp =? rt_generation r)
  && (rt_invalidation_sequence r <? stamp_event_sequence stamp)
  && (stamp_event_sequence stamp <=? rt_event_sequence r).

(** ** Executions

    One event per call; a call that returns an error is the event
    [EvRejected]. *)

Inductive runtime_event :=
| EvPolicyChanged
| EvTransition (next : AuthorityState)
| EvAdmitted (stamp : RuntimeStamp)
| EvRejected (e : RuntimeError).

Inductive runtime_step : BrowserRuntime -> runtime_event -> BrowserRuntime -> Prop :=
| step_policy r r' s :
    policy_changed r = (r', Ok s) -> runtime_step r EvPolicyChanged r'
| step_policy_err r r' e :
    policy_changed r = (r', Err e) -> runtime_step r (EvRejected e) r'
| step_transition r next r' s :
    transition r next = (r', Ok s) -> runtime_step r (EvTransition next) r'
| step_transition_err r next r' e :
    transition r next = (r', Err e) -> runtime_step r (EvRejected e) r'
| step_admit r r' stamp :
    admit_event r = (r', Ok stamp) -> runtime_step r (EvAdmitted stamp) r'
| step_admit_err r r' e :
    admit_event r = (r', Err e) -> runtime_step r (EvRejected e) r'.

Inductive runtime_trace : BrowserRuntime -> list runtime_event -> BrowserRuntime -> Prop :=
| trace_nil r : runtime_trace r [] r
| trace_cons r ev r1 evs r2 :
    runtime_step r ev r1 -> runtime_trace r1 evs r2 -> runtime_trace r (ev :: evs) r2.

(** The events after which no earlier stamp may be honoured again. *)
Definition invalidating (ev : runtime_event) : bool :=
  match ev with
  | EvPolicyChanged => true
  | EvTransition next => invalidating_state next
  | _ => false
  end.

Definition transitions_of (evs : list runtime_event) : list AuthorityState :=
  omap (fun ev => match ev with EvTransition n => Some n | _ => None end) evs.

(** Counter invariant: both clocks fit a [u64], generations start at one, and
    the invalidation floor never runs ahead of the clock. *)
Definition runtime_wf (r : BrowserRuntime) : Prop :=
  1 <= rt_generation r <= u64_max /\
  0 <= rt_invalidation_sequence r <= rt_event_sequence r /\
  rt_event_sequence r <= u64_max.

(** States still to be entered before work can be admitted. *)
Definition remaining_path (s : AuthorityState) : list AuthorityState :=
  match s with
  | Uninitialized | LocalStateOpened | Degraded | Revoked | Stopped =>
      [HeaderSyncing; HeaderCurrent; ProofReady; ResolutionTransportReady]
  | HeaderSyncing => [HeaderCurrent; ProofReady; ResolutionTransportReady]
  | HeaderCurrent => [ProofReady; ResolutionTransportReady]
  | ProofReady => [ResolutionTransportReady]
  | _ => []
  end.

(** ** Lemmas *)

Ltac unfold_runtime :=
  unfold policy_changed, ensure_policy_change_capacity, transition, admit_event in *.

(** Invert one step into the call that made it. *)
Ltac runtime_step_inv H :=
  inversion H; subst; clear H; unfold_runtime; run_all;
  repeat match goal with
  | H : checked_add _ _ = Some _ |- _ => apply checked_add_Some in H; destruct H; subst
  end; simpl in *.

Lemma runtime_step_wf r ev r' : runtime_wf r -> runtime_step r ev r' -> runtime_wf r'.
Proof. unfold runtime_wf. intros Hwf Hs. runtime_step_inv Hs; width_lia. Qed.

Lemma runtime_step_session r ev r' :
  runtime_step r ev r' -> rt_session r' = rt_session r.
Proof. intros Hs. by runtime_step_inv Hs. Qed.

Lemma runtime_step_clock r ev r' :
  runtime_step r ev r' -> rt_event_sequence r <= rt_event_sequence r'.
Proof. intros Hs. runtime_step_inv Hs; lia. Qed.

(** A step either leaves generation and floor alone or puts the floor at a
    clock value above every stamp issued so far. *)
Lemma runtime_step_floor r ev r' :
  runtime_step r ev r' ->
  if invalidating ev
  then rt_event_sequence r < rt_invalidation_sequence r'
  else rt_generation r' = rt_generation r /\
       rt_invalidation_sequence r' = rt_invalidation_sequence r.
Proof.
  intros Hs. runtime_step_inv Hs; try done; lia.
Qed.

Lemma runtime_trace_wf r evs r' : runtime_wf r -> runtime_trace r evs r' -> runtime_wf r'.
Proof. intros Hwf Ht. induction Ht; eauto using runtime_step_wf. Qed.

Lemma runtime_floor_mono r ev r' :
  runtime_wf r -> runtime_step r ev r' ->
  rt_invalidation_sequence r <= rt_invalidation_sequence r'.
Proof.
  intros (_ & ? & _) Hs. pose proof (runtime_step_floor _ _ _ Hs) as Hf.
  destruct (invalidating ev); lia.
Qed.

Lemma runtime_trace_session r evs r' :
  runtime_trace r evs r' -> rt_session r' = rt_session r.
Proof. induction 1; [done|]. etrans; eauto using runtime_step_session. Qed.

Lemma runtime_trace_clock r evs r' :
  runtime_trace r evs r' -> rt_event_sequence r <= rt_event_sequence r'.
Proof. induction 1; [done|]. etrans; eauto using runtime_step_clock. Qed.

Lemma runtime_trace_floor_mono r evs r' :
  runtime_wf r -> runtime_trace r evs r' ->
  rt_invalidation_sequence r <= rt_invalidation_sequence r'.
Proof.
  intros Hwf Ht. induction Ht; [done|].
  etrans; eauto using runtime_floor_mono, runtime_step_wf.
Qed.

Lemma runtime_trace_floor r evs r' :
  runtime_wf r -> runtime_trace r evs r' ->
  if existsb invalidating evs
  then rt_event_sequence r < rt_invalidation_sequence r'
  else rt_generation r' = rt_generation r /\
       rt_invalidation_sequence r' = rt_invalidation_sequence r.
Proof.
  intros Hwf Ht. induction Ht as [r|r ev r1 evs r2 Hs Ht IH]; simpl; [done|].
  pose proof (runtime_step_floor _ _ _ Hs) as Hf.
  pose proof (runtime_step_wf _ _ _ Hwf Hs) as Hwf1.
  pose proof (runtime_step_clock _ _ _ Hs).
  pose proof (runtime_trace_floor_mono _ _ _ Hwf1 Ht). specialize (IH Hwf1).
  destruct (invalidating ev); simpl in *; [lia|].
  destruct (existsb invalidating evs); [lia|]. destruct Hf, IH. by split; etrans.
Qed.

Lemma admit_event_Ok r r' stamp :
  admit_event r = (r', Ok stamp) ->
  stamp_session stamp = rt_session r' /\ stamp_generation stamp = rt_generation r' /\
  stamp_event_sequence stamp = rt_event_sequence r' /\
  rt_event_sequence r' = rt_event_sequence r + 1 /\
  rt_invalidation_sequence r' = rt_invalidation_sequence r /\
  authority_admits_work (rt_authority_state r') = true.
Proof.
  unfold admit_event. intros H. run_all;
  match goal with H : checked_add _ _ = Some _ |- _ => apply checked_add_Some in H as [-> _] end;
  by split_and!.
Qed.

Lemma remaining_path_step s next :
  valid_authority_transition s next = true ->
  sublist (remaining_path s) (next :: remaining_path next).
Proof. destruct s, next; try done; intros _; simpl; repeat constructor. Qed.

Lemma remaining_path_revoked s :
  sublist (remaining_path s) (remaining_path Revoked).
Proof. destruct s; simpl; repeat constructor. Qed.

Lemma remaining_path_admitting s :
  remaining_path s = [] <-> authority_admits_work s = true.
Proof. by destruct s. Qed.

Lemma runtime_trace_path r evs r' :
  runtime_trace r evs r' -> authority_admits_work (rt_authority_state r') = true ->
  sublist (remaining_path (rt_authority_state r)) (transitions_of evs).
Proof.
  intros Ht Hw. induction Ht as [r|r ev r1 evs r2 Hs Ht IH].
  { by rewrite (proj2 (remaining_path_admitting _) Hw). }
  specialize (IH Hw). inversion Hs; subst; clear Hs; unfold_runtime; run_all; try done.
  1: etrans; [apply remaining_path_revoked|done].
  all: etrans; [by apply remaining_path_step|]; by apply sublist_skip.
Qed.

Lemma stopped_step r ev r' :
  rt_authority_state r = Stopped -> runtime_step r ev r' -> rt_authority_state r' = Stopped.
Proof.
  intros Hst Hs. inversion Hs; subst; clear Hs; unfold_runtime; rewrite ?Hst in *;
  run_all; naive_solver.
Qed.

(** ** Properties *)

(** Stamp validity is exactly "no invalidating event since admission": along
    every execution after the runtime issued [stamp], [BrowserRuntime::admits]
    accepts it if and only if the authority state admits work and no policy
    change, degradation, revocation or stop has happened since. In particular
    recovery after a failure never revives an earlier stamp. *)
Theorem stamp_admitted_iff_not_invalidated r r1 evs r2 stamp :
  runtime_wf r ->
  admit_event r = (r1, Ok stamp) ->
  runtime_trace r1 evs r2 ->
  runtime_admits r2 stamp =
    authority_admits_work (rt_authority_state r2) && negb (existsb invalidating evs).
Proof.
  intros Hwf Hadm Ht.
  assert (runtime_wf r1) as Hwf1 by eauto using runtime_step_wf, step_admit.
  destruct (admit_event_Ok _ _ _ Hadm) as (Hs & Hg & Hn & Hclk & Hfl & _).
  pose proof (runtime_trace_session _ _ _ Ht). pose proof (runtime_trace_clock _ _ _ Ht).
  pose proof (runtime_trace_floor _ _ _ Hwf1 Ht) as Hf. destruct Hwf as (_ & ? & _).
  unfold runtime_admits. rewrite bool_decide_eq_true_2 by congruence.
  destruct (authority_admits_work (rt_authority_state r2)); [|done]. simpl.
  destruct (existsb invalidating evs); simpl.
  - rewrite (proj2 (Z.ltb_ge (rt_invalidation_sequence r2) (stamp_event_sequence stamp))) by lia.
    by destruct (_ =? _).
  - destruct Hf as [-> ->]. rewrite Hg, Z.eqb_refl. simpl.
    apply andb_true_intro. rewrite Z.ltb_lt, Z.leb_le. lia.
Qed.

(** C1. Work is admitted only behind a freshly walked authority path: an
    execution from a runtime that was never initialised, or was degraded,
    revoked or stopped, can reach a state that admits work only by entering
    header synchronisation, header currency, proof readiness and transport
    readiness in that order. *)
Theorem no_authority_without_fresh_path r evs r' :
  rt_authority_state r ∈ [Uninitialized; LocalStateOpened; Degraded; Revoked; Stopped] ->
  runtime_trace r evs r' ->
  authority_admits_work (rt_authority_state r') = true ->
  sublist [HeaderSyncing; HeaderCurrent; ProofReady; ResolutionTransportReady]
    (transitions_of evs).
Proof.
  intros Hin Ht Hw. pose proof (runtime_trace_path _ _ _ Ht Hw) as Hp.
  rewrite !elem_of_cons in Hin. by destruct_or?; [..|set_solver];
    match goal with H : rt_authority_state r = _ |- _ => rewrite H in Hp end.
Qed.

(** [Stopped] is terminal: every later call leaves the runtime stopped, so
    no stamp is honoured and no work is admitted any more. *)
Theorem stopped_is_terminal r evs r' stamp :
  rt_authority_state r = Stopped ->
  runtime_trace r evs r' ->
  rt_authority_state r' = Stopped /\
  runtime_admits r' stamp = false /\
  admit_event r' = (r', Err RuntimeStopped).
Proof.
  intros Hst Ht. assert (rt_authority_state r' = Stopped) as Hst'.
  { induction Ht; eauto using stopped_step. }
  unfold runtime_admits, admit_event. by rewrite Hst'.
Qed.

(** Counter invariant: from a fresh session every reachable runtime keeps
    its generation in [1, u64::MAX], its clock within [u64] and its
    invalidation floor at or below the clock, so none of the unchecked
    increments of [policy_changed] can overflow. *)
Theorem runtime_counters_in_range session evs r :
  runtime_trace (runtime_new session) evs r -> runtime_wf r.
Proof. apply runtime_trace_wf. unfold runtime_wf. simpl. width_lia. Qed.

(** ** Concrete executions *)

Definition demo_session : RuntimeSessionId := {| session_bytes := to_be 16 7 |}.

Definition demo_runtime (generation sequence floor : Z) (s : AuthorityState) : BrowserRuntime :=
  {| rt_session := demo_session; rt_generation := generation; rt_event_sequence := sequence;
     rt_invalidation_sequence := floor; rt_authority_state := s |}.

Definition demo_stamp : RuntimeStamp :=
  {| stamp_session := demo_session; stamp_generation := 1; stamp_event_sequence := 6 |}.

(** Degrade and walk the whole path back to transport readiness. *)
Definition demo_recovery : list runtime_event :=
  [EvTransition Degraded; EvTransition HeaderSyncing; EvTransition HeaderCurrent;
   EvTransition ProofReady; EvTransition ResolutionTransportReady].

Ltac concrete_trace :=
  repeat (eapply trace_cons; [first [eapply step_transition; reflexivity
                                    |eapply step_policy; reflexivity
                                    |eapply step_admit; reflexivity
                                    |eapply step_transition_err; reflexivity
                                    |eapply step_admit_err; reflexivity]|]);
  apply trace_nil.

Lemma stamp_admitted_iff_not_invalidated_witness :
  runtime_admits (demo_runtime 1 11 7 ResolutionTransportReady) demo_stamp =
  true && negb (existsb invalidating demo_recovery).
Proof.
  apply (stamp_admitted_iff_not_invalidated
           (demo_runtime 1 5 0 ResolutionTransportReady)
           (demo_runtime 1 6 0 ResolutionTransportReady) demo_recovery).
  - unfold runtime_wf. simpl. width_lia.
  - reflexivity.
  - unfold demo_recovery. concrete_trace.
Defined.

Lemma no_authority_without_fresh_path_witness :
  sublist [HeaderSyncing; HeaderCurrent; ProofReady; ResolutionTransportReady]
    (transitions_of (skipn 1 demo_recovery)).
Proof.
  apply (no_authority_without_fresh_path
           (demo_runtime 1 7 7 Degraded) _ (demo_runtime 1 11 7 ResolutionTransportReady)).
  - vm_compute. right. right. left.
  - unfold demo_recovery. simpl skipn. concrete_trace.
  - reflexivity.
Defined.

Lemma stopped_is_terminal_witness :
  runtime_admits (demo_runtime 2 8 8 Stopped) demo_stamp = false.
Proof.
  apply (stopped_is_terminal (demo_runtime 1 7 7 Stopped)
           [EvRejected InvalidAuthorityTransition; EvRejected RuntimeStopped; EvPolicyChanged]
           (demo_runtime 2 8 8 Stopped) demo_stamp).
  - reflexivity.
  - eapply trace_cons; [eapply (step_transition_err _ HeaderSyncing); reflexivity|].
    concrete_trace.
Defined.

Lemma runtime_counters_in_range_witness :
  runtime_wf (demo_runtime 2 2 2 Revoked).
Proof.
  apply (runtime_counters_in_range demo_session
           [EvTransition LocalStateOpened; EvPolicyChanged]).
  unfold runtime_new. concrete_trace.
Defined.
