(* ===== verification/Policy.v ===== *)
(** * Resolution policy: typed configuration, transport plan, controller

    Models [src/crates/hns-resolution-policy/src/lib.rs] except the persisted
    encoding, which is in [PolicyCodec]. Bit sets keep their integer
    representation; enumerations keep their discriminants through the [_code]
    and [_try_from] functions. *)

From S2P Require Import Prelude.

Inductive PolicyError :=
| InvalidEncoding
| UnsupportedSchema
| ChecksumMismatch
| ZeroGeneration
| StaleGeneration
| GenerationExhausted
| TransportDisabled
| UnverifiedEvidence
| ConflictingPolicies.

Inductive DnsRelayRequesterPolicy := RelayAuto | RelayDisabled | RelayRequired.

Inductive ObliviousDnsPolicy :=
| OdohRequired | OdohPreferred | OdohDirectRelayAllowed | OdohDisabled.

Inductive WireProfile := ShakescapeV1 | ProfileOfficial | ProfileAuto.

(** [as u8]. *)
Definition relay_code (p : DnsRelayRequesterPolicy) : Z :=
  match p with RelayAuto => 0 | RelayDisabled => 1 | RelayRequired => 2 end.
Definition odoh_code (p : ObliviousDnsPolicy) : Z :=
  match p with
  | OdohRequired => 0 | OdohPreferred => 1 | OdohDirectRelayAllowed => 2 | OdohDisabled => 3
  end.
Definition wire_profile_code (p : WireProfile) : Z :=
  match p with ShakescapeV1 => 0 | ProfileOfficial => 1 | ProfileAuto => 2 end.

(** [TryFrom<u8>]. *)
Definition relay_try_from (value : Z) : result PolicyError DnsRelayRequesterPolicy :=
  match value with
  | 0 => Ok RelayAuto
  | 1 => Ok RelayDisabled
  | 2 => Ok RelayRequired
  | _ => Err InvalidEncoding
  end.
Definition odoh_try_from (value : Z) : result PolicyError ObliviousDnsPolicy :=
  match value with
  | 0 => Ok OdohRequired
  | 1 => Ok OdohPreferred
  | 2 => Ok OdohDirectRelayAllowed
  | 3 => Ok OdohDisabled
  | _ => Err InvalidEncoding
  end.
Definition wire_profile_try_from (value : Z) : result PolicyError WireProfile :=
  match value with
  | 0 => Ok ShakescapeV1
  | 1 => Ok ProfileOfficial
  | 2 => Ok ProfileAuto
  | _ => Err InvalidEncoding
  end.

(** ** HNSR roles *)

Record HnsrPolicy := { hnsr_bits : Z }.

Definition HNSR_CLIENT : Z := Z.shiftl 1 0.
Definition HNSR_ENDPOINT : Z := Z.shiftl 1 1.
Definition HNSR_RELAY : Z := Z.shiftl 1 2.
Definition HNSR_RENDEZVOUS : Z := Z.shiftl 1 3.
Definition HNSR_KNOWN_BITS : Z :=
  Z.lor (Z.lor (Z.lor HNSR_CLIENT HNSR_ENDPOINT) HNSR_RELAY) HNSR_RENDEZVOUS.

(** Bitwise complement at width 8 and 16. *)
Definition u8_not (z : Z) : Z := Z.lxor z u8_max.
Definition u16_not (z : Z) : Z := Z.lxor z u16_max.

Definition set_flag (bits flag : Z) (enabled : bool) : Z :=
  if enabled then Z.lor bits flag else Z.land bits (u8_not flag).

Definition hnsr_disabled : HnsrPolicy := {| hnsr_bits := 0 |}.
Definition hnsr_relay_default : HnsrPolicy := {| hnsr_bits := HNSR_RELAY |}.
Definition with_requester (p : HnsrPolicy) (enabled : bool) : HnsrPolicy :=
  {| hnsr_bits := set_flag (hnsr_bits p) HNSR_CLIENT enabled |}.
Definition with_endpoint (p : HnsrPolicy) (enabled : bool) : HnsrPolicy :=
  {| hnsr_bits := set_flag (hnsr_bits p) HNSR_ENDPOINT enabled |}.
Definition with_relay (p : HnsrPolicy) (enabled : bool) : HnsrPolicy :=
  {| hnsr_bits := set_flag (hnsr_bits p) HNSR_RELAY enabled |}.
Definition with_rendezvous (p : HnsrPolicy) (enabled : bool) : HnsrPolicy :=
  {| hnsr_bits := set_flag (hnsr_bits p) HNSR_RENDEZVOUS enabled |}.
Definition hnsr_client_relay_default : HnsrPolicy := with_requester hnsr_relay_default true.

Definition has_flag (bits flag : Z) : bool := negb (Z.land bits flag =? 0).

Definition requester_enabled (p : HnsrPolicy) : bool := has_flag (hnsr_bits p) HNSR_CLIENT.
Definition endpoint_enabled (p : HnsrPolicy) : bool := has_flag (hnsr_bits p) HNSR_ENDPOINT.
Definition relay_enabled (p : HnsrPolicy) : bool := has_flag (hnsr_bits p) HNSR_RELAY.
Definition rendezvous_enabled (p : HnsrPolicy) : bool := has_flag (hnsr_bits p) HNSR_RENDEZVOUS.

Definition hnsr_provider_bits (p : HnsrPolicy) : Z :=
  Z.land (hnsr_bits p) (Z.lor (Z.lor HNSR_ENDPOINT HNSR_RELAY) HNSR_RENDEZVOUS).
Definition provider_enabled (p : HnsrPolicy) : bool := negb (hnsr_provider_bits p =? 0).

Definition hnsr_from_bits (bits : Z) : result PolicyError HnsrPolicy :=
  if has_flag bits (u8_not HNSR_KNOWN_BITS) then Err InvalidEncoding
  else Ok {| hnsr_bits := bits |}.

Definition legacy_hnsr_policy (value : Z) : result PolicyError HnsrPolicy :=
  match value with
  | 0 => Ok hnsr_disabled
  | 1 => Ok (with_requester hnsr_disabled true)
  | 2 => Ok (with_endpoint hnsr_disabled true)
  | 3 => Ok (with_relay hnsr_disabled true)
  | 4 => Ok (with_rendezvous hnsr_disabled true)
  | 5 => Ok (with_endpoint (with_requester hnsr_disabled true) true)
  | 6 => Ok (with_rendezvous (with_relay (with_endpoint
               (with_requester hnsr_disabled true) true) true) true)
  | _ => Err InvalidEncoding
  end.

(** ** Provider roles *)

Record ProviderPolicy := {
  prov_dns_relay : bool;
  prov_odoh_proxy : bool;
  prov_odoh_target : bool;
  prov_market_gossip : bool }.

Definition provider_default : ProviderPolicy :=
  {| prov_dns_relay := false; prov_odoh_proxy := true;
     prov_odoh_target := false; prov_market_gossip := false |}.

Definition PROV_DNS_RELAY : Z := Z.shiftl 1 0.
Definition PROV_ODOH_PROXY : Z := Z.shiftl 1 1.
Definition PROV_ODOH_TARGET : Z := Z.shiftl 1 2.
Definition PROV_MARKET_GOSSIP : Z := Z.shiftl 1 3.
Definition PROV_KNOWN_BITS : Z :=
  Z.lor (Z.lor (Z.lor PROV_DNS_RELAY PROV_ODOH_PROXY) PROV_ODOH_TARGET) PROV_MARKET_GOSSIP.

Definition provider_bits (p : ProviderPolicy) : Z :=
  Z.lor (Z.lor (Z.lor (if prov_dns_relay p then PROV_DNS_RELAY else 0)
                      (if prov_odoh_proxy p then PROV_ODOH_PROXY else 0))
               (if prov_odoh_target p then PROV_ODOH_TARGET else 0))
        (if prov_market_gossip p then PROV_MARKET_GOSSIP else 0).

Definition provider_from_bits (bits : Z) : result PolicyError ProviderPolicy :=
  if has_flag bits (u16_not PROV_KNOWN_BITS) then Err InvalidEncoding
  else Ok {| prov_dns_relay := has_flag bits PROV_DNS_RELAY;
             prov_odoh_proxy := has_flag bits PROV_ODOH_PROXY;
             prov_odoh_target := has_flag bits PROV_ODOH_TARGET;
             prov_market_gossip := has_flag bits PROV_MARKET_GOSSIP |}.

(** ** Configuration and snapshot *)

Record PolicyConfig := {
  dns_relay_requester : DnsRelayRequesterPolicy;
  oblivious_dns : ObliviousDnsPolicy;
  hnsr : HnsrPolicy;
  authenticated_authoritative_doh : bool;
  user_configured_recursive_hns_doh : bool;
  providers : ProviderPolicy;
  wire_profile : WireProfile;
  allow_legacy_regtest_compatibility : bool }.

Definition policy_config_default : PolicyConfig :=
  {| dns_relay_requester := RelayAuto;
     oblivious_dns := OdohDirectRelayAllowed;
     hnsr := hnsr_client_relay_default;
     authenticated_authoritative_doh := true;
     user_configured_recursive_hns_doh := false;
     providers := provider_default;
     wire_profile := ProfileAuto;
     allow_legacy_regtest_compatibility := true |}.

Definition config_validate (c : PolicyConfig) : result PolicyError unit :=
  match oblivious_dns c, dns_relay_requester c with
  | (OdohRequired | OdohPreferred), RelayRequired => Err ConflictingPolicies
  | _, _ => Ok tt
  end.

Record PolicySnapshot := { pol_generation : Z; pol_config : PolicyConfig }.

Definition policy_snapshot_default : PolicySnapshot :=
  {| pol_generation := 1; pol_config := policy_config_default |}.

Definition snapshot_new (generation : Z) (config : PolicyConfig)
    : result PolicyError PolicySnapshot :=
  if generation =? 0 then Err ZeroGeneration
  else if negb (is_ok (config_validate config)) then Err ConflictingPolicies
  else Ok {| pol_generation := generation; pol_config := config |}.

#[export] Instance DnsRelayRequesterPolicy_eq_dec : EqDecision DnsRelayRequesterPolicy.
Proof. solve_decision. Defined.
#[export] Instance ObliviousDnsPolicy_eq_dec : EqDecision ObliviousDnsPolicy.
Proof. solve_decision. Defined.
#[export] Instance WireProfile_eq_dec : EqDecision WireProfile.
Proof. solve_decision. Defined.
#[export] Instance HnsrPolicy_eq_dec : EqDecision HnsrPolicy.
Proof. solve_decision. Defined.
#[export] Instance ProviderPolicy_eq_dec : EqDecision ProviderPolicy.
Proof. solve_decision. Defined.
#[export] Instance PolicyConfig_eq_dec : EqDecision PolicyConfig.
Proof. solve_decision. Defined.
#[export] Instance PolicySnapshot_eq_dec : EqDecision PolicySnapshot.
Proof. solve_decision. Defined.

(** ** Transports and the plan *)

Inductive ResolutionTransport :=
| DirectAuthoritativeUdp
| DirectAuthoritativeTcp
| AuthenticatedAuthoritativeDoh
| HandshakeP2pOdoh
| HandshakeP2pDnsRelay
| TransportUnavailable
| ValidatingIcannDoh
| UserConfiguredRecursiveHnsDoh
| LocalHnsProof.

#[export] Instance ResolutionTransport_eq_dec : EqDecision ResolutionTransport.
Proof. solve_decision. Defined.

Definition transport_try_from (value : Z) : result PolicyError ResolutionTransport :=
  match value with
  | 0 => Ok DirectAuthoritativeUdp
  | 1 => Ok DirectAuthoritativeTcp
  | 2 => Ok AuthenticatedAuthoritativeDoh
  | 3 => Ok HandshakeP2pOdoh
  | 4 => Ok HandshakeP2pDnsRelay
  | 5 => Ok TransportUnavailable
  | 6 => Ok ValidatingIcannDoh
  | 7 => Ok UserConfiguredRecursiveHnsDoh
  | 8 => Ok LocalHnsProof
  | _ => Err InvalidEncoding
  end.

(** [TransportPlan::for_policy]: pushes in source order. *)
Definition for_policy (config : PolicyConfig) : list ResolutionTransport :=
  let transports := [DirectAuthoritativeUdp; DirectAuthoritativeTcp] in
  let transports :=
    if authenticated_authoritative_doh config
    then transports ++ [AuthenticatedAuthoritativeDoh] else transports in
  let transports :=
    if bool_decide (oblivious_dns config <> OdohDisabled)
    then transports ++ [HandshakeP2pOdoh] else transports in
  let relay_allowed :=
    match oblivious_dns config with
    | OdohRequired | OdohPreferred => false
    | OdohDirectRelayAllowed | OdohDisabled =>
        bool_decide (dns_relay_requester config <> RelayDisabled)
    end in
  let transports :=
    if relay_allowed then transports ++ [HandshakeP2pDnsRelay] else transports in
  if user_configured_recursive_hns_doh config
  then transports ++ [UserConfiguredRecursiveHnsDoh] else transports.

Definition plan_contains (plan : list ResolutionTransport) (t : ResolutionTransport) : bool :=
  bool_decide (t ∈ plan).

(** ** Controller *)

Record Admission := {
  adm_policy_generation : Z;
  adm_transport : ResolutionTransport }.

Record PolicyChangeEffects := {
  stop_admitting_disabled_work : bool;
  cancel_or_drain_inflight : bool;
  clear_requester_selections : bool;
  withdraw_advertisements : bool;
  withdraw_hnsr_routes : bool;
  revoke_target_configurations : bool;
  renegotiate_peer_connections : bool;
  update_structured_status : bool }.

Definition effects_default : PolicyChangeEffects :=
  {| stop_admitting_disabled_work := false; cancel_or_drain_inflight := false;
     clear_requester_selections := false; withdraw_advertisements := false;
     withdraw_hnsr_routes := false; revoke_target_configurations := false;
     renegotiate_peer_connections := false; update_structured_status := false |}.

Record PolicyTransition := {
  tr_previous : PolicySnapshot;
  tr_current : PolicySnapshot;
  tr_changed : bool;
  tr_effects : PolicyChangeEffects }.

Record PolicyController := { ctl_current : PolicySnapshot }.

#[export] Instance PolicyController_eq_dec : EqDecision PolicyController.
Proof. solve_decision. Defined.

Definition transport_plan (c : PolicyController) : list ResolutionTransport :=
  for_policy (pol_config (ctl_current c)).

(** [PolicyController::admit]. *)
Definition controller_admit (c : PolicyController) (t : ResolutionTransport)
    : result PolicyError Admission :=
  if bool_decide (t = TransportUnavailable) || negb (plan_contains (transport_plan c) t)
  then Err TransportDisabled
  else Ok {| adm_policy_generation := pol_generation (ctl_current c); adm_transport := t |}.

Definition accept_completion (c : PolicyController) (a : Admission)
    : result PolicyError unit :=
  if negb (adm_policy_generation a =? pol_generation (ctl_current c))
  then Err StaleGeneration
  else if negb (plan_contains (transport_plan c) (adm_transport a))
  then Err TransportDisabled
  else Ok tt.

Definition transition_effects (previous current : PolicyConfig) : PolicyChangeEffects :=
  let requester_changed :=
    bool_decide (dns_relay_requester previous <> dns_relay_requester current)
    || bool_decide (oblivious_dns previous <> oblivious_dns current)
    || negb (Bool.eqb (authenticated_authoritative_doh previous)
                      (authenticated_authoritative_doh current))
    || negb (Bool.eqb (user_configured_recursive_hns_doh previous)
                      (user_configured_recursive_hns_doh current))
    || negb (Bool.eqb (requester_enabled (hnsr previous)) (requester_enabled (hnsr current))) in
  let hnsr_providers_changed :=
    negb (hnsr_provider_bits (hnsr previous) =? hnsr_provider_bits (hnsr current)) in
  let providers_changed :=
    bool_decide (providers previous <> providers current) || hnsr_providers_changed in
  let removed_provider :=
    has_flag (provider_bits (providers previous)) (u16_not (provider_bits (providers current)))
    || has_flag (hnsr_provider_bits (hnsr previous)) (u8_not (hnsr_provider_bits (hnsr current))) in
  {| stop_admitting_disabled_work := true;
     cancel_or_drain_inflight := true;
     clear_requester_selections := requester_changed;
     withdraw_advertisements := removed_provider;
     withdraw_hnsr_routes :=
       has_flag (hnsr_provider_bits (hnsr previous)) (u8_not (hnsr_provider_bits (hnsr current)));
     revoke_target_configurations :=
       prov_odoh_target (providers previous) && negb (prov_odoh_target (providers current));
     renegotiate_peer_connections :=
       providers_changed || bool_decide (wire_profile previous <> wire_profile current);
     update_structured_status := true |}.

(** [PolicyController::replace]. *)
Definition controller_replace (c : PolicyController) (expected_generation : Z)
    (next_config : PolicyConfig)
    : PolicyController * result PolicyError PolicyTransition :=
  if negb (expected_generation =? pol_generation (ctl_current c))
  then (c, Err StaleGeneration)
  else match config_validate next_config with
  | Err e => (c, Err e)
  | Ok _ =>
      let previous := ctl_current c in
      if bool_decide (pol_config previous = next_config)
      then (c, Ok {| tr_previous := previous; tr_current := previous;
                     tr_changed := false; tr_effects := effects_default |})
      else match checked_add (pol_generation previous) 1 with
      | None => (c, Err GenerationExhausted)
      | Some generation =>
          let current := {| pol_generation := generation; pol_config := next_config |} in
          ({| ctl_current := current |},
           Ok {| tr_previous := previous; tr_current := current; tr_changed := true;
                 tr_effects := transition_effects (pol_config previous) next_config |})
      end
  end.

(** A client issuing replacements one after another; an error leaves the
    controller as it is. *)
Definition replace_all (c : PolicyController) (requests : list (Z * PolicyConfig))
    : PolicyController :=
  fold_left (fun c r => fst (controller_replace c r.1 r.2)) requests c.

(** ** Local evidence *)

Inductive EvidenceState :=
| EvidenceVerified | EvidenceFailed | EvidenceUnavailable | EvidenceUnsupported
| EvidenceNotAttempted | EvidenceStale | EvidenceRevoked.

Record ValidationEvidence := {
  ev_hns_proof : EvidenceState;
  ev_dnssec : EvidenceState;
  ev_tlsa : EvidenceState;
  ev_dane : EvidenceState;
  ev_chain_current : EvidenceState;
  ev_origin_sni : EvidenceState }.

Definition evidence_not_attempted : ValidationEvidence :=
  {| ev_hns_proof := EvidenceNotAttempted; ev_dnssec := EvidenceNotAttempted;
     ev_tlsa := EvidenceNotAttempted; ev_dane := EvidenceNotAttempted;
     ev_chain_current := EvidenceNotAttempted; ev_origin_sni := EvidenceNotAttempted |}.

Definition evidence_revoked : ValidationEvidence :=
  {| ev_hns_proof := EvidenceRevoked; ev_dnssec := EvidenceRevoked;
     ev_tlsa := EvidenceRevoked; ev_dane := EvidenceRevoked;
     ev_chain_current := EvidenceRevoked; ev_origin_sni := EvidenceRevoked |}.

Definition is_verified (e : EvidenceState) : bool :=
  match e with EvidenceVerified => true | _ => false end.

Definition fully_verified (e : ValidationEvidence) : bool :=
  is_verified (ev_hns_proof e) && is_verified (ev_dnssec e) && is_verified (ev_tlsa e)
  && is_verified (ev_dane e) && is_verified (ev_chain_current e)
  && is_verified (ev_origin_sni e).

Inductive Network := Mainnet | Testnet | Regtest | Simnet.

Record ChainAnchor := { anchor_height : Z; anchor_tree_root : list Z }.

Record ResolutionProvenance := {
  prov_schema_version : Z;
  prov_runtime_session : list Z;
  prov_runtime_generation : Z;
  prov_policy_generation : Z;
  prov_event_sequence : Z;
  prov_network : Network;
  prov_chain_anchor : option ChainAnchor;
  prov_transport : ResolutionTransport;
  prov_peer_identity : option (list Z);
  prov_proxy_identity : option (list Z);
  prov_target_identity : option (list Z);
  prov_direct_relay_fallback : bool;
  prov_registry_profile : WireProfile;
  prov_evidence : ValidationEvidence;
  prov_untrusted_ad_claim : bool }.

Definition require_verified_hns_https (p : ResolutionProvenance) : result PolicyError unit :=
  if fully_verified (prov_evidence p) then Ok tt else Err UnverifiedEvidence.

(** ** Specification vocabulary *)

(** The private [bits] field only ever holds the four role bits. *)
Definition hnsr_ok (p : HnsrPolicy) : Prop := 0 <= hnsr_bits p < 16.

Definition snapshot_ok (s : PolicySnapshot) : Prop :=
  1 <= pol_generation s <= u64_max /\ hnsr_ok (hnsr (pol_config s)) /\
  config_validate (pol_config s) = Ok tt.

(** Every transport a plan may ever hold, most direct first. *)
Definition direct_first_order : list ResolutionTransport :=
  [DirectAuthoritativeUdp; DirectAuthoritativeTcp; AuthenticatedAuthoritativeDoh;
   HandshakeP2pOdoh; HandshakeP2pDnsRelay; UserConfiguredRecursiveHnsDoh].

(** What the configuration consents to, transport by transport. *)
Definition permitted (c : PolicyConfig) (t : ResolutionTransport) : bool :=
  match t with
  | DirectAuthoritativeUdp | DirectAuthoritativeTcp => true
  | AuthenticatedAuthoritativeDoh => authenticated_authoritative_doh c
  | HandshakeP2pOdoh => match oblivious_dns c with OdohDisabled => false | _ => true end
  | HandshakeP2pDnsRelay =>
      match oblivious_dns c, dns_relay_requester c with
      | (OdohRequired | OdohPreferred), _ => false
      | _, RelayDisabled => false
      | _, _ => true
      end
  | UserConfiguredRecursiveHnsDoh => user_configured_recursive_hns_doh c
  | TransportUnavailable | ValidatingIcannDoh | LocalHnsProof => false
  end.

(** What the gateway relies on about a plan. *)
Class TransportPlanLaws (plan_of : PolicyConfig -> list ResolutionTransport) : Prop := {
  plan_nodup c : NoDup (plan_of c);
  plan_permitted c t : t ∈ plan_of c <-> permitted c t = true;
  plan_direct_first c :
    exists rest, plan_of c = DirectAuthoritativeUdp :: DirectAuthoritativeTcp :: rest;
  plan_bounded c : (length (plan_of c) <= 6)%nat }.

(** Roles a peer can be offered, across the provider and HNSR bit sets. *)
Inductive ProviderRole :=
| RoleDnsRelay | RoleOdohProxy | RoleOdohTarget | RoleMarketGossip
| RoleHnsrEndpoint | RoleHnsrRelay | RoleHnsrRendezvous.

Definition hnsr_role (r : ProviderRole) : bool :=
  match r with RoleHnsrEndpoint | RoleHnsrRelay | RoleHnsrRendezvous => true | _ => false end.

Definition offers (c : PolicyConfig) (r : ProviderRole) : bool :=
  match r with
  | RoleDnsRelay => prov_dns_relay (providers c)
  | RoleOdohProxy => prov_odoh_proxy (providers c)
  | RoleOdohTarget => prov_odoh_target (providers c)
  | RoleMarketGossip => prov_market_gossip (providers c)
  | RoleHnsrEndpoint => endpoint_enabled (hnsr c)
  | RoleHnsrRelay => relay_enabled (hnsr c)
  | RoleHnsrRendezvous => rendezvous_enabled (hnsr c)
  end.

(** ** Lemmas *)

(** Exhaustive checks over nibbles, by evaluation. *)
Definition nibbles : list Z := seqZ 0 16.

Lemma nibble_check (f : Z -> bool) :
  forallb f nibbles = true -> forall b, 0 <= b < 16 -> f b = true.
Proof.
  intros Hf b Hb. rewrite forallb_forall in Hf. apply Hf.
  apply list_elem_of_In, elem_of_seqZ. lia.
Qed.

Lemma nibble_check2 (f : Z -> Z -> bool) :
  forallb (fun b1 => forallb (f b1) nibbles) nibbles = true ->
  forall b1 b2, 0 <= b1 < 16 -> 0 <= b2 < 16 -> f b1 b2 = true.
Proof.
  intros Hf b1 b2 H1 H2.
  apply (nibble_check (f b1)); [|done].
  by apply (nibble_check (fun b1 => forallb (f b1) nibbles)).
Qed.

Lemma hnsr_removed_bits b1 b2 : 0 <= b1 < 16 -> 0 <= b2 < 16 ->
  has_flag (hnsr_provider_bits {| hnsr_bits := b1 |})
           (u8_not (hnsr_provider_bits {| hnsr_bits := b2 |})) =
  (has_flag b1 HNSR_ENDPOINT && negb (has_flag b2 HNSR_ENDPOINT))
  || (has_flag b1 HNSR_RELAY && negb (has_flag b2 HNSR_RELAY))
  || (has_flag b1 HNSR_RENDEZVOUS && negb (has_flag b2 HNSR_RENDEZVOUS)).
Proof.
  intros H1 H2. apply eqb_prop. revert b1 b2 H1 H2.
  apply nibble_check2. by vm_compute.
Qed.

Lemma hnsr_provider_bits_eqb b1 b2 : 0 <= b1 < 16 -> 0 <= b2 < 16 ->
  (hnsr_provider_bits {| hnsr_bits := b1 |} =? hnsr_provider_bits {| hnsr_bits := b2 |}) =
  Bool.eqb (has_flag b1 HNSR_ENDPOINT) (has_flag b2 HNSR_ENDPOINT)
  && Bool.eqb (has_flag b1 HNSR_RELAY) (has_flag b2 HNSR_RELAY)
  && Bool.eqb (has_flag b1 HNSR_RENDEZVOUS) (has_flag b2 HNSR_RENDEZVOUS).
Proof.
  intros H1 H2. apply eqb_prop. revert b1 b2 H1 H2.
  apply nibble_check2. by vm_compute.
Qed.

Lemma provider_removed_bits p1 p2 :
  has_flag (provider_bits p1) (u16_not (provider_bits p2)) =
  (prov_dns_relay p1 && negb (prov_dns_relay p2))
  || (prov_odoh_proxy p1 && negb (prov_odoh_proxy p2))
  || (prov_odoh_target p1 && negb (prov_odoh_target p2))
  || (prov_market_gossip p1 && negb (prov_market_gossip p2)).
Proof. destruct p1 as [[] [] [] []], p2 as [[] [] [] []]; vm_compute; done. Qed.

Lemma set_flag_nibble b f e :
  0 <= b < 16 -> 0 <= f < 16 -> 0 <= set_flag b f e < 16.
Proof.
  intros H1 H2.
  enough (((0 <=? set_flag b f e) && (set_flag b f e <? 16)) = true) by (breflect; lia).
  revert b f H1 H2. destruct e; apply nibble_check2; by vm_compute.
Qed.

Lemma replace_generation c g cfg :
  snapshot_ok (ctl_current c) ->
  let c' := fst (controller_replace c g cfg) in
  c' = c \/ (pol_generation (ctl_current c') = pol_generation (ctl_current c) + 1 /\
             pol_config (ctl_current c') = cfg /\ config_validate cfg = Ok tt).
Proof.
  intros Hok. unfold controller_replace. simpl. run_all; auto.
  right. match goal with H : checked_add _ _ = Some _ |- _ => apply checked_add_Some in H end.
  split_and!; [lia|done|]. match goal with u : unit |- _ => by destruct u end.
Qed.

Lemma replace_ok c g cfg :
  snapshot_ok (ctl_current c) -> hnsr_ok (hnsr cfg) ->
  snapshot_ok (ctl_current (fst (controller_replace c g cfg))).
Proof.
  intros Hok Hh. unfold controller_replace, snapshot_ok in *. run_all; try done; simpl.
  match goal with H : checked_add _ _ = Some _ |- _ => apply checked_add_Some in H as [-> ?] end.
  split_and!; try done; try lia. match goal with u : unit |- _ => by destruct u end.
Qed.

Lemma replace_cases c g cfg :
  let c' := fst (controller_replace c g cfg) in
  c' = c \/ pol_generation (ctl_current c') = pol_generation (ctl_current c) + 1.
Proof.
  unfold controller_replace. run_all; auto. right.
  by match goal with H : checked_add _ _ = Some _ |- _ => apply checked_add_Some in H as [-> ?] end.
Qed.

(** A chain of replacements either changes nothing or moves the generation. *)
Lemma replace_all_generation reqs c :
  replace_all c reqs = c \/
  pol_generation (ctl_current c) < pol_generation (ctl_current (replace_all c reqs)).
Proof.
  revert c. induction reqs as [|[g cfg] reqs IH]; intros c; simpl; [by left|].
  destruct (replace_cases c g cfg) as [E|E]; simpl in E.
  - unfold replace_all in *. simpl. rewrite E. apply IH.
  - right. unfold replace_all in *. simpl.
    destruct (IH (fst (controller_replace c g cfg))) as [->|?]; lia.
Qed.

Lemma for_policy_filter c :
  for_policy c = filter (fun t => permitted c t = true) direct_first_order.
Proof. by destruct c as [[] [] ? [] [] ? ? ?]. Qed.

Lemma direct_first_order_complete c t : permitted c t = true -> t ∈ direct_first_order.
Proof. destruct t; simpl; try done; intros _; set_solver. Qed.

#[export] Instance for_policy_laws : TransportPlanLaws for_policy.
Proof.
  split; intros c.
  - rewrite for_policy_filter. apply NoDup_filter.
    by apply (bool_decide_unpack _).
  - intros t. rewrite for_policy_filter, list_elem_of_filter.
    naive_solver eauto using direct_first_order_complete.
  - rewrite for_policy_filter. by eexists.
  - rewrite for_policy_filter. apply (length_filter _ direct_first_order).
Qed.

Definition all_roles : list ProviderRole :=
  [RoleDnsRelay; RoleOdohProxy; RoleOdohTarget; RoleMarketGossip;
   RoleHnsrEndpoint; RoleHnsrRelay; RoleHnsrRendezvous].

Lemma exists_role (f : ProviderRole -> bool) :
  existsb f all_roles = true <-> exists r, f r = true.
Proof.
  rewrite existsb_exists. split; [naive_solver|].
  intros [r Hr]. exists r. split; [|done]. apply list_elem_of_In. destruct r; set_solver.
Qed.

(** The bit-set arithmetic of [transition_effects], role by role. *)
Lemma withdraw_advertisements_roles p c :
  hnsr_ok (hnsr p) -> hnsr_ok (hnsr c) ->
  withdraw_advertisements (transition_effects p c) =
  existsb (fun r => offers p r && negb (offers c r)) all_roles.
Proof.
  unfold hnsr_ok. intros Hp Hc. simpl. destruct (hnsr p), (hnsr c).
  rewrite provider_removed_bits, hnsr_removed_bits by done.
  unfold endpoint_enabled, relay_enabled, rendezvous_enabled. simpl.
  by rewrite orb_false_r, !orb_assoc.
Qed.

Lemma withdraw_hnsr_routes_roles p c :
  hnsr_ok (hnsr p) -> hnsr_ok (hnsr c) ->
  withdraw_hnsr_routes (transition_effects p c) =
  existsb (fun r => hnsr_role r && offers p r && negb (offers c r)) all_roles.
Proof.
  unfold hnsr_ok. intros Hp Hc. simpl. destruct (hnsr p), (hnsr c).
  rewrite hnsr_removed_bits by done.
  unfold endpoint_enabled, relay_enabled, rendezvous_enabled. simpl.
  by rewrite orb_false_r, !orb_assoc.
Qed.

Lemma provider_policy_differs p1 p2 :
  bool_decide (p1 <> p2) =
  negb (Bool.eqb (prov_dns_relay p1) (prov_dns_relay p2)
        && Bool.eqb (prov_odoh_proxy p1) (prov_odoh_proxy p2)
        && Bool.eqb (prov_odoh_target p1) (prov_odoh_target p2)
        && Bool.eqb (prov_market_gossip p1) (prov_market_gossip p2)).
Proof. by destruct p1 as [[] [] [] []], p2 as [[] [] [] []]. Qed.

Lemma renegotiate_roles p c :
  hnsr_ok (hnsr p) -> hnsr_ok (hnsr c) ->
  renegotiate_peer_connections (transition_effects p c) =
  existsb (fun r => negb (Bool.eqb (offers p r) (offers c r))) all_roles
  || bool_decide (wire_profile p <> wire_profile c).
Proof.
  unfold hnsr_ok. intros Hp Hc. simpl. destruct (hnsr p), (hnsr c).
  rewrite provider_policy_differs, hnsr_provider_bits_eqb by done. f_equal.
  unfold endpoint_enabled, relay_enabled, rendezvous_enabled. simpl.
  rewrite !negb_andb, orb_false_r, !orb_assoc. done.
Qed.

(** ** Properties *)

(** The transport plan is the canonical direct-first order cut down to
    exactly what the configuration consents to: no operating-system, ICANN or
    status-only transport, no relay behind a required or preferred ODoH policy,
    and the user-configured recursive resolver only as the last resort. *)
Theorem for_policy_is_permitted_order c :
  for_policy c = filter (fun t => permitted c t = true) direct_first_order.
Proof. apply for_policy_filter. Qed.

(** A completion is accepted exactly while the admitting policy is still in
    force: after any sequence of replacement requests, stale or failing ones
    included, [accept_completion] honours an admission if and only if the
    controller is literally unchanged, and otherwise reports
    [StaleGeneration], even when a later policy re-enables the transport. *)
Theorem completion_accepted_iff_policy_unchanged c t adm reqs :
  controller_admit c t = Ok adm ->
  accept_completion (replace_all c reqs) adm =
    if bool_decide (replace_all c reqs = c) then Ok tt else Err StaleGeneration.
Proof.
  unfold controller_admit, accept_completion. intros Ha.
  case_match; simplify_eq/=. breflect. destruct (replace_all_generation reqs c) as [->|Hlt].
  - rewrite Z.eqb_refl, bool_decide_eq_true_2 by done. simpl.
    by match goal with H : plan_contains _ _ = true |- _ => rewrite H end.
  - rewrite bool_decide_eq_false_2 by (intros E; rewrite E in Hlt; lia).
    by rewrite (proj2 (Z.eqb_neq _ _)) by lia.
Qed.

(** The revocation effects name exactly the work a policy change removes:
    advertisements are withdrawn iff some offered role is dropped, HNSR routes
    iff an HNSR provider role is dropped, target configurations iff the ODoH
    target role is dropped, and peers renegotiate iff the offered roles or the
    wire profile differ. *)
Theorem transition_effects_exact p c :
  hnsr_ok (hnsr p) -> hnsr_ok (hnsr c) ->
  let e := transition_effects p c in
  (withdraw_advertisements e = true <->
     exists r, offers p r = true /\ offers c r = false) /\
  (withdraw_hnsr_routes e = true <->
     exists r, hnsr_role r = true /\ offers p r = true /\ offers c r = false) /\
  (revoke_target_configurations e = true <->
     offers p RoleOdohTarget = true /\ offers c RoleOdohTarget = false) /\
  (renegotiate_peer_connections e = true <->
     (exists r, offers p r <> offers c r) \/ wire_profile p <> wire_profile c).
Proof.
  intros Hp Hc e. subst e. split_and!.
  - rewrite withdraw_advertisements_roles, exists_role by done.
    setoid_rewrite andb_true_iff. by setoid_rewrite negb_true_iff.
  - rewrite withdraw_hnsr_routes_roles, exists_role by done.
    setoid_rewrite andb_true_iff. setoid_rewrite andb_true_iff. setoid_rewrite negb_true_iff.
    naive_solver.
  - simpl. by rewrite andb_true_iff, negb_true_iff.
  - rewrite renegotiate_roles, orb_true_iff, exists_role, bool_decide_eq_true by done.
    setoid_rewrite negb_true_iff. by setoid_rewrite eqb_false_iff.
Qed.

(** ** Concrete policies *)

Definition demo_controller : PolicyController := {| ctl_current := policy_snapshot_default |}.

(** The default policy without ODoH and without the opaque HNSR relay role. *)
Definition demo_no_odoh : PolicyConfig :=
  {| dns_relay_requester := RelayAuto; oblivious_dns := OdohDisabled;
     hnsr := with_requester hnsr_disabled true;
     authenticated_authoritative_doh := true; user_configured_recursive_hns_doh := false;
     providers := provider_default; wire_profile := ProfileAuto;
     allow_legacy_regtest_compatibility := true |}.

(** Disabling and re-enabling ODoH leaves the default configuration in force,
    but the admission made before is stale. *)
Lemma completion_accepted_iff_policy_unchanged_witness :
  accept_completion
    (replace_all demo_controller [(1, demo_no_odoh); (2, policy_config_default)])
    {| adm_policy_generation := 1; adm_transport := HandshakeP2pOdoh |} =
  if bool_decide (replace_all demo_controller
       [(1, demo_no_odoh); (2, policy_config_default)] = demo_controller)
  then Ok tt else Err StaleGeneration.
Proof.
  apply (completion_accepted_iff_policy_unchanged demo_controller HandshakeP2pOdoh).
  reflexivity.
Defined.

Lemma transition_effects_exact_witness :
  withdraw_advertisements (transition_effects policy_config_default demo_no_odoh) = true <->
  exists r, offers policy_config_default r = true /\ offers demo_no_odoh r = false.
Proof.
  apply (transition_effects_exact policy_config_default demo_no_odoh);
  unfold hnsr_ok; vm_compute; split; discriminate || reflexivity.
Defined.
