(* ===== verification/PolicyCodec.v ===== *)
(** * Persisted policy encoding

    Models [PolicySnapshot::encode], [PolicySnapshot::decode] and the CRC-32 of
    [src/crates/hns-resolution-policy/src/lib.rs]. *)

From S2P Require Import Prelude Policy.

Definition PERSISTED_MAGIC : list Z := [72; 78; 83; 80; 79; 76; 49; 0].
Definition PERSISTED_SCHEMA : Z := 3.
Definition PERSISTED_SCHEMA_V2 : Z := 2.
Definition LEGACY_PERSISTED_SCHEMA : Z := 1.
Definition PERSISTED_PAYLOAD_LEN : Z := 16.
Definition PERSISTED_POLICY_LEN : Z := 32.

(** One iteration of the inner loop: [mask] is all ones when the low bit is
    set, so the polynomial is folded in exactly then. *)
Definition crc_bit (crc : Z) : Z :=
  let mask := (0 - Z.land crc 1) mod (u32_max + 1) in
  Z.lxor (Z.shiftr crc 1) (Z.land 0xedb88320 mask).

Definition crc_byte (crc byte : Z) : Z :=
  Nat.iter 8 crc_bit (Z.lxor crc byte).

Definition crc32 (input : list Z) : Z :=
  Z.lxor (fold_left crc_byte input u32_max) u32_max.

Definition policy_byte (input : list Z) (offset : Z) : result PolicyError Z :=
  ok_or (get input offset) InvalidEncoding.

(** [read_u16], [read_u32] and [read_u64] differ only in the width. *)
Definition read_be (width : Z) (input : list Z) (offset : Z) : result PolicyError Z :=
  let? value := ok_or (get_range input offset (offset + width)) InvalidEncoding in
  Ok (from_be value).
Definition read_u16 : list Z -> Z -> result PolicyError Z := read_be 2.
Definition read_u32 : list Z -> Z -> result PolicyError Z := read_be 4.
Definition read_u64 : list Z -> Z -> result PolicyError Z := read_be 8.

Definition policy_settings (c : PolicyConfig) : Z :=
  Z.lor (Z.lor (Z.b2z (authenticated_authoritative_doh c))
               (Z.shiftl (Z.b2z (allow_legacy_regtest_compatibility c)) 1))
        (Z.shiftl (Z.b2z (user_configured_recursive_hns_doh c)) 2).

(** The first 28 bytes of the encoding. *)
Definition policy_body (s : PolicySnapshot) : list Z :=
  PERSISTED_MAGIC
  ++ to_be 2 PERSISTED_SCHEMA
  ++ to_be 2 PERSISTED_PAYLOAD_LEN
  ++ to_be 8 (pol_generation s)
  ++ [relay_code (dns_relay_requester (pol_config s));
      odoh_code (oblivious_dns (pol_config s));
      hnsr_bits (hnsr (pol_config s));
      wire_profile_code (wire_profile (pol_config s))]
  ++ to_be 2 (provider_bits (providers (pol_config s)))
  ++ to_be 2 (policy_settings (pol_config s)).

Definition policy_encode (s : PolicySnapshot) : list Z :=
  policy_body s ++ to_be 4 (crc32 (policy_body s)).

Definition policy_decode (input : list Z) : result PolicyError PolicySnapshot :=
  if negb (zlen input =? PERSISTED_POLICY_LEN)
     || negb (bool_decide (get_range input 0 8 = Some PERSISTED_MAGIC))
  then Err InvalidEncoding else
  let? schema := read_u16 input 8 in
  let? payload_len := read_u16 input 10 in
  if negb ((schema =? LEGACY_PERSISTED_SCHEMA) || (schema =? PERSISTED_SCHEMA_V2)
           || (schema =? PERSISTED_SCHEMA))
     || negb (payload_len =? PERSISTED_PAYLOAD_LEN)
  then Err UnsupportedSchema else
  let? expected_crc := read_u32 input 28 in
  let? covered := ok_or (get_range input 0 28) InvalidEncoding in
  if negb (crc32 covered =? expected_crc) then Err ChecksumMismatch else
  let? generation := read_u64 input 12 in
  if generation =? 0 then Err ZeroGeneration else
  let? provider_bits := read_u16 input 24 in
  let? settings := read_u16 input 26 in
  let known_settings := if schema =? PERSISTED_SCHEMA then 7 else 3 in
  if has_flag settings (u16_not known_settings) then Err InvalidEncoding else
  let? hnsr_byte := policy_byte input 22 in
  let? hnsr :=
    if schema =? LEGACY_PERSISTED_SCHEMA
    then legacy_hnsr_policy hnsr_byte else hnsr_from_bits hnsr_byte in
  let? relay_byte := policy_byte input 20 in
  let? relay := relay_try_from relay_byte in
  let? odoh_byte := policy_byte input 21 in
  let? odoh := odoh_try_from odoh_byte in
  let? profile_byte := policy_byte input 23 in
  let? profile := wire_profile_try_from profile_byte in
  let? providers := provider_from_bits provider_bits in
  snapshot_new generation
    {| dns_relay_requester := relay;
       oblivious_dns := odoh;
       hnsr := hnsr;
       authenticated_authoritative_doh := has_flag settings 1;
       user_configured_recursive_hns_doh :=
         (schema =? PERSISTED_SCHEMA) && has_flag settings 4;
       providers := providers;
       wire_profile := profile;
       allow_legacy_regtest_compatibility := has_flag settings 2 |}.

(** The schema word of a persisted policy. *)
Definition schema_of (input : list Z) : option Z :=
  from_be <$> get_range input 8 10.

Example crc32_check_vector : crc32 [49; 50; 51; 52; 53; 54; 55; 56; 57] = 0xcbf43926.
Proof. by vm_compute. Qed.

Example policy_encode_default :
  policy_decode (policy_encode policy_snapshot_default) = Ok policy_snapshot_default.
Proof. by vm_compute. Qed.

(** ** Lemmas on the checksum *)

#[local] Arguments crc_bit : simpl never.
#[local] Arguments crc_byte : simpl never.
#[local] Strategy 100 [crc_byte crc_bit].

Definition word32 (z : Z) : Prop := 0 <= z < 2 ^ 32.

Lemma lxor_bounded n a b :
  0 <= n -> 0 <= a < 2 ^ n -> 0 <= b < 2 ^ n -> 0 <= Z.lxor a b < 2 ^ n.
Proof.
  intros Hn [Ha Ha'] [Hb Hb']. assert (0 <= Z.lxor a b) by (apply Z.lxor_nonneg; lia).
  split; [done|]. apply Z.bounded_iff_bits_nonneg; [done..|]. intros i Hi.
  rewrite Z.lxor_spec.
  rewrite (proj1 (Z.bounded_iff_bits_nonneg n a Hn Ha) Ha' i Hi).
  by rewrite (proj1 (Z.bounded_iff_bits_nonneg n b Hn Hb) Hb' i Hi).
Qed.

Lemma crc_bit_spec crc :
  crc_bit crc = Z.lxor (Z.shiftr crc 1) (if Z.odd crc then 0xedb88320 else 0).
Proof.
  unfold crc_bit. f_equal. change 1 with (Z.ones 1). rewrite Z.land_ones by lia.
  rewrite Zmod_odd. by destruct (Z.odd crc).
Qed.

Lemma crc_bit_word crc : word32 crc -> word32 (crc_bit crc).
Proof.
  unfold word32. intros H. rewrite crc_bit_spec. apply lxor_bounded; [lia| |].
  - rewrite Z.shiftr_div_pow2 by lia. change (2 ^ 1) with 2.
    split; [apply Z.div_pos; lia|]. apply Z.div_lt_upper_bound; lia.
  - destruct (Z.odd crc); lia.
Qed.

(** The reflected polynomial has its top bit set, so one bit step loses
    nothing. *)
Lemma crc_bit_inj a b : word32 a -> word32 b -> crc_bit a = crc_bit b -> a = b.
Proof.
  unfold word32. intros Ha Hb. rewrite !crc_bit_spec, !Z.shiftr_div_pow2 by lia.
  change (2 ^ 1) with 2. intros E.
  assert (forall x, 0 <= x < 2 ^ 32 -> Z.testbit (x / 2) 31 = false) as Htop.
  { intros x Hx. apply (proj1 (Z.bounded_iff_bits_nonneg 31 (x / 2) ltac:(lia)
      ltac:(apply Z.div_pos; lia))); [|lia]. apply Z.div_lt_upper_bound; lia. }
  assert (Z.odd a = Z.odd b) as Ho.
  { apply (f_equal (fun x => Z.testbit x 31)) in E. rewrite !Z.lxor_spec, !Htop in E by lia.
    by destruct (Z.odd a), (Z.odd b). }
  rewrite Ho in E. apply (f_equal (fun x => Z.lxor x (if Z.odd b then 0xedb88320 else 0))) in E.
  rewrite !Z.lxor_assoc, !Z.lxor_nilpotent, !Z.lxor_0_r in E.
  rewrite (Zdiv2_odd_eqn a), (Zdiv2_odd_eqn b), !Zdiv2_div. by rewrite E, Ho.
Qed.

Lemma byte_word b : in_u8 b -> word32 b.
Proof. unfold word32. width_lia. Qed.

Lemma iter_crc_bit_word n x : word32 x -> word32 (Nat.iter n crc_bit x).
Proof. intros Hx. induction n; simpl; auto using crc_bit_word. Qed.

Lemma iter_crc_bit_inj n x y :
  word32 x -> word32 y -> Nat.iter n crc_bit x = Nat.iter n crc_bit y -> x = y.
Proof.
  intros Hx Hy. induction n as [|n IH]; simpl; [done|]. intros E.
  apply IH, crc_bit_inj; auto using iter_crc_bit_word.
Qed.

Lemma crc_byte_word crc b : word32 crc -> in_u8 b -> word32 (crc_byte crc b).
Proof.
  intros. unfold crc_byte.
  apply iter_crc_bit_word, lxor_bounded; [lia|done|by apply byte_word].
Qed.

Lemma crc_byte_inj c1 b1 c2 b2 :
  word32 c1 -> word32 c2 -> in_u8 b1 -> in_u8 b2 ->
  crc_byte c1 b1 = crc_byte c2 b2 -> Z.lxor c1 b1 = Z.lxor c2 b2.
Proof.
  intros ? ? ? ? E. revert E. unfold crc_byte.
  apply iter_crc_bit_inj; (apply lxor_bounded; [lia|done|by apply byte_word]).
Qed.

Lemma lxor_cancel_l a b c : Z.lxor a b = Z.lxor a c -> b = c.
Proof.
  intros E. apply (f_equal (Z.lxor a)) in E.
  by rewrite <- !Z.lxor_assoc, !Z.lxor_nilpotent, !Z.lxor_0_l in E.
Qed.

(** Folding an injective, range-preserving step. *)
Section fold_injective.
Context (step : Z -> Z -> Z) (state byte_in : Z -> Prop).
Context (step_state : forall c b, state c -> byte_in b -> state (step c b)).
Context (step_inj : forall c1 c2 b, state c1 -> state c2 -> byte_in b ->
                    step c1 b = step c2 b -> c1 = c2).

Lemma fold_state l c : state c -> Forall byte_in l -> state (fold_left step l c).
Proof. intros Hc Hl. revert c Hc. induction Hl; simpl; auto. Qed.

Lemma fold_inj l c1 c2 :
  state c1 -> state c2 -> Forall byte_in l ->
  fold_left step l c1 = fold_left step l c2 -> c1 = c2.
Proof.
  intros H1 H2 Hl. revert c1 c2 H1 H2.
  induction Hl as [|b l Hb Hl IH]; intros c1 c2 H1 H2 E; simpl in E; [done|].
  apply IH in E; eauto.
Qed.

Lemma fold_one_byte l1 b1 b2 l2 c :
  (forall b1 b2, state c -> Forall byte_in l1 -> byte_in b1 -> byte_in b2 ->
     step (fold_left step l1 c) b1 = step (fold_left step l1 c) b2 -> b1 = b2) ->
  state c -> Forall byte_in l1 -> Forall byte_in l2 -> byte_in b1 -> byte_in b2 ->
  fold_left step (l1 ++ b1 :: l2) c = fold_left step (l1 ++ b2 :: l2) c -> b1 = b2.
Proof.
  intros Hinj Hc Hl1 Hl2 H1 H2. rewrite !fold_left_app. simpl. intros E.
  apply Hinj; try assumption. by apply fold_inj in E; auto using fold_state.
Qed.
End fold_injective.

Lemma crc_byte_inj_r c b1 b2 :
  word32 c -> in_u8 b1 -> in_u8 b2 -> crc_byte c b1 = crc_byte c b2 -> b1 = b2.
Proof.
  intros Hc H1 H2 E. apply crc_byte_inj in E; [|assumption..]. by apply lxor_cancel_l in E.
Qed.

Lemma crc_byte_inj_l c1 c2 b :
  word32 c1 -> word32 c2 -> in_u8 b -> crc_byte c1 b = crc_byte c2 b -> c1 = c2.
Proof.
  intros H1 H2 Hb E. apply crc_byte_inj in E; [|assumption..].
  rewrite !(Z.lxor_comm _ b) in E. by apply lxor_cancel_l in E.
Qed.

Lemma crc_fold_word l crc : word32 crc -> bytes_ok l -> word32 (fold_left crc_byte l crc).
Proof. apply (fold_state _ _ _ crc_byte_word). Qed.

Lemma crc_fold_inj l c1 c2 :
  word32 c1 -> word32 c2 -> bytes_ok l ->
  fold_left crc_byte l c1 = fold_left crc_byte l c2 -> c1 = c2.
Proof. apply (fold_inj _ _ _ crc_byte_word crc_byte_inj_l). Qed.

Lemma u32_max_word : word32 u32_max.
Proof. unfold word32. width_lia. Qed.

(** Two messages that differ in one byte have different checksums. *)
Lemma crc32_one_byte l1 b1 b2 l2 :
  bytes_ok l1 -> bytes_ok l2 -> in_u8 b1 -> in_u8 b2 ->
  crc32 (l1 ++ b1 :: l2) = crc32 (l1 ++ b2 :: l2) -> b1 = b2.
Proof.
  intros Hl1 Hl2 H1 H2 E. unfold crc32 in E.
  rewrite !(Z.lxor_comm _ u32_max) in E. apply lxor_cancel_l in E. revert E.
  apply (fold_one_byte _ _ _ crc_byte_word crc_byte_inj_l); try assumption.
  - intros c1 c2 Hw _ ? ?. apply crc_byte_inj_r; [|assumption..].
    by apply crc_fold_word.
  - exact u32_max_word.
Qed.

Lemma crc32_word l : bytes_ok l -> word32 (crc32 l).
Proof.
  intros. unfold crc32. apply lxor_bounded; [lia| |exact u32_max_word].
  apply crc_fold_word; [exact u32_max_word|assumption].
Qed.

(** ** Lemmas on the layout *)

#[local] Arguments crc32 : simpl never.
#[local] Arguments config_validate : simpl never.
#[local] Arguments from_be : simpl never.

Definition policy_fields (schema payload g : list Z) (r o h w : Z) (p st : list Z) : list Z :=
  PERSISTED_MAGIC ++ schema ++ payload ++ g ++ [r; o; h; w] ++ p ++ st.

(** What [policy_decode] does once the fixed offsets are resolved. *)
Definition policy_decode_fields (schema payload g : list Z) (r o h w : Z)
    (p st crc : list Z) : result PolicyError PolicySnapshot :=
  let schema_word := from_be schema in
  if negb ((schema_word =? LEGACY_PERSISTED_SCHEMA) || (schema_word =? PERSISTED_SCHEMA_V2)
           || (schema_word =? PERSISTED_SCHEMA))
     || negb (from_be payload =? PERSISTED_PAYLOAD_LEN)
  then Err UnsupportedSchema else
  if negb (crc32 (policy_fields schema payload g r o h w p st) =? from_be crc)
  then Err ChecksumMismatch else
  if from_be g =? 0 then Err ZeroGeneration else
  if has_flag (from_be st) (u16_not (if schema_word =? PERSISTED_SCHEMA then 7 else 3))
  then Err InvalidEncoding else
  let? hnsr := if schema_word =? LEGACY_PERSISTED_SCHEMA
               then legacy_hnsr_policy h else hnsr_from_bits h in
  let? relay := relay_try_from r in
  let? odoh := odoh_try_from o in
  let? profile := wire_profile_try_from w in
  let? providers := provider_from_bits (from_be p) in
  snapshot_new (from_be g)
    {| dns_relay_requester := relay; oblivious_dns := odoh; hnsr := hnsr;
       authenticated_authoritative_doh := has_flag (from_be st) 1;
       user_configured_recursive_hns_doh :=
         (schema_word =? PERSISTED_SCHEMA) && has_flag (from_be st) 4;
       providers := providers; wire_profile := profile;
       allow_legacy_regtest_compatibility := has_flag (from_be st) 2 |}.

#[local] Arguments policy_fields : simpl never.

(** Name the elements of a list of known length. *)
Ltac explode l H :=
  repeat (destruct l as [|? l]; try discriminate H); try (simpl in H; lia); clear H.

Lemma policy_decode_layout schema payload g r o h w p st crc :
  length schema = 2%nat -> length payload = 2%nat -> length g = 8%nat ->
  length p = 2%nat -> length st = 2%nat -> length crc = 4%nat ->
  policy_decode (policy_fields schema payload g r o h w p st ++ crc) =
  policy_decode_fields schema payload g r o h w p st crc.
Proof.
  intros H1 H2 H3 H4 H5 H6.
  explode schema H1. explode payload H2. explode g H3.
  explode p H4. explode st H5. explode crc H6.
  reflexivity.
Qed.

(** Every 32-byte input that starts with the magic has this layout. *)
Lemma policy_input_split input :
  zlen input = 32 -> get_range input 0 8 = Some PERSISTED_MAGIC ->
  exists schema payload g r o h w p st crc,
    input = policy_fields schema payload g r o h w p st ++ crc /\
    length schema = 2%nat /\ length payload = 2%nat /\ length g = 8%nat /\
    length p = 2%nat /\ length st = 2%nat /\ length crc = 4%nat.
Proof.
  intros Hlen Hm. assert (length input = 32%nat) as Hn by (unfold zlen in Hlen; lia).
  clear Hlen. do 32 (destruct input as [|? input]; [discriminate Hn|]).
  destruct input; [|discriminate Hn]. clear Hn. vm_compute in Hm. simplify_eq.
  eexists [_; _], [_; _], [_; _; _; _; _; _; _; _], _, _, _, _, [_; _], [_; _], [_; _; _; _].
  by split_and!.
Qed.

Lemma policy_decode_guard input s :
  policy_decode input = Ok s ->
  zlen input = 32 /\ get_range input 0 8 = Some PERSISTED_MAGIC.
Proof. unfold policy_decode. intros H. case_match; [done|]. by breflect. Qed.

(** A decoded policy passed through the layout, field by field. *)
Lemma policy_decode_Ok input s :
  policy_decode input = Ok s ->
  exists schema payload g r o h w p st crc,
    input = policy_fields schema payload g r o h w p st ++ crc /\
    length schema = 2%nat /\ length payload = 2%nat /\ length g = 8%nat /\
    length p = 2%nat /\ length st = 2%nat /\ length crc = 4%nat /\
    policy_decode_fields schema payload g r o h w p st crc = Ok s.
Proof.
  intros H. destruct (policy_decode_guard _ _ H) as [Hlen Hm].
  destruct (policy_input_split _ Hlen Hm)
    as (schema & payload & g & r & o & h & w & p & st & crc & -> & ?). destruct_and!.
  rewrite policy_decode_layout in H by done. repeat eexists; done.
Qed.

Lemma policy_body_fields s :
  policy_body s =
  policy_fields (to_be 2 3) (to_be 2 16) (to_be 8 (pol_generation s))
    (relay_code (dns_relay_requester (pol_config s))) (odoh_code (oblivious_dns (pol_config s)))
    (hnsr_bits (hnsr (pol_config s))) (wire_profile_code (wire_profile (pol_config s)))
    (to_be 2 (provider_bits (providers (pol_config s))))
    (to_be 2 (policy_settings (pol_config s))).
Proof. done. Qed.

Lemma provider_bits_range p : 0 <= provider_bits p < 16.
Proof. destruct p as [[] [] [] []]; vm_compute; split; done. Qed.

Lemma policy_settings_range c : 0 <= policy_settings c < 8.
Proof.
  unfold policy_settings. destruct (authenticated_authoritative_doh c),
    (allow_legacy_regtest_compatibility c), (user_configured_recursive_hns_doh c);
  vm_compute; split; done.
Qed.

Lemma policy_body_bytes s : snapshot_ok s -> bytes_ok (policy_body s).
Proof.
  intros (_ & Hh & _). unfold hnsr_ok in Hh. unfold policy_body, bytes_ok.
  rewrite !Forall_app. split_and!; try apply to_be_bytes.
  - repeat constructor; done.
  - repeat constructor; destruct s as [g [[] [] ? ? ? ? [] ?]]; simpl in *; width_lia.
Qed.

Lemma length_policy_body s : length (policy_body s) = 28%nat.
Proof. done. Qed.

Lemma provider_from_bits_bits p : provider_from_bits (provider_bits p) = Ok p.
Proof. by destruct p as [[] [] [] []]. Qed.

Lemma hnsr_from_bits_ok p : hnsr_ok p -> hnsr_from_bits (hnsr_bits p) = Ok p.
Proof.
  destruct p as [b]. unfold hnsr_ok, hnsr_from_bits. simpl. intros Hb.
  enough (has_flag b (u8_not HNSR_KNOWN_BITS) = false) as -> by done.
  apply negb_true_iff. revert b Hb. apply nibble_check. by vm_compute.
Qed.

Lemma relay_code_roundtrip x : relay_try_from (relay_code x) = Ok x.
Proof. by destruct x. Qed.
Lemma odoh_code_roundtrip x : odoh_try_from (odoh_code x) = Ok x.
Proof. by destruct x. Qed.
Lemma wire_profile_code_roundtrip x : wire_profile_try_from (wire_profile_code x) = Ok x.
Proof. by destruct x. Qed.
Create Rewrite HintDb policy_codec.
#[export] Hint Rewrite relay_code_roundtrip odoh_code_roundtrip wire_profile_code_roundtrip
  provider_from_bits_bits : policy_codec.

(** The settings word as a function of its three flags. *)
Lemma policy_settings_flags c :
  has_flag (policy_settings c) 1 = authenticated_authoritative_doh c /\
  has_flag (policy_settings c) 2 = allow_legacy_regtest_compatibility c /\
  has_flag (policy_settings c) 4 = user_configured_recursive_hns_doh c /\
  has_flag (policy_settings c) (u16_not 7) = false.
Proof.
  unfold policy_settings. by destruct (authenticated_authoritative_doh c),
    (allow_legacy_regtest_compatibility c), (user_configured_recursive_hns_doh c).
Qed.

Lemma policy_roundtrip s : snapshot_ok s -> policy_decode (policy_encode s) = Ok s.
Proof.
  intros Hok. pose proof (policy_body_bytes s Hok) as Hb.
  destruct Hok as (Hg & Hh & Hv). unfold policy_encode.
  pose proof (crc32_word _ Hb) as Hcrc. unfold word32 in Hcrc.
  rewrite policy_body_fields in *. rewrite policy_decode_layout by (by rewrite ?length_to_be).
  destruct (policy_settings_flags (pol_config s)) as (F1 & F2 & F4 & F7).
  pose proof (provider_bits_range (providers (pol_config s))).
  pose proof (policy_settings_range (pol_config s)).
  unfold policy_decode_fields.
  revert Hcrc. generalize (crc32 (policy_fields (to_be 2 3) (to_be 2 16) (to_be 8 (pol_generation s))
    (relay_code (dns_relay_requester (pol_config s))) (odoh_code (oblivious_dns (pol_config s)))
    (hnsr_bits (hnsr (pol_config s))) (wire_profile_code (wire_profile (pol_config s)))
    (to_be 2 (provider_bits (providers (pol_config s))))
    (to_be 2 (policy_settings (pol_config s))))). intros crc Hcrc.
  rewrite (from_be_to_be 2 3), (from_be_to_be 2 16) by lia.
  rewrite (from_be_to_be 2 (policy_settings _)), (from_be_to_be 2 (provider_bits _)),
    (from_be_to_be 4 crc), (from_be_to_be 8) by (width_lia || lia).
  rewrite (Z.eqb_refl crc), (proj2 (Z.eqb_neq (pol_generation s) 0)) by lia.
  change (if 3 =? PERSISTED_SCHEMA then 7 else 3) with 7.
  rewrite F7, F1, F2, F4, hnsr_from_bits_ok by done. autorewrite with policy_codec.
  unfold snapshot_new. rewrite (proj2 (Z.eqb_neq (pol_generation s) 0)) by lia.
  destruct s as [? []]. simpl in *. by rewrite Hv.
Qed.

(** Rejecting every bit above the low [k] bounds the value. *)
Lemma mask_small k w b :
  0 <= k <= w -> 0 <= b < 2 ^ w ->
  has_flag b (Z.lxor (Z.ones k) (Z.ones w)) = false -> 0 <= b < 2 ^ k.
Proof.
  unfold has_flag. intros Hk Hb Hm. breflect. split; [lia|].
  apply Z.bounded_iff_bits_nonneg; [lia..|]. intros i Hi.
  destruct (decide (w <= i)) as [Hw|Hw].
  { apply (proj1 (Z.bounded_iff_bits_nonneg w b ltac:(lia) ltac:(lia))); lia. }
  apply (f_equal (fun x => Z.testbit x i)) in Hm.
  rewrite Z.land_spec, Z.lxor_spec, Z.bits_0 in Hm.
  rewrite (Z.ones_spec_high k), (Z.ones_spec_low w) in Hm by lia.
  by rewrite andb_true_r in Hm.
Qed.

Lemma provider_from_bits_Ok b p :
  in_u16 b -> provider_from_bits b = Ok p -> provider_bits p = b.
Proof.
  unfold provider_from_bits. intros Hb H. case_match; [done|]. simplify_eq.
  assert (0 <= b < 16) as Hr by (apply (mask_small 4 16); [lia|width_lia|done]).
  apply Z.eqb_eq. revert b Hr Hb H0. intros b Hr _ _. revert b Hr.
  apply nibble_check. by vm_compute.
Qed.

Lemma hnsr_from_bits_Ok b p : in_u8 b -> hnsr_from_bits b = Ok p -> hnsr_bits p = b /\ hnsr_ok p.
Proof.
  unfold hnsr_from_bits. intros Hb H. case_match; [done|]. simplify_eq.
  split; [done|]. apply (mask_small 4 8 b); [lia|width_lia|done].
Qed.

Lemma legacy_hnsr_policy_ok v p : legacy_hnsr_policy v = Ok p -> hnsr_ok p.
Proof.
  intros H. unfold legacy_hnsr_policy in H. unfold hnsr_ok.
  repeat case_match; simplify_eq; vm_compute; split; done.
Qed.

Lemma relay_try_from_Ok v x : relay_try_from v = Ok x -> relay_code x = v.
Proof. unfold relay_try_from. intros. by repeat case_match; simplify_eq. Qed.
Lemma odoh_try_from_Ok v x : odoh_try_from v = Ok x -> odoh_code x = v.
Proof. unfold odoh_try_from. intros. by repeat case_match; simplify_eq. Qed.
Lemma wire_profile_try_from_Ok v x : wire_profile_try_from v = Ok x -> wire_profile_code x = v.
Proof. unfold wire_profile_try_from. intros. by repeat case_match; simplify_eq. Qed.

Lemma settings_Ok st c :
  in_u16 st -> has_flag st (u16_not 7) = false ->
  authenticated_authoritative_doh c = has_flag st 1 ->
  allow_legacy_regtest_compatibility c = has_flag st 2 ->
  user_configured_recursive_hns_doh c = has_flag st 4 ->
  policy_settings c = st.
Proof.
  intros Hst Hm H1 H2 H4. unfold policy_settings. rewrite H1, H2, H4.
  assert (0 <= st < 8) as Hr by (apply (mask_small 3 16); [lia|width_lia|done]).
  assert (0 <= st < 16) as Hn by lia. clear -Hn Hr.
  enough (((8 <=? st) || (Z.lor (Z.lor (Z.b2z (has_flag st 1)) (Z.shiftl (Z.b2z (has_flag st 2)) 1))
    (Z.shiftl (Z.b2z (has_flag st 4)) 2) =? st)) = true) by (breflect; destruct_or!; breflect; lia).
  clear Hr. revert st Hn. apply nibble_check. by vm_compute.
Qed.

Lemma snapshot_new_Ok g c s :
  snapshot_new g c = Ok s ->
  s = {| pol_generation := g; pol_config := c |} /\ g <> 0 /\ config_validate c = Ok tt.
Proof.
  unfold snapshot_new. intros H. run_all. split_and!; try done.
  by destruct (config_validate c) as [[]|].
Qed.

Lemma snapshot_new_ok g c s :
  snapshot_new g c = Ok s -> in_u64 g -> hnsr_ok (hnsr c) -> snapshot_ok s.
Proof.
  intros (-> & Hg & Hv)%snapshot_new_Ok Hr Hh. unfold snapshot_ok. simpl.
  split; [width_lia|done].
Qed.

(** Bytes of known length are the encoding of the number they spell. *)
Lemma be_bytes_eq n l v : bytes_ok l -> length l = n -> from_be l = v -> l = to_be n v.
Proof. intros Hl <- <-. symmetry. by apply to_be_from_be. Qed.

Lemma from_be_width n l : bytes_ok l -> length l = n -> 0 <= from_be l < 256 ^ Z.of_nat n.
Proof. intros Hl <-. by apply from_be_bound. Qed.

(** Schema 3 fields are determined by the policy they decode to. *)
Lemma policy_decode_fields_canonical schema payload g r o h w p st crc s :
  bytes_ok (policy_fields schema payload g r o h w p st ++ crc) ->
  length schema = 2%nat -> length payload = 2%nat -> length g = 8%nat ->
  length p = 2%nat -> length st = 2%nat -> length crc = 4%nat ->
  from_be schema = PERSISTED_SCHEMA ->
  policy_decode_fields schema payload g r o h w p st crc = Ok s ->
  snapshot_ok s /\ policy_fields schema payload g r o h w p st ++ crc = policy_encode s.
Proof.
  intros Hb H1 H2 H3 H4 H5 H6 Hs Hd. unfold policy_fields, bytes_ok in Hb.
  rewrite !Forall_app in Hb. destruct Hb as ((_ & Bs & Bp & Bg & Br & Bpv & Bst) & Bc).
  unfold policy_decode_fields in Hd. rewrite Hs in Hd. simpl in Hd. run_all.
  apply snapshot_new_Ok in Hd as (-> & _ & Hv).
  assert (in_u8 h) as Bh by (by inversion_clear Br as [|?? _ Br1]; inversion_clear Br1 as [|?? _ Br2];
    inversion_clear Br2).
  pose proof (from_be_width _ _ Bg H3). pose proof (from_be_width _ _ Bpv H4).
  pose proof (from_be_width _ _ Bst H5).
  destruct (hnsr_from_bits_Ok h a) as [Ea Hh]; [done..|]. split.
  { unfold snapshot_ok. simpl. split_and!; try done; width_lia. }
  unfold policy_encode. rewrite policy_body_fields. simpl pol_config. simpl pol_generation.
  simpl providers. simpl dns_relay_requester. simpl oblivious_dns. simpl hnsr. simpl wire_profile.
  rewrite (settings_Ok (from_be st)), (provider_from_bits_Ok (from_be p))
    by (done || width_lia).
  rewrite (relay_try_from_Ok _ _ H10), (odoh_try_from_Ok _ _ H11),
    (wire_profile_try_from_Ok _ _ H12), Ea.
  change PERSISTED_SCHEMA with 3 in Hs. change PERSISTED_PAYLOAD_LEN with 16 in H.
  rewrite <- !(be_bytes_eq 2 _ _ Bs H1 Hs), <- !(be_bytes_eq 2 _ _ Bp H2 H),
    <- !(be_bytes_eq 8 _ _ Bg H3 eq_refl), <- !(be_bytes_eq 2 _ _ Bpv H4 eq_refl),
    <- !(be_bytes_eq 2 _ _ Bst H5 eq_refl).
  by rewrite H0, <- (be_bytes_eq 4 _ _ Bc H6 eq_refl).
Qed.

Lemma policy_decode_crc body tail s :
  length body = 28%nat -> policy_decode (body ++ tail) = Ok s -> crc32 body = from_be tail.
Proof.
  intros Hlen Hd. destruct (policy_decode_Ok _ _ Hd)
    as (schema & payload & g & r & o & h & w & p & st & crc & E & L1 & L2 & L3 & L4 & L5 & L6 & Hf).
  assert (length (policy_fields schema payload g r o h w p st) = 28%nat) as Hl.
  { unfold policy_fields. rewrite !length_app, L1, L2, L3, L4, L5. done. }
  apply app_inj_1 in E as [-> ->]; [|by rewrite Hl].
  unfold policy_decode_fields in Hf. repeat (case_match; [done|]). by breflect.
Qed.

Lemma crc32_replaced_byte l i old new :
  bytes_ok l -> in_u8 new -> l !! i = Some old -> crc32 (<[i := new]> l) = crc32 l -> new = old.
Proof.
  intros Hl Hnew Hi E. pose proof (proj1 (Forall_lookup _ _) Hl i old Hi) as Hold.
  rewrite insert_take_drop in E by (by eapply lookup_lt_Some).
  rewrite <- (take_drop_middle l i old Hi) in E at 3.
  apply crc32_one_byte in E; try done; [by apply Forall_take|by apply Forall_drop].
Qed.

Lemma from_be_replaced_byte l i old new :
  bytes_ok l -> in_u8 new -> l !! i = Some old -> from_be l = from_be (<[i := new]> l) -> new = old.
Proof.
  intros Hl Hnew Hi E. assert (bytes_ok (<[i := new]> l)) as Hl' by (by apply Forall_insert).
  assert (l = <[i := new]> l) as El.
  { rewrite <- (to_be_from_be l Hl), E at 1. rewrite <- (length_insert l i new).
    by apply to_be_from_be. }
  pose proof (list_lookup_insert_eq l i new (lookup_lt_Some _ _ _ Hi)) as Hi'.
  rewrite <- El in Hi'. congruence.
Qed.

Lemma policy_decode_snapshot_ok input s :
  bytes_ok input -> policy_decode input = Ok s -> snapshot_ok s.
Proof.
  intros Hb Hd. destruct (policy_decode_Ok _ _ Hd)
    as (schema & payload & g & r & o & h & w & p & st & crc & -> & L1 & L2 & L3 & L4 & L5 & L6 & Hf).
  unfold policy_fields, bytes_ok in Hb. rewrite !Forall_app, !Forall_cons in Hb. destruct_and!.
  pose proof (from_be_width 8 g ltac:(done) L3).
  assert (forall a, hnsr_from_bits h = Ok a -> hnsr_ok a) as Hh
    by (intros a Ha; by apply (hnsr_from_bits_Ok h a)).
  unfold policy_decode_fields in Hf. run_all;
  (eapply snapshot_new_ok; [done|width_lia|]; simpl; eauto using legacy_hnsr_policy_ok).
Qed.

(** Consent to the recursive transport is a schema 3 bit. *)
Lemma policy_decode_fields_consent schema payload g r o h w p st crc s :
  policy_decode_fields schema payload g r o h w p st crc = Ok s ->
  from_be schema <> PERSISTED_SCHEMA ->
  user_configured_recursive_hns_doh (pol_config s) = false.
Proof.
  intros Hd Hne. unfold policy_decode_fields in Hd.
  rewrite (proj2 (Z.eqb_neq (from_be schema) PERSISTED_SCHEMA)) in Hd by done.
  run_all; match goal with H : snapshot_new _ _ = Ok _ |- _ => by apply snapshot_new_Ok in H as (-> & _) end.
Qed.

(** ** Properties *)

(** The persisted form is a bijection onto what the decoder accepts at the
    current schema: a byte string decodes to [s] under schema 3 exactly when
    [s] is a valid snapshot and the bytes are its encoding. Decoding therefore
    inverts encoding, and no second byte string denotes the same policy. *)
Theorem policy_codec_exact input s :
  bytes_ok input ->
  (policy_decode input = Ok s /\ schema_of input = Some PERSISTED_SCHEMA) <->
  (snapshot_ok s /\ input = policy_encode s).
Proof.
  intros Hb. split.
  - intros [Hd Hs]. destruct (policy_decode_Ok _ _ Hd)
      as (schema & payload & g & r & o & h & w & p & st & crc & -> & L1 & L2 & L3 & L4 & L5 & L6 & Hf).
    apply (policy_decode_fields_canonical _ _ _ _ _ _ _ _ _ _ _ Hb); try done.
    unfold schema_of in Hs. explode schema L1. explode payload L2. explode g L3.
    explode p L4. explode st L5. explode crc L6. by simplify_eq/=.
  - intros [Hok ->]. split; [by apply policy_roundtrip|].
    by destruct s as [? []].
Qed.

(** Corruption of any single byte of a persisted policy is detected: the
    decoder rejects every byte string that differs from a valid encoding in
    exactly one position, checksum bytes included. *)
Theorem single_byte_corruption_rejected s i old new :
  snapshot_ok s ->
  policy_encode s !! i = Some old ->
  in_u8 new -> new <> old ->
  is_ok (policy_decode (<[i := new]> (policy_encode s))) = false.
Proof.
  intros Hok Hi Hnew Hne. destruct (is_ok _) eqn:Hd; [|done].
  apply is_ok_true in Hd as [s' Hd]. exfalso. apply Hne.
  pose proof (policy_body_bytes s Hok) as Hb. pose proof (crc32_word _ Hb) as Hw.
  unfold policy_encode in *. destruct (decide (i < 28)%nat) as [Hlt|Hge].
  - rewrite insert_app_l in Hd by done. rewrite lookup_app_l in Hi by done.
    apply policy_decode_crc in Hd; [|by rewrite length_insert].
    rewrite from_be_to_be in Hd by done.
    by apply (crc32_replaced_byte (policy_body s) i).
  - rewrite insert_app_r_alt in Hd by (rewrite length_policy_body; lia).
    rewrite lookup_app_r in Hi by (rewrite length_policy_body; lia).
    apply policy_decode_crc in Hd; [|done].
    rewrite <- (from_be_to_be 4 (crc32 (policy_body s)) Hw) in Hd at 1.
    by eapply from_be_replaced_byte in Hd; [|apply to_be_bytes|..].
Qed.

(** Policies written by older releases never carry recursive-resolver
    consent: whatever a schema 1 or 2 file says, the decoded policy has the
    user-configured recursive transport disabled and out of its plan, and it is
    a valid snapshot. *)
Theorem legacy_policy_has_no_recursive_consent input s v :
  bytes_ok input ->
  policy_decode input = Ok s ->
  schema_of input = Some v -> v <> PERSISTED_SCHEMA ->
  snapshot_ok s /\
  user_configured_recursive_hns_doh (pol_config s) = false /\
  UserConfiguredRecursiveHnsDoh ∉ for_policy (pol_config s).
Proof.
  intros Hb Hd Hv Hne.
  assert (user_configured_recursive_hns_doh (pol_config s) = false) as Hf.
  { destruct (policy_decode_Ok _ _ Hd)
      as (schema & payload & g & r & o & h & w & p & st & crc & -> & L1 & L2 & L3 & L4 & L5 & L6 & Hf).
    assert (from_be schema = v) as Hsv.
    { unfold schema_of in Hv. explode schema L1. explode payload L2. explode g L3.
      explode p L4. explode st L5. explode crc L6. by simplify_eq/=. }
    apply policy_decode_fields_consent in Hf; congruence. }
  split_and!; [by eapply policy_decode_snapshot_ok|done|].
  rewrite (plan_permitted (pol_config s)). by simpl; rewrite Hf.
Qed.

(** ** Concrete encodings *)

Lemma default_snapshot_ok : snapshot_ok policy_snapshot_default.
Proof. unfold snapshot_ok, hnsr_ok. vm_compute. repeat split; discriminate. Qed.

Lemma policy_codec_exact_witness :
  snapshot_ok policy_snapshot_default /\
  policy_encode policy_snapshot_default = policy_encode policy_snapshot_default.
Proof.
  apply (policy_codec_exact (policy_encode policy_snapshot_default)).
  - unfold bytes_ok, in_u8. vm_compute. repeat constructor; discriminate.
  - split; vm_compute; reflexivity.
Defined.

Lemma single_byte_corruption_rejected_witness :
  is_ok (policy_decode (<[22%nat := 7]> (policy_encode policy_snapshot_default))) = false.
Proof.
  apply (single_byte_corruption_rejected policy_snapshot_default 22 5 7).
  - exact default_snapshot_ok.
  - vm_compute. reflexivity.
  - unfold in_u8. vm_compute. split; discriminate.
  - discriminate.
Defined.

(** A schema 2 file with every known setting enabled. *)
Definition demo_schema2 : list Z :=
  let body := PERSISTED_MAGIC ++ to_be 2 2 ++ to_be 2 16 ++ to_be 8 9
              ++ [0; 2; 5; 2] ++ to_be 2 2 ++ to_be 2 3 in
  body ++ to_be 4 (crc32 body).

Definition demo_schema2_policy : PolicySnapshot :=
  {| pol_generation := 9; pol_config := policy_config_default |}.

Lemma legacy_policy_has_no_recursive_consent_witness :
  user_configured_recursive_hns_doh (pol_config demo_schema2_policy) = false.
Proof.
  apply (legacy_policy_has_no_recursive_consent demo_schema2 demo_schema2_policy 2).
  - unfold bytes_ok, in_u8. vm_compute. repeat constructor; discriminate.
  - vm_compute. reflexivity.
  - vm_compute. reflexivity.
  - discriminate.
Defined.
