(* ===== verification/Gateway.v ===== *)
(** * Gateway: fail-closed transport orchestration

    Models [src/crates/hns-gateway/src/lib.rs]. The process-wide
    [NEXT_GATEWAY_ID] counter is an explicit argument and result of
    [gateway_new]; every other [&mut self] method maps a gateway to the gateway
    after the call and its result. Strings are their UTF-8 bytes. *)

From S2P Require Import Prelude Policy.

Definition DEFAULT_ATTEMPT_TIMEOUT_SECONDS : Z := 10.
Definition DEFAULT_MAXIMUM_RESPONSE_BYTES : Z := 65535.
Definition DEFAULT_MAXIMUM_IDENTITY_BYTES : Z := 256.

Inductive TransportFailure :=
| Unreachable | Timeout_ | Unsupported | Truncated | Malformed
| AuthenticationFailed | Cancelled.

Inductive GatewayError :=
| InvalidLimits
| StalePolicy
| AttemptAlreadyActive
| NoActiveAttempt
| AttemptMismatch
| NoCandidate
| Terminal
| SequenceExhausted
| InstanceSequenceExhausted
| TimeOverflow
| TerminalTransportFailure (failure : TransportFailure)
| InvalidResponseSize
| MissingIdentity
| InvalidIdentity
| InvalidIdentityTopology
| UnavailableTransport.

Record GatewayLimits := {
  attempt_timeout_seconds : Z;
  maximum_response_bytes : Z;
  maximum_identity_bytes : Z }.

Definition gateway_limits_default : GatewayLimits :=
  {| attempt_timeout_seconds := DEFAULT_ATTEMPT_TIMEOUT_SECONDS;
     maximum_response_bytes := DEFAULT_MAXIMUM_RESPONSE_BYTES;
     maximum_identity_bytes := DEFAULT_MAXIMUM_IDENTITY_BYTES |}.

Definition gateway_limits_validate (l : GatewayLimits) : result GatewayError GatewayLimits :=
  if (attempt_timeout_seconds l =? 0)
     || (300 <? attempt_timeout_seconds l)
     || (maximum_response_bytes l =? 0)
     || (DEFAULT_MAXIMUM_RESPONSE_BYTES <? maximum_response_bytes l)
     || (maximum_identity_bytes l =? 0)
     || (4096 <? maximum_identity_bytes l)
  then Err InvalidLimits else Ok l.

(** [TransportFailure::permits_fallback_from]. *)
Definition permits_fallback_from (f : TransportFailure) (t : ResolutionTransport) : bool :=
  match f with Unreachable | Timeout_ | Unsupported => true | _ => false end
  || (match f with Truncated => true | _ => false end
      && match t with DirectAuthoritativeUdp => true | _ => false end).

Record GatewayIdentities := {
  id_peer : option (list Z);
  id_proxy : option (list Z);
  id_target : option (list Z) }.

Definition identities_default : GatewayIdentities :=
  {| id_peer := None; id_proxy := None; id_target := None |}.

Inductive AttemptOutcome :=
| Response (bytes : list Z) (identities : GatewayIdentities)
| Failure (failure : TransportFailure).

Record GatewayAttempt := {
  att_instance_id : Z;
  att_policy_generation : Z;
  att_sequence : Z;
  att_candidate_index : Z;
  att_transport : ResolutionTransport;
  att_deadline : Z }.

Record GatewaySelection := {
  sel_policy_generation : Z;
  sel_transport : ResolutionTransport;
  sel_response : list Z;
  sel_identities : GatewayIdentities;
  sel_direct_relay_fallback : bool }.

Inductive GatewayStep :=
| RetryAvailable
| Selected (selection : GatewaySelection)
| Unavailable.

#[export] Instance TransportFailure_eq_dec : EqDecision TransportFailure.
Proof. solve_decision. Defined.
#[export] Instance GatewayIdentities_eq_dec : EqDecision GatewayIdentities.
Proof. solve_decision. Defined.
#[export] Instance GatewayAttempt_eq_dec : EqDecision GatewayAttempt.
Proof. solve_decision. Defined.

Record Gateway := {
  gw_instance_id : Z;
  gw_limits : GatewayLimits;
  gw_policy : PolicySnapshot;
  gw_plan : list ResolutionTransport;
  gw_next_candidate : Z;
  gw_sequence : Z;
  gw_active : option GatewayAttempt;
  gw_terminal : bool;
  gw_odoh_attempted : bool }.

Definition set_active (g : Gateway) (a : option GatewayAttempt) : Gateway :=
  {| gw_instance_id := gw_instance_id g; gw_limits := gw_limits g; gw_policy := gw_policy g;
     gw_plan := gw_plan g; gw_next_candidate := gw_next_candidate g;
     gw_sequence := gw_sequence g; gw_active := a; gw_terminal := gw_terminal g;
     gw_odoh_attempted := gw_odoh_attempted g |}.

Definition set_terminal (g : Gateway) : Gateway :=
  {| gw_instance_id := gw_instance_id g; gw_limits := gw_limits g; gw_policy := gw_policy g;
     gw_plan := gw_plan g; gw_next_candidate := gw_next_candidate g;
     gw_sequence := gw_sequence g; gw_active := gw_active g; gw_terminal := true;
     gw_odoh_attempted := gw_odoh_attempted g |}.

(** [Gateway::new]; the first component is [NEXT_GATEWAY_ID] after the call. *)
Definition gateway_new (next_gateway_id : Z) (policy : PolicySnapshot) (limits : GatewayLimits)
    : Z * result GatewayError Gateway :=
  match gateway_limits_validate limits with
  | Err e => (next_gateway_id, Err e)
  | Ok limits =>
      match checked_add next_gateway_id 1 with
      | None => (next_gateway_id, Err InstanceSequenceExhausted)
      | Some following =>
          (following,
           Ok {| gw_instance_id := next_gateway_id; gw_limits := limits; gw_policy := policy;
                 gw_plan := for_policy (pol_config policy); gw_next_candidate := 0;
                 gw_sequence := 0; gw_active := None; gw_terminal := false;
                 gw_odoh_attempted := false |})
      end
  end.

Definition revoke (g : Gateway) : Gateway := set_terminal (set_active g None).

Definition ensure_current_policy (g : Gateway) (current : PolicySnapshot)
    : Gateway * result GatewayError unit :=
  if negb (pol_generation current =? pol_generation (gw_policy g))
     || bool_decide (pol_config current <> pol_config (gw_policy g))
  then (revoke g, Err StalePolicy) else (g, Ok tt).

Definition next_attempt (g : Gateway) (current_policy : PolicySnapshot) (now : Z)
    : Gateway * result GatewayError GatewayAttempt :=
  match ensure_current_policy g current_policy with
  | (g, Err e) => (g, Err e)
  | (g, Ok _) =>
  if gw_terminal g then (g, Err Terminal) else
  match gw_active g with
  | Some _ => (g, Err AttemptAlreadyActive)
  | None =>
  match get (gw_plan g) (gw_next_candidate g) with
  | None => (g, Err NoCandidate)
  | Some transport =>
  match checked_add (gw_sequence g) 1 with
  | None => (g, Err SequenceExhausted)
  | Some sequence =>
  match checked_add now (attempt_timeout_seconds (gw_limits g)) with
  | None => (g, Err TimeOverflow)
  | Some deadline =>
      let attempt :=
        {| att_instance_id := gw_instance_id g;
           att_policy_generation := pol_generation (gw_policy g);
           att_sequence := sequence;
           att_candidate_index := gw_next_candidate g;
           att_transport := transport;
           att_deadline := deadline |} in
      ({| gw_instance_id := gw_instance_id g; gw_limits := gw_limits g;
          gw_policy := gw_policy g; gw_plan := gw_plan g;
          gw_next_candidate := gw_next_candidate g + 1;
          gw_sequence := sequence;
          gw_active := Some attempt;
          gw_terminal := gw_terminal g;
          gw_odoh_attempted :=
            gw_odoh_attempted g || bool_decide (transport = HandshakeP2pOdoh) |},
       Ok attempt)
  end end end end end.

Definition retry_or_unavailable (g : Gateway) (failure : TransportFailure)
    (transport : ResolutionTransport) : Gateway * result GatewayError GatewayStep :=
  if negb (permits_fallback_from failure transport)
  then (set_terminal g, Err (TerminalTransportFailure failure))
  else if gw_next_candidate g <? zlen (gw_plan g)
  then (g, Ok RetryAvailable)
  else (set_terminal g, Ok Unavailable).

(** The identity loop of [validate_response]. *)
Definition identity_bounded (l : GatewayLimits) (identity : option (list Z)) : bool :=
  match identity with
  | None => true
  | Some s => negb ((zlen s =? 0) || (maximum_identity_bytes l <? zlen s))
  end.

Definition validate_response (g : Gateway) (bytes : list Z) (ids : GatewayIdentities)
    (transport : ResolutionTransport) : result GatewayError unit :=
  if (zlen bytes =? 0) || (maximum_response_bytes (gw_limits g) <? zlen bytes)
  then Err InvalidResponseSize
  else if negb (forallb (identity_bounded (gw_limits g)) [id_peer ids; id_proxy ids; id_target ids])
  then Err InvalidIdentity
  else match transport with
  | HandshakeP2pOdoh =>
      let? proxy := ok_or (id_proxy ids) MissingIdentity in
      let? target := ok_or (id_target ids) MissingIdentity in
      if bool_decide (id_peer ids <> None) || bool_decide (proxy = target)
      then Err InvalidIdentityTopology else Ok tt
  | HandshakeP2pDnsRelay =>
      if bool_decide (id_peer ids = None) || bool_decide (id_proxy ids <> None)
         || bool_decide (id_target ids <> None)
      then Err InvalidIdentityTopology else Ok tt
  | DirectAuthoritativeUdp | DirectAuthoritativeTcp | AuthenticatedAuthoritativeDoh
  | UserConfiguredRecursiveHnsDoh =>
      if bool_decide (ids <> identities_default)
      then Err InvalidIdentityTopology else Ok tt
  | TransportUnavailable | ValidatingIcannDoh | LocalHnsProof => Err UnavailableTransport
  end.

Definition complete (g : Gateway) (current_policy : PolicySnapshot) (attempt : GatewayAttempt)
    (outcome : AttemptOutcome) (now : Z) : Gateway * result GatewayError GatewayStep :=
  match ensure_current_policy g current_policy with
  | (g, Err e) => (g, Err e)
  | (g, Ok _) =>
  match gw_active g with
  | None => (g, Err NoActiveAttempt)
  | Some active =>
  if bool_decide (active <> attempt) then (g, Err AttemptMismatch) else
  let g := set_active g None in
  if att_deadline attempt <? now
  then retry_or_unavailable g Timeout_ (att_transport attempt)
  else match outcome with
  | Failure failure => retry_or_unavailable g failure (att_transport attempt)
  | Response bytes ids =>
      match validate_response g bytes ids (att_transport attempt) with
      | Err e => (set_terminal g, Err e)
      | Ok _ =>
          (set_terminal g,
           Ok (Selected {| sel_policy_generation := pol_generation (gw_policy g);
                           sel_transport := att_transport attempt;
                           sel_response := bytes;
                           sel_identities := ids;
                           sel_direct_relay_fallback :=
                             bool_decide (att_transport attempt = HandshakeP2pDnsRelay)
                             && gw_odoh_attempted g |}))
      end
  end end end.

(** ** Executions *)

Inductive gateway_op :=
| OpNext (policy : PolicySnapshot) (now : Z)
| OpComplete (policy : PolicySnapshot) (attempt : GatewayAttempt)
    (outcome : AttemptOutcome) (now : Z)
| OpRevoke.

Inductive gateway_output :=
| OutAttempt (attempt : GatewayAttempt)
| OutStep (step : GatewayStep)
| OutError (e : GatewayError)
| OutRevoked.

Definition gateway_exec (g : Gateway) (op : gateway_op) : Gateway * gateway_output :=
  match op with
  | OpNext p now =>
      match next_attempt g p now with
      | (g', Ok a) => (g', OutAttempt a)
      | (g', Err e) => (g', OutError e)
      end
  | OpComplete p a o now =>
      match complete g p a o now with
      | (g', Ok s) => (g', OutStep s)
      | (g', Err e) => (g', OutError e)
      end
  | OpRevoke => (revoke g, OutRevoked)
  end.

Fixpoint gateway_run (g : Gateway) (ops : list gateway_op) : Gateway * list gateway_output :=
  match ops with
  | [] => (g, [])
  | op :: ops =>
      let '(g1, out) := gateway_exec g op in
      let '(g2, outs) := gateway_run g1 ops in
      (g2, out :: outs)
  end.

(** ** Specification vocabulary *)

(** Transports of the attempts an execution issued, in order. *)
Definition attempted (outs : list gateway_output) : list ResolutionTransport :=
  omap (fun o => match o with OutAttempt a => Some (att_transport a) | _ => None end) outs.

Definition selections (outs : list gateway_output) : list GatewaySelection :=
  omap (fun o => match o with OutStep (Selected s) => Some s | _ => None end) outs.

(** Whether observed identities fit the path: an ODoH answer names distinct
    proxy and target and no peer, a relay answer names the peer alone, a direct
    answer names nobody. *)
Definition topology_ok (t : ResolutionTransport) (ids : GatewayIdentities) : Prop :=
  match t with
  | HandshakeP2pOdoh =>
      exists proxy target, ids = {| id_peer := None; id_proxy := Some proxy; id_target := Some target |}
                           /\ proxy <> target
  | HandshakeP2pDnsRelay =>
      exists peer, ids = {| id_peer := Some peer; id_proxy := None; id_target := None |}
  | TransportUnavailable | ValidatingIcannDoh | LocalHnsProof => False
  | _ => ids = identities_default
  end.

Definition attempt_of (g : Gateway) (a : GatewayAttempt) : Prop :=
  att_instance_id a = gw_instance_id g /\
  att_policy_generation a = pol_generation (gw_policy g) /\
  att_sequence a = gw_sequence g /\
  att_candidate_index a = gw_next_candidate g - 1 /\
  get (gw_plan g) (gw_next_candidate g - 1) = Some (att_transport a).

(** Invariant of every gateway built by [gateway_new]. *)
Record gateway_wf (g : Gateway) : Prop := {
  wf_limits : gateway_limits_validate (gw_limits g) = Ok (gw_limits g);
  wf_plan : gw_plan g = for_policy (pol_config (gw_policy g));
  wf_next : 0 <= gw_next_candidate g <= zlen (gw_plan g);
  wf_sequence : gw_sequence g = gw_next_candidate g;
  wf_active : forall a, gw_active g = Some a -> attempt_of g a /\ gw_terminal g = false;
  wf_odoh : gw_odoh_attempted g =
            bool_decide (HandshakeP2pOdoh ∈ take (Z.to_nat (gw_next_candidate g)) (gw_plan g)) }.

(** A gateway that will never attempt or select anything again. *)
Definition gateway_closed (g : Gateway) : Prop :=
  gw_terminal g = true /\ gw_active g = None.

(** ** Lemmas *)

Lemma ensure_current_policy_cases g p :
  ensure_current_policy g p = (revoke g, Err StalePolicy) /\ p <> gw_policy g \/
  ensure_current_policy g p = (g, Ok tt) /\ p = gw_policy g.
Proof.
  unfold ensure_current_policy. destruct p as [pg pc], (gw_policy g) as [gg gc]. simpl.
  case_match; breflect; [left|right]; split; try done.
  - intros [= -> ->]. destruct_or!; breflect; naive_solver.
  - f_equal; [done|]. by apply dec_stable.
Qed.

(** Case split on the policy check that opens [next_attempt] and [complete]. *)
Ltac policy_cases g p E :=
  let R := fresh "R" in
  destruct (ensure_current_policy_cases g p) as [[R ?]|[R ?]]; rewrite R in E; clear R;
  simplify_eq/=.

Lemma revoke_closed g : gateway_closed (revoke g).
Proof. done. Qed.

Lemma closed_exec g op g' out :
  gateway_closed g -> gateway_exec g op = (g', out) ->
  gateway_closed g' /\ gw_next_candidate g' = gw_next_candidate g /\
  gw_odoh_attempted g' = gw_odoh_attempted g /\
  match out with OutAttempt _ | OutStep _ => False | _ => True end.
Proof.
  unfold gateway_closed. intros [Ht Ha] E. destruct op as [p now|p a o now|]; simpl in E.
  - unfold next_attempt in E. policy_cases g p E; [done|]. rewrite Ht in E. by simplify_eq.
  - unfold complete in E. policy_cases g p E; [done|]. rewrite Ha in E. by simplify_eq.
  - by simplify_eq/=.
Qed.

Lemma closed_run ops g g' outs :
  gateway_closed g -> gateway_run g ops = (g', outs) ->
  attempted outs = [] /\ selections outs = [] /\ gateway_closed g' /\
  gw_next_candidate g' = gw_next_candidate g /\ gw_odoh_attempted g' = gw_odoh_attempted g.
Proof.
  revert g outs. induction ops as [|op ops IH]; intros g outs Hc E; simpl in E; [by simplify_eq|].
  destruct (gateway_exec g op) as [g1 out] eqn:E1. destruct (gateway_run g1 ops) as [g2 outs'] eqn:E2.
  simplify_eq. destruct (closed_exec _ _ _ _ Hc E1) as (Hc1 & Hn & Ho & Hout).
  destruct (IH _ _ Hc1 E2) as (? & ? & ? & ? & ?).
  destruct out as [|[]| |]; try done; simpl; split_and!; congruence || done.
Qed.

(** The gateway after it issued [a]. *)
Definition issued (g : Gateway) (a : GatewayAttempt) : Gateway :=
  {| gw_instance_id := gw_instance_id g; gw_limits := gw_limits g; gw_policy := gw_policy g;
     gw_plan := gw_plan g; gw_next_candidate := gw_next_candidate g + 1;
     gw_sequence := gw_sequence g + 1; gw_active := Some a; gw_terminal := gw_terminal g;
     gw_odoh_attempted :=
       gw_odoh_attempted g || bool_decide (att_transport a = HandshakeP2pOdoh) |}.

(** The gateway after it consumed its active attempt. *)
Definition consumed (g : Gateway) : Gateway := set_active g None.

Inductive next_result (g : Gateway) (p : PolicySnapshot) (now : Z)
    : Gateway -> result GatewayError GatewayAttempt -> Prop :=
| next_stale : p <> gw_policy g -> next_result g p now (revoke g) (Err StalePolicy)
| next_refused e : p = gw_policy g -> next_result g p now g (Err e)
| next_issued a :
    p = gw_policy g -> gw_terminal g = false -> gw_active g = None ->
    get (gw_plan g) (gw_next_candidate g) = Some (att_transport a) ->
    att_instance_id a = gw_instance_id g ->
    att_policy_generation a = pol_generation (gw_policy g) ->
    att_sequence a = gw_sequence g + 1 ->
    att_candidate_index a = gw_next_candidate g ->
    att_deadline a = now + attempt_timeout_seconds (gw_limits g) ->
    next_result g p now (issued g a) (Ok a).

Lemma next_attempt_inv g p now g' r :
  next_attempt g p now = (g', r) -> next_result g p now g' r.
Proof.
  intros E. unfold next_attempt in E. policy_cases g p E; [by constructor|].
  run_all; try by constructor.
  repeat match goal with
  | H : checked_add _ _ = Some _ |- _ => apply checked_add_Some in H as [-> ?]
  end.
  match goal with |- next_result _ _ _ ?G (Ok ?a) =>
    replace G with (issued g a) by (unfold issued; simpl; congruence)
  end. by constructor.
Qed.

(** Failures that may advance to the next candidate. *)
Inductive retryable : TransportFailure -> ResolutionTransport -> Prop :=
| retry_unreachable t : retryable Unreachable t
| retry_timeout t : retryable Timeout_ t
| retry_unsupported t : retryable Unsupported t
| retry_truncated_udp : retryable Truncated DirectAuthoritativeUdp.

Lemma permits_fallback_iff f t : permits_fallback_from f t = true <-> retryable f t.
Proof. split; [|by destruct 1]. destruct f, t; try done; constructor. Qed.

(** What the gateway makes of an outcome reported at [now]. *)
Definition effective (a : GatewayAttempt) (o : AttemptOutcome) (now : Z) : AttemptOutcome :=
  if att_deadline a <? now then Failure Timeout_ else o.

Definition selection_for (g : Gateway) (a : GatewayAttempt) (bytes : list Z)
    (ids : GatewayIdentities) : GatewaySelection :=
  {| sel_policy_generation := pol_generation (gw_policy g); sel_transport := att_transport a;
     sel_response := bytes; sel_identities := ids;
     sel_direct_relay_fallback :=
       bool_decide (att_transport a = HandshakeP2pDnsRelay) && gw_odoh_attempted g |}.

Inductive complete_result (g : Gateway) (p : PolicySnapshot) (a : GatewayAttempt)
    (o : AttemptOutcome) (now : Z) : Gateway -> result GatewayError GatewayStep -> Prop :=
| complete_stale :
    p <> gw_policy g -> complete_result g p a o now (revoke g) (Err StalePolicy)
| complete_no_active :
    p = gw_policy g -> gw_active g = None ->
    complete_result g p a o now g (Err NoActiveAttempt)
| complete_mismatch b :
    p = gw_policy g -> gw_active g = Some b -> b <> a ->
    complete_result g p a o now g (Err AttemptMismatch)
| complete_retry f :
    p = gw_policy g -> gw_active g = Some a -> effective a o now = Failure f ->
    retryable f (att_transport a) -> gw_next_candidate g < zlen (gw_plan g) ->
    complete_result g p a o now (consumed g) (Ok RetryAvailable)
| complete_exhausted f :
    p = gw_policy g -> gw_active g = Some a -> effective a o now = Failure f ->
    retryable f (att_transport a) -> zlen (gw_plan g) <= gw_next_candidate g ->
    complete_result g p a o now (revoke g) (Ok Unavailable)
| complete_failed f :
    p = gw_policy g -> gw_active g = Some a -> effective a o now = Failure f ->
    ~ retryable f (att_transport a) ->
    complete_result g p a o now (revoke g) (Err (TerminalTransportFailure f))
| complete_invalid bytes ids e :
    p = gw_policy g -> gw_active g = Some a -> effective a o now = Response bytes ids ->
    validate_response g bytes ids (att_transport a) = Err e ->
    complete_result g p a o now (revoke g) (Err e)
| complete_selected bytes ids :
    p = gw_policy g -> gw_active g = Some a -> effective a o now = Response bytes ids ->
    validate_response g bytes ids (att_transport a) = Ok tt ->
    complete_result g p a o now (revoke g) (Ok (Selected (selection_for g a bytes ids))).

Lemma complete_inv g p a o now g' r :
  complete g p a o now = (g', r) -> complete_result g p a o now g' r.
Proof.
  intros E. unfold complete in E. policy_cases g p E; [by constructor|].
  destruct (gw_active g) as [b|] eqn:Ha; simplify_eq; [|by constructor].
  destruct (decide (b = a)) as [->|Hne].
  2: { rewrite bool_decide_eq_true_2 in E by done. simplify_eq. by econstructor. }
  rewrite bool_decide_eq_false_2 in E by auto.
  assert (forall f, effective a o now = Failure f ->
    retry_or_unavailable (set_active g None) f (att_transport a) = (g', r) ->
    complete_result g (gw_policy g) a o now g' r) as Hretry.
  { intros f Hf Hr. unfold retry_or_unavailable in Hr.
    destruct (permits_fallback_from f (att_transport a)) eqn:Hp; simpl in Hr.
    - apply permits_fallback_iff in Hp. case_match; simplify_eq; breflect.
      + by eapply complete_retry.
      + by eapply complete_exhausted.
    - simplify_eq. eapply complete_failed; try done. rewrite <- permits_fallback_iff. congruence. }
  destruct (att_deadline a <? now) eqn:Hd.
  { apply Hretry with Timeout_; [|done]. unfold effective. by rewrite Hd. }
  assert (effective a o now = o) as He by (unfold effective; by rewrite Hd).
  destruct o as [bytes ids|f]; [|by apply (Hretry f)].
  change (validate_response (set_active g None)) with (validate_response g) in E.
  destruct (validate_response g bytes ids (att_transport a)) as [[]|e] eqn:Hv; simplify_eq.
  - by eapply (complete_selected _ _ _ _ _ bytes ids).
  - by eapply complete_invalid.
Qed.

(** How one call moves the gateway: it stays, is revoked, consumes its active
    attempt, or issues the next one. *)
Inductive gateway_move (g : Gateway) : gateway_output -> Gateway -> Prop :=
| move_stay e : gateway_move g (OutError e) g
| move_revoked : gateway_move g OutRevoked (revoke g)
| move_error e : gateway_move g (OutError e) (revoke g)
| move_unavailable a :
    gw_active g = Some a -> gateway_move g (OutStep Unavailable) (revoke g)
| move_retry a :
    gw_active g = Some a -> gateway_move g (OutStep RetryAvailable) (consumed g)
| move_selected a bytes ids :
    gw_active g = Some a ->
    validate_response g bytes ids (att_transport a) = Ok tt ->
    gateway_move g (OutStep (Selected (selection_for g a bytes ids))) (revoke g)
| move_issued a :
    gw_terminal g = false -> gw_active g = None ->
    get (gw_plan g) (gw_next_candidate g) = Some (att_transport a) ->
    att_instance_id a = gw_instance_id g ->
    att_policy_generation a = pol_generation (gw_policy g) ->
    att_sequence a = gw_sequence g + 1 ->
    att_candidate_index a = gw_next_candidate g ->
    gateway_move g (OutAttempt a) (issued g a).

Lemma exec_move g op g' out : gateway_exec g op = (g', out) -> gateway_move g out g'.
Proof.
  intros E. destruct op as [p now|p a o now|]; simpl in E; [| |simplify_eq; constructor].
  - destruct (next_attempt g p now) as [g1 r] eqn:E1. apply next_attempt_inv in E1.
    destruct E1; simplify_eq; by constructor.
  - destruct (complete g p a o now) as [g1 r] eqn:E1. apply complete_inv in E1.
    destruct E1; simplify_eq; try by econstructor.
Qed.

Lemma run_cons_inv g op ops g' outs :
  gateway_run g (op :: ops) = (g', outs) ->
  exists g1 out outs', outs = out :: outs' /\ gateway_move g out g1 /\
    gateway_run g1 ops = (g', outs').
Proof.
  simpl. destruct (gateway_exec g op) as [g1 out] eqn:E1.
  destruct (gateway_run g1 ops) as [g2 outs'] eqn:E2. intros. simplify_eq.
  repeat eexists; eauto using exec_move.
Qed.

Lemma move_const g out g' :
  gateway_move g out g' ->
  gw_instance_id g' = gw_instance_id g /\ gw_limits g' = gw_limits g /\
  gw_policy g' = gw_policy g /\ gw_plan g' = gw_plan g.
Proof. by destruct 1. Qed.

Lemma take_snoc_get {A} (l : list A) i x :
  get l i = Some x -> take (Z.to_nat (i + 1)) l = take (Z.to_nat i) l ++ [x].
Proof.
  intros H. pose proof (get_Some_range _ _ _ H). unfold get in H. case_match; [done|].
  rewrite Z2Nat.inj_add by lia. rewrite Nat.add_1_r. by apply take_S_r.
Qed.

Lemma move_wf g out g' : gateway_wf g -> gateway_move g out g' -> gateway_wf g'.
Proof.
  intros [Hl Hp Hn Hs Ha Ho] Hm.
  destruct Hm as [e| |e| | | |a Ht Hact Hget Hi Hg Hsq Hc]; try done;
    try (split; simpl; (done || auto; fail)).
  pose proof (get_Some_range _ _ _ Hget). split; simpl; try done; try lia.
  - intros b [= <-]. unfold attempt_of. simpl.
    replace (gw_next_candidate g + 1 - 1) with (gw_next_candidate g) by lia.
    by split_and!; try lia.
  - rewrite (take_snoc_get _ _ _ Hget), Ho.
    apply eq_true_iff_eq. rewrite orb_true_iff, !bool_decide_eq_true, elem_of_app,
      list_elem_of_singleton. naive_solver.
Qed.

Lemma gateway_new_wf c p l c' g :
  gateway_new c p l = (c', Ok g) -> gateway_wf g /\ gw_policy g = p /\
  gw_next_candidate g = 0 /\ gw_active g = None /\ gw_terminal g = false /\
  gw_instance_id g = c /\ c' = c + 1.
Proof.
  unfold gateway_new. intros E. run_all.
  match goal with H : gateway_limits_validate l = Ok _ |- _ =>
    assert (gateway_limits_validate l = Ok l) as Hl
      by (unfold gateway_limits_validate in *; by case_match);
    rewrite Hl in H; simplify_eq end.
  match goal with H : checked_add _ _ = Some _ |- _ => apply checked_add_Some in H as [-> ?] end.
  split_and!; try done. split; simpl; try done.
  pose proof (zlen_nonneg (for_policy (pol_config p))). lia.
Qed.

Lemma run_wf ops g g' outs : gateway_wf g -> gateway_run g ops = (g', outs) -> gateway_wf g'.
Proof.
  revert g outs. induction ops as [|op ops IH]; intros g outs Hwf E; [by simplify_eq/=|].
  apply run_cons_inv in E as (g1 & out & outs' & -> & Hm & E). eauto using move_wf.
Qed.

Lemma run_const ops g g' outs :
  gateway_run g ops = (g', outs) ->
  gw_instance_id g' = gw_instance_id g /\ gw_limits g' = gw_limits g /\
  gw_policy g' = gw_policy g /\ gw_plan g' = gw_plan g.
Proof.
  revert g outs. induction ops as [|op ops IH]; intros g outs E; [by simplify_eq/=|].
  apply run_cons_inv in E as (g1 & out & outs' & -> & Hm & E).
  apply move_const in Hm. apply IH in E. destruct_and!. split_and!; congruence.
Qed.

(** The attempts of an execution are the next stretch of the plan. *)
Lemma run_attempted ops g g' outs :
  gateway_wf g -> gateway_run g ops = (g', outs) ->
  take (Z.to_nat (gw_next_candidate g')) (gw_plan g) =
  take (Z.to_nat (gw_next_candidate g)) (gw_plan g) ++ attempted outs.
Proof.
  revert g outs. induction ops as [|op ops IH]; intros g outs Hwf E.
  { simplify_eq/=. by rewrite app_nil_r. }
  apply run_cons_inv in E as (g1 & out & outs' & -> & Hm & E).
  pose proof (move_wf _ _ _ Hwf Hm) as Hwf1. specialize (IH _ _ Hwf1 E).
  destruct (move_const _ _ _ Hm) as (_ & _ & _ & Hpl). rewrite Hpl in IH. rewrite IH. clear IH E.
  destruct Hm as [e| |e| | | |a ? ? Hget]; try done. simpl.
  by rewrite (take_snoc_get _ _ _ Hget), <- app_assoc.
Qed.

Lemma validate_response_Ok g bytes ids t :
  validate_response g bytes ids t = Ok tt ->
  0 < zlen bytes <= maximum_response_bytes (gw_limits g) /\ topology_ok t ids.
Proof.
  unfold validate_response. intros H. pose proof (zlen_nonneg bytes).
  case_match; [done|]. breflect. case_match; [done|]. split; [lia|].
  destruct ids as [peer proxy target]; destruct t; simpl in *; run_all; try done;
  repeat match goal with
  | H : ok_or _ _ = Ok _ |- _ => apply ok_or_Ok in H; subst
  | H : ~ (_ <> _) |- _ => apply dec_stable in H; subst
  end; try (eexists _, _; done); try done.
  destruct peer; [by eexists|done].
Qed.

(** Everything a selection promises, in terms of the final gateway. *)
Lemma run_selection ops g g' outs sel :
  gateway_wf g -> gateway_run g ops = (g', outs) -> sel ∈ selections outs ->
  selections outs = [sel] /\
  get (gw_plan g) (gw_next_candidate g' - 1) = Some (sel_transport sel) /\
  0 < zlen (sel_response sel) <= maximum_response_bytes (gw_limits g) /\
  topology_ok (sel_transport sel) (sel_identities sel) /\
  sel_policy_generation sel = pol_generation (gw_policy g) /\
  sel_direct_relay_fallback sel =
    bool_decide (sel_transport sel = HandshakeP2pDnsRelay) && gw_odoh_attempted g'.
Proof.
  revert g outs. induction ops as [|op ops IH]; intros g outs Hwf E Hin.
  { simplify_eq/=. by apply not_elem_of_nil in Hin. }
  apply run_cons_inv in E as (g1 & out & outs' & -> & Hm & E).
  pose proof (move_wf _ _ _ Hwf Hm) as Hwf1. specialize (IH _ _ Hwf1 E).
  destruct (move_const _ _ _ Hm) as (_ & Hl & Hpol & Hpl). rewrite Hpl, Hl, Hpol in IH.
  destruct Hm as [e| |e| | |a bytes ids Hact Hv|a]; try (by apply IH).
  destruct (closed_run _ _ _ _ (revoke_closed g) E) as (_ & Hs & _ & Hn & Ho).
  simpl in Hin. rewrite Hs, list_elem_of_singleton in Hin. subst sel.
  destruct (wf_active _ Hwf _ Hact) as [(_ & _ & _ & _ & Hget) _].
  destruct (validate_response_Ok _ _ _ _ Hv). simpl in *. rewrite Hs, Hn, Ho. done.
Qed.

Lemma limits_bounded g : gateway_wf g -> maximum_response_bytes (gw_limits g) <= 65535.
Proof.
  intros Hwf. pose proof (wf_limits _ Hwf) as Hl. unfold gateway_limits_validate in Hl.
  case_match; [done|]. breflect. unfold DEFAULT_MAXIMUM_RESPONSE_BYTES in *. lia.
Qed.

(** No token is outstanding except possibly one newer than sequence [n]. *)
Definition token_spent (n : Z) (g : Gateway) : Prop :=
  n <= gw_sequence g /\ forall b, gw_active g = Some b -> n < att_sequence b.

Lemma move_token_spent n g out g' :
  gateway_move g out g' -> token_spent n g -> token_spent n g'.
Proof.
  unfold token_spent. intros Hm [Hn Hact]. destruct Hm; simpl; try done.
  split; [lia|]. intros b [= <-]. lia.
Qed.

Lemma run_token_spent ops n g g' outs :
  gateway_run g ops = (g', outs) -> token_spent n g -> token_spent n g'.
Proof.
  revert g outs. induction ops as [|op ops IH]; intros g outs E Hs; [by simplify_eq/=|].
  apply run_cons_inv in E as (g1 & out & outs' & -> & Hm & E). eauto using move_token_spent.
Qed.

Lemma complete_rejects g p a o now :
  gw_active g <> Some a -> is_ok (snd (complete g p a o now)) = false.
Proof.
  intros Ha. destruct (complete g p a o now) as [g' r] eqn:E.
  apply complete_inv in E. by destruct E.
Qed.

Lemma validate_response_Err g bytes ids t e :
  validate_response g bytes ids t = Err e -> e <> NoActiveAttempt /\ e <> AttemptMismatch.
Proof.
  unfold validate_response, ok_or. intros H.
  by destruct t; repeat (case_match; simplify_eq/=).
Qed.

(** ** Properties *)

(** The gateway only ever walks the policy plan: in every sequence of calls
    on a gateway made by [Gateway::new], whatever tokens, policies, outcomes
    and times the caller supplies, the transports of the issued attempts form a
    prefix of the plan of its policy. *)
Theorem attempts_follow_plan c policy limits c' g ops g' outs :
  gateway_new c policy limits = (c', Ok g) ->
  gateway_run g ops = (g', outs) ->
  attempted outs `prefix_of` for_policy (pol_config policy).
Proof.
  intros Hnew E. destruct (gateway_new_wf _ _ _ _ _ Hnew) as (Hwf & Hpol & Hn & _).
  pose proof (run_attempted _ _ _ _ Hwf E) as Ha. rewrite Hn in Ha. simpl in Ha.
  rewrite <- Ha, (wf_plan _ Hwf), Hpol. apply prefix_take.
Qed.

(** A selection is what the policy and the wire bounds allow: an execution
    selects at most once; the selected transport was attempted, its response is
    nonempty and fits a DNS message, the observed identities have the topology
    of that transport, the generation is the policy's, and the privacy
    downgrade flag is set exactly for a relay answer after an ODoH attempt. *)
Theorem selection_sound c policy limits c' g ops g' outs sel :
  gateway_new c policy limits = (c', Ok g) ->
  gateway_run g ops = (g', outs) ->
  sel ∈ selections outs ->
  selections outs = [sel] /\
  sel_transport sel ∈ attempted outs /\
  0 < zlen (sel_response sel) <= 65535 /\
  topology_ok (sel_transport sel) (sel_identities sel) /\
  sel_policy_generation sel = pol_generation policy /\
  (sel_direct_relay_fallback sel = true <->
     sel_transport sel = HandshakeP2pDnsRelay /\ HandshakeP2pOdoh ∈ attempted outs).
Proof.
  intros Hnew E Hin. destruct (gateway_new_wf _ _ _ _ _ Hnew) as (Hwf & Hpol & Hn & _).
  pose proof (run_attempted _ _ _ _ Hwf E) as Ha. rewrite Hn in Ha. simpl in Ha.
  destruct (run_selection _ _ _ _ _ Hwf E Hin) as (Hone & Hget & Hsz & Htop & Hgen & Hfb).
  pose proof (run_wf _ _ _ _ Hwf E) as Hwf'. pose proof (limits_bounded _ Hwf).
  destruct (run_const _ _ _ _ E) as (_ & _ & _ & Hpl).
  rewrite (wf_odoh _ Hwf'), Hpl, Ha in Hfb. split_and!; try done; try lia; try congruence.
  - rewrite <- Ha. apply elem_of_take. exists (Z.to_nat (gw_next_candidate g' - 1)).
    pose proof (get_Some_range _ _ _ Hget). unfold get in Hget. case_match; [done|].
    split; [done|lia].
  - by rewrite Hfb, andb_true_iff, !bool_decide_eq_true.
Qed.

(** C2. Completion fails closed: the caller may go on to another transport only
    after a late or retryable failure; a call with the wrong token changes
    nothing; and after every other result (a selection, exhaustion, a stale
    policy, a malformed, unauthenticated or cancelled path, an invalid
    response) no later call attempts or selects anything again. *)
Theorem completion_fails_closed g policy attempt outcome now g' r :
  complete g policy attempt outcome now = (g', r) ->
  match r with
  | Ok RetryAvailable =>
      att_deadline attempt < now \/
      exists f, outcome = Failure f /\ retryable f (att_transport attempt)
  | Err NoActiveAttempt | Err AttemptMismatch => g' = g
  | _ => forall ops, attempted (snd (gateway_run g' ops)) = [] /\
                     selections (snd (gateway_run g' ops)) = []
  end.
Proof.
  intros E. apply complete_inv in E.
  assert (forall ops, attempted (snd (gateway_run (revoke g) ops)) = [] /\
                      selections (snd (gateway_run (revoke g) ops)) = []) as Hcl.
  { intros ops. destruct (gateway_run (revoke g) ops) as [g2 outs] eqn:Er.
    by destruct (closed_run _ _ _ _ (revoke_closed g) Er) as (? & ? & _). }
  destruct E as [| | |f ? ? He| | |bytes ids e ? ? ? Hv|]; try done.
  - unfold effective in He. case_match; breflect; [by left|right]. eauto.
  - by destruct (validate_response_Err _ _ _ _ _ Hv), e.
Qed.

(** Attempt tokens are single-use and not transferable: once a gateway has
    consumed a token (whatever the outcome), no later call on it accepts that
    token again, and it never accepts a token issued by another instance. *)
Theorem attempt_token_single_use g policy attempt outcome now g1 r ops g2 outs :
  gateway_wf g ->
  gw_active g = Some attempt ->
  complete g (gw_policy g) attempt outcome now = (g1, r) ->
  gateway_run g1 ops = (g2, outs) ->
  (forall outcome2 now2, is_ok (snd (complete g2 policy attempt outcome2 now2)) = false) /\
  (forall b outcome2 now2, att_instance_id b <> gw_instance_id g ->
     is_ok (snd (complete g2 policy b outcome2 now2)) = false).
Proof.
  intros Hwf Hact E Er. destruct (wf_active _ Hwf _ Hact) as [(_ & _ & Hseq & _) _].
  assert (gateway_move g (match r with Ok s => OutStep s | Err e => OutError e end) g1) as Hm.
  { apply (exec_move g (OpComplete (gw_policy g) attempt outcome now)). simpl. rewrite E.
    by destruct r. }
  assert (token_spent (att_sequence attempt) g1) as Hs1.
  { apply complete_inv in E. unfold token_spent. destruct E; try congruence; simpl;
      (split; [lia|done]). }
  pose proof (run_token_spent _ _ _ _ _ Er Hs1) as [_ Hs2].
  pose proof (run_wf _ _ _ _ (move_wf _ _ _ Hwf Hm) Er) as Hwf2.
  destruct (run_const _ _ _ _ Er) as [Hid _]. destruct (move_const _ _ _ Hm) as [Hid1 _].
  split.
  - intros o2 now2. apply complete_rejects. intros Ha. specialize (Hs2 _ Ha). lia.
  - intros b o2 now2 Hne. apply complete_rejects. intros Ha.
    destruct (wf_active _ Hwf2 _ Ha) as [(Hi & _) _]. congruence.
Qed.

(** ** A whole resolution

    The loop a caller runs around one gateway: issue, perform the I/O, report,
    and go on while the gateway says so. The adapter's reaction to the [k]-th
    candidate is [reply k]. *)

Record AdapterReply := {
  rep_started : Z;
  rep_outcome : AttemptOutcome;
  rep_completed : Z }.

Fixpoint drive (fuel : nat) (g : Gateway) (policy : PolicySnapshot) (reply : Z -> AdapterReply)
    : option (result GatewayError GatewayStep) :=
  match fuel with
  | O => None
  | S fuel =>
      let rep := reply (gw_next_candidate g) in
      match next_attempt g policy (rep_started rep) with
      | (_, Err e) => Some (Err e)
      | (g1, Ok a) =>
          match complete g1 policy a (rep_outcome rep) (rep_completed rep) with
          | (g2, Ok RetryAvailable) => drive fuel g2 policy reply
          | (_, r) => Some r
          end
      end
  end.

(** The same resolution read off the plan: the first candidate that answers or
    fails for good decides. *)
Fixpoint resolve_plan (g : Gateway) (reply : Z -> AdapterReply)
    (plan : list ResolutionTransport) (k : Z) (odoh : bool) : result GatewayError GatewayStep :=
  match plan with
  | [] => Ok Unavailable
  | t :: rest =>
      let rep := reply k in
      let odoh := odoh || bool_decide (t = HandshakeP2pOdoh) in
      let late := rep_started rep + attempt_timeout_seconds (gw_limits g) <? rep_completed rep in
      match (if late then Failure Timeout_ else rep_outcome rep) with
      | Failure f =>
          if permits_fallback_from f t then resolve_plan g reply rest (k + 1) odoh
          else Err (TerminalTransportFailure f)
      | Response bytes ids =>
          let? _ := validate_response g bytes ids t in
          Ok (Selected {| sel_policy_generation := pol_generation (gw_policy g);
                          sel_transport := t; sel_response := bytes; sel_identities := ids;
                          sel_direct_relay_fallback :=
                            bool_decide (t = HandshakeP2pDnsRelay) && odoh |})
      end
  end.

Lemma validate_response_limits g g0 bytes ids t :
  gw_limits g = gw_limits g0 -> validate_response g bytes ids t = validate_response g0 bytes ids t.
Proof. unfold validate_response. by intros ->. Qed.

Lemma gateway_new_fields c p l c' g :
  gateway_new c p l = (c', Ok g) -> gw_limits g = l /\ gw_odoh_attempted g = false.
Proof.
  unfold gateway_new, gateway_limits_validate. intros E.
  by repeat (case_match; simplify_eq/=).
Qed.

Section resolution.
Context (g0 : Gateway) (reply : Z -> AdapterReply).
Context (timely : forall k, rep_started (reply k) + attempt_timeout_seconds (gw_limits g0) <= u64_max).

(** The gateway between two attempts of one resolution. *)
Definition resuming (g : Gateway) (rest : list ResolutionTransport) : Prop :=
  gateway_wf g /\ gw_active g = None /\ gw_terminal g = false /\
  gw_limits g = gw_limits g0 /\ gw_policy g = gw_policy g0 /\
  drop (Z.to_nat (gw_next_candidate g)) (gw_plan g) = rest.

Lemma resuming_next g t rest :
  resuming g (t :: rest) ->
  exists a, next_attempt g (gw_policy g) (rep_started (reply (gw_next_candidate g)))
              = (issued g a, Ok a) /\
            att_transport a = t /\
            att_deadline a = rep_started (reply (gw_next_candidate g))
                             + attempt_timeout_seconds (gw_limits g0).
Proof.
  intros (Hwf & Ha & Ht & Hl & Hp & Hd).
  assert (get (gw_plan g) (gw_next_candidate g) = Some t) as Hget.
  { unfold get. destruct Hwf. case_match; breflect; [lia|].
    rewrite <- (take_drop (Z.to_nat (gw_next_candidate g)) (gw_plan g)), Hd.
    rewrite lookup_app_r; rewrite length_take; unfold zlen in *; [|lia].
    by replace (_ - _)%nat with 0%nat by lia. }
  pose proof (get_Some_range _ _ _ Hget) as Hr.
  pose proof (plan_bounded (pol_config (gw_policy g))) as Hb.
  rewrite <- (wf_plan _ Hwf) in Hb. unfold zlen in Hr.
  unfold next_attempt. destruct (ensure_current_policy_cases g (gw_policy g)) as [[_ ?]|[-> _]]; [done|].
  rewrite Ht, Ha, Hget, (checked_add_small (gw_sequence g)), Hl,
    (checked_add_small _ (attempt_timeout_seconds _)) by
    (first [apply timely|rewrite (wf_sequence _ Hwf); width_lia]).
  eexists. split; [f_equal; unfold issued; simpl; congruence|done].
Qed.

Lemma drive_resolve rest fuel g :
  resuming g rest -> rest <> [] -> (length rest <= fuel)%nat ->
  drive fuel g (gw_policy g) reply =
  Some (resolve_plan g0 reply rest (gw_next_candidate g) (gw_odoh_attempted g)).
Proof.
  revert fuel g. induction rest as [|t rest IH]; intros fuel g Hr Hne Hf; [done|].
  destruct fuel as [|fuel]; simpl in Hf; [lia|]. simpl.
  destruct (resuming_next _ _ _ Hr) as (a & Hn & Hta & Hda). rewrite Hn.
  destruct Hr as (Hwf & Ha & Ht & Hl & Hp & Hd).
  assert (gateway_move g (OutAttempt a) (issued g a)) as Hm.
  { apply (exec_move g (OpNext (gw_policy g) (rep_started (reply (gw_next_candidate g))))).
    simpl. by rewrite Hn. }
  pose proof (move_wf _ _ _ Hwf Hm) as Hwf1.
  assert (resuming (consumed (issued g a)) rest) as Hr2.
  { split_and!; simpl; try done.
    - apply (move_wf (issued g a) (OutStep RetryAvailable)); [done|]. by eapply move_retry.
    - rewrite Z2Nat.inj_add by (destruct Hwf; lia). by rewrite <- drop_drop, Hd. }
  assert (zlen (gw_plan g) = gw_next_candidate g + 1 + zlen rest) as Hlen.
  { rewrite <- (take_drop (Z.to_nat (gw_next_candidate g)) (gw_plan g)), Hd.
    rewrite zlen_app, zlen_cons. unfold zlen at 1. rewrite length_take.
    destruct Hwf. unfold zlen in *. lia. }
  change (gw_policy g) with (gw_policy (issued g a)).
  rewrite <- Hda.
  destruct (complete _ _ _ _ _) as [g2 r] eqn:E. apply complete_inv in E.
  subst t. fold (effective a (rep_outcome (reply (gw_next_candidate g)))
    (rep_completed (reply (gw_next_candidate g)))).
  destruct E as [| |? ? Hb|f _ _ He Hrt|f _ _ He Hrt Hz|f _ _ He Hrt|? ? ? _ _ He Hv|? ? _ _ He Hv];
    try congruence; try (simpl in *; congruence); rewrite ?He; simpl in *.
  - rewrite (proj2 (permits_fallback_iff _ _) Hrt).
    apply (IH fuel _ Hr2); [|lia]. intros ->. rewrite zlen_nil in Hlen. lia.
  - rewrite (proj2 (permits_fallback_iff _ _) Hrt).
    assert (rest = []) as -> by (apply zlen_0; pose proof (zlen_nonneg rest); lia). done.
  - rewrite <- permits_fallback_iff in Hrt. by apply not_true_is_false in Hrt as ->.
  - rewrite (validate_response_limits _ g0) in Hv by done. by rewrite Hv.
  - rewrite (validate_response_limits _ g0) in Hv by done. rewrite Hv. unfold selection_for. simpl. by rewrite Hp.
Qed.
End resolution.

(** C37. Resolving is total and direct-first: driving a fresh gateway with any
    adapter finishes within one attempt per candidate, never gets stuck on its
    own counters, and its answer is that of the first candidate of the plan
    that responds in time or fails for good; when every candidate fails for a
    retryable reason it reports [Unavailable]. *)
Theorem drive_refines_plan c policy limits c' g reply fuel :
  gateway_new c policy limits = (c', Ok g) ->
  (forall k, rep_started (reply k) + attempt_timeout_seconds limits <= u64_max) ->
  (6 <= fuel)%nat ->
  drive fuel g policy reply =
  Some (resolve_plan g reply (for_policy (pol_config policy)) 0 false).
Proof.
  intros Hnew Htime Hf. destruct (gateway_new_wf _ _ _ _ _ Hnew) as (Hwf & Hpol & Hn & Ha & Ht & _).
  destruct (gateway_new_fields _ _ _ _ _ Hnew) as [Hl Ho].
  pose proof (plan_bounded (pol_config policy)).
  destruct (plan_direct_first (pol_config policy)) as [rest Hd].
  rewrite <- Hpol, <- Hn, <- Ho. apply drive_resolve; rewrite ?Hpol, ?Hl; try done.
  - split_and!; try done. by rewrite Hn, (wf_plan _ Hwf), Hpol.
  - by rewrite Hd.
  - lia.
Qed.

(** ** Concrete resolutions *)

Definition demo_gateway : Gateway :=
  {| gw_instance_id := 1; gw_limits := gateway_limits_default;
     gw_policy := policy_snapshot_default; gw_plan := for_policy policy_config_default;
     gw_next_candidate := 0; gw_sequence := 0; gw_active := None; gw_terminal := false;
     gw_odoh_attempted := false |}.

Definition demo_attempt (k : Z) (t : ResolutionTransport) : GatewayAttempt :=
  {| att_instance_id := 1; att_policy_generation := 1; att_sequence := k + 1;
     att_candidate_index := k; att_transport := t; att_deadline := 110 |}.

Definition demo_peer : GatewayIdentities :=
  {| id_peer := Some [112]; id_proxy := None; id_target := None |}.

(** Direct paths and ODoH are unreachable; the relay answers. *)
Definition demo_ops : list gateway_op :=
  let fail k t := [OpNext policy_snapshot_default 100;
                   OpComplete policy_snapshot_default (demo_attempt k t) (Failure Unreachable) 101] in
  fail 0 DirectAuthoritativeUdp ++ fail 1 DirectAuthoritativeTcp
  ++ fail 2 AuthenticatedAuthoritativeDoh ++ fail 3 HandshakeP2pOdoh
  ++ [OpNext policy_snapshot_default 100;
      OpComplete policy_snapshot_default (demo_attempt 4 HandshakeP2pDnsRelay)
        (Response [1; 2; 3] demo_peer) 105].

Definition demo_selection : GatewaySelection :=
  {| sel_policy_generation := 1; sel_transport := HandshakeP2pDnsRelay;
     sel_response := [1; 2; 3]; sel_identities := demo_peer;
     sel_direct_relay_fallback := true |}.

Lemma attempts_follow_plan_witness :
  attempted (snd (gateway_run demo_gateway demo_ops))
    `prefix_of` for_policy (pol_config policy_snapshot_default).
Proof.
  apply (attempts_follow_plan 1 policy_snapshot_default gateway_limits_default 2 demo_gateway
           demo_ops (fst (gateway_run demo_gateway demo_ops))); reflexivity.
Defined.

Lemma selection_sound_witness :
  sel_direct_relay_fallback demo_selection = true <->
  sel_transport demo_selection = HandshakeP2pDnsRelay /\
  HandshakeP2pOdoh ∈ attempted (snd (gateway_run demo_gateway demo_ops)).
Proof.
  apply (selection_sound 1 policy_snapshot_default gateway_limits_default 2 demo_gateway
           demo_ops (fst (gateway_run demo_gateway demo_ops)) _ demo_selection).
  - reflexivity.
  - reflexivity.
  - vm_compute. left.
Defined.

(** An unauthenticated path ends the resolution although candidates remain. *)
Definition demo_in_flight : Gateway := issued demo_gateway (demo_attempt 0 DirectAuthoritativeUdp).

Lemma completion_fails_closed_witness :
  complete demo_in_flight policy_snapshot_default (demo_attempt 0 DirectAuthoritativeUdp)
    (Failure AuthenticationFailed) 101
  = (revoke demo_in_flight, Err (TerminalTransportFailure AuthenticationFailed)) /\
  forall ops, attempted (snd (gateway_run (revoke demo_in_flight) ops)) = [] /\
              selections (snd (gateway_run (revoke demo_in_flight) ops)) = [].
Proof.
  split; [reflexivity|].
  exact (completion_fails_closed demo_in_flight policy_snapshot_default
           (demo_attempt 0 DirectAuthoritativeUdp) (Failure AuthenticationFailed) 101
           (revoke demo_in_flight) (Err (TerminalTransportFailure AuthenticationFailed))
           eq_refl).
Defined.

Lemma attempt_token_single_use_witness :
  is_ok (snd (complete (consumed demo_in_flight) policy_snapshot_default
    (demo_attempt 0 DirectAuthoritativeUdp) (Response [1] identities_default) 102)) = false.
Proof.
  refine (proj1 (attempt_token_single_use demo_in_flight policy_snapshot_default
           (demo_attempt 0 DirectAuthoritativeUdp) (Failure Unreachable) 101
           (consumed demo_in_flight) (Ok RetryAvailable) [] (consumed demo_in_flight) []
           _ _ _ _) _ _).
  - apply (run_wf [OpNext policy_snapshot_default 100] demo_gateway demo_in_flight
             [OutAttempt (demo_attempt 0 DirectAuthoritativeUdp)]); [|reflexivity].
    apply (gateway_new_wf 1 policy_snapshot_default gateway_limits_default 2). reflexivity.
  - reflexivity.
  - reflexivity.
  - reflexivity.
Defined.

Definition demo_reply (k : Z) : AdapterReply :=
  {| rep_started := 100;
     rep_outcome := if k =? 1 then Response [9] identities_default else Failure Truncated;
     rep_completed := 103 |}.

Lemma drive_refines_plan_witness :
  drive 6 demo_gateway policy_snapshot_default demo_reply =
  Some (resolve_plan demo_gateway demo_reply (for_policy (pol_config policy_snapshot_default))
          0 false).
Proof.
  apply (drive_refines_plan 1 policy_snapshot_default gateway_limits_default 2).
  - reflexivity.
  - intros k. vm_compute. discriminate.
  - lia.
Defined.
