(* ===== verification/DnsTypes.v ===== *)
(** * DNS wire data model

    Models the types of [src/crates/hns-dns-wire/src/lib.rs]: names, flags,
    record types, RDATA and messages. Labels and opaque data are byte strings;
    addresses are their octets. *)

From S2P Require Import Prelude.

Definition CLASS_IN : Z := 1.
Definition MAX_LABEL_LEN : Z := 63.
Definition MAX_WIRE_NAME_LEN : Z := 255.
Definition DEFAULT_UDP_PAYLOAD : Z := 1232.
Definition EDNS_DO : Z := 0x8000.

Record ParseLimits := {
  max_message_len : Z;
  max_questions : Z;
  max_records : Z;
  max_rdata_len : Z;
  max_labels_per_name : Z;
  max_compression_jumps : Z }.

Definition limits_browser : ParseLimits :=
  {| max_message_len := u16_max; max_questions := 4; max_records := 2048;
     max_rdata_len := u16_max; max_labels_per_name := 127; max_compression_jumps := 32 |}.

Definition limits_requester : ParseLimits :=
  {| max_message_len := u16_max; max_questions := 1; max_records := 1024;
     max_rdata_len := 16384; max_labels_per_name := 127; max_compression_jumps := 16 |}.

Inductive WireError :=
| UnexpectedEof | MessageTooLong | CountLimit | InvalidLabel | NameLimit
| PointerOutOfBounds | ForwardPointer | CompressionLoop | CompressionJumpLimit
| RdataLimit | InvalidRdata | InvalidEdns | TrailingBytes | LengthOverflow
| InvalidQuery | ReservedHeaderBits | NotResponse | IdMismatch | OpcodeMismatch
| QuestionMismatch | WireTruncated | EncodeLimit | TypeMismatch.

(** ** Names *)

Record Name := { name_labels : list (list Z) }.

Definition name_root : Name := {| name_labels := [] |}.

Definition canonical_label (label : list Z) : list Z := map to_ascii_lowercase label.

(** The loop of [Name::from_labels]. *)
Fixpoint from_labels_loop (wire_len : Z) (canonical : list (list Z)) (labels : list (list Z))
    : result WireError Name :=
  match labels with
  | [] => Ok {| name_labels := canonical |}
  | label :: rest =>
      if (zlen label =? 0) || (MAX_LABEL_LEN <? zlen label) then Err InvalidLabel else
      let? wire_len := ok_or (checked_add wire_len (zlen label + 1)) LengthOverflow in
      if MAX_WIRE_NAME_LEN <? wire_len then Err NameLimit else
      from_labels_loop wire_len (canonical ++ [canonical_label label]) rest
  end.

Definition from_labels (labels : list (list Z)) : result WireError Name :=
  from_labels_loop 1 [] labels.

Definition from_ascii (input : list Z) : result WireError Name :=
  let input := strip_dot input in
  if zlen input =? 0 then Ok name_root else from_labels (split_on 46 input).

Definition name_is_root (n : Name) : bool := zlen (name_labels n) =? 0.

Definition name_wire_len (n : Name) : Z :=
  fold_left (fun length label => length + zlen label + 1) (name_labels n) 1.

(** [Name::encode]: the bytes it appends to its output. *)
Fixpoint encode_labels (labels : list (list Z)) : result WireError (list Z) :=
  match labels with
  | [] => Ok [0]
  | label :: rest =>
      if u8_max <? zlen label then Err InvalidLabel
      else if MAX_LABEL_LEN <? zlen label then Err InvalidLabel
      else let? tail := encode_labels rest in
           Ok (zlen label :: label ++ tail)
  end.

Definition name_encode (n : Name) : result WireError (list Z) :=
  if MAX_WIRE_NAME_LEN <? name_wire_len n then Err NameLimit
  else encode_labels (name_labels n).

(** One byte of a label as [Display] prints it: itself, or a backslash and
    three decimal digits. *)
Definition display_byte (b : Z) : list Z :=
  if is_ascii_alphanumeric b || (b =? 45) || (b =? 95) then [b]
  else [92; 48 + b / 100; 48 + (b / 10) mod 10; 48 + b mod 10].

Definition display_label (label : list Z) : list Z := concat (map display_byte label).

(** The characters [<Name as Display>::fmt] writes. *)
Definition name_display (n : Name) : list Z :=
  match name_labels n with
  | [] => [46]
  | first :: rest =>
      display_label first ++ concat (map (fun label => 46 :: display_label label) rest) ++ [46]
  end.

(** ** Flags and header *)

Record Flags := { flags_bits : Z }.

Definition is_response (f : Flags) : bool := negb (Z.land (flags_bits f) 0x8000 =? 0).
Definition opcode (f : Flags) : Z := Z.land (Z.shiftr (flags_bits f) 11) 0x0f.
Definition authoritative (f : Flags) : bool := negb (Z.land (flags_bits f) 0x0400 =? 0).
Definition flag_truncated (f : Flags) : bool := negb (Z.land (flags_bits f) 0x0200 =? 0).
Definition recursion_desired (f : Flags) : bool := negb (Z.land (flags_bits f) 0x0100 =? 0).
Definition recursion_available (f : Flags) : bool := negb (Z.land (flags_bits f) 0x0080 =? 0).
Definition authenticated_data_claim (f : Flags) : bool :=
  negb (Z.land (flags_bits f) 0x0020 =? 0).
Definition rcode (f : Flags) : Z := Z.land (flags_bits f) 0x000f.

Record Header := {
  hdr_id : Z;
  hdr_flags : Flags;
  question_count : Z;
  answer_count : Z;
  authority_count : Z;
  additional_count : Z }.

(** ** Record types *)

Inductive RecordType :=
| A | Ns | Cname | Soa | Mx | Txt | Aaaa | Srv | Ds | Opt | Rrsig | Nsec | Dnskey
| Nsec3 | Tlsa | Svcb | Https | Unknown (code : Z).

Definition from_code (code : Z) : RecordType :=
  match code with
  | 1 => A | 2 => Ns | 5 => Cname | 6 => Soa | 15 => Mx | 16 => Txt | 28 => Aaaa
  | 33 => Srv | 41 => Opt | 43 => Ds | 46 => Rrsig | 47 => Nsec | 48 => Dnskey
  | 50 => Nsec3 | 52 => Tlsa | 64 => Svcb | 65 => Https
  | value => Unknown value
  end.

Definition code (t : RecordType) : Z :=
  match t with
  | A => 1 | Ns => 2 | Cname => 5 | Soa => 6 | Mx => 15 | Txt => 16 | Aaaa => 28
  | Srv => 33 | Opt => 41 | Ds => 43 | Rrsig => 46 | Nsec => 47 | Dnskey => 48
  | Nsec3 => 50 | Tlsa => 52 | Svcb => 64 | Https => 65
  | Unknown value => value
  end.

(** ** Questions and records *)

Record Question := { q_name : Name; q_type : RecordType; q_class : Z }.

Record SoaData := {
  soa_mname : Name; soa_rname : Name; soa_serial : Z; soa_refresh : Z;
  soa_retry : Z; soa_expire : Z; soa_minimum : Z }.
Record MxData := { mx_preference : Z; mx_exchange : Name }.
Record SrvData := { srv_priority : Z; srv_weight : Z; srv_port : Z; srv_target : Name }.
Record DsData := {
  ds_key_tag : Z; ds_algorithm : Z; ds_digest_type : Z; ds_digest : list Z }.
Record DnskeyData := {
  key_flags : Z; key_protocol : Z; key_algorithm : Z; key_public_key : list Z }.
Record RrsigData := {
  sig_type_covered : RecordType; sig_algorithm : Z; sig_labels : Z; sig_original_ttl : Z;
  sig_expiration : Z; sig_inception : Z; sig_key_tag : Z; sig_signer : Name;
  sig_signature : list Z }.
Record NsecData := { nsec_next_domain : Name; nsec_type_bitmaps : list Z }.
Record Nsec3Data := {
  nsec3_hash_algorithm : Z; nsec3_flags : Z; nsec3_iterations : Z; nsec3_salt : list Z;
  nsec3_next_hashed_owner : list Z; nsec3_type_bitmaps : list Z }.
Record TlsaData := {
  tlsa_usage : Z; tlsa_selector : Z; tlsa_matching_type : Z; tlsa_association_data : list Z }.
Record EdnsOption := { opt_code : Z; opt_data : list Z }.

Inductive Rdata :=
| RdataA (octets : list Z)
| RdataAaaa (octets : list Z)
| RdataNs (n : Name)
| RdataCname (n : Name)
| RdataSoa (soa : SoaData)
| RdataMx (mx : MxData)
| RdataTxt (strings : list (list Z))
| RdataSrv (srv : SrvData)
| RdataDs (ds : DsData)
| RdataDnskey (key : DnskeyData)
| RdataRrsig (sig : RrsigData)
| RdataNsec (nsec : NsecData)
| RdataNsec3 (nsec3 : Nsec3Data)
| RdataTlsa (tlsa : TlsaData)
| RdataOpt (options : list EdnsOption)
| RdataOpaque (bytes : list Z).

Record ResourceRecord := {
  rr_name : Name; rr_type : RecordType; rr_class : Z; rr_ttl : Z; rr_rdata : Rdata }.

Record Message := {
  msg_header : Header;
  msg_questions : list Question;
  msg_answers : list ResourceRecord;
  msg_authorities : list ResourceRecord;
  msg_additionals : list ResourceRecord }.

Record Query := { query_id : Z; query_question : Question }.

#[export] Instance Name_eq_dec : EqDecision Name.
Proof. solve_decision. Defined.
#[export] Instance RecordType_eq_dec : EqDecision RecordType.
Proof. solve_decision. Defined.
#[export] Instance Question_eq_dec : EqDecision Question.
Proof. solve_decision. Defined.
