(* ===== verification/DnsParse.v ===== *)
(** * DNS wire parser

    Models the parsing half of [src/crates/hns-dns-wire/src/lib.rs]: header,
    compressed names, RDATA of every known type, whole messages and strict
    queries. Loops are step functions run by [loop]; their fuel is one more
    than the number of bytes they walk over, which [DnsNames] and [DnsRdata]
    show to be enough. *)

From S2P Require Import Prelude DnsTypes.

(** ** Fixed-width reads *)

Definition be_u16 (bytes : list Z) (offset : Z) : result WireError Z :=
  let? stop := ok_or (checked_add offset 2) LengthOverflow in
  let? value := ok_or (get_range bytes offset stop) UnexpectedEof in
  Ok (from_be value).

Definition be_u32 (bytes : list Z) (offset : Z) : result WireError Z :=
  let? stop := ok_or (checked_add offset 4) LengthOverflow in
  let? value := ok_or (get_range bytes offset stop) UnexpectedEof in
  Ok (from_be value).

(** [Header::parse]. *)
Definition header_parse (message : list Z) : result WireError Header :=
  let? bytes := ok_or (get_range message 0 12) UnexpectedEof in
  let? id := be_u16 bytes 0 in
  let? flags := be_u16 bytes 2 in
  let? qd := be_u16 bytes 4 in
  let? an := be_u16 bytes 6 in
  let? ns := be_u16 bytes 8 in
  let? ar := be_u16 bytes 10 in
  Ok {| hdr_id := id; hdr_flags := {| flags_bits := flags |}; question_count := qd;
        answer_count := an; authority_count := ns; additional_count := ar |}.

(** ** Names *)

Record name_state := {
  ns_labels : list (list Z);
  ns_cursor : Z;
  ns_consumed_end : option Z;
  ns_jumps : Z;
  ns_expanded_len : Z;
  ns_visited : list bool }.

(** One turn of the loop of [decode_name]. *)
Definition decode_name_step (message : list Z) (contiguous_end : Z) (limits : ParseLimits)
    (st : name_state) : result WireError (name_state + Name * Z) :=
  let cursor := ns_cursor st in
  let? was_visited := ok_or (get (ns_visited st) cursor) PointerOutOfBounds in
  if (was_visited : bool) then Err CompressionLoop else
  let visited := <[Z.to_nat cursor := true]> (ns_visited st) in
  let? length := ok_or (get message cursor) UnexpectedEof in
  if Z.land length 0xc0 =? 0xc0 then
    let? pointer_end := ok_or (checked_add cursor 2) LengthOverflow in
    if bool_decide (ns_consumed_end st = None) && (contiguous_end <? pointer_end)
    then Err UnexpectedEof else
    let? second := ok_or (get message (cursor + 1)) UnexpectedEof in
    let pointer := Z.lor (Z.shiftl (Z.land length 0x3f) 8) second in
    if zlen message <=? pointer then Err PointerOutOfBounds else
    if cursor <=? pointer then Err ForwardPointer else
    let consumed_end :=
      match ns_consumed_end st with None => Some pointer_end | Some e => Some e end in
    let? jumps := ok_or (checked_add (ns_jumps st) 1) LengthOverflow in
    if max_compression_jumps limits <? jumps then Err CompressionJumpLimit else
    Ok (inl {| ns_labels := ns_labels st; ns_cursor := pointer;
               ns_consumed_end := consumed_end; ns_jumps := jumps;
               ns_expanded_len := ns_expanded_len st; ns_visited := visited |})
  else if Z.land length 0xc0 =? 0 then
    let? cursor := ok_or (checked_add cursor 1) LengthOverflow in
    if length =? 0 then
      let next := match ns_consumed_end st with Some e => e | None => cursor end in
      Ok (inr ({| name_labels := ns_labels st |}, next))
    else
    if MAX_LABEL_LEN <? length then Err InvalidLabel else
    let? label_end := ok_or (checked_add cursor length) LengthOverflow in
    if bool_decide (ns_consumed_end st = None) && (contiguous_end <? label_end)
    then Err UnexpectedEof else
    let? label := ok_or (get_range message cursor label_end) UnexpectedEof in
    let? expanded_len :=
      ok_or (checked_add (ns_expanded_len st) (length + 1)) LengthOverflow in
    if (MAX_WIRE_NAME_LEN <? expanded_len)
       || (max_labels_per_name limits <=? zlen (ns_labels st))
    then Err NameLimit else
    Ok (inl {| ns_labels := ns_labels st ++ [canonical_label label]; ns_cursor := label_end;
               ns_consumed_end := ns_consumed_end st; ns_jumps := ns_jumps st;
               ns_expanded_len := expanded_len; ns_visited := visited |})
  else Err InvalidLabel.

Definition name_state_init (message : list Z) (offset : Z) : name_state :=
  {| ns_labels := []; ns_cursor := offset; ns_consumed_end := None; ns_jumps := 0;
     ns_expanded_len := 1; ns_visited := replicate (length message) false |}.

Definition decode_name (message : list Z) (offset contiguous_end : Z) (limits : ParseLimits)
    : result WireError (Name * Z) :=
  if (zlen message <? contiguous_end) || (contiguous_end <=? offset)
  then Err UnexpectedEof else
  match loop (S (length message)) (decode_name_step message contiguous_end limits)
          (name_state_init message offset) with
  | Some r => r
  | None => Err CompressionLoop
  end.

(** ** Questions *)

Definition parse_question (limits : ParseLimits) (message : list Z) (offset : Z)
    : result WireError (Question * Z) :=
  let? (name, cursor) := decode_name message offset (zlen message) limits in
  let? stop := ok_or (checked_add cursor 4) LengthOverflow in
  let? fixed := ok_or (get_range message cursor stop) UnexpectedEof in
  let? record_type := be_u16 fixed 0 in
  let? class := be_u16 fixed 2 in
  Ok ({| q_name := name; q_type := from_code record_type; q_class := class |}, stop).

(** ** RDATA *)

Definition parse_soa (message : list Z) (start stop : Z) (limits : ParseLimits)
    : result WireError SoaData :=
  let? (mname, next) := decode_name message start stop limits in
  let? (rname, next) := decode_name message next stop limits in
  let? fixed_end := ok_or (checked_add next 20) LengthOverflow in
  let? fixed := ok_or (get_range message next fixed_end) InvalidRdata in
  if negb (fixed_end =? stop) then Err InvalidRdata else
  let? serial := be_u32 fixed 0 in
  let? refresh := be_u32 fixed 4 in
  let? retry := be_u32 fixed 8 in
  let? expire := be_u32 fixed 12 in
  let? minimum := be_u32 fixed 16 in
  Ok {| soa_mname := mname; soa_rname := rname; soa_serial := serial; soa_refresh := refresh;
        soa_retry := retry; soa_expire := expire; soa_minimum := minimum |}.

Definition parse_mx (message : list Z) (start stop : Z) (limits : ParseLimits)
    : result WireError MxData :=
  let? raw := ok_or (get_range message start stop) InvalidRdata in
  let? preference := be_u16 raw 0 in
  let? name_start := ok_or (checked_add start 2) LengthOverflow in
  let? (exchange, next) := decode_name message name_start stop limits in
  if negb (next =? stop) then Err InvalidRdata else
  Ok {| mx_preference := preference; mx_exchange := exchange |}.

Definition parse_txt_step (raw : list Z) (st : Z * list (list Z))
    : result WireError ((Z * list (list Z)) + list (list Z)) :=
  let '(cursor, strings) := st in
  if cursor <? zlen raw then
    let? length := ok_or (get raw cursor) InvalidRdata in
    let? cursor := ok_or (checked_add cursor 1) LengthOverflow in
    let? stop := ok_or (checked_add cursor length) LengthOverflow in
    let? string := ok_or (get_range raw cursor stop) InvalidRdata in
    Ok (inl (stop, strings ++ [string]))
  else if zlen strings =? 0 then Err InvalidRdata else Ok (inr strings).

Definition parse_txt (raw : list Z) : result WireError (list (list Z)) :=
  match loop (S (length raw)) (parse_txt_step raw) (0, []) with
  | Some r => r
  | None => Err LengthOverflow
  end.

Definition parse_srv (message : list Z) (start stop : Z) (limits : ParseLimits)
    : result WireError SrvData :=
  let? raw := ok_or (get_range message start stop) InvalidRdata in
  let? target_start := ok_or (checked_add start 6) LengthOverflow in
  let? (target, next) := decode_name message target_start stop limits in
  if negb (next =? stop) then Err InvalidRdata else
  let? priority := be_u16 raw 0 in
  let? weight := be_u16 raw 2 in
  let? port := be_u16 raw 4 in
  Ok {| srv_priority := priority; srv_weight := weight; srv_port := port; srv_target := target |}.

Definition parse_ds (raw : list Z) : result WireError DsData :=
  if zlen raw <? 5 then Err InvalidRdata else
  let? key_tag := be_u16 raw 0 in
  let? algorithm := ok_or (get raw 2) InvalidRdata in
  let? digest_type := ok_or (get raw 3) InvalidRdata in
  let? digest := ok_or (get_from raw 4) InvalidRdata in
  Ok {| ds_key_tag := key_tag; ds_algorithm := algorithm; ds_digest_type := digest_type;
        ds_digest := digest |}.

Definition parse_dnskey (raw : list Z) : result WireError DnskeyData :=
  if zlen raw <? 5 then Err InvalidRdata else
  let? flags := be_u16 raw 0 in
  let? protocol := ok_or (get raw 2) InvalidRdata in
  let? algorithm := ok_or (get raw 3) InvalidRdata in
  let? public_key := ok_or (get_from raw 4) InvalidRdata in
  Ok {| key_flags := flags; key_protocol := protocol; key_algorithm := algorithm;
        key_public_key := public_key |}.

Definition parse_rrsig (message : list Z) (start stop : Z) (limits : ParseLimits)
    : result WireError RrsigData :=
  let? fixed_end := ok_or (checked_add start 18) LengthOverflow in
  let? fixed := ok_or (get_range message start fixed_end) InvalidRdata in
  let? (signer, next) := decode_name message fixed_end stop limits in
  let? signature := ok_or (get_range message next stop) InvalidRdata in
  if zlen signature =? 0 then Err InvalidRdata else
  let? type_covered := be_u16 fixed 0 in
  let? algorithm := ok_or (get fixed 2) InvalidRdata in
  let? labels := ok_or (get fixed 3) InvalidRdata in
  let? original_ttl := be_u32 fixed 4 in
  let? expiration := be_u32 fixed 8 in
  let? inception := be_u32 fixed 12 in
  let? key_tag := be_u16 fixed 16 in
  Ok {| sig_type_covered := from_code type_covered; sig_algorithm := algorithm;
        sig_labels := labels; sig_original_ttl := original_ttl; sig_expiration := expiration;
        sig_inception := inception; sig_key_tag := key_tag; sig_signer := signer;
        sig_signature := signature |}.

(** One turn of the loop of [validate_type_bitmaps]: cursor, previous window
    and number of blocks so far. *)
Definition type_bitmaps_step (raw : list Z) (st : Z * option Z * Z)
    : result WireError ((Z * option Z * Z) + unit) :=
  let '(cursor, previous_window, block_count) := st in
  if cursor <? zlen raw then
    let? window := ok_or (get raw cursor) InvalidRdata in
    let? bitmap_len := ok_or (get raw (cursor + 1)) InvalidRdata in
    if negb ((1 <=? bitmap_len) && (bitmap_len <=? 32))
       || match previous_window with Some previous => window <=? previous | None => false end
    then Err InvalidRdata else
    let? cursor := ok_or (checked_add cursor 2) LengthOverflow in
    let? cursor := ok_or (checked_add cursor bitmap_len) LengthOverflow in
    if zlen raw <? cursor then Err InvalidRdata else
    let? block_count := ok_or (checked_add block_count 1) LengthOverflow in
    if 256 <? block_count then Err InvalidRdata else
    Ok (inl (cursor, Some window, block_count))
  else if block_count =? 0 then Err InvalidRdata else Ok (inr tt).

Definition validate_type_bitmaps (raw : list Z) : result WireError unit :=
  match loop (S (length raw)) (type_bitmaps_step raw) (0, None, 0) with
  | Some r => r
  | None => Err LengthOverflow
  end.

Definition parse_nsec (message : list Z) (start stop : Z) (limits : ParseLimits)
    : result WireError NsecData :=
  let? (next_domain, next) := decode_name message start stop limits in
  let? bitmap := ok_or (get_range message next stop) InvalidRdata in
  let? _ := validate_type_bitmaps bitmap in
  Ok {| nsec_next_domain := next_domain; nsec_type_bitmaps := bitmap |}.

Definition parse_nsec3 (raw : list Z) : result WireError Nsec3Data :=
  if zlen raw <? 6 then Err InvalidRdata else
  let? salt_len := ok_or (get raw 4) InvalidRdata in
  let salt_start := 5 in
  let? salt_end := ok_or (checked_add salt_start salt_len) LengthOverflow in
  let? hash_len := ok_or (get raw salt_end) InvalidRdata in
  if hash_len =? 0 then Err InvalidRdata else
  let? hash_start := ok_or (checked_add salt_end 1) LengthOverflow in
  let? hash_end := ok_or (checked_add hash_start hash_len) LengthOverflow in
  let? bitmap := ok_or (get_from raw hash_end) InvalidRdata in
  let? _ := validate_type_bitmaps bitmap in
  let? hash_algorithm := ok_or (get raw 0) InvalidRdata in
  let? flags := ok_or (get raw 1) InvalidRdata in
  let? iterations := be_u16 raw 2 in
  let? salt := ok_or (get_range raw salt_start salt_end) InvalidRdata in
  let? next_hashed_owner := ok_or (get_range raw hash_start hash_end) InvalidRdata in
  Ok {| nsec3_hash_algorithm := hash_algorithm; nsec3_flags := flags;
        nsec3_iterations := iterations; nsec3_salt := salt;
        nsec3_next_hashed_owner := next_hashed_owner; nsec3_type_bitmaps := bitmap |}.

Definition parse_tlsa (raw : list Z) : result WireError TlsaData :=
  if zlen raw <? 4 then Err InvalidRdata else
  let? usage := ok_or (get raw 0) InvalidRdata in
  let? selector := ok_or (get raw 1) InvalidRdata in
  let? matching_type := ok_or (get raw 2) InvalidRdata in
  let? association_data := ok_or (get_from raw 3) InvalidRdata in
  Ok {| tlsa_usage := usage; tlsa_selector := selector; tlsa_matching_type := matching_type;
        tlsa_association_data := association_data |}.

Definition parse_edns_step (raw : list Z) (st : Z * list EdnsOption)
    : result WireError ((Z * list EdnsOption) + list EdnsOption) :=
  let '(cursor, options) := st in
  if cursor <? zlen raw then
    let? header_end := ok_or (checked_add cursor 4) LengthOverflow in
    let? header := ok_or (get_range raw cursor header_end) InvalidEdns in
    let? code := map_err (be_u16 header 0) InvalidEdns in
    let? length := map_err (be_u16 header 2) InvalidEdns in
    let? data_end := ok_or (checked_add header_end length) LengthOverflow in
    let? data := ok_or (get_range raw header_end data_end) InvalidEdns in
    Ok (inl (data_end, options ++ [{| opt_code := code; opt_data := data |}]))
  else Ok (inr options).

Definition parse_edns (raw : list Z) : result WireError (list EdnsOption) :=
  match loop (S (length raw)) (parse_edns_step raw) (0, []) with
  | Some r => r
  | None => Err LengthOverflow
  end.

Definition parse_rdata (message : list Z) (start stop : Z) (record_type : RecordType)
    (limits : ParseLimits) : result WireError Rdata :=
  let? raw := ok_or (get_range message start stop) UnexpectedEof in
  match record_type with
  | A => if zlen raw =? 4 then Ok (RdataA raw) else Err InvalidRdata
  | Aaaa => if zlen raw =? 16 then Ok (RdataAaaa raw) else Err InvalidRdata
  | Ns | Cname =>
      let? (name, next) := decode_name message start stop limits in
      if negb (next =? stop) then Err InvalidRdata else
      Ok (if bool_decide (record_type = Ns) then RdataNs name else RdataCname name)
  | Soa => result_map RdataSoa (parse_soa message start stop limits)
  | Mx => result_map RdataMx (parse_mx message start stop limits)
  | Txt => result_map RdataTxt (parse_txt raw)
  | Srv => result_map RdataSrv (parse_srv message start stop limits)
  | Ds => result_map RdataDs (parse_ds raw)
  | Dnskey => result_map RdataDnskey (parse_dnskey raw)
  | Rrsig => result_map RdataRrsig (parse_rrsig message start stop limits)
  | Nsec => result_map RdataNsec (parse_nsec message start stop limits)
  | Nsec3 => result_map RdataNsec3 (parse_nsec3 raw)
  | Tlsa => result_map RdataTlsa (parse_tlsa raw)
  | Opt => result_map RdataOpt (parse_edns raw)
  | Svcb | Https | Unknown _ => Ok (RdataOpaque raw)
  end.

(** ** Records and messages *)

Definition parse_record (limits : ParseLimits) (message : list Z) (offset : Z)
    : result WireError (ResourceRecord * Z) :=
  let? (name, cursor) := decode_name message offset (zlen message) limits in
  let? fixed_end := ok_or (checked_add cursor 10) LengthOverflow in
  let? fixed := ok_or (get_range message cursor fixed_end) UnexpectedEof in
  let? type_code := be_u16 fixed 0 in
  let record_type := from_code type_code in
  let? class := be_u16 fixed 2 in
  let? ttl := be_u32 fixed 4 in
  let? rdata_len := be_u16 fixed 8 in
  if max_rdata_len limits <? rdata_len then Err RdataLimit else
  let rdata_start := fixed_end in
  let? rdata_end := ok_or (checked_add rdata_start rdata_len) LengthOverflow in
  let? _ := ok_or (get_range message rdata_start rdata_end) UnexpectedEof in
  let? rdata := parse_rdata message rdata_start rdata_end record_type limits in
  Ok ({| rr_name := name; rr_type := record_type; rr_class := class; rr_ttl := ttl;
         rr_rdata := rdata |}, rdata_end).

(** [for _ in 0..count] around one item parser: the loops of [parse_records]
    and of the question section. *)
Fixpoint parse_many {T} (parse_item : list Z -> Z -> result WireError (T * Z))
    (message : list Z) (cursor : Z) (count : nat) : result WireError (list T * Z) :=
  match count with
  | O => Ok ([], cursor)
  | S count =>
      let? (item, next) := parse_item message cursor in
      let? (items, stop) := parse_many parse_item message next count in
      Ok (item :: items, stop)
  end.

Definition parse_records (limits : ParseLimits) (message : list Z) (cursor count : Z)
    : result WireError (list ResourceRecord * Z) :=
  parse_many (parse_record limits) message cursor (Z.to_nat count).

(** The loop over the additional section: at most one OPT, at the root. *)
Fixpoint pseudo_records_loop (opt_count : Z) (records : list ResourceRecord)
    : result WireError unit :=
  match records with
  | [] => Ok tt
  | record :: rest =>
      if bool_decide (rr_type record = Opt) then
        let? opt_count := ok_or (checked_add opt_count 1) LengthOverflow in
        if (1 <? opt_count) || negb (name_is_root (rr_name record)) then Err InvalidEdns
        else pseudo_records_loop opt_count rest
      else pseudo_records_loop opt_count rest
  end.

Definition validate_pseudo_records (m : Message) : result WireError unit :=
  if existsb (fun r => bool_decide (rr_type r = Opt)) (msg_answers m ++ msg_authorities m)
  then Err InvalidEdns
  else pseudo_records_loop 0 (msg_additionals m).

Definition parse_with_limits (message : list Z) (limits : ParseLimits)
    : result WireError Message :=
  if (max_message_len limits <? zlen message) || (u16_max <? zlen message)
  then Err MessageTooLong else
  let? header := header_parse message in
  if negb (Z.land (flags_bits (hdr_flags header)) 0x0040 =? 0) then Err ReservedHeaderBits else
  if max_questions limits <? question_count header then Err CountLimit else
  let? total := ok_or (checked_add (answer_count header) (authority_count header)) LengthOverflow in
  let? total := ok_or (checked_add total (additional_count header)) LengthOverflow in
  if max_records limits <? total then Err CountLimit else
  let? (questions, next) :=
    parse_many (parse_question limits) message 12 (Z.to_nat (question_count header)) in
  let? (answers, next) := parse_records limits message next (answer_count header) in
  let? (authorities, next) := parse_records limits message next (authority_count header) in
  let? (additionals, next) := parse_records limits message next (additional_count header) in
  if negb (next =? zlen message) then Err TrailingBytes else
  let parsed := {| msg_header := header; msg_questions := questions; msg_answers := answers;
                   msg_authorities := authorities; msg_additionals := additionals |} in
  let? _ := validate_pseudo_records parsed in
  Ok parsed.

(** [Message::parse]. *)
Definition message_parse (message : list Z) : result WireError Message :=
  parse_with_limits message limits_browser.

(** ** Strict queries *)

(** [Query::new]. *)
Definition query_new (id : Z) (name : Name) (record_type : RecordType)
    : result WireError Query :=
  if name_is_root name || bool_decide (record_type = Opt) then Err InvalidQuery
  else Ok {| query_id := id;
             query_question := {| q_name := name; q_type := record_type; q_class := CLASS_IN |} |}.

Definition has_client_subnet (r : ResourceRecord) : bool :=
  match rr_rdata r with
  | RdataOpt options => existsb (fun o => opt_code o =? 8) options
  | _ => false
  end.

(** [Query::parse]. *)
Definition query_parse (message : list Z) (limits : ParseLimits) : result WireError Query :=
  let? parsed := parse_with_limits message limits in
  let flags := hdr_flags (msg_header parsed) in
  if is_response flags
     || negb (opcode flags =? 0)
     || flag_truncated flags
     || negb (Z.land (flags_bits flags) (Z.lxor 0x0130 u16_max) =? 0)
     || negb (zlen (msg_questions parsed) =? 1)
     || negb (zlen (msg_answers parsed) =? 0)
     || negb (zlen (msg_authorities parsed) =? 0)
     || (1 <? zlen (msg_additionals parsed))
  then Err InvalidQuery else
  let? question := ok_or (head (msg_questions parsed)) InvalidQuery in
  if negb (q_class question =? CLASS_IN) || name_is_root (q_name question)
     || bool_decide (q_type question = Opt)
  then Err InvalidQuery else
  if match head (msg_additionals parsed) with
     | Some opt => negb (name_is_root (rr_name opt)) || bool_decide (rr_type opt <> Opt)
     | None => false
     end
  then Err InvalidQuery else
  if existsb has_client_subnet (msg_additionals parsed) then Err InvalidQuery else
  Ok {| query_id := hdr_id (msg_header parsed); query_question := question |}.

Record CorrelatedResponse := { cor_message : Message; cor_untrusted_ad_claim : bool }.

(** [Query::correlate]. *)
Definition query_correlate (q : Query) (response : Message)
    : result WireError CorrelatedResponse :=
  let flags := hdr_flags (msg_header response) in
  if negb (is_response flags) then Err NotResponse else
  if negb (hdr_id (msg_header response) =? query_id q) then Err IdMismatch else
  if negb (opcode flags =? 0) then Err OpcodeMismatch else
  if flag_truncated flags then Err WireTruncated else
  if bool_decide (msg_questions response <> [query_question q]) then Err QuestionMismatch else
  Ok {| cor_message := response; cor_untrusted_ad_claim := authenticated_data_claim flags |}.
