(* ===== verification/DnsEncode.v ===== *)
(** * DNS wire encoder

    Models the encoding half of [src/crates/hns-dns-wire/src/lib.rs]. A
    function that appends to [output: &mut Vec<u8>] becomes the bytes it
    appends; every caller discards the buffer on error. *)

From S2P Require Import Prelude DnsTypes DnsParse.

Definition write_u16 (value : Z) : list Z := to_be 2 value.

Definition write_count (count : Z) : result WireError (list Z) :=
  if u16_max <? count then Err CountLimit else Ok (write_u16 count).

Definition encode_question (q : Question) : result WireError (list Z) :=
  let? name := name_encode (q_name q) in
  Ok (name ++ write_u16 (code (q_type q)) ++ write_u16 (q_class q)).

(** The character strings of a TXT record. *)
Fixpoint encode_strings (strings : list (list Z)) : result WireError (list Z) :=
  match strings with
  | [] => Ok []
  | string :: rest =>
      if u8_max <? zlen string then Err InvalidRdata else
      let? tail := encode_strings rest in
      Ok (zlen string :: string ++ tail)
  end.

(** The options of an OPT record. *)
Fixpoint encode_options (options : list EdnsOption) : result WireError (list Z) :=
  match options with
  | [] => Ok []
  | option :: rest =>
      if u16_max <? zlen (opt_data option) then Err InvalidEdns else
      let? tail := encode_options rest in
      Ok (write_u16 (opt_code option) ++ write_u16 (zlen (opt_data option))
          ++ opt_data option ++ tail)
  end.

Definition encode_rdata (record_type : RecordType) (rdata : Rdata)
    : result WireError (list Z) :=
  match record_type, rdata with
  | A, RdataA octets => Ok octets
  | Aaaa, RdataAaaa octets => Ok octets
  | Ns, RdataNs name => name_encode name
  | Cname, RdataCname name => name_encode name
  | Soa, RdataSoa soa =>
      let? mname := name_encode (soa_mname soa) in
      let? rname := name_encode (soa_rname soa) in
      Ok (mname ++ rname ++ to_be 4 (soa_serial soa) ++ to_be 4 (soa_refresh soa)
          ++ to_be 4 (soa_retry soa) ++ to_be 4 (soa_expire soa) ++ to_be 4 (soa_minimum soa))
  | Mx, RdataMx mx =>
      let? exchange := name_encode (mx_exchange mx) in
      Ok (write_u16 (mx_preference mx) ++ exchange)
  | Txt, RdataTxt strings =>
      if zlen strings =? 0 then Err InvalidRdata else encode_strings strings
  | Srv, RdataSrv srv =>
      let? target := name_encode (srv_target srv) in
      Ok (write_u16 (srv_priority srv) ++ write_u16 (srv_weight srv)
          ++ write_u16 (srv_port srv) ++ target)
  | Ds, RdataDs ds =>
      Ok (write_u16 (ds_key_tag ds) ++ [ds_algorithm ds; ds_digest_type ds] ++ ds_digest ds)
  | Dnskey, RdataDnskey key =>
      Ok (write_u16 (key_flags key) ++ [key_protocol key; key_algorithm key]
          ++ key_public_key key)
  | Rrsig, RdataRrsig sig =>
      let? signer := name_encode (sig_signer sig) in
      Ok (write_u16 (code (sig_type_covered sig)) ++ [sig_algorithm sig; sig_labels sig]
          ++ to_be 4 (sig_original_ttl sig) ++ to_be 4 (sig_expiration sig)
          ++ to_be 4 (sig_inception sig) ++ write_u16 (sig_key_tag sig)
          ++ signer ++ sig_signature sig)
  | Nsec, RdataNsec nsec =>
      let? next_domain := name_encode (nsec_next_domain nsec) in
      let? _ := validate_type_bitmaps (nsec_type_bitmaps nsec) in
      Ok (next_domain ++ nsec_type_bitmaps nsec)
  | Nsec3, RdataNsec3 n =>
      if u8_max <? zlen (nsec3_salt n) then Err InvalidRdata else
      if u8_max <? zlen (nsec3_next_hashed_owner n) then Err InvalidRdata else
      if zlen (nsec3_next_hashed_owner n) =? 0 then Err InvalidRdata else
      let? _ := validate_type_bitmaps (nsec3_type_bitmaps n) in
      Ok ([nsec3_hash_algorithm n; nsec3_flags n] ++ write_u16 (nsec3_iterations n)
          ++ [zlen (nsec3_salt n)] ++ nsec3_salt n
          ++ [zlen (nsec3_next_hashed_owner n)] ++ nsec3_next_hashed_owner n
          ++ nsec3_type_bitmaps n)
  | Tlsa, RdataTlsa tlsa =>
      if zlen (tlsa_association_data tlsa) =? 0 then Err InvalidRdata else
      Ok ([tlsa_usage tlsa; tlsa_selector tlsa; tlsa_matching_type tlsa]
          ++ tlsa_association_data tlsa)
  | Opt, RdataOpt options => encode_options options
  | (Svcb | Https | Unknown _), RdataOpaque bytes => Ok bytes
  | _, _ => Err TypeMismatch
  end.

Definition encode_record (r : ResourceRecord) : result WireError (list Z) :=
  let? name := name_encode (rr_name r) in
  let? rdata := encode_rdata (rr_type r) (rr_rdata r) in
  if u16_max <? zlen rdata then Err EncodeLimit else
  Ok (name ++ write_u16 (code (rr_type r)) ++ write_u16 (rr_class r)
      ++ to_be 4 (rr_ttl r) ++ write_u16 (zlen rdata) ++ rdata).

(** [for item in items { encode(item, &mut output)?; }]. *)
Fixpoint encode_many {T} (encode_item : T -> result WireError (list Z)) (items : list T)
    : result WireError (list Z) :=
  match items with
  | [] => Ok []
  | item :: rest =>
      let? head := encode_item item in
      let? tail := encode_many encode_item rest in
      Ok (head ++ tail)
  end.

(** [Message::encode]. *)
Definition message_encode (m : Message) (max_message_len : Z) : result WireError (list Z) :=
  let? qd := write_count (zlen (msg_questions m)) in
  let? an := write_count (zlen (msg_answers m)) in
  let? ns := write_count (zlen (msg_authorities m)) in
  let? ar := write_count (zlen (msg_additionals m)) in
  let? questions := encode_many encode_question (msg_questions m) in
  let? records :=
    encode_many encode_record (msg_answers m ++ msg_authorities m ++ msg_additionals m) in
  let output := write_u16 (hdr_id (msg_header m))
                ++ write_u16 (flags_bits (hdr_flags (msg_header m)))
                ++ qd ++ an ++ ns ++ ar ++ questions ++ records in
  if max_message_len <? zlen output then Err EncodeLimit else Ok output.

(** The message [Query::encode] builds: DNSSEC OK set, recursion not desired. *)
Definition query_message (q : Query) : Message :=
  {| msg_header := {| hdr_id := query_id q; hdr_flags := {| flags_bits := 0 |};
                      question_count := 1; answer_count := 0; authority_count := 0;
                      additional_count := 1 |};
     msg_questions := [query_question q];
     msg_answers := [];
     msg_authorities := [];
     msg_additionals := [{| rr_name := name_root; rr_type := Opt;
                            rr_class := DEFAULT_UDP_PAYLOAD; rr_ttl := EDNS_DO;
                            rr_rdata := RdataOpt [] |}] |}.

Definition query_encode (q : Query) (max_message_len : Z) : result WireError (list Z) :=
  message_encode (query_message q) max_message_len.
