(* ===== verification/DnsNames.v ===== *)
(** * DNS names: bounds, termination and round trip

    [decode_name] walks label by label and pointer by pointer. Its invariant
    [name_inv] gives the bounds on every name it returns, the count of
    unvisited positions bounds its number of turns, and a name encoded anywhere
    in a message decodes back to itself. *)

From S2P Require Import Prelude DnsTypes DnsParse.

(** ** Well-formed names *)

Definition label_ok (label : list Z) : Prop :=
  1 <= zlen label <= MAX_LABEL_LEN /\ bytes_ok label /\ canonical_label label = label.

Definition labels_len (labels : list (list Z)) : Z :=
  foldr (fun label acc => zlen label + 1 + acc) 0 labels.

Definition name_ok (n : Name) : Prop :=
  Forall label_ok (name_labels n) /\ name_wire_len n <= MAX_WIRE_NAME_LEN.

Lemma labels_len_app l k : labels_len (l ++ k) = labels_len l + labels_len k.
Proof. induction l; simpl; lia. Qed.

Lemma labels_len_nonneg l : 0 <= labels_len l.
Proof. induction l as [|x l]; simpl; [done|]. pose proof (zlen_nonneg x). lia. Qed.

Lemma wire_len_labels n : name_wire_len n = 1 + labels_len (name_labels n).
Proof.
  unfold name_wire_len.
  assert (forall ls acc, fold_left (fun a label => a + zlen label + 1) ls acc
                         = acc + labels_len ls) as ->; [|done].
  induction ls as [|l ls IH]; intros acc; simpl; [lia|]. rewrite IH. lia.
Qed.

(** The wire length bounds the number of labels. *)
Lemma labels_count l : Forall label_ok l -> 2 * zlen l <= labels_len l.
Proof.
  induction 1 as [|x l [? _] _ IH]; [done|]. rewrite zlen_cons. simpl. lia.
Qed.

Lemma name_ok_count n : name_ok n -> zlen (name_labels n) <= 127.
Proof.
  intros [Hl Hw]. rewrite wire_len_labels in Hw. apply labels_count in Hl.
  unfold MAX_WIRE_NAME_LEN in Hw. lia.
Qed.

Lemma zlen_canonical label : zlen (canonical_label label) = zlen label.
Proof. unfold canonical_label, zlen. by rewrite length_map. Qed.

Lemma canonical_idem label : canonical_label (canonical_label label) = canonical_label label.
Proof. unfold canonical_label. induction label; simpl; f_equal; auto using lowercase_idem. Qed.

Lemma canonical_label_ok label :
  1 <= zlen label <= MAX_LABEL_LEN -> bytes_ok label -> label_ok (canonical_label label).
Proof.
  intros Hlen Hb. split_and!; rewrite ?zlen_canonical; try apply Hlen; [|apply canonical_idem].
  clear Hlen. induction Hb; constructor; auto using lowercase_u8.
Qed.

#[export] Hint Resolve zlen_nonneg labels_len_nonneg : hns.

(** Follow the one path on which a parser returned, with its checked sums and
    slices as facts. *)
Ltac parsed :=
  repeat (case_match; simplify_eq/=);
  repeat match goal with
  | H : ok_or _ _ = Ok _ |- _ => apply ok_or_Ok in H
  | H : checked_add _ _ = Some _ |- _ => apply checked_add_Some in H as [-> ?]
  end; breflect.

(** ** The invariant of [decode_name] *)

(** Bytes of the message the loop has not stood on yet. *)
Definition unvisited (visited : list bool) : nat :=
  foldr (fun b n => if (b : bool) then n else S n) O visited.

Lemma unvisited_insert visited (i : nat) :
  visited !! i = Some false -> unvisited visited = S (unvisited (<[i := true]> visited)).
Proof.
  revert i. induction visited as [|b v IH]; intros [|i] E; simplify_eq/=; [done|].
  specialize (IH i E). destruct b; congruence.
Qed.

Lemma unvisited_le visited : (unvisited visited <= length visited)%nat.
Proof. induction visited as [|[] v]; simpl; lia. Qed.

Section decode.
Context (message : list Z) (offset contiguous_end : Z) (limits : ParseLimits).

Record name_inv (st : name_state) : Prop := {
  inv_labels : Forall label_ok (ns_labels st);
  inv_expanded : ns_expanded_len st = 1 + labels_len (ns_labels st);
  inv_wire : ns_expanded_len st <= MAX_WIRE_NAME_LEN;
  inv_count : zlen (ns_labels st) <= Z.max 0 (max_labels_per_name limits);
  inv_jumps : ns_jumps st <= Z.max 0 (max_compression_jumps limits);
  inv_cursor : 0 <= ns_cursor st;
  inv_consumed : match ns_consumed_end st with
                 | Some stop => offset < stop <= contiguous_end
                 | None => offset <= ns_cursor st <= contiguous_end
                 end }.

Lemma label_pushed (len start : Z) label labels :
  bytes_ok message -> len <> 0 -> in_u8 len -> len <= MAX_LABEL_LEN ->
  get_range message start (start + len) = Some label -> Forall label_ok labels ->
  Forall label_ok (labels ++ [canonical_label label]) /\
  labels_len (labels ++ [canonical_label label]) = labels_len labels + len + 1.
Proof.
  intros Hb Hnz Hlen Hmax Hr Hl. pose proof (get_range_bytes _ _ _ _ Hb Hr).
  apply get_range_Some in Hr as (_ & _ & Hz). split.
  - apply Forall_app. split; [done|]. apply Forall_singleton, canonical_label_ok; [|done].
    width_lia.
  - rewrite labels_len_app. simpl. rewrite zlen_canonical. lia.
Qed.

Lemma name_inv_step st st' :
  bytes_ok message -> name_inv st ->
  decode_name_step message contiguous_end limits st = Ok (inl st') ->
  name_inv st' /\ (unvisited (ns_visited st') < unvisited (ns_visited st))%nat.
Proof.
  intros Hb [Hl He Hw Hc Hj Hcur Hcons] E. unfold decode_name_step in E.
  destruct (get (ns_visited st) (ns_cursor st)) as [[]|] eqn:Ev; simplify_eq/=.
  pose proof (unvisited_insert _ _ (get_lookup _ _ _ Ev)) as Hun.
  destruct (get message (ns_cursor st)) as [len|] eqn:El; simplify_eq/=.
  pose proof (get_byte _ _ _ Hb El) as Hlen.
  parsed; (split; [|simpl; lia]).
  all: try match goal with
       | H : get_range message _ _ = Some ?label |- _ =>
           edestruct (label_pushed len) as [??]; eauto
       end.
  all: constructor; simpl; rewrite ?zlen_app, ?zlen_cons, ?zlen_nil;
    try done; try (width_lia).
  all: apply Z.lor_nonneg; split; [apply Z.shiftl_nonneg, Z.land_nonneg|];
    try eapply get_byte in Hb; eauto; width_lia.
Qed.

Lemma name_inv_result st n next :
  contiguous_end <= zlen message -> name_inv st ->
  decode_name_step message contiguous_end limits st = Ok (inr (n, next)) ->
  name_ok n /\ zlen (name_labels n) <= Z.max 0 (max_labels_per_name limits) /\
  offset < next <= contiguous_end + 1 /\ next <= zlen message.
Proof.
  intros Hce [Hl He Hw Hc Hj Hcur Hcons] E. unfold decode_name_step in E.
  parsed.
  all: repeat match goal with H : get message _ = Some _ |- _ => apply get_Some_range in H end.
  all: split_and!; try done; try lia.
  all: split; [done|rewrite wire_len_labels; simpl; lia].
Qed.

Lemma name_inv_init : 0 <= offset -> offset < contiguous_end ->
  name_inv (name_state_init message offset).
Proof. intros. constructor; simpl; try done; rewrite ?zlen_nil; unfold MAX_WIRE_NAME_LEN; lia. Qed.
End decode.

(** The loop of [decode_name] returns on every message: a position is stood on
    at most once. *)
Lemma decode_name_loop_total message offset contiguous_end limits :
  bytes_ok message -> 0 <= offset -> offset < contiguous_end ->
  exists r, loop (S (length message)) (decode_name_step message contiguous_end limits)
              (name_state_init message offset) = Some r.
Proof.
  intros Hb Ho Hc.
  apply (loop_terminates _ (name_inv offset contiguous_end limits)
           (fun st => unvisited (ns_visited st))).
  - eauto using name_inv_step.
  - by apply name_inv_init.
  - simpl. pose proof (unvisited_le (replicate (length message) false)) as H.
    rewrite length_replicate in H. lia.
Qed.

(** What every decoded name satisfies. [next] can be one past
    [contiguous_end]: the terminating zero is read without a bound check. *)
Lemma decode_name_inv message offset contiguous_end limits n next :
  bytes_ok message -> 0 <= offset ->
  decode_name message offset contiguous_end limits = Ok (n, next) ->
  name_ok n /\ zlen (name_labels n) <= Z.max 0 (max_labels_per_name limits) /\
  offset < contiguous_end <= zlen message /\
  offset < next <= contiguous_end + 1 /\ next <= zlen message.
Proof.
  intros Hb Ho E. unfold decode_name in E. case_match; [done|]. breflect.
  case_match eqn:El; [subst|done].
  apply (loop_result _ (name_inv offset contiguous_end limits)
           (fun '(n, next) => name_ok n /\ zlen (name_labels n) <= Z.max 0 (max_labels_per_name limits)
              /\ offset < next <= contiguous_end + 1 /\ next <= zlen message)) in El.
  - naive_solver lia.
  - intros st st' HI Hs. by eapply name_inv_step in Hs as [??].
  - intros st [n' next'] HI Hs. by eapply name_inv_result in Hs.
  - by apply name_inv_init.
Qed.

(** ** Encoding *)

Lemma land_c0_small len : 0 <= len <= MAX_LABEL_LEN -> Z.land len 0xc0 = 0.
Proof. unfold MAX_LABEL_LEN. intros. apply land_192_small. lia. Qed.

Lemma encode_labels_ok labels :
  Forall label_ok labels ->
  exists bs, encode_labels labels = Ok bs /\ zlen bs = labels_len labels + 1 /\ bytes_ok bs.
Proof.
  induction 1 as [|l ls (Hl & Hb & _) _ (bs & E & Hlen & Hbs)]; simpl.
  - exists [0]. split_and!; [done..|]. constructor; [width_lia|constructor].
  - unfold MAX_LABEL_LEN in *. zdecide. rewrite E. eexists. split_and!; [done| |].
    + rewrite zlen_cons, zlen_app. lia.
    + constructor; [width_lia|]. by apply Forall_app.
Qed.

Lemma name_encode_ok n :
  name_ok n ->
  exists bs, name_encode n = Ok bs /\ zlen bs = name_wire_len n /\ bytes_ok bs.
Proof.
  intros [Hl Hw]. destruct (encode_labels_ok _ Hl) as (bs & E & Hlen & Hb).
  exists bs. unfold name_encode. rewrite (proj2 (Z.ltb_ge _ _)) by lia.
  split_and!; [done| |done]. rewrite wire_len_labels. lia.
Qed.

Section roundtrip.
Context (message : list Z) (contiguous_end : Z) (limits : ParseLimits).
Hypothesis message_small : zlen message <= u16_max.

(** Positions from [from] on have not been visited. *)
Definition fresh_from (visited : list bool) (from : Z) : Prop :=
  forall i, from <= i < zlen message -> get visited i = Some false.

Lemma fresh_insert visited from next :
  0 <= from -> fresh_from visited from -> from < next ->
  fresh_from (<[Z.to_nat from := true]> visited) next.
Proof.
  intros ? Hf ? i Hi. specialize (Hf i ltac:(lia)). unfold get in *.
  case_match; [done|]. breflect. rewrite list_lookup_insert_ne by lia. done.
Qed.

Lemma decode_step_label pre label post done_labels expanded jumps visited :
  message = pre ++ (zlen label :: label) ++ post ->
  label_ok label -> fresh_from visited (zlen pre) -> 0 <= expanded ->
  zlen pre + 1 + zlen label <= contiguous_end ->
  expanded + zlen label + 1 <= MAX_WIRE_NAME_LEN ->
  zlen done_labels < max_labels_per_name limits ->
  decode_name_step message contiguous_end limits
    {| ns_labels := done_labels; ns_cursor := zlen pre; ns_consumed_end := None;
       ns_jumps := jumps; ns_expanded_len := expanded; ns_visited := visited |}
  = Ok (inl {| ns_labels := done_labels ++ [label];
               ns_cursor := zlen (pre ++ zlen label :: label); ns_consumed_end := None;
               ns_jumps := jumps; ns_expanded_len := expanded + zlen label + 1;
               ns_visited := <[Z.to_nat (zlen pre) := true]> visited |}).
Proof.
  intros Hm (Hlen & Hb & Hcan) Hf He Hce Hw Hc.
  pose proof (zlen_nonneg pre) as Hp; pose proof (zlen_nonneg post) as Hq.
  assert (Hz : zlen message = zlen pre + 1 + zlen label + zlen post).
  { rewrite Hm, !zlen_app, zlen_cons. lia. }
  assert (Hg : get message (zlen pre) = Some (zlen label)) by (rewrite Hm; apply get_app_mid).
  assert (Hr : get_range message (zlen pre + 1) (zlen pre + 1 + zlen label) = Some label).
  { rewrite Hm. apply (get_range_at (pre ++ [zlen label]) label post); rewrite ?zlen_app, ?zlen_cons, ?zlen_nil;
      [by rewrite <- !app_assoc|lia..]. }
  unfold decode_name_step, MAX_LABEL_LEN, MAX_WIRE_NAME_LEN in *;
    cbn [ns_cursor ns_visited ns_consumed_end ns_labels ns_expanded_len].
  rewrite Hf, Hg by lia. cbn [ok_or]. rewrite land_c0_small by (unfold MAX_LABEL_LEN; lia).
  zdecide. rewrite andb_false_r, Hr. zdecide.
  rewrite Hcan, zlen_app, zlen_cons. do 2 f_equal. f_equal; lia.
Qed.

Lemma decode_step_end pre post labels expanded jumps visited :
  message = pre ++ 0 :: post -> fresh_from visited (zlen pre) ->
  decode_name_step message contiguous_end limits
    {| ns_labels := labels; ns_cursor := zlen pre; ns_consumed_end := None;
       ns_jumps := jumps; ns_expanded_len := expanded; ns_visited := visited |}
  = Ok (inr ({| name_labels := labels |}, zlen pre + 1)).
Proof.
  intros Hm Hf. pose proof (zlen_nonneg pre) as Hp; pose proof (zlen_nonneg post) as Hq.
  assert (Hz : zlen message = zlen pre + 1 + zlen post).
  { rewrite Hm, !zlen_app, zlen_cons. lia. }
  assert (Hg : get message (zlen pre) = Some 0) by (rewrite Hm; apply get_app_mid).
  unfold decode_name_step; cbn [ns_cursor ns_visited ns_consumed_end ns_labels].
  rewrite Hf, Hg by lia. cbn [ok_or]. simpl (Z.land 0 _). zdecide. done.
Qed.

(** The loop from the middle of a name whose remaining labels are encoded at
    the cursor. *)
Lemma decode_loop_labels labels enc pre post done_labels expanded jumps visited fuel :
  encode_labels labels = Ok enc -> message = pre ++ enc ++ post ->
  Forall label_ok labels -> fresh_from visited (zlen pre) ->
  zlen pre + zlen enc <= contiguous_end -> 0 <= expanded ->
  expanded + labels_len labels <= MAX_WIRE_NAME_LEN ->
  zlen done_labels + zlen labels <= max_labels_per_name limits ->
  (length labels < fuel)%nat ->
  loop fuel (decode_name_step message contiguous_end limits)
    {| ns_labels := done_labels; ns_cursor := zlen pre; ns_consumed_end := None;
       ns_jumps := jumps; ns_expanded_len := expanded; ns_visited := visited |}
  = Some (Ok ({| name_labels := done_labels ++ labels |}, zlen pre + zlen enc)).
Proof.
  revert enc pre done_labels expanded visited fuel.
  induction labels as [|label labels IH];
    intros enc pre done_labels expanded visited fuel E Hm Hl Hf Hce He Hw Hc Hfuel;
    (destruct fuel as [|fuel]; [simpl in Hfuel; lia|]); simpl in E.
  - simplify_eq. simpl. erewrite decode_step_end by eauto.
    rewrite zlen_cons, zlen_nil, app_nil_r. done.
  - inversion Hl as [|? ? Hl0 Hl']; subst x l.
    do 2 (case_match; [done|]). destruct (encode_labels labels) as [tail|] eqn:Et; simplify_eq/=.
    assert (Hl1 := Hl0). destruct Hl1 as (Hlen & _ & _).
    rewrite zlen_cons, zlen_app in Hce. rewrite zlen_cons in Hc.
    pose proof (zlen_nonneg tail); pose proof (zlen_nonneg labels);
    pose proof (labels_len_nonneg labels); pose proof (zlen_nonneg pre).
    rewrite (decode_step_label pre label (tail ++ post));
      [|rewrite Hm; simpl; by rewrite <- !app_assoc|done|done|lia..].
    rewrite (IH tail); try done; rewrite ?zlen_app, ?zlen_cons, ?zlen_nil; try lia.
    + rewrite <- !app_assoc, zlen_app. simpl. do 3 f_equal. lia.
    + rewrite Hm. simpl. by rewrite <- !app_assoc.
    + apply fresh_insert; [lia|done|lia].
Qed.

Lemma fresh_init : fresh_from (replicate (length message) false) 0.
Proof.
  intros i Hi. unfold get, zlen in *. zdecide. apply lookup_replicate. lia.
Qed.
End roundtrip.

(** A name decodes back to itself wherever its encoding stands, whatever
    surrounds it. *)
Lemma decode_name_encoded n enc pre post message offset contiguous_end limits :
  name_ok n -> name_encode n = Ok enc -> message = pre ++ enc ++ post -> offset = zlen pre ->
  zlen message <= u16_max -> zlen pre + zlen enc <= contiguous_end <= zlen message ->
  127 <= max_labels_per_name limits ->
  decode_name message offset contiguous_end limits = Ok (n, offset + zlen enc).
Proof.
  intros Hn E Hm -> Hsmall Hce Hlab. pose proof (name_ok_count n Hn) as Hcount.
  destruct Hn as [Hl Hw]. rewrite wire_len_labels in Hw.
  unfold name_encode in E. case_match; [done|].
  destruct (encode_labels_ok _ Hl) as (bs & E' & Hbs & _).
  rewrite E in E'. simplify_eq. pose proof (labels_len_nonneg (name_labels n)). pose proof (zlen_nonneg pre).
  pose proof (labels_count _ Hl).
  unfold decode_name, name_state_init. zdecide_with ltac:(lia).
  rewrite (decode_loop_labels _ contiguous_end limits Hsmall (name_labels n) bs pre post); try done; try lia.
  - by destruct n.
  - intros i Hi. apply fresh_init. lia.
  - rewrite zlen_nil. lia.
  - rewrite !length_app. unfold zlen in *. lia.
Qed.

(** ** Construction and printing *)

Lemma from_labels_loop_spec labels acc wire_len n :
  0 <= wire_len <= MAX_WIRE_NAME_LEN ->
  from_labels_loop wire_len acc labels = Ok n <->
  Forall (fun l => 1 <= zlen l <= MAX_LABEL_LEN) labels /\
  wire_len + labels_len labels <= MAX_WIRE_NAME_LEN /\
  n = {| name_labels := acc ++ map canonical_label labels |}.
Proof.
  revert acc wire_len. induction labels as [|l ls IH]; intros acc wire_len Hw; simpl.
  { rewrite app_nil_r. split; [intros [= <-]; auto with lia|naive_solver]. }
  pose proof (labels_len_nonneg ls). pose proof (zlen_nonneg l).
  rewrite Forall_cons.
  destruct (decide (1 <= zlen l <= MAX_LABEL_LEN)) as [Hl|Hl].
  2: { replace ((zlen l =? 0) || (MAX_LABEL_LEN <? zlen l)) with true; [naive_solver|].
       symmetry. apply orb_true_iff. rewrite Z.eqb_eq, Z.ltb_lt. lia. }
  unfold MAX_LABEL_LEN, MAX_WIRE_NAME_LEN in *. zdecide.
  destruct (255 <? wire_len + (zlen l + 1)) eqn:Ew; breflect; [naive_solver lia|].
  rewrite IH by lia. rewrite <- app_assoc. simpl. naive_solver lia.
Qed.

Lemma from_labels_ok labels n :
  Forall bytes_ok labels -> from_labels labels = Ok n -> name_ok n.
Proof.
  intros Hb E. apply from_labels_loop_spec in E as (Hl & Hw & ->); [|done].
  split; simpl.
  - clear Hw. induction Hb; simpl; [done|]. inversion Hl; subst.
    constructor; [by apply canonical_label_ok|auto].
  - rewrite wire_len_labels. simpl. clear Hl Hb.
    replace (labels_len (map canonical_label labels)) with (labels_len labels); [done|].
    induction labels as [|l ls IH]; simpl; [done|]. rewrite zlen_canonical. 
    pose proof (zlen_nonneg l). simpl in Hw. rewrite IH; lia.
Qed.

Lemma split_on_first sep l r : sep ∉ l -> split_on sep (l ++ sep :: r) = l :: split_on sep r.
Proof. intros H. by rewrite split_on_app, split_on_none. Qed.

(** A byte that prints as itself. *)
Definition plain_byte (b : Z) : Prop := display_byte b = [b].

Lemma plain_not_dot l : Forall plain_byte l -> 46 ∉ l.
Proof. rewrite Forall_forall. intros H Hin. by apply H in Hin. Qed.

Lemma display_plain l : Forall plain_byte l -> display_label l = l.
Proof.
  unfold display_label. induction 1 as [|b l Hb _ IH]; simpl; [done|]. by rewrite Hb, IH.
Qed.

Lemma split_display l ls :
  Forall plain_byte l -> Forall (Forall plain_byte) ls ->
  split_on 46 (l ++ concat (map (fun label => 46 :: display_label label) ls)) = l :: ls.
Proof.
  intros Hl Hls. revert l Hl. induction Hls as [|k ls Hk _ IH]; intros l Hl; simpl.
  - rewrite app_nil_r. by apply split_on_none, plain_not_dot.
  - rewrite split_on_first, display_plain, IH by eauto using plain_not_dot. done.
Qed.

Lemma canonical_labels_id ls : Forall label_ok ls -> map canonical_label ls = ls.
Proof. induction 1 as [|l ls (_ & _ & Hc) _ IH]; simpl; [done|]. by rewrite Hc, IH. Qed.

Lemma name_ok_from_labels n : name_ok n -> from_labels (name_labels n) = Ok n.
Proof.
  intros [Hl Hw]. rewrite wire_len_labels in Hw. apply from_labels_loop_spec; [done|].
  rewrite canonical_labels_id by done. split_and!; [|done|by destruct n].
  eapply Forall_impl; [exact Hl|]. by intros l [? _].
Qed.

Lemma from_ascii_dotted body :
  body <> [] -> from_ascii (body ++ [46]) = from_labels (split_on 46 body).
Proof.
  intros Hb. unfold from_ascii, strip_dot. rewrite last_snoc, removelast_last.
  destruct (zlen body =? 0) eqn:E; [|done]. breflect. by apply zlen_0 in E.
Qed.

(** [decode_name] returns on every message, however its pointers are
    arranged, and a name it accepts has at most 255 wire octets, labels of 1 to
    63 lowercase octets, no more labels than the limit, and a resumption offset
    strictly after the start, inside the message and at most one byte past the
    enclosing region. *)
Theorem decode_name_bounded message offset contiguous_end limits :
  bytes_ok message -> 0 <= offset < contiguous_end ->
  (exists r, loop (S (length message)) (decode_name_step message contiguous_end limits)
               (name_state_init message offset) = Some r) /\
  forall n next,
    decode_name message offset contiguous_end limits = Ok (n, next) ->
    name_ok n /\ zlen (name_labels n) <= Z.max 0 (max_labels_per_name limits) /\
    offset < next <= contiguous_end + 1 /\ next <= zlen message.
Proof.
  intros Hb [Ho Hc]. split; [by apply decode_name_loop_total|].
  intros n next E. by destruct (decode_name_inv _ _ _ _ _ _ Hb Ho E) as (? & ? & _ & ? & ?).
Qed.

(** A compressed name: [a.b] at 12, then [c] and a pointer to [b]. *)
Definition sample_names : list Z :=
  [1; 65; 1; 98; 0; 1; 67; 0xc0; 2; 7].

Lemma decode_name_bounded_witness :
  decode_name sample_names 5 9 limits_browser = Ok ({| name_labels := [[99]; [98]] |}, 9) /\
  5 < 9 <= 9 + 1.
Proof.
  assert (E : decode_name sample_names 5 9 limits_browser
              = Ok ({| name_labels := [[99]; [98]] |}, 9)) by (vm_compute; reflexivity).
  split; [exact E|].
  refine (proj1 (proj2 (proj2 (proj2 (decode_name_bounded sample_names 5 9 limits_browser _ _) _ _ E)))).
  - repeat constructor; width_lia.
  - lia.
Defined.

(** Encoding a valid name and decoding it at the place it was written, in
    any surrounding message and under the production label limit, gives the
    name back and the offset just after it. *)
Theorem name_wire_roundtrip n pre post limits :
  name_ok n -> 127 <= max_labels_per_name limits ->
  exists enc, name_encode n = Ok enc /\ zlen enc = name_wire_len n /\
    (zlen (pre ++ enc ++ post) <= u16_max ->
     decode_name (pre ++ enc ++ post) (zlen pre) (zlen (pre ++ enc)) limits
     = Ok (n, zlen (pre ++ enc))).
Proof.
  intros Hn Hl. destruct (name_encode_ok n Hn) as (enc & E & Hlen & _).
  exists enc. split_and!; [done..|]. intros Hsmall. pose proof (zlen_nonneg post).
  rewrite (decode_name_encoded n enc pre post); rewrite ?zlen_app in *; try done. lia.
Qed.

Lemma name_wire_roundtrip_witness :
  exists enc, name_encode {| name_labels := [[119; 119; 119]; [104; 110; 115]] |} = Ok enc /\
    zlen enc = name_wire_len {| name_labels := [[119; 119; 119]; [104; 110; 115]] |} /\
    (zlen ([1; 2] ++ enc ++ [3]) <= u16_max ->
     decode_name ([1; 2] ++ enc ++ [3]) (zlen [1; 2]) (zlen ([1; 2] ++ enc)) limits_browser
     = Ok ({| name_labels := [[119; 119; 119]; [104; 110; 115]] |}, zlen ([1; 2] ++ enc))).
Proof.
  apply name_wire_roundtrip; [|done].
  split; [|done]. repeat constructor; done.
Defined.

(** Printing a valid name whose bytes are all letters, digits, hyphens or
    underscores and parsing the text gives the name back. *)
Theorem name_text_roundtrip n :
  name_ok n -> Forall (Forall plain_byte) (name_labels n) ->
  from_ascii (name_display n) = Ok n.
Proof.
  intros Hn Hp. pose proof (name_ok_from_labels n Hn) as Hf. unfold name_display.
  destruct n as [[|l ls]]; simpl in *; [done|]. inversion Hp; subst.
  rewrite display_plain, app_assoc by done.
  rewrite from_ascii_dotted; [by rewrite split_display|].
  destruct Hn as [Hl _]. inversion Hl as [|? ? [Hl0 _]]; subst. by destruct l.
Qed.

Lemma name_text_roundtrip_witness :
  from_ascii (name_display {| name_labels := [[95; 52]; [104; 110; 115]] |})
  = Ok {| name_labels := [[95; 52]; [104; 110; 115]] |}.
Proof.
  apply name_text_roundtrip.
  - split; [|done]. repeat constructor; done.
  - repeat constructor.
Defined.
