(* ===== verification/DnsRdata.v ===== *)
(** * DNS RDATA: loops, type bitmaps, round trip and validity

    Every RDATA parser is total (its loops have enough fuel), produces only
    well-formed data ([rdata_ok]), and inverts [encode_rdata] wherever the
    encoding stands in a message. The NSEC type-bitmap validator is
    characterised exactly. *)

From S2P Require Import Prelude DnsTypes DnsParse DnsEncode DnsNames.

#[local] Arguments zlen : simpl never.
#[local] Arguments to_be : simpl never.
#[local] Arguments from_be : simpl never.
#[local] Arguments get : simpl never.
#[local] Arguments get_range : simpl never.

(** ** Reads *)

Definition type_ok (t : RecordType) : Prop := in_u16 (code t) /\ from_code (code t) = t.

Lemma from_code_ok c : in_u16 c -> type_ok (from_code c) /\ code (from_code c) = c.
Proof.
  intros Hc. assert (code (from_code c) = c) as E by (unfold from_code; repeat case_match; done).
  split; [|done]. split; [by rewrite E|]. by rewrite E.
Qed.

Lemma be_u16_skip l k i :
  zlen l <= i -> i <= u16_max -> be_u16 (l ++ k) i = be_u16 k (i - zlen l).
Proof.
  intros. pose proof (zlen_nonneg l). unfold be_u16. zdecide.
  rewrite get_range_skip by lia. by replace (i + 2 - zlen l) with (i - zlen l + 2) by lia.
Qed.

Lemma be_u16_here v k i : i = 0 -> in_u16 v -> be_u16 (to_be 2 v ++ k) i = Ok v.
Proof.
  intros -> ?. unfold be_u16. zdecide. rewrite get_range_here by (rewrite ?zlen_to_be; lia). simpl.
  by rewrite from_be_to_be by width_lia.
Qed.

Lemma be_u32_skip l k i :
  zlen l <= i -> i <= u16_max -> be_u32 (l ++ k) i = be_u32 k (i - zlen l).
Proof.
  intros. pose proof (zlen_nonneg l). unfold be_u32. zdecide.
  rewrite get_range_skip by lia. by replace (i + 4 - zlen l) with (i - zlen l + 4) by lia.
Qed.

Lemma be_u32_here v k i : i = 0 -> in_u32 v -> be_u32 (to_be 4 v ++ k) i = Ok v.
Proof.
  intros -> ?. unfold be_u32. zdecide. rewrite get_range_here by (rewrite ?zlen_to_be; lia). simpl.
  by rewrite from_be_to_be by width_lia.
Qed.

Lemma be_u16_last v i : i = 0 -> in_u16 v -> be_u16 (to_be 2 v) i = Ok v.
Proof. intros. rewrite <- (app_nil_r (to_be 2 v)). by apply be_u16_here. Qed.

Lemma be_u32_last v i : i = 0 -> in_u32 v -> be_u32 (to_be 4 v) i = Ok v.
Proof. intros. rewrite <- (app_nil_r (to_be 4 v)). by apply be_u32_here. Qed.

Lemma be_u16_skip1 x k i : 1 <= i -> i <= u16_max -> be_u16 (x :: k) i = be_u16 k (i - 1).
Proof. intros. by apply (be_u16_skip [x]). Qed.

Lemma be_u32_skip1 x k i : 1 <= i -> i <= u16_max -> be_u32 (x :: k) i = be_u32 k (i - 1).
Proof. intros. by apply (be_u32_skip [x]). Qed.

(** Evaluate reads of an encoded byte string by walking to the field. *)
Ltac len_lia := lens; width_lia.
Ltac read_step :=
  first
  [ rewrite be_u16_here by first [assumption | len_lia]
  | rewrite be_u16_last by first [assumption | len_lia]
  | rewrite be_u32_here by first [assumption | len_lia]
  | rewrite be_u32_last by first [assumption | len_lia]
  | rewrite get_here by len_lia
  | rewrite get_range_here by len_lia
  | rewrite get_range_all by len_lia
  | rewrite be_u16_skip by len_lia | rewrite be_u16_skip1 by len_lia
  | rewrite be_u32_skip by len_lia | rewrite be_u32_skip1 by len_lia
  | rewrite get_skip by len_lia | rewrite get_skip1 by len_lia
  | rewrite get_range_skip by len_lia | rewrite get_range_skip1 by len_lia ].
Ltac reads :=
  repeat (cbn [ok_or map_err negb andb orb]; first [ read_step | progress zdecide_with ltac:(len_lia) ]);
  cbn [ok_or map_err negb andb orb].

Lemma be_u16_range bytes i v : bytes_ok bytes -> be_u16 bytes i = Ok v -> in_u16 v.
Proof.
  intros Hb E. unfold be_u16 in E. parsed.
  pose proof (from_be_bound _ (get_range_bytes _ _ _ _ Hb H0)) as Hv.
  apply get_range_Some in H0 as (_ & _ & Hz). rewrite Hz in Hv.
  replace (i + 2 - i) with 2 in Hv by lia. width_lia.
Qed.

Lemma be_u32_range bytes i v : bytes_ok bytes -> be_u32 bytes i = Ok v -> in_u32 v.
Proof.
  intros Hb E. unfold be_u32 in E. parsed.
  pose proof (from_be_bound _ (get_range_bytes _ _ _ _ Hb H0)) as Hv.
  apply get_range_Some in H0 as (_ & _ & Hz). rewrite Hz in Hv.
  replace (i + 4 - i) with 4 in Hv by lia. width_lia.
Qed.

(** What the reads of an accepted input say about widths and lengths. *)
Ltac wire_facts :=
  repeat match goal with
  | H : map_err _ _ = Ok _ |- _ => apply map_err_Ok in H
  | Hb : bytes_ok ?l, H : get ?l _ = Some ?b |- _ =>
      pose proof (get_byte _ _ _ Hb H); apply get_Some_range in H
  | Hb : bytes_ok ?l, H : get_range ?l _ _ = Some ?k |- _ =>
      pose proof (get_range_bytes _ _ _ _ Hb H); apply get_range_Some in H as (? & ? & ?)
  | Hb : bytes_ok ?l, H : be_u16 ?l _ = Ok _ |- _ => apply (be_u16_range _ _ _ Hb) in H
  | Hb : bytes_ok ?l, H : be_u32 ?l _ = Ok _ |- _ => apply (be_u32_range _ _ _ Hb) in H
  | Hb : bytes_ok ?l, H : decode_name ?l ?i _ _ = Ok _ |- _ =>
      apply (decode_name_inv _ i _ _ _ _ Hb) in H as (? & ? & ? & ? & ?); [|lia]
  end.

(** ** Loops over a sequence of items *)

(** A loop that starts with the encoding of [items] at its cursor and consumes
    one item a turn returns the items. *)
Section items.
Context {T : Type} (enc1 : T -> list Z) (ok : T -> Prop) (raw : list Z).
Context (step : Z * list T -> result WireError ((Z * list T) + list T)).
Hypothesis step_item : forall pre x post acc,
  raw = pre ++ enc1 x ++ post -> ok x ->
  step (zlen pre, acc) = Ok (inl (zlen (pre ++ enc1 x), acc ++ [x])).
Hypothesis step_end : forall acc, acc <> [] \/ raw = [] -> step (zlen raw, acc) = Ok (inr acc).

Lemma loop_items items pre acc fuel :
  raw = pre ++ concat (map enc1 items) -> Forall ok items ->
  acc ++ items <> [] \/ raw = [] -> (length items < fuel)%nat ->
  loop fuel step (zlen pre, acc) = Some (Ok (acc ++ items)).
Proof.
  revert pre acc fuel. induction items as [|x items IH]; intros pre acc fuel Hr Hok Hne Hf;
    (destruct fuel as [|fuel]; [simpl in Hf; lia|]); simpl in *.
  - rewrite app_nil_r in *. subst pre. by rewrite step_end.
  - inversion Hok; subst. rewrite (step_item pre x (concat (map enc1 items)) acc) by done.
    rewrite IH; rewrite <- ?app_assoc; [done..|simpl; tauto|lia].
Qed.
End items.

(** The byte loops advance: the distance to the end bounds their turns. *)
Section advancing.
Context {St R : Type} (raw : list Z) (cursor : St -> Z)
  (step : St -> result WireError (St + R)).
Hypothesis advances : forall st st',
  0 <= cursor st -> step st = Ok (inl st') -> cursor st < cursor st' <= zlen raw.

Lemma loop_advancing st fuel :
  0 <= cursor st -> (length raw < fuel)%nat -> exists r, loop fuel step st = Some r.
Proof.
  intros Hc Hf. apply (loop_terminates _ (fun st => 0 <= cursor st)
    (fun st => Z.to_nat (zlen raw - cursor st))); [|done|unfold zlen; lia].
  intros s s' Hs E. specialize (advances _ _ Hs E). lia.
Qed.
End advancing.

Lemma parse_txt_advances raw st st' :
  bytes_ok raw -> 0 <= st.1 -> parse_txt_step raw st = Ok (inl st') ->
  st.1 < st'.1 <= zlen raw.
Proof.
  intros Hb Hc E. destruct st as [c strings]. unfold parse_txt_step in E. parsed.
  wire_facts. width_lia.
Qed.

Lemma parse_edns_advances raw st st' :
  bytes_ok raw -> 0 <= st.1 -> parse_edns_step raw st = Ok (inl st') ->
  st.1 < st'.1 <= zlen raw.
Proof.
  intros Hb Hc E. destruct st as [c options]. unfold parse_edns_step in E. parsed.
  wire_facts. width_lia.
Qed.

Lemma type_bitmaps_advances raw st st' :
  bytes_ok raw -> 0 <= st.1.1 -> type_bitmaps_step raw st = Ok (inl st') ->
  st.1.1 < st'.1.1 <= zlen raw.
Proof.
  intros Hb Hc E. destruct st as [[c prev] n]. unfold type_bitmaps_step in E. parsed.
  all: wire_facts; width_lia.
Qed.

(** None of the RDATA loops runs out of fuel. *)
Lemma rdata_loops_total raw :
  bytes_ok raw ->
  (exists r, loop (S (length raw)) (parse_txt_step raw) (0, []) = Some r) /\
  (exists r, loop (S (length raw)) (parse_edns_step raw) (0, []) = Some r) /\
  (exists r, loop (S (length raw)) (type_bitmaps_step raw) (0, None, 0) = Some r).
Proof.
  intros Hb. split_and!.
  - apply (loop_advancing raw fst); simpl; eauto using parse_txt_advances with lia.
  - apply (loop_advancing raw fst); simpl; eauto using parse_edns_advances with lia.
  - apply (loop_advancing raw (fun st => st.1.1)); simpl;
      eauto using type_bitmaps_advances with lia.
Qed.

(** ** Type bitmaps *)

(** One window block of a type bitmap: window number and bitmap octets. *)
Definition block_bytes (block : Z * list Z) : list Z :=
  block.1 :: zlen block.2 :: block.2.

Fixpoint blocks_ok (previous : option Z) (blocks : list (Z * list Z)) : Prop :=
  match blocks with
  | [] => True
  | (window, bitmap) :: rest =>
      1 <= zlen bitmap <= 32 /\
      (forall p, previous = Some p -> p < window) /\
      blocks_ok (Some window) rest
  end.

(** Strictly increasing octets: the limit of 256 blocks is never the reason of
    a rejection. *)
Definition last_window (previous : option Z) : Z :=
  match previous with Some p => p | None => -1 end.

Lemma blocks_ok_count previous blocks :
  blocks_ok previous blocks -> Forall (fun b => in_u8 (fst b)) blocks ->
  -1 <= last_window previous <= 255 -> zlen blocks <= 255 - last_window previous.
Proof.
  revert previous. induction blocks as [|[w bm] blocks IH]; intros previous Hok Hb Hp.
  { rewrite zlen_nil. lia. }
  destruct Hok as (_ & Hw & Hok). inversion Hb; subst; simpl in *.
  specialize (IH (Some w) Hok ltac:(done) ltac:(simpl; width_lia)).
  rewrite zlen_cons. simpl in IH.
  destruct previous as [p|]; simpl in *; [specialize (Hw p eq_refl)|]; width_lia.
Qed.

Section bitmaps.
Context (raw : list Z) (Hsmall : zlen raw <= u16_max).

Lemma bitmaps_step_block pre w bm post previous n :
  raw = pre ++ block_bytes (w, bm) ++ post -> 1 <= zlen bm <= 32 ->
  (forall p, previous = Some p -> p < w) -> 0 <= n < 256 ->
  type_bitmaps_step raw (zlen pre, previous, n)
  = Ok (inl (zlen (pre ++ block_bytes (w, bm)), Some w, n + 1)).
Proof.
  intros Hr Hbm Hp Hn. unfold block_bytes in *; simpl in *.
  pose proof (zlen_nonneg pre). pose proof (zlen_nonneg post).
  assert (Hz : zlen raw = zlen pre + 2 + zlen bm + zlen post) by (rewrite Hr; lens; lia).
  unfold type_bitmaps_step. zdecide_with ltac:(lia).
  rewrite Hr, get_skip, get_here by lia. cbn [ok_or].
  rewrite get_skip, get_skip1 by lia.
  rewrite get_here by lia. cbn [ok_or]. rewrite <- Hr.
  replace (match previous with Some p => w <=? p | None => false end) with false;
    [|destruct previous as [p|]; [specialize (Hp p eq_refl); symmetry; apply Z.leb_gt; lia|done]].
  zdecide. do 4 f_equal. lens. lia.
Qed.

Lemma bitmaps_loop_complete blocks pre previous n fuel :
  raw = pre ++ concat (map block_bytes blocks) -> blocks_ok previous blocks ->
  0 <= n -> n + zlen blocks <= 256 -> blocks <> [] \/ 0 < n -> (length blocks < fuel)%nat ->
  loop fuel (type_bitmaps_step raw) (zlen pre, previous, n) = Some (Ok tt).
Proof.
  revert pre previous n fuel.
  induction blocks as [|[w bm] blocks IH]; intros pre previous n fuel Hr Hok Hn Hc Hne Hf;
    (destruct fuel as [|fuel]; [simpl in Hf; lia|]).
  - simpl in Hr. rewrite app_nil_r in Hr. subst pre. simpl. zdecide_with ltac:(lia).
    by destruct (n =? 0) eqn:E; breflect; [naive_solver lia|].
  - destruct Hok as (Hbm & Hw & Hok). rewrite zlen_cons in Hc. pose proof (zlen_nonneg blocks).
    cbn [loop]. rewrite (bitmaps_step_block pre w bm (concat (map block_bytes blocks)))
      by (done || lia).
    apply IH; try done; try lia; [by rewrite <- app_assoc|simpl in Hf; lia].
Qed.

Lemma bitmaps_step_sound pre rest previous n st' :
  raw = pre ++ rest -> type_bitmaps_step raw (zlen pre, previous, n) = Ok (inl st') ->
  exists w bm rest', rest = block_bytes (w, bm) ++ rest' /\
    st' = (zlen (pre ++ block_bytes (w, bm)), Some w, n + 1) /\
    1 <= zlen bm <= 32 /\ (forall p, previous = Some p -> p < w).
Proof.
  intros Hr E. unfold type_bitmaps_step in E.
  destruct (zlen pre <? zlen raw); [|by case_match].
  destruct (get raw (zlen pre)) as [w|] eqn:Ew; [|done].
  rewrite Hr in Ew. apply get_app_head in Ew as [r1 ->].
  assert (Hr1 : raw = (pre ++ [w]) ++ r1) by (by rewrite <- app_assoc).
  cbn [ok_or] in E. destruct (get raw (zlen pre + 1)) as [len|] eqn:El; [|done].
  replace (zlen pre + 1) with (zlen (pre ++ [w])) in El by (lens; lia).
  rewrite Hr1 in El. apply get_app_head in El as [r2 ->].
  cbn [ok_or] in E. case_match; [done|]. breflect. parsed.
  all: destruct (cut_at r2 len) as (bm & rest' & -> & <-); [lens; lia|].
  all: exists w, bm, rest'; unfold block_bytes; simpl; split_and!; try done; try lia;
    first [by do 2 f_equal; lens; lia | naive_solver lia].
Qed.

Lemma bitmaps_loop_sound rest pre previous n fuel :
  raw = pre ++ rest -> 0 <= n ->
  loop fuel (type_bitmaps_step raw) (zlen pre, previous, n) = Some (Ok tt) ->
  exists blocks, rest = concat (map block_bytes blocks) /\ blocks_ok previous blocks /\
    (blocks <> [] \/ 0 < n).
Proof.
  revert rest pre previous n. induction fuel as [|fuel IH]; intros rest pre previous n Hr Hn E;
    [done|]. cbn [loop] in E.
  destruct (type_bitmaps_step raw (zlen pre, previous, n)) as [[st'|[]]|] eqn:Es; [| |done].
  - destruct (bitmaps_step_sound _ _ _ _ _ Hr Es) as (w & bm & rest' & -> & -> & Hbm & Hp).
    apply (IH rest') in E as (blocks & -> & Hok & _); [|by rewrite <- app_assoc|lia].
    exists ((w, bm) :: blocks). naive_solver.
  - exists []. unfold type_bitmaps_step in Es.
    destruct (zlen pre <? zlen raw) eqn:Ez; [by repeat case_match|].
    case_match; [done|]. breflect. rewrite Hr in Ez. lens.
    pose proof (zlen_nonneg rest). rewrite (zlen_0 rest) by lia.
    split_and!; [done..|right; lia].
Qed.
End bitmaps.

Lemma blocks_bytes_in blocks b :
  b ∈ blocks -> b.1 ∈ concat (map block_bytes blocks).
Proof.
  induction 1 as [b blocks|b b' blocks _ IH]; simpl; [left|].
  do 2 right. apply elem_of_app. auto.
Qed.

Lemma blocks_short blocks : (length blocks <= length (concat (map block_bytes blocks)))%nat.
Proof. induction blocks; simpl; rewrite ?length_app; lia. Qed.

(** A type bitmap is accepted exactly when it is a non-empty sequence of
    window blocks of 1 to 32 octets with strictly increasing window numbers;
    the limit of 256 blocks rejects nothing more. *)
Theorem type_bitmaps_exact raw :
  bytes_ok raw -> zlen raw <= u16_max ->
  validate_type_bitmaps raw = Ok tt <->
  exists blocks, blocks <> [] /\ raw = concat (map block_bytes blocks) /\ blocks_ok None blocks.
Proof.
  intros Hb Hsmall. unfold validate_type_bitmaps. split.
  - intros E. case_match eqn:El; [subst|done].
    destruct (bitmaps_loop_sound raw Hsmall raw [] None 0 _ eq_refl ltac:(lia) El)
      as (blocks & Hr & Hok & Hne). naive_solver lia.
  - intros (blocks & Hne & Hr & Hok).
    rewrite (bitmaps_loop_complete raw Hsmall blocks [] None 0); try done; [|by left|].
    + assert (Forall (fun b => in_u8 (fst b)) blocks) as Hin.
      { apply Forall_forall. intros b Hbk. unfold bytes_ok in Hb. rewrite Forall_forall in Hb.
        apply Hb. rewrite Hr. by apply blocks_bytes_in. }
      pose proof (blocks_ok_count None blocks Hok Hin ltac:(simpl; lia)). simpl in *. lia.
    + rewrite Hr. pose proof (blocks_short blocks). lia.
Qed.

(** Types A and AAAA in window 0, CAA in window 1. *)
Lemma type_bitmaps_exact_witness :
  validate_type_bitmaps [0; 4; 64; 0; 0; 8; 1; 1; 64] = Ok tt <->
  exists blocks, blocks <> [] /\
    [0; 4; 64; 0; 0; 8; 1; 1; 64] = concat (map block_bytes blocks) /\ blocks_ok None blocks.
Proof. apply type_bitmaps_exact; [repeat constructor; width_lia|done]. Defined.

(** ** Well-formed RDATA *)

Definition string_ok (s : list Z) : Prop := zlen s <= u8_max /\ bytes_ok s.
Definition option_ok (o : EdnsOption) : Prop :=
  in_u16 (opt_code o) /\ zlen (opt_data o) <= u16_max /\ bytes_ok (opt_data o).

Definition data_ok (data : list Z) : Prop := data <> [] /\ bytes_ok data.

Definition soa_ok (s : SoaData) : Prop :=
  name_ok (soa_mname s) /\ name_ok (soa_rname s) /\ in_u32 (soa_serial s) /\
  in_u32 (soa_refresh s) /\ in_u32 (soa_retry s) /\ in_u32 (soa_expire s) /\
  in_u32 (soa_minimum s).

Definition rrsig_ok (s : RrsigData) : Prop :=
  type_ok (sig_type_covered s) /\ in_u8 (sig_algorithm s) /\ in_u8 (sig_labels s) /\
  in_u32 (sig_original_ttl s) /\ in_u32 (sig_expiration s) /\ in_u32 (sig_inception s) /\
  in_u16 (sig_key_tag s) /\ name_ok (sig_signer s) /\ data_ok (sig_signature s).

Definition nsec3_ok (n : Nsec3Data) : Prop :=
  in_u8 (nsec3_hash_algorithm n) /\ in_u8 (nsec3_flags n) /\ in_u16 (nsec3_iterations n) /\
  string_ok (nsec3_salt n) /\ string_ok (nsec3_next_hashed_owner n) /\
  nsec3_next_hashed_owner n <> [] /\ bytes_ok (nsec3_type_bitmaps n) /\
  validate_type_bitmaps (nsec3_type_bitmaps n) = Ok tt.

(** What a record of type [t] may carry; the parser produces nothing else. *)
Definition rdata_ok (t : RecordType) (rdata : Rdata) : Prop :=
  match t, rdata with
  | A, RdataA octets => zlen octets = 4 /\ bytes_ok octets
  | Aaaa, RdataAaaa octets => zlen octets = 16 /\ bytes_ok octets
  | Ns, RdataNs n | Cname, RdataCname n => name_ok n
  | Soa, RdataSoa s => soa_ok s
  | Mx, RdataMx m => in_u16 (mx_preference m) /\ name_ok (mx_exchange m)
  | Txt, RdataTxt strings => strings <> [] /\ Forall string_ok strings
  | Srv, RdataSrv s =>
      in_u16 (srv_priority s) /\ in_u16 (srv_weight s) /\ in_u16 (srv_port s) /\
      name_ok (srv_target s)
  | Ds, RdataDs d =>
      in_u16 (ds_key_tag d) /\ in_u8 (ds_algorithm d) /\ in_u8 (ds_digest_type d) /\
      data_ok (ds_digest d)
  | Dnskey, RdataDnskey k =>
      in_u16 (key_flags k) /\ in_u8 (key_protocol k) /\ in_u8 (key_algorithm k) /\
      data_ok (key_public_key k)
  | Rrsig, RdataRrsig s => rrsig_ok s
  | Nsec, RdataNsec n =>
      name_ok (nsec_next_domain n) /\ bytes_ok (nsec_type_bitmaps n) /\
      validate_type_bitmaps (nsec_type_bitmaps n) = Ok tt
  | Nsec3, RdataNsec3 n => nsec3_ok n
  | Tlsa, RdataTlsa d =>
      in_u8 (tlsa_usage d) /\ in_u8 (tlsa_selector d) /\ in_u8 (tlsa_matching_type d) /\
      data_ok (tlsa_association_data d)
  | Opt, RdataOpt options => Forall option_ok options
  | (Svcb | Https | Unknown _), RdataOpaque bytes => bytes_ok bytes
  | _, _ => False
  end.

(** ** Strings and options *)

Definition string_bytes (s : list Z) : list Z := zlen s :: s.
Definition option_bytes (o : EdnsOption) : list Z :=
  to_be 2 (opt_code o) ++ to_be 2 (zlen (opt_data o)) ++ opt_data o.

Lemma encode_strings_ok strings :
  Forall string_ok strings ->
  encode_strings strings = Ok (concat (map string_bytes strings)).
Proof.
  induction 1 as [|s strings [Hs _] _ IH]; simpl; [done|]. zdecide. by rewrite IH.
Qed.

Lemma encode_options_ok options :
  Forall option_ok options ->
  encode_options options = Ok (concat (map option_bytes options)).
Proof.
  induction 1 as [|o options (_ & Ho & _) _ IH]; simpl; [done|].
  zdecide. by rewrite IH.
Qed.

Lemma concat_short {T} (enc1 : T -> list Z) items :
  (forall x, (0 < length (enc1 x))%nat) ->
  (length items <= length (concat (map enc1 items)))%nat.
Proof.
  intros H. induction items as [|x items IH]; simpl; [lia|].
  rewrite length_app. specialize (H x). lia.
Qed.

Lemma parse_txt_ok strings :
  strings <> [] -> Forall string_ok strings ->
  zlen (concat (map string_bytes strings)) <= u16_max ->
  parse_txt (concat (map string_bytes strings)) = Ok strings.
Proof.
  intros Hne Hok Hsmall. unfold parse_txt. set (raw := concat _) in *.
  rewrite (loop_items string_bytes string_ok raw _) with (pre := []) (items := strings) (acc := []);
    try done; try by left.
  - intros pre s post acc Hr [Hs _]. unfold parse_txt_step.
    assert (Hz : zlen raw = zlen pre + 1 + zlen s + zlen post)
      by (rewrite Hr; unfold string_bytes; lens; lia).
    pose proof (zlen_nonneg pre); pose proof (zlen_nonneg post); pose proof (zlen_nonneg s).
    zdecide. rewrite Hr. unfold string_bytes; simpl. rewrite get_skip, get_here by lia.
    zdecide. rewrite get_range_skip, get_range_skip1, get_range_here by lia. cbn [ok_or].
    do 4 f_equal. lens. lia.
  - intros acc Hacc. unfold parse_txt_step. zdecide.
    destruct (zlen acc =? 0) eqn:E; [|done]. breflect. apply zlen_0 in E.
    destruct Hacc as [|Hraw]; [done|]. destruct strings; [done|]. by subst raw.
  - pose proof (concat_short string_bytes strings) as Hs. fold raw in Hs.
    specialize (Hs (fun _ => ltac:(simpl; lia))). lia.
Qed.

Lemma parse_edns_ok options :
  Forall option_ok options -> zlen (concat (map option_bytes options)) <= u16_max ->
  parse_edns (concat (map option_bytes options)) = Ok options.
Proof.
  intros Hok Hsmall. unfold parse_edns. set (raw := concat _) in *.
  rewrite (loop_items option_bytes option_ok raw _) with (pre := []) (items := options) (acc := []);
    try done.
  - intros pre o post acc Hr (Hc & Ho & _). unfold parse_edns_step.
    assert (Hz : zlen raw = zlen pre + 4 + zlen (opt_data o) + zlen post)
      by (rewrite Hr; unfold option_bytes; lens; lia).
    pose proof (zlen_nonneg pre); pose proof (zlen_nonneg post); pose proof (zlen_nonneg (opt_data o)).
    zdecide. rewrite Hr. unfold option_bytes. rewrite <- !app_assoc.
    rewrite (app_assoc (to_be 2 (opt_code o))). reads.
    destruct o; simpl. do 4 f_equal. lens. lia.
  - intros acc Hacc. unfold parse_edns_step. by zdecide.
  - destruct options; [by right|by left].
  - pose proof (concat_short option_bytes options) as Hs. fold raw in Hs.
    specialize (Hs (fun _ => ltac:(unfold option_bytes; rewrite length_app, length_to_be; lia))). lia.
Qed.

(** ** Round trip *)

(** The encoder accepts every well-formed value. *)
Lemma rdata_encodes t rdata : rdata_ok t rdata -> exists bs, encode_rdata t rdata = Ok bs.
Proof.
  intros Hok.
  assert (forall n, name_ok n -> exists bs, name_encode n = Ok bs) as Hn.
  { intros n H. destruct (name_encode_ok n H) as (bs & ? & _). eauto. }
  assert (forall l : list Z, l <> [] -> (zlen l =? 0) = false) as Hz.
  { intros l Hl. apply Z.eqb_neq. intros ?%zlen_0. done. }
  destruct t, rdata; try done; cbn [encode_rdata rdata_ok] in *;
    try (by eauto);
    unfold soa_ok, rrsig_ok, nsec3_ok, data_ok, string_ok in *;
    destruct_and?;
    repeat match goal with
    | H : name_ok ?n |- _ => destruct (Hn n H) as [? ->]; clear H
    | H : validate_type_bitmaps _ = _ |- _ => rewrite H
    end; rewrite ?Hz by done; zdecide; eauto.
  - destruct (zlen strings =? 0) eqn:E; breflect; [by apply zlen_0 in E|].
    eauto using encode_strings_ok.
  - eauto using encode_options_ok.
Qed.

Section rdata_roundtrip.
Context (message pre bs post : list Z) (start stop : Z) (limits : ParseLimits).
Hypothesis message_eq : message = pre ++ bs ++ post.
Hypothesis start_eq : start = zlen pre.
Hypothesis stop_eq : stop = zlen pre + zlen bs.
Hypothesis message_small : zlen message <= u16_max.
Hypothesis labels_limit : 127 <= max_labels_per_name limits.

Lemma raw_eq : get_range message start stop = Some bs.
Proof. rewrite message_eq, start_eq, stop_eq. by apply get_range_mid. Qed.

(** A name written [k] bytes into the RDATA. *)
Lemma name_at k enc n r :
  bs = k ++ enc ++ r -> name_ok n -> name_encode n = Ok enc ->
  decode_name message (start + zlen k) stop limits = Ok (n, start + zlen k + zlen enc).
Proof.
  intros Hbs Hn E. pose proof (zlen_nonneg post); pose proof (zlen_nonneg r).
  apply (decode_name_encoded n enc (pre ++ k) (r ++ post)); try done.
  - rewrite message_eq, Hbs. by rewrite <- !app_assoc.
  - rewrite start_eq. lens. lia.
  - rewrite stop_eq, message_eq, Hbs. lens. lia.
Qed.

(** A field written [k] bytes into the RDATA. *)
Lemma field_at k x r a b :
  bs = k ++ x ++ r -> a = start + zlen k -> b = a + zlen x -> get_range message a b = Some x.
Proof.
  intros Hbs -> ->. apply (get_range_at (pre ++ k) x (r ++ post)); [|lens; lia|done].
  rewrite message_eq, Hbs. by rewrite <- !app_assoc.
Qed.

Lemma start_bounds : 0 <= start /\ start + zlen bs <= u16_max.
Proof.
  pose proof (zlen_nonneg pre); pose proof (zlen_nonneg post).
  rewrite message_eq in message_small. lens. lia.
Qed.

Lemma soa_roundtrip s : soa_ok s -> encode_rdata Soa (RdataSoa s) = Ok bs ->
  parse_soa message start stop limits = Ok s.
Proof.
  intros (Hm & Hr & ? & ? & ? & ? & ?) E. cbn [encode_rdata] in E.
  destruct (name_encode (soa_mname s)) as [m|] eqn:Em; [|done].
  destruct (name_encode (soa_rname s)) as [r|] eqn:Er; [|done]. apply Ok_inj in E.
  pose proof (name_at [] m _ _ (eq_sym E) Hm Em) as Hd.
  rewrite zlen_nil, Z.add_0_r in Hd. pose proof (name_at m r _ _ (eq_sym E) Hr Er) as Hd'.
  set (fixed := to_be 4 _ ++ _) in E. assert (Hf : zlen fixed = 20) by (subst fixed; by lens).
  pose proof start_bounds as Hb. rewrite <- E in stop_eq, Hb. lens.
  unfold parse_soa. rewrite Hd, Hd'. zdecide.
  rewrite (field_at (m ++ r) fixed []) by (lens; rewrite <- ?app_assoc, ?app_nil_r; done || lia).
  reads. subst fixed. reads. by destruct s.
Qed.

Lemma mx_roundtrip m : rdata_ok Mx (RdataMx m) -> encode_rdata Mx (RdataMx m) = Ok bs ->
  parse_mx message start stop limits = Ok m.
Proof.
  intros [Hp Hn] E. cbn [encode_rdata] in E.
  destruct (name_encode (mx_exchange m)) as [enc|] eqn:En; [|done]. apply Ok_inj in E.
  pose proof (name_at (write_u16 (mx_preference m)) enc (mx_exchange m) []) as Hd.
  pose proof start_bounds as Hb. pose proof (zlen_nonneg enc). unfold parse_mx. rewrite raw_eq. cbn [ok_or].
  rewrite <- E in stop_eq, Hb |- *. unfold write_u16 in *. lens.
  change (Z.of_nat 2) with 2 in Hd. reads. rewrite Hd by (rewrite ?app_nil_r; done). reads. by destruct m.
Qed.

Lemma srv_roundtrip m : rdata_ok Srv (RdataSrv m) -> encode_rdata Srv (RdataSrv m) = Ok bs ->
  parse_srv message start stop limits = Ok m.
Proof.
  intros (Hp & Hw & Ho & Hn) E. cbn [encode_rdata] in E.
  destruct (name_encode (srv_target m)) as [enc|] eqn:En; [|done]. apply Ok_inj in E.
  pose proof (name_at (write_u16 (srv_priority m) ++ write_u16 (srv_weight m)
                       ++ write_u16 (srv_port m)) enc (srv_target m) []) as Hd.
  pose proof start_bounds as Hb. pose proof (zlen_nonneg enc). unfold parse_srv. rewrite raw_eq. cbn [ok_or].
  rewrite <- E in stop_eq, Hb |- *. unfold write_u16 in *. lens.
  change (Z.of_nat 2 + (Z.of_nat 2 + Z.of_nat 2)) with 6 in Hd.
  reads. rewrite Hd by (rewrite ?app_nil_r, <- ?app_assoc; done). reads. by destruct m.
Qed.

Lemma rrsig_roundtrip s : rrsig_ok s -> encode_rdata Rrsig (RdataRrsig s) = Ok bs ->
  parse_rrsig message start stop limits = Ok s.
Proof.
  intros ([Ht Hc] & ? & ? & ? & ? & ? & ? & Hn & Hs & _) E. cbn [encode_rdata] in E.
  destruct (name_encode (sig_signer s)) as [enc|] eqn:En; [|done]. apply Ok_inj in E.
  set (fixed := write_u16 (code (sig_type_covered s)) ++ [sig_algorithm s; sig_labels s]
    ++ to_be 4 (sig_original_ttl s) ++ to_be 4 (sig_expiration s)
    ++ to_be 4 (sig_inception s) ++ write_u16 (sig_key_tag s)).
  assert (Hbs : bs = fixed ++ enc ++ sig_signature s).
  { rewrite <- E. subst fixed. by rewrite <- !app_assoc. }
  assert (Hf : zlen fixed = 18) by (subst fixed; unfold write_u16; by lens).
  pose proof (name_at fixed enc _ _ Hbs Hn En) as Hd.
  pose proof start_bounds as Hb. rewrite Hbs in stop_eq, Hb. lens.
  pose proof (zlen_nonneg enc). pose proof (zlen_nonneg (sig_signature s)). unfold parse_rrsig. zdecide.
  rewrite (field_at [] fixed (enc ++ sig_signature s)) by (lens; done || lia).
  rewrite Hf in Hd. cbn [ok_or]. rewrite Hd.
  rewrite (field_at (fixed ++ enc) (sig_signature s) [])
    by (lens; rewrite <- ?app_assoc, ?app_nil_r; done || lia).
  cbn [ok_or]. destruct (zlen (sig_signature s) =? 0) eqn:E0; breflect; [by apply zlen_0 in E0|].
  subst fixed. unfold write_u16. cbn [app]. reads. rewrite Hc. by destruct s.
Qed.

Lemma nsec_roundtrip n : rdata_ok Nsec (RdataNsec n) -> encode_rdata Nsec (RdataNsec n) = Ok bs ->
  parse_nsec message start stop limits = Ok n.
Proof.
  intros (Hn & _ & Hv) E. cbn [encode_rdata] in E.
  destruct (name_encode (nsec_next_domain n)) as [enc|] eqn:En; [|done].
  rewrite Hv in E. apply Ok_inj in E.
  pose proof (name_at [] enc _ _ (eq_sym E) Hn En) as Hd. rewrite zlen_nil, Z.add_0_r in Hd.
  unfold parse_nsec. rewrite Hd.
  rewrite (field_at enc (nsec_type_bitmaps n) []);
    [|by rewrite app_nil_r|lia|rewrite stop_eq, <- E; lens; lia].
  cbn [ok_or]. rewrite Hv. by destruct n.
Qed.
End rdata_roundtrip.

(** Types whose RDATA holds no name are parsed from the raw slice alone. *)
Lemma ds_roundtrip d bs : rdata_ok Ds (RdataDs d) -> encode_rdata Ds (RdataDs d) = Ok bs ->
  parse_ds bs = Ok d.
Proof.
  intros (? & ? & ? & Hne%zlen_pos & _) E. cbn [encode_rdata] in E. apply Ok_inj in E as <-.
  unfold parse_ds, write_u16, get_from. cbn [app]. reads. by destruct d.
Qed.

Lemma dnskey_roundtrip d bs : rdata_ok Dnskey (RdataDnskey d) ->
  encode_rdata Dnskey (RdataDnskey d) = Ok bs -> parse_dnskey bs = Ok d.
Proof.
  intros (? & ? & ? & Hne%zlen_pos & _) E. cbn [encode_rdata] in E. apply Ok_inj in E as <-.
  unfold parse_dnskey, write_u16, get_from. cbn [app]. reads. by destruct d.
Qed.

Lemma tlsa_roundtrip d bs : rdata_ok Tlsa (RdataTlsa d) ->
  encode_rdata Tlsa (RdataTlsa d) = Ok bs -> parse_tlsa bs = Ok d.
Proof.
  intros (? & ? & ? & Hne%zlen_pos & _) E. cbn [encode_rdata] in E. case_match; [done|].
  apply Ok_inj in E as <-. unfold parse_tlsa, get_from. cbn [app]. reads. by destruct d.
Qed.

Lemma nsec3_roundtrip n bs : nsec3_ok n -> zlen bs <= u16_max ->
  encode_rdata Nsec3 (RdataNsec3 n) = Ok bs -> parse_nsec3 bs = Ok n.
Proof.
  intros (? & ? & ? & [Hs _] & [Ho _] & Hne%zlen_pos & _ & Hv) Hsmall E.
  cbn [encode_rdata] in E. rewrite Hv in E. do 3 (case_match; [done|]).
  apply Ok_inj in E as <-. unfold write_u16 in *. cbn [app] in *.
  pose proof (zlen_nonneg (nsec3_salt n)). pose proof (zlen_nonneg (nsec3_type_bitmaps n)).
  unfold parse_nsec3, get_from. reads. rewrite Hv. by destruct n.
Qed.

(** NS and CNAME: the whole RDATA is one name. *)
Lemma only_name_roundtrip n message pre bs post start stop limits :
  message = pre ++ bs ++ post -> start = zlen pre -> stop = zlen pre + zlen bs ->
  zlen message <= u16_max -> 127 <= max_labels_per_name limits ->
  name_ok n -> name_encode n = Ok bs ->
  decode_name message start stop limits = Ok (n, stop).
Proof.
  intros Hm -> -> Hsmall Hlab Hn E. pose proof (zlen_nonneg post).
  rewrite (decode_name_encoded n bs pre post); try done. subst. lens. lia.
Qed.

Lemma rdata_roundtrip t rdata message pre bs post start stop limits :
  message = pre ++ bs ++ post -> start = zlen pre -> stop = zlen pre + zlen bs ->
  zlen message <= u16_max -> 127 <= max_labels_per_name limits ->
  rdata_ok t rdata -> encode_rdata t rdata = Ok bs ->
  parse_rdata message start stop t limits = Ok rdata.
Proof.
  intros Hm Hst Hsp Hsmall Hlab Hok E.
  assert (Hbs : zlen bs <= u16_max).
  { rewrite Hm in Hsmall. pose proof (zlen_nonneg pre); pose proof (zlen_nonneg post). lens. lia. }
  unfold parse_rdata. rewrite (raw_eq message pre bs post start stop) by done. cbn [ok_or].
  destruct t, rdata; try done.
  all: try (first [ erewrite soa_roundtrip by done | erewrite mx_roundtrip by done
    | erewrite srv_roundtrip by done | erewrite rrsig_roundtrip by done
    | erewrite nsec_roundtrip by done | erewrite ds_roundtrip by done
    | erewrite dnskey_roundtrip by done | erewrite tlsa_roundtrip by done
    | erewrite nsec3_roundtrip by done ]; done).
  all: cbn [rdata_ok encode_rdata] in *.
  all: try (destruct Hok as [Hz _]; apply Ok_inj in E as ->; by rewrite Hz).
  all: try (erewrite only_name_roundtrip by done; by rewrite Z.eqb_refl).
  all: try (by apply Ok_inj in E as ->).
  - destruct Hok as [Hne Hok]. case_match; [done|]. rewrite encode_strings_ok in E by done.
    apply Ok_inj in E as <-. by rewrite parse_txt_ok.
  - rewrite encode_options_ok in E by done. apply Ok_inj in E as <-. by rewrite parse_edns_ok.
Qed.

(** ** Validity of what the parser returns *)

Lemma parse_txt_sound raw strings :
  bytes_ok raw -> parse_txt raw = Ok strings -> strings <> [] /\ Forall string_ok strings.
Proof.
  intros Hb E. unfold parse_txt in E. case_match eqn:El; [subst|done].
  apply (loop_result _ (fun st => 0 <= st.1 /\ Forall string_ok st.2)
           (fun strings => strings <> [] /\ Forall string_ok strings)) in El; try done.
  - clear El. intros [c l] st' [Hc Hl] Es. unfold parse_txt_step in Es. simpl in *. parsed. wire_facts.
    split; [width_lia|]. apply Forall_app. split; [done|].
    apply Forall_singleton. split; [width_lia|done].
  - clear El. intros [c l] l' [Hc Hl] Es. unfold parse_txt_step in Es. simpl in *. parsed.
    split; [|done]. by intros ->.
Qed.

Lemma parse_edns_sound raw options :
  bytes_ok raw -> parse_edns raw = Ok options -> Forall option_ok options.
Proof.
  intros Hb E. unfold parse_edns in E. case_match eqn:El; [subst|done].
  apply (loop_result _ (fun st => 0 <= st.1 /\ Forall option_ok st.2)
           (fun options => Forall option_ok options)) in El; try done.
  - clear El. intros [c l] st' [Hc Hl] Es. unfold parse_edns_step in Es. simpl in *. parsed. wire_facts.
    split; [width_lia|]. apply Forall_app. split; [done|].
    apply Forall_singleton. split_and!; simpl; [done|width_lia|done].
  - clear El. intros [c l] l' [Hc Hl] Es. unfold parse_edns_step in Es. simpl in *. by parsed.
Qed.

Lemma parse_rdata_sound message start stop t limits rdata :
  bytes_ok message -> 0 <= start -> parse_rdata message start stop t limits = Ok rdata ->
  rdata_ok t rdata.
Proof.
  intros Hb Hst E. unfold parse_rdata in E.
  destruct (get_range message start stop) as [raw|] eqn:Er; [|done]. cbn [ok_or] in E.
  pose proof (get_range_bytes _ _ _ _ Hb Er) as Hraw.
  destruct t; cbn [result_map] in E; try (apply result_map_Ok in E as (? & E & ->));
    unfold parse_soa, parse_mx, parse_srv, parse_ds, parse_dnskey, parse_rrsig, parse_nsec,
      parse_nsec3, parse_tlsa, get_from in E; cbn [rdata_ok].
  all: try (by eauto using parse_txt_sound, parse_edns_sound).
  all: parsed.
  all: repeat match goal with u : unit |- _ => destruct u end.
  all: wire_facts.
  all: unfold soa_ok, rrsig_ok, nsec3_ok, data_ok, string_ok; simpl.
  all: split_and?; try done; try lia; try width_lia.
  all: try (by apply from_code_ok).
  all: intros ->; rewrite zlen_nil in *; lia.
Qed.

(** Every RDATA loop returns within one turn more than the bytes it walks
    over; what [parse_rdata] accepts for a record type is well formed for that
    type; and that value is encoded again without error to bytes that parse
    back to it wherever they are placed. *)
Theorem rdata_parse_total_sound message start stop t limits :
  bytes_ok message -> 0 <= start ->
  (forall raw, bytes_ok raw ->
    (exists r, loop (S (length raw)) (parse_txt_step raw) (0, []) = Some r) /\
    (exists r, loop (S (length raw)) (parse_edns_step raw) (0, []) = Some r) /\
    (exists r, loop (S (length raw)) (type_bitmaps_step raw) (0, None, 0) = Some r)) /\
  forall rdata, parse_rdata message start stop t limits = Ok rdata ->
    rdata_ok t rdata /\
    exists bs, encode_rdata t rdata = Ok bs /\
      forall pre post,
        zlen (pre ++ bs ++ post) <= u16_max -> 127 <= max_labels_per_name limits ->
        parse_rdata (pre ++ bs ++ post) (zlen pre) (zlen pre + zlen bs) t limits = Ok rdata.
Proof.
  intros Hb Hst. split; [exact rdata_loops_total|]. intros rdata E.
  pose proof (parse_rdata_sound _ _ _ _ _ _ Hb Hst E) as Hok. split; [done|].
  destruct (rdata_encodes t rdata Hok) as [bs Ebs]. exists bs. split; [done|].
  intros pre post Hsmall Hl. by eapply rdata_roundtrip.
Qed.

(** An MX record whose exchange is compressed against the name at offset 0. *)
Definition sample_mx : list Z := [1; 65; 0; 0; 10; 1; 98; 0xc0; 0].

Lemma rdata_parse_total_sound_witness :
  rdata_ok Mx (RdataMx {| mx_preference := 10;
                          mx_exchange := {| name_labels := [[98]; [97]] |} |}).
Proof.
  refine (proj1 (proj2 (rdata_parse_total_sound sample_mx 3 9 Mx limits_browser _ _) _ _)).
  - repeat constructor; width_lia.
  - lia.
  - vm_compute. reflexivity.
Defined.
