(* ===== verification/DnsMessage.v ===== *)
(** * DNS messages: sections, whole messages and queries

    A section of a message is read by [parse_many] and written by
    [encode_many]. What the message codec needs of one item is the class
    [WireCodec]; questions and resource records are its instances, and the
    message theorems are proved against the class. *)

From S2P Require Import Prelude DnsTypes DnsParse DnsEncode DnsNames DnsRdata.

#[local] Arguments zlen : simpl never.
#[local] Arguments to_be : simpl never.

(** ** One item of a section *)

Class WireCodec (limits : ParseLimits) (T : Type) := {
  parse_item : list Z -> Z -> result WireError (T * Z);
  encode_item : T -> result WireError (list Z);
  item_ok : T -> Prop;
  item_fits : T -> Prop;
  item_sound : forall message offset x next,
    bytes_ok message -> 0 <= offset -> parse_item message offset = Ok (x, next) ->
    item_ok x /\ offset < next <= zlen message;
  item_roundtrip : forall x bs message pre post,
    127 <= max_labels_per_name limits -> zlen message <= u16_max ->
    item_ok x -> item_fits x -> encode_item x = Ok bs ->
    message = pre ++ bs ++ post ->
    parse_item message (zlen pre) = Ok (x, zlen pre + zlen bs) }.

Section sections.
Context (limits : ParseLimits) {T : Type} `{WireCodec limits T}.

Lemma parse_many_sound count message cursor items next :
  bytes_ok message -> 0 <= cursor <= zlen message ->
  parse_many parse_item message cursor count = Ok (items, next) ->
  Forall item_ok items /\ length items = count /\ cursor <= next <= zlen message.
Proof.
  intros Hb. revert cursor items next.
  induction count as [|count IH]; intros cursor items next Hc E; simpl in E;
    [simplify_eq; split_and!; first [done | lia]|].
  destruct (parse_item message cursor) as [[x c']|] eqn:Ex; [|done].
  destruct (parse_many parse_item message c' count) as [[xs c'']|] eqn:Exs; simplify_eq.
  apply item_sound in Ex as [Hx Hn]; [|done|lia].
  apply IH in Exs as (Hxs & Hlen & Hn'); [|lia].
  split_and!; [by constructor|simpl; lia|lia..].
Qed.

Lemma parse_many_roundtrip items bs message pre post :
  127 <= max_labels_per_name limits -> zlen message <= u16_max ->
  Forall item_ok items -> Forall item_fits items ->
  encode_many encode_item items = Ok bs -> message = pre ++ bs ++ post ->
  parse_many parse_item message (zlen pre) (length items) = Ok (items, zlen pre + zlen bs).
Proof.
  intros Hl Hs Hok. revert bs pre. induction Hok as [|x items Hx _ IH];
    intros bs pre Hf E Hm; simpl in *.
  { simplify_eq. by rewrite zlen_nil, Z.add_0_r. }
  destruct (encode_item x) as [b1|] eqn:E1; [|done].
  destruct (encode_many encode_item items) as [b2|] eqn:E2; [|done]. simplify_eq.
  inversion Hf; subst.
  rewrite (item_roundtrip x b1 _ pre (b2 ++ post)) by (done || by rewrite <- !app_assoc).
  replace (zlen pre + zlen b1) with (zlen (pre ++ b1)) by (lens; lia).
  rewrite (IH b2 (pre ++ b1)) by (done || by rewrite <- !app_assoc).
  do 2 f_equal. lens. lia.
Qed.

Lemma encode_many_app items items' :
  encode_many encode_item (items ++ items')
  = (let? b1 := encode_many encode_item items in
     let? b2 := encode_many encode_item items' in Ok (b1 ++ b2)).
Proof.
  induction items as [|x items IH]; simpl; [by destruct (encode_many _ _)|].
  rewrite IH. destruct (encode_item x); [|done].
  destruct (encode_many encode_item items); [|done].
  destruct (encode_many encode_item items'); [|done]. by rewrite app_assoc.
Qed.
End sections.

(** ** Questions *)

Definition question_ok (q : Question) : Prop :=
  name_ok (q_name q) /\ type_ok (q_type q) /\ in_u16 (q_class q).

Lemma question_sound limits message offset q next :
  bytes_ok message -> 0 <= offset -> parse_question limits message offset = Ok (q, next) ->
  question_ok q /\ offset < next <= zlen message.
Proof.
  intros Hb Ho E. unfold parse_question in E. parsed. wire_facts.
  split; [|lia]. split_and!; simpl; [done|by apply from_code_ok|done].
Qed.

Lemma question_roundtrip limits q bs message pre post :
  127 <= max_labels_per_name limits -> zlen message <= u16_max ->
  question_ok q -> encode_question q = Ok bs -> message = pre ++ bs ++ post ->
  parse_question limits message (zlen pre) = Ok (q, zlen pre + zlen bs).
Proof.
  intros Hl Hs (Hn & [Ht Hc] & Hcl) E Hm. unfold encode_question in E.
  destruct (name_encode (q_name q)) as [enc|] eqn:En; [|done]. apply Ok_inj in E.
  pose proof (zlen_nonneg pre); pose proof (zlen_nonneg post); pose proof (zlen_nonneg enc).
  assert (Hz : zlen message = zlen pre + zlen enc + 4 + zlen post).
  { rewrite Hm, <- E. unfold write_u16. lens. lia. }
  unfold parse_question.
  rewrite (decode_name_encoded (q_name q) enc pre (write_u16 (code (q_type q))
             ++ write_u16 (q_class q) ++ post)); try done; [|by rewrite Hm, <- E, <- !app_assoc|lia].
  zdecide.
  rewrite (get_range_at (pre ++ enc) (write_u16 (code (q_type q)) ++ write_u16 (q_class q)) post)
    by (unfold write_u16; lens; first [rewrite Hm, <- E, <- !app_assoc; done | lia]).
  unfold write_u16 in *. reads. rewrite Hc. destruct q; simpl.
  do 2 f_equal. rewrite <- E. lens. lia.
Qed.

#[export] Instance question_codec limits : WireCodec limits Question := {|
  parse_item := parse_question limits;
  encode_item := encode_question;
  item_ok := question_ok;
  item_fits := fun _ => True;
  item_sound := question_sound limits;
  item_roundtrip := fun q bs message pre post Hl Hs Hok _ E Hm =>
    question_roundtrip limits q bs message pre post Hl Hs Hok E Hm |}.

(** ** Resource records *)

Definition record_ok (r : ResourceRecord) : Prop :=
  name_ok (rr_name r) /\ type_ok (rr_type r) /\ in_u16 (rr_class r) /\ in_u32 (rr_ttl r) /\
  rdata_ok (rr_type r) (rr_rdata r).

(** The uncompressed RDATA is within the parser's limit. *)
Definition record_fits (limits : ParseLimits) (r : ResourceRecord) : Prop :=
  forall bs, encode_rdata (rr_type r) (rr_rdata r) = Ok bs -> zlen bs <= max_rdata_len limits.

Lemma record_sound limits message offset r next :
  bytes_ok message -> 0 <= offset -> parse_record limits message offset = Ok (r, next) ->
  record_ok r /\ offset < next <= zlen message.
Proof.
  intros Hb Ho E. unfold parse_record in E. parsed. wire_facts.
  split; [|width_lia]. split_and!; simpl; try done; [by apply from_code_ok|].
  match goal with H : parse_rdata _ _ _ _ _ = Ok _ |- _ =>
    apply parse_rdata_sound in H; [done|done|lia] end.
Qed.

Lemma record_roundtrip limits r bs message pre post :
  127 <= max_labels_per_name limits -> zlen message <= u16_max ->
  record_ok r -> record_fits limits r -> encode_record r = Ok bs ->
  message = pre ++ bs ++ post ->
  parse_record limits message (zlen pre) = Ok (r, zlen pre + zlen bs).
Proof.
  intros Hl Hs (Hn & [Ht Hc] & Hcl & Httl & Hrd) Hfit E Hm. unfold encode_record in E.
  destruct (name_encode (rr_name r)) as [enc|] eqn:En; [|done].
  destruct (encode_rdata (rr_type r) (rr_rdata r)) as [rb|] eqn:Er; [|done].
  case_match; [done|]. breflect. apply Ok_inj in E. specialize (Hfit rb Er).
  set (fixed := write_u16 (code (rr_type r)) ++ write_u16 (rr_class r)
                ++ to_be 4 (rr_ttl r) ++ write_u16 (zlen rb)).
  assert (Hbs : bs = enc ++ fixed ++ rb) by (rewrite <- E; subst fixed; by rewrite <- !app_assoc).
  assert (Hf : zlen fixed = 10) by (subst fixed; unfold write_u16; by lens).
  rewrite Hbs, <- !app_assoc in Hm.
  pose proof (zlen_nonneg pre); pose proof (zlen_nonneg post); pose proof (zlen_nonneg enc);
    pose proof (zlen_nonneg rb).
  assert (Hz : zlen message = zlen pre + zlen enc + 10 + zlen rb + zlen post)
    by (rewrite Hm; lens; lia).
  assert (Hrr : get_range message (zlen pre + zlen enc + 10) (zlen pre + zlen enc + 10 + zlen rb)
                = Some rb).
  { apply (get_range_at (pre ++ enc ++ fixed) rb post); [by rewrite Hm, <- !app_assoc|lens; lia..]. }
  unfold parse_record.
  rewrite (decode_name_encoded (rr_name r) enc pre (fixed ++ rb ++ post)) by (done || lia).
  zdecide. rewrite (get_range_at (pre ++ enc) fixed (rb ++ post))
    by (lens; first [by rewrite Hm, <- !app_assoc | lia]).
  cbn [ok_or]. unfold fixed at 1 2 3 4, write_u16 at 1 2 3 4 5 6 7 8 9 10 11 12.
  reads. rewrite Hrr, Hc. cbn [ok_or].
  rewrite (rdata_roundtrip _ (rr_rdata r) _ (pre ++ enc ++ fixed) rb post)
    by (done || (by rewrite Hm, <- !app_assoc) || (lens; lia)).
  destruct r; simpl. do 2 f_equal. rewrite Hbs. lens. lia.
Qed.

#[export] Instance record_codec limits : WireCodec limits ResourceRecord := {|
  parse_item := parse_record limits;
  encode_item := encode_record;
  item_ok := record_ok;
  item_fits := record_fits limits;
  item_sound := record_sound limits;
  item_roundtrip := record_roundtrip limits |}.

(** ** Messages *)

Definition message_records (m : Message) : list ResourceRecord :=
  msg_answers m ++ msg_authorities m ++ msg_additionals m.

(** Valid messages under [limits]: what [parse_with_limits] can return. *)
Record message_ok (limits : ParseLimits) (m : Message) : Prop := {
  mok_id : in_u16 (hdr_id (msg_header m));
  mok_flags : in_u16 (flags_bits (hdr_flags (msg_header m)));
  mok_reserved : Z.land (flags_bits (hdr_flags (msg_header m))) 0x0040 = 0;
  mok_qd : question_count (msg_header m) = zlen (msg_questions m);
  mok_an : answer_count (msg_header m) = zlen (msg_answers m);
  mok_ns : authority_count (msg_header m) = zlen (msg_authorities m);
  mok_ar : additional_count (msg_header m) = zlen (msg_additionals m);
  mok_questions_limit : zlen (msg_questions m) <= max_questions limits;
  mok_records_limit : zlen (message_records m) <= max_records limits;
  mok_questions : Forall question_ok (msg_questions m);
  mok_records : Forall record_ok (message_records m);
  mok_pseudo : validate_pseudo_records m = Ok tt }.

Lemma header_sound message h :
  bytes_ok message -> header_parse message = Ok h ->
  12 <= zlen message /\ in_u16 (hdr_id h) /\ in_u16 (flags_bits (hdr_flags h)) /\
  in_u16 (question_count h) /\ in_u16 (answer_count h) /\ in_u16 (authority_count h) /\
  in_u16 (additional_count h).
Proof. intros Hb E. unfold header_parse in E. parsed. wire_facts. simpl. split_and!; done || lia. Qed.

Lemma section_sound limits {T} `{WireCodec limits T} message cursor count items next :
  bytes_ok message -> 0 <= cursor <= zlen message -> 0 <= count ->
  parse_many parse_item message cursor (Z.to_nat count) = Ok (items, next) ->
  Forall item_ok items /\ count = zlen items /\ 0 <= next <= zlen message.
Proof.
  intros Hb Hc Hn E. apply parse_many_sound in E as (? & Hl & ?); [|done..].
  unfold zlen in *. split_and!; [done|lia..].
Qed.

Lemma parse_message_sound limits message m :
  bytes_ok message -> parse_with_limits message limits = Ok m ->
  message_ok limits m /\ zlen message <= u16_max.
Proof.
  intros Hb E. unfold parse_with_limits in E. case_match; [done|]. breflect.
  destruct (header_parse message) as [h|] eqn:Eh; [|done].
  apply header_sound in Eh as (H12 & Hid & Hfl & Hqd & Han & Hns & Har); [|done].
  parsed. repeat match goal with u : unit |- _ => destruct u end.
  unfold parse_records in *.
  repeat match goal with H : parse_many _ message ?c (Z.to_nat ?n) = Ok _ |- _ =>
    first [ apply (@section_sound limits Question (question_codec limits)) in H as (? & ? & ?)
          | apply (@section_sound limits ResourceRecord (record_codec limits)) in H as (? & ? & ?)];
    [|done|lia|width_lia] end.
  split; [|done]. constructor; unfold message_records; simpl; try done; lens; try lia.
  by rewrite !Forall_app.
Qed.

Lemma count_encode n bs : write_count n = Ok bs -> bs = to_be 2 n /\ n <= u16_max.
Proof. unfold write_count. case_match; [done|]. breflect. intros ?%Ok_inj. split; [done|lia]. Qed.

Lemma header_roundtrip h rest :
  in_u16 (hdr_id h) -> in_u16 (flags_bits (hdr_flags h)) ->
  in_u16 (question_count h) -> in_u16 (answer_count h) -> in_u16 (authority_count h) ->
  in_u16 (additional_count h) ->
  header_parse ((to_be 2 (hdr_id h) ++ to_be 2 (flags_bits (hdr_flags h))
    ++ to_be 2 (question_count h) ++ to_be 2 (answer_count h) ++ to_be 2 (authority_count h)
    ++ to_be 2 (additional_count h)) ++ rest) = Ok h.
Proof.
  intros. unfold header_parse. rewrite get_range_here by (lens; lia). cbn [ok_or].
  reads. by destruct h as [? [] ? ? ? ?].
Qed.

(** One section, read where it was written. *)
Lemma section_roundtrip limits {T} `{WireCodec limits T} message items bs pre post count cursor next :
  127 <= max_labels_per_name limits -> zlen message <= u16_max ->
  Forall item_ok items -> Forall item_fits items -> encode_many encode_item items = Ok bs ->
  message = pre ++ bs ++ post -> count = zlen items -> cursor = zlen pre ->
  next = zlen pre + zlen bs ->
  parse_many parse_item message cursor (Z.to_nat count) = Ok (items, next).
Proof.
  intros Hl Hs Hok Hf E Hm -> -> ->. unfold zlen at 2. rewrite Nat2Z.id.
  by eapply parse_many_roundtrip.
Qed.

(** The bytes of an encoded message, section by section. *)
Lemma message_encode_shape m max bs :
  message_encode m max = Ok bs ->
  exists qb ab nb rb,
    encode_many encode_question (msg_questions m) = Ok qb /\
    encode_many encode_record (msg_answers m) = Ok ab /\
    encode_many encode_record (msg_authorities m) = Ok nb /\
    encode_many encode_record (msg_additionals m) = Ok rb /\
    zlen (msg_questions m) <= u16_max /\ zlen (msg_answers m) <= u16_max /\
    zlen (msg_authorities m) <= u16_max /\ zlen (msg_additionals m) <= u16_max /\
    bs = (to_be 2 (hdr_id (msg_header m)) ++ to_be 2 (flags_bits (hdr_flags (msg_header m)))
          ++ to_be 2 (zlen (msg_questions m)) ++ to_be 2 (zlen (msg_answers m))
          ++ to_be 2 (zlen (msg_authorities m)) ++ to_be 2 (zlen (msg_additionals m)))
         ++ qb ++ ab ++ nb ++ rb /\ zlen bs <= max.
Proof.
  intros E. unfold message_encode in E.
  destruct (write_count (zlen (msg_questions m))) as [?|] eqn:E1; [|done].
  destruct (write_count (zlen (msg_answers m))) as [?|] eqn:E2; [|done].
  destruct (write_count (zlen (msg_authorities m))) as [?|] eqn:E3; [|done].
  destruct (write_count (zlen (msg_additionals m))) as [?|] eqn:E4; [|done].
  apply count_encode in E1 as [-> ?], E2 as [-> ?], E3 as [-> ?], E4 as [-> ?].
  destruct (encode_many encode_question (msg_questions m)) as [qb|] eqn:Eq; [|done].
  rewrite !(@encode_many_app limits_browser ResourceRecord (record_codec limits_browser)) in E.
  cbn [encode_item record_codec] in E.
  destruct (encode_many encode_record (msg_answers m)) as [ab|] eqn:Ea; [|done].
  destruct (encode_many encode_record (msg_authorities m)) as [nb|] eqn:En; [|done].
  destruct (encode_many encode_record (msg_additionals m)) as [rb|] eqn:Er; [|done].
  destruct (max <? _) eqn:Emax in E; [done|]. apply Ok_inj in E as <-. breflect.
  exists qb, ab, nb, rb. split_and!; done.
Qed.

Lemma message_roundtrip limits m max bs :
  127 <= max_labels_per_name limits -> message_ok limits m ->
  Forall (record_fits limits) (message_records m) ->
  message_encode m max = Ok bs -> zlen bs <= max_message_len limits -> zlen bs <= u16_max ->
  parse_with_limits bs limits = Ok m.
Proof.
  intros Hlab [Hid Hfl Hres Hqd Han Hns Har Hql Hrl Hq Hr Hps] Hfit E Hmax Hsmall.
  unfold message_records in *. apply Forall_app in Hr as [Hra [Hrn Hrr]%Forall_app].
  apply Forall_app in Hfit as [Hfa [Hfn Hfr]%Forall_app].
  destruct (message_encode_shape _ _ _ E)
    as (qb & ab & nb & rb & Eq & Ea & En & Er & ? & ? & ? & ? & Hbs & _).
  rewrite <- Hqd, <- Han, <- Hns, <- Har in Hbs.
  set (hd := to_be 2 _ ++ _) in Hbs. assert (Hh : zlen hd = 12) by (subst hd; by lens).
  lens. pose proof (zlen_nonneg (msg_questions m)); pose proof (zlen_nonneg (msg_answers m));
    pose proof (zlen_nonneg (msg_authorities m)); pose proof (zlen_nonneg (msg_additionals m)).
  unfold parse_with_limits. zdecide.
  assert (header_parse bs = Ok (msg_header m)) as ->
    by (rewrite Hbs; apply header_roundtrip; width_lia).
  rewrite Hres. zdecide. unfold parse_records.
  rewrite (@section_roundtrip limits Question (question_codec limits) bs (msg_questions m) qb hd
             (ab ++ nb ++ rb) _ _ (12 + zlen qb)) by (done || lia || by apply Forall_true).
  rewrite (@section_roundtrip limits _ (record_codec limits) bs (msg_answers m) ab (hd ++ qb)
             (nb ++ rb) _ _ (12 + zlen qb + zlen ab))
    by (done || (by rewrite Hbs, <- !app_assoc) || (lens; lia)).
  rewrite (@section_roundtrip limits _ (record_codec limits) bs (msg_authorities m) nb
             (hd ++ qb ++ ab) rb _ _ (12 + zlen qb + zlen ab + zlen nb))
    by (done || (by rewrite Hbs, <- !app_assoc) || (lens; lia)).
  rewrite (@section_roundtrip limits _ (record_codec limits) bs (msg_additionals m) rb
             (hd ++ qb ++ ab ++ nb) [] _ _ (zlen bs))
    by (done || (by rewrite Hbs, app_nil_r, <- !app_assoc) || (rewrite ?Hbs; lens; lia)).
  rewrite Z.eqb_refl. cbn [negb]. destruct m; cbn in *. by rewrite Hps.
Qed.

(** ** Encoding failures *)

Lemma encode_many_err {T} (encode : T -> result WireError (list Z)) items e :
  encode_many encode items = Err e -> exists x, x ∈ items /\ encode x = Err e.
Proof.
  induction items as [|x items IH]; simpl; [done|].
  destruct (encode x) as [b|e'] eqn:Ex.
  - destruct (encode_many encode items) eqn:Em; [done|]. intros [= ->].
    destruct IH as (y & Hy & Ey); [done|]. exists y. split; [by right|done].
  - intros [= ->]. exists x. split; [left|done].
Qed.

Lemma encode_question_ok q : question_ok q -> exists bs, encode_question q = Ok bs /\ zlen bs <= 259.
Proof.
  intros (Hn & _). destruct (name_encode_ok _ Hn) as (enc & E & Hlen & _).
  unfold encode_question. rewrite E. eexists. split; [done|]. destruct Hn as [_ Hw].
  unfold write_u16, MAX_WIRE_NAME_LEN in *. lens. lia.
Qed.

Lemma encode_record_err r e : record_ok r -> encode_record r = Err e -> e = EncodeLimit.
Proof.
  intros (Hn & _ & _ & _ & Hrd). destruct (name_encode_ok _ Hn) as (enc & E & _ & _).
  destruct (rdata_encodes _ _ Hrd) as [rb Er]. unfold encode_record. rewrite E, Er.
  case_match; naive_solver.
Qed.

Lemma encode_record_size r bs : encode_record r = Ok bs ->
  exists rb, encode_rdata (rr_type r) (rr_rdata r) = Ok rb /\ zlen rb <= u16_max.
Proof. unfold encode_record. intros E. parsed. eauto with lia. Qed.

Lemma encoded_records_fit limits records bs :
  u16_max <= max_rdata_len limits -> encode_many encode_record records = Ok bs ->
  Forall (record_fits limits) records.
Proof.
  intros Hl. revert bs. induction records as [|r records IH]; intros bs E; [done|]. simpl in E.
  destruct (encode_record r) as [b|] eqn:Er; [|done].
  destruct (encode_many encode_record records) eqn:Em; [|done].
  constructor; [|by eapply IH]. intros rb Erb.
  apply encode_record_size in Er as (rb' & Erb' & Hz).
  rewrite Erb in Erb'. apply Ok_inj in Erb' as ->. lia.
Qed.

(** A valid message fails to encode only for its size. *)
Lemma message_encode_err limits m max e :
  max_questions limits <= u16_max -> max_records limits <= u16_max ->
  message_ok limits m -> message_encode m max = Err e -> e = EncodeLimit.
Proof.
  intros Hq Hr [_ _ _ _ _ _ _ Hql Hrl Hqs Hrs _] E. unfold message_records in *. lens.
  pose proof (zlen_nonneg (msg_answers m)); pose proof (zlen_nonneg (msg_authorities m));
    pose proof (zlen_nonneg (msg_additionals m)).
  unfold message_encode, write_count in E. revert E. zdecide. intros E.
  destruct (encode_many encode_question (msg_questions m)) as [qb|] eqn:Eq.
  2: { apply encode_many_err in Eq as (q & Hin & Eq). rewrite Forall_forall in Hqs.
       destruct (encode_question_ok q (Hqs q Hin)) as (? & ? & _). congruence. }
  destruct (encode_many encode_record _) as [rb|] eqn:Er in E; [|].
  - case_match; naive_solver.
  - apply encode_many_err in Er as (r & Hin & Er). rewrite Forall_forall in Hrs.
    simplify_eq. by apply (encode_record_err r), Er; apply Hrs.
Qed.

(** C36. Whatever message the production parser accepts, compressed or not, is
    valid; it re-encodes without compression unless the result is too large
    (the only possible failure), and the parser reads the re-encoding back to
    the same message. *)
Theorem message_canonicalises wire m :
  bytes_ok wire -> message_parse wire = Ok m ->
  message_ok limits_browser m /\
  (forall e, message_encode m u16_max = Err e -> e = EncodeLimit) /\
  (forall wire', message_encode m u16_max = Ok wire' -> message_parse wire' = Ok m).
Proof.
  intros Hb E. destruct (parse_message_sound _ _ _ Hb E) as [Hok _].
  split_and!; [done|by intros e; apply (message_encode_err limits_browser)|].
  intros wire' E'. destruct (message_encode_shape _ _ _ E')
    as (qb & ab & nb & rb & _ & Ea & En & Er & _ & _ & _ & _ & _ & Hsz).
  apply (message_roundtrip limits_browser m u16_max); try done.
  unfold message_records. rewrite !Forall_app. split_and!; by eapply encoded_records_fit.
Qed.

(** A response with one compressed answer: [a. IN MX 10 b.a.]. *)
Definition sample_response : list Z :=
  [0x12; 0x34; 0x80; 0; 0; 1; 0; 1; 0; 0; 0; 0;
   1; 65; 0; 0; 15; 0; 1;
   0xc0; 12; 0; 15; 0; 1; 0; 0; 0; 60; 0; 6; 0; 10; 1; 98; 0xc0; 12].

Lemma message_canonicalises_witness :
  exists m wire', message_parse sample_response = Ok m /\ message_encode m u16_max = Ok wire' /\
    wire' <> sample_response /\ message_parse wire' = Ok m.
Proof.
  destruct (message_parse sample_response) as [m|] eqn:E; [|vm_compute in E; discriminate E].
  destruct (message_encode m u16_max) as [wire'|] eqn:E';
    [|vm_compute in E; injection E as <-; vm_compute in E'; discriminate E'].
  exists m, wire'. split; [reflexivity|]. split; [exact E'|]. split.
  - vm_compute in E. injection E as <-. vm_compute in E'. injection E' as <-. discriminate.
  - refine (proj2 (proj2 (message_canonicalises sample_response m _ E)) wire' E').
    repeat constructor; width_lia.
Defined.

(** ** Queries *)

Definition query_ok (q : Query) : Prop :=
  in_u16 (query_id q) /\ question_ok (query_question q) /\
  q_class (query_question q) = CLASS_IN /\ name_is_root (q_name (query_question q)) = false /\
  q_type (query_question q) <> Opt.

Lemma query_message_ok q : query_ok q -> message_ok limits_requester (query_message q).
Proof.
  intros (Hid & Hq & _). constructor; simpl; try done; [by constructor|].
  constructor; [|done]. split_and!; simpl; try done; try width_lia.
Qed.

(** Header, one question of at most 259 bytes, one empty OPT record. *)
Lemma query_encodes q max :
  query_ok q -> 282 <= max ->
  exists bs, query_encode q max = Ok bs /\ zlen bs <= 282.
Proof.
  intros (_ & Hq & _) Hmax. destruct (encode_question_ok _ Hq) as (qb & Eq & Hz).
  unfold query_encode, message_encode. simpl msg_questions. cbn [encode_many].
  rewrite Eq. pose proof (zlen_nonneg qb).
  match goal with |- context [encode_many encode_record ?l] =>
    assert (encode_many encode_record l = Ok [0; 0; 41; 4; 208; 0; 0; 128; 0; 0; 0]) as ->
      by (vm_compute; reflexivity) end.
  unfold write_count. cbn -[Z.ltb to_be]. lens. zdecide.
  match goal with |- context [max <? zlen ?l] =>
    assert (Hout : zlen l <= 282) by (unfold write_u16; lens; lia) end.
  zdecide. eauto.
Qed.

(** Parsing a message equal to the one [query_encode] builds. *)
Lemma query_parse_message q bs limits :
  query_ok q -> parse_with_limits bs limits = Ok (query_message q) ->
  query_parse bs limits = Ok q.
Proof.
  intros (_ & _ & Hc & Hr & Ht) E. unfold query_parse. rewrite E.
  cbn -[name_is_root]. rewrite Hc, Hr. rewrite bool_decide_eq_false_2 by done.
  by destruct q.
Qed.

Lemma query_roundtrip q max :
  query_ok q -> 282 <= max ->
  exists bs, query_encode q max = Ok bs /\ zlen bs <= 282 /\
             query_parse bs limits_requester = Ok q.
Proof.
  intros Hq Hmax. destruct (query_encodes q max Hq Hmax) as (bs & E & Hz).
  exists bs. split_and!; [done..|]. apply query_parse_message; [done|].
  apply (message_roundtrip limits_requester _ max); try done; try (simpl; width_lia);
    [by apply query_message_ok|].
  constructor; [|done]. intros rb Erb. simpl in Erb. by injection Erb as <-.
Qed.

Lemma query_parse_ok bs limits q : bytes_ok bs -> query_parse bs limits = Ok q -> query_ok q.
Proof.
  intros Hb E. unfold query_parse in E.
  destruct (parse_with_limits bs limits) as [m|] eqn:Em; [|done].
  apply parse_message_sound in Em as [[Hid _ _ _ _ _ _ _ _ Hqs _ _] _]; [|done].
  case_match; [done|]. destruct (msg_questions m) as [|question rest]; [done|]. cbn [head ok_or] in E.
  case_match eqn:Eg; [done|]. breflect. do 2 (case_match; [done|]). simplify_eq.
  inversion Hqs; subst. split_and!; simpl; done.
Qed.

(** A query built by [Query::new] from a valid name and type encodes within
    any limit of at least 282 bytes, and the strict query parser reads the
    bytes back to the same query. *)
Theorem query_wire_roundtrip id name record_type q max :
  in_u16 id -> name_ok name -> type_ok record_type -> 282 <= max ->
  query_new id name record_type = Ok q ->
  exists bs, query_encode q max = Ok bs /\ zlen bs <= 282 /\
             query_parse bs limits_requester = Ok q.
Proof.
  intros Hid Hn Ht Hmax E. apply query_roundtrip; [|done]. unfold query_new in E.
  case_match; [done|]. breflect. simplify_eq. split_and!; simpl; done.
Qed.

Lemma query_wire_roundtrip_witness :
  exists bs, query_encode {| query_id := 7; query_question :=
      {| q_name := {| name_labels := [[104; 110; 115]] |}; q_type := Tlsa; q_class := 1 |} |} 512
    = Ok bs /\ zlen bs <= 282 /\
    query_parse bs limits_requester = Ok {| query_id := 7; query_question :=
      {| q_name := {| name_labels := [[104; 110; 115]] |}; q_type := Tlsa; q_class := 1 |} |}.
Proof.
  apply (query_wire_roundtrip 7 {| name_labels := [[104; 110; 115]] |} Tlsa); try done; try width_lia.
  split; [|done]. repeat constructor; done.
Defined.

(** Whatever query the strict parser accepts is re-encoded by the engine
    in at most 282 bytes to a query it accepts and reads back unchanged, so a
    requester's flags, EDNS options and name compression never leave it. *)
Theorem query_normalises wire limits q max :
  bytes_ok wire -> 282 <= max -> query_parse wire limits = Ok q ->
  exists bs, query_encode q max = Ok bs /\ zlen bs <= 282 /\
             query_parse bs limits_requester = Ok q.
Proof. intros Hb Hmax E. apply query_roundtrip; [by eapply query_parse_ok|done]. Qed.

(** A recursive query for [hns. TLSA] without EDNS. *)
Definition sample_query : list Z :=
  [0; 7; 1; 0; 0; 1; 0; 0; 0; 0; 0; 0; 3; 72; 110; 115; 0; 0; 52; 0; 1].

Lemma query_normalises_witness :
  exists q bs, query_parse sample_query limits_requester = Ok q /\ query_encode q 512 = Ok bs /\
    bs <> sample_query /\ query_parse bs limits_requester = Ok q.
Proof.
  destruct (query_parse sample_query limits_requester) as [q|] eqn:E;
    [|vm_compute in E; discriminate E].
  assert (Hb : bytes_ok sample_query) by (repeat constructor; width_lia).
  destruct (query_normalises sample_query limits_requester q 512 Hb ltac:(lia) E)
    as (bs & E1 & _ & E2).
  exists q, bs. split_and!; [reflexivity|exact E1| |exact E2].
  vm_compute in E. injection E as <-. vm_compute in E1. injection E1 as <-. discriminate.
Defined.

(** A response correlates with a query exactly when it is a complete
    standard response with the query's identifier and its one question, so it
    correlates with at most one query; the AD bit it reports is the sender's. *)
Theorem correlation_identifies_query q response :
  (is_ok (query_correlate q response) = true <->
   let h := msg_header response in
   is_response (hdr_flags h) = true /\ hdr_id h = query_id q /\ opcode (hdr_flags h) = 0 /\
   flag_truncated (hdr_flags h) = false /\ msg_questions response = [query_question q]) /\
  (forall c, query_correlate q response = Ok c ->
     cor_message c = response /\
     cor_untrusted_ad_claim c = authenticated_data_claim (hdr_flags (msg_header response))) /\
  (forall q', is_ok (query_correlate q response) = true ->
     is_ok (query_correlate q' response) = true -> q' = q).
Proof.
  assert (forall q, is_ok (query_correlate q response) = true <->
    let h := msg_header response in
    is_response (hdr_flags h) = true /\ hdr_id h = query_id q /\ opcode (hdr_flags h) = 0 /\
    flag_truncated (hdr_flags h) = false /\ msg_questions response = [query_question q]) as Hiff.
  { intros q0. unfold query_correlate. cbn zeta.
    destruct (decide (msg_questions response = [query_question q0])) as [Hq|Hq];
      [rewrite bool_decide_eq_false_2 by (by intros ?) | rewrite bool_decide_eq_true_2 by done];
      destruct (is_response _), (hdr_id _ =? query_id q0) eqn:E1, (opcode _ =? 0) eqn:E2,
        (flag_truncated _); simpl; breflect; naive_solver. }
  split_and!; [apply Hiff| |].
  - intros c E. unfold query_correlate in E. do 5 (case_match; [done|]).
    by injection E as <-.
  - intros q' H1 H2. apply Hiff in H1 as (_ & Hid & _ & _ & Hq), H2 as (_ & Hid' & _ & _ & Hq').
    destruct q, q'; simpl in *. congruence.
Qed.

Lemma correlation_identifies_query_witness :
  exists q response, message_parse sample_response = Ok response /\
    is_ok (query_correlate q response) = true /\
    forall q', is_ok (query_correlate q' response) = true -> q' = q.
Proof.
  exists {| query_id := 0x1234; query_question :=
    {| q_name := {| name_labels := [[97]] |}; q_type := Mx; q_class := 1 |} |}.
  destruct (message_parse sample_response) as [m|] eqn:E; [|vm_compute in E; discriminate E].
  exists m. vm_compute in E. injection E as <-.
  split; [reflexivity|]. split; [vm_compute; reflexivity|].
  intros q' Hq'. eapply (proj2 (proj2 (correlation_identifies_query _ _))); [|exact Hq'].
  vm_compute. reflexivity.
Defined.
