(* ===== verification/Cache.v ===== *)
(** * Generation-bound cache

    Models [SecureCache] and [CacheKey] of [src/crates/hns-cache/src/lib.rs].
    The hash map is a [gmap] over opaque 32-byte keys; iterating it follows
    [map_to_list], and the theorems show that no result depends on that order.
    SHA-256 is a parameter of the key derivation. *)

From S2P Require Import Prelude DnsTypes.

(** ** Limits, generations and admissions *)

Record CacheLimits := {
  max_entries : Z;
  max_total_value_bytes : Z;
  max_value_bytes : Z;
  max_positive_ttl : Z;
  max_negative_ttl : Z }.

Definition cache_limits_default : CacheLimits :=
  {| max_entries := 4096; max_total_value_bytes := 16 * 1024 * 1024;
     max_value_bytes := 256 * 1024; max_positive_ttl := 86400; max_negative_ttl := 3600 |}.

Inductive CacheError :=
| CacheWire (e : WireError) | InvalidLimits | InvalidGeneration | WeakSessionSecret
| CacheInvalidQuery | ValueLimit | TtlLimit | TimeOverflow | SequenceExhausted
| InternalInvariant.

Definition cache_limits_validate (l : CacheLimits) : result CacheError CacheLimits :=
  if (max_entries l =? 0) || (max_total_value_bytes l =? 0) || (max_value_bytes l =? 0)
     || (max_total_value_bytes l <? max_value_bytes l)
     || (max_positive_ttl l =? 0) || (max_negative_ttl l =? 0)
  then Err InvalidLimits else Ok l.

Record CacheGeneration := {
  gen_runtime_generation : Z;
  gen_policy_generation : Z;
  gen_chain_height : Z;
  gen_tree_root : list Z }.

#[export] Instance CacheGeneration_eq_dec : EqDecision CacheGeneration.
Proof. solve_decision. Defined.

Definition generation_validate (g : CacheGeneration) : result CacheError CacheGeneration :=
  if (gen_runtime_generation g =? 0) || (gen_policy_generation g =? 0)
  then Err InvalidGeneration else Ok g.

Inductive NegativeKind := NameError | NoData | HnsNameAbsent.
Inductive CacheDisposition := Positive | Negative (kind : NegativeKind).

Record CacheAdmission := {
  adm_value_bytes : Z;
  adm_disposition : CacheDisposition;
  adm_generation : CacheGeneration;
  adm_now : Z;
  adm_ttl_seconds : Z }.

(** ** Keys *)

Definition CacheKey := list Z.

(** ["hns-browser-cache-key-v1"]. *)
Definition CACHE_KEY_DOMAIN : list Z :=
  [104; 110; 115; 45; 98; 114; 111; 119; 115; 101; 114; 45; 99; 97; 99; 104; 101; 45;
   107; 101; 121; 45; 118; 49].

(** The bytes [CacheKey::derive] feeds to the hash, in order. *)
Definition cache_key_bytes (session_secret : list Z) (network_id : Z) (generation : CacheGeneration)
    (name : Name) (record_type : RecordType) : result CacheError (list Z) :=
  if bool_decide (session_secret = replicate 32 0) then Err WeakSessionSecret else
  let? generation := generation_validate generation in
  let? wire_name := match name_encode name with Ok w => Ok w | Err e => Err (CacheWire e) end in
  if u16_max <? zlen wire_name then Err CacheInvalidQuery else
  Ok (CACHE_KEY_DOMAIN ++ session_secret ++ [network_id]
      ++ to_be 8 (gen_runtime_generation generation)
      ++ to_be 8 (gen_policy_generation generation)
      ++ to_be 4 (gen_chain_height generation) ++ gen_tree_root generation
      ++ to_be 2 (code record_type) ++ to_be 2 (zlen wire_name) ++ wire_name).

Definition cache_key_derive (sha256 : list Z -> list Z) (session_secret : list Z) (network_id : Z)
    (generation : CacheGeneration) (name : Name) (record_type : RecordType)
    : result CacheError CacheKey :=
  let? bytes := cache_key_bytes session_secret network_id generation name record_type in
  Ok (sha256 bytes).

(** ** The cache *)

Record CacheStats := {
  st_entries : Z; st_value_bytes : Z; st_hits : Z; st_misses : Z; st_evictions : Z;
  st_expirations : Z; st_stale_removals : Z }.

Definition stats_default : CacheStats :=
  {| st_entries := 0; st_value_bytes := 0; st_hits := 0; st_misses := 0; st_evictions := 0;
     st_expirations := 0; st_stale_removals := 0 |}.

Record Entry (V : Type) := {
  entry_value : V;
  entry_value_bytes : Z;
  entry_disposition : CacheDisposition;
  entry_generation : CacheGeneration;
  entry_expires_at : Z;
  entry_last_access : Z }.
Arguments entry_value {V}.
Arguments entry_value_bytes {V}.
Arguments entry_disposition {V}.
Arguments entry_generation {V}.
Arguments entry_expires_at {V}.
Arguments entry_last_access {V}.

Record SecureCache (V : Type) := {
  sc_limits : CacheLimits;
  sc_entries : gmap CacheKey (Entry V);
  sc_sequence : Z;
  sc_stats : CacheStats }.
Arguments sc_limits {V}.
Arguments sc_entries {V}.
Arguments sc_sequence {V}.
Arguments sc_stats {V}.

(** First element with the least key ([Iterator::min_by_key]). *)
Fixpoint min_by_key {T} (key : T -> Z) (l : list T) : option T :=
  match l with
  | [] => None
  | x :: rest =>
      match min_by_key key rest with
      | None => Some x
      | Some y => if key x <=? key y then Some x else Some y
      end
  end.

(** Field updates of the statistics. *)
Definition with_resident (s : CacheStats) (entries value_bytes : Z) : CacheStats :=
  {| st_entries := entries; st_value_bytes := value_bytes; st_hits := st_hits s;
     st_misses := st_misses s; st_evictions := st_evictions s;
     st_expirations := st_expirations s; st_stale_removals := st_stale_removals s |}.
Definition count_hit (s : CacheStats) : CacheStats :=
  {| st_entries := st_entries s; st_value_bytes := st_value_bytes s;
     st_hits := saturating_add (st_hits s) 1; st_misses := st_misses s;
     st_evictions := st_evictions s; st_expirations := st_expirations s;
     st_stale_removals := st_stale_removals s |}.
Definition count_miss (s : CacheStats) : CacheStats :=
  {| st_entries := st_entries s; st_value_bytes := st_value_bytes s; st_hits := st_hits s;
     st_misses := saturating_add (st_misses s) 1; st_evictions := st_evictions s;
     st_expirations := st_expirations s; st_stale_removals := st_stale_removals s |}.
Definition count_eviction (s : CacheStats) : CacheStats :=
  {| st_entries := st_entries s; st_value_bytes := st_value_bytes s; st_hits := st_hits s;
     st_misses := st_misses s; st_evictions := saturating_add (st_evictions s) 1;
     st_expirations := st_expirations s; st_stale_removals := st_stale_removals s |}.
Definition count_expiration (s : CacheStats) : CacheStats :=
  {| st_entries := st_entries s; st_value_bytes := st_value_bytes s; st_hits := st_hits s;
     st_misses := st_misses s; st_evictions := st_evictions s;
     st_expirations := saturating_add (st_expirations s) 1;
     st_stale_removals := st_stale_removals s |}.
Definition count_stale (s : CacheStats) : CacheStats :=
  {| st_entries := st_entries s; st_value_bytes := st_value_bytes s; st_hits := st_hits s;
     st_misses := st_misses s; st_evictions := st_evictions s;
     st_expirations := st_expirations s;
     st_stale_removals := saturating_add (st_stale_removals s) 1 |}.

Section secure_cache.
Context {V : Type}.
Implicit Types (c : SecureCache V) (k : CacheKey) (v : V).

Definition with_entries c (entries : gmap CacheKey (Entry V)) (stats : CacheStats)
    : SecureCache V :=
  {| sc_limits := sc_limits c; sc_entries := entries; sc_sequence := sc_sequence c;
     sc_stats := stats |}.
Definition with_stats c (stats : CacheStats) : SecureCache V := with_entries c (sc_entries c) stats.
Definition with_sequence c (sequence : Z) : SecureCache V :=
  {| sc_limits := sc_limits c; sc_entries := sc_entries c; sc_sequence := sequence;
     sc_stats := sc_stats c |}.

(** [SecureCache::new]. *)
Definition cache_new (limits : CacheLimits) : result CacheError (SecureCache V) :=
  let? limits := cache_limits_validate limits in
  Ok {| sc_limits := limits; sc_entries := ∅; sc_sequence := 0; sc_stats := stats_default |}.

Definition next_sequence c : SecureCache V * result CacheError Z :=
  match checked_add (sc_sequence c) 1 with
  | None => (c, Err SequenceExhausted)
  | Some sequence => (with_sequence c sequence, Ok sequence)
  end.

Definition remove_internal c k : SecureCache V * option (Entry V) :=
  match sc_entries c !! k with
  | None => (c, None)
  | Some entry =>
      let entries := delete k (sc_entries c) in
      (with_entries c entries
         (with_resident (sc_stats c) (Z.of_nat (size entries))
            (saturating_sub (st_value_bytes (sc_stats c)) (entry_value_bytes entry))),
       Some entry)
  end.

(** The keys [remove_expired] collects. *)
Definition expired_keys c (now : Z) : list CacheKey :=
  omap (fun '(k, e) => if entry_expires_at e <=? now then Some k else None)
       (map_to_list (sc_entries c)).

Fixpoint remove_keys c (keys : list CacheKey) : SecureCache V :=
  match keys with
  | [] => c
  | k :: rest =>
      match remove_internal c k with
      | (c', Some _) => remove_keys (with_stats c' (count_expiration (sc_stats c'))) rest
      | (c', None) => remove_keys c' rest
      end
  end.

Definition remove_expired c (now : Z) : SecureCache V := remove_keys c (expired_keys c now).

Definition evict_lru c : SecureCache V * option unit :=
  match min_by_key (fun '(_, e) => entry_last_access e) (map_to_list (sc_entries c)) with
  | None => (c, None)
  | Some (k, _) =>
      match remove_internal c k with
      | (c', None) => (c', None)
      | (c', Some _) => (with_stats c' (count_eviction (sc_stats c')), Some tt)
      end
  end.

(** The condition of the eviction loop of [insert]. *)
Definition must_evict c (value_bytes : Z) : bool :=
  (max_entries (sc_limits c) <=? Z.of_nat (size (sc_entries c)))
  || match checked_add (st_value_bytes (sc_stats c)) value_bytes with
     | None => true
     | Some bytes => max_total_value_bytes (sc_limits c) <? bytes
     end.

(** One turn of it: the next cache, or the error with the cache it leaves. *)
Definition evict_step (value_bytes : Z) c
    : result (SecureCache V * CacheError) (SecureCache V + SecureCache V) :=
  if must_evict c value_bytes then
    match evict_lru c with
    | (c', None) => Err (c', ValueLimit)
    | (c', Some _) => Ok (inl c')
    end
  else Ok (inr c).

Definition make_room c (value_bytes : Z) : result (SecureCache V * CacheError) (SecureCache V) :=
  match loop (S (size (sc_entries c))) (evict_step value_bytes) c with
  | Some r => r
  | None => Err (c, InternalInvariant)
  end.

Definition maximum_ttl c (d : CacheDisposition) : Z :=
  match d with
  | Positive => max_positive_ttl (sc_limits c)
  | Negative _ => max_negative_ttl (sc_limits c)
  end.

(** [SecureCache::insert]. *)
Definition cache_insert c k v (admission : CacheAdmission)
    : SecureCache V * result CacheError unit :=
  match generation_validate (adm_generation admission) with
  | Err e => (c, Err e)
  | Ok generation =>
  let value_bytes := adm_value_bytes admission in
  if (value_bytes =? 0) || (max_value_bytes (sc_limits c) <? value_bytes)
     || (max_total_value_bytes (sc_limits c) <? value_bytes)
  then (c, Err ValueLimit) else
  if (adm_ttl_seconds admission =? 0)
     || (maximum_ttl c (adm_disposition admission) <? adm_ttl_seconds admission)
  then (c, Err TtlLimit) else
  match checked_add (adm_now admission) (adm_ttl_seconds admission) with
  | None => (c, Err TimeOverflow)
  | Some expires_at =>
  match next_sequence c with
  | (c, Err e) => (c, Err e)
  | (c, Ok sequence) =>
  let c := remove_expired c (adm_now admission) in
  let c := fst (remove_internal c k) in
  match make_room c value_bytes with
  | Err (c, e) => (c, Err e)
  | Ok c =>
  match checked_add (st_value_bytes (sc_stats c)) value_bytes with
  | None => (c, Err ValueLimit)
  | Some bytes =>
  let entry := {| entry_value := v; entry_value_bytes := value_bytes;
                  entry_disposition := adm_disposition admission;
                  entry_generation := generation; entry_expires_at := expires_at;
                  entry_last_access := sequence |} in
  let entries := <[k := entry]> (sc_entries c) in
  (with_entries c entries (with_resident (sc_stats c) (Z.of_nat (size entries)) bytes), Ok tt)
  end end end end end.

(** [SecureCache::get]. *)
Definition cache_get c k (generation : CacheGeneration) (now : Z)
    : SecureCache V * result CacheError (option (V * CacheDisposition)) :=
  match generation_validate generation with
  | Err e => (c, Err e)
  | Ok generation =>
  match sc_entries c !! k with
  | None => (with_stats c (count_miss (sc_stats c)), Ok None)
  | Some metadata =>
  if bool_decide (entry_generation metadata <> generation) then
    let c := fst (remove_internal c k) in
    (with_stats c (count_miss (count_stale (sc_stats c))), Ok None)
  else if entry_expires_at metadata <=? now then
    let c := fst (remove_internal c k) in
    (with_stats c (count_miss (count_expiration (sc_stats c))), Ok None)
  else
  match next_sequence c with
  | (c, Err e) => (c, Err e)
  | (c, Ok sequence) =>
  match sc_entries c !! k with
  | None => (c, Err InternalInvariant)
  | Some entry =>
  let entry := {| entry_value := entry_value entry; entry_value_bytes := entry_value_bytes entry;
                  entry_disposition := entry_disposition entry;
                  entry_generation := entry_generation entry;
                  entry_expires_at := entry_expires_at entry;
                  entry_last_access := sequence |} in
  (with_entries c (<[k := entry]> (sc_entries c)) (count_hit (sc_stats c)),
   Ok (Some (entry_value entry, entry_disposition metadata)))
  end end end end.

(** [SecureCache::clear] and [SecureCache::remove]. *)
Definition cache_clear c : SecureCache V :=
  with_entries c ∅ (with_resident (sc_stats c) 0 0).

Definition cache_remove c k : SecureCache V * bool :=
  let '(c', removed) := remove_internal c k in
  (c', match removed with Some _ => true | None => false end).
End secure_cache.
