(* ===== verification/CacheInv.v ===== *)
(** * The cache keeps its bounds and serves only what was inserted

    [cache_inv] relates the statistics to the entries and bounds both; every
    operation of [Cache] preserves it. The abstract cache is an unbounded map
    from key to the last accepted insertion; the real one is always a part of
    it, and what it drops is expired, stale or least recently used. *)

From S2P Require Import Prelude DnsTypes DnsParse DnsNames Cache.

Section cache_inv.
Context {V : Type}.
Implicit Types (c : SecureCache V) (k : CacheKey) (e : Entry V) (m : gmap CacheKey (Entry V)).

Definition total_bytes m : Z := map_fold (fun _ e acc => entry_value_bytes e + acc) 0 m.

Lemma total_insert m k e :
  m !! k = None -> total_bytes (<[k := e]> m) = entry_value_bytes e + total_bytes m.
Proof. intros. unfold total_bytes. rewrite map_fold_insert_L; [done|lia|done]. Qed.

Lemma total_delete m k e :
  m !! k = Some e -> total_bytes m = entry_value_bytes e + total_bytes (delete k m).
Proof. intros. unfold total_bytes. rewrite (map_fold_delete_L _ _ k e); [done|lia|done]. Qed.

Lemma total_update m k e e' :
  m !! k = Some e -> entry_value_bytes e' = entry_value_bytes e ->
  total_bytes (<[k := e']> m) = total_bytes m.
Proof.
  intros Hk He. rewrite (total_delete m k e) by done.
  rewrite <- insert_delete_eq, total_insert by apply lookup_delete_eq. by rewrite He.
Qed.

Lemma size_delete m k e : m !! k = Some e -> Z.of_nat (size m) = Z.of_nat (size (delete k m)) + 1.
Proof.
  intros Hk. rewrite map_size_delete, Hk. simpl.
  assert (size m <> 0%nat); [|lia]. intros H. apply map_size_empty_inv in H. by subst.
Qed.

Definition limits_ok (l : CacheLimits) : Prop :=
  cache_limits_validate l = Ok l /\ in_u64 (max_entries l) /\ in_u64 (max_total_value_bytes l) /\
  in_u64 (max_value_bytes l) /\ in_u32 (max_positive_ttl l) /\ in_u32 (max_negative_ttl l).

Definition entry_ok (l : CacheLimits) (sequence : Z) e : Prop :=
  1 <= entry_value_bytes e <= max_value_bytes l /\
  1 <= entry_last_access e <= sequence /\
  generation_validate (entry_generation e) = Ok (entry_generation e).

Record cache_inv c : Prop := {
  ci_limits : limits_ok (sc_limits c);
  ci_sequence : in_u64 (sc_sequence c);
  ci_entries : st_entries (sc_stats c) = Z.of_nat (size (sc_entries c));
  ci_bytes : st_value_bytes (sc_stats c) = total_bytes (sc_entries c);
  ci_max_entries : Z.of_nat (size (sc_entries c)) <= max_entries (sc_limits c);
  ci_max_bytes : total_bytes (sc_entries c) <= max_total_value_bytes (sc_limits c);
  ci_each : map_Forall (fun _ e => entry_ok (sc_limits c) (sc_sequence c) e) (sc_entries c);
  ci_distinct : forall k k' e e',
    sc_entries c !! k = Some e -> sc_entries c !! k' = Some e' ->
    entry_last_access e = entry_last_access e' -> k = k' }.

Lemma limits_pos l : limits_ok l ->
  1 <= max_entries l /\ 1 <= max_total_value_bytes l /\
  max_value_bytes l <= max_total_value_bytes l <= u64_max.
Proof.
  intros (E & ? & ? & ? & _). unfold cache_limits_validate in E. case_match; [done|].
  breflect. width_lia.
Qed.

Lemma total_nonneg l s m : map_Forall (fun _ e => entry_ok l s e) m -> 0 <= total_bytes m.
Proof.
  induction m as [|k e m Hk IH] using map_ind; intros Hm; [done|].
  apply map_Forall_insert in Hm as [(? & _) Hm]; [|done].
  rewrite total_insert by done. specialize (IH Hm). lia.
Qed.

(** Only the resident counters of the statistics are constrained. *)
Lemma inv_with_stats c s :
  cache_inv c -> st_entries s = st_entries (sc_stats c) ->
  st_value_bytes s = st_value_bytes (sc_stats c) -> cache_inv (with_stats c s).
Proof. intros [] Hs Hb. constructor; simpl; congruence || done. Qed.

Lemma new_inv limits c : limits_ok limits -> cache_new limits = Ok c -> cache_inv c.
Proof.
  intros Hl E. pose proof (limits_pos _ Hl). destruct Hl as [Hv Hl]. unfold cache_new in E.
  rewrite Hv in E. apply Ok_inj in E as <-.
  assert (total_bytes (∅ : gmap CacheKey (Entry V)) = 0) as H0 by done.
  constructor; simpl; rewrite ?H0, ?map_size_empty; try done; width_lia.
Qed.

(** ** Removal *)

Lemma delete_inv c k e stats :
  cache_inv c -> sc_entries c !! k = Some e ->
  st_entries stats = Z.of_nat (size (delete k (sc_entries c))) ->
  st_value_bytes stats = saturating_sub (st_value_bytes (sc_stats c)) (entry_value_bytes e) ->
  cache_inv (with_entries c (delete k (sc_entries c)) stats).
Proof.
  intros [Hl Hs He Hb Hn Ht Heach Hd] Hk Hse Hsb.
  pose proof (total_delete _ _ _ Hk) as Htd. pose proof (size_delete _ _ _ Hk) as Hsd.
  pose proof (map_Forall_delete _ _ k Heach) as Heach'.
  pose proof (total_nonneg _ _ _ Heach'). pose proof (map_Forall_lookup_1 _ _ _ _ Heach Hk) as Hek.
  destruct Hek as (? & _). constructor; simpl; try done; try lia.
  - rewrite Hsb, Hb. unfold saturating_sub. lia.
  - intros k1 k2 e1 e2 H1 H2. apply lookup_delete_Some in H1 as [_ H1], H2 as [_ H2]. by eapply Hd.
Qed.

Lemma remove_internal_spec c k :
  cache_inv c ->
  cache_inv (fst (remove_internal c k)) /\
  sc_entries (fst (remove_internal c k)) = delete k (sc_entries c) /\
  snd (remove_internal c k) = sc_entries c !! k /\
  sc_limits (fst (remove_internal c k)) = sc_limits c /\
  sc_sequence (fst (remove_internal c k)) = sc_sequence c.
Proof.
  intros Hi. unfold remove_internal. destruct (sc_entries c !! k) as [e|] eqn:Hk; simpl.
  - split_and!; try done. by eapply delete_inv.
  - split_and!; try done. by rewrite delete_id.
Qed.

Lemma remove_keys_spec keys c :
  cache_inv c ->
  cache_inv (remove_keys c keys) /\
  (forall k, sc_entries (remove_keys c keys) !! k
             = if bool_decide (k ∈ keys) then None else sc_entries c !! k) /\
  sc_limits (remove_keys c keys) = sc_limits c /\
  sc_sequence (remove_keys c keys) = sc_sequence c.
Proof.
  revert c. induction keys as [|k keys IH]; intros c Hi; simpl.
  { split_and!; try done. }
  destruct (remove_internal_spec c k Hi) as (Hi' & He' & Hr' & Hl' & Hs').
  destruct (remove_internal c k) as [c' [e|]] eqn:E; simpl in *;
    [specialize (IH (with_stats c' (count_expiration (sc_stats c')))
                   ltac:(by apply inv_with_stats))|specialize (IH c' Hi')];
    destruct IH as (IH1 & IH2 & IH3 & IH4); simpl in *; split_and!; try done; try congruence;
    intros k'; rewrite IH2, He'; repeat case_bool_decide; try done;
    destruct (decide (k' = k)) as [->|]; rewrite ?lookup_delete_eq, ?lookup_delete_ne by done;
    set_solver.
Qed.

Lemma expired_keys_spec c now k :
  k ∈ expired_keys c now <-> exists e, sc_entries c !! k = Some e /\ entry_expires_at e <= now.
Proof.
  unfold expired_keys. rewrite list_elem_of_omap. split.
  - intros ([k' e] & Hin & E). apply elem_of_map_to_list in Hin.
    destruct (entry_expires_at e <=? now) eqn:Ee; simplify_eq. breflect. eauto.
  - intros (e & Hk & Hn). exists (k, e). split; [by apply elem_of_map_to_list|].
    by rewrite (proj2 (Z.leb_le _ _)).
Qed.

(** Entries that have not expired at [now]. *)
Definition live (now : Z) m : gmap CacheKey (Entry V) :=
  filter (fun ke => now < entry_expires_at ke.2) m.

Lemma remove_expired_spec c now :
  cache_inv c ->
  cache_inv (remove_expired c now) /\
  sc_entries (remove_expired c now) = live now (sc_entries c) /\
  sc_limits (remove_expired c now) = sc_limits c /\
  sc_sequence (remove_expired c now) = sc_sequence c.
Proof.
  intros Hi. destruct (remove_keys_spec (expired_keys c now) c Hi) as (H1 & H2 & H3 & H4).
  unfold remove_expired. split_and!; try done. apply map_eq. intros k. rewrite H2. unfold live.
  case_bool_decide as Hk; rewrite expired_keys_spec in Hk; symmetry.
  - destruct Hk as (e & Hk & He). apply map_lookup_filter_None. right.
    intros e' He'. simplify_eq/=. lia.
  - destruct (sc_entries c !! k) as [e|] eqn:Ee.
    + apply map_lookup_filter_Some. split; [done|]. simpl.
      destruct (decide (now < entry_expires_at e)); [done|]. exfalso. apply Hk. exists e. auto with lia.
    + apply map_lookup_filter_None. by left.
Qed.

(** ** Eviction *)

Lemma min_by_key_spec {T} (f : T -> Z) l x :
  min_by_key f l = Some x -> x ∈ l /\ forall y, y ∈ l -> f x <= f y.
Proof.
  revert x. induction l as [|y l IH]; intros x E; simpl in E; [done|].
  destruct (min_by_key f l) as [z|] eqn:Ez.
  - destruct (IH z eq_refl) as [Hz Hmin].
    destruct (f y <=? f z) eqn:Ef; simplify_eq; breflect; (split; [set_solver|]);
      intros w Hw; apply elem_of_cons in Hw as [->|Hw]; try lia; specialize (Hmin w Hw); lia.
  - destruct l as [|w l]; [|simpl in Ez; by repeat case_match].
    simplify_eq. split; [set_solver|]. intros w Hw. apply list_elem_of_singleton in Hw as ->. lia.
Qed.

(** [m'] is what remains of [m] after dropping least recently used entries. *)
Definition lru_kept m m' : Prop :=
  m' ⊆ m /\
  forall k e k' e', m !! k = Some e -> m' !! k = None -> m' !! k' = Some e' ->
    entry_last_access e < entry_last_access e'.

Lemma lru_kept_refl m : lru_kept m m.
Proof. split; [done|]. intros. congruence. Qed.

Lemma lru_kept_trans m m1 m2 : lru_kept m m1 -> lru_kept m1 m2 -> lru_kept m m2.
Proof.
  intros [Hs1 H1] [Hs2 H2]. split; [by etrans|]. intros k e k' e' Hk Hn Hk'.
  destruct (m1 !! k) as [e1|] eqn:E1.
  - assert (e1 = e) as -> by (eapply lookup_weaken in E1; [|done]; congruence). by eapply H2.
  - eapply H1; [done..|]. by eapply lookup_weaken.
Qed.

(** The victim is the one entry with the least access number. *)
Lemma evict_lru_spec c :
  cache_inv c -> sc_entries c <> ∅ ->
  exists c', evict_lru c = (c', Some tt) /\ cache_inv c' /\
    lru_kept (sc_entries c) (sc_entries c') /\
    Z.of_nat (size (sc_entries c')) = Z.of_nat (size (sc_entries c)) - 1 /\
    sc_limits c' = sc_limits c /\ sc_sequence c' = sc_sequence c.
Proof.
  intros Hi Hne. unfold evict_lru.
  destruct (min_by_key _ (map_to_list (sc_entries c))) as [[k e]|] eqn:Emin.
  2: { exfalso. apply Hne, map_to_list_empty_iff. 
       destruct (map_to_list (sc_entries c)) as [|x l]; [done|]. simpl in Emin. by repeat case_match. }
  apply min_by_key_spec in Emin as [Hin Hmin]. apply elem_of_map_to_list in Hin.
  destruct (remove_internal_spec c k Hi) as (Hi' & He' & Hr' & Hl' & Hs').
  destruct (remove_internal c k) as [c' r] eqn:E. simpl in *. rewrite Hr', Hin.
  eexists. split_and!; [done|by apply inv_with_stats|..]; simpl; try done.
  - rewrite He'. split; [apply delete_subseteq|]. intros k1 e1 k2 e2 H1 H2 H3.
    apply lookup_delete_Some in H3 as [Hne' H3].
    apply lookup_delete_None in H2 as [<-|H2]; [|congruence].
    assert (e1 = e) as -> by congruence.
    specialize (Hmin (k2, e2)). simpl in Hmin. 
    assert (entry_last_access e <> entry_last_access e2).
    { intros Heq. apply Hne'. by eapply (ci_distinct c Hi). }
    assert (entry_last_access e <= entry_last_access e2)
      by (apply Hmin; by apply elem_of_map_to_list). lia.
  - rewrite He'. rewrite (size_delete _ _ _ Hin). lia.
Qed.

Lemma must_evict_false c vb :
  cache_inv c -> must_evict c vb = false ->
  Z.of_nat (size (sc_entries c)) < max_entries (sc_limits c) /\
  total_bytes (sc_entries c) + vb <= max_total_value_bytes (sc_limits c) /\
  checked_add (st_value_bytes (sc_stats c)) vb = Some (total_bytes (sc_entries c) + vb).
Proof.
  intros Hi E. rewrite <- (ci_bytes _ Hi). unfold must_evict in E. breflect.
  destruct (checked_add _ vb) as [b|] eqn:Ec; [|done]. breflect.
  apply checked_add_Some in Ec as [-> ?]. split_and!; done || lia.
Qed.

Lemma make_room_loop c vb fuel :
  cache_inv c -> 1 <= vb <= max_total_value_bytes (sc_limits c) ->
  (size (sc_entries c) < fuel)%nat ->
  exists c', loop fuel (evict_step vb) c = Some (Ok c') /\ cache_inv c' /\
    must_evict c' vb = false /\ lru_kept (sc_entries c) (sc_entries c') /\
    sc_limits c' = sc_limits c /\ sc_sequence c' = sc_sequence c.
Proof.
  revert c. induction fuel as [|fuel IH]; intros c Hi Hvb Hf; [lia|]. simpl. unfold evict_step at 1.
  destruct (must_evict c vb) eqn:Em.
  2: { exists c. split_and!; try done. apply lru_kept_refl. }
  destruct (decide (sc_entries c = ∅)) as [Hempty|Hne].
  - exfalso. pose proof (limits_pos _ (ci_limits _ Hi)) as (? & ? & ?).
    pose proof (ci_bytes _ Hi) as Hb. rewrite Hempty in Hb.
    unfold must_evict in Em. rewrite Hempty, map_size_empty, Hb in Em.
    change (total_bytes ∅) with 0 in Em. revert Em. zdecide. by intros.
  - destruct (evict_lru_spec c Hi Hne) as (c' & -> & Hi' & Hk & Hsz & Hl & Hs).
    destruct (IH c') as (c'' & -> & Hi'' & Hm & Hk' & Hl' & Hs'); [done|by rewrite Hl|lia|].
    exists c''. split_and!; try done; try congruence. by eapply lru_kept_trans.
Qed.

Lemma make_room_spec c vb :
  cache_inv c -> 1 <= vb <= max_total_value_bytes (sc_limits c) ->
  exists c', make_room c vb = Ok c' /\ cache_inv c' /\
    must_evict c' vb = false /\ lru_kept (sc_entries c) (sc_entries c') /\
    sc_limits c' = sc_limits c /\ sc_sequence c' = sc_sequence c.
Proof.
  intros Hi Hvb. destruct (make_room_loop c vb (S (size (sc_entries c))) Hi Hvb) as (c' & E & H);
    [lia|]. exists c'. unfold make_room. by rewrite E.
Qed.

(** ** Insertion *)

(** The guards of [insert]. *)
Definition admissible c (a : CacheAdmission) : Prop :=
  generation_validate (adm_generation a) = Ok (adm_generation a) /\
  adm_value_bytes a <> 0 /\ adm_value_bytes a <= max_value_bytes (sc_limits c) /\
  adm_value_bytes a <= max_total_value_bytes (sc_limits c) /\
  adm_ttl_seconds a <> 0 /\ adm_ttl_seconds a <= maximum_ttl c (adm_disposition a) /\
  adm_now a + adm_ttl_seconds a <= u64_max /\ sc_sequence c < u64_max.

Definition admission_width (a : CacheAdmission) : Prop :=
  in_u64 (adm_value_bytes a) /\ in_u64 (adm_now a) /\ in_u32 (adm_ttl_seconds a).

Definition admitted_entry c (v : V) (a : CacheAdmission) : Entry V :=
  {| entry_value := v; entry_value_bytes := adm_value_bytes a;
     entry_disposition := adm_disposition a; entry_generation := adm_generation a;
     entry_expires_at := adm_now a + adm_ttl_seconds a;
     entry_last_access := sc_sequence c + 1 |}.

Lemma inv_insert c k e stats :
  cache_inv c -> sc_entries c !! k = None ->
  entry_ok (sc_limits c) (sc_sequence c) e -> must_evict c (entry_value_bytes e) = false ->
  (forall k' e', sc_entries c !! k' = Some e' -> entry_last_access e' <> entry_last_access e) ->
  st_entries stats = Z.of_nat (size (<[k := e]> (sc_entries c))) ->
  st_value_bytes stats = total_bytes (sc_entries c) + entry_value_bytes e ->
  cache_inv (with_entries c (<[k := e]> (sc_entries c)) stats).
Proof.
  intros Hi Hk He Hm Hd Hs1 Hs2. destruct (must_evict_false _ _ Hi Hm) as (Hn & Ht & _).
  destruct Hi as [? ? ? ? ? ? Heach Hdist].
  constructor; simpl; try done.
  - rewrite total_insert by done. lia.
  - rewrite map_size_insert_None by done. lia.
  - rewrite total_insert by done. lia.
  - by apply map_Forall_insert_2.
  - intros k1 k2 e1 e2 H1 H2 Heq. apply lookup_insert_Some in H1, H2.
    destruct H1 as [[<- <-]|[? H1]], H2 as [[<- <-]|[? H2]]; try done.
    + by apply Hd in H2.
    + by apply Hd in H1.
    + by eapply Hdist.
Qed.

(** A guard that fails leaves the cache untouched. *)
Lemma insert_rejected c k v a : ~ admissible c a ->
  exists err, cache_insert c k v a = (c, Err err).
Proof.
  intros Hn. unfold cache_insert, next_sequence.
  destruct (generation_validate _) as [g|] eqn:Eg; [|eauto].
  assert (g = adm_generation a) as -> by (unfold generation_validate in Eg; by case_match; simplify_eq).
  case_match eqn:Ev; [eauto|]. case_match eqn:Et; [eauto|].
  destruct (checked_add (adm_now a) _) as [x|] eqn:Ex; [|eauto].
  destruct (checked_add (sc_sequence c) 1) as [q|] eqn:Eq; [|eauto].
  apply checked_add_Some in Ex, Eq. breflect. exfalso. apply Hn. unfold admissible. split_and!; done || lia.
Qed.

Lemma entry_ok_later l s s' e : entry_ok l s e -> s <= s' -> entry_ok l s' e.
Proof. intros (? & ? & ?) ?. split_and!; done || lia. Qed.

Lemma inv_with_sequence c s :
  cache_inv c -> sc_sequence c <= s <= u64_max -> cache_inv (with_sequence c s).
Proof.
  intros [? Hs ? ? ? ? Heach ?] Hle. constructor; simpl; try done; [width_lia|].
  eapply map_Forall_impl; [done|]. intros ? e He.
  apply (entry_ok_later _ _ _ _ He). lia.
Qed.

(** Otherwise the value is stored: expired entries go, then the previous value
    of the key, then least recently used entries until it fits. *)
Lemma insert_admitted c k v a :
  cache_inv c -> admissible c a -> admission_width a ->
  exists c' kept, cache_insert c k v a = (c', Ok tt) /\ cache_inv c' /\
    lru_kept (delete k (live (adm_now a) (sc_entries c))) kept /\
    sc_entries c' = <[k := admitted_entry c v a]> kept /\
    sc_limits c' = sc_limits c /\ sc_sequence c' = sc_sequence c + 1.
Proof.
  intros Hi (Hg & Hv0 & Hv1 & Hv2 & Ht0 & Ht1 & Hx & Hs) (Hw1 & Hw2 & Hw3).
  pose proof (ci_sequence _ Hi) as Hseq.
  unfold cache_insert, next_sequence. rewrite Hg. zdecide.
  assert (Hi1 : cache_inv (with_sequence c (sc_sequence c + 1)))
    by (apply inv_with_sequence; [done|lia]).
  destruct (remove_expired_spec _ (adm_now a) Hi1) as (Hi2 & He2 & Hl2 & Hs2).
  set (c2 := remove_expired _ _) in *.
  destruct (remove_internal_spec c2 k Hi2) as (Hi3 & He3 & _ & Hl3 & Hs3).
  set (c3 := fst _) in *. rewrite He2 in He3. rewrite Hl2 in Hl3. rewrite Hs2 in Hs3. simpl in *.
  destruct (make_room_spec c3 (adm_value_bytes a)) as (c4 & E4 & Hi4 & Hm4 & Hk4 & Hl4 & Hs4);
    [done|rewrite Hl3; width_lia|].
  rewrite E4. destruct (must_evict_false _ _ Hi4 Hm4) as (_ & _ & ->).
  rewrite He3 in Hk4. rewrite Hl3 in Hl4. rewrite Hs3 in Hs4.
  assert (Hold : forall k' e', sc_entries c4 !! k' = Some e' -> entry_last_access e' <= sc_sequence c).
  { intros k' e' Hk'. eapply lookup_weaken in Hk'; [|apply Hk4].
    apply lookup_delete_Some in Hk' as [_ Hk']. apply map_lookup_filter_Some in Hk' as [Hk' _].
    apply (map_Forall_lookup_1 _ _ _ _ (ci_each _ Hi)) in Hk'. apply Hk'. }
  eexists _, (sc_entries c4). split_and!; [done| |done|done|done|done].
  apply (inv_insert c4 k (admitted_entry c v a)); simpl; try done.
  - destruct Hk4 as [Hsub _]. destruct (sc_entries c4 !! k) eqn:Ek; [|done].
    eapply lookup_weaken in Ek; [|done]. by rewrite lookup_delete_eq in Ek.
  - rewrite Hl4, Hs4. split_and!; simpl; try done; width_lia.
  - intros k' e' Hk'. apply Hold in Hk'. lia.
Qed.

(** ** Reading *)

Definition touched (e : Entry V) (sequence : Z) : Entry V :=
  {| entry_value := entry_value e; entry_value_bytes := entry_value_bytes e;
     entry_disposition := entry_disposition e; entry_generation := entry_generation e;
     entry_expires_at := entry_expires_at e; entry_last_access := sequence |}.

(** A readable entry: current generation, not expired. *)
Definition current e (g : CacheGeneration) (now : Z) : Prop :=
  entry_generation e = g /\ now < entry_expires_at e.

Lemma touch_inv c k e stats :
  cache_inv c -> sc_entries c !! k = Some e -> sc_sequence c < u64_max ->
  st_entries stats = st_entries (sc_stats c) ->
  st_value_bytes stats = st_value_bytes (sc_stats c) ->
  cache_inv (with_entries (with_sequence c (sc_sequence c + 1))
    (<[k := touched e (sc_sequence c + 1)]> (sc_entries c)) stats).
Proof.
  intros Hi Hk Hs He Hb. pose proof (ci_sequence _ Hi) as Hseq.
  assert (Hi' : cache_inv (with_sequence c (sc_sequence c + 1)))
    by (apply inv_with_sequence; [done|lia]).
  destruct Hi' as [Hl ? He' Hb' Hn Ht Heach Hdist]. simpl in *.
  assert (Hnew : forall k' e', sc_entries c !! k' = Some e' -> entry_last_access e' < sc_sequence c + 1).
  { intros k' e' Hk'. apply (map_Forall_lookup_1 _ _ _ _ (ci_each _ Hi)) in Hk' as (_ & ? & _). lia. }
  pose proof (map_Forall_lookup_1 _ _ _ _ Heach Hk) as (? & ? & ?).
  constructor; simpl; rewrite ?(total_update _ _ _ (touched e (sc_sequence c + 1)) Hk eq_refl),
    ?map_size_insert_Some by eauto; try done; try congruence.
  - apply map_Forall_insert_2; [|done]. split_and!; simpl; done || lia.
  - intros k1 k2 e1 e2 H1' H2' Heq. apply lookup_insert_Some in H1', H2'.
    destruct H1' as [[<- <-]|[? H1']], H2' as [[<- <-]|[? H2']]; simpl in *; try done.
    + apply Hnew in H2'. lia.
    + apply Hnew in H1'. lia.
    + by eapply Hdist.
Qed.

(** Every outcome of [get], with the entries it leaves. *)
Lemma get_cases c k g now :
  cache_inv c ->
  let r := cache_get c k g now in
  cache_inv (fst r) /\ sc_limits (fst r) = sc_limits c /\
  ((exists err, snd r = Err err /\ fst r = c) \/
   (snd r = Ok None /\ sc_entries (fst r) = delete k (sc_entries c) /\
    forall e, sc_entries c !! k = Some e -> ~ current e g now) \/
   (exists e, sc_entries c !! k = Some e /\ current e g now /\
    snd r = Ok (Some (entry_value e, entry_disposition e)) /\
    sc_entries (fst r) = <[k := touched e (sc_sequence c + 1)]> (sc_entries c))).
Proof.
  intros Hi r. subst r. unfold cache_get, next_sequence.
  destruct (generation_validate g) as [g'|] eqn:Eg; [|simpl; eauto 6].
  assert (g' = g) as -> by (unfold generation_validate in Eg; by case_match; simplify_eq).
  destruct (sc_entries c !! k) as [e|] eqn:Ek; simpl.
  2: { split; [by apply inv_with_stats|]. split; [done|]. right; left.
       split_and!; [done|by rewrite delete_id|done]. }
  destruct (remove_internal_spec c k Hi) as (Hi' & He' & _ & Hl' & _).
  case_bool_decide as Hgen; [|case_match eqn:Ex]; simpl.
  1,2: split; [by apply inv_with_stats|]; split; [done|]; right; left; split_and!; [done..|];
       intros e' He'' [Hc1 Hc2]; simplify_eq; breflect; done || lia.
  destruct (checked_add (sc_sequence c) 1) as [q|] eqn:Eq; simpl; [|eauto 6].
  apply checked_add_Some in Eq as [-> Hq]. rewrite Ek. breflect. simpl.
  split; [apply touch_inv; done || lia|]. split; [done|]. right; right. exists e.
  split_and!; done.
Qed.

Lemma clear_inv c : cache_inv c -> cache_inv (cache_clear c).
Proof.
  intros [Hl Hs _ _ _ _ _ _]. pose proof (limits_pos _ Hl).
  assert (total_bytes (∅ : gmap CacheKey (Entry V)) = 0) as H0 by done.
  constructor; simpl; rewrite ?H0, ?map_size_empty; try done; width_lia.
Qed.

(** ** Runs and the abstract cache *)

Inductive cache_op :=
| OpInsert (k : CacheKey) (v : V) (a : CacheAdmission)
| OpGet (k : CacheKey) (g : CacheGeneration) (now : Z)
| OpClear
| OpRemove (k : CacheKey).

Definition cache_apply c (op : cache_op) : SecureCache V :=
  match op with
  | OpInsert k v a => fst (cache_insert c k v a)
  | OpGet k g now => fst (cache_get c k g now)
  | OpClear => cache_clear c
  | OpRemove k => fst (cache_remove c k)
  end.

Definition op_width (op : cache_op) : Prop :=
  match op with OpInsert _ _ a => admission_width a | _ => True end.

(** The abstract cache: key to value, disposition, generation and expiry of
    the last accepted insertion. It never evicts and never expires. *)
Definition abstract_value : Type := V * CacheDisposition * CacheGeneration * Z.

Definition abstract_entry e : abstract_value :=
  (entry_value e, entry_disposition e, entry_generation e, entry_expires_at e).

Definition abstract_apply c (s : gmap CacheKey abstract_value) (op : cache_op) : gmap CacheKey abstract_value :=
  match op with
  | OpInsert k v a =>
      if is_ok (snd (cache_insert c k v a))
      then <[k := (v, adm_disposition a, adm_generation a, adm_now a + adm_ttl_seconds a)]> s
      else s
  | OpGet _ _ _ => s
  | OpClear => ∅
  | OpRemove k => delete k s
  end.

Definition run_op (cs : SecureCache V * gmap CacheKey abstract_value) (op : cache_op)
    : SecureCache V * gmap CacheKey abstract_value :=
  (cache_apply cs.1 op, abstract_apply cs.1 cs.2 op).

Definition run_cache (limits : CacheLimits) (ops : list cache_op)
    : result CacheError (SecureCache V * gmap CacheKey abstract_value) :=
  let? fresh := cache_new limits in
  Ok (fold_left run_op ops (fresh, ∅)).

(** The real cache is a part of the abstract one. *)
Definition refines c (s : gmap CacheKey abstract_value) : Prop :=
  forall k e, sc_entries c !! k = Some e -> s !! k = Some (abstract_entry e).

Definition cache_rel (limits : CacheLimits) (cs : SecureCache V * gmap CacheKey abstract_value)
    : Prop :=
  cache_inv cs.1 /\ sc_limits cs.1 = limits /\ refines cs.1 cs.2.

Lemma admissible_dec c a : {admissible c a} + {~ admissible c a}.
Proof.
  unfold admissible.
  destruct (generation_validate (adm_generation a)) as [g|] eqn:Eg; [|right; naive_solver].
  assert (g = adm_generation a) as -> by (unfold generation_validate in Eg; by case_match; simplify_eq).
  match goal with |- {_ /\ ?P} + {_} => destruct (decide P) as [H|H] end; [left|right]; naive_solver.
Qed.

Lemma rel_step limits cs op :
  cache_rel limits cs -> op_width op -> cache_rel limits (run_op cs op).
Proof.
  destruct cs as [c s]. intros (Hi & Hlim & Hr) Hw. unfold cache_rel, run_op. simpl in *.
  destruct op as [k v a|k g now| |k]; simpl.
  - destruct (admissible_dec c a) as [Ha|Ha].
    + destruct (insert_admitted c k v a Hi Ha Hw) as (c' & kept & -> & Hi' & [Hsub _] & He & Hl' & _).
      simpl. split_and!; [done|congruence|]. intros k' e. rewrite He, lookup_insert_Some.
      intros [[<- <-]|[Hne Hk']]; [by rewrite lookup_insert_eq|].
      rewrite lookup_insert_ne by done. apply Hr. eapply lookup_weaken in Hk'; [|done].
      apply lookup_delete_Some in Hk' as [_ Hk']. by apply map_lookup_filter_Some in Hk' as [? _].
    + by destruct (insert_rejected c k v a Ha) as [err ->].
  - destruct (get_cases c k g now Hi) as (Hi' & Hl' & Hcases). split_and!; [done|congruence|].
    intros k' e Hk'. destruct Hcases as [(err & _ & Hc)|[(_ & He & _)|(e0 & Hk & _ & _ & He)]].
    + rewrite Hc in Hk'. by apply Hr.
    + rewrite He in Hk'. apply lookup_delete_Some in Hk' as [_ Hk']. by apply Hr.
    + rewrite He in Hk'. apply lookup_insert_Some in Hk' as [[<- <-]|[_ Hk']];
        [by apply (Hr k e0)|by apply Hr].
  - split_and!; [by apply clear_inv|done|]. intros k e Hk. simpl in Hk. by rewrite lookup_empty in Hk.
  - unfold cache_remove. destruct (remove_internal_spec c k Hi) as (Hi' & He' & _ & Hl' & _).
    destruct (remove_internal c k) as [c' r]. simpl in *. split_and!; [done|congruence|].
    intros k' e. rewrite He', lookup_delete_Some. intros [Hne Hk'].
    rewrite lookup_delete_ne by done. by apply Hr.
Qed.

Lemma run_rel limits ops cs :
  limits_ok limits -> Forall op_width ops -> run_cache limits ops = Ok cs ->
  cache_rel limits cs.
Proof.
  intros Hl Hw E. unfold run_cache in E. destruct (cache_new limits) as [c|] eqn:En; [|done].
  apply Ok_inj in E as <-.
  assert (cache_rel limits (c, ∅)) as Hrel.
  { split; [by eapply new_inv|]. unfold cache_new in En. rewrite (proj1 Hl) in En.
    apply Ok_inj in En as <-. split; [done|]. intros k e Hk. simpl in Hk.
    by rewrite lookup_empty in Hk. }
  clear En. revert Hrel. generalize (c, ∅ : gmap CacheKey abstract_value).
  induction Hw as [|op ops Hop _ IH]; intros cs Hrel; simpl; [done|].
  apply IH. by apply rel_step.
Qed.

(** Whatever operations are performed on a new cache, its statistics count
    its entries and bytes exactly, both stay within the configured bounds, no
    entry is empty or oversized, and no two entries share an access number. *)
Theorem cache_bounds_hold limits ops c s :
  limits_ok limits -> Forall op_width ops -> run_cache limits ops = Ok (c, s) ->
  st_entries (sc_stats c) = Z.of_nat (size (sc_entries c)) /\
  st_entries (sc_stats c) <= max_entries limits /\
  st_value_bytes (sc_stats c) = total_bytes (sc_entries c) /\
  st_value_bytes (sc_stats c) <= max_total_value_bytes limits /\
  map_Forall (fun _ e => entry_ok limits (sc_sequence c) e) (sc_entries c) /\
  (forall k k' e e', sc_entries c !! k = Some e -> sc_entries c !! k' = Some e' ->
     entry_last_access e = entry_last_access e' -> k = k').
Proof.
  intros Hl Hw E. destruct (run_rel _ _ _ Hl Hw E) as ([] & Hlim & _). simpl in *.
  rewrite Hlim in *. split_and!; done || lia.
Qed.

(** C17. A cache hit, after any operations, returns the value and disposition
    of the last accepted insertion for that key, made under exactly the
    generation asked for and not expired at the time of the read. *)
Theorem cache_hits_are_current limits ops c s k g now c' v d :
  limits_ok limits -> Forall op_width ops -> run_cache limits ops = Ok (c, s) ->
  cache_get c k g now = (c', Ok (Some (v, d))) ->
  exists expires, s !! k = Some (v, d, g, expires) /\ now < expires.
Proof.
  intros Hl Hw E Eg. destruct (run_rel _ _ _ Hl Hw E) as (Hi & _ & Hr).
  destruct (get_cases c k g now Hi) as (_ & _ & Hcases). rewrite Eg in Hcases. simpl in *.
  destruct Hcases as [(? & ? & _)|[(? & _)|(e & Hk & [Hg Hn] & Hv & _)]]; [done..|].
  apply Hr in Hk. unfold abstract_entry in Hk. naive_solver.
Qed.

(** An insertion whose guards hold always succeeds: it drops the expired
    entries, the previous value of the key and then only least recently used
    entries until the value fits, and stores the value; an insertion with a
    failing guard is an error that changes nothing. *)
Theorem cache_insert_exact c k v a :
  cache_inv c -> admission_width a ->
  (admissible c a ->
   exists c' kept, cache_insert c k v a = (c', Ok tt) /\ cache_inv c' /\
     lru_kept (delete k (live (adm_now a) (sc_entries c))) kept /\
     sc_entries c' = <[k := admitted_entry c v a]> kept) /\
  (~ admissible c a -> exists err, cache_insert c k v a = (c, Err err)).
Proof.
  intros Hi Hw. split; [|apply insert_rejected]. intros Ha.
  destruct (insert_admitted c k v a Hi Ha Hw) as (c' & kept & ? & ? & ? & ? & _). eauto 6.
Qed.

(** A read returns a value exactly when the entry is current; a stale or
    expired entry is removed by the read that finds it, an error leaves the
    cache as it was, and a hit only refreshes the access number. *)
Theorem cache_get_exact c k g now :
  cache_inv c ->
  generation_validate g = Ok g -> sc_sequence c < u64_max ->
  (forall e, sc_entries c !! k = Some e -> current e g now ->
   exists c', cache_get c k g now = (c', Ok (Some (entry_value e, entry_disposition e))) /\
     cache_inv c' /\ sc_entries c' = <[k := touched e (sc_sequence c + 1)]> (sc_entries c)) /\
  ((forall e, sc_entries c !! k = Some e -> ~ current e g now) ->
   exists c', cache_get c k g now = (c', Ok None) /\
     cache_inv c' /\ sc_entries c' = delete k (sc_entries c)).
Proof.
  intros Hi Hg Hs. pose proof (get_cases c k g now Hi) as (Hi' & _ & Hcases).
  assert (forall err, snd (cache_get c k g now) <> Err err) as Hnoerr.
  { intros err. unfold cache_get, next_sequence. rewrite Hg.
    rewrite (checked_add_small (sc_sequence c)) by lia.
    destruct (sc_entries c !! k) eqn:Ek; [|done]. do 2 (case_match; [done|]).
    simpl. by rewrite Ek. }
  destruct (cache_get c k g now) as [c' r]. simpl in *.
  destruct Hcases as [(err & -> & _)|[(-> & He & Hno)|(e0 & Hk & Hc & -> & He)]].
  - by destruct (Hnoerr err).
  - split; [intros e Hk Hc; by destruct (Hno e Hk)|eauto 6].
  - split; [|intros Hno; by destruct (Hno e0 Hk)]. intros e Hk' _. simplify_eq. eauto.
Qed.
End cache_inv.

(** ** Keys *)

(** Widths of the identity a key is derived from. *)
Definition identity_ok (secret : list Z) (g : CacheGeneration) (name : Name) (t : RecordType)
    : Prop :=
  length secret = 32%nat /\ length (gen_tree_root g) = 32%nat /\
  in_u64 (gen_runtime_generation g) /\ in_u64 (gen_policy_generation g) /\
  in_u32 (gen_chain_height g) /\ name_ok name /\ in_u16 (code t) /\ from_code (code t) = t.

Lemma name_encode_inj n n' enc :
  name_ok n -> name_ok n' -> name_encode n = Ok enc -> name_encode n' = Ok enc -> n = n'.
Proof.
  intros Hn Hn' E E'. destruct (name_encode_ok n Hn) as (? & E1 & Hlen & _).
  rewrite E in E1. apply Ok_inj in E1 as <-.
  assert (Hw : name_wire_len n <= MAX_WIRE_NAME_LEN) by apply Hn. unfold MAX_WIRE_NAME_LEN in Hw.
  assert (forall m, name_ok m -> name_encode m = Ok enc ->
    decode_name enc 0 (zlen enc) limits_browser = Ok (m, zlen enc)) as Hdec.
  { intros m Hm Em. rewrite (decode_name_encoded m enc [] []); try done;
      rewrite ?app_nil_r; try done; unfold u16_max; lia. }
  specialize (Hdec n Hn E) as H1. specialize (Hdec n' Hn' E') as H2. congruence.
Qed.

Lemma key_bytes_shape s net g n t bytes :
  cache_key_bytes s net g n t = Ok bytes ->
  exists w, name_encode n = Ok w /\
    bytes = CACHE_KEY_DOMAIN ++ s ++ [net] ++ to_be 8 (gen_runtime_generation g)
      ++ to_be 8 (gen_policy_generation g) ++ to_be 4 (gen_chain_height g) ++ gen_tree_root g
      ++ to_be 2 (code t) ++ to_be 2 (zlen w) ++ w.
Proof.
  unfold cache_key_bytes, generation_validate. intros E. case_match; [done|].
  destruct (_ || _); [done|]. destruct (name_encode n) as [w|]; [|done].
  case_match; [done|]. apply Ok_inj in E as <-. eauto.
Qed.

(** The bytes a cache key is the hash of determine the session secret, the
    network, the whole generation, the name and the record type: distinct
    queries or authorities never hash the same input. *)
Theorem cache_key_input_injective s s' net net' g g' n n' t t' bytes :
  identity_ok s g n t -> identity_ok s' g' n' t' ->
  cache_key_bytes s net g n t = Ok bytes -> cache_key_bytes s' net' g' n' t' = Ok bytes ->
  s = s' /\ net = net' /\ g = g' /\ n = n' /\ t = t'.
Proof.
  intros (Hs & Hr & Hg1 & Hg2 & Hg3 & Hn & Hc & Ht) (Hs' & Hr' & Hg1' & Hg2' & Hg3' & Hn' & Hc' & Ht').
  intros E1 E2. apply key_bytes_shape in E1 as (w & En & ->), E2 as (w' & En' & E).
  repeat match goal with
  | H : ?l1 ++ ?k1 = ?l2 ++ ?k2 |- _ =>
      apply split_fixed in H as [? H]; [|rewrite ?length_to_be; simpl; congruence]
  end.
  repeat match goal with H : to_be _ _ = to_be _ _ |- _ => apply to_be_inj in H; [|width_lia..] end.
  subst. destruct g, g'; simpl in *. split_and!; try congruence.
  by eapply name_encode_inj.
Qed.

(** ** A sample run: two slots, three insertions *)

Definition sample_limits : CacheLimits :=
  {| max_entries := 2; max_total_value_bytes := 100; max_value_bytes := 60;
     max_positive_ttl := 50; max_negative_ttl := 10 |}.
Definition sample_generation : CacheGeneration :=
  {| gen_runtime_generation := 1; gen_policy_generation := 1; gen_chain_height := 7;
     gen_tree_root := replicate 32 9 |}.
Definition sample_admission (now : Z) : CacheAdmission :=
  {| adm_value_bytes := 40; adm_disposition := Positive; adm_generation := sample_generation;
     adm_now := now; adm_ttl_seconds := 20 |}.
(** Key 2 is the least recently used when key 3 arrives. *)
Definition sample_ops : list (@cache_op Z) :=
  [OpInsert [1] 11 (sample_admission 0); OpInsert [2] 22 (sample_admission 1);
   OpGet [1] sample_generation 2; OpInsert [3] 33 (sample_admission 3)].

Lemma sample_limits_ok : limits_ok sample_limits.
Proof. split_and!; [done|simpl; width_lia..]. Qed.

Lemma sample_ops_width : Forall op_width sample_ops.
Proof. repeat constructor; simpl; width_lia. Qed.

Definition sample_cache : SecureCache Z :=
  match run_cache sample_limits sample_ops with
  | Ok (c, _) => c
  | Err _ => {| sc_limits := sample_limits; sc_entries := ∅; sc_sequence := 0;
                sc_stats := stats_default |}
  end.

Lemma sample_cache_inv : cache_inv sample_cache.
Proof.
  destruct (run_cache sample_limits sample_ops) as [[c s]|] eqn:E; [|vm_compute in E; done].
  destruct (run_rel _ _ _ sample_limits_ok sample_ops_width E) as [Hi _].
  unfold sample_cache. by rewrite E.
Qed.

Lemma sample_cache_state :
  sc_limits sample_cache = sample_limits /\ sc_sequence sample_cache = 4 /\
  option_map entry_expires_at (sc_entries sample_cache !! ([1] : CacheKey)) = Some 20.
Proof. vm_compute. auto. Qed.

Lemma cache_bounds_hold_witness :
  exists c s, run_cache sample_limits sample_ops = Ok (c, s) /\
    st_evictions (sc_stats c) = 1 /\ st_entries (sc_stats c) <= 2.
Proof.
  destruct (run_cache sample_limits sample_ops) as [[c s]|] eqn:E; [|vm_compute in E; discriminate E].
  exists c, s. split; [reflexivity|]. split.
  - vm_compute in E. injection E as <- <-. reflexivity.
  - refine (proj1 (proj2 (cache_bounds_hold sample_limits sample_ops c s _ _ E))).
    + apply sample_limits_ok.
    + apply sample_ops_width.
Defined.

Lemma cache_hits_are_current_witness :
  exists c s c', run_cache sample_limits sample_ops = Ok (c, s) /\
    cache_get c [1] sample_generation 5 = (c', Ok (Some (11, Positive))) /\
    exists expires, s !! [1] = Some (11, Positive, sample_generation, expires) /\ 5 < expires.
Proof.
  destruct (run_cache sample_limits sample_ops) as [[c s]|] eqn:E; [|vm_compute in E; discriminate E].
  exists c, s, (fst (cache_get c [1] sample_generation 5)).
  assert (Eg : cache_get c [1] sample_generation 5
               = (fst (cache_get c [1] sample_generation 5), Ok (Some (11, Positive)))).
  { vm_compute in E. injection E as <- <-. vm_compute. reflexivity. }
  split; [reflexivity|]. split; [exact Eg|].
  eapply (cache_hits_are_current sample_limits sample_ops c s [1] sample_generation 5 _ 11 Positive).
  - apply sample_limits_ok.
  - apply sample_ops_width.
  - exact E.
  - exact Eg.
Defined.

Lemma cache_insert_exact_witness :
  exists c' kept, cache_insert sample_cache [4] 44 (sample_admission 4) = (c', Ok tt) /\
    cache_inv c' /\
    lru_kept (delete [4] (live 4 (sc_entries sample_cache))) kept /\
    sc_entries c' = <[[4] := admitted_entry sample_cache 44 (sample_admission 4)]> kept.
Proof.
  refine (proj1 (cache_insert_exact sample_cache [4] 44 (sample_admission 4) sample_cache_inv _) _).
  - split_and!; simpl; width_lia.
  - destruct sample_cache_state as (Hl & Hs & _). unfold admissible, maximum_ttl.
    rewrite Hl, Hs. split_and!; [reflexivity|simpl; width_lia..].
Defined.

Lemma cache_get_exact_witness :
  exists c', cache_get sample_cache [1] sample_generation 100 = (c', Ok None) /\
    cache_inv c' /\ sc_entries c' = delete [1] (sc_entries sample_cache).
Proof.
  refine (proj2 (cache_get_exact sample_cache [1] sample_generation 100 sample_cache_inv _ _) _).
  - reflexivity.
  - rewrite (proj1 (proj2 sample_cache_state)). width_lia.
  - intros e He [_ Hn]. destruct sample_cache_state as (_ & _ & Hx). change (option_map entry_expires_at (@lookup CacheKey _ _ _ [1] (sc_entries sample_cache)) = Some 20) in Hx.
    rewrite He in Hx. injection Hx as Hx. lia.
Defined.

Lemma cache_key_input_injective_witness :
  exists bytes, cache_key_bytes (replicate 32 1) 0 sample_generation
                  {| name_labels := [[97]] |} A = Ok bytes /\
    forall net t, in_u16 (code t) -> from_code (code t) = t ->
      cache_key_bytes (replicate 32 1) net sample_generation {| name_labels := [[97]] |} t
      = Ok bytes -> net = 0 /\ t = A.
Proof.
  eexists. split; [vm_compute; reflexivity|]. intros net t Hc Ht E.
  assert (Hn : name_ok {| name_labels := [[97]] |}) by (split; [repeat constructor; done|done]).
  edestruct (cache_key_input_injective (replicate 32 1) (replicate 32 1) net 0 sample_generation
    sample_generation {| name_labels := [[97]] |} {| name_labels := [[97]] |} t A)
    as (_ & H1 & _ & _ & H2).
  - split_and!; try done; simpl; width_lia.
  - split_and!; try done; simpl; width_lia.
  - exact E.
  - vm_compute. reflexivity.
  - split; [exact H1|exact H2].
Defined.
