(* ===== verification/CacheLru.v ===== *)
(** * The expiring LRU

    Models [ExpiringLru] of [src/crates/hns-cache/src/lib.rs]: a hash map of
    timed entries beside a queue of keys, least recently used first. Time is an
    argument: each [Instant::now] of the source is one reading, in nanoseconds.
    The abstract LRU is one list of keyed values in order of use; the pair of
    structures implements it. *)

From S2P Require Import Prelude Cache.

(** Latest [Instant] (64-bit seconds and nanoseconds). *)
Definition instant_max : Z := (2 ^ 63 - 1) * 1000000000 + 999999999.

Record TimedEntry (V : Type) := { timed_value : V; timed_expires_at : Z }.
Arguments timed_value {V}.
Arguments timed_expires_at {V}.

Record ExpiringLru (K V : Type) `{Countable K} := {
  lru_max_entries : Z;
  lru_entries : gmap K (TimedEntry V);
  lru_order : list K }.
Arguments lru_max_entries {K V _ _}.
Arguments lru_entries {K V _ _}.
Arguments lru_order {K V _ _}.

Section lru.
Context {K V : Type} `{Countable K}.
Implicit Types (l : ExpiringLru K V) (k : K) (v : V).

Definition with_lru l (entries : gmap K (TimedEntry V)) (order : list K) : ExpiringLru K V :=
  {| lru_max_entries := lru_max_entries l; lru_entries := entries; lru_order := order |}.

(** [ExpiringLru::new]. *)
Definition lru_new (max_entries : Z) : ExpiringLru K V :=
  {| lru_max_entries := max_entries; lru_entries := ∅; lru_order := [] |}.

Definition prune_expired l (now : Z) : ExpiringLru K V :=
  let entries := filter (fun ke => now < timed_expires_at ke.2) (lru_entries l) in
  with_lru l entries (filter (fun k => is_Some (entries !! k)) (lru_order l)).

Definition promote l k : ExpiringLru K V :=
  with_lru l (lru_entries l) (filter (fun candidate => candidate <> k) (lru_order l)).

Definition push_back l k : ExpiringLru K V := with_lru l (lru_entries l) (lru_order l ++ [k]).

(** One turn of the loop of [evict_over_limit]. *)
Definition evict_over_limit_step l : result Empty_set (ExpiringLru K V + ExpiringLru K V) :=
  if lru_max_entries l <? Z.of_nat (size (lru_entries l)) then
    match lru_order l with
    | [] => Ok (inr l)
    | k :: rest => Ok (inl (with_lru l (delete k (lru_entries l)) rest))
    end
  else Ok (inr l).

Definition evict_over_limit l : ExpiringLru K V :=
  match loop (S (length (lru_order l))) evict_over_limit_step l with
  | Some (Ok l') => l'
  | _ => l
  end.

(** [ExpiringLru::insert]; [now] and [later] are its two clock readings. *)
Definition lru_insert l k v (ttl now later : Z) : ExpiringLru K V * result CacheError unit :=
  if ttl =? 0 then (l, Err TtlLimit) else
  if instant_max <? now + ttl then (l, Err TimeOverflow) else
  let expires_at := now + ttl in
  let l := prune_expired l later in
  let l := promote l k in
  let l := push_back l k in
  let l := with_lru l (<[k := {| timed_value := v; timed_expires_at := expires_at |}]> (lru_entries l))
                      (lru_order l) in
  (evict_over_limit l, Ok tt).

(** [ExpiringLru::get]. *)
Definition lru_get l k (now : Z) : ExpiringLru K V * option V :=
  let l := prune_expired l now in
  match lru_entries l !! k with
  | None => (l, None)
  | Some entry => (push_back (promote l k) k, Some (timed_value entry))
  end.

Definition lru_len l (now : Z) : ExpiringLru K V * Z :=
  let l := prune_expired l now in (l, Z.of_nat (size (lru_entries l))).

Definition lru_clear l : ExpiringLru K V := with_lru l ∅ [].

(** ** The abstract LRU: one list, least recently used first *)

Definition items := list (K * TimedEntry V).

Definition abs_prune (now : Z) (s : items) : items :=
  filter (fun ke => now < timed_expires_at ke.2) s.
Definition abs_without k (s : items) : items := filter (fun ke => ke.1 <> k) s.

(** Keep the last [max] items. *)
Definition abs_last (max : Z) (s : items) : items :=
  drop (length s - Z.to_nat max) s.

Definition abs_insert (max : Z) k v (ttl now later : Z) (s : items) : items :=
  abs_last max (abs_without k (abs_prune later s)
                ++ [(k, {| timed_value := v; timed_expires_at := now + ttl |})]).

Definition abs_get k (now : Z) (s : items) : items * option V :=
  let s := abs_prune now s in
  match list_to_map (M := gmap K (TimedEntry V)) s !! k with
  | None => (s, None)
  | Some e => (abs_without k s ++ [(k, e)], Some (timed_value e))
  end.

(** The two structures of [l] are the map and the key order of [s]. *)
Record lru_rel l (s : items) : Prop := {
  rel_nodup : NoDup s.*1;
  rel_entries : lru_entries l = list_to_map s;
  rel_order : lru_order l = s.*1;
  rel_bound : Z.of_nat (length s) <= lru_max_entries l }.

(** ** The list lemmas behind the refinement *)

Lemma fst_filter (P : K * TimedEntry V -> Prop) `{forall x, Decision (P x)}
    (Q : K -> Prop) `{forall k, Decision (Q k)} (s : items) :
  (forall k e, (k, e) ∈ s -> P (k, e) <-> Q k) -> filter Q s.*1 = (filter P s).*1.
Proof.
  induction s as [|[k e] s IH]; intros Hs; [done|].
  rewrite fmap_cons. simpl fst. rewrite (filter_cons Q), (filter_cons P).
  rewrite IH by (intros k' e' Hin; apply Hs; by right).
  assert (P (k, e) <-> Q k) as Hpq by (apply Hs; left).
  destruct (decide (P (k, e))), (decide (Q k)); rewrite ?fmap_cons; done || tauto.
Qed.

Lemma nodup_filter (P : K * TimedEntry V -> Prop) `{forall x, Decision (P x)} (s : items) :
  NoDup s.*1 -> NoDup (filter P s).*1.
Proof.
  intros Hn. eapply sublist_NoDup; [done|]. apply fmap_sublist. apply sublist_filter.
Qed.

Lemma filter_to_map (P : K * TimedEntry V -> Prop) `{forall x, Decision (P x)} (s : items) :
  NoDup s.*1 ->
  filter P (list_to_map s : gmap K (TimedEntry V)) = list_to_map (filter P s).
Proof.
  intros Hn. apply map_eq. intros k. apply option_eq. intros e.
  rewrite map_lookup_filter_Some, <- !elem_of_list_to_map by auto using nodup_filter.
  rewrite list_elem_of_filter. tauto.
Qed.

Lemma prune_rel l s now : lru_rel l s -> lru_rel (prune_expired l now) (abs_prune now s).
Proof.
  intros [Hn He Ho Hb]. unfold prune_expired, abs_prune. constructor; simpl.
  - by apply nodup_filter.
  - rewrite He. by apply filter_to_map.
  - rewrite Ho. apply fst_filter. intros k e Hin. rewrite He.
    apply elem_of_list_to_map in Hin; [|done].
    split.
    + intros Hl. exists e. by apply map_lookup_filter_Some.
    + intros [e' He']. apply map_lookup_filter_Some in He' as [? ?]. by simplify_eq.
  - etrans; [apply Nat2Z.inj_le, length_filter|done].
Qed.

Lemma without_rel l s k : lru_rel l s ->
  NoDup (abs_without k s).*1 /\ lru_order (promote l k) = (abs_without k s).*1 /\
  k ∉ (abs_without k s).*1 /\
  (forall e, <[k := e]> (lru_entries l) = <[k := e]> (list_to_map (abs_without k s))).
Proof.
  intros [Hn He Ho Hb]. unfold abs_without. split_and!.
  - by apply nodup_filter.
  - simpl. rewrite Ho. by apply fst_filter.
  - rewrite list_elem_of_fmap. intros ([k' e] & -> & Hin).
    apply list_elem_of_filter in Hin as [? _]. done.
  - intros e. rewrite He, <- filter_to_map by done. apply map_eq. intros k'.
    destruct (decide (k' = k)) as [->|]; [by rewrite !lookup_insert_eq|].
    rewrite !lookup_insert_ne by done.
    destruct (list_to_map s !! k') as [e'|] eqn:Ek; symmetry.
    + by apply map_lookup_filter_Some.
    + apply map_lookup_filter_None. by left.
Qed.

(** The eviction loop drops at most one entry: the oldest. *)
Lemma evict_rel l (s : items) max :
  NoDup s.*1 -> lru_entries l = list_to_map s -> lru_order l = s.*1 ->
  lru_max_entries l = max -> 1 <= max -> Z.of_nat (length s) <= max + 1 ->
  lru_rel (evict_over_limit l) (abs_last max s) /\ lru_max_entries (evict_over_limit l) = max.
Proof.
  intros Hn He Ho Hm Hpos Hlen. unfold abs_last.
  assert (Hsz : size (lru_entries l) = length s) by (rewrite He; by apply map_size_list_to_map).
  destruct (decide (Z.of_nat (length s) <= max)) as [Hle|Hgt].
  - assert (evict_over_limit l = l) as ->.
    { unfold evict_over_limit. cbn [loop]. unfold evict_over_limit_step at 1.
      rewrite Hsz, Hm. by zdecide. }
    replace (length s - Z.to_nat max)%nat with 0%nat by lia. rewrite drop_0.
    split; [constructor; done || lia|done].
  - destruct s as [|[k e] s]; [simpl in *; lia|]. simpl in Hlen, Hgt, Hsz, Ho.
    apply NoDup_cons in Hn as [Hk Hn].
    assert (Hd : delete k (lru_entries l) = list_to_map s).
    { rewrite He. simpl. rewrite delete_insert_id; [done|]. by apply not_elem_of_list_to_map_1. }
    assert (evict_over_limit l = with_lru l (list_to_map s) s.*1) as ->.
    { unfold evict_over_limit. rewrite Ho. cbn [length loop]. unfold evict_over_limit_step at 1.
      rewrite Hsz, Hm, Ho. zdecide. cbv beta iota. rewrite Hd.
      unfold evict_over_limit_step at 1. simpl lru_entries. simpl lru_max_entries.
      rewrite map_size_list_to_map, Hm by done. by zdecide. }
    replace (length ((k, e) :: s) - Z.to_nat max)%nat with 1%nat by (simpl; lia).
    change (drop 1 ((k, e) :: s)) with s.
    split; [constructor; simpl; first [done | rewrite Hm; lia]|done].
Qed.

Lemma insert_rel l s k v ttl now later :
  1 <= lru_max_entries l -> lru_rel l s ->
  ttl <> 0 -> now + ttl <= instant_max ->
  exists l', lru_insert l k v ttl now later = (l', Ok tt) /\
    lru_rel l' (abs_insert (lru_max_entries l) k v ttl now later s) /\
    lru_max_entries l' = lru_max_entries l.
Proof.
  intros Hpos Hrel Ht Hx. unfold lru_insert, abs_insert. zdecide.
  pose proof (prune_rel _ _ later Hrel) as Hp.
  destruct (without_rel _ _ k Hp) as (Hn & Ho & Hk & He).
  assert (Hlen : Z.of_nat (length (abs_without k (abs_prune later s))) <= lru_max_entries l).
  { etrans; [apply Nat2Z.inj_le, length_filter|]. apply (rel_bound _ _ Hp). }
  eexists. split; [done|]. apply evict_rel; simpl; try done.
  - rewrite fmap_app. apply NoDup_app. split_and!; [done|set_solver|].
    simpl. apply NoDup_singleton.
  - rewrite (list_to_map_snoc _ k) by done. apply He.
  - rewrite fmap_app. simpl in Ho |- *. by rewrite Ho.
  - rewrite length_app. simpl. lia.
Qed.

Lemma get_rel l s k now :
  lru_rel l s ->
  lru_rel (fst (lru_get l k now)) (fst (abs_get k now s)) /\
  snd (lru_get l k now) = snd (abs_get k now s) /\
  lru_max_entries (fst (lru_get l k now)) = lru_max_entries l.
Proof.
  intros Hrel. unfold lru_get, abs_get. pose proof (prune_rel _ _ now Hrel) as Hp.
  rewrite (rel_entries _ _ Hp). destruct (_ !! k) as [e|] eqn:Ek; simpl; [|done].
  destruct (without_rel _ _ k Hp) as (Hn & Ho & Hk & He).
  assert (Hids : lru_entries (prune_expired l now)
                 = <[k := e]> (list_to_map (abs_without k (abs_prune now s)))).
  { rewrite <- He, (rel_entries _ _ Hp). by rewrite insert_id. }
  split_and!; try done. constructor; simpl.
  - rewrite fmap_app. apply NoDup_app. split_and!; [done|set_solver|apply NoDup_singleton].
  - by rewrite (list_to_map_snoc _ k).
  - rewrite fmap_app. simpl in Ho |- *. by rewrite Ho.
  - rewrite length_app. simpl.
    assert (length (abs_without k (abs_prune now s)) < length (abs_prune now s))%nat as Hlt.
    { apply elem_of_list_to_map in Ek; [|apply (rel_nodup _ _ Hp)]. unfold abs_without.
      eapply (length_filter_lt _ _ (k, e)); [done|]. simpl. tauto. }
    pose proof (rel_bound _ _ Hp) as Hb. simpl in Hb. lia.
Qed.

(** ** Runs *)

Inductive lru_op :=
| LruInsert (k : K) (v : V) (ttl now later : Z)
| LruGet (k : K) (now : Z)
| LruLen (now : Z)
| LruClear.

Inductive lru_out :=
| OutUnit (r : result CacheError unit)
| OutGet (r : option V)
| OutLen (n : Z).

Definition lru_apply l (op : lru_op) : ExpiringLru K V * lru_out :=
  match op with
  | LruInsert k v ttl now later => let r := lru_insert l k v ttl now later in (r.1, OutUnit r.2)
  | LruGet k now => let r := lru_get l k now in (r.1, OutGet r.2)
  | LruLen now => let r := lru_len l now in (r.1, OutLen r.2)
  | LruClear => (lru_clear l, OutUnit (Ok tt))
  end.

Definition abs_apply (max : Z) (s : items) (op : lru_op) : items * lru_out :=
  match op with
  | LruInsert k v ttl now later =>
      if ttl =? 0 then (s, OutUnit (Err TtlLimit))
      else if instant_max <? now + ttl then (s, OutUnit (Err TimeOverflow))
      else (abs_insert max k v ttl now later s, OutUnit (Ok tt))
  | LruGet k now => let r := abs_get k now s in (r.1, OutGet r.2)
  | LruLen now => let s := abs_prune now s in (s, OutLen (Z.of_nat (length s)))
  | LruClear => ([], OutUnit (Ok tt))
  end.

Fixpoint lru_run l (ops : list lru_op) : ExpiringLru K V * list lru_out :=
  match ops with
  | [] => (l, [])
  | op :: rest => let r := lru_apply l op in
                  let r' := lru_run r.1 rest in (r'.1, r.2 :: r'.2)
  end.

Fixpoint abs_run (max : Z) (s : items) (ops : list lru_op) : items * list lru_out :=
  match ops with
  | [] => (s, [])
  | op :: rest => let r := abs_apply max s op in
                  let r' := abs_run max r.1 rest in (r'.1, r.2 :: r'.2)
  end.

Lemma apply_rel l s op :
  1 <= lru_max_entries l -> lru_rel l s ->
  lru_rel (lru_apply l op).1 (abs_apply (lru_max_entries l) s op).1 /\
  (lru_apply l op).2 = (abs_apply (lru_max_entries l) s op).2 /\
  lru_max_entries (lru_apply l op).1 = lru_max_entries l.
Proof.
  intros Hpos Hrel. destruct op as [k v ttl now later|k now|now|]; simpl.
  - destruct (ttl =? 0) eqn:Et; [unfold lru_insert; by rewrite Et|].
    destruct (instant_max <? now + ttl) eqn:Ex; [unfold lru_insert; by rewrite Et, Ex|].
    breflect. destruct (insert_rel l s k v ttl now later) as (l' & -> & ? & ?); done.
  - destruct (get_rel l s k now Hrel) as (? & -> & ?). done.
  - pose proof (prune_rel l s now Hrel) as Hp. split_and!; [done| |done].
    unfold lru_len. simpl. f_equal. change (filter _ (lru_entries l)) with (lru_entries (prune_expired l now)).
    rewrite (rel_entries _ _ Hp), map_size_list_to_map by apply (rel_nodup _ _ Hp). done.
  - split_and!; try done. constructor; simpl; try done; [constructor|lia].
Qed.

Lemma run_rel_lru ops l s :
  1 <= lru_max_entries l -> lru_rel l s ->
  lru_rel (lru_run l ops).1 (abs_run (lru_max_entries l) s ops).1 /\
  (lru_run l ops).2 = (abs_run (lru_max_entries l) s ops).2.
Proof.
  revert l s. induction ops as [|op ops IH]; intros l s Hpos Hrel; simpl; [done|].
  destruct (apply_rel l s op Hpos Hrel) as (Hrel' & Hout & Hmax).
  destruct (IH (lru_apply l op).1 (abs_apply (lru_max_entries l) s op).1) as [IH1 IH2];
    [by rewrite Hmax|done|].
  rewrite Hmax in IH1, IH2. split; [done|]. by rewrite Hout, IH2.
Qed.

(** The expiring LRU, a hash map beside a queue of keys, behaves on every
    sequence of operations and clock readings like one list of live values in
    order of use that keeps the last [max] of them: same answers, same errors,
    same length, and never more than [max] entries. *)
Theorem lru_refines_list max ops :
  1 <= max ->
  let l := (lru_run (lru_new max) ops).1 in
  let s := (abs_run max [] ops).1 in
  (lru_run (lru_new max) ops).2 = (abs_run max [] ops).2 /\
  lru_order l = s.*1 /\ NoDup (lru_order l) /\ lru_entries l = list_to_map s /\
  Z.of_nat (size (lru_entries l)) <= lru_max_entries l.
Proof.
  intros Hmax.
  destruct (run_rel_lru ops (lru_new max) []) as [[Hn He Ho Hb] Hout]; [done| |].
  { constructor; simpl; try done; [constructor|lia]. }
  simpl lru_max_entries in *. split_and!; try done; [by rewrite Ho|].
  rewrite He, map_size_list_to_map by done. done.
Qed.
End lru.

(** Two slots; key 2 is the oldest when key 3 arrives, key 1 has expired at 30. *)
Definition sample_lru_ops : list (@lru_op Z Z) :=
  [LruInsert 1 11 20 0 0; LruInsert 2 22 40 1 1; LruGet 1 2; LruInsert 3 33 40 3 3;
   LruGet 2 4; LruGet 1 30; LruGet 3 30; LruLen 30].

Lemma lru_refines_list_witness :
  (lru_run (lru_new 2) sample_lru_ops).2
  = [OutUnit (Ok tt); OutUnit (Ok tt); OutGet (Some 11); OutUnit (Ok tt); OutGet None;
     OutGet None; OutGet (Some 33); OutLen 1] /\
  (lru_run (lru_new 2) sample_lru_ops).2 = (abs_run 2 [] sample_lru_ops).2.
Proof.
  split; [vm_compute; reflexivity|].
  refine (proj1 (lru_refines_list 2 sample_lru_ops _)). lia.
Defined.
