(* ===== verification/IcannDane.v ===== *)
(** * ICANN DANE discovery policy

    Models [src/crates/hns-icann-dane/src/lib.rs]: the derivation of a TLSA
    owner name from an origin, and the conversion of validating-DoH evidence
    into a browser trust action. Strings are their UTF-8 bytes. *)

From S2P Require Import Prelude DnsTypes DnsParse DnsNames.

Definition MAX_DNS_NAME_BYTES : Z := 253.
Definition MAX_DNS_LABEL_BYTES : Z := 63.

Inductive DiscoveryError :=
| InvalidHost | InvalidPort | NameTooLong | UnauthenticatedResolver | ValidationBypassed
| BogusDnssec | IndeterminateDnssec | MissingAuthenticatedDenial | ConflictingEvidence.

Inductive TlsaTransport := Tcp | Udp | Sctp.

Definition transport_label (t : TlsaTransport) : list Z :=
  match t with
  | Tcp => [95; 116; 99; 112]
  | Udp => [95; 117; 100; 112]
  | Sctp => [95; 115; 99; 116; 112]
  end.

(** ** Strings *)

(** The UTF-8 encodings of the White_Space characters [str::trim] removes. *)
Definition white_space : list (list Z) :=
  [[9]; [10]; [11]; [12]; [13]; [32]; [0xc2; 0x85]; [0xc2; 0xa0]; [0xe1; 0x9a; 0x80];
   [0xe2; 0x80; 0x80]; [0xe2; 0x80; 0x81]; [0xe2; 0x80; 0x82]; [0xe2; 0x80; 0x83];
   [0xe2; 0x80; 0x84]; [0xe2; 0x80; 0x85]; [0xe2; 0x80; 0x86]; [0xe2; 0x80; 0x87];
   [0xe2; 0x80; 0x88]; [0xe2; 0x80; 0x89]; [0xe2; 0x80; 0x8a]; [0xe2; 0x80; 0xa8];
   [0xe2; 0x80; 0xa9]; [0xe2; 0x80; 0xaf]; [0xe2; 0x81; 0x9f]; [0xe3; 0x80; 0x80]].

(** [host.trim() != host]: the string starts or ends with white space. *)
Definition trim_changes (host : list Z) : bool :=
  existsb (fun w => bool_decide (take (length w) host = w)
                    || bool_decide (take (length w) (reverse host) = reverse w)) white_space.

Definition ends_with_dot (s : list Z) : bool := bool_decide (last s = Some 46).

Definition lowercase (s : list Z) : list Z := map to_ascii_lowercase s.

(** Decimal digits, most significant first ([Display] of an integer). *)
Fixpoint decimal_loop (fuel : nat) (n : Z) (acc : list Z) : list Z :=
  match fuel with
  | O => acc
  | S fuel => if n <? 10 then (48 + n) :: acc
              else decimal_loop fuel (n / 10) ((48 + n mod 10) :: acc)
  end.
Definition decimal (n : Z) : list Z := decimal_loop 20 n [].

(** *** [IpAddr::from_str]: recursive descent over the remaining bytes *)

Definition to_digit (radix b : Z) : option Z :=
  if (48 <=? b) && (b <=? 57) then (if b - 48 <? radix then Some (b - 48) else None)
  else if (radix =? 16) && (97 <=? b) && (b <=? 102) then Some (b - 87)
  else if (radix =? 16) && (65 <=? b) && (b <=? 70) then Some (b - 55)
  else None.

(** The digit loop of [read_number]: value, digit count and rest, or [None] on
    overflow or too many digits. *)
Fixpoint read_digits (radix max_digits bound acc count : Z) (s : list Z) : option (Z * Z * list Z) :=
  match s with
  | [] => Some (acc, count, [])
  | b :: rest =>
      match to_digit radix b with
      | None => Some (acc, count, s)
      | Some d =>
          if bound <? acc * radix + d then None
          else if max_digits <? count + 1 then None
          else read_digits radix max_digits bound (acc * radix + d) (count + 1) rest
      end
  end.

Definition read_number (radix max_digits bound : Z) (allow_zero_prefix : bool) (s : list Z)
    : option (Z * list Z) :=
  match read_digits radix max_digits bound 0 0 s with
  | None => None
  | Some (value, count, rest) =>
      if count =? 0 then None
      else if negb allow_zero_prefix && bool_decide (head s = Some 48) && (1 <? count) then None
      else Some (value, rest)
  end.

(** [read_separator]: the separator is expected before every item but the first. *)
Definition read_separator {T} (sep : Z) (index : nat) (inner : list Z -> option (T * list Z))
    (s : list Z) : option (T * list Z) :=
  match index with
  | O => inner s
  | S _ => match s with
           | b :: rest => if b =? sep then inner rest else None
           | [] => None
           end
  end.

Fixpoint read_octets (index count : nat) (s : list Z) : option (list Z) :=
  match count with
  | O => Some s
  | S count =>
      match read_separator 46 index (read_number 10 3 255 false) s with
      | None => None
      | Some (_, rest) => read_octets (S index) count rest
      end
  end.

Definition read_ipv4_addr (s : list Z) : option (list Z) := read_octets 0 4 s.

(** [read_groups] over [limit] slots from [index]: groups read, whether an IPv4
    tail was read, and the rest. *)
Fixpoint read_groups (index remaining : nat) (s : list Z) : nat * bool * list Z :=
  match remaining with
  | O => (index, false, s)
  | S remaining' =>
      let v4 := if Nat.leb 1 remaining'
                then read_separator 58 index (fun s => option_map (pair tt) (read_ipv4_addr s)) s
                else None in
      match v4 with
      | Some (_, rest) => ((index + 2)%nat, true, rest)
      | None =>
          match read_separator 58 index (read_number 16 4 65535 true) s with
          | Some (_, rest) => read_groups (S index) remaining' rest
          | None => (index, false, s)
          end
      end
  end.

Definition read_ipv6_addr (s : list Z) : option (list Z) :=
  let '(head_size, head_ipv4, rest) := read_groups 0 8 s in
  if Nat.eqb head_size 8 then Some rest
  else if (head_ipv4 : bool) then None
  else match rest with
  | 58 :: 58 :: rest =>
      let '(_, _, rest) := read_groups 0 (8 - (head_size + 1)) rest in Some rest
  | _ => None
  end.

(** [IpAddr::from_str(s).is_ok()]: the whole input is consumed. *)
Definition ip_addr_from_str (s : list Z) : bool :=
  match read_ipv4_addr s with
  | Some rest => zlen rest =? 0
  | None => match read_ipv6_addr s with
            | Some rest => zlen rest =? 0
            | None => false
            end
  end.

(** ** Owner names *)

(** One label of [validate_host] is refused. *)
Definition bad_host_label (label : list Z) : bool :=
  (zlen label =? 0) || (MAX_DNS_LABEL_BYTES <? zlen label)
  || bool_decide (head label = Some 45) || bool_decide (last label = Some 45)
  || negb (forallb (fun b => is_ascii_alphanumeric b || (b =? 45)) label).

Definition validate_host (host : list Z) : result DiscoveryError unit :=
  if (zlen host =? 0) || negb (forallb (fun b => b <? 128) host)
     || (MAX_DNS_NAME_BYTES <? zlen host) || ip_addr_from_str host
  then Err InvalidHost else
  if existsb bad_host_label (split_on 46 host) then Err InvalidHost else Ok tt.

Record TlsaOwner := {
  owner_host : list Z;
  owner_resolver_name : list Z;
  owner_fqdn : list Z;
  owner_port : Z;
  owner_transport : TlsaTransport }.

(** [TlsaOwner::derive]. *)
Definition owner_derive (host : list Z) (port : Z) (transport : TlsaTransport)
    : result DiscoveryError TlsaOwner :=
  if port =? 0 then Err InvalidPort else
  if trim_changes host then Err InvalidHost else
  let without_root := strip_dot host in
  if ends_with_dot without_root then Err InvalidHost else
  let normalized := lowercase without_root in
  let? _ := validate_host normalized in
  let resolver_name :=
    95 :: decimal port ++ 46 :: transport_label transport ++ 46 :: normalized in
  if MAX_DNS_NAME_BYTES <? zlen resolver_name then Err NameTooLong else
  Ok {| owner_host := normalized; owner_resolver_name := resolver_name;
        owner_fqdn := resolver_name ++ [46]; owner_port := port;
        owner_transport := transport |}.

(** ** Trust decision *)

Inductive IcannDnssecStatus := Secure | InsecureDelegation | Bogus | Indeterminate.
Inductive ResolverAuthentication := Authenticated | Unauthenticated.
Inductive DnssecQueryMode := Validate | CheckingDisabled | DnssecRecordsNotRequested.
Inductive TlsaDenial := DenialNone | DenialAuthenticated.

Record ValidatingDohEvidence := {
  ev_resolver_authentication : ResolverAuthentication;
  ev_query_mode : DnssecQueryMode;
  ev_dnssec : IcannDnssecStatus;
  ev_tlsa_record_count : Z;
  ev_denial : TlsaDenial }.

Inductive BrowserTlsDecision :=
| EnforceDane (record_count : Z)
| WebPkiAuthenticatedAbsence
| WebPkiInsecureDelegation.

Definition enforces_dane (d : BrowserTlsDecision) : bool :=
  match d with EnforceDane _ => true | _ => false end.

Definition permits_webpki (d : BrowserTlsDecision) : bool :=
  match d with WebPkiAuthenticatedAbsence | WebPkiInsecureDelegation => true | _ => false end.

(** [NonZeroUsize::new]. *)
Definition nonzero (n : Z) : option Z := if n =? 0 then None else Some n.

Definition decide_browser_tls (e : ValidatingDohEvidence)
    : result DiscoveryError BrowserTlsDecision :=
  match ev_resolver_authentication e with
  | Unauthenticated => Err UnauthenticatedResolver
  | Authenticated =>
  match ev_query_mode e with
  | CheckingDisabled | DnssecRecordsNotRequested => Err ValidationBypassed
  | Validate =>
  match ev_dnssec e with
  | Bogus => Err BogusDnssec
  | Indeterminate => Err IndeterminateDnssec
  | InsecureDelegation =>
      match ev_denial e with
      | DenialAuthenticated => Err ConflictingEvidence
      | DenialNone => Ok WebPkiInsecureDelegation
      end
  | Secure =>
      match nonzero (ev_tlsa_record_count e), ev_denial e with
      | Some record_count, DenialNone => Ok (EnforceDane record_count)
      | None, DenialAuthenticated => Ok WebPkiAuthenticatedAbsence
      | Some _, DenialAuthenticated => Err ConflictingEvidence
      | None, DenialNone => Err MissingAuthenticatedDenial
      end
  end end end.

Example ip_samples :
  map ip_addr_from_str
    [[49; 46; 50; 46; 51; 46; 52]; [49; 46; 50; 46; 51]; [48; 49; 46; 50; 46; 51; 46; 52];
     [58; 58; 49]; [58; 58]; [49; 58; 58; 49; 46; 50; 46; 51; 46; 52]; [58]; [97; 46; 98];
     [50; 53; 54; 46; 49; 46; 49; 46; 49]]
  = [true; false; false; true; true; true; false; false; false].
Proof. vm_compute. reflexivity. Qed.

Example decimal_samples : decimal 443 = [52; 52; 51] /\ decimal 65535 = [54; 53; 53; 51; 53].
Proof. vm_compute. split; reflexivity. Qed.

(** ** Splitting at dots *)

Lemma split_on_join s : exists l ls,
  split_on 46 s = l :: ls /\ s = l ++ concat (map (cons 46) ls) /\ 46 ∉ l.
Proof.
  induction s as [|b s (l & ls & E & Hs & Hl)]; simpl; [exists [], []; split_and!; [done..|set_solver]|].
  destruct (b =? 46) eqn:Eb; breflect.
  - exists [], (split_on 46 s). subst b. split_and!; [done| |set_solver].
    rewrite E. simpl. by rewrite <- Hs.
  - rewrite E. exists (b :: l), ls. split_and!; [done|by rewrite Hs at 1|set_solver].
Qed.

Lemma split_on_len s : labels_len (split_on 46 s) = zlen s + 1.
Proof.
  induction s as [|b s IH]; simpl; [done|]. rewrite zlen_cons.
  destruct (b =? 46); simpl; [rewrite IH, zlen_nil; lia|].
  destruct (split_on_join s) as (l & ls & E & _). rewrite E in *. simpl in *.
  rewrite zlen_cons. lia.
Qed.

Lemma split_on_forall (P : Z -> Prop) s : Forall P s -> Forall (Forall P) (split_on 46 s).
Proof.
  induction 1 as [|b s Hb Hs IH]; simpl; [by repeat constructor|].
  destruct (b =? 46); [by constructor|].
  destruct (split_on 46 s) as [|l ls]; [by repeat constructor|].
  inversion IH; subst. by repeat constructor.
Qed.

(** ** Decimal ports *)

Definition digit (b : Z) : Prop := 48 <= b <= 57.

Lemma decimal_loop_digits fuel n acc :
  0 <= n -> Forall digit acc -> Forall digit (decimal_loop fuel n acc).
Proof.
  revert n acc. induction fuel as [|fuel IH]; intros n acc Hn Ha; simpl; [done|].
  case_match; breflect; [constructor; [unfold digit; lia|done]|].
  apply IH; [apply Z.div_pos; lia|]. constructor; [|done].
  pose proof (Z.mod_pos_bound n 10). unfold digit. lia.
Qed.

Lemma decimal_loop_len k fuel n acc :
  0 <= n < 10 ^ Z.of_nat (S k) -> (k < fuel)%nat ->
  zlen acc + 1 <= zlen (decimal_loop fuel n acc) <= zlen acc + 1 + Z.of_nat k.
Proof.
  revert fuel n acc. induction k as [|k IH]; intros fuel n acc Hn Hf;
    (destruct fuel as [|fuel]; [lia|]); simpl decimal_loop; case_match eqn:E; breflect;
    rewrite ?zlen_cons; try lia.
  rewrite Nat2Z.inj_succ, Z.pow_succ_r in Hn by lia.
  specialize (IH fuel (n / 10) ((48 + n mod 10) :: acc)). rewrite zlen_cons in IH.
  assert (0 <= n / 10 < 10 ^ Z.of_nat (S k)).
  { split; [apply Z.div_pos; lia|]. apply Z.div_lt_upper_bound; lia. }
  specialize (IH ltac:(done) ltac:(lia)). lia.
Qed.

Lemma decimal_port port : in_u16 port -> Forall digit (decimal port) /\ 1 <= zlen (decimal port) <= 5.
Proof.
  intros Hp. split; [apply decimal_loop_digits; [width_lia|constructor]|].
  pose proof (decimal_loop_len 4 20 port [] ltac:(simpl; width_lia) ltac:(lia)) as H.
  unfold decimal. change (zlen (@nil Z)) with 0 in H. lia.
Qed.

(** ** Derived owners *)

Lemma validate_host_labels host :
  validate_host host = Ok tt ->
  1 <= zlen host <= 253 /\ ip_addr_from_str host = false /\
  Forall (fun l => bad_host_label l = false) (split_on 46 host).
Proof.
  unfold validate_host. intros E. case_match; [done|]. case_match eqn:Eb; [done|]. breflect.
  pose proof (zlen_nonneg host). split_and!; try done; unfold MAX_DNS_NAME_BYTES in *; try lia.
  apply Forall_forall. intros l Hl. apply not_true_is_false. intros Hbad.
  assert (existsb bad_host_label (split_on 46 host) = true); [|congruence].
  apply existsb_exists. exists l. split; [by apply list_elem_of_In|done].
Qed.

(** A byte of a derived label: printed as itself and in lower case. *)
Definition owner_byte (b : Z) : Prop := plain_byte b /\ to_ascii_lowercase b = b.

Lemma host_label_ok l :
  bad_host_label l = false -> Forall (fun b => to_ascii_lowercase b = b) l ->
  1 <= zlen l <= 63 /\ Forall owner_byte l.
Proof.
  intros Hb Hl. unfold bad_host_label in Hb. breflect. pose proof (zlen_nonneg l).
  split; [unfold MAX_DNS_LABEL_BYTES in *; lia|].
  match goal with H : forallb _ _ = true |- _ => rewrite forallb_forall in H; rename H into Hall end.
  rewrite Forall_forall in Hl. apply Forall_forall. intros b Hin.
  split; [|by apply Hl]. unfold plain_byte, display_byte.
  apply list_elem_of_In, Hall in Hin. apply orb_true_iff in Hin as [->| ->]; simpl; [done|].
  by rewrite orb_true_r.
Qed.

Lemma digit_owner_byte l : Forall digit l -> Forall owner_byte l.
Proof.
  intros Hl. eapply Forall_impl; [exact Hl|]. intros b Hb. unfold digit, owner_byte, plain_byte, display_byte,
    is_ascii_alphanumeric, to_ascii_lowercase in *. zdecide. done.
Qed.

Lemma owner_byte_labels ls :
  Forall (Forall owner_byte) ls -> map canonical_label ls = ls /\ Forall (Forall plain_byte) ls.
Proof.
  unfold canonical_label. induction 1 as [|l ls Hl _ [IH1 IH2]]; [done|]. simpl. rewrite IH1.
  split; [f_equal|constructor; [|done]].
  - clear -Hl. induction Hl as [|b l [_ Hb] _ IH]; simpl; congruence.
  - eapply Forall_impl; [exact Hl|]. by intros b [? _].
Qed.

(** What [derive] establishes about its owner. *)
Lemma derive_inv host port t o :
  in_u16 port -> owner_derive host port t = Ok o ->
  let labels := (95 :: decimal port) :: transport_label t :: split_on 46 (owner_host o) in
  owner_host o = lowercase (strip_dot host) /\ owner_port o = port /\ owner_transport o = t /\
  validate_host (owner_host o) = Ok tt /\
  owner_resolver_name o = 95 :: decimal port ++ 46 :: transport_label t ++ 46 :: owner_host o /\
  owner_fqdn o = owner_resolver_name o ++ [46] /\ zlen (owner_resolver_name o) <= 253 /\
  split_on 46 (owner_resolver_name o) = labels /\
  Forall (fun l => 1 <= zlen l <= 63) labels /\ Forall (Forall owner_byte) labels.
Proof.
  intros Hp E. unfold owner_derive in E. do 3 (case_match; [done|]).
  destruct (validate_host _) as [[]|] eqn:Ev; [|done]. case_match; [done|]. simplify_eq/=. breflect.
  destruct (decimal_port port Hp) as [Hd Hdl].
  assert (Ht : 46 ∉ transport_label t) by (destruct t; set_solver).
  assert (Hd46 : 46 ∉ 95 :: decimal port).
  { apply not_elem_of_cons. split; [done|]. rewrite Forall_forall in Hd. intros Hin.
    apply Hd in Hin. unfold digit in Hin. lia. }
  assert (Hlow : Forall (fun b => to_ascii_lowercase b = b) (lowercase (strip_dot host))).
  { unfold lowercase. clear. induction (strip_dot host); constructor; auto using lowercase_idem. }
  apply split_on_forall in Hlow. destruct (validate_host_labels _ Ev) as (_ & _ & Hlab).
  split_and!; try done.
  - by rewrite <- (split_on_first 46 _ _ Ht), <- (split_on_first 46 _ _ Hd46).
  - constructor; [rewrite zlen_cons; lia|]. constructor; [destruct t; done|].
    apply Forall_forall. intros l Hl. rewrite Forall_forall in Hlab, Hlow.
    by apply host_label_ok; [apply Hlab|apply Hlow].
  - constructor; [|constructor].
    + constructor; [done|]. by apply digit_owner_byte.
    + destruct t; repeat constructor.
    + apply Forall_forall. intros l Hl. rewrite Forall_forall in Hlab, Hlow.
      by apply host_label_ok; [apply Hlab|apply Hlow].
Qed.

Lemma display_labels l ls :
  Forall (Forall plain_byte) (l :: ls) ->
  name_display {| name_labels := l :: ls |} = (l ++ concat (map (cons 46) ls)) ++ [46].
Proof.
  intros Hp. inversion Hp as [|? ? Hl Hls]; subst. unfold name_display. simpl.
  rewrite display_plain, app_assoc by done. do 2 f_equal.
  clear Hp. induction Hls as [|k ls Hk _ IH]; simpl; [done|]. by rewrite display_plain, IH.
Qed.

(** The owner [derive] returns is a valid DNS name: parsing its absolute
    form gives a name of at most 255 wire octets whose labels are the
    underscored port, the transport label and the labels of the normalised
    host, and printing that name gives the owner back. *)
Theorem owner_is_dns_name host port transport o :
  in_u16 port -> owner_derive host port transport = Ok o ->
  exists n, from_ascii (owner_fqdn o) = Ok n /\
    name_labels n = (95 :: decimal port) :: transport_label transport
                    :: split_on 46 (owner_host o) /\
    name_wire_len n <= MAX_WIRE_NAME_LEN /\ name_display n = owner_fqdn o.
Proof.
  intros Hp E. destruct (derive_inv _ _ _ _ Hp E)
    as (_ & _ & _ & _ & Hrn & Hfq & Hlen & Hsplit & Hlab & Hown).
  destruct (owner_byte_labels _ Hown) as [Hcan Hplain].
  pose proof (split_on_len (owner_resolver_name o)) as Hll. rewrite Hsplit in Hll.
  rewrite Hfq, from_ascii_dotted, Hsplit by (rewrite Hrn; done).
  eexists {| name_labels := _ |}. split_and!; [|reflexivity| |].
  - apply from_labels_loop_spec; [done|].
    split_and!; [done|unfold MAX_WIRE_NAME_LEN; lia|]. by rewrite Hcan.
  - rewrite wire_len_labels. cbn [name_labels]. unfold MAX_WIRE_NAME_LEN. lia.
  - rewrite display_labels by done. f_equal.
    destruct (split_on_join (owner_resolver_name o)) as (l & ls & Es & Hj & _).
    rewrite Hsplit in Es. by simplify_eq.
Qed.

(** [https://WWW.hns/]. *)
Definition sample_host : list Z := [87; 87; 87; 46; 104; 110; 115; 46].

Lemma owner_is_dns_name_witness :
  exists o n, owner_derive sample_host 443 Tcp = Ok o /\ from_ascii (owner_fqdn o) = Ok n /\
    name_labels n = [[95; 52; 52; 51]; [95; 116; 99; 112]; [119; 119; 119]; [104; 110; 115]].
Proof.
  destruct (owner_derive sample_host 443 Tcp) as [o|] eqn:E; [|vm_compute in E; discriminate E].
  destruct (owner_is_dns_name sample_host 443 Tcp o ltac:(width_lia) E) as (n & E1 & E2 & _ & _).
  exists o, n. split; [reflexivity|]. split; [exact E1|]. rewrite E2.
  vm_compute in E. injection E as <-. vm_compute. reflexivity.
Defined.

Lemma strip_dot_id s : ends_with_dot s = false -> strip_dot s = s.
Proof.
  unfold ends_with_dot, strip_dot. intros H. case_bool_decide as Hl; [done|].
  destruct (last s) as [b|] eqn:E; [|done]. by repeat case_match; subst.
Qed.

Lemma last_lowercase s : last (lowercase s) = to_ascii_lowercase <$> last s.
Proof. apply fmap_last. Qed.

Lemma lowercase_twice s : lowercase (lowercase s) = lowercase s.
Proof. unfold lowercase. induction s; simpl; f_equal; auto using lowercase_idem. Qed.

Definition host_char (b : Z) : bool := is_ascii_alphanumeric b || (b =? 45) || (b =? 46).

Lemma split_on_chars (P : Z -> Prop) s :
  Forall (Forall P) (split_on 46 s) -> Forall (fun b => P b \/ b = 46) s.
Proof.
  induction s as [|b s IH]; simpl; intros Hs; [constructor|].
  destruct (b =? 46) eqn:E; breflect; [inversion Hs; subst; auto|].
  destruct (split_on_join s) as (l & ls & Es & _). rewrite Es in *.
  inversion Hs as [|? ? Hbl Hls]; subst. inversion Hbl; subst. auto.
Qed.

Lemma host_chars s : validate_host s = Ok tt -> Forall (fun b => host_char b = true) s.
Proof.
  intros Hv. destruct (validate_host_labels s Hv) as (_ & _ & Hlab).
  assert (Forall (Forall (fun b => is_ascii_alphanumeric b || (b =? 45) = true)) (split_on 46 s)) as Hc.
  { eapply Forall_impl; [exact Hlab|]. intros l Hl. unfold bad_host_label in Hl. breflect.
    apply Forall_forall. intros b Hb.
    match goal with H : forallb _ _ = true |- _ => rewrite forallb_forall in H; apply H end.
    by apply list_elem_of_In. }
  apply split_on_chars in Hc. eapply Forall_impl; [exact Hc|].
  intros b [Hb| ->]; [|done]. unfold host_char. by rewrite Hb.
Qed.

(** No white space at either end of a string of ASCII host characters. *)
Lemma trim_host s : Forall (fun b => host_char b = true) s -> trim_changes s = false.
Proof.
  intros Hs. unfold trim_changes.
  assert (Hno : forall w k, w <> [] -> Forall (fun b => host_char b = false) w ->
    Forall (fun b => host_char b = true) k -> take (length w) k <> w).
  { intros [|b w] k Hw Hb Hk E; [done|]. destruct k as [|b' k]; [done|].
    inversion Hb; inversion Hk; subst. simpl in E. simplify_eq. congruence. }
  assert (Hws : Forall (fun w => w <> [] /\ Forall (fun b => host_char b = false) w) white_space)
    by (repeat constructor; done).
  apply not_true_is_false. rewrite existsb_exists. intros (w & Hin & Hw).
  apply list_elem_of_In in Hin. rewrite Forall_forall in Hws. destruct (Hws w Hin) as [Hne Hf].
  apply orb_true_iff in Hw as [Hw|Hw]; apply bool_decide_eq_true in Hw.
  - by apply (Hno w s).
  - apply (Hno (reverse w) (reverse s)).
    + intros E. apply Hne. by rewrite <- (reverse_involutive w), E.
    + by apply Forall_reverse.
    + by apply Forall_reverse.
    + by rewrite length_reverse.
Qed.

Lemma valid_host_no_dot s : validate_host s = Ok tt -> ends_with_dot s = false.
Proof.
  intros Hv. destruct (validate_host_labels s Hv) as (Hz & _ & Hlab).
  unfold ends_with_dot. apply bool_decide_eq_false. intros Hl.
  apply last_Some in Hl as [s' ->].
  assert (exists ls, split_on 46 (s' ++ [46]) = ls ++ [[]]) as [ls E].
  { clear. induction s' as [|b s' [ls IH]]; [by exists [[]]|]. simpl.
    rewrite IH. destruct (b =? 46); [by exists ([] :: ls)|].
    destruct ls as [|l ls]; simpl; [|by exists ((b :: l) :: ls)].
    exfalso. destruct s' as [|b' s']; simpl in IH; [done|]. destruct (b' =? 46); simplify_eq.
    all: destruct (split_on_join (s' ++ [46])) as (l & ls & Es & _); rewrite Es in IH; done. }
  rewrite E in Hlab. apply Forall_app in Hlab as [_ Hlab]. inversion Hlab; subst. done.
Qed.

(** The owner is canonical: deriving again from its host, with or
    without a root dot, gives the same owner, and the host is never an address
    literal. *)
Theorem owner_derivation_canonical host port transport o :
  in_u16 port -> owner_derive host port transport = Ok o ->
  owner_derive (owner_host o) port transport = Ok o /\
  owner_derive (owner_host o ++ [46]) port transport = Ok o /\
  ip_addr_from_str (owner_host o) = false.
Proof.
  intros Hp E. destruct (derive_inv _ _ _ _ Hp E)
    as (Hh & Hpo & Htr & Hv & Hrn & Hfq & Hlen & _ & _ & _).
  pose proof (valid_host_no_dot _ Hv) as Hnd.
  assert (Hpz : (port =? 0) = false) by (unfold owner_derive in E; by destruct (port =? 0)).
  assert (Hlow : lowercase (owner_host o) = owner_host o) by (rewrite Hh; apply lowercase_twice).
  assert (Hgen : forall h, trim_changes h = false -> strip_dot h = owner_host o ->
    owner_derive h port transport = Ok o).
  { intros h Ht Hs. unfold owner_derive. rewrite Hpz, Ht, Hs, Hnd, Hlow, Hv, <- Hrn.
    unfold MAX_DNS_NAME_BYTES. zdecide. rewrite <- Hfq, <- Hpo, <- Htr. by destruct o. }
  split_and!.
  - apply Hgen; [by apply trim_host, host_chars|by apply strip_dot_id].
  - apply Hgen.
    + apply trim_host, Forall_app. split; [by apply host_chars|by repeat constructor].
    + unfold strip_dot. by rewrite last_snoc, removelast_last.
  - by destruct (validate_host_labels _ Hv) as (_ & ? & _).
Qed.

Lemma owner_derivation_canonical_witness :
  exists o, owner_derive sample_host 443 Tcp = Ok o /\ owner_host o = [119; 119; 119; 46; 104; 110; 115] /\
    owner_derive (owner_host o) 443 Tcp = Ok o.
Proof.
  destruct (owner_derive sample_host 443 Tcp) as [o|] eqn:E; [|vm_compute in E; discriminate E].
  exists o. split; [reflexivity|]. split.
  - vm_compute in E. injection E as <-. reflexivity.
  - refine (proj1 (owner_derivation_canonical sample_host 443 Tcp o _ E)). width_lia.
Defined.

(** The decision is fail closed: DANE is enforced exactly for a secure,
    non-empty, undenied answer of an authenticated validating resolver, WebPKI
    is retained exactly for its authenticated absence or a proven-insecure
    delegation without conflicting denial, and no evidence permits both; every
    other evidence is an error. *)
Theorem browser_decision_fails_closed e :
  let trusted := ev_resolver_authentication e = Authenticated /\ ev_query_mode e = Validate in
  (forall n, decide_browser_tls e = Ok (EnforceDane n) <->
     trusted /\ ev_dnssec e = Secure /\ ev_denial e = DenialNone /\
     n = ev_tlsa_record_count e /\ n <> 0) /\
  ((exists d, decide_browser_tls e = Ok d /\ permits_webpki d = true) <->
     trusted /\
     ((ev_dnssec e = Secure /\ ev_tlsa_record_count e = 0 /\ ev_denial e = DenialAuthenticated) \/
      (ev_dnssec e = InsecureDelegation /\ ev_denial e = DenialNone))) /\
  (forall d, decide_browser_tls e = Ok d -> enforces_dane d = negb (permits_webpki d)).
Proof.
  destruct e as [auth mode st count denial]. unfold decide_browser_tls, nonzero; simpl.
  destruct auth, mode, st, denial; simpl;
    try (destruct (count =? 0) eqn:E; breflect); split_and!; naive_solver.
Qed.

Lemma browser_decision_fails_closed_witness :
  decide_browser_tls {| ev_resolver_authentication := Authenticated; ev_query_mode := Validate;
    ev_dnssec := Secure; ev_tlsa_record_count := 2; ev_denial := DenialNone |} = Ok (EnforceDane 2).
Proof. apply browser_decision_fails_closed. simpl. split_and!; done. Defined.
