(* ===== verification/LightChain.v ===== *)
(** * Light header chain

    Models the chain half of [src/crates/hns-light-chain/src/lib.rs]: header
    entries, the bounded history, transactional appends, currency, the block
    locator and the authenticated snapshot. Header consensus, the byte encoder
    and the checksum hash are external crates: the class [ChainExternals] names
    what is used of them, and [ChainExternalsLaws] what is relied on. *)

From Stdlib Require Import Sorted.
From S2P Require Import Prelude.

Definition MEDIAN_TIME_SPAN : Z := 11.
Definition REQUIRED_DIFFICULTY_HISTORY : Z := 147.
Definition DEFAULT_MAX_HEADERS_PER_BATCH : Z := 4096.
Definition MAX_HEADERS_PER_BATCH_LIMIT : Z := 4096.
Definition MAX_LOCATOR_HASHES : Z := 43.
Definition MAX_LIGHT_CHAIN_SNAPSHOT_BYTES : Z := 64 * 1024.
(** ["HNS-LIGHT-CHAIN-SNAPSHOT\0"]. *)
Definition LIGHT_CHAIN_SNAPSHOT_MAGIC : list Z :=
  [72; 78; 83; 45; 76; 73; 71; 72; 84; 45; 67; 72; 65; 73; 78; 45; 83; 78; 65; 80; 83; 72;
   79; 84; 0].
Definition LIGHT_CHAIN_SNAPSHOT_SCHEMA : Z := 1.
(** ["HNS-LIGHT-CHAIN-SNAPSHOT-V1\0"]. *)
Definition LIGHT_CHAIN_SNAPSHOT_CHECKSUM_DOMAIN : list Z :=
  [72; 78; 83; 45; 76; 73; 71; 72; 84; 45; 67; 72; 65; 73; 78; 45; 83; 78; 65; 80; 83; 72;
   79; 84; 45; 86; 49; 0].

(** ** Entries *)

Record HeaderEntry := {
  e_height : Z;
  e_hash : list Z;
  e_previous_block : list Z;
  e_tree_root : list Z;
  e_merkle_root : list Z;
  e_time : Z;
  e_bits : Z;
  e_chainwork : Z }.

#[export] Instance HeaderEntry_eq_dec : EqDecision HeaderEntry.
Proof. solve_decision. Defined.

Record DifficultyPoint := { dp_height : Z; dp_time : Z; dp_bits : Z; dp_chainwork : Z }.

Definition difficulty_point (e : HeaderEntry) : DifficultyPoint :=
  {| dp_height := e_height e; dp_time := e_time e; dp_bits := e_bits e;
     dp_chainwork := e_chainwork e |}.

(** [hns_header_consensus::Network], whose four values [decode_network] lists. *)
Inductive Network := Mainnet | Testnet | Regtest | Simnet.

#[export] Instance Network_eq_dec : EqDecision Network.
Proof. solve_decision. Defined.

Record HeaderValidationContext := {
  ctx_height : Z;
  ctx_previous_block : list Z;
  ctx_median_time : Z;
  ctx_now : Z;
  ctx_expected_bits : Z }.

(** ** External code *)

(** Header consensus, primitives, byte encoding and BLAKE2b, as far as the
    chain calls them. A reader maps the remaining input to a value and the rest. *)
Class ChainExternals := {
  Header : Type;
  HeaderError : Type;
  ArithmeticError : Type;
  DecodeError : Type;
  CovenantError : Type;
  UrkelError : Type;
  header_previous_block : Header -> list Z;
  header_tree_root : Header -> list Z;
  header_merkle_root : Header -> list Z;
  header_time : Header -> Z;
  header_bits : Header -> Z;
  block_hash : Header -> list Z;
  genesis_header : Network -> Header;
  genesis_hash : Network -> list Z;
  genesis_time : Network -> Z;
  pow_bits : Network -> Z;
  target_window : Network -> Z;
  network_id : Network -> Z;
  expected_next_bits : Network -> Z -> DifficultyPoint -> option DifficultyPoint ->
    option DifficultyPoint -> result HeaderError Z;
  validate_header : Network -> Header -> HeaderValidationContext -> result HeaderError Z;
  chainwork_checked_add : Z -> Z -> result ArithmeticError Z;
  put_u8 : Z -> list Z;
  put_u16_le : Z -> list Z;
  put_u32_le : Z -> list Z;
  put_u64_le : Z -> list Z;
  chainwork_to_be_bytes : Z -> list Z;
  read_u8 : list Z -> result DecodeError (Z * list Z);
  read_u16_le : list Z -> result DecodeError (Z * list Z);
  read_u32_le : list Z -> result DecodeError (Z * list Z);
  read_u64_le : list Z -> result DecodeError (Z * list Z);
  read_slice : Z -> list Z -> result DecodeError (list Z * list Z);
  read_array : Z -> list Z -> result DecodeError (list Z * list Z);
  finish : list Z -> result DecodeError unit;
  chainwork_from_be_bytes : list Z -> Z;
  blake2b_256 : list Z -> list Z }.

(** What the chain relies on: an accepted header extends the block it was
    validated against with positive work and the expected bits, chainwork adds
    up below 2^256, the retarget window fits the retained history, and readers
    invert writers. *)
Class ChainExternalsLaws `{ChainExternals} : Prop := {
  law_validate : forall n h ctx w, validate_header n h ctx = Ok w ->
    header_previous_block h = ctx_previous_block ctx /\ header_bits h = ctx_expected_bits ctx /\
    0 < w;
  law_genesis_now : forall n ctx w, validate_header n (genesis_header n) ctx = Ok w ->
    validate_header n (genesis_header n)
      {| ctx_height := ctx_height ctx; ctx_previous_block := ctx_previous_block ctx;
         ctx_median_time := ctx_median_time ctx; ctx_now := genesis_time n;
         ctx_expected_bits := ctx_expected_bits ctx |} = Ok w;
  law_genesis_hash : forall n, genesis_hash n = block_hash (genesis_header n);
  law_work_add : forall a b c, chainwork_checked_add a b = Ok c -> c = a + b /\ c < 2 ^ 256;
  law_window : forall n, 0 <= target_window n <= 144;
  law_network_id : forall n, network_id n
    = match n with Mainnet => 0 | Testnet => 1 | Regtest => 2 | Simnet => 3 end;
  law_u8 : forall v r, in_u8 v -> zlen (put_u8 v) = 1 /\ read_u8 (put_u8 v ++ r) = Ok (v, r);
  law_u16 : forall v r, in_u16 v ->
    zlen (put_u16_le v) = 2 /\ read_u16_le (put_u16_le v ++ r) = Ok (v, r);
  law_u32 : forall v r, in_u32 v ->
    zlen (put_u32_le v) = 4 /\ read_u32_le (put_u32_le v ++ r) = Ok (v, r);
  law_u64 : forall v r, in_u64 v ->
    zlen (put_u64_le v) = 8 /\ read_u64_le (put_u64_le v ++ r) = Ok (v, r);
  law_read_u32_range : forall l v r, read_u32_le l = Ok (v, r) -> in_u32 v;
  law_slice : forall l r, read_slice (zlen l) (l ++ r) = Ok (l, r);
  law_array : forall l r, read_array (zlen l) (l ++ r) = Ok (l, r);
  law_finish : finish [] = Ok tt;
  law_work_bytes : forall w, 0 <= w < 2 ^ 256 ->
    zlen (chainwork_to_be_bytes w) = 32 /\ chainwork_from_be_bytes (chainwork_to_be_bytes w) = w;
  law_checksum_len : forall l, zlen (blake2b_256 l) = 32 }.

Section chain.
Context `{ChainExternals}.

Inductive LightChainError :=
| LcHeader (e : HeaderError) | LcArithmetic (e : ArithmeticError)
| LcCovenant (e : CovenantError) | LcUrkel (e : UrkelError) | NameStateDecode (e : DecodeError)
| InvalidLimit | HeaderBatchLimit | InvalidSnapshot | SnapshotTooLarge
| SnapshotChecksumMismatch | UnsupportedSnapshot | SnapshotNetworkMismatch
| SnapshotRollback | HeightOverflow | MissingDifficultyHistory | LcTimeOverflow
| InsufficientHeight | InsufficientChainwork | StaleTip | FutureTip
| NameNotFound | NameStateNameMismatch | MissingResource | ResourceTooLarge (length : Z)
| UnknownNameStateField | FutureNameState | InvalidNameStateValue
| UnsupportedResourceVersion | UnknownResourceRecord (kind : Z) | ResourceTruncated
| InvalidResourceName | InvalidResourceNamePointer | ResourceNameCompressionLoop
| ResourceNameJumpLimit.

(** The [?] operator on an external error. *)
Definition lift {E A} (wrap : E -> LightChainError) (r : result E A) : result LightChainError A :=
  match r with Ok a => Ok a | Err e => Err (wrap e) end.

Definition chain_limits_validate (max_headers_per_batch : Z) : result LightChainError Z :=
  if (max_headers_per_batch =? 0) || (MAX_HEADERS_PER_BATCH_LIMIT <? max_headers_per_batch)
  then Err InvalidLimit else Ok max_headers_per_batch.

Record ChainSnapshotFloor := { minimum_height : Z; minimum_chainwork : Z }.

Record CurrencyPolicy := {
  cp_now : Z;
  cp_maximum_tip_age_seconds : Z;
  cp_minimum_height : Z;
  cp_minimum_chainwork : Z }.

Record LightChain := {
  lc_network : Network;
  lc_max_headers_per_batch : Z;
  lc_history : list HeaderEntry;
  lc_tip : HeaderEntry }.

Definition entry_from_header (height : Z) (header : Header) (chainwork : Z) : HeaderEntry :=
  {| e_height := height; e_hash := block_hash header;
     e_previous_block := header_previous_block header; e_tree_root := header_tree_root header;
     e_merkle_root := header_merkle_root header; e_time := header_time header;
     e_bits := header_bits header; e_chainwork := chainwork |}.

(** [BlockHash::default()]. *)
Definition zero_hash : list Z := replicate 32 0.

(** [LightChain::from_genesis]. *)
Definition from_genesis (network : Network) (now : Z) (max_headers_per_batch : Z)
    : result LightChainError LightChain :=
  let? limits := chain_limits_validate max_headers_per_batch in
  let header := genesis_header network in
  let? proof := lift LcHeader (validate_header network header
    {| ctx_height := 0; ctx_previous_block := zero_hash; ctx_median_time := 0; ctx_now := now;
       ctx_expected_bits := pow_bits network |}) in
  let tip := entry_from_header 0 header proof in
  Ok {| lc_network := network; lc_max_headers_per_batch := limits; lc_history := [tip];
        lc_tip := tip |}.

(** ** Lookups in the history *)

Definition entry_at (c : LightChain) (height : Z) : result LightChainError HeaderEntry :=
  ok_or (find (fun e => e_height e =? height) (lc_history c)) MissingDifficultyHistory.

(** Stable insertion sort by key ([sort_by_key], [sort_unstable] on integers). *)
Fixpoint insert_by {T} (key : T -> Z) (x : T) (l : list T) : list T :=
  match l with
  | [] => [x]
  | y :: rest => if key x <=? key y then x :: l else y :: insert_by key x rest
  end.
Definition sort_by {T} (key : T -> Z) (l : list T) : list T := foldr (insert_by key) [] l.

Definition median_time_past (c : LightChain) : Z :=
  let times := sort_by id (map e_time (take (Z.to_nat MEDIAN_TIME_SPAN) (reverse (lc_history c)))) in
  match times !! (length times / 2)%nat with
  | Some time => time
  | None => e_time (lc_tip c)
  end.

Definition suitable_entry (c : LightChain) (height : Z) : result LightChainError HeaderEntry :=
  if height <? 2 then Err MissingDifficultyHistory else
  let first_height := height - 2 in
  let? e0 := entry_at c first_height in
  let? e1 := entry_at c (first_height + 1) in
  let? e2 := entry_at c height in
  match sort_by e_time [e0; e1; e2] !! 1%nat with
  | Some e => Ok e
  | None => Err MissingDifficultyHistory
  end.

(** ** Appending *)

(** [while history.len() > REQUIRED_DIFFICULTY_HISTORY { pop_front }]. *)
Fixpoint trim_history (history : list HeaderEntry) : list HeaderEntry :=
  match history with
  | [] => []
  | _ :: rest => if REQUIRED_DIFFICULTY_HISTORY <? zlen history then trim_history rest
                 else history
  end.

(** The two retarget points [append] passes on, once the chain is long enough. *)
Definition suitable_points (c : LightChain)
    : result LightChainError (option DifficultyPoint * option DifficultyPoint) :=
  let height := e_height (lc_tip c) in
  let window := target_window (lc_network c) in
  if Z.min (window + 2) u32_max <=? height then
    if height <? window then Err MissingDifficultyHistory else
    let? first := suitable_entry c (height - window) in
    let? last := suitable_entry c height in
    Ok (Some (difficulty_point first), Some (difficulty_point last))
  else Ok (None, None).

(** [LightChain::append]: on an error the chain is unchanged. *)
Definition append (c : LightChain) (header : Header) (now : Z)
    : result LightChainError (LightChain * HeaderEntry) :=
  let tip := lc_tip c in
  let? next_height := ok_or (if u32_max <? e_height tip + 1 then None else Some (e_height tip + 1))
                            HeightOverflow in
  let? (first_suitable, last_suitable) := suitable_points c in
  let? expected_bits := lift LcHeader
    (expected_next_bits (lc_network c) (header_time header) (difficulty_point tip)
       first_suitable last_suitable) in
  let? proof := lift LcHeader (validate_header (lc_network c) header
    {| ctx_height := next_height; ctx_previous_block := e_hash tip;
       ctx_median_time := median_time_past c; ctx_now := now;
       ctx_expected_bits := expected_bits |}) in
  let? chainwork := lift LcArithmetic (chainwork_checked_add (e_chainwork tip) proof) in
  let entry := entry_from_header next_height header chainwork in
  Ok ({| lc_network := lc_network c; lc_max_headers_per_batch := lc_max_headers_per_batch c;
         lc_history := trim_history (lc_history c ++ [entry]); lc_tip := entry |}, entry).

(** The loop of [append_batch] over its private copy. *)
Fixpoint append_all (candidate : LightChain) (headers : list Header) (now : Z)
    : result LightChainError LightChain :=
  match headers with
  | [] => Ok candidate
  | header :: rest =>
      let? (candidate, _) := append candidate header now in
      append_all candidate rest now
  end.

(** [LightChain::append_batch]: the chain afterwards, and the result. *)
Definition append_batch (c : LightChain) (headers : list Header) (now : Z)
    : LightChain * result LightChainError HeaderEntry :=
  if (zlen headers =? 0) || (lc_max_headers_per_batch c <? zlen headers)
  then (c, Err HeaderBatchLimit) else
  match append_all c headers now with
  | Err e => (c, Err e)
  | Ok candidate => (candidate, Ok (lc_tip candidate))
  end.

(** ** Currency *)

Record HnsAnchor := {
  anchor_network : Network;
  anchor_height : Z;
  anchor_block_hash : list Z;
  anchor_tree_root : list Z;
  anchor_chainwork : Z;
  anchor_validated_at : Z;
  anchor_valid_until : Z }.

(** [LightChain::require_current]. *)
Definition require_current (c : LightChain) (policy : CurrencyPolicy)
    : result LightChainError HnsAnchor :=
  let tip := lc_tip c in
  if e_height tip <? cp_minimum_height policy then Err InsufficientHeight else
  if e_chainwork tip <? cp_minimum_chainwork policy then Err InsufficientChainwork else
  let? valid_until := ok_or (checked_add (e_time tip) (cp_maximum_tip_age_seconds policy))
                            LcTimeOverflow in
  if valid_until <? cp_now policy then Err StaleTip else
  if saturating_add (cp_now policy) 7200 <? e_time tip then Err FutureTip else
  Ok {| anchor_network := lc_network c; anchor_height := e_height tip;
        anchor_block_hash := e_hash tip; anchor_tree_root := e_tree_root tip;
        anchor_chainwork := e_chainwork tip; anchor_validated_at := cp_now policy;
        anchor_valid_until := valid_until |}.

(** ** Locator *)

(** [u32::saturating_mul] by two and [u32::saturating_sub]. *)
Definition double_step (step : Z) : Z := Z.min (step * 2) u32_max.
Definition back_step (height step : Z) : Z := Z.max (height - step) 0.

(** One turn of the loop of [locator]: height, step and hashes so far. *)
Definition locator_step (c : LightChain) (st : Z * Z * list (list Z))
    : result Empty_set ((Z * Z * list (list Z)) + list (list Z)) :=
  let '(height, step, locator) := st in
  match entry_at c height with
  | Err _ => Ok (inr locator)
  | Ok entry =>
      let locator := locator ++ [e_hash entry] in
      if height =? 0 then Ok (inr locator) else
      let step := if 10 <=? zlen locator then double_step step else step in
      Ok (inl (back_step height step, step, locator))
  end.

(** [LightChain::locator]. *)
Definition locator (c : LightChain) : list (list Z) :=
  let hashes :=
    match loop (S (S (length (lc_history c)))) (locator_step c) (e_height (lc_tip c), 1, []) with
    | Some (Ok hashes) => hashes
    | _ => []
    end in
  let genesis := genesis_hash (lc_network c) in
  if bool_decide (last hashes = Some genesis) then hashes else hashes ++ [genesis].

(** ** The chain invariant *)

(** One entry directly extends another. *)
Definition extends (a b : HeaderEntry) : Prop :=
  e_height b = e_height a + 1 /\ e_previous_block b = e_hash a /\ e_chainwork a < e_chainwork b.

Fixpoint linked (history : list HeaderEntry) : Prop :=
  match history with
  | a :: (b :: _) as rest => extends a b /\ linked rest
  | _ => True
  end.

(** The entry of a network's genesis header. *)
Definition genesis_entry (n : Network) (e : HeaderEntry) : Prop :=
  exists now work, e = entry_from_header 0 (genesis_header n) work /\
    validate_header n (genesis_header n)
      {| ctx_height := 0; ctx_previous_block := zero_hash; ctx_median_time := 0; ctx_now := now;
         ctx_expected_bits := pow_bits n |} = Ok work.

Record chain_inv (c : LightChain) : Prop := {
  inv_tip : last (lc_history c) = Some (lc_tip c);
  inv_linked : linked (lc_history c);
  inv_length : zlen (lc_history c) = Z.min (e_height (lc_tip c) + 1) REQUIRED_DIFFICULTY_HISTORY;
  inv_height : in_u32 (e_height (lc_tip c));
  inv_genesis : forall e, head (lc_history c) = Some e -> e_height e = 0 ->
    genesis_entry (lc_network c) e;
  inv_limit : chain_limits_validate (lc_max_headers_per_batch c) = Ok (lc_max_headers_per_batch c) }.

Lemma linked_app l a b : linked (l ++ [a]) -> extends a b -> linked ((l ++ [a]) ++ [b]).
Proof.
  induction l as [|x l IH]; intros Hl Hab; simpl in *; [done|].
  destruct l as [|y l]; simpl in *; naive_solver.
Qed.

Lemma linked_tail x l : linked (x :: l) -> linked l.
Proof. destruct l; [done|]. by intros [_ ?]. Qed.

Lemma trim_spec l :
  zlen l <= REQUIRED_DIFFICULTY_HISTORY + 1 ->
  (zlen l <= REQUIRED_DIFFICULTY_HISTORY -> trim_history l = l) /\
  (zlen l = REQUIRED_DIFFICULTY_HISTORY + 1 -> trim_history l = tail l).
Proof.
  unfold REQUIRED_DIFFICULTY_HISTORY. destruct l as [|x l]; intros Hlen; simpl; [done|].
  unfold REQUIRED_DIFFICULTY_HISTORY in *. rewrite zlen_cons in *.
  split; intros Hl; zdecide; [done|].
  destruct l as [|y l]; [done|]. simpl. unfold REQUIRED_DIFFICULTY_HISTORY.
  zdecide_with ltac:(lia). done.
Qed.

(** Heights along a linked list. *)
Lemma linked_heights l (i : nat) a e :
  linked l -> head l = Some a -> l !! i = Some e -> e_height e = e_height a + Z.of_nat i.
Proof.
  revert i a. induction l as [|x l IH]; intros [|i] a Hl Ha He; simplify_eq/=; [lia|].
  destruct l as [|y l]; [done|]. destruct Hl as [(Hxy & _) Hl].
  rewrite (IH i y Hl eq_refl He). lia.
Qed.

Lemma linked_find l a h :
  linked l -> head l = Some a -> e_height a <= h < e_height a + zlen l ->
  exists e, find (fun e => e_height e =? h) l = Some e /\ e_height e = h /\ e ∈ l.
Proof.
  revert a. induction l as [|x l IH]; intros a Hl Ha Hh; simplify_eq/=.
  destruct (e_height a =? h) eqn:E; breflect; [exists a; split_and!; [done..|left]|].
  rewrite zlen_cons in Hh. destruct l as [|y l]; [rewrite zlen_nil in Hh; lia|].
  destruct Hl as [(Hay & _) Hl].
  destruct (IH y Hl eq_refl) as (e & He & Heh & Hin); [lia|].
  exists e. split_and!; [done..|by right].
Qed.

Lemma length_sort_by {T} (key : T -> Z) l : length (sort_by key l) = length l.
Proof.
  assert (forall x k, length (insert_by key x k) = S (length k)) as Hi.
  { intros x k. induction k; simpl; [done|]. case_match; simpl; auto. }
  induction l as [|x l IH]; simpl; [done|]. by rewrite Hi, IH.
Qed.

Lemma inv_head c : chain_inv c ->
  exists a, head (lc_history c) = Some a /\
    e_height a = e_height (lc_tip c) - zlen (lc_history c) + 1.
Proof.
  intros [Ht Hl Hlen Hh _ _]. destruct (lc_history c) as [|a l] eqn:E; [done|].
  exists a. split; [done|]. rewrite last_lookup in Ht.
  apply (linked_heights _ _ a _ Hl eq_refl) in Ht. simpl in Ht. rewrite zlen_cons.
  unfold zlen. lia.
Qed.

Lemma entry_at_found c h :
  chain_inv c -> e_height (lc_tip c) - zlen (lc_history c) < h <= e_height (lc_tip c) ->
  exists e, entry_at c h = Ok e /\ e_height e = h /\ e ∈ lc_history c.
Proof.
  intros Hi Hh. destruct (inv_head c Hi) as (a & Ha & Hah).
  destruct (linked_find (lc_history c) a h) as (e & He & ? & ?); [apply Hi|done|lia|].
  exists e. unfold entry_at. by rewrite He.
Qed.
End chain.

Section chain_laws.
Context `{Laws : ChainExternalsLaws}.

Lemma genesis_inv network now limit c :
  from_genesis network now limit = Ok c -> chain_inv c /\ lc_network c = network.
Proof.
  intros E. unfold from_genesis, lift in E.
  destruct (chain_limits_validate limit) as [l|] eqn:El; [|done].
  destruct (validate_header _ _ _) as [w|] eqn:Ew; [|done]. apply Ok_inj in E as <-.
  assert (l = limit) as -> by (unfold chain_limits_validate in El; by case_match; simplify_eq).
  split; [|done]. constructor; simpl; try done.
  intros e [= <-] _. by exists now, w.
Qed.

(** What a successful append does. *)
Lemma append_inv c header now c' e :
  append c header now = Ok (c', e) ->
  lc_network c' = lc_network c /\ lc_max_headers_per_batch c' = lc_max_headers_per_batch c /\
  lc_tip c' = e /\ lc_history c' = trim_history (lc_history c ++ [e]) /\
  e_height e = e_height (lc_tip c) + 1 /\ e_height e <= u32_max /\
  e_hash e = block_hash header /\ extends (lc_tip c) e.
Proof.
  intros E. unfold append, lift in E.
  destruct (u32_max <? e_height (lc_tip c) + 1) eqn:Eh; [done|]. cbn [ok_or] in E. breflect.
  destruct (suitable_points c) as [[p q]|]; [|done].
  destruct (expected_next_bits _ _ _ _ _) as [bits|]; [|done].
  destruct (validate_header _ _ _) as [w|] eqn:Ew; [|done].
  destruct (chainwork_checked_add _ _) as [work|] eqn:Ea; [|done]. simplify_eq/=.
  apply law_validate in Ew as (Hprev & _ & Hw). apply law_work_add in Ea as [-> _].
  split_and!; try done. split_and!; simpl; done || lia.
Qed.

Lemma append_preserves c header now c' e :
  chain_inv c -> append c header now = Ok (c', e) -> chain_inv c'.
Proof.
  intros Hi E. destruct (append_inv _ _ _ _ _ E) as (Hn & Hm & Ht & Hh & He & Hle & _ & Hext).
  destruct Hi as [Hit Hil Hilen Hih Hig Hilim].
  apply last_Some in Hit as [l Hl].
  assert (Hlink : linked (lc_history c ++ [e])) by (rewrite Hl in *; by apply linked_app).
  assert (Hz : zlen (lc_history c ++ [e]) = zlen (lc_history c) + 1)
    by (rewrite zlen_app, zlen_cons, zlen_nil; lia).
  destruct (trim_spec (lc_history c ++ [e])) as [Hshort Hlong];
    [rewrite Hz, Hilen; unfold REQUIRED_DIFFICULTY_HISTORY; lia|].
  unfold REQUIRED_DIFFICULTY_HISTORY in *.
  constructor; rewrite ?Hn, ?Hm, ?Ht, ?Hh, ?He; try done; unfold REQUIRED_DIFFICULTY_HISTORY;
    destruct (decide (zlen (lc_history c) = 147)) as [Hfull|Hroom].
  - rewrite Hlong by lia. rewrite Hl in Hfull |- *. destruct l as [|x l]; [done|].
    simpl tail. by rewrite last_snoc.
  - rewrite Hshort by lia. by rewrite last_snoc.
  - rewrite Hlong by lia. destruct (lc_history c ++ [e]) as [|x k]; [done|]. by apply linked_tail in Hlink.
  - by rewrite Hshort by lia.
  - rewrite Hlong by lia. destruct (lc_history c ++ [e]) as [|x k] eqn:Ek; [by destruct (lc_history c)|].
    simpl. rewrite zlen_cons in Hz. lia.
  - rewrite Hshort, Hz by lia. lia.
  - width_lia.
  - width_lia.
  - intros e' He' H0'. exfalso. rewrite Hlong in He' by lia.
    destruct (inv_head c) as (a & Ha & Hah); [constructor; try done; rewrite Hl; apply last_snoc|].
    assert (Hlk : (lc_history c ++ [e]) !! 1%nat = Some e')
      by (by destruct (lc_history c ++ [e]) as [|? [|? ?]]).
    assert (Ha' : head (lc_history c ++ [e]) = Some a) by (by destruct (lc_history c)).
    pose proof (linked_heights _ _ _ _ Hlink Ha' Hlk). lia.
  - rewrite Hshort by lia. intros e' He' H0'. apply Hig; [|done].
    destruct (lc_history c); [by destruct l|done].
Qed.

(** The retained history always holds the blocks the retarget rule needs. *)
Lemma suitable_points_found c : chain_inv c -> exists points, suitable_points c = Ok points.
Proof.
  intros Hi. unfold suitable_points. pose proof (law_window (lc_network c)) as Hw.
  pose proof (inv_length _ Hi) as Hlen. pose proof (inv_height _ Hi) as Hh.
  unfold REQUIRED_DIFFICULTY_HISTORY in Hlen. width.
  assert (Hs : forall h, 2 <= h <= e_height (lc_tip c) ->
    e_height (lc_tip c) - zlen (lc_history c) < h - 2 ->
    exists e, suitable_entry c h = Ok e).
  { intros h Hh2 Hlow. unfold suitable_entry. zdecide.
    destruct (entry_at_found c (h - 2) Hi) as (e0 & -> & _); [lia|].
    destruct (entry_at_found c (h - 2 + 1) Hi) as (e1 & -> & _); [lia|].
    destruct (entry_at_found c h Hi) as (e2 & -> & _); [lia|].
    destruct (lookup_lt_is_Some_2 (sort_by e_time [e0; e1; e2]) 1) as [e ->];
      [rewrite length_sort_by; simpl; lia|eauto]. }
  case_match eqn:E; [|eauto]. breflect. zdecide.
  destruct (Hs (e_height (lc_tip c) - target_window (lc_network c))) as [e0 ->]; [lia..|].
  destruct (Hs (e_height (lc_tip c))) as [e1 ->]; [lia..|]. eauto.
Qed.

Lemma append_not_missing c header now :
  chain_inv c -> append c header now <> Err MissingDifficultyHistory.
Proof.
  intros Hi E. destruct (suitable_points_found c Hi) as [[p q] Ep].
  unfold append, lift in E. rewrite Ep in E. by repeat case_match; simplify_eq/=.
Qed.

Lemma append_all_spec headers c now c' :
  chain_inv c -> append_all c headers now = Ok c' ->
  chain_inv c' /\ lc_network c' = lc_network c /\
  lc_max_headers_per_batch c' = lc_max_headers_per_batch c /\
  e_height (lc_tip c') = e_height (lc_tip c) + zlen headers /\
  e_chainwork (lc_tip c) + zlen headers <= e_chainwork (lc_tip c') /\
  (forall h, last headers = Some h -> e_hash (lc_tip c') = block_hash h).
Proof.
  revert c. induction headers as [|h headers IH]; intros c Hi E; simpl in E.
  { simplify_eq. rewrite zlen_nil. split_and!; done || lia. }
  destruct (append c h now) as [[c1 e]|] eqn:Ea; [|done].
  pose proof (append_preserves _ _ _ _ _ Hi Ea) as Hi1.
  destruct (append_inv _ _ _ _ _ Ea) as (Hn & Hm & Ht & _ & He & _ & Hhash & (_ & _ & Hwork)).
  destruct (IH c1 Hi1 E) as (Hi' & Hn' & Hm' & Hh' & Hw' & Hl').
  rewrite zlen_cons. subst e. split_and!; try done; try congruence; try lia.
  intros h' Hh0. destruct headers as [|h1 headers]; [|by apply Hl'].
  simplify_eq/=. by simplify_eq.
Qed.

(** ** Sorting and the median *)

Lemma insert_by_perm (x : Z) l : insert_by id x l ≡ₚ x :: l.
Proof.
  induction l as [|y l IH]; simpl; [done|]. case_match; [done|].
  rewrite IH. by constructor.
Qed.

Lemma sort_by_perm (l : list Z) : sort_by id l ≡ₚ l.
Proof. induction l as [|x l IH]; simpl; [done|]. by rewrite insert_by_perm, IH. Qed.

Lemma insert_by_sorted (x : Z) l :
  StronglySorted Z.le l -> StronglySorted Z.le (insert_by id x l).
Proof.
  induction 1 as [|y l Hl IH Hy]; simpl; [repeat constructor|]. unfold id in *.
  case_match; breflect.
  - constructor; [by constructor|]. constructor; [done|].
    eapply Forall_impl; [exact Hy|]. simpl. lia.
  - constructor; [done|]. rewrite insert_by_perm. constructor; [lia|done].
Qed.

Lemma sort_by_sorted (l : list Z) : StronglySorted Z.le (sort_by id l).
Proof. induction l; simpl; [constructor|by apply insert_by_sorted]. Qed.

Lemma sorted_split (l : list Z) (i : nat) m :
  StronglySorted Z.le l -> l !! i = Some m ->
  Forall (fun t => t <= m) (take i l) /\ Forall (fun t => m <= t) (drop (S i) l).
Proof.
  revert i. induction l as [|x l IH]; intros [|i] Hs Hi; simplify_eq/=.
  - split; [constructor|]. inversion Hs; subst. rewrite drop_0. done.
  - inversion Hs as [|? ? Hs' Hx]; subst. destruct (IH i Hs' Hi) as [H1 H2].
    split; [|done]. constructor; [|done]. rewrite Forall_forall in Hx. apply Hx.
    by eapply list_elem_of_lookup_2.
Qed.

(** ** The locator *)

Lemma entry_at_range c h e :
  chain_inv c -> entry_at c h = Ok e ->
  e_height e = h /\ e ∈ lc_history c /\
  e_height (lc_tip c) - zlen (lc_history c) < h <= e_height (lc_tip c).
Proof.
  intros Hi E. unfold entry_at in E. apply ok_or_Ok in E.
  apply find_some in E as [Hin Hh]. breflect. apply list_elem_of_In in Hin.
  split_and!; try done; destruct (inv_head c Hi) as (a & Ha & Hah);
    apply list_elem_of_lookup in Hin as [i Hin];
    pose proof (linked_heights _ _ _ _ (inv_linked _ Hi) Ha Hin); apply lookup_lt_Some in Hin;
    unfold zlen in *; lia.
Qed.

(** State of the locator loop: [n] hashes so far, the last nine steps back are
    single, later ones double. *)
Record locator_inv (c : LightChain) (st : Z * Z * list (list Z)) : Prop := {
  li_early : zlen st.2 <= 9 -> st.1.2 = 1 /\ st.1.1 = e_height (lc_tip c) - zlen st.2;
  li_late : 10 <= zlen st.2 -> zlen st.2 <= 16 /\ st.1.2 = 2 ^ (zlen st.2 - 9) /\
    st.1.1 = Z.max (e_height (lc_tip c) - 7 - 2 ^ (zlen st.2 - 8)) 0;
  li_height : 0 <= st.1.1;
  li_head : st.2 <> [] -> head st.2 = Some (e_hash (lc_tip c));
  li_known : forall x, x ∈ st.2 -> exists e, e ∈ lc_history c /\ e_hash e = x }.

Lemma pow_small k : 0 <= k -> 2 ^ k <= 139 -> k <= 7.
Proof.
  intros Hk Hp. destruct (decide (k <= 7)); [done|].
  assert (2 ^ 8 <= 2 ^ k) by (apply Z.pow_le_mono_r; lia). lia.
Qed.

(** Pushing the entry at the current height keeps the facts on the hashes. *)
Lemma locator_push c h step loc e :
  chain_inv c -> locator_inv c (h, step, loc) -> entry_at c h = Ok e ->
  head (loc ++ [e_hash e]) = Some (e_hash (lc_tip c)) /\
  (forall x, x ∈ loc ++ [e_hash e] -> exists e, e ∈ lc_history c /\ e_hash e = x) /\
  zlen (loc ++ [e_hash e]) <= 17.
Proof.
  intros Hi [Hearly Hlate _ Hhead Hknown] He. simpl in *.
  destruct (entry_at_range c h e Hi He) as (Hh & Hin & Hr). split_and!.
  - destruct loc as [|x loc]; [|by apply Hhead]. simpl.
    destruct Hearly as [_ Heq]; [rewrite zlen_nil; lia|]. rewrite zlen_nil in Heq.
    destruct (inv_head c Hi) as (a & Ha & Hah).
    pose proof (inv_tip _ Hi) as Ht. rewrite last_lookup in Ht.
    apply list_elem_of_lookup in Hin as [i Hin].
    pose proof (linked_heights _ _ _ _ (inv_linked _ Hi) Ha Hin) as H1.
    pose proof (linked_heights _ _ _ _ (inv_linked _ Hi) Ha Ht) as H2.
    assert (i = pred (length (lc_history c))) as -> by lia. congruence.
  - intros x Hx. apply elem_of_app in Hx as [Hx|Hx]; [by apply Hknown|].
    apply list_elem_of_singleton in Hx as ->. eauto.
  - rewrite zlen_app, zlen_cons, zlen_nil. destruct (decide (zlen loc <= 9)); [lia|].
    destruct Hlate; lia.
Qed.

Lemma locator_inv_step c st st' :
  chain_inv c -> locator_inv c st -> locator_step c st = Ok (inl st') ->
  locator_inv c st' /\ st'.1.1 < st.1.1 /\
  e_height (lc_tip c) - zlen (lc_history c) < st.1.1.
Proof.
  destruct st as [[h step] loc]. intros Hi Hli E. unfold locator_step in E.
  destruct (entry_at c h) as [e|] eqn:He; [|done].
  destruct (h =? 0) eqn:Eh0; [done|]. apply Ok_inj in E. injection E as <-. breflect.
  destruct (entry_at_range c h e Hi He) as (Hh & Hin & Hr).
  destruct (locator_push c h step loc e Hi Hli He) as (Hhd & Hkn & _).
  destruct Hli as [Hearly Hlate Hh0 _ _]. simpl in *.
  pose proof (inv_length _ Hi) as Hlen. unfold REQUIRED_DIFFICULTY_HISTORY in Hlen.
  set (loc' := loc ++ [e_hash e]) in *.
  assert (Hz : zlen loc' = zlen loc + 1) by (subst loc'; rewrite zlen_app, zlen_cons, zlen_nil; lia).
  pose proof (zlen_nonneg loc). unfold double_step, back_step.
  destruct (decide (zlen loc <= 8)) as [H8|H8].
  { destruct Hearly as [-> Hhe]; [lia|]. zdecide_with ltac:(lia).
    split_and!; simpl; try lia. constructor; simpl; try done; rewrite ?Hz; try lia. }
  zdecide_with ltac:(lia).
  assert (Hnew : (if decide (zlen loc = 9) then step = 1 /\ h = e_height (lc_tip c) - 9 /\ True
                  else 2 ^ (zlen loc - 8) <= 139 /\ step = 2 ^ (zlen loc - 9) /\
                       h = e_height (lc_tip c) - 7 - 2 ^ (zlen loc - 8))).
  { case_decide as H9; [destruct Hearly; [lia|]; split_and!; done || lia|].
    destruct Hlate as (_ & -> & Hhl); [lia|]. split_and!; try done; lia. }
  assert (Hpow : 2 ^ (zlen loc - 8 + 1) = 2 * 2 ^ (zlen loc - 8)) by (rewrite Z.pow_add_r; lia).
  case_decide as H9.
  - destruct Hnew as (-> & -> & _). rewrite H9 in *.
    split_and!; simpl; try (unfold u32_max; lia).
    constructor; simpl; try done; rewrite ?Hz; try lia.
    intros _. split_and!; [lia|done|simpl; unfold u32_max; lia].
  - destruct Hnew as (Hp & -> & ->).
    assert (Hpow' : 2 ^ (zlen loc - 9) * 2 = 2 ^ (zlen loc - 8)).
    { replace (zlen loc - 8) with (zlen loc - 9 + 1) by lia. rewrite Z.pow_add_r by lia. lia. }
    assert (0 < 2 ^ (zlen loc - 8)) by (apply Z.pow_pos_nonneg; lia).
    pose proof (pow_small (zlen loc - 8) ltac:(lia) Hp).
    rewrite Hpow', Z.min_l by (unfold u32_max; lia).
    split_and!; simpl; try lia. constructor; simpl; try done; rewrite ?Hz; try lia.
    intros _. replace (zlen loc + 1 - 9) with (zlen loc - 8) by lia.
    replace (zlen loc + 1 - 8) with (zlen loc - 8 + 1) by lia. rewrite Hpow.
    split_and!; lia.
Qed.

(** What the loop of [locator] returns. *)
Definition locator_hashes_ok (c : LightChain) (hashes : list (list Z)) : Prop :=
  head hashes = Some (e_hash (lc_tip c)) /\
  (forall x, x ∈ hashes -> exists e, e ∈ lc_history c /\ e_hash e = x) /\
  (zlen hashes <= 16 \/ (zlen hashes <= 17 /\ last hashes = Some (genesis_hash (lc_network c)))).

Lemma locator_inv_result c st hashes :
  chain_inv c -> locator_inv c st -> locator_step c st = Ok (inr hashes) -> st.2 <> [] \/ hashes <> [] ->
  locator_hashes_ok c hashes.
Proof.
  destruct st as [[h step] loc]. intros Hi Hli E Hne. unfold locator_step in E. simpl in *.
  destruct (entry_at c h) as [e|] eqn:He.
  - destruct (h =? 0) eqn:E0; [|done]. apply Ok_inj in E. injection E as <-. breflect. subst h.
    destruct (locator_push c 0 step loc e Hi Hli He) as (Hhd & Hkn & Hz).
    split_and!; try done. right. split; [done|]. rewrite last_snoc. f_equal.
    destruct (entry_at_range c 0 e Hi He) as (Hh & Hin & Hr).
    destruct (inv_head c Hi) as (a & Ha & Hah).
    apply list_elem_of_lookup in Hin as [i Hin].
    pose proof (linked_heights _ _ _ _ (inv_linked _ Hi) Ha Hin) as H1.
    pose proof (inv_length _ Hi) as Hlen. pose proof (inv_height _ Hi).
    assert (i = 0%nat) as -> by width_lia.
    assert (a = e) as -> by (rewrite <- head_lookup in Hin; congruence).
    destruct (inv_genesis _ Hi e Ha ltac:(lia)) as (now & w & -> & _). simpl.
    by rewrite law_genesis_hash.
  - apply Ok_inj in E. injection E as <-. destruct Hli as [_ Hlate _ Hhd Hkn]. simpl in *.
    split_and!; [apply Hhd; tauto|done|]. left. destruct (decide (10 <= zlen loc)); [|lia].
    by apply Hlate.
Qed.

Lemma locator_loop c :
  chain_inv c ->
  exists hashes, loop (S (S (length (lc_history c)))) (locator_step c)
                   (e_height (lc_tip c), 1, []) = Some (Ok hashes) /\
    locator_hashes_ok c hashes.
Proof.
  intros Hi. pose proof (inv_height _ Hi) as Hh. pose proof (inv_length _ Hi) as Hlen.
  assert (Hinit : locator_inv c (e_height (lc_tip c), 1, [])).
  { constructor; simpl; try done; rewrite ?zlen_nil; try lia; try width_lia. by intros x ?%elem_of_nil. }
  set (low := e_height (lc_tip c) - zlen (lc_history c)).
  destruct (loop_terminates (locator_step c) (locator_inv c)
    (fun st => Z.to_nat (st.1.1 - low)) (S (S (length (lc_history c))))
    (e_height (lc_tip c), 1, [])) as [r Er].
  - intros st st' HI Hs. destruct (locator_inv_step c st st' Hi HI Hs) as (? & ? & ?).
    split; [done|]. subst low. lia.
  - done.
  - simpl. subst low. unfold zlen. lia.
  - destruct r as [hashes|[]]. exists hashes. split; [done|].
    pose (I := fun st : Z * Z * list (list Z) => locator_inv c st /\
      (st.2 <> [] \/ st.1.1 = e_height (lc_tip c))).
    revert Er. apply (loop_result (locator_step c) I (locator_hashes_ok c)).
    + intros st st' [HI _] Hs. destruct (locator_inv_step c st st' Hi HI Hs) as (HI' & _ & _).
      split; [done|]. left. destruct st as [[h stp] loc]. unfold locator_step in Hs.
      destruct (entry_at c h); [|done]. destruct (h =? 0); [done|]. simplify_eq/=.
      by destruct loc.
    + intros st hs [HI Hne] Hs. eapply locator_inv_result; [done..|].
      destruct Hne as [Hne|Hne]; [by left|right]. destruct st as [[h stp] loc].
      unfold locator_step in Hs. simpl in *. subst h.
      destruct (entry_at_found c (e_height (lc_tip c)) Hi) as (e & He & _).
      { rewrite Hlen. unfold REQUIRED_DIFFICULTY_HISTORY. width_lia. }
      rewrite He in Hs. case_match; [|done]. simplify_eq/=. by destruct loc.
    + split; [done|by right].
Qed.

(** ** Reachable chains *)

Inductive chain_step : LightChain -> LightChain -> Prop :=
| step_append c header now c' e :
    append c header now = Ok (c', e) -> chain_step c c'
| step_batch c headers now c' r :
    append_batch c headers now = (c', r) -> chain_step c c'.

Inductive chain_reachable (network : Network) : LightChain -> Prop :=
| reach_genesis now limit c :
    from_genesis network now limit = Ok c -> chain_reachable network c
| reach_step c c' :
    chain_reachable network c -> chain_step c c' -> chain_reachable network c'.

Lemma batch_preserves c headers now c' r :
  chain_inv c -> append_batch c headers now = (c', r) ->
  chain_inv c' /\ lc_network c' = lc_network c.
Proof.
  intros Hi E. unfold append_batch in E. case_match; [by simplify_eq|].
  destruct (append_all c headers now) as [c1|] eqn:Ea; simplify_eq; [|done].
  by destruct (append_all_spec _ _ _ _ Hi Ea) as (? & ? & _).
Qed.

Lemma reachable_inv network c :
  chain_reachable network c -> chain_inv c /\ lc_network c = network.
Proof.
  induction 1 as [now limit c E|c c' _ [Hi Hn] Hs]; [by eapply genesis_inv|].
  destruct Hs as [c header now c' e E|c headers now c' r E].
  - split; [by eapply append_preserves|].
    destruct (append_inv _ _ _ _ _ E) as (-> & _). done.
  - destruct (batch_preserves _ _ _ _ _ Hi E) as [? ->]. done.
Qed.

(** However a chain grows from genesis, its history is a linked run of
    headers with increasing heights and work that ends at the tip and has the
    last 147 of them (all, for a shorter chain), so the blocks the retarget
    rule needs are never missing. *)
Theorem light_chain_stays_valid network c :
  chain_reachable network c ->
  linked (lc_history c) /\ last (lc_history c) = Some (lc_tip c) /\
  zlen (lc_history c) = Z.min (e_height (lc_tip c) + 1) REQUIRED_DIFFICULTY_HISTORY /\
  lc_network c = network /\
  forall header now, append c header now <> Err MissingDifficultyHistory.
Proof.
  intros Hr. destruct (reachable_inv _ _ Hr) as [Hi Hn]. split_and!; try apply Hi; [done|].
  intros header now. by apply append_not_missing.
Qed.

(** A batch is all or nothing: on an error the chain is unchanged; on
    success every header was appended in order, the tip is the last of them and
    its work exceeds the old tip's by at least one per header. *)
Theorem append_batch_atomic c headers now c' r :
  chain_inv c -> append_batch c headers now = (c', r) ->
  match r with
  | Err _ => c' = c
  | Ok e =>
      append_all c headers now = Ok c' /\ chain_inv c' /\ e = lc_tip c' /\
      1 <= zlen headers <= lc_max_headers_per_batch c /\
      e_height e = e_height (lc_tip c) + zlen headers /\
      e_chainwork (lc_tip c) + zlen headers <= e_chainwork e /\
      (forall h, last headers = Some h -> e_hash e = block_hash h)
  end.
Proof.
  intros Hi E. unfold append_batch in E. case_match; [by simplify_eq|].
  destruct (append_all c headers now) as [c1|] eqn:Ea; simplify_eq; [|done].
  destruct (append_all_spec _ _ _ _ Hi Ea) as (? & _ & _ & ? & ? & ?).
  breflect. pose proof (zlen_nonneg headers). split_and!; done || lia.
Qed.

(** An anchor is issued exactly when the tip meets the height and work
    floors, is not older than the policy's age and not more than two hours
    ahead of the clock; it carries the tip's hash and tree root and the last
    time at which the age rule holds. *)
Theorem require_current_exact c policy a :
  require_current c policy = Ok a <->
  let tip := lc_tip c in
  cp_minimum_height policy <= e_height tip /\ cp_minimum_chainwork policy <= e_chainwork tip /\
  e_time tip + cp_maximum_tip_age_seconds policy <= u64_max /\
  cp_now policy <= e_time tip + cp_maximum_tip_age_seconds policy /\
  e_time tip <= Z.min (cp_now policy + 7200) u64_max /\
  a = {| anchor_network := lc_network c; anchor_height := e_height tip;
         anchor_block_hash := e_hash tip; anchor_tree_root := e_tree_root tip;
         anchor_chainwork := e_chainwork tip; anchor_validated_at := cp_now policy;
         anchor_valid_until := e_time tip + cp_maximum_tip_age_seconds policy |}.
Proof.
  unfold require_current, saturating_add. cbn zeta. split.
  - intros E. do 2 (case_match; [done|]).
    destruct (checked_add _ _) as [v|] eqn:Ec; [|done]. cbn [ok_or] in E.
    apply checked_add_Some in Ec as [-> ?]. do 2 (case_match; [done|]). breflect.
    apply Ok_inj in E as <-. split_and!; done || lia.
  - intros (? & ? & ? & ? & ? & ->). by zdecide_with ltac:(lia).
Qed.

(** The locator starts at the tip, ends at genesis, names only retained
    headers besides, and has at most 17 hashes, well under the bound peers
    accept; its loop always returns. *)
Theorem locator_well_formed c :
  chain_inv c ->
  head (locator c) = Some (e_hash (lc_tip c)) /\
  last (locator c) = Some (genesis_hash (lc_network c)) /\
  zlen (locator c) <= 17 /\ 17 <= MAX_LOCATOR_HASHES /\
  (forall x, x ∈ locator c ->
     x = genesis_hash (lc_network c) \/ exists e, e ∈ lc_history c /\ e_hash e = x) /\
  exists r, loop (S (S (length (lc_history c)))) (locator_step c)
              (e_height (lc_tip c), 1, []) = Some r.
Proof.
  intros Hi. destruct (locator_loop c Hi) as (hashes & E & Hhd & Hkn & Hz).
  unfold locator. rewrite E. case_bool_decide as Hl.
  - split_and!; try done; [destruct Hz as [|[? _]]; lia|intros x Hx; right; by apply Hkn|eauto].
  - destruct Hz as [Hz|[_ ?]]; [|done]. split_and!; try done.
    + by destruct hashes.
    + by rewrite last_snoc.
    + rewrite zlen_app, zlen_cons, zlen_nil. lia.
    + intros x Hx. apply elem_of_app in Hx as [Hx|Hx]; [right; by apply Hkn|left].
      by apply list_elem_of_singleton in Hx.
    + eauto.
Qed.

(** The median time of the window: as many of its timestamps before as after. *)
Lemma median_is_middle c :
  lc_history c <> [] ->
  exists before after,
    map e_time (take 11 (reverse (lc_history c))) ≡ₚ before ++ median_time_past c :: after /\
    length before = (length (before ++ median_time_past c :: after) / 2)%nat /\
    Forall (fun t => t <= median_time_past c) before /\
    Forall (fun t => median_time_past c <= t) after.
Proof.
  intros Hne. unfold median_time_past. change (Z.to_nat MEDIAN_TIME_SPAN) with 11%nat.
  set (ts := map e_time (take 11 (reverse (lc_history c)))).
  assert (Hts : (0 < length (sort_by id ts))%nat).
  { rewrite length_sort_by. subst ts. rewrite length_map, length_take, length_reverse.
    destruct (lc_history c); [done|simpl; lia]. }
  destruct (lookup_lt_is_Some_2 (sort_by id ts) (length (sort_by id ts) / 2)) as [m Hm];
    [apply Nat.div_lt; lia|]. rewrite Hm.
  destruct (sorted_split _ _ _ (sort_by_sorted ts) Hm) as [H1 H2].
  exists (take (length (sort_by id ts) / 2) (sort_by id ts)),
         (drop (S (length (sort_by id ts) / 2)) (sort_by id ts)).
  rewrite take_drop_middle by done. split_and!; try done; [by rewrite sort_by_perm|].
  rewrite length_take. pose proof (Nat.div_lt (length (sort_by id ts)) 2). lia.
Qed.
End chain_laws.
