(* ===== verification/LightSnapshot.v ===== *)
(** * Authenticated light-chain snapshots

    Models the snapshot codec of [src/crates/hns-light-chain/src/lib.rs]: what
    [LightChain] writes to an authenticated store and how it is restored. The
    encoder, decoder and checksum are those of [ChainExternals]. Ends with a
    small concrete instance of the externals on which the theorems of both
    chain files are evaluated. *)

From S2P Require Import Prelude LightChain.

Section snapshot.
Context `{ChainExternals}.

Definition encode_header_entry (e : HeaderEntry) : list Z :=
  put_u32_le (e_height e) ++ e_hash e ++ e_previous_block e ++ e_tree_root e
  ++ e_merkle_root e ++ put_u64_le (e_time e) ++ put_u32_le (e_bits e)
  ++ chainwork_to_be_bytes (e_chainwork e).

Definition decode_header_entry (input : list Z) : result LightChainError (HeaderEntry * list Z) :=
  let? (height, input) := lift NameStateDecode (read_u32_le input) in
  let? (hash, input) := lift NameStateDecode (read_array 32 input) in
  let? (previous_block, input) := lift NameStateDecode (read_array 32 input) in
  let? (tree_root, input) := lift NameStateDecode (read_array 32 input) in
  let? (merkle_root, input) := lift NameStateDecode (read_array 32 input) in
  let? (time, input) := lift NameStateDecode (read_u64_le input) in
  let? (bits, input) := lift NameStateDecode (read_u32_le input) in
  let? (chainwork, input) := lift NameStateDecode (read_array 32 input) in
  Ok ({| e_height := height; e_hash := hash; e_previous_block := previous_block;
         e_tree_root := tree_root; e_merkle_root := merkle_root; e_time := time;
         e_bits := bits; e_chainwork := chainwork_from_be_bytes chainwork |}, input).

Definition snapshot_checksum (payload : list Z) : list Z :=
  blake2b_256 (LIGHT_CHAIN_SNAPSHOT_CHECKSUM_DOMAIN ++ payload).

Definition decode_network (id : Z) : result LightChainError Network :=
  match id with
  | 0 => Ok Mainnet
  | 1 => Ok Testnet
  | 2 => Ok Regtest
  | 3 => Ok Simnet
  | _ => Err InvalidSnapshot
  end.

(** [LightChain::encode_authenticated_snapshot]. *)
Definition encode_authenticated_snapshot (c : LightChain) : result LightChainError (list Z) :=
  if u32_max <? lc_max_headers_per_batch c then Err InvalidSnapshot else
  if u16_max <? zlen (lc_history c) then Err InvalidSnapshot else
  let payload := LIGHT_CHAIN_SNAPSHOT_MAGIC ++ put_u16_le LIGHT_CHAIN_SNAPSHOT_SCHEMA
    ++ put_u8 (network_id (lc_network c)) ++ put_u32_le (lc_max_headers_per_batch c)
    ++ put_u16_le (zlen (lc_history c)) ++ concat (map encode_header_entry (lc_history c)) in
  let snapshot_bytes := payload ++ snapshot_checksum payload in
  if MAX_LIGHT_CHAIN_SNAPSHOT_BYTES <? zlen snapshot_bytes then Err SnapshotTooLarge
  else Ok snapshot_bytes.

Definition validate_snapshot_pair (previous next : HeaderEntry) : result LightChainError unit :=
  if bool_decide ((if u32_max <? e_height previous + 1 then None else Some (e_height previous + 1))
                  <> Some (e_height next))
     || bool_decide (e_previous_block next <> e_hash previous)
     || (e_chainwork next <=? e_chainwork previous) || (e_bits next =? 0)
  then Err InvalidSnapshot else Ok tt.

(** [for pair in linear.windows(2)]. *)
Fixpoint validate_pairs (linear : list HeaderEntry) : result LightChainError unit :=
  match linear with
  | previous :: (next :: _) as rest =>
      let? _ := validate_snapshot_pair previous next in
      validate_pairs rest
  | _ => Ok tt
  end.

Definition blank_entry (e : HeaderEntry) : bool :=
  bool_decide (e_hash e = zero_hash) || (e_bits e =? 0) || (e_chainwork e =? 0).

Definition validate_snapshot_history (network : Network) (limits : Z)
    (history : list HeaderEntry) (floor : ChainSnapshotFloor) : result LightChainError unit :=
  let? first := ok_or (head history) InvalidSnapshot in
  let? tip := ok_or (last history) InvalidSnapshot in
  let expected_length := Z.min (e_height tip + 1) REQUIRED_DIFFICULTY_HISTORY in
  if negb (zlen history =? expected_length) then Err InvalidSnapshot else
  if existsb blank_entry history then Err InvalidSnapshot else
  if (e_height tip <? minimum_height floor) || (e_chainwork tip <? minimum_chainwork floor)
  then Err SnapshotRollback else
  let? _ :=
    if e_height first =? 0 then
      let? expected := from_genesis network (genesis_time network) limits in
      if bool_decide (first <> lc_tip expected) then Err InvalidSnapshot else Ok tt
    else Ok tt in
  validate_pairs history.

(** [for _ in 0..count { history.push_back(decode_header_entry(..)?) }]. *)
Fixpoint decode_entries (count : nat) (input : list Z)
    : result LightChainError (list HeaderEntry * list Z) :=
  match count with
  | O => Ok ([], input)
  | S count =>
      let? (e, input) := decode_header_entry input in
      let? (history, input) := decode_entries count input in
      Ok (e :: history, input)
  end.

(** [LightChain::decode_authenticated_snapshot]. *)
Definition decode_authenticated_snapshot (input : list Z) (expected_network : Network)
    (floor : ChainSnapshotFloor) : result LightChainError LightChain :=
  if MAX_LIGHT_CHAIN_SNAPSHOT_BYTES <? zlen input then Err SnapshotTooLarge else
  if zlen input <? 32 then Err InvalidSnapshot else
  let payload := take (Z.to_nat (zlen input - 32)) input in
  let encoded_checksum := drop (Z.to_nat (zlen input - 32)) input in
  if bool_decide (encoded_checksum <> snapshot_checksum payload)
  then Err SnapshotChecksumMismatch else
  let? (magic, input) := lift NameStateDecode (read_slice (zlen LIGHT_CHAIN_SNAPSHOT_MAGIC) payload) in
  if bool_decide (magic <> LIGHT_CHAIN_SNAPSHOT_MAGIC) then Err UnsupportedSnapshot else
  let? (schema, input) := lift NameStateDecode (read_u16_le input) in
  if negb (schema =? LIGHT_CHAIN_SNAPSHOT_SCHEMA) then Err UnsupportedSnapshot else
  let? (id, input) := lift NameStateDecode (read_u8 input) in
  let? network := decode_network id in
  if bool_decide (network <> expected_network) then Err SnapshotNetworkMismatch else
  let? (max_headers_per_batch, input) := lift NameStateDecode (read_u32_le input) in
  let? limits := chain_limits_validate max_headers_per_batch in
  let? (count, input) := lift NameStateDecode (read_u16_le input) in
  if (count =? 0) || (REQUIRED_DIFFICULTY_HISTORY <? count) then Err InvalidSnapshot else
  let? (history, input) := decode_entries (Z.to_nat count) input in
  let? _ := lift NameStateDecode (finish input) in
  let? _ := validate_snapshot_history expected_network limits history floor in
  let? tip := ok_or (last history) InvalidSnapshot in
  Ok {| lc_network := network; lc_max_headers_per_batch := limits; lc_history := history;
        lc_tip := tip |}.

(** ** Validity of restored chains *)

Lemma validate_pairs_linked l : validate_pairs l = Ok tt -> linked l.
Proof.
  induction l as [|a l IH]; [done|]. destruct l as [|b l]; [done|].
  simpl. destruct (validate_snapshot_pair a b) as [[]|] eqn:E; [|done]. intros Hl.
  split; [|by apply IH]. unfold validate_snapshot_pair in E.
  match type of E with (if ?b then _ else _) = _ => destruct b eqn:Eg; [done|] end. breflect.
  destruct (u32_max <? e_height a + 1); repeat split; try lia;
    repeat match goal with H : ~ (_ <> _) |- _ => apply dec_stable in H end; by simplify_eq.
Qed.

(** A restored history: consistent, above the floor, rooted in genesis. *)
Lemma validate_history_inv network limits history floor :
  chain_limits_validate limits = Ok limits ->
  validate_snapshot_history network limits history floor = Ok tt ->
  exists tip, last history = Some tip /\
    zlen history = Z.min (e_height tip + 1) REQUIRED_DIFFICULTY_HISTORY /\ linked history /\
    minimum_height floor <= e_height tip /\ minimum_chainwork floor <= e_chainwork tip /\
    Forall (fun e => blank_entry e = false) history /\
    (forall e, head history = Some e -> e_height e = 0 -> genesis_entry network e).
Proof.
  intros Hlim E. unfold validate_snapshot_history in E.
  destruct (head history) as [first|] eqn:Ef; [|done]. cbn [ok_or] in E.
  destruct (last history) as [tip|] eqn:Et; [|done]. cbn [ok_or] in E.
  case_match eqn:E1; [done|]. case_match eqn:E2; [done|]. case_match eqn:E3; [done|].
  exists tip. breflect.
  match type of E with match ?m with _ => _ end = _ => destruct m as [[]|] eqn:Eg; [|done] end.
  split_and!; try done; [by apply validate_pairs_linked| |].
  - apply Forall_forall. intros e He. apply not_true_is_false. intros Hb.
    assert (existsb blank_entry history = true); [|congruence].
    apply existsb_exists. exists e. split; [by apply list_elem_of_In|done].
  - intros e [= <-] Hz0. rewrite Hz0 in Eg. simpl in Eg.
    destruct (from_genesis _ _ _) as [g|] eqn:Egen; [|done]. case_bool_decide as Hne; [done|].
    subst first. unfold from_genesis, lift in Egen. rewrite Hlim in Egen.
    destruct (validate_header _ _ _) as [w|] eqn:Ew; [|done]. apply Ok_inj in Egen as <-.
    by exists (genesis_time network), w.
Qed.
End snapshot.

Section snapshot_laws.
Context `{Laws : ChainExternalsLaws}.

Lemma decode_entries_heights count input history rest :
  decode_entries count input = Ok (history, rest) -> Forall (fun e => in_u32 (e_height e)) history.
Proof.
  revert input history rest. induction count as [|count IH]; intros input history rest E;
    simpl in E; [by simplify_eq|].
  destruct (decode_header_entry input) as [[e input']|] eqn:Ee; [|done].
  destruct (decode_entries count input') as [[es input'']|] eqn:Es; [|done].
  apply Ok_inj in E. injection E as <- _. constructor; [|by eapply IH].
  unfold decode_header_entry, lift in Ee.
  destruct (read_u32_le input) as [[h ?]|] eqn:Eh; [|done]. apply law_read_u32_range in Eh.
  by repeat (case_match; simplify_eq/=).
Qed.

(** What a successful restore means. *)
Lemma decode_snapshot_inv input network floor c :
  decode_authenticated_snapshot input network floor = Ok c ->
  lc_network c = network /\ last (lc_history c) = Some (lc_tip c) /\
  chain_limits_validate (lc_max_headers_per_batch c) = Ok (lc_max_headers_per_batch c) /\
  validate_snapshot_history network (lc_max_headers_per_batch c) (lc_history c) floor = Ok tt /\
  Forall (fun e => in_u32 (e_height e)) (lc_history c) /\
  exists payload, input = payload ++ snapshot_checksum payload.
Proof.
  intros E. unfold decode_authenticated_snapshot in E. do 3 (case_match; [done|]). breflect.
  destruct (lift NameStateDecode (read_slice _ _)) as [[? ?]|]; [|done]. case_match; [done|].
  destruct (lift NameStateDecode (read_u16_le _)) as [[? ?]|]; [|done]. case_match; [done|].
  destruct (lift NameStateDecode (read_u8 _)) as [[? ?]|]; [|done].
  destruct (decode_network _) as [n|]; [|done]. case_match eqn:En; [done|].
  destruct (lift NameStateDecode (read_u32_le _)) as [[m ?]|]; [|done].
  destruct (chain_limits_validate m) as [lim|] eqn:El; [|done].
  destruct (lift NameStateDecode (read_u16_le _)) as [[count ?]|]; [|done]. case_match eqn:Ec; [done|].
  destruct (decode_entries _ _) as [[history rest]|] eqn:Eh; [|done].
  destruct (lift NameStateDecode (finish _)) as [[]|]; [|done].
  destruct (validate_snapshot_history _ _ _ _) as [[]|] eqn:Ev; [|done].
  destruct (last history) as [tip|] eqn:Et; [|done]. apply Ok_inj in E as <-. simpl.
  assert (lim = m) as -> by (unfold chain_limits_validate in El; by case_match; simplify_eq).
  breflect. split_and!; try done; [by apply dec_stable in En|by eapply decode_entries_heights|].
  match goal with H : ~ (drop _ _ <> _) |- _ => apply dec_stable in H; rename H into Hsum end.
  eexists. by rewrite <- Hsum, take_drop.
Qed.

Lemma restored_inv input network floor c :
  decode_authenticated_snapshot input network floor = Ok c ->
  chain_inv c /\ minimum_height floor <= e_height (lc_tip c) /\
  minimum_chainwork floor <= e_chainwork (lc_tip c).
Proof.
  intros E. destruct (decode_snapshot_inv _ _ _ _ E) as (Hn & Ht & Hlim & Hv & Hh & _).
  destruct (validate_history_inv _ _ _ _ Hlim Hv) as (tip & Ht' & Hlen & Hlink & Hf1 & Hf2 & _ & Hg).
  assert (tip = lc_tip c) as -> by congruence. split; [|done].
  constructor; try done; [|by rewrite Hn].
  rewrite Forall_forall in Hh. apply Hh. apply last_Some in Ht as [l ->]. set_solver.
Qed.

(** ** Round trip *)

Definition entry_width (e : HeaderEntry) : Prop :=
  in_u32 (e_height e) /\ zlen (e_hash e) = 32 /\ zlen (e_previous_block e) = 32 /\
  zlen (e_tree_root e) = 32 /\ zlen (e_merkle_root e) = 32 /\ in_u64 (e_time e) /\
  in_u32 (e_bits e) /\ 0 <= e_chainwork e < 2 ^ 256.

Lemma read_array_32 l r : zlen l = 32 -> read_array 32 (l ++ r) = Ok (l, r).
Proof. intros <-. apply law_array. Qed.

Lemma entry_roundtrip e rest :
  entry_width e ->
  zlen (encode_header_entry e) = 176 /\
  decode_header_entry (encode_header_entry e ++ rest) = Ok (e, rest).
Proof.
  intros (Hh & H1 & H2 & H3 & H4 & Ht & Hb & Hw). unfold encode_header_entry.
  destruct (law_work_bytes _ Hw) as [Hwl Hwb]. split.
  - pose proof (proj1 (law_u32 _ [] Hh)) as L1. pose proof (proj1 (law_u32 _ [] Hb)) as L2.
    pose proof (proj1 (law_u64 _ [] Ht)) as L3. lens. lia.
  - rewrite <- !app_assoc. unfold decode_header_entry.
    rewrite (proj2 (law_u32 _ _ Hh)). cbn [lift]. do 4 (rewrite read_array_32 by done; cbn [lift]).
    rewrite (proj2 (law_u64 _ _ Ht)). cbn [lift]. rewrite (proj2 (law_u32 _ _ Hb)). cbn [lift].
    rewrite read_array_32 by done. cbn [lift]. rewrite Hwb. by destruct e.
Qed.

Lemma entries_roundtrip history rest :
  Forall entry_width history ->
  zlen (concat (map encode_header_entry history)) = 176 * zlen history /\
  decode_entries (length history) (concat (map encode_header_entry history) ++ rest)
  = Ok (history, rest).
Proof.
  induction 1 as [|e history He _ [IH1 IH2]]; [done|]. simpl.
  rewrite zlen_app, zlen_cons, IH1, (proj1 (entry_roundtrip e [] He)). split; [lia|].
  rewrite <- app_assoc, (proj2 (entry_roundtrip e _ He)). by rewrite IH2.
Qed.

Lemma linked_validate l :
  linked l -> Forall entry_width l -> Forall (fun e => blank_entry e = false) l ->
  validate_pairs l = Ok tt.
Proof.
  induction l as [|a l IH]; intros Hl Hw Hb; [done|]. destruct l as [|b l]; [done|].
  destruct Hl as [(Hh & Hp & Hc) Hl]. inversion Hw as [|? ? _ Hw']; inversion Hb as [|? ? _ Hb']; subst.
  inversion Hw' as [|? ? Hwb _]; inversion Hb' as [|? ? Hbb _]; subst.
  assert (Hpair : validate_snapshot_pair a b = Ok tt).
  { unfold validate_snapshot_pair. destruct Hwb as (? & _). unfold blank_entry in Hbb. breflect.
    zdecide. rewrite !bool_decide_eq_false_2 by (rewrite ?Hh, ?Hp; by intros ?). done. }
  change (validate_pairs (a :: b :: l))
    with (let? _ := validate_snapshot_pair a b in validate_pairs (b :: l)).
  rewrite Hpair. by apply IH.
Qed.

Lemma validate_history_complete c floor :
  chain_inv c -> Forall entry_width (lc_history c) ->
  Forall (fun e => blank_entry e = false) (lc_history c) ->
  minimum_height floor <= e_height (lc_tip c) ->
  minimum_chainwork floor <= e_chainwork (lc_tip c) ->
  validate_snapshot_history (lc_network c) (lc_max_headers_per_batch c) (lc_history c) floor = Ok tt.
Proof.
  intros Hi Hw Hb Hf1 Hf2. destruct (inv_head c Hi) as (a & Ha & _).
  unfold validate_snapshot_history. rewrite Ha, (inv_tip _ Hi). cbn [ok_or].
  rewrite (inv_length _ Hi), Z.eqb_refl. cbn [negb].
  replace (existsb blank_entry (lc_history c)) with false.
  2: { symmetry. apply not_true_is_false. rewrite existsb_exists. intros (e & He & Hbe).
       rewrite Forall_forall in Hb. apply list_elem_of_In, Hb in He. congruence. }
  zdecide_with ltac:(lia).
  destruct (e_height a =? 0) eqn:E0; breflect; [|by apply linked_validate; [apply Hi|..]].
  destruct (inv_genesis _ Hi a Ha E0) as (now & w & Hae & Hval).
  apply law_genesis_now in Hval. simpl in Hval. unfold from_genesis, lift.
  rewrite (inv_limit _ Hi), Hval. simpl lc_tip.
  rewrite bool_decide_eq_false_2 by (by intros ?). by apply linked_validate; [apply Hi|..].
Qed.

Lemma decode_network_id n : decode_network (network_id n) = Ok n.
Proof. rewrite law_network_id. by destruct n. Qed.

(** A snapshot of a valid chain whose entries have their wire widths and
    no blank field is encoded in at most 64 KiB and restores to the same chain
    on the same network under every floor the chain is not below. *)
Theorem snapshot_roundtrip c floor :
  chain_inv c -> Forall entry_width (lc_history c) ->
  Forall (fun e => blank_entry e = false) (lc_history c) ->
  minimum_height floor <= e_height (lc_tip c) ->
  minimum_chainwork floor <= e_chainwork (lc_tip c) -> 0 <= lc_max_headers_per_batch c ->
  exists bytes, encode_authenticated_snapshot c = Ok bytes /\
    zlen bytes <= MAX_LIGHT_CHAIN_SNAPSHOT_BYTES /\
    decode_authenticated_snapshot bytes (lc_network c) floor = Ok c.
Proof.
  intros Hi Hw Hb Hf1 Hf2 Hm0. destruct (entries_roundtrip _ [] Hw) as [Hlen Hdec].
  pose proof (inv_length _ Hi) as Hn. pose proof (inv_height _ Hi) as Hh.
  pose proof (inv_limit _ Hi) as Hlim. unfold REQUIRED_DIFFICULTY_HISTORY in Hn.
  pose proof (validate_history_complete c floor Hi Hw Hb Hf1 Hf2) as Hval.
  assert (Hm : in_u32 (lc_max_headers_per_batch c)).
  { unfold chain_limits_validate, MAX_HEADERS_PER_BATCH_LIMIT in Hlim. case_match; [done|].
    breflect. width_lia. }
  assert (Hid : in_u8 (network_id (lc_network c))) by (rewrite law_network_id; by destruct (lc_network c)).
  assert (Hc16 : in_u16 (zlen (lc_history c))) by width_lia.
  assert (Hs16 : in_u16 LIGHT_CHAIN_SNAPSHOT_SCHEMA) by done.
  pose proof (proj1 (law_u32 _ [] Hm)) as L1. pose proof (proj1 (law_u16 _ [] Hc16)) as L2.
  pose proof (proj1 (law_u8 _ [] Hid)) as L3. pose proof (proj1 (law_u16 _ [] Hs16)) as L4.
  unfold encode_authenticated_snapshot. zdecide.
  set (body := put_u16_le LIGHT_CHAIN_SNAPSHOT_SCHEMA ++ _).
  set (payload := LIGHT_CHAIN_SNAPSHOT_MAGIC ++ body).
  pose proof (law_checksum_len (LIGHT_CHAIN_SNAPSHOT_CHECKSUM_DOMAIN ++ payload)) as L5.
  assert (Hp : zlen payload = 34 + 176 * zlen (lc_history c)).
  { subst payload body. lens. change (zlen LIGHT_CHAIN_SNAPSHOT_MAGIC) with 25. lia. }
  assert (Hz : zlen (payload ++ snapshot_checksum payload) <= MAX_LIGHT_CHAIN_SNAPSHOT_BYTES).
  { unfold snapshot_checksum, MAX_LIGHT_CHAIN_SNAPSHOT_BYTES. rewrite zlen_app. lia. }
  zdecide_with ltac:(lia). eexists. split_and!; [done|done|].
  unfold decode_authenticated_snapshot. rewrite zlen_app in *.
  change (zlen (snapshot_checksum payload)) with
    (zlen (blake2b_256 (LIGHT_CHAIN_SNAPSHOT_CHECKSUM_DOMAIN ++ payload))) in *. rewrite L5 in *.
  zdecide_with ltac:(lia). replace (Z.to_nat (zlen payload + 32 - 32)) with (length payload)
    by (unfold zlen; lia).
  rewrite take_app_length, drop_app_length. rewrite bool_decide_eq_false_2 by (by intros ?).
  pose proof (law_slice LIGHT_CHAIN_SNAPSHOT_MAGIC body) as Hsl. fold payload in Hsl.
  rewrite Hsl. cbn [lift]. unfold body. rewrite bool_decide_eq_false_2 by (by intros ?).
  rewrite (proj2 (law_u16 _ _ Hs16)). cbn [lift]. rewrite Z.eqb_refl. cbn [negb].
  rewrite (proj2 (law_u8 _ _ Hid)). cbn [lift]. rewrite decode_network_id.
  rewrite bool_decide_eq_false_2 by (by intros ?).
  rewrite (proj2 (law_u32 _ _ Hm)). cbn [lift]. rewrite Hlim.
  rewrite (proj2 (law_u16 _ _ Hc16)). cbn [lift]. unfold REQUIRED_DIFFICULTY_HISTORY. zdecide.
  rewrite app_nil_r in Hdec. unfold zlen at 1. rewrite Nat2Z.id, Hdec, law_finish. cbn [lift].
  rewrite Hval, (inv_tip _ Hi). by destruct c.
Qed.

(** Whatever bytes are restored, the chain has the checksum its payload
    requires, is on the expected network, satisfies the chain invariant, and
    its tip is not below the caller's floor: an older snapshot cannot replace
    newer state. *)
Theorem snapshot_restore_sound input network floor c :
  decode_authenticated_snapshot input network floor = Ok c ->
  lc_network c = network /\ chain_inv c /\
  minimum_height floor <= e_height (lc_tip c) /\
  minimum_chainwork floor <= e_chainwork (lc_tip c) /\
  (forall header now, append c header now <> Err MissingDifficultyHistory) /\
  exists payload, input = payload ++ snapshot_checksum payload.
Proof.
  intros E. destruct (decode_snapshot_inv _ _ _ _ E) as (Hn & _ & _ & _ & _ & Hp).
  destruct (restored_inv _ _ _ _ E) as (Hi & ? & ?).
  split_and!; try done. intros header now. by apply append_not_missing.
Qed.
End snapshot_laws.

(** ** A concrete instance of the externals

    Headers carry their fields; a header is accepted when it extends the block
    it is validated against with the expected bits, and is worth one unit of
    work. Integers are little-endian. *)

Record toy_header := {
  toy_previous : list Z; toy_time : Z; toy_bits : Z; toy_nonce : Z }.

Definition toy_hash (h : toy_header) : list Z := to_be 32 (toy_time h * 1000 + toy_nonce h + 1).

Definition toy_read (n : nat) (l : list Z) : result unit (Z * list Z) :=
  if Z.of_nat n <=? zlen l then
    Ok (Z.max 0 (Z.min (from_be (reverse (take n l))) (256 ^ Z.of_nat n - 1)), drop n l)
  else Err tt.

Definition toy_slice (n : Z) (l : list Z) : result unit (list Z * list Z) :=
  if (0 <=? n) && (n <=? zlen l) then Ok (take (Z.to_nat n) l, drop (Z.to_nat n) l) else Err tt.

#[export] Instance toy_externals : ChainExternals := {|
  Header := toy_header;
  HeaderError := unit;
  ArithmeticError := unit;
  DecodeError := unit;
  CovenantError := unit;
  UrkelError := unit;
  header_previous_block := toy_previous;
  header_tree_root := fun h => to_be 32 (toy_nonce h);
  header_merkle_root := fun h => to_be 32 (toy_time h);
  header_time := toy_time;
  header_bits := toy_bits;
  block_hash := toy_hash;
  genesis_header := fun _ => {| toy_previous := zero_hash; toy_time := 1; toy_bits := 7; toy_nonce := 0 |};
  genesis_hash := fun _ => to_be 32 1001;
  genesis_time := fun _ => 1;
  pow_bits := fun _ => 7;
  target_window := fun _ => 144;
  network_id := fun n => match n with Mainnet => 0 | Testnet => 1 | Regtest => 2 | Simnet => 3 end;
  expected_next_bits := fun _ _ tip _ _ => Ok (dp_bits tip);
  validate_header := fun _ h ctx =>
    if bool_decide (toy_previous h = ctx_previous_block ctx) && (toy_bits h =? ctx_expected_bits ctx)
    then Ok 1 else Err tt;
  chainwork_checked_add := fun a b => if a + b <? 2 ^ 256 then Ok (a + b) else Err tt;
  put_u8 := fun v => reverse (to_be 1 v);
  put_u16_le := fun v => reverse (to_be 2 v);
  put_u32_le := fun v => reverse (to_be 4 v);
  put_u64_le := fun v => reverse (to_be 8 v);
  chainwork_to_be_bytes := to_be 32;
  read_u8 := toy_read 1;
  read_u16_le := toy_read 2;
  read_u32_le := toy_read 4;
  read_u64_le := toy_read 8;
  read_slice := toy_slice;
  read_array := toy_slice;
  finish := fun l => if zlen l =? 0 then Ok tt else Err tt;
  chainwork_from_be_bytes := from_be;
  blake2b_256 := fun l => to_be 32 (from_be l) |}.

Lemma toy_read_put n v r :
  0 <= v < 256 ^ Z.of_nat n ->
  zlen (reverse (to_be n v)) = Z.of_nat n /\ toy_read n (reverse (to_be n v) ++ r) = Ok (v, r).
Proof.
  intros Hv. assert (Hl : length (reverse (to_be n v)) = n) by (by rewrite length_reverse, length_to_be).
  assert (Hz : zlen (reverse (to_be n v)) = Z.of_nat n) by (unfold zlen; by rewrite Hl).
  split; [done|]. unfold toy_read. rewrite zlen_app, Hz. pose proof (zlen_nonneg r).
  zdecide_with ltac:(lia). rewrite take_app_length', drop_app_length' by done.
  rewrite reverse_involutive, from_be_to_be by done. do 2 f_equal. lia.
Qed.

Lemma toy_slice_put l r : toy_slice (zlen l) (l ++ r) = Ok (l, r).
Proof.
  unfold toy_slice. rewrite zlen_app. pose proof (zlen_nonneg l); pose proof (zlen_nonneg r).
  zdecide_with ltac:(lia). unfold zlen. rewrite Nat2Z.id.
  by rewrite take_app_length, drop_app_length.
Qed.

#[export] Instance toy_laws : ChainExternalsLaws.
Proof.
  constructor; cbn -[to_be from_be zlen toy_read toy_slice Z.pow].
  - intros n h ctx w E. case_match eqn:Eg; [|done]. breflect. apply Ok_inj in E as <-. done.
  - done.
  - done.
  - intros a b c E. case_match; [|done]. breflect. by apply Ok_inj in E as <-.
  - done.
  - done.
  - intros v r Hv. apply toy_read_put. width_lia.
  - intros v r Hv. apply toy_read_put. width_lia.
  - intros v r Hv. apply toy_read_put. width_lia.
  - intros v r Hv. apply toy_read_put. width_lia.
  - intros l v r E. unfold toy_read in E. case_match; [|done]. apply Ok_inj in E. injection E as <- _.
    change (256 ^ Z.of_nat 4) with 4294967296. width_lia.
  - apply toy_slice_put.
  - apply toy_slice_put.
  - done.
  - intros w Hw. split; [apply zlen_to_be|]. apply from_be_to_be. exact Hw.
  - intros. apply zlen_to_be.
Qed.

(** Three blocks after genesis, as one batch. *)
Definition toy_block (previous : list Z) (time : Z) : toy_header :=
  {| toy_previous := previous; toy_time := time; toy_bits := 7; toy_nonce := 5 |}.

Definition toy_batch : list Header :=
  let b1 := toy_block (to_be 32 1001) 2 in
  let b2 := toy_block (toy_hash b1) 3 in
  [b1; b2; toy_block (toy_hash b2) 4].

Definition toy_genesis : LightChain :=
  match from_genesis Regtest 5 10 with Ok c => c | Err _ =>
    {| lc_network := Regtest; lc_max_headers_per_batch := 0; lc_history := [];
       lc_tip := entry_from_header 0 (genesis_header Regtest) 0 |} end.

Definition toy_chain : LightChain := fst (append_batch toy_genesis toy_batch 5).

Lemma toy_genesis_reachable : chain_reachable Regtest toy_genesis.
Proof. by apply (reach_genesis _ 5 10). Qed.

Lemma toy_chain_reachable : chain_reachable Regtest toy_chain.
Proof.
  apply (reach_step _ toy_genesis); [apply toy_genesis_reachable|].
  apply (step_batch _ toy_batch 5 _ (snd (append_batch toy_genesis toy_batch 5))).
  apply surjective_pairing.
Qed.

Lemma light_chain_stays_valid_witness :
  e_height (lc_tip toy_chain) = 3 /\ zlen (lc_history toy_chain) = 4 /\ linked (lc_history toy_chain).
Proof.
  destruct (light_chain_stays_valid Regtest toy_chain toy_chain_reachable) as (Hl & _).
  split_and!; [by vm_compute|by vm_compute|exact Hl].
Defined.

Lemma append_batch_atomic_witness :
  e_chainwork (lc_tip toy_chain) = 4 /\
  exists e, snd (append_batch toy_genesis toy_batch 5) = Ok e /\ e = lc_tip toy_chain /\
    e_height e = 3 /\ chain_inv toy_chain.
Proof.
  split; [by vm_compute|].
  assert (Ht : bool_decide (ok_of (snd (append_batch toy_genesis toy_batch 5))
                            = Some (lc_tip toy_chain)) = true) by (vm_compute; reflexivity).
  apply bool_decide_eq_true in Ht.
  destruct (append_batch toy_genesis toy_batch 5) as [c [e|]] eqn:E; [|done].
  destruct (append_batch_atomic _ _ _ _ _ (proj1 (reachable_inv _ _ toy_genesis_reachable)) E)
    as (_ & Hi & He & _ & Hh & _).
  assert (Hc : c = toy_chain) by (unfold toy_chain; by rewrite E).
  subst c. exists e. split_and!; [reflexivity|exact He| |exact Hi].
  rewrite Hh. vm_compute. reflexivity.
Defined.

Lemma locator_well_formed_witness :
  zlen (locator toy_chain) = 4 /\ last (locator toy_chain) = Some (to_be 32 1001).
Proof.
  destruct (locator_well_formed toy_chain (proj1 (reachable_inv _ _ toy_chain_reachable)))
    as (_ & Hl & _).
  split; [by vm_compute|exact Hl].
Defined.

Definition toy_floor : ChainSnapshotFloor := {| minimum_height := 3; minimum_chainwork := 4 |}.

Lemma snapshot_roundtrip_witness :
  exists bytes, zlen bytes = 32 + 176 * 4 + 34 /\ encode_authenticated_snapshot toy_chain = Ok bytes /\
    decode_authenticated_snapshot bytes Regtest toy_floor = Ok toy_chain.
Proof.
  destruct (snapshot_roundtrip toy_chain toy_floor)
    as (bytes & E & _ & D).
  - apply (reachable_inv _ _ toy_chain_reachable).
  - change (Forall entry_width (lc_history toy_chain)).
    repeat (apply Forall_cons; split); try apply Forall_nil; done || (vm_compute; done).
  - repeat (apply Forall_cons; split); try apply Forall_nil; done || (vm_compute; done).
  - vm_compute; done.
  - vm_compute; done.
  - vm_compute; done.
  - exists bytes. split_and!; [|done|done].
    assert (Hl : option_map zlen (ok_of (encode_authenticated_snapshot toy_chain)) = Some 770)
      by (vm_compute; reflexivity).
    rewrite E in Hl. injection Hl as Hl. exact Hl.
Defined.

Lemma snapshot_restore_sound_witness :
  exists bytes c payload,
    decode_authenticated_snapshot bytes Regtest toy_floor = Ok c /\
    e_height (lc_tip c) = 3 /\ chain_inv c /\ bytes = payload ++ snapshot_checksum payload.
Proof.
  set (bytes := default [] (ok_of (encode_authenticated_snapshot toy_chain))).
  assert (Hh : option_map (fun c => e_height (lc_tip c))
      (ok_of (decode_authenticated_snapshot bytes Regtest toy_floor)) = Some 3)
    by (vm_compute; reflexivity).
  destruct (decode_authenticated_snapshot bytes Regtest toy_floor) as [c|] eqn:E; [|discriminate].
  destruct (snapshot_restore_sound bytes Regtest toy_floor c E)
    as (_ & Hi & _ & _ & _ & payload & Hp).
  injection Hh as Hh. exists bytes, c, payload.
  split; [exact E|]. split; [exact Hh|]. split; [exact Hi|exact Hp].
Defined.
