(* ===== verification/LightResource.v ===== *)
(** * Name resources proved against the light chain

    Models the resource half of [src/crates/hns-light-chain/src/lib.rs]: the
    reader over a committed resource with its compressed names, the strict
    [HnsResource] decoder, the [NameState] decoder and
    [CurrentChain::verify_name_resource]. Urkel proofs, name hashing and
    covenant validation are external crates, named by [NameExternals]. *)

From S2P Require Import Prelude LightChain LightSnapshot.

(** HSD resource tags zero to six, the assigned bits of a name state, and the
    bounds of an expanded resource name. *)
Definition MAX_KNOWN_RESOURCE_KIND : Z := 6.
Definition NAME_STATE_KNOWN_FIELD_BITS : Z := 0x03ff.
Definition MAX_RESOURCE_NAME_LABELS : Z := 127.
Definition MAX_RESOURCE_NAME_JUMPS : Z := 16.

(** ** External code *)

Class NameExternals `{ChainExternals} := {
  MAX_RESOURCE_SIZE : Z;
  hash_name : list Z -> result CovenantError (list Z);
  validate_name : list Z -> bool;
  covenant_resource_new : list Z -> result CovenantError unit;
  HsdUrkelProof : Type;
  urkel_decode_strict : list Z -> result UrkelError HsdUrkelProof;
  urkel_verify : HsdUrkelProof -> list Z -> list Z -> result UrkelError (option (list Z));
  read_compact_size : list Z -> result DecodeError (Z * list Z) }.

(** ** Resource records *)

Record DelegationSigner := {
  ds_key_tag : Z; ds_algorithm : Z; ds_digest_type : Z; ds_digest : list Z }.

Record ResourceName := { rn_labels : list (list Z) }.

(** Addresses are their octets. *)
Inductive HnsResourceRecord :=
| Ds (ds : DelegationSigner)
| Ns (name : ResourceName)
| Glue4 (name : ResourceName) (address : list Z)
| Glue6 (name : ResourceName) (address : list Z)
| Synth4 (address : list Z)
| Synth6 (address : list Z)
| Txt (strings : list (list Z)).

Record HnsResource := { res_raw : list Z; res_records : list HnsResourceRecord }.

Record ResourceReader := {
  rr_input : list Z; rr_position : Z; rr_known_name_offsets : list Z }.

Definition reader_new (input : list Z) : ResourceReader :=
  {| rr_input := input; rr_position := 0; rr_known_name_offsets := [] |}.

Definition reader_is_finished (r : ResourceReader) : bool := rr_position r =? zlen (rr_input r).

Definition reader_at (r : ResourceReader) (position : Z) : ResourceReader :=
  {| rr_input := rr_input r; rr_position := position;
     rr_known_name_offsets := rr_known_name_offsets r |}.

Section resource.
Context `{NameExternals}.

(** [ResourceReader::read_array]. *)
Definition reader_read_array (LENGTH : Z) (r : ResourceReader)
    : result LightChainError (list Z * ResourceReader) :=
  let? stop := ok_or (checked_add (rr_position r) LENGTH) ResourceTruncated in
  let? bytes := ok_or (get_range (rr_input r) (rr_position r) stop) ResourceTruncated in
  Ok (bytes, reader_at r stop).

(** [ResourceReader::read_u8]. *)
Definition reader_read_u8 (r : ResourceReader) : result LightChainError (Z * ResourceReader) :=
  let? (bytes, r) := reader_read_array 1 r in
  Ok (from_be bytes, r).

(** [ResourceReader::read_u16_be]. *)
Definition reader_read_u16_be (r : ResourceReader)
    : result LightChainError (Z * ResourceReader) :=
  let? (bytes, r) := reader_read_array 2 r in
  Ok (from_be bytes, r).

(** [ResourceReader::read_length_prefixed_bytes]. *)
Definition read_length_prefixed_bytes (r : ResourceReader)
    : result LightChainError (list Z * ResourceReader) :=
  let? (length, r) := reader_read_u8 r in
  let? stop := ok_or (checked_add (rr_position r) length) ResourceTruncated in
  let? bytes := ok_or (get_range (rr_input r) (rr_position r) stop) ResourceTruncated in
  Ok (bytes, reader_at r stop).

(** ** Compressed names *)

(** The locals of [read_name] together with the two reader fields it updates. *)
Record name_scan := {
  sc_cursor : Z;
  sc_resume : option Z;
  sc_labels : list (list Z);
  sc_expanded_wire_length : Z;
  sc_jumps : Z;
  sc_visited : list Z;
  sc_position : Z;
  sc_known : list Z }.

(** One turn of the loop of [ResourceReader::read_name]. *)
Definition read_name_step (input : list Z) (s : name_scan)
    : result LightChainError (name_scan + (ResourceName * Z * list Z)) :=
  let cursor := sc_cursor s in
  if bool_decide (cursor ∈ sc_visited s) then Err ResourceNameCompressionLoop else
  let visited := sc_visited s ++ [cursor] in
  let? length := ok_or (get input cursor) ResourceTruncated in
  if Z.land length 0xc0 =? 0xc0 then
    let? next := ok_or (get input (cursor + 1)) ResourceTruncated in
    let target := Z.lor (Z.shiftl (Z.land length 0x3f) 8) next in
    if (cursor <=? target) || negb (bool_decide (target ∈ sc_known s))
    then Err InvalidResourceNamePointer else
    let resume := match sc_resume s with None => Some (cursor + 2) | Some p => Some p end in
    let jumps := sc_jumps s + 1 in
    if MAX_RESOURCE_NAME_JUMPS <? jumps then Err ResourceNameJumpLimit else
    Ok (inl {| sc_cursor := target; sc_resume := resume; sc_labels := sc_labels s;
               sc_expanded_wire_length := sc_expanded_wire_length s; sc_jumps := jumps;
               sc_visited := visited; sc_position := sc_position s; sc_known := sc_known s |})
  else
  if negb (Z.land length 0xc0 =? 0) then Err InvalidResourceName else
  let known := sc_known s ++ [cursor] in
  let cursor := cursor + 1 in
  if length =? 0 then
    Ok (inr ({| rn_labels := sc_labels s |}, default cursor (sc_resume s), known))
  else
  if (63 <? length) || (MAX_RESOURCE_NAME_LABELS <=? zlen (sc_labels s))
  then Err InvalidResourceName else
  let? expanded := ok_or (checked_add (sc_expanded_wire_length s) (length + 1))
                         InvalidResourceName in
  if 255 <? expanded then Err InvalidResourceName else
  let? stop := ok_or (checked_add cursor length) ResourceTruncated in
  let? label := ok_or (get_range input cursor stop) ResourceTruncated in
  Ok (inl {| sc_cursor := stop; sc_resume := sc_resume s; sc_labels := sc_labels s ++ [label];
             sc_expanded_wire_length := expanded; sc_jumps := sc_jumps s; sc_visited := visited;
             sc_position := match sc_resume s with None => stop | Some _ => sc_position s end;
             sc_known := known |}).

Definition name_scan_init (r : ResourceReader) : name_scan :=
  {| sc_cursor := rr_position r; sc_resume := None; sc_labels := [];
     sc_expanded_wire_length := 1; sc_jumps := 0; sc_visited := [];
     sc_position := rr_position r; sc_known := rr_known_name_offsets r |}.

(** [ResourceReader::read_name]. *)
Definition reader_read_name (r : ResourceReader)
    : result LightChainError (ResourceName * ResourceReader) :=
  match loop (S (length (rr_input r))) (read_name_step (rr_input r)) (name_scan_init r) with
  | Some (Ok (name, position, known)) =>
      Ok (name, {| rr_input := rr_input r; rr_position := position;
                   rr_known_name_offsets := known |})
  | Some (Err e) => Err e
  | None => Err ResourceNameCompressionLoop
  end.

(** ** Resources *)

(** [for _ in 0..count { strings.push(read_length_prefixed_bytes()?) }]. *)
Fixpoint read_strings (count : nat) (r : ResourceReader)
    : result LightChainError (list (list Z) * ResourceReader) :=
  match count with
  | O => Ok ([], r)
  | S count =>
      let? (s, r) := read_length_prefixed_bytes r in
      let? (strings, r) := read_strings count r in
      Ok (s :: strings, r)
  end.

(** The [match kind] of [HnsResource::decode]. *)
Definition read_resource_record (kind : Z) (r : ResourceReader)
    : result LightChainError (HnsResourceRecord * ResourceReader) :=
  match kind with
  | 0 =>
      let? (key_tag, r) := reader_read_u16_be r in
      let? (algorithm, r) := reader_read_u8 r in
      let? (digest_type, r) := reader_read_u8 r in
      let? (digest, r) := read_length_prefixed_bytes r in
      Ok (Ds {| ds_key_tag := key_tag; ds_algorithm := algorithm;
                ds_digest_type := digest_type; ds_digest := digest |}, r)
  | 1 => let? (name, r) := reader_read_name r in Ok (Ns name, r)
  | 2 =>
      let? (name, r) := reader_read_name r in
      let? (address, r) := reader_read_array 4 r in
      Ok (Glue4 name address, r)
  | 3 =>
      let? (name, r) := reader_read_name r in
      let? (address, r) := reader_read_array 16 r in
      Ok (Glue6 name address, r)
  | 4 => let? (address, r) := reader_read_array 4 r in Ok (Synth4 address, r)
  | 5 => let? (address, r) := reader_read_array 16 r in Ok (Synth6 address, r)
  | _ =>
      let? (count, r) := reader_read_u8 r in
      let? (strings, r) := read_strings (Z.to_nat count) r in
      Ok (Txt strings, r)
  end.

(** One turn of [while !reader.is_finished()]. *)
Definition decode_records_step (s : ResourceReader * list HnsResourceRecord)
    : result LightChainError (ResourceReader * list HnsResourceRecord
                              + list HnsResourceRecord) :=
  let '(r, records) := s in
  if reader_is_finished r then Ok (inr records) else
  let? (kind, r) := reader_read_u8 r in
  if MAX_KNOWN_RESOURCE_KIND <? kind then Err (UnknownResourceRecord kind) else
  let? (record, r) := read_resource_record kind r in
  Ok (inl (r, records ++ [record])).

(** [HnsResource::decode]. *)
Definition hns_resource_decode (raw : list Z) : result LightChainError HnsResource :=
  if MAX_RESOURCE_SIZE <? zlen raw then Err (ResourceTooLarge (zlen raw)) else
  let? (version, r) := reader_read_u8 (reader_new raw) in
  if negb (version =? 0) then Err UnsupportedResourceVersion else
  let? records :=
    match loop (S (length raw)) decode_records_step (r, []) with
    | Some result => result
    | None => Err ResourceTruncated
    end in
  let? _ := lift LcCovenant (covenant_resource_new raw) in
  Ok {| res_raw := raw; res_records := records |}.

(** [HnsResource::delegation_signers]. *)
Definition delegation_signers (res : HnsResource) : list DelegationSigner :=
  omap (fun record => match record with Ds ds => Some ds | _ => None end) (res_records res).

(** ** Name states *)

Record DecodedNameState := { dn_resource : list Z; dn_height : Z; dn_renewal : Z }.

Definition bit_set (field bit : Z) : bool := negb (Z.land field (Z.shiftl 1 bit) =? 0).

(** An optional compact size of a name state. *)
Definition skip_compact (present : bool) (input : list Z) : result LightChainError (list Z) :=
  if present then
    let? (_, input) := lift NameStateDecode (read_compact_size input) in Ok input
  else Ok input.

(** The same, bounded by [u32::MAX]. *)
Definition skip_compact_u32 (present : bool) (input : list Z) : result LightChainError (list Z) :=
  if present then
    let? (value, input) := lift NameStateDecode (read_compact_size input) in
    if u32_max <? value then Err InvalidNameStateValue else Ok input
  else Ok input.

(** [for bit in [3, 4, 5]]: event heights, none above the tip. *)
Fixpoint read_events (field tip_height : Z) (bits input : list Z)
    : result LightChainError (list Z) :=
  match bits with
  | [] => Ok input
  | bit :: bits =>
      let? input :=
        if bit_set field bit then
          let? (event_height, input) := lift NameStateDecode (read_u32_le input) in
          if tip_height <? event_height then Err FutureNameState else Ok input
        else Ok input in
      read_events field tip_height bits input
  end.

Definition decode_name_state (raw expected_name : list Z) (tip_height : Z)
    : result LightChainError DecodedNameState :=
  let? (name_length, input) := lift NameStateDecode (read_u8 raw) in
  let? (name, input) := lift NameStateDecode (read_slice name_length input) in
  if negb (bool_decide (name = expected_name)) || negb (validate_name name)
  then Err NameStateNameMismatch else
  let? (resource_length, input) := lift NameStateDecode (read_u16_le input) in
  if resource_length =? 0 then Err MissingResource else
  if MAX_RESOURCE_SIZE <? resource_length then Err (ResourceTooLarge resource_length) else
  let? (resource, input) := lift NameStateDecode (read_slice resource_length input) in
  let? (height, input) := lift NameStateDecode (read_u32_le input) in
  let? (renewal, input) := lift NameStateDecode (read_u32_le input) in
  let? (field, input) := lift NameStateDecode (read_u16_le input) in
  if negb (Z.land field (u16_max - NAME_STATE_KNOWN_FIELD_BITS) =? 0)
  then Err UnknownNameStateField else
  if (tip_height <? height) || (tip_height <? renewal) then Err FutureNameState else
  let? input :=
    if bit_set field 0 then
      let? (_, input) := lift NameStateDecode (read_array 32 input) in
      skip_compact_u32 true input
    else Ok input in
  let? input := skip_compact (bit_set field 1) input in
  let? input := skip_compact (bit_set field 2) input in
  let? input := read_events field tip_height [3; 4; 5] input in
  let? input := skip_compact_u32 (bit_set field 6) input in
  let? _ := lift NameStateDecode (finish input) in
  Ok {| dn_resource := resource; dn_height := height; dn_renewal := renewal |}.

(** ** Proof verification *)

Record VerifiedHnsResource := {
  vr_anchor : HnsAnchor;
  vr_name_hash : list Z;
  vr_name : list Z;
  vr_state_height : Z;
  vr_renewal_height : Z;
  vr_resource : HnsResource }.

(** [CurrentChain::verify_name_resource]. *)
Definition verify_name_resource (anchor : HnsAnchor) (name proof_bytes : list Z)
    : result LightChainError VerifiedHnsResource :=
  let? name_hash := lift LcCovenant (hash_name name) in
  let? proof := lift LcUrkel (urkel_decode_strict proof_bytes) in
  let? included := lift LcUrkel (urkel_verify proof (anchor_tree_root anchor) name_hash) in
  let? name_state := ok_or included NameNotFound in
  let? decoded := decode_name_state name_state name (anchor_height anchor) in
  let? resource := hns_resource_decode (dn_resource decoded) in
  Ok {| vr_anchor := anchor; vr_name_hash := name_hash; vr_name := name;
        vr_state_height := dn_height decoded; vr_renewal_height := dn_renewal decoded;
        vr_resource := resource |}.
End resource.

(** ** What a decoded resource looks like *)

Fixpoint expanded_length (labels : list (list Z)) : Z :=
  match labels with [] => 1 | l :: labels => zlen l + 1 + expanded_length labels end.

(** A name within the DNS bounds. *)
Definition resource_name_ok (n : ResourceName) : Prop :=
  Forall (fun l => 1 <= zlen l <= 63) (rn_labels n) /\
  zlen (rn_labels n) <= MAX_RESOURCE_NAME_LABELS /\ expanded_length (rn_labels n) <= 255.

Definition resource_record_ok (record : HnsResourceRecord) : Prop :=
  match record with
  | Ds ds => in_u16 (ds_key_tag ds) /\ in_u8 (ds_algorithm ds) /\ in_u8 (ds_digest_type ds) /\
             zlen (ds_digest ds) <= 255
  | Ns name => resource_name_ok name
  | Glue4 name address => resource_name_ok name /\ zlen address = 4
  | Glue6 name address => resource_name_ok name /\ zlen address = 16
  | Synth4 address => zlen address = 4
  | Synth6 address => zlen address = 16
  | Txt strings => zlen strings <= 255 /\ Forall (fun s => zlen s <= 255) strings
  end.

Lemma expanded_length_snoc labels l :
  expanded_length (labels ++ [l]) = expanded_length labels + zlen l + 1.
Proof. induction labels as [|x labels IH]; simpl; [|rewrite IH]; lia. Qed.

Section resource_proofs.
Context `{NameExternals}.

(** A reader moves forward inside its input. *)
Definition advances (r r' : ResourceReader) : Prop :=
  rr_input r' = rr_input r /\ rr_position r <= rr_position r' <= zlen (rr_input r).

Lemma advances_trans r1 r2 r3 : advances r1 r2 -> advances r2 r3 -> advances r1 r3.
Proof. unfold advances. intros [E1 ?] [E2 ?]. rewrite E1 in *. split; [congruence|lia]. Qed.

Lemma read_array_inv n r bytes r' :
  reader_read_array n r = Ok (bytes, r') ->
  advances r r' /\ rr_position r' = rr_position r + n /\ zlen bytes = n /\
  get_range (rr_input r) (rr_position r) (rr_position r + n) = Some bytes.
Proof.
  unfold reader_read_array. destruct (checked_add _ _) as [stop|] eqn:Ec; [|done].
  apply checked_add_Some in Ec as [-> _]. cbn [ok_or].
  destruct (get_range _ _ _) as [b|] eqn:Eg; [|done]. intros [= <- <-].
  destruct (get_range_Some _ _ _ _ Eg) as (? & ? & ?). unfold advances. simpl.
  split_and!; done || lia.
Qed.

Lemma read_uint_inv n v r r' :
  bytes_ok (rr_input r) ->
  (let? (bytes, r) := reader_read_array n r in Ok (from_be bytes, r)) = Ok (v, r') ->
  advances r r' /\ rr_position r' = rr_position r + n /\ 0 <= v < 256 ^ n.
Proof.
  intros Hb E. destruct (reader_read_array n r) as [[bytes r1]|] eqn:Ea; [|done].
  injection E as <- <-. destruct (read_array_inv _ _ _ _ Ea) as (? & ? & Hz & Hg).
  split; [done|]. split; [done|]. rewrite <- Hz.
  apply from_be_bound. by eapply get_range_bytes.
Qed.

Lemma read_u8_inv v r r' :
  bytes_ok (rr_input r) -> reader_read_u8 r = Ok (v, r') ->
  advances r r' /\ rr_position r' = rr_position r + 1 /\ in_u8 v.
Proof.
  intros Hb E. destruct (read_uint_inv 1 _ _ _ Hb E) as (? & ? & ?).
  split_and!; [done|done|]. width_lia.
Qed.

Lemma read_lpb_inv bytes r r' :
  bytes_ok (rr_input r) -> read_length_prefixed_bytes r = Ok (bytes, r') ->
  advances r r' /\ zlen bytes <= 255.
Proof.
  intros Hb E. unfold read_length_prefixed_bytes in E.
  destruct (reader_read_u8 r) as [[len r1]|] eqn:E1; [|done].
  destruct (read_u8_inv _ _ _ Hb E1) as (Ha & Hp & Hl).
  destruct (read_array_inv len r1 bytes r') as (? & ? & ? & _); [exact E|].
  split; [by eapply advances_trans|width_lia].
Qed.

Lemma read_strings_inv count strings r r' :
  bytes_ok (rr_input r) -> rr_position r <= zlen (rr_input r) ->
  read_strings count r = Ok (strings, r') ->
  advances r r' /\ length strings = count /\ Forall (fun s => zlen s <= 255) strings.
Proof.
  revert strings r. induction count as [|count IH]; intros strings r Hb Hp E; simpl in E.
  { injection E as <- <-. by split_and!. }
  destruct (read_length_prefixed_bytes r) as [[s r1]|] eqn:E1; [|done].
  destruct (read_lpb_inv _ _ _ Hb E1) as [Ha Hs].
  pose proof Ha as [Hi ?]. destruct (read_strings count r1) as [[ss r2]|] eqn:E2; [|done]. injection E as <- <-.
  destruct (IH _ r1 ltac:(by rewrite Hi) ltac:(rewrite Hi; lia) E2) as (? & ? & ?).
  split; [by apply (advances_trans _ r1)|]. split; [simpl; congruence|by constructor].
Qed.

(** *** The loop of [read_name] *)

Record scan_inv (input : list Z) (start : Z) (s : name_scan) : Prop := {
  scan_visited : NoDup (sc_visited s) /\ Forall (fun c => 0 <= c < zlen input) (sc_visited s);
  scan_labels : Forall (fun l => 1 <= zlen l <= 63) (sc_labels s);
  scan_count : zlen (sc_labels s) <= MAX_RESOURCE_NAME_LABELS;
  scan_length : sc_expanded_wire_length s = expanded_length (sc_labels s);
  scan_bound : sc_expanded_wire_length s <= 255;
  scan_cursor : match sc_resume s with
                | None => start <= sc_cursor s
                | Some p => start < p <= zlen input
                end }.

(** Distinct positions of the input are no more than its bytes. *)
Lemma visited_bound (input visited : list Z) :
  NoDup visited -> Forall (fun c => 0 <= c < zlen input) visited ->
  (length visited <= length input)%nat.
Proof.
  intros Hn Hf. transitivity (length (seqZ 0 (zlen input))).
  - apply submseteq_length, NoDup_submseteq; [done|]. intros c Hc.
    rewrite Forall_forall in Hf. apply elem_of_seqZ. specialize (Hf c Hc). lia.
  - rewrite length_seqZ. unfold zlen. lia.
Qed.

Lemma scan_step input start s s' :
  scan_inv input start s -> read_name_step input s = Ok (inl s') ->
  scan_inv input start s' /\
  (length input - length (sc_visited s') < length input - length (sc_visited s))%nat.
Proof.
  intros [[Hnd Hv] Hl Hc He Hb Hcur] E. unfold read_name_step in E.
  case_bool_decide as Hin; [done|].
  destruct (get input (sc_cursor s)) as [len|] eqn:El; [|done]. cbn [ok_or] in E.
  pose proof (get_Some_range _ _ _ El) as Hr.
  assert (Hnd' : NoDup (sc_visited s ++ [sc_cursor s])).
  { apply NoDup_app. split_and!; [done| |apply NoDup_singleton]. by intros x Hx ->%list_elem_of_singleton. }
  assert (Hv' : Forall (fun c => 0 <= c < zlen input) (sc_visited s ++ [sc_cursor s])).
  { apply Forall_app. split; [done|]. by apply Forall_singleton. }
  pose proof (visited_bound _ _ Hnd' Hv') as Hm. rewrite length_app in Hm; simpl in Hm.
  case_match eqn:Eptr.
  - destruct (get input (sc_cursor s + 1)) as [next|] eqn:En; [|done]. cbn [ok_or] in E.
    apply get_Some_range in En. case_match; [done|]. case_match; [done|].
    injection E as <-. split; [|simpl; rewrite length_app; simpl; lia].
    constructor; simpl; try done. destruct (sc_resume s); lia.
  - case_match; [done|]. case_match; [done|]. case_match eqn:Eg; [done|].
    destruct (checked_add (sc_expanded_wire_length s) _) as [ex|] eqn:Ex; [|done]. cbn [ok_or] in E.
    case_match; [done|]. destruct (checked_add _ len) as [stop|] eqn:Es; [|done]. cbn [ok_or] in E.
    destruct (get_range input _ stop) as [label|] eqn:Eg2; [|done]. injection E as <-.
    apply checked_add_Some in Ex as [-> _], Es as [-> _].
    apply get_range_Some in Eg2 as (? & ? & Hz). breflect. split; [|simpl; rewrite length_app; simpl; lia].
    constructor; simpl; try done.
    + apply Forall_app. split; [done|]. apply Forall_singleton. lia.
    + rewrite zlen_app, zlen_cons, zlen_nil. lia.
    + rewrite expanded_length_snoc. lia.
    + destruct (sc_resume s); lia.
Qed.

Lemma scan_result input start s name position known :
  scan_inv input start s -> read_name_step input s = Ok (inr (name, position, known)) ->
  resource_name_ok name /\ start < position <= zlen input.
Proof.
  intros [_ Hl Hc He Hb Hcur] E. unfold read_name_step in E.
  case_bool_decide as Hin; [done|].
  destruct (get input (sc_cursor s)) as [len|] eqn:El; [|done]. cbn [ok_or] in E.
  pose proof (get_Some_range _ _ _ El) as Hr.
  case_match eqn:Eptr.
  - destruct (get input (sc_cursor s + 1)) as [next|]; [|done]. cbn [ok_or] in E.
    case_match; [done|]. by case_match.
  - case_match; [done|]. case_match.
    + injection E as <- <- _. split; [|destruct (sc_resume s); simpl; lia].
      unfold resource_name_ok. simpl. split_and!; done || lia.
    + case_match; [done|].
      destruct (checked_add (sc_expanded_wire_length s) _) as [ex|]; [|done]. cbn [ok_or] in E.
      case_match; [done|]. destruct (checked_add _ len) as [stop|]; [|done]. cbn [ok_or] in E.
      by destruct (get_range input _ stop).
Qed.

Lemma scan_init r : scan_inv (rr_input r) (rr_position r) (name_scan_init r).
Proof. constructor; simpl; try done. split; constructor. Qed.

(** Every name scan returns: a position is stood on at most once. *)
Lemma read_name_total r :
  exists x, loop (S (length (rr_input r))) (read_name_step (rr_input r)) (name_scan_init r) = Some x.
Proof.
  apply (loop_terminates _ (scan_inv (rr_input r) (rr_position r))
           (fun s => length (rr_input r) - length (sc_visited s))%nat).
  - intros s s'. apply scan_step.
  - apply scan_init.
  - simpl. lia.
Qed.

Lemma read_name_inv name r r' :
  reader_read_name r = Ok (name, r') ->
  resource_name_ok name /\ advances r r' /\ rr_position r < rr_position r'.
Proof.
  unfold reader_read_name.
  destruct (loop _ _ _) as [[[[n p] k]|e]|] eqn:E; [|done|done]. intros [= <- <-].
  assert (H1 : resource_name_ok n /\ rr_position r < p <= zlen (rr_input r)).
  { apply (loop_result _ (scan_inv (rr_input r) (rr_position r))
             (fun x => resource_name_ok x.1.1 /\ rr_position r < x.1.2 <= zlen (rr_input r)))
      with (4 := E); [intros s s' Hs Hq; by eapply scan_step| |apply scan_init].
    intros s [[n' p'] k'] Hs Hq. by eapply scan_result. }
  destruct H1 as [? ?]. split; [done|]. unfold advances. simpl. split_and!; done || lia.
Qed.

(** Follow one successful read, with its facts. *)
Ltac read_step E :=
  match type of E with
  | context [match reader_read_u8 ?r with _ => _ end] =>
      destruct (reader_read_u8 r) as [[? ?]|] eqn:?; [|discriminate E]
  | context [match reader_read_u16_be ?r with _ => _ end] =>
      destruct (reader_read_u16_be r) as [[? ?]|] eqn:?; [|discriminate E]
  | context [match reader_read_array ?n ?r with _ => _ end] =>
      destruct (reader_read_array n r) as [[? ?]|] eqn:?; [|discriminate E]
  | context [match read_length_prefixed_bytes ?r with _ => _ end] =>
      destruct (read_length_prefixed_bytes r) as [[? ?]|] eqn:?; [|discriminate E]
  | context [match reader_read_name ?r with _ => _ end] =>
      destruct (reader_read_name r) as [[? ?]|] eqn:?; [|discriminate E]
  | context [match read_strings ?n ?r with _ => _ end] =>
      destruct (read_strings n r) as [[? ?]|] eqn:?; [|discriminate E]
  end.

Lemma read_u16_inv v r r' :
  bytes_ok (rr_input r) -> reader_read_u16_be r = Ok (v, r') -> advances r r' /\ in_u16 v.
Proof. intros Hb E. destruct (read_uint_inv 2 _ _ _ Hb E) as (? & _ & ?). split; [done|width_lia]. Qed.

Lemma read_record_inv kind record r r' :
  bytes_ok (rr_input r) -> rr_position r <= zlen (rr_input r) ->
  read_resource_record kind r = Ok (record, r') ->
  resource_record_ok record /\ advances r r'.
Proof.
  assert (Hi : forall r1 r2, advances r1 r2 -> bytes_ok (rr_input r1) -> bytes_ok (rr_input r2))
    by (intros r1 r2 [-> _]; done).
  assert (Hstrings : bytes_ok (rr_input r) ->
    (let? (count, r) := reader_read_u8 r in
     let? (strings, r) := read_strings (Z.to_nat count) r in Ok (Txt strings, r)) = Ok (record, r') ->
    resource_record_ok record /\ advances r r').
  { intros Hb E. read_step E. destruct (read_u8_inv _ _ _ Hb Heqr0) as (A1 & _ & Hc).
    read_step E. injection E as <- <-. pose proof A1 as [Hin [_ Hp]]. rewrite <- Hin in Hp.
    destruct (read_strings_inv _ _ _ _ (Hi _ _ A1 Hb) Hp Heqr1) as (A2 & Hl & Hs).
    split; [|by eapply advances_trans]. split; [unfold zlen; rewrite Hl; width_lia|done]. }
  intros Hb Hp E. unfold read_resource_record in E.
  repeat (match type of E with
    | context [match ?k with _ => _ end] => is_var k; destruct k
    end; try by apply Hstrings).
  all: repeat read_step E; injection E as <- <-.
  all: repeat match goal with
    | H : reader_read_name _ = Ok _ |- _ => apply read_name_inv in H as (? & ? & _)
    | H : reader_read_array _ _ = Ok _ |- _ => apply read_array_inv in H as (? & _ & ? & _)
    | H : reader_read_u16_be ?a = Ok _, B : bytes_ok (rr_input ?a) |- _ =>
        apply read_u16_inv in H as [? ?]; [|exact B]
    | H : reader_read_u8 ?a = Ok _, B : bytes_ok (rr_input ?a) |- _ =>
        apply read_u8_inv in H as (? & _ & ?); [|exact B]
    | H : read_length_prefixed_bytes ?a = Ok _, B : bytes_ok (rr_input ?a) |- _ =>
        apply read_lpb_inv in H as [? ?]; [|exact B]
    | A : advances ?a ?b, B : bytes_ok (rr_input ?a) |- _ =>
        lazymatch goal with B' : bytes_ok (rr_input b) |- _ => fail | _ =>
          pose proof (Hi _ _ A B) end
    end.
  all: split; [simpl; tauto|].
  all: eauto 6 using advances_trans.
Qed.

(** *** The record loop *)

Definition records_inv (raw : list Z) (s : ResourceReader * list HnsResourceRecord) : Prop :=
  rr_input s.1 = raw /\ rr_position s.1 <= zlen raw /\ Forall resource_record_ok s.2.

Lemma records_step raw s s' :
  bytes_ok raw -> records_inv raw s -> decode_records_step s = Ok (inl s') ->
  records_inv raw s' /\
  (Z.to_nat (zlen raw - rr_position s'.1) < Z.to_nat (zlen raw - rr_position s.1))%nat.
Proof.
  destruct s as [r records]. intros Hb (Hi & Hp & Hf) E. simpl in Hi, Hp, Hf.
  unfold decode_records_step in E. case_match eqn:Efin; [done|].
  read_step E. rewrite <- Hi in Hb, Hp. destruct (read_u8_inv _ _ _ Hb Heqr0) as ([Hi1 ?] & Hp1 & _).
  case_match; [done|].
  destruct (read_resource_record _ _) as [[record r2]|] eqn:E2; [|done]. injection E as <-.
  destruct (read_record_inv _ _ _ _ ltac:(by rewrite Hi1) ltac:(rewrite Hi1; lia) E2)
    as [Hr [Hi2 ?]]. rewrite Hi1 in *. subst raw. unfold records_inv. simpl. split_and!; try done; try lia.
  apply Forall_app. split; [done|]. by apply Forall_singleton.
Qed.

Lemma records_result raw s records :
  records_inv raw s -> decode_records_step s = Ok (inr records) -> Forall resource_record_ok records.
Proof.
  destruct s as [r l]. intros (_ & _ & Hf) E. unfold decode_records_step in E.
  case_match; [by injection E as <-|]. read_step E. case_match; [done|].
  by destruct (read_resource_record _ _) as [[? ?]|].
Qed.

Lemma version_read raw version r :
  bytes_ok raw -> reader_read_u8 (reader_new raw) = Ok (version, r) ->
  rr_input r = raw /\ rr_position r = 1 /\ 1 <= zlen raw.
Proof. intros Hb E. destruct (read_u8_inv _ (reader_new raw) _ Hb E) as ([? ?] & Hp & _). simpl in *. split_and!; done || lia. Qed.

(** Decoding a committed resource always returns: each name scan and the
    record loop end, whatever compression pointers the bytes hold. What it
    accepts is version zero within the covenant bound, and every record is well
    formed: names within 127 labels of 1 to 63 bytes and 255 bytes expanded,
    addresses of their width, at most 255 strings of at most 255 bytes. *)
Theorem resource_decode_total_sound raw :
  bytes_ok raw ->
  (forall r, exists x,
     loop (S (length (rr_input r))) (read_name_step (rr_input r)) (name_scan_init r) = Some x) /\
  (forall r, rr_input r = raw -> rr_position r = 1 -> 1 <= zlen raw -> exists x,
     loop (S (length raw)) decode_records_step (r, []) = Some x) /\
  forall res, hns_resource_decode raw = Ok res ->
    res_raw res = raw /\ zlen raw <= MAX_RESOURCE_SIZE /\ get raw 0 = Some 0 /\
    covenant_resource_new raw = Ok tt /\ Forall resource_record_ok (res_records res).
Proof.
  intros Hb. split; [apply read_name_total|]. split.
  - intros r Hi Hp Hl.
    apply (loop_terminates _ (records_inv raw) (fun s => Z.to_nat (zlen raw - rr_position s.1))).
    + intros s s'. by apply records_step.
    + by split_and!; simpl; [|lia|].
    + simpl. unfold zlen. lia.
  - intros res E. unfold hns_resource_decode in E. case_match; [done|].
    destruct (reader_read_u8 (reader_new raw)) as [[version r]|] eqn:Ev; [|done].
    destruct (version_read _ _ _ Hb Ev) as (Hi & Hp & Hl).
    case_match eqn:Hz; [done|]. destruct (loop _ _ _) as [[records|]|] eqn:El; [|done|done].
    destruct (covenant_resource_new raw) as [[]|] eqn:Ec; [|done]. injection E as <-. breflect. subst.
    simpl. split_and!; try done.
    + unfold reader_read_u8 in Ev.
      destruct (reader_read_array 1 _) as [[bytes r1]|] eqn:Ea; [|done].
      destruct (read_array_inv _ _ _ _ Ea) as (_ & _ & _ & Hg). injection Ev as Hfb ->.
      apply get_range_one in Hg as (b & -> & Hg). simpl in Hg.
      change (0 * 256 + b = 0) in Hfb. rewrite Hg. f_equal. lia.
    + apply (loop_result _ (records_inv (rr_input r)) (Forall resource_record_ok)) with (4 := El).
      * intros s s' Hs Hq. by eapply records_step.
      * intros s a. apply records_result.
      * by split_and!; simpl; [|lia|].
Qed.

(** ** The reference encoding

    The bytes of a resource, names written out in full. *)

Definition resource_name_bytes (n : ResourceName) : list Z :=
  concat (map (fun l => zlen l :: l) (rn_labels n)) ++ [0].

Definition prefixed (s : list Z) : list Z := zlen s :: s.

Definition resource_record_bytes (record : HnsResourceRecord) : list Z :=
  match record with
  | Ds ds => 0 :: to_be 2 (ds_key_tag ds) ++ [ds_algorithm ds; ds_digest_type ds]
               ++ prefixed (ds_digest ds)
  | Ns name => 1 :: resource_name_bytes name
  | Glue4 name address => 2 :: resource_name_bytes name ++ address
  | Glue6 name address => 3 :: resource_name_bytes name ++ address
  | Synth4 address => 4 :: address
  | Synth6 address => 5 :: address
  | Txt strings => 6 :: zlen strings :: concat (map prefixed strings)
  end.

Definition resource_bytes (records : list HnsResourceRecord) : list Z :=
  0 :: concat (map resource_record_bytes records).

#[local] Instance resource_reader_pos : PosReader ResourceReader :=
  {| reader_input := rr_input; reader_pos := rr_position |}.

Lemma reads_array n x : zlen x = n -> reads_back (reader_read_array n) x x.
Proof.
  intros Hn r pre post (Hi & Hp & Hu). simpl in Hi, Hp. exists (reader_at r (zlen pre + n)).
  pose proof (zlen_nonneg pre); pose proof (zlen_nonneg post); pose proof (zlen_nonneg x).
  unfold reader_read_array. rewrite Hp, Hi. lens. zdecide_with ltac:(lia).
  rewrite (get_range_mid pre x post) by lia. split; [done|].
  unfold standing. simpl. rewrite <- app_assoc. split_and!; [done|lens; lia|lens; lia].
Qed.

Lemma reads_u8 v : reads_back reader_read_u8 [v] v.
Proof.
  rewrite <- (from_be_one v) at 2.
  by apply (reads_last (reader_read_array 1)), reads_array.
Qed.

Lemma reads_u16 v : in_u16 v -> reads_back reader_read_u16_be (to_be 2 v) v.
Proof.
  intros Hv. rewrite <- (from_be_to_be 2 v) at 2 by width_lia.
  apply (reads_last (reader_read_array 2)), reads_array. apply zlen_to_be.
Qed.

Lemma reads_prefixed s : reads_back read_length_prefixed_bytes (prefixed s) s.
Proof.
  apply (reads_bind reader_read_u8 (fun length => reader_read_array length) [zlen s] s (zlen s) s);
    [apply reads_u8|by apply reads_array].
Qed.

Lemma reads_strings strings :
  reads_back (read_strings (length strings)) (concat (map prefixed strings)) strings.
Proof.
  induction strings as [|s strings IH]; simpl; [apply reads_ret|].
  apply (reads_bind read_length_prefixed_bytes
    (fun s r => let? (strings, r) := read_strings (length strings) r in Ok (s :: strings, r))
    (prefixed s) _ s); [apply reads_prefixed|]. by apply (reads_last (read_strings _) (cons s)).
Qed.

(** *** Names written out in full *)

Lemma scan_label input l acc pre tail known visited position jumps :
  input = pre ++ zlen l :: l ++ tail -> zlen input <= u64_max -> 1 <= zlen l <= 63 ->
  zlen acc < MAX_RESOURCE_NAME_LABELS -> expanded_length (acc ++ [l]) <= 255 ->
  zlen pre ∉ visited ->
  read_name_step input
    {| sc_cursor := zlen pre; sc_resume := None; sc_labels := acc;
       sc_expanded_wire_length := expanded_length acc; sc_jumps := jumps;
       sc_visited := visited; sc_position := position; sc_known := known |}
  = Ok (inl {| sc_cursor := zlen (pre ++ zlen l :: l); sc_resume := None;
       sc_labels := acc ++ [l]; sc_expanded_wire_length := expanded_length (acc ++ [l]);
       sc_jumps := jumps; sc_visited := visited ++ [zlen pre];
       sc_position := zlen (pre ++ zlen l :: l); sc_known := known ++ [zlen pre] |}).
Proof.
  intros Hi Hu Hl Hc He Hv. rewrite expanded_length_snoc in *.
  pose proof (zlen_nonneg pre); pose proof (zlen_nonneg tail).
  assert (Hget : get input (zlen pre) = Some (zlen l)) by (rewrite Hi; apply get_app_mid).
  assert (Hlab : get_range input (zlen pre + 1) (zlen pre + 1 + zlen l) = Some l).
  { apply (get_range_at (pre ++ [zlen l]) l tail);
      [by rewrite Hi, <- app_assoc|lens; lia|lens; lia]. }
  assert (Hz : zlen input = zlen pre + 1 + zlen l + zlen tail) by (rewrite Hi; lens; lia).
  unfold read_name_step.
  cbn [sc_cursor sc_resume sc_labels sc_expanded_wire_length sc_jumps sc_visited sc_position sc_known].
  rewrite bool_decide_eq_false_2, Hget by done. cbn [ok_or]. rewrite land_192_small by lia.
  unfold MAX_RESOURCE_NAME_LABELS in *. zdecide_with ltac:(width_lia). rewrite Hlab. cbn [ok_or].
  replace (zlen (pre ++ zlen l :: l)) with (zlen pre + 1 + zlen l) by (lens; lia).
  by rewrite Z.add_assoc.
Qed.

Lemma expanded_length_prefix a b : expanded_length a <= expanded_length (a ++ b).
Proof.
  induction a as [|x a IH]; simpl; [|lia].
  induction b as [|y b IHb]; simpl; [|pose proof (zlen_nonneg y)]; lia.
Qed.

(** The scan from the middle of such a name: every label pushes itself. *)
Lemma scan_full input fuel labels acc pre post known visited position jumps :
  input = pre ++ concat (map (fun l => zlen l :: l) labels) ++ 0 :: post ->
  zlen input <= u64_max ->
  Forall (fun l => 1 <= zlen l <= 63) labels ->
  zlen (acc ++ labels) <= MAX_RESOURCE_NAME_LABELS -> expanded_length (acc ++ labels) <= 255 ->
  Forall (fun c => c < zlen pre) visited -> (length labels < fuel)%nat ->
  exists known',
    loop fuel (read_name_step input)
      {| sc_cursor := zlen pre; sc_resume := None; sc_labels := acc;
         sc_expanded_wire_length := expanded_length acc; sc_jumps := jumps;
         sc_visited := visited; sc_position := position; sc_known := known |}
    = Some (Ok ({| rn_labels := acc ++ labels |},
        zlen pre + zlen (concat (map (fun l => zlen l :: l) labels)) + 1, known')).
Proof.
  revert fuel acc pre known visited position.
  induction labels as [|l labels IH]; intros fuel acc pre known visited position
    Hi Hu Hl Hc He Hv Hf; (destruct fuel as [|fuel]; [simpl in Hf; lia|]).
  all: assert (Hfresh : zlen pre ∉ visited)
      by (rewrite Forall_forall in Hv; intros Hin; specialize (Hv _ Hin); lia).
  - simpl in Hi. exists (known ++ [zlen pre]). rewrite app_nil_r. simpl loop. unfold read_name_step. simpl.
    rewrite bool_decide_eq_false_2 by done. rewrite Hi, get_app_mid. simpl.
    rewrite zlen_nil, Z.add_0_r. done.
  - apply Forall_cons in Hl as [Hl1 Hl2]. simpl in Hi. rewrite <- app_assoc in Hi.
    change (l :: labels) with ([l] ++ labels) in *. rewrite (app_assoc acc) in *.
    pose proof (expanded_length_prefix (acc ++ [l]) labels).
    simpl loop. erewrite (scan_label input l acc pre); [|exact Hi|done|done| |lia|done].
    2: { revert Hc. unfold MAX_RESOURCE_NAME_LABELS. lens. pose proof (zlen_nonneg labels). lia. }
    destruct (IH fuel (acc ++ [l]) (pre ++ zlen l :: l) (known ++ [zlen pre])
      (visited ++ [zlen pre]) (zlen (pre ++ zlen l :: l))) as [known' Hloop]; try done.
    { rewrite Hi. by rewrite <- app_assoc. }
    { apply Forall_app. lens. split; [|apply Forall_singleton; pose proof (zlen_nonneg l); lia].
      eapply Forall_impl; [exact Hv|]. simpl. intros. pose proof (zlen_nonneg l). lia. }
    { simpl in Hf. lia. }
    exists known'. rewrite Hloop. do 4 f_equal. simpl. lens. lia.
Qed.

Lemma labels_le_bytes (labels : list (list Z)) :
  (length labels <= length (concat (map (fun l => zlen l :: l) labels)))%nat.
Proof. induction labels; simpl; [lia|]. rewrite length_app. lia. Qed.

Lemma reads_name n : resource_name_ok n -> reads_back reader_read_name (resource_name_bytes n) n.
Proof.
  intros (Hl & Hc & He) r pre post (Hi & Hp & Hu). simpl in Hi, Hp. unfold resource_name_bytes in *.
  rewrite <- app_assoc in Hi, Hu. simpl in Hi, Hu.
  destruct (scan_full (rr_input r) (S (length (rr_input r))) (rn_labels n) [] pre post
    (rr_known_name_offsets r) [] (zlen pre) 0) as [known' Hloop]; try done.
  { by rewrite Hi. }
  { rewrite Hi, !length_app. pose proof (labels_le_bytes (rn_labels n)). simpl. lia. }
  unfold reader_read_name, name_scan_init. rewrite Hp.
  simpl expanded_length in Hloop. rewrite Hloop. eexists. split; [by destruct n|].
  unfold standing. simpl. rewrite <- !app_assoc. simpl. split_and!; [done| |done].
  lens. lia.
Qed.

(** *** Records and whole resources *)

Lemma reads_record record :
  resource_record_ok record ->
  exists kind payload, resource_record_bytes record = kind :: payload /\
    kind <= MAX_KNOWN_RESOURCE_KIND /\ reads_back (read_resource_record kind) payload record.
Proof.
  unfold MAX_KNOWN_RESOURCE_KIND.
  destruct record as [[tag alg dt digest]|name|name address|name address|address|address|strings];
    simpl; intros Hok; eexists _, _; (split; [reflexivity|]); (split; [lia|]); unfold read_resource_record.
  - destruct Hok as (? & ? & ? & _).
    eapply (reads_bind reader_read_u16_be _ (to_be 2 tag)); [by apply reads_u16|].
    apply (reads_bind reader_read_u8 _ [alg] (dt :: prefixed digest) alg); [apply reads_u8|].
    apply (reads_bind reader_read_u8 _ [dt] (prefixed digest) dt); [apply reads_u8|].
    apply (reads_last read_length_prefixed_bytes (fun digest => Ds {| ds_key_tag := tag;
      ds_algorithm := alg; ds_digest_type := dt; ds_digest := digest |})), reads_prefixed.
  - by apply (reads_last reader_read_name Ns), reads_name.
  - destruct Hok as [? ?]. eapply (reads_bind reader_read_name); [by apply reads_name|].
    by apply (reads_last (reader_read_array 4) (Glue4 name)), reads_array.
  - destruct Hok as [? ?]. eapply (reads_bind reader_read_name); [by apply reads_name|].
    by apply (reads_last (reader_read_array 16) (Glue6 name)), reads_array.
  - by apply (reads_last (reader_read_array 4) Synth4), reads_array.
  - by apply (reads_last (reader_read_array 16) Synth6), reads_array.
  - apply (reads_bind reader_read_u8 _ [zlen strings] (concat (map prefixed strings)) (zlen strings));
      [apply reads_u8|].
    unfold zlen at 1. rewrite Nat2Z.id. apply (reads_last (read_strings _) Txt), reads_strings.
Qed.

Lemma records_loop fuel records r pre acc :
  Forall resource_record_ok records ->
  standing r pre (concat (map resource_record_bytes records)) -> (length records < fuel)%nat ->
  loop fuel decode_records_step (r, acc) = Some (Ok (acc ++ records)).
Proof.
  revert records r pre acc. induction fuel as [|fuel IH]; intros records r pre acc Hok Hs Hf; [lia|].
  destruct records as [|record records]; simpl loop; unfold decode_records_step at 1, reader_is_finished.
  - destruct Hs as (Hi & Hp & _). simpl in Hi, Hp. rewrite Hi, Hp. simpl. by rewrite !app_nil_r, Z.eqb_refl.
  - apply Forall_cons in Hok as [Hr Hok].
    destruct (reads_record _ Hr) as (kind & payload & Hb & Hk & Hread).
    simpl in Hs. rewrite Hb in Hs.
    destruct (reads_u8 kind r pre (payload ++ concat (map resource_record_bytes records)) Hs)
      as (r1 & E1 & Hs1).
    destruct (Hread r1 _ _ Hs1) as (r2 & E2 & Hs2).
    destruct Hs as (Hi & Hp & _). simpl in Hi, Hp. rewrite Hi, Hp.
    replace (zlen pre =? _) with false.
    2: { symmetry. apply Z.eqb_neq. lens. simpl. lens. pose proof (zlen_nonneg payload).
         pose proof (zlen_nonneg (concat (map resource_record_bytes records))). lia. }
    rewrite E1. replace (MAX_KNOWN_RESOURCE_KIND <? kind) with false
      by (symmetry; apply Z.ltb_ge; lia).
    rewrite E2. erewrite IH; [by rewrite <- app_assoc|done|exact Hs2|simpl in Hf; lia].
Qed.

Lemma records_le_bytes records :
  Forall resource_record_ok records ->
  (length records <= length (concat (map resource_record_bytes records)))%nat.
Proof.
  induction 1 as [|record records Hr _ IH]; simpl; [lia|]. rewrite length_app.
  destruct (reads_record _ Hr) as (kind & payload & -> & _). simpl. lia.
Qed.

(** Decoding inverts the reference encoding: any list of well-formed records
    whose bytes fit the bounds is read back exactly, in order. *)
Theorem resource_roundtrip records :
  Forall resource_record_ok records ->
  zlen (resource_bytes records) <= MAX_RESOURCE_SIZE -> MAX_RESOURCE_SIZE <= u64_max ->
  covenant_resource_new (resource_bytes records) = Ok tt ->
  hns_resource_decode (resource_bytes records)
  = Ok {| res_raw := resource_bytes records; res_records := records |}.
Proof.
  intros Hok Hmax Hu Hcov. unfold hns_resource_decode. zdecide_with ltac:(lia).
  destruct (reads_u8 0 (reader_new (resource_bytes records)) []
    (concat (map resource_record_bytes records))) as (r & E & Hs).
  { split_and!; simpl; [done|done|]. unfold resource_bytes in *. lia. }
  rewrite E. cbn [Z.eqb negb].
  rewrite (records_loop _ records r ([] ++ [0])); [|done|done|].
  - simpl app. by rewrite Hcov.
  - unfold resource_bytes. simpl. pose proof (records_le_bytes _ Hok). lia.
Qed.

(** ** Name states and proofs *)

(** What an accepted name state commits to. *)
Lemma decode_name_state_inv raw name tip d :
  decode_name_state raw name tip = Ok d ->
  validate_name name = true /\ dn_height d <= tip /\ dn_renewal d <= tip /\
  exists len rlen r1 r2 r3, read_u8 raw = Ok (len, r1) /\ read_slice len r1 = Ok (name, r2) /\
    read_u16_le r2 = Ok (rlen, r3) /\ rlen <> 0 /\ rlen <= MAX_RESOURCE_SIZE /\
    exists rest, read_slice rlen r3 = Ok (dn_resource d, rest).
Proof.
  intros E. unfold decode_name_state in E.
  destruct (read_u8 raw) as [[len r1]|] eqn:E1; [|done]. cbn [lift] in E.
  destruct (read_slice len r1) as [[n r2]|] eqn:E2; [|done]. cbn [lift] in E.
  case_match eqn:En; [done|]. destruct (read_u16_le r2) as [[rlen r3]|] eqn:E3; [|done]. cbn [lift] in E.
  do 2 (case_match; [done|]). destruct (read_slice rlen r3) as [[res r4]|] eqn:E4; [|done]. cbn [lift] in E.
  destruct (read_u32_le r4) as [[h r5]|]; [|done]. cbn [lift] in E.
  destruct (read_u32_le r5) as [[rn r6]|]; [|done]. cbn [lift] in E.
  destruct (read_u16_le r6) as [[f r7]|]; [|done]. cbn [lift] in E.
  case_match; [done|]. case_match eqn:Eh; [done|].
  match type of E with (let? _ := ?m in _) = _ => destruct m as [i0|]; [|done] end.
  destruct (skip_compact (bit_set f 1) i0) as [i1|]; [|done].
  destruct (skip_compact (bit_set f 2) i1) as [i2|]; [|done].
  destruct (read_events f tip _ i2) as [i3|]; [|done].
  destruct (skip_compact_u32 (bit_set f 6) i3) as [i4|]; [|done].
  destruct (lift NameStateDecode (finish i4)); [|done]. injection E as <-. simpl.
  breflect. subst n. split_and!; try done; try lia. by exists len, rlen, r1, r2, r3; eauto 10.
Qed.

(** A verified resource is committed by the anchor's tree root: the proof
    shows that the name's hash maps to a name state of exactly this name, the
    resource is the one in that state, and neither of its heights is above the
    header that commits it. *)
Theorem verified_resource_committed anchor name proof_bytes v :
  verify_name_resource anchor name proof_bytes = Ok v ->
  vr_anchor v = anchor /\ vr_name v = name /\ validate_name name = true /\
  vr_state_height v <= anchor_height anchor /\ vr_renewal_height v <= anchor_height anchor /\
  hash_name name = Ok (vr_name_hash v) /\
  hns_resource_decode (res_raw (vr_resource v)) = Ok (vr_resource v) /\
  exists proof state len rlen r1 r2 r3 rest,
    urkel_decode_strict proof_bytes = Ok proof /\
    urkel_verify proof (anchor_tree_root anchor) (vr_name_hash v) = Ok (Some state) /\
    read_u8 state = Ok (len, r1) /\ read_slice len r1 = Ok (name, r2) /\
    read_u16_le r2 = Ok (rlen, r3) /\ rlen <> 0 /\
    read_slice rlen r3 = Ok (res_raw (vr_resource v), rest).
Proof.
  intros E. unfold verify_name_resource in E.
  destruct (hash_name name) as [h|] eqn:Eh; [|done]. cbn [lift] in E.
  destruct (urkel_decode_strict proof_bytes) as [p|] eqn:Ep; [|done]. cbn [lift] in E.
  destruct (urkel_verify p _ h) as [[state|]|] eqn:Ev; [|done..]. cbn [lift ok_or] in E.
  destruct (decode_name_state _ _ _) as [d|] eqn:Ed; [|done].
  destruct (hns_resource_decode _) as [res|] eqn:Er; [|done]. injection E as <-. simpl.
  destruct (decode_name_state_inv _ _ _ _ Ed)
    as (? & ? & ? & len & rlen & r1 & r2 & r3 & ? & ? & ? & ? & ? & rest & ?).
  assert (Hraw : res_raw res = dn_resource d).
  { revert Er. unfold hns_resource_decode. case_match; [done|].
    destruct (reader_read_u8 _) as [[? ?]|]; [|done]. case_match; [done|].
    destruct (loop _ _ _) as [[|]|]; [|done..]. destruct (lift _ _); [|done]. by intros [= <-]. }
  rewrite Hraw. split_and!; try done. by exists p, state, len, rlen, r1, r2, r3, rest.
Qed.
End resource_proofs.

(** ** Evaluation on concrete bytes *)

#[export] Instance toy_names : NameExternals := {|
  MAX_RESOURCE_SIZE := 512;
  hash_name := fun name => Ok (to_be 32 (from_be name));
  validate_name := fun name => 1 <=? zlen name;
  covenant_resource_new := fun _ => Ok tt;
  HsdUrkelProof := list Z;
  urkel_decode_strict := fun bytes => Ok bytes;
  urkel_verify := fun proof root hash =>
    if bool_decide (root = to_be 32 (from_be (hash ++ proof))) then Ok (Some proof) else Ok None;
  read_compact_size := toy_read 1 |}.

(** [ns.a], the same name behind a compression pointer, a DS record, TXT strings
    and an address. *)
Definition toy_name : ResourceName := {| rn_labels := [[110; 115]; [97]] |}.
Definition toy_records : list HnsResourceRecord :=
  [Ns toy_name; Glue4 toy_name [10; 0; 0; 1];
   Ds {| ds_key_tag := 513; ds_algorithm := 13; ds_digest_type := 2; ds_digest := [1; 2; 3] |};
   Txt [[104; 105]; []]].
Definition toy_compressed : list Z :=
  [0; 1; 2; 110; 115; 1; 97; 0; 2; 0xc0; 2; 10; 0; 0; 1;
   0; 2; 1; 13; 2; 3; 1; 2; 3; 6; 2; 2; 104; 105; 0].

Example pointer_is_followed :
  option_map res_records (ok_of (hns_resource_decode toy_compressed)) = Some toy_records.
Proof. vm_compute. reflexivity. Qed.

(** A name whose pointer leads back to its own first label. *)
Example pointer_loop_rejected :
  is_ok (hns_resource_decode [0; 1; 1; 97; 0xc0; 2]) = false.
Proof. vm_compute. reflexivity. Qed.

Lemma toy_records_ok : Forall resource_record_ok toy_records.
Proof.
  repeat (apply Forall_cons; split); try apply Forall_nil; simpl; unfold resource_name_ok;
    split_and?; try (vm_compute; done);
    repeat (apply Forall_cons; split); try apply Forall_nil; vm_compute; done.
Qed.

Lemma resource_decode_total_sound_witness :
  bytes_ok toy_compressed /\
  exists res, hns_resource_decode toy_compressed = Ok res /\ Forall resource_record_ok (res_records res).
Proof.
  assert (Hb : bytes_ok toy_compressed)
    by (repeat (apply Forall_cons; split); try apply Forall_nil; vm_compute; done).
  split; [exact Hb|].
  assert (Hok : is_ok (hns_resource_decode toy_compressed) = true) by (vm_compute; reflexivity).
  apply is_ok_true in Hok as [res E]. exists res. split; [exact E|].
  destruct (resource_decode_total_sound toy_compressed Hb) as (_ & _ & Hs).
  apply (Hs res E).
Defined.

Lemma resource_roundtrip_witness :
  hns_resource_decode (resource_bytes toy_records)
  = Ok {| res_raw := resource_bytes toy_records; res_records := toy_records |}.
Proof.
  apply (resource_roundtrip toy_records).
  - exact toy_records_ok.
  - vm_compute. discriminate.
  - vm_compute. discriminate.
  - reflexivity.
Defined.

(** The state of the name [a] with that resource, and a root committing to it. *)
Definition toy_state : list Z :=
  [1; 97] ++ put_u16_le (zlen toy_compressed) ++ toy_compressed
  ++ put_u32_le 1 ++ put_u32_le 2 ++ put_u16_le 0.
Definition toy_anchor : HnsAnchor :=
  {| anchor_network := Regtest; anchor_height := 3; anchor_block_hash := zero_hash;
     anchor_tree_root := to_be 32 (from_be (to_be 32 97 ++ toy_state)); anchor_chainwork := 4;
     anchor_validated_at := 5; anchor_valid_until := 9 |}.

Lemma verified_resource_committed_witness :
  exists v, verify_name_resource toy_anchor [97] toy_state = Ok v /\
    vr_name_hash v = to_be 32 97 /\ vr_state_height v <= 3.
Proof.
  assert (Hok : is_ok (verify_name_resource toy_anchor [97] toy_state) = true)
    by (vm_compute; reflexivity).
  apply is_ok_true in Hok as [v E]. exists v. split; [exact E|].
  destruct (verified_resource_committed toy_anchor [97] toy_state v E)
    as (_ & _ & _ & Hh & _ & Hn & _).
  split; [|exact Hh]. simpl in Hn. injection Hn as Hn. symmetry. exact Hn.
Defined.
