(* ===== verification/LightSync.v ===== *)
(** * Multi-peer header synchronisation

    Models [src/crates/hns-light-sync/src/lib.rs]: the bounded peer table, one
    agreement round at a time, candidate validation on clones of the chain and
    the installation of the greatest-work chain that enough peers agree on.
    Methods on [&mut self] return the state afterwards with their result; the
    order in which a hash map is walked is an argument. *)

From S2P Require Import Prelude LightChain LightSnapshot.

Definition DEFAULT_MAX_PEERS : Z := 8.
Definition DEFAULT_MINIMUM_PEER_AGREEMENT : Z := 2.
Definition DEFAULT_ROUND_TIMEOUT_SECONDS : Z := 20.
Definition DEFAULT_MAX_PEER_FAILURES : Z := 3.

(** [PeerId([u8; 32])]. *)
Abbreviation PeerId := (list Z).

Record SyncConfig := {
  max_peers : Z;
  minimum_peer_agreement : Z;
  round_timeout_seconds : Z;
  max_peer_failures : Z }.

Definition sync_config_default : SyncConfig :=
  {| max_peers := DEFAULT_MAX_PEERS; minimum_peer_agreement := DEFAULT_MINIMUM_PEER_AGREEMENT;
     round_timeout_seconds := DEFAULT_ROUND_TIMEOUT_SECONDS;
     max_peer_failures := DEFAULT_MAX_PEER_FAILURES |}.

Inductive SyncState := HeaderSyncing | HeaderCurrent | Degraded.

#[export] Instance SyncState_eq_dec : EqDecision SyncState.
Proof. solve_decision. Defined.

Record PeerRecord := {
  pr_advertised_height : Z; pr_failures : Z; pr_successes : Z; pr_banned : bool }.

Record PeerStatus := {
  ps_id : PeerId; ps_advertised_height : Z; ps_failures : Z; ps_successes : Z;
  ps_banned : bool }.

Record LocatorPacket := { lp_locator : list (list Z); lp_stop : list Z }.

Record HeaderRoundRequest := {
  rq_generation : Z;
  rq_packet : LocatorPacket;
  rq_base_height : Z;
  rq_base_hash : list Z;
  rq_deadline : Z }.

(** [hns_p2p_wire::MAX_HEADERS]. *)
Class SyncExternals := { MAX_HEADERS : Z }.

Section sync.
Context `{ChainExternals, SyncExternals}.

Inductive SyncError :=
| SyncChain (e : LightChainError)
| InvalidConfig | PeerLimit | DuplicatePeer | UnknownPeer | PeerBanned | InsufficientPeers
| RoundAlreadyActive | NoActiveRound | StaleRound | RoundExpired | PeerNotRequested
| DuplicateResponse | HeaderResponseLimit | RoundIncomplete | InsufficientResponses
| NoValidCandidate | AmbiguousBestChain | InsufficientAgreement | NotCurrent
| GenerationExhausted | SyncTimeOverflow.

Definition chain_err {A} (r : result LightChainError A) : result SyncError A :=
  match r with Ok a => Ok a | Err e => Err (SyncChain e) end.

(** [SyncConfig::validate]. *)
Definition sync_config_validate (config : SyncConfig) : result SyncError SyncConfig :=
  if (max_peers config =? 0) || (64 <? max_peers config)
     || (minimum_peer_agreement config =? 0)
     || (max_peers config <? minimum_peer_agreement config)
     || (round_timeout_seconds config =? 0) || (300 <? round_timeout_seconds config)
     || (max_peer_failures config =? 0)
  then Err InvalidConfig else Ok config.

Record SyncRound := {
  ro_request : HeaderRoundRequest;
  ro_requested : gset PeerId;
  ro_responses : gmap PeerId (list Header) }.

Record SyncStatus := {
  ss_state : SyncState; ss_generation : Z; ss_tip : HeaderEntry; ss_peers : Z;
  ss_active_peers : Z; ss_round_active : bool }.

Record HeaderRoundOutcome := { oc_status : SyncStatus; oc_accepted_headers : list Header }.

Record HeaderSync := {
  sy_config : SyncConfig;
  sy_chain : LightChain;
  sy_state : SyncState;
  sy_generation : Z;
  sy_peers : gmap PeerId PeerRecord;
  sy_round : option SyncRound }.

Definition with_state (s : HeaderSync) (state : SyncState) : HeaderSync :=
  {| sy_config := sy_config s; sy_chain := sy_chain s; sy_state := state;
     sy_generation := sy_generation s; sy_peers := sy_peers s; sy_round := sy_round s |}.
Definition with_round (s : HeaderSync) (round : option SyncRound) : HeaderSync :=
  {| sy_config := sy_config s; sy_chain := sy_chain s; sy_state := sy_state s;
     sy_generation := sy_generation s; sy_peers := sy_peers s; sy_round := round |}.
Definition with_peers (s : HeaderSync) (peers : gmap PeerId PeerRecord) : HeaderSync :=
  {| sy_config := sy_config s; sy_chain := sy_chain s; sy_state := sy_state s;
     sy_generation := sy_generation s; sy_peers := peers; sy_round := sy_round s |}.
Definition with_chain (s : HeaderSync) (chain : LightChain) : HeaderSync :=
  {| sy_config := sy_config s; sy_chain := chain; sy_state := sy_state s;
     sy_generation := sy_generation s; sy_peers := sy_peers s; sy_round := sy_round s |}.

(** [HeaderSync::from_chain]. *)
Definition from_chain (chain : LightChain) (config : SyncConfig) : result SyncError HeaderSync :=
  let? config := sync_config_validate config in
  Ok {| sy_config := config; sy_chain := chain; sy_state := HeaderSyncing; sy_generation := 1;
        sy_peers := ∅; sy_round := None |}.

(** [HeaderSync::from_genesis]. *)
Definition sync_from_genesis (network : Network) (now max_headers_per_batch : Z)
    (config : SyncConfig) : result SyncError HeaderSync :=
  let? config := sync_config_validate config in
  let? chain := chain_err (from_genesis network now max_headers_per_batch) in
  Ok {| sy_config := config; sy_chain := chain; sy_state := HeaderSyncing; sy_generation := 1;
        sy_peers := ∅; sy_round := None |}.

(** [self.peers.values()]. *)
Definition peer_values (peers : gmap PeerId PeerRecord) : list PeerRecord :=
  map snd (map_to_list peers).

(** [HeaderSync::status]. *)
Definition status (s : HeaderSync) : SyncStatus :=
  {| ss_state := sy_state s; ss_generation := sy_generation s; ss_tip := lc_tip (sy_chain s);
     ss_peers := Z.of_nat (size (sy_peers s));
     ss_active_peers := zlen (filter (fun record => pr_banned record = false)
                                     (peer_values (sy_peers s)));
     ss_round_active := bool_decide (sy_round s <> None) |}.

(** ** Peers *)

(** [HeaderSync::add_peer]. *)
Definition add_peer (s : HeaderSync) (id : PeerId) (advertised_height : Z)
    : HeaderSync * result SyncError unit :=
  if bool_decide (is_Some (sy_peers s !! id)) then (s, Err DuplicatePeer) else
  if max_peers (sy_config s) <=? Z.of_nat (size (sy_peers s)) then (s, Err PeerLimit) else
  (with_peers s (<[id := {| pr_advertised_height := advertised_height; pr_failures := 0;
                            pr_successes := 0; pr_banned := false |}]> (sy_peers s)), Ok tt).

(** [HeaderSync::remove_peer]. *)
Definition remove_peer (s : HeaderSync) (id : PeerId) : HeaderSync * bool :=
  let round := option_map (fun round =>
    {| ro_request := ro_request round; ro_requested := ro_requested round ∖ {[id]};
       ro_responses := delete id (ro_responses round) |}) (sy_round s) in
  (with_peers (with_round s round) (delete id (sy_peers s)),
   bool_decide (is_Some (sy_peers s !! id))).

(** [HeaderSync::update_peer_height]. *)
Definition update_peer_height (s : HeaderSync) (id : PeerId) (advertised_height : Z)
    : HeaderSync * result SyncError unit :=
  match sy_peers s !! id with
  | None => (s, Err UnknownPeer)
  | Some peer =>
      let s := with_peers s (<[id := {| pr_advertised_height := advertised_height;
        pr_failures := pr_failures peer; pr_successes := pr_successes peer;
        pr_banned := pr_banned peer |}]> (sy_peers s)) in
      (if e_height (lc_tip (sy_chain s)) <? advertised_height
       then with_state s HeaderSyncing else s, Ok tt)
  end.

(** [HeaderSync::record_failure] on the peer table. *)
Definition record_failure (config : SyncConfig) (peers : gmap PeerId PeerRecord) (peer : PeerId)
    : gmap PeerId PeerRecord :=
  match peers !! peer with
  | None => peers
  | Some record =>
      let failures := Z.min (pr_failures record + 1) u32_max in
      <[peer := {| pr_advertised_height := pr_advertised_height record; pr_failures := failures;
                   pr_successes := pr_successes record;
                   pr_banned := (max_peer_failures config <=? failures) || pr_banned record |}]>
        peers
  end.

(** [HeaderSync::record_success] on the peer table. *)
Definition record_success (peers : gmap PeerId PeerRecord) (peer : PeerId)
    : gmap PeerId PeerRecord :=
  match peers !! peer with
  | None => peers
  | Some record =>
      <[peer := {| pr_advertised_height := pr_advertised_height record;
                   pr_failures := saturating_sub (pr_failures record) 1;
                   pr_successes := saturating_add (pr_successes record) 1;
                   pr_banned := pr_banned record |}]> peers
  end.

(** [HeaderSync::peer_statuses]. *)
Definition peer_statuses (s : HeaderSync) : list PeerStatus :=
  map (fun entry : PeerId * PeerRecord => {| ps_id := entry.1;
    ps_advertised_height := pr_advertised_height entry.2; ps_failures := pr_failures entry.2;
    ps_successes := pr_successes entry.2; ps_banned := pr_banned entry.2 |})
    (map_to_list (sy_peers s)).

(** ** Rounds *)

(** [for id in &requested]: every peer must be known and not banned. *)
Fixpoint check_requested (peers : gmap PeerId PeerRecord) (ids : list PeerId)
    : result SyncError unit :=
  match ids with
  | [] => Ok tt
  | id :: ids =>
      let? peer := ok_or (peers !! id) UnknownPeer in
      if pr_banned peer then Err PeerBanned else check_requested peers ids
  end.

(** [HeaderSync::begin_round]. *)
Definition begin_round (s : HeaderSync) (selected_peers : list PeerId) (now : Z)
    : HeaderSync * result SyncError HeaderRoundRequest :=
  if bool_decide (sy_round s <> None) then (s, Err RoundAlreadyActive) else
  let requested : gset PeerId := list_to_set selected_peers in
  if negb (Z.of_nat (size requested) =? zlen selected_peers)
     || (Z.of_nat (size requested) <? minimum_peer_agreement (sy_config s))
  then (s, Err InsufficientPeers) else
  match check_requested (sy_peers s) (elements requested) with
  | Err e => (s, Err e)
  | Ok _ =>
  match checked_add (sy_generation s) 1 with
  | None => (s, Err GenerationExhausted)
  | Some generation =>
  match checked_add now (round_timeout_seconds (sy_config s)) with
  | None => (s, Err SyncTimeOverflow)
  | Some deadline =>
      let tip := lc_tip (sy_chain s) in
      let request := {| rq_generation := generation;
        rq_packet := {| lp_locator := locator (sy_chain s); lp_stop := zero_hash |};
        rq_base_height := e_height tip; rq_base_hash := e_hash tip; rq_deadline := deadline |} in
      ({| sy_config := sy_config s; sy_chain := sy_chain s; sy_state := sy_state s;
          sy_generation := generation; sy_peers := sy_peers s;
          sy_round := Some {| ro_request := request; ro_requested := requested;
                              ro_responses := ∅ |} |}, Ok request)
  end end end.

(** [HeaderSync::abandon_uncommitted_round]. *)
Definition abandon_uncommitted_round (s : HeaderSync) : HeaderSync * bool :=
  (with_round s None, bool_decide (sy_round s <> None)).

(** [HeaderSync::submit_headers]. *)
Definition submit_headers (s : HeaderSync) (generation : Z) (peer : PeerId)
    (headers : list Header) (now : Z) : HeaderSync * result SyncError unit :=
  match sy_round s with
  | None => (s, Err NoActiveRound)
  | Some round =>
      if negb (generation =? rq_generation (ro_request round)) then (s, Err StaleRound) else
      if rq_deadline (ro_request round) <? now then (s, Err RoundExpired) else
      if negb (bool_decide (peer ∈ ro_requested round)) then (s, Err PeerNotRequested) else
      if MAX_HEADERS <? zlen headers then (s, Err HeaderResponseLimit) else
      if bool_decide (is_Some (ro_responses round !! peer)) then (s, Err DuplicateResponse) else
      (with_round s (Some {| ro_request := ro_request round; ro_requested := ro_requested round;
                             ro_responses := <[peer := headers]> (ro_responses round) |}), Ok tt)
  end.

(** ** Finishing a round *)

(** A response that passed validation on its own clone of the chain. *)
Record candidate := { ca_peer : PeerId; ca_headers : list Header; ca_chain : LightChain }.

(** The clone of the chain after one response, if it is valid. *)
Definition validate_candidate (chain : LightChain) (headers : list Header) (now : Z)
    : option LightChain :=
  match headers with
  | [] => Some chain
  | _ =>
      match append_batch chain headers now with
      | (candidate, Ok _) => Some candidate
      | (_, Err _) => None
      end
  end.

(** [for (peer, headers) in round.responses]. *)
Fixpoint collect_candidates (config : SyncConfig) (chain : LightChain) (now : Z)
    (responses : list (PeerId * list Header)) (peers : gmap PeerId PeerRecord)
    : gmap PeerId PeerRecord * list candidate :=
  match responses with
  | [] => (peers, [])
  | (peer, headers) :: responses =>
      match validate_candidate chain headers now with
      | Some c =>
          let '(peers, candidates) := collect_candidates config chain now responses peers in
          (peers, {| ca_peer := peer; ca_headers := headers; ca_chain := c |} :: candidates)
      | None => collect_candidates config chain now responses (record_failure config peers peer)
      end
  end.

Definition ca_tip (c : candidate) : HeaderEntry := lc_tip (ca_chain c).
Definition has_tip (hash : list Z) (c : candidate) : bool := bool_decide (e_hash (ca_tip c) = hash).

(** [iter().map(chainwork).max()]. *)
Definition maximum_work (candidates : list candidate) : option Z :=
  match candidates with
  | [] => None
  | c :: rest => Some (fold_left (fun w c => Z.max w (e_chainwork (ca_tip c))) rest
                                 (e_chainwork (ca_tip c)))
  end.

(** The new synchronisation state once [chain] is installed with [peers]. *)
Definition state_after (unchanged all_requested_responded : bool) (chain : LightChain)
    (peers : gmap PeerId PeerRecord) (supporting : list candidate) : SyncState :=
  let tip_height := e_height (lc_tip chain) in
  let no_active_peer_advertises_an_extension := forallb (fun record =>
    pr_banned record || (pr_advertised_height record <=? tip_height)) (peer_values peers) in
  if unchanged && all_requested_responded && no_active_peer_advertises_an_extension
     && forallb (fun c => bool_decide (ca_headers c = [])
          && match peers !! ca_peer c with
             | Some record => pr_advertised_height record <=? tip_height
             | None => false
             end) supporting
  then HeaderCurrent else HeaderSyncing.

(** The choice among the valid candidates and the installation of the winner. *)
Definition settle_round (s : HeaderSync) (all_requested_responded : bool)
    (candidates : list candidate) : HeaderSync * result SyncError HeaderRoundOutcome :=
  match maximum_work candidates with
  | None => (with_state s Degraded, Err NoValidCandidate)
  | Some work =>
  let best := filter (fun c => e_chainwork (ca_tip c) = work) candidates in
  let best_hashes : gset (list Z) := list_to_set (map (fun c => e_hash (ca_tip c)) best) in
  match elements best_hashes with
  | [best_hash] =>
      let supporting := filter (fun c => has_tip best_hash c = true) candidates in
      if zlen supporting <? minimum_peer_agreement (sy_config s)
      then (with_state s Degraded, Err InsufficientAgreement) else
      match find (has_tip best_hash) candidates with
      | None => (s, Err NoValidCandidate)
      | Some winner =>
          let unchanged := bool_decide (e_hash (ca_tip winner) = e_hash (lc_tip (sy_chain s))) in
          let peers := fold_left (fun peers c =>
            if has_tip best_hash c then record_success peers (ca_peer c) else peers)
            candidates (sy_peers s) in
          let chain := ca_chain winner in
          let s := with_state (with_chain (with_peers s peers) chain)
            (state_after unchanged all_requested_responded chain peers supporting) in
          (s, Ok {| oc_status := status s; oc_accepted_headers := ca_headers winner |})
      end
  | _ => (with_state s Degraded, Err AmbiguousBestChain)
  end
  end.

(** [HeaderSync::finish_round_with_headers]; [walk] lists the responses in the
    order the hash map gives them out. *)
Definition finish_round_with_headers
    (walk : gmap PeerId (list Header) -> list (PeerId * list Header)) (s : HeaderSync) (now : Z)
    : HeaderSync * result SyncError HeaderRoundOutcome :=
  match sy_round s with
  | None => (s, Err NoActiveRound)
  | Some round =>
  let s := with_round s None in
  let responses := ro_responses round in
  if Z.of_nat (size responses) <? minimum_peer_agreement (sy_config s) then
    if now <=? rq_deadline (ro_request round)
    then (with_round s (Some round), Err RoundIncomplete)
    else (with_state s Degraded, Err InsufficientResponses)
  else
  let base := lc_tip (sy_chain s) in
  if negb (bool_decide (e_hash base = rq_base_hash (ro_request round)))
     || negb (e_height base =? rq_base_height (ro_request round))
  then (s, Err StaleRound) else
  let all_requested_responded :=
    bool_decide (size responses = size (ro_requested round)) in
  let '(peers, candidates) :=
    collect_candidates (sy_config s) (sy_chain s) now (walk responses) (sy_peers s) in
  settle_round (with_peers s peers) all_requested_responded candidates
  end.

(** [HeaderSync::finish_round]. *)
Definition finish_round
    (walk : gmap PeerId (list Header) -> list (PeerId * list Header)) (s : HeaderSync) (now : Z)
    : HeaderSync * result SyncError SyncStatus :=
  let '(s, r) := finish_round_with_headers walk s now in (s, result_map oc_status r).

(** [HeaderSync::require_current]. *)
Definition sync_require_current (s : HeaderSync) (policy : CurrencyPolicy)
    : result SyncError HnsAnchor :=
  if negb (bool_decide (sy_state s = HeaderCurrent)) then Err NotCurrent
  else chain_err (require_current (sy_chain s) policy).
End sync.
