(* ===== verification/LightSyncInv.v ===== *)
(** * Header synchronisation: agreement and invariants

    Theorems about [LightSync]: the result of a round does not depend on the
    order in which the hash map of responses is walked, the installed chain is
    the greatest-work one that enough distinct peers agree on, and no operation
    loses validated work. *)

From S2P Require Import Prelude LightChain LightSnapshot LightSync.

Section sync_proofs.
Context `{ChainExternals, SyncExternals}.

(** ** Folding over the responses *)

(** The candidate of one response, if it is valid. *)
Definition candidate_of (chain : LightChain) (now : Z) (r : PeerId * list Header)
    : option candidate :=
  match validate_candidate chain r.2 now with
  | Some c => Some {| ca_peer := r.1; ca_headers := r.2; ca_chain := c |}
  | None => None
  end.

Definition fail_step (config : SyncConfig) (chain : LightChain) (now : Z)
    (peers : gmap PeerId PeerRecord) (r : PeerId * list Header) : gmap PeerId PeerRecord :=
  match validate_candidate chain r.2 now with
  | Some _ => peers
  | None => record_failure config peers r.1
  end.

Lemma collect_split config chain now responses peers :
  collect_candidates config chain now responses peers
  = (fold_left (fail_step config chain now) responses peers,
     omap (candidate_of chain now) responses).
Proof.
  revert peers. induction responses as [|[p hs] responses IH]; intros peers; [done|]. simpl.
  unfold candidate_of, fail_step at 2. simpl.
  destruct (validate_candidate chain hs now); by rewrite IH.
Qed.

Lemma record_failure_alter config peers p :
  record_failure config peers p = alter (fun r =>
    {| pr_advertised_height := pr_advertised_height r;
       pr_failures := Z.min (pr_failures r + 1) u32_max; pr_successes := pr_successes r;
       pr_banned := (max_peer_failures config <=? Z.min (pr_failures r + 1) u32_max)
                    || pr_banned r |}) p peers.
Proof.
  unfold record_failure. destruct (peers !! p) as [r|] eqn:E.
  - apply map_eq. intros q. destruct (decide (p = q)) as [<-|].
    + by rewrite lookup_insert_eq, lookup_alter_eq, E.
    + by rewrite lookup_insert_ne, lookup_alter_ne.
  - apply map_eq. intros q. destruct (decide (p = q)) as [<-|].
    + by rewrite lookup_alter_eq, E.
    + by rewrite lookup_alter_ne.
Qed.

Lemma record_success_alter peers p :
  record_success peers p = alter (fun r =>
    {| pr_advertised_height := pr_advertised_height r;
       pr_failures := saturating_sub (pr_failures r) 1;
       pr_successes := saturating_add (pr_successes r) 1; pr_banned := pr_banned r |}) p peers.
Proof.
  unfold record_success. apply map_eq. intros q.
  destruct (peers !! p) as [r|] eqn:E; (destruct (decide (p = q)) as [<-|];
    [by rewrite ?lookup_insert_eq, lookup_alter_eq, E|by rewrite ?lookup_insert_ne, lookup_alter_ne]).
Qed.

Lemma alter_comm (f : PeerRecord -> PeerRecord) (p q : PeerId) (m : gmap PeerId PeerRecord) :
  alter f p (alter f q m) = alter f q (alter f p m).
Proof.
  apply map_eq. intros r. destruct (decide (p = q)) as [->|]; [done|].
  rewrite !lookup_alter. by repeat case_decide; subst.
Qed.

Lemma fail_step_comm config chain now peers x y :
  fail_step config chain now (fail_step config chain now peers x) y
  = fail_step config chain now (fail_step config chain now peers y) x.
Proof.
  unfold fail_step. destruct (validate_candidate chain x.2 now), (validate_candidate chain y.2 now);
    try done. rewrite !record_failure_alter. apply alter_comm.
Qed.

Lemma success_step_comm hash peers x y :
  let step peers c := if has_tip hash c then record_success peers (ca_peer c) else peers in
  step (step peers x) y = step (step peers y) x.
Proof.
  cbv beta zeta. destruct (has_tip hash x), (has_tip hash y); try reflexivity. rewrite !record_success_alter.
  apply alter_comm.
Qed.

(** ** Greatest work *)

Lemma fold_max_spec (l : list candidate) w :
  let m := fold_left (fun w c => Z.max w (e_chainwork (ca_tip c))) l w in
  w <= m /\ (forall c, c ∈ l -> e_chainwork (ca_tip c) <= m) /\
  (m = w \/ exists c, c ∈ l /\ e_chainwork (ca_tip c) = m).
Proof.
  cbn zeta. revert w. induction l as [|x l IH]; intros w; simpl.
  { split_and!; [lia|by intros c ?%elem_of_nil|by left]. }
  destruct (IH (Z.max w (e_chainwork (ca_tip x)))) as (H1 & H2 & H3). split_and!; [lia| |].
  - intros c [->|Hc]%elem_of_cons; [lia|by apply H2].
  - destruct H3 as [H3|(c & Hc & H3)].
    + destruct (Z.max_spec w (e_chainwork (ca_tip x))) as [[_ Hm]|[_ Hm]]; rewrite Hm in *.
      * right. exists x. split; [left|done].
      * by left.
    + right. exists c. split; [by right|done].
Qed.

Lemma maximum_work_spec l w :
  maximum_work l = Some w <->
  (forall c, c ∈ l -> e_chainwork (ca_tip c) <= w) /\
  exists c, c ∈ l /\ e_chainwork (ca_tip c) = w.
Proof.
  destruct l as [|x l]; simpl.
  { split; [done|]. by intros (_ & c & ?%elem_of_nil & _). }
  destruct (fold_max_spec l (e_chainwork (ca_tip x))) as (H1 & H2 & H3). split.
  - intros [= <-]. split.
    + intros c [->|Hc]%elem_of_cons; [done|by apply H2].
    + destruct H3 as [H3|(c & Hc & H3)]; [exists x|exists c]; split; try done; by constructor.
  - intros (Ha & c & Hc & <-). f_equal. apply Z.le_antisymm.
    + destruct H3 as [->|(c' & Hc' & <-)]; apply Ha; by constructor.
    + apply elem_of_cons in Hc as [->|Hc]; [done|by apply H2].
Qed.

Lemma maximum_work_perm l1 l2 : l1 ≡ₚ l2 -> maximum_work l1 = maximum_work l2.
Proof.
  intros Hp. destruct (maximum_work l1) as [w|] eqn:E.
  - symmetry. apply maximum_work_spec in E as (Ha & c & Hc & Hw). apply maximum_work_spec. split.
    + intros c'. rewrite <- Hp. apply Ha.
    + exists c. by rewrite <- Hp.
  - destruct l1; [|done]. apply Permutation_nil in Hp. by subst l2.
Qed.

(** ** Order independence *)

(** Valid candidates with the same tip hash are the same chain: the block hash
    has no collision among them. *)
Definition collision_free (candidates : list candidate) : Prop :=
  forall c1 c2, c1 ∈ candidates -> c2 ∈ candidates -> e_hash (ca_tip c1) = e_hash (ca_tip c2) ->
  ca_headers c1 = ca_headers c2 /\ ca_chain c1 = ca_chain c2.

Lemma find_elem hash (l : list candidate) c :
  find (has_tip hash) l = Some c -> c ∈ l /\ e_hash (ca_tip c) = hash.
Proof.
  intros E. apply find_some in E as [Hin Hb]. apply bool_decide_eq_true in Hb.
  by rewrite list_elem_of_In.
Qed.

Lemma find_perm hash l1 l2 :
  l1 ≡ₚ l2 -> collision_free l1 ->
  match find (has_tip hash) l1, find (has_tip hash) l2 with
  | Some c1, Some c2 => ca_headers c1 = ca_headers c2 /\ ca_chain c1 = ca_chain c2
  | None, None => True
  | _, _ => False
  end.
Proof.
  intros Hp Hc.
  destruct (find (has_tip hash) l1) as [c1|] eqn:E1, (find (has_tip hash) l2) as [c2|] eqn:E2.
  - apply find_elem in E1 as [? ?], E2 as [Hin ?]. rewrite <- Hp in Hin. apply Hc; congruence.
  - apply find_some in E1 as [Hin Hb]. rewrite <- list_elem_of_In, Hp, list_elem_of_In in Hin.
    by rewrite (find_none _ _ E2 _ Hin) in Hb.
  - apply find_some in E2 as [Hin Hb]. rewrite <- list_elem_of_In, <- Hp, list_elem_of_In in Hin.
    by rewrite (find_none _ _ E1 _ Hin) in Hb.
  - done.
Qed.

Lemma settle_perm s all l1 l2 :
  l1 ≡ₚ l2 -> collision_free l1 -> settle_round s all l1 = settle_round s all l2.
Proof.
  intros Hp Hc. unfold settle_round. rewrite <- (maximum_work_perm l1 l2 Hp).
  destruct (maximum_work l1) as [w|]; [|done]. cbv zeta.
  set (b1 := filter _ l1). set (b2 := filter _ l2).
  assert (Hb : (list_to_set (map (fun c => e_hash (ca_tip c)) b1) : gset (list Z))
               = list_to_set (map (fun c => e_hash (ca_tip c)) b2)).
  { apply list_to_set_perm_L, Permutation_map. subst b1 b2. by rewrite Hp. }
  rewrite Hb. destruct (elements _) as [|hash [|]]; try done.
  assert (Hsup : filter (fun c => has_tip hash c = true) l1
                 ≡ₚ filter (fun c => has_tip hash c = true) l2) by by rewrite Hp.
  assert (Hlen : zlen (filter (fun c => has_tip hash c = true) l1)
                 = zlen (filter (fun c => has_tip hash c = true) l2))
    by (unfold zlen; by rewrite Hsup).
  rewrite Hlen. destruct (_ <? _); [done|]. pose proof (find_perm hash l1 l2 Hp Hc) as Hf.
  destruct (find _ l1) as [c1|], (find _ l2) as [c2|]; try done. destruct Hf as [Hh Hch].
  unfold ca_tip. rewrite Hh, Hch.
  rewrite (fold_left_perm _ l1 l2 _ (success_step_comm hash) Hp).
  unfold state_after. by rewrite (forallb_perm _ _ _ Hsup).
Qed.

(** Every walk of the responses gives each of them once. *)
Definition walks (walk : gmap PeerId (list Header) -> list (PeerId * list Header)) : Prop :=
  forall m, walk m ≡ₚ map_to_list m.

(** The candidates of the active round. *)
Definition round_candidates (s : HeaderSync) (round : SyncRound) (now : Z) : list candidate :=
  omap (candidate_of (sy_chain s) now) (map_to_list (ro_responses round)).

(** The order in which the hash map of responses is walked does not matter:
    unless two valid responses collide in the block hash of their tip, the state
    after the round, the outcome, the accepted headers and every peer's record
    are the same. *)
Theorem round_order_independent walk1 walk2 s now :
  walks walk1 -> walks walk2 ->
  (forall round, sy_round s = Some round -> collision_free (round_candidates s round now)) ->
  finish_round_with_headers walk1 s now = finish_round_with_headers walk2 s now.
Proof.
  intros H1 H2 Hc. unfold finish_round_with_headers.
  destruct (sy_round s) as [round|] eqn:Er; [|done]. specialize (Hc round eq_refl).
  repeat (case_match; [done|]). rewrite !collect_split.
  assert (Hp : walk1 (ro_responses round) ≡ₚ walk2 (ro_responses round)) by (by rewrite (H1 (ro_responses round)), (H2 (ro_responses round))).
  rewrite (fold_left_perm _ _ _ _ (fail_step_comm _ _ _) Hp).
  apply settle_perm; [by apply omap_Permutation|].
  assert (Hq : omap (candidate_of (sy_chain s) now) (walk1 (ro_responses round))
               ≡ₚ round_candidates s round now) by (apply omap_Permutation, H1).
  intros c1 c2. rewrite !Hq. apply Hc.
Qed.

(** ** What a successful round installs *)

Record settled (s : HeaderSync) (all : bool) (candidates : list candidate) (s' : HeaderSync)
    (o : HeaderRoundOutcome) (hash : list Z) (winner : candidate) : Prop := {
  se_winner : winner ∈ candidates /\ e_hash (ca_tip winner) = hash;
  se_chain : sy_chain s' = ca_chain winner;
  se_headers : oc_accepted_headers o = ca_headers winner;
  se_same : sy_round s' = sy_round s /\ sy_config s' = sy_config s /\
            sy_generation s' = sy_generation s;
  se_peers : sy_peers s' = fold_left (fun peers c =>
    if has_tip hash c then record_success peers (ca_peer c) else peers) candidates (sy_peers s);
  se_state : sy_state s' = state_after (bool_decide (hash = e_hash (lc_tip (sy_chain s)))) all
    (ca_chain winner) (sy_peers s') (filter (fun c => has_tip hash c = true) candidates);
  se_agreed : minimum_peer_agreement (sy_config s)
              <= zlen (filter (fun c => has_tip hash c = true) candidates);
  se_best : exists c, c ∈ candidates /\ e_hash (ca_tip c) = hash /\
    forall c', c' ∈ candidates -> e_chainwork (ca_tip c') <= e_chainwork (ca_tip c) /\
      (e_chainwork (ca_tip c') = e_chainwork (ca_tip c) -> e_hash (ca_tip c') = hash) }.

(** Every result of [settle_round]; on an error only the state is touched. *)
Lemma settle_spec s all candidates s' r :
  settle_round s all candidates = (s', r) ->
  match r with
  | Err e => s' = with_state s Degraded /\
             e ∈ [NoValidCandidate; AmbiguousBestChain; InsufficientAgreement]
  | Ok o => exists hash winner, settled s all candidates s' o hash winner
  end.
Proof.
  intros E. unfold settle_round in E.
  destruct (maximum_work candidates) as [w|] eqn:Ew; [|simplify_eq; split; [done|set_solver]].
  apply maximum_work_spec in Ew as (Hmax & c & Hc & Hw). cbv zeta in E.
  set (best := filter (fun c => e_chainwork (ca_tip c) = w) candidates) in E.
  assert (Hbest : forall c', c' ∈ best <-> e_chainwork (ca_tip c') = w /\ c' ∈ candidates)
    by (intros; subst best; by rewrite list_elem_of_filter).
  set (hashes := list_to_set (map (fun c => e_hash (ca_tip c)) best) : gset (list Z)) in E.
  assert (Hin : forall c', c' ∈ best -> e_hash (ca_tip c') ∈ elements hashes).
  { intros c' Hc'. apply elem_of_elements. subst hashes. rewrite elem_of_list_to_set.
    by apply (list_elem_of_fmap_2 (fun c => e_hash (ca_tip c))). }
  destruct (elements hashes) as [|hash [|]] eqn:Eh; try (simplify_eq; split; [done|set_solver]).
  assert (Hcb : e_hash (ca_tip c) = hash).
  { apply list_elem_of_singleton, Hin, Hbest. done. }
  case_match eqn:Ha; [simplify_eq; split; [done|set_solver]|]. breflect.
  destruct (find _ candidates) as [winner|] eqn:Ef.
  2: { pose proof (find_none _ _ Ef c) as Hn. rewrite <- list_elem_of_In in Hn.
       specialize (Hn Hc). apply bool_decide_eq_false in Hn. done. }
  pose proof (find_elem _ _ _ Ef) as [Hwin Hwh]. simplify_eq. exists (e_hash (ca_tip c)), winner.
  constructor; simpl; try done; [by rewrite Hwh|].
  exists c. split_and!; [done|done|]. intros c' Hc'. split; [by apply Hmax|].
  intros Heq. apply list_elem_of_singleton, Hin, Hbest. done.
Qed.

(** How a round ends: early errors, or [settle_round] over its candidates. *)
Lemma finish_spec walk s now s' r :
  walks walk -> finish_round_with_headers walk s now = (s', r) ->
  (exists e, r = Err e /\ sy_chain s' = sy_chain s /\
     (e = RoundIncomplete -> s' = s) /\ sy_peers s' = sy_peers s /\ sy_state s' ∈ [sy_state s; Degraded] /\
     (e = StaleRound -> exists round, sy_round s = Some round /\
        ~ (e_hash (lc_tip (sy_chain s)) = rq_base_hash (ro_request round) /\
           e_height (lc_tip (sy_chain s)) = rq_base_height (ro_request round))) /\
     sy_round s' ∈ [sy_round s; None] /\ sy_config s' = sy_config s /\
     sy_generation s' = sy_generation s) \/
  exists round peers candidates,
    sy_round s = Some round /\ candidates ≡ₚ round_candidates s round now /\
    minimum_peer_agreement (sy_config s) <= Z.of_nat (size (ro_responses round)) /\
    peers = fold_left (fail_step (sy_config s) (sy_chain s) now) (walk (ro_responses round)) (sy_peers s) /\
    settle_round (with_peers (with_round s None) peers)
      (bool_decide (size (ro_responses round) = size (ro_requested round))) candidates = (s', r).
Proof.
  intros Hw E. unfold finish_round_with_headers in E. destruct (sy_round s) as [round|] eqn:Er.
  2: { simplify_eq. left. exists NoActiveRound. rewrite Er. split_and!; try done; set_solver. }
  destruct (_ <? minimum_peer_agreement _) eqn:Hmin.
  { left. destruct (now <=? _); simplify_eq; eexists; (split; [reflexivity|]);
      (split; [done|]); (split; [intros; try done; destruct s; simpl in *; by subst|]);
      simpl; split_and!; try done; set_solver. }
  destruct (_ || _) eqn:Hbase.
  { simplify_eq. left. exists StaleRound. simpl. split_and!; try done; try set_solver.
    intros _. exists round. split; [done|]. intros [H1 H2]. breflect.
    destruct Hbase as [Hb|Hb]; breflect; simpl in Hb; congruence. }
  right. rewrite collect_split in E. exists round. eexists _, _. split_and!; [done| |breflect; simpl in *; lia|done|exact E].
  apply omap_Permutation, Hw.
Qed.

Lemma candidate_inv s round now c :
  c ∈ round_candidates s round now ->
  ro_responses round !! ca_peer c = Some (ca_headers c) /\
  validate_candidate (sy_chain s) (ca_headers c) now = Some (ca_chain c).
Proof.
  intros Hc. apply list_elem_of_omap in Hc as ([p hs] & Hin & Ec).
  apply elem_of_map_to_list in Hin. unfold candidate_of in Ec. simpl in Ec.
  destruct (validate_candidate _ hs now) eqn:Ev; [|done]. by injection Ec as <-.
Qed.

Lemma candidate_complete s round now p hs c :
  ro_responses round !! p = Some hs -> validate_candidate (sy_chain s) hs now = Some c ->
  {| ca_peer := p; ca_headers := hs; ca_chain := c |} ∈ round_candidates s round now.
Proof.
  intros Hp Hv. apply list_elem_of_omap. exists (p, hs). split; [by apply elem_of_map_to_list|].
  unfold candidate_of. simpl. by rewrite Hv.
Qed.

Lemma candidate_peers_nodup chain now (l : list (PeerId * list Header)) :
  NoDup (map fst l) -> NoDup (map ca_peer (omap (candidate_of chain now) l)).
Proof.
  assert (Hsub : forall l p, p ∈ map ca_peer (omap (candidate_of chain now) l) -> p ∈ map fst l).
  { intros l' p (c & -> & Hc)%list_elem_of_fmap. apply list_elem_of_omap in Hc as (r & Hin & Ec).
    apply list_elem_of_fmap. exists r. split; [|done]. unfold candidate_of in Ec.
    destruct (validate_candidate _ _ _); [|done]. by injection Ec as <-. }
  induction l as [|[p hs] l IH]; simpl; [by constructor|]. intros [Hn Hl]%NoDup_cons.
  unfold candidate_of at 1. simpl. destruct (validate_candidate _ _ _); [|by apply IH].
  simpl. apply NoDup_cons. split; [|by apply IH]. intros Hin. by apply Hn, Hsub.
Qed.

Lemma NoDup_map_filter {A B} (f : A -> B) (P : A -> Prop) `{!forall x, Decision (P x)} (l : list A) :
  NoDup (map f l) -> NoDup (map f (filter P l)).
Proof.
  induction l as [|x l IH]; simpl; [done|]. intros [Hn Hl]%NoDup_cons.
  rewrite filter_cons. case_decide; [|by apply IH]. simpl. apply NoDup_cons. split; [|by apply IH].
  intros (y & E & Hy)%list_elem_of_fmap. apply list_elem_of_filter in Hy as [_ Hy].
  apply Hn, list_elem_of_fmap. by exists y.
Qed.

(** C8. A round that fails leaves the chain as it was. A round that succeeds
    installs the chain that a response validated to, enough distinct peers sent
    valid responses with exactly that tip, and no valid response has more work:
    one with as much work has the same tip. The accepted headers are the batch
    that leads from the old chain to the new one. *)
Theorem round_installs_agreed_best walk s now s' r :
  walks walk -> finish_round_with_headers walk s now = (s', r) ->
  match r with
  | Err e => sy_chain s' = sy_chain s /\ sy_state s' ∈ [sy_state s; Degraded]
  | Ok o => exists round, sy_round s = Some round /\ sy_round s' = None /\
      let valid p c := exists hs, ro_responses round !! p = Some hs /\
                                  validate_candidate (sy_chain s) hs now = Some c in
      let tip_hash := e_hash (lc_tip (sy_chain s')) in
      validate_candidate (sy_chain s) (oc_accepted_headers o) now = Some (sy_chain s') /\
      (exists supporters : list PeerId, NoDup supporters /\
         minimum_peer_agreement (sy_config s) <= zlen supporters /\
         forall p, p ∈ supporters -> exists c, valid p c /\ e_hash (lc_tip c) = tip_hash) /\
      exists p c, valid p c /\ e_hash (lc_tip c) = tip_hash /\
        (collision_free (round_candidates s round now) -> c = sy_chain s') /\
        forall p' c', valid p' c' -> e_chainwork (lc_tip c') <= e_chainwork (lc_tip c) /\
          (e_chainwork (lc_tip c') = e_chainwork (lc_tip c) -> e_hash (lc_tip c') = tip_hash)
  end.
Proof.
  intros Hw E. destruct (finish_spec _ _ _ _ _ Hw E)
    as [(e & -> & ? & _ & _ & ? & _)|(round & peers & cs & Er & Hp & _ & Hpe & Es)]; [done|].
  pose proof (settle_spec _ _ _ _ _ Es) as Hs. destruct r as [o|e].
  2: { destruct Hs as [-> _]. split; [done|]. simpl. set_solver. }
  destruct Hs as (hash & winner & [[Hwin Hwh] Hch Hhd [Hrd _] _ _ Hag (c & Hc & Hch2 & Hbest)]).
  assert (Hin : forall c, c ∈ cs -> exists hs, ro_responses round !! ca_peer c = Some hs /\
    validate_candidate (sy_chain s) hs now = Some (ca_chain c)).
  { intros c' Hc'. rewrite Hp in Hc'. eexists. by apply candidate_inv. }
  exists round. cbv zeta. rewrite Hch, Hhd. split_and!; [done|by rewrite Hrd| | |].
  - rewrite Hp in Hwin. exact (proj2 (candidate_inv _ _ _ _ Hwin)).
  - exists (map ca_peer (filter (fun c => has_tip hash c = true) cs)). split_and!.
    + apply NoDup_map_filter. rewrite Hp. apply candidate_peers_nodup.
      apply (NoDup_fst_map_to_list (ro_responses round)).
    + unfold zlen in *. by rewrite length_map.
    + intros p (c' & -> & Hc')%list_elem_of_fmap. apply list_elem_of_filter in Hc' as [Ht Hc'].
      apply bool_decide_eq_true in Ht. exists (ca_chain c'). split; [by apply Hin|].
      unfold ca_tip in *. congruence.
  - exists (ca_peer c), (ca_chain c). split_and!; [by apply Hin|unfold ca_tip in *; congruence| |].
    + intros Hcf. apply Hcf; [by rewrite <- Hp..|congruence].
    + intros p' c' (hs & Hp' & Hv). pose proof (candidate_complete _ _ _ _ _ _ Hp' Hv) as Hcc.
      rewrite <- Hp in Hcc. destruct (Hbest _ Hcc) as [H1 H2]. unfold ca_tip in *. simpl in *.
      split; [done|]. intros Heq. rewrite Hwh. by apply H2.
Qed.

(** ** Operations as steps *)

Context {laws : ChainExternalsLaws}.

Inductive sync_step : HeaderSync -> HeaderSync -> Prop :=
| step_add_peer s id height s' r : add_peer s id height = (s', r) -> sync_step s s'
| step_remove_peer s id s' b : remove_peer s id = (s', b) -> sync_step s s'
| step_update_height s id height s' r : update_peer_height s id height = (s', r) -> sync_step s s'
| step_begin s selected now s' r : begin_round s selected now = (s', r) -> sync_step s s'
| step_abandon s s' b : abandon_uncommitted_round s = (s', b) -> sync_step s s'
| step_submit s generation peer headers now s' r :
    submit_headers s generation peer headers now = (s', r) -> sync_step s s'
| step_finish s walk now s' r :
    walks walk -> finish_round_with_headers walk s now = (s', r) -> sync_step s s'.

(** Opened at genesis or from a restored chain, then any operations. *)
Inductive sync_reachable : HeaderSync -> Prop :=
| reach_sync_genesis network now limit config s :
    0 <= max_peers config -> sync_from_genesis network now limit config = Ok s -> sync_reachable s
| reach_sync_chain chain config s :
    0 <= max_peers config -> chain_inv chain -> from_chain chain config = Ok s ->
    sync_reachable s
| reach_sync_step s s' : sync_reachable s -> sync_step s s' -> sync_reachable s'.

(** What an active round knows. *)
Record round_inv (s : HeaderSync) (round : SyncRound) : Prop := {
  ri_base : e_hash (lc_tip (sy_chain s)) = rq_base_hash (ro_request round) /\
            e_height (lc_tip (sy_chain s)) = rq_base_height (ro_request round);
  ri_generation : rq_generation (ro_request round) = sy_generation s;
  ri_responses : dom (ro_responses round) ⊆ ro_requested round;
  ri_requested : ro_requested round ⊆ dom (sy_peers s);
  ri_bounded : forall p hs, ro_responses round !! p = Some hs -> zlen hs <= MAX_HEADERS }.

Record sync_inv (s : HeaderSync) : Prop := {
  si_chain : chain_inv (sy_chain s);
  si_config : sync_config_validate (sy_config s) = Ok (sy_config s);
  si_peers : Z.of_nat (size (sy_peers s)) <= max_peers (sy_config s);
  si_round : forall round, sy_round s = Some round -> round_inv s round }.

Lemma validate_config_id config config' :
  sync_config_validate config = Ok config' -> config' = config.
Proof. unfold sync_config_validate. case_match; [done|]. by intros [= <-]. Qed.

Lemma validate_candidate_inv chain hs now c :
  chain_inv chain -> validate_candidate chain hs now = Some c ->
  chain_inv c /\ lc_network c = lc_network chain /\
  e_chainwork (lc_tip chain) <= e_chainwork (lc_tip c).
Proof.
  intros Hi E. unfold validate_candidate in E. destruct hs as [|h hs]; [by simplify_eq|].
  unfold append_batch in E. destruct (_ || _); [done|].
  destruct (append_all chain (h :: hs) now) as [c1|] eqn:Ea; [|done]. simplify_eq.
  destruct (append_all_spec _ _ _ _ Hi Ea) as (? & ? & _ & _ & ? & _).
  pose proof (zlen_nonneg (h :: hs)). split_and!; done || lia.
Qed.

Lemma dom_fail_step config chain now l peers :
  dom (fold_left (fail_step config chain now) l peers) = dom peers.
Proof.
  revert peers. induction l as [|r l IH]; intros peers; simpl; [done|]. rewrite IH.
  unfold fail_step. destruct (validate_candidate _ _ _); [done|].
  by rewrite record_failure_alter, dom_alter_L.
Qed.

Lemma dom_success hash cs peers :
  dom (fold_left (fun peers c => if has_tip hash c then record_success peers (ca_peer c) else peers)
         cs peers) = dom peers.
Proof.
  revert peers. induction cs as [|c cs IH]; intros peers; simpl; [done|]. rewrite IH.
  destruct (has_tip hash c); [|done]. by rewrite record_success_alter, dom_alter_L.
Qed.

Lemma size_of_dom (m1 m2 : gmap PeerId PeerRecord) : dom m1 = dom m2 -> size m1 = size m2.
Proof. intros E. by rewrite <- !size_dom, E. Qed.

(** What no step of the synchroniser may do: lose work, change network or go
    back in generation. *)
Definition no_regress (s s' : HeaderSync) : Prop :=
  lc_network (sy_chain s') = lc_network (sy_chain s) /\
  e_chainwork (lc_tip (sy_chain s)) <= e_chainwork (lc_tip (sy_chain s')) /\
  sy_generation s <= sy_generation s'.

Lemma no_regress_refl s s' :
  sy_chain s' = sy_chain s -> sy_generation s' = sy_generation s -> no_regress s s'.
Proof. intros E1 E2. unfold no_regress. rewrite E1, E2. split_and!; lia || done. Qed.

Lemma check_requested_known peers ids :
  check_requested peers ids = Ok tt ->
  forall id, id ∈ ids -> exists r, peers !! id = Some r /\ pr_banned r = false.
Proof.
  induction ids as [|id ids IH]; simpl; intros E i Hi; [set_solver|].
  destruct (peers !! id) as [r|] eqn:El; [|done]. cbn [ok_or] in E.
  destruct (pr_banned r) eqn:Eb; [done|]. apply elem_of_cons in Hi as [->|Hi]; [by exists r|].
  by apply IH.
Qed.

Lemma peer_ops_inv s s' :
  sync_inv s ->
  (exists id height r, add_peer s id height = (s', r)) \/
  (exists id b, remove_peer s id = (s', b)) \/
  (exists id height r, update_peer_height s id height = (s', r)) ->
  sync_inv s' /\ no_regress s s'.
Proof.
  intros [Hc Hcfg Hp Hr] [(id & h & r & E)|[(id & b & E)|(id & h & r & E)]].
  - unfold add_peer in E. case_bool_decide as Hin; [by simplify_eq|].
    case_match; simplify_eq; [done|]. breflect.
    split; [|by apply no_regress_refl]. constructor; simpl; try done.
    + rewrite map_size_insert_None by (by apply eq_None_not_Some). lia.
    + intros round Er. destruct (Hr _ Er) as [? ? ? Hrq ?]. constructor; simpl; try done. set_solver.
  - unfold remove_peer in E. simplify_eq. split; [|by apply no_regress_refl].
    constructor; simpl; try done.
    + rewrite map_size_delete. case_match; simpl; lia.
    + intros round Er. destruct (sy_round s) as [rd|] eqn:Es; [|done]. simpl in Er. simplify_eq.
      destruct (Hr _ eq_refl) as [? ? ? ? Hb]. constructor; simpl; try done; [set_solver..|].
      intros p hs. rewrite lookup_delete_Some. intros [_ ?]. by eapply Hb.
  - unfold update_peer_height in E. destruct (sy_peers s !! id) as [pr|] eqn:Eid; [|by simplify_eq].
    assert (Hd : forall x, dom (<[id := x]> (sy_peers s)) = dom (sy_peers s)).
    { intros x. rewrite dom_insert_L. apply elem_of_dom_2 in Eid. set_solver. }
    assert (Hgo : forall s1 : HeaderSync, sy_config s1 = sy_config s -> sy_chain s1 = sy_chain s ->
      sy_generation s1 = sy_generation s -> sy_round s1 = sy_round s ->
      dom (sy_peers s1) = dom (sy_peers s) -> sync_inv s1 /\ no_regress s s1).
    { intros s1 H1 H2 H3 H4 H5. split; [|by apply no_regress_refl].
      constructor; rewrite ?H1, ?H2; try done; [by rewrite (size_of_dom _ _ H5)|].
      intros round Er. rewrite H4 in Er. destruct (Hr _ Er) as [? ? ? ? ?].
      constructor; rewrite ?H2, ?H3, ?H5; done. }
    simplify_eq. case_match; apply Hgo; simpl; done || apply Hd.
Qed.

Lemma sync_inv_no_round s s' :
  sync_inv s -> sy_chain s' = sy_chain s -> sy_config s' = sy_config s ->
  dom (sy_peers s') = dom (sy_peers s) -> sy_round s' = None -> sync_inv s'.
Proof.
  intros [Hc Hcfg Hp Hr] E1 E2 E3 E4. constructor; rewrite ?E1, ?E2, ?E4; try done.
  by rewrite (size_of_dom _ _ E3).
Qed.

Lemma begin_inv s selected now s' r :
  sync_inv s -> begin_round s selected now = (s', r) -> sync_inv s' /\ no_regress s s'.
Proof.
  intros Hi E. pose proof Hi as [Hc Hcfg Hp Hr].
  assert (Hsame : sync_inv s /\ no_regress s s) by (split; [done|by apply no_regress_refl]).
  unfold begin_round in E. case_bool_decide; [by simplify_eq|]. case_match eqn:Hn; [by simplify_eq|].
  destruct (check_requested _ _) as [[]|] eqn:Ek; [|by simplify_eq].
  destruct (checked_add (sy_generation s) 1) as [g|] eqn:Eg; [|by simplify_eq].
  destruct (checked_add now _) as [d|]; [|by simplify_eq]. simplify_eq.
  apply checked_add_Some in Eg as [-> _]. split; [|unfold no_regress; simpl; split_and!; done || lia].
  constructor; simpl; try done. intros round Er. simplify_eq. constructor; simpl; try done.
  intros id Hid. destruct (check_requested_known _ _ Ek id) as (pr & Hl & _); [|by apply elem_of_dom].
  by apply elem_of_elements.
Qed.

Lemma submit_inv s generation peer headers now s' r :
  sync_inv s -> submit_headers s generation peer headers now = (s', r) ->
  sync_inv s' /\ no_regress s s'.
Proof.
  intros Hi E. pose proof Hi as [Hc Hcfg Hp Hr].
  assert (Hsame : sync_inv s /\ no_regress s s) by (split; [done|by apply no_regress_refl]).
  unfold submit_headers in E. destruct (sy_round s) as [round|] eqn:Er; [|by simplify_eq].
  do 2 (case_match; [by simplify_eq|]). case_bool_decide as Hreq; simpl in E; [|by simplify_eq].
  case_match; [by simplify_eq|]. case_bool_decide; simplify_eq; [done|]. breflect.
  split; [|by apply no_regress_refl]. destruct (Hr _ eq_refl) as [? ? Hrs ? Hb].
  constructor; simpl; try done. intros rd Hrd. simplify_eq.
  constructor; simpl; try done; [set_solver|].
  intros p hs [[<- <-]|[_ Hl]]%lookup_insert_Some; [done|by eapply Hb].
Qed.

Lemma finish_inv walk s now s' r :
  sync_inv s -> walks walk -> finish_round_with_headers walk s now = (s', r) ->
  sync_inv s' /\ no_regress s s' /\ r <> Err StaleRound.
Proof.
  intros Hi Hw E. pose proof Hi as [Hc Hcfg Hp Hr].
  destruct (finish_spec _ _ _ _ _ Hw E)
    as [(e & -> & Hch & Hinc & Hpe & _ & Hst & Hrd & Hcf & Hg)|(round & peers & cs & Er & Hpm & _ & Hpe & Es)].
  - split_and!; [|by apply no_regress_refl|].
    + destruct (sy_round s') as [rd|] eqn:Erd.
      * constructor; rewrite ?Hch, ?Hcf, ?Hpe; try done. intros round Hro. rewrite Erd in Hro. simplify_eq.
        assert (Hs : sy_round s = Some round) by set_solver.
        destruct (Hr _ Hs). constructor; rewrite ?Hch, ?Hg, ?Hpe; done.
      * apply (sync_inv_no_round s); try done. by rewrite Hpe.
    + intros [= ->]. destruct (Hst eq_refl) as (round & Hro & Hn). apply Hn, (ri_base _ _ (Hr _ Hro)).
  - assert (Hdom : dom peers = dom (sy_peers s)) by (rewrite Hpe; apply dom_fail_step).
    pose proof (settle_spec _ _ _ _ _ Es) as Hs. destruct r as [o|e].
    + destruct Hs as (hash & w & [[Hwin _] Hch _ (Hrd & Hcf & Hg) Hps _ _ _]). simpl in *.
      rewrite Hpm in Hwin. apply candidate_inv in Hwin as [_ Hv].
      destruct (validate_candidate_inv _ _ _ _ Hc Hv) as (Hci & Hnet & Hwork).
      split_and!; [|unfold no_regress; rewrite Hch, Hg; split_and!; done || lia|done].
      assert (Hd' : dom (sy_peers s') = dom (sy_peers s)) by (by rewrite Hps, dom_success).
      constructor; rewrite ?Hch, ?Hcf, ?Hrd; try done. by rewrite (size_of_dom _ _ Hd').
    + destruct Hs as [-> He]. split_and!; [|by apply no_regress_refl|].
      * apply (sync_inv_no_round s); done.
      * intros [= ->]. set_solver.
Qed.

Lemma sync_step_inv s s' : sync_inv s -> sync_step s s' -> sync_inv s' /\ no_regress s s'.
Proof.
  intros Hi Hs. destruct Hs as [s id h s' r E|s id s' b E|s id h s' r E|s sel now s' r E|s s' b E
    |s g p hs now s' r E|s walk now s' r Hw E].
  - apply peer_ops_inv; [done|]. left. by exists id, h, r.
  - apply peer_ops_inv; [done|]. right; left. by exists id, b.
  - apply peer_ops_inv; [done|]. right; right. by exists id, h, r.
  - by eapply begin_inv.
  - unfold abandon_uncommitted_round in E. simplify_eq. split; [|by apply no_regress_refl].
    by apply (sync_inv_no_round s).
  - by eapply submit_inv.
  - by edestruct finish_inv as (? & ? & _).
Qed.

Lemma sync_reachable_inv s : sync_reachable s -> sync_inv s.
Proof.
  induction 1 as [network now limit config s Hm E|chain config s Hm Hc E|s s' _ IH Hs].
  - unfold sync_from_genesis in E. destruct (sync_config_validate config) as [c|] eqn:Ec; [|done].
    pose proof (validate_config_id _ _ Ec) as ->. unfold chain_err in E.
    destruct (from_genesis _ _ _) as [ch|] eqn:Eg; [|done]. simplify_eq.
    constructor; simpl; try done. by eapply genesis_inv.
  - unfold from_chain in E. destruct (sync_config_validate config) as [c|] eqn:Ec; [|done].
    pose proof (validate_config_id _ _ Ec) as ->. simplify_eq. by constructor.
  - by eapply sync_step_inv.
Qed.

(** Whatever operations are performed, the synchroniser holds a valid chain,
    stays within its peer bound, and keeps its active round consistent with the
    tip it was opened at, with answers only from requested, tracked peers and
    within the header bound; no step loses validated work, changes network or
    reuses a generation; and finishing a round never finds it stale. *)
Theorem sync_stays_valid s :
  sync_reachable s ->
  sync_inv s /\ (forall s', sync_step s s' -> no_regress s s') /\
  forall walk now, walks walk -> snd (finish_round_with_headers walk s now) <> Err StaleRound.
Proof.
  intros Hr. pose proof (sync_reachable_inv _ Hr) as Hi. split_and!; [done| |].
  - intros s' Hs. by apply sync_step_inv.
  - intros walk now Hw. destruct (finish_round_with_headers walk s now) as [s' r] eqn:E.
    by destruct (finish_inv _ _ _ _ _ Hi Hw E) as (_ & _ & ?).
Qed.

(** ** Current evidence *)

(** The conditions under which [state_after] answers [HeaderCurrent]. *)
Lemma state_after_current unchanged all chain peers supporting :
  state_after unchanged all chain peers supporting = HeaderCurrent ->
  unchanged = true /\ all = true /\
  (forall p r, peers !! p = Some r ->
     pr_banned r = true \/ pr_advertised_height r <= e_height (lc_tip chain)) /\
  forall c, c ∈ supporting -> ca_headers c = [] /\
    exists r, peers !! ca_peer c = Some r /\ pr_advertised_height r <= e_height (lc_tip chain).
Proof.
  unfold state_after. case_match eqn:E; [|done]. intros _.
  repeat rewrite andb_true_iff in E. destruct E as [[[-> ->] Hp] Hs]. rewrite !forallb_forall in *.
  split_and!; try done.
  - intros p r Hl. assert (Hin : In r (peer_values peers)).
    { apply list_elem_of_In, list_elem_of_fmap. exists (p, r). split; [done|].
      by apply elem_of_map_to_list. }
    specialize (Hp r Hin). apply orb_true_iff in Hp as [?|?]; [by left|right; by apply Z.leb_le].
  - intros c Hc%list_elem_of_In. specialize (Hs c Hc). apply andb_true_iff in Hs as [H1 H2].
    apply bool_decide_eq_true in H1. split; [done|]. case_match; [|done].
    eexists. split; [done|by apply Z.leb_le].
Qed.

(** Only finishing a round can make the state current. *)
Lemma other_steps_keep_state s s' :
  sync_step s s' -> sy_state s' = HeaderCurrent ->
  (sy_state s = HeaderCurrent /\ sy_chain s' = sy_chain s) \/
  exists walk now o, walks walk /\ finish_round_with_headers walk s now = (s', Ok o).
Proof.
  intros Hs Hc. destruct Hs as [s id h s' r E|s id s' b E|s id h s' r E|s sel now s' r E|s s' b E
    |s g p hs now s' r E|s walk now s' r Hw E].
  7: { destruct r as [o|e]; [right; by exists walk, now, o|left].
       destruct (finish_spec _ _ _ _ _ Hw E)
         as [(e' & _ & Hch & _ & _ & Hst & _)|(round & peers & cs & _ & _ & _ & _ & Es)].
       - split; [|done]. rewrite Hc in Hst. apply elem_of_cons in Hst as [?|Hst]; [done|].
         by apply list_elem_of_singleton in Hst.
       - apply settle_spec in Es as [-> _]. done. }
  all: left; unfold add_peer, remove_peer, update_peer_height, begin_round,
    abandon_uncommitted_round, submit_headers in E; cbv zeta in E.
  all: repeat (case_match; simplify_eq/=; try done); by simplify_eq/=.
Qed.

(** Current-chain evidence rests on a no-extension agreement round: the
    state becomes current only by finishing a round that left the chain as it
    was, to which every requested peer answered, where enough distinct peers
    answered with no headers, and while no tracked peer that is not banned
    advertises a height above the tip. A current state carries over only with
    the same chain. *)
Theorem current_only_by_agreed_round s s' policy a :
  sync_inv s -> 1 <= minimum_peer_agreement (sy_config s) -> sync_step s s' ->
  sync_require_current s' policy = Ok a ->
  require_current (sy_chain s') policy = Ok a /\ sy_chain s' = sy_chain s /\
  (sy_state s = HeaderCurrent \/
   exists round, sy_round s = Some round /\ sy_round s' = None /\
     size (ro_responses round) = size (ro_requested round) /\
     (exists supporters : list PeerId, NoDup supporters /\
        minimum_peer_agreement (sy_config s) <= zlen supporters /\
        forall p, p ∈ supporters -> ro_responses round !! p = Some []) /\
     forall p r, sy_peers s' !! p = Some r ->
       pr_banned r = true \/ pr_advertised_height r <= e_height (lc_tip (sy_chain s'))).
Proof.
  intros Hi Hmin Hs E. unfold sync_require_current, chain_err in E.
  case_bool_decide as Hcur; simpl in E; [|done].
  destruct (require_current (sy_chain s') policy) as [a'|] eqn:Er; [|done]. simplify_eq.
  split; [done|]. destruct (other_steps_keep_state _ _ Hs Hcur)
    as [[? ?]|(walk & now & o & Hw & Ef)]; [by split; [|left]|].
  destruct (finish_spec _ _ _ _ _ Hw Ef)
    as [(e & ? & _)|(round & peers & cs & Ero & Hp & _ & Hpe & Es)]; [done|].
  apply settle_spec in Es as (hash & w & [[Hwin Hwh] Hch _ (Hrd & _) _ Hst Hag _]).
  rewrite Hst in Hcur. apply state_after_current in Hcur as (_ & Hall & Hadv & Hsup).
  apply bool_decide_eq_true in Hall. simpl in *.
  assert (Hin : forall c, c ∈ filter (fun c => has_tip hash c = true) cs ->
    ro_responses round !! ca_peer c = Some [] /\
    validate_candidate (sy_chain s) [] now = Some (ca_chain c)).
  { intros c Hc. destruct (Hsup c Hc) as [Hnil _]. apply list_elem_of_filter in Hc as [_ Hc].
    rewrite Hp in Hc. apply candidate_inv in Hc. by rewrite Hnil in Hc. }
  assert (Hwf : w ∈ filter (fun c => has_tip hash c = true) cs).
  { apply list_elem_of_filter. split; [by apply bool_decide_eq_true|done]. }
  destruct (Hin _ Hwf) as [_ Hv]. simpl in Hv. injection Hv as Hv.
  split; [by rewrite Hch|]. right. exists round. split_and!; try done.
  - exists (map ca_peer (filter (fun c => has_tip hash c = true) cs)). split_and!.
    + apply NoDup_map_filter. rewrite Hp. apply candidate_peers_nodup.
      apply (NoDup_fst_map_to_list (ro_responses round)).
    + unfold zlen in *. by rewrite length_map.
    + intros p (c & -> & Hc)%list_elem_of_fmap. by apply Hin.
  - by rewrite Hch.
Qed.
End sync_proofs.

(** ** Two rounds on the toy chain *)

#[export] Instance toy_wire : SyncExternals := {| MAX_HEADERS := 2000 |}.

Definition toy_config : SyncConfig :=
  {| max_peers := 4; minimum_peer_agreement := 2; round_timeout_seconds := 10;
     max_peer_failures := 2 |}.
Definition toy_open : HeaderSync :=
  {| sy_config := toy_config; sy_chain := toy_genesis; sy_state := HeaderSyncing;
     sy_generation := 1; sy_peers := ∅; sy_round := None |}.

Definition toy_peered : HeaderSync :=
  fst (add_peer (fst (add_peer (fst (add_peer toy_open [1] 3)) [2] 3)) [3] 0).

(** Two peers answer with the same batch, the third with a header that extends
    nothing. *)
Definition toy_answered : HeaderSync :=
  let s := fst (begin_round toy_peered [[1]; [2]; [3]] 5) in
  let s := fst (submit_headers s 2 [1] toy_batch 6) in
  let s := fst (submit_headers s 2 [2] toy_batch 6) in
  fst (submit_headers s 2 [3] [toy_block zero_hash 9] 6).

Definition toy_synced : HeaderSync :=
  fst (finish_round_with_headers map_to_list toy_answered 6).

(** A second round in which all three answer with no headers. *)
Definition toy_quiet : HeaderSync :=
  let s := fst (begin_round toy_synced [[1]; [2]; [3]] 7) in
  let s := fst (submit_headers s 3 [1] [] 8) in
  let s := fst (submit_headers s 3 [2] [] 8) in
  fst (submit_headers s 3 [3] [] 8).
Definition toy_current : HeaderSync :=
  fst (finish_round_with_headers map_to_list toy_quiet 8).

Lemma toy_walks : walks map_to_list.
Proof. by intros m. Qed.
Lemma toy_walks_rev : walks (fun m => rev (map_to_list m)).
Proof. intros m. symmetry. apply Permutation_rev. Qed.

Lemma toy_open_reachable : sync_reachable toy_open.
Proof.
  apply (reach_sync_chain toy_genesis toy_config); [by vm_compute| |reflexivity].
  apply (reachable_inv _ _ toy_genesis_reachable).
Qed.

Lemma step_fst_begin s l now : sync_reachable s -> sync_reachable (fst (begin_round s l now)).
Proof. intros Hr. eapply reach_sync_step; [done|]. eapply step_begin, surjective_pairing. Qed.
Lemma step_fst_add s id h : sync_reachable s -> sync_reachable (fst (add_peer s id h)).
Proof. intros Hr. eapply reach_sync_step; [done|]. eapply step_add_peer, surjective_pairing. Qed.
Lemma step_fst_submit s g p hs now :
  sync_reachable s -> sync_reachable (fst (submit_headers s g p hs now)).
Proof. intros Hr. eapply reach_sync_step; [done|]. eapply step_submit, surjective_pairing. Qed.
Lemma finish_is_step s now : sync_step s (fst (finish_round_with_headers map_to_list s now)).
Proof. eapply step_finish; [apply toy_walks|apply surjective_pairing]. Qed.
Lemma step_fst_finish s now :
  sync_reachable s -> sync_reachable (fst (finish_round_with_headers map_to_list s now)).
Proof. intros Hr. eapply reach_sync_step; [done|]. apply finish_is_step. Qed.

Create HintDb toy discriminated.
#[export] Hint Resolve toy_open_reachable step_fst_begin step_fst_add step_fst_submit
  step_fst_finish : toy.

Lemma toy_quiet_reachable : sync_reachable toy_quiet.
Proof. unfold toy_quiet, toy_synced, toy_answered, toy_peered. cbv zeta. auto 20 with toy. Qed.

Lemma sync_stays_valid_witness :
  sync_inv toy_quiet /\ bool_decide (sy_state toy_current = HeaderCurrent) = true.
Proof.
  destruct (sync_stays_valid toy_quiet toy_quiet_reachable) as (Hi & _).
  split; [exact Hi|vm_compute; reflexivity].
Defined.

Lemma round_installs_agreed_best_witness :
  e_height (lc_tip (sy_chain toy_synced)) = 3 /\
  exists supporters : list PeerId, NoDup supporters /\ 2 <= zlen supporters.
Proof.
  split; [vm_compute; reflexivity|].
  assert (Hok : is_ok (snd (finish_round_with_headers map_to_list toy_answered 6)) = true)
    by (vm_compute; reflexivity).
  destruct (finish_round_with_headers map_to_list toy_answered 6) as [s' [o|e]] eqn:E; [|discriminate].
  destruct (round_installs_agreed_best map_to_list toy_answered 6 s' (Ok o) toy_walks E)
    as (round & _ & _ & _ & (sup & Hn & Hz & _) & _).
  exists sup. split; [exact Hn|exact Hz].
Defined.

Lemma current_only_by_agreed_round_witness :
  exists a, sync_require_current toy_current
      {| cp_now := 8; cp_maximum_tip_age_seconds := 100; cp_minimum_height := 3;
         cp_minimum_chainwork := 4 |} = Ok a /\
    sy_chain toy_current = sy_chain toy_quiet.
Proof.
  set (policy := {| cp_now := 8; cp_maximum_tip_age_seconds := 100; cp_minimum_height := 3;
                    cp_minimum_chainwork := 4 |}).
  assert (Hok : is_ok (sync_require_current toy_current policy) = true) by (vm_compute; reflexivity).
  apply is_ok_true in Hok as [a E]. exists a. split; [exact E|].
  pose proof (finish_is_step toy_quiet 8 : sync_step toy_quiet toy_current) as Hs.
  assert (Hm : 1 <= minimum_peer_agreement (sy_config toy_quiet)) by (vm_compute; discriminate).
  apply (current_only_by_agreed_round toy_quiet toy_current policy a
    (sync_reachable_inv _ toy_quiet_reachable) Hm Hs E).
Defined.

#[local] Instance toy_header_eq_dec : EqDecision (@Header toy_externals).
Proof. change (EqDecision toy_header). solve_decision. Defined.

Definition toy_responses : gmap PeerId (list Header) :=
  <[[3] := [toy_block zero_hash 9]]> (<[[2] := toy_batch]> (<[[1] := toy_batch]> ∅)).

(** For [toy_answered] the valid candidates all carry the same batch. *)
Lemma toy_collision_free round :
  sy_round toy_answered = Some round -> collision_free (round_candidates toy_answered round 6).
Proof.
  intros Er.
  assert (Hm : bool_decide (option_map ro_responses (sy_round toy_answered) = Some toy_responses) = true)
    by (vm_compute; reflexivity).
  apply bool_decide_eq_true in Hm. rewrite Er in Hm. cbn [option_map] in Hm.
  assert (Hr : ro_responses round = toy_responses) by congruence.
  assert (Hbad : bool_decide (is_Some (validate_candidate (sy_chain toy_answered)
                   [toy_block zero_hash 9] 6)) = false) by (vm_compute; reflexivity).
  assert (Hh : forall c, c ∈ round_candidates toy_answered round 6 -> ca_headers c = toy_batch).
  { intros c Hc. apply candidate_inv in Hc as [Hl Hv]. rewrite Hr in Hl. unfold toy_responses in Hl.
    apply lookup_insert_Some in Hl as [[_ Hl]|[_ Hl]].
    { rewrite <- Hl in Hv. rewrite Hv in Hbad. by apply bool_decide_eq_false in Hbad as []. }
    apply lookup_insert_Some in Hl as [[_ Hl]|[_ Hl]]; [done|].
    apply lookup_insert_Some in Hl as [[_ Hl]|[_ Hl]]; [done|]. by rewrite lookup_empty in Hl. }
  intros c1 c2 H1 H2 _. pose proof (Hh _ H1) as E1. pose proof (Hh _ H2) as E2.
  split; [congruence|]. apply candidate_inv in H1 as [_ H1], H2 as [_ H2]. congruence.
Qed.

Lemma round_order_independent_witness :
  finish_round_with_headers map_to_list toy_answered 6
  = finish_round_with_headers (fun m => rev (map_to_list m)) toy_answered 6.
Proof.
  apply (round_order_independent map_to_list (fun m => rev (map_to_list m)) toy_answered 6).
  - exact toy_walks.
  - exact toy_walks_rev.
  - exact toy_collision_free.
Defined.
