(* ===== verification/PrimHash.v ===== *)
(** * Hashes and Handshake names

    Models [src/crates/hns-browser-primitives/src/hash.rs]. The BLAKE2b and SHA-3
    implementations are external crates: [Hashers] names them on the
    concatenation of their parts, with the lengths of their outputs. *)

From S2P Require Import Prelude.

Definition MAX_HANDSHAKE_NAME_LEN : Z := 63.

Class Hashers := {
  blake2b_var : Z -> list Z -> list Z;
  sha3_var : list Z -> list Z }.

Class HashersLaws `{Hashers} : Prop := {
  law_blake_len : forall n l, 0 <= n -> zlen (blake2b_var n l) = n;
  law_blake_bytes : forall n l, bytes_ok (blake2b_var n l);
  law_sha3_len : forall l, zlen (sha3_var l) = 32;
  law_sha3_bytes : forall l, bytes_ok (sha3_var l) }.

(** [Hash([u8; 32])]; a [NameHash] wraps one. *)
Abbreviation Hash := (list Z).
Definition hash_ZERO : Hash := replicate 32 0.

Inductive HashError := InvalidLength | InvalidHex.

Inductive NameHashError :=
| NameEmpty | NameTooLong | NameUppercase | NameInvalidCharacter | NameInvalidBoundary
| NameBlacklisted.

(** [Hash::from_slice]. *)
Definition hash_from_slice (bytes : list Z) : result HashError Hash :=
  if negb (zlen bytes =? 32) then Err InvalidLength else Ok bytes.

Section hashing.
Context `{Hashers}.

Definition blake2b_256 (parts : list (list Z)) : Hash := blake2b_var 32 (concat parts).
Definition blake2b_512 (parts : list (list Z)) : list Z := blake2b_var 64 (concat parts).
Definition sha3_256 (parts : list (list Z)) : Hash := sha3_var (concat parts).
End hashing.

(** ** Name validation *)

(** ["example" | "invalid" | "local" | "localhost" | "test"]. *)
Definition blacklisted_names : list (list Z) :=
  [[101; 120; 97; 109; 112; 108; 101]; [105; 110; 118; 97; 108; 105; 100];
   [108; 111; 99; 97; 108]; [108; 111; 99; 97; 108; 104; 111; 115; 116];
   [116; 101; 115; 116]].

Definition in_range (lo hi b : Z) : bool := (lo <=? b) && (b <=? hi).

(** One byte of [name.bytes().enumerate()]. *)
Definition check_name_byte (len index byte : Z) : result NameHashError unit :=
  if in_range 48 57 byte || in_range 97 122 byte then Ok tt else
  if in_range 65 90 byte then Err NameUppercase else
  if (byte =? 45) || (byte =? 95) then
    if (index =? 0) || (index + 1 =? len) then Err NameInvalidBoundary else Ok tt
  else Err NameInvalidCharacter.

Fixpoint check_name_bytes (len index : Z) (bytes : list Z) : result NameHashError unit :=
  match bytes with
  | [] => Ok tt
  | byte :: bytes =>
      let? _ := check_name_byte len index byte in
      check_name_bytes len (index + 1) bytes
  end.

Definition validate_handshake_name (name : list Z) : result NameHashError unit :=
  if zlen name =? 0 then Err NameEmpty else
  if MAX_HANDSHAKE_NAME_LEN <? zlen name then Err NameTooLong else
  if bool_decide (name ∈ blacklisted_names) then Err NameBlacklisted else
  check_name_bytes (zlen name) 0 name.

(** [NameHash::from_name]. *)
Definition name_hash_from_name `{Hashers} (name : list Z) : result NameHashError Hash :=
  let? _ := validate_handshake_name name in
  Ok (sha3_256 [name]).

(** ** Which names are valid *)

Definition name_char (b : Z) : Prop := 48 <= b <= 57 \/ 97 <= b <= 122.
Definition name_joiner (b : Z) : Prop := b = 45 \/ b = 95.

Lemma check_name_byte_ok len index b :
  check_name_byte len index b = Ok tt <->
  name_char b \/ (name_joiner b /\ index <> 0 /\ index + 1 <> len).
Proof.
  unfold check_name_byte, in_range, name_char, name_joiner.
  repeat (case_match; breflect); split; intros; try done; try lia; repeat destruct_or!; breflect; lia.
Qed.

Lemma check_name_bytes_ok len bytes index :
  check_name_bytes len index bytes = Ok tt <->
  forall i b, bytes !! i = Some b ->
  name_char b \/ (name_joiner b /\ index + Z.of_nat i <> 0 /\ index + Z.of_nat i + 1 <> len).
Proof.
  revert index. induction bytes as [|x bytes IH]; intros index; simpl.
  { split; [by intros _ i b|done]. }
  destruct (check_name_byte len index x) as [[]|e] eqn:E.
  - rewrite IH. apply check_name_byte_ok in E. split.
    + intros Hr [|i] b Hb; simpl in Hb; [simplify_eq; by rewrite Z.add_0_r|].
      specialize (Hr i b Hb). by replace (index + Z.of_nat (S i)) with (index + 1 + Z.of_nat i) by lia.
    + intros Hr i b Hb. specialize (Hr (S i) b Hb).
      by replace (index + 1 + Z.of_nat i) with (index + Z.of_nat (S i)) by lia.
  - split; [done|]. intros Hr. specialize (Hr 0%nat x eq_refl). rewrite Z.add_0_r in Hr.
    apply check_name_byte_ok in Hr. congruence.
Qed.

(** A Handshake name is accepted exactly when it has 1 to 63 bytes, is not
    one of the five reserved names, and consists of lowercase letters, digits
    and inner hyphens or underscores. *)
Theorem handshake_name_valid_iff name :
  validate_handshake_name name = Ok tt <->
  1 <= zlen name <= 63 /\ ~ (name ∈ blacklisted_names) /\
  forall i b, name !! i = Some b ->
    name_char b \/ (name_joiner b /\ 0 < Z.of_nat i /\ Z.of_nat i + 1 < zlen name).
Proof.
  pose proof (zlen_nonneg name). unfold validate_handshake_name, MAX_HANDSHAKE_NAME_LEN.
  destruct (zlen name =? 0) eqn:E1; breflect; [split; [done|lia]|].
  destruct (63 <? zlen name) eqn:E2; breflect; [split; [done|lia]|].
  case_bool_decide as Hb; [split; [done|by intros (_ & ? & _)]|].
  rewrite check_name_bytes_ok. split.
  - intros Hr. split_and!; [lia..|done|]. intros i b Hi. pose proof (lookup_lt_Some _ _ _ Hi) as Hlt.
    destruct (Hr i b Hi) as [?|(? & ? & ?)]; [by left|right]. unfold zlen in *. split_and!; [done|lia..].
  - intros (_ & _ & Hr) i b Hi. destruct (Hr i b Hi) as [?|(? & ? & ?)]; [by left|right].
    split_and!; [done|lia..].
Qed.
