(* ===== verification/PrimPow.v ===== *)
(** * Compact targets, chainwork and proof of work

    Models [src/crates/hns-browser-primitives/src/pow.rs]. A [BigUint] is a
    nonnegative [Z]; the shifts on [u32] keep 32 bits. Theorems: the byte-level
    proof-of-work test agrees with the arithmetic target; compact encoding
    loses only what its 23-bit mantissa cannot hold, and never rounds up. *)

From S2P Require Import Prelude ByteOrder PrimHash.

Inductive PowError := NegativeTarget | ZeroTarget | PowOverflow | InvalidChainworkHex.

(** [u32] shifts. *)
Definition shl_u32 (x n : Z) : Z := Z.shiftl x n mod 2 ^ 32.

(** [BigUint::bits] and the length of [BigUint::to_bytes_be]. *)
Definition big_bits (t : Z) : Z := if t =? 0 then 0 else Z.log2 t + 1.
Definition big_byte_len (t : Z) : Z := if t =? 0 then 1 else (big_bits t + 7) / 8.
Definition big_bytes_be (t : Z) : list Z := to_be (Z.to_nat (big_byte_len t)) t.

(** [compact_to_target]; a [Target] is its integer. *)
Definition compact_to_target (bits : Z) : result PowError Z :=
  if negb (Z.land bits 0x00800000 =? 0) then Err NegativeTarget else
  let exponent := Z.shiftr bits 24 in
  let mantissa := Z.land bits 0x007fffff in
  if mantissa =? 0 then Err ZeroTarget else
  let target :=
    if exponent <=? 3 then Z.shiftr mantissa (8 * (3 - exponent))
    else Z.shiftl mantissa (8 * (exponent - 3)) in
  if target =? 0 then Err ZeroTarget else
  if 256 <? big_bits target then Err PowOverflow else
  Ok target.

(** [Target::to_be_bytes_32]: right-aligned in 32 bytes. *)
Definition to_be_bytes_32 (target : Z) : list Z :=
  let bytes := big_bytes_be target in
  let start := saturating_sub 32 (zlen bytes) in
  replicate (Z.to_nat start) 0 ++ bytes.

(** [target_to_compact]. *)
Definition target_to_compact (target : Z) : Z :=
  if target =? 0 then 0 else
  let exponent := zlen (big_bytes_be target) in
  let mantissa :=
    if exponent <=? 3 then shl_u32 target (8 * (3 - exponent))
    else Z.shiftr target (8 * (exponent - 3)) in
  if negb (Z.land mantissa 0x00800000 =? 0)
  then Z.lor (shl_u32 (exponent + 1) 24) (Z.shiftr mantissa 8)
  else Z.lor (shl_u32 exponent 24) mantissa.

(** [work_for_target] and [target_for_work]. *)
Definition work_for_target (target : Z) : result PowError Z :=
  if target =? 0 then Err ZeroTarget else Ok (Z.shiftl 1 256 / (target + 1)).
Definition target_for_work (work : Z) : result PowError Z :=
  if work =? 0 then Err ZeroTarget else
  let target := Z.shiftl 1 256 / work in
  if target =? 0 then Err ZeroTarget else Ok (target - 1).

(** [Chainwork] operations on its integer. *)
Definition chainwork_from_bits (bits : Z) : result PowError Z :=
  let? target := compact_to_target bits in work_for_target target.
Definition chainwork_checked_sub (a b : Z) : option Z := if a <? b then None else Some (a - b).
Definition chainwork_div_u64 (a divisor : Z) : option Z :=
  if divisor =? 0 then None else Some (a / divisor).

(** Overwrite the bytes of [out] from [offset] on. *)
Definition put_at (out : list Z) (offset : Z) (bytes : list Z) : list Z :=
  take (Z.to_nat offset) out ++ bytes ++ drop (Z.to_nat (offset + zlen bytes)) out.

(** [target_bytes_from_compact]. *)
Definition target_bytes_from_compact (bits : Z) : result PowError (list Z) :=
  if negb (Z.land bits 0x00800000 =? 0) then Err NegativeTarget else
  let exponent := Z.shiftr bits 24 in
  let mantissa := Z.land bits 0x007fffff in
  if mantissa =? 0 then Err ZeroTarget else
  if 32 <? exponent then result_map to_be_bytes_32 (compact_to_target bits) else
  let out := replicate 32 0 in
  if exponent <=? 3 then
    let target := Z.shiftr mantissa (8 * (3 - exponent)) in
    Ok (put_at out 28 (to_be 4 target))
  else
    let offset := 32 - exponent in
    Ok (put_at out offset [Z.land (Z.shiftr mantissa 16) 255; Z.land (Z.shiftr mantissa 8) 255;
                           Z.land mantissa 255]).

Definition verify_pow (hash : Hash) (bits : Z) : result PowError bool :=
  let? target := target_bytes_from_compact bits in
  Ok (bytes_leb hash target).

(** ** Byte order is numeric order *)

Lemma bytes_leb_from_be a b :
  length a = length b -> bytes_ok a -> bytes_ok b -> bytes_leb a b = (from_be a <=? from_be b).
Proof.
  revert b. induction a as [|x a IH]; intros [|y b] Hl Ha Hb; try done.
  simpl in Hl. injection Hl as Hl. apply Forall_cons in Ha as [Hx Ha], Hb as [Hy Hb].
  pose proof (from_be_bound a Ha); pose proof (from_be_bound b Hb).
  assert (Hz : zlen a = zlen b) by (unfold zlen; lia). rewrite !from_be_cons, Hz in *. simpl.
  set (w := 256 ^ zlen b) in *. width.
  destruct (Z.ltb_spec x y); [symmetry; apply Z.leb_le; nia|].
  destruct (Z.ltb_spec y x); [symmetry; apply Z.leb_gt; nia|].
  assert (x = y) as -> by lia. rewrite IH by done.
  destruct (Z.leb_spec (from_be a) (from_be b)); symmetry; [apply Z.leb_le|apply Z.leb_gt]; lia.
Qed.

Lemma from_be_app a b : from_be (a ++ b) = from_be a * 256 ^ zlen b + from_be b.
Proof.
  induction a as [|x a IH]; simpl; [unfold from_be at 2; simpl; lia|].
  rewrite !from_be_cons, IH, zlen_app, Z.pow_add_r by (pose proof (zlen_nonneg a); pose proof (zlen_nonneg b); lia).
  lia.
Qed.

Lemma from_be_zeros n : from_be (replicate n 0) = 0.
Proof. induction n as [|n IH]; [done|]. simpl. rewrite from_be_cons, IH. lia. Qed.

(** ** Compact words *)

(** The parts of a compact word. *)
Lemma compact_parts bits :
  in_u32 bits -> Z.land bits 0x00800000 = 0 ->
  let exponent := Z.shiftr bits 24 in let mantissa := Z.land bits 0x007fffff in
  0 <= exponent <= 255 /\ 0 <= mantissa < 2 ^ 23 /\ bits = exponent * 2 ^ 24 + mantissa.
Proof.
  intros Hb Hneg. cbv zeta. rewrite Z.shiftr_div_pow2 by lia.
  change 0x007fffff with (Z.ones 23). rewrite Z.land_ones by lia.
  assert (Hbit : (bits / 2 ^ 23) mod 2 = 0).
  { change 0x00800000 with (2 ^ 23) in Hneg.
    rewrite <- Z.testbit_spec' by lia.
    assert (Ht : Z.testbit (Z.land bits (2 ^ 23)) 23 = false) by (rewrite Hneg; apply Z.bits_0).
    rewrite Z.land_spec, Z.pow2_bits_true, andb_true_r in Ht by lia. by rewrite Ht. }
  width. change (2 ^ 24) with (2 ^ 23 * 2). rewrite <- Z.div_div by lia.
  pose proof (Z.div_mod bits (2 ^ 23) ltac:(lia)). pose proof (Z.mod_pos_bound bits (2 ^ 23) ltac:(lia)).
  pose proof (Z.div_mod (bits / 2 ^ 23) 2 ltac:(lia)).
  change (2 ^ 23) with 8388608 in *. split_and!; lia.
Qed.

Lemma big_bits_le t k : 0 <= t -> 0 <= k -> big_bits t <= k <-> t < 2 ^ k.
Proof.
  intros Ht Hk. unfold big_bits. destruct (Z.eqb_spec t 0) as [->|].
  { split; intros; [apply Z.pow_pos_nonneg|]; lia. }
  rewrite Z.log2_lt_pow2 by lia. lia.
Qed.

(** [compact_to_target] in arithmetic. *)
Definition compact_value (exponent mantissa : Z) : Z :=
  if exponent <=? 3 then mantissa / 256 ^ (3 - exponent) else mantissa * 256 ^ (exponent - 3).

Lemma compact_value_shift e m : 0 <= m ->
  (if e <=? 3 then Z.shiftr m (8 * (3 - e)) else Z.shiftl m (8 * (e - 3))) = compact_value e m.
Proof.
  intros. unfold compact_value. destruct (Z.leb_spec e 3).
  - rewrite Z.shiftr_div_pow2 by lia. by rewrite Z.pow_mul_r by lia.
  - rewrite Z.shiftl_mul_pow2 by lia. by rewrite Z.pow_mul_r by lia.
Qed.

Lemma compact_value_nonneg e m : 0 <= m -> 0 <= compact_value e m.
Proof.
  intros. unfold compact_value. destruct (Z.leb_spec e 3);
    [apply Z.div_pos; [lia|apply Z.pow_pos_nonneg; lia]|apply Z.mul_nonneg_nonneg; [lia|apply Z.pow_nonneg; lia]].
Qed.

(** ** Targets as bytes *)

Lemma big_byte_len_spec t : 0 < t < 2 ^ 256 ->
  1 <= big_byte_len t <= 32 /\ 256 ^ (big_byte_len t - 1) <= t < 256 ^ big_byte_len t.
Proof.
  intros [Hp Ht]. unfold big_byte_len, big_bits. destruct (Z.eqb_spec t 0) as [|_]; [lia|].
  pose proof (Z.log2_spec t Hp) as [Hlo Hhi]. pose proof (Z.log2_nonneg t) as H0.
  assert (Hlt : Z.log2 t < 256) by (apply Z.log2_lt_pow2; lia).
  set (k := Z.log2 t) in *. set (n := (k + 1 + 7) / 8).
  assert (Hn : 8 * n <= k + 8 < 8 * n + 8)
    by (subst n; pose proof (Z.div_mod (k + 1 + 7) 8 ltac:(lia)); pose proof (Z.mod_pos_bound (k + 1 + 7) 8 ltac:(lia)); lia).
  split; [lia|]. change 256 with (2 ^ 8). rewrite <- !Z.pow_mul_r by lia. split.
  - eapply Z.le_trans; [|exact Hlo]. apply Z.pow_le_mono_r; lia.
  - eapply Z.lt_le_trans; [exact Hhi|]. apply Z.pow_le_mono_r; lia.
Qed.

Lemma bytes_ok_zeros n : bytes_ok (replicate n 0).
Proof. apply Forall_replicate. width_lia. Qed.

Lemma to_be_bytes_32_spec t : 0 < t < 2 ^ 256 ->
  zlen (to_be_bytes_32 t) = 32 /\ bytes_ok (to_be_bytes_32 t) /\ from_be (to_be_bytes_32 t) = t.
Proof.
  intros Ht. destruct (big_byte_len_spec t Ht) as [Hn [_ Hv]].
  unfold to_be_bytes_32, big_bytes_be, saturating_sub. rewrite zlen_to_be, Z2Nat.id by lia.
  split_and!.
  - rewrite zlen_app, zlen_to_be. unfold zlen. rewrite length_replicate. lia.
  - apply Forall_app. split; [apply bytes_ok_zeros|apply to_be_bytes].
  - rewrite from_be_app, from_be_zeros, from_be_to_be; [lia|]. rewrite Z2Nat.id by lia. lia.
Qed.

Lemma put_zeros_spec (offset : nat) bytes :
  bytes_ok bytes -> (offset + length bytes <= 32)%nat ->
  let out := put_at (replicate 32 0) (Z.of_nat offset) bytes in
  zlen out = 32 /\ bytes_ok out /\
  from_be out = from_be bytes * 256 ^ (32 - Z.of_nat offset - zlen bytes).
Proof.
  intros Hb Hl. cbv zeta. unfold put_at.
  replace (Z.to_nat (Z.of_nat offset + zlen bytes)) with (offset + length bytes)%nat
    by (unfold zlen; lia).
  rewrite Nat2Z.id, take_replicate, drop_replicate, Nat.min_l by lia. split_and!.
  - rewrite !zlen_app. unfold zlen. rewrite !length_replicate. lia.
  - repeat (apply Forall_app; split); [apply bytes_ok_zeros|done|apply bytes_ok_zeros].
  - rewrite !from_be_app, !from_be_zeros. unfold zlen. rewrite length_replicate, Z.add_0_r, Z.mul_0_l, Z.add_0_l.
    do 2 f_equal. lia.
Qed.

Lemma mantissa_bytes m : 0 <= m < 2 ^ 23 ->
  let bytes := [Z.land (Z.shiftr m 16) 255; Z.land (Z.shiftr m 8) 255; Z.land m 255] in
  bytes_ok bytes /\ from_be bytes = m.
Proof.
  intros Hm. cbv zeta. change 255 with (Z.ones 8). rewrite !Z.land_ones, !Z.shiftr_div_pow2 by lia.
  change (2 ^ 23) with 8388608 in *. change (2 ^ 16) with 65536. change (2 ^ 8) with 256.
  split.
  - repeat constructor; pose proof (Z.mod_pos_bound (m / 65536) 256); pose proof (Z.mod_pos_bound (m / 256) 256);
      pose proof (Z.mod_pos_bound m 256); width_lia.
  - change (from_be _) with (((0 * 256 + (m / 65536) mod 256) * 256 + (m / 256) mod 256) * 256 + m mod 256).
    change 65536 with (256 * 256). rewrite <- Z.div_div by lia.
    pose proof (Z.div_mod m 256 ltac:(lia)). pose proof (Z.div_mod (m / 256) 256 ltac:(lia)).
    assert (0 <= m / 256 / 256 < 256).
    { split; [apply Z.div_pos; [apply Z.div_pos|]; lia|].
      rewrite Z.div_div by lia. apply Z.div_lt_upper_bound; lia. }
    rewrite (Z.mod_small (m / 256 / 256)) by lia. lia.
Qed.

(** Which compact words overflow, and the value of the others. *)
Lemma compact_to_target_spec bits :
  in_u32 bits -> Z.land bits 0x00800000 = 0 -> Z.land bits 0x007fffff <> 0 ->
  let e := Z.shiftr bits 24 in let v := compact_value e (Z.land bits 0x007fffff) in
  compact_to_target bits =
    (if v =? 0 then Err ZeroTarget else if 2 ^ 256 <=? v then Err PowOverflow else Ok v) /\
  (e <= 32 -> v < 2 ^ 256).
Proof.
  intros Hb Hneg Hm. cbv zeta. destruct (compact_parts bits Hb Hneg) as (He & Hmr & _).
  unfold compact_to_target. rewrite Hneg. cbn [negb Z.eqb]. rewrite (proj2 (Z.eqb_neq _ _) Hm).
  set (e := Z.shiftr bits 24) in *. set (m := Z.land bits 0x007fffff) in *.
  rewrite compact_value_shift by lia. pose proof (compact_value_nonneg e m ltac:(lia)) as Hnn.
  set (v := compact_value e m) in *. split.
  - destruct (v =? 0); [done|]. destruct (Z.leb_spec (2 ^ 256) v) as [Hle|Hlt].
    + rewrite (proj2 (Z.ltb_lt 256 (big_bits v))); [done|].
      apply Z.nle_gt. intros Hle'. apply big_bits_le in Hle'; lia.
    + rewrite (proj2 (Z.ltb_ge 256 (big_bits v))); [done|]. apply big_bits_le; lia.
  - intros H32. subst v. unfold compact_value. destruct (Z.leb_spec e 3).
    + apply Z.le_lt_trans with m; [|lia].
      apply Z.div_le_upper_bound; [apply Z.pow_pos_nonneg; lia|].
      assert (1 <= 256 ^ (3 - e)) by (apply (Z.pow_le_mono_r 256 0); lia). nia.
    + apply Z.lt_le_trans with (2 ^ 23 * 256 ^ (e - 3)).
      * apply Z.mul_lt_mono_pos_r; [apply Z.pow_pos_nonneg; lia|lia].
      * change 256 with (2 ^ 8) at 1. rewrite <- Z.pow_mul_r, <- Z.pow_add_r by lia.
        apply Z.pow_le_mono_r; lia.
Qed.

(** The byte form of a compact word is its value, wherever it is defined. *)
Lemma target_bytes_spec bits :
  in_u32 bits -> Z.land bits 0x00800000 = 0 -> Z.land bits 0x007fffff <> 0 ->
  let e := Z.shiftr bits 24 in let v := compact_value e (Z.land bits 0x007fffff) in
  match target_bytes_from_compact bits with
  | Ok bytes => zlen bytes = 32 /\ bytes_ok bytes /\ from_be bytes = v /\ v < 2 ^ 256
  | Err err => 32 < e /\ compact_to_target bits = Err err
  end.
Proof.
  intros Hb Hneg Hm. cbv zeta. destruct (compact_parts bits Hb Hneg) as (He & Hmr & _).
  destruct (compact_to_target_spec bits Hb Hneg Hm) as [Hct H32].
  unfold target_bytes_from_compact. rewrite Hneg. cbn [negb Z.eqb]. rewrite (proj2 (Z.eqb_neq _ _) Hm).
  set (e := Z.shiftr bits 24) in *. set (m := Z.land bits 0x007fffff) in *.
  destruct (Z.ltb_spec 32 e).
  - rewrite Hct. pose proof (compact_value_nonneg e m ltac:(lia)).
    destruct (Z.eqb_spec (compact_value e m) 0); [done|].
    destruct (Z.leb_spec (2 ^ 256) (compact_value e m)); [done|]. simpl.
    destruct (to_be_bytes_32_spec (compact_value e m)) as (? & ? & ?); [lia|]. by split_and!.
  - specialize (H32 ltac:(lia)). unfold compact_value in *. destruct (Z.leb_spec e 3).
    + rewrite Z.shiftr_div_pow2, Z.pow_mul_r by lia. change (2 ^ 8) with 256.
      destruct (put_zeros_spec 28 (to_be 4 (m / 256 ^ (3 - e)))) as (H1 & H2 & H3);
        [apply to_be_bytes|by rewrite length_to_be|].
      change (Z.of_nat 28) with 28 in *. split_and!; [done|done| |done].
      rewrite H3, zlen_to_be, from_be_to_be; [simpl; lia|].
      split; [apply Z.div_pos; [lia|apply Z.pow_pos_nonneg; lia]|].
      apply Z.le_lt_trans with m; [|change (256 ^ Z.of_nat 4) with (2 ^ 32); lia].
      apply Z.div_le_upper_bound; [apply Z.pow_pos_nonneg; lia|].
      assert (1 <= 256 ^ (3 - e)) by (apply (Z.pow_le_mono_r 256 0); lia). nia.
    + destruct (mantissa_bytes m Hmr) as [Hmb Hmv]. cbv zeta in Hmb, Hmv.
      remember [Z.land (Z.shiftr m 16) 255; Z.land (Z.shiftr m 8) 255; Z.land m 255] as bs eqn:Ebs.
      assert (Hl3 : length bs = 3%nat) by (by rewrite Ebs). clear Ebs.
      destruct (put_zeros_spec (Z.to_nat (32 - e)) bs Hmb) as (H1 & H2 & H3); [lia|].
      rewrite Z2Nat.id in H1, H2, H3 by lia. split_and!; [exact H1|exact H2| |exact H32].
      rewrite H3, Hmv. do 2 f_equal. unfold zlen. rewrite Hl3. lia.
Qed.

(** The byte-level proof-of-work test is the arithmetic one: a hash passes
    exactly when, read as a big-endian number, it is at most the target of the
    compact word. A word that is negative, has no mantissa or overflows is an
    error; one whose mantissa is shifted out altogether stands for target zero
    here, where [compact_to_target] rejects it. *)
Theorem verify_pow_exact hash bits :
  in_u32 bits -> zlen hash = 32 -> bytes_ok hash ->
  verify_pow hash bits =
  match compact_to_target bits with
  | Ok target => Ok (from_be hash <=? target)
  | Err ZeroTarget =>
      if Z.land bits 0x007fffff =? 0 then Err ZeroTarget else Ok (from_be hash =? 0)
  | Err e => Err e
  end.
Proof.
  intros Hb Hh Hbytes. unfold verify_pow.
  destruct (Z.eqb_spec (Z.land bits 0x00800000) 0) as [Hneg|Hneg].
  2: { unfold target_bytes_from_compact, compact_to_target. by rewrite (proj2 (Z.eqb_neq _ _) Hneg). }
  destruct (Z.eqb_spec (Z.land bits 0x007fffff) 0) as [Hm|Hm].
  { unfold target_bytes_from_compact, compact_to_target. by rewrite Hneg, Hm. }
  pose proof (target_bytes_spec bits Hb Hneg Hm) as Hs. cbv zeta in Hs.
  destruct (compact_to_target_spec bits Hb Hneg Hm) as [Hct H32].
  pose proof (from_be_bound _ Hbytes).
  destruct (target_bytes_from_compact bits) as [bytes|err].
  - destruct Hs as (Hz & Hbb & Hv & Hlt). rewrite Hct.
    rewrite bytes_leb_from_be by (done || (unfold zlen in *; lia)). rewrite Hv.
    destruct (Z.eqb_spec (compact_value (Z.shiftr bits 24) (Z.land bits 0x007fffff)) 0) as [->|].
    + f_equal. apply eq_true_iff_eq. rewrite Z.leb_le, Z.eqb_eq. lia.
    + by rewrite (proj2 (Z.leb_gt (2 ^ 256) _)) by lia.
  - destruct Hs as [He Hcte]. rewrite Hct in *. rewrite Hcte.
    destruct err; try done. destruct (Z.eqb_spec (compact_value (Z.shiftr bits 24) (Z.land bits 0x007fffff)) 0) as [Hz|]; [|by destruct (_ <=? _)].
    exfalso. destruct (compact_parts bits Hb Hneg) as (_ & Hmr & _). unfold compact_value in Hz.
    rewrite (proj2 (Z.leb_gt (Z.shiftr bits 24) 3)) in Hz by lia.
    apply Z.mul_eq_0 in Hz as [Hz|Hz]; [done|]. apply Z.pow_eq_0 in Hz; lia.
Qed.

(** ** Compact encoding *)

(** Exponent and mantissa of a target in normal form. *)
Definition normal (t e m : Z) : Prop :=
  0 <= e /\ 2 ^ 15 <= m < 2 ^ 23 /\
  m = (if e <=? 3 then t * 256 ^ (3 - e) else t / 256 ^ (e - 3)).

(** The magnitude of a target in normal form fixes its exponent. *)
Lemma normal_bounds t e m : 0 < t -> normal t e m ->
  2 ^ 15 * 256 ^ e <= t * 256 ^ 3 < 2 ^ 23 * 256 ^ e.
Proof.
  intros Ht (He & Hm & E). destruct (Z.leb_spec e 3).
  - replace (t * 256 ^ 3) with (m * 256 ^ e).
    + assert (0 < 256 ^ e) by (apply Z.pow_pos_nonneg; lia). nia.
    + rewrite E, <- Z.mul_assoc, <- Z.pow_add_r by lia. do 2 f_equal. lia.
  - assert (Hp : 0 < 256 ^ (e - 3)) by (apply Z.pow_pos_nonneg; lia).
    replace (256 ^ e) with (256 ^ (e - 3) * 256 ^ 3) by (rewrite <- Z.pow_add_r by lia; f_equal; lia).
    pose proof (Z.div_mod t (256 ^ (e - 3)) ltac:(lia)) as Hdm.
    pose proof (Z.mod_pos_bound t (256 ^ (e - 3)) Hp). rewrite <- E in Hdm.
    change (256 ^ 3) with 16777216. nia.
Qed.

Lemma normal_unique t e m e' m' :
  0 < t -> normal t e m -> normal t e' m' -> e = e' /\ m = m'.
Proof.
  intros Ht H1 H2. pose proof (normal_bounds _ _ _ Ht H1) as B1.
  pose proof (normal_bounds _ _ _ Ht H2) as B2.
  destruct H1 as (He & _ & E), H2 as (He' & _ & E').
  assert (Hle : forall a b, 0 <= a -> a < b -> 2 ^ 23 * 256 ^ a <= 2 ^ 15 * 256 ^ b).
  { intros a b Ha Hab. replace (2 ^ 23 * 256 ^ a) with (2 ^ 15 * 256 ^ (a + 1)).
    - apply Z.mul_le_mono_nonneg_l; [lia|]. apply Z.pow_le_mono_r; lia.
    - rewrite Z.pow_add_r by lia. change (2 ^ 23) with (2 ^ 15 * 256). change (256 ^ 1) with 256. lia. }
  assert (e = e') as <-; [|split; [done|congruence]].
  destruct (Z.lt_trichotomy e e') as [Hlt|[Heq|Hlt]]; [|done|];
    [specialize (Hle e e' He Hlt)|specialize (Hle e' e He' Hlt)]; lia.
Qed.

Lemma land_bit23 m : 0 <= m < 2 ^ 24 -> Z.land m 0x00800000 = 0 <-> m < 2 ^ 23.
Proof.
  intros Hm. change 0x00800000 with (2 ^ 23).
  assert (Hbit : Z.testbit m 23 = (2 ^ 23 <=? m)).
  { pose proof (Z.testbit_spec' m 23 ltac:(lia)) as Hb. destruct (Z.leb_spec (2 ^ 23) m).
    - replace (m / 2 ^ 23) with 1 in Hb by (apply Z.div_unique with (m - 2 ^ 23); lia).
      by destruct (Z.testbit m 23).
    - rewrite Z.div_small in Hb by lia. by destruct (Z.testbit m 23). }
  split.
  - intros E. apply Z.leb_gt. rewrite <- Hbit.
    assert (Hc : Z.testbit (Z.land m (2 ^ 23)) 23 = false) by (rewrite E; apply Z.bits_0).
    by rewrite Z.land_spec, Z.pow2_bits_true, andb_true_r in Hc by lia.
  - intros Hlt. apply Z.bits_inj_0. intros n. rewrite Z.land_spec.
    destruct (decide (n = 23)) as [->|]; [|by rewrite Z.pow2_bits_false, andb_false_r by lia].
    by rewrite Hbit, (proj2 (Z.leb_gt _ _) Hlt).
Qed.

Lemma lor_shift_add e m : 0 <= e -> 0 <= m < 2 ^ 24 -> Z.lor (Z.shiftl e 24) m = e * 2 ^ 24 + m.
Proof. intros. by apply lor_shift. Qed.

Lemma div_pow_256 t a : 0 <= t -> 0 <= a -> t / 256 ^ a / 256 = t / 256 ^ (a + 1).
Proof.
  intros. assert (0 < 256 ^ a) by (apply Z.pow_pos_nonneg; lia).
  rewrite Z.div_div, Z.pow_add_r by lia. done.
Qed.

Lemma target_to_compact_normal t : 0 < t < 2 ^ 256 ->
  exists e m, normal t e m /\ 1 <= e <= 33 /\ target_to_compact t = e * 2 ^ 24 + m.
Proof.
  intros Ht. destruct (big_byte_len_spec t Ht) as [Hn Hb]. unfold target_to_compact.
  rewrite (proj2 (Z.eqb_neq t 0)) by lia. unfold big_bytes_be. rewrite zlen_to_be, Z2Nat.id by lia.
  set (n := big_byte_len t) in *.
  set (m0 := if n <=? 3 then t * 256 ^ (3 - n) else t / 256 ^ (n - 3)).
  assert (Hm0 : 2 ^ 16 <= m0 < 2 ^ 24).
  { subst m0. change (2 ^ 16) with (256 ^ 2). change (2 ^ 24) with (256 ^ 3). destruct (Z.leb_spec n 3).
    - replace (256 ^ 2) with (256 ^ (n - 1) * 256 ^ (3 - n)) by (rewrite <- Z.pow_add_r by lia; f_equal; lia).
      replace (256 ^ 3) with (256 ^ n * 256 ^ (3 - n)) by (rewrite <- Z.pow_add_r by lia; f_equal; lia).
      assert (0 < 256 ^ (3 - n)) by (apply Z.pow_pos_nonneg; lia). nia.
    - assert (0 < 256 ^ (n - 3)) by (apply Z.pow_pos_nonneg; lia). split.
      + apply Z.div_le_lower_bound; [done|]. rewrite <- Z.pow_add_r by lia.
        replace (n - 3 + 2) with (n - 1) by lia. apply Hb.
      + apply Z.div_lt_upper_bound; [done|]. rewrite <- Z.pow_add_r by lia.
        replace (n - 3 + 3) with n by lia. apply Hb. }
  assert (Hcode : (if n <=? 3 then shl_u32 t (8 * (3 - n)) else Z.shiftr t (8 * (n - 3))) = m0).
  { subst m0. unfold shl_u32. destruct (Z.leb_spec n 3).
    - rewrite Z.shiftl_mul_pow2, Z.pow_mul_r by lia. apply Z.mod_small. change (2 ^ 8) with 256. lia.
    - by rewrite Z.shiftr_div_pow2, Z.pow_mul_r by lia. }
  rewrite Hcode. unfold shl_u32. pose proof (land_bit23 m0 ltac:(lia)) as Hbit.
  assert (Hsh : forall e, 0 <= e <= 33 -> Z.shiftl e 24 mod 2 ^ 32 = Z.shiftl e 24)
    by (intros; apply Z.mod_small; rewrite Z.shiftl_mul_pow2 by lia; lia).
  destruct (Z.eqb_spec (Z.land m0 0x00800000) 0) as [E|E]; cbn [negb]; rewrite Hsh by lia.
  - apply Hbit in E. exists n, m0. rewrite lor_shift_add by lia. split_and!; try lia.
    subst m0. unfold normal. split_and!; try lia.
  - assert (Hge : 2 ^ 23 <= m0) by (destruct (Z.lt_ge_cases m0 (2 ^ 23)) as [Hlt|]; [by apply Hbit in Hlt|done]).
    rewrite Z.shiftr_div_pow2 by lia. change (2 ^ 8) with 256.
    assert (Hm : 2 ^ 15 <= m0 / 256 < 2 ^ 16).
    { split; [apply Z.div_le_lower_bound|apply Z.div_lt_upper_bound]; lia. }
    exists (n + 1), (m0 / 256). rewrite lor_shift_add by lia. split_and!; try lia.
    unfold normal. split_and!; try lia. subst m0. destruct (Z.leb_spec n 3).
    + destruct (Z.leb_spec (n + 1) 3).
      * replace (3 - n) with (3 - (n + 1) + 1) by lia.
        rewrite Z.pow_add_r, Z.mul_assoc by lia. by rewrite Z.div_mul by lia.
      * assert (n = 3) as -> by lia. simpl. by rewrite Z.mul_1_r.
    + rewrite (proj2 (Z.leb_gt _ _)) by lia. rewrite div_pow_256 by lia. do 2 f_equal. lia.
Qed.

(** Decoding a word in normal form. *)
Lemma compact_to_target_normal t e m : 0 < t < 2 ^ 256 -> normal t e m -> e <= 33 ->
  let t' := if e <=? 3 then t else t / 256 ^ (e - 3) * 256 ^ (e - 3) in
  in_u32 (e * 2 ^ 24 + m) /\ compact_to_target (e * 2 ^ 24 + m) = Ok t' /\
  0 < t' <= t /\ (t - t') * 2 ^ 15 < t /\ normal t' e m.
Proof.
  intros Ht (He & Hm & E) He33. cbv zeta. set (bits := e * 2 ^ 24 + m).
  assert (Hb : in_u32 bits) by (subst bits; width; lia).
  assert (Hmant : bits mod 2 ^ 23 = m).
  { subst bits. change (2 ^ 24) with (2 * 2 ^ 23). rewrite Z.mul_assoc, Z.add_comm, Z.mod_add by lia.
    apply Z.mod_small. lia. }
  assert (Hexp : Z.shiftr bits 24 = e).
  { rewrite Z.shiftr_div_pow2 by lia. subst bits. rewrite Z.div_add_l, Z.div_small by lia. lia. }
  assert (Hneg : Z.land bits 0x00800000 = 0).
  { subst bits. rewrite <- lor_shift_add by lia. rewrite Z.land_lor_distr_l.
    rewrite (proj2 (land_bit23 m ltac:(lia))) by lia. rewrite Z.lor_0_r.
    apply Z.bits_inj_0. intros i. rewrite Z.land_spec. change 0x00800000 with (2 ^ 23).
    destruct (decide (i = 23)) as [->|]; [by rewrite Z.shiftl_spec_low|].
    by rewrite Z.pow2_bits_false, andb_false_r by lia. }
  assert (Hland : Z.land bits 0x007fffff = m).
  { change 0x007fffff with (Z.ones 23). by rewrite Z.land_ones by lia. }
  assert (Hval : compact_value e m = if e <=? 3 then t else t / 256 ^ (e - 3) * 256 ^ (e - 3)).
  { unfold compact_value. rewrite E. destruct (e <=? 3) eqn:E3; breflect; [|done].
    apply Z.div_mul. assert (0 < 256 ^ (3 - e)) by (apply Z.pow_pos_nonneg; lia). lia. }
  assert (Hfacts : 0 < compact_value e m <= t /\ (t - compact_value e m) * 2 ^ 15 < t /\
                   normal (compact_value e m) e m).
  { rewrite Hval. destruct (Z.leb_spec e 3) as [|Hgt].
    - split_and!; try lia. unfold normal. split_and!; try lia. rewrite E, (proj2 (Z.leb_le _ _)) by lia. done.
    - assert (Hp : 0 < 256 ^ (e - 3)) by (apply Z.pow_pos_nonneg; lia).
      pose proof (Z.div_mod t (256 ^ (e - 3)) ltac:(lia)) as Hdm.
      pose proof (Z.mod_pos_bound t (256 ^ (e - 3)) Hp). rewrite <- E in *.
      split_and!; try nia. unfold normal. split_and!; try lia.
      rewrite (proj2 (Z.leb_gt _ _)) by lia. rewrite E at 1. rewrite Z.div_mul by lia. by rewrite <- E. }
  rewrite <- Hval. destruct Hfacts as (Hpos & Hrel & Hnorm). split_and!; try done; try apply Hpos.
  destruct (compact_to_target_spec bits Hb Hneg ltac:(rewrite Hland; lia)) as [-> _].
  rewrite Hexp, Hland. rewrite (proj2 (Z.eqb_neq _ _)) by lia.
  by rewrite (proj2 (Z.leb_gt _ _)) by lia.
Qed.

(** Compact encoding truncates: every target in range encodes to a 32-bit
    word that decodes to a target not above it and less than one part in 2^15
    below, and encoding that target again gives the same word. *)
Theorem compact_encoding_truncates t :
  0 < t < 2 ^ 256 ->
  in_u32 (target_to_compact t) /\
  exists t', compact_to_target (target_to_compact t) = Ok t' /\ 0 < t' <= t /\
    (t - t') * 2 ^ 15 < t /\ target_to_compact t' = target_to_compact t.
Proof.
  intros Ht. destruct (target_to_compact_normal t Ht) as (e & m & Hn & He & ->).
  destruct (compact_to_target_normal t e m Ht Hn ltac:(lia)) as (Hu & Hc & Hle & Hrel & Hn').
  split; [done|]. eexists. split; [exact Hc|]. split_and!; [lia|lia|done|].
  set (t' := if e <=? 3 then t else _) in *.
  destruct (target_to_compact_normal t' ltac:(lia)) as (e' & m' & Hn2 & _ & ->).
  by destruct (normal_unique t' e m e' m' ltac:(lia) Hn' Hn2) as [-> ->].
Qed.

Lemma compact_encoding_truncates_witness :
  target_to_compact (0xffff * 256 ^ 25 + 12345) = 0x1c00ffff /\
  compact_to_target 0x1c00ffff = Ok (0xffff * 256 ^ 25).
Proof.
  destruct (compact_encoding_truncates (0xffff * 256 ^ 25 + 12345)) as (_ & t' & Hc & _).
  { split; vm_compute; reflexivity. }
  split; [vm_compute; reflexivity|]. vm_compute in Hc |- *. reflexivity.
Defined.

Lemma verify_pow_exact_witness :
  verify_pow (to_be 32 (0xffff * 256 ^ 25)) 0x1c00ffff = Ok true /\
  verify_pow (to_be 32 (0xffff * 256 ^ 25 + 1)) 0x1c00ffff = Ok false.
Proof.
  split.
  - rewrite (verify_pow_exact (to_be 32 (0xffff * 256 ^ 25)) 0x1c00ffff);
      [vm_compute; reflexivity|width_lia|apply zlen_to_be|apply to_be_bytes].
  - rewrite (verify_pow_exact (to_be 32 (0xffff * 256 ^ 25 + 1)) 0x1c00ffff);
      [vm_compute; reflexivity|width_lia|apply zlen_to_be|apply to_be_bytes].
Defined.
