(* ===== verification/PrimHeader.v ===== *)
(** * Block headers and networks

    Models [src/crates/hns-browser-primitives/src/bytes.rs], [header.rs] and
    [network.rs]: the bounds-checked reader, the 236-byte header codec, the
    masked proof-of-work hash, and the parameters of the three networks. A hash
    given in hexadecimal is its 32 big-endian bytes. *)

From S2P Require Import Prelude PrimHash PrimPow.

(** ** The reader *)

Inductive ParseError :=
| UnexpectedEof | TrailingBytes | LengthLimit | InvalidDnsLabel | InvalidDnsPointer | InvalidSvcb.

Record Reader := { rd_data : list Z; rd_offset : Z }.

Definition rd_new (data : list Z) : Reader := {| rd_data := data; rd_offset := 0 |}.
Definition rd_remaining (r : Reader) : Z := saturating_sub (zlen (rd_data r)) (rd_offset r).
Definition ensure_finished (r : Reader) : result ParseError unit :=
  if rd_remaining r =? 0 then Ok tt else Err TrailingBytes.

(** [Reader::read_bytes]; the slice is in range when [end <= len]. *)
Definition rd_read_bytes (len : Z) (r : Reader) : result ParseError (list Z * Reader) :=
  let? stop := ok_or (checked_add (rd_offset r) len) LengthLimit in
  if zlen (rd_data r) <? stop then Err UnexpectedEof else
  Ok (take (Z.to_nat len) (drop (Z.to_nat (rd_offset r)) (rd_data r)),
      {| rd_data := rd_data r; rd_offset := stop |}).

(** [Reader::read_array] and the fixed-width integers. *)
Definition rd_read_array (N : Z) (r : Reader) : result ParseError (list Z * Reader) :=
  rd_read_bytes N r.
Definition rd_read_le (N : Z) (r : Reader) : result ParseError (Z * Reader) :=
  let? (bytes, r) := rd_read_array N r in Ok (from_be (reverse bytes), r).
Definition rd_read_be (N : Z) (r : Reader) : result ParseError (Z * Reader) :=
  let? (bytes, r) := rd_read_array N r in Ok (from_be bytes, r).

(** ** Headers *)

Definition HEADER_SIZE : Z := 236.
Definition EXTRA_NONCE_SIZE : Z := 24.

Record BlockHeader := {
  h_nonce : Z;
  h_time : Z;
  h_prev_block : Hash;
  h_tree_root : Hash;
  h_extra_nonce : list Z;
  h_reserved_root : Hash;
  h_witness_root : Hash;
  h_merkle_root : Hash;
  h_version : Z;
  h_bits : Z;
  h_mask : Hash }.

(** [BlockHeader::parse]. *)
Definition block_header_parse (data : list Z) : result ParseError BlockHeader :=
  if negb (zlen data =? HEADER_SIZE) then Err UnexpectedEof else
  let? (nonce, r) := rd_read_le 4 (rd_new data) in
  let? (time, r) := rd_read_le 8 r in
  let? (prev_block, r) := rd_read_array 32 r in
  let? (tree_root, r) := rd_read_array 32 r in
  let? (extra_nonce, r) := rd_read_array EXTRA_NONCE_SIZE r in
  let? (reserved_root, r) := rd_read_array 32 r in
  let? (witness_root, r) := rd_read_array 32 r in
  let? (merkle_root, r) := rd_read_array 32 r in
  let? (version, r) := rd_read_le 4 r in
  let? (bits, r) := rd_read_le 4 r in
  let? (mask, r) := rd_read_array 32 r in
  let? _ := ensure_finished r in
  Ok {| h_nonce := nonce; h_time := time; h_prev_block := prev_block; h_tree_root := tree_root;
        h_extra_nonce := extra_nonce; h_reserved_root := reserved_root;
        h_witness_root := witness_root; h_merkle_root := merkle_root; h_version := version;
        h_bits := bits; h_mask := mask |}.

(** [to_le_bytes]. *)
Definition to_le (n : nat) (v : Z) : list Z := reverse (to_be n v).

(** [write_bytes]: the buffer and the offset afterwards. *)
Definition write_bytes (st : list Z * Z) (bytes : list Z) : list Z * Z :=
  let '(out, offset) := st in
  (put_at out offset bytes, offset + zlen bytes).

(** A buffer of zeros, filled by successive writes. *)
Definition write_all (size : nat) (fields : list (list Z)) : list Z :=
  fst (fold_left write_bytes fields (replicate size 0, 0)).

(** [BlockHeader::serialize]. *)
Definition header_serialize (h : BlockHeader) : list Z :=
  write_all (Z.to_nat HEADER_SIZE)
    [to_le 4 (h_nonce h); to_le 8 (h_time h); h_prev_block h; h_tree_root h; h_extra_nonce h;
     h_reserved_root h; h_witness_root h; h_merkle_root h; to_le 4 (h_version h);
     to_le 4 (h_bits h); h_mask h].

(** [BlockHeader::to_subhead]. *)
Definition to_subhead (h : BlockHeader) : list Z :=
  write_all 128 [h_extra_nonce h; h_reserved_root h; h_witness_root h; h_merkle_root h;
    to_le 4 (h_version h); to_le 4 (h_bits h)].

(** [u8 ^ u8]. *)
Definition xor_u8 (a b : Z) : Z := Z.lxor a b.

(** [BlockHeader::padding]: byte [i] of the cyclic previous block and tree root. *)
Definition padding (h : BlockHeader) (N : nat) : list Z :=
  map (fun index => xor_u8 (default 0 (h_prev_block h !! (index mod 32)%nat))
                           (default 0 (h_tree_root h !! (index mod 32)%nat))) (seq 0 N).

Section header_hash.
Context `{Hashers}.

Definition sub_hash (h : BlockHeader) : Hash := blake2b_256 [to_subhead h].
Definition mask_hash (h : BlockHeader) : Hash := blake2b_256 [h_prev_block h; h_mask h].
Definition commit_hash (h : BlockHeader) : Hash := blake2b_256 [sub_hash h; mask_hash h].

(** [BlockHeader::to_prehead]. *)
Definition to_prehead (h : BlockHeader) : list Z :=
  write_all 128 [to_le 4 (h_nonce h); to_le 8 (h_time h); padding h 20; h_prev_block h;
    h_tree_root h; commit_hash h].

Definition share_hash (h : BlockHeader) : Hash :=
  let prehead := to_prehead h in
  let lhs := blake2b_512 [prehead] in
  let rhs := sha3_256 [prehead; padding h 8] in
  blake2b_256 [lhs; padding h 32; rhs].

(** [BlockHeader::pow_hash] and [BlockHeader::hash]. *)
Definition pow_hash (h : BlockHeader) : Hash := zip_with xor_u8 (share_hash h) (h_mask h).
Definition header_hash (h : BlockHeader) : Hash := pow_hash h.
End header_hash.

(** ** Networks *)

Inductive NetworkKind := Mainnet | Testnet | Regtest.

Definition genesis_witness_root : Hash :=
  to_be 32 0x1a2c60b9439206938f8d7823782abdb8b211a57431e9c9b6a6365d8d42893351.
Definition genesis_merkle_root : Hash :=
  to_be 32 0x8e4c9756fef2ad10375f360e0560fcc7587eb5223ddf8cd7c7e06e60a1140b15.

(** [BlockHeader::genesis_template], [mainnet_genesis], [testnet_genesis],
    [regtest_genesis]. *)
Definition genesis_with (time bits : Z) : BlockHeader :=
  {| h_nonce := 0; h_time := time; h_prev_block := hash_ZERO; h_tree_root := hash_ZERO;
     h_extra_nonce := replicate 24 0; h_reserved_root := hash_ZERO;
     h_witness_root := genesis_witness_root; h_merkle_root := genesis_merkle_root;
     h_version := 0; h_bits := bits; h_mask := hash_ZERO |}.
Definition genesis_template : BlockHeader := genesis_with 1580745078 0x1c00ffff.
Definition genesis_for_network (network : NetworkKind) : BlockHeader :=
  match network with
  | Mainnet => genesis_with 1580745078 0x1c00ffff
  | Testnet => genesis_with 1580745079 0x1d00ffff
  | Regtest => genesis_with 1580745080 0x207fffff
  end.

(** [mainnet], [testnet] and [regtest]: the numeric parameters. *)
Record NetworkParams := {
  np_magic : Z; np_port : Z; np_brontide_port : Z; np_pow_bits : Z; np_pow_limit : Z;
  np_genesis_hash : Hash }.
Definition network_params (network : NetworkKind) : NetworkParams :=
  match network with
  | Mainnet => {| np_magic := 1533997779; np_port := 12038; np_brontide_port := 44806;
      np_pow_bits := 0x1c00ffff;
      np_pow_limit := 0x0000000000ffff00000000000000000000000000000000000000000000000000;
      np_genesis_hash := to_be 32 0x5b6ef2d3c1f3cdcadfd9a030ba1811efdd17740f14e166489760741d075992e0 |}
  | Testnet => {| np_magic := 2974944722; np_port := 13038; np_brontide_port := 45806;
      np_pow_bits := 0x1d00ffff;
      np_pow_limit := 0x00000000ffff0000000000000000000000000000000000000000000000000000;
      np_genesis_hash := to_be 32 0xb1520dd24372f82ec94ebf8cf9d9b037d419c4aa3575d05dec70aedd1b427901 |}
  | Regtest => {| np_magic := 2922943951; np_port := 14038; np_brontide_port := 46806;
      np_pow_bits := 0x207fffff;
      np_pow_limit := 0x7fffff0000000000000000000000000000000000000000000000000000000000;
      np_genesis_hash := to_be 32 0xae3895cf597eff05b19e02a70ceeeecb9dc72dbfe6504a50e9343a72f06a87c5 |}
  end.

(** The hexadecimal limit of each network is the target of its compact bits, and
    its genesis header carries those bits. *)
Lemma network_limits_agree network :
  compact_to_target (np_pow_bits (network_params network)) = Ok (np_pow_limit (network_params network)) /\
  h_bits (genesis_for_network network) = np_pow_bits (network_params network).
Proof. destruct network; split; vm_compute; reflexivity. Qed.

(** ** The codec *)

(** Fields have the widths of their types. *)
Record header_typed (h : BlockHeader) : Prop := {
  ht_nonce : in_u32 (h_nonce h); ht_time : in_u64 (h_time h);
  ht_version : in_u32 (h_version h); ht_bits : in_u32 (h_bits h);
  ht_prev : zlen (h_prev_block h) = 32; ht_tree : zlen (h_tree_root h) = 32;
  ht_extra : zlen (h_extra_nonce h) = 24; ht_reserved : zlen (h_reserved_root h) = 32;
  ht_witness : zlen (h_witness_root h) = 32; ht_merkle : zlen (h_merkle_root h) = 32;
  ht_mask : zlen (h_mask h) = 32 }.

(** Writes that fill the buffer leave no zero byte behind: the result is their
    concatenation. *)
Lemma write_step out pre zeros bytes :
  out = pre ++ replicate zeros 0 -> (length bytes <= zeros)%nat ->
  write_bytes (out, zlen pre) bytes
  = ((pre ++ bytes) ++ replicate (zeros - length bytes) 0, zlen (pre ++ bytes)).
Proof.
  intros -> Hl. unfold write_bytes, put_at. rewrite zlen_app. f_equal.
  replace (Z.to_nat (zlen pre)) with (length pre) by (unfold zlen; lia).
  replace (Z.to_nat (zlen pre + zlen bytes)) with (length pre + length bytes)%nat by (unfold zlen; lia).
  rewrite take_app_length, <- app_assoc. do 2 f_equal.
  rewrite <- drop_drop, drop_app_length, drop_replicate. done.
Qed.

Lemma write_all_concat size fields :
  length (concat fields) = size -> write_all size fields = concat fields.
Proof.
  intros Hs. unfold write_all.
  assert (Hgo : forall pre zeros, zeros = length (concat fields) ->
    fold_left write_bytes fields (pre ++ replicate zeros 0, zlen pre)
    = (pre ++ concat fields, zlen (pre ++ concat fields))).
  { clear Hs. induction fields as [|f fields IH]; intros pre zeros ->.
    { cbn [concat fold_left]. by rewrite !app_nil_r. }
    cbn [concat fold_left]. rewrite length_app. erewrite write_step; [|done|lia].
    replace (length f + length (concat fields) - length f)%nat with (length (concat fields)) by lia.
    rewrite IH by done. by rewrite <- !app_assoc. }
  subst size. apply (f_equal fst (Hgo [] _ eq_refl)).
Qed.

#[export] Instance header_pos_reader : PosReader Reader :=
  {| reader_input := rd_data; reader_pos := rd_offset |}.

Lemma read_array_back N x : zlen x = N -> reads_back (rd_read_array N) x x.
Proof.
  intros <- r pre post (Hin & Hpos & Hmax). simpl in Hin, Hpos. rewrite !zlen_app in Hmax.
  pose proof (zlen_nonneg pre). pose proof (zlen_nonneg x). pose proof (zlen_nonneg post).
  unfold rd_read_array, rd_read_bytes, checked_add. rewrite Hin, Hpos, !zlen_app.
  rewrite (proj2 (Z.leb_le (zlen pre + zlen x) u64_max)) by lia. cbn [ok_or].
  rewrite (proj2 (Z.ltb_ge _ _)) by lia. unfold zlen. rewrite !Nat2Z.id, drop_app_length, take_app_length.
  eexists. split; [done|]. unfold standing. cbn.
  rewrite <- app_assoc, !zlen_app. unfold zlen in *. repeat split; lia.
Qed.

Lemma read_le_back N x : zlen x = N -> reads_back (rd_read_le N) x (from_be (reverse x)).
Proof. intros. unfold rd_read_le. by apply (reads_last (rd_read_array N) (fun b => from_be (reverse b))), read_array_back. Qed.

(** What [block_header_parse] makes of eleven fields laid end to end. *)
Definition header_of_fields (x1 x2 x3 x4 x5 x6 x7 x8 x9 x10 x11 : list Z) : BlockHeader :=
  {| h_nonce := from_be (reverse x1); h_time := from_be (reverse x2); h_prev_block := x3;
     h_tree_root := x4; h_extra_nonce := x5; h_reserved_root := x6; h_witness_root := x7;
     h_merkle_root := x8; h_version := from_be (reverse x9); h_bits := from_be (reverse x10);
     h_mask := x11 |}.

(** Consume one field from the [standing] hypothesis. *)
Ltac read_field L :=
  match goal with Hs : standing _ _ _ |- _ => apply L in Hs as (? & -> & Hs); cbn [ok_or] end.

Lemma header_parse_fields x1 x2 x3 x4 x5 x6 x7 x8 x9 x10 x11 :
  map zlen [x1; x2; x3; x4; x5; x6; x7; x8; x9; x10; x11] = [4; 8; 32; 32; 24; 32; 32; 32; 4; 4; 32] ->
  block_header_parse (concat [x1; x2; x3; x4; x5; x6; x7; x8; x9; x10; x11])
  = Ok (header_of_fields x1 x2 x3 x4 x5 x6 x7 x8 x9 x10 x11).
Proof.
  cbn [map]. intros [= H1 H2 H3 H4 H5 H6 H7 H8 H9 H10 H11].
  set (data := concat _).
  assert (Hd : zlen data = 236) by (unfold data; cbn [concat]; rewrite !zlen_app, zlen_nil; lia).
  unfold block_header_parse. change EXTRA_NONCE_SIZE with 24. rewrite Hd. cbn [negb Z.eqb HEADER_SIZE Pos.eqb].
  assert (Hs : standing (rd_new data) [] (data ++ [])).
  { unfold standing. cbn [reader_input header_pos_reader rd_new rd_data reader_pos rd_offset].
    rewrite !app_nil_r, app_nil_l, Hd. done. }
  revert Hs. unfold data at 2. cbn [concat]. rewrite <- !app_assoc. intros Hs.
  read_field (read_le_back 4 _ H1).
  read_field (read_le_back 8 _ H2).
  read_field (read_array_back 32 _ H3).
  read_field (read_array_back 32 _ H4).
  read_field (read_array_back 24 _ H5).
  read_field (read_array_back 32 _ H6).
  read_field (read_array_back 32 _ H7).
  read_field (read_array_back 32 _ H8).
  read_field (read_le_back 4 _ H9).
  read_field (read_le_back 4 _ H10).
  apply (read_array_back 32 _ H11) in Hs as (r11 & -> & Hin & Hpos & _). cbn [ok_or].
  unfold ensure_finished, rd_remaining, saturating_sub. cbn in Hin, Hpos. rewrite Hin, Hpos.
  rewrite !app_nil_r, Z.sub_diag. done.
Qed.

(** The fields [header_serialize] writes, and their widths. *)
Definition header_fields (h : BlockHeader) : list (list Z) :=
  [to_le 4 (h_nonce h); to_le 8 (h_time h); h_prev_block h; h_tree_root h; h_extra_nonce h;
   h_reserved_root h; h_witness_root h; h_merkle_root h; to_le 4 (h_version h);
   to_le 4 (h_bits h); h_mask h].

Lemma zlen_to_le n v : zlen (to_le n v) = Z.of_nat n.
Proof. unfold to_le, zlen. rewrite length_reverse. apply zlen_to_be. Qed.

Lemma header_fields_widths h :
  header_typed h -> map zlen (header_fields h) = [4; 8; 32; 32; 24; 32; 32; 32; 4; 4; 32].
Proof. intros []. cbn [map header_fields]. rewrite !zlen_to_le.
  change (Z.of_nat 4) with 4. change (Z.of_nat 8) with 8. congruence.
Qed.

Lemma length_concat_zlen {A} (ls : list (list A)) : zlen (concat ls) = foldr Z.add 0 (map zlen ls).
Proof. induction ls as [|l ls IH]; [done|]. cbn [concat map foldr]. by rewrite zlen_app, IH. Qed.

Lemma header_serialize_concat h : header_typed h -> header_serialize h = concat (header_fields h).
Proof.
  intros Ht. apply write_all_concat. pose proof (length_concat_zlen (header_fields h)) as Hl.
  rewrite (header_fields_widths _ Ht) in Hl. apply Nat2Z.inj. exact Hl.
Qed.

Lemma from_to_le n v : 0 <= v < 256 ^ Z.of_nat n -> from_be (reverse (to_le n v)) = v.
Proof. intros. unfold to_le. rewrite reverse_involutive. by apply from_be_to_be. Qed.

(** The fields a header writes are read as that header. *)
Lemma header_of_own_fields h :
  header_typed h ->
  header_of_fields (to_le 4 (h_nonce h)) (to_le 8 (h_time h)) (h_prev_block h) (h_tree_root h)
    (h_extra_nonce h) (h_reserved_root h) (h_witness_root h) (h_merkle_root h)
    (to_le 4 (h_version h)) (to_le 4 (h_bits h)) (h_mask h) = h.
Proof.
  intros []. unfold header_of_fields. rewrite !from_to_le; [by destruct h|..];
    unfold in_u32, in_u64, u32_max, u64_max in *; lia.
Qed.

Lemma to_from_le l n : bytes_ok l -> length l = n -> to_le n (from_be (reverse l)) = l.
Proof.
  intros Hb <-. unfold to_le. rewrite <- (length_reverse l), to_be_from_be.
  - apply reverse_involutive.
  - unfold bytes_ok. by apply Forall_reverse.
Qed.

(** 236 bytes are eleven fields laid end to end. *)
Lemma split_fields {A} (widths : list Z) (data : list A) :
  Forall (fun w => 0 <= w) widths -> zlen data = foldr Z.add 0 widths ->
  exists pieces, map zlen pieces = widths /\ concat pieces = data.
Proof.
  intros Hw. revert data. induction Hw as [|w widths Hw Hws IH]; intros data Hd; cbn [foldr] in Hd.
  - exists []. split; [done|]. symmetry. apply nil_length_inv. unfold zlen in Hd. lia.
  - assert (0 <= foldr Z.add 0 widths) by (clear -Hws; induction Hws; simpl; lia).
    destruct (IH (drop (Z.to_nat w) data)) as (ps & <- & Hc).
    { unfold zlen in *. rewrite length_drop. lia. }
    exists (take (Z.to_nat w) data :: ps). cbn [map concat]. rewrite Hc, take_drop. split; [|done].
    f_equal. unfold zlen in *. rewrite length_take. lia.
Qed.

Lemma from_be_reverse_range l : bytes_ok l -> 0 <= from_be (reverse l) < 256 ^ zlen l.
Proof.
  intros Hb. unfold zlen. rewrite <- (length_reverse l). apply from_be_bound. unfold bytes_ok. by apply Forall_reverse.
Qed.

Lemma parse_fields_of data :
  bytes_ok data -> zlen data = HEADER_SIZE ->
  exists parsed, block_header_parse data = Ok parsed /\ header_typed parsed /\ header_serialize parsed = data.
Proof.
  intros Hb Hd. destruct (split_fields [4; 8; 32; 32; 24; 32; 32; 32; 4; 4; 32] data)
    as (ps & Hw & Hc); [repeat constructor; lia|done|].
  do 11 (destruct ps as [|? ps]; [done|]). destruct ps; [|done].
  pose proof Hw as Hparse. apply header_parse_fields in Hparse. rewrite Hc in Hparse.
  eexists. split; [exact Hparse|].
  rewrite <- Hc in Hb. cbn [concat] in Hb. unfold bytes_ok in Hb. rewrite !Forall_app in Hb.
  cbn [map] in Hw. injection Hw as H1 H2 H3 H4 H5 H6 H7 H8 H9 H10 H11.
  destruct_and! Hb.
  assert (Ht : header_typed (header_of_fields l l0 l1 l2 l3 l4 l5 l6 l7 l8 l9)).
  { split; cbn; try done; unfold in_u32, in_u64;
      match goal with |- 0 <= from_be (reverse ?x) <= _ =>
        pose proof (from_be_reverse_range x ltac:(done)) as Hr end;
      rewrite ?H1, ?H2, ?H9, ?H10 in Hr; unfold u32_max, u64_max; lia. }
  split; [done|]. rewrite (header_serialize_concat _ Ht), <- Hc.
  unfold header_fields, header_of_fields; cbn [h_nonce h_time h_version h_bits h_prev_block h_tree_root
    h_extra_nonce h_reserved_root h_witness_root h_merkle_root h_mask].
  rewrite !to_from_le; try done; unfold zlen in *; lia.
Qed.

(** Block headers are exactly 236 bytes: every header with fields of the right
    widths serialises to 236 bytes which parse back to it, and every 236 bytes
    parse to such a header, whose serialisation is those bytes. *)
Theorem header_codec_exact h data :
  header_typed h -> bytes_ok data ->
  (zlen (header_serialize h) = HEADER_SIZE /\ block_header_parse (header_serialize h) = Ok h) /\
  (is_ok (block_header_parse data) = true <-> zlen data = HEADER_SIZE) /\
  (forall parsed, block_header_parse data = Ok parsed ->
     header_typed parsed /\ header_serialize parsed = data).
Proof.
  intros Ht Hb. split.
  { pose proof (header_fields_widths _ Ht) as Hw. rewrite (header_serialize_concat _ Ht).
    rewrite length_concat_zlen, Hw. split; [done|].
    unfold header_fields. rewrite (header_parse_fields _ _ _ _ _ _ _ _ _ _ _ Hw).
    by rewrite header_of_own_fields. }
  assert (Hall : zlen data = HEADER_SIZE -> exists parsed, block_header_parse data = Ok parsed /\
    header_typed parsed /\ header_serialize parsed = data).
  { intros Hd. destruct (parse_fields_of data Hb Hd) as (parsed & H). by exists parsed. }
  assert (Hlen : is_ok (block_header_parse data) = true -> zlen data = HEADER_SIZE).
  { unfold block_header_parse. destruct (zlen data =? HEADER_SIZE) eqn:E; [|done]. by apply Z.eqb_eq in E. }
  split.
  - split; [done|]. intros Hd. by destruct (Hall Hd) as (p & -> & _).
  - intros parsed Hp. destruct Hall as (p & Hp' & H); [apply Hlen; by rewrite Hp|].
    rewrite Hp in Hp'. by injection Hp' as <-.
Qed.

Lemma header_codec_exact_witness :
  is_ok (block_header_parse (header_serialize genesis_template)) = true /\
  header_typed genesis_template /\ bytes_ok (replicate 236 7) /\
  (forall parsed, block_header_parse (replicate 236 7) = Ok parsed -> header_serialize parsed = replicate 236 7).
Proof.
  assert (Ht : header_typed genesis_template) by (split; vm_compute; repeat split; discriminate).
  assert (Hb : bytes_ok (replicate 236 7)) by (apply Forall_replicate; by vm_compute).
  destruct (header_codec_exact genesis_template (replicate 236 7) Ht Hb) as ((_ & Hp) & _ & Hback).
  split; [by rewrite Hp|]. split; [done|]. split; [done|].
  intros parsed Hok. apply (Hback parsed Hok).
Defined.

(** ** The headers hashed for proof of work *)

(** The two derived headers are 128 bytes, laid out without a gap. *)
Lemma subhead_layout h :
  header_typed h ->
  to_subhead h = h_extra_nonce h ++ h_reserved_root h ++ h_witness_root h ++ h_merkle_root h
                 ++ to_le 4 (h_version h) ++ to_le 4 (h_bits h) /\ zlen (to_subhead h) = 128.
Proof.
  intros []. unfold to_subhead. rewrite write_all_concat.
  - cbn [concat]. rewrite app_nil_r. split; [done|]. rewrite !zlen_app, !zlen_to_le. lia.
  - apply Nat2Z.inj. change (zlen (concat [h_extra_nonce h; h_reserved_root h; h_witness_root h;
      h_merkle_root h; to_le 4 (h_version h); to_le 4 (h_bits h)]) = 128).
    rewrite length_concat_zlen. cbn [map foldr]. rewrite !zlen_to_le. lia.
Qed.

(** Parsing recovers a header whose proof-of-work hash is that of the original:
    the hash depends on the serialised bytes only. *)
Lemma header_hash_stable `{Hashers} h parsed :
  header_typed h -> block_header_parse (header_serialize h) = Ok parsed -> header_hash parsed = header_hash h.
Proof.
  intros Ht. rewrite (header_serialize_concat _ Ht). unfold header_fields.
  rewrite (header_parse_fields _ _ _ _ _ _ _ _ _ _ _ (header_fields_widths _ Ht)). intros [= <-].
  by rewrite header_of_own_fields.
Qed.
