(* ===== verification/PrimPolicy.v ===== *)
(** * Browser network policy

    Models [src/crates/hns-browser-primitives/src/network_policy.rs]: which
    addresses, hosts and ports native fetching may reach. The theorem states the
    address tests against tables of address blocks. *)

From S2P Require Import Prelude.

(** [std::net::IpAddr]: octets, or eight 16-bit segments. *)
Inductive IpAddr :=
| V4 (a b c d : Z)
| V6 (segments : list Z).

Definition BROWSER_SPECIAL_USE_SUFFIXES : list (list Z) :=
  [ [97; 108; 116]; [97; 114; 112; 97]; [101; 120; 97; 109; 112; 108; 101];
    [105; 110; 116; 101; 114; 110; 97; 108]; [105; 110; 118; 97; 108; 105; 100];
    [108; 111; 99; 97; 108]; [108; 111; 99; 97; 108; 104; 111; 115; 116];
    [111; 110; 105; 111; 110]; [116; 101; 115; 116] ].
Definition browser_special_use_suffixes : list (list Z) := BROWSER_SPECIAL_USE_SUFFIXES.

(** [lo..=hi]. *)
Definition between (lo hi b : Z) : bool := (lo <=? b) && (b <=? hi).

(** [is_public_ipv4]; its patterns leave the last octet out. *)
Definition is_public_ipv4 (a b c : Z) : bool :=
  negb
    ((a =? 0)
     || (a =? 10)
     || ((a =? 100) && between 64 127 b)
     || (a =? 127)
     || ((a =? 169) && (b =? 254))
     || ((a =? 172) && between 16 31 b)
     || ((a =? 192) && (b =? 0) && (c =? 0))
     || ((a =? 192) && (b =? 0) && (c =? 2))
     || ((a =? 192) && (b =? 88) && (c =? 99))
     || ((a =? 192) && (b =? 168))
     || ((a =? 198) && between 18 19 b)
     || ((a =? 198) && (b =? 51) && (c =? 100))
     || ((a =? 203) && (b =? 0) && (c =? 113))
     || between 224 255 a).

(** [segments[i]], of eight segments. *)
Definition seg (segments : list Z) (i : nat) : Z := default 0 (segments !! i).

(** [segments[..n] == [..]]. *)
Definition starts (segments prefix : list Z) : bool :=
  bytes_eqb (take (length prefix) segments) prefix.

(** [x as u8] of the high and low byte of a segment. *)
Definition seg_hi (x : Z) : Z := Z.shiftr x 8 mod 256.
Definition seg_lo (x : Z) : Z := x mod 256.

(** [is_public_ipv6]; [to_ipv4_mapped] matches ::ffff:a.b.c.d. *)
Definition is_public_ipv6 (segments : list Z) : bool :=
  if starts segments [0; 0; 0; 0; 0; 0xffff] then
    is_public_ipv4 (seg_hi (seg segments 6)) (seg_lo (seg segments 6)) (seg_hi (seg segments 7))
  else if starts segments [0x0064; 0xff9b; 0; 0; 0; 0] then
    is_public_ipv4 (seg_hi (seg segments 6)) (seg_lo (seg segments 6)) (seg_hi (seg segments 7))
  else if negb (Z.land (seg segments 0) 0xe000 =? 0x2000) then false
  else
    negb
      (((seg segments 0 =? 0x2001) && (seg segments 1 =? 0x0000))
       || starts segments [0x2001; 0x0002; 0]
       || ((seg segments 0 =? 0x2001) && (Z.land (seg segments 1) 0xfff0 =? 0x0010))
       || ((seg segments 0 =? 0x2001) && (Z.land (seg segments 1) 0xfff0 =? 0x0020))
       || starts segments [0x2001; 0x0db8]
       || (seg segments 0 =? 0x2002)
       || (Z.land (seg segments 0) 0xfff0 =? 0x3ff0)).

Definition is_publicly_routable (address : IpAddr) : bool :=
  match address with
  | V4 a b c _ => is_public_ipv4 a b c
  | V6 segments => is_public_ipv6 segments
  end.

(** [host.rsplit('.').next()]: the text after the last dot. *)
Definition rsplit_first (host : list Z) : option (list Z) := last (split_on 46 host).

Definition is_browser_special_use_host (host : list Z) : bool :=
  let host := strip_dot host in
  match rsplit_first host with
  | None => false
  | Some suffix =>
      existsb (fun candidate => eq_ignore_ascii_case suffix candidate) BROWSER_SPECIAL_USE_SUFFIXES
  end.

Definition is_browser_blocked_port (port : Z) : bool :=
  existsb (Z.eqb port)
    [0; 1; 7; 9; 11; 13; 15; 17; 19; 20; 21; 22; 23; 25; 37; 42; 43; 53; 69; 77; 79; 87; 95; 101;
     102; 103; 104; 109; 110; 111; 113; 115; 117; 119; 123; 135; 137; 139; 143; 161; 179; 389; 427;
     465; 512; 513; 514; 515; 526; 530; 531; 532; 540; 548; 554; 556; 563; 587; 601; 636; 989; 990;
     993; 995; 1719; 1720; 1723; 2049; 3659; 4045; 4190; 5060; 5061; 6000; 6566]
  || between 6665 6669 port || (port =? 6679) || (port =? 6697) || (port =? 10080).

(** ** Address blocks *)

(** The block of [2 ^ (w - len)] addresses that starts at [base]. *)
Record block := { bl_base : Z; bl_len : Z }.
Definition in_block (w addr : Z) (k : block) : bool :=
  (bl_base k <=? addr) && (addr <? bl_base k + 2 ^ (w - bl_len k)).

Definition ipv4_value (a b c d : Z) : Z := ((a * 256 + b) * 256 + c) * 256 + d.
Definition ipv6_value (segments : list Z) : Z := fold_left (fun v s => v * 65536 + s) segments 0.

(** The IPv4 blocks that are not public. *)
Definition private_v4 : list block :=
  [ {| bl_base := ipv4_value 0 0 0 0; bl_len := 8 |};
    {| bl_base := ipv4_value 10 0 0 0; bl_len := 8 |};
    {| bl_base := ipv4_value 100 64 0 0; bl_len := 10 |};
    {| bl_base := ipv4_value 127 0 0 0; bl_len := 8 |};
    {| bl_base := ipv4_value 169 254 0 0; bl_len := 16 |};
    {| bl_base := ipv4_value 172 16 0 0; bl_len := 12 |};
    {| bl_base := ipv4_value 192 0 0 0; bl_len := 24 |};
    {| bl_base := ipv4_value 192 0 2 0; bl_len := 24 |};
    {| bl_base := ipv4_value 192 88 99 0; bl_len := 24 |};
    {| bl_base := ipv4_value 192 168 0 0; bl_len := 16 |};
    {| bl_base := ipv4_value 198 18 0 0; bl_len := 15 |};
    {| bl_base := ipv4_value 198 51 100 0; bl_len := 24 |};
    {| bl_base := ipv4_value 203 0 113 0; bl_len := 24 |};
    {| bl_base := ipv4_value 224 0 0 0; bl_len := 3 |} ].

(** The blocks of global unicast space that are not public. *)
Definition private_v6 : list block :=
  [ {| bl_base := ipv6_value [0x2001; 0; 0; 0; 0; 0; 0; 0]; bl_len := 32 |};
    {| bl_base := ipv6_value [0x2001; 2; 0; 0; 0; 0; 0; 0]; bl_len := 48 |};
    {| bl_base := ipv6_value [0x2001; 0x10; 0; 0; 0; 0; 0; 0]; bl_len := 28 |};
    {| bl_base := ipv6_value [0x2001; 0x20; 0; 0; 0; 0; 0; 0]; bl_len := 28 |};
    {| bl_base := ipv6_value [0x2001; 0xdb8; 0; 0; 0; 0; 0; 0]; bl_len := 32 |};
    {| bl_base := ipv6_value [0x2002; 0; 0; 0; 0; 0; 0; 0]; bl_len := 16 |};
    {| bl_base := ipv6_value [0x3ff0; 0; 0; 0; 0; 0; 0; 0]; bl_len := 12 |} ].

Definition ipv4_mapped : block := {| bl_base := 0xffff * 2 ^ 32; bl_len := 96 |}.
Definition nat64 : block := {| bl_base := ipv6_value [0x64; 0xff9b; 0; 0; 0; 0; 0; 0]; bl_len := 96 |}.
Definition global_unicast : block := {| bl_base := 2 ^ 125; bl_len := 3 |}.

(** The policy on addresses as integers. *)
Definition public_v4 (addr : Z) : bool := negb (existsb (in_block 32 addr) private_v4).
Definition public_v6 (addr : Z) : bool :=
  if in_block 128 addr ipv4_mapped || in_block 128 addr nat64 then public_v4 (addr mod 2 ^ 32)
  else in_block 128 addr global_unicast && negb (existsb (in_block 128 addr) private_v6).

Definition address_typed (address : IpAddr) : Prop :=
  match address with
  | V4 a b c d => in_u8 a /\ in_u8 b /\ in_u8 c /\ in_u8 d
  | V6 segments => length segments = 8%nat /\ Forall in_u16 segments
  end.
Definition public_address (address : IpAddr) : bool :=
  match address with
  | V4 a b c d => public_v4 (ipv4_value a b c d)
  | V6 segments => public_v6 (ipv6_value segments)
  end.

Ltac beq := apply eq_true_iff_eq; rewrite ?andb_true_iff, ?Z.leb_le, ?Z.ltb_lt, ?Z.eqb_eq.

Lemma public_v4_spec a b c d :
  in_u8 a -> in_u8 b -> in_u8 c -> in_u8 d ->
  is_public_ipv4 a b c = public_v4 (ipv4_value a b c d).
Proof.
  intros. unfold is_public_ipv4, public_v4. f_equal.
  cbn [existsb private_v4]. rewrite orb_false_r, !orb_assoc. unfold between, in_block.
  cbn [bl_base bl_len]. unfold ipv4_value. width.
  repeat (apply f_equal2; [|beq; lia]). beq; lia.
Qed.

(** A mask of high bits keeps the multiple below. *)
Lemma land_high x k : 0 <= k <= 16 -> in_u16 x -> Z.land x (2 ^ 16 - 2 ^ k) = x / 2 ^ k * 2 ^ k.
Proof.
  intros Hk Hx. rewrite <- Z.shiftl_mul_pow2, <- Z.shiftr_div_pow2, <- Z.ldiff_ones_r by lia.
  apply Z.bits_inj_iff'. intros n Hn. rewrite Z.land_spec, Z.ldiff_spec.
  replace (2 ^ 16 - 2 ^ k) with (Z.shiftl (Z.ones (16 - k)) k).
  2: { rewrite Z.shiftl_mul_pow2, Z.ones_equiv, Z.mul_pred_l, <- Z.pow_add_r by lia. do 2 f_equal. lia. }
  rewrite Z.shiftl_spec, !Z.testbit_ones by lia. destruct (Z.lt_ge_cases n 16).
  - f_equal. destruct (Z.lt_ge_cases n k); apply eq_true_iff_eq;
      rewrite ?negb_true_iff, ?andb_true_iff, ?andb_false_iff, ?Z.leb_le, ?Z.ltb_lt, ?Z.leb_gt, ?Z.ltb_ge; lia.
  - assert (Z.testbit x n = false) as ->; [|done].
    apply Z.bits_above_log2; [width; lia|]. destruct (decide (x = 0)) as [->|]; [simpl; lia|].
    apply Z.log2_lt_pow2; [width; lia|]. apply Z.lt_le_trans with (2 ^ 16); [width_lia|].
    apply Z.pow_le_mono_r; lia.
Qed.

Lemma mask_block x k v : 0 <= k <= 16 -> in_u16 x -> 
  (Z.land x (2 ^ 16 - 2 ^ k) =? v * 2 ^ k) = (v * 2 ^ k <=? x) && (x <? (v + 1) * 2 ^ k).
Proof.
  intros Hk Hx. rewrite land_high by done. beq.
  assert (0 < 2 ^ k) by (apply Z.pow_pos_nonneg; lia).
  pose proof (Z.div_mod x (2 ^ k) ltac:(lia)). pose proof (Z.mod_pos_bound x (2 ^ k) ltac:(lia)).
  set (q := x / 2 ^ k) in *. split; [intros Heq; nia|].
  intros [Hlo Hhi]. assert (q < v + 1) by nia. assert (v < q + 1) by nia. by replace q with v by lia.
Qed.

Lemma bytes_eqb_cons a l b k : bytes_eqb (a :: l) (b :: k) = (a =? b) && bytes_eqb l k.
Proof.
  unfold bytes_eqb. apply eq_true_iff_eq. rewrite andb_true_iff, !bool_decide_eq_true, Z.eqb_eq.
  split; [by intros [= -> ->]|by intros [-> ->]].
Qed.

Lemma seg_bytes x y : in_u16 x -> in_u16 y ->
  in_u8 (seg_hi x) /\ in_u8 (seg_lo x) /\ in_u8 (seg_hi y) /\ in_u8 (seg_lo y) /\
  ipv4_value (seg_hi x) (seg_lo x) (seg_hi y) (seg_lo y) = x * 65536 + y.
Proof.
  unfold seg_hi, seg_lo, ipv4_value. rewrite !Z.shiftr_div_pow2 by lia. change (2 ^ 8) with 256.
  intros Hx Hy. width.
  pose proof (Z.div_mod x 256 ltac:(lia)). pose proof (Z.mod_pos_bound x 256 ltac:(lia)).
  pose proof (Z.div_mod y 256 ltac:(lia)). pose proof (Z.mod_pos_bound y 256 ltac:(lia)).
  rewrite !(Z.mod_small (_ / 256)) by lia. lia.
Qed.

Lemma public_v6_spec segments :
  length segments = 8%nat -> Forall in_u16 segments ->
  is_public_ipv6 segments = public_v6 (ipv6_value segments).
Proof.
  intros Hl Hs. do 8 (destruct segments as [|? segments]; [done|]). destruct segments; [|done].
  rewrite !Forall_cons in Hs. destruct Hs as (? & ? & ? & ? & ? & ? & ? & ? & _).
  unfold is_public_ipv6, starts. cbn [take length]. rewrite !bytes_eqb_cons.
  unfold seg. cbn [lookup list_lookup default]. unfold default, id.
  change (bytes_eqb [] []) with true. rewrite !andb_true_r.
  destruct (seg_bytes z5 z6) as (? & ? & ? & ? & Hv); [done..|].
  rewrite (public_v4_spec _ _ _ (seg_lo z6)) by done. rewrite Hv.
  change 0xe000 with (2 ^ 16 - 2 ^ 13). change 0xfff0 with (2 ^ 16 - 2 ^ 4).
  change 0x2000 with (1 * 2 ^ 13). change 0x10 with (1 * 2 ^ 4). change 0x20 with (2 * 2 ^ 4).
  change 0x3ff0 with (0x3ff * 2 ^ 4). rewrite !mask_block by (done || lia). clear Hv.
  unfold public_v6. set (addr := ipv6_value _).
  assert (Ha : addr = ipv6_value [z; z0; z1; z2; z3; z4; z5; z6]) by done.
  unfold ipv6_value in Ha. cbn [fold_left] in Ha. clearbody addr.
  assert (Hlow : addr mod 2 ^ 32 = z5 * 65536 + z6).
  { symmetry. apply (Z.mod_unique_pos _ _ ((((((z * 65536 + z0) * 65536 + z1) * 65536 + z2) * 65536 + z3)
      * 65536 + z4))); [width; lia|]. rewrite Ha. lia. }
  rewrite Hlow.
  assert (E1 : in_block 128 addr ipv4_mapped
    = (z =? 0) && ((z0 =? 0) && ((z1 =? 0) && ((z2 =? 0) && ((z3 =? 0) && (z4 =? 65535))))))
    by (unfold in_block; cbn [bl_base bl_len ipv4_mapped]; width; beq; lia).
  assert (E2 : in_block 128 addr nat64
    = (z =? 100) && ((z0 =? 65435) && ((z1 =? 0) && ((z2 =? 0) && ((z3 =? 0) && (z4 =? 0))))))
    by (unfold in_block; cbn [bl_base bl_len nat64]; unfold ipv6_value; cbn [fold_left]; width; beq; lia).
  assert (E3 : in_block 128 addr global_unicast = (1 * 2 ^ 13 <=? z) && (z <? (1 + 1) * 2 ^ 13))
    by (unfold in_block; cbn [bl_base bl_len global_unicast]; width; beq; lia).
  rewrite E1, E2, E3. do 2 (case_match; [done|]). cbn [orb].
  destruct ((1 * 2 ^ 13 <=? z) && (z <? (1 + 1) * 2 ^ 13)) eqn:Eg; cbn [negb andb]; [|done]. f_equal.
  cbn [existsb private_v6]. rewrite orb_false_r, !orb_assoc. unfold in_block. cbn [bl_base bl_len].
  unfold ipv6_value. cbn [fold_left]. breflect. width.
  repeat (apply f_equal2; [|beq; lia]). beq; lia.
Qed.

(** The octet and segment tests decide the block tables: an IPv4 address is
    publicly routable exactly when it lies in none of the reserved blocks; an
    IPv6 address exactly when it embeds (mapped or through NAT64) an IPv4
    address that is, or lies in global unicast space outside the reserved
    blocks. *)
Theorem routable_is_block_policy address :
  address_typed address -> is_publicly_routable address = public_address address.
Proof.
  destruct address as [a b c d|segments]; cbn [address_typed is_publicly_routable public_address].
  - intros (? & ? & ? & ?). by apply public_v4_spec.
  - intros [? ?]. by apply public_v6_spec.
Qed.

Lemma routable_is_block_policy_witness :
  is_publicly_routable (V4 8 8 8 8) = true /\ is_publicly_routable (V4 172 31 255 255) = false /\
  is_publicly_routable (V6 [0x64; 0xff9b; 0; 0; 0; 0; 0x0a00; 1]) = false /\
  is_publicly_routable (V6 [0x2606; 0x4700; 0x4700; 0; 0; 0; 0; 0x1111]) = true.
Proof.
  split_and!; rewrite routable_is_block_policy; try (vm_compute; reflexivity);
    repeat split; repeat (apply Forall_cons; split); try apply Forall_nil; width_lia.
Defined.

(** The last test of [is_public_ipv6] rejects the whole of 3ff0::/12, which is
    wider than the documentation block 3fff::/20 its comment names. *)
Lemma documentation_test_is_wider :
  is_publicly_routable (V6 [0x3ff0; 0; 0; 0; 0; 0; 0; 1]) = false /\
  in_block 128 (ipv6_value [0x3ff0; 0; 0; 0; 0; 0; 0; 1])
    {| bl_base := ipv6_value [0x3fff; 0; 0; 0; 0; 0; 0; 0]; bl_len := 20 |} = false.
Proof. split; vm_compute; reflexivity. Qed.

(** ** Special-use hosts *)

(** A host is special-use exactly when, up to one trailing dot, its last
    label is one of the listed suffixes in any case; so every subdomain of a
    special-use name is. *)
Theorem special_use_host_iff host :
  is_browser_special_use_host host = true <->
  exists label suffix, suffix ∈ BROWSER_SPECIAL_USE_SUFFIXES /\
    eq_ignore_ascii_case label suffix = true /\ 46 ∉ label /\
    (strip_dot host = label \/ exists prefix, strip_dot host = prefix ++ 46 :: label).
Proof.
  unfold is_browser_special_use_host, rsplit_first.
  destruct (last_label 46 (strip_dot host)) as (label & -> & Hn & Hc). rewrite existsb_exists. split.
  - intros (suffix & Hin & He). rewrite <- list_elem_of_In in Hin. by exists label, suffix.
  - intros (label' & suffix & Hin & He & Hn' & Hc'). exists suffix. rewrite <- list_elem_of_In.
    split; [done|]. enough (label = label') as -> by done.
    assert (Hl : forall x, 46 ∉ x -> (strip_dot host = x \/ exists p, strip_dot host = p ++ 46 :: x) ->
      last (split_on 46 (strip_dot host)) = Some x).
    { intros x Hx [->|[p ->]]; rewrite ?split_on_app, (split_on_none 46 x) by done; [done|by rewrite last_snoc]. }
    pose proof (Hl _ Hn Hc). pose proof (Hl _ Hn' Hc'). congruence.
Qed.
