(* ===== verification/PrimDns.v ===== *)
(** * DNS messages of the browser crates

    Models [src/crates/hns-browser-primitives/src/dns.rs]: lowercase names with
    compression, records whose embedded names are normalised, SVCB parameters
    and whole messages. A name is its labels; a label its bytes, which the
    parser restricts to ASCII, so that [str::from_utf8] cannot fail on them. *)

From S2P Require Import Prelude PrimHash PrimPow PrimHeader.

Definition MAX_DNS_NAME_LEN : Z := 253.
Definition MAX_DNS_LABEL_LEN : Z := 63.
Definition MAX_RDATA_LEN : Z := 65535.
Definition MAX_DNS_QUESTIONS : Z := 16.
Definition MAX_DNS_RECORDS : Z := 2048.

Definition SVCB_PARAM_MANDATORY : Z := 0.
Definition SVCB_PARAM_ALPN : Z := 1.
Definition SVCB_PARAM_NO_DEFAULT_ALPN : Z := 2.
Definition SVCB_PARAM_PORT : Z := 3.
Definition SVCB_PARAM_IPV4HINT : Z := 4.
Definition SVCB_PARAM_ECH : Z := 5.
Definition SVCB_PARAM_IPV6HINT : Z := 6.

Record DnsName := { dn_labels : list (list Z) }.

Record DnsFlags := { df_bits : Z }.

Record DnsHeader := {
  dh_id : Z; dh_flags : DnsFlags; dh_questions : Z; dh_answers : Z; dh_authorities : Z;
  dh_additionals : Z }.

Inductive RecordType :=
| TA | TNs | TCname | TSoa | TTxt | TAaaa | TSrv | TDs | TRrsig | TNsec | TDnskey | TNsec3 | TTlsa
| TSvcb | THttps | TUnknown (code : Z).

Record DnsQuestion := { dq_name : DnsName; dq_type : RecordType; dq_class : Z }.

Record ResourceRecord := {
  dr_name : DnsName; dr_type : RecordType; dr_class : Z; dr_ttl : Z; dr_rdata : list Z }.

Record DnsMessage := {
  dm_header : DnsHeader;
  dm_questions : list DnsQuestion;
  dm_answers : list ResourceRecord;
  dm_authorities : list ResourceRecord;
  dm_additionals : list ResourceRecord }.

Record SvcParam := { sp_key : Z; sp_value : list Z }.
Record SvcbRecord := {
  sv_priority : Z; sv_target : DnsName; sv_params : list SvcParam }.

(** ** Names *)

Definition dns_root : DnsName := {| dn_labels := [] |}.

Definition label_byte (b : Z) : bool := is_ascii_alphanumeric b || (b =? 45) || (b =? 95).
Definition is_valid_dns_label (label : list Z) : bool :=
  bytes_eqb label [42] || forallb label_byte label.

(** [labels.iter().map(|label| label.len() + 1).sum()]. *)
Definition labels_sum (labels : list (list Z)) : Z :=
  foldr (fun label sum => zlen label + 1 + sum) 0 labels.

Record wire_state := {
  ws_labels : list (list Z); ws_cursor : Z; ws_consumed : option Z; ws_jumps : Z }.

(** One turn of the loop of [DnsName::parse_wire]. *)
Definition parse_wire_step (message : list Z) (st : wire_state)
    : result ParseError (wire_state + DnsName * Z) :=
  let? length := ok_or (get message (ws_cursor st)) UnexpectedEof in
  let cursor := ws_cursor st + 1 in
  if Z.land length 0xc0 =? 0xc0 then
    let? next := ok_or (get message cursor) UnexpectedEof in
    let cursor := cursor + 1 in
    let pointer := Z.lor (Z.shiftl (Z.land length 0x3f) 8) next in
    if zlen message <=? pointer then Err InvalidDnsPointer else
    let consumed := match ws_consumed st with Some c => Some c | None => Some cursor end in
    let? jumps := ok_or (if ws_jumps st + 1 <=? u8_max then Some (ws_jumps st + 1) else None)
                        InvalidDnsPointer in
    if 16 <? jumps then Err InvalidDnsPointer else
    Ok (inl {| ws_labels := ws_labels st; ws_cursor := pointer; ws_consumed := consumed;
               ws_jumps := jumps |})
  else if negb (Z.land length 0xc0 =? 0) then Err InvalidDnsLabel
  else if length =? 0 then
    Ok (inr ({| dn_labels := ws_labels st |}, default cursor (ws_consumed st)))
  else if MAX_DNS_LABEL_LEN <? length then Err InvalidDnsLabel else
  let? stop := ok_or (checked_add cursor length) LengthLimit in
  let? label_bytes := ok_or (get_range message cursor stop) UnexpectedEof in
  if negb (is_valid_dns_label label_bytes) then Err InvalidDnsLabel else
  let labels := ws_labels st ++ [map to_ascii_lowercase label_bytes] in
  if MAX_DNS_NAME_LEN + 1 <? labels_sum labels then Err LengthLimit else
  Ok (inl {| ws_labels := labels; ws_cursor := stop; ws_consumed := ws_consumed st;
             ws_jumps := ws_jumps st |}).

(** [DnsName::parse_wire]: at most 254 turns that add a label and 16 that jump. *)
Definition wire_fuel : nat := 273.
Definition wire_start (offset : Z) : wire_state :=
  {| ws_labels := []; ws_cursor := offset; ws_consumed := None; ws_jumps := 0 |}.
Definition parse_wire (message : list Z) (offset : Z) : result ParseError (DnsName * Z) :=
  match loop wire_fuel (parse_wire_step message) (wire_start offset) with
  | Some r => r
  | None => Err LengthLimit
  end.

(** [DnsName::wire_len]. *)
Definition wire_len (n : DnsName) : Z :=
  match dn_labels n with [] => 1 | labels => labels_sum labels + 1 end.

(** The [for label in trimmed.split('.')] of [DnsName::from_ascii]. *)
Fixpoint ascii_labels (labels : list (list Z)) : result ParseError (list (list Z)) :=
  match labels with
  | [] => Ok []
  | label :: rest =>
      let bytes := str_bytes label in
      if (zlen bytes =? 0) || (MAX_DNS_LABEL_LEN <? zlen bytes) || negb (is_valid_dns_label bytes)
      then Err InvalidDnsLabel else
      let? rest := ascii_labels rest in
      Ok (map to_ascii_lowercase bytes :: rest)
  end.

Definition dns_from_ascii (name : list Z) : result ParseError DnsName :=
  let trimmed := trim_end (Z.eqb 46) (trim name) in
  if zlen trimmed =? 0 then Ok dns_root else
  let? labels := ascii_labels (split_on 46 trimmed) in
  let name := {| dn_labels := labels |} in
  if MAX_DNS_NAME_LEN + 2 <? wire_len name then Err LengthLimit else Ok name.

(** [DnsName::encode_wire]: the bytes appended. *)
Fixpoint encode_wire_labels (labels : list (list Z)) : result ParseError (list Z) :=
  match labels with
  | [] => Ok [0]
  | label :: rest =>
      if MAX_DNS_LABEL_LEN <? zlen label then Err InvalidDnsLabel else
      let? rest := encode_wire_labels rest in
      Ok (zlen label mod 256 :: label ++ rest)
  end.
Definition encode_wire (n : DnsName) : result ParseError (list Z) := encode_wire_labels (dn_labels n).

(** ** Header, flags and types *)

Definition dns_header_parse (data : list Z) : result ParseError DnsHeader :=
  let? (id, r) := rd_read_be 2 (rd_new data) in
  let? (flags, r) := rd_read_be 2 r in
  let? (questions, r) := rd_read_be 2 r in
  let? (answers, r) := rd_read_be 2 r in
  let? (authorities, r) := rd_read_be 2 r in
  let? (additionals, r) := rd_read_be 2 r in
  Ok {| dh_id := id; dh_flags := {| df_bits := flags |}; dh_questions := questions;
        dh_answers := answers; dh_authorities := authorities; dh_additionals := additionals |}.

Definition df_is_response (f : DnsFlags) : bool := negb (Z.land (df_bits f) 0x8000 =? 0).
Definition df_opcode (f : DnsFlags) : Z := Z.land (Z.shiftr (df_bits f) 11) 0x0f.
Definition df_authoritative_answer (f : DnsFlags) : bool := negb (Z.land (df_bits f) 0x0400 =? 0).
Definition df_truncated (f : DnsFlags) : bool := negb (Z.land (df_bits f) 0x0200 =? 0).
Definition df_recursion_desired (f : DnsFlags) : bool := negb (Z.land (df_bits f) 0x0100 =? 0).
Definition df_recursion_available (f : DnsFlags) : bool := negb (Z.land (df_bits f) 0x0080 =? 0).
Definition df_rcode (f : DnsFlags) : Z := Z.land (df_bits f) 0x000f.

Definition type_from_code (code : Z) : RecordType :=
  match code with
  | 1 => TA | 2 => TNs | 5 => TCname | 6 => TSoa | 16 => TTxt | 28 => TAaaa | 33 => TSrv
  | 43 => TDs | 46 => TRrsig | 47 => TNsec | 48 => TDnskey | 50 => TNsec3 | 52 => TTlsa
  | 64 => TSvcb | 65 => THttps
  | other => TUnknown other
  end.
Definition type_code (t : RecordType) : Z :=
  match t with
  | TA => 1 | TNs => 2 | TCname => 5 | TSoa => 6 | TTxt => 16 | TAaaa => 28 | TSrv => 33
  | TDs => 43 | TRrsig => 46 | TNsec => 47 | TDnskey => 48 | TNsec3 => 50 | TTlsa => 52
  | TSvcb => 64 | THttps => 65
  | TUnknown code => code
  end.

(** ** RDATA normalisation *)

Definition normalize_exact_name_rdata (message : list Z) (start stop : Z) : result ParseError (list Z) :=
  let? (name, next) := parse_wire message start in
  if stop <? next then Err UnexpectedEof else
  if negb (next =? stop) then Err TrailingBytes else
  encode_wire name.

Definition normalize_soa_rdata (message : list Z) (start stop : Z) : result ParseError (list Z) :=
  let? (mname, rname_start) := parse_wire message start in
  if stop <? rname_start then Err UnexpectedEof else
  let? (rname, fixed_start) := parse_wire message rname_start in
  if stop <? fixed_start then Err UnexpectedEof else
  if stop - fixed_start <? 20 then Err UnexpectedEof else
  if negb (stop - fixed_start =? 20) then Err TrailingBytes else
  let? mname := encode_wire mname in
  let? rname := encode_wire rname in
  let? fixed := ok_or (get_range message fixed_start stop) UnexpectedEof in
  Ok (mname ++ rname ++ fixed).

Definition normalize_prefixed_name_rdata (message : list Z) (start stop prefix_len : Z)
    : result ParseError (list Z) :=
  let? name_start := ok_or (checked_add start prefix_len) LengthLimit in
  if stop <=? name_start then Err UnexpectedEof else
  let? (name, next) := parse_wire message name_start in
  if stop <? next then Err UnexpectedEof else
  let? prefix := ok_or (get_range message start name_start) UnexpectedEof in
  let? name := encode_wire name in
  let? rest := ok_or (get_range message next stop) UnexpectedEof in
  Ok (prefix ++ name ++ rest).

Definition normalize_record_rdata (message : list Z) (start stop : Z) (record_type : RecordType)
    (rdata : list Z) : result ParseError (list Z) :=
  match record_type with
  | TNs | TCname => normalize_exact_name_rdata message start stop
  | TSoa => normalize_soa_rdata message start stop
  | TRrsig =>
      match get rdata 18 with
      | Some byte =>
          if Z.land byte 0xc0 =? 0xc0 then normalize_prefixed_name_rdata message start stop 18
          else Ok rdata
      | None => Ok rdata
      end
  | _ => Ok rdata
  end.

(** ** Records and questions *)

(** [u16::from_be_bytes([fixed[a], fixed[a + 1]])] and the four-byte form. *)
Definition be_at (fixed : list Z) (a n : nat) : Z := from_be (take n (drop a fixed)).

(** [ResourceRecord::parse]. *)
Definition record_parse (message : list Z) (offset : Z) : result ParseError (ResourceRecord * Z) :=
  let? (name, cursor) := parse_wire message offset in
  let? fixed_end := ok_or (checked_add cursor 10) LengthLimit in
  let? fixed := ok_or (get_range message cursor fixed_end) UnexpectedEof in
  let record_type := type_from_code (be_at fixed 0 2) in
  let class := be_at fixed 2 2 in
  let ttl := be_at fixed 4 4 in
  let rdlength := be_at fixed 8 2 in
  if MAX_RDATA_LEN <? rdlength then Err LengthLimit else
  let cursor := cursor + 10 in
  let? stop := ok_or (checked_add cursor rdlength) LengthLimit in
  let? raw_rdata := ok_or (get_range message cursor stop) UnexpectedEof in
  let? rdata := normalize_record_rdata message cursor stop record_type raw_rdata in
  Ok ({| dr_name := name; dr_type := record_type; dr_class := class; dr_ttl := ttl;
         dr_rdata := rdata |}, stop).

(** [ResourceRecord::encode]. *)
Definition record_encode (r : ResourceRecord) : result ParseError (list Z) :=
  if u16_max <? zlen (dr_rdata r) then Err LengthLimit else
  let? name := encode_wire (dr_name r) in
  Ok (name ++ to_be 2 (type_code (dr_type r)) ++ to_be 2 (dr_class r) ++ to_be 4 (dr_ttl r)
      ++ to_be 2 (zlen (dr_rdata r)) ++ dr_rdata r).

(** [DnsQuestion::parse] and [DnsQuestion::encode]. *)
Definition question_parse (message : list Z) (offset : Z) : result ParseError (DnsQuestion * Z) :=
  let? (name, cursor) := parse_wire message offset in
  let? fixed_end := ok_or (checked_add cursor 4) LengthLimit in
  let? fixed := ok_or (get_range message cursor fixed_end) UnexpectedEof in
  Ok ({| dq_name := name; dq_type := type_from_code (be_at fixed 0 2); dq_class := be_at fixed 2 2 |},
      cursor + 4).
Definition question_encode (q : DnsQuestion) : result ParseError (list Z) :=
  let? name := encode_wire (dq_name q) in
  Ok (name ++ to_be 2 (type_code (dq_type q)) ++ to_be 2 (dq_class q)).

(** ** SVCB *)

(** The loop of [parse_uncompressed_dns_name], over the labels read so far. *)
Definition plain_name_step (message : list Z) (st : list (list Z) * Z)
    : result ParseError (list (list Z) * Z + DnsName * Z) :=
  let '(labels, cursor) := st in
  let? length := ok_or (get message cursor) InvalidSvcb in
  let cursor := cursor + 1 in
  if negb (Z.land length 0xc0 =? 0) then Err InvalidSvcb else
  if length =? 0 then
    let name := {| dn_labels := labels |} in
    if MAX_DNS_NAME_LEN + 2 <? wire_len name then Err LengthLimit else Ok (inr (name, cursor))
  else
  if MAX_DNS_LABEL_LEN <? length then Err InvalidSvcb else
  let? stop := ok_or (checked_add cursor length) LengthLimit in
  let? label_bytes := ok_or (get_range message cursor stop) InvalidSvcb in
  if negb (is_valid_dns_label label_bytes) then Err InvalidSvcb else
  Ok (inl (labels ++ [map to_ascii_lowercase label_bytes], stop)).

Definition parse_uncompressed_dns_name (message : list Z) (offset : Z)
    : result ParseError (DnsName * Z) :=
  match loop (S (length message)) (plain_name_step message) ([], offset) with
  | Some r => r
  | None => Err InvalidSvcb
  end.

(** The loop of [parse_alpn_ids]. *)
Definition alpn_step (value : list Z) (st : Z * list (list Z))
    : result ParseError (Z * list (list Z) + list (list Z)) :=
  let '(cursor, ids) := st in
  if zlen value <=? cursor then Ok (inr ids) else
  let? length := ok_or (get value cursor) InvalidSvcb in
  let cursor := cursor + 1 in
  if length =? 0 then Err InvalidSvcb else
  let? stop := ok_or (checked_add cursor length) LengthLimit in
  let? id := ok_or (get_range value cursor stop) InvalidSvcb in
  Ok (inl (stop, ids ++ [id])).

Definition parse_alpn_ids (value : list Z) : result ParseError (list (list Z)) :=
  if zlen value =? 0 then Err InvalidSvcb else
  match loop (S (length value)) (alpn_step value) (0, []) with
  | Some r => r
  | None => Err InvalidSvcb
  end.

(** [previous_key.is_some_and(|previous| key <= previous)]. *)
Definition not_above (key : Z) (previous : option Z) : bool :=
  match previous with Some previous => key <=? previous | None => false end.

(** The chunks of the mandatory parameter, two bytes each. *)
Fixpoint check_mandatory (previous_key : option Z) (chunks : list Z) : result ParseError unit :=
  match chunks with
  | hi :: lo :: rest =>
      let mandatory_key := from_be [hi; lo] in
      if (mandatory_key =? SVCB_PARAM_MANDATORY) || not_above mandatory_key previous_key
      then Err InvalidSvcb
      else check_mandatory (Some mandatory_key) rest
  | _ => Ok tt
  end.

Definition validate_svc_param_value (key : Z) (value : list Z) : result ParseError unit :=
  if key =? SVCB_PARAM_MANDATORY then
    if (zlen value =? 0) || negb (zlen value mod 2 =? 0) then Err InvalidSvcb
    else check_mandatory None value
  else if key =? SVCB_PARAM_ALPN then result_map (fun _ => tt) (parse_alpn_ids value)
  else if key =? SVCB_PARAM_NO_DEFAULT_ALPN then
    if zlen value =? 0 then Ok tt else Err InvalidSvcb
  else if key =? SVCB_PARAM_PORT then
    if zlen value =? 2 then Ok tt else Err InvalidSvcb
  else if key =? SVCB_PARAM_IPV4HINT then
    if negb (zlen value =? 0) && (zlen value mod 4 =? 0) then Ok tt else Err InvalidSvcb
  else if key =? SVCB_PARAM_IPV6HINT then
    if negb (zlen value =? 0) && (zlen value mod 16 =? 0) then Ok tt else Err InvalidSvcb
  else if key =? SVCB_PARAM_ECH then Ok tt
  else Ok tt.

(** The parameter loop of [SvcbRecord::parse_rdata]. *)
Record svcb_state := { sb_cursor : Z; sb_previous : option Z; sb_params : list SvcParam }.

Definition svcb_step (rdata : list Z) (st : svcb_state)
    : result ParseError (svcb_state + list SvcParam) :=
  let cursor := sb_cursor st in
  if zlen rdata <=? cursor then Ok (inr (sb_params st)) else
  let? fixed_end := ok_or (checked_add cursor 4) LengthLimit in
  let? fixed := ok_or (get_range rdata cursor fixed_end) InvalidSvcb in
  let key := be_at fixed 0 2 in
  let length := be_at fixed 2 2 in
  let cursor := cursor + 4 in
  if not_above key (sb_previous st) then Err InvalidSvcb else
  let? stop := ok_or (checked_add cursor length) LengthLimit in
  let? value := ok_or (get_range rdata cursor stop) InvalidSvcb in
  let? _ := validate_svc_param_value key value in
  Ok (inl {| sb_cursor := stop; sb_previous := Some key;
             sb_params := sb_params st ++ [{| sp_key := key; sp_value := value |}] |}).

Definition svcb_parse_rdata (rdata : list Z) : result ParseError SvcbRecord :=
  if zlen rdata <? 3 then Err InvalidSvcb else
  let svc_priority := be_at rdata 0 2 in
  let? (target_name, cursor) := parse_uncompressed_dns_name rdata 2 in
  match loop (S (length rdata)) (svcb_step rdata)
          {| sb_cursor := cursor; sb_previous := None; sb_params := [] |} with
  | Some r =>
      let? params := r in
      Ok {| sv_priority := svc_priority; sv_target := target_name; sv_params := params |}
  | None => Err InvalidSvcb
  end.

Definition svcb_from_record (r : ResourceRecord) : result ParseError SvcbRecord :=
  match dr_type r with
  | TSvcb | THttps => svcb_parse_rdata (dr_rdata r)
  | _ => Err InvalidSvcb
  end.

Definition is_alias_mode (s : SvcbRecord) : bool := sv_priority s =? 0.
Definition svcb_param (s : SvcbRecord) (key : Z) : option (list Z) :=
  option_map sp_value (find (fun p => sp_key p =? key) (sv_params s)).
Definition alpn_ids (s : SvcbRecord) : result ParseError (list (list Z)) :=
  match svcb_param s SVCB_PARAM_ALPN with
  | None => Ok []
  | Some value => parse_alpn_ids value
  end.
Definition svcb_port (s : SvcbRecord) : result ParseError (option Z) :=
  match svcb_param s SVCB_PARAM_PORT with
  | None => Ok None
  | Some value => if negb (zlen value =? 2) then Err InvalidSvcb else Ok (Some (be_at value 0 2))
  end.

(** ** Messages *)

(** [count] items one after the other. *)
Fixpoint parse_count {T} (parse : list Z -> Z -> result ParseError (T * Z)) (message : list Z)
    (cursor : Z) (count : nat) : result ParseError (list T * Z) :=
  match count with
  | O => Ok ([], cursor)
  | S count =>
      let? (item, next) := parse message cursor in
      let? (items, next) := parse_count parse message next count in
      Ok (item :: items, next)
  end.

Definition dns_parse_records (message : list Z) (cursor count : Z) :
    result ParseError (list ResourceRecord * Z) :=
  parse_count record_parse message cursor (Z.to_nat count).

Definition dns_message_parse (message : list Z) : result ParseError DnsMessage :=
  if zlen message <? 12 then Err UnexpectedEof else
  let? header := dns_header_parse (take 12 message) in
  if MAX_DNS_QUESTIONS <? dh_questions header then Err LengthLimit else
  let total_records := dh_answers header + dh_authorities header + dh_additionals header in
  if MAX_DNS_RECORDS <? total_records then Err LengthLimit else
  let? (questions, cursor) := parse_count question_parse message 12 (Z.to_nat (dh_questions header)) in
  let? (answers, next) := dns_parse_records message cursor (dh_answers header) in
  let? (authorities, next) := dns_parse_records message next (dh_authorities header) in
  let? (additionals, next) := dns_parse_records message next (dh_additionals header) in
  if negb (next =? zlen message) then Err TrailingBytes else
  Ok {| dm_header := header; dm_questions := questions; dm_answers := answers;
        dm_authorities := authorities; dm_additionals := additionals |}.

(** Encode the items of a list, one after the other. *)
Fixpoint encode_all {T} (encode : T -> result ParseError (list Z)) (items : list T)
    : result ParseError (list Z) :=
  match items with
  | [] => Ok []
  | item :: items =>
      let? bytes := encode item in
      let? rest := encode_all encode items in
      Ok (bytes ++ rest)
  end.

Definition total_records (m : DnsMessage) : Z :=
  zlen (dm_answers m) + zlen (dm_authorities m) + zlen (dm_additionals m).

(** [DnsMessage::encode]; the counts are [len() as u16]. *)
Definition dns_message_encode (m : DnsMessage) (max_message_len : Z) : result ParseError (list Z) :=
  if (MAX_DNS_QUESTIONS <? zlen (dm_questions m)) || (MAX_DNS_RECORDS <? total_records m)
  then Err LengthLimit else
  let? questions := encode_all question_encode (dm_questions m) in
  let? answers := encode_all record_encode (dm_answers m) in
  let? authorities := encode_all record_encode (dm_authorities m) in
  let? additionals := encode_all record_encode (dm_additionals m) in
  let out := to_be 2 (dh_id (dm_header m)) ++ to_be 2 (df_bits (dh_flags (dm_header m)))
             ++ to_be 2 (zlen (dm_questions m)) ++ to_be 2 (zlen (dm_answers m))
             ++ to_be 2 (zlen (dm_authorities m)) ++ to_be 2 (zlen (dm_additionals m))
             ++ questions ++ answers ++ authorities ++ additionals in
  if max_message_len <? zlen out then Err LengthLimit else Ok out.

Definition default_max_message_len : Z := 1232.

(** [DnsMessage::response_for_query]. *)
Definition response_for_query (query : DnsMessage) (answers : list ResourceRecord)
    : result ParseError DnsMessage :=
  if (MAX_DNS_QUESTIONS <? zlen (dm_questions query)) || (MAX_DNS_RECORDS <? zlen answers)
  then Err LengthLimit else
  Ok {| dm_header := {| dh_id := dh_id (dm_header query); dh_flags := {| df_bits := 0x8400 |};
                        dh_questions := zlen (dm_questions query); dh_answers := zlen answers;
                        dh_authorities := 0; dh_additionals := 0 |};
        dm_questions := dm_questions query; dm_answers := answers; dm_authorities := [];
        dm_additionals := [] |}.
