(* ===== verification/PrimDnsProps.v ===== *)
(** * Theorems on the browser crates' DNS messages

    Names parse within bounds and re-parse from their encoding; messages
    re-encode canonically; SVCB accessors of a parsed record never fail. *)

From Stdlib Require Import Sorting.Sorted.
From S2P Require Import Prelude PrimHash PrimPow PrimHeader PrimDns.

(** Decide the guard the outermost computation is at. *)
Ltac next_if H :=
  match goal with |- match (if ?b then _ else _) with _ => _ end => destruct b eqn:H end.

(** ** Names *)

(** A label as the parsers leave it. *)
Definition dlabel_ok (label : list Z) : Prop :=
  1 <= zlen label <= MAX_DNS_LABEL_LEN /\ is_valid_dns_label label = true /\
  bytes_ok label /\ map to_ascii_lowercase label = label.

Definition dname_ok (n : DnsName) : Prop :=
  Forall dlabel_ok (dn_labels n) /\ labels_sum (dn_labels n) <= MAX_DNS_NAME_LEN + 1.

Lemma labels_sum_app l1 l2 : labels_sum (l1 ++ l2) = labels_sum l1 + labels_sum l2.
Proof. unfold labels_sum. induction l1 as [|x l1 IH]; cbn [app foldr]; [done|]. rewrite IH. lia. Qed.

Lemma labels_sum_nonneg l : 0 <= labels_sum l.
Proof. unfold labels_sum. induction l as [|x l IH]; cbn [foldr]; [done|]. pose proof (zlen_nonneg x). lia. Qed.

Lemma labels_sum_snoc l x : labels_sum (l ++ [x]) = labels_sum l + (zlen x + 1).
Proof. rewrite labels_sum_app. unfold labels_sum at 2. cbn [foldr]. lia. Qed.

Lemma lower_label_byte b : label_byte b = true -> label_byte (to_ascii_lowercase b) = true.
Proof.
  unfold to_ascii_lowercase. case_match; [|done]. intros _. breflect.
  unfold label_byte, is_ascii_alphanumeric. rewrite !orb_true_iff, !andb_true_iff, !Z.leb_le. left. left. right. lia.
Qed.

Lemma lower_valid label :
  is_valid_dns_label label = true -> is_valid_dns_label (map to_ascii_lowercase label) = true.
Proof.
  unfold is_valid_dns_label. rewrite !orb_true_iff. unfold bytes_eqb. rewrite !bool_decide_eq_true.
  intros [->|H]; [by left|right]. rewrite forallb_forall in *. intros x Hx.
  apply in_map_iff in Hx as (y & <- & Hy). by apply lower_label_byte, H.
Qed.

Lemma lower_label_ok label :
  1 <= zlen label <= MAX_DNS_LABEL_LEN -> is_valid_dns_label label = true -> bytes_ok label ->
  dlabel_ok (map to_ascii_lowercase label).
Proof.
  intros Hl Hv Hb. split_and!.
  - unfold zlen in *. rewrite length_map. lia.
  - unfold zlen in *. rewrite length_map. lia.
  - by apply lower_valid.
  - clear Hl Hv. induction Hb; constructor; auto using lowercase_u8.
  - rewrite map_map. apply map_ext, lowercase_idem.
Qed.

(** What holds of the state at every turn of [parse_wire]'s loop. *)
Record wire_inv (message : list Z) (offset : Z) (st : wire_state) : Prop := {
  wi_name : dname_ok {| dn_labels := ws_labels st |};
  wi_jumps : 0 <= ws_jumps st <= 16;
  wi_cursor : 0 <= ws_cursor st <= zlen message;
  wi_next : match ws_consumed st with
            | None => offset <= ws_cursor st
            | Some c => offset < c <= zlen message
            end }.

Lemma wire_step_inv message offset st :
  bytes_ok message -> wire_inv message offset st ->
  match parse_wire_step message st with
  | Ok (inl st') => wire_inv message offset st' /\
      ws_jumps st + labels_sum (ws_labels st) < ws_jumps st' + labels_sum (ws_labels st')
  | Ok (inr (n, next)) => dname_ok n /\ offset < next <= zlen message
  | Err _ => True
  end.
Proof.
  intros Hb [Hn Hj Hc Hx]. unfold parse_wire_step.
  destruct (get message (ws_cursor st)) as [len|] eqn:E1; cbn [ok_or]; [|done].
  pose proof (get_Some_range _ _ _ E1). pose proof (get_byte _ _ _ Hb E1).
  destruct (Z.land len 192 =? 192) eqn:Ep.
  - destruct (get message (ws_cursor st + 1)) as [nx|] eqn:E2; cbn [ok_or]; [|done].
    pose proof (get_Some_range _ _ _ E2). pose proof (get_byte _ _ _ Hb E2).
    next_if E3; [done|]. rewrite (proj2 (Z.leb_le (ws_jumps st + 1) u8_max)) by width_lia.
    cbn [ok_or]. next_if E5; [done|]. breflect. cbn [ws_jumps ws_labels]. split; [|lia].
    split; cbn [ws_jumps ws_labels ws_cursor ws_consumed]; [done|lia| |].
    + split; [|lia]. apply Z.lor_nonneg. split; [apply Z.shiftl_nonneg, Z.land_nonneg; lia|width_lia].
    + destruct (ws_consumed st); lia.
  - destruct (Z.land len 192 =? 0) eqn:Ez; cbn [negb]; [|done].
    destruct (len =? 0) eqn:E0.
    { split; [done|]. destruct (ws_consumed st); cbn; lia. }
    next_if E3; [done|]. breflect. width. unfold MAX_DNS_LABEL_LEN in *.
    destruct (checked_add _ _) as [stop|] eqn:E4; cbn [ok_or]; [|done].
    apply checked_add_Some in E4 as [-> _].
    destruct (get_range _ _ _) as [label|] eqn:E5; cbn [ok_or]; [|done].
    next_if E6; [done|]. next_if E7; [done|]. breflect. cbn [ws_jumps ws_labels].
    pose proof (get_range_bytes _ _ _ _ Hb E5) as Hlb. apply get_range_Some in E5 as (Hr & Hz & Hk).
    rewrite labels_sum_snoc in *.
    assert (Hzm : zlen (map to_ascii_lowercase label) = len) by (unfold zlen in *; rewrite length_map; lia).
    rewrite Hzm in *. split; [|lia]. split; cbn [ws_jumps ws_labels ws_cursor ws_consumed];
      [|lia|lia|destruct (ws_consumed st); lia].
    destruct Hn as [Hn _]. split; cbn [dn_labels] in *; [|rewrite labels_sum_snoc, Hzm; lia].
    apply Forall_app. split; [done|]. apply Forall_cons. split; [|done].
    apply lower_label_ok; [unfold MAX_DNS_LABEL_LEN; lia|done|done].
Qed.

Lemma wire_inv_start message offset :
  0 <= offset <= zlen message -> wire_inv message offset (wire_start offset).
Proof. intros. split; cbn; try lia. split; [constructor|by vm_compute]. Qed.

(** Fuel suffices: labels and jumps are both bounded. *)
Lemma parse_wire_fuel message offset :
  bytes_ok message -> 0 <= offset <= zlen message ->
  exists r, loop wire_fuel (parse_wire_step message) (wire_start offset) = Some r.
Proof.
  intros Hb Ho.
  apply (loop_terminates _ (wire_inv message offset)
    (fun st => Z.to_nat (271 - ws_jumps st - labels_sum (ws_labels st)))).
  - intros st st' Hi Hst. pose proof (wire_step_inv _ _ _ Hb Hi) as Hs. rewrite Hst in Hs.
    destruct Hs as [Hi' Hlt]. split; [done|].
    destruct Hi as [[_ Hl] Hj _ _], Hi' as [[_ Hl'] Hj' _ _]. cbn [dn_labels] in *.
    unfold MAX_DNS_NAME_LEN in *. lia.
  - by apply wire_inv_start.
  - cbn. unfold wire_fuel. lia.
Qed.

Lemma parse_wire_sound message offset n next :
  bytes_ok message -> 0 <= offset -> parse_wire message offset = Ok (n, next) ->
  dname_ok n /\ offset < next <= zlen message.
Proof.
  intros Hb Ho Hp. assert (Hlen : offset <= zlen message).
  { apply Z.nlt_ge. intros Hlt. revert Hp. unfold parse_wire, wire_fuel. cbn [loop].
    unfold parse_wire_step. cbn [ws_cursor wire_start].
    destruct (get message offset) eqn:E; [apply get_Some_range in E; lia|done]. }
  unfold parse_wire in Hp.
  destruct (loop wire_fuel (parse_wire_step message) (wire_start offset)) as [r|] eqn:E; [|done]. subst r.
  apply (loop_result (parse_wire_step message) (wire_inv message offset)
    (fun '(n, next) => dname_ok n /\ offset < next <= zlen message) wire_fuel (wire_start offset) (n, next));
    [| |by apply wire_inv_start|done].
  - intros st st' Hi Hst. pose proof (wire_step_inv _ _ _ Hb Hi) as Hs. rewrite Hst in Hs. apply Hs.
  - intros st [m k] Hi Hst. pose proof (wire_step_inv _ _ _ Hb Hi) as Hs. by rewrite Hst in Hs.
Qed.

(** Name decompression terminates within its fuel on every input, and what it
    returns is a name of valid lowercase labels of at most 254 length octets,
    with a resumption offset past the start and inside the message. *)
Theorem dns_name_parse_bounded message offset :
  bytes_ok message -> 0 <= offset <= zlen message ->
  (exists r, loop wire_fuel (parse_wire_step message) (wire_start offset) = Some r /\
             parse_wire message offset = r) /\
  (forall n next, parse_wire message offset = Ok (n, next) ->
     dname_ok n /\ offset < next <= zlen message).
Proof.
  intros Hb Ho. split.
  - destruct (parse_wire_fuel message offset Hb Ho) as [r Hr]. exists r. unfold parse_wire. by rewrite Hr.
  - intros n next. apply parse_wire_sound; [done|lia].
Qed.

(** ** Encoded names parse back *)

(** The bytes of a name whose labels fit. *)
Definition name_bytes (n : DnsName) : list Z :=
  concat (map (fun label => zlen label :: label) (dn_labels n)) ++ [0].

Lemma encode_wire_ok n : dname_ok n -> encode_wire n = Ok (name_bytes n).
Proof.
  intros [Hl _]. unfold encode_wire, name_bytes. induction Hl as [|label labels Hx _ IH]; [done|].
  cbn [encode_wire_labels map concat]. destruct Hx as ((H1 & H2) & _). unfold MAX_DNS_LABEL_LEN in *.
  rewrite (proj2 (Z.ltb_ge 63 (zlen label))), Z.mod_small, IH by lia. by rewrite <- app_assoc.
Qed.

Lemma name_bytes_cons label labels :
  name_bytes {| dn_labels := label :: labels |} = zlen label :: label ++ name_bytes {| dn_labels := labels |}.
Proof. unfold name_bytes. cbn [dn_labels map concat]. by rewrite <- app_assoc. Qed.

Lemma zlen_name_bytes n : zlen (name_bytes n) = labels_sum (dn_labels n) + 1.
Proof.
  destruct n as [labels]. induction labels as [|label labels IH]; [done|].
  rewrite name_bytes_cons, zlen_cons, zlen_app, IH. cbn [dn_labels labels_sum foldr].
  unfold labels_sum. cbn [foldr]. lia.
Qed.

(** One turn of the loop on a label of an encoded name. *)
Lemma parse_wire_step_label pre label post labels jumps consumed :
  dlabel_ok label -> labels_sum (labels ++ [label]) <= 254 ->
  zlen (pre ++ (zlen label :: label) ++ post) <= u64_max ->
  parse_wire_step (pre ++ (zlen label :: label) ++ post)
    {| ws_labels := labels; ws_cursor := zlen pre; ws_consumed := consumed; ws_jumps := jumps |}
  = Ok (inl {| ws_labels := labels ++ [label]; ws_cursor := zlen (pre ++ zlen label :: label);
               ws_consumed := consumed; ws_jumps := jumps |}).
Proof.
  intros ((Hl1 & Hl2) & Hv & Hb & Hlow) Hs Hz. unfold MAX_DNS_LABEL_LEN in *.
  unfold parse_wire_step. cbn [ws_cursor ws_labels ws_consumed ws_jumps].
  cbn [app]. rewrite get_app_mid. cbn [ok_or]. rewrite land_192_small by lia.
  rewrite (proj2 (Z.eqb_neq 0 192)), (proj2 (Z.eqb_eq 0 0)) by lia. cbn [negb].
  rewrite (proj2 (Z.eqb_neq (zlen label) 0)) by lia. unfold MAX_DNS_LABEL_LEN.
  rewrite (proj2 (Z.ltb_ge 63 (zlen label))) by lia.
  cbn [app] in Hz. rewrite !zlen_app, zlen_cons, zlen_app in Hz. pose proof (zlen_nonneg post).
  rewrite checked_add_small by lia. cbn [ok_or].
  rewrite (get_range_at (pre ++ [zlen label]) label post); cycle 1.
  { by rewrite <- app_assoc. } { by rewrite zlen_app. } { done. }
  cbn [ok_or]. rewrite Hv. cbn [negb]. rewrite Hlow. unfold MAX_DNS_NAME_LEN.
  rewrite (proj2 (Z.ltb_ge (253 + 1) _)) by lia. do 3 f_equal. rewrite zlen_app, zlen_cons. lia.
Qed.

(** The loop on the rest of an encoded name, labels [labels] read. *)
Lemma parse_wire_loop_labels rest : forall fuel pre post labels consumed jumps,
  dname_ok {| dn_labels := labels ++ rest |} -> (length rest < fuel)%nat ->
  zlen (pre ++ name_bytes {| dn_labels := rest |} ++ post) <= u64_max ->
  loop fuel (parse_wire_step (pre ++ name_bytes {| dn_labels := rest |} ++ post))
    {| ws_labels := labels; ws_cursor := zlen pre; ws_consumed := consumed; ws_jumps := jumps |}
  = Some (Ok ({| dn_labels := labels ++ rest |},
              default (zlen pre + zlen (name_bytes {| dn_labels := rest |})) consumed)).
Proof.
  induction rest as [|label rest IH]; intros fuel pre post labels consumed jumps Hn Hf Hz;
    (destruct fuel as [|fuel]; [simpl in Hf; lia|]); cbn [loop].
  - unfold name_bytes, parse_wire_step. cbn [dn_labels map concat app ws_cursor].
    rewrite get_app_mid. cbn. by rewrite app_nil_r.
  - rewrite name_bytes_cons in *. destruct Hn as [Hl Hs]. cbn [dn_labels] in *.
    pose proof Hl as Hl'. rewrite Forall_app, Forall_cons in Hl'. destruct Hl' as (_ & Hlab & _).
    assert (Hsub : labels_sum (labels ++ [label]) <= 254).
    { rewrite cons_middle, app_assoc, labels_sum_app in Hs. pose proof (labels_sum_nonneg rest).
      unfold MAX_DNS_NAME_LEN in Hs. lia. }
    set (tail := name_bytes {| dn_labels := rest |}) in *.
    replace (pre ++ (zlen label :: label ++ tail) ++ post)
      with (pre ++ (zlen label :: label) ++ (tail ++ post)) in * by (cbn [app]; by rewrite <- app_assoc).
    rewrite parse_wire_step_label by done.
    replace (pre ++ (zlen label :: label) ++ tail ++ post)
      with ((pre ++ zlen label :: label) ++ tail ++ post) in * by (by rewrite <- app_assoc).
    subst tail. rewrite IH; [| |cbn [length] in Hf; lia|done].
    + rewrite <- app_assoc. cbn [app]. do 3 f_equal. destruct consumed; [done|]. cbn [default id].
      rewrite zlen_app, !zlen_cons, zlen_app. lia.
    + rewrite <- app_assoc. by split.
Qed.

Lemma wire_labels_count labels : Forall dlabel_ok labels -> 2 * zlen labels <= labels_sum labels.
Proof.
  induction 1 as [|x l ((Hx & _) & _) _ IH]; [done|]. rewrite zlen_cons. unfold labels_sum in *.
  cbn [foldr]. lia.
Qed.

Lemma parse_wire_encoded pre n post :
  dname_ok n -> zlen (pre ++ name_bytes n ++ post) <= u64_max ->
  parse_wire (pre ++ name_bytes n ++ post) (zlen pre) = Ok (n, zlen pre + zlen (name_bytes n)).
Proof.
  intros Hn Hz. destruct n as [labels]. unfold parse_wire, wire_start.
  rewrite (parse_wire_loop_labels labels wire_fuel pre post [] None 0); [done|done| |done].
  destruct Hn as [Hl Hs]. apply wire_labels_count in Hl. cbn [dn_labels] in *.
  unfold MAX_DNS_NAME_LEN in Hs. unfold wire_fuel, zlen in *. lia.
Qed.

(** Names round-trip: a well-formed name encodes, to at most 255 bytes, and
    its bytes parse back to it wherever they stand, with the offset after them. *)
Theorem dns_name_roundtrip pre n post :
  dname_ok n -> zlen (pre ++ name_bytes n ++ post) <= u64_max ->
  exists bytes, encode_wire n = Ok bytes /\ zlen bytes <= 255 /\
    parse_wire (pre ++ bytes ++ post) (zlen pre) = Ok (n, zlen pre + zlen bytes).
Proof.
  intros Hn Hz. exists (name_bytes n). split_and!; [by apply encode_wire_ok| |by apply parse_wire_encoded].
  rewrite zlen_name_bytes. destruct Hn as [_ Hs]. unfold MAX_DNS_NAME_LEN in Hs. lia.
Qed.

(** ** RDATA *)

Definition dtype_ok (t : RecordType) : Prop := in_u16 (type_code t) /\ type_from_code (type_code t) = t.

Lemma type_from_code_ok c : in_u16 c -> dtype_ok (type_from_code c).
Proof.
  intros Hc. assert (type_code (type_from_code c) = c) as E by (unfold type_from_code; repeat case_match; done).
  split; by rewrite E.
Qed.

Lemma name_bytes_ok n : dname_ok n -> bytes_ok (name_bytes n).
Proof.
  intros [Hl _]. unfold name_bytes. apply Forall_app. split; [|repeat constructor; by vm_compute].
  induction Hl as [|label labels (? & _ & ? & _) _ IH]; cbn [map concat]; [constructor|].
  apply Forall_cons. split; [unfold MAX_DNS_LABEL_LEN in *; width_lia|]. by apply Forall_app.
Qed.

(** RDATA that normalisation leaves alone, wherever it stands. *)
Definition rdata_stable (t : RecordType) (rdata : list Z) : Prop :=
  forall pre post, zlen (pre ++ rdata ++ post) <= u64_max ->
  normalize_record_rdata (pre ++ rdata ++ post) (zlen pre) (zlen pre + zlen rdata) t rdata = Ok rdata.

Lemma exact_name_stable pre n post :
  dname_ok n -> zlen (pre ++ name_bytes n ++ post) <= u64_max ->
  normalize_exact_name_rdata (pre ++ name_bytes n ++ post) (zlen pre) (zlen pre + zlen (name_bytes n))
  = Ok (name_bytes n).
Proof.
  intros Hn Hz. unfold normalize_exact_name_rdata. rewrite parse_wire_encoded by done.
  rewrite Z.ltb_irrefl, Z.eqb_refl. by apply encode_wire_ok.
Qed.

Lemma soa_stable pre m r fixed post :
  dname_ok m -> dname_ok r -> zlen fixed = 20 ->
  zlen (pre ++ (name_bytes m ++ name_bytes r ++ fixed) ++ post) <= u64_max ->
  normalize_soa_rdata (pre ++ (name_bytes m ++ name_bytes r ++ fixed) ++ post) (zlen pre)
    (zlen pre + zlen (name_bytes m ++ name_bytes r ++ fixed)) = Ok (name_bytes m ++ name_bytes r ++ fixed).
Proof.
  intros Hm Hr Hf Hz. set (message := pre ++ _ ++ post) in *.
  assert (E1 : message = pre ++ name_bytes m ++ (name_bytes r ++ fixed ++ post))
    by (unfold message; by rewrite <- !app_assoc).
  assert (E2 : message = (pre ++ name_bytes m) ++ name_bytes r ++ (fixed ++ post))
    by (unfold message; by rewrite <- !app_assoc).
  assert (E3 : message = (pre ++ name_bytes m ++ name_bytes r) ++ fixed ++ post)
    by (unfold message; by rewrite <- !app_assoc).
  pose proof (zlen_nonneg (name_bytes r)).
  assert (P1 : parse_wire message (zlen pre) = Ok (m, zlen pre + zlen (name_bytes m)))
    by (rewrite E1 in *; by apply parse_wire_encoded).
  assert (P2 : parse_wire message (zlen pre + zlen (name_bytes m))
    = Ok (r, zlen pre + zlen (name_bytes m) + zlen (name_bytes r))).
  { rewrite <- zlen_app. rewrite E2 in *. by apply parse_wire_encoded. }
  unfold normalize_soa_rdata. rewrite P1, !zlen_app, Hf.
  rewrite (proj2 (Z.ltb_ge _ _)) by lia. rewrite P2.
  rewrite (proj2 (Z.ltb_ge _ _)) by lia. rewrite (proj2 (Z.ltb_ge _ 20)) by lia.
  rewrite (proj2 (Z.eqb_eq _ 20)) by lia. cbn [negb]. rewrite !encode_wire_ok by done.
  rewrite (get_range_at (pre ++ name_bytes m ++ name_bytes r) fixed post); [done|done| |];
    rewrite ?zlen_app; lia.
Qed.

Lemma plain_stable t rdata :
  match t with TNs | TCname | TSoa | TRrsig => False | _ => True end -> rdata_stable t rdata.
Proof. intros Ht pre post _. by destruct t. Qed.

Lemma rrsig_stable rdata :
  (forall byte, get rdata 18 = Some byte -> Z.land byte 0xc0 <> 0xc0) -> rdata_stable TRrsig rdata.
Proof.
  intros Hb pre post _. unfold normalize_record_rdata. destruct (get rdata 18) as [b|]; [|done].
  by rewrite (proj2 (Z.eqb_neq _ _) (Hb b eq_refl)).
Qed.

(** The first byte of an encoded name is not a pointer. *)
Lemma name_bytes_head n : dname_ok n -> exists b rest, name_bytes n = b :: rest /\ 0 <= b < 64.
Proof.
  intros [Hl _]. destruct n as [[|label labels]]; [by exists 0, []|]. rewrite name_bytes_cons.
  eexists _, _. split; [done|]. apply Forall_cons in Hl as [(? & _) _]. unfold MAX_DNS_LABEL_LEN in *. lia.
Qed.

Lemma prefixed_stable prefix n rest :
  dname_ok n -> zlen prefix = 18 -> rdata_stable TRrsig (prefix ++ name_bytes n ++ rest).
Proof.
  intros Hn Hp. apply rrsig_stable. intros byte.
  destruct (name_bytes_head n Hn) as (b & tl & -> & Hb). rewrite <- Hp. cbn [app]. rewrite get_app_mid.
  intros [= <-]. by rewrite land_192_small.
Qed.

Lemma normalize_sound message start stop t raw rdata :
  bytes_ok message -> 0 <= start -> get_range message start stop = Some raw ->
  normalize_record_rdata message start stop t raw = Ok rdata -> rdata_stable t rdata.
Proof.
  intros Hb Hs Hraw. unfold normalize_record_rdata.
  assert (Hexact : normalize_exact_name_rdata message start stop = Ok rdata ->
    exists n, dname_ok n /\ rdata = name_bytes n).
  { unfold normalize_exact_name_rdata. destruct (parse_wire message start) as [[n nx]|] eqn:E; [|done].
    apply parse_wire_sound in E as [Hn _]; [|done..]. do 2 (case_match; [done|]).
    rewrite encode_wire_ok by done. intros [= <-]. by exists n. }
  destruct t; try (intros [= <-]; by apply plain_stable).
  - intros H. destruct (Hexact H) as (n & Hn & ->). intros pre post Hz. by apply exact_name_stable.
  - intros H. destruct (Hexact H) as (n & Hn & ->). intros pre post Hz. by apply exact_name_stable.
  - unfold normalize_soa_rdata. destruct (parse_wire message start) as [[m nx]|] eqn:E1; [|done].
    apply parse_wire_sound in E1 as [Hm Hm2]; [|done..]. case_match; [done|].
    destruct (parse_wire message nx) as [[r fx]|] eqn:E2; [|done].
    apply parse_wire_sound in E2 as [Hr Hr2]; [|done|lia]. case_match; [done|].
    case_match; [done|]. case_match eqn:E20; [done|]. rewrite !encode_wire_ok by done.
    destruct (get_range message fx stop) as [fixed|] eqn:E3; [|done]. cbn [ok_or]. intros [= <-].
    apply get_range_Some in E3 as (_ & _ & Hf). breflect.
    intros pre post Hz. apply soa_stable; done || lia.
  - destruct (get raw 18) as [byte|] eqn:E18.
    2: { intros [= <-]. apply rrsig_stable. congruence. }
    destruct (Z.land byte 192 =? 192) eqn:Ep.
    2: { intros [= <-]. apply rrsig_stable. intros b. rewrite E18. intros [= <-]. by breflect. }
    unfold normalize_prefixed_name_rdata.
    destruct (checked_add start 18) as [ns|] eqn:E1; cbn [ok_or]; [|done].
    apply checked_add_Some in E1 as [-> _]. case_match; [done|].
    destruct (parse_wire message (start + 18)) as [[n nx]|] eqn:E2; [|done].
    apply parse_wire_sound in E2 as [Hn _]; [|done|lia]. case_match; [done|].
    destruct (get_range message start (start + 18)) as [prefix|] eqn:E3; cbn [ok_or]; [|done].
    apply get_range_Some in E3 as (_ & _ & Hpre). rewrite encode_wire_ok by done.
    destruct (get_range message nx stop) as [rest|]; cbn [ok_or]; [|done]. intros [= <-].
    apply prefixed_stable; [done|lia].
Qed.

(** ** Questions and records *)

Lemma be_at_here n v rest : 0 <= v < 256 ^ Z.of_nat n -> be_at (to_be n v ++ rest) 0 n = v.
Proof.
  intros Hv. unfold be_at. rewrite drop_0. rewrite <- (length_to_be n v) at 1.
  rewrite take_app_length. by apply from_be_to_be.
Qed.

Lemma be_at_skip x rest a n : be_at (x ++ rest) (length x + a) n = be_at rest a n.
Proof. unfold be_at. by rewrite drop_app_add. Qed.

Lemma be_at_skip_to m v rest a n : (m <= a)%nat -> be_at (to_be m v ++ rest) a n = be_at rest (a - m) n.
Proof.
  intros Hm. rewrite <- (be_at_skip (to_be m v) rest (a - m)). f_equal. rewrite length_to_be. lia.
Qed.

Lemma be_at_range fixed a (n : nat) : bytes_ok fixed -> (n <= length fixed - a)%nat -> 0 <= be_at fixed a n < 256 ^ Z.of_nat n.
Proof.
  intros Hb Hl. unfold be_at.
  assert (Hz : zlen (take n (drop a fixed)) = Z.of_nat n) by (unfold zlen; rewrite length_take, length_drop; lia).
  rewrite <- Hz. apply from_be_bound. by apply Forall_take, Forall_drop.
Qed.

Record dquestion_ok (q : DnsQuestion) : Prop := {
  qo_name : dname_ok (dq_name q); qo_type : dtype_ok (dq_type q); qo_class : in_u16 (dq_class q) }.

Record drecord_ok (r : ResourceRecord) : Prop := {
  ro_name : dname_ok (dr_name r); ro_type : dtype_ok (dr_type r); ro_class : in_u16 (dr_class r);
  ro_ttl : in_u32 (dr_ttl r); ro_rdata : rdata_stable (dr_type r) (dr_rdata r) }.

Lemma question_parse_ok message offset q next :
  bytes_ok message -> 0 <= offset -> question_parse message offset = Ok (q, next) ->
  dquestion_ok q /\ 0 <= next.
Proof.
  intros Hb Ho. unfold question_parse.
  destruct (parse_wire message offset) as [[n c]|] eqn:E1; [|done].
  apply parse_wire_sound in E1 as [Hn Hc]; [|done..].
  destruct (checked_add c 4) as [fe|] eqn:E2; cbn [ok_or]; [|done].
  apply checked_add_Some in E2 as [-> _].
  destruct (get_range message c (c + 4)) as [fixed|] eqn:E3; cbn [ok_or]; [|done]. intros [= <- <-].
  pose proof (get_range_bytes _ _ _ _ Hb E3) as Hf. apply get_range_Some in E3 as (_ & _ & Hz).
  assert (Hl : length fixed = 4%nat) by (unfold zlen in Hz; lia).
  pose proof (be_at_range fixed 0 2 Hf ltac:(lia)). pose proof (be_at_range fixed 2 2 Hf ltac:(lia)).
  split; [|lia]. split; cbn; [done|apply type_from_code_ok; width_lia|width_lia].
Qed.

Lemma record_parse_ok message offset r next :
  bytes_ok message -> 0 <= offset -> record_parse message offset = Ok (r, next) ->
  drecord_ok r /\ 0 <= next.
Proof.
  intros Hb Ho. unfold record_parse.
  destruct (parse_wire message offset) as [[n c]|] eqn:E1; [|done].
  apply parse_wire_sound in E1 as [Hn Hc]; [|done..].
  destruct (checked_add c 10) as [fe|] eqn:E2; cbn [ok_or]; [|done].
  apply checked_add_Some in E2 as [-> _].
  destruct (get_range message c (c + 10)) as [fixed|] eqn:E3; cbn [ok_or]; [|done].
  pose proof (get_range_bytes _ _ _ _ Hb E3) as Hf. apply get_range_Some in E3 as (_ & _ & Hz).
  assert (Hl : length fixed = 10%nat) by (unfold zlen in Hz; lia).
  pose proof (be_at_range fixed 0 2 Hf ltac:(lia)). pose proof (be_at_range fixed 2 2 Hf ltac:(lia)).
  pose proof (be_at_range fixed 4 4 Hf ltac:(lia)). pose proof (be_at_range fixed 8 2 Hf ltac:(lia)).
  case_match; [done|].
  destruct (checked_add (c + 10) _) as [stop|] eqn:E4; cbn [ok_or]; [|done].
  apply checked_add_Some in E4 as [-> _].
  destruct (get_range message (c + 10) _) as [raw|] eqn:E5; cbn [ok_or]; [|done].
  destruct (normalize_record_rdata _ _ _ _ _) as [rdata|] eqn:E6; [|done]. intros [= <- <-].
  split; [|lia].
  split; cbn; [done|apply type_from_code_ok; width_lia|width_lia|width_lia|].
  by apply (normalize_sound message (c + 10) _ _ raw rdata Hb ltac:(lia) E5).
Qed.

(** A name at the start of a chunk parses, and the chunk's rest follows it. *)
Lemma chunk_name pre n rest post :
  dname_ok n -> zlen (pre ++ (name_bytes n ++ rest) ++ post) <= u64_max ->
  parse_wire (pre ++ (name_bytes n ++ rest) ++ post) (zlen pre) = Ok (n, zlen (pre ++ name_bytes n)) /\
  pre ++ (name_bytes n ++ rest) ++ post = (pre ++ name_bytes n) ++ rest ++ post.
Proof.
  intros Hn Hz. split; [|by rewrite <- !app_assoc].
  replace (pre ++ (name_bytes n ++ rest) ++ post) with (pre ++ name_bytes n ++ (rest ++ post)) in *
    by (by rewrite <- app_assoc).
  rewrite zlen_app. by apply parse_wire_encoded.
Qed.

Lemma dns_question_back pre q bytes post :
  dquestion_ok q -> question_encode q = Ok bytes -> zlen (pre ++ bytes ++ post) <= u64_max ->
  question_parse (pre ++ bytes ++ post) (zlen pre) = Ok (q, zlen pre + zlen bytes).
Proof.
  intros [Hn [Ht1 Ht2] Hc] He Hz. unfold question_encode in He. rewrite encode_wire_ok in He by done.
  apply Ok_inj in He as <-. set (fixed := to_be 2 (type_code (dq_type q)) ++ to_be 2 (dq_class q)) in *.
  assert (Hf : zlen fixed = 4) by (unfold fixed; by rewrite zlen_app, !zlen_to_be).
  destruct (chunk_name pre (dq_name q) fixed post Hn Hz) as [P E].
  unfold question_parse. rewrite P, E. rewrite E, !zlen_app in Hz. pose proof (zlen_nonneg post).
  rewrite zlen_app, checked_add_small by lia. cbn [ok_or].
  rewrite (get_range_at (pre ++ name_bytes (dq_name q)) fixed post); [|done|by rewrite zlen_app|lia].
  cbn [ok_or]. unfold fixed. rewrite be_at_here by (width; lia). rewrite be_at_skip_to by lia.
  cbn [Nat.sub]. rewrite <- (app_nil_r (to_be 2 (dq_class q))), be_at_here by (width; lia).
  rewrite Ht2, !zlen_app, zlen_nil, !zlen_to_be. destruct q as [n t c]. cbn [dq_name dq_class]. do 2 f_equal. lia.
Qed.

Lemma dns_record_back pre r bytes post :
  drecord_ok r -> record_encode r = Ok bytes -> zlen (pre ++ bytes ++ post) <= u64_max ->
  record_parse (pre ++ bytes ++ post) (zlen pre) = Ok (r, zlen pre + zlen bytes).
Proof.
  intros [Hn [Ht1 Ht2] Hc Httl Hs] He Hz. unfold record_encode in He.
  destruct (u16_max <? zlen (dr_rdata r)) eqn:Hlen; [done|]. breflect.
  rewrite encode_wire_ok in He by done. apply Ok_inj in He as <-.
  set (rdata := dr_rdata r) in *. pose proof (zlen_nonneg rdata).
  set (fixed := to_be 2 (type_code (dr_type r)) ++ to_be 2 (dr_class r) ++ to_be 4 (dr_ttl r) ++ to_be 2 (zlen rdata)).
  assert (Hf : zlen fixed = 10) by (unfold fixed; by rewrite !zlen_app, !zlen_to_be).
  replace (name_bytes (dr_name r) ++ to_be 2 (type_code (dr_type r)) ++ to_be 2 (dr_class r)
    ++ to_be 4 (dr_ttl r) ++ to_be 2 (zlen rdata) ++ rdata) with (name_bytes (dr_name r) ++ (fixed ++ rdata)) in *
    by (unfold fixed; by rewrite <- !app_assoc).
  destruct (chunk_name pre (dr_name r) (fixed ++ rdata) post Hn Hz) as [P E].
  unfold record_parse. rewrite P, E. rewrite E in Hz. set (pre2 := pre ++ name_bytes (dr_name r)) in *.
  assert (E3 : pre2 ++ (fixed ++ rdata) ++ post = (pre2 ++ fixed) ++ rdata ++ post) by (by rewrite <- !app_assoc).
  specialize (Hs (pre2 ++ fixed) post). rewrite <- E3 in Hs. specialize (Hs Hz).
  rewrite !zlen_app in Hz. pose proof (zlen_nonneg post). pose proof (zlen_nonneg pre2).
  rewrite checked_add_small by lia. cbn [ok_or].
  rewrite (get_range_at pre2 fixed (rdata ++ post)); [|by rewrite <- app_assoc|done|lia]. cbn [ok_or].
  assert (B : be_at fixed 0 2 = type_code (dr_type r) /\ be_at fixed 2 2 = dr_class r /\
    be_at fixed 4 4 = dr_ttl r /\ be_at fixed 8 2 = zlen rdata).
  { unfold fixed. rewrite <- (app_nil_r (to_be 2 (zlen rdata))).
    split_and!; rewrite ?be_at_skip_to by lia; cbn [Nat.sub]; apply be_at_here; width; lia. }
  destruct B as (-> & -> & -> & ->). rewrite (proj2 (Z.ltb_ge MAX_RDATA_LEN (zlen rdata)))
    by (unfold MAX_RDATA_LEN; width_lia).
  rewrite checked_add_small by lia. cbn [ok_or].
  rewrite (get_range_at (pre2 ++ fixed) rdata post); [|done|rewrite zlen_app; lia|lia]. cbn [ok_or].
  rewrite Ht2. rewrite zlen_app, Hf in Hs. rewrite Hs.
  unfold pre2. rewrite !zlen_app, Hf. subst rdata. destruct r as [n t c ttl rd]. cbn [dr_name dr_rdata dr_class dr_ttl dr_type]. do 2 f_equal. lia.
Qed.

(** ** Messages *)

Section counts.
Context {T : Type} (parse : list Z -> Z -> result ParseError (T * Z)).
Context (encode : T -> result ParseError (list Z)) (P : T -> Prop).

Lemma parse_count_ok message items : forall cursor count next,
  (forall offset x next, 0 <= offset -> parse message offset = Ok (x, next) -> P x /\ 0 <= next) ->
  0 <= cursor -> parse_count parse message cursor count = Ok (items, next) ->
  Forall P items /\ length items = count /\ 0 <= next.
Proof.
  revert items. intros items cursor count next Hp. revert items cursor next.
  induction count as [|count IH]; intros items cursor next Hc H; cbn [parse_count] in H.
  - injection H as <- <-. done.
  - destruct (parse message cursor) as [[x nx]|] eqn:E; [|done].
    apply Hp in E as [Hx Hnx]; [|done].
    destruct (parse_count parse message nx count) as [[xs nx2]|] eqn:E2; [|done]. injection H as <- <-.
    apply IH in E2 as (? & ? & ?); [|done]. split_and!; [by constructor|simpl; lia|done].
Qed.

Lemma count_roundtrip items : forall pre bytes post,
  (forall pre x bytes post, P x -> encode x = Ok bytes -> zlen (pre ++ bytes ++ post) <= u64_max ->
     parse (pre ++ bytes ++ post) (zlen pre) = Ok (x, zlen pre + zlen bytes)) ->
  Forall P items -> encode_all encode items = Ok bytes -> zlen (pre ++ bytes ++ post) <= u64_max ->
  parse_count parse (pre ++ bytes ++ post) (zlen pre) (length items) = Ok (items, zlen (pre ++ bytes)).
Proof.
  induction items as [|x items IH]; intros pre bytes post Hr HP He Hz; cbn [encode_all parse_count length] in *.
  - injection He as <-. by rewrite app_nil_r.
  - apply Forall_cons in HP as [Hx HP]. destruct (encode x) as [bx|] eqn:Ex; [|done].
    destruct (encode_all encode items) as [bs|] eqn:Es; [|done]. injection He as <-.
    replace (pre ++ (bx ++ bs) ++ post) with (pre ++ bx ++ (bs ++ post)) in * by (by rewrite <- app_assoc).
    rewrite (Hr _ _ _ _ Hx Ex Hz). rewrite <- zlen_app.
    replace (pre ++ bx ++ (bs ++ post)) with ((pre ++ bx) ++ bs ++ post) in * by (by rewrite <- app_assoc).
    rewrite (IH _ bs post Hr HP eq_refl Hz). by rewrite <- app_assoc.
Qed.
End counts.

(** Messages the parser can return. *)
Record dmessage_ok (m : DnsMessage) : Prop := {
  mo_id : in_u16 (dh_id (dm_header m)); mo_flags : in_u16 (df_bits (dh_flags (dm_header m)));
  mo_qd : dh_questions (dm_header m) = zlen (dm_questions m);
  mo_an : dh_answers (dm_header m) = zlen (dm_answers m);
  mo_ns : dh_authorities (dm_header m) = zlen (dm_authorities m);
  mo_ar : dh_additionals (dm_header m) = zlen (dm_additionals m);
  mo_questions : Forall dquestion_ok (dm_questions m); mo_answers : Forall drecord_ok (dm_answers m);
  mo_authorities : Forall drecord_ok (dm_authorities m);
  mo_additionals : Forall drecord_ok (dm_additionals m) }.

Lemma read_be_ok N r v r' :
  bytes_ok (rd_data r) -> 0 <= N -> 0 <= rd_offset r -> rd_read_be N r = Ok (v, r') ->
  0 <= v < 256 ^ N /\ rd_data r' = rd_data r /\ 0 <= rd_offset r'.
Proof.
  intros Hb HN Ho. unfold rd_read_be, rd_read_array, rd_read_bytes.
  destruct (checked_add _ _) as [stop|] eqn:E; cbn [ok_or]; [|done].
  apply checked_add_Some in E as [-> _]. destruct (zlen (rd_data r) <? _) eqn:Elt; [done|]. intros [= <- <-]. breflect. cbn.
  set (bytes := take _ _).
  assert (Hz : zlen bytes = N) by (unfold bytes, zlen in *; rewrite length_take, length_drop; lia).
  split; [|split; [done|lia]]. rewrite <- Hz. apply from_be_bound. by apply Forall_take, Forall_drop.
Qed.

Lemma read_be_back n v : 0 <= v < 256 ^ Z.of_nat n -> reads_back (rd_read_be (Z.of_nat n)) (to_be n v) v.
Proof.
  intros Hv. rewrite <- (from_be_to_be n v) at 2 by done. unfold rd_read_be.
  apply (reads_last (rd_read_array (Z.of_nat n)) from_be), read_array_back, zlen_to_be.
Qed.

Lemma dns_header_ok data h :
  bytes_ok data -> dns_header_parse data = Ok h ->
  Forall in_u16 [dh_id h; df_bits (dh_flags h); dh_questions h; dh_answers h; dh_authorities h;
                 dh_additionals h].
Proof.
  intros Hb. unfold dns_header_parse.
  assert (Hgo : forall r, bytes_ok (rd_data r) -> 0 <= rd_offset r -> forall v r',
    rd_read_be 2 r = Ok (v, r') -> in_u16 v /\ bytes_ok (rd_data r') /\ 0 <= rd_offset r').
  { intros r Hr Ho v r' E. apply read_be_ok in E as (H1 & -> & H3); [|done|lia|done].
    split_and!; [width; lia|done|done]. }
  assert (H0 : bytes_ok (rd_data (rd_new data)) /\ 0 <= rd_offset (rd_new data)) by (split; [done|cbn; lia]).
  destruct H0 as [H0 H0']. generalize dependent (rd_new data). intros r0 H0 H0'.
  destruct (rd_read_be 2 r0) as [[v1 r1]|] eqn:E1; [|done]. apply Hgo in E1 as (V1 & B1 & O1); [|done..].
  destruct (rd_read_be 2 r1) as [[v2 r2]|] eqn:E2; [|done]. apply Hgo in E2 as (V2 & B2 & O2); [|done..].
  destruct (rd_read_be 2 r2) as [[v3 r3]|] eqn:E3; [|done]. apply Hgo in E3 as (V3 & B3 & O3); [|done..].
  destruct (rd_read_be 2 r3) as [[v4 r4]|] eqn:E4; [|done]. apply Hgo in E4 as (V4 & B4 & O4); [|done..].
  destruct (rd_read_be 2 r4) as [[v5 r5]|] eqn:E5; [|done]. apply Hgo in E5 as (V5 & B5 & O5); [|done..].
  destruct (rd_read_be 2 r5) as [[v6 r6]|] eqn:E6; [|done]. apply Hgo in E6 as (V6 & _ & _); [|done..].
  intros [= <-]. cbn. by rewrite !Forall_cons, Forall_nil.
Qed.

Lemma dns_header_back h :
  Forall in_u16 [dh_id h; df_bits (dh_flags h); dh_questions h; dh_answers h; dh_authorities h;
                 dh_additionals h] ->
  dns_header_parse (to_be 2 (dh_id h) ++ to_be 2 (df_bits (dh_flags h)) ++ to_be 2 (dh_questions h)
    ++ to_be 2 (dh_answers h) ++ to_be 2 (dh_authorities h) ++ to_be 2 (dh_additionals h)) = Ok h.
Proof.
  intros Hf. rewrite !Forall_cons in Hf. destruct Hf as (H1 & H2 & H3 & H4 & H5 & H6 & _).
  set (data := to_be 2 _ ++ _).
  assert (Hs : standing (rd_new data) [] (data ++ [])).
  { split_and!; [by rewrite app_nil_r|done|]. rewrite app_nil_l, app_nil_r. unfold data.
    rewrite !zlen_app, !zlen_to_be. width_lia. }
  revert Hs. unfold data at 2. rewrite <- !app_assoc. intros Hs. unfold dns_header_parse.
  change 2 with (Z.of_nat 2).
  read_field (read_be_back 2 (dh_id h) ltac:(width; lia)).
  read_field (read_be_back 2 (df_bits (dh_flags h)) ltac:(width; lia)).
  read_field (read_be_back 2 (dh_questions h) ltac:(width; lia)).
  read_field (read_be_back 2 (dh_answers h) ltac:(width; lia)).
  read_field (read_be_back 2 (dh_authorities h) ltac:(width; lia)).
  read_field (read_be_back 2 (dh_additionals h) ltac:(width; lia)).
  by destruct h as [? [] ? ? ? ?].
Qed.

Lemma dns_message_parse_ok data m :
  bytes_ok data -> dns_message_parse data = Ok m -> dmessage_ok m.
Proof.
  intros Hb. unfold dns_message_parse. case_match; [done|].
  destruct (dns_header_parse (take 12 data)) as [h|] eqn:Eh; [|done].
  apply dns_header_ok in Eh; [|by apply Forall_take]. rewrite !Forall_cons in Eh.
  destruct Eh as (H1 & H2 & H3 & H4 & H5 & H6 & _). do 2 (case_match; [done|]). unfold dns_parse_records.
  destruct (parse_count question_parse _ _ _) as [[qs c1]|] eqn:E1; [|done].
  destruct (parse_count record_parse _ c1 _) as [[an c2]|] eqn:E2; [|done].
  destruct (parse_count record_parse _ c2 _) as [[ns c3]|] eqn:E3; [|done].
  destruct (parse_count record_parse _ c3 _) as [[ar c4]|] eqn:E4; [|done].
  case_match; [done|]. intros [= <-].
  pose proof (fun o x n => question_parse_ok data o x n Hb) as Q.
  pose proof (fun o x n => record_parse_ok data o x n Hb) as R.
  apply (parse_count_ok question_parse dquestion_ok) in E1 as (? & L1 & N1); [|exact Q|lia].
  apply (parse_count_ok record_parse drecord_ok) in E2 as (? & L2 & N2); [|exact R|done].
  apply (parse_count_ok record_parse drecord_ok) in E3 as (? & L3 & N3); [|exact R|done].
  apply (parse_count_ok record_parse drecord_ok) in E4 as (? & L4 & N4); [|exact R|done].
  split; cbn; try done; unfold zlen; width_lia.
Qed.

Lemma dns_message_roundtrip m max bytes :
  dmessage_ok m -> max <= u64_max -> dns_message_encode m max = Ok bytes -> dns_message_parse bytes = Ok m.
Proof.
  intros [Hid Hfl Hqd Han Hns Har Hq Ha Hu Hd] Hmax. unfold dns_message_encode.
  destruct (_ || _) eqn:Elim; [done|].
  destruct (encode_all question_encode _) as [bq|] eqn:E1; [|done].
  destruct (encode_all record_encode (dm_answers m)) as [ba|] eqn:E2; [|done].
  destruct (encode_all record_encode (dm_authorities m)) as [bu|] eqn:E3; [|done].
  destruct (encode_all record_encode (dm_additionals m)) as [bd|] eqn:E4; [|done].
  rewrite <- Hqd, <- Han, <- Hns, <- Har. set (h := dm_header m) in *.
  set (hb := to_be 2 (dh_id h) ++ to_be 2 (df_bits (dh_flags h)) ++ to_be 2 (dh_questions h)
    ++ to_be 2 (dh_answers h) ++ to_be 2 (dh_authorities h) ++ to_be 2 (dh_additionals h)).
  set (out := to_be 2 (dh_id h) ++ _). assert (Ho : out = hb ++ bq ++ ba ++ bu ++ bd ++ [])
    by (unfold out, hb; by rewrite app_nil_r, <- !app_assoc).
  clearbody out. subst out. case_match eqn:Eo; [done|]. intros He%Ok_inj. subst bytes. breflect.
  assert (Hh : zlen hb = 12) by (unfold hb; by rewrite !zlen_app, !zlen_to_be).
  unfold total_records, MAX_DNS_QUESTIONS, MAX_DNS_RECORDS in *.
  pose proof (zlen_nonneg (dm_questions m)); pose proof (zlen_nonneg (dm_answers m));
  pose proof (zlen_nonneg (dm_authorities m)); pose proof (zlen_nonneg (dm_additionals m)).
  unfold dns_message_parse. rewrite (proj2 (Z.ltb_ge _ _)).
  2: { rewrite zlen_app, Hh. pose proof (zlen_nonneg (bq ++ ba ++ bu ++ bd ++ [])). lia. }
  replace 12%nat with (length hb) by (unfold zlen in Hh; lia). rewrite take_app_length.
  unfold hb at 1. rewrite dns_header_back; [|by repeat (apply Forall_cons; split); try width_lia].
  unfold MAX_DNS_QUESTIONS, MAX_DNS_RECORDS. do 2 (rewrite (proj2 (Z.ltb_ge _ _)) by lia).
  rewrite Hqd, Han, Hns, Har. unfold dns_parse_records, zlen at 1 2 3 4. rewrite !Nat2Z.id, <- Hh.
  assert (Hz : zlen (hb ++ bq ++ ba ++ bu ++ bd ++ []) <= u64_max) by lia.
  rewrite (count_roundtrip question_parse question_encode dquestion_ok _ hb bq (ba ++ bu ++ bd ++ [])
             dns_question_back Hq E1 Hz).
  rewrite (app_assoc hb bq) in *.
  rewrite (count_roundtrip record_parse record_encode drecord_ok _ (hb ++ bq) ba (bu ++ bd ++ [])
             dns_record_back Ha E2 Hz).
  rewrite (app_assoc (hb ++ bq) ba) in *.
  rewrite (count_roundtrip record_parse record_encode drecord_ok _ ((hb ++ bq) ++ ba) bu (bd ++ [])
             dns_record_back Hu E3 Hz).
  rewrite (app_assoc ((hb ++ bq) ++ ba) bu) in *.
  rewrite (count_roundtrip record_parse record_encode drecord_ok _ (((hb ++ bq) ++ ba) ++ bu) bd []
             dns_record_back Hd E4 Hz).
  rewrite app_nil_r, Z.eqb_refl. cbn [negb]. by destruct m.
Qed.

(** Messages canonicalise: what the parser accepts is well formed and
    re-encodes (when it fits) to bytes that parse to the same message, compressed
    names and all. *)
Theorem dns_message_canonicalises data m max bytes :
  bytes_ok data -> max <= u64_max ->
  dns_message_parse data = Ok m -> dns_message_encode m max = Ok bytes ->
  dmessage_ok m /\ zlen bytes <= max /\ dns_message_parse bytes = Ok m.
Proof.
  intros Hb Hmax Hp He. split; [by apply (dns_message_parse_ok data)|]. split.
  - unfold dns_message_encode in He. case_match; [done|].
    repeat (destruct (encode_all _ _) as [?|]; [|done]). case_match; [done|]. apply Ok_inj in He as <-.
    by breflect.
  - apply (dns_message_roundtrip m max); [|done..]. by apply (dns_message_parse_ok data).
Qed.

(** A message with a compressed NS name, and what it re-encodes to. *)
Definition toy_message : list Z :=
  [0x12; 0x34; 0x84; 0; 0; 1; 0; 1; 0; 0; 0; 0; 3; 67; 111; 77; 0; 0; 2; 0; 1;
   0xc0; 12; 0; 2; 0; 1; 0; 0; 0; 60; 0; 5; 2; 110; 115; 0xc0; 12].

Lemma dns_message_canonicalises_witness :
  exists m, dns_message_parse toy_message = Ok m /\
    option_map zlen (ok_of (dns_message_encode m 1232)) = Some 44 /\
    forall bytes, dns_message_encode m 1232 = Ok bytes -> dns_message_parse bytes = Ok m.
Proof.
  assert (Hb : bytes_ok toy_message)
    by (repeat (apply Forall_cons; split); try apply Forall_nil; width_lia).
  destruct (dns_message_parse toy_message) as [m|] eqn:E; [|vm_compute in E; discriminate].
  exists m. split; [done|]. split; [vm_compute in E; injection E as <-; vm_compute; reflexivity|].
  intros bytes He. apply (dns_message_canonicalises toy_message m 1232 bytes Hb); [by vm_compute|done|done].
Defined.

Lemma toy_name_ok : dname_ok {| dn_labels := [[110; 115; 49]; [104; 110; 115]] |}.
Proof.
  split; [|by vm_compute].
  apply Forall_cons; split; [|apply Forall_cons; split; [|by apply Forall_nil]];
    (split_and!; [by vm_compute|by vm_compute|done| |done]);
    repeat (apply Forall_cons; split); try apply Forall_nil; width_lia.
Qed.

Lemma dns_name_roundtrip_witness :
  exists bytes, encode_wire {| dn_labels := [[110; 115; 49]; [104; 110; 115]] |} = Ok bytes /\
    parse_wire ([9; 9] ++ bytes ++ [7]) 2 = Ok ({| dn_labels := [[110; 115; 49]; [104; 110; 115]] |}, 11).
Proof.
  destruct (dns_name_roundtrip [9; 9] _ [7] toy_name_ok) as (bytes & He & _ & Hp); [by vm_compute|].
  exists bytes. split; [done|]. revert Hp. vm_compute in He. injection He as <-. intros Hp. exact Hp.
Defined.

Lemma dns_name_parse_bounded_witness :
  exists n next, parse_wire toy_message 33 = Ok (n, next) /\ dname_ok n /\ next = 38.
Proof.
  assert (Hb : bytes_ok toy_message)
    by (repeat (apply Forall_cons; split); try apply Forall_nil; width_lia).
  destruct (dns_name_parse_bounded toy_message 33 Hb) as [_ Hs]; [split; by vm_compute|].
  destruct (parse_wire toy_message 33) as [[n next]|] eqn:E; [|vm_compute in E; discriminate].
  exists n, next. split; [done|]. split; [apply (Hs n next eq_refl)|].
  vm_compute in E. by injection E as _ <-.
Defined.

(** ** SVCB *)

Lemma loop_advances {St E A} (step : St -> result E (St + A)) (I : St -> Prop) (pos : St -> Z)
    (len : Z) fuel s :
  (forall s s', I s -> step s = Ok (inl s') -> I s' /\ pos s < pos s' <= len) ->
  I s -> len - pos s < Z.of_nat fuel -> 0 <= len - pos s -> exists r, loop fuel step s = Some r.
Proof.
  intros Hs Hi Hf Hp. apply (loop_terminates step (fun s => I s /\ pos s <= len) (fun s => Z.to_nat (len - pos s)));
    [|split; [done|lia]|lia].
  intros s1 s2 [H1 H2] E1. destruct (Hs s1 s2 H1 E1). split; [split; [done|lia]|lia].
Qed.

Lemma alpn_fuel value : exists r, loop (S (length value)) (alpn_step value) (0, []) = Some r.
Proof.
  apply (loop_advances _ (fun s => 0 <= fst s) fst (zlen value)); [|done|cbn; unfold zlen; lia|cbn; pose proof (zlen_nonneg value); lia].
  intros [c ids] [c' ids'] Hc. unfold alpn_step. cbn [fst] in *. case_match; [done|].
  destruct (get value c) as [len|] eqn:E; cbn [ok_or]; [|done]. case_match; [done|].
  destruct (checked_add _ _) as [stop|] eqn:E2; cbn [ok_or]; [|done].
  destruct (get_range _ _ _) as [id|] eqn:E3; cbn [ok_or]; [|done]. intros [= <- <-].
  apply get_range_Some in E3. lia.
Qed.

Lemma plain_name_fuel message offset :
  0 <= offset <= zlen message ->
  exists r, loop (S (length message)) (plain_name_step message) ([], offset) = Some r.
Proof.
  intros Ho. apply (loop_advances _ (fun s => 0 <= snd s) snd (zlen message)); [|cbn; lia|cbn; unfold zlen; lia|cbn; lia].
  intros [ls c] [ls' c'] Hc. unfold plain_name_step. cbn [snd] in *.
  destruct (get message c) as [len|] eqn:E; cbn [ok_or]; [|done]. case_match; [done|].
  destruct (len =? 0); [by case_match|]. case_match; [done|].
  destruct (checked_add _ _) as [stop|] eqn:E2; cbn [ok_or]; [|done].
  destruct (get_range _ _ _) as [id|] eqn:E3; cbn [ok_or]; [|done]. case_match; [done|]. intros [= <- <-].
  apply get_range_Some in E3. lia.
Qed.

Lemma svcb_fuel rdata cursor :
  0 <= cursor <= zlen rdata ->
  exists r, loop (S (length rdata)) (svcb_step rdata)
    {| sb_cursor := cursor; sb_previous := None; sb_params := [] |} = Some r.
Proof.
  intros Hc. apply (loop_advances _ (fun s => 0 <= sb_cursor s) sb_cursor (zlen rdata));
    [|cbn; lia|cbn; unfold zlen; lia|cbn; lia].
  intros s s' Hs. unfold svcb_step. case_match; [done|].
  destruct (checked_add _ 4) as [fe|] eqn:E1; cbn [ok_or]; [|done].
  destruct (get_range _ _ fe) as [fixed|] eqn:E2; cbn [ok_or]; [|done]. case_match; [done|].
  destruct (checked_add _ (be_at _ _ _)) as [stop|] eqn:E3; cbn [ok_or]; [|done].
  destruct (get_range _ _ stop) as [value|] eqn:E4; cbn [ok_or]; [|done]. case_match; [|done].
  intros [= <-]. cbn. apply get_range_Some in E4. lia.
Qed.

(** Parameters with strictly ascending keys and validated values. *)
Record svcb_inv (st : svcb_state) : Prop := {
  si_sorted : StronglySorted Z.lt (map sp_key (sb_params st));
  si_valid : Forall (fun p => validate_svc_param_value (sp_key p) (sp_value p) = Ok tt) (sb_params st);
  si_previous : match sb_previous st with
                | None => sb_params st = []
                | Some k => Forall (fun p => sp_key p <= k) (sb_params st)
                end }.

Lemma sorted_snoc (l : list Z) k :
  StronglySorted Z.lt l -> Forall (fun x => x < k) l -> StronglySorted Z.lt (l ++ [k]).
Proof.
  induction 1 as [|x l Hl IH Hx]; intros Hk; cbn [app]; [by repeat constructor|].
  apply Forall_cons in Hk as [? Hk]. constructor; [by apply IH|]. apply Forall_app. split; [done|].
  by constructor.
Qed.

Lemma svcb_step_inv rdata st st' :
  svcb_inv st -> svcb_step rdata st = Ok (inl st') -> svcb_inv st'.
Proof.
  intros [Hs Hv Hp]. unfold svcb_step. destruct (zlen rdata <=? sb_cursor st); [done|].
  destruct (checked_add _ 4) as [fe|]; cbn [ok_or]; [|done].
  destruct (get_range _ _ fe) as [fixed|]; cbn [ok_or]; [|done].
  destruct (not_above (be_at fixed 0 2) (sb_previous st)) eqn:Ek; [done|].
  destruct (checked_add _ (be_at _ _ _)) as [stop|]; cbn [ok_or]; [|done].
  destruct (get_range _ _ stop) as [value|]; cbn [ok_or]; [|done].
  destruct (validate_svc_param_value _ value) as [[]|] eqn:Ev; [|done]. intros [= <-].
  set (k := be_at fixed 0 2) in *.
  assert (Hlt : Forall (fun p => sp_key p < k) (sb_params st)).
  { unfold not_above in Ek. destruct (sb_previous st) as [q|]; [|by rewrite Hp]. breflect.
    eapply Forall_impl; [exact Hp|]. cbn. lia. }
  split; cbn.
  - rewrite map_app. apply sorted_snoc; [done|]. by apply Forall_map.
  - apply Forall_app. split; [done|by constructor].
  - apply Forall_app. split; [|constructor; [cbn; lia|done]]. eapply Forall_impl; [exact Hlt|]. cbn. lia.
Qed.

Lemma find_sorted params p :
  StronglySorted Z.lt (map sp_key params) -> p ∈ params ->
  find (fun q => sp_key q =? sp_key p) params = Some p.
Proof.
  induction params as [|q params IH]; intros Hs Hin; [by apply not_elem_of_nil in Hin|].
  cbn [map] in Hs. apply StronglySorted_inv in Hs as [Hs Hq]. cbn [find].
  apply elem_of_cons in Hin as [->|Hin]; [by rewrite Z.eqb_refl|].
  rewrite Forall_map, Forall_forall in Hq. specialize (Hq p Hin). cbn in Hq.
  rewrite (proj2 (Z.eqb_neq _ _)) by lia. by apply IH.
Qed.

(** The state at the end of the parameter loop. *)
Lemma svcb_parsed_inv rdata s :
  svcb_parse_rdata rdata = Ok s ->
  StronglySorted Z.lt (map sp_key (sv_params s)) /\
  Forall (fun p => validate_svc_param_value (sp_key p) (sp_value p) = Ok tt) (sv_params s).
Proof.
  unfold svcb_parse_rdata. case_match; [done|].
  destruct (parse_uncompressed_dns_name rdata 2) as [[target cursor]|]; [|done].
  destruct (loop _ _ _) as [r|] eqn:El; [|done]. destruct r as [params|]; [|done]. intros [= <-].
  apply (loop_result (svcb_step rdata) svcb_inv (fun params =>
    StronglySorted Z.lt (map sp_key params) /\
    Forall (fun p => validate_svc_param_value (sp_key p) (sp_value p) = Ok tt) params) _ _ _) in El; [done|..].
  - apply svcb_step_inv.
  - intros st a [Hs Hv _]. unfold svcb_step. destruct (zlen rdata <=? _); [by intros [= <-]|].
    destruct (checked_add _ 4); cbn [ok_or]; [|done]. destruct (get_range _ _ _); cbn [ok_or]; [|done].
    case_match; [done|]. destruct (checked_add _ _); cbn [ok_or]; [|done].
    destruct (get_range _ _ _); cbn [ok_or]; [|done]. by case_match.
  - split; cbn; [constructor|constructor|done].
Qed.

(** SVCB records are consistent once parsed: keys strictly ascend, so every
    parameter is found under its key; and the protocol and port accessors cannot
    fail, because parsing validated what they decode. *)
Theorem svcb_accessors_total rdata s :
  svcb_parse_rdata rdata = Ok s ->
  StronglySorted Z.lt (map sp_key (sv_params s)) /\
  (forall p, p ∈ sv_params s -> svcb_param s (sp_key p) = Some (sp_value p)) /\
  (exists ids, alpn_ids s = Ok ids) /\
  (exists port, svcb_port s = Ok port /\
     forall v, svcb_param s SVCB_PARAM_PORT = Some v -> zlen v = 2).
Proof.
  intros (Hs & Hv)%svcb_parsed_inv. rewrite Forall_forall in Hv.
  assert (Hvalid : forall key v, svcb_param s key = Some v -> validate_svc_param_value key v = Ok tt).
  { intros key v. unfold svcb_param. destruct (find _ _) as [p|] eqn:Ef; [|done]. intros [= <-].
    apply find_some in Ef as [Hin Hk]. apply Z.eqb_eq in Hk as <-. apply Hv. by apply list_elem_of_In. }
  split; [done|]. split.
  { intros p Hp. unfold svcb_param. by rewrite find_sorted. }
  split.
  - unfold alpn_ids. destruct (svcb_param s SVCB_PARAM_ALPN) as [v|] eqn:E; [|by exists []].
    apply Hvalid in E. unfold validate_svc_param_value in E. cbn in E.
    destruct (parse_alpn_ids v) as [ids|]; [by exists ids|done].
  - unfold svcb_port. destruct (svcb_param s SVCB_PARAM_PORT) as [v|] eqn:E; [|by exists None].
    apply Hvalid in E. unfold validate_svc_param_value in E. cbn in E.
    destruct (zlen v =? 2) eqn:Ez; [|done]. cbn [negb]. eexists. split; [done|].
    intros v' [= <-]. by breflect.
Qed.

(** Priority 1, target root, ALPN h2 and port 8443. *)
Definition toy_svcb : list Z := [0; 1; 0; 0; 1; 0; 3; 2; 104; 50; 0; 3; 0; 2; 0x20; 0xfb].

Lemma svcb_accessors_total_witness :
  exists s, svcb_parse_rdata toy_svcb = Ok s /\ map sp_key (sv_params s) = [1; 3] /\
    (exists port, svcb_port s = Ok port).
Proof.
  destruct (svcb_parse_rdata toy_svcb) as [s|] eqn:E; [|vm_compute in E; discriminate].
  exists s. destruct (svcb_accessors_total toy_svcb s E) as (_ & _ & _ & port & Hp & _).
  split; [done|]. split; [vm_compute in E; injection E as <-; reflexivity|by exists port].
Defined.
