(* ===== verification/PrimResource.v ===== *)
(** * Handshake resource records of the browser crates

    Models [src/crates/hns-browser-primitives/src/resource.rs]: a name's
    on-chain resource decoded to DNS records. The theorems: the decoder
    terminates within its limits; the only names an address record can have lie
    under the owner or spell the address itself; and the spelling is exact. *)

From S2P Require Import Prelude PrimHash PrimPow PrimHeader PrimDns PrimDnsProps.

Definition DEFAULT_HANDSHAKE_RESOURCE_TTL : Z := 21600.
Definition MAX_HANDSHAKE_RESOURCE_RECORDS : Z := 128.
Definition MAX_HANDSHAKE_TXT_STRINGS : Z := 64.

Definition RESOURCE_VERSION : Z := 0.
Definition HS_TYPE_DS : Z := 0.
Definition HS_TYPE_NS : Z := 1.
Definition HS_TYPE_GLUE4 : Z := 2.
Definition HS_TYPE_GLUE6 : Z := 3.
Definition HS_TYPE_SYNTH4 : Z := 4.
Definition HS_TYPE_SYNTH6 : Z := 5.
Definition HS_TYPE_TXT : Z := 6.

Inductive HnsResourceError :=
| ResourceMalformed | ResourceUnsupportedVersion | ResourceUnsupportedRecordType
| ResourceTooManyRecords.

(** ** The cursor: the data and an offset *)

Definition rc_read_u8 (data : list Z) (offset : Z) : result HnsResourceError (Z * Z) :=
  let? byte := ok_or (get data offset) ResourceMalformed in Ok (byte, offset + 1).

Definition rc_read_bytes (data : list Z) (offset len : Z) : result HnsResourceError (list Z * Z) :=
  let? stop := ok_or (checked_add offset len) ResourceMalformed in
  let? bytes := ok_or (get_range data offset stop) ResourceMalformed in
  Ok (bytes, stop).

(** [read_array] and [read_u16_be]. *)
Definition rc_read_array (data : list Z) (offset N : Z) : result HnsResourceError (list Z * Z) :=
  rc_read_bytes data offset N.
Definition rc_read_u16_be (data : list Z) (offset : Z) : result HnsResourceError (Z * Z) :=
  let? (bytes, offset) := rc_read_array data offset 2 in Ok (from_be bytes, offset).

Definition rc_read_len_u8_bytes (data : list Z) (offset : Z) : result HnsResourceError (list Z * Z) :=
  let? (len, offset) := rc_read_u8 data offset in
  rc_read_bytes data offset len.

Definition rc_read_name (data : list Z) (offset : Z) : result HnsResourceError (DnsName * Z) :=
  let? (name, next) := map_err (parse_wire data offset) ResourceMalformed in
  if (next <=? offset) || (zlen data <? next) then Err ResourceMalformed else Ok (name, next).

(** ** Records *)

Definition push_record (records : list ResourceRecord) (record : ResourceRecord)
    : result HnsResourceError (list ResourceRecord) :=
  if MAX_HANDSHAKE_RESOURCE_RECORDS <=? zlen records then Err ResourceTooManyRecords
  else Ok (records ++ [record]).

Definition hs_record (name : DnsName) (record_type : RecordType) (ttl : Z) (rdata : list Z)
    : ResourceRecord :=
  {| dr_name := name; dr_type := record_type; dr_class := 1; dr_ttl := ttl; dr_rdata := rdata |}.

Definition name_rdata (name : DnsName) : result HnsResourceError (list Z) :=
  map_err (encode_wire name) ResourceMalformed.

(** [slice.ends_with]. *)
Definition ends_with (labels suffix : list (list Z)) : bool :=
  (length suffix <=? length labels)%nat
  && bool_decide (drop (length labels - length suffix) labels = suffix).
Definition is_subdomain_or_equal (name parent : DnsName) : bool :=
  ends_with (dn_labels name) (dn_labels parent).

(** ["0123456789abcdefghijklmnopqrstuv"]. *)
Definition ALPHABET : list Z :=
  [48; 49; 50; 51; 52; 53; 54; 55; 56; 57; 97; 98; 99; 100; 101; 102; 103; 104; 105; 106; 107; 108;
   109; 110; 111; 112; 113; 114; 115; 116; 117; 118].

(** [while bits >= 5]; a byte leaves at most 12 bits, so two turns and the test
    that ends the loop. *)
Fixpoint base32_emit (fuel : nat) (buffer bits : Z) (out : list Z) : list Z * Z :=
  match fuel with
  | O => (out, bits)
  | S fuel =>
      if 5 <=? bits then
        let index := Z.land (Z.shiftr buffer (bits - 5)) 0x1f in
        base32_emit fuel buffer (bits - 5) (out ++ [default 0 (ALPHABET !! Z.to_nat index)])
      else (out, bits)
  end.

(** One turn of [for byte in input]. *)
Definition base32_byte (st : list Z * Z * Z) (byte : Z) : list Z * Z * Z :=
  let '(out, buffer, bits) := st in
  let buffer := Z.lor (Z.shiftl buffer 8 mod 2 ^ 32) byte in
  let '(out, bits) := base32_emit 3 buffer (bits + 8) out in
  (out, buffer, bits).

Definition base32hex_nopad (input : list Z) : list Z :=
  let '(out, buffer, bits) := fold_left base32_byte input ([], 0, 0) in
  if 0 <? bits then
    let index := Z.land (Z.shiftl buffer (5 - bits) mod 2 ^ 32) 0x1f in
    out ++ [default 0 (ALPHABET !! Z.to_nat index)]
  else out.

(** ["_{}._synth"]. *)
Definition synth_suffix : list Z := [95; 115; 121; 110; 116; 104].
Definition synth_name (address : list Z) : result HnsResourceError DnsName :=
  map_err (dns_from_ascii ((95 :: base32hex_nopad address) ++ 46 :: synth_suffix)) ResourceMalformed.

(** ** The decoder *)

(** The strings of a TXT record, [count] of them. *)
Fixpoint read_strings (data : list Z) (offset : Z) (rdata : list Z) (count : nat)
    : result HnsResourceError (list Z * Z) :=
  match count with
  | O => Ok (rdata, offset)
  | S count =>
      let? (text, offset) := rc_read_len_u8_bytes data offset in
      read_strings data offset (rdata ++ (zlen text mod 256 :: text)) count
  end.

(** A name server record and, when [glue], the server's address. *)
Definition push_server (owner : DnsName) (ttl : Z) (records : list ResourceRecord) (ns : DnsName)
    (glue : bool) (address_type : RecordType) (address : list Z)
    : result HnsResourceError (list ResourceRecord) :=
  let? rdata := name_rdata ns in
  let? records := push_record records (hs_record owner TNs ttl rdata) in
  if glue then push_record records (hs_record ns address_type ttl address) else Ok records.

(** One turn of the loop of [decode_handshake_resource_records_with_ttl]. *)
Definition decode_step (owner : DnsName) (data : list Z) (ttl : Z)
    (st : Z * list ResourceRecord)
    : result HnsResourceError (Z * list ResourceRecord + list ResourceRecord) :=
  let '(offset, records) := st in
  if zlen data - offset <=? 0 then Ok (inr records) else
  let? (kind, offset) := rc_read_u8 data offset in
  if kind =? HS_TYPE_DS then
    let? (key_tag, offset) := rc_read_u16_be data offset in
    let? (algorithm, offset) := rc_read_u8 data offset in
    let? (digest_type, offset) := rc_read_u8 data offset in
    let? (digest, offset) := rc_read_len_u8_bytes data offset in
    let rdata := to_be 2 key_tag ++ algorithm :: digest_type :: digest in
    let? records := push_record records (hs_record owner TDs ttl rdata) in
    Ok (inl (offset, records))
  else if kind =? HS_TYPE_NS then
    let? (ns, offset) := rc_read_name data offset in
    let? records := push_server owner ttl records ns false TA [] in
    Ok (inl (offset, records))
  else if kind =? HS_TYPE_GLUE4 then
    let? (ns, offset) := rc_read_name data offset in
    let? (address, offset) := rc_read_array data offset 4 in
    let? records := push_server owner ttl records ns (is_subdomain_or_equal ns owner) TA address in
    Ok (inl (offset, records))
  else if kind =? HS_TYPE_GLUE6 then
    let? (ns, offset) := rc_read_name data offset in
    let? (address, offset) := rc_read_array data offset 16 in
    let? records := push_server owner ttl records ns (is_subdomain_or_equal ns owner) TAaaa address in
    Ok (inl (offset, records))
  else if kind =? HS_TYPE_SYNTH4 then
    let? (address, offset) := rc_read_array data offset 4 in
    let? ns := synth_name address in
    let? records := push_server owner ttl records ns true TA address in
    Ok (inl (offset, records))
  else if kind =? HS_TYPE_SYNTH6 then
    let? (address, offset) := rc_read_array data offset 16 in
    let? ns := synth_name address in
    let? records := push_server owner ttl records ns true TAaaa address in
    Ok (inl (offset, records))
  else if kind =? HS_TYPE_TXT then
    let? (count, offset) := rc_read_u8 data offset in
    if MAX_HANDSHAKE_TXT_STRINGS <? count then Err ResourceTooManyRecords else
    let? (rdata, offset) := read_strings data offset [] (Z.to_nat count) in
    let? records := push_record records (hs_record owner TTxt ttl rdata) in
    Ok (inl (offset, records))
  else Err ResourceUnsupportedRecordType.

Definition decode_handshake_resource_records_with_ttl (owner : DnsName) (data : list Z) (ttl : Z)
    : result HnsResourceError (list ResourceRecord) :=
  let? (version, offset) := rc_read_u8 data 0 in
  if negb (version =? RESOURCE_VERSION) then Err ResourceUnsupportedVersion else
  match loop (S (length data)) (decode_step owner data ttl) (offset, []) with
  | Some r => r
  | None => Err ResourceMalformed
  end.
Definition decode_handshake_resource_records (owner : DnsName) (data : list Z)
    : result HnsResourceError (list ResourceRecord) :=
  decode_handshake_resource_records_with_ttl owner data DEFAULT_HANDSHAKE_RESOURCE_TTL.

(** The address of the crate's own test: 45.77.219.32 is 5l6tm80. *)
Example base32_test_vector :
  base32hex_nopad [45; 77; 219; 32] = [53; 108; 54; 116; 109; 56; 48].
Proof. vm_compute. reflexivity. Qed.

(** ** Base 32 spells numbers *)

(** The digit of a character, and the number a text spells. *)
Fixpoint index_of (c : Z) (l : list Z) : Z :=
  match l with [] => 0 | x :: l => if x =? c then 0 else 1 + index_of c l end.
Definition base32_value (text : list Z) : Z :=
  fold_left (fun v c => v * 32 + index_of c ALPHABET) text 0.

Lemma base32_value_snoc text c : base32_value (text ++ [c]) = base32_value text * 32 + index_of c ALPHABET.
Proof. unfold base32_value. by rewrite fold_left_app. Qed.

Lemma index_of_digit i : 0 <= i < 32 -> index_of (default 0 (ALPHABET !! Z.to_nat i)) ALPHABET = i.
Proof.
  intros Hi. assert (Hall : forallb (fun k => index_of (default 0 (ALPHABET !! k)) ALPHABET =? Z.of_nat k)
    (seq 0 32) = true) by (vm_compute; reflexivity).
  rewrite forallb_forall in Hall. specialize (Hall (Z.to_nat i)). rewrite Z.eqb_eq, Z2Nat.id in Hall by lia.
  apply Hall, in_seq. lia.
Qed.

Lemma land_31 x : Z.land x 31 = x mod 32.
Proof. change 31 with (Z.ones 5). by rewrite Z.land_ones by lia. Qed.

(** Emitting keeps the number the text and the pending bits spell together. *)
Lemma base32_emit_spec fuel : forall buffer bits out,
  0 <= buffer -> 0 <= bits < 5 * Z.of_nat fuel ->
  let '(out', bits') := base32_emit fuel buffer bits out in
  0 <= bits' < 5 /\ zlen out' * 5 + bits' = zlen out * 5 + bits /\
  base32_value out' * 2 ^ bits' + buffer mod 2 ^ bits' = base32_value out * 2 ^ bits + buffer mod 2 ^ bits.
Proof.
  induction fuel as [|fuel IH]; intros buffer bits out Hb Hbits; [lia|]. cbn [base32_emit].
  destruct (5 <=? bits) eqn:E; breflect; [|split_and!; lia].
  rewrite Z.shiftr_div_pow2, land_31 by lia. set (d := (buffer / 2 ^ (bits - 5)) mod 32).
  assert (Hd : 0 <= d < 32) by (apply Z.mod_pos_bound; lia).
  specialize (IH buffer (bits - 5) (out ++ [default 0 (ALPHABET !! Z.to_nat d)]) Hb ltac:(lia)).
  destruct (base32_emit fuel buffer (bits - 5) _) as [out' bits']. destruct IH as (H1 & H2 & ->).
  split; [done|]. split; [rewrite H2, zlen_app, zlen_cons, zlen_nil; lia|].
  rewrite base32_value_snoc, index_of_digit by done.
  assert (Hp : 2 ^ bits = 2 ^ (bits - 5) * 32) by (change 32 with (2 ^ 5); rewrite <- Z.pow_add_r by lia; f_equal; lia).
  assert (0 < 2 ^ (bits - 5)) by (apply Z.pow_pos_nonneg; lia).
  rewrite Hp, (Z.rem_mul_r buffer (2 ^ (bits - 5)) 32) by lia. fold d. lia.
Qed.

Definition base32_inv (prefix : list Z) (st : list Z * Z * Z) : Prop :=
  let '(out, buffer, bits) := st in
  0 <= buffer /\ 0 <= bits < 5 /\ zlen out * 5 + bits = 8 * zlen prefix /\
  base32_value out * 2 ^ bits + buffer mod 2 ^ bits = from_be prefix.

Lemma shifted_byte buffer byte bits :
  0 <= buffer -> in_u8 byte -> 0 <= bits < 5 ->
  let buffer' := Z.lor (Z.shiftl buffer 8 mod 2 ^ 32) byte in
  0 <= buffer' /\ buffer' mod 2 ^ (bits + 8) = (buffer mod 2 ^ bits) * 256 + byte.
Proof.
  intros Hb Hy Hbits. cbv zeta. rewrite Z.shiftl_mul_pow2 by lia. change (2 ^ 8) with 256.
  assert (Hsplit : buffer * 256 mod 2 ^ 32 = (buffer mod 2 ^ 24) * 256).
  { change (2 ^ 32) with (2 ^ 24 * 256). rewrite Z.mul_mod_distr_r by lia. done. }
  rewrite Hsplit. set (low := buffer mod 2 ^ 24).
  assert (Hlow : 0 <= low) by (apply Z.mod_pos_bound; lia).
  assert (Hor : Z.lor (low * 256) byte = low * 256 + byte).
  { change 256 with (2 ^ 8). rewrite <- Z.shiftl_mul_pow2 by lia. symmetry.
    rewrite <- Z.add_lor_land.
    replace (Z.land (Z.shiftl low 8) byte) with 0; [lia|]. symmetry. apply Z.bits_inj_0. intros n.
    rewrite Z.land_spec. destruct (Z.lt_ge_cases n 8); [by rewrite Z.shiftl_spec_low|].
    assert (Z.testbit byte n = false) as ->; [|by rewrite andb_false_r].
    width. destruct (decide (byte = 0)) as [->|]; [by apply Z.bits_0|].
    apply Z.bits_above_log2; [lia|]. apply Z.log2_lt_pow2; [lia|].
    apply Z.lt_le_trans with (2 ^ 8); [lia|apply Z.pow_le_mono_r; lia]. }
  rewrite Hor. width. split; [lia|].
  rewrite Z.pow_add_r by lia. change (2 ^ 8) with 256. assert (0 < 2 ^ bits) by (apply Z.pow_pos_nonneg; lia).
  rewrite (Z.mul_comm (2 ^ bits)), Z.rem_mul_r by lia.
  rewrite Z.div_add_l, Z.div_small, Z.add_0_r by lia.
  assert ((low * 256 + byte) mod 256 = byte) as -> by (rewrite Z.add_comm, Z.mod_add by lia; apply Z.mod_small; lia).
  replace (low mod 2 ^ bits) with (buffer mod 2 ^ bits); [lia|]. unfold low.
  symmetry. apply Z.mod_mod_divide. exists (2 ^ (24 - bits)).
  rewrite <- Z.pow_add_r by lia. f_equal. lia.
Qed.

Lemma base32_byte_inv prefix st byte :
  base32_inv prefix st -> in_u8 byte -> base32_inv (prefix ++ [byte]) (base32_byte st byte).
Proof.
  destruct st as [[out buffer] bits]. intros (Hb & Hbits & Hl & Hv) Hy. unfold base32_byte.
  destruct (shifted_byte buffer byte bits Hb Hy Hbits) as [Hb' Hm].
  set (buffer' := Z.lor _ byte) in *.
  pose proof (base32_emit_spec 3 buffer' (bits + 8) out Hb' ltac:(lia)) as He.
  destruct (base32_emit 3 buffer' (bits + 8) out) as [out' bits']. destruct He as (H1 & H2 & H3).
  split; [done|]. split; [done|]. split; [rewrite H2, zlen_app, zlen_cons, zlen_nil; lia|].
  rewrite H3, Hm, from_be_snoc, <- Hv, Z.pow_add_r by lia. change (2 ^ 8) with 256. lia.
Qed.

Lemma base32_fold_inv input : forall prefix st,
  bytes_ok input -> base32_inv prefix st -> base32_inv (prefix ++ input) (fold_left base32_byte input st).
Proof.
  induction input as [|b input IH]; intros prefix st Hb Hi; cbn [fold_left]; [by rewrite app_nil_r|].
  apply Forall_cons in Hb as [Hy Hb]. rewrite cons_middle, app_assoc. apply IH; [done|].
  by apply base32_byte_inv.
Qed.

(** The text has one digit per five bits, the last padded with zero bits. *)
Lemma base32_spec input :
  bytes_ok input ->
  exists pad, 0 <= pad < 5 /\ zlen (base32hex_nopad input) * 5 = 8 * zlen input + pad /\
    base32_value (base32hex_nopad input) = from_be input * 2 ^ pad.
Proof.
  intros Hb. unfold base32hex_nopad.
  pose proof (base32_fold_inv input [] ([], 0, 0) Hb ltac:(by vm_compute)) as Hi. cbn [app] in Hi.
  destruct (fold_left base32_byte input ([], 0, 0)) as [[out buffer] bits].
  destruct Hi as (Hbuf & Hbits & Hl & Hv). destruct (0 <? bits) eqn:E; breflect.
  - exists (5 - bits). split; [lia|]. rewrite zlen_app, zlen_cons, zlen_nil. split; [lia|].
    rewrite base32_value_snoc. rewrite Z.shiftl_mul_pow2, land_31 by lia.
    rewrite index_of_digit by (apply Z.mod_pos_bound; lia). rewrite <- Hv.
    assert (Hp : 32 = 2 ^ bits * 2 ^ (5 - bits)) by (rewrite <- Z.pow_add_r by lia; by replace (bits + (5 - bits)) with 5 by lia).
    assert (0 < 2 ^ (5 - bits)) by (apply Z.pow_pos_nonneg; lia).
    assert (0 < 2 ^ bits) by (apply Z.pow_pos_nonneg; lia).
    assert (E32 : (buffer * 2 ^ (5 - bits)) mod 2 ^ 32 mod 32 = (buffer mod 2 ^ bits) * 2 ^ (5 - bits)).
    { rewrite Z.mod_mod_divide by (exists (2 ^ 27); lia). by rewrite Hp, Z.mul_mod_distr_r by lia. }
    rewrite E32. rewrite Hp at 1. lia.
  - assert (bits = 0) as -> by lia. exists 0. rewrite Z.mod_1_r in Hv. split; [lia|]. split; lia.
Qed.

(** ** Synthetic names *)

Lemma base32_emit_chars fuel (P : Z -> Prop) : forall buffer bits out,
  (forall i, 0 <= i < 32 -> P (default 0 (ALPHABET !! Z.to_nat i))) ->
  Forall P out -> Forall P (fst (base32_emit fuel buffer bits out)).
Proof.
  induction fuel as [|fuel IH]; intros buffer bits out HP Ho; cbn [base32_emit]; [done|].
  case_match; [|done]. apply IH; [done|]. apply Forall_app. split; [done|].
  constructor; [|done]. apply HP. rewrite land_31. apply Z.mod_pos_bound. lia.
Qed.

Lemma base32_chars (P : Z -> Prop) input :
  (forall i, 0 <= i < 32 -> P (default 0 (ALPHABET !! Z.to_nat i))) -> Forall P (base32hex_nopad input).
Proof.
  intros HP. unfold base32hex_nopad.
  assert (Hfold : forall st, Forall P (fst (fst st)) -> Forall P (fst (fst (fold_left base32_byte input st)))).
  { induction input as [|b input IH]; intros st Hs; cbn [fold_left]; [done|]. apply IH.
    destruct st as [[out buffer] bits]. unfold base32_byte.
    pose proof (base32_emit_chars 3 P (Z.lor (Z.shiftl buffer 8 mod 2 ^ 32) b) (bits + 8) out HP Hs) as H.
    by destruct (base32_emit 3 _ _ out). }
  specialize (Hfold ([], 0, 0) ltac:(constructor)).
  destruct (fold_left base32_byte input ([], 0, 0)) as [[out buffer] bits]. cbn [fst] in Hfold.
  case_match; [|done]. apply Forall_app. split; [done|]. constructor; [|done].
  apply HP. rewrite land_31. apply Z.mod_pos_bound. lia.
Qed.

(** Lowercase letters, digits and underscores. *)
Definition plain_char (c : Z) : bool :=
  ((48 <=? c) && (c <=? 57)) || ((97 <=? c) && (c <=? 122)) || (c =? 95).

Lemma alphabet_plain i : 0 <= i < 32 -> plain_char (default 0 (ALPHABET !! Z.to_nat i)) = true.
Proof.
  intros Hi. assert (Hall : forallb (fun k => plain_char (default 0 (ALPHABET !! k))) (seq 0 32) = true)
    by (vm_compute; reflexivity).
  rewrite forallb_forall in Hall. apply Hall, in_seq. lia.
Qed.

Lemma plain_char_facts c : plain_char c = true ->
  utf8 c = [c] /\ is_whitespace c = false /\ c <> 46 /\ label_byte c = true /\ to_ascii_lowercase c = c.
Proof.
  unfold plain_char. intros H. assert (Hr : (48 <= c <= 57) \/ (97 <= c <= 122) \/ c = 95) by (breflect; lia).
  clear H. split_and!; [| |lia| |].
  - unfold utf8. by rewrite (proj2 (Z.ltb_lt c 128)) by lia.
  - unfold is_whitespace. zdecide_with ltac:(lia). done.
  - unfold label_byte, is_ascii_alphanumeric. apply orb_true_iff. rewrite !orb_true_iff, !andb_true_iff,
      !Z.leb_le, !Z.eqb_eq. lia.
  - unfold to_ascii_lowercase. case_match; [|done]. breflect. lia.
Qed.

Lemma plain_label l : Forall (fun c => plain_char c = true) l ->
  str_bytes l = l /\ is_valid_dns_label l = true /\ map to_ascii_lowercase l = l /\ 46 ∉ l.
Proof.
  intros Hl. assert (H : str_bytes l = l /\ forallb label_byte l = true /\ map to_ascii_lowercase l = l /\ 46 ∉ l).
  { unfold str_bytes. induction Hl as [|c l Hc _ (E1 & E2 & E3 & E4)]; [by split_and!; try apply not_elem_of_nil|].
    destruct (plain_char_facts c Hc) as (F1 & F2 & F3 & F4 & F5). cbn [map concat forallb].
    rewrite F1, E1, F4, E2, F5, E3. split_and!; [done|done|done|]. apply not_elem_of_cons. split; [lia|done]. }
  destruct H as (E1 & E2 & E3 & E4). split_and!; [done| |done|done].
  unfold is_valid_dns_label. by rewrite E2, orb_true_r.
Qed.

(** Two plain labels read back from their dotted text. *)
Lemma from_ascii_two l1 l2 :
  Forall (fun c => plain_char c = true) l1 -> Forall (fun c => plain_char c = true) l2 ->
  1 <= zlen l1 <= 63 -> 1 <= zlen l2 <= 63 ->
  dns_from_ascii (l1 ++ 46 :: l2) = Ok {| dn_labels := [l1; l2] |}.
Proof.
  intros H1 H2 Z1 Z2. destruct (plain_label l1 H1) as (A1 & A2 & A3 & A4).
  destruct (plain_label l2 H2) as (B1 & B2 & B3 & B4).
  destruct l1 as [|c1 l1]; [rewrite zlen_nil in Z1; lia|].
  destruct l2 as [|c2 l2 _] using rev_ind; [rewrite zlen_nil in Z2; lia|].
  apply Forall_cons in H1 as [Hc1 _]. apply Forall_app in H2 as [_ Hc2]. apply Forall_cons in Hc2 as [Hc2 _].
  destruct (plain_char_facts c1 Hc1) as (_ & W1 & _). destruct (plain_char_facts c2 Hc2) as (_ & W2 & D2 & _).
  set (text := (c1 :: l1) ++ 46 :: l2 ++ [c2]).
  assert (Et : text = ((c1 :: l1) ++ 46 :: l2) ++ [c2]) by (unfold text; by rewrite <- app_assoc).
  assert (E : trim_end (Z.eqb 46) (trim text) = text).
  { unfold trim. replace (trim_start is_whitespace text) with text by (unfold text; cbn [app]; by rewrite trim_start_id).
    rewrite Et, !trim_end_id; [done|apply Z.eqb_neq; lia|done]. }
  unfold dns_from_ascii. rewrite E.
  rewrite (proj2 (Z.eqb_neq (zlen text) 0)) by (unfold text; cbn [app]; rewrite zlen_cons; pose proof (zlen_nonneg (l1 ++ 46 :: l2 ++ [c2])); lia).
  unfold text. rewrite split_on_app, !split_on_none by done. cbn [app ascii_labels].
  rewrite A1, A2, A3, B1, B2, B3. unfold MAX_DNS_LABEL_LEN. zdecide_with ltac:(lia). cbn [negb orb].
  unfold wire_len, MAX_DNS_NAME_LEN. cbn [dn_labels labels_sum foldr].
  by rewrite (proj2 (Z.ltb_ge _ _)) by lia.
Qed.

Lemma synth_name_ok address :
  bytes_ok address -> 1 <= zlen address <= 16 ->
  synth_name address = Ok {| dn_labels := [95 :: base32hex_nopad address; synth_suffix] |}.
Proof.
  intros Hb Hl. unfold synth_name. destruct (base32_spec address Hb) as (pad & Hp & Hz & _).
  rewrite from_ascii_two; [done| | |rewrite zlen_cons; lia|by vm_compute].
  - constructor; [done|]. apply base32_chars, alphabet_plain.
  - by repeat constructor.
Qed.

(** The name made for an address record spells the address: it is
    [_<text>._synth] where the text is the base-32 numeral of the address padded
    to whole digits; so addresses of one family have distinct names. *)
Theorem synth_name_spells_address address :
  bytes_ok address -> 1 <= zlen address <= 16 ->
  synth_name address = Ok {| dn_labels := [95 :: base32hex_nopad address; synth_suffix] |} /\
  (exists pad, 0 <= pad < 5 /\ zlen (base32hex_nopad address) * 5 = 8 * zlen address + pad /\
     base32_value (base32hex_nopad address) = from_be address * 2 ^ pad) /\
  (forall other, bytes_ok other -> zlen other = zlen address ->
     synth_name other = synth_name address -> other = address).
Proof.
  intros Hb Hl. split; [by apply synth_name_ok|]. split; [by apply base32_spec|].
  intros other Hbo Hlo. rewrite !synth_name_ok by (done || lia). intros [= E].
  destruct (base32_spec address Hb) as (p1 & Hp1 & Hz1 & Hv1).
  destruct (base32_spec other Hbo) as (p2 & Hp2 & Hz2 & Hv2). rewrite E in Hz2, Hv2.
  assert (p1 = p2) as <- by lia. assert (0 < 2 ^ p1) by (apply Z.pow_pos_nonneg; lia).
  assert (Hv : from_be other = from_be address) by nia.
  rewrite <- (to_be_from_be other), <- (to_be_from_be address) by done.
  rewrite Hv. f_equal. unfold zlen in Hlo. lia.
Qed.

(** ** What the decoder returns *)

(** A record the owner's resource may hold: the owner's own, or the address of a
    server under the owner or of a synthetic name. *)
Definition hs_record_ok (owner : DnsName) (ttl : Z) (r : ResourceRecord) : Prop :=
  dr_class r = 1 /\ dr_ttl r = ttl /\
  match dr_type r with
  | TDs | TTxt => dr_name r = owner
  | TNs => dr_name r = owner /\ exists ns, dr_rdata r = name_bytes ns /\ dname_ok ns
  | TA => zlen (dr_rdata r) = 4 /\
      (is_subdomain_or_equal (dr_name r) owner = true \/ synth_name (dr_rdata r) = Ok (dr_name r))
  | TAaaa => zlen (dr_rdata r) = 16 /\
      (is_subdomain_or_equal (dr_name r) owner = true \/ synth_name (dr_rdata r) = Ok (dr_name r))
  | _ => False
  end.

Definition hs_records_ok (owner : DnsName) (ttl : Z) (records : list ResourceRecord) : Prop :=
  zlen records <= MAX_HANDSHAKE_RESOURCE_RECORDS /\ Forall (hs_record_ok owner ttl) records.

Lemma push_record_ok owner ttl records r records' :
  hs_records_ok owner ttl records -> hs_record_ok owner ttl r ->
  push_record records r = Ok records' -> hs_records_ok owner ttl records'.
Proof.
  intros [Hl Hf] Hr. unfold push_record. case_match; [done|]. intros [= <-]. breflect. split.
  - rewrite zlen_app, zlen_cons, zlen_nil. lia.
  - apply Forall_app. split; [done|by constructor].
Qed.

(** The address a name server record comes with. *)
Definition glue_ok (owner : DnsName) (ns : DnsName) (t : RecordType) (address : list Z) : Prop :=
  (t = TA /\ zlen address = 4 \/ t = TAaaa /\ zlen address = 16) /\
  (is_subdomain_or_equal ns owner = true \/ synth_name address = Ok ns).

Lemma push_server_ok owner ttl records ns glue t address records' :
  hs_records_ok owner ttl records -> dname_ok ns -> (glue = true -> glue_ok owner ns t address) ->
  push_server owner ttl records ns glue t address = Ok records' -> hs_records_ok owner ttl records'.
Proof.
  intros Hr Hn Hg. unfold push_server, name_rdata. rewrite encode_wire_ok by done. cbn [map_err].
  destruct (push_record records _) as [rs|] eqn:E; [|done].
  apply (push_record_ok owner ttl) in E; [|done|].
  2: { split_and!; [done|done|]. cbn. split; [done|by exists ns]. }
  destruct glue; [|by intros [= <-]]. intros Hp. eapply push_record_ok; [exact E| |exact Hp].
  destruct (Hg eq_refl) as [[[-> Hz]|[-> Hz]] Hcase]; by split_and!.
Qed.

Lemma rc_read_bytes_ok data offset len bytes next :
  rc_read_bytes data offset len = Ok (bytes, next) ->
  zlen bytes = len /\ next = offset + len /\ 0 <= offset <= next /\ next <= zlen data /\
  (bytes_ok data -> bytes_ok bytes).
Proof.
  unfold rc_read_bytes. destruct (checked_add offset len) as [stop|] eqn:E; cbn [ok_or]; [|done].
  apply checked_add_Some in E as [-> _].
  destruct (get_range data offset (offset + len)) as [b|] eqn:Eg; cbn [ok_or]; [|done]. intros [= <- <-].
  pose proof (get_range_bytes data offset (offset + len) b) as Hb.
  pose proof (get_range_Some _ _ _ _ Eg). split_and!; try lia. intros. by apply Hb.
Qed.

Lemma rc_read_u8_ok data offset b next :
  rc_read_u8 data offset = Ok (b, next) ->
  next = offset + 1 /\ 0 <= offset < zlen data /\ (bytes_ok data -> in_u8 b).
Proof.
  unfold rc_read_u8. destruct (get data offset) as [x|] eqn:E; cbn [ok_or]; [|done]. intros [= <- <-].
  pose proof (get_Some_range _ _ _ E). split_and!; [done|lia|lia|]. intros. by eapply get_byte.
Qed.

Lemma rc_read_len_ok data offset bytes next :
  bytes_ok data -> rc_read_len_u8_bytes data offset = Ok (bytes, next) ->
  0 <= offset < next /\ next <= zlen data.
Proof.
  intros Hb. unfold rc_read_len_u8_bytes. destruct (rc_read_u8 data offset) as [[len o]|] eqn:E; [|done].
  apply rc_read_u8_ok in E as (-> & H1 & H2). specialize (H2 Hb). intros E.
  apply rc_read_bytes_ok in E as (H3 & -> & H5 & H6 & _). width. lia.
Qed.

Lemma rc_read_name_ok data offset n next :
  bytes_ok data -> 0 <= offset -> rc_read_name data offset = Ok (n, next) ->
  dname_ok n /\ offset < next <= zlen data.
Proof.
  intros Hb Ho. unfold rc_read_name. destruct (parse_wire data offset) as [[m nx]|] eqn:E; cbn [map_err]; [|done].
  apply parse_wire_sound in E as [Hn Hx]; [|done..]. case_match; [done|]. by intros [= <- <-].
Qed.

Lemma read_strings_ok data count : forall offset rdata rdata' next,
  bytes_ok data -> 0 <= offset <= zlen data -> read_strings data offset rdata count = Ok (rdata', next) ->
  offset <= next <= zlen data.
Proof.
  induction count as [|count IH]; intros offset rdata rdata' next Hb Ho; cbn [read_strings].
  - intros [= _ <-]. lia.
  - destruct (rc_read_len_u8_bytes data offset) as [[text o]|] eqn:E; [|done].
    apply rc_read_len_ok in E as [H1 H2]; [|done]. intros E. apply IH in E; [lia|done|lia].
Qed.

Lemma synth_names_ok address ns :
  bytes_ok address -> 1 <= zlen address <= 16 -> synth_name address = Ok ns -> dname_ok ns.
Proof.
  intros Hb Hl E. pose proof E as E'. unfold synth_name in E'.
  destruct (dns_from_ascii _) as [n|] eqn:Ea in E'; [|done]. cbn in E'. injection E' as ->.
  rewrite synth_name_ok in E by done. injection E as <-.
  destruct (base32_spec address Hb) as (pad & Hp & Hz & _).
  assert (Hplain : Forall (fun c => plain_char c = true) (95 :: base32hex_nopad address)).
  { constructor; [done|]. apply base32_chars, alphabet_plain. }
  assert (Hbytes : forall l, Forall (fun c => plain_char c = true) l -> bytes_ok l).
  { intros l Hpl. eapply Forall_impl; [exact Hpl|]. intros c Hc. unfold plain_char in Hc.
    assert (48 <= c <= 122) by (breflect; lia). width_lia. }
  destruct (plain_label _ Hplain) as (_ & A2 & A3 & _).
  assert (Hs : Forall (fun c => plain_char c = true) synth_suffix) by (by repeat constructor).
  destruct (plain_label _ Hs) as (_ & B2 & B3 & _).
  assert (Hsz : zlen synth_suffix = 6) by done.
  pose proof (zlen_nonneg (base32hex_nopad address)).
  split; cbn [dn_labels].
  - apply Forall_cons; split; [|apply Forall_cons; split; [|by apply Forall_nil]];
      (split_and!; rewrite ?zlen_cons, ?Hsz; unfold MAX_DNS_LABEL_LEN; try lia; try done; by apply Hbytes).
  - unfold labels_sum, MAX_DNS_NAME_LEN. cbn [foldr]. rewrite zlen_cons, Hsz. lia.
Qed.

(** One turn of the loop: the offset advances inside the data and the records
    stay those the resource may hold. *)
Lemma decode_step_ok owner data ttl offset records st' :
  bytes_ok data -> 0 <= offset -> hs_records_ok owner ttl records ->
  decode_step owner data ttl (offset, records) = Ok (inl st') ->
  offset < fst st' <= zlen data /\ hs_records_ok owner ttl (snd st').
Proof.
  intros Hb Ho Hr. unfold decode_step. destruct (zlen data - offset <=? 0) eqn:E0; [done|]. breflect.
  destruct (rc_read_u8 data offset) as [[kind o]|] eqn:Ek; [|done].
  apply rc_read_u8_ok in Ek as (-> & Hk & _).
  destruct (kind =? HS_TYPE_DS).
  { unfold rc_read_u16_be, rc_read_array.
    destruct (rc_read_bytes data (offset + 1) 2) as [[tag o1]|] eqn:E1; [|done].
    apply rc_read_bytes_ok in E1 as (_ & -> & H1 & _).
    destruct (rc_read_u8 data _) as [[alg o2]|] eqn:E2; [|done]. apply rc_read_u8_ok in E2 as (-> & _).
    destruct (rc_read_u8 data _) as [[dt o3]|] eqn:E3; [|done]. apply rc_read_u8_ok in E3 as (-> & _).
    destruct (rc_read_len_u8_bytes data _) as [[dg o4]|] eqn:E4; [|done]. apply rc_read_len_ok in E4; [|done].
    destruct (push_record records _) as [rs|] eqn:Ep; [|done]. intros [= <-]. cbn. split; [lia|].
    eapply push_record_ok; [exact Hr| |exact Ep]. by split_and!. }
  destruct (kind =? HS_TYPE_NS).
  { destruct (rc_read_name data _) as [[ns o1]|] eqn:E1; [|done]. apply rc_read_name_ok in E1 as [Hn H1]; [|done|lia].
    destruct (push_server _ _ _ _ _ _ _) as [rs|] eqn:Ep; [|done]. intros [= <-]. cbn. split; [lia|].
    eapply push_server_ok; [exact Hr|exact Hn| |exact Ep]; done. }
  assert (Hglue : forall t w, (t = TA /\ w = 4 \/ t = TAaaa /\ w = 16) ->
    (let? (ns, offset) := rc_read_name data (offset + 1) in
     let? (address, offset) := rc_read_array data offset w in
     let? records := push_server owner ttl records ns (is_subdomain_or_equal ns owner) t address in
     Ok (inl (offset, records))) = Ok (@inl _ (list ResourceRecord) st') ->
    offset < fst st' <= zlen data /\ hs_records_ok owner ttl (snd st')).
  { intros t w Ht. destruct (rc_read_name data _) as [[ns o1]|] eqn:E1; [|done].
    apply rc_read_name_ok in E1 as [Hn H1]; [|done|lia]. unfold rc_read_array.
    destruct (rc_read_bytes data o1 w) as [[address o2]|] eqn:E2; [|done].
    apply rc_read_bytes_ok in E2 as (Hz & -> & H2 & H3 & _).
    destruct (push_server _ _ _ _ _ _ _) as [rs|] eqn:Ep; [|done]. intros [= <-]. cbn.
    split; [lia|]. eapply push_server_ok; [done|exact Hn| |exact Ep]. intros Hsub. split; [|by left].
    destruct Ht as [[-> ->]|[-> ->]]; [by left|by right]. }
  assert (Hsynth : forall t w, (t = TA /\ w = 4 \/ t = TAaaa /\ w = 16) ->
    (let? (address, offset) := rc_read_array data (offset + 1) w in
     let? ns := synth_name address in
     let? records := push_server owner ttl records ns true t address in
     Ok (inl (offset, records))) = Ok (@inl _ (list ResourceRecord) st') ->
    offset < fst st' <= zlen data /\ hs_records_ok owner ttl (snd st')).
  { intros t w Ht. unfold rc_read_array.
    destruct (rc_read_bytes data (offset + 1) w) as [[address o2]|] eqn:E2; [|done].
    apply rc_read_bytes_ok in E2 as (Hz & -> & H2 & H3 & Hab). specialize (Hab Hb).
    destruct (synth_name address) as [ns|] eqn:Es; [|done].
    destruct (push_server _ _ _ _ _ _ _) as [rs|] eqn:Ep; [|done]. intros [= <-]. cbn.
    split; [lia|]. eapply push_server_ok; [done|eapply synth_names_ok; [exact Hab|lia|exact Es]| |exact Ep].
    intros _. split; [|by right]. destruct Ht as [[-> ->]|[-> ->]]; [by left|by right]. }
  destruct (kind =? HS_TYPE_GLUE4); [by apply Hglue; left|].
  destruct (kind =? HS_TYPE_GLUE6); [by apply Hglue; right|].
  destruct (kind =? HS_TYPE_SYNTH4); [by apply Hsynth; left|].
  destruct (kind =? HS_TYPE_SYNTH6); [by apply Hsynth; right|].
  destruct (kind =? HS_TYPE_TXT); [|done].
  destruct (rc_read_u8 data (offset + 1)) as [[count o1]|] eqn:E1; [|done].
  apply rc_read_u8_ok in E1 as (-> & H1 & _). destruct (MAX_HANDSHAKE_TXT_STRINGS <? count); [done|].
  destruct (read_strings data _ [] _) as [[rdata o2]|] eqn:E2; [|done].
  apply read_strings_ok in E2; [|done|lia].
  destruct (push_record records _) as [rs|] eqn:Ep; [|done]. intros [= <-]. cbn. split; [lia|].
  eapply push_record_ok; [exact Hr| |exact Ep]. by split_and!.
Qed.

Lemma decode_fuel owner data ttl :
  bytes_ok data -> 1 <= zlen data ->
  exists r, loop (S (length data)) (decode_step owner data ttl) (1, []) = Some r.
Proof.
  intros Hb Hz. apply (loop_advances _ (fun st => 0 <= fst st /\ hs_records_ok owner ttl (snd st)) fst (zlen data)).
  - intros [o rs] st' [Ho Hr] Hs. apply decode_step_ok in Hs as [H1 H2]; [|done..]. cbn in *.
    split; [split; [lia|done]|lia].
  - cbn. split; [lia|]. split; [by vm_compute|constructor].
  - cbn [fst]. unfold zlen in *. lia.
  - cbn [fst]. lia.
Qed.

(** A name's resource cannot speak for others: the decoder returns within its
    fuel, and every record it makes has the owner's name, or is the address of
    a name under the owner, or of the synthetic name that spells that very
    address; there are at most 128, each with the given time to live. *)
Theorem resource_records_in_bailiwick owner data ttl :
  bytes_ok data ->
  (forall version rest, data = version :: rest ->
     exists r, loop (S (length data)) (decode_step owner data ttl) (1, []) = Some r) /\
  (forall records, decode_handshake_resource_records_with_ttl owner data ttl = Ok records ->
     zlen records <= MAX_HANDSHAKE_RESOURCE_RECORDS /\ Forall (hs_record_ok owner ttl) records).
Proof.
  intros Hb. split.
  - intros version rest ->. apply decode_fuel; [done|]. rewrite zlen_cons. pose proof (zlen_nonneg rest). lia.
  - intros records. unfold decode_handshake_resource_records_with_ttl.
    destruct (rc_read_u8 data 0) as [[version o]|] eqn:E; [|done].
    apply rc_read_u8_ok in E as (-> & _). destruct (version =? RESOURCE_VERSION); cbn [negb]; [|done].
    destruct (loop _ _ _) as [r|] eqn:El; [|done]. intros ->.
    apply (loop_result (decode_step owner data ttl)
      (fun st => 0 <= fst st /\ hs_records_ok owner ttl (snd st)) (hs_records_ok owner ttl) _ _ _) in El; [done|..].
    + intros [o rs] st' [Ho Hr] Hs. apply decode_step_ok in Hs as [H1 H2]; [|done..]. cbn in *. split; [lia|done].
    + intros [o rs] a [_ Hr]. unfold decode_step. destruct (zlen data - o <=? 0); [by intros [= <-]|].
      intros Hs. exfalso. revert Hs.
      repeat first [ discriminate
        | match goal with |- match ?x with _ => _ end = _ -> _ => destruct x as [[? ?]|] end
        | match goal with |- match ?x with _ => _ end = _ -> _ => destruct x end ].
    + cbn. split; [lia|]. split; [by vm_compute|constructor].
Qed.

(** Owner "x", with glue for ns1.x, glue for the unrelated ns.y, and a synthetic server. *)
Definition toy_owner : DnsName := {| dn_labels := [[120]] |}.
Definition toy_resource : list Z :=
  [0; 2; 3; 110; 115; 49; 1; 120; 0; 1; 2; 3; 4; 2; 2; 110; 115; 1; 121; 0; 5; 6; 7; 8; 4; 45; 77; 219; 32].

Lemma resource_records_in_bailiwick_witness :
  exists records, decode_handshake_resource_records toy_owner toy_resource = Ok records /\
    map (fun r => type_code (dr_type r)) records = [2; 1; 2; 2; 1] /\
    Forall (hs_record_ok toy_owner 21600) records.
Proof.
  assert (Hb : bytes_ok toy_resource)
    by (repeat (apply Forall_cons; split); try apply Forall_nil; width_lia).
  destruct (decode_handshake_resource_records toy_owner toy_resource) as [records|] eqn:E;
    [|vm_compute in E; discriminate].
  exists records. split; [done|].
  destruct (resource_records_in_bailiwick toy_owner toy_resource 21600 Hb) as [_ H].
  destruct (H records E) as [_ Hf]. split; [|exact Hf]. vm_compute in E. injection E as <-. reflexivity.
Defined.

Lemma synth_name_spells_address_witness :
  synth_name [45; 77; 219; 32]
  = Ok {| dn_labels := [[95; 53; 108; 54; 116; 109; 56; 48]; synth_suffix] |} /\
  base32_value [53; 108; 54; 116; 109; 56; 48] = from_be [45; 77; 219; 32] * 8.
Proof.
  destruct (synth_name_spells_address [45; 77; 219; 32]) as (E & _);
    [repeat (apply Forall_cons; split); try apply Forall_nil; width_lia|by vm_compute|].
  split; [rewrite E; vm_compute; reflexivity|vm_compute; reflexivity].
Defined.
