(* ===== verification/Urkel.v ===== *)
(** * Urkel tree proofs

    Models [src/crates/hns-browser-urkel/src/lib.rs]: the strict proof decoder
    and the verifier that recomputes the tree root from a proof. The hash is
    the one of [PrimHash]. Theorems: decoded proofs are sane; two accepted
    proofs for a key under one root cannot disagree unless the strings hashed to
    check them break the hash; and the proofs of an actual tree are accepted. *)

From S2P Require Import Prelude PrimHash.

Definition MAX_PROOF_SIZE : Z := 256 * 1024.
Definition URKEL_BITS : Z := 256.
Definition URKEL_HASH_SIZE : Z := 32.
Definition TYPE_DEADEND : Z := 0.
Definition TYPE_SHORT : Z := 1.
Definition TYPE_COLLISION : Z := 2.
Definition TYPE_EXISTS : Z := 3.
Definition INTERNAL_PREFIX : list Z := [1].
Definition SKIP_PREFIX : list Z := [2].
Definition LEAF_PREFIX : list Z := [0].

Inductive ProofKind := Inclusion | NonInclusion.

Record BitPrefix := { bp_size : Z; bp_data : list Z }.

Record UrkelProofNode := { un_prefix : BitPrefix; un_hash : Hash }.

Inductive ProofBody :=
| Deadend
| Short (prefix : BitPrefix) (lhs rhs : Hash)
| Collision (key value_hash : Hash)
| Exists (value : list Z).

Record UrkelProof := {
  up_type : Z; up_depth : Z; up_nodes : list UrkelProofNode; up_body : ProofBody }.

Record ParsedProof := {
  pp_kind : ProofKind; pp_root : Hash; pp_name_hash : Hash; pp_payload : list Z;
  pp_proof : UrkelProof }.

Inductive ProofError := ProofTooLarge | ProofMalformed | UnsupportedVerifier.

(** [slice.len().div_ceil(8)]. *)
Definition div_ceil8 (n : Z) : Z := (n + 7) / 8.

(** Bit [index] of [key], most significant first; [false] past the end. *)
Definition has_bit (key : list Z) (index : Z) : bool :=
  let byte := default 0 (get key (index / 8)) in
  let bit := Z.land index 7 in
  negb (Z.land (Z.shiftr byte (7 - bit)) 1 =? 0).

Definition prefix_empty : BitPrefix := {| bp_size := 0; bp_data := [] |}.

(** [BitPrefix::encoded_len]. *)
Definition prefix_encoded_len (p : BitPrefix) : Z :=
  (if 0x80 <=? bp_size p then 2 else 1) + zlen (bp_data p).

(** The loop of [BitPrefix::count]: bits matched from [index] on. *)
Fixpoint count_bits (data key : list Z) (depth index : Z) (n : nat) : Z :=
  match n with
  | O => 0
  | S n =>
      if negb (Bool.eqb (has_bit data index) (has_bit key (depth + index))) then 0
      else 1 + count_bits data key depth (index + 1) n
  end.

(** [BitPrefix::count]. *)
Definition prefix_count (p : BitPrefix) (key : list Z) (depth : Z) : Z :=
  let key_bits := zlen key * 8 in
  if key_bits <=? depth then 0 else
  let len := Z.min (bp_size p) (key_bits - depth) in
  count_bits (bp_data p) key depth 0 (Z.to_nat len).

(** [BitPrefix::has]. *)
Definition prefix_has (p : BitPrefix) (key : list Z) (depth : Z) : bool :=
  prefix_count p key depth =? bp_size p.

(** ** Decoding *)

Record Cursor := { cu_data : list Z; cu_offset : Z }.

(** [Cursor::read_bytes]. *)
Definition cursor_read_bytes (len : Z) (c : Cursor) : result ProofError (list Z * Cursor) :=
  let? stop := ok_or (checked_add (cu_offset c) len) ProofMalformed in
  let? bytes := ok_or (get_range (cu_data c) (cu_offset c) stop) ProofMalformed in
  Ok (bytes, {| cu_data := cu_data c; cu_offset := stop |}).

(** [Cursor::read_u16_le]. *)
Definition cursor_read_u16_le (c : Cursor) : result ProofError (Z * Cursor) :=
  let? (bytes, c) := cursor_read_bytes 2 c in
  Ok (from_be (reverse bytes), c).

(** [Cursor::read_hash]. *)
Definition cursor_read_hash (c : Cursor) : result ProofError (Hash * Cursor) :=
  let? (bytes, c) := cursor_read_bytes URKEL_HASH_SIZE c in
  let? hash := map_err (hash_from_slice bytes) ProofMalformed in
  Ok (hash, c).

(** [Cursor::read_prefix]. *)
Definition cursor_read_prefix (c : Cursor) : result ProofError (BitPrefix * Cursor) :=
  let start := cu_offset c in
  let? first := ok_or (get (cu_data c) (cu_offset c)) ProofMalformed in
  let c := {| cu_data := cu_data c; cu_offset := cu_offset c + 1 |} in
  let? (size, c) :=
    if negb (Z.land first 0x80 =? 0) then
      let? second := ok_or (get (cu_data c) (cu_offset c)) ProofMalformed in
      Ok (Z.lor (Z.shiftl (first - 0x80) 8) second,
          {| cu_data := cu_data c; cu_offset := cu_offset c + 1 |})
    else Ok (first, c) in
  let byte_len := div_ceil8 size in
  let? (data, c) := cursor_read_bytes byte_len c in
  let prefix := {| bp_size := size; bp_data := data |} in
  if negb (cu_offset c - start =? prefix_encoded_len prefix) then Err ProofMalformed else
  Ok (prefix, c).

(** A prefix of one to [URKEL_BITS] bits. *)
Definition read_checked_prefix (c : Cursor) : result ProofError (BitPrefix * Cursor) :=
  let? (prefix, c) := cursor_read_prefix c in
  if (bp_size prefix =? 0) || (URKEL_BITS <? bp_size prefix) then Err ProofMalformed
  else Ok (prefix, c).

(** [for index in 0..count]; [remaining] of the [count] nodes are left. *)
Fixpoint read_nodes (bitmap : list Z) (index : Z) (remaining : nat) (c : Cursor)
    : result ProofError (list UrkelProofNode * Cursor) :=
  match remaining with
  | O => Ok ([], c)
  | S remaining =>
      let? (prefix, c) :=
        if has_bit bitmap index then read_checked_prefix c else Ok (prefix_empty, c) in
      let? (hash, c) := cursor_read_hash c in
      let? (nodes, c) := read_nodes bitmap (index + 1) remaining c in
      Ok ({| un_prefix := prefix; un_hash := hash |} :: nodes, c)
  end.

(** The [match proof_type] of [UrkelProof::decode]. *)
Definition read_body (proof_type : Z) (c : Cursor) : result ProofError (ProofBody * Cursor) :=
  if proof_type =? TYPE_DEADEND then Ok (Deadend, c) else
  if proof_type =? TYPE_SHORT then
    let? (prefix, c) := read_checked_prefix c in
    let? (lhs, c) := cursor_read_hash c in
    let? (rhs, c) := cursor_read_hash c in
    Ok (Short prefix lhs rhs, c)
  else if proof_type =? TYPE_COLLISION then
    let? (key, c) := cursor_read_hash c in
    let? (value_hash, c) := cursor_read_hash c in
    Ok (Collision key value_hash, c)
  else if proof_type =? TYPE_EXISTS then
    let? (size, c) := cursor_read_u16_le c in
    let? (value, c) := cursor_read_bytes size c in
    Ok (Exists value, c)
  else Err ProofMalformed.

(** [UrkelProof::is_sane]. *)
Definition is_sane (p : UrkelProof) : bool :=
  if (URKEL_BITS <? up_depth p) || (URKEL_BITS <? zlen (up_nodes p)) then false else
  if existsb (fun node => URKEL_BITS <? bp_size (un_prefix node)) (up_nodes p) then false else
  match up_body p with
  | Deadend => up_type p =? TYPE_DEADEND
  | Short prefix _ _ =>
      (up_type p =? TYPE_SHORT) && (0 <? bp_size prefix) && (bp_size prefix <=? URKEL_BITS)
  | Collision _ _ => up_type p =? TYPE_COLLISION
  | Exists value => (up_type p =? TYPE_EXISTS) && (zlen value <=? 0xffff)
  end.

(** [UrkelProof::decode]. *)
Definition urkel_decode (bytes : list Z) : result ProofError UrkelProof :=
  if MAX_PROOF_SIZE <? zlen bytes then Err ProofTooLarge else
  let? (field, c) := cursor_read_u16_le {| cu_data := bytes; cu_offset := 0 |} in
  let proof_type := Z.shiftr field 14 in
  let depth := Z.land field (Z.lxor u16_max (Z.shiftl 3 14)) in
  if URKEL_BITS <? depth then Err ProofMalformed else
  let? (count, c) := cursor_read_u16_le c in
  if URKEL_BITS <? count then Err ProofMalformed else
  let? (bitmap, c) := cursor_read_bytes (div_ceil8 count) c in
  let? (nodes, c) := read_nodes bitmap 0 (Z.to_nat count) c in
  let? (body, c) := read_body proof_type c in
  if negb (cu_offset c =? zlen (cu_data c)) then Err ProofMalformed else
  let proof := {| up_type := proof_type; up_depth := depth; up_nodes := nodes;
                  up_body := body |} in
  if negb (is_sane proof) then Err ProofMalformed else Ok proof.

(** [UrkelProof::kind] and [UrkelProof::value]. *)
Definition proof_kind (p : UrkelProof) : ProofKind :=
  if up_type p =? TYPE_EXISTS then Inclusion else NonInclusion.
Definition proof_value (p : UrkelProof) : option (list Z) :=
  match up_body p with Exists value => Some value | _ => None end.

(** [ParsedProof::parse_for_key] and [ParsedProof::parse]. *)
Definition parse_for_key (bytes root name_hash : list Z) : result ProofError ParsedProof :=
  if MAX_PROOF_SIZE <? zlen bytes then Err ProofTooLarge else
  let? proof := urkel_decode bytes in
  Ok {| pp_kind := proof_kind proof; pp_root := root; pp_name_hash := name_hash;
        pp_payload := bytes; pp_proof := proof |}.
Definition proof_parse (bytes : list Z) : result ProofError ParsedProof :=
  parse_for_key bytes hash_ZERO hash_ZERO.

(** ** Verification *)

Section verify.
Context `{Hashers}.

Definition hash_internal (prefix : BitPrefix) (lhs rhs : Hash) : Hash :=
  if bp_size prefix =? 0 then blake2b_256 [INTERNAL_PREFIX; lhs; rhs] else
  let size := reverse (to_be 2 (bp_size prefix)) in
  blake2b_256 [SKIP_PREFIX; size; bp_data prefix; lhs; rhs].

Definition hash_leaf (key value_hash : Hash) : Hash :=
  blake2b_256 [LEAF_PREFIX; key; value_hash].

Definition hash_value (key : Hash) (value : list Z) : Hash :=
  hash_leaf key (blake2b_256 [value]).

(** The [match &self.body] of [UrkelProof::verify]; [None] is [return false]. *)
Definition verify_leaf (p : UrkelProof) (key : Hash) : option Hash :=
  match up_body p with
  | Deadend => Some hash_ZERO
  | Short prefix lhs rhs =>
      if prefix_has prefix key (up_depth p) then None else Some (hash_internal prefix lhs rhs)
  | Collision other value_hash =>
      if bool_decide (other = key) then None else Some (hash_leaf other value_hash)
  | Exists value => Some (hash_value key value)
  end.

(** [for node in self.nodes.iter().rev()]: the hash and depth afterwards. *)
Fixpoint verify_nodes (key : Hash) (rev_nodes : list UrkelProofNode) (next : Hash) (depth : Z)
    : option (Hash * Z) :=
  match rev_nodes with
  | [] => Some (next, depth)
  | node :: rest =>
      if depth <? bp_size (un_prefix node) + 1 then None else
      let depth := depth - 1 in
      let next := if has_bit key depth then hash_internal (un_prefix node) (un_hash node) next
                  else hash_internal (un_prefix node) next (un_hash node) in
      let depth := depth - bp_size (un_prefix node) in
      if negb (prefix_has (un_prefix node) key depth) then None
      else verify_nodes key rest next depth
  end.

(** [UrkelProof::verify]. *)
Definition urkel_verify_proof (p : UrkelProof) (root key : Hash) : bool :=
  if negb (is_sane p) then false else
  match verify_leaf p key with
  | None => false
  | Some leaf =>
      match verify_nodes key (rev (up_nodes p)) leaf (up_depth p) with
      | None => false
      | Some (next, depth) => (depth =? 0) && bytes_eqb next root
      end
  end.

(** [UrkelProofVerifier::verify] and [FailClosedProofVerifier::verify]. *)
Definition urkel_verifier_verify (proof : ParsedProof) (expected_root : Hash)
    : result ProofError bool :=
  if negb (bytes_eqb (pp_root proof) expected_root) then Ok false
  else Ok (urkel_verify_proof (pp_proof proof) expected_root (pp_name_hash proof)).
Definition fail_closed_verify (proof : ParsedProof) (expected_root : Hash)
    : result ProofError bool := Err UnsupportedVerifier.
End verify.

(** ** Decoded proofs are well typed *)

(** Fields have the widths their Rust types give them. *)
Definition node_typed (n : UrkelProofNode) : Prop :=
  0 <= bp_size (un_prefix n) /\ zlen (un_hash n) = 32.
Definition body_typed (b : ProofBody) : Prop :=
  match b with
  | Deadend => True
  | Short prefix lhs rhs => 0 <= bp_size prefix /\ zlen lhs = 32 /\ zlen rhs = 32
  | Collision key value_hash => zlen key = 32 /\ zlen value_hash = 32
  | Exists _ => True
  end.
Definition proof_typed (p : UrkelProof) : Prop :=
  Forall node_typed (up_nodes p) /\ body_typed (up_body p).

(** ** Two proofs under one root *)

Section binding.
Context `{HashersLaws}.

(** The strings the verifier hashes. *)
Definition internal_input (p : BitPrefix) (l r : Hash) : list Z :=
  concat (if bp_size p =? 0 then [INTERNAL_PREFIX; l; r]
          else [SKIP_PREFIX; reverse (to_be 2 (bp_size p)); bp_data p; l; r]).
Definition leaf_input (key value_hash : Hash) : list Z := concat [LEAF_PREFIX; key; value_hash].

Definition hashed_leaf (p : UrkelProof) (key : Hash) : list (list Z) :=
  match up_body p with
  | Deadend => []
  | Short prefix lhs rhs => [internal_input prefix lhs rhs]
  | Collision other value_hash => [leaf_input other value_hash]
  | Exists value => [value; leaf_input key (blake2b_var 32 value)]
  end.

Fixpoint hashed_nodes (key : Hash) (rev_nodes : list UrkelProofNode) (next : Hash) (depth : Z)
    : list (list Z) :=
  match rev_nodes with
  | [] => []
  | node :: rest =>
      let q := un_prefix node in
      let input := if has_bit key (depth - 1) then internal_input q (un_hash node) next
                   else internal_input q next (un_hash node) in
      let parent := if has_bit key (depth - 1) then hash_internal q (un_hash node) next
                    else hash_internal q next (un_hash node) in
      input :: hashed_nodes key rest parent (depth - 1 - bp_size q)
  end.

Definition hashed (p : UrkelProof) (key : Hash) : list (list Z) :=
  hashed_leaf p key ++
  match verify_leaf p key with
  | Some leaf => hashed_nodes key (rev (up_nodes p)) leaf (up_depth p)
  | None => []
  end.

(** The strings [S] break the hash function: two of them collide, or one hashes
    to zero, the hash of an empty subtree. *)
Definition breaks_hash (S : list (list Z)) : Prop :=
  (exists x y, x ∈ S /\ y ∈ S /\ x <> y /\ blake2b_var 32 x = blake2b_var 32 y) \/
  exists x, x ∈ S /\ blake2b_var 32 x = hash_ZERO.

Lemma hash_internal_input p l r : hash_internal p l r = blake2b_var 32 (internal_input p l r).
Proof. unfold hash_internal, internal_input, blake2b_256. by case_match. Qed.
Lemma hash_leaf_input k v : hash_leaf k v = blake2b_var 32 (leaf_input k v).
Proof. done. Qed.
Lemma hash_value_input k v : hash_value k v = blake2b_var 32 (leaf_input k (blake2b_var 32 v)).
Proof. unfold hash_value, hash_leaf, blake2b_256, leaf_input. simpl. by rewrite !app_nil_r. Qed.

Section over.
Variable inputs : list (list Z).
#[local] Abbreviation hash_broken := (breaks_hash inputs).

Lemma blake_eq x y :
  x ∈ inputs -> y ∈ inputs -> blake2b_var 32 x = blake2b_var 32 y -> x = y \/ hash_broken.
Proof.
  intros Hx Hy E. destruct (decide (x = y)) as [|Hn]; [by left|right; left]. by exists x, y.
Qed.

Lemma zlen_internal p l r : zlen (hash_internal p l r) = 32.
Proof. unfold hash_internal, blake2b_256. case_match; by apply law_blake_len. Qed.

Lemma app_eq_32 (a b c d : list Z) : zlen a = zlen c -> a ++ b = c ++ d -> a = c /\ b = d.
Proof. intros Hz. apply app_inj_1. unfold zlen in Hz. lia. Qed.

Lemma concat_2 (a b : list Z) : concat [a; b] = a ++ b.
Proof. simpl. by rewrite app_nil_r. Qed.

Lemma to_be_2_inj a b : 0 <= a <= 256 -> 0 <= b <= 256 ->
  reverse (to_be 2 a) = reverse (to_be 2 b) -> a = b.
Proof.
  intros ? ? E%(inj reverse). rewrite <- (from_be_to_be 2 a), <- (from_be_to_be 2 b) by lia.
  by rewrite E.
Qed.

Lemma internal_inj p1 p2 l1 r1 l2 r2 :
  0 <= bp_size p1 <= 256 -> 0 <= bp_size p2 <= 256 ->
  zlen l1 = 32 -> zlen r1 = 32 -> zlen l2 = 32 -> zlen r2 = 32 ->
  internal_input p1 l1 r1 ∈ inputs -> internal_input p2 l2 r2 ∈ inputs ->
  hash_internal p1 l1 r1 = hash_internal p2 l2 r2 ->
  (bp_size p1 = bp_size p2 /\ (bp_size p1 <> 0 -> p1 = p2) /\ l1 = l2 /\ r1 = r2) \/ hash_broken.
Proof.
  intros S1 S2 L1 R1 L2 R2 M1 M2 E. rewrite !hash_internal_input in E.
  apply blake_eq in E as [E|]; [|by right|done|done]. clear M1 M2. unfold internal_input in E.
  destruct (bp_size p1 =? 0) eqn:E1, (bp_size p2 =? 0) eqn:E2; breflect; try done.
  - left. simpl in E. injection E as E. rewrite !app_nil_r in E.
    apply app_eq_32 in E as [-> ->]; [|lia]. split_and!; [lia|lia|done|done].
  - left. remember (reverse (to_be 2 (bp_size p1))) as s1 eqn:H1.
    remember (reverse (to_be 2 (bp_size p2))) as s2 eqn:H2. simpl in E. injection E as E.
    rewrite !app_nil_r in E. apply app_eq_32 in E as [Hs E]; [|by subst s1 s2]. subst s1 s2. apply to_be_2_inj in Hs; [|lia..].
    assert (Hd : zlen (bp_data p1) = zlen (bp_data p2)) by (apply (f_equal zlen) in E; lens; lia).
    apply app_eq_32 in E as [Hdata E]; [|done]. apply app_eq_32 in E as [-> ->]; [|lia].
    split_and!; try done. intros _. destruct p1, p2. simpl in *. congruence.
Qed.

Lemma leaf_inj k1 v1 k2 v2 :
  zlen k1 = zlen k2 -> leaf_input k1 v1 ∈ inputs -> leaf_input k2 v2 ∈ inputs ->
  hash_leaf k1 v1 = hash_leaf k2 v2 -> (k1 = k2 /\ v1 = v2) \/ hash_broken.
Proof.
  intros Hz M1 M2 E. rewrite !hash_leaf_input in E.
  apply blake_eq in E as [E|]; [left|by right|done|done]. simpl in E. injection E as E.
  rewrite !app_nil_r in E. by apply app_eq_32.
Qed.

Lemma internal_not_leaf p l r k v :
  internal_input p l r ∈ inputs -> leaf_input k v ∈ inputs -> hash_internal p l r = hash_leaf k v -> hash_broken.
Proof.
  intros M1 M2 E. rewrite hash_internal_input, hash_leaf_input in E.
  apply blake_eq in E as [E|]; try done. unfold internal_input in E.
  case_match; simpl in E; discriminate E.
Qed.

Lemma not_zero x : x ∈ inputs -> blake2b_var 32 x = hash_ZERO -> hash_broken.
Proof. intros M E. right. by exists x. Qed.

(** The verifier's walk read from the root: the node [h] at depth [d] commits to
    the rest of the path along the key's bits. *)
Fixpoint path (key h : list Z) (d : Z) (nodes : list UrkelProofNode) (leaf : Hash) (D : Z) : Prop :=
  match nodes with
  | [] => h = leaf /\ d = D
  | n :: nodes =>
      let p := un_prefix n in
      prefix_has p key d = true /\ exists h', zlen h' = 32 /\
      h = (if has_bit key (d + bp_size p) then hash_internal p (un_hash n) h'
           else hash_internal p h' (un_hash n)) /\
      (if has_bit key (d + bp_size p) then internal_input p (un_hash n) h'
       else internal_input p h' (un_hash n)) ∈ inputs /\
      path key h' (d + bp_size p + 1) nodes leaf D
  end.

Lemma verify_nodes_app key l1 l2 next depth :
  verify_nodes key (l1 ++ l2) next depth =
  match verify_nodes key l1 next depth with
  | None => None
  | Some (next, depth) => verify_nodes key l2 next depth
  end.
Proof.
  revert next depth. induction l1 as [|n l1 IH]; intros next depth; simpl; [done|].
  case_match; [done|]. case_match; [done|]. apply IH.
Qed.

Lemma hashed_nodes_app key l1 l2 next depth next' depth' :
  verify_nodes key l1 next depth = Some (next', depth') ->
  hashed_nodes key (l1 ++ l2) next depth
  = hashed_nodes key l1 next depth ++ hashed_nodes key l2 next' depth'.
Proof.
  revert next depth. induction l1 as [|n l1 IH]; intros next depth; simpl; [by intros [= <- <-]|].
  case_match; [done|]. case_match; [done|]. intros E.
  by rewrite (IH _ _ E).
Qed.

Lemma verify_nodes_path key nodes leaf D h d :
  zlen leaf = 32 -> hashed_nodes key (rev nodes) leaf D ⊆ inputs ->
  verify_nodes key (rev nodes) leaf D = Some (h, d) ->
  path key h d nodes leaf D /\ zlen h = 32.
Proof.
  intros Hl. revert h d. induction nodes as [|n nodes IH]; intros h d; simpl.
  { intros _ [= -> ->]. done. }
  rewrite verify_nodes_app.
  destruct (verify_nodes key (rev nodes) leaf D) as [[h' d']|] eqn:E; [|done].
  rewrite (hashed_nodes_app _ _ _ _ _ _ _ E). intros Hin.
  simpl. case_match; [done|]. case_match eqn:Ep; [done|]. intros [= <- <-]. breflect.
  destruct (IH h' d') as [Hp Hz]; [set_solver|done|]. split; [|case_match; apply zlen_internal].
  split; [done|]. exists h'. replace (d' - 1 - bp_size (un_prefix n) + bp_size (un_prefix n)) with (d' - 1) by lia.
  split; [done|]. split; [done|]. split; [|by replace (d' - 1 + 1) with d' by lia].
  apply Hin, elem_of_app. right. simpl. by left.
Qed.

Lemma zlen_leaf p key leaf : verify_leaf p key = Some leaf -> zlen leaf = 32.
Proof.
  unfold verify_leaf. destruct (up_body p); try case_match; intros; simplify_eq; try done.
  all: try apply zlen_internal; by apply law_blake_len.
Qed.

Lemma sane_facts p : is_sane p = true ->
  Forall (fun n => bp_size (un_prefix n) <= 256) (up_nodes p) /\
  match up_body p with Short prefix _ _ => 0 < bp_size prefix <= 256 | _ => True end.
Proof.
  unfold is_sane, URKEL_BITS. case_match; [done|]. case_match eqn:E; [done|]. intros Hb. split.
  - apply Forall_forall. intros n Hn. apply Z.nlt_ge. intros Hlt.
    assert (Hex : existsb (fun node => 256 <? bp_size (un_prefix node)) (up_nodes p) = true); [|congruence].
    apply existsb_exists. exists n. rewrite <- list_elem_of_In. split; [done|by apply Z.ltb_lt].
  - destruct (up_body p); try done. breflect. lia.
Qed.

(** Two leaves with one hash at one depth agree about the key. *)
Lemma leaf_agree p1 p2 key leaf :
  zlen key = 32 -> body_typed (up_body p1) -> body_typed (up_body p2) ->
  hashed_leaf p1 key ⊆ inputs -> hashed_leaf p2 key ⊆ inputs ->
  verify_leaf p1 key = Some leaf -> verify_leaf p2 key = Some leaf ->
  proof_value p1 = proof_value p2 \/ hash_broken.
Proof.
  intros Hk T1 T2 M1 M2 E1 E2. unfold verify_leaf in E1, E2. unfold hashed_leaf in M1, M2.
  unfold proof_value.
  destruct (up_body p1) as [|q1 l1 r1|k1 v1|x1], (up_body p2) as [|q2 l2 r2|k2 v2|x2];
    repeat case_match; simplify_eq; try (by left); simpl in T1, T2;
    rewrite ?hash_value_input, <- ?hash_leaf_input in *.
  all: try (right; rewrite ?hash_internal_input, ?hash_leaf_input in *;
            (eapply not_zero; [|done || (symmetry; done)]); set_solver).
  all: try (right; eapply internal_not_leaf; [..|exact E1 || (symmetry; exact E1)]; set_solver).
  all: breflect; apply leaf_inj in E1 as [[? E]|]; [|by right|lia|set_solver..]; try done.
  apply blake_eq in E as [E|]; [left; by subst|by right|set_solver..].
Qed.

(** A leaf cannot stand where the other proof has an inner node. *)
Lemma leaf_not_node p key n l r d :
  is_sane p = true -> body_typed (up_body p) -> 0 <= bp_size (un_prefix n) <= 256 ->
  zlen l = 32 -> zlen r = 32 -> up_depth p = d -> prefix_has (un_prefix n) key d = true ->
  hashed_leaf p key ⊆ inputs -> internal_input (un_prefix n) l r ∈ inputs ->
  verify_leaf p key = Some (hash_internal (un_prefix n) l r) -> hash_broken.
Proof.
  intros Hs T Hn Hl Hr <- Hp M1 M2 E. apply sane_facts in Hs as [_ Hs]. unfold verify_leaf in E.
  unfold hashed_leaf in M1.
  destruct (up_body p) as [|q l' r'|k v|x]; repeat case_match; simplify_eq; simpl in T.
  - rewrite hash_internal_input in *. eapply not_zero; [exact M2|done].
  - destruct T as (? & ? & ?).
    apply internal_inj in E as [(Hz & Hq & _)|]; try done; [|lia|set_solver].
    rewrite Hq in * by lia. congruence.
  - symmetry in E. apply internal_not_leaf in E; set_solver.
  - rewrite hash_value_input, <- hash_leaf_input in *. symmetry in E.
    apply internal_not_leaf in E; set_solver.
Qed.

Lemma paths_agree key p1 p2 nodes1 nodes2 h d leaf1 leaf2 :
  zlen key = 32 -> is_sane p1 = true -> is_sane p2 = true ->
  body_typed (up_body p1) -> body_typed (up_body p2) ->
  Forall (fun n => node_typed n /\ bp_size (un_prefix n) <= 256) nodes1 ->
  Forall (fun n => node_typed n /\ bp_size (un_prefix n) <= 256) nodes2 ->
  hashed_leaf p1 key ⊆ inputs -> hashed_leaf p2 key ⊆ inputs ->
  verify_leaf p1 key = Some leaf1 -> verify_leaf p2 key = Some leaf2 ->
  path key h d nodes1 leaf1 (up_depth p1) -> path key h d nodes2 leaf2 (up_depth p2) ->
  proof_value p1 = proof_value p2 \/ hash_broken.
Proof.
  intros Hk S1 S2 T1 T2 F1 F2 M1 M2 V1 V2. revert nodes2 h d F2.
  induction F1 as [|n1 nodes1 [[Hs1 Hz1] Hm1] _ IH]; intros nodes2 h d F2 P1 P2.
  - destruct P1 as [-> ->]. destruct nodes2 as [|n2 nodes2].
    + destruct P2 as [-> _]. by apply (leaf_agree _ _ key leaf2).
    + right. apply Forall_cons in F2 as [[[? ?] ?] _]. destruct P2 as (Hp & h' & Hz' & E & Hin & _).
      destruct (has_bit _ _); subst leaf1; 
        (eapply (leaf_not_node p1 key n2);
          [exact S1|exact T1|by split| | |reflexivity|exact Hp|exact M1| |exact V1]; assumption).
  - destruct P1 as (Hp1 & h1 & Hz1' & E1 & In1 & P1). destruct nodes2 as [|n2 nodes2].
    + right. destruct P2 as [-> ->]. destruct (has_bit _ _); subst leaf2; 
        (eapply (leaf_not_node p2 key n1);
          [exact S2|exact T2|by split| | |reflexivity|exact Hp1|exact M2| |exact V2]; assumption).
    + apply Forall_cons in F2 as [[[? ?] ?] F2]. destruct P2 as (Hp2 & h2 & Hz2 & E2 & In2 & P2).
      rewrite E1 in E2. clear E1.
      assert (Hgo : (bp_size (un_prefix n1) = bp_size (un_prefix n2) /\ h1 = h2) \/ hash_broken).
      { destruct (has_bit key (d + bp_size (un_prefix n1))) eqn:B1,
          (has_bit key (d + bp_size (un_prefix n2))) eqn:B2;
          (apply internal_inj in E2 as [(Hs & _ & ? & ?)|]; [|by right|done..]);
          try (left; split; done); rewrite Hs in B1; congruence. }
      destruct Hgo as [[Hs ->]|]; [|by right]. rewrite Hs in P1. by eapply IH.
Qed.

End over.

Lemma accepted_agree p1 p2 root key :
  zlen key = 32 -> proof_typed p1 -> proof_typed p2 ->
  urkel_verify_proof p1 root key = true -> urkel_verify_proof p2 root key = true ->
  proof_value p1 = proof_value p2 \/ breaks_hash (hashed p1 key ++ hashed p2 key).
Proof.
  intros Hk [N1 B1] [N2 B2] E1 E2.
  set (inputs := hashed p1 key ++ hashed p2 key).
  assert (Hopen : forall p, hashed p key ⊆ inputs -> urkel_verify_proof p root key = true ->
    is_sane p = true /\ hashed_leaf p key ⊆ inputs /\ exists leaf, verify_leaf p key = Some leaf /\
    path inputs key root 0 (up_nodes p) leaf (up_depth p)).
  { intros p Hin E. unfold urkel_verify_proof in E. destruct (is_sane p); [|done]. split; [done|].
    unfold hashed in Hin.
    destruct (verify_leaf p key) as [leaf|] eqn:El; [|done]. split; [set_solver|].
    exists leaf. split; [done|].
    destruct (verify_nodes _ _ _ _) as [[h d]|] eqn:En; [|done]. simpl in E. breflect.
    pose proof (zlen_leaf _ _ _ El) as Hz.
    apply (verify_nodes_path inputs) in En as [Hp _]; [|done|set_solver]. subst.
    match goal with H : bytes_eqb _ _ = true |- _ => apply bool_decide_eq_true in H as <- end. done. }
  destruct (Hopen p1 ltac:(set_solver) E1) as (S1 & M1 & l1 & V1 & P1).
  destruct (Hopen p2 ltac:(set_solver) E2) as (S2 & M2 & l2 & V2 & P2).
  destruct (sane_facts _ S1) as [F1 _], (sane_facts _ S2) as [F2 _].
  apply (paths_agree inputs key p1 p2 (up_nodes p1) (up_nodes p2) root 0 l1 l2); try done;
    by apply Forall_and.
Qed.

(** ** Proofs of an actual tree

    The tree a root commits to: inner nodes skip the bits of their prefix, then
    branch on the next bit of the key. *)

Inductive utree :=
| UNull
| ULeaf (key value : list Z)
| UNode (prefix : BitPrefix) (l r : utree).

Fixpoint tree_hash (t : utree) : Hash :=
  match t with
  | UNull => hash_ZERO
  | ULeaf key value => hash_value key value
  | UNode prefix l r => hash_internal prefix (tree_hash l) (tree_hash r)
  end.

(** The value of a key, looked up from depth [d]. *)
Fixpoint tree_get (key : list Z) (d : Z) (t : utree) : option (list Z) :=
  match t with
  | UNull => None
  | ULeaf k value => if bool_decide (k = key) then Some value else None
  | UNode prefix l r =>
      if prefix_has prefix key d then
        let d := d + bp_size prefix in
        if has_bit key d then tree_get key (d + 1) r else tree_get key (d + 1) l
      else None
  end.

(** The nodes, the body and the depth of the proof for a key. *)
Fixpoint prove (key : list Z) (d : Z) (t : utree) : list UrkelProofNode * ProofBody * Z :=
  match t with
  | UNull => ([], Deadend, d)
  | ULeaf k value =>
      ([], if bool_decide (k = key) then Exists value else Collision k (blake2b_256 [value]), d)
  | UNode prefix l r =>
      if prefix_has prefix key d then
        let d := d + bp_size prefix in
        let '(nodes, body, depth) :=
          if has_bit key d then prove key (d + 1) r else prove key (d + 1) l in
        ({| un_prefix := prefix;
            un_hash := if has_bit key d then tree_hash l else tree_hash r |} :: nodes, body, depth)
      else ([], Short prefix (tree_hash l) (tree_hash r), d)
  end.

Definition body_type (b : ProofBody) : Z :=
  match b with
  | Deadend => TYPE_DEADEND
  | Short _ _ _ => TYPE_SHORT
  | Collision _ _ => TYPE_COLLISION
  | Exists _ => TYPE_EXISTS
  end.

Definition proof_of (key : list Z) (t : utree) : UrkelProof :=
  let '(nodes, body, depth) := prove key 0 t in
  {| up_type := body_type body; up_depth := depth; up_nodes := nodes; up_body := body |}.

(** Keys of 256 bits, values a proof can carry, no path longer than a key. *)
Fixpoint tree_wf (d : Z) (t : utree) : Prop :=
  match t with
  | UNull => d <= URKEL_BITS
  | ULeaf key value => d <= URKEL_BITS /\ zlen key = 32 /\ zlen value <= 0xffff
  | UNode prefix l r =>
      0 <= bp_size prefix /\ d + bp_size prefix < URKEL_BITS /\
      tree_wf (d + bp_size prefix + 1) l /\ tree_wf (d + bp_size prefix + 1) r
  end.

Lemma zlen_tree_hash t : zlen (tree_hash t) = 32.
Proof. destruct t; simpl; [done|by apply law_blake_len|apply zlen_internal]. Qed.

Lemma prefix_has_empty p key d : bp_size p = 0 -> prefix_has p key d = true.
Proof.
  intros E. unfold prefix_has, prefix_count. rewrite E.
  case_match eqn:Hd; [done|]. breflect. by rewrite Z.min_l by lia.
Qed.

Definition body_sane (b : ProofBody) : Prop :=
  match b with
  | Short prefix _ _ => 0 < bp_size prefix <= 256
  | Exists value => zlen value <= 0xffff
  | _ => True
  end.

(** What [prove] returns from depth [d]. *)
Lemma prove_spec key t d nodes body depth :
  zlen key = 32 -> 0 <= d -> tree_wf d t -> prove key d t = (nodes, body, depth) ->
  body_typed body /\ body_sane body /\ Forall node_typed nodes /\
  Forall (fun n => bp_size (un_prefix n) <= 256) nodes /\
  d + zlen nodes <= depth <= 256 /\
  tree_get key d t = match body with Exists value => Some value | _ => None end /\
  exists leaf,
    verify_leaf {| up_type := body_type body; up_depth := depth; up_nodes := nodes;
                   up_body := body |} key = Some leaf /\
    verify_nodes key (rev nodes) leaf depth = Some (tree_hash t, d).
Proof.
  intros Hk. revert d nodes body depth.
  induction t as [|k v|p l IHl r IHr]; intros d nodes body depth Hd Hw E; simpl in Hw, E.
  - simplify_eq. unfold URKEL_BITS in *. rewrite zlen_nil. simpl.
    split_and!; try done; try lia. by exists hash_ZERO.
  - destruct Hw as (? & ? & ?). unfold URKEL_BITS in *. simplify_eq. rewrite zlen_nil.
    simpl. unfold verify_leaf. simpl. case_bool_decide as Hkk; simpl.
    + subst. split_and!; try done; try lia. by eexists.
    + rewrite bool_decide_eq_false_2 by done. split_and!; try done; try lia; [by apply law_blake_len|].
      by eexists.
  - destruct Hw as (Hs & Hb & Hwl & Hwr). unfold URKEL_BITS in Hb. simpl.
    destruct (prefix_has p key d) eqn:Ep.
    2: { simplify_eq. rewrite zlen_nil. simpl. unfold verify_leaf. simpl. rewrite Ep.
         assert (bp_size p <> 0) by (intros Hz; rewrite prefix_has_empty in Ep; done).
         split_and!; try done; try lia; try apply zlen_tree_hash. by eexists. }
    set (b := has_bit key (d + bp_size p)) in *.
    destruct (if b then prove key (d + bp_size p + 1) r else prove key (d + bp_size p + 1) l)
      as [[ns bd] D] eqn:E1. simplify_eq.
    assert (Hsub : body_typed body /\ body_sane body /\ Forall node_typed ns /\
      Forall (fun n => bp_size (un_prefix n) <= 256) ns /\
      d + bp_size p + 1 + zlen ns <= depth <= 256 /\
      tree_get key (d + bp_size p + 1) (if b then r else l)
        = match body with Exists value => Some value | _ => None end /\
      exists leaf, verify_leaf {| up_type := body_type body; up_depth := depth; up_nodes := ns;
                                  up_body := body |} key = Some leaf /\
        verify_nodes key (rev ns) leaf depth = Some (tree_hash (if b then r else l), d + bp_size p + 1)).
    { destruct b; [apply (IHr _ ns body depth)|apply (IHl _ ns body depth)]; done || lia. }
    destruct Hsub as (H1 & H2 & H3 & H4 & H5 & H6 & leaf & H7 & H8). rewrite zlen_cons.
    split_and!; try done; try lia.
    + apply Forall_cons. split; [|done]. split; [done|]. simpl. destruct b; apply zlen_tree_hash.
    + apply Forall_cons. split; [simpl; lia|done].
    + by destruct b.
    + exists leaf. split; [exact H7|]. simpl. rewrite verify_nodes_app, H8. simpl.
      zdecide_with ltac:(lia).
      replace (d + bp_size p + 1 - 1) with (d + bp_size p) by lia.
      replace (d + bp_size p - bp_size p) with d by lia. rewrite Ep. simpl. fold b.
      by destruct b.
Qed.

Lemma tree_proof_accepted t key :
  zlen key = 32 -> tree_wf 0 t ->
  proof_typed (proof_of key t) /\ urkel_verify_proof (proof_of key t) (tree_hash t) key = true /\
  proof_value (proof_of key t) = tree_get key 0 t.
Proof.
  intros Hk Hw. unfold proof_of. destruct (prove key 0 t) as [[nodes body] depth] eqn:E.
  destruct (prove_spec key t 0 nodes body depth Hk) as (T & S & F & M & Hd & Hg & leaf & Hl & Hv);
    [lia|done|done|].
  split_and!; [by split| |by rewrite Hg; unfold proof_value; simpl; destruct body].
  unfold urkel_verify_proof.
  assert (Hs : is_sane {| up_type := body_type body; up_depth := depth; up_nodes := nodes;
                          up_body := body |} = true).
  { unfold is_sane, URKEL_BITS. simpl. pose proof (zlen_nonneg nodes). zdecide_with ltac:(lia).
    assert (He : existsb (fun node => 256 <? bp_size (un_prefix node)) nodes = false).
    { apply not_true_iff_false. intros (n & Hn & Hb)%existsb_exists. rewrite Forall_forall in M.
      rewrite <- list_elem_of_In in Hn. specialize (M n Hn). breflect. lia. }
    rewrite He. destruct body; simpl in *; try done; zdecide_with ltac:(lia); done. }
  rewrite Hs. simpl. rewrite Hl, Hv. simpl. by apply bool_decide_eq_true.
Qed.

(** For the tree a root commits to, the verifier decides membership: the
    proof of each key is accepted and tells the key's value, or its absence;
    and every accepted proof for that key, however made, tells the same, unless
    the strings hashed for the two proofs contain a collision or a preimage of
    the empty subtree's hash. *)
Theorem urkel_proofs_decide_membership t key :
  zlen key = 32 -> tree_wf 0 t ->
  urkel_verify_proof (proof_of key t) (tree_hash t) key = true /\
  proof_value (proof_of key t) = tree_get key 0 t /\
  forall p, proof_typed p -> urkel_verify_proof p (tree_hash t) key = true ->
    proof_value p = tree_get key 0 t \/ breaks_hash (hashed p key ++ hashed (proof_of key t) key).
Proof.
  intros Hk Hw. destruct (tree_proof_accepted t key Hk Hw) as (Ht & Hv & Hg).
  split_and!; [done|done|]. intros p Hp Hpv. rewrite <- Hg.
  by apply (accepted_agree p (proof_of key t) (tree_hash t) key).
Qed.
End binding.

(** ** The decoder *)

Lemma read_bytes_inv len c bytes c' :
  cursor_read_bytes len c = Ok (bytes, c') -> zlen bytes = len /\ cu_data c' = cu_data c.
Proof.
  unfold cursor_read_bytes. destruct (checked_add _ _) as [stop|] eqn:Ec; [|done]. cbn [ok_or].
  destruct (get_range _ _ _) as [b|] eqn:Eg; [|done]. intros [= <- <-].
  apply checked_add_Some in Ec as [-> _]. apply get_range_Some in Eg as (_ & _ & Hz).
  simpl. split; [lia|done].
Qed.

Lemma read_hash_inv c h c' :
  cursor_read_hash c = Ok (h, c') -> zlen h = 32 /\ cu_data c' = cu_data c.
Proof.
  unfold cursor_read_hash, hash_from_slice, URKEL_HASH_SIZE.
  destruct (cursor_read_bytes 32 c) as [[bytes c1]|] eqn:E; [|done].
  destruct (read_bytes_inv _ _ _ _ E) as [Hz Hd]. rewrite Hz. simpl. by intros [= <- <-].
Qed.

Lemma land_128_small b : 0 <= b < 128 -> Z.land b 128 = 0.
Proof.
  intros. apply Z.bits_inj_0. intros n. rewrite Z.land_spec.
  destruct (decide (n = 7)) as [->|Hn].
  - rewrite Z.bits_above_log2; [done|lia|]. destruct (decide (b = 0)) as [->|]; [done|].
    apply Z.log2_lt_pow2; lia.
  - change 128 with (2 ^ 7). by rewrite Z.pow2_bits_false, andb_false_r by lia.
Qed.

Lemma read_prefix_inv c p c' :
  bytes_ok (cu_data c) -> cursor_read_prefix c = Ok (p, c') ->
  0 <= bp_size p /\ zlen (bp_data p) = div_ceil8 (bp_size p) /\ cu_data c' = cu_data c.
Proof.
  intros Hb E. unfold cursor_read_prefix in E.
  destruct (get _ (cu_offset c)) as [first|] eqn:E1; [|done]. cbn [ok_or cu_data cu_offset] in E.
  pose proof (get_byte _ _ _ Hb E1) as Hf.
  destruct (negb _) eqn:Ebit.
  - destruct (get _ (cu_offset c + 1)) as [second|] eqn:E2; [|done]. cbn [ok_or] in E.
    destruct (cursor_read_bytes _ _) as [[data c1]|] eqn:Er; [|done].
    destruct (read_bytes_inv _ _ _ _ Er) as [Hz Hd]. case_match; [done|]. simplify_eq. simpl.
    split_and!; [|done|done]. apply Z.lor_nonneg. pose proof (get_byte _ _ _ Hb E2).
    split; [|width_lia]. apply Z.shiftl_nonneg. breflect.
    destruct (decide (first < 0x80)) as [Hlt|]; [|lia]. by rewrite land_128_small in Ebit by width_lia.
  - destruct (cursor_read_bytes _ _) as [[data c1]|] eqn:Er; [|done].
    destruct (read_bytes_inv _ _ _ _ Er) as [Hz Hd]. case_match; [done|]. simplify_eq. simpl.
    split_and!; [width_lia|done|done].
Qed.

Lemma read_checked_prefix_inv c p c' :
  bytes_ok (cu_data c) -> read_checked_prefix c = Ok (p, c') ->
  1 <= bp_size p <= 256 /\ zlen (bp_data p) = div_ceil8 (bp_size p) /\ cu_data c' = cu_data c.
Proof.
  intros Hb E. unfold read_checked_prefix, URKEL_BITS in E.
  destruct (cursor_read_prefix c) as [[q c1]|] eqn:Ep; [|done]. case_match; [done|]. simplify_eq.
  apply read_prefix_inv in Ep as (? & ? & ?); [|done]. breflect. split_and!; done || lia.
Qed.

Lemma read_nodes_inv bitmap n index c nodes c' :
  bytes_ok (cu_data c) -> read_nodes bitmap index n c = Ok (nodes, c') ->
  Forall node_typed nodes /\ length nodes = n /\ cu_data c' = cu_data c /\
  Forall (fun x => zlen (bp_data (un_prefix x)) = div_ceil8 (bp_size (un_prefix x))) nodes.
Proof.
  revert index c nodes. induction n as [|n IH]; intros index c nodes Hb E; simpl in E.
  { simplify_eq. done. }
  destruct (if has_bit bitmap index then read_checked_prefix c else Ok (prefix_empty, c))
    as [[p c1]|] eqn:Ep; [|done].
  assert (Hp : 0 <= bp_size p /\ zlen (bp_data p) = div_ceil8 (bp_size p) /\ cu_data c1 = cu_data c).
  { destruct (has_bit bitmap index); [|by simplify_eq].
    apply read_checked_prefix_inv in Ep as (? & ? & ?); [|done]. split_and!; done || lia. }
  destruct Hp as (H1 & H2 & H3).
  destruct (cursor_read_hash c1) as [[h c2]|] eqn:Eh; [|done]. apply read_hash_inv in Eh as [Hh Hd].
  destruct (read_nodes bitmap (index + 1) n c2) as [[ns c3]|] eqn:En; [|done]. simplify_eq.
  destruct (IH _ _ _ ltac:(by rewrite Hd, H3) En) as (F & L & D & G).
  split_and!; [by constructor|simpl; congruence|congruence|by constructor].
Qed.

Lemma read_body_inv t c b c' :
  bytes_ok (cu_data c) -> read_body t c = Ok (b, c') -> body_typed b /\ t = body_type b.
Proof.
  intros Hb E. unfold read_body in E.
  destruct (t =? TYPE_DEADEND) eqn:E0; [simplify_eq; breflect; by subst|].
  destruct (t =? TYPE_SHORT) eqn:E1.
  { destruct (read_checked_prefix c) as [[p c1]|] eqn:Ep; [|done].
    apply read_checked_prefix_inv in Ep as (? & _ & _); [|done].
    destruct (cursor_read_hash c1) as [[l c2]|] eqn:El; [|done]. apply read_hash_inv in El as [? _].
    destruct (cursor_read_hash c2) as [[r c3]|] eqn:Er; [|done]. apply read_hash_inv in Er as [? _].
    simplify_eq. breflect. subst. simpl. split_and!; done || lia. }
  destruct (t =? TYPE_COLLISION) eqn:E2.
  { destruct (cursor_read_hash c) as [[l c2]|] eqn:El; [|done]. apply read_hash_inv in El as [? _].
    destruct (cursor_read_hash c2) as [[r c3]|] eqn:Er; [|done]. apply read_hash_inv in Er as [? _].
    simplify_eq. breflect. by subst. }
  destruct (t =? TYPE_EXISTS) eqn:E3; [|done].
  destruct (cursor_read_u16_le c) as [[n c1]|]; [|done].
  destruct (cursor_read_bytes n c1) as [[v c2]|]; [|done]. simplify_eq. breflect. by subst.
Qed.

(** Whatever bytes are decoded, the proof is sane and well typed. *)
Lemma urkel_decode_inv bytes p :
  bytes_ok bytes -> urkel_decode bytes = Ok p ->
  proof_typed p /\ is_sane p = true /\ up_type p = body_type (up_body p) /\
  zlen bytes <= MAX_PROOF_SIZE.
Proof.
  intros Hb E. unfold urkel_decode in E. case_match eqn:Emax; [done|]. breflect.
  destruct (cursor_read_u16_le _) as [[field c]|] eqn:E1; [|done]. case_match; [done|].
  assert (Hd1 : cu_data c = bytes).
  { unfold cursor_read_u16_le in E1. destruct (cursor_read_bytes 2 _) as [[b c1]|] eqn:Er; [|done].
    apply read_bytes_inv in Er as [_ Hd]. by simplify_eq. }
  destruct (cursor_read_u16_le c) as [[count c1]|] eqn:E2; [|done].
  assert (Hd2 : cu_data c1 = bytes).
  { unfold cursor_read_u16_le in E2. destruct (cursor_read_bytes 2 c) as [[b c2]|] eqn:Er; [|done].
    apply read_bytes_inv in Er as [_ Hd]. simplify_eq. congruence. }
  case_match; [done|]. destruct (cursor_read_bytes _ c1) as [[bm c2]|] eqn:E3; [|done].
  apply read_bytes_inv in E3 as [_ Hd3].
  destruct (read_nodes _ _ _ c2) as [[nodes c3]|] eqn:E4; [|done].
  apply read_nodes_inv in E4 as (Hn & _ & Hd4 & _); [|congruence].
  destruct (read_body _ c3) as [[body c4]|] eqn:E5; [|done].
  apply read_body_inv in E5 as [Hbt Hty]; [|congruence].
  case_match; [done|]. case_match eqn:Es; [done|]. simplify_eq. breflect. by split_and!.
Qed.

(** C16. From raw bytes: if two byte strings parse as proofs for a key under one
    root and both are accepted, they agree on whether the key is present and on
    its value, unless the few strings hashed while verifying the two contain a
    collision or a preimage of the empty subtree's hash. *)
Theorem urkel_binding `{HashersLaws} bytes1 bytes2 root key p1 p2 :
  zlen key = 32 -> bytes_ok bytes1 -> bytes_ok bytes2 ->
  parse_for_key bytes1 root key = Ok p1 -> parse_for_key bytes2 root key = Ok p2 ->
  urkel_verifier_verify p1 root = Ok true -> urkel_verifier_verify p2 root = Ok true ->
  (pp_kind p1 = pp_kind p2 /\ proof_value (pp_proof p1) = proof_value (pp_proof p2)) \/
  breaks_hash (hashed (pp_proof p1) key ++ hashed (pp_proof p2) key).
Proof.
  intros Hk B1 B2 P1 P2 V1 V2.
  assert (Hopen : forall bytes p, bytes_ok bytes -> parse_for_key bytes root key = Ok p ->
    urkel_verifier_verify p root = Ok true ->
    proof_typed (pp_proof p) /\ urkel_verify_proof (pp_proof p) root key = true /\
    (pp_kind p = Inclusion <-> proof_value (pp_proof p) <> None)).
  { intros bytes p Hb P V. unfold parse_for_key in P. case_match; [done|].
    destruct (urkel_decode bytes) as [q|] eqn:Eq; [|done]. injection P as <-.
    destruct (urkel_decode_inv _ _ Hb Eq) as (Ht & _ & Hty & _). unfold urkel_verifier_verify in V. simpl in *.
    case_match; [done|]. injection V as V. split_and!; [done|done|..].
    all: unfold proof_kind, proof_value; rewrite Hty; by destruct (up_body q). }
  destruct (Hopen _ _ B1 P1 V1) as (T1 & W1 & K1), (Hopen _ _ B2 P2 V2) as (T2 & W2 & K2).
  destruct (accepted_agree _ _ _ _ Hk T1 T2 W1 W2) as [E|]; [left|by right]. split; [|done].
  rewrite E in K1. destruct (pp_kind p1), (pp_kind p2); naive_solver.
Qed.

(** ** The reference encoding *)

Definition prefix_bytes (p : BitPrefix) : list Z :=
  (if 0x80 <=? bp_size p then [0x80 + bp_size p / 256; bp_size p mod 256] else [bp_size p])
  ++ bp_data p.
Definition u16_le_bytes (v : Z) : list Z := reverse (to_be 2 v).
Definition node_bytes (n : UrkelProofNode) : list Z :=
  (if bp_size (un_prefix n) =? 0 then [] else prefix_bytes (un_prefix n)) ++ un_hash n.
Definition body_bytes (b : ProofBody) : list Z :=
  match b with
  | Deadend => []
  | Short prefix lhs rhs => prefix_bytes prefix ++ lhs ++ rhs
  | Collision key value_hash => key ++ value_hash
  | Exists value => u16_le_bytes (zlen value) ++ value
  end.
Definition proof_bytes (bitmap : list Z) (p : UrkelProof) : list Z :=
  u16_le_bytes (Z.lor (Z.shiftl (up_type p) 14) (up_depth p)) ++ u16_le_bytes (zlen (up_nodes p))
  ++ bitmap ++ concat (map node_bytes (up_nodes p)) ++ body_bytes (up_body p).

(** A prefix has just the bytes of its bits. *)
Definition prefix_exact (p : BitPrefix) : Prop :=
  0 <= bp_size p <= 256 /\ zlen (bp_data p) = div_ceil8 (bp_size p).
Definition proof_exact (p : UrkelProof) : Prop :=
  proof_typed p /\ is_sane p = true /\ up_type p = body_type (up_body p) /\ 0 <= up_depth p /\
  Forall (fun n => prefix_exact (un_prefix n)) (up_nodes p) /\
  match up_body p with Short prefix _ _ => prefix_exact prefix | _ => True end.
(** The bitmap marks the nodes with a prefix; its spare bits are free. *)
Definition bitmap_for (bitmap : list Z) (nodes : list UrkelProofNode) : Prop :=
  zlen bitmap = div_ceil8 (zlen nodes) /\
  forall i n, nodes !! i = Some n ->
    has_bit bitmap (Z.of_nat i) = negb (bp_size (un_prefix n) =? 0).

#[local] Instance cursor_pos : PosReader Cursor :=
  {| reader_input := cu_data; reader_pos := cu_offset |}.

Lemma reads_cursor_bytes n x : zlen x = n -> reads_back (cursor_read_bytes n) x x.
Proof.
  intros Hn r pre post (Hi & Hp & Hu). simpl in Hi, Hp.
  exists {| cu_data := cu_data r; cu_offset := zlen pre + n |}.
  pose proof (zlen_nonneg pre); pose proof (zlen_nonneg post); pose proof (zlen_nonneg x).
  unfold cursor_read_bytes. rewrite Hp, Hi. lens. zdecide_with ltac:(lia).
  rewrite (get_range_mid pre x post) by lia. split; [done|].
  unfold standing. simpl. rewrite <- app_assoc. split_and!; [done|lens; lia|lens; lia].
Qed.

Lemma reads_cursor_u16 v : in_u16 v -> reads_back cursor_read_u16_le (u16_le_bytes v) v.
Proof.
  intros Hv. rewrite <- (from_be_to_be 2 v) at 2 by width_lia.
  rewrite <- (reverse_involutive (to_be 2 v)).
  apply (reads_last (cursor_read_bytes 2) (fun b => from_be (reverse b))), reads_cursor_bytes.
  unfold zlen. by rewrite length_reverse, length_to_be.
Qed.

Lemma reads_cursor_hash h : zlen h = 32 -> reads_back cursor_read_hash h h.
Proof.
  intros Hh r pre post Hs. destruct (reads_cursor_bytes 32 h Hh r pre post Hs) as (r' & E & Hs').
  exists r'. split; [|done]. unfold cursor_read_hash, hash_from_slice, URKEL_HASH_SIZE.
  by rewrite E, Hh.
Qed.

Lemma div_ceil8_nonneg n : 0 <= n -> 0 <= div_ceil8 n.
Proof. intros. unfold div_ceil8. apply Z.div_pos; lia. Qed.

Lemma reads_cursor_prefix p : prefix_exact p -> reads_back cursor_read_prefix (prefix_bytes p) p.
Proof.
  intros [Hs Hd] r pre post Hst. pose proof Hst as (Hi & Hp & Hu). simpl in Hi, Hp.
  unfold prefix_bytes in *. unfold cursor_read_prefix.
  destruct (0x80 <=? bp_size p) eqn:Ebig; breflect; simpl in Hi, Hu; rewrite Hi, Hp, get_app_mid;
    cbn [ok_or cu_data cu_offset].
  - pose proof (Z.div_mod (bp_size p) 256 ltac:(lia)) as Hdm.
    pose proof (Z.mod_pos_bound (bp_size p) 256 ltac:(lia)) as Hmb.
    set (hi := bp_size p / 256) in *. set (lo := bp_size p mod 256) in *.
    assert (Hhi : hi = 0 \/ hi = 1) by lia.
    replace (Z.land (128 + hi) 128 =? 0) with false by (destruct Hhi as [-> | ->]; done). cbn [negb].
    replace (get _ (zlen pre + 1)) with (Some lo).
    2: { rewrite get_skip by lia. replace (zlen pre + 1 - zlen pre) with 1 by lia. done. }
    cbn [ok_or]. assert (Hsz : Z.lor (Z.shiftl (128 + hi - 128) 8) lo = bp_size p).
    { replace (128 + hi - 128) with hi by lia. destruct Hhi as [Hh|Hh].
      - rewrite Hh, Z.shiftl_0_l, Z.lor_0_l. lia.
      - assert (Hb : lo = 0) by lia. rewrite Hh, Hb, Z.lor_0_r. change (Z.shiftl 1 8) with 256. lia. }
    rewrite Hsz. destruct (reads_cursor_bytes (div_ceil8 (bp_size p)) (bp_data p) Hd
      {| cu_data := cu_data r; cu_offset := cu_offset r + 1 + 1 |} (pre ++ [128 + hi; lo]) post) as (r' & E & Hs').
    { unfold standing. simpl. rewrite <- app_assoc. simpl. split_and!; [done|lens; lia|done]. }
    rewrite <- Hi, <- Hp, E. pose proof Hs' as (_ & Hp' & _). simpl in Hp'. rewrite Hp'.
    unfold prefix_encoded_len. simpl. rewrite (proj2 (Z.leb_le _ _) Ebig).
    replace (_ =? _) with true by (symmetry; apply Z.eqb_eq; lens; lia). simpl.
    exists r'. split; [by destruct p|]. by rewrite <- app_assoc in Hs'.
  - rewrite land_128_small by lia. simpl.
    destruct (reads_cursor_bytes (div_ceil8 (bp_size p)) (bp_data p) Hd
      {| cu_data := cu_data r; cu_offset := cu_offset r + 1 |} (pre ++ [bp_size p]) post) as (r' & E & Hs').
    { unfold standing. simpl. rewrite <- app_assoc. simpl. split_and!; [done|lens; lia|done]. }
    rewrite <- Hi, <- Hp, E. pose proof Hs' as (_ & Hp' & _). simpl in Hp'. rewrite Hp'.
    unfold prefix_encoded_len. simpl. rewrite (proj2 (Z.leb_gt _ _) Ebig).
    replace (_ =? _) with true by (symmetry; apply Z.eqb_eq; lens; lia). simpl.
    exists r'. split; [by destruct p|]. by rewrite <- app_assoc in Hs'.
Qed.

Lemma reads_checked_prefix p :
  prefix_exact p -> 0 < bp_size p -> reads_back read_checked_prefix (prefix_bytes p) p.
Proof.
  intros Hp Hpos r pre post Hs. destruct (reads_cursor_prefix p Hp r pre post Hs) as (r' & E & Hs').
  exists r'. split; [|done]. unfold read_checked_prefix, URKEL_BITS. rewrite E.
  destruct Hp as [Hb _]. zdecide_with ltac:(lia). done.
Qed.

Lemma reads_node bitmap index n :
  node_typed n -> prefix_exact (un_prefix n) ->
  has_bit bitmap index = negb (bp_size (un_prefix n) =? 0) ->
  reads_back (fun c => let? (prefix, c) :=
      if has_bit bitmap index then read_checked_prefix c else Ok (prefix_empty, c) in
    let? (hash, c) := cursor_read_hash c in Ok ({| un_prefix := prefix; un_hash := hash |}, c))
    (node_bytes n) n.
Proof.
  intros [Hs Hh] Hp Hb. unfold node_bytes. rewrite Hb. destruct n as [p h]. simpl in *.
  apply (reads_bind (fun c => if negb (bp_size p =? 0) then read_checked_prefix c
                              else Ok (prefix_empty, c))
    (fun prefix c => let? (hash, c) := cursor_read_hash c in
       Ok ({| un_prefix := prefix; un_hash := hash |}, c)) _ h p).
  - destruct (bp_size p =? 0) eqn:E; simpl; breflect.
    + replace p with prefix_empty; [apply reads_ret|].
      destruct p as [size data], Hp as [_ Hd]. simpl in *. subst. by rewrite (zlen_0 _ Hd).
    + apply reads_checked_prefix; [done|lia].
  - by apply (reads_last cursor_read_hash (Build_UrkelProofNode p)), reads_cursor_hash.
Qed.

Lemma reads_nodes bitmap nodes (i : nat) :
  Forall node_typed nodes -> Forall (fun n => prefix_exact (un_prefix n)) nodes ->
  (forall j n, nodes !! j = Some n ->
     has_bit bitmap (Z.of_nat (i + j)) = negb (bp_size (un_prefix n) =? 0)) ->
  reads_back (read_nodes bitmap (Z.of_nat i) (length nodes)) (concat (map node_bytes nodes)) nodes.
Proof.
  revert i. induction nodes as [|n nodes IH]; intros i Ht Hp Hb; [apply reads_ret|].
  apply Forall_cons in Ht as [Hn Ht], Hp as [Hpn Hp].
  pose proof (reads_node bitmap (Z.of_nat i) n Hn Hpn) as Hnode.
  assert (Hrest : reads_back (read_nodes bitmap (Z.of_nat i + 1) (length nodes))
                    (concat (map node_bytes nodes)) nodes).
  { replace (Z.of_nat i + 1) with (Z.of_nat (S i)) by lia. apply IH; [done|done|].
    intros j m Hj. rewrite <- (Hb (S j) m Hj). f_equal. lia. }
  intros r pre post Hs. simpl in Hs. rewrite <- app_assoc in Hs.
  destruct (Hnode ltac:(rewrite <- (Hb 0%nat n eq_refl); f_equal; lia) r pre _ Hs) as (r1 & E1 & Hs1).
  destruct (Hrest r1 _ post Hs1) as (r2 & E2 & Hs2). exists r2. simpl concat.
  rewrite app_assoc. split; [|exact Hs2]. cbn [read_nodes length].
  destruct (if has_bit bitmap (Z.of_nat i) then _ else _) as [[q c]|]; [|done].
  destruct (cursor_read_hash c) as [[h c2]|]; [|done]. injection E1 as <- <-. by rewrite E2.
Qed.

Lemma reads_body b :
  body_typed b -> body_sane b -> match b with Short prefix _ _ => prefix_exact prefix | _ => True end ->
  reads_back (read_body (body_type b)) (body_bytes b) b.
Proof.
  intros Ht Hs Hp. destruct b as [|p l r|k v|x]; simpl in *; unfold read_body; simpl.
  - apply reads_ret.
  - destruct Ht as (_ & Hl & Hr).
    apply (reads_bind read_checked_prefix (fun p c => let? (l, c) := cursor_read_hash c in
      let? (r, c) := cursor_read_hash c in Ok (Short p l r, c)) _ (l ++ r) p).
    + apply reads_checked_prefix; [done|lia].
    + apply (reads_bind cursor_read_hash (fun l c => let? (r, c) := cursor_read_hash c in
        Ok (Short p l r, c)) _ r l); [by apply reads_cursor_hash|].
      by apply (reads_last cursor_read_hash (Short p l)), reads_cursor_hash.
  - destruct Ht as [Hk Hv].
    apply (reads_bind cursor_read_hash (fun k c => let? (v, c) := cursor_read_hash c in
      Ok (Collision k v, c)) _ v k); [by apply reads_cursor_hash|].
    by apply (reads_last cursor_read_hash (Collision k)), reads_cursor_hash.
  - apply (reads_bind cursor_read_u16_le (fun n c => let? (v, c) := cursor_read_bytes n c in
      Ok (Exists v, c)) (u16_le_bytes (zlen x)) x (zlen x)).
    + apply reads_cursor_u16. pose proof (zlen_nonneg x). width_lia.
    + by apply (reads_last (cursor_read_bytes (zlen x)) Exists), reads_cursor_bytes.
Qed.

(** The two fields packed in the first word. *)
Lemma field_split t d : 0 <= t <= 3 -> 0 <= d <= 256 ->
  let field := Z.lor (Z.shiftl t 14) d in
  in_u16 field /\ Z.shiftr field 14 = t /\ Z.land field (Z.lxor u16_max (Z.shiftl 3 14)) = d.
Proof.
  intros Ht Hd. cbv zeta.
  assert (Hall : forallb (fun t => forallb (fun d => let f := Z.lor (Z.shiftl t 14) d in
      (0 <=? f) && (f <=? 65535) && (Z.shiftr f 14 =? t)
      && (Z.land f (Z.lxor u16_max (Z.shiftl 3 14)) =? d))
    (map Z.of_nat (seq 0 257))) (map Z.of_nat (seq 0 4)) = true) by (vm_compute; reflexivity).
  rewrite forallb_forall in Hall. specialize (Hall t). rewrite forallb_forall in Hall.
  assert (Hin : forall (n : nat) z, 0 <= z < Z.of_nat n -> In z (map Z.of_nat (seq 0 n))).
  { intros n z Hz. apply in_map_iff. exists (Z.to_nat z). rewrite in_seq. lia. }
  specialize (Hall (Hin 4%nat t ltac:(lia)) d (Hin 257%nat d ltac:(lia))). cbv zeta in Hall. breflect.
  split_and!; done || width_lia.
Qed.

(** Decoding inverts the reference encoding of every exact proof, whatever
    the spare bits of the bitmap. *)
Theorem urkel_decode_roundtrip bitmap p :
  proof_exact p -> bitmap_for bitmap (up_nodes p) ->
  zlen (proof_bytes bitmap p) <= MAX_PROOF_SIZE -> urkel_decode (proof_bytes bitmap p) = Ok p.
Proof.
  intros ([Hn Hb] & Hs & Hty & Hd0 & Hpx & Hpb) [Hbz Hbm] Hmax. unfold urkel_decode.
  assert (Hlim : up_depth p <= 256 /\ zlen (up_nodes p) <= 256).
  { pose proof Hs as H'. unfold is_sane, URKEL_BITS in H'. case_match eqn:E; [done|]. breflect. lia. }
  assert (Hbs : body_sane (up_body p)).
  { pose proof (proj2 (sane_facts _ Hs)) as H1. pose proof Hs as H2. unfold is_sane in H2.
    destruct (up_body p); try done. simpl. do 2 (case_match; [done|]). breflect. lia. }
  pose proof (zlen_nonneg (up_nodes p)).
  assert (Ht : 0 <= up_type p <= 3) by (rewrite Hty; destruct (up_body p); split; by vm_compute).
  destruct (field_split (up_type p) (up_depth p) Ht ltac:(lia)) as (Hf & Hft & Hfd).
  destruct (Z.ltb_spec MAX_PROOF_SIZE (zlen (proof_bytes bitmap p))); [lia|].
  unfold MAX_PROOF_SIZE in Hmax. set (input := proof_bytes bitmap p) in *.
  destruct (reads_cursor_u16 _ Hf {| cu_data := input; cu_offset := 0 |} []
    (u16_le_bytes (zlen (up_nodes p)) ++ bitmap ++ concat (map node_bytes (up_nodes p))
     ++ body_bytes (up_body p))) as (c1 & E1 & S1).
  { split_and!; [done|done|]. change (zlen input <= u64_max). width_lia. }
  rewrite E1, Hft, Hfd. unfold URKEL_BITS. zdecide_with ltac:(lia).
  destruct (reads_cursor_u16 (zlen (up_nodes p)) ltac:(width_lia) c1 _ _ S1) as (c2 & E2 & S2).
  rewrite E2. zdecide_with ltac:(lia).
  destruct (reads_cursor_bytes _ bitmap Hbz c2 _ _ S2) as (c3 & E3 & S3). rewrite E3.
  destruct (reads_nodes bitmap (up_nodes p) 0 Hn Hpx Hbm c3 _ _ S3) as (c4 & E4 & S4).
  unfold zlen at 1. rewrite Nat2Z.id. change (Z.of_nat 0) with 0 in E4. rewrite E4, Hty.
  rewrite <- (app_nil_r (body_bytes (up_body p))) in S4.
  destruct (reads_body _ Hb Hbs Hpb c4 _ _ S4) as (c5 & E5 & (Hi5 & Hp5 & _)). rewrite E5.
  simpl in Hi5, Hp5. rewrite app_nil_r in Hi5. rewrite Hi5, Hp5, Z.eqb_refl. simpl.
  rewrite <- Hty. destruct p. simpl in *. by rewrite Hs.
Qed.

(** ** Evaluation on a concrete tree *)

(** A toy hash: 32 bytes of a checksum. *)
#[export] Instance toy_hashers : Hashers := {|
  blake2b_var := fun n l => to_be (Z.to_nat n) (from_be l * 31 + 7);
  sha3_var := fun l => to_be 32 (from_be l * 37 + 5) |}.
#[export] Instance toy_hashers_laws : HashersLaws.
Proof.
  constructor; cbn -[to_be from_be zlen].
  - intros n l Hn. rewrite zlen_to_be. lia.
  - intros. apply to_be_bytes.
  - intros. apply zlen_to_be.
  - intros. apply to_be_bytes.
Qed.

(** Keys that begin with the bits 00..., 0100... and 1.... *)
Definition toy_key (b : Z) : list Z := b :: replicate 31 0.
Definition toy_tree : utree :=
  UNode prefix_empty
    (UNode prefix_empty (ULeaf (toy_key 0) [1; 2; 3])
       (UNode {| bp_size := 2; bp_data := [0] |} (ULeaf (toy_key 64) [4]) UNull))
    (ULeaf (toy_key 128) [5; 6]).

Lemma toy_tree_wf : tree_wf 0 toy_tree.
Proof. repeat split; vm_compute; congruence. Qed.

Definition toy_proof : UrkelProof := proof_of (toy_key 64) toy_tree.
Definition toy_proof_bytes : list Z := proof_bytes [0x20] toy_proof.

Lemma toy_proof_exact : proof_exact toy_proof.
Proof.
  repeat split; try (vm_compute; congruence).
  all: repeat (apply Forall_cons; split); try apply Forall_nil; vm_compute; try done;
    split_and?; congruence.
Qed.

Lemma urkel_decode_roundtrip_witness : urkel_decode toy_proof_bytes = Ok toy_proof.
Proof.
  apply (urkel_decode_roundtrip [0x20] toy_proof).
  - exact toy_proof_exact.
  - split; [vm_compute; reflexivity|]. intros [|[|[|i]]] n Hn; vm_compute in Hn; try discriminate;
      injection Hn as <-; vm_compute; reflexivity.
  - vm_compute. discriminate.
Defined.

Lemma urkel_proofs_decide_membership_witness :
  proof_value toy_proof = Some [4] /\ urkel_verify_proof toy_proof (tree_hash toy_tree) (toy_key 64) = true /\
  tree_get (toy_key 65) 0 toy_tree = None.
Proof.
  destruct (urkel_proofs_decide_membership toy_tree (toy_key 64) eq_refl toy_tree_wf) as (Hv & Hg & _).
  split_and!; [exact Hg|exact Hv|reflexivity].
Defined.

Lemma urkel_binding_witness :
  exists p, parse_for_key toy_proof_bytes (tree_hash toy_tree) (toy_key 64) = Ok p /\
    (pp_kind p = pp_kind p /\ proof_value (pp_proof p) = proof_value (pp_proof p) \/
     breaks_hash (hashed (pp_proof p) (toy_key 64) ++ hashed (pp_proof p) (toy_key 64))) /\
    proof_value (pp_proof p) = Some [4].
Proof.
  assert (Hb : bytes_ok toy_proof_bytes).
  { assert (E : forallb (fun b => (0 <=? b) && (b <=? 255)) toy_proof_bytes = true) by (vm_compute; reflexivity).
    apply Forall_forall. intros b Hin. rewrite forallb_forall in E. rewrite list_elem_of_In in Hin.
    specialize (E b Hin). breflect. width_lia. }
  assert (Hok : option_map (fun p => proof_value (pp_proof p))
    (ok_of (parse_for_key toy_proof_bytes (tree_hash toy_tree) (toy_key 64))) = Some (Some [4]))
    by (vm_compute; reflexivity).
  assert (Hv : option_map (fun p => ok_of (urkel_verifier_verify p (tree_hash toy_tree)))
    (ok_of (parse_for_key toy_proof_bytes (tree_hash toy_tree) (toy_key 64))) = Some (Some true))
    by (vm_compute; reflexivity).
  destruct (parse_for_key toy_proof_bytes (tree_hash toy_tree) (toy_key 64)) as [p|] eqn:E; [|discriminate].
  cbn [ok_of option_map] in Hok, Hv. exists p. split; [reflexivity|].
  destruct (urkel_verifier_verify p (tree_hash toy_tree)) as [b|] eqn:Ev; cbn [ok_of] in Hv;
    [|congruence].
  assert (Hbt : b = true) by congruence. subst b. split; [|congruence].
  exact (urkel_binding toy_proof_bytes toy_proof_bytes (tree_hash toy_tree) (toy_key 64) p p
    eq_refl Hb Hb E E Ev Ev).
Defined.
