(* ===== verification/NsTypes.v ===== *)
(** * Namespace decisions: origins and evidence

    Models the data of [src/crates/hns-namespace-resolution/src/lib.rs]: hosts,
    origin queries, aliases, freshness and provenance. A private field is a
    record field, its accessor the projection. *)

From Stdlib Require Import Sorting.Sorted.
From S2P Require Import Prelude ByteOrder PrimHash PrimPow.

Definition COMPARISON_SCHEMA_VERSION : Z := 1.
Definition MAX_HOST_BYTES : Z := 253.
Definition MAX_ALIAS_STEPS : Z := 8.
Definition MAX_ENDPOINTS : Z := 32.
Definition MAX_ALPN_IDS : Z := 16.
Definition MAX_ALPN_ID_BYTES : Z := 255.
Definition MAX_SERVICE_PARAMETERS : Z := 32.
Definition MAX_PARAMETER_BYTES : Z := 65535.
Definition MAX_TLSA_RECORDS : Z := 32.

Inductive ValidationError := InvalidHost | InvalidQuery | BoundExceeded | InvalidPlan | InvalidEvidence.

Inductive Namespace := Hns | Icann.
Definition namespace_tag (n : Namespace) : Z := match n with Hns => 1 | Icann => 2 end.

Inductive HnsNetwork := NetMainnet | NetTestnet | NetRegtest | NetSimnet.
Definition network_tag (n : HnsNetwork) : Z :=
  match n with NetMainnet => 0 | NetTestnet => 1 | NetRegtest => 2 | NetSimnet => 3 end.

(** ** Hosts *)

(** [IpAddr::from_str] on an IPv4 literal: four decimal octets without leading
    zeros. An IPv6 literal holds a colon, which the labels below reject with the
    same error. *)
Definition is_digit (c : Z) : bool := (48 <=? c) && (c <=? 57).
Definition octet_literal (part : list Z) : bool :=
  (1 <=? zlen part) && (zlen part <=? 3) && forallb is_digit part
  && (bool_decide (part = [48]) || negb (bool_decide (head part = Some 48)))
  && (fold_left (fun v c => v * 10 + (c - 48)) part 0 <=? 255).
Definition is_ipv4_literal (text : list Z) : bool :=
  let parts := split_on 46 text in
  (zlen text <=? 15) && (zlen parts =? 4) && forallb octet_literal parts.

Definition CanonicalHost := list Z.

(** One label of [normalized.split('.')]. *)
Definition host_label_ok (label : list Z) : bool :=
  negb ((zlen label =? 0) || (63 <? zlen label)
        || bool_decide (head label = Some 45) || bool_decide (last label = Some 45)
        || negb (forallb (fun byte => is_ascii_alphanumeric byte || (byte =? 45)) label)).

(** [CanonicalHost::parse], on the characters of the input. *)
Definition canonical_host_parse (input : list Z) : result ValidationError CanonicalHost :=
  if negb (bytes_eqb (trim input) input) || (zlen input =? 0) || negb (forallb (fun c => c <? 128) input)
  then Err InvalidHost else
  let without_root := strip_dot input in
  if (zlen without_root =? 0) || bool_decide (last without_root = Some 46)
     || (MAX_HOST_BYTES <? zlen without_root) || is_ipv4_literal without_root
  then Err InvalidHost else
  let normalized := map to_ascii_lowercase without_root in
  if forallb host_label_ok (split_on 46 normalized) then Ok normalized else Err InvalidHost.

(** ** Queries *)

Inductive OriginScheme := Http | Https | Ws | Wss.
Definition default_port (s : OriginScheme) : Z := match s with Http | Ws => 80 | Https | Wss => 443 end.
Definition uses_tls (s : OriginScheme) : bool := match s with Https | Wss => true | _ => false end.
Definition scheme_tag (s : OriginScheme) : Z := match s with Http => 1 | Https => 2 | Ws => 3 | Wss => 4 end.

Inductive ApplicationProtocol := Http11 | Http2 | Http3.
Definition protocol_tag (p : ApplicationProtocol) : Z := match p with Http11 => 1 | Http2 => 2 | Http3 => 3 end.

Record ProtocolCapabilities := { pc_http11 : bool; pc_http2 : bool; pc_http3 : bool }.
Definition capabilities_new (http11 http2 http3 : bool) : result ValidationError ProtocolCapabilities :=
  if http11 || http2 || http3
  then Ok {| pc_http11 := http11; pc_http2 := http2; pc_http3 := http3 |}
  else Err InvalidQuery.
Definition capabilities_all : ProtocolCapabilities :=
  {| pc_http11 := true; pc_http2 := true; pc_http3 := true |}.
Definition supports (c : ProtocolCapabilities) (p : ApplicationProtocol) : bool :=
  match p with Http11 => pc_http11 c | Http2 => pc_http2 c | Http3 => pc_http3 c end.
Definition capability_flags (c : ProtocolCapabilities) : Z :=
  Z.lor (Z.lor (Z.b2z (pc_http11 c)) (Z.shiftl (Z.b2z (pc_http2 c)) 1)) (Z.shiftl (Z.b2z (pc_http3 c)) 2).

Record OriginQuery := {
  oq_host : CanonicalHost; oq_scheme : OriginScheme; oq_explicit_port : option Z;
  oq_supported_protocols : ProtocolCapabilities }.
Definition origin_port (q : OriginQuery) : Z :=
  match oq_explicit_port q with Some port => port | None => default_port (oq_scheme q) end.

(** ** Aliases *)

Inductive AliasKind := AliasCname | AliasHttps.
Definition alias_tag (k : AliasKind) : Z := match k with AliasCname => 1 | AliasHttps => 2 end.

Record AliasStep := { al_kind : AliasKind; al_owner : CanonicalHost; al_target : CanonicalHost }.
Definition alias_new (kind : AliasKind) (owner target : CanonicalHost) : result ValidationError AliasStep :=
  if bytes_eqb owner target then Err InvalidPlan
  else Ok {| al_kind := kind; al_owner := owner; al_target := target |}.

(** ** Addresses

    Octets of an address; a socket address carries the flow and scope numbers of
    its IPv6 form, zero for IPv4. *)

Inductive NsAddr := AddrV4 (octets : list Z) | AddrV6 (octets : list Z).
Record SocketAddr := { sa_ip : NsAddr; sa_port : Z; sa_flowinfo : Z; sa_scope : Z }.

(** The derived orders: version 4 before 6, then the fields in turn. *)
Definition addr_key (a : NsAddr) : list Z :=
  match a with AddrV4 octets => 4 :: octets | AddrV6 octets => 6 :: octets end.
Definition socket_key (s : SocketAddr) : list Z :=
  addr_key (sa_ip s) ++ [sa_port s; sa_flowinfo s; sa_scope s].

(** ** Evidence *)

Inductive IcannChainState := ChainSecure | ChainProvenInsecure.

Inductive EvidenceProvenance :=
| ProvHns (network : HnsNetwork) (tree_root : list Z) (height : Z)
| ProvIcannDoh (chain_state : IcannChainState).

Definition validate_for (p : EvidenceProvenance) (n : Namespace) : result ValidationError unit :=
  match n, p with
  | Hns, ProvHns _ _ _ => Ok tt
  | Icann, ProvIcannDoh _ => Ok tt
  | _, _ => Err InvalidEvidence
  end.
Definition provenance_network (p : EvidenceProvenance) : option HnsNetwork :=
  match p with ProvHns network _ _ => Some network | ProvIcannDoh _ => None end.

Record Freshness := { fr_observed_at_unix : Z; fr_expires_at_unix : Z }.
Definition freshness_new (observed expires : Z) : result ValidationError Freshness :=
  if expires <=? observed then Err InvalidEvidence
  else Ok {| fr_observed_at_unix := observed; fr_expires_at_unix := expires |}.
Definition fresh_at (f : Freshness) (now : Z) : bool :=
  (fr_observed_at_unix f <=? now) && (now <? fr_expires_at_unix f).

Inductive TlsTrustPolicy :=
| Cleartext | Dane | WebPkiAuthenticatedAbsence | WebPkiInsecureDelegation | StatelessDane.
Definition tls_tag (p : TlsTrustPolicy) : Z :=
  match p with
  | Cleartext => 1 | Dane => 2 | WebPkiAuthenticatedAbsence => 3 | WebPkiInsecureDelegation => 4
  | StatelessDane => 5
  end.

(** [CanonicalTlsa::new]; the value is its RDATA. *)
Definition canonical_tlsa_new (rdata : list Z) : result ValidationError (list Z) :=
  if MAX_PARAMETER_BYTES <? zlen rdata then Err BoundExceeded else
  match rdata with
  | usage :: selector :: matching :: association =>
      if negb ((usage =? 2) || (usage =? 3)) || negb ((selector =? 0) || (selector =? 1))
         || negb ((matching =? 0) && (1 <=? zlen association)
                  || (matching =? 1) && (zlen association =? 32)
                  || (matching =? 2) && (zlen association =? 64))
      then Err InvalidPlan else Ok rdata
  | _ => Err InvalidPlan
  end.

#[export] Instance Namespace_eq_dec : EqDecision Namespace. Proof. solve_decision. Defined.
#[export] Instance HnsNetwork_eq_dec : EqDecision HnsNetwork. Proof. solve_decision. Defined.
#[export] Instance OriginScheme_eq_dec : EqDecision OriginScheme. Proof. solve_decision. Defined.
#[export] Instance ApplicationProtocol_eq_dec : EqDecision ApplicationProtocol. Proof. solve_decision. Defined.
#[export] Instance ProtocolCapabilities_eq_dec : EqDecision ProtocolCapabilities. Proof. solve_decision. Defined.
#[export] Instance CanonicalHost_eq_dec : EqDecision CanonicalHost. Proof. unfold CanonicalHost. apply _. Defined.
#[export] Instance OriginQuery_eq_dec : EqDecision OriginQuery. Proof. solve_decision. Defined.
#[export] Instance AliasKind_eq_dec : EqDecision AliasKind. Proof. solve_decision. Defined.
#[export] Instance AliasStep_eq_dec : EqDecision AliasStep. Proof. solve_decision. Defined.
#[export] Instance NsAddr_eq_dec : EqDecision NsAddr. Proof. solve_decision. Defined.
#[export] Instance SocketAddr_eq_dec : EqDecision SocketAddr. Proof. solve_decision. Defined.
#[export] Instance TlsTrustPolicy_eq_dec : EqDecision TlsTrustPolicy. Proof. solve_decision. Defined.

(** ** Keys *)

#[export] Instance addr_key_inj : Inj (=) (=) addr_key.
Proof. intros [] []; cbn; intros E; try discriminate E; by injection E as ->. Qed.
#[export] Instance socket_key_inj : Inj (=) (=) socket_key.
Proof.
  intros [ip1 p1 f1 s1] [ip2 p2 f2 s2]. unfold socket_key. cbn [sa_ip sa_port sa_flowinfo sa_scope].
  intros E. apply app_inj_2 in E as [E1 E2]; [|done]. apply (inj addr_key) in E1. congruence.
Qed.
