(* ===== verification/NsService.v ===== *)
(** * Namespace decisions: service bindings

    Models [ServiceBinding::new] of [src/crates/hns-namespace-resolution/src/lib.rs]
    and its helpers. The theorem: what the constructor accepts is normalised, does
    not depend on the order of unordered fields, and is accepted again unchanged. *)

From Stdlib Require Import Sorting.Sorted.
From S2P Require Import Prelude ByteOrder PrimHash PrimPow NsTypes.

Inductive ServiceTransport := TransportTcp | TransportUdp.
Definition transport_tag (t : ServiceTransport) : Z := match t with TransportTcp => 1 | TransportUdp => 2 end.

Record ServiceParameter := { sprm_key : Z; sprm_value : list Z }.
Definition service_parameter_new (key : Z) (value : list Z) : result ValidationError ServiceParameter :=
  if MAX_PARAMETER_BYTES <? zlen value then Err BoundExceeded
  else Ok {| sprm_key := key; sprm_value := value |}.

(** [ServiceBindingInput] and [ServiceBinding] have the same fields; the second
    is only made by [service_binding_new]. *)
Record ServiceBinding := {
  sb_priority : option Z;
  sb_service_target : CanonicalHost;
  sb_mandatory_keys : list Z;
  sb_advertised_alpn : list (list Z);
  sb_selected_protocol : ApplicationProtocol;
  sb_effective_port : Z;
  sb_transport : ServiceTransport;
  sb_connection_hints : list NsAddr;
  sb_ech_config : option (list Z);
  sb_parameters : list ServiceParameter }.

#[export] Instance ServiceTransport_eq_dec : EqDecision ServiceTransport. Proof. solve_decision. Defined.
#[export] Instance ServiceParameter_eq_dec : EqDecision ServiceParameter. Proof. solve_decision. Defined.
#[export] Instance ServiceBinding_eq_dec : EqDecision ServiceBinding. Proof. solve_decision. Defined.

(** [values.windows(2).any(..)] with equal halves. *)
Fixpoint adjacent_equal (keys : list Z) : bool :=
  match keys with
  | x :: (y :: _) as rest => (x =? y) || adjacent_equal rest
  | _ => false
  end.

Fixpoint has_duplicate_alpn (values : list (list Z)) : bool :=
  match values with
  | [] => false
  | value :: rest => bool_decide (value ∈ rest) || has_duplicate_alpn rest
  end.

Definition has_service_parameter (parameters : list ServiceParameter) (key : Z) : bool :=
  existsb (fun p => sprm_key p =? key) parameters.
Definition service_parameter (parameters : list ServiceParameter) (key : Z) : option (list Z) :=
  option_map sprm_value (find (fun p => sprm_key p =? key) parameters).

(** ["http/1.1"], ["h2"], ["h3"] and ["h3-"]. *)
Definition id_http11 : list Z := [104; 116; 116; 112; 47; 49; 46; 49].
Definition id_h2 : list Z := [104; 50].
Definition id_h3 : list Z := [104; 51].
Definition id_h3_dash : list Z := [104; 51; 45].

Definition selected_alpn_is_valid (selected : ApplicationProtocol) (advertised : list (list Z))
    (parameters : list ServiceParameter) : bool :=
  let no_default_alpn := bool_decide (service_parameter parameters 2 <> None) in
  if bool_decide (selected = Http11) && negb no_default_alpn then true else
  existsb (fun identifier =>
    match selected with
    | Http11 => bytes_eqb identifier id_http11
    | Http2 => bytes_eqb identifier id_h2
    | Http3 => bytes_eqb identifier id_h3 || bytes_eqb (take 3 identifier) id_h3_dash
    end) advertised.

(** The loop of [alpn_wire_matches]: the identifiers parsed so far. *)
Definition alpn_wire_step (wire : list Z) (st : Z * list (list Z))
    : result ValidationError (Z * list (list Z) + list (list Z)) :=
  let '(offset, parsed) := st in
  if zlen wire <=? offset then Ok (inr parsed) else
  let? length := ok_or (get wire offset) InvalidPlan in
  let? offset := ok_or (checked_add offset 1) InvalidPlan in
  if length =? 0 then Err InvalidPlan else
  let? stop := ok_or (checked_add offset length) InvalidPlan in
  let? identifier := ok_or (get_range wire offset stop) InvalidPlan in
  Ok (inl (stop, parsed ++ [identifier])).

Definition alpn_wire_matches (wire : list Z) (advertised : list (list Z)) : result ValidationError bool :=
  if zlen wire =? 0 then Err InvalidPlan else
  match loop (S (length wire)) (alpn_wire_step wire) (0, []) with
  | Some (Ok parsed) => Ok (bool_decide (parsed = advertised))
  | Some (Err e) => Err e
  | None => Err InvalidPlan
  end.

(** [wire.chunks_exact(n).any(|chunk| chunk == octets)]. *)
Fixpoint has_chunk (fuel n : nat) (wire octets : list Z) : bool :=
  match fuel with
  | O => false
  | S fuel =>
      if (length wire <? n)%nat then false
      else bytes_eqb (take n wire) octets || has_chunk fuel n (drop n wire) octets
  end.

Definition service_parameters_contain_hint (parameters : list ServiceParameter) (hint : NsAddr) : bool :=
  match hint with
  | AddrV4 octets =>
      match service_parameter parameters 4 with
      | Some wire => has_chunk (S (length wire)) 4 wire octets
      | None => false
      end
  | AddrV6 octets =>
      match service_parameter parameters 6 with
      | Some wire => has_chunk (S (length wire)) 16 wire octets
      | None => false
      end
  end.

(** [is_some_and]. *)
Definition some_and {A} (o : option A) (f : A -> bool) : bool :=
  match o with Some a => f a | None => false end.

Definition known_service_parameters_match (i : ServiceBinding) : result ValidationError bool :=
  let? alpn_matches :=
    match service_parameter (sb_parameters i) 1 with
    | Some value => alpn_wire_matches value (sb_advertised_alpn i)
    | None => Ok (zlen (sb_advertised_alpn i) =? 0)
    end in
  if negb (alpn_matches : bool) then Ok false else
  if some_and (service_parameter (sb_parameters i) 2) (fun value => negb (zlen value =? 0)) then Ok false else
  if some_and (service_parameter (sb_parameters i) 3)
       (fun value => negb (bytes_eqb value (to_be 2 (sb_effective_port i)))) then Ok false else
  if negb (bool_decide (service_parameter (sb_parameters i) 5 = sb_ech_config i)) then Ok false else
  if some_and (service_parameter (sb_parameters i) 4)
       (fun wire => (zlen wire =? 0) || negb (zlen wire mod 4 =? 0))
     || some_and (service_parameter (sb_parameters i) 6)
       (fun wire => (zlen wire =? 0) || negb (zlen wire mod 16 =? 0))
  then Ok false else
  Ok (forallb (service_parameters_contain_hint (sb_parameters i)) (sb_connection_hints i)).

Definition u16_key (k : Z) : list Z := [k].
Definition param_key (p : ServiceParameter) : list Z := sprm_key p :: sprm_value p.

(** The guards on the input as given. *)
Definition service_bounds_exceeded (i : ServiceBinding) : bool :=
  (MAX_ALPN_IDS <? zlen (sb_advertised_alpn i))
  || (MAX_SERVICE_PARAMETERS <? zlen (sb_mandatory_keys i))
  || (MAX_ENDPOINTS <? zlen (sb_connection_hints i))
  || (MAX_SERVICE_PARAMETERS <? zlen (sb_parameters i))
  || existsb (fun id => (zlen id =? 0) || (MAX_ALPN_ID_BYTES <? zlen id)) (sb_advertised_alpn i)
  || some_and (sb_ech_config i) (fun value => (zlen value =? 0) || (MAX_PARAMETER_BYTES <? zlen value)).

Definition protocol_fits_transport (i : ServiceBinding) : bool :=
  match sb_selected_protocol i, sb_transport i with
  | (Http11 | Http2), TransportTcp | Http3, TransportUdp => true
  | _, _ => false
  end.

Definition priority_conflict (i : ServiceBinding) : bool :=
  bool_decide (sb_priority i = Some 0)
  || bool_decide (sb_priority i = None)
     && (negb (zlen (sb_mandatory_keys i) =? 0) || negb (zlen (sb_advertised_alpn i) =? 0)
         || negb (zlen (sb_connection_hints i) =? 0) || bool_decide (sb_ech_config i <> None)
         || negb (zlen (sb_parameters i) =? 0)).

(** The input with its unordered fields sorted. *)
Definition normalized (i : ServiceBinding) : ServiceBinding :=
  {| sb_priority := sb_priority i; sb_service_target := sb_service_target i;
     sb_mandatory_keys := sort_keys u16_key (sb_mandatory_keys i);
     sb_advertised_alpn := sb_advertised_alpn i; sb_selected_protocol := sb_selected_protocol i;
     sb_effective_port := sb_effective_port i; sb_transport := sb_transport i;
     sb_connection_hints := dedup (sort_keys addr_key (sb_connection_hints i));
     sb_ech_config := sb_ech_config i; sb_parameters := sort_keys param_key (sb_parameters i) |}.

(** [matches!(key, 1..=6)] and the parameter present. *)
Definition mandatory_key_ok (parameters : list ServiceParameter) (key : Z) : bool :=
  (1 <=? key) && (key <=? 6) && has_service_parameter parameters key.

(** [ServiceBinding::new]. *)
Definition service_binding_new (i : ServiceBinding) : result ValidationError ServiceBinding :=
  if service_bounds_exceeded i then Err BoundExceeded else
  if negb (protocol_fits_transport i) then Err InvalidPlan else
  if priority_conflict i then Err InvalidPlan else
  let i := normalized i in
  if adjacent_equal (sb_mandatory_keys i) || has_duplicate_alpn (sb_advertised_alpn i)
  then Err InvalidPlan else
  if adjacent_equal (map sprm_key (sb_parameters i))
     || some_and (head (sb_parameters i)) (fun p => sprm_key p =? 0)
  then Err InvalidPlan else
  if existsb (fun key => negb (mandatory_key_ok (sb_parameters i) key)) (sb_mandatory_keys i)
  then Err InvalidPlan else
  if negb (selected_alpn_is_valid (sb_selected_protocol i) (sb_advertised_alpn i) (sb_parameters i))
  then Err InvalidPlan else
  let? known := known_service_parameters_match i in
  if (known : bool) then Ok i else Err InvalidPlan.

(** ** Normal form *)

#[export] Instance u16_key_inj : Inj (=) (=) u16_key.
Proof. intros x y E. by injection E. Qed.
#[export] Instance param_key_inj : Inj (=) (=) param_key.
Proof. intros [k v] [k' v'] E. unfold param_key in E. cbn in E. injection E as -> ->. done. Qed.

(** The same input up to the order of its unordered fields. *)
Record same_service (i j : ServiceBinding) : Prop := {
  ss_priority : sb_priority i = sb_priority j;
  ss_target : sb_service_target i = sb_service_target j;
  ss_mandatory : sb_mandatory_keys i ≡ₚ sb_mandatory_keys j;
  ss_alpn : sb_advertised_alpn i = sb_advertised_alpn j;
  ss_protocol : sb_selected_protocol i = sb_selected_protocol j;
  ss_port : sb_effective_port i = sb_effective_port j;
  ss_transport : sb_transport i = sb_transport j;
  ss_hints : sb_connection_hints i ≡ₚ sb_connection_hints j;
  ss_ech : sb_ech_config i = sb_ech_config j;
  ss_parameters : sb_parameters i ≡ₚ sb_parameters j }.

Lemma zlen_perm {A} (l k : list A) : l ≡ₚ k -> zlen l = zlen k.
Proof. intros H. unfold zlen. by rewrite H. Qed.

Lemma normalized_same i j : same_service i j -> normalized i = normalized j.
Proof.
  intros []. unfold normalized.
  rewrite (sort_keys_canonical u16_key _ _ ss_mandatory0), (sort_keys_canonical addr_key _ _ ss_hints0),
    (sort_keys_canonical param_key _ _ ss_parameters0). congruence.
Qed.

Lemma service_binding_same i j : same_service i j -> service_binding_new i = service_binding_new j.
Proof.
  intros H. pose proof H as H'. destruct H as [H1 H2 H3 H4 H5 H6 H7 H8 H9 H10].
  unfold service_binding_new. rewrite (normalized_same _ _ H').
  assert (service_bounds_exceeded i = service_bounds_exceeded j) as ->.
  { unfold service_bounds_exceeded. by rewrite H4, (zlen_perm _ _ H3), (zlen_perm _ _ H8), (zlen_perm _ _ H10), H9. }
  assert (protocol_fits_transport i = protocol_fits_transport j) as ->.
  { unfold protocol_fits_transport. by rewrite H5, H7. }
  assert (priority_conflict i = priority_conflict j) as ->; [|done].
  unfold priority_conflict. by rewrite H1, (zlen_perm _ _ H3), H4, (zlen_perm _ _ H8), H9, (zlen_perm _ _ H10).
Qed.

Lemma normalized_idem i : normalized (normalized i) = normalized i.
Proof.
  unfold normalized. cbn [sb_priority sb_service_target sb_mandatory_keys sb_advertised_alpn sb_selected_protocol
    sb_effective_port sb_transport sb_connection_hints sb_ech_config sb_parameters].
  rewrite (dedup_sort_idem addr_key).
  by rewrite !(sort_sorted _ (sort_keys _ _)) by apply sort_keys_sorted.
Qed.

Lemma zlen_dedup {A} `{EqDecision A} (l : list A) : zlen (dedup l) <= zlen l.
Proof.
  induction l as [|x l IH]; [done|]. cbn [dedup]. destruct l as [|y l]; [done|].
  case_decide; rewrite !zlen_cons in *; lia.
Qed.

Lemma zlen_dedup_0 {A} `{EqDecision A} (l : list A) : zlen (dedup l) = 0 <-> zlen l = 0.
Proof.
  split; [|intros H; pose proof (zlen_dedup l); pose proof (zlen_nonneg (dedup l)); lia].
  intros H. apply zlen_0 in H. destruct l as [|x l]; [done|].
  exfalso. assert (Hin : x ∈ dedup (x :: l)) by (rewrite dedup_sublist; by left).
  rewrite H in Hin. by apply not_elem_of_nil in Hin.
Qed.

(** Nondecreasing and no two neighbours equal is strictly increasing. *)
Lemma strictly_sorted {A} (key : A -> list Z) (first : A -> Z) (l : list A) :
  (forall x y, key_le key x y -> first x <= first y) ->
  StronglySorted (key_le key) l -> adjacent_equal (map first l) = false ->
  StronglySorted Z.lt (map first l).
Proof.
  intros Hk. induction 1 as [|x l Hl IH Hx]; cbn [map]; [by constructor|].
  destruct l as [|y l]; [by repeat constructor|]. cbn [map adjacent_equal].
  intros [Hne Hadj]%orb_false_iff. specialize (IH Hadj). constructor; [done|].
  apply Forall_cons in Hx as [Hxy Hx]. apply Hk in Hxy. apply Z.eqb_neq in Hne.
  cbn [map] in IH. apply StronglySorted_inv in IH as [_ Hy]. constructor; [lia|].
  eapply Forall_impl; [exact Hy|]. cbn. lia.
Qed.

Lemma key_head_le x y l k : bytes_leb (x :: l) (y :: k) = true -> x <= y.
Proof. cbn. destruct (Z.ltb_spec x y); [lia|]. destruct (Z.ltb_spec y x); [done|lia]. Qed.

Lemma service_binding_inv i b :
  service_binding_new i = Ok b ->
  b = normalized i /\ service_bounds_exceeded i = false /\ protocol_fits_transport i = true /\
  priority_conflict i = false /\
  (adjacent_equal (sb_mandatory_keys b) || has_duplicate_alpn (sb_advertised_alpn b) = false) /\
  (adjacent_equal (map sprm_key (sb_parameters b))
     || some_and (head (sb_parameters b)) (fun p => sprm_key p =? 0) = false) /\
  existsb (fun key => negb (mandatory_key_ok (sb_parameters b) key)) (sb_mandatory_keys b) = false /\
  selected_alpn_is_valid (sb_selected_protocol b) (sb_advertised_alpn b) (sb_parameters b) = true /\
  known_service_parameters_match b = Ok true.
Proof.
  unfold service_binding_new. destruct (service_bounds_exceeded i) eqn:E1; [done|].
  destruct (protocol_fits_transport i) eqn:E2; cbn [negb]; [|done].
  destruct (priority_conflict i) eqn:E3; [done|]. cbv zeta.
  destruct (adjacent_equal (sb_mandatory_keys _) || _) eqn:E4; [done|].
  destruct (adjacent_equal (map _ _) || _) eqn:E5; [done|].
  destruct (existsb _ _) eqn:E6; [done|].
  destruct (selected_alpn_is_valid _ _ _) eqn:E7; cbn [negb]; [|done].
  destruct (known_service_parameters_match _) as [[]|] eqn:E8; try done.
  intros Hb%Ok_inj. subst b. by split_and!.
Qed.

Lemma service_bounds_normalized i : service_bounds_exceeded i = false -> service_bounds_exceeded (normalized i) = false.
Proof.
  unfold service_bounds_exceeded. cbn [normalized sb_advertised_alpn sb_mandatory_keys sb_connection_hints
    sb_parameters sb_ech_config]. intros H.
  rewrite (zlen_perm _ _ (sort_keys_perm u16_key _)), (zlen_perm _ _ (sort_keys_perm param_key _)).
  repeat (apply orb_false_iff in H as [H ?]). repeat (apply orb_false_iff; split); try done.
  pose proof (zlen_dedup (sort_keys addr_key (sb_connection_hints i))) as Hl.
  rewrite (zlen_perm _ _ (sort_keys_perm addr_key _)) in Hl.
  match goal with E : (MAX_ENDPOINTS <? _) = false |- _ => apply Z.ltb_ge in E; apply Z.ltb_ge; lia end.
Qed.

Lemma priority_normalized i : priority_conflict (normalized i) = priority_conflict i.
Proof.
  unfold priority_conflict. cbn [normalized sb_priority sb_advertised_alpn sb_mandatory_keys sb_connection_hints
    sb_parameters sb_ech_config].
  rewrite (zlen_perm _ _ (sort_keys_perm u16_key _)), (zlen_perm _ _ (sort_keys_perm param_key _)).
  replace (zlen (dedup (sort_keys addr_key (sb_connection_hints i))) =? 0) with (zlen (sb_connection_hints i) =? 0); [done|].
  apply eq_true_iff_eq. rewrite !Z.eqb_eq, zlen_dedup_0. by rewrite (zlen_perm _ _ (sort_keys_perm addr_key _)).
Qed.

(** A binding the constructor made is accepted unchanged. *)
Lemma service_binding_again i : service_binding_new i = Ok (normalized i) -> service_binding_new (normalized i) = Ok (normalized i).
Proof.
  intros H. destruct (service_binding_inv _ _ H) as (_ & B & F & C & M & P & K & S & N).
  unfold service_binding_new. rewrite service_bounds_normalized by done.
  replace (protocol_fits_transport (normalized i)) with (protocol_fits_transport i) by done.
  rewrite F. cbn [negb]. rewrite priority_normalized, C. cbv zeta.
  by rewrite normalized_idem, M, P, K, S, N.
Qed.

(** A service binding is canonical: the constructor's result is the input with
    its unordered fields sorted, so inputs that differ only in the order of
    mandatory keys, address hints or parameters give the same result or the same
    error; and a binding it made is accepted again unchanged. What it accepts has
    strictly ascending mandatory and parameter keys, every mandatory key among
    the parameters 1 to 6, hints without repetition that the hint parameters
    list, and the transport its protocol runs on. *)
Theorem service_binding_canonical i b :
  service_binding_new i = Ok b ->
  (forall j, same_service i j -> service_binding_new j = Ok b) /\
  service_binding_new b = Ok b /\
  StronglySorted Z.lt (sb_mandatory_keys b) /\
  (forall k, k ∈ sb_mandatory_keys b -> 1 <= k <= 6 /\ has_service_parameter (sb_parameters b) k = true) /\
  StronglySorted Z.lt (map sprm_key (sb_parameters b)) /\
  NoDup (sb_connection_hints b) /\
  (forall h, h ∈ sb_connection_hints b -> service_parameters_contain_hint (sb_parameters b) h = true) /\
  (sb_transport b = TransportUdp <-> sb_selected_protocol b = Http3).
Proof.
  intros H. split.
  { intros j Hj. by rewrite <- (service_binding_same i j Hj). }
  destruct (service_binding_inv _ _ H) as (-> & B & F & C & M & P & K & S & N).
  split; [by apply service_binding_again|].
  apply orb_false_iff in M as [M _]. apply orb_false_iff in P as [P _]. split_and!.
  - rewrite <- (map_id (sb_mandatory_keys _)) in M |- *.
    apply (strictly_sorted u16_key id); [|apply sort_keys_sorted|exact M].
    intros x y Hxy. by apply (key_head_le x y [] []).
  - intros k Hk. apply list_elem_of_In in Hk.
    assert (Hall : negb (mandatory_key_ok (sb_parameters (normalized i)) k) = false).
    { apply not_true_iff_false. intros Ht. apply not_true_iff_false in K. apply K, existsb_exists. by exists k. }
    unfold mandatory_key_ok in Hall. breflect. split; [lia|done].
  - apply (strictly_sorted param_key sprm_key); [|apply sort_keys_sorted|exact P].
    intros x y. apply key_head_le.
  - apply (dedup_sorted_nodup addr_key), sort_keys_sorted.
  - intros h Hh. unfold known_service_parameters_match in N.
    destruct (match service_parameter _ 1 with Some _ => _ | None => _ end) as [[]|]; cbn [negb] in N; try done.
    do 4 (case_match; [done|]). injection N as N. rewrite forallb_forall in N. apply N. by apply list_elem_of_In.
  - unfold protocol_fits_transport in F. cbn. destruct (sb_selected_protocol i), (sb_transport i); done.
Qed.

(** Priority 1, HTTP/2 on port 8443, two hints in descending order. *)
Definition toy_service : ServiceBinding :=
  {| sb_priority := Some 1; sb_service_target := [97; 46; 98]; sb_mandatory_keys := [4; 1];
     sb_advertised_alpn := [id_h2]; sb_selected_protocol := Http2; sb_effective_port := 8443;
     sb_transport := TransportTcp;
     sb_connection_hints := [AddrV4 [9; 9; 9; 9]; AddrV4 [1; 1; 1; 1]]; sb_ech_config := None;
     sb_parameters :=
       [{| sprm_key := 4; sprm_value := [1; 1; 1; 1; 9; 9; 9; 9] |};
        {| sprm_key := 3; sprm_value := [0x20; 0xfb] |};
        {| sprm_key := 1; sprm_value := [2; 104; 50] |}] |}.

Lemma service_binding_canonical_witness :
  exists b, service_binding_new toy_service = Ok b /\ service_binding_new b = Ok b /\
    map sprm_key (sb_parameters b) = [1; 3; 4] /\ sb_mandatory_keys b = [1; 4].
Proof.
  destruct (service_binding_new toy_service) as [b|] eqn:E; [|vm_compute in E; discriminate].
  exists b. destruct (service_binding_canonical toy_service b E) as (_ & Hb & _).
  split; [done|]. split; [exact Hb|]. vm_compute in E. injection E as <-. by split.
Defined.
