(* ===== verification/NsPlan.v ===== *)
(** * Namespace decisions: origin plans

    Models [ValidatedOriginPlan::new], [differences] and the absence and failure
    evidence of [src/crates/hns-namespace-resolution/src/lib.rs]. The theorems:
    an accepted plan is coherent, canonical and independent of record order; and
    the difference mask is exactly the set of differing fields. *)

From Stdlib Require Import Sorting.Sorted.
From S2P Require Import Prelude ByteOrder PrimHash PrimPow NsTypes NsService.

(** [OriginPlanInput] and [ValidatedOriginPlan] have the same fields; the second
    is only made by [plan_new]. *)
Record OriginPlan := {
  op_namespace : Namespace;
  op_query : OriginQuery;
  op_alias_path : list AliasStep;
  op_terminal_target : CanonicalHost;
  op_endpoint_alias_path : list AliasStep;
  op_endpoint_target : CanonicalHost;
  op_endpoints : list SocketAddr;
  op_service : ServiceBinding;
  op_tls_policy : TlsTrustPolicy;
  op_tlsa_records : list (list Z);
  op_provenance : EvidenceProvenance;
  op_freshness : Freshness }.

(** The loop of [validate_alias_path]. *)
Fixpoint follow_aliases (expected_owner : CanonicalHost) (seen : list CanonicalHost)
    (aliases : list AliasStep) : result ValidationError CanonicalHost :=
  match aliases with
  | [] => Ok expected_owner
  | alias :: aliases =>
      if negb (bytes_eqb (al_owner alias) expected_owner) || bool_decide (al_target alias ∈ seen)
      then Err InvalidPlan
      else follow_aliases (al_target alias) (seen ++ [al_target alias]) aliases
  end.

Definition validate_alias_path (origin_host : CanonicalHost) (aliases : list AliasStep)
    (terminal_target : CanonicalHost) : result ValidationError unit :=
  let? expected_owner := follow_aliases origin_host [origin_host] aliases in
  if negb (bytes_eqb expected_owner terminal_target) then Err InvalidPlan else Ok tt.

(** The last loop of [validate_plan_aliases]. *)
Fixpoint fresh_targets (seen : list CanonicalHost) (aliases : list AliasStep) : bool :=
  match aliases with
  | [] => true
  | alias :: aliases =>
      if bool_decide (al_target alias ∈ seen) then false
      else fresh_targets (seen ++ [al_target alias]) aliases
  end.

Definition validate_plan_aliases (i : OriginPlan) : result ValidationError unit :=
  let? _ := validate_alias_path (oq_host (op_query i)) (op_alias_path i) (op_terminal_target i) in
  if existsb (fun alias => negb (bool_decide (al_kind alias = AliasCname))) (op_endpoint_alias_path i)
  then Err InvalidPlan else
  let? _ := validate_alias_path (sb_service_target (op_service i)) (op_endpoint_alias_path i)
              (op_endpoint_target i) in
  let seen := oq_host (op_query i) :: map al_target (op_alias_path i) in
  let target := sb_service_target (op_service i) in
  if negb (bytes_eqb target (op_terminal_target i)) && bool_decide (target ∈ seen)
  then Err InvalidPlan else
  let seen := if negb (bool_decide (target ∈ seen)) then seen ++ [target] else seen in
  if fresh_targets seen (op_endpoint_alias_path i) then Ok tt else Err InvalidPlan.

Definition endpoint_mismatch (i : OriginPlan) : bool :=
  (MAX_ENDPOINTS <? zlen (op_endpoints i))
  || existsb (fun e => negb (sa_port e =? sb_effective_port (op_service i))) (op_endpoints i)
  || existsb (fun hint => negb (existsb (fun e => bool_decide (sa_ip e = hint)) (op_endpoints i)))
       (sb_connection_hints (op_service i)).

Definition query_mismatch (i : OriginPlan) : bool :=
  let tls := uses_tls (oq_scheme (op_query i)) in
  let service := op_service i in
  negb (supports (oq_supported_protocols (op_query i)) (sb_selected_protocol service))
  || negb tls && (bool_decide (sb_priority service <> None)
                  || negb (bool_decide (sb_selected_protocol service = Http11))
                  || negb (bool_decide (sb_transport service = TransportTcp)))
  || tls && bool_decide (op_tls_policy i = Cleartext)
  || negb tls && negb (bool_decide (op_tls_policy i = Cleartext))
  || bool_decide (sb_priority service = None)
     && (negb (bytes_eqb (sb_service_target service) (op_terminal_target i))
         || negb (sb_effective_port service =? origin_port (op_query i)))
  || bool_decide (sb_priority service <> None)
     && negb (has_service_parameter (sb_parameters service) 3)
     && negb (sb_effective_port service =? origin_port (op_query i)).

Definition validate_plan_endpoints_and_service (i : OriginPlan) : result ValidationError unit :=
  if endpoint_mismatch i || query_mismatch i then Err InvalidPlan else Ok tt.

Definition validate_plan_tls (i : OriginPlan) : result ValidationError unit :=
  let invalid_records :=
    match op_tls_policy i with
    | Dane => zlen (op_tlsa_records i) =? 0
    | _ => negb (zlen (op_tlsa_records i) =? 0)
    end in
  if invalid_records
     || bool_decide (op_namespace i = Hns)
        && match op_tls_policy i with
           | WebPkiAuthenticatedAbsence | WebPkiInsecureDelegation => true
           | _ => false
           end
  then Err InvalidPlan else
  match op_provenance i, op_tls_policy i with
  | ProvIcannDoh ChainSecure, (Dane | WebPkiAuthenticatedAbsence) => Ok tt
  | ProvIcannDoh ChainProvenInsecure, WebPkiInsecureDelegation => Ok tt
  | ProvHns _ _ _, (Dane | StatelessDane) => Ok tt
  | _, Cleartext => Ok tt
  | _, _ => Err InvalidEvidence
  end.

(** The sorts and deduplications of [ValidatedOriginPlan::new]. *)
Definition sort_endpoints (i : OriginPlan) : OriginPlan :=
  {| op_namespace := op_namespace i; op_query := op_query i; op_alias_path := op_alias_path i;
     op_terminal_target := op_terminal_target i; op_endpoint_alias_path := op_endpoint_alias_path i;
     op_endpoint_target := op_endpoint_target i;
     op_endpoints := dedup (sort_keys socket_key (op_endpoints i)); op_service := op_service i;
     op_tls_policy := op_tls_policy i; op_tlsa_records := op_tlsa_records i;
     op_provenance := op_provenance i; op_freshness := op_freshness i |}.
Definition sort_tlsa (i : OriginPlan) : OriginPlan :=
  {| op_namespace := op_namespace i; op_query := op_query i; op_alias_path := op_alias_path i;
     op_terminal_target := op_terminal_target i; op_endpoint_alias_path := op_endpoint_alias_path i;
     op_endpoint_target := op_endpoint_target i; op_endpoints := op_endpoints i;
     op_service := op_service i; op_tls_policy := op_tls_policy i;
     op_tlsa_records := dedup (sort_keys id (op_tlsa_records i));
     op_provenance := op_provenance i; op_freshness := op_freshness i |}.

Definition plan_bounds_exceeded (i : OriginPlan) : bool :=
  (MAX_ALIAS_STEPS <? zlen (op_alias_path i)) || (MAX_ALIAS_STEPS <? zlen (op_endpoint_alias_path i))
  || (zlen (op_endpoints i) =? 0) || (MAX_ENDPOINTS <? zlen (op_endpoints i))
  || (MAX_TLSA_RECORDS <? zlen (op_tlsa_records i)).

(** [ValidatedOriginPlan::new]. *)
Definition plan_new (i : OriginPlan) : result ValidationError OriginPlan :=
  let? _ := validate_for (op_provenance i) (op_namespace i) in
  if plan_bounds_exceeded i then Err BoundExceeded else
  let? _ := validate_plan_aliases i in
  let i := sort_endpoints i in
  let? _ := validate_plan_endpoints_and_service i in
  let i := sort_tlsa i in
  let? _ := validate_plan_tls i in
  Ok i.

(** ** Differences *)

Definition DivergenceMask := Z.
Definition set_if (mask : DivergenceMask) (bit : Z) (condition : bool) : DivergenceMask :=
  if condition then Z.lor mask bit else mask.
Definition mask_is_empty (mask : DivergenceMask) : bool := mask =? 0.
Definition mask_contains (mask other : DivergenceMask) : bool := Z.land mask other =? other.

(** The fields compared, in the order of their bits 0 to 17. *)
Definition compared (p q : OriginPlan) : list bool :=
  let s := op_service p in let t := op_service q in
  [bool_decide (op_query p = op_query q);
   bool_decide (op_alias_path p = op_alias_path q);
   bool_decide (op_terminal_target p = op_terminal_target q);
   bool_decide (op_endpoints p = op_endpoints q);
   bool_decide (sb_priority s = sb_priority t);
   bool_decide (sb_service_target s = sb_service_target t);
   bool_decide (op_endpoint_alias_path p = op_endpoint_alias_path q);
   bool_decide (op_endpoint_target p = op_endpoint_target q);
   bool_decide (sb_mandatory_keys s = sb_mandatory_keys t);
   bool_decide (sb_advertised_alpn s = sb_advertised_alpn t);
   bool_decide (sb_selected_protocol s = sb_selected_protocol t);
   bool_decide (sb_effective_port s = sb_effective_port t);
   bool_decide (sb_transport s = sb_transport t);
   bool_decide (sb_connection_hints s = sb_connection_hints t);
   bool_decide (sb_ech_config s = sb_ech_config t);
   bool_decide (sb_parameters s = sb_parameters t);
   bool_decide (op_tls_policy p = op_tls_policy q);
   bool_decide (op_tlsa_records p = op_tlsa_records q)].

(** [mask.set_if(1 << k, fields differ)], for each field in turn. *)
Fixpoint set_differing (mask : DivergenceMask) (k : Z) (equal : list bool) : DivergenceMask :=
  match equal with
  | [] => mask
  | e :: equal => set_differing (set_if mask (Z.shiftl 1 k) (negb e)) (k + 1) equal
  end.
Definition differences (p q : OriginPlan) : DivergenceMask := set_differing 0 0 (compared p q).
Definition equivalent_to (p q : OriginPlan) : bool := mask_is_empty (differences p q).

(** ** Absence and failure *)

Inductive AbsenceKind :=
| HnsCurrentUrkelNonInclusion | DnssecAuthenticatedNxDomain | DnssecAuthenticatedNoUsableEndpoint
| IcannInsecureNxDomain | IcannInsecureNoUsableEndpoint.
Definition absence_tag (k : AbsenceKind) : Z :=
  match k with
  | HnsCurrentUrkelNonInclusion => 1 | DnssecAuthenticatedNxDomain => 2
  | DnssecAuthenticatedNoUsableEndpoint => 3 | IcannInsecureNxDomain => 4
  | IcannInsecureNoUsableEndpoint => 5
  end.

Record Absence := {
  ab_namespace : Namespace; ab_query : OriginQuery; ab_kind : AbsenceKind;
  ab_provenance : EvidenceProvenance; ab_freshness : Freshness }.

(** [ValidatedAbsence::new]. *)
Definition absence_new (namespace : Namespace) (query : OriginQuery) (kind : AbsenceKind)
    (provenance : EvidenceProvenance) (freshness : Freshness) : result ValidationError Absence :=
  let? _ := validate_for provenance namespace in
  let absence := {| ab_namespace := namespace; ab_query := query; ab_kind := kind;
                    ab_provenance := provenance; ab_freshness := freshness |} in
  match namespace, kind, provenance with
  | Hns, (HnsCurrentUrkelNonInclusion | DnssecAuthenticatedNxDomain
          | DnssecAuthenticatedNoUsableEndpoint), ProvHns _ _ _ => Ok absence
  | Icann, (DnssecAuthenticatedNxDomain | DnssecAuthenticatedNoUsableEndpoint),
      ProvIcannDoh ChainSecure => Ok absence
  | Icann, (IcannInsecureNxDomain | IcannInsecureNoUsableEndpoint),
      ProvIcannDoh ChainProvenInsecure => Ok absence
  | _, _, _ => Err InvalidEvidence
  end.

Inductive RootFailureKind :=
| FailTimeout | FailTransport | StaleHnsAnchor | BogusDnssec | IndeterminateDnssec
| UnauthenticatedResolver | MalformedResponse | FailUnsupported | FailCancelled | FailInternal
| FailStaleEvidence.

Record RootFailure := {
  rf_namespace : Namespace; rf_query : OriginQuery; rf_kind : RootFailureKind;
  rf_retry_after_unix : option Z }.

(** ** Plans are coherent *)

(** Aliases that lead from one host to another. *)
Fixpoint alias_chain (owner : CanonicalHost) (path : list AliasStep) (terminal : CanonicalHost) : Prop :=
  match path with
  | [] => owner = terminal
  | a :: path => al_owner a = owner /\ alias_chain (al_target a) path terminal
  end.

(** Every host the plan passes through. *)
Definition origin_hosts (p : OriginPlan) : list CanonicalHost :=
  oq_host (op_query p) :: map al_target (op_alias_path p).
Definition visited_hosts (p : OriginPlan) : list CanonicalHost :=
  (if bool_decide (sb_service_target (op_service p) ∈ origin_hosts p) then origin_hosts p
   else origin_hosts p ++ [sb_service_target (op_service p)])
  ++ map al_target (op_endpoint_alias_path p).

Lemma bytes_eqb_eq a b : bytes_eqb a b = true <-> a = b.
Proof. unfold bytes_eqb. apply bool_decide_eq_true. Qed.

Lemma follow_aliases_ok aliases : forall owner seen t,
  NoDup seen -> follow_aliases owner seen aliases = Ok t ->
  NoDup (seen ++ map al_target aliases) /\ alias_chain owner aliases t.
Proof.
  induction aliases as [|a aliases IH]; intros owner seen t Hs; cbn.
  - intros [= <-]. by rewrite app_nil_r.
  - destruct (bytes_eqb (al_owner a) owner) eqn:E; cbn; [|done]. apply bytes_eqb_eq in E as <-.
    case_bool_decide as Hin; cbn; [done|]. intros Hf. apply IH in Hf as [Hd Hc].
    + rewrite <- app_assoc in Hd. done.
    + apply NoDup_app. split_and!; [done|set_solver|repeat constructor; set_solver].
Qed.

Lemma validate_alias_path_ok owner aliases terminal :
  validate_alias_path owner aliases terminal = Ok tt ->
  NoDup (owner :: map al_target aliases) /\ alias_chain owner aliases terminal.
Proof.
  unfold validate_alias_path. destruct (follow_aliases _ _ _) as [t|] eqn:E; [|done].
  destruct (bytes_eqb t terminal) eqn:Et; cbn; [|done]. apply bytes_eqb_eq in Et as ->. intros _.
  apply follow_aliases_ok in E; [done|repeat constructor; set_solver].
Qed.

Lemma fresh_targets_ok aliases : forall seen,
  NoDup seen -> fresh_targets seen aliases = true -> NoDup (seen ++ map al_target aliases).
Proof.
  induction aliases as [|a aliases IH]; intros seen Hs; cbn; [by rewrite app_nil_r|].
  case_bool_decide as Hin; [done|]. intros Hf. apply IH in Hf; [by rewrite <- app_assoc in Hf|].
  apply NoDup_app. split_and!; [done|set_solver|repeat constructor; set_solver].
Qed.

Lemma plan_aliases_ok p :
  validate_plan_aliases p = Ok tt ->
  alias_chain (oq_host (op_query p)) (op_alias_path p) (op_terminal_target p) /\
  alias_chain (sb_service_target (op_service p)) (op_endpoint_alias_path p) (op_endpoint_target p) /\
  Forall (fun a => al_kind a = AliasCname) (op_endpoint_alias_path p) /\
  NoDup (visited_hosts p).
Proof.
  unfold validate_plan_aliases.
  destruct (validate_alias_path (oq_host _) _ _) as [[]|] eqn:E1; [|done].
  apply validate_alias_path_ok in E1 as [D1 C1]. destruct (existsb _ _) eqn:Ek; [done|].
  destruct (validate_alias_path (sb_service_target _) _ _) as [[]|] eqn:E2; [|done].
  apply validate_alias_path_ok in E2 as [_ C2]. case_match; [done|].
  destruct (fresh_targets _ _) eqn:Ef; [|done]. intros _. split_and!; try done.
  - apply Forall_forall. intros a Ha. apply dec_stable. intros Hn.
    apply not_true_iff_false in Ek. apply Ek, existsb_exists. exists a.
    split; [by apply list_elem_of_In|]. by rewrite bool_decide_eq_false_2.
  - unfold visited_hosts. fold (origin_hosts p) in *. case_bool_decide as Hin; cbn [negb] in Ef.
    + by apply fresh_targets_ok.
    + apply fresh_targets_ok; [|done]. apply NoDup_app. split_and!; [done|set_solver|repeat constructor; set_solver].
Qed.

(** The same input up to the order of endpoints and TLSA records. *)
Record same_plan (i j : OriginPlan) : Prop := {
  sp_rest : (op_namespace i, op_query i, op_alias_path i, op_terminal_target i,
             op_endpoint_alias_path i, op_endpoint_target i, op_service i, op_tls_policy i,
             op_provenance i, op_freshness i)
          = (op_namespace j, op_query j, op_alias_path j, op_terminal_target j,
             op_endpoint_alias_path j, op_endpoint_target j, op_service j, op_tls_policy j,
             op_provenance j, op_freshness j);
  sp_endpoints : op_endpoints i ≡ₚ op_endpoints j;
  sp_tlsa : op_tlsa_records i ≡ₚ op_tlsa_records j }.

#[export] Instance id_key_inj : Inj (=) (=) (@id (list Z)).
Proof. by intros x y. Qed.

(** Endpoints and service, then TLS, are validated on sorted fields only. *)
Lemma plan_new_canonical i :
  plan_new i =
  (let? _ := validate_for (op_provenance i) (op_namespace i) in
   if plan_bounds_exceeded i then Err BoundExceeded else
   let? _ := validate_plan_aliases (sort_tlsa (sort_endpoints i)) in
   let? _ := validate_plan_endpoints_and_service (sort_tlsa (sort_endpoints i)) in
   let? _ := validate_plan_tls (sort_tlsa (sort_endpoints i)) in
   Ok (sort_tlsa (sort_endpoints i))).
Proof. done. Qed.

Lemma same_plan_new i j : same_plan i j -> plan_new i = plan_new j.
Proof.
  intros [Hr He Ht]. injection Hr as H1 H2 H3 H4 H5 H6 H7 H8 H9 H10.
  assert (Hs : sort_tlsa (sort_endpoints i) = sort_tlsa (sort_endpoints j)).
  { unfold sort_tlsa, sort_endpoints. cbn [op_namespace op_query op_alias_path op_terminal_target
    op_endpoint_alias_path op_endpoint_target op_endpoints op_service op_tls_policy op_tlsa_records
    op_provenance op_freshness].
    rewrite (sort_keys_canonical socket_key _ _ He), (sort_keys_canonical id _ _ Ht). congruence. }
  rewrite !plan_new_canonical, Hs, H1, H9.
  assert (plan_bounds_exceeded i = plan_bounds_exceeded j) as ->; [|done].
  unfold plan_bounds_exceeded. by rewrite H3, H5, (zlen_perm _ _ He), (zlen_perm _ _ Ht).
Qed.

Lemma sorts_idem i :
  sort_tlsa (sort_endpoints (sort_tlsa (sort_endpoints i))) = sort_tlsa (sort_endpoints i).
Proof.
  unfold sort_tlsa, sort_endpoints. cbn [op_namespace op_query op_alias_path op_terminal_target
    op_endpoint_alias_path op_endpoint_target op_endpoints op_service op_tls_policy op_tlsa_records
    op_provenance op_freshness].
  by rewrite (dedup_sort_idem socket_key), (dedup_sort_idem id).
Qed.

Lemma plan_bounds_sorted i :
  plan_bounds_exceeded i = false -> plan_bounds_exceeded (sort_tlsa (sort_endpoints i)) = false.
Proof.
  unfold plan_bounds_exceeded. cbn [sort_tlsa sort_endpoints op_alias_path op_endpoint_alias_path op_endpoints
    op_tlsa_records]. intros H. repeat (apply orb_false_iff in H as [H ?]).
  pose proof (zlen_dedup (sort_keys socket_key (op_endpoints i))) as L1.
  pose proof (zlen_dedup (sort_keys id (op_tlsa_records i))) as L2.
  pose proof (zlen_dedup_0 (sort_keys socket_key (op_endpoints i))) as L3.
  rewrite (zlen_perm _ _ (sort_keys_perm socket_key _)) in L1, L3.
  rewrite (zlen_perm _ _ (sort_keys_perm id _)) in L2.
  rewrite H, H3. breflect. repeat (apply orb_false_iff; split); try done;
    [apply Z.eqb_neq; tauto|apply Z.ltb_ge; lia|apply Z.ltb_ge; lia].
Qed.

Lemma plan_again i p : plan_new i = Ok p -> plan_new p = Ok p.
Proof.
  rewrite plan_new_canonical. destruct (validate_for _ _) as [[]|] eqn:Ef; [|done].
  destruct (plan_bounds_exceeded i) eqn:Eb; [done|]. intros H.
  assert (p = sort_tlsa (sort_endpoints i)) as ->.
  { revert H. repeat (case_match; [|done]). congruence. }
  rewrite plan_new_canonical, sorts_idem, (plan_bounds_sorted _ Eb).
  replace (validate_for (op_provenance (sort_tlsa (sort_endpoints i))) (op_namespace (sort_tlsa (sort_endpoints i))))
    with (validate_for (op_provenance i) (op_namespace i)) by done.
  by rewrite Ef.
Qed.

Lemma plan_new_inv i p :
  plan_new i = Ok p ->
  p = sort_tlsa (sort_endpoints i) /\ validate_for (op_provenance p) (op_namespace p) = Ok tt /\
  plan_bounds_exceeded p = false /\ validate_plan_aliases p = Ok tt /\
  endpoint_mismatch p || query_mismatch p = false /\ validate_plan_tls p = Ok tt.
Proof.
  rewrite plan_new_canonical. destruct (validate_for _ _) as [[]|] eqn:Ef; [|done].
  destruct (plan_bounds_exceeded i) eqn:Eb; [done|]. unfold validate_plan_endpoints_and_service.
  destruct (validate_plan_aliases _) as [[]|] eqn:Ea; [|done].
  destruct (endpoint_mismatch _ || _) eqn:Ee; [done|].
  destruct (validate_plan_tls _) as [[]|] eqn:Et; [|done]. intros H%Ok_inj. subst p.
  split_and!; try done. by apply plan_bounds_sorted.
Qed.

(** The trust decision a plan may carry. *)
Record trust_ok (p : OriginPlan) : Prop := {
  to_tls : op_tls_policy p = Cleartext <-> uses_tls (oq_scheme (op_query p)) = false;
  to_dane : op_tls_policy p = Dane <-> op_tlsa_records p <> [];
  to_hns : op_namespace p = Hns -> op_tls_policy p = Dane \/ op_tls_policy p = StatelessDane \/
             op_tls_policy p = Cleartext;
  to_webpki : op_tls_policy p = WebPkiAuthenticatedAbsence -> op_provenance p = ProvIcannDoh ChainSecure;
  to_insecure : op_tls_policy p = WebPkiInsecureDelegation ->
             op_provenance p = ProvIcannDoh ChainProvenInsecure;
  to_icann_dane : op_namespace p = Icann -> op_tls_policy p = Dane ->
             op_provenance p = ProvIcannDoh ChainSecure }.

Lemma zlen_eqb_nil {A} (l : list A) : (zlen l =? 0) = true <-> l = [].
Proof. rewrite Z.eqb_eq. split; [apply zlen_0|by intros ->]. Qed.

Lemma plan_trust_ok p :
  validate_for (op_provenance p) (op_namespace p) = Ok tt -> query_mismatch p = false ->
  validate_plan_tls p = Ok tt -> trust_ok p.
Proof.
  intros Hf Hq Ht. unfold query_mismatch in Hq. cbv zeta in Hq.
  repeat (apply orb_false_iff in Hq as [Hq ?]).
  unfold validate_plan_tls in Ht. cbv zeta in Ht.
  destruct (_ || _) eqn:Er in Ht; [done|]. apply orb_false_iff in Er as [Er Eh].
  assert (Hdane : op_tls_policy p = Dane <-> op_tlsa_records p <> []).
  { destruct (op_tls_policy p); cbn in Er; rewrite <- ?zlen_eqb_nil;
      destruct (zlen (op_tlsa_records p) =? 0); naive_solver. }
  assert (Htls : op_tls_policy p = Cleartext <-> uses_tls (oq_scheme (op_query p)) = false).
  { destruct (uses_tls _); cbn in *; repeat (case_bool_decide; try done). }
  split; [done|done| | | |]; destruct (op_namespace p), (op_provenance p) as [|[]], (op_tls_policy p);
    cbn in *; try done; naive_solver.
Qed.

(** An accepted origin plan is coherent and canonical. Its result does not
    depend on the order of endpoints or TLSA records, and is accepted again
    unchanged. Its aliases lead from the queried host to the terminal target and
    by CNAMEs from the service target to the address owner, and no host is
    passed twice; there are 1 to 32 distinct endpoints, all on the service's
    port, and every address hint is one of them; and the trust action fits the
    scheme, the TLSA records, the root and its evidence - in particular a
    Handshake plan never falls back to WebPKI. *)
Theorem plan_coherent_canonical i p :
  plan_new i = Ok p ->
  (forall j, same_plan i j -> plan_new j = Ok p) /\ plan_new p = Ok p /\
  validate_for (op_provenance p) (op_namespace p) = Ok tt /\
  (alias_chain (oq_host (op_query p)) (op_alias_path p) (op_terminal_target p) /\
   alias_chain (sb_service_target (op_service p)) (op_endpoint_alias_path p) (op_endpoint_target p) /\
   Forall (fun a => al_kind a = AliasCname) (op_endpoint_alias_path p) /\ NoDup (visited_hosts p)) /\
  (1 <= zlen (op_endpoints p) <= MAX_ENDPOINTS /\ NoDup (op_endpoints p) /\
   (forall e, e ∈ op_endpoints p -> sa_port e = sb_effective_port (op_service p)) /\
   (forall h, h ∈ sb_connection_hints (op_service p) -> exists e, e ∈ op_endpoints p /\ sa_ip e = h)) /\
  trust_ok p.
Proof.
  intros H. pose proof (plan_new_inv _ _ H) as (Hp & Hf & Hb & Ha & He & Ht).
  apply orb_false_iff in He as [He Hq]. split.
  { intros j Hj. by rewrite <- (same_plan_new i j Hj). }
  split; [by apply (plan_again i)|]. split; [done|]. split; [by apply plan_aliases_ok|].
  split; [|by apply plan_trust_ok].
  unfold plan_bounds_exceeded in Hb. repeat (apply orb_false_iff in Hb as [Hb ?]). breflect.
  unfold endpoint_mismatch in He. apply orb_false_iff in He as [He Hh]. apply orb_false_iff in He as [_ Hport].
  pose proof (zlen_nonneg (op_endpoints p)). split; [lia|]. split; [|split].
  - rewrite Hp. apply (dedup_sorted_nodup socket_key), sort_keys_sorted.
  - intros e Hin. destruct (sa_port e =? sb_effective_port (op_service p)) eqn:E; [by breflect|].
    apply not_true_iff_false in Hport. exfalso. apply Hport, existsb_exists. exists e.
    rewrite E. split; [by apply list_elem_of_In|done].
  - intros h Hin. destruct (existsb (fun e => bool_decide (sa_ip e = h)) (op_endpoints p)) eqn:E.
    + apply existsb_exists in E as (e & Hin' & Hd). exists e. apply bool_decide_eq_true in Hd.
      split; [by apply list_elem_of_In|done].
    + apply not_true_iff_false in Hh. exfalso. apply Hh, existsb_exists. exists h.
      rewrite E. split; [by apply list_elem_of_In|done].
Qed.

(** ** The difference mask *)

Lemma set_differing_bits equal : forall mask k n, 0 <= k -> 0 <= n ->
  Z.testbit (set_differing mask k equal) n
  = Z.testbit mask n || ((k <=? n) && negb (default true (equal !! Z.to_nat (n - k)))).
Proof.
  induction equal as [|e equal IH]; intros mask k n Hk Hn; cbn [set_differing].
  { destruct (Z.to_nat (n - k)); cbn; by rewrite andb_false_r, orb_false_r. }
  rewrite IH by lia.
  assert (Hset : Z.testbit (set_if mask (Z.shiftl 1 k) (negb e)) n = Z.testbit mask n || (negb e && (n =? k))).
  { unfold set_if. destruct e; cbn [negb andb]; [by rewrite orb_false_r|].
    rewrite Z.lor_spec, Z.shiftl_1_l, Z.pow2_bits_eqb by lia. by rewrite (Z.eqb_sym k n). }
  rewrite Hset, <- orb_assoc. f_equal.
  destruct (Z.eqb_spec n k) as [->|Hne].
  - rewrite Z.leb_refl, Z.sub_diag. rewrite (proj2 (Z.leb_gt _ _)) by lia. cbn. by destruct e.
  - rewrite andb_false_r. cbn [orb]. destruct (Z.leb_spec k n).
    + rewrite (proj2 (Z.leb_le _ _)) by lia. replace (Z.to_nat (n - k)) with (S (Z.to_nat (n - (k + 1)))) by lia. done.
    + by rewrite (proj2 (Z.leb_gt _ _)) by lia.
Qed.

Lemma set_differing_nonneg equal : forall mask k, 0 <= k -> 0 <= mask -> 0 <= set_differing mask k equal.
Proof.
  induction equal as [|e equal IH]; intros mask k Hk Hm; cbn; [done|]. apply IH; [lia|].
  unfold set_if. case_match; [|done]. apply Z.lor_nonneg. split; [done|]. by apply Z.shiftl_nonneg.
Qed.

(** The difference mask is exact: bit [k] is set exactly when the [k]-th of the
    eighteen connection and trust fields differs, and no other bit is; so two
    plans are equivalent exactly when all eighteen agree. *)
Theorem differences_exact p q :
  (forall k : nat, Z.testbit (differences p q) (Z.of_nat k) = negb (default true (compared p q !! k))) /\
  0 <= differences p q < 2 ^ 18 /\
  (equivalent_to p q = true <-> Forall (fun equal => equal = true) (compared p q)).
Proof.
  assert (Hbits : forall k : nat, Z.testbit (differences p q) (Z.of_nat k) = negb (default true (compared p q !! k))).
  { intros k. unfold differences. rewrite set_differing_bits, Z.bits_0 by lia. cbn [orb].
    rewrite (proj2 (Z.leb_le 0 (Z.of_nat k))) by lia. rewrite Z.sub_0_r, Nat2Z.id. done. }
  assert (Hpos : 0 <= differences p q) by (by apply set_differing_nonneg).
  split; [done|]. split.
  - split; [done|]. destruct (Z.eq_dec (differences p q) 0) as [->|Hn]; [done|].
    apply Z.log2_lt_pow2; [lia|]. apply Z.nle_gt. intros Hle.
    pose proof (Z.bit_log2 (differences p q) ltac:(lia)) as Hb.
    rewrite <- (Z2Nat.id (Z.log2 _)) in Hb by lia. rewrite Hbits in Hb.
    rewrite lookup_ge_None_2 in Hb; [done|].
    change (length (compared p q)) with 18%nat. lia.
  - unfold equivalent_to, mask_is_empty. rewrite Z.eqb_eq, Forall_lookup. split.
    + intros H0 k b Hk. specialize (Hbits k). rewrite H0, Z.bits_0, Hk in Hbits. by destruct b.
    + intros Hall. apply Z.bits_inj_0. intros n. destruct (Z.lt_ge_cases n 0); [by apply Z.testbit_neg_r|].
      rewrite <- (Z2Nat.id n) by lia. rewrite Hbits. destruct (compared p q !! Z.to_nat n) as [b|] eqn:E; [|done].
      cbn. by rewrite (Hall _ _ E).
Qed.

(** https://a.b:8443 under Handshake: two addresses out of order and one of them
    repeated, authenticated by two TLSA records. *)
Definition toy_binding : ServiceBinding :=
  match service_binding_new toy_service with Ok b => b | Err _ => toy_service end.
Definition toy_endpoint (octets : list Z) : SocketAddr :=
  {| sa_ip := AddrV4 octets; sa_port := 8443; sa_flowinfo := 0; sa_scope := 0 |}.
Definition toy_query : OriginQuery :=
  {| oq_host := [97; 46; 98]; oq_scheme := Https; oq_explicit_port := Some 8443;
     oq_supported_protocols := capabilities_all |}.
Definition toy_plan : OriginPlan :=
  {| op_namespace := Hns; op_query := toy_query; op_alias_path := []; op_terminal_target := [97; 46; 98];
     op_endpoint_alias_path := [{| al_kind := AliasCname; al_owner := [97; 46; 98]; al_target := [99] |}];
     op_endpoint_target := [99];
     op_endpoints := [toy_endpoint [9; 9; 9; 9]; toy_endpoint [1; 1; 1; 1]; toy_endpoint [9; 9; 9; 9]];
     op_service := toy_binding; op_tls_policy := Dane; op_tlsa_records := [[3; 1; 1; 7]; [3; 1; 1; 5]];
     op_provenance := ProvHns NetMainnet (repeat 7 32) 100;
     op_freshness := {| fr_observed_at_unix := 10; fr_expires_at_unix := 20 |} |}.

Lemma plan_coherent_canonical_witness :
  exists p, plan_new toy_plan = Ok p /\ plan_new p = Ok p /\ trust_ok p /\
    op_endpoints p = [toy_endpoint [1; 1; 1; 1]; toy_endpoint [9; 9; 9; 9]].
Proof.
  destruct (plan_new toy_plan) as [p|] eqn:E; [|vm_compute in E; discriminate].
  exists p. destruct (plan_coherent_canonical toy_plan p E) as (_ & Hp & _ & _ & _ & Ht).
  split; [done|]. split; [exact Hp|]. split; [exact Ht|].
  vm_compute in E. injection E as <-. reflexivity.
Defined.
