(* ===== verification/NsDecision.v ===== *)
(** * Namespace decisions: classification

    Models the lookups, selection policy, outcomes and [decide_namespace] of
    [src/crates/hns-namespace-resolution/src/lib.rs]. The theorems: an outcome
    keeps exactly the fresh, on-topic evidence of both roots and never overrides
    a pin, a sticky binding or an authenticated absence; and good evidence is
    refused only for a selection that is unavailable or missing. *)

From S2P Require Import Prelude ByteOrder PrimHash PrimPow NsTypes NsService NsPlan.

(** ** Lookups *)

Inductive RootLookup :=
| LookupPresent (plan : OriginPlan) | LookupAbsent (absence : Absence) | LookupFailed (failure : RootFailure).

Inductive RootResolutionState := StatePresent | StateAbsent | StateFailed (failure : RootFailure).
Inductive RootResolutionDisposition := DispPresent | DispAbsent | DispFailed.
Definition state_from_lookup (lookup : RootLookup) : RootResolutionState :=
  match lookup with
  | LookupPresent _ => StatePresent | LookupAbsent _ => StateAbsent | LookupFailed f => StateFailed f
  end.
Definition disposition (s : RootResolutionState) : RootResolutionDisposition :=
  match s with StatePresent => DispPresent | StateAbsent => DispAbsent | StateFailed _ => DispFailed end.
Definition state_failure (s : RootResolutionState) : option RootFailure :=
  match s with StateFailed failure => Some failure | _ => None end.
Definition state_is_failed (s : RootResolutionState) : bool :=
  match s with StateFailed _ => true | _ => false end.

(** ** Selection policy *)

Inductive DefaultPrecedence := PreferIcann | FailClosed.
Definition precedence_tag (p : DefaultPrecedence) : Z := match p with PreferIcann => 1 | FailClosed => 2 end.

Record SelectionPolicy := {
  sp_explicit_pin : option Namespace; sp_sticky_binding : option Namespace;
  sp_default_precedence : DefaultPrecedence; sp_revision : Z }.
Definition selection_policy_new (default_precedence : DefaultPrecedence) (revision : Z) : SelectionPolicy :=
  {| sp_explicit_pin := None; sp_sticky_binding := None;
     sp_default_precedence := default_precedence; sp_revision := revision |}.
Definition with_explicit_pin (p : SelectionPolicy) (n : option Namespace) : SelectionPolicy :=
  {| sp_explicit_pin := n; sp_sticky_binding := sp_sticky_binding p;
     sp_default_precedence := sp_default_precedence p; sp_revision := sp_revision p |}.
Definition with_sticky_binding (p : SelectionPolicy) (n : option Namespace) : SelectionPolicy :=
  {| sp_explicit_pin := sp_explicit_pin p; sp_sticky_binding := n;
     sp_default_precedence := sp_default_precedence p; sp_revision := sp_revision p |}.
Definition default_selection_policy : SelectionPolicy := selection_policy_new PreferIcann 0.

Inductive SelectionReason := SingleRoot | ExplicitPin | StickyBinding | IcannDefault.
Definition reason_tag (r : SelectionReason) : Z :=
  match r with SingleRoot => 1 | ExplicitPin => 2 | StickyBinding => 3 | IcannDefault => 4 end.

Inductive ClassificationError :=
| RootFailed (hns icann : RootResolutionState)
| RootPositionMismatch (expected actual : Namespace)
| QueryMismatch (namespace : Namespace)
| StaleEvidence (namespace : Namespace)
| SelectedNamespaceUnavailable (namespace : Namespace) (reason : SelectionReason)
| DivergenceRequiresSelection.

Definition select_namespace (policy : SelectionPolicy) (convergent : bool)
    : result ClassificationError (Namespace * SelectionReason) :=
  match sp_explicit_pin policy with
  | Some namespace => Ok (namespace, ExplicitPin)
  | None =>
      match sp_sticky_binding policy with
      | Some namespace => Ok (namespace, StickyBinding)
      | None =>
          match sp_default_precedence policy with
          | PreferIcann => Ok (Icann, IcannDefault)
          | FailClosed => if convergent then Ok (Icann, IcannDefault) else Err DivergenceRequiresSelection
          end
      end
  end.

Definition select_single_namespace (policy : SelectionPolicy) (available : Namespace)
    : result ClassificationError SelectionReason :=
  match sp_explicit_pin policy with
  | Some namespace =>
      if bool_decide (namespace = available) then Ok ExplicitPin
      else Err (SelectedNamespaceUnavailable namespace ExplicitPin)
  | None =>
      match sp_sticky_binding policy with
      | Some namespace =>
          if bool_decide (namespace = available) then Ok StickyBinding
          else Err (SelectedNamespaceUnavailable namespace StickyBinding)
      | None => Ok SingleRoot
      end
  end.

(** ** Outcomes *)

Inductive NamespaceOutcome :=
| HnsOnly (plan : OriginPlan) (icann_absence : Absence) (reason : SelectionReason)
| IcannOnly (plan : OriginPlan) (hns_absence : Absence) (reason : SelectionReason)
| BothConvergent (selected : Namespace) (reason : SelectionReason) (hns icann : OriginPlan)
| BothDivergent (selected : Namespace) (reason : SelectionReason) (hns icann : OriginPlan)
    (differences : DivergenceMask)
| Neither (hns icann : Absence).

Inductive OutcomeKind := KindHnsOnly | KindIcannOnly | KindBothConvergent | KindBothDivergent | KindNeither.
Definition kind_tag (k : OutcomeKind) : Z :=
  match k with
  | KindHnsOnly => 1 | KindIcannOnly => 2 | KindBothConvergent => 3 | KindBothDivergent => 4
  | KindNeither => 5
  end.

Definition outcome_kind (o : NamespaceOutcome) : OutcomeKind :=
  match o with
  | HnsOnly _ _ _ => KindHnsOnly | IcannOnly _ _ _ => KindIcannOnly
  | BothConvergent _ _ _ _ => KindBothConvergent | BothDivergent _ _ _ _ _ => KindBothDivergent
  | Neither _ _ => KindNeither
  end.
Definition selected_namespace (o : NamespaceOutcome) : option Namespace :=
  match o with
  | HnsOnly _ _ _ => Some Hns | IcannOnly _ _ _ => Some Icann
  | BothConvergent selected _ _ _ | BothDivergent selected _ _ _ _ => Some selected
  | Neither _ _ => None
  end.
Definition selection_reason (o : NamespaceOutcome) : option SelectionReason :=
  match o with
  | HnsOnly _ _ reason | IcannOnly _ _ reason
  | BothConvergent _ reason _ _ | BothDivergent _ reason _ _ _ => Some reason
  | Neither _ _ => None
  end.
Definition selected_plan (o : NamespaceOutcome) : option OriginPlan :=
  match o with
  | HnsOnly plan _ _ | IcannOnly plan _ _ => Some plan
  | BothConvergent selected _ hns icann | BothDivergent selected _ hns icann _ =>
      match selected with Hns => Some hns | Icann => Some icann end
  | Neither _ _ => None
  end.
Definition divergence (o : NamespaceOutcome) : option DivergenceMask :=
  match o with BothDivergent _ _ _ _ differences => Some differences | _ => None end.

(** [hns_network]; [None] is its [unreachable!]. *)
Definition hns_network (o : NamespaceOutcome) : option HnsNetwork :=
  let provenance :=
    match o with
    | HnsOnly plan _ _ | BothConvergent _ _ plan _ | BothDivergent _ _ plan _ _ => op_provenance plan
    | IcannOnly _ hns_absence _ => ab_provenance hns_absence
    | Neither hns _ => ab_provenance hns
    end in
  provenance_network provenance.

Definition expires_at_unix (o : NamespaceOutcome) : Z :=
  match o with
  | HnsOnly plan absence _ | IcannOnly plan absence _ =>
      Z.min (fr_expires_at_unix (op_freshness plan)) (fr_expires_at_unix (ab_freshness absence))
  | BothConvergent _ _ hns icann | BothDivergent _ _ hns icann _ =>
      Z.min (fr_expires_at_unix (op_freshness hns)) (fr_expires_at_unix (op_freshness icann))
  | Neither hns icann =>
      Z.min (fr_expires_at_unix (ab_freshness hns)) (fr_expires_at_unix (ab_freshness icann))
  end.
Definition is_fresh_at (o : NamespaceOutcome) (now : Z) : bool :=
  (now <? expires_at_unix o)
  && match o with
     | HnsOnly plan absence _ | IcannOnly plan absence _ =>
         fresh_at (op_freshness plan) now && fresh_at (ab_freshness absence) now
     | BothConvergent _ _ hns icann | BothDivergent _ _ hns icann _ =>
         fresh_at (op_freshness hns) now && fresh_at (op_freshness icann) now
     | Neither hns icann => fresh_at (ab_freshness hns) now && fresh_at (ab_freshness icann) now
     end.

(** ** The decision *)

Record NamespaceDecision := {
  nd_query : OriginQuery; nd_policy : SelectionPolicy; nd_outcome : NamespaceOutcome }.

Definition validate_lookup (query : OriginQuery) (expected : Namespace) (lookup : RootLookup) (now : Z)
    : result ClassificationError unit :=
  let '(actual, evidence_query, fresh) :=
    match lookup with
    | LookupPresent plan => (op_namespace plan, op_query plan, Some (fresh_at (op_freshness plan) now))
    | LookupAbsent absence =>
        (ab_namespace absence, ab_query absence, Some (fresh_at (ab_freshness absence) now))
    | LookupFailed failure => (rf_namespace failure, rf_query failure, None)
    end in
  if negb (bool_decide (actual = expected)) then Err (RootPositionMismatch expected actual) else
  if negb (bool_decide (evidence_query = query)) then Err (QueryMismatch expected) else
  if bool_decide (fresh = Some false) then Err (StaleEvidence expected) else Ok tt.

(** The [match (hns, icann)] of [decide_namespace]; a failed lookup has returned
    before it, and its arm is [unreachable!]. *)
Definition classify (hns icann : RootLookup) (policy : SelectionPolicy)
    : result ClassificationError NamespaceOutcome :=
  match hns, icann with
  | LookupPresent plan, LookupAbsent icann_absence =>
      let? reason := select_single_namespace policy Hns in
      Ok (HnsOnly plan icann_absence reason)
  | LookupAbsent hns_absence, LookupPresent plan =>
      let? reason := select_single_namespace policy Icann in
      Ok (IcannOnly plan hns_absence reason)
  | LookupAbsent hns, LookupAbsent icann => Ok (Neither hns icann)
  | LookupPresent hns, LookupPresent icann =>
      let differences := differences hns icann in
      let? (selected, reason) := select_namespace policy (mask_is_empty differences) in
      if mask_is_empty differences
      then Ok (BothConvergent selected reason hns icann)
      else Ok (BothDivergent selected reason hns icann differences)
  | _, _ => Err (RootFailed (state_from_lookup hns) (state_from_lookup icann))
  end.

Definition lookup_failed (l : RootLookup) : bool := match l with LookupFailed _ => true | _ => false end.

Definition decide_namespace (query : OriginQuery) (hns icann : RootLookup) (policy : SelectionPolicy)
    (now : Z) : result ClassificationError NamespaceDecision :=
  let? _ := validate_lookup query Hns hns now in
  let? _ := validate_lookup query Icann icann now in
  if lookup_failed hns || lookup_failed icann
  then Err (RootFailed (state_from_lookup hns) (state_from_lookup icann)) else
  let? outcome := classify hns icann policy in
  Ok {| nd_query := query; nd_policy := policy; nd_outcome := outcome |}.

(** ** What a decision may rest on *)

#[local] Arguments differences : simpl never.

(** Evidence for the asked query from the right root, fresh now. *)
Definition answers (query : OriginQuery) (n : Namespace) (l : RootLookup) (now : Z) : Prop :=
  match l with
  | LookupPresent p => op_namespace p = n /\ op_query p = query /\ fresh_at (op_freshness p) now = true
  | LookupAbsent a => ab_namespace a = n /\ ab_query a = query /\ fresh_at (ab_freshness a) now = true
  | LookupFailed f => rf_namespace f = n /\ rf_query f = query
  end.

(** Evidence the constructors made. *)
Definition validated (l : RootLookup) : Prop :=
  match l with
  | LookupPresent p => exists i, plan_new i = Ok p
  | LookupAbsent a => exists n q k v f, absence_new n q k v f = Ok a
  | LookupFailed _ => True
  end.

(** The selection the user or the profile has already made. *)
Definition requested (p : SelectionPolicy) : option (Namespace * SelectionReason) :=
  match sp_explicit_pin p with
  | Some n => Some (n, ExplicitPin)
  | None => match sp_sticky_binding p with Some n => Some (n, StickyBinding) | None => None end
  end.

(** The two lookups an outcome retains. *)
Definition retained (o : NamespaceOutcome) : RootLookup * RootLookup :=
  match o with
  | HnsOnly p a _ => (LookupPresent p, LookupAbsent a)
  | IcannOnly p a _ => (LookupAbsent a, LookupPresent p)
  | BothConvergent _ _ h i | BothDivergent _ _ h i _ => (LookupPresent h, LookupPresent i)
  | Neither h i => (LookupAbsent h, LookupAbsent i)
  end.

Lemma validate_lookup_ok q n l now : validate_lookup q n l now = Ok tt <-> answers q n l now.
Proof.
  unfold validate_lookup, answers. destruct l; cbn; [destruct (fresh_at _ now)..|];
    repeat (case_bool_decide; cbn); split; try done; intros; destruct_and?; simplify_eq; done.
Qed.

Lemma select_single_requested p n :
  select_single_namespace p n =
  match requested p with
  | None => Ok SingleRoot
  | Some (m, r) => if bool_decide (m = n) then Ok r else Err (SelectedNamespaceUnavailable m r)
  end.
Proof. unfold select_single_namespace, requested. by destruct (sp_explicit_pin p), (sp_sticky_binding p). Qed.

Lemma select_requested p convergent :
  select_namespace p convergent =
  match requested p with
  | None => if convergent then Ok (Icann, IcannDefault) else
            match sp_default_precedence p with
            | PreferIcann => Ok (Icann, IcannDefault) | FailClosed => Err DivergenceRequiresSelection
            end
  | Some x => Ok x
  end.
Proof.
  unfold select_namespace, requested.
  by destruct (sp_explicit_pin p), (sp_sticky_binding p), (sp_default_precedence p), convergent.
Qed.

Lemma decide_inv q h i pol now d :
  decide_namespace q h i pol now = Ok d <->
  answers q Hns h now /\ answers q Icann i now /\ lookup_failed h || lookup_failed i = false /\
  classify h i pol = Ok (nd_outcome d) /\ nd_query d = q /\ nd_policy d = pol.
Proof.
  rewrite <- !validate_lookup_ok. unfold decide_namespace.
  destruct (validate_lookup q Hns h now) as [[]|]; [|by split; [|intros (? & _)]].
  destruct (validate_lookup q Icann i now) as [[]|]; [|by split; [|intros (_ & ? & _)]].
  destruct (_ || _); [by split; [|intros (_ & _ & ? & _)]|].
  destruct (classify h i pol); [|by split; [|intros (_ & _ & _ & ? & _)]].
  destruct d as [q' pol' o']. cbn. split; [by intros [= -> -> ->]|by intros (_ & _ & _ & [= ->] & -> & ->)].
Qed.

(** The outcome keeps both lookups, and reports a divergence exactly when the
    plans are not equivalent. *)
Lemma classify_retains h i pol o :
  classify h i pol = Ok o ->
  retained o = (h, i) /\
  (forall mask, divergence o = Some mask <->
    exists p p', h = LookupPresent p /\ i = LookupPresent p' /\ mask = differences p p' /\ equivalent_to p p' = false).
Proof.
  unfold classify, equivalent_to. destruct h as [p|a|], i as [p'|a'|]; try done.
  - destruct (select_namespace _ _) as [[n r]|]; [|done].
    destruct (mask_is_empty (differences p p')) eqn:Em; intros [= <-]; cbn; (split; [done|]); intros mask; split.
    + done.
    + intros (x & y & [= <-] & [= <-] & _ & Hne). congruence.
    + intros [= <-]. by exists p, p'.
    + by intros (x & y & [= <-] & [= <-] & -> & _).
  - destruct (select_single_namespace _ _); [|done]. intros [= <-]. cbn. split; [done|].
    intros mask. split; [done|]. by intros (? & ? & _ & ? & _).
  - destruct (select_single_namespace _ _); [|done]. intros [= <-]. cbn. split; [done|].
    intros mask. split; [done|]. by intros (? & ? & ? & _).
  - intros [= <-]. cbn. split; [done|]. intros mask. split; [done|]. by intros (? & ? & ? & _).
Qed.

(** What it selects is requested, or else ICANN when ICANN has a plan. *)
Lemma classify_selects h i pol o :
  classify h i pol = Ok o ->
  match selected_namespace o with
  | Some n =>
      exists p, selected_plan o = Some p /\ match n with Hns => h | Icann => i end = LookupPresent p /\
        match requested pol with
        | Some (m, r) => n = m /\ selection_reason o = Some r
        | None => n = Icann \/ exists a, i = LookupAbsent a
        end
  | None => exists a b, h = LookupAbsent a /\ i = LookupAbsent b
  end.
Proof.
  unfold classify. destruct h as [p|a|], i as [p'|a'|]; try done;
    rewrite ?select_single_requested, ?select_requested.
  - destruct (requested pol) as [[m r]|]; [|destruct (mask_is_empty _), (sp_default_precedence pol); try done];
      [destruct (mask_is_empty _); intros [= <-]; destruct m; cbn; eauto|..];
      intros [= <-]; cbn; eauto.
  - destruct (requested pol) as [[m r]|]; [case_bool_decide; [subst|done]|]; intros [= <-]; cbn; eauto 7.
  - destruct (requested pol) as [[m r]|]; [case_bool_decide; [subst|done]|]; intros [= <-]; cbn; eauto 7.
  - intros [= <-]. cbn. eauto.
Qed.

Lemma classify_fail_closed h i pol o :
  classify h i pol = Ok o -> divergence o <> None -> requested pol = None ->
  sp_default_precedence pol = PreferIcann.
Proof.
  unfold classify. destruct h as [p|a|], i as [p'|a'|]; try done.
  - rewrite select_requested. intros H Hd Hr. rewrite Hr in H.
    destruct (mask_is_empty _); [by injection H as <-|]. by destruct (sp_default_precedence pol).
  - destruct (select_single_namespace _ _); [|done]. by intros [= <-].
  - destruct (select_single_namespace _ _); [|done]. by intros [= <-].
  - by intros [= <-].
Qed.

Lemma both_fresh f g now :
  fresh_at f now = true -> fresh_at g now = true ->
  let expiry := Z.min (fr_expires_at_unix f) (fr_expires_at_unix g) in
  (now <? expiry) && (fresh_at f now && fresh_at g now) = true /\
  forall now', now <= now' < expiry -> fresh_at f now' = true /\ fresh_at g now' = true.
Proof.
  intros F G expiry. unfold fresh_at in *. rewrite F, G. breflect. unfold expiry. split.
  - rewrite andb_true_r. apply Z.ltb_lt. lia.
  - intros now' ?. rewrite !andb_true_iff, !Z.leb_le, !Z.ltb_lt. lia.
Qed.

(** An outcome is fresh while both retained lookups are. *)
Lemma outcome_fresh o h i q now :
  retained o = (h, i) -> answers q Hns h now -> answers q Icann i now ->
  is_fresh_at o now = true /\
  forall now', now <= now' < expires_at_unix o -> answers q Hns h now' /\ answers q Icann i now'.
Proof.
  unfold answers. destruct o; cbn; intros [= <- <-] (? & ? & F) (? & ? & G);
    first [destruct (both_fresh _ _ _ F G) as [Hf Hl]; split; [exact Hf|]
          |destruct (both_fresh _ _ _ G F) as [Hf Hl]; split; [exact Hf|]]; intros now' Hn; destruct (Hl now' Hn); done.
Qed.

Lemma validated_network o h i q now :
  retained o = (h, i) -> validated h -> answers q Hns h now -> exists n, hns_network o = Some n.
Proof.
  intros Hr Hv Ha.
  assert (Hp : forall p n, validate_for p n = Ok tt -> n = Hns -> exists m, provenance_network p = Some m).
  { intros [] [] H Hn; cbn; try discriminate H; try discriminate Hn; eauto. }
  assert (Hplan : forall p, (exists j, plan_new j = Ok p) -> op_namespace p = Hns ->
    exists m, provenance_network (op_provenance p) = Some m).
  { intros p (j & Hj) Hn. apply plan_new_inv in Hj as (_ & Hf & _). by apply (Hp _ _ Hf). }
  assert (Habs : forall a, (exists n q k v f, absence_new n q k v f = Ok a) -> ab_namespace a = Hns ->
    exists m, provenance_network (ab_provenance a) = Some m).
  { intros a (n & q' & k & v & f & H) Hn. unfold absence_new in H.
    destruct (validate_for v n) as [[]|] eqn:Hf; [|done].
    assert (ab_provenance a = v /\ ab_namespace a = n) as [-> Hn'].
    { destruct n, k, v as [|[]]; try done; injection H as <-; done. }
    rewrite Hn' in Hn. by apply (Hp _ _ Hf). }
  destruct o; cbn in Hr; injection Hr as <- <-; destruct Ha as (Hn & _); unfold hns_network; eauto.
Qed.

(** C7. What a namespace decision rests on. Neither root failed; both lookups
    answer the asked query for their own root and are fresh, now and at every
    later instant before the decision's expiry, where the same decision is made
    again. The outcome retains exactly both lookups. A selected plan is the
    selected root's own; it is the root the pin, else the sticky binding, names;
    and without either it is Handshake's only when ICANN is authentically
    absent. Nothing is selected only when both roots are absent. Divergence is
    reported exactly when the plans are not equivalent, and then a fail-closed
    policy has a pin or binding. For validated evidence the Handshake network
    is always known. *)
Theorem decision_sound q h i pol now d :
  decide_namespace q h i pol now = Ok d ->
  nd_query d = q /\ nd_policy d = pol /\ retained (nd_outcome d) = (h, i) /\
  answers q Hns h now /\ answers q Icann i now /\
  (is_fresh_at (nd_outcome d) now = true /\
   forall now', now <= now' < expires_at_unix (nd_outcome d) -> decide_namespace q h i pol now' = Ok d) /\
  match selected_namespace (nd_outcome d) with
  | Some n =>
      exists p, selected_plan (nd_outcome d) = Some p /\
        match n with Hns => h | Icann => i end = LookupPresent p /\
        match requested pol with
        | Some (m, r) => n = m /\ selection_reason (nd_outcome d) = Some r
        | None => n = Icann \/ exists a, i = LookupAbsent a
        end
  | None => exists a b, h = LookupAbsent a /\ i = LookupAbsent b
  end /\
  (forall mask, divergence (nd_outcome d) = Some mask <->
    exists p p', h = LookupPresent p /\ i = LookupPresent p' /\ mask = differences p p' /\ equivalent_to p p' = false) /\
  (divergence (nd_outcome d) <> None -> requested pol = None -> sp_default_precedence pol = PreferIcann) /\
  (validated h -> exists n, hns_network (nd_outcome d) = Some n).
Proof.
  intros H. pose proof (proj1 (decide_inv _ _ _ _ _ _) H) as (Ah & Ai & Hf & Hc & Hq & Hp).
  destruct (classify_retains _ _ _ _ Hc) as (Hr & Hd).
  destruct (outcome_fresh _ _ _ _ _ Hr Ah Ai) as (F1 & F3).
  split_and!; try done.
  - intros now' Hn. destruct (F3 now' Hn). by apply decide_inv.
  - by apply (classify_selects h i).
  - by apply (classify_fail_closed h i).
  - intros Hv. by apply (validated_network _ _ _ _ _ Hr Hv Ah).
Qed.

(** Evidence that answers the query is refused for exactly three reasons: a
    root failed; the requested root (by pin, else by sticky binding) is
    authentically absent while the other is present; or the plans diverge under
    a fail-closed policy with nothing requested. Everything else is decided. *)
Theorem decision_refusals_exact q h i pol now :
  answers q Hns h now -> answers q Icann i now ->
  forall e, decide_namespace q h i pol now = Err e <->
    (e = RootFailed (state_from_lookup h) (state_from_lookup i) /\ lookup_failed h || lookup_failed i = true) \/
    (exists n r p a, e = SelectedNamespaceUnavailable n r /\ requested pol = Some (n, r) /\
      (h, i) = match n with
               | Hns => (LookupAbsent a, LookupPresent p) | Icann => (LookupPresent p, LookupAbsent a)
               end) \/
    (e = DivergenceRequiresSelection /\ requested pol = None /\ sp_default_precedence pol = FailClosed /\
      exists p p', h = LookupPresent p /\ i = LookupPresent p' /\ equivalent_to p p' = false).
Proof.
  intros Ah Ai e. apply validate_lookup_ok in Ah, Ai. unfold decide_namespace. rewrite Ah, Ai. clear Ah Ai.
  unfold classify, equivalent_to. destruct h as [p|a|f], i as [p'|a'|f']; cbn [lookup_failed orb];
    try (split; [intros [= <-]; by left|]; intros [[-> _]|[(n & r & ? & ? & _ & _ & Hn)|(_ & _ & _ & ? & ? & ? & ? & _)]];
         [done|by destruct n|done]);
    rewrite ?select_single_requested, ?select_requested.
  - destruct (requested pol) as [[m r]|] eqn:Er; destruct (mask_is_empty _) eqn:Em;
      [| | |destruct (sp_default_precedence pol) eqn:Ep].
    all: split; [intros Hd; try discriminate Hd|intros [[_ ?]|[(n & ? & ? & ? & _ & ? & Hn)|(? & ? & ? & ? & ? & ? & ? & ?)]];
      try done; try (by destruct n)].
    all: try (simplify_eq; congruence). injection Hd as <-. right. right. split_and!; [done..|]. eauto.
  - destruct (requested pol) as [[m r]|] eqn:Er; [case_bool_decide; [subst|]|].
    all: split; [intros Hd; try discriminate Hd|intros [[_ ?]|[(n & ? & ? & ? & ? & ? & Hn)|(? & ? & ? & ? & ? & ? & ? & ?)]];
      try done; try (by destruct n; simplify_eq)].
    injection Hd as <-. right. left. destruct m; [done|]. eauto 10.
  - destruct (requested pol) as [[m r]|] eqn:Er; [case_bool_decide; [subst|]|].
    all: split; [intros Hd; try discriminate Hd|intros [[_ ?]|[(n & ? & ? & ? & ? & ? & Hn)|(? & ? & ? & ? & ? & ? & ? & ?)]];
      try done; try (by destruct n; simplify_eq)].
    injection Hd as <-. right. left. destruct m; [|done]. eauto 10.
  - split; [done|]. intros [[_ ?]|[(n & ? & ? & ? & ? & ? & Hn)|(? & ? & ? & ? & ? & ? & ? & ?)]];
      try done; by destruct n.
Qed.

(** The Handshake plan exists; ICANN authentically has no such name. *)
Definition toy_hns : RootLookup :=
  match plan_new toy_plan with Ok p => LookupPresent p | Err _ => LookupPresent toy_plan end.
Definition toy_absence : Absence :=
  {| ab_namespace := Icann; ab_query := toy_query; ab_kind := IcannInsecureNxDomain;
     ab_provenance := ProvIcannDoh ChainProvenInsecure;
     ab_freshness := {| fr_observed_at_unix := 11; fr_expires_at_unix := 18 |} |}.

Lemma decision_sound_witness :
  exists d, decide_namespace toy_query toy_hns (LookupAbsent toy_absence) default_selection_policy 12 = Ok d /\
    retained (nd_outcome d) = (toy_hns, LookupAbsent toy_absence) /\
    selected_namespace (nd_outcome d) = Some Hns /\ expires_at_unix (nd_outcome d) = 18.
Proof.
  destruct (decide_namespace toy_query toy_hns (LookupAbsent toy_absence) default_selection_policy 12) as [d|] eqn:E;
    [|vm_compute in E; discriminate].
  exists d. destruct (decision_sound _ _ _ _ _ _ E) as (_ & _ & Hr & _).
  split; [done|]. split; [exact Hr|]. vm_compute in E. injection E as <-. by split.
Defined.

Lemma decision_refusals_exact_witness :
  decide_namespace toy_query toy_hns (LookupAbsent toy_absence)
    (with_explicit_pin default_selection_policy (Some Icann)) 12
  = Err (SelectedNamespaceUnavailable Icann ExplicitPin).
Proof.
  apply (decision_refusals_exact toy_query toy_hns (LookupAbsent toy_absence)).
  - vm_compute. by split_and!.
  - vm_compute. by split_and!.
  - right. left. exists Icann, ExplicitPin. unfold toy_hns. destruct (plan_new toy_plan); eauto 6.
Defined.
