(* ===== verification/NsFingerprint.v ===== *)
(** * Namespace decisions: fingerprints

    Models [FingerprintInput], [decision_fingerprint], [DecisionCacheKey] and the
    internal [sha256] of [src/crates/hns-namespace-resolution/src/lib.rs]. The
    input buffer only ever grows, so an operation on it is the bytes it appends.
    The theorem: two decisions have the same preimage exactly when they agree on
    everything a connection depends on, and a cache key separates everything it
    names, unless two concrete preimages collide. *)

From S2P Require Import Prelude ByteOrder PrimHash PrimPow NsTypes NsService NsPlan NsDecision.

(** ** SHA-256 *)

Definition not32 (x : Z) : Z := 2 ^ 32 - 1 - x.

(** [chunks_exact]: whole chunks of [n] bytes. *)
Fixpoint chunks_exact (fuel n : nat) (l : list Z) : list (list Z) :=
  match fuel with
  | O => []
  | S fuel => if (length l <? n)%nat then [] else take n l :: chunks_exact fuel n (drop n l)
  end.

(** The eight 32-bit words of a 256-bit literal, first word first. *)
Definition words_of (literal : Z) : list Z := map from_be (chunks_exact 8 4 (to_be 32 literal)).

Definition INITIAL : list Z :=
  words_of 0x6a09e667bb67ae853c6ef372a54ff53a510e527f9b05688c1f83d9ab5be0cd19.
Definition ROUND : list Z :=
  concat (map words_of
   [0x428a2f9871374491b5c0fbcfe9b5dba53956c25b59f111f1923f82a4ab1c5ed5;
    0xd807aa9812835b01243185be550c7dc372be5d7480deb1fe9bdc06a7c19bf174;
    0xe49b69c1efbe47860fc19dc6240ca1cc2de92c6f4a7484aa5cb0a9dc76f988da;
    0x983e5152a831c66db00327c8bf597fc7c6e00bf3d5a7914706ca635114292967;
    0x27b70a852e1b21384d2c6dfc53380d13650a7354766a0abb81c2c92e92722c85;
    0xa2bfe8a1a81a664bc24b8b70c76c51a3d192e819d6990624f40e3585106aa070;
    0x19a4c1161e376c082748774c34b0bcb5391c0cb34ed8aa4a5b9cca4f682e6ff3;
    0x748f82ee78a5636f84c878148cc7020890befffaa4506cebbef9a3f7c67178f2]).

(** [while padded.len() % 64 != 56 { padded.push(0) }]. *)
Fixpoint pad_zeros (fuel : nat) (padded : list Z) : list Z :=
  match fuel with
  | O => padded
  | S fuel => if zlen padded mod 64 =? 56 then padded else pad_zeros fuel (padded ++ [0])
  end.
Definition sha_padded (input : list Z) : list Z :=
  let bit_len := (Z.min (zlen input) u64_max * 8) mod 2 ^ 64 in
  pad_zeros 64 (input ++ [0x80]) ++ to_be 8 bit_len.

Definition word (words : list Z) (index : nat) : Z := nth index words 0.

(** The loop for [index in 16..64]; [words] holds the words below [index]. *)
Fixpoint extend_words (fuel : nat) (words : list Z) : list Z :=
  match fuel with
  | O => words
  | S fuel =>
      let index := length words in
      let w15 := word words (index - 15) in
      let w2 := word words (index - 2) in
      let s0 := Z.lxor (Z.lxor (rotate_right32 w15 7) (rotate_right32 w15 18)) (Z.shiftr w15 3) in
      let s1 := Z.lxor (Z.lxor (rotate_right32 w2 17) (rotate_right32 w2 19)) (Z.shiftr w2 10) in
      extend_words fuel
        (words ++ [wrapping_add32 (wrapping_add32 (wrapping_add32 (word words (index - 16)) s0)
                     (word words (index - 7))) s1])
  end.

(** One round; the eight working variables are a list. *)
Definition sha_round (v : list Z) (kw : Z * Z) : list Z :=
  match v with
  | [a; b; c; d; e; f; g; h] =>
      let sum1 := Z.lxor (Z.lxor (rotate_right32 e 6) (rotate_right32 e 11)) (rotate_right32 e 25) in
      let choose := Z.lxor (Z.land e f) (Z.land (not32 e) g) in
      let temporary1 := wrapping_add32 (wrapping_add32 (wrapping_add32 (wrapping_add32 h sum1) choose)
                          (fst kw)) (snd kw) in
      let sum0 := Z.lxor (Z.lxor (rotate_right32 a 2) (rotate_right32 a 13)) (rotate_right32 a 22) in
      let majority := Z.lxor (Z.lxor (Z.land a b) (Z.land a c)) (Z.land b c) in
      let temporary2 := wrapping_add32 sum0 majority in
      [wrapping_add32 temporary1 temporary2; a; b; c; wrapping_add32 d temporary1; e; f; g]
  | _ => v
  end.

Definition sha_chunk (state : list Z) (chunk : list Z) : list Z :=
  let words := extend_words 48 (map from_be (chunks_exact 16 4 chunk)) in
  zip_with wrapping_add32 state (fold_left sha_round (zip ROUND words) state).

Definition sha256 (input : list Z) : list Z :=
  let padded := sha_padded input in
  let state := fold_left sha_chunk (chunks_exact (length padded) 64 padded) INITIAL in
  concat (map (to_be 4) state).

(** The digests of the empty string and of "abc". *)
Example sha256_empty :
  from_be (sha256 []) = 0xe3b0c44298fc1c149afbf4c8996fb92427ae41e4649b934ca495991b7852b855.
Proof. vm_compute. reflexivity. Qed.
Example sha256_abc :
  from_be (sha256 [97; 98; 99]) = 0xba7816bf8f01cfea414140de5dae2223b00361a396177a9cb410ff61f20015ad.
Proof. vm_compute. reflexivity. Qed.

(** ** Fingerprint input *)

(** [u64::try_from(len).unwrap_or(u64::MAX)]. *)
Definition fp_len {A} (l : list A) : list Z := to_be 8 (Z.min (zlen l) u64_max).
Definition fp_u8 (v : Z) : list Z := [v].
Definition fp_u16 (v : Z) : list Z := to_be 2 v.
Definition fp_u32 (v : Z) : list Z := to_be 4 v.
Definition fp_u64 (v : Z) : list Z := to_be 8 v.
Definition fp_bytes (v : list Z) : list Z := fp_len v ++ v.
Definition fp_each {A} (enc : A -> list Z) (l : list A) : list Z := fp_len l ++ concat (map enc l).

(** [value.map_or(0, tag)]. *)
Definition option_tag {A} (tag : A -> Z) (o : option A) : Z := match o with Some a => tag a | None => 0 end.

Definition fp_query (q : OriginQuery) : list Z :=
  fp_bytes (oq_host q) ++ fp_u8 (scheme_tag (oq_scheme q)) ++ fp_u16 (origin_port q)
  ++ fp_u8 (capability_flags (oq_supported_protocols q)).
Definition fp_provenance_authority (p : EvidenceProvenance) : list Z :=
  match p with
  | ProvHns network _ _ => fp_u8 1 ++ fp_u8 (network_tag network)
  | ProvIcannDoh _ => fp_u8 2
  end.
Definition fp_absence (a : Absence) : list Z :=
  fp_u8 (namespace_tag (ab_namespace a)) ++ fp_provenance_authority (ab_provenance a)
  ++ fp_query (ab_query a) ++ fp_u8 (absence_tag (ab_kind a)).
Definition fp_alias (a : AliasStep) : list Z :=
  fp_u8 (alias_tag (al_kind a)) ++ fp_bytes (al_owner a) ++ fp_bytes (al_target a).
Definition fp_addr (a : NsAddr) : list Z :=
  match a with
  | AddrV4 octets => fp_u8 4 ++ fp_bytes octets
  | AddrV6 octets => fp_u8 6 ++ fp_bytes octets
  end.
Definition fp_socket_addr (s : SocketAddr) : list Z := fp_addr (sa_ip s) ++ fp_u16 (sa_port s).
Definition fp_option {A} (enc : A -> list Z) (o : option A) : list Z :=
  match o with Some a => fp_u8 1 ++ enc a | None => fp_u8 0 end.
Definition fp_parameter (p : ServiceParameter) : list Z := fp_u16 (sprm_key p) ++ fp_bytes (sprm_value p).
Definition fp_service (s : ServiceBinding) : list Z :=
  fp_option fp_u16 (sb_priority s) ++ fp_bytes (sb_service_target s)
  ++ fp_each fp_u16 (sb_mandatory_keys s) ++ fp_each fp_bytes (sb_advertised_alpn s)
  ++ fp_u8 (protocol_tag (sb_selected_protocol s)) ++ fp_u16 (sb_effective_port s)
  ++ fp_u8 (transport_tag (sb_transport s)) ++ fp_each fp_addr (sb_connection_hints s)
  ++ fp_option fp_bytes (sb_ech_config s) ++ fp_each fp_parameter (sb_parameters s).
Definition fp_plan (p : OriginPlan) : list Z :=
  fp_u8 (namespace_tag (op_namespace p)) ++ fp_provenance_authority (op_provenance p)
  ++ fp_query (op_query p) ++ fp_each fp_alias (op_alias_path p)
  ++ fp_bytes (op_terminal_target p) ++ fp_each fp_alias (op_endpoint_alias_path p)
  ++ fp_bytes (op_endpoint_target p) ++ fp_each fp_socket_addr (op_endpoints p)
  ++ fp_service (op_service p) ++ fp_u8 (tls_tag (op_tls_policy p))
  ++ fp_each fp_bytes (op_tlsa_records p).

(** ** Decision fingerprint *)

(** "hns-namespace-decision-v1" and "hns-namespace-cache-key-v1". *)
Definition decision_domain : list Z :=
  [104; 110; 115; 45; 110; 97; 109; 101; 115; 112; 97; 99; 101; 45; 100; 101; 99; 105; 115; 105; 111;
   110; 45; 118; 49].
Definition cache_domain : list Z :=
  [104; 110; 115; 45; 110; 97; 109; 101; 115; 112; 97; 99; 101; 45; 99; 97; 99; 104; 101; 45; 107;
   101; 121; 45; 118; 49].

(** The [match outcome] of [decision_fingerprint]. *)
Definition fp_evidence (o : NamespaceOutcome) : list Z :=
  match o with
  | HnsOnly plan icann_absence _ => fp_plan plan ++ fp_absence icann_absence
  | IcannOnly plan hns_absence _ => fp_plan plan ++ fp_absence hns_absence
  | BothConvergent _ _ hns icann => fp_plan hns ++ fp_plan icann
  | BothDivergent _ _ hns icann differences => fp_plan hns ++ fp_plan icann ++ fp_u32 differences
  | Neither hns icann => fp_absence hns ++ fp_absence icann
  end.

Definition decision_preimage (d : NamespaceDecision) : list Z :=
  let policy := nd_policy d in
  let outcome := nd_outcome d in
  fp_bytes decision_domain ++ fp_u16 COMPARISON_SCHEMA_VERSION
  ++ fp_query (nd_query d) ++ fp_u64 (sp_revision policy)
  ++ fp_u8 (option_tag namespace_tag (sp_explicit_pin policy))
  ++ fp_u8 (option_tag namespace_tag (sp_sticky_binding policy))
  ++ fp_u8 (precedence_tag (sp_default_precedence policy))
  ++ fp_u8 (kind_tag (outcome_kind outcome))
  ++ fp_u8 (option_tag namespace_tag (selected_namespace outcome))
  ++ fp_u8 (option_tag reason_tag (selection_reason outcome))
  ++ fp_evidence outcome.
Definition decision_fingerprint (d : NamespaceDecision) : list Z := sha256 (decision_preimage d).

(** [to_hex]: two lower-case digits per byte. *)
Definition hex_digit (d : Z) : Z := if d <? 10 then 48 + d else 87 + d.
Definition to_hex (fingerprint : list Z) : list Z :=
  concat (map (fun byte => [hex_digit (Z.shiftr byte 4); hex_digit (Z.land byte 0x0f)]) fingerprint).

Record DecisionCacheKey := {
  ck_decision_fingerprint : list Z; ck_query : OriginQuery; ck_hns_network : HnsNetwork;
  ck_resolver_configuration : list Z; ck_trust_anchor_generation : Z; ck_binding_revision : Z;
  ck_comparison_schema_version : Z }.

(** [DecisionCacheKey::new]; [None] is the [unreachable!] of [hns_network]. *)
Definition decision_cache_key_new (d : NamespaceDecision) (resolver_configuration : list Z)
    (trust_anchor_generation : Z) : option DecisionCacheKey :=
  match hns_network (nd_outcome d) with
  | Some network =>
      Some {| ck_decision_fingerprint := decision_fingerprint d; ck_query := nd_query d;
              ck_hns_network := network; ck_resolver_configuration := resolver_configuration;
              ck_trust_anchor_generation := trust_anchor_generation;
              ck_binding_revision := sp_revision (nd_policy d);
              ck_comparison_schema_version := COMPARISON_SCHEMA_VERSION |}
  | None => None
  end.

Definition key_preimage (k : DecisionCacheKey) : list Z :=
  fp_bytes cache_domain ++ fp_u16 (ck_comparison_schema_version k)
  ++ fp_bytes (ck_decision_fingerprint k) ++ fp_query (ck_query k)
  ++ fp_u8 (network_tag (ck_hns_network k)) ++ fp_bytes (ck_resolver_configuration k)
  ++ fp_u64 (ck_trust_anchor_generation k) ++ fp_u64 (ck_binding_revision k).
Definition key_fingerprint (k : DecisionCacheKey) : list Z := sha256 (key_preimage k).

(** ** Separation

    An encoder separates a view of its values when encodings that begin the same
    string have equal views and end at the same place. *)

Definition separates {A V} (ok : A -> Prop) (enc : A -> list Z) (view : A -> V) : Prop :=
  forall a b r s, ok a -> ok b -> enc a ++ r = enc b ++ s -> view a = view b /\ r = s.
Definition fits (n : nat) (v : Z) : Prop := 0 <= v < 256 ^ Z.of_nat n.
Definition short {A} (l : list A) : Prop := zlen l <= u64_max.

Lemma sep_view {A V} ok enc (view : A -> V) a b :
  separates ok enc view -> ok a -> ok b -> enc a = enc b -> view a = view b.
Proof. intros H Ha Hb E. apply (H a b [] []); [done..|by rewrite !app_nil_r]. Qed.

Lemma sep_weaken {A V} (ok ok' : A -> Prop) enc (view : A -> V) :
  separates ok enc view -> (forall a, ok' a -> ok a) -> separates ok' enc view.
Proof. intros H Hok a b r s Ha Hb. apply H; by apply Hok. Qed.

Lemma sep_on {A B V} (f : A -> B) ok enc (view : B -> V) :
  separates ok enc view -> separates (fun a => ok (f a)) (fun a => enc (f a)) (fun a => view (f a)).
Proof. intros H a b r s. apply H. Qed.

Lemma sep_pair {A V W} ok1 ok2 enc1 enc2 (v1 : A -> V) (v2 : A -> W) :
  separates ok1 enc1 v1 -> separates ok2 enc2 v2 ->
  separates (fun a => ok1 a /\ ok2 a) (fun a => enc1 a ++ enc2 a) (fun a => (v1 a, v2 a)).
Proof.
  intros H1 H2 a b r s [Ha1 Ha2] [Hb1 Hb2] E. rewrite <- !app_assoc in E.
  apply H1 in E as [-> E]; [|done..]. by apply H2 in E as [-> ->].
Qed.

Lemma sep_tag {A} (tag : A -> Z) : Inj (=) (=) tag -> separates (fun _ => True) (fun a => fp_u8 (tag a)) (fun a => a).
Proof. intros Hi a b r s _ _ [= E%Hi ->]. done. Qed.

Lemma sep_be n : separates (fits n) (to_be n) (fun v => v).
Proof.
  intros a b r s Ha Hb E. apply split_fixed in E as [E ->]; [|by rewrite !length_to_be].
  split; [|done]. by apply (to_be_inj n).
Qed.

Lemma fits_len {A} (l : list A) : short l -> fits 8 (zlen l).
Proof. intros H. pose proof (zlen_nonneg l). unfold fits, short, u64_max in *. cbn. lia. Qed.

Lemma sep_len {A B} (l : list A) (k : list B) r s :
  short l -> short k -> fp_len l ++ r = fp_len k ++ s -> zlen l = zlen k /\ r = s.
Proof.
  unfold fp_len. intros Hl Hk E. rewrite !Z.min_l in E by done.
  apply sep_be in E; [done|by apply fits_len..].
Qed.

Lemma sep_bytes : separates short fp_bytes (fun l => l).
Proof.
  unfold fp_bytes. intros a b r s Ha Hb E. rewrite <- !app_assoc in E. apply sep_len in E as [El E]; [|done..].
  apply split_fixed in E; [done|]. unfold zlen in El. lia.
Qed.

Lemma sep_each {A V} ok enc (view : A -> V) :
  separates ok enc view -> separates (fun l => short l /\ Forall ok l) (fp_each enc) (map view).
Proof.
  unfold fp_each. intros H a b r s [Ha Ha'] [Hb Hb'] E. rewrite <- !app_assoc in E.
  apply sep_len in E as [El E]; [|done..]. clear Ha Hb. revert b Hb' El E.
  induction Ha' as [|x a Hx Ha IH]; intros [|y b] Hb El E; rewrite ?zlen_cons in El;
    try (rewrite zlen_nil in El; match type of El with context [zlen ?l] => pose proof (zlen_nonneg l); lia end); [done|].
  cbn in E. apply Forall_cons in Hb as [Hy Hb]. rewrite <- !app_assoc in E.
  apply H in E as [Hv E]; [|done..]. apply IH in E as [Hm ->]; [|done|lia]. cbn. by rewrite Hv, Hm.
Qed.

Lemma sep_option {A V} ok enc (view : A -> V) :
  separates ok enc view -> separates (from_option ok True) (fp_option enc) (option_map view).
Proof.
  intros H [x|] [y|] r s Hx Hy E; cbn in *; try discriminate E; [|by injection E as ->].
  injection E as E. apply H in E as [-> ->]; done.
Qed.

Ltac inj_tag := intros [] []; try discriminate; reflexivity.
#[export] Instance namespace_tag_inj : Inj (=) (=) namespace_tag. Proof. inj_tag. Qed.
#[export] Instance scheme_tag_inj : Inj (=) (=) scheme_tag. Proof. inj_tag. Qed.
#[export] Instance protocol_tag_inj : Inj (=) (=) protocol_tag. Proof. inj_tag. Qed.
#[export] Instance alias_tag_inj : Inj (=) (=) alias_tag. Proof. inj_tag. Qed.
#[export] Instance tls_tag_inj : Inj (=) (=) tls_tag. Proof. inj_tag. Qed.
#[export] Instance absence_tag_inj : Inj (=) (=) absence_tag. Proof. inj_tag. Qed.
#[export] Instance network_tag_inj : Inj (=) (=) network_tag. Proof. inj_tag. Qed.
#[export] Instance transport_tag_inj : Inj (=) (=) transport_tag. Proof. inj_tag. Qed.
#[export] Instance precedence_tag_inj : Inj (=) (=) precedence_tag. Proof. inj_tag. Qed.
#[export] Instance kind_tag_inj : Inj (=) (=) kind_tag. Proof. inj_tag. Qed.
#[export] Instance option_namespace_inj : Inj (=) (=) (option_tag namespace_tag).
Proof. intros [[]|] [[]|]; done. Qed.
#[export] Instance option_reason_inj : Inj (=) (=) (option_tag reason_tag).
Proof. intros [[]|] [[]|]; done. Qed.
#[export] Instance capability_flags_inj : Inj (=) (=) capability_flags.
Proof. intros [[] [] []] [[] [] []]; done. Qed.

(** ** Views: what each encoder keeps *)

Definition query_view (q : OriginQuery) :=
  (oq_host q, (oq_scheme q, (origin_port q, oq_supported_protocols q))).
Definition query_fits (q : OriginQuery) : Prop := short (oq_host q) /\ fits 2 (origin_port q).
Definition absence_view (a : Absence) :=
  (ab_namespace a, (provenance_network (ab_provenance a), (query_view (ab_query a), ab_kind a))).
Definition absence_fits (a : Absence) : Prop := query_fits (ab_query a).
Definition alias_fits (a : AliasStep) : Prop := short (al_owner a) /\ short (al_target a).
Definition addr_fits (a : NsAddr) : Prop := match a with AddrV4 o | AddrV6 o => short o end.
Definition socket_view (s : SocketAddr) := (sa_ip s, sa_port s).
Definition socket_fits (s : SocketAddr) : Prop := addr_fits (sa_ip s) /\ fits 2 (sa_port s).
Definition parameter_fits (p : ServiceParameter) : Prop := fits 2 (sprm_key p) /\ short (sprm_value p).

Record service_fits (s : ServiceBinding) : Prop := {
  sf_priority : from_option (fits 2) True (sb_priority s);
  sf_target : short (sb_service_target s);
  sf_mandatory : short (sb_mandatory_keys s) /\ Forall (fits 2) (sb_mandatory_keys s);
  sf_alpn : short (sb_advertised_alpn s) /\ Forall short (sb_advertised_alpn s);
  sf_port : fits 2 (sb_effective_port s);
  sf_hints : short (sb_connection_hints s) /\ Forall addr_fits (sb_connection_hints s);
  sf_ech : from_option short True (sb_ech_config s);
  sf_parameters : short (sb_parameters s) /\ Forall parameter_fits (sb_parameters s) }.

(** Everything but the flow and scope numbers of IPv6 endpoints, the explicit
    port when it is the scheme's own, the state a proof or response was made
    at, and freshness. *)
Definition plan_view (p : OriginPlan) :=
  (op_namespace p, (provenance_network (op_provenance p), (query_view (op_query p),
   (op_alias_path p, (op_terminal_target p, (op_endpoint_alias_path p, (op_endpoint_target p,
    (map socket_view (op_endpoints p), (op_service p, (op_tls_policy p, op_tlsa_records p)))))))))).
Record plan_fits (p : OriginPlan) : Prop := {
  pf_query : query_fits (op_query p);
  pf_aliases : short (op_alias_path p) /\ Forall alias_fits (op_alias_path p);
  pf_terminal : short (op_terminal_target p);
  pf_endpoint_aliases : short (op_endpoint_alias_path p) /\ Forall alias_fits (op_endpoint_alias_path p);
  pf_endpoint_target : short (op_endpoint_target p);
  pf_endpoints : short (op_endpoints p) /\ Forall socket_fits (op_endpoints p);
  pf_service : service_fits (op_service p);
  pf_tlsa : short (op_tlsa_records p) /\ Forall short (op_tlsa_records p) }.

Lemma sep_query : separates query_fits fp_query query_view.
Proof.
  eapply sep_weaken.
  - refine (sep_pair _ _ _ _ _ _ (sep_on oq_host _ _ _ sep_bytes) _).
    refine (sep_pair _ _ _ _ _ _ (sep_on oq_scheme _ _ _ (sep_tag scheme_tag _)) _).
    refine (sep_pair _ _ _ _ _ _ (sep_on origin_port _ _ _ (sep_be 2)) _).
    exact (sep_on oq_supported_protocols _ _ _ (sep_tag capability_flags _)).
  - by intros q [].
Qed.

Lemma sep_provenance : separates (fun _ => True) fp_provenance_authority provenance_network.
Proof.
  intros [n1 ? ?|?] [n2 ? ?|?] r s _ _ E; try discriminate E; [|by injection E as ->].
  cbn in E. injection E as E%(inj network_tag) ->. by rewrite E.
Qed.

Lemma sep_absence : separates absence_fits fp_absence absence_view.
Proof.
  eapply sep_weaken.
  - refine (sep_pair _ _ _ _ _ _ (sep_on ab_namespace _ _ _ (sep_tag namespace_tag _)) _).
    refine (sep_pair _ _ _ _ _ _ (sep_on ab_provenance _ _ _ sep_provenance) _).
    refine (sep_pair _ _ _ _ _ _ (sep_on ab_query _ _ _ sep_query) _).
    exact (sep_on ab_kind _ _ _ (sep_tag absence_tag _)).
  - done.
Qed.

Lemma sep_alias : separates alias_fits fp_alias (fun a => a).
Proof.
  assert (H : separates alias_fits fp_alias (fun a => (al_kind a, (al_owner a, al_target a)))).
  { eapply sep_weaken.
    - refine (sep_pair _ _ _ _ _ _ (sep_on al_kind _ _ _ (sep_tag alias_tag _)) _).
      refine (sep_pair _ _ _ _ _ _ (sep_on al_owner _ _ _ sep_bytes) _).
      exact (sep_on al_target _ _ _ sep_bytes).
    - by intros a []. }
  intros [] [] r s Ha Hb E. apply H in E as [[= -> -> ->] ->]; done.
Qed.

Lemma sep_addr : separates addr_fits fp_addr (fun a => a).
Proof.
  intros [o1|o1] [o2|o2] r s H1 H2 E; try discriminate E; apply (f_equal tail) in E; cbn [fp_addr fp_u8 app tail] in E;
    by apply sep_bytes in E as [-> ->].
Qed.

Lemma sep_socket : separates socket_fits fp_socket_addr socket_view.
Proof. exact (sep_pair _ _ _ _ _ _ (sep_on sa_ip _ _ _ sep_addr) (sep_on sa_port _ _ _ (sep_be 2))). Qed.

Lemma sep_parameter : separates parameter_fits fp_parameter (fun p => p).
Proof.
  intros [k v] [k' v'] r s Ha Hb E.
  apply (sep_pair _ _ _ _ _ _ (sep_on sprm_key _ _ _ (sep_be 2)) (sep_on sprm_value _ _ _ sep_bytes)) in E
    as [E ->]; [|done..]. cbn in E. by injection E as -> ->.
Qed.

Lemma sep_each_id {A} ok (enc : A -> list Z) :
  separates ok enc (fun a => a) -> separates (fun l => short l /\ Forall ok l) (fp_each enc) (fun l => l).
Proof. intros H a b r s Ha Hb E. apply (sep_each _ _ _ H) in E; [|done..]. by rewrite !map_id in E. Qed.

Lemma sep_option_id {A} ok (enc : A -> list Z) :
  separates ok enc (fun a => a) -> separates (from_option ok True) (fp_option enc) (fun o => o).
Proof.
  intros H a b r s Ha Hb E. apply (sep_option _ _ _ H) in E as [E ->]; [|done..].
  split; [|done]. by destruct a, b; cbn in E; simplify_eq.
Qed.

Lemma sep_service : separates service_fits fp_service (fun s => s).
Proof.
  assert (H : separates service_fits fp_service (fun s =>
    (sb_priority s, (sb_service_target s, (sb_mandatory_keys s, (sb_advertised_alpn s,
     (sb_selected_protocol s, (sb_effective_port s, (sb_transport s, (sb_connection_hints s,
      (sb_ech_config s, sb_parameters s))))))))))).
  { eapply sep_weaken.
    - refine (sep_pair _ _ _ _ _ _ (sep_on sb_priority _ _ _ (sep_option_id _ _ (sep_be 2))) _).
      refine (sep_pair _ _ _ _ _ _ (sep_on sb_service_target _ _ _ sep_bytes) _).
      refine (sep_pair _ _ _ _ _ _ (sep_on sb_mandatory_keys _ _ _ (sep_each_id _ _ (sep_be 2))) _).
      refine (sep_pair _ _ _ _ _ _ (sep_on sb_advertised_alpn _ _ _ (sep_each_id _ _ sep_bytes)) _).
      refine (sep_pair _ _ _ _ _ _ (sep_on sb_selected_protocol _ _ _ (sep_tag protocol_tag _)) _).
      refine (sep_pair _ _ _ _ _ _ (sep_on sb_effective_port _ _ _ (sep_be 2)) _).
      refine (sep_pair _ _ _ _ _ _ (sep_on sb_transport _ _ _ (sep_tag transport_tag _)) _).
      refine (sep_pair _ _ _ _ _ _ (sep_on sb_connection_hints _ _ _ (sep_each_id _ _ sep_addr)) _).
      refine (sep_pair _ _ _ _ _ _ (sep_on sb_ech_config _ _ _ (sep_option_id _ _ sep_bytes)) _).
      exact (sep_on sb_parameters _ _ _ (sep_each_id _ _ sep_parameter)).
    - by intros a []. }
  intros a b r s Ha Hb E. apply H in E as [E ->]; [|done..]. split; [|done].
  destruct a, b. cbn in E. by injection E as -> -> -> -> -> -> -> -> -> ->.
Qed.

Lemma sep_plan : separates plan_fits fp_plan plan_view.
Proof.
  eapply sep_weaken.
  - refine (sep_pair _ _ _ _ _ _ (sep_on op_namespace _ _ _ (sep_tag namespace_tag _)) _).
    refine (sep_pair _ _ _ _ _ _ (sep_on op_provenance _ _ _ sep_provenance) _).
    refine (sep_pair _ _ _ _ _ _ (sep_on op_query _ _ _ sep_query) _).
    refine (sep_pair _ _ _ _ _ _ (sep_on op_alias_path _ _ _ (sep_each_id _ _ sep_alias)) _).
    refine (sep_pair _ _ _ _ _ _ (sep_on op_terminal_target _ _ _ sep_bytes) _).
    refine (sep_pair _ _ _ _ _ _ (sep_on op_endpoint_alias_path _ _ _ (sep_each_id _ _ sep_alias)) _).
    refine (sep_pair _ _ _ _ _ _ (sep_on op_endpoint_target _ _ _ sep_bytes) _).
    refine (sep_pair _ _ _ _ _ _ (sep_on op_endpoints _ _ _ (sep_each _ _ _ sep_socket)) _).
    refine (sep_pair _ _ _ _ _ _ (sep_on op_service _ _ _ sep_service) _).
    refine (sep_pair _ _ _ _ _ _ (sep_on op_tls_policy _ _ _ (sep_tag tls_tag _)) _).
    exact (sep_on op_tlsa_records _ _ _ (sep_each_id _ _ sep_bytes)).
  - by intros p [].
Qed.

(** What a view does not keep, the encoding does not use. *)
Lemma fp_query_view p q : query_view p = query_view q -> fp_query p = fp_query q.
Proof. unfold query_view, fp_query. by intros [= -> -> -> ->]. Qed.
Lemma fp_provenance_view p q :
  provenance_network p = provenance_network q -> fp_provenance_authority p = fp_provenance_authority q.
Proof. destruct p, q; intros E; cbn in E; try discriminate E; [by injection E as ->|done]. Qed.
Lemma fp_absence_view a b : absence_view a = absence_view b -> fp_absence a = fp_absence b.
Proof.
  unfold absence_view. intros E. apply pair_eq in E as [E1 E]. apply pair_eq in E as [E2 E].
  apply pair_eq in E as [E3 E4]. unfold fp_absence.
  by rewrite E1, (fp_provenance_view _ _ E2), (fp_query_view _ _ E3), E4.
Qed.
Lemma fp_socket_view l k : map socket_view l = map socket_view k -> fp_each fp_socket_addr l = fp_each fp_socket_addr k.
Proof.
  intros E. unfold fp_each, fp_len, zlen. rewrite <- (length_map socket_view l), <- (length_map socket_view k), E.
  f_equal. revert k E. induction l as [|x l IH]; intros [|y k] E; cbn in *; try done.
  injection E as Ei Ep E. rewrite (IH k E). unfold fp_socket_addr. by rewrite Ei, Ep.
Qed.
Lemma fp_plan_view p q : plan_view p = plan_view q -> fp_plan p = fp_plan q.
Proof.
  unfold plan_view. intros E. apply pair_eq in E as [E1 E]. apply pair_eq in E as [E2 E].
  apply pair_eq in E as [E3 E]. apply pair_eq in E as [E4 E]. apply pair_eq in E as [E5 E].
  apply pair_eq in E as [E6 E]. apply pair_eq in E as [E7 E]. apply pair_eq in E as [E8 E].
  apply pair_eq in E as [E9 E]. apply pair_eq in E as [E10 E11]. unfold fp_plan.
  by rewrite E1, (fp_provenance_view _ _ E2), (fp_query_view _ _ E3), E4, E5, E6, E7, (fp_socket_view _ _ E8), E9,
    E10, E11.
Qed.

(** ** Decisions and cache keys *)

(** The plans, then the absences, then the mask of the retained evidence. *)
Definition evidence_view (o : NamespaceOutcome) :=
  match o with
  | HnsOnly p a _ | IcannOnly p a _ => ([plan_view p], ([absence_view a], 0))
  | BothConvergent _ _ h i => ([plan_view h; plan_view i], ([], 0))
  | BothDivergent _ _ h i mask => ([plan_view h; plan_view i], ([], mask))
  | Neither h i => ([], ([absence_view h; absence_view i], 0))
  end.
Definition evidence_fits (o : NamespaceOutcome) : Prop :=
  match o with
  | HnsOnly p a _ | IcannOnly p a _ => plan_fits p /\ absence_fits a
  | BothConvergent _ _ h i => plan_fits h /\ plan_fits i
  | BothDivergent _ _ h i mask => plan_fits h /\ plan_fits i /\ fits 4 mask
  | Neither h i => absence_fits h /\ absence_fits i
  end.

(** What a connection depends on. *)
Definition decision_view (d : NamespaceDecision) :=
  let policy := nd_policy d in
  let o := nd_outcome d in
  (query_view (nd_query d), (sp_revision policy, (sp_explicit_pin policy, (sp_sticky_binding policy,
   (sp_default_precedence policy, (outcome_kind o, (selected_namespace o, (selection_reason o,
    evidence_view o)))))))).
Record decision_fits (d : NamespaceDecision) : Prop := {
  df_query : query_fits (nd_query d);
  df_revision : fits 8 (sp_revision (nd_policy d));
  df_evidence : evidence_fits (nd_outcome d) }.

Definition collides (x y : list Z) : Prop := x <> y /\ sha256 x = sha256 y.

Lemma sep_evidence o o' :
  outcome_kind o = outcome_kind o' -> evidence_fits o -> evidence_fits o' ->
  fp_evidence o = fp_evidence o' -> evidence_view o = evidence_view o'.
Proof.
  destruct o, o'; try discriminate; intros _; cbn [evidence_fits fp_evidence evidence_view];
    intros H H' E; destruct_and?.
  - apply sep_plan in E as [-> E]; [|done..]. by apply (sep_view _ _ _ _ _ sep_absence) in E as ->.
  - apply sep_plan in E as [-> E]; [|done..]. by apply (sep_view _ _ _ _ _ sep_absence) in E as ->.
  - apply sep_plan in E as [-> E]; [|done..]. by apply (sep_view _ _ _ _ _ sep_plan) in E as ->.
  - apply sep_plan in E as [-> E]; [|done..]. apply sep_plan in E as [-> E]; [|done..].
    by apply (to_be_inj 4) in E as ->.
  - apply sep_absence in E as [-> E]; [|done..]. by apply (sep_view _ _ _ _ _ sep_absence) in E as ->.
Qed.

Lemma fp_evidence_view o o' :
  outcome_kind o = outcome_kind o' -> evidence_view o = evidence_view o' -> fp_evidence o = fp_evidence o'.
Proof.
  destruct o, o'; try discriminate; intros _ E; cbn [evidence_view] in E; unfold fp_evidence;
    apply pair_eq in E as [Ep E]; apply pair_eq in E as [Ea Em];
    repeat match goal with H : _ :: _ = _ :: _ |- _ => apply (inj2 cons) in H as [? H] end;
    repeat match goal with
    | H : plan_view ?p = plan_view _ |- _ => rewrite (fp_plan_view _ _ H); clear H
    | H : absence_view ?p = absence_view _ |- _ => rewrite (fp_absence_view _ _ H); clear H
    end; by rewrite ?Em.
Qed.

Lemma decision_preimage_exact d d' :
  decision_fits d -> decision_fits d' -> decision_preimage d = decision_preimage d' <-> decision_view d = decision_view d'.
Proof.
  intros [Hq Hr He] [Hq' Hr' He']. unfold decision_preimage, decision_view. split.
  - intros E. do 2 apply app_inv_head in E.
    apply sep_query in E as [-> E]; [|done..]. apply (sep_be 8) in E as [-> E]; [|done..].
    do 2 (apply (sep_tag (option_tag namespace_tag) _) in E as [-> E]; [|done..]).
    apply (sep_tag precedence_tag _) in E as [-> E]; [|done..].
    apply (sep_tag kind_tag _) in E as [Ek E]; [|done..].
    apply (sep_tag (option_tag namespace_tag) _) in E as [-> E]; [|done..].
    apply (sep_tag (option_tag reason_tag) _) in E as [-> E]; [|done..].
    by rewrite (sep_evidence _ _ Ek He He' E), Ek.
  - intros E. apply pair_eq in E as [E1 E]. do 7 (apply pair_eq in E as [? E]).
    rewrite (fp_query_view _ _ E1), (fp_evidence_view (nd_outcome d) (nd_outcome d')) by done. by f_equal; congruence.
Qed.

(** ** Digest length *)

Lemma sha_round_len v kw : length v = 8%nat -> length (sha_round v kw) = 8%nat.
Proof. by do 9 (destruct v as [|? v]; try discriminate). Qed.

Lemma sha_chunk_len state chunk : length state = 8%nat -> length (sha_chunk state chunk) = 8%nat.
Proof.
  intros H. unfold sha_chunk. rewrite length_zip_with, H.
  cut (forall rounds v, length v = 8%nat -> length (fold_left sha_round rounds v) = 8%nat); [intros ->; done|].
  intros rounds. induction rounds; intros v Hv; [done|]. by apply IHrounds, sha_round_len.
Qed.

Lemma sha256_len input : zlen (sha256 input) = 32.
Proof.
  unfold sha256.
  assert (H : forall chunks s, length s = 8%nat -> length (fold_left sha_chunk chunks s) = 8%nat).
  { intros chunks. induction chunks; intros s Hs; [done|]. by apply IHchunks, sha_chunk_len. }
  assert (Hc : forall l, zlen (concat (map (to_be 4) l)) = 4 * zlen l).
  { induction l as [|x l IH]; [done|]. cbn [map concat]. rewrite zlen_app, zlen_to_be, IH, zlen_cons. lia. }
  rewrite Hc. unfold zlen. rewrite H; done.
Qed.

(** Padding ends within its fuel, on a whole number of chunks. *)
Lemma pad_zeros_done fuel : forall padded,
  (56 - zlen padded) mod 64 < Z.of_nat fuel -> zlen (pad_zeros fuel padded) mod 64 = 56.
Proof.
  induction fuel as [|fuel IH]; intros padded Hf; cbn [pad_zeros].
  { pose proof (Z.mod_pos_bound (56 - zlen padded) 64). lia. }
  destruct (Z.eqb_spec (zlen padded mod 64) 56); [done|]. apply IH. lens.
  Z.to_euclidean_division_equations. lia.
Qed.

Lemma sha_padded_len input : zlen (sha_padded input) mod 64 = 0.
Proof.
  unfold sha_padded. rewrite zlen_app, zlen_to_be, <- Zplus_mod_idemp_l, pad_zeros_done; [done|].
  pose proof (Z.mod_pos_bound (56 - zlen (input ++ [0x80])) 64). lia.
Qed.

(** The fingerprint identifies the decision. Decisions that agree on the query,
    the policy snapshot, the outcome with its selection, and every plan and
    absence - whatever their freshness, tree root or validation state - have the
    same fingerprint; and decisions with the same fingerprint agree on all of
    that, so their selected plans connect to the same endpoints with the same
    trust, unless the two strings hashed are a SHA-256 collision. *)
Theorem decision_fingerprint_exact d d' :
  decision_fits d -> decision_fits d' ->
  (decision_view d = decision_view d' -> decision_fingerprint d = decision_fingerprint d') /\
  (decision_fingerprint d = decision_fingerprint d' ->
   (decision_view d = decision_view d' /\
    option_map plan_view (selected_plan (nd_outcome d)) = option_map plan_view (selected_plan (nd_outcome d')))
   \/ collides (decision_preimage d) (decision_preimage d')).
Proof.
  intros H H'. unfold decision_fingerprint. split.
  - intros E. by apply decision_preimage_exact in E as ->.
  - intros E. destruct (decide (decision_preimage d = decision_preimage d')) as [Ep|Hn]; [left|by right].
    apply decision_preimage_exact in Ep; [|done..]. split; [done|]. unfold decision_view in Ep.
    apply pair_eq in Ep as [_ Ep]. do 4 (apply pair_eq in Ep as [_ Ep]).
    apply pair_eq in Ep as [Ek Ep]. apply pair_eq in Ep as [Es Ep]. apply pair_eq in Ep as [_ Ee].
    destruct (nd_outcome d), (nd_outcome d'); try discriminate Ek; cbn [evidence_view] in Ee;
      apply pair_eq in Ee as [Ee _]; try (by injection Es as <-; destruct selected; unfold selected_plan, option_map; congruence);
      unfold selected_plan, option_map; congruence.
Qed.

(** Cache keys partition by everything they name: two keys made from decisions
    have the same fingerprint only if resolver configuration, trust-anchor
    generation, Handshake network and the decision (its query, policy, plans and
    absences) are the same, unless one of the two concrete pairs of hashed
    strings collides. *)
Theorem cache_key_partitions d d' config config' generation generation' k k' :
  decision_fits d -> decision_fits d' -> zlen config = 32 -> zlen config' = 32 ->
  fits 8 generation -> fits 8 generation' ->
  decision_cache_key_new d config generation = Some k ->
  decision_cache_key_new d' config' generation' = Some k' ->
  key_fingerprint k = key_fingerprint k' ->
  (config = config' /\ generation = generation' /\
   hns_network (nd_outcome d) = hns_network (nd_outcome d') /\ decision_view d = decision_view d')
  \/ collides (key_preimage k) (key_preimage k') \/ collides (decision_preimage d) (decision_preimage d').
Proof.
  intros Hd Hd' Hc Hc' Hg Hg' Hk Hk' E.
  destruct (decide (key_preimage k = key_preimage k')) as [Ep|Hn]; [clear E|by right; left].
  unfold decision_cache_key_new in Hk, Hk'.
  destruct (hns_network (nd_outcome d)) as [n|]; [injection Hk as <-|done].
  destruct (hns_network (nd_outcome d')) as [n'|]; [injection Hk' as <-|done].
  unfold key_preimage in Ep. cbn [ck_decision_fingerprint ck_query ck_hns_network ck_resolver_configuration
    ck_trust_anchor_generation ck_binding_revision ck_comparison_schema_version] in Ep.
  do 2 apply app_inv_head in Ep.
  apply sep_bytes in Ep as [Ef Ep]; [|unfold short, decision_fingerprint; rewrite sha256_len; done..].
  apply sep_query in Ep as [_ Ep]; [|by destruct Hd|by destruct Hd'].
  apply (sep_tag network_tag _) in Ep as [-> Ep]; [|done..].
  apply sep_bytes in Ep as [-> Ep]; [|unfold short; rewrite ?Hc, ?Hc'; done..].
  apply (sep_be 8) in Ep as [-> _]; [|done..].
  destruct (decide (decision_preimage d = decision_preimage d')) as [Ep|Hn]; [left|by right; right].
  split_and!; try done. by apply decision_preimage_exact.
Qed.

(** The same decision from evidence observed later. *)
Definition toy_decision (freshness : Freshness) : NamespaceDecision :=
  {| nd_query := toy_query; nd_policy := default_selection_policy;
     nd_outcome := HnsOnly
       {| op_namespace := Hns; op_query := toy_query; op_alias_path := []; op_terminal_target := [97; 46; 98];
          op_endpoint_alias_path := []; op_endpoint_target := [97; 46; 98];
          op_endpoints := [toy_endpoint [1; 1; 1; 1]]; op_service := toy_service; op_tls_policy := Dane;
          op_tlsa_records := [[3; 1; 1; 7]]; op_provenance := ProvHns NetMainnet (repeat 7 32) 100;
          op_freshness := freshness |} toy_absence SingleRoot |}.
Definition toy_early : NamespaceDecision := toy_decision {| fr_observed_at_unix := 10; fr_expires_at_unix := 20 |}.
Definition toy_late : NamespaceDecision := toy_decision {| fr_observed_at_unix := 15; fr_expires_at_unix := 40 |}.

Lemma toy_decision_fits freshness : decision_fits (toy_decision freshness).
Proof.
  assert (Hq : query_fits toy_query) by (by repeat split).
  split; [done|by repeat split|]. split; [|done]. split; repeat constructor; done.
Qed.

Lemma decision_fingerprint_exact_witness :
  toy_early <> toy_late /\ decision_fingerprint toy_early = decision_fingerprint toy_late.
Proof.
  split; [intros E; apply (f_equal (fun d => option_map op_freshness (selected_plan (nd_outcome d)))) in E; by vm_compute in E|].
  apply (decision_fingerprint_exact toy_early toy_late); [apply toy_decision_fits..|]. reflexivity.
Defined.

Definition toy_key (d : NamespaceDecision) : DecisionCacheKey :=
  {| ck_decision_fingerprint := decision_fingerprint d; ck_query := toy_query; ck_hns_network := NetMainnet;
     ck_resolver_configuration := repeat 1 32; ck_trust_anchor_generation := 5; ck_binding_revision := 0;
     ck_comparison_schema_version := COMPARISON_SCHEMA_VERSION |}.

Lemma cache_key_partitions_witness :
  (repeat 1 32 = repeat 1 32 /\ 5 = 5 /\
   hns_network (nd_outcome toy_early) = hns_network (nd_outcome toy_late) /\
   decision_view toy_early = decision_view toy_late)
  \/ collides (key_preimage (toy_key toy_early)) (key_preimage (toy_key toy_late))
  \/ collides (decision_preimage toy_early) (decision_preimage toy_late).
Proof.
  apply (cache_key_partitions toy_early toy_late (repeat 1 32) (repeat 1 32) 5 5).
  - apply toy_decision_fits.
  - apply toy_decision_fits.
  - reflexivity.
  - reflexivity.
  - by split.
  - by split.
  - reflexivity.
  - reflexivity.
  - vm_compute. reflexivity.
Defined.
