(* ===== verification/LightPeer.v ===== *)
(** * Light peer session

    Models [src/crates/hns-light-p2p/src/lib.rs]: the handshake and request state
    machine of one standard peer, and the bounded stream adapter around it. The
    packet codec is the crate hns-p2p-wire: [PeerTypes] names the payloads that
    are only passed on, [Packet] the constructors the session names, [PeerWire]
    the codec. A transport is a [Transport] instance; clocks are arguments. *)

From S2P Require Import Prelude.

Definition DEFAULT_HANDSHAKE_TIMEOUT_SECONDS : Z := 10.
Definition DEFAULT_REQUEST_TIMEOUT_SECONDS : Z := 15.
Definition DEFAULT_MAX_CLOCK_SKEW_SECONDS : Z := 2 * 60 * 60.
Definition PEER_READ_BUFFER_SIZE : Z := 8 * 1024.
Definition MAX_PENDING_PEER_FRAMES : Z := 1024.

Class PeerTypes := {
  NetworkMagic : Type; Frame : Type; WireError : Type; PacketType : Type;
  PeerHeader : Type; Inventory : Type; NetAddress : Type; RejectPacket : Type;
  Transaction : Type; ProofBody : Type; FilterBody : Type; OtherPacket : Type }.

Section data.
Context `{PeerTypes}.

(** [hns_p2p_wire::VersionPacket], by the fields this crate reads or writes. *)
Record VersionPacket := {
  v_version : Z; v_services : Z; v_time : Z; v_remote : NetAddress; v_nonce : list Z;
  v_agent : list Z; v_height : Z; v_no_relay : bool }.
Record PeerLocator := { pl_locator : list (list Z); pl_stop : list Z }.
Record ProofPacket := { pp_root : list Z; pp_key : list Z; pp_body : ProofBody }.

(** [hns_p2p_wire::Packet]: the constructors named here; the rest are [POther]. *)
Inductive Packet :=
| PVersion (version : VersionPacket) | PVerack
| PPing (nonce : list Z) | PPong (nonce : list Z)
| PGetAddr | PAddr (addresses : list NetAddress)
| PInv (inventory : list Inventory) | PGetData (inventory : list Inventory)
| PNotFound (inventory : list Inventory)
| PGetBlocks (locator : PeerLocator) | PGetHeaders (locator : PeerLocator)
| PHeaders (headers : list PeerHeader)
| PTx (transaction : Transaction) | PReject (reject : RejectPacket)
| PMempool | PFilterLoad (filter : FilterBody) | PFilterAdd (filter : FilterBody) | PFilterClear
| PMerkleBlock (payload : list Z) | PFeeFilter (rate : Z)
| PGetProof (root key : list Z) | PProof (proof : ProofPacket)
| PUnknown (packet_type : Z) (payload : list Z)
| POther (other : OtherPacket).
End data.

Class PeerWire `{PeerTypes} := {
  MIN_PROTOCOL_VERSION : Z; PROTOCOL_VERSION : Z; SERVICE_NETWORK : Z; SERVICE_BLOOM : Z;
  packet_type_of : Packet -> PacketType;
  TypeUnknown : Z -> PacketType;
  frame_from_packet : Packet -> result WireError Frame;
  frame_new : PacketType -> list Z -> result WireError Frame;
  frame_decode_packet : Frame -> result WireError Packet;
  frame_encode : Frame -> NetworkMagic -> result WireError (list Z);
  (* [FrameDecoder]: its state, and the frames one push completes. *)
  FrameDecoder : Type;
  decoder_new : NetworkMagic -> FrameDecoder;
  decoder_push : FrameDecoder -> list Z -> FrameDecoder * result WireError (list Frame);
  (* [NetAddress::from_socket_addr] and the crate version in the agent text. *)
  RemoteAddr : Type;
  from_socket_addr : RemoteAddr -> Z -> Z -> NetAddress;
  wallet_agent : list Z }.

Inductive PeerState := AwaitingVersion | AwaitingVerack | PeerReady | PeerClosed.
#[export] Instance PeerState_eq_dec : EqDecision PeerState. Proof. solve_decision. Defined.

Inductive RequestKind := KindHeaders | KindProof | KindPing.
#[export] Instance RequestKind_eq_dec : EqDecision RequestKind. Proof. solve_decision. Defined.

Section peer.
Context `{PeerWire} {IoKind : Type}.

Record PeerConfig := {
  pc_network : NetworkMagic; pc_required_services : Z; pc_handshake_timeout_seconds : Z;
  pc_request_timeout_seconds : Z; pc_max_clock_skew_seconds : Z }.

Definition peer_config_for_network (network : NetworkMagic) : PeerConfig :=
  {| pc_network := network; pc_required_services := SERVICE_NETWORK;
     pc_handshake_timeout_seconds := DEFAULT_HANDSHAKE_TIMEOUT_SECONDS;
     pc_request_timeout_seconds := DEFAULT_REQUEST_TIMEOUT_SECONDS;
     pc_max_clock_skew_seconds := DEFAULT_MAX_CLOCK_SKEW_SECONDS |}.
Definition for_wallet_network (network : NetworkMagic) : PeerConfig :=
  {| pc_network := network; pc_required_services := Z.lor SERVICE_NETWORK SERVICE_BLOOM;
     pc_handshake_timeout_seconds := DEFAULT_HANDSHAKE_TIMEOUT_SECONDS;
     pc_request_timeout_seconds := DEFAULT_REQUEST_TIMEOUT_SECONDS;
     pc_max_clock_skew_seconds := DEFAULT_MAX_CLOCK_SKEW_SECONDS |}.

Inductive PeerError :=
| PeWire (e : WireError) | PeIo (kind : IoKind) | ConnectionClosed | FrameQueueLimit
| PeInvalidConfig | InvalidConnectTimeout | InvalidLocalVersion | PeTimeOverflow | HandshakeTimeout
| ExpectedVersion | ExpectedVerack | ObsoleteVersion | MissingService | MissingBloomService
| SelfConnection | ClockSkew | DuplicateHandshake | NotReady | SessionClosed | EmptyLocator
| DuplicateRequest (kind : RequestKind) | RequestTimeout (kind : RequestKind)
| UnsolicitedHeaders | UnsolicitedProof | WrongProof | UnsolicitedPong | WrongPong
| ZeroPingNonce | UnsupportedWalletPacket (t : PacketType) | PeInternalInvariant
| UnexpectedHandshakeEvent.

Definition lift_wire {A} (r : result WireError A) : result PeerError A :=
  match r with Ok a => Ok a | Err e => Err (PeWire e) end.

Definition peer_config_validate (c : PeerConfig) : result PeerError PeerConfig :=
  if (Z.land (pc_required_services c) SERVICE_NETWORK =? 0)
     || (pc_handshake_timeout_seconds c =? 0) || (60 <? pc_handshake_timeout_seconds c)
     || (pc_request_timeout_seconds c =? 0) || (300 <? pc_request_timeout_seconds c)
     || (24 * 60 * 60 <? pc_max_clock_skew_seconds c)
  then Err PeInvalidConfig else Ok c.

Record PeerMetadata := {
  md_version : Z; md_services : Z; md_time : Z; md_agent : list Z; md_height : Z }.

Inductive WalletPeerEvent :=
| WeInventory (inventory : list Inventory) | WeDataRequest (inventory : list Inventory)
| WeNotFound (inventory : list Inventory) | WeTransaction (transaction : Transaction)
| WeMerkleBlock (payload : list Z) | WeFeeFilter (rate : Z).

Record ExpiredRequests := { ex_headers : bool; ex_proof : bool; ex_ping : bool }.
Definition expired_default : ExpiredRequests := {| ex_headers := false; ex_proof := false; ex_ping := false |}.
Definition expired_any (e : ExpiredRequests) : bool := ex_headers e || ex_proof e || ex_ping e.

Inductive PeerEvent :=
| EvSend (frame : Frame) | EvReady (metadata : PeerMetadata) | EvHeaders (headers : list PeerHeader)
| EvProof (proof : ProofPacket) | EvAddresses (addresses : list NetAddress) | EvGetAddresses
| EvGetBlocks (locator : PeerLocator) | EvGetHeaders (locator : PeerLocator)
| EvPong (nonce : list Z) | EvRejected (reject : RejectPacket) | EvWallet (event : WalletPeerEvent)
| EvExperimental (packet_type : Z) (payload : list Z) | EvIgnored (packet_type : PacketType).

Record PendingProof := { pf_root : list Z; pf_key : list Z; pf_deadline : Z }.
Record PendingPing := { pg_nonce : list Z; pg_deadline : Z }.

(** [Pending] is its deadline. *)
Record PeerSession := {
  ss_config : PeerConfig; ss_state : PeerState; ss_local_nonce : list Z;
  ss_handshake_deadline : Z; ss_peer_verack_received : bool; ss_ready_after_response : bool;
  ss_metadata : option PeerMetadata; ss_pending_headers : option Z;
  ss_pending_proof : option PendingProof; ss_pending_ping : option PendingPing }.

Definition ss_with_state (s : PeerSession) (st : PeerState) : PeerSession :=
  {| ss_config := ss_config s; ss_state := st; ss_local_nonce := ss_local_nonce s;
     ss_handshake_deadline := ss_handshake_deadline s;
     ss_peer_verack_received := ss_peer_verack_received s;
     ss_ready_after_response := ss_ready_after_response s; ss_metadata := ss_metadata s;
     ss_pending_headers := ss_pending_headers s; ss_pending_proof := ss_pending_proof s;
     ss_pending_ping := ss_pending_ping s |}.
Definition ss_with_verack (s : PeerSession) (received : bool) : PeerSession :=
  {| ss_config := ss_config s; ss_state := ss_state s; ss_local_nonce := ss_local_nonce s;
     ss_handshake_deadline := ss_handshake_deadline s; ss_peer_verack_received := received;
     ss_ready_after_response := ss_ready_after_response s; ss_metadata := ss_metadata s;
     ss_pending_headers := ss_pending_headers s; ss_pending_proof := ss_pending_proof s;
     ss_pending_ping := ss_pending_ping s |}.
Definition ss_with_ready_flag (s : PeerSession) (flag : bool) : PeerSession :=
  {| ss_config := ss_config s; ss_state := ss_state s; ss_local_nonce := ss_local_nonce s;
     ss_handshake_deadline := ss_handshake_deadline s;
     ss_peer_verack_received := ss_peer_verack_received s; ss_ready_after_response := flag;
     ss_metadata := ss_metadata s; ss_pending_headers := ss_pending_headers s;
     ss_pending_proof := ss_pending_proof s; ss_pending_ping := ss_pending_ping s |}.
Definition ss_with_metadata (s : PeerSession) (m : option PeerMetadata) : PeerSession :=
  {| ss_config := ss_config s; ss_state := ss_state s; ss_local_nonce := ss_local_nonce s;
     ss_handshake_deadline := ss_handshake_deadline s;
     ss_peer_verack_received := ss_peer_verack_received s;
     ss_ready_after_response := ss_ready_after_response s; ss_metadata := m;
     ss_pending_headers := ss_pending_headers s; ss_pending_proof := ss_pending_proof s;
     ss_pending_ping := ss_pending_ping s |}.
Definition ss_with_pending (s : PeerSession) (headers : option Z) (proof : option PendingProof)
    (ping : option PendingPing) : PeerSession :=
  {| ss_config := ss_config s; ss_state := ss_state s; ss_local_nonce := ss_local_nonce s;
     ss_handshake_deadline := ss_handshake_deadline s;
     ss_peer_verack_received := ss_peer_verack_received s;
     ss_ready_after_response := ss_ready_after_response s; ss_metadata := ss_metadata s;
     ss_pending_headers := headers; ss_pending_proof := proof; ss_pending_ping := ping |}.
Definition ss_with_headers s h := ss_with_pending s h (ss_pending_proof s) (ss_pending_ping s).
Definition ss_with_proof s p := ss_with_pending s (ss_pending_headers s) p (ss_pending_ping s).
Definition ss_with_ping s p := ss_with_pending s (ss_pending_headers s) (ss_pending_proof s) p.

(** ** The session *)

Definition zero_nonce : list Z := replicate 8 0.

Definition session_start (config : PeerConfig) (local_version : VersionPacket) (now : Z)
    : result PeerError (PeerSession * Frame) :=
  let? config := peer_config_validate config in
  if bool_decide (v_nonce local_version = zero_nonce)
     || (v_version local_version <? MIN_PROTOCOL_VERSION)
     || (pc_max_clock_skew_seconds config <? Z.abs (v_time local_version - now))
  then Err InvalidLocalVersion else
  let? handshake_deadline := ok_or (checked_add now (pc_handshake_timeout_seconds config)) PeTimeOverflow in
  let? frame := lift_wire (frame_from_packet (PVersion local_version)) in
  Ok ({| ss_config := config; ss_state := AwaitingVersion; ss_local_nonce := v_nonce local_version;
         ss_handshake_deadline := handshake_deadline; ss_peer_verack_received := false;
         ss_ready_after_response := false; ss_metadata := None; ss_pending_headers := None;
         ss_pending_proof := None; ss_pending_ping := None |}, frame).

Definition session_close (s : PeerSession) : PeerSession :=
  ss_with_pending (ss_with_state s PeerClosed) None None None.

Definition handle_version (s : PeerSession) (packet : Packet) (now : Z)
    : PeerSession * result PeerError PeerEvent :=
  match packet with
  | PVersion version =>
      if v_version version <? MIN_PROTOCOL_VERSION then (s, Err ObsoleteVersion) else
      if negb (Z.land (v_services version) (pc_required_services (ss_config s))
               =? pc_required_services (ss_config s)) then (s, Err MissingService) else
      if bool_decide (v_nonce version = ss_local_nonce s) then (s, Err SelfConnection) else
      if pc_max_clock_skew_seconds (ss_config s) <? Z.abs (v_time version - now) then (s, Err ClockSkew) else
      let s := ss_with_metadata s (Some
        {| md_version := Z.min (v_version version) PROTOCOL_VERSION; md_services := v_services version;
           md_time := v_time version; md_agent := v_agent version; md_height := v_height version |}) in
      let s := if ss_peer_verack_received s
               then ss_with_ready_flag (ss_with_state s PeerReady) true
               else ss_with_state s AwaitingVerack in
      (s, result_map EvSend (lift_wire (frame_from_packet PVerack)))
  | _ => (s, Err ExpectedVersion)
  end.

Definition handle_ready (s : PeerSession) (packet : Packet) (now : Z)
    : PeerSession * result PeerError PeerEvent :=
  match packet with
  | PVersion _ | PVerack => (s, Err DuplicateHandshake)
  | PPing nonce => (s, result_map EvSend (lift_wire (frame_from_packet (PPong nonce))))
  | PPong nonce =>
      match ss_pending_ping s with
      | None => (s, Err UnsolicitedPong)
      | Some pending =>
          if pg_deadline pending <? now then (ss_with_ping s None, Err (RequestTimeout KindPing)) else
          if negb (bool_decide (pg_nonce pending = nonce)) then (s, Err WrongPong) else
          (ss_with_ping s None, Ok (EvPong nonce))
      end
  | PHeaders headers =>
      match ss_pending_headers s with
      | None => (s, Err UnsolicitedHeaders)
      | Some deadline =>
          let s := ss_with_headers s None in
          if deadline <? now then (s, Err (RequestTimeout KindHeaders)) else (s, Ok (EvHeaders headers))
      end
  | PProof proof =>
      match ss_pending_proof s with
      | None => (s, Err UnsolicitedProof)
      | Some pending =>
          let s := ss_with_proof s None in
          if pf_deadline pending <? now then (s, Err (RequestTimeout KindProof)) else
          if negb (bool_decide (pp_root proof = pf_root pending))
             || negb (bool_decide (pp_key proof = pf_key pending)) then (s, Err WrongProof) else
          (s, Ok (EvProof proof))
      end
  | PAddr addresses => (s, Ok (EvAddresses addresses))
  | PGetAddr => (s, Ok EvGetAddresses)
  | PGetBlocks locator => (s, Ok (EvGetBlocks locator))
  | PGetHeaders locator => (s, Ok (EvGetHeaders locator))
  | PReject reject => (s, Ok (EvRejected reject))
  | PInv inventory => (s, Ok (EvWallet (WeInventory inventory)))
  | PGetData inventory => (s, Ok (EvWallet (WeDataRequest inventory)))
  | PNotFound inventory => (s, Ok (EvWallet (WeNotFound inventory)))
  | PTx transaction => (s, Ok (EvWallet (WeTransaction transaction)))
  | PMerkleBlock payload => (s, Ok (EvWallet (WeMerkleBlock payload)))
  | PFeeFilter rate => (s, Ok (EvWallet (WeFeeFilter rate)))
  | PUnknown packet_type payload => (s, Ok (EvExperimental packet_type payload))
  | _ => (s, Ok (EvIgnored (packet_type_of packet)))
  end.

Definition handle_frame (s : PeerSession) (frame : Frame) (now : Z)
    : PeerSession * result PeerError PeerEvent :=
  if bool_decide (ss_state s = PeerClosed) then (s, Err SessionClosed) else
  if negb (bool_decide (ss_state s = PeerReady)) && (ss_handshake_deadline s <? now)
  then (session_close s, Err HandshakeTimeout) else
  match lift_wire (frame_decode_packet frame) with
  | Err e => (s, Err e)
  | Ok packet =>
  match ss_state s with
  | AwaitingVersion =>
      match packet with
      | PVerack => (ss_with_verack s true, Ok (EvIgnored (packet_type_of PVerack)))
      | _ => handle_version s packet now
      end
  | AwaitingVerack =>
      match packet with
      | PVerack =>
          let s := ss_with_state s PeerReady in
          (s, result_map EvReady (ok_or (ss_metadata s) PeInternalInvariant))
      | _ => (s, Err ExpectedVerack)
      end
  | PeerReady => handle_ready s packet now
  | PeerClosed => (s, Err SessionClosed)
  end
  end.

Definition require_ready (s : PeerSession) : result PeerError unit :=
  match ss_state s with
  | PeerReady => Ok tt
  | PeerClosed => Err SessionClosed
  | AwaitingVersion | AwaitingVerack => Err NotReady
  end.
Definition request_deadline (s : PeerSession) (now : Z) : result PeerError Z :=
  ok_or (checked_add now (pc_request_timeout_seconds (ss_config s))) PeTimeOverflow.

(** The rest of a request once its guards have passed: its deadline, its frame,
    and the slot set by [set]. *)
Definition open_request (s : PeerSession) (packet : Packet) (now : Z) (set : Z -> PeerSession)
    : PeerSession * result PeerError Frame :=
  match request_deadline s now with
  | Err e => (s, Err e)
  | Ok deadline =>
      match lift_wire (frame_from_packet packet) with
      | Err e => (s, Err e)
      | Ok frame => (set deadline, Ok frame)
      end
  end.

Definition request_headers (s : PeerSession) (locator : list (list Z)) (stop : list Z) (now : Z)
    : PeerSession * result PeerError Frame :=
  match require_ready s with
  | Err e => (s, Err e)
  | Ok _ =>
      if zlen locator =? 0 then (s, Err EmptyLocator) else
      if bool_decide (ss_pending_headers s <> None) then (s, Err (DuplicateRequest KindHeaders)) else
      open_request s (PGetHeaders {| pl_locator := locator; pl_stop := stop |}) now
        (fun deadline => ss_with_headers s (Some deadline))
  end.

Definition request_proof (s : PeerSession) (root key : list Z) (now : Z)
    : PeerSession * result PeerError Frame :=
  match require_ready s with
  | Err e => (s, Err e)
  | Ok _ =>
      if match ss_pending_proof s with Some _ => true | None => false end
      then (s, Err (DuplicateRequest KindProof)) else
      open_request s (PGetProof root key) now
        (fun deadline => ss_with_proof s (Some {| pf_root := root; pf_key := key; pf_deadline := deadline |}))
  end.

Definition session_ping (s : PeerSession) (nonce : list Z) (now : Z)
    : PeerSession * result PeerError Frame :=
  match require_ready s with
  | Err e => (s, Err e)
  | Ok _ =>
      if bool_decide (nonce = zero_nonce) then (s, Err ZeroPingNonce) else
      if match ss_pending_ping s with Some _ => true | None => false end
      then (s, Err (DuplicateRequest KindPing)) else
      open_request s (PPing nonce) now
        (fun deadline => ss_with_ping s (Some {| pg_nonce := nonce; pg_deadline := deadline |}))
  end.

Definition wallet_packet (packet : Packet) : bool :=
  match packet with
  | PInv _ | PGetData _ | PTx _ | PMempool | PFilterLoad _ | PFilterAdd _ | PFilterClear => true
  | _ => false
  end.
Definition wallet_frame (s : PeerSession) (packet : Packet) : result PeerError Frame :=
  let? _ := require_ready s in
  if match ss_metadata s with Some m => Z.land (md_services m) SERVICE_BLOOM =? 0 | None => true end
  then Err MissingBloomService else
  if negb (wallet_packet packet) then Err (UnsupportedWalletPacket (packet_type_of packet)) else
  lift_wire (frame_from_packet packet).
Definition address_request (s : PeerSession) : result PeerError Frame :=
  let? _ := require_ready s in lift_wire (frame_from_packet PGetAddr).

Definition expire (s : PeerSession) (now : Z) : PeerSession * result PeerError ExpiredRequests :=
  if negb (bool_decide (ss_state s = PeerReady)) then
    if negb (bool_decide (ss_state s = PeerClosed)) && (ss_handshake_deadline s <? now)
    then (session_close s, Err HandshakeTimeout)
    else (s, Ok expired_default)
  else
    let expired :=
      {| ex_headers := match ss_pending_headers s with Some d => d <? now | None => false end;
         ex_proof := match ss_pending_proof s with Some p => pf_deadline p <? now | None => false end;
         ex_ping := match ss_pending_ping s with Some p => pg_deadline p <? now | None => false end |} in
    (ss_with_pending s
       (if ex_headers expired then None else ss_pending_headers s)
       (if ex_proof expired then None else ss_pending_proof s)
       (if ex_ping expired then None else ss_pending_ping s), Ok expired).

Definition take_ready_after_response (s : PeerSession)
    : PeerSession * result PeerError (option PeerMetadata) :=
  if negb (ss_ready_after_response s) then (s, Ok None) else
  let s := ss_with_ready_flag s false in
  (s, result_map Some (ok_or (ss_metadata s) PeInternalInvariant)).

Definition light_wallet_version (remote : RemoteAddr) (nonce : list Z) (height now : Z) : VersionPacket :=
  {| v_version := PROTOCOL_VERSION; v_services := 0; v_time := now;
     v_remote := from_socket_addr remote now 0; v_nonce := nonce; v_agent := wallet_agent;
     v_height := height; v_no_relay := false |}.

(** ** The stream adapter *)

Context {T : Type}.

(** [Read + Write]: a read returns what arrived, at most the buffer's length. *)
Record Transport := {
  t_read : T -> Z -> T * result IoKind (list Z);
  t_write_all : T -> list Z -> T * result IoKind unit;
  t_flush : T -> T * result IoKind unit }.
Context (io : Transport).

Record PeerConnection := {
  cn_transport : T; cn_session : PeerSession; cn_decoder : FrameDecoder; cn_pending : list Frame }.
Definition cn_with_transport (c : PeerConnection) (t : T) : PeerConnection :=
  {| cn_transport := t; cn_session := cn_session c; cn_decoder := cn_decoder c; cn_pending := cn_pending c |}.
Definition cn_with_session (c : PeerConnection) (s : PeerSession) : PeerConnection :=
  {| cn_transport := cn_transport c; cn_session := s; cn_decoder := cn_decoder c; cn_pending := cn_pending c |}.
Definition cn_with_decoder (c : PeerConnection) (d : FrameDecoder) : PeerConnection :=
  {| cn_transport := cn_transport c; cn_session := cn_session c; cn_decoder := d; cn_pending := cn_pending c |}.
Definition cn_with_pending (c : PeerConnection) (frames : list Frame) : PeerConnection :=
  {| cn_transport := cn_transport c; cn_session := cn_session c; cn_decoder := cn_decoder c; cn_pending := frames |}.

Definition peer_io_error {A} (r : result IoKind A) : result PeerError A :=
  match r with Ok a => Ok a | Err kind => Err (PeIo kind) end.

Definition send_frame (c : PeerConnection) (frame : Frame) : PeerConnection * result PeerError unit :=
  match lift_wire (frame_encode frame (pc_network (ss_config (cn_session c)))) with
  | Err e => (c, Err e)
  | Ok encoded =>
      match t_write_all io (cn_transport c) encoded with
      | (t, Err kind) => (cn_with_transport c t, Err (PeIo kind))
      | (t, Ok _) =>
          let '(t, flushed) := t_flush io t in (cn_with_transport c t, peer_io_error flushed)
      end
  end.

Definition connection_start (transport : T) (config : PeerConfig) (local_version : VersionPacket) (now : Z)
    : result PeerError PeerConnection :=
  let? (session, version) := session_start config local_version now in
  let c := {| cn_transport := transport; cn_session := session;
              cn_decoder := decoder_new (pc_network (ss_config session)); cn_pending := [] |} in
  match send_frame c version with (c, Ok _) => Ok c | (_, Err e) => Err e end.

(** A request of the session, then its frame. *)
Definition send_request (c : PeerConnection) (r : PeerSession * result PeerError Frame)
    : PeerConnection * result PeerError unit :=
  match r with
  | (s, Err e) => (cn_with_session c s, Err e)
  | (s, Ok frame) => send_frame (cn_with_session c s) frame
  end.
Definition cn_request_headers c locator stop now := send_request c (request_headers (cn_session c) locator stop now).
Definition cn_request_proof c root key now := send_request c (request_proof (cn_session c) root key now).
Definition cn_ping c nonce now := send_request c (session_ping (cn_session c) nonce now).
Definition send_wallet_packet c packet := send_request c (cn_session c, wallet_frame (cn_session c) packet).
Definition request_addresses c := send_request c (cn_session c, address_request (cn_session c)).
Definition send_experimental_packet (c : PeerConnection) (packet_type : Z) (payload : list Z)
    : PeerConnection * result PeerError unit :=
  match require_ready (cn_session c) with
  | Err e => (c, Err e)
  | Ok _ => send_request c (cn_session c, lift_wire (frame_new (TypeUnknown packet_type) payload))
  end.
Definition cn_close (c : PeerConnection) : PeerConnection :=
  cn_with_pending (cn_with_session c (session_close (cn_session c))) [].

(** One turn of the read loop: [inl] to go on, [inr] when it returns. *)
Definition read_step (c : PeerConnection) : PeerConnection + PeerConnection * result PeerError Frame :=
  match t_read io (cn_transport c) PEER_READ_BUFFER_SIZE with
  | (t, Err kind) => inr (cn_with_transport c t, Err (PeIo kind))
  | (t, Ok bytes) =>
      let c := cn_with_transport c t in
      if zlen bytes =? 0 then inr (c, Err ConnectionClosed) else
      match decoder_push (cn_decoder c) bytes with
      | (d, Err e) => inr (cn_with_decoder c d, Err (PeWire e))
      | (d, Ok frames) =>
          let c := cn_with_decoder c d in
          if MAX_PENDING_PEER_FRAMES <? zlen (cn_pending c) + zlen frames
          then inr (c, Err FrameQueueLimit) else
          match cn_pending c ++ frames with
          | frame :: pending => inr (cn_with_pending c pending, Ok frame)
          | [] => inl (cn_with_pending c [])
          end
      end
  end.

(** The read loop; [None] when the fuel runs out. *)
Fixpoint read_loop (fuel : nat) (c : PeerConnection) : option (PeerConnection * result PeerError Frame) :=
  match fuel with
  | O => None
  | S fuel => match read_step c with inr r => Some r | inl c => read_loop fuel c end
  end.
Definition receive_frame (fuel : nat) (c : PeerConnection) : option (PeerConnection * result PeerError Frame) :=
  match cn_pending c with
  | frame :: pending => Some (cn_with_pending c pending, Ok frame)
  | [] => read_loop fuel c
  end.

(** One turn of [receive_event], after its frame. *)
Definition event_step (c : PeerConnection) (frame : Frame) (now : Z)
    : PeerConnection + PeerConnection * result PeerError PeerEvent :=
  match handle_frame (cn_session c) frame now with
  | (s, Err e) => inr (cn_with_session c s, Err e)
  | (s, Ok (EvSend response)) =>
      match send_frame (cn_with_session c s) response with
      | (c, Err e) => inr (c, Err e)
      | (c, Ok _) =>
          match take_ready_after_response (cn_session c) with
          | (s, Err e) => inr (cn_with_session c s, Err e)
          | (s, Ok (Some metadata)) => inr (cn_with_session c s, Ok (EvReady metadata))
          | (s, Ok None) => inl (cn_with_session c s)
          end
      end
  | (s, Ok event) => inr (cn_with_session c s, Ok event)
  end.
Fixpoint receive_event (fuel : nat) (c : PeerConnection) (now : Z)
    : option (PeerConnection * result PeerError PeerEvent) :=
  match fuel with
  | O => None
  | S fuel' =>
      match receive_frame fuel c with
      | None => None
      | Some (c, Err e) => Some (c, Err e)
      | Some (c, Ok frame) =>
          match event_step c frame now with
          | inr r => Some r
          | inl c => receive_event fuel' c now
          end
      end
  end.

(** [now_unix] is called before each event; [clock] lists what it returns. *)
Fixpoint handshake_loop (fuel : nat) (c : PeerConnection) (clock : list Z)
    : option (PeerConnection * result PeerError PeerMetadata) :=
  match clock with
  | [] => None
  | now :: clock =>
      match receive_event fuel c now with
      | None => None
      | Some (c, Err e) => Some (c, Err e)
      | Some (c, Ok (EvReady metadata)) => Some (c, Ok metadata)
      | Some (c, Ok (EvIgnored _ | EvAddresses _)) => handshake_loop fuel c clock
      | Some (c, Ok _) => Some (c, Err UnexpectedHandshakeEvent)
      end
  end.
Definition complete_handshake (fuel : nat) (c : PeerConnection) (clock : list Z)
    : option (PeerConnection * result PeerError PeerMetadata) :=
  if bool_decide (ss_state (cn_session c) = PeerReady)
  then Some (c, ok_or (ss_metadata (cn_session c)) PeInternalInvariant)
  else handshake_loop fuel c clock.
End peer.
