(* ===== verification/LightPeerProps.v ===== *)
(** * Theorems on the light peer session

    Over any sequence of session operations: every response that reaches the
    caller answers one outstanding request in time; a session is ready only after
    an acceptable version and a verack; and the stream adapter handles frames in
    order, within its queue bound, and reports readiness exactly once. *)

From S2P Require Import Prelude LightPeer.

Section session.
Context `{PeerWire} {IoKind : Type}.
Abbreviation PeerSession := (@PeerSession _).
Abbreviation PeerError := (@PeerError _ IoKind).

#[local] Abbreviation handle_version := (@handle_version _ _ IoKind).
#[local] Abbreviation handle_ready := (@handle_ready _ _ IoKind).
#[local] Abbreviation handle_frame := (@handle_frame _ _ IoKind).

(** ** Runs of a session *)

Inductive peer_op :=
| OpFrame (frame : Frame) (now : Z) | OpHeaders (locator : list (list Z)) (stop : list Z) (now : Z)
| OpProof (root key : list Z) (now : Z) | OpPing (nonce : list Z) (now : Z)
| OpExpire (now : Z) | OpClose | OpTake.
Inductive peer_out :=
| OutEvent (r : result PeerError PeerEvent) | OutFrame (r : result PeerError Frame)
| OutExpired (r : result PeerError ExpiredRequests)
| OutTaken (r : result PeerError (option PeerMetadata)) | OutClosed.

Definition peer_step (s : PeerSession) (op : peer_op) : PeerSession * peer_out :=
  match op with
  | OpFrame frame now => let (s, r) := handle_frame s frame now in (s, OutEvent r)
  | OpHeaders locator stop now => let (s, r) := request_headers s locator stop now in (s, OutFrame r)
  | OpProof root key now => let (s, r) := request_proof s root key now in (s, OutFrame r)
  | OpPing nonce now => let (s, r) := session_ping s nonce now in (s, OutFrame r)
  | OpExpire now => let (s, r) := expire s now in (s, OutExpired r)
  | OpClose => (session_close s, OutClosed)
  | OpTake => let (s, r) := take_ready_after_response s in (s, OutTaken r)
  end.

(** The operations so far with their results, oldest first. *)
Abbreviation peer_trace := (list (peer_op * peer_out)).
Inductive peer_run (s0 : PeerSession) : peer_trace -> PeerSession -> Prop :=
| run_start : peer_run s0 [] s0
| run_step tr s op :
    peer_run s0 tr s -> peer_run s0 (tr ++ [(op, snd (peer_step s op))]) (fst (peer_step s op)).

Lemma peer_run_prefix s0 tr1 tr2 s :
  peer_run s0 (tr1 ++ tr2) s -> exists s1, peer_run s0 tr1 s1.
Proof.
  intros Hr. remember (tr1 ++ tr2) as tr eqn:E. revert tr2 E.
  induction Hr as [|tr s op Hr IH]; intros tr2 E.
  - symmetry in E. apply app_eq_nil in E as [-> ->]. eexists. constructor.
  - destruct tr2 as [|x tr2 _] using rev_ind.
    + rewrite app_nil_r in E. subst tr1. eexists. by constructor.
    + rewrite app_assoc in E. apply app_inj_tail in E as [E _]. by apply (IH tr2).
Qed.

(** ** Requests and responses *)

Inductive ask := AskHeaders | AskProof (root key : list Z) | AskPing (nonce : list Z).
Definition ask_kind (a : ask) : RequestKind :=
  match a with AskHeaders => KindHeaders | AskProof _ _ => KindProof | AskPing _ => KindPing end.

(** The request a step made, and when. *)
Definition asked (x : peer_op * peer_out) : option (ask * Z) :=
  match x with
  | (OpHeaders _ _ now, OutFrame (Ok _)) => Some (AskHeaders, now)
  | (OpProof root key now, OutFrame (Ok _)) => Some (AskProof root key, now)
  | (OpPing nonce now, OutFrame (Ok _)) => Some (AskPing nonce, now)
  | _ => None
  end.
(** The response a step delivered, as the request it answers, and when. *)
Definition delivered (x : peer_op * peer_out) : option (ask * Z) :=
  match x with
  | (OpFrame _ now, OutEvent (Ok (EvHeaders _))) => Some (AskHeaders, now)
  | (OpFrame _ now, OutEvent (Ok (EvProof p))) => Some (AskProof (pp_root p) (pp_key p), now)
  | (OpFrame _ now, OutEvent (Ok (EvPong nonce))) => Some (AskPing nonce, now)
  | _ => None
  end.
Definition quiet (k : RequestKind) (x : peer_op * peer_out) : Prop :=
  (forall a t, asked x = Some (a, t) -> ask_kind a <> k) /\
  (forall a t, delivered x = Some (a, t) -> ask_kind a <> k).

(** The outstanding request of a kind, with its deadline. *)
Definition slot (s : PeerSession) (k : RequestKind) : option (ask * Z) :=
  match k with
  | KindHeaders => option_map (fun d => (AskHeaders, d)) (ss_pending_headers s)
  | KindProof => option_map (fun p => (AskProof (pf_root p) (pf_key p), pf_deadline p)) (ss_pending_proof s)
  | KindPing => option_map (fun p => (AskPing (pg_nonce p), pg_deadline p)) (ss_pending_ping s)
  end.

Definition timeout (s : PeerSession) : Z := pc_request_timeout_seconds (ss_config s).

(** What one step can do to a slot. *)
Definition slot_step (s s' : PeerSession) (k : RequestKind) (x : peer_op * peer_out) : Prop :=
  slot s' k = None \/ slot s' k = slot s k /\ quiet k x \/
  exists a t, asked x = Some (a, t) /\ ask_kind a = k /\ slot s' k = Some (a, t + timeout s).

Ltac quiet_step :=
  split; intros ? ? Hq; cbn in Hq; try discriminate Hq; injection Hq as <- <-; discriminate.
Ltac goal_cases :=
  repeat match goal with
  | |- context [match ?x with _ => _ end] =>
      lazymatch x with context [match _ with _ => _ end] => fail | _ => destruct x eqn:? end
  end.

Lemma handle_version_slot s p now k :
  slot (fst (handle_version s p now)) k = slot s k /\
  forall ev, snd (handle_version s p now) = Ok ev -> exists f, ev = @EvSend _ f.
Proof.
  unfold LightPeer.handle_version, lift_wire. goal_cases; cbn;
    (split; [by destruct k|intros ev E; try discriminate E; injection E as <-; eauto]).
Qed.

Lemma handle_ready_slot s f p now k :
  slot_step s (fst (handle_ready s p now)) k (OpFrame f now, OutEvent (snd (handle_ready s p now))).
Proof.
  unfold LightPeer.handle_ready, lift_wire.
  destruct p; goal_cases; cbn [fst snd result_map];
    try (right; left; split; [done|quiet_step]); destruct k; cbn;
    try (by left); right; left; (split; [done|]); quiet_step.
Qed.

Lemma handle_frame_slot s f now k :
  slot_step s (fst (handle_frame s f now)) k (OpFrame f now, OutEvent (snd (handle_frame s f now))).
Proof.
  assert (Hv : forall p, slot_step s (fst (handle_version s p now)) k (OpFrame f now, OutEvent (snd (handle_version s p now)))).
  { intros p. destruct (handle_version_slot s p now k) as [Hs Hsend]. right. left. split; [done|].
    destruct (handle_version s p now) as [s' [ev|e]]; cbn in *; [|quiet_step].
    destruct (Hsend ev eq_refl) as [fr ->]. quiet_step. }
  unfold LightPeer.handle_frame. case_bool_decide; [right; left; split; [done|quiet_step]|].
  destruct (_ && _); [left; by destruct k|].
  destruct (frame_decode_packet f) as [p|]; cbn [lift_wire]; [|right; left; split; [done|quiet_step]].
  destruct (ss_state s) eqn:Est; [..|right; left; split; [done|quiet_step]].
  - destruct p; try apply Hv. right. left. split; [by destruct k|quiet_step].
  - destruct p; cbn [fst snd]; try (right; left; split; [done|quiet_step]).
    right. left. split; [by destruct k|]. cbn. destruct (ss_metadata s); quiet_step.
  - apply handle_ready_slot.
Qed.

Lemma open_request_slot s p now set k a (op : peer_op) :
  (forall d, slot (set d) k = Some (a, d) /\ forall k', k' <> k -> slot (set d) k' = slot s k') ->
  ask_kind a = k ->
  (forall r, asked (op, OutFrame (Ok r)) = Some (a, now)) -> (forall e, asked (op, OutFrame (Err e)) = None) ->
  (forall r, delivered (op, OutFrame r) = None) ->
  forall k', slot_step s (fst (open_request (IoKind := IoKind) s p now set)) k'
    (op, OutFrame (snd (open_request s p now set))).
Proof.
  intros Hset Hk Ha He Hd k'. unfold open_request, request_deadline.
  destruct (checked_add _ _) as [d|] eqn:Ed; cbn [ok_or fst snd];
    [|right; left; split; [done|split; intros ? ? Hq; rewrite ?He, ?Hd in Hq; discriminate]].
  destruct (frame_from_packet p) as [fr|]; cbn [lift_wire fst snd];
    [|right; left; split; [done|split; intros ? ? Hq; rewrite ?He, ?Hd in Hq; discriminate]].
  apply checked_add_Some in Ed as [-> _]. destruct (decide (k' = k)) as [->|Hn].
  - right. right. exists a, now. split_and!; [apply Ha|done|apply Hset].
  - right. left. split; [by apply Hset|]. split; intros ? ? Hq; [|by rewrite Hd in Hq].
    rewrite Ha in Hq. injection Hq as <- <-. congruence.
Qed.

Lemma peer_step_slot s op k : slot_step s (fst (peer_step s op)) k (op, snd (peer_step s op)).
Proof.
  assert (Hid : forall r, asked (op, r) = None -> delivered (op, r) = None -> slot_step s s k (op, r)).
  { intros r Ha Hd. right. left. split; [done|]. split; intros ? ? Hq; congruence. }
  destruct op; cbn [peer_step].
  - pose proof (handle_frame_slot s frame now k) as Hf. by destruct (handle_frame s frame now).
  - unfold request_headers. destruct (require_ready s); [|by apply Hid].
    destruct (_ =? 0); [by apply Hid|]. case_bool_decide; [by apply Hid|].
    match goal with |- context [open_request s ?p now ?set] =>
      pose proof (open_request_slot s p now set KindHeaders AskHeaders (OpHeaders locator stop now)) as Ho;
      destruct (open_request s p now set) end.
    cbn [fst snd] in *. apply Ho; try done. intros d. split; [done|]. by intros [].
  - unfold request_proof. destruct (require_ready s); [|by apply Hid].
    destruct (ss_pending_proof s); [by apply Hid|].
    match goal with |- context [open_request s ?p now ?set] =>
      pose proof (open_request_slot s p now set KindProof (AskProof root key) (OpProof root key now)) as Ho;
      destruct (open_request s p now set) end.
    cbn [fst snd] in *. apply Ho; try done. intros d. split; [done|]. by intros [].
  - unfold session_ping. destruct (require_ready s); [|by apply Hid]. case_bool_decide; [by apply Hid|].
    destruct (ss_pending_ping s); [by apply Hid|].
    match goal with |- context [open_request s ?p now ?set] =>
      pose proof (open_request_slot s p now set KindPing (AskPing nonce) (OpPing nonce now)) as Ho;
      destruct (open_request s p now set) end.
    cbn [fst snd] in *. apply Ho; try done. intros d. split; [done|]. by intros [].
  - unfold expire. destruct (negb _); [destruct (_ && _); [left; by destruct k|by apply Hid]|].
    cbn [fst snd]. unfold slot_step. destruct k; cbn;
      match goal with |- context [if ?b then _ else _] => destruct b end; cbn; try (by left);
      right; left; (split; [done|]); quiet_step.
  - left. by destruct k.
  - unfold take_ready_after_response. destruct (negb _); [by apply Hid|]. right. left.
    split; [by destruct k|]. quiet_step.
Qed.

Lemma peer_step_frame s f now : snd (peer_step s (OpFrame f now)) = OutEvent (snd (handle_frame s f now)).
Proof. cbn. by destruct (handle_frame s f now). Qed.

(** A response is delivered only from its slot, in time. *)
Lemma delivered_slot s op a now :
  delivered (op, snd (peer_step s op)) = Some (a, now) ->
  ss_state s = PeerReady /\ exists d, slot s (ask_kind a) = Some (a, d) /\ now <= d.
Proof.
  destruct op as [frame now0| | | | | |]; try done. rewrite peer_step_frame.
  assert (Hv : forall p, delivered (OpFrame frame now0, OutEvent (snd (handle_version s p now0))) = None).
  { intros p. destruct (handle_version_slot s p now0 KindPing) as [_ Hsend].
    destruct (handle_version s p now0) as [s' [ev|e]]; [|done]. by destruct (Hsend ev eq_refl) as [fr ->]. }
  unfold LightPeer.handle_frame. case_bool_decide; [done|]. destruct (_ && _); [done|].
  destruct (frame_decode_packet frame) as [p|]; cbn [lift_wire]; [|done].
  destruct (ss_state s) eqn:Est; [| | |done].
  - destruct p; try (by rewrite Hv); done.
  - destruct p; cbn; try done. by destruct (ss_metadata s).
  - intros Hd. split; [done|]. destruct p; cbn in Hd; try done.
    + unfold lift_wire in Hd. by destruct (frame_from_packet _).
    + destruct (ss_pending_ping s) as [q|] eqn:Eq; [|done]. destruct (Z.ltb_spec (pg_deadline q) now0); [done|].
      case_bool_decide; [|done]. subst. cbn in Hd. injection Hd as <- <-. cbn. rewrite Eq. eauto.
    + destruct (ss_pending_headers s) as [q|] eqn:Eq; [|done]. destruct (Z.ltb_spec q now0); [done|].
      cbn in Hd. injection Hd as <- <-. cbn. rewrite Eq. eauto.
    + destruct (ss_pending_proof s) as [q|] eqn:Eq; [|done]. destruct (Z.ltb_spec (pf_deadline q) now0); [done|].
      do 2 (case_bool_decide; [|done]). cbn in Hd. injection Hd as <- <-. cbn. rewrite Eq. cbn.
      exists (pf_deadline q). split; [congruence|done].
Qed.

Lemma peer_step_const s op :
  let s' := fst (peer_step s op) in
  ss_config s' = ss_config s /\ ss_handshake_deadline s' = ss_handshake_deadline s /\
  ss_local_nonce s' = ss_local_nonce s.
Proof.
  destruct op; cbn [peer_step].
  - unfold LightPeer.handle_frame, LightPeer.handle_version, LightPeer.handle_ready. by goal_cases.
  - unfold request_headers, open_request. by goal_cases.
  - unfold request_proof, open_request. by goal_cases.
  - unfold session_ping, open_request. by goal_cases.
  - unfold expire. by goal_cases.
  - done.
  - unfold take_ready_after_response. by goal_cases.
Qed.

Lemma peer_run_const s0 tr s :
  peer_run s0 tr s ->
  ss_config s = ss_config s0 /\ ss_handshake_deadline s = ss_handshake_deadline s0 /\
  ss_local_nonce s = ss_local_nonce s0.
Proof.
  induction 1 as [|tr s op _ IH]; [done|]. pose proof (peer_step_const s op). naive_solver congruence.
Qed.

(** An outstanding request was made, and nothing of its kind happened since. *)
Lemma slot_was_asked s0 tr s k a d :
  (forall k, slot s0 k = None) -> peer_run s0 tr s -> slot s k = Some (a, d) ->
  ask_kind a = k /\ exists tr1 x t tr2,
    tr = tr1 ++ x :: tr2 /\ asked x = Some (a, t) /\ d = t + timeout s0 /\ Forall (quiet k) tr2.
Proof.
  intros Hnone Hr. revert a d. induction Hr as [|tr s op Hr IH]; intros a d Hs; [by rewrite Hnone in Hs|].
  destruct (peer_step_slot s op k) as [Hn|[[He Hq]|(b & t & Ha & Hk & Hs')]].
  - congruence.
  - rewrite He in Hs. destruct (IH a d Hs) as (Hk & tr1 & x & t & tr2 & -> & Hx & Hd & Hall).
    split; [done|]. exists tr1, x, t. eexists. rewrite <- app_assoc. cbn. split_and!; [done..|].
    apply Forall_app. split; [done|]. by constructor.
  - rewrite Hs' in Hs. injection Hs as -> <-. split; [done|].
    exists tr, (op, snd (peer_step s op)), t, []. split_and!; [done|done| |done].
    unfold timeout. by destruct (peer_run_const _ _ _ Hr) as [-> _].
Qed.

Lemma session_start_fresh config v now s0 f :
  session_start (IoKind := IoKind) config v now = Ok (s0, f) ->
  ss_config s0 = config /\ ss_local_nonce s0 = v_nonce v /\ ss_state s0 = AwaitingVersion /\
  ss_handshake_deadline s0 = now + pc_handshake_timeout_seconds config /\
  ss_peer_verack_received s0 = false /\ ss_ready_after_response s0 = false /\
  ss_metadata s0 = None /\ (forall k, slot s0 k = None).
Proof.
  unfold session_start, peer_config_validate. destruct (_ || _); [done|].
  destruct (bool_decide _ || _ || _); [done|].
  destruct (checked_add _ _) as [d|] eqn:Ed; cbn; [|done]. apply checked_add_Some in Ed as [-> _].
  destruct (frame_from_packet _); cbn; [|done]. intros E. injection E as <- _.
  split_and!; try done. by intros [].
Qed.

(** Responses are solicited. In any run of a started session, headers, a proof
    or a pong reaches the caller only as the answer to one request of its kind: the
    same root and key or the same nonce, made before and at most the configured
    timeout ago, with no other request or answer of that kind between them. *)
Theorem responses_are_solicited config v t0 s0 f tr1 x tr2 s a now :
  session_start (IoKind := IoKind) config v t0 = Ok (s0, f) ->
  peer_run s0 (tr1 ++ x :: tr2) s -> delivered x = Some (a, now) ->
  exists tra y t trb, tr1 = tra ++ y :: trb /\ asked y = Some (a, t) /\
    now <= t + pc_request_timeout_seconds config /\ Forall (quiet (ask_kind a)) trb.
Proof.
  intros Hst Hr Hd. destruct (session_start_fresh _ _ _ _ _ Hst) as (Hc & _ & _ & _ & _ & _ & _ & Hnone).
  replace (tr1 ++ x :: tr2) with ((tr1 ++ [x]) ++ tr2) in Hr by (by rewrite <- app_assoc).
  apply peer_run_prefix in Hr as [s1 Hr]. inversion Hr as [E|tr s' op Hr' E]; [by destruct tr1|].
  apply app_inj_tail in E as [-> <-].
  destruct (delivered_slot _ _ _ _ Hd) as (_ & d & Hs & Hle).
  destruct (slot_was_asked _ _ _ _ _ _ Hnone Hr' Hs) as (_ & tra & y & t & trb & -> & Ha & -> & Hq).
  exists tra, y, t, trb. unfold timeout in Hle. rewrite Hc in Hle. done.
Qed.

(** ** The handshake *)

(** A step received an acceptable version packet in time; [m] is what is kept of it. *)
Definition accepted (s0 : PeerSession) (m : PeerMetadata) (x : peer_op * peer_out) : Prop :=
  exists f now v, fst x = OpFrame f now /\ frame_decode_packet f = Ok (PVersion v) /\
    now <= ss_handshake_deadline s0 /\ MIN_PROTOCOL_VERSION <= v_version v /\
    Z.land (v_services v) (pc_required_services (ss_config s0)) = pc_required_services (ss_config s0) /\
    v_nonce v <> ss_local_nonce s0 /\ Z.abs (v_time v - now) <= pc_max_clock_skew_seconds (ss_config s0) /\
    m = {| md_version := Z.min (v_version v) PROTOCOL_VERSION; md_services := v_services v;
           md_time := v_time v; md_agent := v_agent v; md_height := v_height v |}.
Definition got_verack (s0 : PeerSession) (x : peer_op * peer_out) : Prop :=
  exists f now, fst x = OpFrame f now /\ frame_decode_packet f = Ok PVerack /\ now <= ss_handshake_deadline s0.

Record handshake_inv (s0 : PeerSession) (tr : peer_trace) (s : PeerSession) : Prop := {
  hi_metadata : forall m, ss_metadata s = Some m -> Exists (accepted s0 m) tr;
  hi_verack : ss_peer_verack_received s = true \/ ss_state s = PeerReady -> Exists (got_verack s0) tr;
  hi_known : ss_state s = AwaitingVerack \/ ss_state s = PeerReady -> is_Some (ss_metadata s);
  hi_slots : ss_state s <> PeerReady -> forall k, slot s k = None }.

(** The part of a session the handshake decides. *)
Definition handshake_of (s : PeerSession) := (ss_state s, ss_metadata s, ss_peer_verack_received s).

Lemma handle_ready_keeps s p now : handshake_of (fst (handle_ready s p now)) = handshake_of s.
Proof. unfold LightPeer.handle_ready. by goal_cases. Qed.

(** A step that is no frame closes the session or leaves the handshake alone. *)
Lemma other_step_keeps s op :
  (forall f now, op <> OpFrame f now) ->
  fst (peer_step s op) = session_close s \/ handshake_of (fst (peer_step s op)) = handshake_of s.
Proof.
  intros Hop. destruct op; cbn [peer_step]; [by destruct (Hop frame now)|..].
  - right. unfold request_headers, open_request. by goal_cases.
  - right. unfold request_proof, open_request. by goal_cases.
  - right. unfold session_ping, open_request. by goal_cases.
  - unfold expire. goal_cases; auto.
  - by left.
  - right. unfold take_ready_after_response. by goal_cases.
Qed.

Lemma asked_ready s op : asked (op, snd (peer_step s op)) <> None -> ss_state s = PeerReady.
Proof.
  destruct op; cbn [peer_step]; try done; intros Ha; destruct (ss_state s) eqn:E; try done; exfalso; apply Ha;
    unfold request_headers, request_proof, session_ping, require_ready; by rewrite E.
Qed.

(** Slots stay empty outside [PeerReady]. *)
Lemma slots_step s op k :
  (ss_state s <> PeerReady -> forall k, slot s k = None) ->
  (ss_state (fst (peer_step s op)) = ss_state s \/ ss_state s <> PeerReady \/ forall k, slot (fst (peer_step s op)) k = None) ->
  ss_state (fst (peer_step s op)) <> PeerReady -> slot (fst (peer_step s op)) k = None.
Proof.
  intros Hs Hcase Hn.
  assert (Hq : ss_state s <> PeerReady -> slot (fst (peer_step s op)) k = None).
  { intros Hn'. destruct (peer_step_slot s op k) as [?|[[-> _]|(a & t & Ha & _)]]; [done|by apply Hs|].
    exfalso. apply Hn', (asked_ready s op). by rewrite Ha. }
  destruct Hcase as [He|[Hn'|Hall]]; [apply Hq; congruence|by apply Hq|done].
Qed.

Lemma peer_step_frame_fst s f now : fst (peer_step s (OpFrame f now)) = fst (handle_frame s f now).
Proof. cbn. by destruct (handle_frame s f now). Qed.

(** What a frame does to the handshake. *)
Lemma frame_handshake s f now :
  let s' := fst (handle_frame s f now) in
  handshake_of s' = handshake_of s \/ s' = session_close s \/
  now <= ss_handshake_deadline s /\
  (frame_decode_packet f = Ok PVerack /\
     (ss_state s = AwaitingVersion /\ handshake_of s' = (AwaitingVersion, ss_metadata s, true) \/
      ss_state s = AwaitingVerack /\ handshake_of s' = (PeerReady, ss_metadata s, ss_peer_verack_received s)) \/
   exists v, frame_decode_packet f = Ok (PVersion v) /\ ss_state s = AwaitingVersion /\
     MIN_PROTOCOL_VERSION <= v_version v /\
     Z.land (v_services v) (pc_required_services (ss_config s)) = pc_required_services (ss_config s) /\
     v_nonce v <> ss_local_nonce s /\ Z.abs (v_time v - now) <= pc_max_clock_skew_seconds (ss_config s) /\
     handshake_of s' =
       (if ss_peer_verack_received s then PeerReady else AwaitingVerack,
        Some {| md_version := Z.min (v_version v) PROTOCOL_VERSION; md_services := v_services v;
                md_time := v_time v; md_agent := v_agent v; md_height := v_height v |},
        ss_peer_verack_received s)).
Proof.
  cbv zeta. unfold LightPeer.handle_frame. case_bool_decide as Hc; [by left|].
  destruct (negb _ && _) eqn:Et; [by right; left|].
  destruct (frame_decode_packet f) as [p|]; cbn [lift_wire]; [|by left].
  assert (Htime : ss_state s <> PeerReady -> now <= ss_handshake_deadline s).
  { intros Hn. rewrite bool_decide_eq_false_2 in Et by done. cbn in Et. breflect. done. }
  destruct (ss_state s) eqn:Est; [| |left; apply handle_ready_keeps|by left].
  - specialize (Htime ltac:(done)). destruct p; try (by left).
    + cbn [LightPeer.handle_version].
      destruct (Z.ltb_spec (v_version version) MIN_PROTOCOL_VERSION); [by left|].
      destruct (Z.eqb_spec (Z.land (v_services version) (pc_required_services (ss_config s)))
        (pc_required_services (ss_config s))); cbn [negb]; [|by left].
      destruct (decide (v_nonce version = ss_local_nonce s)) as [En|Hnonce];
        [rewrite (bool_decide_eq_true_2 _ En); by left|rewrite (bool_decide_eq_false_2 _ Hnonce)].
      destruct (Z.ltb_spec (pc_max_clock_skew_seconds (ss_config s)) (Z.abs (v_time version - now))); [by left|].
      right. right. split; [done|]. right. exists version. split_and!; try done.
      cbn. unfold handshake_of. destruct (ss_peer_verack_received s) eqn:Ev; cbn; by rewrite ?Ev.
    + right. right. split; [done|]. left. split; [done|]. left. split; [done|].
      unfold handshake_of. cbn. by rewrite Est.
  - specialize (Htime ltac:(done)). destruct p; try (by left). right. right. split; [done|]. left. split; [done|].
    by right.
Qed.

Lemma handshake_inv_step s0 tr s op :
  ss_config s = ss_config s0 -> ss_handshake_deadline s = ss_handshake_deadline s0 ->
  ss_local_nonce s = ss_local_nonce s0 ->
  handshake_inv s0 tr s ->
  handshake_inv s0 (tr ++ [(op, snd (peer_step s op))]) (fst (peer_step s op)).
Proof.
  intros Hc Hd Hl [Im Iv Ik Is].
  assert (Hsame : forall s', handshake_of s' = handshake_of s -> s' = fst (peer_step s op) ->
    handshake_inv s0 (tr ++ [(op, snd (peer_step s op))]) s').
  { intros s' [= E1 E2 E3] ->. split; rewrite ?E1, ?E2, ?E3.
    - intros m Hm. apply Exists_app. left. by apply Im.
    - intros Hm. apply Exists_app. left. by apply Iv.
    - done.
    - intros Hn k. apply slots_step; [done|by left|congruence]. }
  assert (Hclose : fst (peer_step s op) = session_close s ->
    handshake_inv s0 (tr ++ [(op, snd (peer_step s op))]) (session_close s)).
  { intros E. split; cbn.
    - intros m Hm. apply Exists_app. left. by apply Im.
    - intros [Hm|?]; [|done]. apply Exists_app. left. by apply Iv; left.
    - by intros [].
    - by intros _ []. }
  destruct op as [f now| | | | | |];
    try (match goal with |- handshake_inv _ _ (fst (peer_step s ?op)) =>
           destruct (other_step_keeps s op) as [E|E]; [done|rewrite E; by apply Hclose|by apply Hsame] end).
  rewrite peer_step_frame_fst in *.
  destruct (frame_handshake s f now) as [E|[E|(Ht & [(Hp & [[Hs E]|[Hs E]])|(v & Hp & Hs & V1 & V2 & V3 & V4 & E)])]];
    [by apply Hsame|rewrite E; by apply Hclose|..].
  - injection E as E1 E2 E3. split; rewrite ?E1, ?E2, ?E3.
    + intros m Hm. apply Exists_app. left. by apply Im.
    + intros _. apply Exists_app. right. constructor. exists f, now. by rewrite <- Hd.
    + by intros [].
    + intros _ k. rewrite <- peer_step_frame_fst. apply slots_step; [done|right; left; congruence|].
      rewrite peer_step_frame_fst, E1. done.
  - injection E as E1 E2 E3. split; rewrite ?E1, ?E2, ?E3; [| |by intros _; apply Ik; left|done].
    + intros m Hm. apply Exists_app. left. by apply Im.
    + intros _. apply Exists_app. right. constructor. exists f, now. by rewrite <- Hd.
  - injection E as E1 E2 E3. split; rewrite ?E1, ?E2, ?E3; [| |done|].
    + intros m [= <-]. apply Exists_app. right. constructor. exists f, now, v. rewrite <- Hc, <- Hd, <- Hl. done.
    + intros Hv. apply Exists_app. left. apply Iv. left. destruct Hv as [Hv|Hv]; [done|].
      by destruct (ss_peer_verack_received s).
    + intros Hn k. rewrite <- peer_step_frame_fst. apply slots_step; [done|right; left; congruence|].
      rewrite peer_step_frame_fst, E1. done.
Qed.

Lemma peer_run_handshake s0 tr s :
  ss_state s0 = AwaitingVersion -> ss_peer_verack_received s0 = false -> ss_metadata s0 = None ->
  (forall k, slot s0 k = None) -> peer_run s0 tr s -> handshake_inv s0 tr s.
Proof.
  intros Hs Hv Hm Hk. induction 1 as [|tr s op Hr IH].
  - split; rewrite ?Hs, ?Hv, ?Hm; [done|by intros []|by intros []|done].
  - destruct (peer_run_const _ _ _ Hr) as (Hc & Hd & Hl). by apply handshake_inv_step.
Qed.

(** A session is ready only after a full handshake. In any run of a started
    session, a ready session keeps the metadata of a version packet it received
    before its handshake deadline, with every required service, a recent enough
    protocol, another nonce than its own and an acceptable clock; and it received a
    verack, before or after that version. Before that nothing can be requested and
    nothing is delivered; and a closed session stays closed, with no request
    outstanding and every frame refused. *)
Theorem ready_after_full_handshake config v t0 s0 f tr s :
  session_start (IoKind := IoKind) config v t0 = Ok (s0, f) -> peer_run s0 tr s ->
  (ss_state s = PeerReady -> exists m, ss_metadata s = Some m /\
    Exists (accepted s0 m) tr /\ Exists (got_verack s0) tr /\
    Z.land (md_services m) (pc_required_services config) = pc_required_services config) /\
  (forall op, asked (op, snd (peer_step s op)) <> None \/ delivered (op, snd (peer_step s op)) <> None ->
    ss_state s = PeerReady) /\
  (ss_state s <> PeerReady -> forall k, slot s k = None) /\
  (ss_state s = PeerClosed -> forall op, ss_state (fst (peer_step s op)) = PeerClosed /\
    forall g now, op = OpFrame g now -> snd (peer_step s op) = OutEvent (Err SessionClosed)).
Proof.
  intros Hst Hr. destruct (session_start_fresh _ _ _ _ _ Hst) as (Hc & Hl & Hs & Hd & Hv & _ & Hm & Hk).
  destruct (peer_run_handshake _ _ _ Hs Hv Hm Hk Hr) as [Im Iv Ik Is]. split_and!.
  - intros Hready. destruct (Ik (or_intror Hready)) as [m Em]. exists m. split; [done|].
    pose proof (Im m Em) as Ha. split; [done|]. split; [by apply Iv; right|].
    apply Exists_exists in Ha as (x & _ & g & now & w & _ & _ & _ & _ & Hw & _ & _ & ->). cbn. congruence.
  - intros op [Ha|Ha]; [by apply (asked_ready s op)|].
    destruct (delivered _) as [[a now]|] eqn:E; [|done]. by apply delivered_slot in E as [].
  - done.
  - intros Hcl op. split.
    + assert (Ho : (forall f now, op <> OpFrame f now) -> ss_state (fst (peer_step s op)) = PeerClosed).
      { intros Hop. destruct (other_step_keeps s op Hop) as [->|E]; [done|]. injection E as -> _ _. done. }
      destruct op as [g now| | | | | |]; try (by apply Ho).
      rewrite peer_step_frame_fst. unfold LightPeer.handle_frame. by rewrite bool_decide_eq_true_2.
    + intros g now ->. rewrite peer_step_frame. unfold LightPeer.handle_frame. by rewrite bool_decide_eq_true_2.
Qed.

(** ** The stream adapter *)

(** A frame that is handled: the flag for an early verack is set exactly when the
    response completes the handshake; otherwise readiness is reported at once. *)
Lemma handle_frame_ready s f now s' ev :
  ss_ready_after_response s = false -> handle_frame s f now = (s', Ok ev) ->
  match ev with
  | EvSend _ =>
      if ss_ready_after_response s'
      then ss_state s <> PeerReady /\ ss_state s' = PeerReady /\ is_Some (ss_metadata s')
      else ss_state s' = PeerReady <-> ss_state s = PeerReady
  | EvReady m =>
      ss_ready_after_response s' = false /\ ss_state s <> PeerReady /\ ss_state s' = PeerReady /\ ss_metadata s' = Some m
  | _ => ss_ready_after_response s' = false /\ (ss_state s' = PeerReady <-> ss_state s = PeerReady)
  end.
Proof.
  intros Hflag. unfold LightPeer.handle_frame. case_bool_decide; [done|].
  destruct (negb _ && _); [done|]. destruct (frame_decode_packet f) as [p|]; cbn [lift_wire]; [|done].
  destruct (ss_state s) eqn:Est; [| | |done].
  - destruct p; cbn [LightPeer.handle_version]; try done.
    + destruct (_ <? _); [done|]. destruct (negb _); [done|]. case_match; [done|]. destruct (_ <? _); [done|].
      destruct (lift_wire _) as [fr|]; cbn [result_map]; [|done]. intros E. injection E as <- <-. cbn.
      destruct (ss_peer_verack_received s); cbn; [done|]. by rewrite Hflag.
    + intros E. injection E as <- <-. cbn. by rewrite Est.
  - destruct p; try done. cbn [ss_with_state ss_metadata].
    destruct (ss_metadata s) as [m|] eqn:Em; cbn [ok_or result_map]; [|done].
    intros E. injection E as <- <-. cbn. by rewrite Em.
  - intros E. pose proof (handle_ready_keeps s p now) as Hk. rewrite E in Hk. injection Hk as Hs _ _.
    assert (Hf : ss_ready_after_response s' = false /\ forall m, ev <> EvReady m).
    { revert E. unfold LightPeer.handle_ready, lift_wire. goal_cases; intros E; try discriminate E;
        injection E as <- <-; done. }
    destruct Hf as [Hf Hm]. rewrite Hs, Est. destruct ev; try (by split); [by rewrite Hf|by destruct (Hm metadata)].
Qed.

Section stream.
Context {T : Type} (io : Transport (IoKind := IoKind) (T := T)).
Abbreviation PeerConnection := (@PeerConnection _ _ T).

(** The frames pushed reads have completed. *)
Inductive pushed : FrameDecoder -> list Frame -> FrameDecoder -> Prop :=
| pushed_none d : pushed d [] d
| pushed_more d bytes frames d' rest d'' :
    decoder_push d bytes = (d', Ok frames) -> pushed d' rest d'' -> pushed d (frames ++ rest) d''.

Lemma pushed_app d1 l1 d2 l2 d3 : pushed d1 l1 d2 -> pushed d2 l2 d3 -> pushed d1 (l1 ++ l2) d3.
Proof. induction 1 as [|? ? ? ? ? ? Hp _ IH]; [done|]. intros H3. rewrite <- app_assoc. econstructor; eauto. Qed.

Lemma read_loop_ok fuel : forall c c' f,
  cn_pending c = [] -> read_loop io fuel c = Some (c', Ok f) ->
  cn_session c' = cn_session c /\ pushed (cn_decoder c) (f :: cn_pending c') (cn_decoder c') /\
  zlen (cn_pending c') < MAX_PENDING_PEER_FRAMES.
Proof.
  induction fuel as [|fuel IH]; intros c c' f Hp; cbn [read_loop]; [done|]. unfold read_step.
  destruct (t_read io _ _) as [t [bytes|]]; [|done]. cbn [cn_with_transport cn_decoder cn_pending].
  destruct (_ =? 0); [done|]. destruct (decoder_push (cn_decoder c) bytes) as [d [frames|]] eqn:Ed; [|done].
  cbn [cn_with_transport cn_with_decoder cn_pending]. rewrite Hp. cbn [app]. rewrite zlen_nil.
  destruct (Z.ltb_spec MAX_PENDING_PEER_FRAMES (0 + zlen frames)); [done|].
  destruct frames as [|g frames].
  - intros Hr. apply IH in Hr as (Hs & Hpush & Hlen); [|done]. split; [done|]. split; [|done].
    by apply (pushed_more _ _ _ _ _ _ Ed).
  - intros E. injection E as <- <-. cbn. split; [done|]. rewrite zlen_cons in *. split; [|lia].
    rewrite <- (app_nil_r (g :: frames)). apply (pushed_more _ _ _ _ _ _ Ed). constructor.
Qed.

Lemma receive_frame_ok fuel c c' f :
  zlen (cn_pending c) <= MAX_PENDING_PEER_FRAMES -> receive_frame io fuel c = Some (c', Ok f) ->
  cn_session c' = cn_session c /\ zlen (cn_pending c') <= MAX_PENDING_PEER_FRAMES /\
  exists frames, pushed (cn_decoder c) frames (cn_decoder c') /\ cn_pending c ++ frames = f :: cn_pending c'.
Proof.
  intros Hl. unfold receive_frame. destruct (cn_pending c) as [|g pending] eqn:Ep.
  - intros Hr. apply read_loop_ok in Hr as (Hs & Hpush & Hlen); [|done]. split; [done|]. split; [lia|]. eauto.
  - intros E. injection E as <- <-. cbn. rewrite zlen_cons in Hl. split; [done|]. split; [lia|].
    exists []. split; [constructor|]. by rewrite app_nil_r.
Qed.

Lemma send_frame_keeps c f c' r :
  send_frame io c f = (c', r) ->
  cn_session c' = cn_session c /\ cn_decoder c' = cn_decoder c /\ cn_pending c' = cn_pending c.
Proof.
  unfold send_frame. destruct (lift_wire _); [|by intros [= <- _]].
  destruct (t_write_all io _ _) as [t [[]|]]; [|by intros [= <- _]].
  destruct (t_flush io t). by intros [= <- _].
Qed.

Definition frames_of (tr : peer_trace) : list Frame :=
  omap (fun x => match fst x with OpFrame f _ => Some f | _ => None end) tr.

Lemma frames_of_app tr1 tr2 : frames_of (tr1 ++ tr2) = frames_of tr1 ++ frames_of tr2.
Proof. apply omap_app. Qed.

Lemma peer_run_app s0 tr1 s1 tr2 s2 : peer_run s0 tr1 s1 -> peer_run s1 tr2 s2 -> peer_run s0 (tr1 ++ tr2) s2.
Proof. intros H1. induction 1 as [|tr s op _ IH]; [by rewrite app_nil_r|]. rewrite app_assoc. by constructor. Qed.

(** What [event_step] and [receive_event] do to the session: frames handled in
    order, with the readiness flag taken after each response. *)
Definition ready (c : PeerConnection) : Prop := ss_state (cn_session c) = PeerReady.
Record handled (c c' : PeerConnection) (frames : list Frame) : Prop := {
  hd_run : exists tr, peer_run (cn_session c) tr (cn_session c') /\ frames_of tr = frames;
  hd_flag : ss_ready_after_response (cn_session c') = false }.
(** The event an adapter may report: never a response to send, and readiness
    exactly when the session became ready, with the peer's metadata. *)
Record reported (c c' : PeerConnection) (ev : PeerEvent) : Prop := {
  rp_send : forall f, ev <> EvSend f;
  rp_ready : (exists m, ev = EvReady m) <-> ~ ready c /\ ready c';
  rp_metadata : forall m, ev = EvReady m -> ss_metadata (cn_session c') = Some m }.

Lemma run_frame s f now s' r :
  handle_frame s f now = (s', r) -> peer_run s [(OpFrame f now, OutEvent r)] s'.
Proof.
  intros E. pose proof (run_step s [] s (OpFrame f now) (run_start s)) as Hr.
  cbn [peer_step] in Hr. by rewrite E in Hr.
Qed.

Lemma run_take s f now s1 ev s2 r :
  handle_frame s f now = (s1, ev) -> take_ready_after_response (IoKind := IoKind) s1 = (s2, r) ->
  peer_run s [(OpFrame f now, OutEvent ev); (OpTake, OutTaken r)] s2.
Proof.
  intros E1 E2. pose proof (run_step s _ s1 OpTake (run_frame _ _ _ _ _ E1)) as Hr.
  cbn [peer_step] in Hr. by rewrite E2 in Hr.
Qed.

Lemma event_step_ok c f now :
  ss_ready_after_response (cn_session c) = false ->
  match event_step io c f now with
  | inl c' => handled c c' [f] /\ (ready c' <-> ready c) /\ cn_pending c' = cn_pending c /\ cn_decoder c' = cn_decoder c
  | inr (c', Ok ev) =>
      handled c c' [f] /\ reported c c' ev /\ cn_pending c' = cn_pending c /\ cn_decoder c' = cn_decoder c
  | inr (_, Err _) => True
  end.
Proof.
  intros Hflag. unfold event_step.
  destruct (LightPeer.handle_frame _ _ _) as [s [ev|e]] eqn:Eh; [|done].
  pose proof (handle_frame_ready _ _ _ _ _ Hflag Eh) as Hev. unfold ready.
  destruct ev; try (destruct Hev as [Hf Hs]; split; [split; [match goal with E : _ = (s, ?r) |- _ => exists [(OpFrame f now, OutEvent r)] end;
      by split; [apply run_frame|]|done]|];
    split; [|done]; split; [done| |done]; cbn; split; [by intros [m Hm]|tauto]).
  - destruct (send_frame io _ _) as [c1 [u|e]] eqn:Es; [|done].
    apply send_frame_keeps in Es as (E1 & E2 & E3). cbn in E1, E2, E3. rewrite E1.
    destruct (take_ready_after_response s) as [s2 r] eqn:Et.
    pose proof (run_take _ _ _ _ _ _ _ Eh Et) as Hrun. unfold take_ready_after_response in Et.
    destruct (ss_ready_after_response s) eqn:Ef; cbn [negb] in Et.
    + destruct Hev as (Hn & Hr & [m Hm]). cbn [ss_with_ready_flag ss_metadata] in Et. rewrite Hm in Et.
      injection Et as <- <-. cbn. split; [split; [eauto|done]|]. split; [|done].
      split; [done| |by intros ? [= <-]]. cbn. split; [done|eauto].
    + injection Et as <- <-. split; [split; [eauto|done]|]. done.
  - destruct Hev as (Hf & Hn & Hr & Hm). split; [split; [|done]|].
    + exists [(OpFrame f now, OutEvent (Ok (EvReady metadata)))]. split; [by apply run_frame|done].
    + split; [|done]. split; [done| |by intros ? [= <-]]. cbn. split; [done|eauto].
Qed.

Lemma receive_event_ok fuel now c c' ev :
  ss_ready_after_response (cn_session c) = false -> zlen (cn_pending c) <= MAX_PENDING_PEER_FRAMES ->
  receive_event io fuel c now = Some (c', Ok ev) ->
  exists frames run, pushed (cn_decoder c) frames (cn_decoder c') /\
    cn_pending c ++ frames = run ++ cn_pending c' /\ run <> [] /\
    handled c c' run /\ reported c c' ev /\ zlen (cn_pending c') <= MAX_PENDING_PEER_FRAMES.
Proof.
  revert c. induction fuel as [|fuel IH]; intros c Hf Hl; cbn [receive_event]; [done|].
  destruct (receive_frame io (S fuel) c) as [[c1 [f|e]]|] eqn:Er; [|done..].
  apply receive_frame_ok in Er as (Es & Hl1 & frames & Hp & Hq); [|done]. rewrite <- Es in Hf.
  pose proof (event_step_ok c1 f now Hf) as Hstep.
  destruct (event_step io c1 f now) as [c2|[c2 [ev'|e]]]; [|intros E; injection E as <- <-|done].
  - destruct Hstep as ([(tr & Hr & Ht) Hf2] & Hready & Ep & Ed). intros Hev.
    apply IH in Hev as (frames2 & run2 & Hp2 & Hq2 & Hne & [(tr2 & Hr2 & Ht2) Hf3] & [S1 S2 S3] & Hl3);
      [|done|by rewrite Ep].
    exists (frames ++ frames2), (f :: run2). split_and!; [|..|done].
    + apply (pushed_app _ _ (cn_decoder c1)); [done|by rewrite <- Ed].
    + rewrite (app_assoc (cn_pending c)), Hq. cbn [app]. by rewrite <- Hq2, Ep.
    + done.
    + split; [|done]. exists (tr ++ tr2). rewrite <- Es. split; [by apply (peer_run_app _ _ (cn_session c2))|].
      by rewrite frames_of_app, Ht, Ht2.
    + split; [done| |done]. rewrite S2. unfold ready in *. rewrite <- Es. tauto.
  - destruct Hstep as ([(tr & Hr & Ht) Hf2] & [S1 S2 S3] & Ep & Ed).
    exists frames, [f]. split_and!; [by rewrite Ed|by rewrite Ep|done| | |by rewrite Ep].
    + split; [|done]. exists tr. by rewrite <- Es.
    + split; [done| |done]. rewrite S2. unfold ready in *. by rewrite <- Es.
Qed.

Lemma handshake_loop_ok fuel clock : forall c c' m,
  ss_ready_after_response (cn_session c) = false -> zlen (cn_pending c) <= MAX_PENDING_PEER_FRAMES ->
  handshake_loop io fuel c clock = Some (c', Ok m) ->
  ready c' /\ ss_metadata (cn_session c') = Some m /\ ss_ready_after_response (cn_session c') = false.
Proof.
  induction clock as [|now clock IH]; intros c c' m Hf Hl; cbn [handshake_loop]; [done|].
  destruct (receive_event io fuel c now) as [[c1 [ev|e]]|] eqn:Er; [|done..].
  apply receive_event_ok in Er as (frames & run & _ & _ & _ & [_ Hf1] & [_ S2 S3] & Hl1); [|done..].
  destruct ev; try done; [|by apply IH|by apply IH].
  intros E. injection E as <- <-. split; [by apply S2; eauto|]. split; [by apply S3|done].
Qed.

(** [receive_event] refines the session over the decoded frames. When it
    returns an event, the session has handled a nonempty run of frames, exactly the
    queued ones and then the decoded ones in order, none lost or repeated, and the
    queue stays within its bound. It never surfaces a response to be sent, and it
    reports readiness, with the peer's metadata, exactly when the session became
    ready - also when the verack came first. So a completed handshake leaves a
    ready session with the metadata it returned. *)
Theorem receive_event_exact c :
  ss_ready_after_response (cn_session c) = false -> zlen (cn_pending c) <= MAX_PENDING_PEER_FRAMES ->
  (forall fuel now c' ev, receive_event io fuel c now = Some (c', Ok ev) ->
    exists frames run, pushed (cn_decoder c) frames (cn_decoder c') /\
      cn_pending c ++ frames = run ++ cn_pending c' /\ run <> [] /\
      handled c c' run /\ reported c c' ev /\ zlen (cn_pending c') <= MAX_PENDING_PEER_FRAMES) /\
  (forall fuel clock c' m, complete_handshake io fuel c clock = Some (c', Ok m) ->
    ready c' /\ ss_metadata (cn_session c') = Some m).
Proof.
  intros Hf Hl. split; [intros fuel now c' ev; by apply receive_event_ok|].
  intros fuel clock c' m. unfold complete_handshake. case_bool_decide as Hr.
  - destruct (ss_metadata (cn_session c)) as [m'|] eqn:Em; [|done]. intros E. injection E as <- <-. done.
  - intros Hh. apply handshake_loop_ok in Hh as (? & ? & _); done.
Qed.

(** ** Termination *)

Section budget.
Context (budget : T -> nat)
  (Hread : forall t n t' bytes, t_read io t n = (t', Ok bytes) -> bytes <> [] -> (budget t' < budget t)%nat)
  (Hwrite : forall t bytes, (budget (fst (t_write_all io t bytes)) <= budget t)%nat)
  (Hflush : forall t, (budget (fst (t_flush io t)) <= budget t)%nat).

Lemma read_loop_returns fuel : forall c, cn_pending c = [] -> (budget (cn_transport c) < fuel)%nat ->
  exists c' r, read_loop io fuel c = Some (c', r) /\
    (is_ok r = true -> (budget (cn_transport c') < budget (cn_transport c))%nat /\ (length (cn_pending c') < 1024)%nat).
Proof.
  induction fuel as [|fuel IH]; intros c Hp Hb; [lia|]. cbn [read_loop]. unfold read_step.
  destruct (t_read io _ _) as [t [bytes|]] eqn:Et; [|by eexists _, _].
  cbn [cn_with_transport cn_decoder cn_pending]. destruct (Z.eqb_spec (zlen bytes) 0) as [|Hne]; [by eexists _, _|].
  assert (Hlt : (budget t < budget (cn_transport c))%nat).
  { apply (Hread _ _ _ _ Et). intros ->. done. }
  destruct (decoder_push (cn_decoder c) bytes) as [d [frames|]] eqn:Ed; [|by eexists _, _].
  cbn [cn_with_transport cn_with_decoder cn_pending]. rewrite Hp. cbn [app]. rewrite zlen_nil.
  destruct (Z.ltb_spec MAX_PENDING_PEER_FRAMES (0 + zlen frames)) as [|Hmax]; [by eexists _, _|].
  destruct frames as [|g frames].
  - destruct (IH (cn_with_pending (cn_with_decoder (cn_with_transport c t) d) [])) as (c' & r & -> & Hok);
      [done|cbn; lia|]. eexists _, _. split; [done|]. intros Hr. destruct (Hok Hr) as [Hok1 Hok2]. cbn in Hok1. split; [lia|done].
  - eexists _, _. split; [done|]. intros _. cbn. split; [done|]. unfold MAX_PENDING_PEER_FRAMES, zlen in Hmax.
    cbn in Hmax. lia.
Qed.

(** Reads left, then frames queued. *)
Definition work (c : PeerConnection) : nat := budget (cn_transport c) * 1025 + length (cn_pending c).

Lemma receive_frame_returns fuel c : (work c < fuel)%nat ->
  exists c' r, receive_frame io fuel c = Some (c', r) /\ (is_ok r = true -> (work c' < work c)%nat).
Proof.
  intros Hw. unfold receive_frame, work in *. destruct (cn_pending c) as [|g pending] eqn:Ep.
  - destruct (read_loop_returns fuel c Ep) as (c' & r & -> & Hok); [lia|]. eexists _, _. split; [done|].
    intros Hr. destruct (Hok Hr). cbn [length]. lia.
  - eexists _, _. split; [done|]. intros _. cbn. lia.
Qed.

Lemma send_frame_budget c f c' r :
  send_frame io c f = (c', r) -> (budget (cn_transport c') <= budget (cn_transport c))%nat.
Proof.
  unfold send_frame. destruct (lift_wire _) as [b|]; [|by intros [= <- _]].
  pose proof (Hwrite (cn_transport c) b) as Hw. destruct (t_write_all io _ _) as [t [[]|]]; [|by intros [= <- _]].
  pose proof (Hflush t) as Hfl. destruct (t_flush io t). intros [= <- _]. cbn in *. lia.
Qed.

(** The adapter returns. On a transport that has finitely many nonempty reads
    left - [budget] bounds them, and writing does not add any - one [receive_event]
    returns within a number of turns given by the reads left and the frames
    queued, whatever the peer sends. *)
Theorem receive_event_returns fuel c now :
  (work c < fuel)%nat -> exists c' r, receive_event io fuel c now = Some (c', r).
Proof.
  revert c. induction fuel as [|fuel IH]; intros c Hw; [lia|]. cbn [receive_event].
  destruct (receive_frame_returns (S fuel) c Hw) as (c1 & r & -> & Hok).
  destruct r as [f|e]; [|by eexists _, _]. specialize (Hok eq_refl).
  assert (Hstep : forall c2, event_step io c1 f now = inl c2 -> (work c2 <= work c1)%nat).
  { intros c2. unfold event_step. destruct (LightPeer.handle_frame _ _ _) as [s [ev|]]; [|done].
    destruct ev; try done. destruct (send_frame io _ _) as [c3 [u|]] eqn:Es; [|done].
    pose proof (send_frame_budget _ _ _ _ Es) as Hb. apply send_frame_keeps in Es as (_ & _ & Ep).
    destruct (take_ready_after_response _) as [s' [[m|]|]]; try done. intros E. injection E as <-.
    unfold work. cbn in *. rewrite Ep. lia. }
  destruct (event_step io c1 f now) as [c2|[c2 r]]; [|by eexists _, _].
  apply IH. specialize (Hstep c2 eq_refl). lia.
Qed.
End budget.
End stream.
End session.

(** ** A small codec and transport

    Frames are a kind and an argument: 0 version, 1 verack, 6 headers; one byte a
    frame. *)
#[local] Instance toy_types : PeerTypes :=
  {| NetworkMagic := unit; Frame := list Z; WireError := unit; PacketType := unit; PeerHeader := unit;
     Inventory := unit; NetAddress := unit; RejectPacket := unit; Transaction := unit; ProofBody := unit;
     FilterBody := unit; OtherPacket := unit |}.
Definition toy_version (nonce : list Z) : VersionPacket :=
  {| v_version := 3; v_services := 1; v_time := 100; v_remote := tt; v_nonce := nonce; v_agent := [];
     v_height := 7; v_no_relay := false |}.
#[local] Instance toy_wire : PeerWire :=
  {| MIN_PROTOCOL_VERSION := 1; PROTOCOL_VERSION := 3; SERVICE_NETWORK := 1; SERVICE_BLOOM := 2;
     packet_type_of _ := tt; TypeUnknown _ := tt;
     frame_from_packet p := match p with PVersion _ => Ok [0] | PVerack => Ok [1] | _ => Ok [9] end;
     frame_new _ payload := Ok payload;
     frame_decode_packet f :=
       match f with
       | [0] => Ok (PVersion (toy_version (replicate 8 2))) | [1] => Ok PVerack
       | [6] => Ok (PHeaders []) | _ => Err tt
       end;
     frame_encode f _ := Ok f;
     FrameDecoder := unit; decoder_new _ := tt; decoder_push _ bytes := (tt, Ok (map (fun b => [b]) bytes));
     RemoteAddr := unit; from_socket_addr _ _ _ := tt; wallet_agent := [] |}.

Definition toy_config : PeerConfig := peer_config_for_network (tt : NetworkMagic).
Definition toy_session : PeerSession :=
  match session_start (IoKind := unit) toy_config (toy_version (replicate 8 1)) 100 with
  | Ok (s, _) => s
  | Err _ => {| ss_config := toy_config; ss_state := PeerClosed; ss_local_nonce := []; ss_handshake_deadline := 0;
                ss_peer_verack_received := false; ss_ready_after_response := false; ss_metadata := None;
                ss_pending_headers := None; ss_pending_proof := None; ss_pending_ping := None |}
  end.

(** A run that performs given operations. *)
Fixpoint run_ops (s : PeerSession) (ops : list peer_op) : list (peer_op * peer_out (IoKind := unit)) * PeerSession :=
  match ops with
  | [] => ([], s)
  | op :: ops =>
      let (s', out) := peer_step s op in
      let (tr, s'') := run_ops s' ops in ((op, out) :: tr, s'')
  end.
Lemma run_ops_run ops : forall s, peer_run s (fst (run_ops s ops)) (snd (run_ops s ops)).
Proof.
  induction ops as [|op ops IH]; intros s; cbn [run_ops]; [constructor|].
  pose proof (run_step (IoKind := unit) s [] s op (run_start s)) as Hr. destruct (peer_step s op) as [s' out].
  specialize (IH s'). destruct (run_ops s' ops) as [tr s'']. cbn in *.
  by apply (peer_run_app s [(op, out)] s' tr s'').
Qed.

(** The peer acknowledges before it sends its version, then answers a request. *)
Definition toy_ops : list peer_op :=
  [OpFrame [1] 101; OpFrame [0] 102; OpHeaders [replicate 32 0] (replicate 32 0) 105; OpFrame [6] 107].

Definition toy_hello : @Frame toy_types := [0].
Definition toy_answer : peer_op * peer_out (IoKind := unit) :=
  (OpFrame ([6] : @Frame toy_types) 107, OutEvent (Ok (EvHeaders []))).

Lemma responses_are_solicited_witness :
  exists tra y t trb, firstn 3 (fst (run_ops toy_session toy_ops)) = tra ++ y :: trb /\
    asked y = Some (AskHeaders, t) /\ 107 <= t + 15.
Proof.
  destruct (responses_are_solicited (IoKind := unit) toy_config (toy_version (replicate 8 1)) 100 toy_session toy_hello
    (firstn 3 (fst (run_ops toy_session toy_ops))) toy_answer []
    (snd (run_ops toy_session toy_ops)) AskHeaders 107) as (tra & y & t & trb & E & Ha & Hle & _).
  - reflexivity.
  - exact (run_ops_run toy_ops toy_session).
  - reflexivity.
  - exists tra, y, t, trb. split; [exact E|]. split; [exact Ha|exact Hle].
Defined.

Lemma ready_after_full_handshake_witness :
  exists m, ss_metadata (snd (run_ops toy_session (firstn 2 toy_ops))) = Some m /\
    Exists (accepted (IoKind := unit) toy_session m) (fst (run_ops toy_session (firstn 2 toy_ops))).
Proof.
  destruct (ready_after_full_handshake (IoKind := unit) toy_config (toy_version (replicate 8 1)) 100 toy_session toy_hello
    (fst (run_ops toy_session (firstn 2 toy_ops))) (snd (run_ops toy_session (firstn 2 toy_ops)))) as [Hr _].
  - reflexivity.
  - exact (run_ops_run (firstn 2 toy_ops) toy_session).
  - destruct Hr as (m & Hm & Ha & _); [reflexivity|]. exists m. split; [exact Hm|exact Ha].
Defined.

(** Reads to come, as a list; writes are dropped. *)
Definition toy_io : Transport (IoKind := unit) (T := list (list Z)) :=
  {| t_read t _ := match t with [] => ([], Err tt) | bytes :: t => (t, Ok bytes) end;
     t_write_all t _ := (t, Ok tt); t_flush t := (t, Ok tt) |}.
Definition toy_connection : PeerConnection :=
  {| cn_transport := [[1]; [0]]; cn_session := toy_session; cn_decoder := (tt : FrameDecoder); cn_pending := [] |}.

Lemma receive_event_exact_witness :
  exists c' m, complete_handshake toy_io 10 toy_connection [101; 102] = Some (c', Ok m) /\
    ready c' /\ ss_metadata (cn_session c') = Some m.
Proof.
  destruct (complete_handshake toy_io 10 toy_connection [101; 102]) as [[c' [m|e]]|] eqn:E;
    [|vm_compute in E; discriminate E..].
  exists c', m. split; [reflexivity|].
  exact (proj2 (receive_event_exact toy_io toy_connection eq_refl ltac:(discriminate)) 10%nat [101; 102] c' m E).
Defined.

Lemma receive_event_returns_witness :
  exists c' r, receive_event toy_io 2051 toy_connection 101 = Some (c', r).
Proof.
  apply (receive_event_returns toy_io length).
  - intros [|b t] n t' bytes E Hne; [discriminate E|]. injection E as <- _. apply Nat.lt_succ_diag_r.
  - intros t bytes. apply Nat.le_refl.
  - intros t. apply Nat.le_refl.
  - vm_compute. apply Nat.leb_le. reflexivity.
Defined.
