(* ===== verification/DaneDer.v ===== *)
(** * DER reader and certificate shape check

    Models the strict DER part of [src/crates/hns-dane/src/lib.rs]: the reader
    over tag-length-value elements, the validators of the parts of an X.509
    certificate, and the extraction of its SubjectPublicKeyInfo. The reader is
    the record [DerReader]; each operation returns the reader it leaves. The
    two loops are step functions with one more unit of fuel than the bytes they
    walk over. The reference grammar [certificate_with_spki] says which byte
    strings the check accepts. *)

From S2P Require Import Prelude DnsTypes.

(** ** Errors of the crate *)

Inductive DaneError :=
| MissingTlsa
| TooManyTlsaRecords
| CertificateLength
| MalformedCertificate
| SpkiLength
| UnsupportedUsage (value : Z)
| UnsupportedSelector (value : Z)
| UnsupportedMatchingType (value : Z)
| InvalidAssociationLength
| Mismatch
| ChainLength
| ChainValidation
| InvalidServerName.

Definition TAG_INTEGER : Z := 0x02.
Definition TAG_BIT_STRING : Z := 0x03.
Definition TAG_OBJECT_IDENTIFIER : Z := 0x06.
Definition TAG_SEQUENCE : Z := 0x30.
Definition TAG_UTC_TIME : Z := 0x17.
Definition TAG_GENERALIZED_TIME : Z := 0x18.
Definition TAG_ISSUER_UNIQUE_ID : Z := 0x81.
Definition TAG_SUBJECT_UNIQUE_ID : Z := 0x82.
Definition TAG_EXTENSIONS : Z := 0xa3.
Definition TAG_EXPLICIT_VERSION : Z := 0xa0.

(** ** Comparison without an early exit *)

Definition constant_time_eq (left right : list Z) : bool :=
  if negb (zlen left =? zlen right) then false else
  fold_left (fun difference '(l, r) => Z.lor difference (Z.lxor l r)) (zip left right) 0 =? 0.

(** ** The reader *)

Record Tlv := { tlv_tag : Z; tlv_full : list Z; tlv_value : list Z }.
Record DerReader := { dr_input : list Z; dr_cursor : Z }.

Definition der_new (input : list Z) : DerReader := {| dr_input := input; dr_cursor := 0 |}.
Definition der_is_empty (r : DerReader) : bool := dr_cursor r =? zlen (dr_input r).
Definition peek_tag (r : DerReader) : option Z := get (dr_input r) (dr_cursor r).

(** [usize::checked_mul]. *)
Definition checked_mul (a b : Z) : option Z :=
  if a * b <=? u64_max then Some (a * b) else None.

Definition length_octet (length : result DaneError Z) (byte : Z) : result DaneError Z :=
  let? length := length in
  ok_or (checked_mul length 256 ≫= fun value => checked_add value byte) MalformedCertificate.

(** The length of an element, from the cursor after its tag, with the cursor
    after the length. *)
Definition read_length (input : list Z) (cursor : Z) : result DaneError (Z * Z) :=
  let? first_length := ok_or (get input cursor) MalformedCertificate in
  let? cursor := ok_or (checked_add cursor 1) MalformedCertificate in
  if Z.land first_length 0x80 =? 0 then Ok (first_length, cursor) else
  let octets := Z.land first_length 0x7f in
  if (octets =? 0) || (4 <? octets) then Err MalformedCertificate else
  let? length_end := ok_or (checked_add cursor octets) MalformedCertificate in
  let? encoded := ok_or (get_range input cursor length_end) MalformedCertificate in
  if bool_decide (head encoded = Some 0) then Err MalformedCertificate else
  let? length := fold_left length_octet encoded (Ok 0) in
  if length <? 128 then Err MalformedCertificate else Ok (length, length_end).

Definition read_tlv (r : DerReader) : result DaneError (Tlv * DerReader) :=
  let start := dr_cursor r in
  let? tag := ok_or (get (dr_input r) start) MalformedCertificate in
  if Z.land tag 0x1f =? 0x1f then Err MalformedCertificate else
  let? cursor := ok_or (checked_add start 1) MalformedCertificate in
  let? (length, value_start) := read_length (dr_input r) cursor in
  let? stop := ok_or (checked_add value_start length) MalformedCertificate in
  let? value := ok_or (get_range (dr_input r) value_start stop) MalformedCertificate in
  let? full := ok_or (get_range (dr_input r) start stop) MalformedCertificate in
  Ok ({| tlv_tag := tag; tlv_full := full; tlv_value := value |},
      {| dr_input := dr_input r; dr_cursor := stop |}).

Definition read_expected (r : DerReader) (expected : Z) : result DaneError (Tlv * DerReader) :=
  let? (value, r) := read_tlv r in
  if negb (tlv_tag value =? expected) then Err MalformedCertificate else Ok (value, r).

(** ** Parts of a certificate *)

Definition validate_version (input : list Z) : result DaneError unit :=
  let? (version, reader) := read_expected (der_new input) TAG_INTEGER in
  if negb (der_is_empty reader) || negb (zlen (tlv_value version) =? 1)
     || match head (tlv_value version) with None => true | Some value => 2 <? value end
  then Err MalformedCertificate else Ok tt.

Definition validate_integer (input : list Z) : result DaneError unit :=
  if bool_decide (input = []) then Err MalformedCertificate else
  if 1 <? zlen input then
    let? first := ok_or (head input) MalformedCertificate in
    let? second := ok_or (get input 1) MalformedCertificate in
    if ((first =? 0) && (Z.land second 0x80 =? 0))
       || ((first =? 0xff) && negb (Z.land second 0x80 =? 0))
    then Err MalformedCertificate else Ok tt
  else Ok tt.

Definition validate_algorithm_identifier (input : list Z) : result DaneError unit :=
  let? (oid, reader) := read_expected (der_new input) TAG_OBJECT_IDENTIFIER in
  if bool_decide (tlv_value oid = []) then Err MalformedCertificate else
  let? reader := if negb (der_is_empty reader)
                 then let? (_, reader) := read_tlv reader in Ok reader else Ok reader in
  if negb (der_is_empty reader) then Err MalformedCertificate else Ok tt.

Definition validate_bit_string (input : list Z) : result DaneError unit :=
  let? unused_bits := ok_or (head input) MalformedCertificate in
  if (7 <? unused_bits) || (zlen input <? 2) then Err MalformedCertificate else
  if negb (unused_bits =? 0) then
    let? final := ok_or (last input) MalformedCertificate in
    let mask := Z.shiftl 1 unused_bits - 1 in
    if negb (Z.land final mask =? 0) then Err MalformedCertificate else Ok tt
  else Ok tt.

Definition name_step (reader : DerReader) : result DaneError (DerReader + unit) :=
  if der_is_empty reader then Ok (inr tt) else
  let? (_, reader) := read_tlv reader in Ok (inl reader).

Definition validate_name (input : list Z) : result DaneError unit :=
  match loop (S (length input)) name_step (der_new input) with
  | Some r => r
  | None => Err MalformedCertificate
  end.

(** One of the two times of [validate_validity]. *)
Definition validity_time (reader : DerReader) : result DaneError DerReader :=
  let? (time, reader) := read_tlv reader in
  if negb ((tlv_tag time =? TAG_UTC_TIME) || (tlv_tag time =? TAG_GENERALIZED_TIME))
     || bool_decide (tlv_value time = []) then Err MalformedCertificate else Ok reader.

Definition validate_validity (input : list Z) : result DaneError unit :=
  let? reader := validity_time (der_new input) in
  let? reader := validity_time reader in
  if negb (der_is_empty reader) then Err MalformedCertificate else Ok tt.

Definition validate_spki (input : list Z) : result DaneError unit :=
  let? (algorithm, reader) := read_expected (der_new input) TAG_SEQUENCE in
  let? _ := validate_algorithm_identifier (tlv_value algorithm) in
  let? (key, reader) := read_expected reader TAG_BIT_STRING in
  let? _ := validate_bit_string (tlv_value key) in
  if negb (der_is_empty reader) then Err MalformedCertificate else Ok tt.

Definition tbs_tail_step (st : DerReader * Z) : result DaneError (DerReader * Z + unit) :=
  let '(reader, last_tag) := st in
  if der_is_empty reader then Ok (inr tt) else
  let? (field, reader) := read_tlv reader in
  if negb ((tlv_tag field =? TAG_ISSUER_UNIQUE_ID) || (tlv_tag field =? TAG_SUBJECT_UNIQUE_ID)
           || (tlv_tag field =? TAG_EXTENSIONS)) || (tlv_tag field <=? last_tag)
  then Err MalformedCertificate else Ok (inl (reader, tlv_tag field)).

Definition validate_tbs_tail (reader : DerReader) : result DaneError unit :=
  match loop (S (length (dr_input reader))) tbs_tail_step (reader, 0) with
  | Some r => r
  | None => Err MalformedCertificate
  end.

(** The fields of the signed part up to its end; the whole SPKI element. *)
Definition tbs_fields (tbs : list Z) (outer_algorithm : list Z) : result DaneError (list Z) :=
  let fields := der_new tbs in
  let? fields :=
    if bool_decide (peek_tag fields = Some TAG_EXPLICIT_VERSION) then
      let? (version, fields) := read_expected fields TAG_EXPLICIT_VERSION in
      let? _ := validate_version (tlv_value version) in Ok fields
    else Ok fields in
  let? (serial, fields) := read_expected fields TAG_INTEGER in
  let? _ := validate_integer (tlv_value serial) in
  let? (tbs_algorithm, fields) := read_expected fields TAG_SEQUENCE in
  let? _ := validate_algorithm_identifier (tlv_value tbs_algorithm) in
  if negb (constant_time_eq (tlv_full tbs_algorithm) outer_algorithm)
  then Err MalformedCertificate else
  let? (issuer, fields) := read_expected fields TAG_SEQUENCE in
  let? _ := validate_name (tlv_value issuer) in
  let? (validity, fields) := read_expected fields TAG_SEQUENCE in
  let? _ := validate_validity (tlv_value validity) in
  let? (subject, fields) := read_expected fields TAG_SEQUENCE in
  let? _ := validate_name (tlv_value subject) in
  let? (spki, fields) := read_expected fields TAG_SEQUENCE in
  let? _ := validate_spki (tlv_value spki) in
  let? _ := validate_tbs_tail fields in
  Ok (tlv_full spki).

Definition extract_subject_public_key_info (certificate_der : list Z) : result DaneError (list Z) :=
  let? (certificate, document) := read_expected (der_new certificate_der) TAG_SEQUENCE in
  if negb (der_is_empty document) then Err MalformedCertificate else
  let? (tbs, fields) := read_expected (der_new (tlv_value certificate)) TAG_SEQUENCE in
  let? (outer_algorithm, fields) := read_expected fields TAG_SEQUENCE in
  let? _ := validate_algorithm_identifier (tlv_value outer_algorithm) in
  let? (signature, fields) := read_expected fields TAG_BIT_STRING in
  let? _ := validate_bit_string (tlv_value signature) in
  if negb (der_is_empty fields) then Err MalformedCertificate else
  tbs_fields (tlv_value tbs) (tlv_full outer_algorithm).

(** ** The reference grammar

    [der tag v] is the canonical DER element: definite lengths of at most
    four bytes, in the shortest form, and a one-byte tag. *)

Fixpoint be_bytes (fuel : nat) (n : Z) : list Z :=
  match fuel with
  | O => []
  | S fuel => if n =? 0 then [] else be_bytes fuel (n / 256) ++ [n mod 256]
  end.

Definition der_length (n : Z) : list Z :=
  if n <? 128 then [n] else let octets := be_bytes 4 n in Z.lor 0x80 (zlen octets) :: octets.

Definition der (tag : Z) (v : list Z) : list Z := tag :: der_length (zlen v) ++ v.

Definition der_fits (tag : Z) (v : list Z) : Prop := Z.land tag 0x1f <> 0x1f /\ zlen v <= u32_max.

(** A sequence of elements. *)
Definition der_items (items : list (Z * list Z)) : list Z := concat (map (uncurry der) items).
Definition items_fit (items : list (Z * list Z)) : Prop := Forall (uncurry der_fits) items.

Definition algorithm_identifier (v : list Z) : Prop :=
  exists oid parameters, v = der TAG_OBJECT_IDENTIFIER oid ++ der_items parameters /\
    oid <> [] /\ der_fits TAG_OBJECT_IDENTIFIER oid /\ items_fit parameters /\ (length parameters <= 1)%nat.

Definition bit_string (v : list Z) : Prop :=
  exists unused bytes, v = unused :: bytes /\ bytes <> [] /\ unused <= 7 /\
    forall final, last bytes = Some final -> final mod 2 ^ unused = 0.

(** A two's complement integer in the shortest form. *)
Definition shortest_integer (v : list Z) : Prop :=
  match v with
  | [] => False
  | [_] => True
  | first :: second :: _ => ~ (first = 0 /\ second < 128) /\ ~ (first = 255 /\ 128 <= second)
  end.

Definition name_items (v : list Z) : Prop := exists items, v = der_items items /\ items_fit items.

Definition time_item (item : Z * list Z) : Prop :=
  (item.1 = TAG_UTC_TIME \/ item.1 = TAG_GENERALIZED_TIME) /\ item.2 <> [].

Definition validity_items (v : list Z) : Prop :=
  exists a b, v = der_items [a; b] /\ items_fit [a; b] /\ time_item a /\ time_item b.

Definition spki_items (v : list Z) : Prop :=
  exists algorithm key, v = der_items [(TAG_SEQUENCE, algorithm); (TAG_BIT_STRING, key)] /\
    items_fit [(TAG_SEQUENCE, algorithm); (TAG_BIT_STRING, key)] /\
    algorithm_identifier algorithm /\ bit_string key.

(** Absent, or one of the versions 1 to 3. *)
Definition version_items (items : list (Z * list Z)) : Prop :=
  items = [] \/ exists n, 0 <= n <= 2 /\ items = [(TAG_EXPLICIT_VERSION, der TAG_INTEGER [n])].

Definition tail_tags : list Z := [TAG_ISSUER_UNIQUE_ID; TAG_SUBJECT_UNIQUE_ID; TAG_EXTENSIONS].

(** The certificates accepted, with the SPKI element taken from them. *)
Definition certificate_with_spki (certificate spki : list Z) : Prop :=
  exists version serial algorithm issuer validity subject key tail signature,
  let tbs_items := version ++ [(TAG_INTEGER, serial); (TAG_SEQUENCE, algorithm); (TAG_SEQUENCE, issuer);
    (TAG_SEQUENCE, validity); (TAG_SEQUENCE, subject); (TAG_SEQUENCE, key)] ++ tail in
  let items := [(TAG_SEQUENCE, der_items tbs_items); (TAG_SEQUENCE, algorithm); (TAG_BIT_STRING, signature)] in
  certificate = der TAG_SEQUENCE (der_items items) /\ der_fits TAG_SEQUENCE (der_items items) /\
  spki = der TAG_SEQUENCE key /\ items_fit items /\ items_fit tbs_items /\
  version_items version /\ shortest_integer serial /\ algorithm_identifier algorithm /\
  name_items issuer /\ validity_items validity /\ name_items subject /\ spki_items key /\
  map fst tail `sublist_of` tail_tags /\ bit_string signature.
