(* ===== verification/DaneDerProps.v ===== *)
(** * The DER reader reads exactly the canonical elements

    Correctness of [DaneDer]: the reader accepts exactly the canonical
    tag-length-value elements, its loops have enough fuel, each validator decides
    its part of the grammar, and the SPKI extraction decides
    [certificate_with_spki]. *)

From S2P Require Import Prelude DnsTypes DaneDer.

Arguments der : simpl never.
Arguments Z.land : simpl never.
Arguments Z.lor : simpl never.

(** ** Comparison *)

Lemma xor_fold_zero l acc :
  fold_left (fun d '(a, b) => Z.lor d (Z.lxor a b)) l acc = 0 <->
  acc = 0 /\ Forall (fun '(a, b) => a = b) l.
Proof.
  revert acc. induction l as [|[a b] l IH]; intros acc; simpl.
  - split; [by intros ->|by intros [-> _]].
  - rewrite IH, Forall_cons, Z.lor_eq_0_iff, Z.lxor_eq_0_iff. naive_solver.
Qed.

Lemma zip_equal {A} (l r : list A) :
  length l = length r -> Forall (fun '(a, b) => a = b) (zip l r) <-> l = r.
Proof.
  revert r. induction l as [|a l IH]; intros [|b r] Hl; try done; simpl in *.
  rewrite Forall_cons, IH by lia. split; [by intros [-> ->]|by intros [= -> ->]].
Qed.

(** The comparison without early exit is equality of byte strings. *)
Lemma constant_time_eq_true l r : constant_time_eq l r = true <-> l = r.
Proof.
  unfold constant_time_eq. destruct (zlen l =? zlen r) eqn:E; breflect.
  - simpl. rewrite Z.eqb_eq, xor_fold_zero, zip_equal by (unfold zlen in E; lia). naive_solver.
  - split; [done|]. by intros ->.
Qed.

Lemma constant_time_eq_decide l r : constant_time_eq l r = bool_decide (l = r).
Proof. apply Bool.eq_iff_eq_true. by rewrite constant_time_eq_true, bool_decide_eq_true. Qed.

(** ** Lengths *)

(** A boolean fact of every byte, by evaluation. *)
Lemma byte_forall (P : Z -> bool) b :
  forallb P (map Z.of_nat (seq 0 256)) = true -> in_u8 b -> P b = true.
Proof.
  intros HP Hb. rewrite forallb_forall in HP. apply HP. apply in_map_iff. exists (Z.to_nat b).
  split; [width_lia|]. apply in_seq. width_lia.
Qed.

Lemma length_bit b : in_u8 b -> Z.land b 0x80 = 0 <-> b < 128.
Proof.
  intros Hb. pose proof (byte_forall (fun b => eqb (Z.land b 0x80 =? 0) (b <? 128)) b eq_refl Hb) as H.
  apply eqb_prop in H. rewrite <- Z.eqb_eq, H. apply Z.ltb_lt.
Qed.

Lemma length_octets b : in_u8 b -> 128 <= b -> b = Z.lor 0x80 (Z.land b 0x7f) /\ 0 <= Z.land b 0x7f < 128.
Proof.
  intros Hb Hge.
  pose proof (byte_forall (fun b => (b <? 128) || ((b =? Z.lor 0x80 (Z.land b 0x7f))
    && ((0 <=? Z.land b 0x7f) && (Z.land b 0x7f <? 128)))) b eq_refl Hb) as H.
  cbv beta in H. rewrite (proj2 (Z.ltb_ge b 128) Hge), orb_false_l in H. breflect. by split; [|lia].
Qed.

Lemma octets_length n : 0 <= n <= 4 ->
  in_u8 (Z.lor 0x80 n) /\ Z.land (Z.lor 0x80 n) 0x80 <> 0 /\ Z.land (Z.lor 0x80 n) 0x7f = n.
Proof.
  intros Hn. assert (n = 0 \/ n = 1 \/ n = 2 \/ n = 3 \/ n = 4) as H by lia.
  width. destruct_or!; subst; vm_compute; split_and!; try done; intros [=].
Qed.

Lemma from_be_pos l : bytes_ok l -> l <> [] -> head l <> Some 0 -> 0 < from_be l.
Proof.
  destruct l as [|b l]; [done|]. intros Hl _ Hh. inversion Hl as [|? ? Hb Hl']; subst.
  rewrite from_be_cons. pose proof (from_be_bound l Hl'). simpl in Hh. assert (b <> 0) by congruence.
  assert (0 < 256 ^ zlen l) by (apply Z.pow_pos_nonneg; [lia|apply zlen_nonneg]). width. nia.
Qed.

(** The shortest big-endian form is unique. *)
Lemma be_bytes_from_be fuel l :
  bytes_ok l -> head l <> Some 0 -> (length l <= fuel)%nat -> be_bytes fuel (from_be l) = l.
Proof.
  revert l. induction fuel as [|fuel IH]; intros l Hl Hh Hlen.
  - destruct l; [done|simpl in Hlen; lia].
  - destruct (decide (l = [])) as [->|Hne]; [done|]. simpl.
    rewrite (proj2 (Z.eqb_neq _ _)) by (pose proof (from_be_pos l Hl Hne Hh); lia).
    destruct l as [|b l _] using rev_ind; [done|].
    apply Forall_app in Hl as [Hl Hb]. rewrite Forall_singleton in Hb. rewrite from_be_snoc.
    assert (0 <= b < 256) by width_lia.
    rewrite Z.div_add_l, (Z.div_small b), Z.add_0_r, Z.add_comm, Z.mod_add, (Z.mod_small b) by lia.
    f_equal. apply IH; [done| |rewrite length_app in Hlen; simpl in Hlen; lia].
    by destruct l.
Qed.

Lemma be_bytes_spec fuel n : 0 <= n < 256 ^ Z.of_nat fuel ->
  from_be (be_bytes fuel n) = n /\ bytes_ok (be_bytes fuel n) /\
  head (be_bytes fuel n) <> Some 0 /\ (length (be_bytes fuel n) <= fuel)%nat.
Proof.
  revert n. induction fuel as [|fuel IH]; intros n Hn; simpl.
  - simpl in Hn. split_and!; [change (from_be []) with 0; lia|constructor|done|lia].
  - destruct (n =? 0) eqn:E; breflect; [subst; split_and!; [done|constructor|done|simpl; lia]|].
    rewrite Nat2Z.inj_succ, Z.pow_succ_r in Hn by lia.
    destruct (IH (n / 256)) as (H1 & H2 & H3 & H4).
    { split; [apply Z.div_pos; lia|apply Z.div_lt_upper_bound; lia]. }
    pose proof (Z.mod_pos_bound n 256). split_and!.
    + rewrite from_be_snoc, H1. pose proof (Z.div_mod n 256). lia.
    + apply Forall_app. split; [done|]. constructor; [width_lia|constructor].
    + destruct (be_bytes fuel (n / 256)) as [|b l] eqn:Eb; [|done].
      simpl. change (from_be []) with 0 in H1. pose proof (Z.div_mod n 256). intros [= E0]. lia.
    + rewrite length_app. simpl. lia.
Qed.

Lemma be_bytes_ne n : 0 < n -> be_bytes 4 n <> [].
Proof. intros. simpl. rewrite (proj2 (Z.eqb_neq n 0)) by lia. by intros [_ ?]%app_nil. Qed.

(** The checked accumulation of at most four octets never overflows. *)
Lemma length_octet_fold l a :
  bytes_ok l -> 0 <= a -> (a + 1) * 256 ^ zlen l <= u64_max ->
  fold_left length_octet l (Ok a) = Ok (fold_left (fun a b => a * 256 + b) l a).
Proof.
  intros Hl. revert a. induction Hl as [|b l Hb Hl IH]; intros a Ha Hm; [done|].
  rewrite zlen_cons, Z.pow_add_r in Hm by (pose proof (zlen_nonneg l); lia).
  assert (1 <= 256 ^ zlen l) by (pose proof (Z.pow_pos_nonneg 256 (zlen l)); pose proof (zlen_nonneg l); lia).
  assert (a * 256 + b < (a + 1) * 256) by (width; lia).
  assert ((a + 1) * 256 <= u64_max) by nia.
  simpl. unfold checked_mul. zdecide. simpl. rewrite checked_add_small by (width; lia). simpl.
  apply IH; [width; nia|]. width. nia.
Qed.

#[export] Instance der_pos_reader : PosReader DerReader := {| reader_input := dr_input; reader_pos := dr_cursor |}.

Lemma zlen_der_length n : 1 <= zlen (der_length n).
Proof.
  unfold der_length. case_match; rewrite zlen_cons; [by rewrite zlen_nil|].
  pose proof (zlen_nonneg (be_bytes 4 n)). lia.
Qed.

(** The canonical length of a value is read back. *)
Lemma read_length_der pre n post :
  0 <= n <= u32_max -> zlen (pre ++ der_length n ++ post) <= u64_max ->
  read_length (pre ++ der_length n ++ post) (zlen pre) = Ok (n, zlen pre + zlen (der_length n)).
Proof.
  intros Hn Hlen. pose proof (zlen_nonneg pre) as Hp. pose proof (zlen_nonneg post) as Hq.
  rewrite !zlen_app in Hlen. pose proof (zlen_der_length n) as Hd. unfold read_length, der_length in *.
  destruct (n <? 128) eqn:E; breflect.
  - simpl app. rewrite get_app_mid. simpl. rewrite checked_add_small by lia. simpl.
    rewrite (proj2 (length_bit n ltac:(width_lia)) E). done.
  - set (octets := be_bytes 4 n) in *.
    destruct (be_bytes_spec 4 n) as (Hv & Hb & Hh & Hl); [width; simpl; lia|]. fold octets in Hv, Hb, Hh, Hl.
    assert (1 <= zlen octets <= 4) as Hk by (pose proof (be_bytes_ne n ltac:(lia));
      pose proof (zlen_pos octets); unfold zlen in *; split; [auto|lia]).
    destruct (octets_length (zlen octets) ltac:(lia)) as (_ & Ho1 & Ho2).
    rewrite zlen_cons in Hlen |- *. simpl app. rewrite get_app_mid. cbn [ok_or].
    rewrite checked_add_small by lia. cbn [ok_or]. rewrite (proj2 (Z.eqb_neq _ _) Ho1), Ho2. zdecide.
    cbn [orb ok_or].
    rewrite (get_range_at (pre ++ [Z.lor 0x80 (zlen octets)]) octets post)
      by (rewrite <- ?app_assoc, ?zlen_app, ?zlen_cons, ?zlen_nil; done || lia).
    cbn [ok_or]. rewrite bool_decide_eq_false_2 by done.
    rewrite length_octet_fold; [|done|lia|].
    2:{ assert (256 ^ zlen octets <= 256 ^ 4) by (apply Z.pow_le_mono_r; lia). width. lia. }
    fold (from_be octets). rewrite Hv. zdecide. do 2 f_equal. lia.
Qed.

Lemma read_length_inv pre rest n c :
  bytes_ok rest -> read_length (pre ++ rest) (zlen pre) = Ok (n, c) ->
  exists post, rest = der_length n ++ post /\ 0 <= n <= u32_max /\ c = zlen pre + zlen (der_length n).
Proof.
  intros Hb H. unfold read_length in H.
  destruct (get _ (zlen pre)) as [first|] eqn:Eg; [|done]. cbn [ok_or] in H.
  destruct (get_app_head _ _ _ Eg) as [tl ->]. inversion Hb as [|? ? Hf Ht]; subst.
  destruct (checked_add (zlen pre) 1) as [c1|] eqn:Ec; [|done]. cbn [ok_or] in H.
  apply checked_add_Some in Ec as [-> _]. destruct (Z.land first 128 =? 0) eqn:E; breflect.
  - injection H as <- <-. apply length_bit in E; [|done]. exists tl. unfold der_length.
    zdecide. split_and!; [done|width_lia|width_lia|by rewrite zlen_cons, zlen_nil].
  - destruct (length_octets first Hf) as [Hfirst Hr].
    { destruct (decide (first < 128)) as [Hlt|]; [|lia]. by apply length_bit in Hlt. }
    set (k := Z.land first 127) in *. destruct ((k =? 0) || (4 <? k)) eqn:Ek; [done|]. breflect.
    destruct (checked_add _ k) as [stop|] eqn:Es; [|done]. cbn [ok_or] in H.
    apply checked_add_Some in Es as [-> _].
    destruct (get_range _ _ _) as [octets|] eqn:Er; [|done]. cbn [ok_or] in H.
    pose proof (get_range_Some _ _ _ _ Er) as (_ & Hle & Hk). rewrite zlen_app, zlen_cons in Hle.
    destruct (cut_at tl k ltac:(lia)) as (o' & post & -> & Hk').
    rewrite (get_range_at (pre ++ [first]) o' post) in Er
      by (rewrite <- ?app_assoc, ?zlen_app, ?zlen_cons, ?zlen_nil; done || lia).
    injection Er as <-. apply Forall_app in Ht as [Ho _].
    destruct (bool_decide _) eqn:Eh; [done|]. breflect.
    assert (256 ^ zlen o' <= 256 ^ 4) by (apply Z.pow_le_mono_r; lia).
    rewrite length_octet_fold in H by (done || width; lia). fold (from_be o') in H.
    pose proof (from_be_bound o' Ho).
    destruct (from_be o' <? 128) eqn:Ev; [done|]. breflect. injection H as <- <-.
    exists post. unfold der_length. zdecide.
    rewrite be_bytes_from_be by (done || unfold zlen in *; lia).
    rewrite Hk'. rewrite <- Hfirst. split_and!; [done|lia|width; lia|rewrite zlen_cons; lia].
Qed.

(** ** Elements *)

(** A byte string a slice can hold. *)
Definition slice_ok (l : list Z) : Prop := bytes_ok l /\ zlen l <= u64_max.

Lemma slice_ok_app l k : slice_ok (l ++ k) -> slice_ok l /\ slice_ok k.
Proof.
  unfold slice_ok. rewrite zlen_app. pose proof (zlen_nonneg l). pose proof (zlen_nonneg k).
  intros [[? ?]%Forall_app ?]. split; (split; [done|lia]).
Qed.

Lemma slice_ok_cons b l : slice_ok (b :: l) -> in_u8 b /\ slice_ok l.
Proof.
  unfold slice_ok. rewrite zlen_cons. intros [Hf ?]. inversion Hf; subst. split_and!; [done|done|lia].
Qed.

Lemma slice_ok_der tag v post : slice_ok (der tag v ++ post) -> slice_ok v /\ slice_ok post.
Proof.
  intros [[_ [_ H]%slice_ok_app]%slice_ok_cons Hp]%slice_ok_app. by split.
Qed.

(** The reader with [pre] read and [rest] left. *)
Definition rd (pre rest : list Z) : DerReader := {| dr_input := pre ++ rest; dr_cursor := zlen pre |}.
Definition tlv (tag : Z) (v : list Z) : Tlv := {| tlv_tag := tag; tlv_full := der tag v; tlv_value := v |}.

Lemma rd_new input : der_new input = rd [] input.
Proof. done. Qed.

Lemma rd_empty pre rest : der_is_empty (rd pre rest) = bool_decide (rest = []).
Proof.
  unfold der_is_empty, rd. cbn. rewrite zlen_app. apply Bool.eq_iff_eq_true.
  rewrite Z.eqb_eq, bool_decide_eq_true. split; [intros; apply zlen_0; lia|intros ->; rewrite zlen_nil; lia].
Qed.

Lemma rd_peek pre rest : peek_tag (rd pre rest) = head rest.
Proof.
  unfold peek_tag, rd. cbn. destruct rest as [|b rest]; [|apply get_app_mid].
  rewrite app_nil_r. destruct (get pre (zlen pre)) eqn:E; [|done].
  apply get_Some_range in E. lia.
Qed.

Lemma zlen_der tag v : zlen (der tag v) = 1 + zlen (der_length (zlen v)) + zlen v.
Proof. unfold der. rewrite zlen_cons, zlen_app. lia. Qed.

Lemma der_nonempty tag v : der tag v <> [].
Proof. done. Qed.

Lemma read_tlv_der tag v pre post :
  der_fits tag v -> zlen (pre ++ der tag v ++ post) <= u64_max ->
  read_tlv (rd pre (der tag v ++ post)) = Ok (tlv tag v, rd (pre ++ der tag v) post).
Proof.
  intros [Ht Hv] Hlen. unfold read_tlv, rd. cbn [dr_input dr_cursor].
  rewrite !zlen_app, zlen_der in Hlen. pose proof (zlen_der_length (zlen v)).
  pose proof (zlen_nonneg pre). pose proof (zlen_nonneg post). pose proof (zlen_nonneg v).
  assert (get (pre ++ der tag v ++ post) (zlen pre) = Some tag) as -> by apply get_app_mid.
  cbn [ok_or]. rewrite (proj2 (Z.eqb_neq _ _) Ht).
  rewrite checked_add_small by lia. cbn [ok_or].
  assert (pre ++ der tag v ++ post = (pre ++ [tag]) ++ der_length (zlen v) ++ v ++ post) as Ea
    by (unfold der; simpl; by rewrite <- !app_assoc).
  rewrite Ea. replace (zlen pre + 1) with (zlen (pre ++ [tag])) by (rewrite zlen_app; done).
  rewrite read_length_der; [|width_lia|rewrite <- Ea, !zlen_app, zlen_der; lia]. cbn [ok_or].
  rewrite checked_add_small by (rewrite zlen_app, zlen_cons, zlen_nil; lia). cbn [ok_or].
  rewrite (get_range_at ((pre ++ [tag]) ++ der_length (zlen v)) v post)
    by (rewrite <- ?app_assoc, ?zlen_app; done || lia). cbn [ok_or].
  rewrite <- Ea, (get_range_at pre (der tag v) post)
    by (rewrite ?zlen_der, ?zlen_app, ?zlen_cons, ?zlen_nil; done || lia). cbn [ok_or].
  unfold tlv. do 3 f_equal; [by rewrite app_assoc|].
  rewrite !zlen_app, zlen_der, zlen_cons, zlen_nil. lia.
Qed.

Lemma read_tlv_inv pre rest t r :
  bytes_ok rest -> read_tlv (rd pre rest) = Ok (t, r) ->
  exists tag v post, rest = der tag v ++ post /\ der_fits tag v /\ t = tlv tag v /\
    r = rd (pre ++ der tag v) post.
Proof.
  intros Hb H. unfold read_tlv, rd in H. cbn [dr_input dr_cursor] in H.
  destruct (get _ (zlen pre)) as [tag|] eqn:Eg; [|done]. cbn [ok_or] in H.
  destruct (get_app_head _ _ _ Eg) as [tl ->]. inversion Hb as [|? ? Hf Ht]; subst.
  destruct (_ =? 31) eqn:E31; [done|]. breflect.
  destruct (checked_add _ 1) as [c|] eqn:Ec; [|done]. cbn [ok_or] in H.
  apply checked_add_Some in Ec as [-> _].
  assert (pre ++ tag :: tl = (pre ++ [tag]) ++ tl) as Ea by by rewrite <- app_assoc.
  rewrite Ea in H. replace (zlen pre + 1) with (zlen (pre ++ [tag])) in H by (rewrite zlen_app; done).
  destruct (read_length _ _) as [[n vs]|] eqn:El; [|done].
  apply read_length_inv in El as (post & -> & Hn & ->); [|done].
  destruct (checked_add _ n) as [stop|] eqn:Es; [|done]. cbn [ok_or] in H.
  apply checked_add_Some in Es as [-> _].
  destruct (get_range _ _ _) as [v|] eqn:Ev; [|done]. cbn [ok_or] in H.
  pose proof (get_range_Some _ _ _ _ Ev) as (_ & Hle & Hk). rewrite !zlen_app in Hle.
  destruct (cut_at post n ltac:(lia)) as (v' & post' & -> & Hv').
  rewrite (get_range_at ((pre ++ [tag]) ++ der_length n) v' post') in Ev
    by (rewrite <- ?app_assoc, ?zlen_app; done || lia). injection Ev as <-.
  assert (tag :: der_length n ++ v' ++ post' = der tag v' ++ post') as Ed
    by (unfold der; rewrite Hv'; simpl; by rewrite <- app_assoc).
  exists tag, v', post'. split; [done|]. rewrite <- Ea, Ed in H.
  rewrite (get_range_at pre (der tag v') post') in H
    by (rewrite ?zlen_der, ?Hv', ?zlen_app, ?zlen_cons, ?zlen_nil; done || lia). cbn [ok_or] in H.
  injection H as <- <-. split_and!; [split; [done|width_lia]|done|].
  unfold rd. rewrite <- (app_assoc pre). f_equal. rewrite !zlen_app, zlen_der, zlen_cons, zlen_nil, Hv'. lia.
Qed.

(** One read, at any position: a canonical element is there and is returned, or
    none is there and the certificate is refused. *)
Lemma read_tlv_cases pre rest :
  slice_ok (pre ++ rest) ->
  (exists tag v post, rest = der tag v ++ post /\ der_fits tag v /\
    read_tlv (rd pre rest) = Ok (tlv tag v, rd (pre ++ der tag v) post)) \/
  (exists e, read_tlv (rd pre rest) = Err e) /\ forall tag v post, rest = der tag v ++ post -> ~ der_fits tag v.
Proof.
  intros [Hb Hlen]. destruct (read_tlv (rd pre rest)) as [[t r]|e] eqn:E.
  - left. apply Forall_app in Hb as [_ Hb].
    destruct (read_tlv_inv _ _ _ _ Hb E) as (tag & v & post & -> & Hf & -> & ->). eauto 10.
  - right. split; [by exists e|]. intros tag v post -> Hf. by rewrite read_tlv_der in E.
Qed.

Lemma tlv_iff {A} pre rest (k : Tlv -> DerReader -> result DaneError A) (a : A) :
  slice_ok (pre ++ rest) ->
  (let? (t, r) := read_tlv (rd pre rest) in k t r) = Ok a <->
  exists tag v post, rest = der tag v ++ post /\ der_fits tag v /\
    k (tlv tag v) (rd (pre ++ der tag v) post) = Ok a.
Proof.
  intros Hok. split.
  - destruct (read_tlv_cases _ _ Hok) as [(tag & v & post & -> & Hf & ->)|[[e ->] _]]; [|done]. eauto 10.
  - intros (tag & v & post & -> & Hf & Hk). rewrite read_tlv_der; [done|done|apply Hok].
Qed.

Lemma expect_iff {A} pre rest tag (k : Tlv -> DerReader -> result DaneError A) (a : A) :
  slice_ok (pre ++ rest) ->
  (let? (t, r) := read_expected (rd pre rest) tag in k t r) = Ok a <->
  exists v post, rest = der tag v ++ post /\ der_fits tag v /\
    k (tlv tag v) (rd (pre ++ der tag v) post) = Ok a.
Proof.
  intros Hok. unfold read_expected. split.
  - destruct (read_tlv_cases _ _ Hok) as [(t & v & post & -> & Hf & ->)|[[e ->] _]]; [|done].
    cbn. destruct (t =? tag) eqn:E; breflect; [subst|done]. cbn. eauto 10.
  - intros (v & post & -> & Hf & Hk). rewrite read_tlv_der; [|done|apply Hok]. cbn. by rewrite Z.eqb_refl.
Qed.

Lemma der_inj tag v post tag' v' post' :
  slice_ok (der tag v ++ post) -> der_fits tag v -> der_fits tag' v' ->
  der tag v ++ post = der tag' v' ++ post' -> tag = tag' /\ v = v' /\ post = post'.
Proof.
  intros [_ Hl] Hf Hf' E. pose proof (read_tlv_der tag v [] post Hf Hl) as H1.
  assert (zlen ([] ++ der tag' v' ++ post') <= u64_max) as Hl' by by rewrite <- E.
  pose proof (read_tlv_der tag' v' [] post' Hf' Hl') as H2. rewrite E, H2 in H1.
  apply Ok_inj in H1. injection H1 as H1 H3 H4 H5 H6. subst.
  split_and!; [done|done|]. by apply app_inv_head in E.
Qed.

Lemma der_items_cons tag v items : der_items ((tag, v) :: items) = der tag v ++ der_items items.
Proof. done. Qed.

Lemma der_items_nil : der_items [] = [].
Proof. done. Qed.

Lemma der_items_app a b : der_items (a ++ b) = der_items a ++ der_items b.
Proof. unfold der_items. by rewrite map_app, concat_app. Qed.

Lemma der_items_empty items : der_items items = [] -> items = [].
Proof. by destruct items as [|[tag v] items]. Qed.

Lemma length_der_lt tag v (post : list Z) : (length post < length (der tag v ++ post))%nat.
Proof. unfold der. simpl. rewrite !length_app. lia. Qed.

(** ** Loops over elements *)

(** A loop over the elements left, with a state of its own: with more fuel than
    bytes it returns, and it succeeds exactly on element sequences along which
    its state advances. *)
Section items_loop.
Context {St : Type} (reader_of : St -> DerReader) (step : St -> result DaneError (St + unit)).
Context (good : St -> Prop) (next : St -> Z -> list Z -> option St).

Fixpoint items_run (s : St) (items : list (Z * list Z)) : Prop :=
  match items with
  | [] => True
  | (tag, v) :: items => der_fits tag v /\ exists s', next s tag v = Some s' /\ items_run s' items
  end.

Hypothesis step_end : forall s, good s -> dr_cursor (reader_of s) = zlen (dr_input (reader_of s)) ->
  step s = Ok (inr tt).
Hypothesis step_item : forall s pre tag v post,
  good s -> reader_of s = rd pre (der tag v ++ post) -> der_fits tag v ->
  slice_ok (pre ++ der tag v ++ post) ->
  match next s tag v with
  | Some s' => step s = Ok (inl s') /\ good s' /\ reader_of s' = rd (pre ++ der tag v) post
  | None => exists e, step s = Err e
  end.
Hypothesis step_bad : forall s pre rest,
  good s -> reader_of s = rd pre rest -> rest <> [] -> slice_ok (pre ++ rest) ->
  (forall tag v post, rest = der tag v ++ post -> ~ der_fits tag v) -> exists e, step s = Err e.

Lemma items_loop fuel s pre rest :
  good s -> reader_of s = rd pre rest -> slice_ok (pre ++ rest) -> (length rest < fuel)%nat ->
  exists r, loop fuel step s = Some r /\
    (r = Ok tt <-> exists items, rest = der_items items /\ items_run s items).
Proof.
  revert s pre rest. induction fuel as [|fuel IH]; intros s pre rest Hg Hr Hok Hfuel; [lia|].
  cbn [loop]. destruct (decide (rest = [])) as [->|Hne].
  { rewrite step_end by (done || rewrite Hr; unfold rd; cbn; by rewrite app_nil_r).
    exists (Ok tt). split; [done|]. split; [|done]. intros _. by exists []. }
  destruct (read_tlv_cases _ _ Hok) as [(tag & v & post & -> & Hf & _)|[_ Hno]].
  - pose proof (step_item s pre tag v post Hg Hr Hf Hok) as Hs. pose proof (length_der_lt tag v post).
    assert (forall items, der tag v ++ post = der_items items -> items_run s items ->
      exists s' items', next s tag v = Some s' /\ post = der_items items' /\ items_run s' items') as Huniq.
    { intros [|[tag' v'] items] Ed; [done|]. intros [Hf' (s' & Hn & Hi)]. rewrite der_items_cons in Ed.
      apply slice_ok_app in Hok as [_ Hok].
      destruct (der_inj _ _ _ _ _ _ Hok Hf Hf' Ed) as (-> & -> & ->). eauto. }
    destruct (next s tag v) as [s'|] eqn:En.
    + destruct Hs as (-> & Hg' & Hr'). rewrite app_assoc in Hok.
      destruct (IH s' _ _ Hg' Hr' Hok ltac:(lia)) as (r & -> & Hiff). exists r. split; [done|]. rewrite Hiff. split.
      * intros (items & -> & Hi). exists ((tag, v) :: items). split; [done|]. split; [done|]. eauto.
      * intros (items & Ed & Hi). destruct (Huniq items Ed Hi) as (? & items' & [= <-] & ? & ?). eauto.
    + destruct Hs as [e ->]. exists (Err e). split; [done|]. split; [done|].
      intros (items & Ed & Hi). by destruct (Huniq items Ed Hi) as (? & ? & [=] & _).
  - destruct (step_bad s pre rest Hg Hr Hne Hok Hno) as [e ->]. exists (Err e). split; [done|]. split; [done|].
    intros ([|[tag v] items] & -> & Hi); [done|]. destruct Hi as [Hf _]. by edestruct Hno.
Qed.
End items_loop.

(** ** The validators decide the grammar *)

Definition reader_past (r : DerReader) (tag : Z) (v : list Z) : DerReader :=
  {| dr_input := dr_input r; dr_cursor := dr_cursor r + zlen (der tag v) |}.

Lemma rd_past pre tag v post : reader_past (rd pre (der tag v ++ post)) tag v = rd (pre ++ der tag v) post.
Proof. unfold reader_past, rd. cbn [dr_input dr_cursor]. by rewrite <- app_assoc, zlen_app. Qed.

Lemma name_step_end r : dr_cursor r = zlen (dr_input r) -> name_step r = Ok (inr tt).
Proof. intros E. unfold name_step, der_is_empty. by rewrite E, Z.eqb_refl. Qed.

Lemma name_loop fuel pre rest :
  slice_ok (pre ++ rest) -> (length rest < fuel)%nat ->
  exists r, loop fuel name_step (rd pre rest) = Some r /\
    (r = Ok tt <-> exists items, rest = der_items items /\ items_fit items).
Proof.
  intros Hok Hfuel. pose (next r tag v := Some (reader_past r tag v)).
  destruct (items_loop (fun r => r) name_step (fun _ => True) next) with (fuel := fuel) (s := rd pre rest)
    (pre := pre) (rest := rest) as (r & Hr & Hiff); try done.
  - intros r _. apply name_step_end.
  - intros r p tag v post _ -> Hf Hs. unfold next, name_step.
    rewrite rd_past, rd_empty, read_tlv_der by (done || apply Hs). done.
  - intros r p post _ -> Hne Hs Hno. unfold name_step. rewrite rd_empty, bool_decide_eq_false_2 by done.
    destruct (read_tlv_cases _ _ Hs) as [(tag & v & p' & -> & Hf & _)|[[e ->] _]]; [by edestruct Hno|by exists e].
  - exists r. split; [done|]. rewrite Hiff. f_equiv. intros items. f_equiv.
    clear. generalize (rd pre rest). induction items as [|[tag v] items IH]; intros r; simpl.
    + by split; constructor.
    + unfold items_fit. rewrite Forall_cons. simpl. split.
      * intros [Hf (s & _ & Hi)]. split; [done|]. by apply (IH s).
      * intros [Hf Hi]. split; [done|]. eexists. split; [done|]. by apply IH.
Qed.

Lemma validate_name_iff input : slice_ok input -> validate_name input = Ok tt <-> name_items input.
Proof.
  intros Hok. unfold validate_name. rewrite rd_new.
  destruct (name_loop (S (length input)) [] input Hok ltac:(lia)) as (r & -> & Hiff). exact Hiff.
Qed.

(** The fields allowed after one with the given tag. *)
Definition tags_after (last_tag : Z) : list Z := filter (fun t => last_tag < t) tail_tags.

Lemma tail_step_sublist last_tag tag tags :
  last_tag ∈ 0 :: tail_tags ->
  tag :: tags `sublist_of` tags_after last_tag <->
  (tag ∈ tail_tags /\ last_tag < tag) /\ tags `sublist_of` tags_after tag.
Proof.
  intros Hl. rewrite sublist_cons_l.
  assert (last_tag = 0 \/ last_tag = TAG_ISSUER_UNIQUE_ID \/ last_tag = TAG_SUBJECT_UNIQUE_ID \/
    last_tag = TAG_EXTENSIONS) as Hc by (unfold tail_tags in Hl; set_solver).
  split.
  - intros (k1 & k2 & E & Hs).
    assert (tag ∈ tags_after last_tag) as Hin by (rewrite E; set_solver).
    apply list_elem_of_filter in Hin as [Hlt Hin]. split; [done|]. unfold tail_tags in Hin.
    destruct_or!; subst last_tag; vm_compute in E;
      destruct k1 as [|? [|? [|? k1]]]; try discriminate E; injection E; intros;
      subst; try done; by destruct k1.
  - intros [[Hin Hlt] Hs]. unfold tail_tags in Hin.
    assert (tag = TAG_ISSUER_UNIQUE_ID \/ tag = TAG_SUBJECT_UNIQUE_ID \/ tag = TAG_EXTENSIONS) as Ht by set_solver.
    exists (filter (fun t => last_tag < t < tag) tail_tags), (tags_after tag). split; [|done].
    destruct_or! Hc; destruct_or! Ht; subst; by vm_compute in Hlt |- *.
Qed.

Lemma tag_in_tail tag :
  ((tag =? TAG_ISSUER_UNIQUE_ID) || (tag =? TAG_SUBJECT_UNIQUE_ID) || (tag =? TAG_EXTENSIONS))
  = bool_decide (tag ∈ tail_tags).
Proof.
  apply Bool.eq_iff_eq_true. rewrite bool_decide_eq_true, !orb_true_iff, !Z.eqb_eq.
  unfold tail_tags. set_solver.
Qed.

Lemma tail_loop fuel pre rest last_tag :
  last_tag ∈ 0 :: tail_tags -> slice_ok (pre ++ rest) -> (length rest < fuel)%nat ->
  exists r, loop fuel tbs_tail_step (rd pre rest, last_tag) = Some r /\
    (r = Ok tt <-> exists items, rest = der_items items /\ items_fit items /\
      map fst items `sublist_of` tags_after last_tag).
Proof.
  intros Hl Hok Hfuel.
  pose (next (s : DerReader * Z) tag v :=
    if decide (tag ∈ tail_tags /\ s.2 < tag) then Some (reader_past s.1 tag v, tag) else None).
  destruct (items_loop fst tbs_tail_step (fun s => s.2 ∈ 0 :: tail_tags) next) with (fuel := fuel)
    (s := (rd pre rest, last_tag)) (pre := pre) (rest := rest) as (r & Hr & Hiff); try done.
  - intros [r t] _ E. cbn [fst] in E. unfold tbs_tail_step, der_is_empty. by rewrite E, Z.eqb_refl.
  - intros [r t] p tag v post Ht Er Hf Hs. cbn [fst snd] in *. subst r. unfold next, tbs_tail_step. cbn [fst snd].
    rewrite rd_past, rd_empty, read_tlv_der by (done || apply Hs). cbn [tlv_tag tlv].
    rewrite tag_in_tail, bool_decide_eq_false_2 by done.
    destruct (decide _) as [[Hin Hlt]|Hno].
    + rewrite bool_decide_eq_true_2 by done. cbn. zdecide. split_and!; [done|by right|done].
    + destruct (bool_decide (tag ∈ tail_tags)) eqn:E; breflect; cbn; [|eauto].
      destruct (tag <=? t) eqn:El; breflect; [eauto|]. by destruct Hno.
  - intros [r t] p post _ Er Hne Hs Hno. cbn [fst] in *. subst r. unfold tbs_tail_step.
    rewrite rd_empty, bool_decide_eq_false_2 by done.
    destruct (read_tlv_cases _ _ Hs) as [(tag & v & p' & -> & Hf & _)|[[e ->] _]]; [by edestruct Hno|by exists e].
  - exists r. split; [done|]. rewrite Hiff. f_equiv. intros items. f_equiv.
    clear -Hl. revert last_tag Hl. generalize (rd pre rest).
    induction items as [|[tag v] items IH]; intros rd last_tag Hl; simpl.
    + split; [|done]. intros _. split; [constructor|apply sublist_nil_l].
    + unfold items_fit. rewrite Forall_cons, tail_step_sublist by done. unfold next. cbn [fst snd]. split.
      * intros [Hf (s & Hn & Hi)]. destruct (decide _) as [Hd|]; [|done]. injection Hn as <-.
        apply IH in Hi as [? ?]; [done|by right; apply Hd].
      * intros [[Hf Hi] [Hd Hs]]. split; [done|]. rewrite decide_True by done. eexists. split; [done|].
        apply IH; [by right; apply Hd|done].
Qed.

Lemma validate_tbs_tail_iff pre rest : slice_ok (pre ++ rest) ->
  validate_tbs_tail (rd pre rest) = Ok tt <->
  exists items, rest = der_items items /\ items_fit items /\ map fst items `sublist_of` tail_tags.
Proof.
  intros Hok. unfold validate_tbs_tail.
  destruct (tail_loop (S (length (dr_input (rd pre rest)))) pre rest 0) as (r & -> & Hiff); [by left|done| |].
  - unfold rd. cbn [dr_input]. rewrite length_app. lia.
  - exact Hiff.
Qed.

Lemma validate_integer_iff input : bytes_ok input -> validate_integer input = Ok tt <-> shortest_integer input.
Proof.
  intros Hb. unfold validate_integer, shortest_integer. destruct input as [|a [|b input]]; [done|done|].
  rewrite bool_decide_eq_false_2 by done. rewrite !zlen_cons. pose proof (zlen_nonneg input). zdecide. cbn [ok_or head].
  change (get (a :: b :: input) 1) with (Some b). cbn [ok_or].
  inversion Hb as [|? ? _ Hb']; inversion Hb' as [|? ? Hbb _]; subst. pose proof (length_bit b Hbb) as Hbit.
  destruct (a =? 0) eqn:E0; destruct (a =? 255) eqn:E1; destruct (Z.land b 128 =? 0) eqn:E2; breflect;
    rewrite Hbit in E2; cbn [andb orb negb]; (split; [intros ?|intros [? ?]]); try done; try split; lia.
Qed.

Lemma guard_ok {A} (b : bool) (r : result DaneError A) a :
  (if b then Err MalformedCertificate else r) = Ok a <-> b = false /\ r = Ok a.
Proof. destruct b; naive_solver. Qed.

Lemma unit_bind_ok {E A} (m : result E unit) (k : result E A) a :
  (let? _ := m in k) = Ok a <-> m = Ok tt /\ k = Ok a.
Proof. destruct m as [[]|]; naive_solver. Qed.

Lemma not_empty_false (l : list Z) : negb (bool_decide (l = [])) = false <-> l = [].
Proof. by rewrite negb_false_iff, bool_decide_eq_true. Qed.

Lemma fits_small tag v : Z.land tag 31 <> 31 -> zlen v <= 255 -> der_fits tag v.
Proof. intros. split; [done|width_lia]. Qed.

Lemma validate_version_iff input : slice_ok input ->
  validate_version input = Ok tt <-> exists n, 0 <= n <= 2 /\ input = der TAG_INTEGER [n].
Proof.
  intros Hok. unfold validate_version. rewrite rd_new, expect_iff by done.
  setoid_rewrite rd_empty. cbn [tlv_value tlv]. split.
  - intros (v & post & -> & Hf & H). apply guard_ok in H as [H _].
    apply orb_false_iff in H as [[->%not_empty_false H1]%orb_false_iff H2]. breflect.
    apply slice_ok_der in Hok as [[Hv _] _].
    destruct v as [|n [|? v]]; [done| |rewrite !zlen_cons in H1; pose proof (zlen_nonneg v); lia].
    cbn in H2. breflect. inversion Hv; subst. exists n. rewrite app_nil_r. split; [width_lia|done].
  - intros (n & Hn & ->). exists [n], []. rewrite app_nil_r. split; [done|]. split; [by apply fits_small|].
    rewrite bool_decide_eq_true_2 by done. cbn. zdecide. done.
Qed.

Lemma validate_algorithm_identifier_iff input : slice_ok input ->
  validate_algorithm_identifier input = Ok tt <-> algorithm_identifier input.
Proof.
  intros Hok. unfold validate_algorithm_identifier. rewrite rd_new, expect_iff by done.
  setoid_rewrite rd_empty. cbn [tlv_value tlv]. split.
  - intros (oid & post & -> & Hf & [Ho H]%guard_ok). breflect.
    destruct (bool_decide (post = [])) eqn:Ep; breflect; cbn [negb] in H.
    + subst. exists oid, []. split_and!; [done|done|done|constructor|simpl; lia].
    + destruct (read_tlv_cases ([] ++ der TAG_OBJECT_IDENTIFIER oid) post) as
        [(t & v & p & -> & Hf' & E)|[[e E] _]]; [by rewrite <- app_assoc| |by rewrite E in H].
      rewrite E, rd_empty in H. apply guard_ok in H as [->%not_empty_false _].
      exists oid, [(t, v)]. rewrite der_items_cons. split_and!; [done|done|done|by constructor|simpl; lia].
  - intros (oid & items & -> & Ho & Hf & Hi & Hl). exists oid, (der_items items). split; [done|]. split; [done|].
    rewrite bool_decide_eq_false_2 by done. destruct items as [|[t v] [|? ?]]; [| |simpl in Hl; lia].
    + rewrite der_items_nil, bool_decide_eq_true_2 by done. cbn [negb]. by rewrite rd_empty.
    + rewrite der_items_cons, der_items_nil, app_nil_r in *. inversion Hi; subst.
      rewrite bool_decide_eq_false_2 by done. cbn [negb].
      rewrite <- (app_nil_r (der t v)), read_tlv_der; [|done|].
      * by rewrite rd_empty.
      * rewrite app_nil_r, app_nil_l. apply Hok.
Qed.

(** Every mask of low bits: a remainder. *)
Lemma low_bits a k : 0 <= k -> Z.land a (Z.shiftl 1 k - 1) = a mod 2 ^ k.
Proof. intros. rewrite Z.shiftl_1_l, <- Z.land_ones, Z.ones_equiv by done. by rewrite Z.sub_1_r. Qed.

Lemma validate_bit_string_iff input : bytes_ok input -> validate_bit_string input = Ok tt <-> bit_string input.
Proof.
  intros Hb. unfold validate_bit_string, bit_string. destruct input as [|unused bytes].
  { split; [done|]. by intros (? & ? & [=] & _). }
  inversion Hb as [|? ? Hu _]; subst. cbn [head ok_or].
  assert ((7 <? unused) || (zlen (unused :: bytes) <? 2) = false <-> unused <= 7 /\ bytes <> []) as Hg.
  { rewrite orb_false_iff, !Z.ltb_ge, zlen_cons. f_equiv. split; [intros ? ->; rewrite zlen_nil in *; lia|].
    intros ?%zlen_pos. lia. }
  rewrite guard_ok, Hg. destruct (decide (bytes = [])) as [->|Hne].
  { split; [by intros [[] _]|]. by intros (? & ? & [= <- <-] & ? & _). }
  destruct (exists_last Hne) as (init & final & ->).
  assert (last (unused :: init ++ [final]) = Some final) as El by by rewrite app_comm_cons, last_snoc.
  rewrite El. cbn [ok_or].
  assert ((if negb (unused =? 0) then
    if negb (Z.land final (Z.shiftl 1 unused - 1) =? 0) then Err MalformedCertificate else Ok tt else Ok tt)
    = Ok tt <-> final mod 2 ^ unused = 0) as Hm.
  { rewrite low_bits by width_lia. destruct (unused =? 0) eqn:E0; breflect; cbn [negb].
    - subst. split; [intros _; apply Z.mod_1_r|done].
    - destruct (_ =? 0) eqn:E; breflect; cbn; [done|]. split; [done|]. by intros. }
  rewrite Hm. split.
  - intros [[? ?] ?]. exists unused, (init ++ [final]). split_and!; try done.
    intros final'. rewrite last_snoc. by intros [= <-].
  - intros (? & ? & [= <- <-] & ? & ? & Hf). split; [done|]. apply Hf. apply last_snoc.
Qed.

Lemma items_fit_two a b : uncurry der_fits a -> uncurry der_fits b -> items_fit [a; b].
Proof. intros. by constructor; [|constructor; [|constructor]]. Qed.

(** Reading one time and going on is reading one [time_item] and going on. *)
Lemma validity_time_iff {A} pre rest (k : DerReader -> result DaneError A) a :
  slice_ok (pre ++ rest) ->
  (let? r := validity_time (rd pre rest) in k r) = Ok a <->
  exists tag v post, rest = der tag v ++ post /\ der_fits tag v /\ time_item (tag, v) /\
    k (rd (pre ++ der tag v) post) = Ok a.
Proof.
  intros Hok. unfold validity_time.
  assert (forall tag v, negb ((tag =? TAG_UTC_TIME) || (tag =? TAG_GENERALIZED_TIME)) || bool_decide (v = []) = false
    <-> time_item (tag, v)) as Ht.
  { intros tag v. unfold time_item. cbn [fst snd].
    rewrite orb_false_iff, negb_false_iff, orb_true_iff, !Z.eqb_eq, bool_decide_eq_false. done. }
  split.
  - destruct (read_tlv_cases _ _ Hok) as [(tag & v & post & -> & Hf & ->)|[[e ->] _]]; [|done].
    cbn [tlv_tag tlv_value tlv]. destruct (negb _ || _) eqn:E; [done|]. apply Ht in E. eauto 10.
  - intros (tag & v & post & -> & Hf & Hi & Hk). rewrite read_tlv_der by (done || apply Hok).
    cbn [tlv_tag tlv_value tlv]. by rewrite (proj2 (Ht tag v) Hi).
Qed.

Lemma validate_validity_iff input : slice_ok input -> validate_validity input = Ok tt <-> validity_items input.
Proof.
  intros Hok. unfold validate_validity. rewrite rd_new, validity_time_iff by done. split.
  - intros (t1 & v1 & post & -> & H1 & T1 & H). rewrite validity_time_iff in H by done.
    destruct H as (t2 & v2 & p2 & -> & H2 & T2 & H). rewrite rd_empty in H.
    apply guard_ok in H as [->%not_empty_false _]. exists (t1, v1), (t2, v2).
    split_and!; [done|by apply items_fit_two|done|done].
  - intros ([t1 v1] & [t2 v2] & -> & Hi & T1 & T2). inversion Hi as [|? ? F1 Hi']; inversion Hi' as [|? ? F2 _]; subst.
    rewrite !der_items_cons in *. exists t1, v1, (der t2 v2 ++ []). split; [done|]. split; [done|]. split; [done|].
    rewrite validity_time_iff by done. exists t2, v2, []. split; [done|]. split; [done|]. split; [done|].
    by rewrite rd_empty.
Qed.

Lemma validate_spki_iff input : slice_ok input -> validate_spki input = Ok tt <-> spki_items input.
Proof.
  intros Hok. unfold validate_spki. rewrite rd_new, expect_iff by done. cbn [tlv_value tlv]. split.
  - intros (alg & post & -> & F1 & H). pose proof (slice_ok_der _ _ _ Hok) as [Ha _].
    rewrite unit_bind_ok, validate_algorithm_identifier_iff, expect_iff in H by done.
    destruct H as (HA & key & p & -> & F2 & H). cbn [tlv_value tlv] in H.
    pose proof (slice_ok_der _ _ _ (proj2 (slice_ok_app _ _ Hok))) as [[Hk _] _].
    rewrite unit_bind_ok, validate_bit_string_iff, rd_empty, guard_ok in H by done.
    destruct H as (HB & ->%not_empty_false & _). exists alg, key.
    split_and!; [done|by apply items_fit_two|done|done].
  - intros (alg & key & -> & Hi & HA & HB). inversion Hi as [|? ? F1 Hi']; inversion Hi' as [|? ? F2 _]; subst.
    rewrite !der_items_cons, der_items_nil in *. exists alg, (der TAG_BIT_STRING key ++ []). split; [done|]. split; [done|].
    pose proof (slice_ok_der _ _ _ Hok) as [Ha _].
    pose proof (slice_ok_der _ _ _ (proj2 (slice_ok_app _ _ Hok))) as [[Hk _] _].
    rewrite unit_bind_ok, validate_algorithm_identifier_iff, expect_iff by done. split; [done|].
    exists key, []. split; [done|]. split; [done|]. cbn [tlv_value tlv].
    rewrite unit_bind_ok, validate_bit_string_iff, rd_empty by done. by split.
Qed.

(** ** The SPKI of a certificate *)

(** The signed part after its version. *)
Definition tbs_rest (serial issuer validity subject key : list Z) (tail : list (Z * list Z)) (algorithm : list Z)
  : list (Z * list Z) :=
  [(TAG_INTEGER, serial); (TAG_SEQUENCE, algorithm); (TAG_SEQUENCE, issuer); (TAG_SEQUENCE, validity);
   (TAG_SEQUENCE, subject); (TAG_SEQUENCE, key)] ++ tail.

Definition tbs_parts (serial issuer validity subject key : list Z) (tail : list (Z * list Z)) : Prop :=
  shortest_integer serial /\ name_items issuer /\ validity_items validity /\ name_items subject /\
  spki_items key /\ map fst tail `sublist_of` tail_tags.

(** Step over an element with a validated value: both directions at once. *)
Lemma expect_valid {A} (f : list Z -> result DaneError unit) (P : list Z -> Prop) pre rest tag
    (k : Tlv -> DerReader -> result DaneError A) a :
  (forall v, slice_ok v -> f v = Ok tt <-> P v) -> slice_ok (pre ++ rest) ->
  (let? (t, r) := read_expected (rd pre rest) tag in let? _ := f (tlv_value t) in k t r) = Ok a <->
  exists v post, rest = der tag v ++ post /\ der_fits tag v /\ P v /\
    k (tlv tag v) (rd (pre ++ der tag v) post) = Ok a.
Proof.
  intros HfP Hok. rewrite (expect_iff pre rest tag (fun t r => let? _ := f (tlv_value t) in k t r)) by done.
  f_equiv. intros v. f_equiv. intros post. split.
  - intros (-> & Hf & H). apply unit_bind_ok in H as [Hv Hk]. cbn in Hv.
    apply slice_ok_app in Hok as [_ Hok]. apply slice_ok_der in Hok as [Hok _]. by rewrite HfP in Hv.
  - intros (-> & Hf & Hp & Hk). split; [done|]. split; [done|]. apply unit_bind_ok. cbn.
    apply slice_ok_app in Hok as [_ Hok]. apply slice_ok_der in Hok as [Hok _]. by rewrite HfP.
Qed.

Definition integer_step {A} := expect_valid (A := A) validate_integer shortest_integer.
Definition algorithm_step {A} := expect_valid (A := A) validate_algorithm_identifier algorithm_identifier.
Definition name_item_step {A} := expect_valid (A := A) validate_name name_items.
Definition validity_step {A} := expect_valid (A := A) validate_validity validity_items.
Definition spki_step {A} := expect_valid (A := A) validate_spki spki_items.
Definition bit_string_step {A} := expect_valid (A := A) validate_bit_string bit_string.

(** The reader stays on the same bytes. *)
Lemma slice_ok_past pre tag v post : slice_ok (pre ++ der tag v ++ post) -> slice_ok ((pre ++ der tag v) ++ post).
Proof. by rewrite <- app_assoc. Qed.
#[export] Hint Resolve slice_ok_past : hns.

Lemma validate_integer_ok v : slice_ok v -> validate_integer v = Ok tt <-> shortest_integer v.
Proof. intros [Hb _]. by apply validate_integer_iff. Qed.
Lemma validate_bit_string_ok v : slice_ok v -> validate_bit_string v = Ok tt <-> bit_string v.
Proof. intros [Hb _]. by apply validate_bit_string_iff. Qed.
#[export] Hint Resolve validate_integer_ok validate_bit_string_ok validate_algorithm_identifier_iff
  validate_name_iff validate_validity_iff validate_spki_iff : hns.

(** The optional version in front of the signed part. *)
Lemma version_step {A} rest (k : DerReader -> result DaneError A) a :
  slice_ok rest ->
  (let? fields :=
    if bool_decide (peek_tag (rd [] rest) = Some TAG_EXPLICIT_VERSION) then
      let? (version, fields) := read_expected (rd [] rest) TAG_EXPLICIT_VERSION in
      let? _ := validate_version (tlv_value version) in Ok fields
    else Ok (rd [] rest) in k fields) = Ok a <->
  exists items post, rest = der_items items ++ post /\ version_items items /\ items_fit items /\
    (items = [] -> head post <> Some TAG_EXPLICIT_VERSION) /\ k (rd (der_items items) post) = Ok a.
Proof.
  intros Hok. rewrite rd_peek. destruct (bool_decide _) eqn:E; breflect.
  - split.
    + destruct (read_expected (rd [] rest) _) as [[t r]|] eqn:Er; [|done].
      assert ((let? (t, r) := read_expected (rd [] rest) TAG_EXPLICIT_VERSION in Ok (t, r)) = Ok (t, r)) as Hr
        by by rewrite Er.
      rewrite (expect_iff [] rest TAG_EXPLICIT_VERSION (fun t r => Ok (t, r))) in Hr by done.
      destruct Hr as (v & post & -> & Hf & H). apply Ok_inj in H. injection H as <- <-.
      destruct (validate_version _) as [[]|] eqn:Ev; [|done]. intros Hk.
      apply slice_ok_der in Hok as [Hv _]. apply validate_version_iff in Ev as (n & Hn & E0); [|done].
      cbn [tlv_value tlv] in E0. subst v. exists [(TAG_EXPLICIT_VERSION, der TAG_INTEGER [n])], post.
      rewrite der_items_cons, der_items_nil, app_nil_r. split_and!; [done|right; eauto| |done|done].
      by constructor.
    + intros (items & post & -> & [->|(n & Hn & ->)] & Hf & Hh & Hk); [by destruct (Hh eq_refl)|].
      rewrite der_items_cons, der_items_nil, app_nil_r in *. inversion Hf; subst. unfold read_expected.
      rewrite read_tlv_der; [|done|apply Hok]. cbn [tlv_tag tlv tlv_value]. rewrite Z.eqb_refl. cbn [negb tlv_value tlv].
      rewrite (proj2 (validate_version_iff _ (proj1 (slice_ok_der _ _ _ Hok)))); [done|eauto].
  - split.
    + intros Hk. exists [], rest. by split_and!; [|left|constructor| |].
    + intros (items & post & -> & [->|(n & Hn & ->)] & Hf & Hh & Hk); [done|]. by destruct E.
Qed.

Ltac forward_step L H v p :=
  rewrite L in H by eauto 12 with hns; destruct H as (v & p & -> & ? & ? & H); cbn [tlv_full tlv] in H.
Ltac backward_step L :=
  rewrite L by eauto 12 with hns; do 2 eexists; split; [reflexivity|]; split; [done|]; split; [done|];
  cbn [tlv_full tlv].

Lemma tbs_fields_sound tbs outer spki :
  slice_ok tbs -> tbs_fields tbs outer = Ok spki ->
  exists version serial algorithm issuer validity subject key tail,
    tbs = der_items (version ++ tbs_rest serial issuer validity subject key tail algorithm) /\
    version_items version /\ items_fit (version ++ tbs_rest serial issuer validity subject key tail algorithm) /\
    tbs_parts serial issuer validity subject key tail /\ algorithm_identifier algorithm /\
    outer = der TAG_SEQUENCE algorithm /\ spki = der TAG_SEQUENCE key.
Proof.
  intros Hok H. unfold tbs_fields in H. rewrite rd_new in H.
  rewrite (version_step tbs _ spki Hok) in H. destruct H as (version & post & -> & Hv & Hfv & _ & H).
  forward_step (@integer_step (list Z)) H serial p1.
  forward_step (@algorithm_step (list Z)) H algorithm p2.
  rewrite constant_time_eq_decide, guard_ok in H. destruct H as [Eo H].
  apply negb_false_iff, bool_decide_eq_true in Eo.
  forward_step (@name_item_step (list Z)) H issuer p3.
  forward_step (@validity_step (list Z)) H validity p4.
  forward_step (@name_item_step (list Z)) H subject p5.
  forward_step (@spki_step (list Z)) H key p6.
  rewrite unit_bind_ok, validate_tbs_tail_iff in H by eauto 12 with hns.
  destruct H as [(tail & -> & Hft & Hs) H]. apply Ok_inj in H.
  exists version, serial, algorithm, issuer, validity, subject, key, tail.
  split; [by rewrite der_items_app|]. split; [done|]. split.
  { apply Forall_app. split; [done|]. by repeat (apply Forall_cons; split; [done|]). }
  split; [by unfold tbs_parts; split_and!|]. by split_and!.
Qed.

Lemma tbs_fields_complete version serial algorithm issuer validity subject key tail :
  let items := version ++ tbs_rest serial issuer validity subject key tail algorithm in
  slice_ok (der_items items) -> version_items version -> items_fit items ->
  tbs_parts serial issuer validity subject key tail -> algorithm_identifier algorithm ->
  tbs_fields (der_items items) (der TAG_SEQUENCE algorithm) = Ok (der TAG_SEQUENCE key).
Proof.
  intros items Hok Hv Hi (Ps & Pi & Pv & Pj & Pk & Pt) Pa. unfold items in *. unfold tbs_fields.
  apply Forall_app in Hi as [Hfv Hi]. repeat (apply Forall_cons in Hi as [? Hi]). cbn [uncurry] in *.
  rewrite rd_new, (version_step _ _ _ Hok). rewrite der_items_app in *.
  exists version, (der_items (tbs_rest serial issuer validity subject key tail algorithm)).
  split; [reflexivity|]. split; [done|]. split; [done|]. split; [done|].
  unfold tbs_rest in *. cbn [app] in *. rewrite !der_items_cons in *.
  backward_step (@integer_step (list Z)). backward_step (@algorithm_step (list Z)).
  rewrite constant_time_eq_decide, bool_decide_eq_true_2 by done. cbn [negb].
  backward_step (@name_item_step (list Z)). backward_step (@validity_step (list Z)).
  backward_step (@name_item_step (list Z)). backward_step (@spki_step (list Z)).
  rewrite unit_bind_ok, validate_tbs_tail_iff by eauto 12 with hns. eauto.
Qed.

Lemma spki_extraction_iff certificate spki : slice_ok certificate ->
  extract_subject_public_key_info certificate = Ok spki <-> certificate_with_spki certificate spki.
Proof.
  intros Hok. unfold extract_subject_public_key_info. rewrite rd_new, expect_iff by done. split.
  - intros (body & post & -> & Fb & H). rewrite rd_empty, guard_ok in H. destruct H as [->%not_empty_false H].
    cbn [tlv_value tlv] in H. apply slice_ok_der in Hok as [Hb _]. rewrite rd_new, expect_iff in H by done.
    destruct H as (tbs & p1 & -> & Ft & H). cbn [tlv_value tlv] in H.
    forward_step (@algorithm_step (list Z)) H algorithm p2.
    forward_step (@bit_string_step (list Z)) H signature p3.
    rewrite rd_empty, guard_ok in H. destruct H as [->%not_empty_false H].
    pose proof (slice_ok_der _ _ _ Hb) as [Ht Hb'].
    destruct (tbs_fields_sound _ _ _ Ht H) as
      (version & serial & algorithm' & issuer & validity & subject & key & tail & -> & Hv & Hi & Hp & Ha & Eo & ->).
    assert (algorithm' = algorithm) as ->.
    { apply Forall_app in Hi as [_ Hi]. apply Forall_cons in Hi as [_ Hi]. apply Forall_cons in Hi as [Fa _].
      apply (f_equal (fun l => l ++ [])) in Eo. apply der_inj in Eo as (_ & -> & _); [done| |done|done].
      rewrite app_nil_r. by apply slice_ok_app in Hb' as [? _]. }
    exists version, serial, algorithm, issuer, validity, subject, key, tail, signature.
    destruct Hp as (? & ? & ? & ? & ? & ?). rewrite app_nil_r. split_and!; try done.
    by repeat (apply Forall_cons; split; [done|]).
  - intros (version & serial & algorithm & issuer & validity & subject & key & tail & signature & H).
    cbn zeta in H. destruct H as (-> & Fb & -> & Hi & Ht & Hv & Ps & Pa & Pi & Pv & Pj & Pk & Pt & Psig).
    pose proof Hok as Hok'. rewrite <- (app_nil_r (der TAG_SEQUENCE _)) in Hok'.
    apply slice_ok_der in Hok' as [Hb _]. repeat (apply Forall_cons in Hi as [? Hi]). cbn [uncurry] in *.
    rewrite !der_items_cons, der_items_nil in *.
    eexists _, []. split; [symmetry; apply app_nil_r|]. split; [done|].
    rewrite rd_empty, bool_decide_eq_true_2 by done. cbn [negb tlv_value tlv].
    rewrite rd_new, expect_iff by done. do 2 eexists. split; [reflexivity|]. split; [done|].
    cbn [tlv_value tlv]. backward_step (@algorithm_step (list Z)). backward_step (@bit_string_step (list Z)).
    rewrite rd_empty, bool_decide_eq_true_2 by done. cbn [negb].
    apply tbs_fields_complete; try done. by apply slice_ok_der in Hb as [? _].
Qed.

(** ** Errors *)

(** The only error of the DER part. *)
Definition strict {A} (r : result DaneError A) : Prop := forall e, r = Err e -> e = MalformedCertificate.

Lemma strict_ok {A} (a : A) : strict (Ok a).
Proof. done. Qed.
Lemma strict_malformed {A} : strict (Err MalformedCertificate : result DaneError A).
Proof. by intros e [= <-]. Qed.
Lemma strict_ok_or {A} (o : option A) : strict (ok_or o MalformedCertificate).
Proof. destruct o; by intros e [= <-]. Qed.
Lemma strict_bind {A B} (m : result DaneError A) (k : A -> result DaneError B) :
  strict m -> (forall a, strict (k a)) -> strict (let? a := m in k a).
Proof. intros Hm Hk e. destruct m as [a|e']; [apply Hk|]. intros [= <-]. by apply Hm. Qed.
#[export] Hint Resolve strict_ok strict_malformed strict_ok_or : hns.

(** Follow every path of the code: the bind rule, the guards, then the hints. *)
Ltac strict_path :=
  repeat first
    [ progress eauto 1 with hns
    | match goal with
      | |- forall _ : _ * _, _ => intros [? ?]
      | |- forall _, strict _ => intros ?
      | |- strict (if _ then _ else _) => case_match
      | |- strict (match ?m with Ok x => @?k x | Err e => Err e end) => apply (strict_bind m k)
      end; cbn beta iota ].

Lemma strict_read_length input c : strict (read_length input c).
Proof.
  assert (forall l r, strict r -> strict (fold_left length_octet l r)) as Hfold.
  { induction l as [|b l IH]; intros r Hr; [done|]. apply IH. unfold length_octet. strict_path. }
  unfold read_length. strict_path. by apply Hfold.
Qed.
#[export] Hint Resolve strict_read_length : hns.
Lemma strict_read_tlv r : strict (read_tlv r).
Proof. unfold read_tlv. strict_path. Qed.
#[export] Hint Resolve strict_read_tlv : hns.
Lemma strict_read_expected r tag : strict (read_expected r tag).
Proof. unfold read_expected. strict_path. Qed.
#[export] Hint Resolve strict_read_expected : hns.

Lemma strict_loop {St} fuel (step : St -> result DaneError (St + unit)) s :
  (forall s, strict (step s)) ->
  strict (match loop fuel step s with Some r => r | None => Err MalformedCertificate end).
Proof.
  intros Hs. revert s. induction fuel as [|fuel IH]; intros s; cbn [loop]; [apply strict_malformed|].
  pose proof (Hs s) as H. destruct (step s) as [[s'|[]]|e]; [apply IH|apply strict_ok|].
  intros e' [= <-]. by apply H.
Qed.

Lemma strict_validators v :
  strict (validate_version v) /\ strict (validate_integer v) /\ strict (validate_algorithm_identifier v) /\
  strict (validate_bit_string v) /\ strict (validate_name v) /\ strict (validate_validity v).
Proof.
  split_and!.
  - unfold validate_version. strict_path.
  - unfold validate_integer. strict_path.
  - unfold validate_algorithm_identifier. strict_path.
  - unfold validate_bit_string. strict_path.
  - apply strict_loop. intros r. unfold name_step. strict_path.
  - unfold validate_validity, validity_time. strict_path.
Qed.

Lemma strict_spki v : strict (validate_spki v).
Proof.
  unfold validate_spki. strict_path; apply strict_validators.
Qed.

Lemma strict_tail r : strict (validate_tbs_tail r).
Proof. apply strict_loop. intros [r' t]. unfold tbs_tail_step. strict_path. Qed.
#[export] Hint Resolve strict_spki strict_tail : hns.

Lemma strict_extract certificate : strict (extract_subject_public_key_info certificate).
Proof.
  unfold extract_subject_public_key_info, tbs_fields. strict_path; apply strict_validators.
Qed.

(** ** Contiguous parts *)

Definition part (k l : list Z) : Prop := exists before after, l = before ++ k ++ after.

Lemma part_self k : part k k.
Proof. exists [], []. by rewrite app_nil_r. Qed.
Lemma part_left k l r : part k l -> part k (l ++ r).
Proof. intros (b & a & ->). exists b, (a ++ r). by rewrite <- !app_assoc. Qed.
Lemma part_right k l r : part k r -> part k (l ++ r).
Proof. intros (b & a & ->). exists (l ++ b), a. by rewrite <- !app_assoc. Qed.
Lemma part_der k tag v : part k v -> part k (der tag v).
Proof. intros Hp. unfold der. by apply (part_right _ [tag]), part_right. Qed.

(** The SPKI extraction accepts exactly the certificates of the reference
    grammar, canonical DER in every element it reads, and returns their public key
    element: the two loops have enough fuel, lengths cannot overflow, and both
    algorithm identifiers agree. Anything else is refused as malformed, and what is
    returned is a contiguous part of the certificate. *)
Theorem spki_extraction_exact certificate : slice_ok certificate ->
  (forall spki, extract_subject_public_key_info certificate = Ok spki <-> certificate_with_spki certificate spki) /\
  (forall e, extract_subject_public_key_info certificate = Err e -> e = MalformedCertificate) /\
  (forall spki, extract_subject_public_key_info certificate = Ok spki ->
    part spki certificate /\ spki <> []).
Proof.
  intros Hok. split; [intros spki; by apply spki_extraction_iff|]. split; [apply strict_extract|].
  intros spki H. apply spki_extraction_iff in H; [|done].
  destruct H as (version & serial & algorithm & issuer & validity & subject & key & tail & signature & H).
  cbn zeta in H. destruct H as (-> & _ & -> & _).
  split; [|done]. apply part_der. rewrite der_items_cons. apply part_left, part_der.
  rewrite der_items_app. apply part_right. cbn [app]. rewrite !der_items_cons.
  do 5 apply part_right. by apply part_left, part_self.
Qed.

Lemma slice_ok_check l : forallb (fun b => (0 <=? b) && (b <=? 255)) l = true -> (length l < 1000)%nat -> slice_ok l.
Proof.
  intros Hb Hl. split; [|unfold zlen; width_lia]. apply Forall_forall. intros b Hin.
  rewrite forallb_forall in Hb. apply list_elem_of_In in Hin. apply Hb in Hin. breflect. width_lia.
Qed.

(** A small certificate: version 3, empty names and a one-byte key. *)
Definition sample_algorithm : list Z := der TAG_OBJECT_IDENTIFIER [42; 3].
Definition sample_key : list Z := der TAG_SEQUENCE sample_algorithm ++ der TAG_BIT_STRING [0; 7].
Definition sample_certificate : list Z :=
  der TAG_SEQUENCE (der_items
    [(TAG_SEQUENCE, der_items
       [(TAG_EXPLICIT_VERSION, der TAG_INTEGER [2]); (TAG_INTEGER, [1]); (TAG_SEQUENCE, sample_algorithm);
        (TAG_SEQUENCE, []); (TAG_SEQUENCE, der TAG_UTC_TIME [49] ++ der TAG_UTC_TIME [50]); (TAG_SEQUENCE, []);
        (TAG_SEQUENCE, sample_key); (TAG_EXTENSIONS, [])]);
     (TAG_SEQUENCE, sample_algorithm); (TAG_BIT_STRING, [0; 1])]).

Lemma spki_extraction_exact_witness :
  slice_ok sample_certificate /\ part (der TAG_SEQUENCE sample_key) sample_certificate.
Proof.
  assert (slice_ok sample_certificate) as Hok by (apply slice_ok_check; [by vm_compute|simpl; lia]).
  split; [exact Hok|]. apply (proj2 (proj2 (spki_extraction_exact sample_certificate Hok))). by vm_compute.
Defined.
