(* ===== verification/DaneMatch.v ===== *)
(** * DANE matching

    Models the matching part of [src/crates/hns-dane/src/lib.rs]: record parsing,
    the selected material, [verify_dane_ee] and [verify_dane_chain], whose
    DANE-TA path hands one private trust anchor to OpenSSL. SHA-2 and OpenSSL are
    third-party code: the operations the source calls are the fields of the
    classes [DaneDigests] and [OpenSsl]; what it relies on of the latter is
    [OpenSslLaws], the documented effect of each builder call. *)

From S2P Require Import Prelude DnsTypes DaneDer DaneDerProps.

Definition DEFAULT_MAX_CERTIFICATE_LEN : Z := 256 * 1024.
Definition DEFAULT_MAX_SPKI_LEN : Z := 64 * 1024.
Definition MAX_TLSA_ASSOCIATION_LEN : Z := 65532.

Record DaneLimits := {
  max_certificate_len : Z; max_spki_len : Z; max_tlsa_records : Z;
  max_association_len : Z; max_chain_certificates : Z }.

Definition dane_limits_default : DaneLimits :=
  {| max_certificate_len := DEFAULT_MAX_CERTIFICATE_LEN; max_spki_len := DEFAULT_MAX_SPKI_LEN;
     max_tlsa_records := 64; max_association_len := MAX_TLSA_ASSOCIATION_LEN; max_chain_certificates := 16 |}.

Inductive CertificateUsage := DaneTa | DaneEe.
Inductive Selector := FullCertificate | SubjectPublicKeyInfo.
Inductive MatchingType := Exact | Sha256 | Sha512.

#[export] Instance CertificateUsage_eq_dec : EqDecision CertificateUsage.
Proof. solve_decision. Defined.
#[export] Instance Selector_eq_dec : EqDecision Selector.
Proof. solve_decision. Defined.
#[export] Instance MatchingType_eq_dec : EqDecision MatchingType.
Proof. solve_decision. Defined.

(** The enum's discriminants. *)
Definition usage_code (u : CertificateUsage) : Z := match u with DaneTa => 2 | DaneEe => 3 end.

Record DaneMatch := {
  dm_record_index : Z; dm_usage : CertificateUsage; dm_selector : Selector; dm_matching_type : MatchingType }.

(** ** Records *)

Record ParsedRecord := {
  pr_usage : CertificateUsage; pr_selector : Selector; pr_matching_type : MatchingType;
  pr_association_data : list Z }.

Definition parse_record (limits : DaneLimits) (record : TlsaData) : result DaneError ParsedRecord :=
  let? usage := match tlsa_usage record with
                | 2 => Ok DaneTa | 3 => Ok DaneEe | value => Err (UnsupportedUsage value) end in
  let? selector := match tlsa_selector record with
                   | 0 => Ok FullCertificate | 1 => Ok SubjectPublicKeyInfo
                   | value => Err (UnsupportedSelector value) end in
  let? matching_type := match tlsa_matching_type record with
                        | 0 => Ok Exact | 1 => Ok Sha256 | 2 => Ok Sha512
                        | value => Err (UnsupportedMatchingType value) end in
  let length := zlen (tlsa_association_data record) in
  if (length =? 0) || (max_association_len limits <? length)
     || (bool_decide (matching_type = Sha256) && negb (length =? 32))
     || (bool_decide (matching_type = Sha512) && negb (length =? 64))
  then Err InvalidAssociationLength else
  Ok {| pr_usage := usage; pr_selector := selector; pr_matching_type := matching_type;
        pr_association_data := tlsa_association_data record |}.

(** [iter().map(..).collect::<Result<Vec<_>, _>>()]: the first error wins. *)
Fixpoint collect_results {A B} (f : A -> result DaneError B) (l : list A) : result DaneError (list B) :=
  match l with
  | [] => Ok []
  | x :: l => let? y := f x in let? ys := collect_results f l in Ok (y :: ys)
  end.

Class DaneDigests := { digest_sha256 : list Z -> list Z; digest_sha512 : list Z -> list Z }.

Section matching.
Context `{DaneDigests}.

Record MatchMaterial := {
  mm_certificate : list Z; mm_spki : list Z; mm_certificate_sha256 : list Z; mm_certificate_sha512 : list Z;
  mm_spki_sha256 : list Z; mm_spki_sha512 : list Z }.

Definition material_new (certificate spki : list Z) : MatchMaterial :=
  {| mm_certificate := certificate; mm_spki := spki;
     mm_certificate_sha256 := digest_sha256 certificate; mm_certificate_sha512 := digest_sha512 certificate;
     mm_spki_sha256 := digest_sha256 spki; mm_spki_sha512 := digest_sha512 spki |}.

Definition material_matches (m : MatchMaterial) (record : ParsedRecord) : bool :=
  let candidate :=
    match pr_selector record, pr_matching_type record with
    | FullCertificate, Exact => mm_certificate m
    | FullCertificate, Sha256 => mm_certificate_sha256 m
    | FullCertificate, Sha512 => mm_certificate_sha512 m
    | SubjectPublicKeyInfo, Exact => mm_spki m
    | SubjectPublicKeyInfo, Sha256 => mm_spki_sha256 m
    | SubjectPublicKeyInfo, Sha512 => mm_spki_sha512 m
    end in
  constant_time_eq candidate (pr_association_data record).

Definition dane_match (index : Z) (record : ParsedRecord) : DaneMatch :=
  {| dm_record_index := index; dm_usage := pr_usage record; dm_selector := pr_selector record;
     dm_matching_type := pr_matching_type record |}.

(** The loops of the two verifiers over the end-entity records. *)
Fixpoint first_match (material : MatchMaterial) (accepts : ParsedRecord -> bool) (index : Z)
    (records : list ParsedRecord) : option DaneMatch :=
  match records with
  | [] => None
  | record :: records =>
      if accepts record && material_matches material record then Some (dane_match index record)
      else first_match material accepts (index + 1) records
  end.

Definition verify_dane_ee (certificate_der : list Z) (records : list TlsaData) (limits : DaneLimits)
    : result DaneError DaneMatch :=
  if bool_decide (certificate_der = []) || (max_certificate_len limits <? zlen certificate_der)
  then Err CertificateLength else
  if bool_decide (records = []) then Err MissingTlsa else
  if max_tlsa_records limits <? zlen records then Err TooManyTlsaRecords else
  let? parsed_records := collect_results (parse_record limits) records in
  match List.find (fun record => bool_decide (pr_usage record <> DaneEe)) parsed_records with
  | Some record => Err (UnsupportedUsage (usage_code (pr_usage record)))
  | None =>
      let? spki := extract_subject_public_key_info certificate_der in
      if max_spki_len limits <? zlen spki then Err SpkiLength else
      ok_or (first_match (material_new certificate_der spki) (fun _ => true) 0 parsed_records) Mismatch
  end.

Definition validate_chain_inputs (certificate_chain_der : list (list Z)) (tlsa_base_domain : list Z)
    (records : list TlsaData) (limits : DaneLimits) : result DaneError unit :=
  if bool_decide (certificate_chain_der = []) || (max_chain_certificates limits <? zlen certificate_chain_der)
  then Err ChainLength else
  if bool_decide (tlsa_base_domain = []) || (253 <? zlen tlsa_base_domain) || bool_decide (0 ∈ tlsa_base_domain)
  then Err InvalidServerName else
  if existsb (fun certificate => bool_decide (certificate = []) || (max_certificate_len limits <? zlen certificate))
       certificate_chain_der then Err CertificateLength else
  if bool_decide (records = []) then Err MissingTlsa else
  if max_tlsa_records limits <? zlen records then Err TooManyTlsaRecords else
  Ok tt.

(** ** The private path of a DANE-TA record *)

Class OpenSsl := {
  X509 : Type; StoreBuilder : Type; VerifyParam : Type; Store : Type;
  x509_from_der : list Z -> option X509;
  x509_to_der : X509 -> option (list Z);
  store_builder_new : option StoreBuilder;
  add_cert : StoreBuilder -> X509 -> option StoreBuilder;
  verify_param_new : option VerifyParam;
  PARTIAL_CHAIN : Z; TRUSTED_FIRST : Z; X509_STRICT : Z; NO_PARTIAL_WILDCARDS : Z;
  set_flags : VerifyParam -> Z -> option VerifyParam;
  set_depth : VerifyParam -> Z -> VerifyParam;
  set_hostflags : VerifyParam -> Z -> VerifyParam;
  set_host : VerifyParam -> list Z -> option VerifyParam;
  set_time : VerifyParam -> Z -> VerifyParam;
  set_param : StoreBuilder -> VerifyParam -> option StoreBuilder;
  build : StoreBuilder -> Store;
  (** [X509StoreContext::new], [Stack::push] and [init] with [verify_cert] *)
  verify_cert : Store -> X509 -> list X509 -> option bool }.

Definition i32_max : Z := 2147483647.

Context `{OpenSsl}.

(** The presented certificates other than the anchor, in order. *)
Fixpoint untrusted_chain (presented : list X509) (anchor_der : list Z) : option (list X509) :=
  match presented with
  | [] => Some []
  | certificate :: presented =>
      x509_to_der certificate ≫= fun der =>
      untrusted_chain presented anchor_der ≫= fun others =>
      Some (if constant_time_eq der anchor_der then others else certificate :: others)
  end.

Definition validate_private_chain (leaf : X509) (presented_chain : list X509) (anchor : X509)
    (anchor_der server_name : list Z) (validation_unix_time : Z) (limits : DaneLimits) : bool :=
  let outcome :=
    store_builder_new ≫= fun store_builder =>
    add_cert store_builder anchor ≫= fun store_builder =>
    verify_param_new ≫= fun parameters =>
    set_flags parameters (Z.lor (Z.lor PARTIAL_CHAIN TRUSTED_FIRST) X509_STRICT) ≫= fun parameters =>
    (if i32_max <? max_chain_certificates limits then None
     else Some (set_depth parameters (max_chain_certificates limits))) ≫= fun parameters =>
    let parameters := set_hostflags parameters NO_PARTIAL_WILDCARDS in
    set_host parameters server_name ≫= fun parameters =>
    let parameters := set_time parameters validation_unix_time in
    set_param store_builder parameters ≫= fun store_builder =>
    let store := build store_builder in
    untrusted_chain (drop 1 presented_chain) anchor_der ≫= fun untrusted =>
    verify_cert store leaf untrusted in
  bool_decide (outcome = Some true).

(** The first presented certificate whose selected material a record names. *)
Fixpoint find_anchor (limits : DaneLimits) (record : ParsedRecord) (chain : list (list Z))
    : result DaneError (option (list Z)) :=
  match chain with
  | [] => Ok None
  | certificate :: chain =>
      let? spki := extract_subject_public_key_info certificate in
      if max_spki_len limits <? zlen spki then Err SpkiLength else
      if material_matches (material_new certificate spki) record then Ok (Some certificate)
      else find_anchor limits record chain
  end.

(** The anchor of a DANE-TA record; [None] passes on to the next record. *)
Definition anchor_der (limits : DaneLimits) (record : ParsedRecord) (chain : list (list Z)) (leaf : list Z)
    : result DaneError (option (list Z)) :=
  let data := pr_association_data record in
  if bool_decide (pr_selector record = FullCertificate) && bool_decide (pr_matching_type record = Exact) then
    if negb (constant_time_eq data leaf) && forallb (fun certificate => negb (constant_time_eq data certificate)) chain
    then Ok (Some data)
    else let? certificate := ok_or (List.find (constant_time_eq data) chain) Mismatch in Ok (Some certificate)
  else find_anchor limits record chain.

(** The loop over the DANE-TA records. *)
Fixpoint anchor_loop (chain : list (list Z)) (parsed_chain : list X509) (leaf : list Z) (leaf_certificate : X509)
    (tlsa_base_domain : list Z) (validation_unix_time : Z) (limits : DaneLimits)
    (saw_ta_match : bool) (index : Z) (records : list ParsedRecord) : result DaneError DaneMatch :=
  match records with
  | [] => if saw_ta_match then Err ChainValidation else Err Mismatch
  | record :: records =>
      let continue := fun saw => anchor_loop chain parsed_chain leaf leaf_certificate tlsa_base_domain
                        validation_unix_time limits saw (index + 1) records in
      if bool_decide (pr_usage record <> DaneTa) then continue saw_ta_match else
      let? matched := anchor_der limits record chain leaf in
      match matched with
      | None => continue saw_ta_match
      | Some der =>
          let? anchor := ok_or (x509_from_der der) MalformedCertificate in
          if validate_private_chain leaf_certificate parsed_chain anchor der tlsa_base_domain
               validation_unix_time limits
          then Ok (dane_match index record) else continue true
      end
  end.

Definition verify_dane_chain (certificate_chain_der : list (list Z)) (tlsa_base_domain : list Z)
    (records : list TlsaData) (validation_unix_time : Z) (limits : DaneLimits) : result DaneError DaneMatch :=
  let? _ := validate_chain_inputs certificate_chain_der tlsa_base_domain records limits in
  let? parsed_records := collect_results (parse_record limits) records in
  let? leaf := ok_or (head certificate_chain_der) ChainLength in
  let? leaf_spki := extract_subject_public_key_info leaf in
  if max_spki_len limits <? zlen leaf_spki then Err SpkiLength else
  match first_match (material_new leaf leaf_spki) (fun record => bool_decide (pr_usage record = DaneEe)) 0
          parsed_records with
  | Some matched => Ok matched
  | None =>
      let? parsed_chain :=
        collect_results (fun certificate => ok_or (x509_from_der certificate) MalformedCertificate)
          certificate_chain_der in
      let? leaf_certificate := ok_or (head parsed_chain) ChainLength in
      anchor_loop certificate_chain_der parsed_chain leaf leaf_certificate tlsa_base_domain
        validation_unix_time limits false 0 parsed_records
  end.
End matching.

(** ** What the records and the chain mean *)

Definition selector_code (s : Selector) : Z := match s with FullCertificate => 0 | SubjectPublicKeyInfo => 1 end.
Definition matching_code (t : MatchingType) : Z := match t with Exact => 0 | Sha256 => 1 | Sha512 => 2 end.

(** A supported record with association data of an acceptable length. *)
Definition record_denotes (limits : DaneLimits) (record : TlsaData) (p : ParsedRecord) : Prop :=
  tlsa_usage record = usage_code (pr_usage p) /\ tlsa_selector record = selector_code (pr_selector p) /\
  tlsa_matching_type record = matching_code (pr_matching_type p) /\
  tlsa_association_data record = pr_association_data p /\
  1 <= zlen (pr_association_data p) <= max_association_len limits /\
  match pr_matching_type p with
  | Exact => True
  | Sha256 => zlen (pr_association_data p) = 32
  | Sha512 => zlen (pr_association_data p) = 64
  end.

Section meaning.
Context `{DaneDigests}.

Definition selected_bytes (s : Selector) (certificate spki : list Z) : list Z :=
  match s with FullCertificate => certificate | SubjectPublicKeyInfo => spki end.
Definition associate (t : MatchingType) (bytes : list Z) : list Z :=
  match t with Exact => bytes | Sha256 => digest_sha256 bytes | Sha512 => digest_sha512 bytes end.

(** A record names the certificate with this public key. *)
Definition names (certificate spki : list Z) (p : ParsedRecord) : Prop :=
  associate (pr_matching_type p) (selected_bytes (pr_selector p) certificate spki) = pr_association_data p.

(** The first record, by position, that is eligible and names the certificate. *)
Definition first_naming (certificate spki : list Z) (eligible : ParsedRecord -> Prop)
    (records : list ParsedRecord) (m : DaneMatch) : Prop :=
  exists i p, records !! i = Some p /\ m = dane_match (Z.of_nat i) p /\ eligible p /\ names certificate spki p /\
    forall j q, (j < i)%nat -> records !! j = Some q -> eligible q -> ~ names certificate spki q.
End meaning.

(** What OpenSSL is told: the options of a verification and the trusted set. *)
Record VerifySettings := {
  vs_flags : Z; vs_depth : option Z; vs_hostflags : Z; vs_host : option (list Z); vs_time : option Z }.

(** The documented effect of the builder calls. *)
Class OpenSslLaws `{OpenSsl} := {
  trusted : StoreBuilder -> list X509;
  builder_settings : StoreBuilder -> option VerifySettings;
  settings : VerifyParam -> VerifySettings;
  store_trusted : Store -> list X509;
  store_settings : Store -> option VerifySettings;
  store_builder_new_law b : store_builder_new = Some b -> trusted b = [];
  add_cert_law b c b' : add_cert b c = Some b' -> trusted b' = trusted b ++ [c];
  verify_param_new_law p : verify_param_new = Some p -> vs_flags (settings p) = 0;
  set_flags_law p f p' : set_flags p f = Some p' ->
    vs_flags (settings p') = Z.lor (vs_flags (settings p)) f;
  set_depth_law p d : settings (set_depth p d) = let s := settings p in
    {| vs_flags := vs_flags s; vs_depth := Some d; vs_hostflags := vs_hostflags s; vs_host := vs_host s; vs_time := vs_time s |};
  set_hostflags_law p f : settings (set_hostflags p f) = let s := settings p in
    {| vs_flags := vs_flags s; vs_depth := vs_depth s; vs_hostflags := f; vs_host := vs_host s; vs_time := vs_time s |};
  set_host_law p h p' : set_host p h = Some p' -> settings p' = let s := settings p in
    {| vs_flags := vs_flags s; vs_depth := vs_depth s; vs_hostflags := vs_hostflags s; vs_host := Some h; vs_time := vs_time s |};
  set_time_law p t : settings (set_time p t) = let s := settings p in
    {| vs_flags := vs_flags s; vs_depth := vs_depth s; vs_hostflags := vs_hostflags s; vs_host := vs_host s; vs_time := Some t |};
  set_param_law b p b' : set_param b p = Some b' -> trusted b' = trusted b /\ builder_settings b' = Some (settings p);
  build_law b : store_trusted (build b) = trusted b /\ store_settings (build b) = builder_settings b }.
