(* ===== verification/DaneMatchProps.v ===== *)
(** * DANE verification is exact

    The theorems about [DaneMatch]: a leaf is accepted exactly when the first
    supported record that names it says so, and a chain is accepted through a
    DANE-TA record only when OpenSSL verifies the leaf on a path that trusts
    nothing but the anchor this record names. *)

From S2P Require Import Prelude DnsTypes DaneDer DaneDerProps DaneMatch.

(** ** Records *)

Lemma parse_record_denotes limits record p : parse_record limits record = Ok p <-> record_denotes limits record p.
Proof.
  destruct record as [u s t data], p as [pu ps pt pd]. unfold parse_record, record_denotes.
  cbn [tlsa_usage tlsa_selector tlsa_matching_type tlsa_association_data pr_usage pr_selector pr_matching_type
       pr_association_data].
  pose proof (zlen_nonneg data). split.
  - intros H1.
    destruct (match u with 2 => _ | _ => _ end) as [u'|] eqn:Eu; [|done].
    destruct (match s with 0 => _ | _ => _ end) as [s'|] eqn:Es; [|done].
    destruct (match t with 0 => _ | _ => _ end) as [t'|] eqn:Et; [|done].
    destruct (_ || _) eqn:Eg; [done|]. injection H1 as -> -> -> ->.
    assert (u = usage_code pu) as -> by (repeat (case_match; simplify_eq); done).
    assert (s = selector_code ps) as -> by (repeat (case_match; simplify_eq); done).
    assert (t = matching_code pt) as -> by (repeat (case_match; simplify_eq); done).
    breflect. split_and!; try done; [lia|].
    destruct pt; [done| |]; destruct_or!; breflect; done.
  - intros (-> & -> & -> & -> & Hl & Ht).
    assert (match usage_code pu with 2 => Ok DaneTa | 3 => Ok DaneEe | value => Err (UnsupportedUsage value) end = Ok pu)
      as -> by by destruct pu.
    assert (match selector_code ps with
      | 0 => Ok FullCertificate | 1 => Ok SubjectPublicKeyInfo | value => Err (UnsupportedSelector value) end = Ok ps)
      as -> by by destruct ps.
    assert (match matching_code pt with
      | 0 => Ok Exact | 1 => Ok Sha256 | 2 => Ok Sha512 | value => Err (UnsupportedMatchingType value) end = Ok pt)
      as -> by by destruct pt.
    zdecide. destruct pt; cbn; rewrite ?Ht; done.
Qed.

Lemma collect_results_ok {A B} (f : A -> result DaneError B) l ys :
  collect_results f l = Ok ys <-> Forall2 (fun x y => f x = Ok y) l ys.
Proof.
  revert ys. induction l as [|x l IH]; intros ys; simpl.
  - split; [intros [= <-]; constructor|]. by inversion 1.
  - split.
    + destruct (f x) as [y|] eqn:Ex; [|done]. destruct (collect_results f l) as [zs|] eqn:El; [|done].
      intros [= <-]. constructor; [done|by apply IH].
    + inversion 1 as [|? y ? zs Hx Hl]; subst. apply IH in Hl. by rewrite Hx, Hl.
Qed.

Lemma parse_records_denote limits records parsed :
  collect_results (parse_record limits) records = Ok parsed <-> Forall2 (record_denotes limits) records parsed.
Proof.
  rewrite collect_results_ok. split; intros Hl; (eapply Forall2_impl; [exact Hl|]); intros ? ? ?; by apply parse_record_denotes.
Qed.

(** ** Matching *)

Section matching.
Context `{DaneDigests}.

Lemma material_matches_names certificate spki p :
  material_matches (material_new certificate spki) p = true <-> names certificate spki p.
Proof.
  unfold material_matches, names. rewrite constant_time_eq_true. by destruct (pr_selector p), (pr_matching_type p).
Qed.

Lemma first_match_from certificate spki accepts index records m :
  first_match (material_new certificate spki) accepts index records = Some m <->
  exists i p, records !! i = Some p /\ m = dane_match (index + Z.of_nat i) p /\ accepts p = true /\
    names certificate spki p /\
    forall j q, (j < i)%nat -> records !! j = Some q -> accepts q = true -> ~ names certificate spki q.
Proof.
  revert index. induction records as [|p records IH]; intros index; cbn [first_match].
  { split; [done|]. by intros (i & p & Hi & _). }
  destruct (accepts p && _) eqn:E.
  - apply andb_true_iff in E as [Ea En]. apply material_matches_names in En. split.
    + intros [= <-]. exists 0%nat, p. rewrite Z.add_0_r. split_and!; try done. intros; lia.
    + intros ([|i] & q & Hi & -> & _ & _ & Hno); [injection Hi as <-; by rewrite Z.add_0_r|].
      by destruct (Hno 0%nat p ltac:(lia) eq_refl Ea).
  - assert (accepts p = true -> ~ names certificate spki p) as Hp.
    { intros Ea En. apply material_matches_names in En. by rewrite Ea, En in E. }
    rewrite IH. split.
    + intros (i & q & Hi & -> & Ha & Hn & Hno). exists (S i), q.
      split_and!; [done|f_equal; lia|done|done|]. intros [|j] q' Hj Hq; [injection Hq as <-; done|].
      apply (Hno j); [lia|done].
    + intros ([|i] & q & Hi & -> & Ha & Hn & Hno); [injection Hi as <-; by destruct Hp|].
      exists i, q. split_and!; [done|f_equal; lia|done|done|]. intros j q' Hj. apply (Hno (S j)); lia.
Qed.

Lemma first_match_naming certificate spki accepts records m :
  first_match (material_new certificate spki) accepts 0 records = Some m <->
  first_naming certificate spki (fun p => accepts p = true) records m.
Proof. rewrite first_match_from. unfold first_naming. by setoid_rewrite Z.add_0_l. Qed.

Lemma first_match_none certificate spki accepts index records :
  first_match (material_new certificate spki) accepts index records = None <->
  Forall (fun p => accepts p = true -> ~ names certificate spki p) records.
Proof.
  revert index. induction records as [|p records IH]; intros index; cbn [first_match]; [by split; constructor|].
  rewrite Forall_cons, <- (IH (index + 1)), <- material_matches_names.
  destruct (accepts p), (material_matches _ p); naive_solver.
Qed.

Lemma no_other_usage (records : list ParsedRecord) :
  List.find (fun record => bool_decide (pr_usage record <> DaneEe)) records = None <->
  Forall (fun p => pr_usage p = DaneEe) records.
Proof.
  induction records as [|p records IH]; simpl; [by split; constructor|]. rewrite Forall_cons.
  destruct (decide (pr_usage p = DaneEe)) as [E|E].
  - rewrite bool_decide_eq_false_2 by auto. naive_solver.
  - rewrite bool_decide_eq_true_2 by done. naive_solver.
Qed.

(** The conditions on the inputs of the end-entity check that lead to matching,
    with the records and the public key it then uses. *)
Definition ee_inputs (certificate : list Z) (records : list TlsaData) (limits : DaneLimits)
    (parsed : list ParsedRecord) (spki : list Z) : Prop :=
  1 <= zlen certificate <= max_certificate_len limits /\ 1 <= zlen records <= max_tlsa_records limits /\
  Forall2 (record_denotes limits) records parsed /\ Forall (fun p => pr_usage p = DaneEe) parsed /\
  certificate_with_spki certificate spki /\ zlen spki <= max_spki_len limits.

Lemma nonempty_zlen {A} (l : list A) : l <> [] <-> 1 <= zlen l.
Proof. split; [apply zlen_pos|]. intros H0 ->. by rewrite zlen_nil in H0. Qed.

Lemma verify_dane_ee_inputs certificate records limits parsed spki :
  slice_ok certificate -> ee_inputs certificate records limits parsed spki ->
  verify_dane_ee certificate records limits =
  ok_or (first_match (material_new certificate spki) (fun _ => true) 0 parsed) Mismatch.
Proof.
  intros Hok ([Hc1 Hc2] & [Hr1 Hr2] & Hp & Hu & Hs & Hl). unfold verify_dane_ee.
  apply nonempty_zlen in Hc1, Hr1. rewrite !bool_decide_eq_false_2 by done. zdecide. cbn [orb].
  apply parse_records_denote in Hp as ->. apply no_other_usage in Hu as ->.
  apply spki_extraction_iff in Hs as ->; [|done]. by zdecide.
Qed.

Lemma verify_dane_ee_reached certificate records limits r :
  slice_ok certificate -> verify_dane_ee certificate records limits = r ->
  (is_ok r = true \/ r = Err Mismatch) -> exists parsed spki, ee_inputs certificate records limits parsed spki.
Proof.
  intros Hok <- Hr. unfold verify_dane_ee in Hr.
  destruct (bool_decide (certificate = []) || _) eqn:Ec; [by destruct Hr|].
  destruct (bool_decide (records = [])) eqn:Er; [by destruct Hr|].
  destruct (max_tlsa_records limits <? _) eqn:Em; [by destruct Hr|].
  apply orb_false_iff in Ec as [Ec Ec']. breflect.
  destruct (collect_results _ _) as [parsed|e] eqn:Ep.
  2:{ exfalso. destruct Hr as [?|[= ->]]; [done|]. clear -Ep.
      revert Ep. induction records as [|x l IH]; simpl; [done|].
      destruct (parse_record limits x) as [y|e] eqn:Ex.
      - destruct (collect_results _ l); [done|]. intros [= ->]. by apply IH.
      - intros [= ->]. unfold parse_record in Ex. repeat (case_match; simplify_eq/=). }
  destruct (List.find _ _) as [q|] eqn:Ef; [by destruct Hr|]. apply no_other_usage in Ef.
  destruct (extract_subject_public_key_info certificate) as [spki|e] eqn:Es.
  2:{ apply strict_extract in Es as ->. by destruct Hr. }
  destruct (max_spki_len limits <? _) eqn:El; [by destruct Hr|]. breflect.
  exists parsed, spki. apply nonempty_zlen in Ec, Er. apply parse_records_denote in Ep.
  apply spki_extraction_iff in Es; [|done]. done.
Qed.

(** The end-entity check is exact. It returns a match iff all its bounds hold,
    every record of the set is supported and of usage DANE-EE, the certificate is
    well formed with a public key within bounds, and the match is the first record
    whose selected and hashed part of the certificate is the association data. It
    reports a mismatch iff all of that holds and no record names the certificate;
    so an unsupported record fails the check even beside a matching one. *)
Theorem dane_ee_exact certificate records limits : slice_ok certificate ->
  (forall m, verify_dane_ee certificate records limits = Ok m <->
    exists parsed spki, ee_inputs certificate records limits parsed spki /\
      first_naming certificate spki (fun _ => True) parsed m) /\
  (verify_dane_ee certificate records limits = Err Mismatch <->
    exists parsed spki, ee_inputs certificate records limits parsed spki /\
      Forall (fun p => ~ names certificate spki p) parsed).
Proof.
  intros Hok. split.
  - intros m. split.
    + intros E. destruct (verify_dane_ee_reached _ _ _ _ Hok E) as (parsed & spki & Hi); [by left|].
      exists parsed, spki. split; [done|]. rewrite (verify_dane_ee_inputs _ _ _ _ _ Hok Hi), ok_or_Ok in E.
      apply first_match_naming in E as (i & p & ? & ? & _ & ? & Hno). exists i, p. by split_and!; eauto.
    + intros (parsed & spki & Hi & i & p & ? & ? & _ & ? & Hno).
      rewrite (verify_dane_ee_inputs _ _ _ _ _ Hok Hi), ok_or_Ok. apply first_match_naming.
      exists i, p. by split_and!; eauto.
  - split.
    + intros E. destruct (verify_dane_ee_reached _ _ _ _ Hok E) as (parsed & spki & Hi); [by right|].
      exists parsed, spki. split; [done|]. rewrite (verify_dane_ee_inputs _ _ _ _ _ Hok Hi) in E.
      destruct (first_match _ _ _ _) eqn:Ef; [done|]. apply first_match_none in Ef.
      eapply Forall_impl; [exact Ef|]. cbn. eauto.
    + intros (parsed & spki & Hi & Hno). rewrite (verify_dane_ee_inputs _ _ _ _ _ Hok Hi).
      rewrite (proj2 (first_match_none _ _ _ _ _)); [done|]. eapply Forall_impl; [exact Hno|]. by intros.
Qed.

(** ** Chains *)

Definition chain_inputs (chain : list (list Z)) (domain : list Z) (records : list TlsaData) (limits : DaneLimits)
    : Prop :=
  1 <= zlen chain <= max_chain_certificates limits /\ 1 <= zlen domain <= 253 /\ (0 ∉ domain) /\
  Forall (fun c => 1 <= zlen c <= max_certificate_len limits) chain /\
  1 <= zlen records <= max_tlsa_records limits.

Lemma nonempty_decide {A} (l : list A) `{!Decision (l = [])} : bool_decide (l = []) = (zlen l <? 1).
Proof.
  apply Bool.eq_iff_eq_true. rewrite bool_decide_eq_true, Z.ltb_lt. pose proof (nonempty_zlen l).
  split; [intros ->; by rewrite zlen_nil|]. intros. destruct l as [|x l]; [done|].
  rewrite zlen_cons in *. pose proof (zlen_nonneg l). lia.
Qed.

Lemma validate_chain_inputs_ok chain domain records limits :
  validate_chain_inputs chain domain records limits = Ok tt <-> chain_inputs chain domain records limits.
Proof.
  unfold validate_chain_inputs, chain_inputs.
  rewrite !nonempty_decide. destruct (existsb _ chain) eqn:Ee.
  - assert (~ Forall (fun c => 1 <= zlen c <= max_certificate_len limits) chain) as Hno.
    { intros Hf. apply existsb_exists in Ee as (c & Hc & Hb). rewrite nonempty_decide in Hb.
      rewrite Forall_forall in Hf. apply list_elem_of_In, Hf in Hc. apply orb_true_iff in Hb. destruct_or!; breflect; lia. }
    split; [repeat case_match; done|naive_solver].
  - assert (Forall (fun c => 1 <= zlen c <= max_certificate_len limits) chain) as Hyes.
    { apply Forall_forall. intros c Hc. destruct (decide (1 <= zlen c <= max_certificate_len limits)) as [|Hn]; [done|].
      assert (existsb (fun c => bool_decide (c = []) || (max_certificate_len limits <? zlen c)) chain = true) as Ht
        by (apply existsb_exists; exists c; split; [by apply list_elem_of_In|];
            rewrite nonempty_decide, orb_true_iff, !Z.ltb_lt; lia).
      congruence. }
    split.
    + intros Hv. destruct (_ || (max_chain_certificates limits <? _)) eqn:E1; [done|].
      destruct (_ || bool_decide (0 ∈ domain)) eqn:E2; [done|].
      destruct (zlen records <? 1) eqn:E3; [done|]. destruct (max_tlsa_records limits <? _) eqn:E4; [done|]. breflect.
      split_and!; done.
    + intros ([? ?] & [? ?] & Hd & _ & [? ?]). rewrite (bool_decide_eq_false_2 (0 ∈ domain)) by done. by zdecide.
Qed.

(** A record names an anchor: a presented certificate with the material of the
    record, or for a full certificate the record itself carries it. *)
Definition names_anchor (limits : DaneLimits) (chain : list (list Z)) (p : ParsedRecord) (anchor : list Z) : Prop :=
  (pr_selector p = FullCertificate /\ pr_matching_type p = Exact /\ anchor = pr_association_data p) \/
  (anchor ∈ chain /\ exists spki, certificate_with_spki anchor spki /\ zlen spki <= max_spki_len limits /\
    names anchor spki p).

Lemma find_anchor_names limits p chain anchor :
  Forall slice_ok chain -> find_anchor limits p chain = Ok (Some anchor) ->
  anchor ∈ chain /\ exists spki, certificate_with_spki anchor spki /\ zlen spki <= max_spki_len limits /\
    names anchor spki p.
Proof.
  induction 1 as [|c chain Hc _ IH]; simpl; [done|].
  destruct (extract_subject_public_key_info c) as [spki|] eqn:Es; [|done].
  destruct (max_spki_len limits <? zlen spki) eqn:El; [done|]. breflect.
  destruct (material_matches _ p) eqn:Em.
  - intros [= ->]. split; [left|]. exists spki. apply spki_extraction_iff in Es; [|done].
    by apply material_matches_names in Em.
  - intros [? ?]%IH. split; [by right|done].
Qed.

Lemma anchor_der_names limits p chain leaf anchor :
  Forall slice_ok chain -> anchor_der limits p chain leaf = Ok (Some anchor) -> names_anchor limits chain p anchor.
Proof.
  intros Hok E. unfold anchor_der in E. destruct (_ && bool_decide (pr_matching_type p = Exact)) eqn:Ef.
  - breflect. left. split; [done|]. split; [done|]. case_match; [by injection E|].
    destruct (List.find _ _) as [c|] eqn:Ec; [|done]. injection E as <-.
    apply find_some in Ec as [_ Ec]. symmetry. by apply constant_time_eq_true.
  - right. by apply find_anchor_names.
Qed.

(** A full-certificate record never ends the search: its anchor always exists. *)
Lemma anchor_der_full limits p chain leaf :
  pr_selector p = FullCertificate -> pr_matching_type p = Exact -> leaf ∈ chain ->
  anchor_der limits p chain leaf = Ok (Some (pr_association_data p)).
Proof.
  intros Es Et Hl. unfold anchor_der. rewrite !bool_decide_eq_true_2 by done. cbn [andb].
  destruct (negb _ && _) eqn:E; [done|].
  destruct (List.find (constant_time_eq (pr_association_data p)) chain) as [c|] eqn:Ef.
  - apply find_some in Ef as [_ Ef]. apply constant_time_eq_true in Ef. by rewrite Ef.
  - exfalso. pose proof (find_none _ _ Ef) as Hn. apply andb_false_iff in E as [E|E].
    + breflect. apply list_elem_of_In in Hl. by rewrite (Hn _ Hl) in E.
    + assert (forallb (fun c => negb (constant_time_eq (pr_association_data p) c)) chain = true); [|congruence].
      apply forallb_forall. intros c Hc. by rewrite (Hn c Hc).
Qed.

(** What OpenSSL is asked to enforce on a DANE-TA path. *)
Context `{OpenSslLaws}.

Definition path_settings (domain : list Z) (time : Z) (limits : DaneLimits) : VerifySettings :=
  {| vs_flags := Z.lor (Z.lor PARTIAL_CHAIN TRUSTED_FIRST) X509_STRICT;
     vs_depth := Some (max_chain_certificates limits); vs_hostflags := NO_PARTIAL_WILDCARDS;
     vs_host := Some domain; vs_time := Some time |}.

(** OpenSSL verifies the leaf on a path that trusts this anchor and nothing else. *)
Definition private_path (presented : list X509) (anchor : list Z) (domain : list Z) (time : Z)
    (limits : DaneLimits) : Prop :=
  exists leaf certificate store,
    head presented = Some leaf /\ x509_from_der anchor = Some certificate /\
    store_trusted store = [certificate] /\ store_settings store = Some (path_settings domain time limits) /\
    verify_cert store leaf (filter (fun c => x509_to_der c <> Some anchor) (drop 1 presented)) = Some true.

Lemma untrusted_chain_filter presented anchor others :
  untrusted_chain presented anchor = Some others ->
  others = filter (fun c => x509_to_der c <> Some anchor) presented.
Proof.
  revert others. induction presented as [|c presented IH]; intros others; cbn [untrusted_chain]; [by intros [= <-]|].
  destruct (x509_to_der c) as [der|] eqn:Ed; [|done].
  destruct (untrusted_chain presented anchor) as [rest|]; [|done]. intros [= <-].
  rewrite filter_cons, <- (IH rest eq_refl), constant_time_eq_decide, Ed.
  destruct (decide (der = anchor)) as [->|Hne].
  - rewrite bool_decide_eq_true_2, decide_False by naive_solver. done.
  - rewrite bool_decide_eq_false_2, decide_True by congruence. done.
Qed.

Lemma validate_private_chain_path presented leaf certificate anchor domain time limits :
  head presented = Some leaf -> x509_from_der anchor = Some certificate ->
  validate_private_chain leaf presented certificate anchor domain time limits = true ->
  private_path presented anchor domain time limits.
Proof.
  intros Hl Hc E. unfold validate_private_chain in E. apply bool_decide_eq_true in E.
  apply bind_Some in E as (b0 & E0 & E). apply bind_Some in E as (b1 & E1 & E).
  apply bind_Some in E as (p0 & E2 & E). apply bind_Some in E as (p1 & E3 & E).
  apply bind_Some in E as (p2 & E4 & E). cbn zeta in E. apply bind_Some in E as (p3 & E5 & E).
  apply bind_Some in E as (b2 & E6 & E). apply bind_Some in E as (others & E7 & E).
  apply store_builder_new_law in E0. apply add_cert_law in E1. apply verify_param_new_law in E2.
  apply set_flags_law in E3. apply set_host_law in E5. apply set_param_law in E6 as [E6 E6'].
  apply untrusted_chain_filter in E7 as ->. destruct (i32_max <? _); [done|]. injection E4 as <-.
  exists leaf, certificate, (build b2). destruct (build_law b2) as [-> ->].
  split_and!; [done|done|by rewrite E6, E1, E0| |done].
  rewrite E6', set_time_law, E5, set_hostflags_law, set_depth_law. cbn. rewrite E3, E2. done.
Qed.

Lemma anchor_loop_sound chain presented leaf leaf_certificate domain time limits saw index records m :
  Forall slice_ok chain -> head presented = Some leaf_certificate ->
  anchor_loop chain presented leaf leaf_certificate domain time limits saw index records = Ok m ->
  exists i p anchor, records !! i = Some p /\ m = dane_match (index + Z.of_nat i) p /\ pr_usage p = DaneTa /\
    names_anchor limits chain p anchor /\ private_path presented anchor domain time limits.
Proof.
  intros Hok Hl. revert saw index. induction records as [|p records IH]; intros saw index; cbn [anchor_loop].
  { by destruct saw. }
  assert (forall saw, anchor_loop chain presented leaf leaf_certificate domain time limits saw (index + 1) records = Ok m ->
    exists i q anchor, (p :: records) !! i = Some q /\ m = dane_match (index + Z.of_nat i) q /\ pr_usage q = DaneTa /\
      names_anchor limits chain q anchor /\ private_path presented anchor domain time limits) as Hnext.
  { intros saw' (i & q & anchor & Hi & -> & Hr)%IH. exists (S i), q, anchor.
    split; [done|]. split; [f_equal; lia|done]. }
  destruct (bool_decide (pr_usage p <> DaneTa)) eqn:Eu; [apply Hnext|]. breflect. apply dec_stable in Eu.
  destruct (anchor_der limits p chain leaf) as [[anchor|]|e] eqn:Ea; [|apply Hnext|done].
  destruct (x509_from_der anchor) as [certificate|] eqn:Ex; [|done]. cbn [ok_or].
  destruct (validate_private_chain _ _ _ _ _ _ _) eqn:Ev; [|apply Hnext]. intros [= <-].
  exists 0%nat, p, anchor. rewrite Z.add_0_r. split_and!; try done; [by apply anchor_der_names in Ea|].
  by eapply validate_private_chain_path.
Qed.

(** The leaf, its key and the parsed records that both paths of the chain check use. *)
Definition chain_leaf (chain : list (list Z)) (records : list TlsaData) (limits : DaneLimits) (leaf spki : list Z)
    (parsed : list ParsedRecord) : Prop :=
  head chain = Some leaf /\ Forall2 (record_denotes limits) records parsed /\
  certificate_with_spki leaf spki /\ zlen spki <= max_spki_len limits.

(** C10. The chain check accepts only what a record authorises. A match is either the
    first DANE-EE record that names the leaf, or, when none does, a DANE-TA record
    that names an anchor (a presented certificate or the one it carries) and OpenSSL
    verified the leaf with that anchor as the only trusted certificate, the server
    name, the time, the depth and the strict flags set, and the other presented
    certificates, anchor excluded, as untrusted ones. And a DANE-EE match never
    depends on the chain, the name or the time. *)
Theorem dane_chain_sound chain domain records time limits : Forall slice_ok chain ->
  (forall m, verify_dane_chain chain domain records time limits = Ok m ->
    chain_inputs chain domain records limits /\ exists leaf spki parsed,
    chain_leaf chain records limits leaf spki parsed /\
    (first_naming leaf spki (fun p => pr_usage p = DaneEe) parsed m \/
     Forall (fun p => pr_usage p = DaneEe -> ~ names leaf spki p) parsed /\
     exists i p anchor presented, parsed !! i = Some p /\ m = dane_match (Z.of_nat i) p /\ pr_usage p = DaneTa /\
       Forall2 (fun c x => x509_from_der c = Some x) chain presented /\
       names_anchor limits chain p anchor /\ private_path presented anchor domain time limits)) /\
  (forall leaf spki parsed m, chain_inputs chain domain records limits ->
    chain_leaf chain records limits leaf spki parsed ->
    first_naming leaf spki (fun p => pr_usage p = DaneEe) parsed m ->
    verify_dane_chain chain domain records time limits = Ok m).
Proof.
  intros Hok.
  assert (forall l spki parsed, Forall (fun p => bool_decide (pr_usage p = DaneEe) = true -> ~ names l spki p) parsed <->
    Forall (fun p => pr_usage p = DaneEe -> ~ names l spki p) parsed) as Hnone
    by (intros; apply Forall_proper; [|done]; intros ?; by rewrite bool_decide_eq_true).
  assert (forall l spki parsed m, first_naming l spki (fun p => bool_decide (pr_usage p = DaneEe) = true) parsed m <->
    first_naming l spki (fun p => pr_usage p = DaneEe) parsed m) as Hfirst
    by (intros; unfold first_naming; by setoid_rewrite bool_decide_eq_true).
  split.
  - intros m E. unfold verify_dane_chain in E.
    destruct (validate_chain_inputs _ _ _ _) as [[]|] eqn:Ei; [|done]. apply validate_chain_inputs_ok in Ei.
    destruct (collect_results (parse_record limits) records) as [parsed|] eqn:Ep; [|done]. apply parse_records_denote in Ep.
    destruct (head chain) as [leaf|] eqn:El; [|done]. cbn [ok_or] in E.
    assert (slice_ok leaf) as Hleaf by (destruct chain; [done|]; injection El as ->; by inversion Hok).
    destruct (extract_subject_public_key_info leaf) as [spki|] eqn:Es; [|done]. apply spki_extraction_iff in Es; [|done].
    destruct (max_spki_len limits <? zlen spki) eqn:Em; [done|]. breflect.
    split; [done|]. exists leaf, spki, parsed. split; [done|].
    destruct (first_match _ _ _ _) as [m'|] eqn:Ef.
    + left. apply Hfirst, first_match_naming. by injection E as ->.
    + right. apply first_match_none, Hnone in Ef. split; [done|].
      destruct (collect_results _ chain) as [presented|] eqn:Ec; [|done]. apply collect_results_ok in Ec.
      destruct (head presented) as [leaf_certificate|] eqn:Eh; [|done]. cbn [ok_or] in E.
      apply anchor_loop_sound in E as (i & p & anchor & Hi & -> & Hu & Hn & Hp); [|done|done].
      exists i, p, anchor, presented. split_and!; try done.
      eapply Forall2_impl; [exact Ec|]. intros c x Hx. by apply ok_or_Ok in Hx.
  - intros leaf spki parsed m Hi (El & Hp & Hs & Hm) Hn. unfold verify_dane_chain.
    apply validate_chain_inputs_ok in Hi as ->. apply parse_records_denote in Hp as ->. rewrite El. cbn [ok_or].
    assert (slice_ok leaf) as Hleaf by (destruct chain; [done|]; injection El as ->; by inversion Hok).
    apply spki_extraction_iff in Hs as ->; [|done]. zdecide. apply Hfirst, first_match_naming in Hn. by rewrite Hn.
Qed.
End matching.

(** ** Concrete instances *)

#[local] Instance sample_digests : DaneDigests := {| digest_sha256 := fun l => l; digest_sha512 := fun l => l |}.

(** A toy OpenSSL: every byte string is a certificate, and a path verifies when a
    trusted one ends with the last byte of the leaf. *)
#[local] Instance sample_openssl : OpenSsl :=
  {| X509 := list Z; StoreBuilder := list (list Z) * option VerifySettings; VerifyParam := VerifySettings;
     Store := list (list Z) * option VerifySettings; x509_from_der := Some; x509_to_der := Some;
     store_builder_new := Some ([], None); add_cert := fun b c => Some (b.1 ++ [c], b.2);
     verify_param_new := Some {| vs_flags := 0; vs_depth := None; vs_hostflags := 0; vs_host := None; vs_time := None |};
     PARTIAL_CHAIN := 1; TRUSTED_FIRST := 2; X509_STRICT := 4; NO_PARTIAL_WILDCARDS := 8;
     set_flags := fun s f => Some {| vs_flags := Z.lor (vs_flags s) f; vs_depth := vs_depth s;
       vs_hostflags := vs_hostflags s; vs_host := vs_host s; vs_time := vs_time s |};
     set_depth := fun s d => {| vs_flags := vs_flags s; vs_depth := Some d; vs_hostflags := vs_hostflags s;
       vs_host := vs_host s; vs_time := vs_time s |};
     set_hostflags := fun s f => {| vs_flags := vs_flags s; vs_depth := vs_depth s; vs_hostflags := f;
       vs_host := vs_host s; vs_time := vs_time s |};
     set_host := fun s h => Some {| vs_flags := vs_flags s; vs_depth := vs_depth s; vs_hostflags := vs_hostflags s;
       vs_host := Some h; vs_time := vs_time s |};
     set_time := fun s t => {| vs_flags := vs_flags s; vs_depth := vs_depth s; vs_hostflags := vs_hostflags s;
       vs_host := vs_host s; vs_time := Some t |};
     set_param := fun b s => Some (b.1, Some s); build := fun b => b;
     verify_cert := fun store leaf _ => Some (existsb (fun a => bool_decide (last a = last leaf)) store.1) |}.

#[local] Instance sample_openssl_laws : OpenSslLaws.
Proof.
  refine {| trusted := fst; builder_settings := snd; settings := fun s => s; store_trusted := fst;
            store_settings := snd |}; cbn; try done; intros; by simplify_eq.
Defined.

Definition sample_tlsa (usage selector : Z) (data : list Z) : TlsaData :=
  {| tlsa_usage := usage; tlsa_selector := selector; tlsa_matching_type := 0; tlsa_association_data := data |}.
Definition sample_ee_records : list TlsaData := [sample_tlsa 3 0 [1]; sample_tlsa 3 1 (der TAG_SEQUENCE sample_key)].
Definition sample_ta_records : list TlsaData := [sample_tlsa 3 0 [1]; sample_tlsa 2 0 [48; 1]].

Lemma dane_ee_exact_witness : slice_ok sample_certificate /\
  exists parsed spki, ee_inputs sample_certificate sample_ee_records dane_limits_default parsed spki.
Proof.
  assert (slice_ok sample_certificate) as Hok by (apply slice_ok_check; [by vm_compute|simpl; lia]).
  split; [exact Hok|].
  destruct (proj1 (proj1 (dane_ee_exact sample_certificate sample_ee_records dane_limits_default Hok)
    {| dm_record_index := 1; dm_usage := DaneEe; dm_selector := SubjectPublicKeyInfo; dm_matching_type := Exact |}))
    as (parsed & spki & Hi & _); [by vm_compute|by exists parsed, spki].
Defined.

Lemma dane_chain_sound_witness : Forall slice_ok [sample_certificate] /\
  chain_inputs [sample_certificate] [97] sample_ta_records dane_limits_default.
Proof.
  assert (Forall slice_ok [sample_certificate]) as Hok
    by (constructor; [apply slice_ok_check; [by vm_compute|simpl; lia]|constructor]).
  split; [exact Hok|].
  apply (proj1 (dane_chain_sound [sample_certificate] [97] sample_ta_records 5 dane_limits_default Hok)
    {| dm_record_index := 1; dm_usage := DaneTa; dm_selector := FullCertificate; dm_matching_type := Exact |}).
  by vm_compute.
Defined.
