(* ===== verification/Dnssec.v ===== *)
(** * DNSSEC validation

    Models [src/crates/hns-dnssec/src/lib.rs] up to denial proofs: canonical
    signed data, signature selection, DS digests and the chain of keysets. The
    cryptography and [memcmp::eq] are OpenSSL: the class [DnssecCrypto] has the
    operations the source calls, [None] being an error, or for [memcmp_eq] the
    documented panic on arguments of different lengths. A definition that can
    reach this panic returns an [option], [None] when it panics. *)

From S2P Require Import Prelude ByteOrder DnsTypes.

Definition ALGORITHM_RSASHA1 : Z := 5.
Definition ALGORITHM_RSASHA1_NSEC3 : Z := 7.
Definition ALGORITHM_RSASHA256 : Z := 8.
Definition ALGORITHM_RSASHA512 : Z := 10.
Definition ALGORITHM_ECDSA_P256_SHA256 : Z := 13.
Definition ALGORITHM_ECDSA_P384_SHA384 : Z := 14.
Definition ALGORITHM_ED25519 : Z := 15.
Definition ALGORITHM_ED448 : Z := 16.

Record DnssecLimits := {
  max_rrset_records : Z; max_signatures : Z; max_keys : Z; max_signed_data_len : Z;
  max_nsec3_iterations : Z; max_denial_records : Z }.

Definition dnssec_limits_default : DnssecLimits :=
  {| max_rrset_records := 1024; max_signatures := 64; max_keys := 64; max_signed_data_len := 4 * 1024 * 1024;
     max_nsec3_iterations := 500; max_denial_records := 256 |}.

Record VerifiedRrset := {
  vr_owner : Name; vr_record_type : RecordType; vr_key_tag : Z; vr_algorithm : Z; vr_inception : Z;
  vr_expiration : Z; vr_observed_at_unix : Z; vr_expires_at_unix : Z }.

Definition rrset_is_fresh_at (v : VerifiedRrset) (now : Z) : bool :=
  (vr_observed_at_unix v <=? now) && (now <? vr_expires_at_unix v).

Record AuthenticatedDnskeys := {
  ak_zone : Name; ak_records : list ResourceRecord; ak_delegation_key_tag : Z; ak_delegation_algorithm : Z;
  ak_observed_at_unix : Z; ak_expires_at_unix : Z }.

Definition keys_is_fresh_at (k : AuthenticatedDnskeys) (now : Z) : bool :=
  (ak_observed_at_unix k <=? now) && (now <? ak_expires_at_unix k).

Record SignedRrset := { sr_records : list ResourceRecord; sr_signatures : list ResourceRecord }.

Inductive Denial := NoData | NameError.

Inductive DnssecError :=
| EmptyRrset | Limit | RrsetMismatch | MissingSignature | MissingKey | InvalidKey
| UnsupportedAlgorithm (algorithm : Z) | UnsupportedDigest (digest_type : Z) | SignatureTime
| SignatureMismatch | UnsupportedRdata | DsMismatch | DenialMismatch.

(** ** OpenSSL *)

Inductive DigestAlg := MdSha1 | MdSha256 | MdSha384 | MdSha512.
Inductive Curve := X9_62_PRIME256V1 | SECP384R1.
Inductive EdId := ED25519 | ED448.

Class DnssecCrypto := {
  BigNum : Type; PKey : Type; Verifier : Type;
  message_digest : DigestAlg -> list Z -> option (list Z);
  bignum_from_slice : list Z -> option BigNum;
  (** [Rsa::from_public_components] and [PKey::from_rsa]: modulus, exponent *)
  rsa_public_key : BigNum -> BigNum -> option PKey;
  (** [EcPoint::from_bytes] on the curve's group, [EcKey::from_public_key], [PKey::from_ec_key] *)
  ec_public_key : Curve -> list Z -> option PKey;
  ecdsa_sig_der : BigNum -> BigNum -> option (list Z);
  ed_public_key : EdId -> list Z -> option PKey;
  verifier_new : DigestAlg -> PKey -> option Verifier;
  verifier_without_digest : PKey -> option Verifier;
  set_rsa_pkcs1 : Verifier -> option Verifier;
  verifier_update : Verifier -> list Z -> option Verifier;
  verifier_verify : Verifier -> list Z -> option bool;
  verify_oneshot : Verifier -> list Z -> list Z -> option bool;
  memcmp_eq : list Z -> list Z -> option bool }.

(** ** Records *)

Definition rrsig_for (record : ResourceRecord) (owner : Name) (record_type : RecordType) : option RrsigData :=
  if negb (bool_decide (rr_name record = owner)) || negb (rr_class record =? CLASS_IN)
     || negb (bool_decide (rr_type record = Rrsig)) then None else
  match rr_rdata record with
  | RdataRrsig signature => if bool_decide (sig_type_covered signature = record_type) then Some signature else None
  | _ => None
  end.

Definition dnskey_for (record : ResourceRecord) (owner : Name) : option DnskeyData :=
  if negb (bool_decide (rr_name record = owner)) || negb (rr_class record =? CLASS_IN)
     || negb (bool_decide (rr_type record = Dnskey)) then None else
  match rr_rdata record with RdataDnskey key => Some key | _ => None end.

Definition supported_algorithm (algorithm : Z) : bool :=
  bool_decide (algorithm ∈ [ALGORITHM_RSASHA1; ALGORITHM_RSASHA1_NSEC3; ALGORITHM_RSASHA256; ALGORITHM_RSASHA512;
    ALGORITHM_ECDSA_P256_SHA256; ALGORITHM_ECDSA_P384_SHA384; ALGORITHM_ED25519; ALGORITHM_ED448]).

(** [u32::wrapping_sub]. *)
Definition wrapping_sub32 (a b : Z) : Z := (a - b) mod 2 ^ 32.

Definition serial_le (left right : Z) : bool := (left =? right) || (wrapping_sub32 right left <? 0x80000000).
Definition serial_in_window (now inception expiration : Z) : bool :=
  serial_le inception now && serial_le now expiration.

(** [iter().min()]. *)
Definition list_min (l : list Z) : option Z :=
  match l with [] => None | x :: l => Some (foldr Z.min x l) end.

Definition records_expire_at (records : list ResourceRecord) (observed_at : Z) : Z :=
  observed_at + default 0 (list_min (map rr_ttl records)).

Definition rrset_expires_at (records : list ResourceRecord) (signature_record : ResourceRecord)
    (signature : RrsigData) (validation_time : Z) : Z :=
  let ttl_deadline := validation_time
    + default 0 (list_min (map rr_ttl records ++ [rr_ttl signature_record; sig_original_ttl signature])) in
  let signature_deadline := validation_time + wrapping_sub32 (sig_expiration signature) validation_time + 1 in
  Z.min ttl_deadline signature_deadline.

(** ** Canonical form *)

Definition encode_ds (ds : DsData) : list Z :=
  to_be 2 (ds_key_tag ds) ++ [ds_algorithm ds; ds_digest_type ds] ++ ds_digest ds.

Definition encode_dnskey (key : DnskeyData) : list Z :=
  to_be 2 (key_flags key) ++ [key_protocol key; key_algorithm key] ++ key_public_key key.

Definition encode_name (name : Name) : result DnssecError (list Z) := map_err (name_encode name) UnsupportedRdata.

(** The fixed fields of a signature, in front of the signer. *)
Definition rrsig_prefix (signature : RrsigData) : list Z :=
  to_be 2 (code (sig_type_covered signature)) ++ [sig_algorithm signature; sig_labels signature]
  ++ to_be 4 (sig_original_ttl signature) ++ to_be 4 (sig_expiration signature)
  ++ to_be 4 (sig_inception signature) ++ to_be 2 (sig_key_tag signature).

Definition encode_rrsig (signature : RrsigData) : result DnssecError (list Z) :=
  let? signer := encode_name (sig_signer signature) in
  Ok (rrsig_prefix signature ++ signer ++ sig_signature signature).

(** A length byte and its bytes. *)
Definition counted (bytes : list Z) : result DnssecError (list Z) :=
  if u8_max <? zlen bytes then Err UnsupportedRdata else Ok (zlen bytes :: bytes).

Fixpoint counted_all (strings : list (list Z)) : result DnssecError (list Z) :=
  match strings with
  | [] => Ok []
  | string :: strings =>
      let? head := counted string in let? tail := counted_all strings in Ok (head ++ tail)
  end.

Definition canonical_rdata (record : ResourceRecord) : result DnssecError (list Z) :=
  match rr_type record, rr_rdata record with
  | A, RdataA octets => Ok octets
  | Aaaa, RdataAaaa octets => Ok octets
  | Ns, RdataNs name | Cname, RdataCname name => encode_name name
  | Soa, RdataSoa soa =>
      let? mname := encode_name (soa_mname soa) in
      let? rname := encode_name (soa_rname soa) in
      Ok (mname ++ rname ++ to_be 4 (soa_serial soa) ++ to_be 4 (soa_refresh soa) ++ to_be 4 (soa_retry soa)
          ++ to_be 4 (soa_expire soa) ++ to_be 4 (soa_minimum soa))
  | Mx, RdataMx mx =>
      let? exchange := encode_name (mx_exchange mx) in Ok (to_be 2 (mx_preference mx) ++ exchange)
  | Txt, RdataTxt strings => counted_all strings
  | Srv, RdataSrv srv =>
      let? target := encode_name (srv_target srv) in
      Ok (to_be 2 (srv_priority srv) ++ to_be 2 (srv_weight srv) ++ to_be 2 (srv_port srv) ++ target)
  | Ds, RdataDs ds => Ok (encode_ds ds)
  | Dnskey, RdataDnskey key => Ok (encode_dnskey key)
  | Rrsig, RdataRrsig signature => encode_rrsig signature
  | Nsec, RdataNsec nsec =>
      let? next_domain := encode_name (nsec_next_domain nsec) in Ok (next_domain ++ nsec_type_bitmaps nsec)
  | Nsec3, RdataNsec3 nsec3 =>
      let? salt := counted (nsec3_salt nsec3) in
      let? next := counted (nsec3_next_hashed_owner nsec3) in
      Ok ([nsec3_hash_algorithm nsec3; nsec3_flags nsec3] ++ to_be 2 (nsec3_iterations nsec3) ++ salt ++ next
          ++ nsec3_type_bitmaps nsec3)
  | Tlsa, RdataTlsa tlsa =>
      Ok ([tlsa_usage tlsa; tlsa_selector tlsa; tlsa_matching_type tlsa] ++ tlsa_association_data tlsa)
  | (Svcb | Https | Unknown _), RdataOpaque raw => Ok raw
  | _, _ => Err UnsupportedRdata
  end.

Fixpoint canonical_labels (labels : list (list Z)) : result DnssecError (list Z) :=
  match labels with
  | [] => Ok [0]
  | label :: labels => let? head := counted label in let? tail := canonical_labels labels in Ok (head ++ tail)
  end.

Definition canonical_owner (owner : Name) (labels : Z) : result DnssecError (list Z) :=
  let owner_labels := name_labels owner in
  if zlen owner_labels <? labels then Err RrsetMismatch else
  let start := saturating_sub (zlen owner_labels) labels in
  let? labels_kept := ok_or (get_from owner_labels start) RrsetMismatch in
  let? encoded := canonical_labels labels_kept in
  Ok ((if labels <? zlen owner_labels then [1; 42] else []) ++ encoded).

Definition canonical_record (signature : RrsigData) (record : ResourceRecord) : result DnssecError (list Z) :=
  let? owner := canonical_owner (rr_name record) (sig_labels signature) in
  let? rdata := canonical_rdata record in
  if u16_max <? zlen rdata then Err Limit else
  Ok (owner ++ to_be 2 (code (rr_type record)) ++ to_be 2 (rr_class record)
      ++ to_be 4 (sig_original_ttl signature) ++ to_be 2 (zlen rdata) ++ rdata).

Fixpoint canonical_records (signature : RrsigData) (records : list ResourceRecord)
    : result DnssecError (list (list Z)) :=
  match records with
  | [] => Ok []
  | record :: records =>
      let? head := canonical_record signature record in
      let? tail := canonical_records signature records in Ok (head :: tail)
  end.

(** The loop that appends the sorted records within the byte bound. *)
Fixpoint append_records (maximum : Z) (output : list Z) (records : list (list Z)) : result DnssecError (list Z) :=
  match records with
  | [] => Ok output
  | record :: records =>
      if maximum <? saturating_add (zlen output) (zlen record) then Err Limit
      else append_records maximum (output ++ record) records
  end.

Definition canonical_signed_data (records : list ResourceRecord) (signature : RrsigData) (maximum : Z)
    : result DnssecError (list Z) :=
  let? signer := encode_name (sig_signer signature) in
  let? canonical := canonical_records signature records in
  append_records maximum (rrsig_prefix signature ++ signer) (sort_keys (fun bytes => bytes) canonical).

Definition rrsig_signed_data := canonical_signed_data.

(** ** Key tags *)

(** One turn of the loop of [dnskey_tag], on the index and the accumulator. *)
Definition tag_step (st : Z * Z) (byte : Z) : Z * Z :=
  let '(index, accumulator) := st in
  (index + 1, (accumulator + if Z.land index 1 =? 0 then Z.shiftl byte 8 else byte) mod 2 ^ 32).

Definition dnskey_tag (key : DnskeyData) : Z :=
  let '(_, accumulator) := fold_left tag_step (encode_dnskey key) (0, 0) in
  let accumulator := (accumulator + Z.land (Z.shiftr accumulator 16) 0xffff) mod 2 ^ 32 in
  Z.land accumulator 0xffff.

(** ** Signatures and digests *)

Section crypto.
Context `{DnssecCrypto}.

Definition verify_digest (digest : DigestAlg) (key : PKey) (data signature : list Z) (rsa : bool) : bool :=
  match verifier_new digest key with
  | None => false
  | Some verifier =>
      match (if rsa then set_rsa_pkcs1 verifier else Some verifier) with
      | None => false
      | Some verifier =>
          default false (verifier_update verifier data ≫= fun verifier => verifier_verify verifier signature)
      end
  end.

(** The exponent and the modulus of an RSA key. *)
Definition rsa_components (raw : list Z) : option (list Z * list Z) :=
  head raw ≫= fun first =>
  (if first =? 0
   then get raw 1 ≫= fun high => get raw 2 ≫= fun low => Some (from_be [high; low], 3)
   else Some (first, 1)) ≫= fun '(exponent_size, offset) =>
  if exponent_size =? 0 then None else
  checked_add offset exponent_size ≫= fun exponent_end =>
  get_range raw offset exponent_end ≫= fun exponent =>
  get_from raw exponent_end ≫= fun modulus =>
  if bool_decide (modulus = []) then None else Some (exponent, modulus).

Definition verify_rsa (digest : DigestAlg) (public_key data signature : list Z) : bool :=
  match rsa_components public_key with
  | None => false
  | Some (exponent, modulus) =>
      match bignum_from_slice exponent ≫= fun exponent =>
            bignum_from_slice modulus ≫= fun modulus => rsa_public_key modulus exponent with
      | None => false
      | Some key => verify_digest digest key data signature true
      end
  end.

Definition verify_ecdsa (curve : Curve) (coordinate_size : Z) (digest : DigestAlg)
    (public_key data signature : list Z) : bool :=
  if negb (zlen public_key =? 2 * coordinate_size) || negb (zlen signature =? 2 * coordinate_size) then false else
  match ec_public_key curve (4 :: public_key) with
  | None => false
  | Some key =>
      match bignum_from_slice (default [] (get_range signature 0 coordinate_size)) ≫= fun r =>
            bignum_from_slice (default [] (get_from signature coordinate_size)) ≫= fun s => ecdsa_sig_der r s with
      | None => false
      | Some der => verify_digest digest key data der false
      end
  end.

Definition verify_ed (id : EdId) (public_key data signature : list Z) : bool :=
  match ed_public_key id public_key with
  | None => false
  | Some key =>
      match verifier_without_digest key with
      | None => false
      | Some verifier => default false (verify_oneshot verifier signature data)
      end
  end.

Definition verify_signature (algorithm : Z) (public_key data signature : list Z) : bool :=
  if (algorithm =? ALGORITHM_RSASHA1) || (algorithm =? ALGORITHM_RSASHA1_NSEC3)
  then verify_rsa MdSha1 public_key data signature else
  if algorithm =? ALGORITHM_RSASHA256 then verify_rsa MdSha256 public_key data signature else
  if algorithm =? ALGORITHM_RSASHA512 then verify_rsa MdSha512 public_key data signature else
  if algorithm =? ALGORITHM_ECDSA_P256_SHA256
  then verify_ecdsa X9_62_PRIME256V1 32 MdSha256 public_key data signature else
  if algorithm =? ALGORITHM_ECDSA_P384_SHA384
  then verify_ecdsa SECP384R1 48 MdSha384 public_key data signature else
  if algorithm =? ALGORITHM_ED25519 then verify_ed ED25519 public_key data signature else
  if algorithm =? ALGORITHM_ED448 then verify_ed ED448 public_key data signature else
  false.

Definition digest_ds (digest_type : Z) (data : list Z) : result DnssecError (list Z) :=
  let? digest := match digest_type with
                 | 1 => Ok MdSha1 | 2 => Ok MdSha256 | 4 => Ok MdSha384
                 | value => Err (UnsupportedDigest value) end in
  ok_or (message_digest digest data) (UnsupportedDigest digest_type).

(** ** One RRset *)

(** What the scan over the signatures has seen. *)
Record SignatureScan := {
  sc_covering : Z; sc_saw_current : bool; sc_saw_supported : bool; sc_saw_key : bool; sc_unsupported : option Z }.

Definition scan_start : SignatureScan :=
  {| sc_covering := 0; sc_saw_current := false; sc_saw_supported := false; sc_saw_key := false;
     sc_unsupported := None |}.

(** A usable key for a signature: owner, class, protocol, not revoked, algorithm and tag. *)
Definition signing_key (signature : RrsigData) (record : ResourceRecord) : option DnskeyData :=
  dnskey_for record (sig_signer signature) ≫= fun key =>
  if negb (key_protocol key =? 3) || negb (Z.land (key_flags key) 0x0080 =? 0) then None else
  if negb (key_algorithm key =? sig_algorithm signature) || negb (dnskey_tag key =? sig_key_tag signature)
  then None else Some key.

(** The loop over the keys: whether one verified, and whether one was usable. *)
Fixpoint try_keys (signature : RrsigData) (signed : list Z) (saw_key : bool) (keys : list ResourceRecord)
    : bool * bool :=
  match keys with
  | [] => (false, saw_key)
  | record :: keys =>
      match signing_key signature record with
      | None => try_keys signature signed saw_key keys
      | Some key =>
          if verify_signature (sig_algorithm signature) (key_public_key key) signed (sig_signature signature)
          then (true, true) else try_keys signature signed true keys
      end
  end.

Definition scan_error (s : SignatureScan) : DnssecError :=
  if sc_covering s =? 0 then MissingSignature else
  if negb (sc_saw_current s) then SignatureTime else
  if negb (sc_saw_supported s) then UnsupportedAlgorithm (default 0 (sc_unsupported s)) else
  if negb (sc_saw_key s) then MissingKey else SignatureMismatch.

(** The loop over the signatures. *)
Fixpoint scan_signatures (first : ResourceRecord) (records keys : list ResourceRecord) (validation_time : Z)
    (limits : DnssecLimits) (s : SignatureScan) (signatures : list ResourceRecord)
    : result DnssecError VerifiedRrset :=
  match signatures with
  | [] => Err (scan_error s)
  | signature_record :: rest =>
      let continue := fun s => scan_signatures first records keys validation_time limits s rest in
      match rrsig_for signature_record (rr_name first) (rr_type first) with
      | None => continue s
      | Some signature =>
          if negb (sig_labels signature =? zlen (name_labels (rr_name first))) then continue s else
          let covering := saturating_add (sc_covering s) 1 in
          if negb (serial_in_window validation_time (sig_inception signature) (sig_expiration signature))
          then continue {| sc_covering := covering; sc_saw_current := sc_saw_current s;
                           sc_saw_supported := sc_saw_supported s; sc_saw_key := sc_saw_key s;
                           sc_unsupported := sc_unsupported s |} else
          if negb (supported_algorithm (sig_algorithm signature))
          then continue {| sc_covering := covering; sc_saw_current := true;
                           sc_saw_supported := sc_saw_supported s; sc_saw_key := sc_saw_key s;
                           sc_unsupported := match sc_unsupported s with
                                             | Some a => Some a | None => Some (sig_algorithm signature) end |} else
          let? signed := rrsig_signed_data records signature (max_signed_data_len limits) in
          let '(found, saw_key) := try_keys signature signed (sc_saw_key s) keys in
          if (found : bool) then
            Ok {| vr_owner := rr_name first; vr_record_type := rr_type first; vr_key_tag := sig_key_tag signature;
                  vr_algorithm := sig_algorithm signature; vr_inception := sig_inception signature;
                  vr_expiration := sig_expiration signature; vr_observed_at_unix := validation_time;
                  vr_expires_at_unix := rrset_expires_at records signature_record signature validation_time |}
          else continue {| sc_covering := covering; sc_saw_current := true; sc_saw_supported := true;
                           sc_saw_key := saw_key; sc_unsupported := sc_unsupported s |}
      end
  end.

Definition verify_rrset (records signatures keys : list ResourceRecord) (validation_time : Z)
    (limits : DnssecLimits) : result DnssecError VerifiedRrset :=
  match records with
  | [] => Err EmptyRrset
  | first :: _ =>
      if (max_rrset_records limits <? zlen records) || (max_signatures limits <? zlen signatures)
         || (max_keys limits <? zlen keys) then Err Limit else
      if negb (rr_class first =? CLASS_IN)
         || (bool_decide (rr_type first = Rrsig) || bool_decide (rr_type first = Opt))
         || existsb (fun record => negb (bool_decide (rr_name record = rr_name first))
              || negb (bool_decide (rr_type record = rr_type first)) || negb (rr_class record =? CLASS_IN)) records
      then Err RrsetMismatch else
      scan_signatures first records keys validation_time limits scan_start signatures
  end.

(** ** Delegations *)

(** The records of [verify_ds] that name the key. *)
Definition ds_candidate (owner : Name) (key : DnskeyData) (record : ResourceRecord) : option DsData :=
  match rr_rdata record with
  | RdataDs ds =>
      if negb (bool_decide (rr_name record = owner)) || negb (rr_class record =? CLASS_IN)
         || negb (bool_decide (rr_type record = Ds)) || negb (ds_key_tag ds =? dnskey_tag key)
         || negb (ds_algorithm ds =? key_algorithm key) then None else Some ds
  | _ => None
  end.

(** The loop over the DS records. *)
Fixpoint ds_loop (owner : Name) (key : DnskeyData) (digest_input : list Z) (saw_candidate : bool)
    (unsupported : option Z) (records : list ResourceRecord) : option (result DnssecError unit) :=
  match records with
  | [] =>
      Some (match unsupported with
            | Some value => if saw_candidate then Err (UnsupportedDigest value) else Err DsMismatch
            | None => Err DsMismatch end)
  | record :: records =>
      match ds_candidate owner key record with
      | None => ds_loop owner key digest_input saw_candidate unsupported records
      | Some ds =>
          match digest_ds (ds_digest_type ds) digest_input with
          | Ok digest =>
              memcmp_eq digest (ds_digest ds) ≫= fun equal : bool =>
              if equal then Some (Ok tt) else ds_loop owner key digest_input true unsupported records
          | Err (UnsupportedDigest value) =>
              ds_loop owner key digest_input true
                (match unsupported with Some v => Some v | None => Some value end) records
          | Err error => Some (Err error)
          end
      end
  end.

Definition verify_ds (owner : Name) (key : DnskeyData) (records : list ResourceRecord)
    : option (result DnssecError unit) :=
  if negb (key_protocol key =? 3) || negb (Z.land (key_flags key) 0x0080 =? 0) then Some (Err InvalidKey) else
  match encode_name owner with
  | Err e => Some (Err e)
  | Ok name => ds_loop owner key (name ++ encode_dnskey key) false None records
  end.

(** The signatures over the keyset that a given key made. *)
Definition covering_signatures (zone : Name) (key : DnskeyData) (signatures : list ResourceRecord)
    : list ResourceRecord :=
  List.filter (fun record =>
    match rrsig_for record zone Dnskey with
    | Some signature => (sig_key_tag signature =? dnskey_tag key) && (sig_algorithm signature =? key_algorithm key)
    | None => false
    end) signatures.

(** The loop over the keys of a zone. *)
Fixpoint authenticate_loop (zone : Name) (trusted_ds dnskeys signatures : list ResourceRecord)
    (validation_time : Z) (limits : DnssecLimits) (saw_ds_match : bool) (keys : list ResourceRecord)
    : option (result DnssecError AuthenticatedDnskeys) :=
  match keys with
  | [] => Some (Err (if saw_ds_match then SignatureMismatch else DsMismatch))
  | key_record :: keys =>
      let continue := fun saw =>
        authenticate_loop zone trusted_ds dnskeys signatures validation_time limits saw keys in
      match dnskey_for key_record zone with
      | None => continue saw_ds_match
      | Some key =>
          if Z.land (key_flags key) 0x0100 =? 0 then continue saw_ds_match else
          verify_ds zone key trusted_ds ≫= fun ds =>
          if negb (is_ok ds) then continue saw_ds_match else
          match verify_rrset dnskeys (covering_signatures zone key signatures) [key_record]
                  validation_time limits with
          | Ok verified =>
              Some (Ok {| ak_zone := zone; ak_records := dnskeys; ak_delegation_key_tag := dnskey_tag key;
                          ak_delegation_algorithm := key_algorithm key; ak_observed_at_unix := validation_time;
                          ak_expires_at_unix := Z.min (vr_expires_at_unix verified)
                                                      (records_expire_at trusted_ds validation_time) |})
          | Err _ => continue true
          end
      end
  end.

Definition authenticate_dnskeys (zone : Name) (trusted_ds dnskeys signatures : list ResourceRecord)
    (validation_time : Z) (limits : DnssecLimits) : option (result DnssecError AuthenticatedDnskeys) :=
  if bool_decide (dnskeys = []) then Some (Err EmptyRrset) else
  authenticate_loop zone trusted_ds dnskeys signatures validation_time limits false dnskeys.

Definition verify_rrset_with_keys (keys : AuthenticatedDnskeys) (records signatures : list ResourceRecord)
    (validation_time : Z) (limits : DnssecLimits) : result DnssecError VerifiedRrset :=
  if negb (keys_is_fresh_at keys validation_time) then Err SignatureTime else
  let? v := verify_rrset records signatures (ak_records keys) validation_time limits in
  Ok {| vr_owner := vr_owner v; vr_record_type := vr_record_type v; vr_key_tag := vr_key_tag v;
        vr_algorithm := vr_algorithm v; vr_inception := vr_inception v; vr_expiration := vr_expiration v;
        vr_observed_at_unix := vr_observed_at_unix v;
        vr_expires_at_unix := Z.min (vr_expires_at_unix v) (ak_expires_at_unix keys) |}.

Definition authenticate_child_dnskeys (parent : AuthenticatedDnskeys) (child_zone : Name)
    (child_ds child_dnskeys : SignedRrset) (validation_time : Z) (limits : DnssecLimits)
    : option (result DnssecError AuthenticatedDnskeys) :=
  match verify_rrset_with_keys parent (sr_records child_ds) (sr_signatures child_ds) validation_time limits with
  | Err e => Some (Err e)
  | Ok verified =>
      if negb (bool_decide (vr_owner verified = child_zone)) || negb (bool_decide (vr_record_type verified = Ds))
      then Some (Err RrsetMismatch) else
      authenticate_dnskeys child_zone (sr_records child_ds) (sr_records child_dnskeys)
        (sr_signatures child_dnskeys) validation_time limits ≫= fun child =>
      Some (result_map (fun k =>
        {| ak_zone := ak_zone k; ak_records := ak_records k; ak_delegation_key_tag := ak_delegation_key_tag k;
           ak_delegation_algorithm := ak_delegation_algorithm k;
           ak_observed_at_unix := Z.max (Z.max (ak_observed_at_unix k) (ak_observed_at_unix parent))
                                        (vr_observed_at_unix verified);
           ak_expires_at_unix := Z.min (Z.min (ak_expires_at_unix k) (ak_expires_at_unix parent))
                                       (vr_expires_at_unix verified) |}) child)
  end.
End crypto.
