(* ===== verification/DnssecProps.v ===== *)
(** * DNSSEC validation is sound

    The theorems about [Dnssec]: what a verified RRset and an authenticated
    keyset rest on, when each error arises, how deadlines shrink along a chain of
    delegations, that signed data do not depend on the order of the records, where
    they differ from RFC 4034, and when comparing DS digests panics. *)

From Stdlib Require Import Sorting.Sorted.
From S2P Require Import Prelude ByteOrder DnsTypes Dnssec.

Arguments Z.land : simpl never.
Arguments to_be : simpl never.

(** ** Signed data *)

Lemma canonical_records_ok signature records canonical :
  canonical_records signature records = Ok canonical <->
  Forall2 (fun r c => canonical_record signature r = Ok c) records canonical.
Proof.
  revert canonical. induction records as [|r records IH]; intros canonical; simpl.
  - split; [intros [= <-]; constructor|]. by inversion 1.
  - split.
    + destruct (canonical_record signature r) as [c|] eqn:Er; [|done].
      destruct (canonical_records signature records) as [cs|]; [|done]. intros [= <-]. constructor; [done|by apply IH].
    + inversion 1 as [|? c ? cs Hr Hl]; subst. rewrite Hr. apply IH in Hl. by rewrite Hl.
Qed.

Lemma append_records_ok maximum output records data :
  0 <= maximum <= u64_max ->
  append_records maximum output records = Ok data -> data = output ++ concat records.
Proof.
  intros Hm. revert output. induction records as [|r records IH]; intros output; simpl.
  - intros [= <-]. by rewrite app_nil_r.
  - case_match; [done|]. intros ->%IH. by rewrite <- app_assoc.
Qed.

Lemma Forall2_perm {X Y} (R : X -> Y -> Prop) l1 l2 k1 :
  l1 ≡ₚ l2 -> Forall2 R l1 k1 -> exists k2, k1 ≡ₚ k2 /\ Forall2 R l2 k2.
Proof.
  intros Hp. revert k1. induction Hp as [|x l1 l2 _ IH|x y l|l1 l2 l3 _ IH1 _ IH2]; intros k1 Hf.
  - exists k1. by inversion Hf; subst.
  - inversion Hf as [|? b ? k Hb Hk]; subst. destruct (IH k Hk) as (k2 & ? & ?). exists (b :: k2). by split; constructor.
  - inversion Hf as [|? b ? k Hb Hk]; subst. inversion Hk as [|? c ? k' Hc Hk']; subst.
    exists (c :: b :: k'). split; [constructor|]. by repeat constructor.
  - destruct (IH1 k1 Hf) as (k2 & Hp2 & H2). destruct (IH2 k2 H2) as (k3 & Hp3 & H3). exists k3.
    split; [by rewrite Hp2|done].
Qed.

(** The bytes a signature covers do not depend on the order of the records. *)
Lemma signed_data_perm records1 records2 signature maximum data :
  records1 ≡ₚ records2 ->
  rrsig_signed_data records1 signature maximum = Ok data -> rrsig_signed_data records2 signature maximum = Ok data.
Proof.
  intros Hp. unfold rrsig_signed_data, canonical_signed_data. destruct (encode_name _) as [signer|]; [|done].
  destruct (canonical_records signature records1) as [c1|] eqn:E1; [|done]. apply canonical_records_ok in E1.
  assert (exists c2, canonical_records signature records2 = Ok c2 /\ c1 ≡ₚ c2) as (c2 & -> & Hc).
  { destruct (Forall2_perm _ _ _ _ Hp E1) as (c2 & Hc & H2).
    exists c2. split; [by apply canonical_records_ok|done]. }
  by rewrite (sort_keys_canonical (fun bytes : list Z => bytes) _ _ Hc).
Qed.

(** ** The order of RFC 4034 *)

(** Section 6.3: the records in the order of their RDATA alone. *)
Fixpoint rfc4034_records (signature : RrsigData) (records : list ResourceRecord)
    : result DnssecError (list (list Z * list Z)) :=
  match records with
  | [] => Ok []
  | record :: records =>
      let? rdata := canonical_rdata record in
      let? wire := canonical_record signature record in
      let? tail := rfc4034_records signature records in Ok ((rdata, wire) :: tail)
  end.

Definition rfc4034_signed_data (records : list ResourceRecord) (signature : RrsigData) : result DnssecError (list Z) :=
  let? signer := encode_name (sig_signer signature) in
  let? pairs := rfc4034_records signature records in
  Ok (rrsig_prefix signature ++ signer ++ concat (map snd (sort_keys fst pairs))).

Lemma rfc4034_records_wires signature records canonical :
  canonical_records signature records = Ok canonical ->
  exists pairs, rfc4034_records signature records = Ok pairs /\ canonical = map snd pairs /\
    Forall2 (fun r p => canonical_rdata r = Ok p.1 /\ canonical_record signature r = Ok p.2) records pairs.
Proof.
  revert canonical. induction records as [|r records IH]; intros canonical; cbn.
  - intros [= <-]. exists []. split_and!; [done|done|constructor].
  - destruct (canonical_record signature r) as [wire|] eqn:Ew; [|done].
    destruct (canonical_records signature records) as [cs|]; [|done]. intros [= <-].
    destruct (IH cs eq_refl) as (pairs & Hp & -> & Hf). rewrite Hp.
    assert (exists rdata, canonical_rdata r = Ok rdata) as [rdata Er].
    { unfold canonical_record in Ew. destruct (canonical_owner _ _); [|done]. destruct (canonical_rdata r); [eauto|done]. }
    rewrite Er. exists ((rdata, wire) :: pairs). split_and!; [done|done|by constructor].
Qed.

(** Every record of one set has the same bytes in front of its RDATA, apart from
    the length of the RDATA. *)
Lemma canonical_record_head signature first r rdata wire :
  rr_name r = rr_name first -> rr_type r = rr_type first -> rr_class r = rr_class first ->
  canonical_rdata r = Ok rdata -> canonical_record signature r = Ok wire ->
  exists owner, canonical_owner (rr_name first) (sig_labels signature) = Ok owner /\
    wire = (owner ++ to_be 2 (code (rr_type first)) ++ to_be 2 (rr_class first)
            ++ to_be 4 (sig_original_ttl signature) ++ to_be 2 (zlen rdata)) ++ rdata.
Proof.
  intros En Et Ec Ed Ew. unfold canonical_record in Ew. rewrite En, Et, Ec, Ed in Ew.
  destruct (canonical_owner _ _) as [owner|]; [|done]. case_match; [done|]. apply Ok_inj in Ew as <-.
  exists owner. split; [done|]. by rewrite <- !app_assoc.
Qed.

(** Two MX records of one name: preference 10 with a longer exchange, and 20. *)
Definition sample_mx (preference : Z) (exchange : list (list Z)) : ResourceRecord :=
  {| rr_name := {| name_labels := [[97]] |}; rr_type := Mx; rr_class := CLASS_IN; rr_ttl := 60;
     rr_rdata := RdataMx {| mx_preference := preference; mx_exchange := {| name_labels := exchange |} |} |}.
Definition sample_mx_records : list ResourceRecord := [sample_mx 10 [[98; 98]]; sample_mx 20 [[99]]].
Definition sample_mx_signature : RrsigData :=
  {| sig_type_covered := Mx; sig_algorithm := 8; sig_labels := 1; sig_original_ttl := 60; sig_expiration := 9;
     sig_inception := 1; sig_key_tag := 5; sig_signer := {| name_labels := [] |}; sig_signature := [] |}.

(** C38. Signed data and RFC 4034. The bytes a signature covers do not depend on the
    order of the records, and they are those of section 6.3, records in the order of
    their RDATA, whenever all RDATA of the set have one length. In general they are
    not: the code orders whole records, in which the length of the RDATA comes first,
    so that it puts the MX record of preference 20 with a short exchange before the
    one of preference 10 with a longer one, and refuses a set signed as the RFC says. *)
Theorem signed_data_order :
  (forall records1 records2 signature maximum data, records1 ≡ₚ records2 ->
    rrsig_signed_data records1 signature maximum = Ok data ->
    rrsig_signed_data records2 signature maximum = Ok data) /\
  (forall first records signature maximum data, 0 <= maximum <= u64_max ->
    Forall (fun r => rr_name r = rr_name first /\ rr_type r = rr_type first /\ rr_class r = rr_class first) records ->
    (forall r1 r2 d1 d2, r1 ∈ records -> r2 ∈ records -> canonical_rdata r1 = Ok d1 -> canonical_rdata r2 = Ok d2 ->
      zlen d1 = zlen d2) ->
    rrsig_signed_data records signature maximum = Ok data -> rfc4034_signed_data records signature = Ok data) /\
  (exists coded specified, rrsig_signed_data sample_mx_records sample_mx_signature 1000 = Ok coded /\
    rfc4034_signed_data sample_mx_records sample_mx_signature = Ok specified /\ coded <> specified).
Proof.
  split_and!.
  - intros. by eapply signed_data_perm.
  - intros first records signature maximum data Hm Hset Hlen E.
    unfold rrsig_signed_data, canonical_signed_data in E. unfold rfc4034_signed_data.
    destruct (encode_name _) as [signer|]; [|done]. destruct (canonical_records _ _) as [cs|] eqn:Ec; [|done].
    destruct (rfc4034_records_wires _ _ _ Ec) as (pairs & -> & -> & Hf).
    apply append_records_ok in E as ->; [|done]. rewrite sort_keys_map, <- app_assoc. do 5 f_equal.
    apply sort_keys_ext. intros [d1 w1] [d2 w2] H1 H2. cbn [fst snd].
    apply list_elem_of_lookup in H1 as [i1 H1], H2 as [i2 H2].
    destruct (Forall2_lookup_r _ _ _ _ _ Hf H1) as (r1 & Hr1 & Hd1 & Hw1).
    destruct (Forall2_lookup_r _ _ _ _ _ Hf H2) as (r2 & Hr2 & Hd2 & Hw2). cbn [fst snd] in *.
    apply list_elem_of_lookup_2 in Hr1, Hr2. rewrite Forall_forall in Hset.
    destruct (Hset r1 Hr1) as (? & ? & ?), (Hset r2 Hr2) as (? & ? & ?).
    destruct (canonical_record_head signature first r1 d1 w1) as (o1 & Ho1 & ->); try done.
    destruct (canonical_record_head signature first r2 d2 w2) as (o2 & Ho2 & ->); try done.
    rewrite Ho1 in Ho2. apply Ok_inj in Ho2 as ->. rewrite (Hlen r1 r2 d1 d2) by done. symmetry. apply bytes_leb_app.
  - do 2 eexists. split; [by vm_compute|]. split; [by vm_compute|]. done.
Qed.

(** ** The scan over the signatures *)

Section crypto.
Context `{DnssecCrypto}.

(** A covering signature: for this owner and type, with every label of the owner. *)
Definition covering (first signature_record : ResourceRecord) (signature : RrsigData) : Prop :=
  rrsig_for signature_record (rr_name first) (rr_type first) = Some signature /\
  sig_labels signature = zlen (name_labels (rr_name first)).

Definition current (validation_time : Z) (signature : RrsigData) : Prop :=
  serial_in_window validation_time (sig_inception signature) (sig_expiration signature) = true.

Definition supported (signature : RrsigData) : Prop := supported_algorithm (sig_algorithm signature) = true.

(** A key of the set that may verify the signature: a DNSKEY record of the signer,
    protocol 3, not revoked, with the algorithm and the tag of the signature. *)
Definition usable (keys : list ResourceRecord) (signature : RrsigData) (key : DnskeyData) : Prop :=
  exists record, record ∈ keys /\ dnskey_for record (sig_signer signature) = Some key /\
    key_protocol key = 3 /\ Z.land (key_flags key) 0x0080 = 0 /\
    key_algorithm key = sig_algorithm signature /\ dnskey_tag key = sig_key_tag signature.

Lemma usable_iff keys signature key :
  usable keys signature key <-> exists record, record ∈ keys /\ signing_key signature record = Some key.
Proof.
  unfold usable, signing_key. split; intros (r & Hr & Hk); exists r; (split; [done|]).
  - destruct Hk as (-> & Hp & Hf & Ha & Ht). cbn. by rewrite Hp, Hf, Ha, Ht, !Z.eqb_refl.
  - destruct (dnskey_for r _) as [k|]; [|done]. cbn in Hk.
    repeat (case_match; [done|]). simplify_eq. breflect. done.
Qed.

Definition verifies (records : list ResourceRecord) (limits : DnssecLimits) (signature : RrsigData)
    (key : DnskeyData) : Prop :=
  exists signed, rrsig_signed_data records signature (max_signed_data_len limits) = Ok signed /\
    verify_signature (sig_algorithm signature) (key_public_key key) signed (sig_signature signature) = true.

(** A signature of the list that a key of the set verifies. *)
Definition signed_by (first : ResourceRecord) (records signatures keys : list ResourceRecord) (validation_time : Z)
    (limits : DnssecLimits) (signature_record : ResourceRecord) (signature : RrsigData) (key : DnskeyData) : Prop :=
  signature_record ∈ signatures /\ covering first signature_record signature /\ current validation_time signature /\
  supported signature /\ usable keys signature key /\ verifies records limits signature key.

Lemma try_keys_found signature signed saw keys saw' :
  try_keys signature signed saw keys = (true, saw') ->
  exists key, usable keys signature key /\
    verify_signature (sig_algorithm signature) (key_public_key key) signed (sig_signature signature) = true.
Proof.
  revert saw. induction keys as [|record keys IH]; intros saw; simpl; [done|].
  destruct (signing_key signature record) as [key|] eqn:Ek.
  - destruct (verify_signature _ _ _ _) eqn:Ev.
    + intros _. exists key. split; [|done]. apply usable_iff. exists record. split; [left|done].
    + intros (k & (r & ? & ?)%usable_iff & ?)%IH. exists k. split; [|done]. apply usable_iff. exists r. split; [by right|done].
  - intros (k & (r & ? & ?)%usable_iff & ?)%IH. exists k. split; [|done]. apply usable_iff. exists r. split; [by right|done].
Qed.

Lemma try_keys_none signature signed saw keys saw' :
  try_keys signature signed saw keys = (false, saw') ->
  (forall key, usable keys signature key ->
    verify_signature (sig_algorithm signature) (key_public_key key) signed (sig_signature signature) = false) /\
  (saw' = true <-> saw = true \/ exists key, usable keys signature key).
Proof.
  setoid_rewrite usable_iff. revert saw. induction keys as [|record keys IH]; intros saw; simpl.
  - intros [= <-]. split; [by intros k (r & ?%elem_of_nil & _)|]. split; [by left|].
    by intros [|(k & r & ?%elem_of_nil & _)].
  - destruct (signing_key signature record) as [key|] eqn:Ek.
    + destruct (verify_signature _ _ _ _) eqn:Ev; [done|]. intros [Hno Hsaw]%IH. split.
      * intros k (r & [->|Hr]%elem_of_cons & Hk); [by rewrite Ek in Hk; injection Hk as <-|].
        apply Hno. by exists r.
      * rewrite Hsaw. split; [|by left]. intros _. right. exists key, record. split; [left|done].
    + intros [Hno Hsaw]%IH. split.
      * intros k (r & [->|Hr]%elem_of_cons & Hk); [congruence|]. apply Hno. by exists r.
      * rewrite Hsaw. split; (intros [?|(k & r & Hr & Hk)]; [by left|right; exists k, r]).
        -- split; [by right|done].
        -- apply elem_of_cons in Hr as [->|Hr]; [congruence|done].
Qed.

(** The record a success returns. *)
Definition verified_as (first : ResourceRecord) (records : list ResourceRecord) (validation_time : Z)
    (signature_record : ResourceRecord) (signature : RrsigData) : VerifiedRrset :=
  {| vr_owner := rr_name first; vr_record_type := rr_type first; vr_key_tag := sig_key_tag signature;
     vr_algorithm := sig_algorithm signature; vr_inception := sig_inception signature;
     vr_expiration := sig_expiration signature; vr_observed_at_unix := validation_time;
     vr_expires_at_unix := rrset_expires_at records signature_record signature validation_time |}.

(** What the scan has seen of the signatures it went over. *)
Section scan.
Context (first : ResourceRecord) (records keys : list ResourceRecord) (t : Z) (limits : DnssecLimits).

Definition covers (r : ResourceRecord) : Prop := exists g, covering first r g.
Definition covers_now (r : ResourceRecord) : Prop := exists g, covering first r g /\ current t g.
Definition covers_supported (r : ResourceRecord) : Prop :=
  exists g, covering first r g /\ current t g /\ supported g.
Definition covers_keyed (r : ResourceRecord) : Prop :=
  exists g k, covering first r g /\ current t g /\ supported g /\ usable keys g k.
Definition covers_unsupported (a : Z) (r : ResourceRecord) : Prop :=
  exists g, covering first r g /\ current t g /\ ~ supported g /\ sig_algorithm g = a.
Definition covers_verified (r : ResourceRecord) : Prop :=
  exists g k, covering first r g /\ current t g /\ supported g /\ usable keys g k /\ verifies records limits g k.

Record scan_inv (seen : list ResourceRecord) (s : SignatureScan) : Prop := {
  si_nonneg : 0 <= sc_covering s;
  si_covering : sc_covering s <> 0 <-> Exists covers seen;
  si_current : sc_saw_current s = true <-> Exists covers_now seen;
  si_supported : sc_saw_supported s = true <-> Exists covers_supported seen;
  si_key : sc_saw_key s = true <-> Exists covers_keyed seen;
  si_unsupported : forall a, sc_unsupported s = Some a -> Exists (covers_unsupported a) seen;
  si_none : sc_saw_current s = true -> sc_saw_supported s = false -> is_Some (sc_unsupported s);
  si_unverified : ~ Exists covers_verified seen }.

Lemma scan_start_inv : scan_inv [] scan_start.
Proof.
  split; cbn; try done; try (split; [done|by inversion 1]). by inversion 1.
Qed.

Lemma exists_snoc (P : ResourceRecord -> Prop) seen x : Exists P (seen ++ [x]) <-> Exists P seen \/ P x.
Proof. rewrite Exists_app, Exists_cons, Exists_nil. naive_solver. Qed.

Lemma covering_fun r g g' : covering first r g -> covering first r g' -> g = g'.
Proof. unfold covering. intros [E _] [E' _]. congruence. Qed.

(** Every error condition of the scan, as an error of the whole. *)
Definition scan_refused (signatures : list ResourceRecord) (e : DnssecError) : Prop :=
  ~ Exists covers_verified signatures /\
  match e with
  | MissingSignature => ~ Exists covers signatures
  | SignatureTime => Exists covers signatures /\ ~ Exists covers_now signatures
  | UnsupportedAlgorithm a => Exists (covers_unsupported a) signatures /\ ~ Exists covers_supported signatures
  | MissingKey => Exists covers_supported signatures /\ ~ Exists covers_keyed signatures
  | SignatureMismatch => Exists covers_keyed signatures
  | _ => False
  end.

Lemma scan_error_refused seen s : scan_inv seen s -> scan_refused seen (scan_error s).
Proof.
  intros [Hn Hc Hcur Hsup Hkey Hun Hnone Hv]. unfold scan_error, scan_refused. split; [done|].
  destruct (sc_covering s =? 0) eqn:E0; breflect; [rewrite <- Hc; lia|].
  destruct (sc_saw_current s) eqn:E1; cbn [negb]; [|split; [by apply Hc|]; intros H0; by apply Hcur in H0].
  destruct (sc_saw_supported s) eqn:E2; cbn [negb].
  - destruct (sc_saw_key s) eqn:E3; cbn [negb]; [by apply Hkey|].
    split; [by apply Hsup|]. intros H0; by apply Hkey in H0.
  - destruct (Hnone eq_refl eq_refl) as [a Ea]. rewrite Ea. cbn. split; [by apply Hun|].
    intros H0; by apply Hsup in H0.
Qed.

(** One more record that covers nothing. *)
Lemma scan_inv_skip seen s r : scan_inv seen s -> ~ covers r -> scan_inv (seen ++ [r]) s.
Proof.
  intros [Hn Hc Hcur Hsup Hkey Hun Hnone Hv] Hno.
  assert (forall P : ResourceRecord -> Prop, (P r -> covers r) -> Exists P (seen ++ [r]) <-> Exists P seen) as Hsame
    by (intros P HP; rewrite exists_snoc; tauto).
  assert (covers_now r -> covers r) by (intros (g & ? & _); by exists g).
  assert (covers_supported r -> covers r) by (intros (g & ? & _); by exists g).
  assert (covers_keyed r -> covers r) by (intros (g & k & ? & _); by exists g).
  assert (covers_verified r -> covers r) by (intros (g & k & ? & _); by exists g).
  split; try done; rewrite ?Hsame by auto; try done. intros a Ha.
  rewrite Hsame by (intros (g & ? & _); by exists g). auto.
Qed.

(** One more covering signature, with what the scan records of it. *)
Lemma scan_inv_cover seen s r g s' :
  scan_inv seen s -> covering first r g ->
  sc_covering s' = saturating_add (sc_covering s) 1 ->
  (sc_saw_current s' = true <-> sc_saw_current s = true \/ current t g) ->
  (sc_saw_supported s' = true <-> sc_saw_supported s = true \/ current t g /\ supported g) ->
  (sc_saw_key s' = true <-> sc_saw_key s = true \/ current t g /\ supported g /\ exists k, usable keys g k) ->
  (forall a, sc_unsupported s' = Some a ->
    sc_unsupported s = Some a \/ current t g /\ ~ supported g /\ a = sig_algorithm g) ->
  (is_Some (sc_unsupported s) -> is_Some (sc_unsupported s')) ->
  (current t g -> ~ supported g -> is_Some (sc_unsupported s')) ->
  (current t g -> supported g -> forall k, usable keys g k -> ~ verifies records limits g k) ->
  scan_inv (seen ++ [r]) s'.
Proof.
  intros [Hn Hc Hcur Hsup Hkey Hun Hnone Hv] Hg E1 E2 E3 E4 E5 E6 E7 E8.
  assert (forall P : RrsigData -> Prop, (exists g', covering first r g' /\ P g') <-> P g) as Hat.
  { intros P. split; [intros (g' & Hg' & ?); by rewrite (covering_fun r g g')|eauto]. }
  split.
  - rewrite E1. unfold saturating_add. width_lia.
  - rewrite E1, exists_snoc, <- Hc. unfold saturating_add. split; [intros _; right; by exists g|]. intros _. width_lia.
  - rewrite E2, exists_snoc, Hcur. unfold covers_now. by rewrite Hat.
  - rewrite E3, exists_snoc, Hsup. unfold covers_supported. by rewrite Hat.
  - rewrite E4, exists_snoc, Hkey. unfold covers_keyed. f_equiv. split; [intros (? & ? & k & ?); by exists g, k|].
    intros (g' & k & Hg' & ? & ? & ?). rewrite (covering_fun r g g' Hg Hg'). eauto.
  - intros a [Ha|(? & ? & ->)]%E5; apply exists_snoc; [left; auto|]. right. by exists g.
  - intros Hs Hns. apply E2 in Hs as [Hs|Hs].
    + apply E6, Hnone; [done|]. destruct (sc_saw_supported s); [|done]. by rewrite (proj2 E3) in Hns by auto.
    + apply E7; [done|]. intros Hsu. by rewrite (proj2 E3) in Hns by auto.
  - rewrite exists_snoc. intros [?|(g' & k & Hg' & ? & ? & ? & ?)]; [done|].
    rewrite <- (covering_fun r g g' Hg Hg') in *. by eapply E8.
Qed.

(** A success comes from a verified signature, an error of the scan from having
    none; any other error is one of building the signed data. *)
Definition scan_spec (seen signatures : list ResourceRecord) (o : result DnssecError VerifiedRrset) : Prop :=
  match o with
  | Ok v => exists r g, r ∈ signatures /\ covering first r g /\ current t g /\ supported g /\
      (exists k, usable keys g k /\ verifies records limits g k) /\ v = verified_as first records t r g
  | Err e => scan_refused (seen ++ signatures) e \/
      exists r g, r ∈ signatures /\ covering first r g /\ current t g /\ supported g /\
        rrsig_signed_data records g (max_signed_data_len limits) = Err e
  end.

Lemma scan_spec_cons seen r signatures o : scan_spec (seen ++ [r]) signatures o -> scan_spec seen (r :: signatures) o.
Proof.
  unfold scan_spec. destruct o as [v|e]; rewrite <- ?app_assoc; cbn [app].
  - intros (r' & g & ? & ?). exists r', g. split; [by right|done].
  - intros [?|(r' & g & ? & ?)]; [by left|]. right. exists r', g. split; [by right|done].
Qed.

Lemma scan_outcome seen s signatures :
  scan_inv seen s ->
  scan_spec seen signatures (scan_signatures first records keys t limits s signatures).
Proof.
  revert seen s. induction signatures as [|r signatures IH]; intros seen s Hinv; cbn [scan_signatures].
  { left. rewrite app_nil_r. by apply scan_error_refused. }
  destruct (rrsig_for r _ _) as [g|] eqn:Eg.
  2:{ apply scan_spec_cons, IH, scan_inv_skip; [done|]. intros (g & E & _). congruence. }
  destruct (negb (sig_labels g =? _)) eqn:El; breflect.
  { apply scan_spec_cons, IH, scan_inv_skip; [done|]. intros (g' & E & ?). congruence. }
  assert (covering first r g) as Hg by done.
  destruct (negb (serial_in_window _ _ _)) eqn:Et; breflect.
  { assert (~ current t g) by (unfold current; congruence).
    eapply scan_spec_cons, IH, scan_inv_cover; cbn; try done; naive_solver. }
  destruct (negb (supported_algorithm _)) eqn:Ea; breflect.
  { assert (current t g /\ ~ supported g) as [? ?] by (unfold supported, current; split; congruence).
    eapply scan_spec_cons, IH, scan_inv_cover; cbn; try done; try naive_solver.
    - destruct (sc_unsupported s); naive_solver.
    - destruct (sc_unsupported s); naive_solver.
    - destruct (sc_unsupported s); naive_solver. }
  destruct (rrsig_signed_data records g _) as [signed|e] eqn:Es.
  2:{ right. exists r, g. split_and!; try done. left. }
  destruct (try_keys g signed (sc_saw_key s) keys) as [[] saw] eqn:Ek.
  - apply try_keys_found in Ek as (k & Hu & Hk). exists r, g. split_and!; try done; [left|].
    exists k. split; [done|]. by exists signed.
  - apply try_keys_none in Ek as [Hno Hsaw]. eapply scan_spec_cons, IH, scan_inv_cover; cbn; try done.
    + naive_solver.
    + unfold current, supported. naive_solver.
    + rewrite Hsaw. unfold current, supported. naive_solver.
    + naive_solver.
    + intros _ _ k Hk (signed' & E' & Hv). rewrite Es in E'. injection E' as <-. rewrite (Hno k Hk) in Hv. done.
Qed.
End scan.

(** ** One RRset *)

(** One class-IN RRset that may be signed. *)
Definition one_rrset (first : ResourceRecord) (records : list ResourceRecord) : Prop :=
  head records = Some first /\ rr_type first <> Rrsig /\ rr_type first <> Opt /\
  Forall (fun r => rr_name r = rr_name first /\ rr_type r = rr_type first /\ rr_class r = CLASS_IN) records.

Definition within_limits (records signatures keys : list ResourceRecord) (limits : DnssecLimits) : Prop :=
  zlen records <= max_rrset_records limits /\ zlen signatures <= max_signatures limits /\
  zlen keys <= max_keys limits.

Lemma rrset_guard first rest :
  negb (rr_class first =? CLASS_IN) || (bool_decide (rr_type first = Rrsig) || bool_decide (rr_type first = Opt))
   || existsb (fun record => negb (bool_decide (rr_name record = rr_name first))
        || negb (bool_decide (rr_type record = rr_type first)) || negb (rr_class record =? CLASS_IN)) (first :: rest)
  = false <-> one_rrset first (first :: rest).
Proof.
  rewrite !orb_false_iff, negb_false_iff, Z.eqb_eq, !bool_decide_eq_false. unfold one_rrset.
  assert (forall l, existsb (fun record => negb (bool_decide (rr_name record = rr_name first))
        || negb (bool_decide (rr_type record = rr_type first)) || negb (rr_class record =? CLASS_IN)) l = false <->
    Forall (fun r => rr_name r = rr_name first /\ rr_type r = rr_type first /\ rr_class r = CLASS_IN) l) as ->.
  { induction l as [|r l IH]; cbn [existsb]; [by split; constructor|].
    rewrite orb_false_iff, IH, Forall_cons, !orb_false_iff, !negb_false_iff, !bool_decide_eq_true, Z.eqb_eq. tauto. }
  rewrite Forall_cons. naive_solver.
Qed.

Lemma list_min_le l x : x ∈ l -> exists m, list_min l = Some m /\ m <= x.
Proof.
  destruct l as [|y l]; [by intros ?%elem_of_nil|]. intros Hx. exists (foldr Z.min y l). split; [done|].
  assert (foldr Z.min y l <= y /\ Forall (fun x => foldr Z.min y l <= x) l) as [H0 H1].
  { clear. induction l as [|z l [IH1 IH2]]; cbn; [split; [lia|constructor]|]. split; [lia|].
    constructor; [lia|]. eapply Forall_impl; [exact IH2|]. cbn. lia. }
  apply elem_of_cons in Hx as [->|Hx]; [done|]. rewrite Forall_forall in H1. auto.
Qed.

(** The deadline of a verified set: no later than any TTL or the signature allows. *)
Definition deadline_ok (records : list ResourceRecord) (t : Z) (r : ResourceRecord) (g : RrsigData) (deadline : Z) : Prop :=
  (forall x, x ∈ records -> deadline <= t + rr_ttl x) /\ deadline <= t + rr_ttl r /\
  deadline <= t + sig_original_ttl g /\ deadline <= t + (sig_expiration g - t) mod 2 ^ 32 + 1.

Lemma rrset_expires_ok records t r g : deadline_ok records t r g (rrset_expires_at records r g t).
Proof.
  unfold deadline_ok, rrset_expires_at, wrapping_sub32.
  assert (forall y, y ∈ map rr_ttl records ++ [rr_ttl r; sig_original_ttl g] ->
    default 0 (list_min (map rr_ttl records ++ [rr_ttl r; sig_original_ttl g])) <= y) as Hle.
  { intros y Hy. destruct (list_min_le _ y Hy) as (m & -> & Hm). done. }
  split_and!; [|pose proof (Hle (rr_ttl r))|pose proof (Hle (sig_original_ttl g))|lia].
  - intros x Hx. pose proof (Hle (rr_ttl x)) as Hx'.
    assert (rr_ttl x ∈ map rr_ttl records ++ [rr_ttl r; sig_original_ttl g]) by
      (apply elem_of_app; left; apply list_elem_of_fmap; by exists x). specialize (Hx' ltac:(done)). lia.
  - assert (rr_ttl r ∈ map rr_ttl records ++ [rr_ttl r; sig_original_ttl g]) by set_solver. specialize (H0 ltac:(done)). lia.
  - assert (sig_original_ttl g ∈ map rr_ttl records ++ [rr_ttl r; sig_original_ttl g]) by set_solver.
    specialize (H0 ltac:(done)). lia.
Qed.

(** Serial numbers (RFC 1982): at or after, within half the circle. *)
Lemma serial_le_iff a b : in_u32 a -> in_u32 b -> serial_le a b = true <-> (b - a) mod 2 ^ 32 < 2 ^ 31.
Proof.
  intros Ha Hb. unfold serial_le, wrapping_sub32. rewrite orb_true_iff, Z.eqb_eq, Z.ltb_lt.
  change 0x80000000 with (2 ^ 31). split; [|by right]. intros [->|?]; [|done]. by rewrite Z.sub_diag.
Qed.

Lemma verify_rrset_cases records signatures keys t limits :
  match verify_rrset records signatures keys t limits with
  | Ok v => exists first r g k, one_rrset first records /\ within_limits records signatures keys limits /\
      signed_by first records signatures keys t limits r g k /\ v = verified_as first records t r g
  | Err e =>
      (records = [] /\ e = EmptyRrset) \/ (~ within_limits records signatures keys limits /\ e = Limit) \/
      ((forall first, ~ one_rrset first records) /\ e = RrsetMismatch) \/
      exists first, one_rrset first records /\ within_limits records signatures keys limits /\
        (scan_refused first records keys t limits signatures e \/
         exists r g, r ∈ signatures /\ covering first r g /\ current t g /\ supported g /\
           rrsig_signed_data records g (max_signed_data_len limits) = Err e)
  end.
Proof.
  unfold verify_rrset. destruct records as [|first rest]; [by left|].
  destruct ((max_rrset_records limits <? _) || _ || _) eqn:El.
  { right; left. split; [|done]. intros (? & ? & ?). apply orb_true_iff in El as [El|El]; [apply orb_true_iff in El as [El|El]|];
      breflect; lia. }
  assert (within_limits (first :: rest) signatures keys limits) as Hlim.
  { apply orb_false_iff in El as [El ?]. apply orb_false_iff in El as [? ?]. breflect. done. }
  destruct (negb (rr_class first =? CLASS_IN) || _ || _) eqn:Eg.
  { right; right; left. split; [|done]. intros f (Hf & ?). injection Hf as <-.
    assert (one_rrset first (first :: rest)) as Hone by done. apply rrset_guard in Hone. congruence. }
  apply rrset_guard in Eg.
  pose proof (scan_outcome first (first :: rest) keys t limits [] scan_start signatures
    (scan_start_inv _ _ _ _ _)) as Hs.
  unfold scan_spec in Hs. destruct (scan_signatures _ _ _ _ _ _ _) as [v|e].
  - destruct Hs as (r & g & Hr & Hc & Ht & Hsu & (k & Hu & Hv) & ->). exists first, r, g, k. done.
  - right; right; right. exists first. done.
Qed.

Lemma list_min_perm l1 l2 : l1 ≡ₚ l2 -> list_min l1 = list_min l2.
Proof.
  assert (forall x l y, foldr Z.min (Z.min x y) l = Z.min x (foldr Z.min y l)) as Hout
    by (intros x l y; induction l as [|z l IH]; cbn; [done|rewrite IH; lia]).
  assert (forall l x, list_min (x :: l) = Some (match list_min l with Some m => Z.min x m | None => x end)) as Hc.
  { intros [|y l] x; cbn; [done|]. f_equal. by rewrite <- Hout, Z.min_comm, Hout, Z.min_comm. }
  induction 1 as [|x l1 l2 _ IH|x y l|l1 l2 l3 _ IH1 _ IH2]; [done|by rewrite !Hc, IH| |congruence].
  rewrite !Hc. f_equal. destruct (list_min l); lia.
Qed.

Lemma scan_perm first first' records records' keys t limits s signatures v :
  rr_name first = rr_name first' -> rr_type first = rr_type first' -> records ≡ₚ records' ->
  scan_signatures first records keys t limits s signatures = Ok v ->
  scan_signatures first' records' keys t limits s signatures = Ok v.
Proof.
  intros En Et Hp. revert s. induction signatures as [|r signatures IH]; intros s; cbn [scan_signatures]; [done|].
  rewrite <- En, <- Et. destruct (rrsig_for r _ _) as [g|]; [|apply IH].
  destruct (negb (sig_labels g =? _)); [apply IH|]. destruct (negb (serial_in_window _ _ _)); [apply IH|].
  destruct (negb (supported_algorithm _)); [apply IH|].
  destruct (rrsig_signed_data records g _) as [d|] eqn:Ed; [|done].
  rewrite (signed_data_perm _ _ _ _ _ Hp Ed). destruct (try_keys _ _ _ _) as [[] saw]; [|apply IH].
  intros [= <-]. do 2 f_equal. unfold rrset_expires_at.
  by rewrite (list_min_perm _ _ (Permutation_app_tail _ (Permutation_map rr_ttl Hp))).
Qed.

(** A set of records that all carry the same owner, type and class is one in any order. *)
Lemma one_rrset_perm first records records' :
  one_rrset first records -> records ≡ₚ records' ->
  exists first', one_rrset first' records' /\ rr_name first = rr_name first' /\ rr_type first = rr_type first'.
Proof.
  intros (Hh & H1 & H2 & Hf) Hp. rewrite Hp in Hf. destruct records' as [|first' rest].
  { apply Permutation_sym, Permutation_nil in Hp as ->. done. }
  exists first'. assert (rr_name first' = rr_name first /\ rr_type first' = rr_type first /\ _) as (En & Et & _)
    by (by apply Forall_cons in Hf as [? _]).
  split_and!; [|done|done]. unfold one_rrset. rewrite En, Et. done.
Qed.

(** C13. A verified RRset is one class-IN RRset within the bounds, signed by a usable
    key of the set (owner, protocol, not revoked, algorithm and tag) under a
    signature that covers it, names every label, is in its time window by serial
    arithmetic and is supported; its deadline exceeds neither a TTL, the original
    TTL nor the signature's expiration. Conversely such a signature is found, unless
    building signed data fails, and a refusal names the first test that no signature
    of the list passes. And the order of the records does not matter. *)
Theorem rrset_verified records signatures keys t limits :
  (forall v, verify_rrset records signatures keys t limits = Ok v ->
    exists first r g k, one_rrset first records /\ within_limits records signatures keys limits /\
      signed_by first records signatures keys t limits r g k /\ v = verified_as first records t r g /\
      deadline_ok records t r g (vr_expires_at_unix v)) /\
  (forall first, one_rrset first records -> within_limits records signatures keys limits ->
    (forall r g, r ∈ signatures -> covering first r g -> current t g -> supported g ->
      is_ok (rrsig_signed_data records g (max_signed_data_len limits)) = true) ->
    (is_ok (verify_rrset records signatures keys t limits) = true <->
      exists r g k, signed_by first records signatures keys t limits r g k) /\
    forall e, verify_rrset records signatures keys t limits = Err e ->
      scan_refused first records keys t limits signatures e) /\
  (forall records' v, records ≡ₚ records' -> verify_rrset records signatures keys t limits = Ok v ->
    verify_rrset records' signatures keys t limits = Ok v).
Proof.
  pose proof (verify_rrset_cases records signatures keys t limits) as Hcases. split_and!.
  - intros v E. rewrite E in Hcases. destruct Hcases as (first & r & g & k & H1 & H2 & H3 & ->).
    exists first, r, g, k. split_and!; try done. apply rrset_expires_ok.
  - intros first Hone Hlim Hdata.
    assert (forall e, verify_rrset records signatures keys t limits = Err e ->
      scan_refused first records keys t limits signatures e) as Herr.
    { intros e E. rewrite E in Hcases. destruct Hcases as [[-> _]|[[? _]|[[Hno _]|(f & Hf & _ & Hs)]]];
        [by destruct Hone|done|by destruct (Hno first)|].
      assert (f = first) as -> by (destruct Hf as [Ef _], Hone as [Eo _]; congruence).
      destruct Hs as [?|(r & g & Hr & Hc & Ht & Hsu & Ed)]; [done|]. specialize (Hdata r g Hr Hc Ht Hsu). by rewrite Ed in Hdata. }
    split; [|done]. split.
    + intros Eok. destruct (verify_rrset _ _ _ _ _) as [v|]; [|done].
      destruct Hcases as (f & r & g & k & Hf & _ & Hs & _).
      assert (f = first) as -> by (destruct Hf as [Ef _], Hone as [Eo _]; congruence). eauto.
    + intros (r & g & k & Hr & Hc & Ht & Hsu & Hu & Hv). destruct (verify_rrset _ _ _ _ _) as [v|e]; [done|].
      destruct (Herr e eq_refl) as [Hno _]. exfalso. apply Hno, Exists_exists. exists r. split; [done|]. exists g, k. done.
  - intros records' v Hp E. rewrite E in Hcases. destruct Hcases as (first & _ & _ & _ & Hone & Hlim & _).
    destruct (one_rrset_perm _ _ _ Hone Hp) as (first' & Hone' & En & Et).
    unfold verify_rrset in E |- *. destruct records as [|f rest]; [by destruct Hone|].
    destruct records' as [|f' rest']; [by destruct Hone'|].
    assert (f = first) as -> by (destruct Hone as [Eo _]; by injection Eo).
    assert (f' = first') as -> by (destruct Hone' as [Eo _]; by injection Eo).
    assert (zlen (first' :: rest') = zlen (first :: rest)) as -> by (unfold zlen; by rewrite Hp).
    destruct ((max_rrset_records limits <? _) || _ || _); [done|].
    apply rrset_guard in Hone, Hone'. rewrite Hone in E. rewrite Hone'. by eapply scan_perm.
Qed.
End crypto.

(** ** A concrete instance *)

(** A toy OpenSSL: a signature is the key's own bytes, a digest the input's length. *)
Definition sample_crypto : DnssecCrypto :=
  {| BigNum := list Z; PKey := list Z; Verifier := list Z; message_digest := fun _ d => Some [zlen d];
     bignum_from_slice := Some; rsa_public_key := fun n e => Some (n ++ e); ec_public_key := fun _ k => Some k;
     ecdsa_sig_der := fun r s => Some (r ++ s); ed_public_key := fun _ k => Some k; verifier_new := fun _ k => Some k;
     verifier_without_digest := Some; set_rsa_pkcs1 := Some; verifier_update := fun v _ => Some v;
     verifier_verify := fun v s => Some (bool_decide (v = s)); verify_oneshot := fun v s _ => Some (bool_decide (v = s));
     memcmp_eq := fun a b => if zlen a =? zlen b then Some (bool_decide (a = b)) else None |}.

Definition sample_zone : Name := {| name_labels := [[97]] |}.
Definition sample_dnskey : DnskeyData :=
  {| key_flags := 257; key_protocol := 3; key_algorithm := ALGORITHM_ED25519; key_public_key := [1; 2] |}.
Definition sample_key_record : ResourceRecord :=
  {| rr_name := sample_zone; rr_type := Dnskey; rr_class := CLASS_IN; rr_ttl := 60; rr_rdata := RdataDnskey sample_dnskey |}.
Definition sample_signature (covered : RecordType) : RrsigData :=
  {| sig_type_covered := covered; sig_algorithm := ALGORITHM_ED25519; sig_labels := 1; sig_original_ttl := 60;
     sig_expiration := 100; sig_inception := 0; sig_key_tag := dnskey_tag sample_dnskey; sig_signer := sample_zone;
     sig_signature := [1; 2] |}.
Definition sample_rrsig (covered : RecordType) : ResourceRecord :=
  {| rr_name := sample_zone; rr_type := Rrsig; rr_class := CLASS_IN; rr_ttl := 60;
     rr_rdata := RdataRrsig (sample_signature covered) |}.

Lemma rrset_verified_witness :
  exists v, verify_rrset (H := sample_crypto) [sample_key_record] [sample_rrsig Dnskey] [sample_key_record] 50
    dnssec_limits_default = Ok v /\
  exists first r g k, signed_by (H := sample_crypto) first [sample_key_record] [sample_rrsig Dnskey]
    [sample_key_record] 50 dnssec_limits_default r g k.
Proof.
  destruct (verify_rrset (H := sample_crypto) [sample_key_record] [sample_rrsig Dnskey] [sample_key_record] 50
    dnssec_limits_default) as [v|e] eqn:E; [|exfalso; revert E; vm_compute; discriminate].
  exists v. split; [reflexivity|].
  destruct (proj1 (rrset_verified (H := sample_crypto) _ _ _ _ _) v E) as (first & r & g & k & _ & _ & Hs & _).
  exists first, r, g, k. exact Hs.
Defined.

Lemma signed_data_order_witness :
  sample_mx_records ≡ₚ reverse sample_mx_records /\
  exists d, rrsig_signed_data (reverse sample_mx_records) sample_mx_signature 1000 = Ok d.
Proof.
  split; [by rewrite reverse_Permutation|]. destruct (rrsig_signed_data sample_mx_records sample_mx_signature 1000) as [d|e] eqn:E;
    [|exfalso; revert E; vm_compute; discriminate]. exists d.
  refine (proj1 signed_data_order sample_mx_records _ _ _ _ _ E). by rewrite reverse_Permutation.
Defined.
