(* ===== verification/DnssecChain.v ===== *)
(** * Delegations: keysets rest on DS records

    The theorems about [verify_ds], [authenticate_dnskeys] and
    [authenticate_child_dnskeys] of [Dnssec]: what an authenticated keyset rests
    on, how freshness is inherited down a chain, and when the digest comparison
    panics. *)

From Stdlib Require Import Relations.
From S2P Require Import Prelude ByteOrder DnsTypes Dnssec DnssecProps.

Arguments Z.land : simpl never.

(** What the source relies on of OpenSSL here: the documented behaviour of
    [memcmp::eq], which panics on arguments of different lengths. *)
Class MemcmpLaws `{DnssecCrypto} := {
  memcmp_same_length a b : zlen a = zlen b -> memcmp_eq a b = Some (bool_decide (a = b));
  memcmp_other_length a b : zlen a <> zlen b -> memcmp_eq a b = None }.

Section chain.
Context `{MemcmpLaws}.

(** A DS record that names the key, with the digest it should carry. *)
Definition ds_names (zone : Name) (key : DnskeyData) (record : ResourceRecord) (ds : DsData) (digest : list Z) : Prop :=
  ds_candidate zone key record = Some ds /\ exists name, encode_name zone = Ok name /\
  digest_ds (ds_digest_type ds) (name ++ encode_dnskey key) = Ok digest.

Definition key_valid (key : DnskeyData) : Prop := key_protocol key = 3 /\ Z.land (key_flags key) 0x0080 = 0.

Lemma ds_loop_ok zone key input saw unsupported records :
  ds_loop zone key input saw unsupported records = Some (Ok tt) ->
  exists record ds digest, record ∈ records /\ ds_candidate zone key record = Some ds /\
    digest_ds (ds_digest_type ds) input = Ok digest /\ ds_digest ds = digest.
Proof.
  revert saw unsupported. induction records as [|r records IH]; intros saw unsupported; cbn [ds_loop].
  { destruct unsupported; [by destruct saw|done]. }
  assert (forall saw unsupported, ds_loop zone key input saw unsupported records = Some (Ok tt) ->
    exists record ds digest, record ∈ r :: records /\ ds_candidate zone key record = Some ds /\
    digest_ds (ds_digest_type ds) input = Ok digest /\ ds_digest ds = digest) as Hnext
    by (intros s u (record & ds & digest & Hr & ?)%IH; exists record, ds, digest; split; [by right|done]).
  destruct (ds_candidate zone key r) as [ds|] eqn:Ed; [|apply Hnext].
  destruct (digest_ds _ input) as [digest|[]] eqn:Eg; try apply Hnext; try done.
  destruct (decide (zlen digest = zlen (ds_digest ds))) as [El|El].
  - rewrite memcmp_same_length by done. cbn. destruct (bool_decide _) eqn:Eb; [|apply Hnext]. breflect.
    intros _. exists r, ds, digest. split_and!; [left|done|done|done].
  - by rewrite memcmp_other_length.
Qed.

(** A DS record of the set authenticates the key. *)
Lemma verify_ds_ok zone key records :
  verify_ds zone key records = Some (Ok tt) ->
  key_valid key /\ exists record ds, record ∈ records /\ ds_names zone key record ds (ds_digest ds).
Proof.
  unfold verify_ds. destruct (negb (key_protocol key =? 3) || _) eqn:Ek; [done|]. breflect.
  destruct (encode_name zone) as [name|] eqn:En; [|done]. intros (r & ds & d & Hr & Hc & Hd & <-)%ds_loop_ok.
  split; [done|]. exists r, ds. split; [done|]. split; [done|]. by exists name.
Qed.

(** The comparison is reached only with digests of the right length. *)
Definition digests_fit (zone : Name) (key : DnskeyData) (records : list ResourceRecord) : Prop :=
  forall record ds digest, record ∈ records -> ds_names zone key record ds digest ->
    zlen (ds_digest ds) = zlen digest.

Lemma ds_loop_returns zone key input saw unsupported records :
  (forall record ds digest, record ∈ records -> ds_candidate zone key record = Some ds ->
    digest_ds (ds_digest_type ds) input = Ok digest -> zlen (ds_digest ds) = zlen digest) ->
  exists o, ds_loop zone key input saw unsupported records = Some o.
Proof.
  revert saw unsupported. induction records as [|r records IH]; intros saw unsupported Hfit; cbn [ds_loop]; [eauto|].
  assert (forall saw unsupported, exists o, ds_loop zone key input saw unsupported records = Some o) as Hnext
    by (intros; apply IH; intros; eapply Hfit; [by right|done|done]).
  destruct (ds_candidate zone key r) as [ds|] eqn:Ed; [|apply Hnext].
  destruct (digest_ds _ input) as [digest|[]] eqn:Eg; try apply Hnext; eauto.
  rewrite memcmp_same_length by (symmetry; eapply Hfit; [left|done|done]). cbn.
  destruct (bool_decide _); [eauto|apply Hnext].
Qed.

Lemma verify_ds_returns zone key records :
  digests_fit zone key records -> exists o, verify_ds zone key records = Some o.
Proof.
  intros Hfit. unfold verify_ds. destruct (_ || _); [eauto|]. destruct (encode_name zone) as [name|] eqn:En; [|eauto].
  apply ds_loop_returns. intros r ds d Hr Hc Hd. eapply Hfit; [done|]. split; [done|]. by exists name.
Qed.

Lemma ds_loop_panics zone key input saw unsupported before record after ds digest :
  (forall r, r ∈ before -> ds_candidate zone key r = None) -> ds_candidate zone key record = Some ds ->
  digest_ds (ds_digest_type ds) input = Ok digest -> zlen (ds_digest ds) <> zlen digest ->
  ds_loop zone key input saw unsupported (before ++ record :: after) = None.
Proof.
  intros Hbefore Hc Hd Hlen. induction before as [|r before IH]; cbn [ds_loop app].
  - by rewrite Hc, Hd, memcmp_other_length by auto.
  - rewrite (Hbefore r) by left. apply IH. intros x Hx. apply Hbefore. by right.
Qed.

Lemma verify_ds_panics zone key before record after ds digest :
  key_valid key -> (forall r, r ∈ before -> ds_candidate zone key r = None) ->
  ds_names zone key record ds digest -> zlen (ds_digest ds) <> zlen digest ->
  verify_ds zone key (before ++ record :: after) = None.
Proof.
  intros [Hp Hr] Hbefore [Hc (name & En & Hd)] Hlen. unfold verify_ds. rewrite Hp, Hr, En.
  rewrite !Z.eqb_refl. by eapply ds_loop_panics.
Qed.

(** ** Keysets *)

(** The evidence for the DNSKEY set of a zone: one of its keys, a zone key that a DS
    record names, verifies the whole set. *)
Definition keyset_evidence (zone : Name) (trusted_ds dnskeys signatures : list ResourceRecord) (t : Z)
    (limits : DnssecLimits) (k : AuthenticatedDnskeys) : Prop :=
  ak_zone k = zone /\ ak_records k = dnskeys /\
  Forall (fun r => rr_name r = zone /\ rr_type r = Dnskey /\ rr_class r = CLASS_IN) dnskeys /\
  exists key_record key ds_record ds, key_record ∈ dnskeys /\ dnskey_for key_record zone = Some key /\
    key_valid key /\ Z.land (key_flags key) 0x0100 <> 0 /\
    ds_record ∈ trusted_ds /\ ds_names zone key ds_record ds (ds_digest ds) /\
    ak_delegation_key_tag k = dnskey_tag key /\ ak_delegation_algorithm k = key_algorithm key /\
    exists first r g, signed_by first dnskeys signatures [key_record] t limits r g key /\
      deadline_ok dnskeys t r g (ak_expires_at_unix k).

Lemma covering_signatures_in zone key signatures r : r ∈ covering_signatures zone key signatures -> r ∈ signatures.
Proof. unfold covering_signatures. rewrite !list_elem_of_In, filter_In. by intros [? _]. Qed.

Lemma dnskey_for_fun record a b k k' : dnskey_for record a = Some k -> dnskey_for record b = Some k' -> k = k'.
Proof. unfold dnskey_for. repeat case_match; congruence. Qed.

Lemma dnskey_for_record record zone key :
  dnskey_for record zone = Some key -> rr_name record = zone /\ rr_type record = Dnskey /\ rr_class record = CLASS_IN.
Proof.
  unfold dnskey_for. destruct (negb _ || _ || _) eqn:E; [done|]. intros _.
  apply orb_false_iff in E as [E E3]. apply orb_false_iff in E as [E1 E2]. by breflect.
Qed.

Lemma deadline_ok_le records t r g d d' : deadline_ok records t r g d -> d' <= d -> deadline_ok records t r g d'.
Proof. intros (H1 & H2 & H3 & H4) Hle. split_and!; try lia. intros x Hx. specialize (H1 x Hx). lia. Qed.

Lemma authenticate_loop_ok zone trusted_ds dnskeys signatures t limits saw keys k :
  (forall r, r ∈ keys -> r ∈ dnskeys) ->
  authenticate_loop zone trusted_ds dnskeys signatures t limits saw keys = Some (Ok k) ->
  keyset_evidence zone trusted_ds dnskeys signatures t limits k /\ ak_observed_at_unix k = t /\
  ak_expires_at_unix k <= records_expire_at trusted_ds t.
Proof.
  intros Hin. revert saw. induction keys as [|kr keys IH]; intros saw; cbn [authenticate_loop]; [done|].
  assert (forall saw, authenticate_loop zone trusted_ds dnskeys signatures t limits saw keys = Some (Ok k) ->
    keyset_evidence zone trusted_ds dnskeys signatures t limits k /\ ak_observed_at_unix k = t /\
    ak_expires_at_unix k <= records_expire_at trusted_ds t) as Hnext
    by (apply IH; intros; apply Hin; by right).
  destruct (dnskey_for kr zone) as [key|] eqn:Ek; [|apply Hnext].
  destruct (Z.land (key_flags key) 256 =? 0) eqn:Ez; [apply Hnext|].
  destruct (verify_ds zone key trusted_ds) as [[[]|e]|] eqn:Ed; cbn [mbind option_bind is_ok negb]; [|apply Hnext|done].
  destruct (verify_rrset dnskeys _ [kr] t limits) as [v|] eqn:Ev; [|apply Hnext]. intros [= <-].
  cbn [ak_observed_at_unix ak_expires_at_unix]. split_and!; [|done|lia].
  apply verify_ds_ok in Ed as (Hval & dr & ds & Hdr & Hds).
  pose proof (verify_rrset_cases dnskeys (covering_signatures zone key signatures) [kr] t limits) as Hv.
  rewrite Ev in Hv. destruct Hv as (first & r & g & key' & (Hhead & _ & _ & Hall) & _ & Hs & ->).
  pose proof (rrset_expires_ok dnskeys t r g) as Hdl.
  destruct Hs as (Hr & Hc & Ht & Hsu & (kr' & Hkr & Hsk & Hrest) & Hver).
  apply list_elem_of_singleton in Hkr as ->.
  assert (key' = key) as -> by (by eapply dnskey_for_fun).
  destruct (dnskey_for_record _ _ _ Ek) as (Hn1 & Ht1 & Hc1).
  assert (kr ∈ dnskeys) as Hkr by (apply Hin; left).
  rewrite Forall_forall in Hall. destruct (Hall kr Hkr) as (Hn2 & Ht2 & _).
  unfold keyset_evidence. cbn. split_and!; [done|done| |].
  - apply Forall_forall. intros x Hx. destruct (Hall x Hx) as (? & ? & ?). split_and!; congruence.
  - exists kr, key, dr, ds. split_and!; try done; [by breflect|]. exists first, r, g. split.
    + split_and!; try done; [by eapply covering_signatures_in|]. exists kr. split; [left|by split].
    + eapply deadline_ok_le; [exact Hdl|]. cbn. lia.
Qed.

Lemma records_expire_le records t x : x ∈ records -> records_expire_at records t <= t + rr_ttl x.
Proof.
  intros Hx. unfold records_expire_at. destruct (list_min_le (map rr_ttl records) (rr_ttl x)) as (m & -> & Hm); cbn; [|lia].
  apply list_elem_of_fmap. by exists x.
Qed.

Lemma authenticate_dnskeys_ok zone trusted_ds dnskeys signatures t limits k :
  authenticate_dnskeys zone trusted_ds dnskeys signatures t limits = Some (Ok k) ->
  keyset_evidence zone trusted_ds dnskeys signatures t limits k /\ ak_observed_at_unix k = t /\
  forall x, x ∈ trusted_ds -> ak_expires_at_unix k <= t + rr_ttl x.
Proof.
  unfold authenticate_dnskeys. case_match; [done|]. intros (He & Ho & Hx)%authenticate_loop_ok; [|done].
  split_and!; [done|done|]. intros x Hin. pose proof (records_expire_le trusted_ds t x Hin). lia.
Qed.

Lemma authenticate_loop_returns zone trusted_ds dnskeys signatures t limits saw keys :
  (forall r key, r ∈ keys -> dnskey_for r zone = Some key -> digests_fit zone key trusted_ds) ->
  exists o, authenticate_loop zone trusted_ds dnskeys signatures t limits saw keys = Some o.
Proof.
  revert saw. induction keys as [|kr keys IH]; intros saw Hfit; cbn [authenticate_loop]; [eauto|].
  assert (forall saw, exists o, authenticate_loop zone trusted_ds dnskeys signatures t limits saw keys = Some o) as Hnext
    by (intros; apply IH; intros; eapply Hfit; [by right|done]).
  destruct (dnskey_for kr zone) as [key|] eqn:Ek; [|apply Hnext]. destruct (_ =? 0); [apply Hnext|].
  destruct (verify_ds_returns zone key trusted_ds) as [o ->]; [by eapply Hfit; [left|]|]. cbn.
  destruct (is_ok o); cbn [negb]; [|apply Hnext]. destruct (verify_rrset _ _ _ _ _); [eauto|apply Hnext].
Qed.

(** C14. An authenticated keyset is the given set, all of it class-IN DNSKEY records of
    the zone; one of its keys is an unrevoked zone key whose digest a trusted DS
    record for the zone carries, and that very key verifies the whole set under one
    of the signatures. It was observed now and expires with the first DS, DNSKEY or
    signature deadline. *)
Theorem dnskeys_authenticated zone trusted_ds dnskeys signatures t limits k :
  authenticate_dnskeys zone trusted_ds dnskeys signatures t limits = Some (Ok k) ->
  keyset_evidence zone trusted_ds dnskeys signatures t limits k /\ ak_observed_at_unix k = t /\
  forall x, x ∈ trusted_ds -> ak_expires_at_unix k <= t + rr_ttl x.
Proof. apply authenticate_dnskeys_ok. Qed.

(** C33. The comparison of DS digests panics exactly on a wrong length. With every DS
    record that names a key carrying a digest of the length of its type, checking a
    key and authenticating a keyset return; but the first DS record that names a key
    and carries a supported digest type with another length panics the check, and
    with it the authentication of a keyset that key comes first in. *)
Theorem ds_digest_length_panics zone trusted_ds dnskeys signatures t limits :
  ((forall r key, r ∈ dnskeys -> dnskey_for r zone = Some key -> digests_fit zone key trusted_ds) ->
    (forall r key, r ∈ dnskeys -> dnskey_for r zone = Some key -> exists o, verify_ds zone key trusted_ds = Some o) /\
    exists o, authenticate_dnskeys zone trusted_ds dnskeys signatures t limits = Some o) /\
  (forall first key before record after ds digest, head dnskeys = Some first ->
    dnskey_for first zone = Some key -> key_valid key -> Z.land (key_flags key) 0x0100 <> 0 ->
    trusted_ds = before ++ record :: after -> (forall r, r ∈ before -> ds_candidate zone key r = None) ->
    ds_names zone key record ds digest -> zlen (ds_digest ds) <> zlen digest ->
    verify_ds zone key trusted_ds = None /\
    authenticate_dnskeys zone trusted_ds dnskeys signatures t limits = None).
Proof.
  split.
  - intros Hfit. split.
    + intros r key Hr Hk. apply verify_ds_returns. by eapply Hfit.
    + unfold authenticate_dnskeys. case_match; [eauto|]. by apply authenticate_loop_returns.
  - intros first key before record after ds digest Hh Hk Hval Hz -> Hb Hn Hl.
    assert (verify_ds zone key (before ++ record :: after) = None) as Hnone by (by eapply verify_ds_panics).
    split; [done|]. destruct dnskeys as [|f rest]; [done|]. injection Hh as ->.
    unfold authenticate_dnskeys. cbn [authenticate_loop bool_decide decide]. rewrite bool_decide_eq_false_2 by done.
    rewrite Hk. apply Z.eqb_neq in Hz. rewrite Hz, Hnone. done.
Qed.

(** ** Chains of delegations *)

Lemma verify_rrset_with_keys_ok keys records signatures t limits v :
  verify_rrset_with_keys keys records signatures t limits = Ok v ->
  keys_is_fresh_at keys t = true /\ vr_observed_at_unix v = t /\ vr_expires_at_unix v <= ak_expires_at_unix keys /\
  exists v0, verify_rrset records signatures (ak_records keys) t limits = Ok v0 /\
    vr_owner v = vr_owner v0 /\ vr_record_type v = vr_record_type v0 /\ vr_expires_at_unix v <= vr_expires_at_unix v0.
Proof.
  unfold verify_rrset_with_keys. destruct (negb _) eqn:Ef; [done|]. breflect.
  destruct (verify_rrset _ _ _ _ _) as [v0|] eqn:Ev; [|done]. intros [= <-]. cbn.
  pose proof (verify_rrset_cases records signatures (ak_records keys) t limits) as Hc. rewrite Ev in Hc.
  destruct Hc as (first & r & g & k & _ & _ & _ & ->). cbn. split_and!; [done|done|lia|].
  eexists. split; [done|]. cbn. split_and!; [done|done|lia].
Qed.

(** One delegation: the child keyset and the DS set it was made from. *)
Definition delegation (parent child : AuthenticatedDnskeys) (child_ds : SignedRrset) (t : Z) (limits : DnssecLimits) : Prop :=
  exists child_dnskeys,
    authenticate_child_dnskeys parent (ak_zone child) child_ds child_dnskeys t limits = Some (Ok child).

Definition delegates (parent child : AuthenticatedDnskeys) : Prop :=
  exists child_ds t limits, delegation parent child child_ds t limits.

Lemma delegation_ok parent child child_ds t limits :
  delegation parent child child_ds t limits ->
  keys_is_fresh_at parent t = true /\ ak_observed_at_unix child = t /\
  ak_expires_at_unix child <= ak_expires_at_unix parent /\
  exists v, verify_rrset (sr_records child_ds) (sr_signatures child_ds) (ak_records parent) t limits = Ok v /\
    vr_owner v = ak_zone child /\ vr_record_type v = Ds /\ ak_expires_at_unix child <= vr_expires_at_unix v.
Proof.
  intros [dk E]. unfold authenticate_child_dnskeys in E.
  destruct (verify_rrset_with_keys _ _ _ _ _) as [w|] eqn:Ew; [|done].
  apply verify_rrset_with_keys_ok in Ew as (Hf & Ho & Hx & v & Hv & En & Et & Hle).
  destruct (negb _ || negb _) eqn:Eg; [done|]. breflect.
  destruct (authenticate_dnskeys _ _ _ _ _ _) as [[k|e]|] eqn:Ek; cbn in E; [|done|done]. injection E as <-.
  apply authenticate_dnskeys_ok in Ek as (_ & Hk & _).
  cbn [ak_zone ak_observed_at_unix ak_expires_at_unix] in *.
  assert (ak_observed_at_unix parent <= t) by (unfold keys_is_fresh_at in Hf; breflect; lia).
  split_and!; [done|lia|lia|]. exists v. split_and!; [done|congruence|congruence|lia].
Qed.

(** A chain of delegations only ever shortens the life of its evidence. A child
    keyset is made while its parent is fresh, from a DS set of the child zone that
    the parent's keys verified then, and expires no later than either; so a keyset
    that is fresh at some time has only fresh ancestors at that time. And an RRset is
    verified with a keyset only while this is fresh, and expires no later than it. *)
Theorem delegations_inherit_freshness :
  (forall parent child child_ds t limits, delegation parent child child_ds t limits ->
    keys_is_fresh_at parent t = true /\ ak_observed_at_unix child = t /\
    ak_expires_at_unix child <= ak_expires_at_unix parent /\
    exists v, verify_rrset (sr_records child_ds) (sr_signatures child_ds) (ak_records parent) t limits = Ok v /\
      vr_owner v = ak_zone child /\ vr_record_type v = Ds /\ ak_expires_at_unix child <= vr_expires_at_unix v) /\
  (forall ancestor keys now, clos_refl_trans _ delegates ancestor keys ->
    keys_is_fresh_at keys now = true -> keys_is_fresh_at ancestor now = true) /\
  (forall keys records signatures t limits v, verify_rrset_with_keys keys records signatures t limits = Ok v ->
    keys_is_fresh_at keys t = true /\ vr_observed_at_unix v = t /\
    vr_expires_at_unix v <= ak_expires_at_unix keys /\ exists v0,
      verify_rrset records signatures (ak_records keys) t limits = Ok v0 /\ vr_owner v = vr_owner v0 /\
      vr_record_type v = vr_record_type v0 /\ vr_expires_at_unix v <= vr_expires_at_unix v0).
Proof.
  split_and!; [apply delegation_ok| |apply verify_rrset_with_keys_ok].
  intros ancestor keys now Hd Hf. induction Hd as [p c (ds & t & limits & Hstep)|p|p m c _ IH1 _ IH2]; [|done|auto].
  apply delegation_ok in Hstep as (Hp & Ho & Hx & _). unfold keys_is_fresh_at in *. breflect.
  apply andb_true_iff. split; [apply Z.leb_le|apply Z.ltb_lt]; lia.
Qed.
End chain.

(** ** A concrete instance *)

#[local] Instance sample_memcmp : MemcmpLaws (H := sample_crypto).
Proof. split; cbn; intros a b E; [by rewrite (proj2 (Z.eqb_eq _ _) E)|by rewrite (proj2 (Z.eqb_neq _ _) E)]. Defined.

Definition sample_ds (digest : list Z) : ResourceRecord :=
  {| rr_name := sample_zone; rr_type := Ds; rr_class := CLASS_IN; rr_ttl := 30;
     rr_rdata := RdataDs {| ds_key_tag := dnskey_tag sample_dnskey; ds_algorithm := ALGORITHM_ED25519;
                            ds_digest_type := 2; ds_digest := digest |} |}.

Lemma dnskeys_authenticated_witness :
  exists k, authenticate_dnskeys (H := sample_crypto) sample_zone [sample_ds [9]] [sample_key_record]
    [sample_rrsig Dnskey] 50 dnssec_limits_default = Some (Ok k) /\ ak_expires_at_unix k <= 50 + 30.
Proof.
  destruct (authenticate_dnskeys (H := sample_crypto) sample_zone [sample_ds [9]] [sample_key_record]
    [sample_rrsig Dnskey] 50 dnssec_limits_default) as [[k|e]|] eqn:E;
    [|exfalso; revert E; vm_compute; discriminate|exfalso; revert E; vm_compute; discriminate].
  exists k. split; [reflexivity|].
  refine (proj2 (proj2 (dnskeys_authenticated (H := sample_crypto) _ _ _ _ _ _ _ E)) (sample_ds [9]) _). left.
Defined.

Lemma ds_digest_length_panics_witness :
  authenticate_dnskeys (H := sample_crypto) sample_zone [sample_ds [9; 9]] [sample_key_record]
    [sample_rrsig Dnskey] 50 dnssec_limits_default = None.
Proof.
  refine (proj2 (proj2 (ds_digest_length_panics (H := sample_crypto) sample_zone [sample_ds [9; 9]] [sample_key_record]
    [sample_rrsig Dnskey] 50 dnssec_limits_default) sample_key_record sample_dnskey [] (sample_ds [9; 9]) []
    {| ds_key_tag := dnskey_tag sample_dnskey; ds_algorithm := ALGORITHM_ED25519; ds_digest_type := 2;
       ds_digest := [9; 9] |} [9] _ _ _ _ _ _ _ _)); try reflexivity; try discriminate.
  - split; reflexivity.
  - intros r ?%elem_of_nil. done.
  - split; [by vm_compute|]. exists [1; 97; 0]. split; by vm_compute.
Defined.

Definition sample_keyset : AuthenticatedDnskeys :=
  {| ak_zone := sample_zone; ak_records := [sample_key_record]; ak_delegation_key_tag := dnskey_tag sample_dnskey;
     ak_delegation_algorithm := ALGORITHM_ED25519; ak_observed_at_unix := 50; ak_expires_at_unix := 70 |}.

Lemma delegations_inherit_freshness_witness :
  exists v, verify_rrset_with_keys (H := sample_crypto) sample_keyset [sample_key_record] [sample_rrsig Dnskey] 60
    dnssec_limits_default = Ok v /\ vr_expires_at_unix v <= 70.
Proof.
  destruct (verify_rrset_with_keys (H := sample_crypto) sample_keyset [sample_key_record] [sample_rrsig Dnskey] 60
    dnssec_limits_default) as [v|e] eqn:E; [|exfalso; revert E; vm_compute; discriminate].
  exists v. split; [reflexivity|].
  apply (proj2 (proj2 (delegations_inherit_freshness (H := sample_crypto))) _ _ _ _ _ _ E).
Defined.
