(* ===== verification/DnssecDenial.v ===== *)
(** * DNSSEC denial proofs

    Models the authenticated denial part of [src/crates/hns-dnssec/src/lib.rs]:
    type bitmaps, the canonical order of names, NSEC proofs, NSEC3 hashing and
    NSEC3 proofs. Records are taken as already signature-checked, as the source
    does. Allocation failure of [try_reserve] is not modelled. *)

From S2P Require Import Prelude ByteOrder DnsTypes Dnssec.

(** ** Order *)

(** [Ord] on byte strings. *)
Definition bytes_ltb (a b : list Z) : bool := bytes_leb a b && negb (bool_decide (a = b)).
Definition bytes_cmp (a b : list Z) : comparison :=
  if bool_decide (a = b) then Eq else if bytes_leb a b then Lt else Gt.

(** The loop of [canonical_name_cmp], on the labels from the root down. *)
Fixpoint labels_cmp (ls rs : list (list Z)) : comparison :=
  match ls, rs with
  | l :: ls, r :: rs => match bytes_cmp l r with Eq => labels_cmp ls rs | ordering => ordering end
  | [], _ :: _ => Lt
  | _ :: _, [] => Gt
  | [], [] => Eq
  end.

Definition canonical_name_cmp (l r : Name) : comparison :=
  labels_cmp (reverse (name_labels l)) (reverse (name_labels r)).

Definition is_less (c : comparison) : bool := match c with Lt => true | _ => false end.

Definition canonical_interval_contains (owner next candidate : Name) : bool :=
  let owner_to_candidate := is_less (canonical_name_cmp owner candidate) in
  let candidate_to_next := is_less (canonical_name_cmp candidate next) in
  if is_less (canonical_name_cmp owner next) then owner_to_candidate && candidate_to_next
  else owner_to_candidate || candidate_to_next.

Definition hash_interval_contains (owner next candidate : list Z) : bool :=
  if bytes_ltb owner next then bytes_ltb owner candidate && bytes_ltb candidate next
  else bytes_ltb owner candidate || bytes_ltb candidate next.

(** ** Names *)

Definition ancestor (name : Name) (start : Z) : option Name :=
  get_from (name_labels name) start ≫= fun labels => ok_of (from_labels labels).

Definition wildcard_of (name : Name) : result DnssecError Name :=
  map_err (from_labels ([42] :: name_labels name)) DenialMismatch.

Definition is_suffix (name suffix : Name) : bool :=
  bool_decide (get_from (name_labels name) (saturating_sub (zlen (name_labels name)) (zlen (name_labels suffix)))
               = Some (name_labels suffix)).

(** ** Type bitmaps *)

(** One turn of the loop of [bitmap_contains]. *)
Definition bitmap_step (bitmap : list Z) (record_type : Z) (cursor : Z) : result DnssecError (Z + bool) :=
  if zlen bitmap <=? cursor then Ok (inr false) else
  let window := Z.shiftr record_type 8 mod 256 in
  let low := Z.land record_type 0xff in
  let? block_window := ok_or (get bitmap cursor) DenialMismatch in
  let? length := ok_or (get bitmap (cursor + 1)) DenialMismatch in
  if (length =? 0) || (32 <? length) then Err DenialMismatch else
  let start := cursor + 2 in
  let? stop := ok_or (checked_add start length) Limit in
  let? block := ok_or (get_range bitmap start stop) DenialMismatch in
  if block_window =? window then
    Ok (inr (match get block (low / 8) with
             | Some byte => negb (Z.land byte (Z.shiftr 0x80 (low mod 8)) =? 0)
             | None => false end))
  else Ok (inl stop).

Definition bitmap_contains (bitmap : list Z) (record_type : Z) : result DnssecError bool :=
  match loop (S (length bitmap)) (bitmap_step bitmap record_type) 0 with
  | Some r => r
  | None => Err DenialMismatch
  end.

(** The type and CNAME are both absent: the test of both NODATA loops. *)
Definition denies_type (bitmap : list Z) (qtype : RecordType) : result DnssecError bool :=
  let? present := bitmap_contains bitmap (code qtype) in
  if (present : bool) then Ok false else
  if bool_decide (qtype = Cname) then Ok true else
  let? cname := bitmap_contains bitmap (code Cname) in
  Ok (negb cname).

(** ** NSEC *)

Definition valid_nsec (record : ResourceRecord) : option (ResourceRecord * NsecData) :=
  if negb (rr_class record =? CLASS_IN) || negb (bool_decide (rr_type record = Nsec)) then None else
  match rr_rdata record with RdataNsec nsec => Some (record, nsec) | _ => None end.

(** The NODATA loop: [None] when no record denies the type. *)
Fixpoint nsec_nodata (qname : Name) (qtype : RecordType) (response_is_name_error : bool)
    (nsecs : list (ResourceRecord * NsecData)) : result DnssecError bool :=
  match nsecs with
  | [] => Ok false
  | (record, nsec) :: nsecs =>
      if bool_decide (rr_name record = qname) && negb response_is_name_error then
        let? denied := denies_type (nsec_type_bitmaps nsec) qtype in
        if (denied : bool) then Ok true else nsec_nodata qname qtype response_is_name_error nsecs
      else nsec_nodata qname qtype response_is_name_error nsecs
  end.

(** [(1..=n).find(p)]. *)
Definition find_from_one (n : nat) (p : Z -> bool) : option Z := List.find p (map Z.of_nat (seq 1 n)).

Definition covered (nsecs : list (ResourceRecord * NsecData)) (candidate : Name) : bool :=
  existsb (fun '(record, nsec) => canonical_interval_contains (rr_name record) (nsec_next_domain nsec) candidate) nsecs.

Definition verify_nsec_denial (qname : Name) (qtype : RecordType) (records : list ResourceRecord)
    (response_is_name_error : bool) (limits : DnssecLimits) : result DnssecError Denial :=
  if max_denial_records limits <? zlen records then Err Limit else
  let nsecs := omap valid_nsec records in
  let? nodata := nsec_nodata qname qtype response_is_name_error nsecs in
  if (nodata : bool) then Ok NoData else
  if negb response_is_name_error then Err DenialMismatch else
  let? closest_start :=
    ok_or (find_from_one (length (name_labels qname)) (fun start =>
      match ancestor qname start with
      | Some candidate => existsb (fun '(record, _) => bool_decide (rr_name record = candidate)) nsecs
      | None => false
      end)) DenialMismatch in
  let? next_closer := ok_or (ancestor qname (saturating_sub closest_start 1)) DenialMismatch in
  let? closest := ok_or (ancestor qname closest_start) DenialMismatch in
  let? wildcard := wildcard_of closest in
  if covered nsecs next_closer && covered nsecs wildcard then Ok NameError else Err DenialMismatch.

(** ** NSEC3 *)

Definition valid_nsec3_record (record : ResourceRecord) : option Nsec3Data :=
  if negb (rr_class record =? CLASS_IN) || negb (bool_decide (rr_type record = Nsec3)) then None else
  match rr_rdata record with RdataNsec3 nsec3 => Some nsec3 | _ => None end.

Definition validate_nsec3 (record : Nsec3Data) (limits : DnssecLimits) : result DnssecError unit :=
  if negb (nsec3_hash_algorithm record =? 1) || negb (Z.land (nsec3_flags record) 0xfe =? 0)
     || (max_nsec3_iterations limits <? nsec3_iterations record) || (u8_max <? zlen (nsec3_salt record))
     || negb (zlen (nsec3_next_hashed_owner record) =? 20)
  then Err DenialMismatch else Ok tt.

(** [u8::to_ascii_uppercase] and the value of a base32hex digit. *)
Definition to_ascii_uppercase (b : Z) : Z := if (97 <=? b) && (b <=? 122) then b - 32 else b.

Definition base32hex_value (byte : Z) : option Z :=
  let upper := to_ascii_uppercase byte in
  if (48 <=? upper) && (upper <=? 57) then Some (byte - 48) else
  if (65 <=? upper) && (upper <=? 86) then Some (upper - 65 + 10) else None.

(** The inner loop: whole bytes leave the accumulator. *)
Fixpoint drain_bits (fuel : nat) (output : list Z) (accumulator bits : Z) : list Z * Z * Z :=
  match fuel with
  | O => (output, accumulator, bits)
  | S fuel =>
      if bits <? 8 then (output, accumulator, bits) else
      let bits := bits - 8 in
      drain_bits fuel (output ++ [Z.land (Z.shiftr accumulator bits) 0xff])
        (Z.land accumulator (Z.shiftl 1 bits - 1)) bits
  end.

Fixpoint base32hex_loop (output : list Z) (accumulator bits : Z) (input : list Z) : option (list Z) :=
  match input with
  | [] => if negb (bits =? 0) && negb (accumulator =? 0) then None else Some output
  | byte :: input =>
      base32hex_value byte ≫= fun value =>
      let accumulator := Z.lor (Z.shiftl accumulator 5) value in
      let bits := Z.min (bits + 5) u8_max in
      let '(output, accumulator, bits) := drain_bits (Z.to_nat bits) output accumulator bits in
      base32hex_loop output accumulator bits input
  end.

Definition decode_base32hex (input : list Z) : option (list Z) := base32hex_loop [] 0 0 input.

Definition nsec3_owner_hash (owner zone : Name) : option (list Z) :=
  checked_add (zlen (name_labels zone)) 1 ≫= fun expected =>
  if negb (zlen (name_labels owner) =? expected)
     || negb (bool_decide (get_from (name_labels owner) 1 = Some (name_labels zone))) then None else
  head (name_labels owner) ≫= fun label =>
  decode_base32hex label ≫= fun decoded =>
  if zlen decoded =? 20 then Some decoded else None.

Section crypto.
Context `{DnssecCrypto}.

Definition digest_sha1_many (parts : list (list Z)) : result DnssecError (list Z) :=
  ok_or (message_digest MdSha1 (concat parts)) (UnsupportedDigest 1).

(** [iterations] further rounds. *)
Fixpoint nsec3_rounds (iterations : nat) (value salt : list Z) : result DnssecError (list Z) :=
  match iterations with
  | O => Ok value
  | S iterations => let? value := digest_sha1_many [value; salt] in nsec3_rounds iterations value salt
  end.

Definition nsec3_hash (name : Name) (salt : list Z) (iterations : Z) (limits : DnssecLimits)
    : result DnssecError (list Z) :=
  if (max_nsec3_iterations limits <? iterations) || (u8_max <? zlen salt) then Err Limit else
  let? canonical_name := encode_name name in
  let? value := digest_sha1_many [canonical_name; salt] in
  let? value := nsec3_rounds (Z.to_nat iterations) value salt in
  if zlen value =? 20 then Ok value else Err (UnsupportedDigest 1).

(** The valid records of the zone with their owner hashes. *)
Fixpoint nsec3_entries (zone : Name) (limits : DnssecLimits) (records : list ResourceRecord)
    : result DnssecError (list (list Z * Nsec3Data)) :=
  match records with
  | [] => Ok []
  | record :: records =>
      match valid_nsec3_record record with
      | None => nsec3_entries zone limits records
      | Some nsec3 =>
          let? _ := validate_nsec3 nsec3 limits in
          let? entries := nsec3_entries zone limits records in
          Ok (match nsec3_owner_hash (rr_name record) zone with
              | Some owner_hash => (owner_hash, nsec3) :: entries
              | None => entries end)
      end
  end.

Fixpoint nsec3_nodata (query_hash : list Z) (qtype : RecordType) (response_is_name_error : bool)
    (entries : list (list Z * Nsec3Data)) : result DnssecError bool :=
  match entries with
  | [] => Ok false
  | (owner_hash, nsec3) :: entries =>
      if bool_decide (owner_hash = query_hash) && negb response_is_name_error then
        let? denied := denies_type (nsec3_type_bitmaps nsec3) qtype in
        if (denied : bool) then Ok true else nsec3_nodata query_hash qtype response_is_name_error entries
      else nsec3_nodata query_hash qtype response_is_name_error entries
  end.

Definition hash_covered (entries : list (list Z * Nsec3Data)) (hash : list Z) : bool :=
  existsb (fun '(owner, record) =>
    (nsec3_flags record =? 0) && hash_interval_contains owner (nsec3_next_hashed_owner record) hash) entries.

Definition verify_nsec3_denial (zone qname : Name) (qtype : RecordType) (records : list ResourceRecord)
    (response_is_name_error : bool) (limits : DnssecLimits) : result DnssecError Denial :=
  if max_denial_records limits <? zlen records then Err Limit else
  if negb (is_suffix qname zone) then Err DenialMismatch else
  let? entries := nsec3_entries zone limits records in
  match entries with
  | [] => Err DenialMismatch
  | (_, first) :: _ =>
      if existsb (fun '(_, record) => negb (nsec3_hash_algorithm record =? nsec3_hash_algorithm first)
           || negb (nsec3_iterations record =? nsec3_iterations first)
           || negb (bool_decide (nsec3_salt record = nsec3_salt first))) entries
      then Err DenialMismatch else
      let hash := fun name => nsec3_hash name (nsec3_salt first) (nsec3_iterations first) limits in
      let? query_hash := hash qname in
      let? nodata := nsec3_nodata query_hash qtype response_is_name_error entries in
      if (nodata : bool) then Ok NoData else
      if negb response_is_name_error then Err DenialMismatch else
      let maximum_start := saturating_sub (zlen (name_labels qname)) (zlen (name_labels zone)) in
      let? closest_start :=
        ok_or (find_from_one (Z.to_nat maximum_start) (fun start =>
          match ancestor qname start with
          | Some candidate =>
              match hash candidate with
              | Ok h => existsb (fun '(owner_hash, _) => bool_decide (owner_hash = h)) entries
              | Err _ => false
              end
          | None => false
          end)) DenialMismatch in
      let? next_closer := ok_or (ancestor qname (saturating_sub closest_start 1)) DenialMismatch in
      let? closest := ok_or (ancestor qname closest_start) DenialMismatch in
      let? wildcard := wildcard_of closest in
      let? next_hash := hash next_closer in
      let? wildcard_hash := hash wildcard in
      if hash_covered entries next_hash && hash_covered entries wildcard_hash
      then Ok NameError else Err DenialMismatch
  end.
End crypto.
