(* ===== verification/DnssecDenialProps.v ===== *)
(** * Denial proofs deny

    The theorems about [DnssecDenial]: bitmaps decide membership, NSEC and NSEC3
    proofs of a name error are sound for zones whose empty non-terminals have
    records of their own, and the NSEC proof is not for zones where they have
    none. *)

From S2P Require Import Prelude ByteOrder DnsTypes DnsParse DnsNames DnsRdata Dnssec DnssecDenial.

Arguments Z.land : simpl never.

(** ** Names and their ancestors *)

(** At or below. *)
Definition below (n m : Name) : Prop := exists prefix, name_labels n = prefix ++ name_labels m.

Lemma below_refl n : below n n.
Proof. by exists []. Qed.

Lemma below_trans a b c : below a b -> below b c -> below a c.
Proof. intros [p Hp] [q Hq]. exists (p ++ q). by rewrite Hp, Hq, app_assoc. Qed.

(** The suffix of a canonical name is canonical, so [from_labels] returns it as it is. *)
Definition canonical_name (n : Name) : Prop := from_labels (name_labels n) = Ok n.

(** The ancestor with the first [i] labels left out. *)
Definition suffix (n : Name) (i : Z) : Name := {| name_labels := drop (Z.to_nat i) (name_labels n) |}.

Lemma suffix_ok n i : name_ok n -> name_ok (suffix n i).
Proof.
  intros [Hl Hw]. split; [by apply Forall_drop|]. rewrite wire_len_labels in *. cbn [suffix name_labels].
  pose proof (labels_len_app (take (Z.to_nat i) (name_labels n)) (drop (Z.to_nat i) (name_labels n))) as E.
  rewrite take_drop in E. pose proof (labels_len_nonneg (take (Z.to_nat i) (name_labels n))). lia.
Qed.

Lemma ancestor_suffix n i : name_ok n -> 0 <= i <= zlen (name_labels n) -> ancestor n i = Some (suffix n i).
Proof.
  intros Hn Hi. unfold ancestor, get_from, get_range. zdecide. cbn [andb mbind option_bind].
  replace (take _ _) with (name_labels (suffix n i)).
  - by rewrite name_ok_from_labels by by apply suffix_ok.
  - cbn. rewrite take_ge; [done|]. rewrite length_drop. unfold zlen in *. lia.
Qed.

Lemma below_suffix n i : below n (suffix n i).
Proof. exists (take (Z.to_nat i) (name_labels n)). cbn. by rewrite take_drop. Qed.

Lemma suffix_below_suffix n i j : 0 <= i <= j -> below (suffix n i) (suffix n j).
Proof.
  intros Hij. exists (take (Z.to_nat (j - i)) (drop (Z.to_nat i) (name_labels n))). cbn.
  replace (Z.to_nat j) with (Z.to_nat i + Z.to_nat (j - i))%nat by lia. by rewrite <- drop_drop, take_drop.
Qed.

Lemma suffix_zero n : suffix n 0 = n.
Proof. by destruct n. Qed.

Lemma wildcard_of_ok n w : name_ok n -> wildcard_of n = Ok w -> name_labels w = [42] :: name_labels n.
Proof.
  intros [Hl _] E. unfold wildcard_of in E. apply map_err_Ok, from_labels_loop_spec in E as (_ & _ & ->); [|done].
  cbn. by rewrite canonical_labels_id.
Qed.

Lemma find_from_one_some n p s : find_from_one n p = Some s -> p s = true /\ 1 <= s <= Z.of_nat n.
Proof.
  unfold find_from_one. intros [Hin Hp]%find_some. split; [done|].
  apply in_map_iff in Hin as (k & <- & Hk). apply in_seq in Hk. lia.
Qed.

(** ** Type bitmaps *)

(** Membership of a type in window blocks (RFC 4034, section 4.1.2). *)
Definition type_in (blocks : list (Z * list Z)) (record_type : Z) : bool :=
  existsb (fun block => (block.1 =? record_type / 256) &&
    match get block.2 (record_type mod 256 / 8) with
    | Some byte => Z.testbit byte (7 - record_type mod 8)
    | None => false
    end) blocks.

Lemma type_in_cons w bm blocks t :
  type_in ((w, bm) :: blocks) t = ((w =? t / 256) &&
    match get bm (t mod 256 / 8) with Some byte => Z.testbit byte (7 - t mod 8) | None => false end)
    || type_in blocks t.
Proof. done. Qed.

Lemma type_in_above previous blocks t :
  blocks_ok previous blocks -> (forall p, previous = Some p -> t / 256 <= p) -> previous <> None ->
  type_in blocks t = false.
Proof.
  revert previous. induction blocks as [|[w bm] blocks IH]; intros previous; cbn; [done|].
  intros (_ & Hw & Hok) Hp Hne. destruct previous as [p|]; [|done].
  specialize (Hw p eq_refl). specialize (Hp p eq_refl).
  destruct (w =? t / 256) eqn:E; breflect; [lia|]. cbn. apply (IH (Some w)); [done| |done]. intros ? [= <-]. lia.
Qed.

Lemma bit_test byte k : 0 <= k < 8 -> negb (Z.land byte (Z.shiftr 128 k) =? 0) = Z.testbit byte (7 - k).
Proof.
  intros Hk. assert (Z.shiftr 128 k = 2 ^ (7 - k)) as ->.
  { rewrite Z.shiftr_div_pow2 by lia. change 128 with (2 ^ 7). by rewrite <- Z.pow_sub_r by lia. }
  destruct (Z.testbit byte (7 - k)) eqn:E.
  - apply negb_true_iff, Z.eqb_neq. intros E0. apply (f_equal (fun z => Z.testbit z (7 - k))) in E0.
    rewrite Z.land_spec, E, Z.pow2_bits_true, Z.bits_0 in E0 by lia. done.
  - apply negb_false_iff, Z.eqb_eq, Z.bits_inj'. intros m Hm. rewrite Z.land_spec, Z.bits_0.
    destruct (decide (m = 7 - k)) as [->|Hne]; [by rewrite E|]. rewrite Z.pow2_bits_false by lia. apply andb_false_r.
Qed.

Lemma bitmap_step_block raw t pre w bm post :
  in_u16 t -> zlen raw <= u16_max -> raw = pre ++ block_bytes (w, bm) ++ post -> 1 <= zlen bm <= 32 ->
  bitmap_step raw t (zlen pre) =
  if w =? t / 256
  then Ok (inr (match get bm (t mod 256 / 8) with Some byte => Z.testbit byte (7 - t mod 8) | None => false end))
  else Ok (inl (zlen (pre ++ block_bytes (w, bm)))).
Proof.
  intros Ht Hs Hr Hbm. unfold block_bytes in *. cbn [fst snd app] in *. unfold bitmap_step.
  pose proof (zlen_nonneg pre). pose proof (zlen_nonneg post).
  assert (zlen raw = zlen pre + (1 + (1 + (zlen bm + zlen post)))) as Hlen by (rewrite Hr; lens; lia).
  zdecide. assert (get raw (zlen pre) = Some w) as -> by (rewrite Hr; apply get_app_mid).
  assert (get raw (zlen pre + 1) = Some (zlen bm)) as ->.
  { rewrite Hr. rewrite get_skip, get_skip1, get_here by (lens; lia). done. }
  cbn [ok_or]. zdecide. cbn [orb ok_or].
  rewrite (get_range_at (pre ++ [w; zlen bm]) bm post) by (rewrite ?Hr, <- ?app_assoc; lens; done || lia).
  cbn [ok_or]. assert (Z.shiftr t 8 mod 256 = t / 256) as ->.
  { rewrite Z.shiftr_div_pow2 by lia. apply Z.mod_small. change (2 ^ 8) with 256.
    split; [apply Z.div_pos; width_lia|apply Z.div_lt_upper_bound; width_lia]. }
  assert (Z.land t 255 = t mod 256) as -> by (change 255 with (Z.ones 8); by rewrite Z.land_ones).
  assert (t mod 256 mod 8 = t mod 8) as ->.
  { change 256 with (8 * 32). rewrite Z.rem_mul_r by lia. rewrite Z.mul_comm, Z.mod_add, Z.mod_mod by lia. done. }
  pose proof (Z.mod_pos_bound t 8 ltac:(lia)). destruct (w =? t / 256); [|by do 2 f_equal; lens; lia].
  destruct (get bm _) as [byte|]; [|done]. by rewrite bit_test.
Qed.

Lemma bitmap_loop raw t blocks pre previous fuel :
  in_u16 t -> zlen raw <= u16_max -> raw = pre ++ concat (map block_bytes blocks) -> blocks_ok previous blocks ->
  (length blocks < fuel)%nat -> loop fuel (bitmap_step raw t) (zlen pre) = Some (Ok (type_in blocks t)).
Proof.
  intros Ht Hs. revert blocks pre previous. induction fuel as [|fuel IH]; intros blocks pre previous Hr Hok Hf; [lia|].
  cbn [loop]. destruct blocks as [|[w bm] blocks].
  - rewrite app_nil_r in Hr. subst. unfold bitmap_step. by rewrite (proj2 (Z.leb_le _ _)) by lia.
  - destruct Hok as (Hbm & Hw & Hok). cbn [map concat] in Hr.
    rewrite (bitmap_step_block raw t pre w bm _ Ht Hs Hr Hbm), type_in_cons.
    destruct (w =? t / 256) eqn:E; breflect; cbn [andb].
    + rewrite (type_in_above (Some w) blocks t Hok); [by rewrite orb_false_r| |done]. intros ? [= <-]. lia.
    + cbn [orb]. eapply IH; [by rewrite <- app_assoc|done|simpl in Hf; lia].
Qed.

(** On a bitmap the parser accepts, the test decides membership and never fails. *)
Lemma bitmap_contains_blocks raw t :
  bytes_ok raw -> zlen raw <= u16_max -> validate_type_bitmaps raw = Ok tt -> in_u16 t ->
  exists blocks, raw = concat (map block_bytes blocks) /\ blocks_ok None blocks /\
    bitmap_contains raw t = Ok (type_in blocks t).
Proof.
  intros Hb Hs Hv Ht. apply type_bitmaps_exact in Hv as (blocks & _ & Hr & Hok); [|done|done].
  exists blocks. split; [done|]. split; [done|]. unfold bitmap_contains.
  rewrite (bitmap_loop raw t blocks [] None); try done. subst raw. pose proof (blocks_short blocks). lia.
Qed.

(** ** Zones *)

(** Every name between two existing names exists: an empty non-terminal counts. *)
Definition gapless (names : list Name) : Prop :=
  forall n m a, n ∈ names -> a ∈ names -> below n m -> below m a -> m ∈ names.

Lemma nsec_nodata_true qname qtype nx nsecs :
  nsec_nodata qname qtype nx nsecs = Ok true ->
  nx = false /\ exists record nsec, (record, nsec) ∈ nsecs /\ rr_name record = qname /\
    denies_type (nsec_type_bitmaps nsec) qtype = Ok true.
Proof.
  induction nsecs as [|[record nsec] nsecs IH]; cbn [nsec_nodata]; [done|].
  assert (nsec_nodata qname qtype nx nsecs = Ok true -> nx = false /\ exists r s, (r, s) ∈ (record, nsec) :: nsecs /\
    rr_name r = qname /\ denies_type (nsec_type_bitmaps s) qtype = Ok true) as Hnext
    by (intros (? & r & s & ? & ?)%IH; split; [done|]; exists r, s; split; [by right|done]).
  destruct (_ && negb nx) eqn:E; [|apply Hnext]. breflect.
  destruct (denies_type _ _) as [[]|] eqn:Ed; [|apply Hnext|done]. intros _. split; [by destruct nx|].
  exists record, nsec. split; [left|done].
Qed.

(** The records of a proof of a name error: the closest encloser has one, and the
    name next to it and its wildcard are covered. *)
Lemma nsec_name_error qname qtype records nx limits :
  name_ok qname -> verify_nsec_denial qname qtype records nx limits = Ok NameError ->
  exists s record nsec wildcard, 1 <= s <= zlen (name_labels qname) /\ (record, nsec) ∈ omap valid_nsec records /\
    rr_name record = suffix qname s /\ name_labels wildcard = [42] :: name_labels (suffix qname s) /\
    covered (omap valid_nsec records) (suffix qname (s - 1)) = true /\
    covered (omap valid_nsec records) wildcard = true.
Proof.
  intros Hq E. unfold verify_nsec_denial in E. case_match; [done|].
  destruct (nsec_nodata _ _ _ _) as [[]|]; [done| |done]. destruct (negb nx); [done|].
  destruct (find_from_one _ _) as [s|] eqn:Ef; [|done]. cbn [ok_or] in E.
  apply find_from_one_some in Ef as [Hp Hs]. fold (zlen (name_labels qname)) in Hs.
  rewrite (ancestor_suffix qname s) in Hp by (done || lia).
  apply existsb_exists in Hp as ([record nsec] & Hin & Hn). breflect. apply list_elem_of_In in Hin.
  replace (saturating_sub s 1) with (s - 1) in E by (unfold saturating_sub; lia).
  rewrite !ancestor_suffix in E by (done || lia). cbn [ok_or] in E.
  destruct (wildcard_of _) as [w|] eqn:Ew; [|done]. apply wildcard_of_ok in Ew; [|by apply suffix_ok].
  destruct (covered _ (suffix qname (s - 1)) && covered _ w) eqn:Ec; [|done]. breflect.
  exists s, record, nsec, w. done.
Qed.

(** The NSEC records of a zone: each is at an existing name, and no existing name
    lies strictly between its owner and its next name. *)
Definition genuine_nsecs (names : list Name) (nsecs : list (ResourceRecord * NsecData)) : Prop :=
  forall record nsec, (record, nsec) ∈ nsecs -> rr_name record ∈ names /\
    forall x, x ∈ names -> canonical_interval_contains (rr_name record) (nsec_next_domain nsec) x = false.

Lemma covered_absent names nsecs x : genuine_nsecs names nsecs -> covered nsecs x = true -> x ∉ names.
Proof.
  intros Hg Hc Hx. apply existsb_exists in Hc as ([record nsec] & Hin & Hc). apply list_elem_of_In in Hin.
  destruct (Hg record nsec Hin) as [_ Hno]. by rewrite Hno in Hc.
Qed.

Definition sample_apex : Name := {| name_labels := [[122]] |}.
Definition sample_deep : Name := {| name_labels := [[97]; [98]; [122]] |}.
Definition sample_nsec : ResourceRecord :=
  {| rr_name := sample_apex; rr_type := Nsec; rr_class := CLASS_IN; rr_ttl := 60;
     rr_rdata := RdataNsec {| nsec_next_domain := sample_deep; nsec_type_bitmaps := [0; 1; 64] |} |}.

(** C40. NSEC proofs. No data is concluded only from a record at the name itself, for an
    answer that is not a name error, whose bitmap has neither the type nor CNAME. A
    name error is sound in a zone whose empty non-terminals count as names: neither
    the name nor the wildcard of its closest encloser exists, when the records are
    the zone's own. Where an empty non-terminal has no record, as in a real NSEC
    chain, it is not: the code asks that the name next to the closest encloser be
    covered, not the queried name, so that in a zone with the two names [z] and
    [a.b.z] the record of [z] alone proves that [a.b.z] does not exist. *)
Theorem nsec_denial qname qtype records nx limits : name_ok qname ->
  (verify_nsec_denial qname qtype records nx limits = Ok NoData ->
    nx = false /\ exists record nsec, (record, nsec) ∈ omap valid_nsec records /\ rr_name record = qname /\
      denies_type (nsec_type_bitmaps nsec) qtype = Ok true) /\
  (verify_nsec_denial qname qtype records nx limits = Ok NameError ->
    forall names, gapless names -> genuine_nsecs names (omap valid_nsec records) ->
    qname ∉ names /\ exists s wildcard, 1 <= s <= zlen (name_labels qname) /\ suffix qname s ∈ names /\
      name_labels wildcard = [42] :: name_labels (suffix qname s) /\ wildcard ∉ names) /\
  (genuine_nsecs [sample_apex; sample_deep] (omap valid_nsec [sample_nsec]) /\
   verify_nsec_denial sample_deep Tlsa [sample_nsec] true dnssec_limits_default = Ok NameError).
Proof.
  intros Hq. split_and!.
  - intros E. unfold verify_nsec_denial in E. case_match; [done|].
    destruct (nsec_nodata _ _ _ _) as [[]|] eqn:En; [by apply nsec_nodata_true| |done].
    exfalso. revert E. destruct (negb nx); [done|]. repeat (case_match; try done).
  - intros E names Hgap Hg. destruct (nsec_name_error _ _ _ _ _ Hq E) as (s & r & d & w & Hs & Hin & Hn & Hw & C1 & C2).
    destruct (Hg r d Hin) as [Hclosest _]. rewrite Hn in Hclosest. split.
    + intros Hex. apply (covered_absent _ _ _ Hg C1).
      apply (Hgap qname _ (suffix qname s)); [done|done|apply below_suffix|apply suffix_below_suffix; lia].
    + exists s, w. split_and!; try done; try lia. by eapply covered_absent.
  - intros record nsec Hin. cbn in Hin. apply list_elem_of_singleton in Hin as [= -> ->].
    split; [left|]. intros x Hx. cbn. apply elem_of_cons in Hx as [->|Hx]; [by vm_compute|].
    apply list_elem_of_singleton in Hx as ->. by vm_compute.
  - by vm_compute.
Qed.

Lemma nsec_denial_witness : name_ok sample_apex /\
  exists record nsec, (record, nsec) ∈ omap valid_nsec [sample_nsec] /\ rr_name record = sample_apex /\
    denies_type (nsec_type_bitmaps nsec) Aaaa = Ok true.
Proof.
  assert (name_ok sample_apex) as Hok
    by (split; [repeat constructor; by vm_compute|by vm_compute]). split; [exact Hok|].
  apply (proj1 (nsec_denial sample_apex Aaaa [sample_nsec] false dnssec_limits_default Hok)). by vm_compute.
Defined.

(** ** NSEC3 *)

Section crypto.
Context `{DnssecCrypto}.

Lemma nsec3_entries_in zone limits records entries h d :
  nsec3_entries zone limits records = Ok entries -> (h, d) ∈ entries ->
  exists record, record ∈ records /\ valid_nsec3_record record = Some d /\ nsec3_owner_hash (rr_name record) zone = Some h /\
    validate_nsec3 d limits = Ok tt.
Proof.
  revert entries. induction records as [|r records IH]; intros entries; cbn [nsec3_entries].
  { intros [= <-] ?%elem_of_nil. done. }
  assert (forall es, nsec3_entries zone limits records = Ok es -> (h, d) ∈ es ->
    exists record, record ∈ r :: records /\ valid_nsec3_record record = Some d /\
      nsec3_owner_hash (rr_name record) zone = Some h /\ validate_nsec3 d limits = Ok tt) as Hnext
    by (intros es Hes (x & Hx & ?)%IH; [|done]; exists x; split; [by right|done]).
  destruct (valid_nsec3_record r) as [d'|] eqn:Ev; [|apply Hnext].
  destruct (validate_nsec3 d' limits) as [[]|] eqn:Ed; [|done].
  destruct (nsec3_entries zone limits records) as [es|]; [|done]. intros [= <-].
  destruct (nsec3_owner_hash (rr_name r) zone) as [h'|] eqn:Eh; [|by apply Hnext].
  intros [[= -> ->]|Hin]%elem_of_cons; [|by eapply Hnext]. exists r. split_and!; [left|done|done|done].
Qed.

Lemma nsec3_nodata_true query_hash qtype nx entries :
  nsec3_nodata query_hash qtype nx entries = Ok true ->
  nx = false /\ exists d, (query_hash, d) ∈ entries /\ denies_type (nsec3_type_bitmaps d) qtype = Ok true.
Proof.
  induction entries as [|[h d] entries IH]; cbn [nsec3_nodata]; [done|].
  assert (nsec3_nodata query_hash qtype nx entries = Ok true -> nx = false /\ exists e, (query_hash, e) ∈ (h, d) :: entries /\
    denies_type (nsec3_type_bitmaps e) qtype = Ok true) as Hnext
    by (intros (? & e & ? & ?)%IH; split; [done|]; exists e; split; [by right|done]).
  destruct (_ && negb nx) eqn:E; [|apply Hnext]. breflect. subst h.
  destruct (denies_type _ _) as [[]|] eqn:Ed; [|apply Hnext|done]. intros _. split; [by destruct nx|].
  exists d. split; [left|done].
Qed.

Lemma is_suffix_below n m : is_suffix n m = true ->
  zlen (name_labels m) <= zlen (name_labels n) /\
  m = suffix n (zlen (name_labels n) - zlen (name_labels m)).
Proof.
  unfold is_suffix, get_from. intros E. breflect. pose proof (get_range_Some _ _ _ _ E) as (_ & _ & Hl).
  unfold saturating_sub in *. pose proof (zlen_nonneg (name_labels m)). split; [lia|].
  unfold get_range in E. rewrite Z.max_l in E by lia. case_match; [|done]. injection E as E.
  destruct m as [ml]. unfold suffix. f_equal. cbn [name_labels] in *.
  rewrite take_ge in E by (rewrite length_drop; unfold zlen; lia). done.
Qed.

(** The digest all records of a proof share. *)
Definition zone_hash (d : Nsec3Data) (limits : DnssecLimits) (x : Name) : result DnssecError (list Z) :=
  nsec3_hash x (nsec3_salt d) (nsec3_iterations d) limits.

(** The NSEC3 records of a zone: without opt-out, no existing name hashes strictly
    between the owner hash and the next hash of a record. *)
Definition genuine_nsec3s (zone : Name) (names : list Name) (limits : DnssecLimits) (records : list ResourceRecord) : Prop :=
  forall record d h x hx, record ∈ records -> valid_nsec3_record record = Some d ->
    nsec3_owner_hash (rr_name record) zone = Some h -> nsec3_flags d = 0 ->
    x ∈ names -> zone_hash d limits x = Ok hx -> hash_interval_contains h (nsec3_next_hashed_owner d) hx = false.

(** The records of one proof hash alike. *)
Definition same_hash (d e : Nsec3Data) : Prop :=
  nsec3_hash_algorithm d = nsec3_hash_algorithm e /\ nsec3_iterations d = nsec3_iterations e /\ nsec3_salt d = nsec3_salt e.

Lemma same_hash_guard first (entries : list (list Z * Nsec3Data)) :
  existsb (fun '(_, record) => negb (nsec3_hash_algorithm record =? nsec3_hash_algorithm first)
     || negb (nsec3_iterations record =? nsec3_iterations first)
     || negb (bool_decide (nsec3_salt record = nsec3_salt first))) entries = false ->
  forall h d, (h, d) ∈ entries -> same_hash d first.
Proof.
  intros E h d Hin. apply list_elem_of_In in Hin. rewrite <- not_true_iff_false, existsb_exists in E.
  split_and!; apply dec_stable; intros Hne; apply E; exists (h, d); (split; [done|]);
    rewrite !orb_true_iff, !negb_true_iff, !Z.eqb_neq, bool_decide_eq_false; tauto.
Qed.

Lemma hash_covered_absent zone names limits records entries first x hx :
  nsec3_entries zone limits records = Ok entries -> genuine_nsec3s zone names limits records ->
  (forall h d, (h, d) ∈ entries -> same_hash d first) ->
  zone_hash first limits x = Ok hx -> hash_covered entries hx = true -> x ∉ names.
Proof.
  intros He Hg Hsame Hx Hc Hin. apply existsb_exists in Hc as ([h d] & Hd & Hc). apply list_elem_of_In in Hd. breflect.
  destruct (nsec3_entries_in _ _ _ _ _ _ He Hd) as (r & Hr & Hv & Ho & _).
  destruct (Hsame h d Hd) as (_ & Ei & Es).
  rewrite (Hg r d h x hx) in *; try done. unfold zone_hash in *. by rewrite Ei, Es.
Qed.

(** The owner hashes of a zone's records are hashes of existing names. *)
Definition owners_exist (zone : Name) (names : list Name) (limits : DnssecLimits) (records : list ResourceRecord) : Prop :=
  forall record d h, record ∈ records -> valid_nsec3_record record = Some d ->
    nsec3_owner_hash (rr_name record) zone = Some h -> exists x, x ∈ names /\ zone_hash d limits x = Ok h.

(** A record whose owner hash is the name's. *)
Definition matched (zone : Name) (limits : DnssecLimits) (records : list ResourceRecord) (x : Name) (d : Nsec3Data) : Prop :=
  exists record h, record ∈ records /\ valid_nsec3_record record = Some d /\
    nsec3_owner_hash (rr_name record) zone = Some h /\ zone_hash d limits x = Ok h.

(** The records of a proof of a name error: one matches the closest encloser, and the
    name next to it and its wildcard are covered. *)
Record nsec3_name_error zone limits records qname entries first s wildcard : Prop := {
  ne_range : 1 <= s <= zlen (name_labels qname) - zlen (name_labels zone);
  ne_matched : exists d, matched zone limits records (suffix qname s) d /\ same_hash d first;
  ne_wildcard : name_labels wildcard = [42] :: name_labels (suffix qname s);
  ne_next : exists hx, zone_hash first limits (suffix qname (s - 1)) = Ok hx /\ hash_covered entries hx = true;
  ne_covered : exists hx, zone_hash first limits wildcard = Ok hx /\ hash_covered entries hx = true }.

Lemma matched_entry zone limits records entries first x h :
  nsec3_entries zone limits records = Ok entries -> (forall h d, (h, d) ∈ entries -> same_hash d first) ->
  zone_hash first limits x = Ok h -> existsb (fun '(owner_hash, _) => bool_decide (owner_hash = h)) entries = true ->
  exists d, matched zone limits records x d /\ same_hash d first.
Proof.
  intros He Hsame Hh Hex. apply existsb_exists in Hex as ([o d] & Hd & ->%bool_decide_eq_true). apply list_elem_of_In in Hd.
  pose proof (Hsame h d Hd) as Hs. destruct (nsec3_entries_in _ _ _ _ _ _ He Hd) as (r & Hr & Hv & Ho & _).
  exists d. split; [|done]. exists r, h. split_and!; try done. destruct Hs as (_ & Ei & Es). unfold zone_hash in *. by rewrite Ei, Es.
Qed.

Lemma nsec3_denial_cases zone qname qtype records nx limits answer : name_ok qname ->
  verify_nsec3_denial zone qname qtype records nx limits = Ok answer ->
  below qname zone /\ zone = suffix qname (zlen (name_labels qname) - zlen (name_labels zone)) /\
  exists entries first, nsec3_entries zone limits records = Ok entries /\ (forall h d, (h, d) ∈ entries -> same_hash d first) /\
    match answer with
    | NoData => exists qh, zone_hash first limits qname = Ok qh /\ nsec3_nodata qh qtype nx entries = Ok true
    | NameError => exists s wildcard, nsec3_name_error zone limits records qname entries first s wildcard
    end.
Proof.
  intros Hq. unfold verify_nsec3_denial. destruct (max_denial_records limits <? _); [done|].
  destruct (is_suffix qname zone) eqn:Ez; [|done]. cbn [negb]. apply is_suffix_below in Ez as [Hle Ez].
  destruct (nsec3_entries zone limits records) as [entries|] eqn:He; [|done].
  destruct entries as [|[h0 first] rest] eqn:Hent; [done|]. rewrite <- Hent in *.
  destruct (existsb _ entries) eqn:Es; [done|]. pose proof (same_hash_guard first entries Es) as Hsame. clear Es Hent.
  destruct (nsec3_hash qname _ _ limits) as [qh|] eqn:Eq; [|done].
  assert (below qname zone) as Hbelow by (rewrite Ez; apply below_suffix). intros E. split_and!; [done|done|].
  exists entries, first. split_and!; [done|done|]. revert E.
  destruct (nsec3_nodata qh qtype nx entries) as [[]|] eqn:En; [intros [= <-]; by exists qh| |done].
  destruct (negb nx); [done|]. destruct (find_from_one _ _) as [s|] eqn:Ef; [|done]. cbn [ok_or].
  apply find_from_one_some in Ef as [Hf Hs]. pose proof (zlen_nonneg (name_labels zone)) as Hz.
  replace (Z.of_nat (Z.to_nat (saturating_sub (zlen (name_labels qname)) (zlen (name_labels zone)))))
    with (zlen (name_labels qname) - zlen (name_labels zone)) in Hs by (unfold saturating_sub; lia).
  replace (saturating_sub s 1) with (s - 1) by (unfold saturating_sub; lia).
  rewrite !ancestor_suffix by (done || lia). rewrite ancestor_suffix in Hf by (done || lia). cbn [ok_or].
  destruct (nsec3_hash (suffix qname s) _ _ limits) as [ch|] eqn:Ech; [|done].
  destruct (wildcard_of _) as [w|] eqn:Ew; [|done]. apply wildcard_of_ok in Ew; [|by apply suffix_ok].
  destruct (nsec3_hash (suffix qname (s - 1)) _ _ limits) as [nh|] eqn:Enh; [|done].
  destruct (nsec3_hash w _ _ limits) as [wh|] eqn:Ewh; [|done].
  destruct (hash_covered entries nh && hash_covered entries wh) eqn:Ec; [|done]. breflect. intros [= <-].
  exists s, w. split; [done|by eapply matched_entry|done|by exists nh|by exists wh].
Qed.

(** C18. NSEC3 proofs are sound. No data is concluded only from a record of the zone
    whose owner hash is the name's, for an answer that is not a name error, with
    neither the type nor CNAME in its bitmap. A name error is concluded only for a
    name of the zone with an ancestor in the zone that a record matches, and when the
    records are the zone's own, neither the name nor any of its ancestors below that one
    exists, nor does the wildcard below it. That ancestor is the closest encloser: it
    exists, unless its hash is that of another existing name. Empty non-terminals have
    NSEC3 records, so covering the next closer name is enough; opt-out records cover
    nothing. *)
Theorem nsec3_denial_sound zone qname qtype records nx limits : name_ok qname ->
  (verify_nsec3_denial zone qname qtype records nx limits = Ok NoData ->
    nx = false /\ exists record d h, record ∈ records /\ valid_nsec3_record record = Some d /\
      nsec3_owner_hash (rr_name record) zone = Some h /\ zone_hash d limits qname = Ok h /\
      denies_type (nsec3_type_bitmaps d) qtype = Ok true) /\
  (verify_nsec3_denial zone qname qtype records nx limits = Ok NameError ->
    below qname zone /\ exists s d wildcard, 1 <= s <= zlen (name_labels qname) - zlen (name_labels zone) /\
      matched zone limits records (suffix qname s) d /\ name_labels wildcard = [42] :: name_labels (suffix qname s) /\
      forall names, gapless names -> zone ∈ names -> genuine_nsec3s zone names limits records ->
      qname ∉ names /\ (forall i, 0 <= i < s -> suffix qname i ∉ names) /\ wildcard ∉ names /\
      (owners_exist zone names limits records -> suffix qname s ∈ names \/
        exists x, x ∈ names /\ x <> suffix qname s /\ zone_hash d limits x = zone_hash d limits (suffix qname s))).
Proof.
  intros Hq. split; intros E; destruct (nsec3_denial_cases _ _ _ _ _ _ _ Hq E) as (Hbelow & Ez & entries & first & He & Hsame & Hans).
  - destruct Hans as (qh & Eq & En). apply nsec3_nodata_true in En as (-> & d & Hd & Hb). split; [done|].
    destruct (nsec3_entries_in _ _ _ _ _ _ He Hd) as (r & Hr & Hv & Ho & _). exists r, d, qh.
    destruct (Hsame qh d Hd) as (_ & Ei & Esa). split_and!; try done. unfold zone_hash in *. by rewrite Ei, Esa.
  - destruct Hans as (s & w & [Hs (d & Hm & _) Hw (nh & Enh & Cn) (wh & Ewh & Cw)]). split; [done|]. exists s, d, w.
    split_and!; try done; try lia. intros names Hgap Hzone Hg.
    assert (forall x hx, zone_hash first limits x = Ok hx -> hash_covered entries hx = true -> x ∉ names) as Habsent
      by (intros x hx; by apply (hash_covered_absent zone names limits records entries first)).
    assert (forall i, 0 <= i < s -> suffix qname i ∉ names) as Hnear.
    { intros i Hi Hin. apply (Habsent _ _ Enh Cn). apply (Hgap (suffix qname i) _ zone); [done|done|apply suffix_below_suffix; lia|].
      rewrite Ez. apply suffix_below_suffix. lia. }
    split_and!; [|done|by apply (Habsent w wh)|].
    + rewrite <- (suffix_zero qname). apply Hnear. lia.
    + intros Hown. destruct Hm as (r & h & Hr & Hv & Ho & Hh). destruct (Hown r d h Hr Hv Ho) as (x & Hx & Exh).
      destruct (decide (x = suffix qname s)) as [<-|Hne]; [by left|right]. exists x. by rewrite Exh, Hh.
Qed.
End crypto.

(** A toy OpenSSL whose digest is twenty bytes: the input's length. *)
Definition sample_sha : DnssecCrypto :=
  {| BigNum := list Z; PKey := list Z; Verifier := list Z;
     message_digest := fun _ d => Some (replicate 19 0 ++ [zlen d mod 256]);
     bignum_from_slice := Some; rsa_public_key := fun n e => Some (n ++ e); ec_public_key := fun _ k => Some k;
     ecdsa_sig_der := fun r s => Some (r ++ s); ed_public_key := fun _ k => Some k; verifier_new := fun _ k => Some k;
     verifier_without_digest := Some; set_rsa_pkcs1 := Some; verifier_update := fun v _ => Some v;
     verifier_verify := fun v s => Some (bool_decide (v = s)); verify_oneshot := fun v s _ => Some (bool_decide (v = s));
     memcmp_eq := fun a b => if zlen a =? zlen b then Some (bool_decide (a = b)) else None |}.

Definition sample_nsec3 : ResourceRecord :=
  {| rr_name := {| name_labels := [replicate 31 48 ++ [55]; [122]] |}; rr_type := Nsec3; rr_class := CLASS_IN;
     rr_ttl := 60;
     rr_rdata := RdataNsec3 {| nsec3_hash_algorithm := 1; nsec3_flags := 0; nsec3_iterations := 0; nsec3_salt := [];
                               nsec3_next_hashed_owner := replicate 20 9; nsec3_type_bitmaps := [0; 1; 64] |} |}.

(** The apex of a zone with no other name, whose hash it covers around. *)
Definition sample_missing : Name := {| name_labels := [[97]; [122]] |}.
Definition sample_apex3 : ResourceRecord :=
  {| rr_name := {| name_labels := [replicate 31 48 ++ [51]; [122]] |}; rr_type := Nsec3; rr_class := CLASS_IN;
     rr_ttl := 60;
     rr_rdata := RdataNsec3 {| nsec3_hash_algorithm := 1; nsec3_flags := 0; nsec3_iterations := 0; nsec3_salt := [];
                               nsec3_next_hashed_owner := replicate 20 9; nsec3_type_bitmaps := [0; 1; 64] |} |}.

Lemma sample_zone_genuine : gapless [sample_apex] /\
  genuine_nsec3s (H := sample_sha) sample_apex [sample_apex] dnssec_limits_default [sample_apex3].
Proof.
  split.
  - intros n m a ->%list_elem_of_singleton ->%list_elem_of_singleton [p Hp] [q Hq]. apply list_elem_of_singleton.
    apply (f_equal length) in Hp as Hlp. apply (f_equal length) in Hq as Hlq. rewrite length_app in Hlp, Hlq.
    destruct p; [|cbn in Hlp, Hlq; lia]. destruct m as [l]. cbn in Hp. by rewrite <- Hp.
  - intros record d h x hx ->%list_elem_of_singleton Hv Ho _ ->%list_elem_of_singleton Hh.
    vm_compute in Hv, Ho. injection Hv as <-. injection Ho as <-. vm_compute in Hh. injection Hh as <-. by vm_compute.
Qed.

Lemma nsec3_denial_sound_witness :
  (exists record d h, record ∈ [sample_nsec3] /\ valid_nsec3_record record = Some d /\
    zone_hash (H := sample_sha) d dnssec_limits_default sample_deep = Ok h) /\
  sample_missing ∉ [sample_apex].
Proof.
  assert (name_ok sample_deep) as Hok by (split; [repeat constructor; by vm_compute|by vm_compute]).
  assert (name_ok sample_missing) as Hok' by (split; [repeat constructor; by vm_compute|by vm_compute]). split.
  - destruct (proj1 (nsec3_denial_sound (H := sample_sha) sample_apex sample_deep Tlsa [sample_nsec3] false
      dnssec_limits_default Hok)) as (_ & record & d & h & Hr & Hv & _ & Hh & _); [by vm_compute|].
    exists record, d, h. auto.
  - destruct (proj2 (nsec3_denial_sound (H := sample_sha) sample_apex sample_missing Tlsa [sample_apex3] true
      dnssec_limits_default Hok')) as (_ & s & d & w & _ & _ & _ & Hn); [by vm_compute|].
    destruct sample_zone_genuine as [Hgap Hg]. apply (proj1 (Hn [sample_apex] Hgap (list_elem_of_here _ _) Hg)).
Defined.

(** Type bitmaps. On a bitmap the parser accepts, the test for a type never fails
    and decides membership in the window blocks of RFC 4034; so the condition of both
    denial proofs says that neither the type nor CNAME is a member. *)
Theorem bitmap_decides_membership raw t : bytes_ok raw -> zlen raw <= u16_max ->
  validate_type_bitmaps raw = Ok tt -> in_u16 (code t) ->
  exists blocks, raw = concat (map block_bytes blocks) /\ blocks_ok None blocks /\
    bitmap_contains raw (code t) = Ok (type_in blocks (code t)) /\
    denies_type raw t = Ok (negb (type_in blocks (code t)) && negb (type_in blocks (code Cname))).
Proof.
  intros Hb Hs Hv Ht. destruct (bitmap_contains_blocks raw (code t) Hb Hs Hv Ht) as (blocks & Hr & Hok & E1).
  destruct (bitmap_contains_blocks raw (code Cname) Hb Hs Hv ltac:(cbn; width_lia)) as (blocks' & Hr' & Hok' & E2).
  exists blocks. split_and!; [done|done|done|]. unfold denies_type. rewrite E1, E2.
  assert (bitmap_contains raw (code Cname) = Ok (type_in blocks (code Cname))) as E3.
  { unfold bitmap_contains. rewrite (bitmap_loop raw (code Cname) blocks [] None); try done.
    subst raw. pose proof (blocks_short blocks). lia. }
  rewrite E2 in E3. injection E3 as E3. destruct (type_in blocks (code t)) eqn:Et; [done|]. cbn [negb andb].
  destruct (bool_decide (t = Cname)) eqn:Ec; breflect; [|do 2 f_equal; exact E3].
  subst t. f_equal. symmetry. apply negb_true_iff. exact Et.
Qed.

Lemma bitmap_decides_membership_witness :
  validate_type_bitmaps [0; 1; 64] = Ok tt /\ exists blocks, [0; 1; 64] = concat (map block_bytes blocks).
Proof.
  split; [by vm_compute|]. destruct (bitmap_decides_membership [0; 1; 64] A) as (blocks & Hr & _);
    [repeat constructor; width_lia|by vm_compute|by vm_compute|cbn; width_lia|]. by exists blocks.
Defined.
