(* ===== verification/Resolver.v ===== *)
(** * TLSA resolution

    Models [src/crates/hns-resolver/src/lib.rs]: the authority made from an
    on-chain name resource, and the resolution that follows verified CNAME records
    to a verified TLSA set. An operation on the resolution returns its new state.
    Where a keyset is authenticated, [None] is the panic of [Dnssec]. The loop over
    one response is a step function; each turn that goes on follows one CNAME, so
    one more turn than the hop limit is enough fuel. *)

From S2P Require Import Prelude LightChain LightSnapshot LightResource.
From S2P Require Import DnsTypes DnsParse IcannDane ByteOrder Dnssec.

Definition HTTPS_PORT : Z := 443.
Definition DEFAULT_MAX_CNAME_HOPS : Z := 16.
Definition DEFAULT_MAX_TLSA_RECORDS : Z := 64.
Definition HNS_RESOURCE_TTL : Z := 21600.

#[export] Instance Name_countable : Countable Name.
Proof. apply (inj_countable' name_labels (fun labels => {| name_labels := labels |})). by intros []. Defined.
#[export] Instance HnsAnchor_eq_dec : EqDecision HnsAnchor.
Proof. solve_decision. Defined.

Record ResolverLimits := { max_cname_hops : Z; max_tlsa_records : Z; rl_dnssec : DnssecLimits }.
Definition resolver_limits_default : ResolverLimits :=
  {| max_cname_hops := DEFAULT_MAX_CNAME_HOPS; max_tlsa_records := DEFAULT_MAX_TLSA_RECORDS;
     rl_dnssec := dnssec_limits_default |}.

Inductive ResolverError :=
| ReWire (e : WireError) | ReDnssec (e : DnssecError) | InvalidServiceName | WrongQuery | UnsuccessfulResponse
| MissingTlsa | CnameCoexistsWithData | CnameLoop | CnameLimit | MalformedAnswer | ReLimit | AlreadyComplete
| MissingHnsDs | InvalidHnsZone | AnchorTimeMismatch | HnsZoneMismatch | AuthorityChanged.

(** [?] on a DNSSEC result. *)
Definition lift_dnssec {A} (r : result DnssecError A) : result ResolverError A :=
  match r with Ok a => Ok a | Err e => Err (ReDnssec e) end.

(** ** On-chain authority *)

Record HnsAuthorityEvidence := {
  he_anchor : HnsAnchor; he_zone : Name; he_validation_time : Z; he_expires_at_unix : Z }.

#[export] Instance HnsAuthorityEvidence_eq_dec : EqDecision HnsAuthorityEvidence.
Proof. solve_decision. Defined.

Record HnsDnssecAuthority := { ha_evidence : HnsAuthorityEvidence; ha_keys : AuthenticatedDnskeys }.

Definition authority_zone (a : HnsDnssecAuthority) : Name := he_zone (ha_evidence a).
Definition authority_validation_time (a : HnsDnssecAuthority) : Z := he_validation_time (ha_evidence a).

(** The DS record of an on-chain delegation signer. *)
Definition trusted_ds_record (zone : Name) (ds : DelegationSigner) : ResourceRecord :=
  {| rr_name := zone; rr_type := DnsTypes.Ds; rr_class := CLASS_IN; rr_ttl := HNS_RESOURCE_TTL;
     rr_rdata := RdataDs {| DnsTypes.ds_key_tag := LightResource.ds_key_tag ds;
                            DnsTypes.ds_algorithm := LightResource.ds_algorithm ds;
                            DnsTypes.ds_digest_type := LightResource.ds_digest_type ds;
                            DnsTypes.ds_digest := LightResource.ds_digest ds |} |}.

Section authority.
Context `{DnssecCrypto}.

Definition authority_authenticate (resource : VerifiedHnsResource) (dnskeys signatures : list ResourceRecord)
    (validation_time : Z) (limits : DnssecLimits) : option (result ResolverError HnsDnssecAuthority) :=
  let anchor := vr_anchor resource in
  if negb (anchor_validated_at anchor =? validation_time) || (anchor_valid_until anchor <? validation_time)
  then Some (Err AnchorTimeMismatch) else
  match from_labels [vr_name resource] with
  | Err _ => Some (Err InvalidHnsZone)
  | Ok zone =>
      let trusted_ds := map (trusted_ds_record zone) (delegation_signers (vr_resource resource)) in
      if bool_decide (trusted_ds = []) then Some (Err MissingHnsDs) else
      authenticate_dnskeys zone trusted_ds dnskeys signatures validation_time limits ≫= fun keys =>
      Some (result_map (fun keys =>
        {| ha_evidence := {| he_anchor := anchor; he_zone := zone; he_validation_time := validation_time;
                             he_expires_at_unix := Z.min (ak_expires_at_unix keys)
                                                         (saturating_add (anchor_valid_until anchor) 1) |};
           ha_keys := keys |}) (lift_dnssec keys))
  end.
End authority.

(** ** The resolution *)

Record VerifiedCname := { vc_owner : Name; vc_target : Name; vc_rrset : VerifiedRrset }.

Record ValidatedTlsa := {
  vt_requested_owner : Name; vt_terminal_owner : Name; vt_base_domain : Name; vt_base_domain_ascii : list Z;
  vt_records : list TlsaData; vt_cname_chain : list VerifiedCname; vt_rrset : VerifiedRrset;
  vt_hns_authority : option HnsAuthorityEvidence; vt_validated_at_unix : Z; vt_expires_at_unix : Z }.

Definition tlsa_is_fresh_at (v : ValidatedTlsa) (now : Z) : bool :=
  (vt_validated_at_unix v <=? now) && (now <? vt_expires_at_unix v).

Inductive ResolutionStep := FollowCname (owner : Name) | Complete (tlsa : ValidatedTlsa).

Inductive AuthorityBinding := Unset | Generic | Hns (evidence : HnsAuthorityEvidence).
#[export] Instance AuthorityBinding_eq_dec : EqDecision AuthorityBinding.
Proof. solve_decision. Defined.

Record TlsaResolution := {
  tr_requested_owner : Name; tr_current_owner : Name; tr_base_domain : Name; tr_base_domain_ascii : list Z;
  tr_visited : gset Name; tr_cname_chain : list VerifiedCname; tr_completed : bool; tr_limits : ResolverLimits;
  tr_authority_binding : AuthorityBinding }.

Definition tr_with_binding (r : TlsaResolution) (b : AuthorityBinding) : TlsaResolution :=
  {| tr_requested_owner := tr_requested_owner r; tr_current_owner := tr_current_owner r;
     tr_base_domain := tr_base_domain r; tr_base_domain_ascii := tr_base_domain_ascii r;
     tr_visited := tr_visited r; tr_cname_chain := tr_cname_chain r; tr_completed := tr_completed r;
     tr_limits := tr_limits r; tr_authority_binding := b |}.
Definition tr_complete (r : TlsaResolution) : TlsaResolution :=
  {| tr_requested_owner := tr_requested_owner r; tr_current_owner := tr_current_owner r;
     tr_base_domain := tr_base_domain r; tr_base_domain_ascii := tr_base_domain_ascii r;
     tr_visited := tr_visited r; tr_cname_chain := tr_cname_chain r; tr_completed := true;
     tr_limits := tr_limits r; tr_authority_binding := tr_authority_binding r |}.
(** The target visited, the edge pushed and the owner moved. *)
Definition tr_follow (r : TlsaResolution) (edge : VerifiedCname) : TlsaResolution :=
  {| tr_requested_owner := tr_requested_owner r; tr_current_owner := vc_target edge;
     tr_base_domain := tr_base_domain r; tr_base_domain_ascii := tr_base_domain_ascii r;
     tr_visited := {[ vc_target edge ]} ∪ tr_visited r; tr_cname_chain := tr_cname_chain r ++ [edge];
     tr_completed := tr_completed r; tr_limits := tr_limits r; tr_authority_binding := tr_authority_binding r |}.

Definition ascii_label_bad (label : list Z) : bool :=
  bool_decide (label = []) || (63 <? zlen label)
  || negb (match head label with Some b => is_ascii_alphanumeric b | None => false end)
  || negb (match last label with Some b => is_ascii_alphanumeric b | None => false end)
  || existsb (fun byte => negb (is_ascii_alphanumeric byte) && negb (byte =? 45)) label.

(** The loop of [ascii_host]. *)
Fixpoint ascii_host_loop (index : Z) (output : list Z) (labels : list (list Z)) : result ResolverError (list Z) :=
  match labels with
  | [] => Ok output
  | label :: labels =>
      if ascii_label_bad label then Err InvalidServiceName else
      ascii_host_loop (index + 1) ((if negb (index =? 0) then output ++ [46] else output) ++ label) labels
  end.

Definition ascii_host (name : Name) : result ResolverError (list Z) :=
  if name_is_root name then Err InvalidServiceName else ascii_host_loop 0 [] (name_labels name).

Definition for_service (base_domain : Name) (port : Z) (transport : TlsaTransport) (limits : ResolverLimits)
    : result ResolverError TlsaResolution :=
  let? base_domain_ascii := ascii_host base_domain in
  let? service_owner := map_err (owner_derive base_domain_ascii port transport) InvalidServiceName in
  let? requested_owner := map_err (from_ascii (owner_resolver_name service_owner)) InvalidServiceName in
  Ok {| tr_requested_owner := requested_owner; tr_current_owner := requested_owner; tr_base_domain := base_domain;
        tr_base_domain_ascii := base_domain_ascii; tr_visited := {[ requested_owner ]}; tr_cname_chain := [];
        tr_completed := false; tr_limits := limits; tr_authority_binding := Unset |}.

Definition for_https (base_domain : Name) (limits : ResolverLimits) : result ResolverError TlsaResolution :=
  for_service base_domain HTTPS_PORT Tcp limits.

Definition resolution_query (r : TlsaResolution) (id : Z) : result ResolverError Query :=
  match query_new id (tr_current_owner r) Tlsa with Ok q => Ok q | Err e => Err (ReWire e) end.

Definition matching_records (message : Message) (owner : Name) (record_type : RecordType) : list ResourceRecord :=
  List.filter (fun record => bool_decide (rr_name record = owner) && bool_decide (rr_type record = record_type)
    && (rr_class record =? CLASS_IN)) (msg_answers message).

Definition matching_signatures (message : Message) (owner : Name) (record_type : RecordType) : list ResourceRecord :=
  List.filter (fun record => bool_decide (rr_name record = owner) && bool_decide (rr_type record = Rrsig)
    && (rr_class record =? CLASS_IN)
    && match rr_rdata record with
       | RdataRrsig signature => bool_decide (sig_type_covered signature = record_type)
       | _ => false end) (msg_answers message ++ msg_authorities message).

Definition has_owner_data (message : Message) (owner : Name) : bool :=
  existsb (fun record => bool_decide (rr_name record = owner) && (rr_class record =? CLASS_IN)) (msg_answers message).

Definition is_suffix (name suffix : Name) : bool :=
  bool_decide (get_from (name_labels name) (saturating_sub (zlen (name_labels name)) (zlen (name_labels suffix)))
               = Some (name_labels suffix)).

Definition retained_hns_authority (binding : AuthorityBinding) : option HnsAuthorityEvidence :=
  match binding with Hns evidence => Some evidence | Unset | Generic => None end.

Definition validated_tlsa_expiry (cname_chain : list VerifiedCname) (terminal : VerifiedRrset)
    (hns_authority : option HnsAuthorityEvidence) : Z :=
  default (vr_expires_at_unix terminal)
    (list_min (map (fun edge => vr_expires_at_unix (vc_rrset edge)) cname_chain ++ [vr_expires_at_unix terminal]
               ++ match hns_authority with Some e => [he_expires_at_unix e] | None => [] end)).

(** The TLSA data of the records. *)
Fixpoint tlsa_data (records : list ResourceRecord) : result ResolverError (list TlsaData) :=
  match records with
  | [] => Ok []
  | record :: records =>
      match rr_rdata record with
      | RdataTlsa tlsa => let? rest := tlsa_data records in Ok (tlsa :: rest)
      | _ => Err MalformedAnswer
      end
  end.

Section resolution.
Context `{DnssecCrypto}.

(** The loop of [verify_with_any_keyset]. *)
Fixpoint keyset_loop (owner : Name) (records signatures : list ResourceRecord) (validation_time : Z)
    (limits : DnssecLimits) (last_error : DnssecError) (keysets : list AuthenticatedDnskeys)
    : result ResolverError VerifiedRrset :=
  match keysets with
  | [] => Err (ReDnssec last_error)
  | keyset :: keysets =>
      if negb (is_suffix owner (ak_zone keyset))
      then keyset_loop owner records signatures validation_time limits last_error keysets else
      match verify_rrset_with_keys keyset records signatures validation_time limits with
      | Ok verified => Ok verified
      | Err error => keyset_loop owner records signatures validation_time limits error keysets
      end
  end.

Definition verify_with_any_keyset (keysets : list AuthenticatedDnskeys) (records signatures : list ResourceRecord)
    (validation_time : Z) (limits : DnssecLimits) : result ResolverError VerifiedRrset :=
  let? first := ok_or (head records) MalformedAnswer in
  keyset_loop (rr_name first) records signatures validation_time limits MissingKey keysets.

(** One turn of the loop of [accept_response_inner]: go on, or stop with a state
    and an outcome. *)
Definition response_step (message : Message) (keysets : list AuthenticatedDnskeys) (validation_time : Z)
    (r : TlsaResolution) : TlsaResolution + TlsaResolution * result ResolverError ResolutionStep :=
  let owner := tr_current_owner r in
  let limits := rl_dnssec (tr_limits r) in
  let tlsa_records := matching_records message owner Tlsa in
  let cname_records := matching_records message owner Cname in
  if negb (bool_decide (tlsa_records = [])) && negb (bool_decide (cname_records = []))
  then inr (r, Err CnameCoexistsWithData) else
  if negb (bool_decide (tlsa_records = [])) then
    if max_tlsa_records (tr_limits r) <? zlen tlsa_records then inr (r, Err ReLimit) else
    match verify_with_any_keyset keysets tlsa_records (matching_signatures message owner Tlsa) validation_time limits with
    | Err e => inr (r, Err e)
    | Ok verified =>
        match tlsa_data tlsa_records with
        | Err e => inr (r, Err e)
        | Ok records =>
            let hns_authority := retained_hns_authority (tr_authority_binding r) in
            inr (tr_complete r, Ok (Complete
              {| vt_requested_owner := tr_requested_owner r; vt_terminal_owner := owner;
                 vt_base_domain := tr_base_domain r; vt_base_domain_ascii := tr_base_domain_ascii r;
                 vt_records := records; vt_cname_chain := tr_cname_chain r; vt_rrset := verified;
                 vt_hns_authority := hns_authority; vt_validated_at_unix := validation_time;
                 vt_expires_at_unix := validated_tlsa_expiry (tr_cname_chain r) verified hns_authority |}))
        end
    end
  else
  if negb (zlen cname_records =? 1)
  then inr (r, Err (if bool_decide (cname_records = []) then MissingTlsa else MalformedAnswer)) else
  if max_cname_hops (tr_limits r) <=? zlen (tr_cname_chain r) then inr (r, Err CnameLimit) else
  match verify_with_any_keyset keysets cname_records (matching_signatures message owner Cname) validation_time limits with
  | Err e => inr (r, Err e)
  | Ok verified =>
      match head cname_records with
      | None => inr (r, Err MalformedAnswer)
      | Some record =>
          match rr_rdata record with
          | RdataCname target =>
              if bool_decide (target ∈ tr_visited r) then inr (r, Err CnameLoop) else
              let r := tr_follow r {| vc_owner := owner; vc_target := target; vc_rrset := verified |} in
              if negb (has_owner_data message (tr_current_owner r))
              then inr (r, Ok (FollowCname (tr_current_owner r))) else inl r
          | _ => inr (r, Err MalformedAnswer)
          end
      end
  end.

Fixpoint response_loop (fuel : nat) (message : Message) (keysets : list AuthenticatedDnskeys) (validation_time : Z)
    (r : TlsaResolution) : option (TlsaResolution * result ResolverError ResolutionStep) :=
  match fuel with
  | O => None
  | S fuel =>
      match response_step message keysets validation_time r with
      | inl r => response_loop fuel message keysets validation_time r
      | inr outcome => Some outcome
      end
  end.

Definition accept_response_inner (fuel : nat) (r : TlsaResolution) (query : Query) (message : Message)
    (keysets : list AuthenticatedDnskeys) (validation_time : Z) (authority_binding : AuthorityBinding)
    : option (TlsaResolution * result ResolverError ResolutionStep) :=
  if tr_completed r then Some (r, Err AlreadyComplete) else
  if negb (bool_decide (q_name (query_question query) = tr_current_owner r))
     || negb (bool_decide (q_type (query_question query) = Tlsa))
     || negb (q_class (query_question query) =? CLASS_IN) then Some (r, Err WrongQuery) else
  match query_correlate query message with
  | Err e => Some (r, Err (ReWire e))
  | Ok _ =>
      if negb (rcode (hdr_flags (msg_header message)) =? 0) then Some (r, Err UnsuccessfulResponse) else
      let bound :=
        match tr_authority_binding r with
        | Unset => Some (tr_with_binding r authority_binding)
        | existing => if bool_decide (existing = authority_binding) then Some r else None
        end in
      match bound with
      | None => Some (r, Err AuthorityChanged)
      | Some r => response_loop fuel message keysets validation_time r
      end
  end.

(** Enough turns for every response. *)
Definition hop_fuel (r : TlsaResolution) : nat := S (Z.to_nat (max_cname_hops (tr_limits r))).

Definition accept_response (r : TlsaResolution) (query : Query) (message : Message)
    (keysets : list AuthenticatedDnskeys) (validation_time : Z)
    : option (TlsaResolution * result ResolverError ResolutionStep) :=
  accept_response_inner (hop_fuel r) r query message keysets validation_time Generic.

Definition accept_hns_response (r : TlsaResolution) (query : Query) (message : Message)
    (authority : HnsDnssecAuthority) : option (TlsaResolution * result ResolverError ResolutionStep) :=
  if negb (is_suffix (tr_base_domain r) (authority_zone authority)) then Some (r, Err HnsZoneMismatch) else
  accept_response_inner (hop_fuel r) r query message [ha_keys authority] (authority_validation_time authority)
    (Hns (ha_evidence authority)).
End resolution.
