(* ===== verification/ResolverProps.v ===== *)
(** * TLSA resolution is verified end to end

    The theorems about [Resolver]: an accept call always returns, what a completed
    resolution rests on, that one resolution keeps one authority, and what an
    on-chain authority rests on. *)

From S2P Require Import Prelude LightChain LightSnapshot LightResource.
From S2P Require Import DnsTypes DnsParse DnsNames IcannDane ByteOrder Dnssec DnssecProps DnssecChain DnssecDenialProps Resolver.

Arguments Z.land : simpl never.

Section resolution.
Context `{DnssecCrypto}.
Implicit Types (r : TlsaResolution) (k : AuthenticatedDnskeys).

(** ** Every call returns *)

Lemma response_step_next message keysets t r r' :
  response_step message keysets t r = inl r' ->
  tr_limits r' = tr_limits r /\ zlen (tr_cname_chain r) < max_cname_hops (tr_limits r) /\
  zlen (tr_cname_chain r') = zlen (tr_cname_chain r) + 1.
Proof.
  unfold response_step. cbn zeta. destruct (_ && _); [done|]. destruct (negb _); [by repeat case_match|].
  destruct (negb _); [done|]. destruct (max_cname_hops _ <=? _) eqn:E; [done|]. breflect.
  destruct (verify_with_any_keyset _ _ _ _ _); [|done]. destruct (head _); [|done].
  destruct (rr_rdata _); try done. destruct (bool_decide _); [done|]. destruct (negb _); [done|]. intros [= <-].
  cbn [tr_follow tr_limits tr_cname_chain]. lens. split_and!; [done|done|lia].
Qed.

Lemma response_loop_returns fuel message keysets t r :
  (Z.to_nat (max_cname_hops (tr_limits r) - zlen (tr_cname_chain r)) < fuel)%nat ->
  exists outcome, response_loop fuel message keysets t r = Some outcome.
Proof.
  revert r. induction fuel as [|fuel IH]; intros r Hf; [lia|]. cbn [response_loop].
  destruct (response_step message keysets t r) as [r'|outcome] eqn:E; [|eauto].
  apply response_step_next in E as (El & Hlt & Hlen). apply IH. rewrite El, Hlen. lia.
Qed.

Lemma accept_inner_returns r query message keysets t b :
  exists outcome, accept_response_inner (hop_fuel r) r query message keysets t b = Some outcome.
Proof.
  unfold accept_response_inner. destruct (tr_completed r); [eauto|]. destruct (_ || _); [eauto|].
  destruct (query_correlate query message); [|eauto]. destruct (negb _); [eauto|]. cbn zeta.
  assert (forall r', tr_limits r' = tr_limits r -> tr_cname_chain r' = tr_cname_chain r ->
    exists outcome, response_loop (hop_fuel r) message keysets t r' = Some outcome) as Hloop.
  { intros r' El Ec. apply response_loop_returns. rewrite El, Ec. unfold hop_fuel.
    pose proof (zlen_nonneg (tr_cname_chain r)). lia. }
  destruct (tr_authority_binding r); [by apply Hloop| |]; (destruct (bool_decide _); [by apply Hloop|eauto]).
Qed.

(** ** What a resolution has verified *)

(** [trusted b k t]: the caller offers the keyset [k] at time [t] under binding [b]. *)
Context (trusted : AuthorityBinding -> AuthenticatedDnskeys -> Z -> Prop).

(** Verified by a trusted keyset of a zone at or above the owner. *)
Definition set_verified (b : AuthorityBinding) (limits : DnssecLimits) (owner : Name)
    (records : list ResourceRecord) (t : Z) (v : VerifiedRrset) : Prop :=
  exists k signatures, trusted b k t /\ below owner (ak_zone k) /\
    verify_rrset_with_keys k records signatures t limits = Ok v.

Definition edge_verified (b : AuthorityBinding) (limits : DnssecLimits) (e : VerifiedCname) : Prop :=
  exists t record, rr_name record = vc_owner e /\ rr_type record = Cname /\ rr_class record = CLASS_IN /\
    rr_rdata record = RdataCname (vc_target e) /\ set_verified b limits (vc_owner e) [record] t (vc_rrset e).

(** The edges lead from one owner to another. *)
Fixpoint linked (from : Name) (edges : list VerifiedCname) (to : Name) : Prop :=
  match edges with
  | [] => from = to
  | e :: edges => vc_owner e = from /\ linked (vc_target e) edges to
  end.

Lemma linked_snoc from edges e : linked from edges (vc_owner e) -> linked from (edges ++ [e]) (vc_target e).
Proof. revert from. induction edges as [|x edges IH]; intros from; cbn; [done|]. intros [? ?]. split; [done|auto]. Qed.

Record resolution_inv (r : TlsaResolution) : Prop := {
  ri_linked : linked (tr_requested_owner r) (tr_cname_chain r) (tr_current_owner r);
  ri_visited : tr_visited r = list_to_set (tr_requested_owner r :: map vc_target (tr_cname_chain r));
  ri_distinct : NoDup (tr_requested_owner r :: map vc_target (tr_cname_chain r));
  ri_hops : tr_cname_chain r <> [] -> zlen (tr_cname_chain r) <= max_cname_hops (tr_limits r);
  ri_edges : Forall (edge_verified (tr_authority_binding r) (rl_dnssec (tr_limits r))) (tr_cname_chain r);
  ri_unset : tr_authority_binding r = Unset -> tr_cname_chain r = [];
  ri_base : forall e, tr_authority_binding r = Hns e -> below (tr_base_domain r) (he_zone e) }.

Lemma for_service_inv base port transport limits r :
  for_service base port transport limits = Ok r ->
  resolution_inv r /\ tr_base_domain r = base /\ tr_limits r = limits.
Proof.
  unfold for_service. destruct (ascii_host base); [|done]. destruct (map_err (owner_derive _ _ _) _); [|done].
  destruct (map_err (from_ascii _) _) as [owner|]; [|done]. intros [= <-]. split; [|done].
  split; cbn; try done; [set_solver|repeat constructor; set_solver].
Qed.

Lemma matching_records_in message owner ty record :
  record ∈ matching_records message owner ty ->
  record ∈ msg_answers message /\ rr_name record = owner /\ rr_type record = ty /\ rr_class record = CLASS_IN.
Proof.
  unfold matching_records. rewrite !list_elem_of_In, filter_In. intros [Hin E]. breflect. done.
Qed.

Lemma keyset_loop_ok owner records signatures t limits e keysets v :
  keyset_loop owner records signatures t limits e keysets = Ok v ->
  exists k, k ∈ keysets /\ below owner (ak_zone k) /\ verify_rrset_with_keys k records signatures t limits = Ok v.
Proof.
  revert e. induction keysets as [|k keysets IH]; intros e; cbn [keyset_loop]; [done|].
  assert (forall e, keyset_loop owner records signatures t limits e keysets = Ok v ->
    exists k', k' ∈ k :: keysets /\ below owner (ak_zone k') /\ verify_rrset_with_keys k' records signatures t limits = Ok v)
    as Hnext by (intros e' (k' & ? & ?)%IH; exists k'; split; [by right|done]).
  destruct (negb (is_suffix owner (ak_zone k))) eqn:Es; [apply Hnext|]. breflect.
  destruct (verify_rrset_with_keys k _ _ _ _) as [v'|] eqn:Ev; [|apply Hnext]. intros [= ->].
  exists k. split_and!; [left| |done]. destruct (is_suffix_below owner (ak_zone k)) as [_ ->]; [done|apply below_suffix].
Qed.

(** A verified set of one owner is verified under the binding of the resolution. *)
Lemma verify_with_any_ok b keysets message owner ty signatures t limits v :
  (forall k, k ∈ keysets -> trusted b k t) ->
  verify_with_any_keyset keysets (matching_records message owner ty) signatures t limits = Ok v ->
  matching_records message owner ty <> [] /\
  set_verified b limits owner (matching_records message owner ty) t v.
Proof.
  intros Hk. unfold verify_with_any_keyset. destruct (matching_records message owner ty) as [|x l] eqn:Em; [done|].
  cbn [head ok_or]. rewrite <- Em in *. intros (k & Hin & Hb & Hv)%keyset_loop_ok. split; [by rewrite Em|].
  exists k, signatures. split_and!; [auto| |done].
  destruct (matching_records_in message owner ty x) as (_ & <- & _); [rewrite Em; left|done].
Qed.

(** The evidence for a completed resolution. *)
Definition tlsa_evidence (r : TlsaResolution) (v : ValidatedTlsa) : Prop :=
  let b := tr_authority_binding r in
  let limits := rl_dnssec (tr_limits r) in
  vt_requested_owner v = tr_requested_owner r /\ vt_base_domain v = tr_base_domain r /\
  linked (vt_requested_owner v) (vt_cname_chain v) (vt_terminal_owner v) /\
  NoDup (vt_requested_owner v :: map vc_target (vt_cname_chain v)) /\
  (vt_cname_chain v <> [] -> zlen (vt_cname_chain v) <= max_cname_hops (tr_limits r)) /\
  Forall (edge_verified b limits) (vt_cname_chain v) /\
  (exists records, records <> [] /\ zlen records <= max_tlsa_records (tr_limits r) /\
    Forall2 (fun record tlsa => rr_name record = vt_terminal_owner v /\ rr_type record = Tlsa /\
      rr_class record = CLASS_IN /\ rr_rdata record = RdataTlsa tlsa) records (vt_records v) /\
    set_verified b limits (vt_terminal_owner v) records (vt_validated_at_unix v) (vt_rrset v)) /\
  vt_hns_authority v = retained_hns_authority b /\
  (forall e, b = Hns e -> below (vt_base_domain v) (he_zone e) /\ vt_expires_at_unix v <= he_expires_at_unix e) /\
  vt_expires_at_unix v <= vr_expires_at_unix (vt_rrset v) /\
  Forall (fun e => vt_expires_at_unix v <= vr_expires_at_unix (vc_rrset e)) (vt_cname_chain v).

Lemma tlsa_data_ok records data :
  tlsa_data records = Ok data -> Forall2 (fun record tlsa => rr_rdata record = RdataTlsa tlsa) records data.
Proof.
  revert data. induction records as [|record records IH]; intros data; cbn [tlsa_data]; [intros [= <-]; constructor|].
  destruct (rr_rdata record) eqn:E; try done. destruct (tlsa_data records); [|done]. intros [= <-]. constructor; auto.
Qed.

Lemma validated_expiry_le chain terminal authority :
  validated_tlsa_expiry chain terminal authority <= vr_expires_at_unix terminal /\
  Forall (fun e => validated_tlsa_expiry chain terminal authority <= vr_expires_at_unix (vc_rrset e)) chain /\
  (forall e, authority = Some e -> validated_tlsa_expiry chain terminal authority <= he_expires_at_unix e).
Proof.
  unfold validated_tlsa_expiry. set (l := map _ chain ++ _ ++ _).
  assert (forall x, x ∈ l -> default (vr_expires_at_unix terminal) (list_min l) <= x) as Hle.
  { intros x Hx. by destruct (list_min_le l x Hx) as (m & -> & Hm). }
  split_and!.
  - apply Hle. unfold l. set_solver.
  - apply Forall_forall. intros e He. apply Hle. unfold l. apply elem_of_app. left. apply list_elem_of_fmap. by exists e.
  - intros e ->. apply Hle. unfold l. set_solver.
Qed.

Definition step_ok (r r' : TlsaResolution) (o : option (result ResolverError ResolutionStep)) : Prop :=
  resolution_inv r' /\ tr_authority_binding r' = tr_authority_binding r /\ tr_limits r' = tr_limits r /\
  forall v, o = Some (Ok (Complete v)) -> tlsa_evidence r' v.

Lemma step_ok_same r o : resolution_inv r -> (forall v, o <> Some (Ok (Complete v))) -> step_ok r r o.
Proof. intros Hr Ho. split_and!; [done|done|done|]. intros v ->. by destruct (Ho v). Qed.

Lemma follow_inv r e :
  resolution_inv r -> tr_authority_binding r <> Unset -> vc_owner e = tr_current_owner r ->
  vc_target e ∉ tr_visited r -> zlen (tr_cname_chain r) < max_cname_hops (tr_limits r) ->
  edge_verified (tr_authority_binding r) (rl_dnssec (tr_limits r)) e -> resolution_inv (tr_follow r e).
Proof.
  intros [Hl Hv Hd Hh He Hu Hb] Hset Ho Hnew Hlen Hver.
  split; cbn [tr_follow tr_requested_owner tr_cname_chain tr_current_owner tr_visited tr_limits tr_authority_binding tr_base_domain].
  - apply linked_snoc. by rewrite Ho.
  - rewrite Hv, map_app. cbn. set_solver.
  - rewrite map_app. cbn. rewrite app_comm_cons. apply NoDup_app. split; [done|]. split; [|apply NoDup_singleton].
    intros x Hx ->%list_elem_of_singleton. apply Hnew. rewrite Hv. by apply elem_of_list_to_set.
  - intros _. lens. lia.
  - apply Forall_app. split; [done|]. by constructor.
  - done.
  - done.
Qed.

Lemma response_step_ok message keysets t r :
  resolution_inv r -> tr_authority_binding r <> Unset ->
  (forall k, k ∈ keysets -> trusted (tr_authority_binding r) k t) ->
  match response_step message keysets t r with
  | inl r' => step_ok r r' None
  | inr (r', o) => step_ok r r' (Some o)
  end.
Proof.
  intros Hr Hset Hk. unfold response_step. cbn zeta.
  set (tlsas := matching_records message (tr_current_owner r) Tlsa).
  set (cnames := matching_records message (tr_current_owner r) Cname).
  destruct (_ && _); [by apply step_ok_same|]. destruct (negb (bool_decide (tlsas = []))) eqn:Et; breflect.
  - destruct (max_tlsa_records _ <? zlen tlsas) eqn:El; [by apply step_ok_same|]. breflect.
    destruct (verify_with_any_keyset keysets tlsas _ _ _) as [v|e] eqn:Ev; [|by apply step_ok_same].
    apply (verify_with_any_ok (tr_authority_binding r)) in Ev as [Hne Hver]; [|done].
    destruct (tlsa_data tlsas) as [data|e] eqn:Ed; [|by apply step_ok_same]. apply tlsa_data_ok in Ed.
    destruct Hr as [Hl Hv Hd Hh He Hu Hb].
    split_and!; [by split|done|done|]. intros w [= <-].
    destruct (validated_expiry_le (tr_cname_chain r) v (retained_hns_authority (tr_authority_binding r))) as (X1 & X2 & X3).
    unfold tlsa_evidence. cbn. split_and!; try done.
    + exists tlsas. split_and!; try done.
      apply Forall2_same_length_lookup_2; [by eapply Forall2_length|]. intros i record tlsa Hi1 Hi2.
      apply list_elem_of_lookup_2 in Hi1 as Hin. destruct (matching_records_in _ _ _ _ Hin) as (_ & ? & ? & ?).
      split_and!; try done. exact (Forall2_lookup_lr _ _ _ _ _ _ Ed Hi1 Hi2).
    + intros e Ee. split; [by apply Hb|]. apply X3. by rewrite Ee.
  - destruct (negb (zlen cnames =? 1)) eqn:E1; [by apply step_ok_same|]. breflect.
    destruct (max_cname_hops _ <=? _) eqn:Eh; [by apply step_ok_same|]. breflect.
    destruct (verify_with_any_keyset keysets cnames _ _ _) as [v|e] eqn:Ev; [|by apply step_ok_same].
    apply (verify_with_any_ok (tr_authority_binding r)) in Ev as [_ Hver]; [|done]. fold cnames in Hver.
    destruct cnames as [|record [|? l]] eqn:Ec; [done| |rewrite !zlen_cons in E1; pose proof (zlen_nonneg l); lia].
    cbn [head]. destruct (matching_records_in message (tr_current_owner r) Cname record) as (_ & Hn & Hty & Hcl);
      [fold cnames; rewrite Ec; left|].
    destruct (rr_rdata record) as [| | |target| | | | | | | | | | | |] eqn:Er; try (by apply step_ok_same).
    destruct (bool_decide (target ∈ tr_visited r)) eqn:Evis; [by apply step_ok_same|]. breflect.
    assert (resolution_inv (tr_follow r {| vc_owner := tr_current_owner r; vc_target := target; vc_rrset := v |})) as Hinv.
    { apply follow_inv; try done. exists t, record. split_and!; try done. }
    destruct (negb (has_owner_data _ _)); (split_and!; [done|done|done|by intros]).
Qed.

Lemma response_loop_ok fuel message keysets t r r' o :
  resolution_inv r -> tr_authority_binding r <> Unset ->
  (forall k, k ∈ keysets -> trusted (tr_authority_binding r) k t) ->
  response_loop fuel message keysets t r = Some (r', o) -> step_ok r r' (Some o).
Proof.
  revert r. induction fuel as [|fuel IH]; intros r Hr Hset Hk; cbn [response_loop]; [done|].
  pose proof (response_step_ok message keysets t r Hr Hset Hk) as Hs.
  destruct (response_step message keysets t r) as [m|[r1 o1]]; [|by intros [= <- <-]].
  destruct Hs as (Hm & Eb & El & _). intros E. apply IH in E; [|done|congruence|by rewrite Eb].
  destruct E as (H1 & H2 & H3 & H4). split_and!; [done|congruence|congruence|done].
Qed.

Lemma with_binding_inv r b :
  resolution_inv r -> tr_authority_binding r = Unset -> (forall e, b = Hns e -> below (tr_base_domain r) (he_zone e)) ->
  resolution_inv (tr_with_binding r b).
Proof.
  intros [Hl Hv Hd Hh He Hu Hb] Eu Hbase. specialize (Hu Eu).
  split; cbn [tr_with_binding tr_requested_owner tr_cname_chain tr_current_owner tr_visited tr_limits
    tr_authority_binding tr_base_domain]; try done. by rewrite Hu.
Qed.

(** An accept call from a good state under a binding: a good state again, the same
    binding, and evidence when it completes. *)
Lemma accept_inner_ok fuel r query message keysets t b r' o :
  resolution_inv r -> b <> Unset -> (forall k, k ∈ keysets -> trusted b k t) ->
  (forall e, b = Hns e -> below (tr_base_domain r) (he_zone e)) ->
  accept_response_inner fuel r query message keysets t b = Some (r', o) ->
  resolution_inv r' /\ (tr_authority_binding r' = tr_authority_binding r \/
    tr_authority_binding r = Unset /\ tr_authority_binding r' = b) /\
  forall v, o = Ok (Complete v) -> tr_authority_binding r' = b /\ tlsa_evidence r' v.
Proof.
  intros Hr Hb Hk Hbase E. unfold accept_response_inner in E.
  assert (forall e, Some (r, Err e) = Some (r', o) -> resolution_inv r' /\ (tr_authority_binding r' = tr_authority_binding r \/
    tr_authority_binding r = Unset /\ tr_authority_binding r' = b) /\
    forall v, o = Ok (Complete v) -> tr_authority_binding r' = b /\ tlsa_evidence r' v) as Herr
    by (intros e [= <- <-]; split_and!; [done|by left|done]).
  destruct (tr_completed r); [by eapply Herr|]. destruct (_ || _); [by eapply Herr|].
  destruct (query_correlate query message); [|by eapply Herr]. destruct (negb _); [by eapply Herr|]. cbn zeta in E.
  destruct (decide (tr_authority_binding r = Unset)) as [Eu|Eu].
  - rewrite Eu in E. apply response_loop_ok in E as (H1 & H2 & _ & H4); [|by apply with_binding_inv|done|done].
    cbn [tr_with_binding tr_authority_binding] in H2. split_and!; [done|by right|]. intros v ->. split; [done|by apply H4].
  - assert (exists bound, bound = (if bool_decide (tr_authority_binding r = b) then Some r else None) /\
      match bound with None => Some (r, Err AuthorityChanged) | Some r => response_loop fuel message keysets t r end
      = Some (r', o)) as (bound & -> & E').
    { eexists. split; [reflexivity|]. by destruct (tr_authority_binding r). }
    destruct (bool_decide (tr_authority_binding r = b)) eqn:Eb; [|by eapply Herr]. breflect.
    apply response_loop_ok in E' as (H1 & H2 & _ & H4); [|done|congruence|by rewrite Eb].
    split_and!; [done|by left|]. intros v ->. split; [congruence|by apply H4].
Qed.

(** The states a caller can reach: any base domain and service, then any responses,
    each with keysets the caller trusts under the binding of the call. *)
Inductive resolution_run : TlsaResolution -> Prop :=
| run_start base port transport limits r :
    for_service base port transport limits = Ok r -> resolution_run r
| run_accept r query message keysets t r' o :
    resolution_run r -> (forall k, k ∈ keysets -> trusted Generic k t) ->
    accept_response r query message keysets t = Some (r', o) -> resolution_run r'
| run_accept_hns r query message authority r' o :
    resolution_run r -> trusted (Hns (ha_evidence authority)) (ha_keys authority) (authority_validation_time authority) ->
    accept_hns_response r query message authority = Some (r', o) -> resolution_run r'.

Lemma accept_hns_ok r query message authority r' o :
  resolution_inv r -> trusted (Hns (ha_evidence authority)) (ha_keys authority) (authority_validation_time authority) ->
  accept_hns_response r query message authority = Some (r', o) ->
  resolution_inv r' /\ forall v, o = Ok (Complete v) ->
    tr_authority_binding r' = Hns (ha_evidence authority) /\ tlsa_evidence r' v.
Proof.
  intros Hr Ht. unfold accept_hns_response. destruct (negb (is_suffix _ _)) eqn:Es; [by intros [= <- <-]|]. breflect.
  intros (H1 & _ & H3)%accept_inner_ok; [done|done|done| |].
  - by intros k ->%list_elem_of_singleton.
  - intros e [= <-]. change (below (tr_base_domain r) (authority_zone authority)).
    destruct (is_suffix_below _ _ Es) as [_ ->]. apply below_suffix.
Qed.

Lemma resolution_run_inv r : resolution_run r -> resolution_inv r.
Proof.
  induction 1 as [base port transport limits r E|r query message keysets t r' o _ IH Hk E|
    r query message authority r' o _ IH Ht E].
  - by apply for_service_inv in E as [? _].
  - by apply accept_inner_ok in E as (? & _).
  - by apply accept_hns_ok in E as [? _].
Qed.

(** C9. A TLSA result is verified end to end. Every accept call returns. When one
    completes a resolution, the result's CNAME chain leads from the service's owner to
    the owner of its TLSA records through distinct names within the hop limit; every
    CNAME of it and the whole non-empty TLSA set, within its bound, were verified by a
    trusted keyset of a zone at or above their owner; all of them under the one
    authority the result names, for an on-chain authority with the base domain in its
    zone; and the result expires no later than any of them. *)
Theorem tlsa_resolution_sound r query message :
  (forall keysets t, exists outcome, accept_response r query message keysets t = Some outcome) /\
  (forall authority, exists outcome, accept_hns_response r query message authority = Some outcome) /\
  (forall keysets t r' v, resolution_run r -> (forall k, k ∈ keysets -> trusted Generic k t) ->
    accept_response r query message keysets t = Some (r', Ok (Complete v)) ->
    tlsa_evidence r' v /\ vt_hns_authority v = None) /\
  (forall authority r' v, resolution_run r ->
    trusted (Hns (ha_evidence authority)) (ha_keys authority) (authority_validation_time authority) ->
    accept_hns_response r query message authority = Some (r', Ok (Complete v)) ->
    tlsa_evidence r' v /\ vt_hns_authority v = Some (ha_evidence authority) /\
    below (vt_base_domain v) (authority_zone authority)).
Proof.
  split_and!.
  - intros. apply accept_inner_returns.
  - intros authority. unfold accept_hns_response. destruct (negb _); [eauto|]. apply accept_inner_returns.
  - intros keysets t r' v Hr Hk E. apply accept_inner_ok in E as (_ & _ & Hv); [|by apply resolution_run_inv|done|done|done].
    destruct (Hv v eq_refl) as [Eb Hev]. split; [done|]. destruct Hev as (_ & _ & _ & _ & _ & _ & _ & -> & _). by rewrite Eb.
  - intros authority r' v Hr Ht E. apply accept_hns_ok in E as (_ & Hv); [|by apply resolution_run_inv|done].
    destruct (Hv v eq_refl) as [Eb Hev]. split; [done|].
    destruct Hev as (_ & _ & _ & _ & _ & _ & _ & -> & Hbase & _). rewrite Eb. split; [done|]. by apply Hbase.
Qed.
End resolution.

(** ** On-chain authorities *)

Section authority.
Context `{MemcmpLaws}.

(** C15. An on-chain authority rests on the chain's own DS records. Its keyset was
    authenticated from the delegation signers of a proved name resource, as DS
    records of the one-label zone of that name, at the very time the chain was found
    current; and its evidence is fresh only while both the keyset and the chain
    anchor are. *)
Theorem hns_authority_sound resource dnskeys signatures t limits a :
  0 <= anchor_valid_until (vr_anchor resource) < u64_max ->
  authority_authenticate resource dnskeys signatures t limits = Some (Ok a) ->
  he_anchor (ha_evidence a) = vr_anchor resource /\ he_validation_time (ha_evidence a) = t /\ anchor_validated_at (he_anchor (ha_evidence a)) = t /\
  from_labels [vr_name resource] = Ok (he_zone (ha_evidence a)) /\
  keyset_evidence (he_zone (ha_evidence a)) (map (trusted_ds_record (he_zone (ha_evidence a))) (delegation_signers (vr_resource resource)))
    dnskeys signatures t limits (ha_keys a) /\
  ak_observed_at_unix (ha_keys a) = t /\ he_expires_at_unix (ha_evidence a) <= t + HNS_RESOURCE_TTL /\
  he_expires_at_unix (ha_evidence a) <= ak_expires_at_unix (ha_keys a) /\
  (forall now, now < he_expires_at_unix (ha_evidence a) -> now <= anchor_valid_until (he_anchor (ha_evidence a))).
Proof.
  intros Hvalid E. unfold authority_authenticate in E. destruct (_ || _) eqn:Et; [done|]. breflect.
  destruct (from_labels _) as [zone|] eqn:Ez; [|done]. destruct (bool_decide _) eqn:Ed; [done|]. breflect.
  destruct (authenticate_dnskeys _ _ _ _ _ _) as [[k|e]|] eqn:Ek; cbn in E; [|done|done]. injection E as <-.
  apply authenticate_dnskeys_ok in Ek as (Hev & Ho & Hx). cbn.
  unfold saturating_add. split_and!; try done; try lia.
  destruct (delegation_signers (vr_resource resource)) as [|ds l]; [done|].
  specialize (Hx (trusted_ds_record zone ds) ltac:(left)). cbn in Hx. lia.
Qed.
End authority.

(** ** Concrete instances *)

Definition sample_service : Name := {| name_labels := [[95; 52; 52; 51]; [95; 116; 99; 112]; [97]] |}.
Definition sample_tlsa_record : ResourceRecord :=
  {| rr_name := sample_service; rr_type := Tlsa; rr_class := CLASS_IN; rr_ttl := 60;
     rr_rdata := RdataTlsa {| tlsa_usage := 3; tlsa_selector := 1; tlsa_matching_type := 0; tlsa_association_data := [7] |} |}.
Definition sample_tlsa_rrsig : ResourceRecord :=
  {| rr_name := sample_service; rr_type := Rrsig; rr_class := CLASS_IN; rr_ttl := 60;
     rr_rdata := RdataRrsig {| sig_type_covered := Tlsa; sig_algorithm := ALGORITHM_ED25519; sig_labels := 3;
       sig_original_ttl := 60; sig_expiration := 100; sig_inception := 0; sig_key_tag := dnskey_tag sample_dnskey;
       sig_signer := sample_zone; sig_signature := [1; 2] |} |}.
Definition sample_tlsa_query : Query :=
  {| query_id := 7; query_question := {| q_name := sample_service; q_type := Tlsa; q_class := CLASS_IN |} |}.
Definition sample_tlsa_response : Message :=
  {| msg_header := {| hdr_id := 7; hdr_flags := {| flags_bits := 0x8000 |}; question_count := 1; answer_count := 2;
                      authority_count := 0; additional_count := 0 |};
     msg_questions := [query_question sample_tlsa_query]; msg_answers := [sample_tlsa_record; sample_tlsa_rrsig];
     msg_authorities := []; msg_additionals := [] |}.

Lemma tlsa_resolution_sound_witness :
  exists r r' v, for_https sample_zone resolver_limits_default = Ok r /\
    accept_response (H := sample_crypto) r sample_tlsa_query sample_tlsa_response [sample_keyset] 60
      = Some (r', Ok (Complete v)) /\
    tlsa_evidence (H := sample_crypto) (fun _ _ _ => True) r' v.
Proof.
  destruct (for_https sample_zone resolver_limits_default) as [r|e] eqn:Er; [|exfalso; revert Er; vm_compute; discriminate].
  assert (exists r' v, accept_response (H := sample_crypto) r sample_tlsa_query sample_tlsa_response [sample_keyset] 60
    = Some (r', Ok (Complete v))) as (r' & v & Ev).
  { vm_compute in Er. injection Er as <-. eexists _, _. vm_compute. reflexivity. }
  exists r, r', v. split; [reflexivity|]. split; [exact Ev|].
  refine (proj1 (proj1 (proj2 (proj2 (tlsa_resolution_sound (H := sample_crypto) (fun _ _ _ => True) r
    sample_tlsa_query sample_tlsa_response))) [sample_keyset] 60 r' v _ _ Ev)); [|done].
  by eapply (run_start (H := sample_crypto)).
Defined.

Definition sample_anchor : HnsAnchor :=
  {| anchor_network := Mainnet; anchor_height := 1; anchor_block_hash := []; anchor_tree_root := [];
     anchor_chainwork := 1; anchor_validated_at := 50; anchor_valid_until := 60 |}.
Definition sample_resource : VerifiedHnsResource :=
  {| vr_anchor := sample_anchor; vr_name_hash := []; vr_name := [97]; vr_state_height := 1; vr_renewal_height := 1;
     vr_resource := {| res_raw := []; res_records :=
       [LightResource.Ds {| LightResource.ds_key_tag := dnskey_tag sample_dnskey;
          LightResource.ds_algorithm := ALGORITHM_ED25519; LightResource.ds_digest_type := 2;
          LightResource.ds_digest := [9] |}] |} |}.

Lemma hns_authority_sound_witness :
  exists a, authority_authenticate (H := sample_crypto) sample_resource [sample_key_record] [sample_rrsig Dnskey] 50
      dnssec_limits_default = Some (Ok a) /\ he_expires_at_unix (ha_evidence a) <= 61.
Proof.
  destruct (authority_authenticate (H := sample_crypto) sample_resource [sample_key_record] [sample_rrsig Dnskey] 50
    dnssec_limits_default) as [[a|e]|] eqn:E;
    [|exfalso; revert E; vm_compute; discriminate|exfalso; revert E; vm_compute; discriminate].
  exists a. split; [reflexivity|].
  assert (0 <= anchor_valid_until (vr_anchor sample_resource) < u64_max) as Hvalid by (split; vm_compute; congruence).
  pose proof (hns_authority_sound (H := sample_crypto) (H0 := sample_memcmp) sample_resource [sample_key_record]
    [sample_rrsig Dnskey] 50 dnssec_limits_default a Hvalid E) as Hs.
  clear E. destruct Hs as (Ea & _ & _ & _ & _ & _ & _ & _ & Hf).
  rewrite Ea in Hf. specialize (Hf (he_expires_at_unix (ha_evidence a) - 1)).
  cbn [vr_anchor sample_resource anchor_valid_until sample_anchor] in Hf. lia.
Defined.
