(* ===== verification/Engine.v ===== *)
(** * Engine facade: resolution state and completion

    Models the resolution half of [src/crates/hns-dane-engine/src/lib.rs]: the
    engine state behind its lock, policy and authority updates, admission of
    resolutions and of gateway selections, and the two completion paths. A method
    is a function of the state; one that takes the write lock returns the state
    after the call, also after an error. A poisoned lock follows a panic while the
    lock is held, which no method of the model does; the error is kept in the type.
    Display of errors and the status report are not modelled. *)

From S2P Require Import Prelude ByteOrder LightChain LightSnapshot LightResource.
From S2P Require Import DnsTypes DnsParse DaneDer DaneMatch IcannDane Dnssec Resolver.
From S2P Require Import Policy PolicyCodec Runtime Gateway.

Definition ENGINE_API_VERSION : Z := 3.
Definition MAX_TRANSPORT_IDENTITY_BYTES : Z := 256.

#[export] Instance ResolutionNetwork_eq_dec : EqDecision Policy.Network.
Proof. solve_decision. Defined.
#[export] Instance RuntimeStamp_eq_dec : EqDecision RuntimeStamp.
Proof. solve_decision. Defined.
#[export] Instance ChainAnchor_eq_dec : EqDecision ChainAnchor.
Proof. solve_decision. Defined.
#[export] Instance TlsaData_eq_dec : EqDecision TlsaData.
Proof. solve_decision. Defined.

(** The facade's errors; [En] marks the names its components use too. *)
Inductive EngineError :=
| InvalidRuntimeSession | LockPoisoned | EnGenerationExhausted | EnInvalidAuthorityTransition
| EnAuthorityNotReady | StaleRuntimeGeneration | StaleGatewaySelection | ResponseAttemptMismatch
| UnsuccessfulDnsResponse | ExpectedTlsaQuery | MissingTransportIdentity | InvalidTransportIdentity
| ProxyTargetNotSeparated | InvalidCompletionContext | ResponseEvidenceMismatch | OriginSniMismatch
| MissingHnsAuthority | ValidationTimeMismatch | HnsNetworkMismatch | ChainAnchorMismatch
| LegacyCompletionNotBridgeable | UnsupportedBridgeService | ProviderAuthenticationMismatch
| CompletionNotCurrent | CompletionExpired | CompletionNotYetValid | MissingIcannEvidence
| UnexpectedIcannEvidence
| EnWire (e : WireError) | EnDane (e : DaneError) | EnPolicy (e : PolicyError) | EnGateway (e : GatewayError).

Definition map_runtime_error (error : RuntimeError) : EngineError :=
  match error with
  | ZeroSession => InvalidRuntimeSession
  | InvalidAuthorityTransition => EnInvalidAuthorityTransition
  | CounterExhausted => EnGenerationExhausted
  | RuntimeStopped | AuthorityNotReady => EnAuthorityNotReady
  end.

(** [?] on another crate's result. *)
Definition lift_error {E A} (f : E -> EngineError) (r : result E A) : result EngineError A :=
  match r with Ok a => Ok a | Err e => Err (f e) end.

(** ** State *)

Record EngineConfig := {
  ec_runtime_session : RuntimeSessionId; ec_network : Policy.Network; ec_policy : PolicySnapshot }.

Record EngineSnapshot := {
  sn_schema_version : Z; sn_runtime_session : list Z; sn_runtime_generation : Z; sn_event_sequence : Z;
  sn_network : Policy.Network; sn_authority_state : AuthorityState; sn_policy : PolicySnapshot }.

Record EngineState := {
  es_runtime : BrowserRuntime;
  es_network : Policy.Network;
  es_policy : PolicyController;
  es_last_provenance : option ResolutionProvenance;
  es_last_evidence : ValidationEvidence }.

(** Assignments to the fields of the state. *)
Definition es_with_runtime (s : EngineState) (r : BrowserRuntime) : EngineState :=
  {| es_runtime := r; es_network := es_network s; es_policy := es_policy s;
     es_last_provenance := es_last_provenance s; es_last_evidence := es_last_evidence s |}.
Definition es_with_policy (s : EngineState) (p : PolicyController) : EngineState :=
  {| es_runtime := es_runtime s; es_network := es_network s; es_policy := p;
     es_last_provenance := es_last_provenance s; es_last_evidence := es_last_evidence s |}.
Definition es_with_last (s : EngineState) (p : option ResolutionProvenance) (e : ValidationEvidence) : EngineState :=
  {| es_runtime := es_runtime s; es_network := es_network s; es_policy := es_policy s;
     es_last_provenance := p; es_last_evidence := e |}.

Definition es_authority (s : EngineState) : AuthorityState := rt_authority_state (es_runtime s).
Definition es_policy_generation (s : EngineState) : Z := pol_generation (ctl_current (es_policy s)).

Definition engine_new (config : EngineConfig) : EngineState :=
  {| es_runtime := runtime_new (ec_runtime_session config); es_network := ec_network config;
     es_policy := {| ctl_current := ec_policy config |}; es_last_provenance := None;
     es_last_evidence := evidence_not_attempted |}.

Definition from_persisted (runtime_session : list Z) (network : Policy.Network) (policy : list Z)
    : result EngineError EngineState :=
  let? session := lift_error map_runtime_error (session_new runtime_session) in
  let? snapshot := lift_error EnPolicy (policy_decode policy) in
  Ok (engine_new {| ec_runtime_session := session; ec_network := network; ec_policy := snapshot |}).

Definition engine_snapshot (s : EngineState) : EngineSnapshot :=
  let runtime := runtime_snapshot (es_runtime s) in
  {| sn_schema_version := snap_schema_version runtime;
     sn_runtime_session := session_bytes (snap_session runtime);
     sn_runtime_generation := snap_generation runtime;
     sn_event_sequence := snap_event_sequence runtime; sn_network := es_network s;
     sn_authority_state := snap_authority_state runtime; sn_policy := ctl_current (es_policy s) |}.

Definition export_policy (s : EngineState) : list Z := policy_encode (sn_policy (engine_snapshot s)).
Definition engine_transport_plan (s : EngineState) : list ResolutionTransport := transport_plan (es_policy s).
Definition begin_gateway (s : EngineState) (next_gateway_id : Z) (limits : GatewayLimits)
    : Z * result EngineError Gateway :=
  let '(next, r) := gateway_new next_gateway_id (ctl_current (es_policy s)) limits in (next, lift_error EnGateway r).

(** ** Policy and authority *)

Definition update_policy (s : EngineState) (expected_policy_generation : Z) (next : PolicyConfig)
    : EngineState * result EngineError PolicyTransition :=
  let changed := bool_decide (pol_config (ctl_current (es_policy s)) <> next) in
  match (if changed then ensure_policy_change_capacity (es_runtime s) else Ok tt) with
  | Err e => (s, Err (map_runtime_error e))
  | Ok _ =>
      match controller_replace (es_policy s) expected_policy_generation next with
      | (policy, Err e) => (es_with_policy s policy, Err (EnPolicy e))
      | (policy, Ok transition) =>
          let s := es_with_policy s policy in
          if tr_changed transition then
            match policy_changed (es_runtime s) with
            | (runtime, Err e) => (es_with_runtime s runtime, Err (map_runtime_error e))
            | (runtime, Ok _) => (es_with_last (es_with_runtime s runtime) None evidence_revoked, Ok transition)
            end
          else (s, Ok transition)
      end
  end.

Definition update_policy_blob (s : EngineState) (expected_policy_generation : Z) (blob : list Z)
    : EngineState * result EngineError PolicyTransition :=
  match policy_decode blob with
  | Err e => (s, Err (EnPolicy e))
  | Ok decoded =>
      if negb (pol_generation decoded =? expected_policy_generation) then (s, Err (EnPolicy StaleGeneration))
      else update_policy s expected_policy_generation (pol_config decoded)
  end.

Definition unavailable_evidence : ValidationEvidence :=
  {| ev_hns_proof := EvidenceUnavailable; ev_dnssec := EvidenceUnavailable; ev_tlsa := EvidenceUnavailable;
     ev_dane := EvidenceUnavailable; ev_chain_current := EvidenceUnavailable; ev_origin_sni := EvidenceUnavailable |}.

(** The final [self.snapshot()] reads the state again after the lock is dropped:
    the snapshot returned is that of the state other calls may have changed
    meanwhile; here, of the state left. *)
Definition advance_authority_state (s : EngineState) (next : AuthorityState)
    : EngineState * result EngineError EngineSnapshot :=
  match transition (es_runtime s) next with
  | (runtime, Err e) => (es_with_runtime s runtime, Err (map_runtime_error e))
  | (runtime, Ok _) =>
      let s := es_with_runtime s runtime in
      let s := match next with
               | Degraded => es_with_last s None unavailable_evidence
               | Revoked | Stopped => es_with_last s None evidence_revoked
               | _ => s
               end in
      (s, Ok (engine_snapshot s))
  end.

(** ** Admission *)

Record ResolutionAttempt := { ra_runtime_stamp : RuntimeStamp; ra_admission : Admission; ra_query : Query }.
Record ParsedResponse := { rs_attempt_stamp : RuntimeStamp; rs_message : Message; rs_untrusted_ad_claim : bool }.

Record CompletionContext := {
  cc_chain_anchor : option ChainAnchor; cc_peer_identity : option (list Z); cc_proxy_identity : option (list Z);
  cc_target_identity : option (list Z); cc_direct_relay_fallback : bool }.
Definition completion_context_default : CompletionContext :=
  {| cc_chain_anchor := None; cc_peer_identity := None; cc_proxy_identity := None; cc_target_identity := None;
     cc_direct_relay_fallback := false |}.

Record GatewayResolution := {
  gr_attempt : ResolutionAttempt; gr_response : ParsedResponse; gr_context : CompletionContext }.

Definition resolution_transport_ready (state : AuthorityState) : bool :=
  match state with
  | ResolutionTransportReady | DnssecVerified | DaneOriginVerified | BrowserBridgeReady | Active => true
  | _ => false
  end.

Definition ensure_current (s : EngineState) (attempt : ResolutionAttempt) : result EngineError unit :=
  if negb (runtime_admits (es_runtime s) (ra_runtime_stamp attempt)) then Err StaleRuntimeGeneration
  else lift_error EnPolicy (accept_completion (es_policy s) (ra_admission attempt)).

Definition admit_resolution (s : EngineState) (transport : ResolutionTransport) (query : Query)
    : EngineState * result EngineError ResolutionAttempt :=
  if negb (resolution_transport_ready (es_authority s)) then (s, Err EnAuthorityNotReady) else
  match controller_admit (es_policy s) transport with
  | Err e => (s, Err (EnPolicy e))
  | Ok admission =>
      match admit_event (es_runtime s) with
      | (runtime, Err e) => (es_with_runtime s runtime, Err (map_runtime_error e))
      | (runtime, Ok stamp) =>
          (es_with_runtime s runtime,
           Ok {| ra_runtime_stamp := stamp; ra_admission := admission; ra_query := query |})
      end
  end.

Definition parse_response (s : EngineState) (attempt : ResolutionAttempt) (response : list Z) (limits : ParseLimits)
    : result EngineError ParsedResponse :=
  let? _ := ensure_current s attempt in
  let? message := lift_error EnWire (parse_with_limits response limits) in
  let? correlated := lift_error EnWire (query_correlate (ra_query attempt) message) in
  Ok {| rs_attempt_stamp := ra_runtime_stamp attempt; rs_message := message;
        rs_untrusted_ad_claim := cor_untrusted_ad_claim correlated |}.

(** The loop over the identities present. *)
Definition identity_bad (identity : option (list Z)) : bool :=
  match identity with
  | Some identity => bool_decide (identity = []) || (MAX_TRANSPORT_IDENTITY_BYTES <? zlen identity)
  | None => false
  end.

Definition validate_completion_context (transport : ResolutionTransport) (context : CompletionContext)
    : result EngineError unit :=
  if existsb identity_bad [cc_peer_identity context; cc_proxy_identity context; cc_target_identity context]
  then Err InvalidTransportIdentity else
  match transport with
  | HandshakeP2pOdoh =>
      let? proxy := ok_or (cc_proxy_identity context) MissingTransportIdentity in
      let? target := ok_or (cc_target_identity context) MissingTransportIdentity in
      if bool_decide (proxy = target) then Err ProxyTargetNotSeparated else
      if bool_decide (cc_peer_identity context <> None) || cc_direct_relay_fallback context
      then Err InvalidCompletionContext else Ok tt
  | HandshakeP2pDnsRelay =>
      if bool_decide (cc_peer_identity context = None) then Err MissingTransportIdentity else
      if bool_decide (cc_proxy_identity context <> None) || bool_decide (cc_target_identity context <> None)
      then Err InvalidCompletionContext else Ok tt
  | DirectAuthoritativeUdp | DirectAuthoritativeTcp | AuthenticatedAuthoritativeDoh
  | UserConfiguredRecursiveHnsDoh =>
      if bool_decide (cc_peer_identity context <> None) || bool_decide (cc_proxy_identity context <> None)
         || bool_decide (cc_target_identity context <> None) || cc_direct_relay_fallback context
      then Err InvalidCompletionContext else Ok tt
  | TransportUnavailable | ValidatingIcannDoh | LocalHnsProof => Err InvalidCompletionContext
  end.

(** What [admit_gateway_selection] does before it takes the lock. *)
Definition selection_context (selection : GatewaySelection) : CompletionContext :=
  {| cc_chain_anchor := None; cc_peer_identity := id_peer (sel_identities selection);
     cc_proxy_identity := id_proxy (sel_identities selection);
     cc_target_identity := id_target (sel_identities selection);
     cc_direct_relay_fallback := sel_direct_relay_fallback selection |}.
Definition selection_response (selection : GatewaySelection) (query : Query) (limits : ParseLimits)
    : result EngineError (Message * bool) :=
  let? message := lift_error EnWire (parse_with_limits (sel_response selection) limits) in
  let? correlated := lift_error EnWire (query_correlate query message) in
  let? _ := validate_completion_context (sel_transport selection) (selection_context selection) in
  Ok (message, cor_untrusted_ad_claim correlated).

Definition admit_gateway_selection (s : EngineState) (selection : GatewaySelection) (query : Query)
    (limits : ParseLimits) : EngineState * result EngineError GatewayResolution :=
  match selection_response selection query limits with
  | Err e => (s, Err e)
  | Ok (message, untrusted_ad_claim) =>
      if negb (es_policy_generation s =? sel_policy_generation selection) then (s, Err StaleGatewaySelection) else
      match admit_resolution s (sel_transport selection) query with
      | (s, Err e) => (s, Err e)
      | (s, Ok attempt) =>
          (s, Ok {| gr_attempt := attempt;
                    gr_response := {| rs_attempt_stamp := ra_runtime_stamp attempt; rs_message := message;
                                      rs_untrusted_ad_claim := untrusted_ad_claim |};
                    gr_context := selection_context selection |})
      end
  end.

(** ** Completion *)

Record LocalDanePrerequisites := {
  lp_hns_proof : EvidenceState; lp_dnssec : EvidenceState; lp_chain_current : EvidenceState;
  lp_origin_sni : EvidenceState }.
Definition prerequisites_verified (p : LocalDanePrerequisites) : bool :=
  is_verified (lp_hns_proof p) && is_verified (lp_dnssec p) && is_verified (lp_chain_current p)
  && is_verified (lp_origin_sni p).

Record ValidatedDaneInput := {
  vi_validated : ValidatedTlsa; vi_certificate_chain_der : list (list Z); vi_origin_sni : list Z;
  vi_validation_unix_time : Z; vi_limits : DaneLimits }.

Record DaneCompletion := {
  dc_admission_stamp : RuntimeStamp; dc_provenance : ResolutionProvenance; dc_dane_match : DaneMatch;
  dc_origin_sni : option (list Z); dc_bridge_service_port : option Z;
  dc_bridge_tlsa_records : option (list (list Z)); dc_bridge_valid_from : option Z;
  dc_bridge_valid_until : option Z }.

Definition completion_ready (state : AuthorityState) : bool :=
  match state with DnssecVerified | DaneOriginVerified | BrowserBridgeReady | Active => true | _ => false end.

Definition complete_resolution (s : EngineState) (attempt : ResolutionAttempt) (response : ParsedResponse)
    (evidence : ValidationEvidence) (context : CompletionContext)
    : EngineState * result EngineError ResolutionProvenance :=
  match validate_completion_context (adm_transport (ra_admission attempt)) context with
  | Err e => (s, Err e)
  | Ok _ =>
  match ensure_current s attempt with
  | Err e => (s, Err e)
  | Ok _ =>
      if negb (completion_ready (es_authority s)) then (s, Err EnAuthorityNotReady) else
      let '(runtime, stepped) :=
        if bool_decide (es_authority s = DnssecVerified)
        then let '(r, o) := transition (es_runtime s) DaneOriginVerified in (r, result_map (fun _ => tt) o)
        else let '(r, o) := admit_event (es_runtime s) in (r, result_map (fun _ => tt) o) in
      let s := es_with_runtime s runtime in
      match stepped with
      | Err e => (s, Err (map_runtime_error e))
      | Ok _ =>
          let runtime := runtime_snapshot (es_runtime s) in
          let provenance :=
            {| prov_schema_version := 1; prov_runtime_session := session_bytes (snap_session runtime);
               prov_runtime_generation := snap_generation runtime;
               prov_policy_generation := adm_policy_generation (ra_admission attempt);
               prov_event_sequence := snap_event_sequence runtime; prov_network := es_network s;
               prov_chain_anchor := cc_chain_anchor context;
               prov_transport := adm_transport (ra_admission attempt);
               prov_peer_identity := cc_peer_identity context; prov_proxy_identity := cc_proxy_identity context;
               prov_target_identity := cc_target_identity context;
               prov_direct_relay_fallback := cc_direct_relay_fallback context;
               prov_registry_profile := wire_profile (pol_config (ctl_current (es_policy s)));
               prov_evidence := evidence; prov_untrusted_ad_claim := rs_untrusted_ad_claim response |} in
          match require_verified_hns_https provenance with
          | Err e => (s, Err (EnPolicy e))
          | Ok _ => (es_with_last s (Some provenance) (prov_evidence provenance), Ok provenance)
          end
      end
  end end.

Definition exact_tlsa_answers (attempt : ResolutionAttempt) (response : ParsedResponse) : list TlsaData :=
  let question := query_question (ra_query attempt) in
  omap (fun record => match rr_rdata record with RdataTlsa tlsa => Some tlsa | _ => None end)
    (List.filter (fun record => bool_decide (rr_name record = q_name question)
       && bool_decide (rr_type record = Tlsa) && (rr_class record =? q_class question))
     (msg_answers (rs_message response))).

Definition tlsa_rdata (record : TlsaData) : list Z :=
  tlsa_usage record :: tlsa_selector record :: tlsa_matching_type record :: tlsa_association_data record.
Definition canonical_tlsa_rdata (records : list TlsaData) : list (list Z) :=
  dedup (sort_keys (fun rdata => rdata) (map tlsa_rdata records)).

(** [str::parse::<u16>]: digits after an optional plus sign. Text that is not
    UTF-8 holds no digits only, so [from_utf8] refuses nothing more. *)
Definition parse_u16 (text : list Z) : option Z :=
  let digits := match text with 43 :: ((_ :: _) as rest) => rest | _ => text end in
  if bool_decide (digits = []) || negb (forallb (fun c => (48 <=? c) && (c <=? 57)) digits) then None else
  let value := fold_left (fun v c => v * 10 + (c - 48)) digits 0 in
  if value <=? u16_max then Some value else None.

Definition tlsa_tcp_service_port (owner : Name) : option Z :=
  match name_labels owner with
  | (95 :: port_label) :: second :: _ =>
      if negb (bool_decide (second = [95; 116; 99; 112])) then None else
      parse_u16 port_label ≫= fun port => if port =? 0 then None else Some port
  | _ => None
  end.

(** [trim_end_matches('.')]. *)
Fixpoint trim_start_dots (text : list Z) : list Z :=
  match text with 46 :: rest => trim_start_dots rest | _ => text end.
Definition trim_end_dots (text : list Z) : list Z := reverse (trim_start_dots (reverse text)).

Definition engine_network_id (network : Policy.Network) : Z :=
  match network with Policy.Mainnet => 0 | Policy.Testnet => 1 | Policy.Regtest => 2 | Policy.Simnet => 3 end.

(** [checked_sub(1)]. *)
Definition checked_pred (n : Z) : option Z := if n =? 0 then None else Some (n - 1).

Section completion.
Context `{DaneDigests} `{OpenSsl} `{ChainExternals}.

Definition complete_resolution_with_local_dane (s : EngineState) (attempt : ResolutionAttempt)
    (response : ParsedResponse) (prerequisites : LocalDanePrerequisites) (certificate_der : list Z)
    (limits : DaneLimits) (context : CompletionContext) : EngineState * result EngineError DaneCompletion :=
  if bool_decide (rs_attempt_stamp response <> ra_runtime_stamp attempt)
  then (s, Err ResponseAttemptMismatch) else
  if negb (rcode (hdr_flags (msg_header (rs_message response))) =? 0) then (s, Err UnsuccessfulDnsResponse) else
  let question := query_question (ra_query attempt) in
  if bool_decide (q_type question <> Tlsa) || negb (q_class question =? CLASS_IN)
  then (s, Err ExpectedTlsaQuery) else
  if negb (prerequisites_verified prerequisites) then (s, Err (EnPolicy UnverifiedEvidence)) else
  let records := exact_tlsa_answers attempt response in
  match verify_dane_ee certificate_der records limits with
  | Err e => (s, Err (EnDane e))
  | Ok dane_match =>
      let evidence :=
        {| ev_hns_proof := lp_hns_proof prerequisites; ev_dnssec := lp_dnssec prerequisites;
           ev_tlsa := EvidenceVerified; ev_dane := EvidenceVerified;
           ev_chain_current := lp_chain_current prerequisites; ev_origin_sni := lp_origin_sni prerequisites |} in
      match complete_resolution s attempt response evidence context with
      | (s, Err e) => (s, Err e)
      | (s, Ok provenance) =>
          (s, Ok {| dc_admission_stamp := ra_runtime_stamp attempt; dc_provenance := provenance;
                    dc_dane_match := dane_match; dc_origin_sni := None; dc_bridge_service_port := None;
                    dc_bridge_tlsa_records := None; dc_bridge_valid_from := None; dc_bridge_valid_until := None |})
      end
  end.

Definition derived_anchor (authority : HnsAuthorityEvidence) : ChainAnchor :=
  {| anchor_height := LightChain.anchor_height (he_anchor authority);
     anchor_tree_root := LightChain.anchor_tree_root (he_anchor authority) |}.

Definition evidence_verified : ValidationEvidence :=
  {| ev_hns_proof := EvidenceVerified; ev_dnssec := EvidenceVerified; ev_tlsa := EvidenceVerified;
     ev_dane := EvidenceVerified; ev_chain_current := EvidenceVerified; ev_origin_sni := EvidenceVerified |}.

(** What the strict path checks before it touches the state: the anchor and the
    match it derives. *)
Definition validated_input (s : EngineState) (attempt : ResolutionAttempt) (response : ParsedResponse)
    (input : ValidatedDaneInput) (context : CompletionContext) : result EngineError (ChainAnchor * DaneMatch) :=
  let validated := vi_validated input in
  if bool_decide (rs_attempt_stamp response <> ra_runtime_stamp attempt) then Err ResponseAttemptMismatch else
  if negb (rcode (hdr_flags (msg_header (rs_message response))) =? 0) then Err UnsuccessfulDnsResponse else
  let question := query_question (ra_query attempt) in
  if bool_decide (q_type question <> Tlsa) || negb (q_class question =? CLASS_IN)
     || bool_decide (q_name question <> vt_terminal_owner validated)
  then Err ExpectedTlsaQuery else
  let? hns_authority := ok_or (vt_hns_authority validated) MissingHnsAuthority in
  if negb (vi_validation_unix_time input =? he_validation_time hns_authority) then Err ValidationTimeMismatch else
  if vt_expires_at_unix validated <=? vt_validated_at_unix validated then Err CompletionExpired else
  if negb (engine_network_id (es_network s) =? network_id (anchor_network (he_anchor hns_authority)))
  then Err HnsNetworkMismatch else
  if bool_decide (vi_origin_sni input <> vt_base_domain_ascii validated) then Err OriginSniMismatch else
  if bool_decide (exact_tlsa_answers attempt response <> vt_records validated) then Err ResponseEvidenceMismatch else
  let? dane_match := lift_error EnDane
    (verify_dane_chain (vi_certificate_chain_der input) (vt_base_domain_ascii validated) (vt_records validated)
       (vi_validation_unix_time input) (vi_limits input)) in
  let anchor := derived_anchor hns_authority in
  if match cc_chain_anchor context with Some provided => bool_decide (provided <> anchor) | None => false end
  then Err ChainAnchorMismatch else Ok (anchor, dane_match).

Definition context_with_anchor (context : CompletionContext) (anchor : ChainAnchor) : CompletionContext :=
  {| cc_chain_anchor := Some anchor; cc_peer_identity := cc_peer_identity context;
     cc_proxy_identity := cc_proxy_identity context; cc_target_identity := cc_target_identity context;
     cc_direct_relay_fallback := cc_direct_relay_fallback context |}.

Definition complete_resolution_with_validated_tlsa (s : EngineState) (attempt : ResolutionAttempt)
    (response : ParsedResponse) (input : ValidatedDaneInput) (context : CompletionContext)
    : EngineState * result EngineError DaneCompletion :=
  match validated_input s attempt response input context with
  | Err e => (s, Err e)
  | Ok (anchor, dane_match) =>
      match complete_resolution s attempt response evidence_verified (context_with_anchor context anchor) with
      | (s, Err e) => (s, Err e)
      | (s, Ok provenance) =>
          let validated := vi_validated input in
          (s, Ok {| dc_admission_stamp := ra_runtime_stamp attempt; dc_provenance := provenance;
                    dc_dane_match := dane_match;
                    dc_origin_sni := Some (map to_ascii_lowercase (trim_end_dots (vi_origin_sni input)));
                    dc_bridge_service_port := tlsa_tcp_service_port (vt_requested_owner validated);
                    dc_bridge_tlsa_records := Some (canonical_tlsa_rdata (vt_records validated));
                    dc_bridge_valid_from := Some (vt_validated_at_unix validated);
                    dc_bridge_valid_until := checked_pred (vt_expires_at_unix validated) |})
      end
  end.
End completion.

(** ** Bridge authorization *)

Record BrowserBridgeAuthorization := {
  ba_runtime_session : list Z; ba_runtime_generation : Z; ba_policy_generation : Z; ba_event_sequence : Z;
  ba_valid_from : Z; ba_valid_until : Z; ba_origin : list Z; ba_service_port : Z }.

Definition completion_is_current (s : EngineState) (completion : DaneCompletion) : bool :=
  let runtime := runtime_snapshot (es_runtime s) in
  let provenance := dc_provenance completion in
  let stamp := dc_admission_stamp completion in
  runtime_admits (es_runtime s) stamp
  && bool_decide (session_bytes (stamp_session stamp) = prov_runtime_session provenance)
  && (stamp_generation stamp =? prov_runtime_generation provenance)
  && (stamp_event_sequence stamp <=? prov_event_sequence provenance)
  && bool_decide (prov_runtime_session provenance = session_bytes (snap_session runtime))
  && (prov_runtime_generation provenance =? snap_generation runtime)
  && (prov_event_sequence provenance <=? snap_event_sequence runtime)
  && (prov_policy_generation provenance =? es_policy_generation s)
  && bool_decide (prov_network provenance = es_network s)
  && fully_verified (prov_evidence provenance).

Definition bridge_ready (state : AuthorityState) : bool :=
  match state with DaneOriginVerified | BrowserBridgeReady | Active => true | _ => false end.

Definition authorize_browser_bridge (s : EngineState) (completion : DaneCompletion) (now : Z)
    : EngineState * result EngineError BrowserBridgeAuthorization :=
  match
    (let? origin := ok_or (dc_origin_sni completion) LegacyCompletionNotBridgeable in
     let? valid_from := ok_or (dc_bridge_valid_from completion) LegacyCompletionNotBridgeable in
     let? valid_until := ok_or (dc_bridge_valid_until completion) LegacyCompletionNotBridgeable in
     let? service_port := ok_or (dc_bridge_service_port completion) UnsupportedBridgeService in
     if now <? valid_from then Err CompletionNotYetValid else
     if valid_until <? now then Err CompletionExpired else
     if negb (bridge_ready (es_authority s)) then Err EnAuthorityNotReady else
     if negb (completion_is_current s completion) then Err CompletionNotCurrent else
     Ok (origin, valid_from, valid_until, service_port))
  with
  | Err e => (s, Err e)
  | Ok (origin, valid_from, valid_until, service_port) =>
      let '(runtime, stepped) :=
        if bool_decide (es_authority s = DaneOriginVerified)
        then let '(r, o) := transition (es_runtime s) BrowserBridgeReady in (r, result_map (fun _ => tt) o)
        else let '(r, o) := admit_event (es_runtime s) in (r, result_map (fun _ => tt) o) in
      let s := es_with_runtime s runtime in
      match stepped with
      | Err e => (s, Err (map_runtime_error e))
      | Ok _ =>
          let runtime := runtime_snapshot (es_runtime s) in
          (s, Ok {| ba_runtime_session := session_bytes (snap_session runtime);
                    ba_runtime_generation := snap_generation runtime;
                    ba_policy_generation := es_policy_generation s;
                    ba_event_sequence := snap_event_sequence runtime;
                    ba_valid_from := valid_from; ba_valid_until := valid_until; ba_origin := origin;
                    ba_service_port := service_port |})
      end
  end.
