(* ===== verification/EngineProps.v ===== *)
(** * Engine facade: policy updates, completion and the state invariant

    Every call of the engine is a run of the authority state machine that keeps
    the network and changes the policy exactly with a policy event. The theorems:
    the recorded provenance is always verified and current, the strict completion
    accepts exactly the evidence it names, a completion stays current until the
    first invalidating event, and what the gateway selects the engine admits. *)

From S2P Require Import Prelude ByteOrder LightChain LightSnapshot LightResource.
From S2P Require Import DnsTypes DnsParse DaneDer DaneDerProps DaneMatch DaneMatchProps IcannDane Dnssec Resolver.
From S2P Require Import Policy PolicyCodec Runtime Gateway Engine.

(** [bool_decide] of an inequality. *)
Lemma neq_decide_false {A} `{EqDecision A} (x y : A) : bool_decide (x <> y) = false <-> x = y.
Proof. rewrite bool_decide_eq_false. split; [by intros ?%dec_stable|by intros -> []]. Qed.

(** ** Runs of the authority state machine *)

Definition policy_event (ev : runtime_event) : bool := match ev with EvPolicyChanged => true | _ => false end.

(** What a call may do to the runtime, the network and the policy. *)
Record engine_moves (s : EngineState) (evs : list runtime_event) (s' : EngineState) : Prop := {
  em_trace : runtime_trace (es_runtime s) evs (es_runtime s');
  em_network : es_network s' = es_network s;
  em_policy : if existsb policy_event evs then es_policy_generation s < es_policy_generation s'
              else es_policy s' = es_policy s }.

Lemma runtime_trace_app r evs r1 evs' r2 :
  runtime_trace r evs r1 -> runtime_trace r1 evs' r2 -> runtime_trace r (evs ++ evs') r2.
Proof. induction 1; [done|]. intros. simpl. econstructor; eauto. Qed.

Lemma runtime_trace_one r ev r' : runtime_step r ev r' -> runtime_trace r [ev] r'.
Proof. intros. econstructor; [done|constructor]. Qed.

Lemma policy_event_invalidating evs : existsb policy_event evs = true -> existsb invalidating evs = true.
Proof. rewrite !existsb_exists. intros ([] & ? & ?); try done. by exists EvPolicyChanged. Qed.

Lemma moves_refl s : engine_moves s [] s.
Proof. split; [constructor|done|done]. Qed.

Lemma moves_generation s evs s' : engine_moves s evs s' -> es_policy_generation s <= es_policy_generation s'.
Proof. intros [_ _ Hp]. unfold es_policy_generation in *. destruct (existsb _ _); [lia|]. rewrite Hp. done. Qed.

Lemma moves_trans s evs s1 evs' s2 : engine_moves s evs s1 -> engine_moves s1 evs' s2 -> engine_moves s (evs ++ evs') s2.
Proof.
  intros H1 H2. pose proof (moves_generation _ _ _ H1). pose proof (moves_generation _ _ _ H2).
  destruct H1 as [T1 N1 P1], H2 as [T2 N2 P2]. split; [by eapply runtime_trace_app|congruence|].
  rewrite existsb_app. destruct (existsb policy_event evs), (existsb policy_event evs'); cbn; try lia. congruence.
Qed.

Lemma moves_runtime s ev r' :
  runtime_step (es_runtime s) ev r' -> policy_event ev = false -> engine_moves s [ev] (es_with_runtime s r').
Proof. intros Hs Hp. split; [by apply runtime_trace_one|done|]. cbn. by rewrite Hp. Qed.

Lemma moves_last s evs s' p e : engine_moves s evs s' -> engine_moves s evs (es_with_last s' p e).
Proof. intros [T N P]. by split. Qed.

(** The record of the last resolution: kept, or dropped with the authority. *)
Definition keeps_last (s : EngineState) (evs : list runtime_event) (s' : EngineState) : Prop :=
  if existsb invalidating evs then es_last_provenance s' = None /\ fully_verified (es_last_evidence s') = false
  else es_last_provenance s' = es_last_provenance s /\ es_last_evidence s' = es_last_evidence s.

(** One call: it keeps or drops the last resolution, or completes one. *)
Inductive engine_call (s : EngineState) (evs : list runtime_event) (s' : EngineState) : Prop :=
| call_keeps : engine_moves s evs s' -> keeps_last s evs s' -> engine_call s evs s'
| call_completes attempt response evidence context p :
    engine_moves s evs s' -> existsb invalidating evs = false ->
    complete_resolution s attempt response evidence context = (s', Ok p) -> engine_call s evs s'.

Lemma call_moves s evs s' : engine_call s evs s' -> engine_moves s evs s'.
Proof. by intros []. Qed.

Lemma call_refl s : engine_call s [] s.
Proof. by apply call_keeps; [apply moves_refl|]. Qed.

(** A call that only takes one step of the runtime, which invalidates nothing. *)
Lemma call_runtime s ev r' :
  runtime_step (es_runtime s) ev r' -> invalidating ev = false -> engine_call s [ev] (es_with_runtime s r').
Proof.
  intros Hs Hi. apply call_keeps; [|unfold keeps_last; cbn; by rewrite Hi].
  apply moves_runtime; [done|]. by destruct ev.
Qed.

(** A stamp admitted now is admitted later exactly if nothing invalidated it. *)
Lemma admits_later r stamp evs r' :
  runtime_wf r -> runtime_admits r stamp = true -> runtime_trace r evs r' ->
  runtime_admits r' stamp = authority_admits_work (rt_authority_state r') && negb (existsb invalidating evs).
Proof.
  intros Hwf Ha Ht. unfold runtime_admits in *. breflect.
  pose proof (runtime_trace_session _ _ _ Ht). pose proof (runtime_trace_clock _ _ _ Ht).
  pose proof (runtime_trace_floor _ _ _ Hwf Ht) as Hf.
  rewrite bool_decide_eq_true_2 by congruence. destruct (authority_admits_work (rt_authority_state r')); [|done]. cbn.
  destruct (existsb invalidating evs); cbn.
  - rewrite (proj2 (Z.ltb_ge _ _)) by lia. by rewrite andb_false_r.
  - destruct Hf as [-> ->]. rewrite !andb_true_iff, Z.eqb_eq, Z.ltb_lt, Z.leb_le. lia.
Qed.

(** Without an invalidating event the states the bridge needs are not left. *)
Lemma bridge_states_stay (ready : AuthorityState -> bool) r evs r' :
  (forall a b, ready a = true -> valid_authority_transition a b = true -> invalidating_state b = false -> ready b = true) ->
  runtime_trace r evs r' -> existsb invalidating evs = false -> ready (rt_authority_state r) = true ->
  ready (rt_authority_state r') = true.
Proof.
  intros Hstay Ht. induction Ht as [r|r ev r1 evs r2 Hs Ht IH]; [done|].
  cbn. intros [Hi Hr]%orb_false_iff Ha. apply IH; [done|]. clear IH.
  inversion Hs; subst; clear Hs; unfold_runtime; run_all; try done; by eapply Hstay.
Qed.

Lemma bridge_ready_stays a b :
  bridge_ready a = true -> valid_authority_transition a b = true -> invalidating_state b = false -> bridge_ready b = true.
Proof. by destruct a, b. Qed.

(** ** Every call moves the engine *)

Lemma replace_unchanged c g cfg c' e : controller_replace c g cfg = (c', Err e) -> c' = c.
Proof. unfold controller_replace. intros H. by run_all. Qed.

Lemma replace_changed c g cfg c' t :
  controller_replace c g cfg = (c', Ok t) ->
  tr_changed t = bool_decide (pol_config (ctl_current c) <> cfg) /\
  (tr_changed t = false -> c' = c) /\
  (tr_changed t = true -> pol_generation (ctl_current c') = pol_generation (ctl_current c) + 1 /\
                          pol_config (ctl_current c') = cfg).
Proof.
  unfold controller_replace. intros H. run_all; cbn.
  - by rewrite bool_decide_eq_false_2 by (intros E; by apply E).
  - match goal with E : checked_add _ _ = Some _ |- _ => apply checked_add_Some in E as [-> _] end.
    by rewrite bool_decide_eq_true_2.
Qed.

(** A policy update is all or nothing. *)
Lemma update_policy_cases s g cfg s' r :
  update_policy s g cfg = (s', r) ->
  (s' = s /\ forall t, r = Ok t -> tr_changed t = false) \/
  exists t rt sn policy, r = Ok t /\ tr_changed t = true /\ policy_changed (es_runtime s) = (rt, Ok sn) /\
    pol_generation (ctl_current policy) = es_policy_generation s + 1 /\ pol_config (ctl_current policy) = cfg /\
    s' = es_with_last (es_with_runtime (es_with_policy s policy) rt) None evidence_revoked.
Proof.
  unfold update_policy. intros H.
  destruct (if bool_decide _ then _ else _) as [u|e] eqn:Ec; [|injection H as <- <-; by left].
  destruct (controller_replace (es_policy s) g cfg) as [c' [t|e]] eqn:Er.
  - apply replace_changed in Er as (Hc & Hsame & Hnew). rewrite <- Hc in Ec.
    destruct (tr_changed t) eqn:Et.
    + right. destruct (Hnew eq_refl) as [Hg Hcfg]. destruct (policy_changed (es_runtime s)) as [rt [sn|e]] eqn:Ep.
      * cbn in H. rewrite Ep in H. injection H as <- <-. by exists t, rt, sn, c'.
      * unfold policy_changed in Ep. rewrite Ec in Ep. done.
    + left. injection H as <- <-. rewrite Hsame by done. split; [by destruct s|]. by intros t' [= <-].
  - apply replace_unchanged in Er as ->. injection H as <- <-. left. split; [by destruct s|done].
Qed.

Lemma update_policy_call s g cfg s' r :
  update_policy s g cfg = (s', r) -> exists evs, engine_call s evs s'.
Proof.
  intros [[-> _]|(t & rt & sn & policy & _ & _ & Hp & Hg & _ & ->)]%update_policy_cases; [exists []; apply call_refl|].
  exists [EvPolicyChanged]. apply call_keeps; [|done]. split; [by eapply runtime_trace_one, step_policy|done|]. cbn.
  unfold es_policy_generation in *. cbn. lia.
Qed.

Lemma advance_call s next s' r :
  advance_authority_state s next = (s', r) -> exists evs, engine_call s evs s'.
Proof.
  unfold advance_authority_state. intros H. destruct (transition (es_runtime s) next) as [rt [sn|e]] eqn:Et.
  - injection H as <- _. exists [EvTransition next].
    assert (engine_moves s [EvTransition next] (es_with_runtime s rt)) as Hm by (apply moves_runtime; [by econstructor|done]).
    destruct next; (apply call_keeps; [by try apply moves_last|done]).
  - injection H as <- _. exists [EvRejected e]. apply call_runtime; [by econstructor|done].
Qed.

(** One event admitted, or refused. *)
Lemma admit_call s rt r : admit_event (es_runtime s) = (rt, r) -> exists evs, engine_call s evs (es_with_runtime s rt).
Proof.
  intros H. destruct r as [stamp|e]; [exists [EvAdmitted stamp]|exists [EvRejected e]];
    (apply call_runtime; [by econstructor|done]).
Qed.

Lemma admit_resolution_call s t q s' r : admit_resolution s t q = (s', r) -> exists evs, engine_call s evs s'.
Proof.
  unfold admit_resolution. intros H. destruct (negb _); [injection H as <- _; eauto using call_refl|].
  destruct (controller_admit _ _); [|injection H as <- _; eauto using call_refl].
  destruct (admit_event _) as [rt o] eqn:Ea. apply admit_call in Ea. destruct o; by injection H as <- _.
Qed.

Lemma admit_gateway_call s sel q l s' r : admit_gateway_selection s sel q l = (s', r) -> exists evs, engine_call s evs s'.
Proof.
  unfold admit_gateway_selection. intros H. destruct (selection_response _ _ _) as [[m ad]|e];
    [|injection H as <- _; eauto using call_refl].
  destruct (negb _); [injection H as <- _; eauto using call_refl|].
  destruct (admit_resolution _ _ _) as [s1 o] eqn:Ea. apply admit_resolution_call in Ea. destruct o; by injection H as <- _.
Qed.

(** Either one transition or one admission, as a pair of the runtime and a result. *)
Lemma step_or_admit_call s (b : bool) next rt (o : result RuntimeError unit) :
  invalidating_state next = false ->
  (if b then let '(r, o) := transition (es_runtime s) next in (r, result_map (fun _ => tt) o)
   else let '(r, o) := admit_event (es_runtime s) in (r, result_map (fun _ => tt) o)) = (rt, o) ->
  exists evs, engine_call s evs (es_with_runtime s rt).
Proof.
  intros Hi. destruct b.
  - destruct (transition _ _) as [r [sn|e]] eqn:Et; intros [= <- _];
      [exists [EvTransition next]|exists [EvRejected e]]; (apply call_runtime; [by econstructor|done]).
  - destruct (admit_event _) as [r o'] eqn:Ea. intros [= <- _]. by apply admit_call in Ea.
Qed.

(** ** Completion *)

(** The runtime with its clock advanced by one. *)
Record advanced (r r' : BrowserRuntime) : Prop := {
  ad_session : rt_session r' = rt_session r; ad_generation : rt_generation r' = rt_generation r;
  ad_clock : rt_event_sequence r' = rt_event_sequence r + 1;
  ad_floor : rt_invalidation_sequence r' = rt_invalidation_sequence r }.

Lemma es_with_runtime_id s : es_with_runtime s (es_runtime s) = s.
Proof. by destruct s. Qed.

Lemma transition_refused r next r' e : transition r next = (r', Err e) -> r' = r.
Proof. unfold transition. intros H. by run_all. Qed.
Lemma admit_refused r r' e : admit_event r = (r', Err e) -> r' = r.
Proof. unfold admit_event. intros H. by run_all. Qed.

Lemma transition_advances r next r' sn :
  transition r next = (r', Ok sn) -> invalidating_state next = false ->
  advanced r r' /\ rt_authority_state r' = next /\ valid_authority_transition (rt_authority_state r) next = true.
Proof.
  unfold transition. intros H Hi. run_all.
  match goal with E : checked_add _ _ = Some _ |- _ => apply checked_add_Some in E as [-> _] end. done.
Qed.

Lemma admit_advances r r' stamp :
  admit_event r = (r', Ok stamp) ->
  advanced r r' /\ rt_authority_state r' = rt_authority_state r /\ authority_admits_work (rt_authority_state r') = true /\
  stamp = {| stamp_session := rt_session r'; stamp_generation := rt_generation r';
             stamp_event_sequence := rt_event_sequence r' |}.
Proof.
  unfold admit_event. intros H.
  run_all; match goal with E : checked_add _ _ = Some _ |- _ => apply checked_add_Some in E as [-> _] end; done.
Qed.

(** The step a completion or a bridge authorization takes: into the next state
    from the state before it, else one admission. *)
Lemma step_or_admit_ok s before next rt u :
  (if bool_decide (es_authority s = before)
   then let '(r, o) := transition (es_runtime s) next in (r, result_map (fun _ => tt) o)
   else let '(r, o) := admit_event (es_runtime s) in (r, result_map (fun _ => tt) o))
    = (rt, (Ok u : result RuntimeError unit)) ->
  invalidating_state next = false ->
  advanced (es_runtime s) rt /\
  rt_authority_state rt = (if decide (es_authority s = before) then next else es_authority s).
Proof.
  intros H Hi. case_bool_decide as Hd; [rewrite decide_True by done|rewrite decide_False by done].
  - destruct (transition _ _) as [r [sn|e]] eqn:Et; [|done]. injection H as <-.
    apply transition_advances in Et as (? & ? & _); done.
  - destruct (admit_event _) as [r [st|e]] eqn:Ea; [|done]. injection H as <-.
    by apply admit_advances in Ea as (? & ? & _).
Qed.

Lemma step_or_admit_err s (b : bool) next rt e :
  (if b then let '(r, o) := transition (es_runtime s) next in (r, result_map (fun _ => tt) o)
   else let '(r, o) := admit_event (es_runtime s) in (r, result_map (fun _ => tt) o))
    = (rt, (Err e : result RuntimeError unit)) -> rt = es_runtime s.
Proof.
  destruct b.
  - destruct (transition _ _) as [r [sn|e']] eqn:Et; [done|]. intros [= <- _]. by apply transition_refused in Et.
  - destruct (admit_event _) as [r [st|e']] eqn:Ea; [done|]. intros [= <- _]. by apply admit_refused in Ea.
Qed.

(** The provenance a completion records. *)
Definition provenance_of (s : EngineState) (attempt : ResolutionAttempt) (response : ParsedResponse)
    (evidence : ValidationEvidence) (context : CompletionContext) : ResolutionProvenance :=
  {| prov_schema_version := 1; prov_runtime_session := session_bytes (rt_session (es_runtime s));
     prov_runtime_generation := rt_generation (es_runtime s);
     prov_policy_generation := es_policy_generation s;
     prov_event_sequence := rt_event_sequence (es_runtime s); prov_network := es_network s;
     prov_chain_anchor := cc_chain_anchor context; prov_transport := adm_transport (ra_admission attempt);
     prov_peer_identity := cc_peer_identity context; prov_proxy_identity := cc_proxy_identity context;
     prov_target_identity := cc_target_identity context;
     prov_direct_relay_fallback := cc_direct_relay_fallback context;
     prov_registry_profile := wire_profile (pol_config (ctl_current (es_policy s)));
     prov_evidence := evidence; prov_untrusted_ad_claim := rs_untrusted_ad_claim response |}.

Lemma ensure_current_ok s a :
  ensure_current s a = Ok tt <->
  runtime_admits (es_runtime s) (ra_runtime_stamp a) = true /\ accept_completion (es_policy s) (ra_admission a) = Ok tt.
Proof.
  unfold ensure_current. destruct (runtime_admits _ _); cbn; [|by split; [|intros []]].
  destruct (accept_completion _ _) as [[]|e]; cbn; split; [done|done|done|by intros []].
Qed.

Lemma accept_completion_ok c a :
  accept_completion c a = Ok tt <->
  adm_policy_generation a = pol_generation (ctl_current c) /\ plan_contains (transport_plan c) (adm_transport a) = true.
Proof.
  unfold accept_completion. destruct (Z.eqb_spec (adm_policy_generation a) (pol_generation (ctl_current c))); cbn;
    [|split; [done|by intros []]].
  destruct (plan_contains _ _); cbn; split; try done. by intros [].
Qed.

(** The states a completion leaves. *)
Definition completed_state (a : AuthorityState) : AuthorityState :=
  if decide (a = DnssecVerified) then DaneOriginVerified else a.

Lemma completed_state_ready a : completion_ready a = true -> bridge_ready (completed_state a) = true.
Proof. by destruct a. Qed.

Lemma complete_resolution_inv s attempt response evidence context s' r :
  complete_resolution s attempt response evidence context = (s', r) ->
  match r with
  | Ok p =>
      validate_completion_context (adm_transport (ra_admission attempt)) context = Ok tt /\
      runtime_admits (es_runtime s) (ra_runtime_stamp attempt) = true /\
      accept_completion (es_policy s) (ra_admission attempt) = Ok tt /\
      completion_ready (es_authority s) = true /\ fully_verified evidence = true /\
      p = provenance_of s' attempt response evidence context /\
      advanced (es_runtime s) (es_runtime s') /\ es_authority s' = completed_state (es_authority s) /\
      es_network s' = es_network s /\ es_policy s' = es_policy s /\
      es_last_provenance s' = Some p /\ es_last_evidence s' = evidence
  | Err _ => s' = s \/ fully_verified evidence = false /\ exists rt, s' = es_with_runtime s rt
  end.
Proof.
  unfold complete_resolution. intros H.
  destruct (validate_completion_context _ _) as [[]|e]; [|injection H as <- <-; by left].
  destruct (ensure_current s attempt) as [[]|e] eqn:Ec; [|injection H as <- <-; by left].
  apply ensure_current_ok in Ec as [Ha Hp].
  destruct (completion_ready _) eqn:Er; cbn [negb] in H; [|injection H as <- <-; by left].
  destruct (if bool_decide _ then _ else _) as [rt o] eqn:Es. destruct o as [u|e].
  - apply step_or_admit_ok in Es as [Had Hst]; [|done].
    cbn [es_with_runtime es_runtime es_network es_policy] in H.
    match type of H with context [require_verified_hns_https ?q] => set (p := q) in H end.
    unfold require_verified_hns_https in H. cbn [prov_evidence p] in H.
    destruct (fully_verified evidence) eqn:Ev; injection H as <- <-; [|right; split; [done|by eexists]].
    split_and!; try done. unfold p, provenance_of, es_policy_generation. cbn.
    apply accept_completion_ok in Hp as [-> _]. done.
  - apply step_or_admit_err in Es as ->. injection H as <- <-. left. by rewrite es_with_runtime_id.
Qed.

Lemma completed_moves s s' evidence a resp ctx p :
  complete_resolution s a resp evidence ctx = (s', Ok p) ->
  exists evs, engine_moves s evs s' /\ existsb invalidating evs = false.
Proof.
  intros E. pose proof (complete_resolution_inv _ _ _ _ _ _ _ E) as (_ & _ & _ & Hr & _ & _ & _ & _ & Hn & Hp & _).
  unfold complete_resolution in E.
  destruct (validate_completion_context _ _) as [u1|]; [|done]. destruct (ensure_current _ _) as [u2|]; [|done].
  rewrite Hr in E. cbn [negb] in E. case_bool_decide as Hd.
  - destruct (transition _ _) as [rt [sn|e]] eqn:Et; [|done]. cbn [result_map] in E.
    destruct (require_verified_hns_https _); [|done]. injection E as <- _.
    exists [EvTransition DaneOriginVerified]. split; [|done]. apply moves_last, moves_runtime; [by econstructor|done].
  - destruct (admit_event _) as [rt [st|e]] eqn:Ea; [|done]. cbn [result_map] in E.
    destruct (require_verified_hns_https _); [|done]. injection E as <- _.
    exists [EvAdmitted st]. split; [|done]. apply moves_last, moves_runtime; [by econstructor|done].
Qed.

Lemma complete_resolution_call s s' evidence a resp ctx r :
  complete_resolution s a resp evidence ctx = (s', r) -> exists evs, engine_call s evs s'.
Proof.
  intros E. destruct r as [p|e].
  { pose proof E as (evs & ? & ?)%completed_moves. exists evs. by eapply call_completes. }
  unfold complete_resolution in E.
  destruct (validate_completion_context _ _) as [u1|]; [|injection E as <- _; eauto using call_refl].
  destruct (ensure_current _ _) as [u2|]; [|injection E as <- _; eauto using call_refl].
  destruct (negb _); [injection E as <- _; eauto using call_refl|].
  destruct (if bool_decide _ then _ else _) as [rt o] eqn:Es. apply step_or_admit_call in Es as [evs Hm]; [|done].
  exists evs. destruct o as [u|e']; [|by injection E as <- _].
  destruct (require_verified_hns_https _); [done|]. by injection E as <- _.
Qed.

Section completion.
Context `{DaneDigests} `{OpenSsl} `{ChainExternals}.

(** What the strict path accepts, without the engine's own state. *)
Record strict_evidence (network : Policy.Network) (attempt : ResolutionAttempt) (response : ParsedResponse)
    (input : ValidatedDaneInput) (context : CompletionContext) (anchor : ChainAnchor) (dane_match : DaneMatch)
    : Prop := {
  se_attempt : rs_attempt_stamp response = ra_runtime_stamp attempt;
  se_rcode : rcode (hdr_flags (msg_header (rs_message response))) = 0;
  se_question : query_question (ra_query attempt)
    = {| q_name := vt_terminal_owner (vi_validated input); q_type := Tlsa; q_class := CLASS_IN |};
  se_authority : exists authority, vt_hns_authority (vi_validated input) = Some authority /\
    vi_validation_unix_time input = he_validation_time authority /\
    engine_network_id network = network_id (anchor_network (he_anchor authority)) /\
    anchor = derived_anchor authority;
  se_fresh : vt_validated_at_unix (vi_validated input) < vt_expires_at_unix (vi_validated input);
  se_sni : vi_origin_sni input = vt_base_domain_ascii (vi_validated input);
  se_records : exact_tlsa_answers attempt response = vt_records (vi_validated input);
  se_match : verify_dane_chain (vi_certificate_chain_der input) (vt_base_domain_ascii (vi_validated input))
    (vt_records (vi_validated input)) (vi_validation_unix_time input) (vi_limits input) = Ok dane_match;
  se_anchor : forall provided, cc_chain_anchor context = Some provided -> provided = anchor }.

Lemma question_guard q name :
  bool_decide (q_type q <> Tlsa) || negb (q_class q =? CLASS_IN) || bool_decide (q_name q <> name) = false <->
  q = {| q_name := name; q_type := Tlsa; q_class := CLASS_IN |}.
Proof.
  rewrite !orb_false_iff, negb_false_iff, Z.eqb_eq, !neq_decide_false.
  destruct q as [n t c]. cbn. split; [intros ((-> & ->) & ->); done|by intros [= -> -> ->]].
Qed.

Lemma provided_guard context (anchor : ChainAnchor) :
  match cc_chain_anchor context with Some provided => bool_decide (provided <> anchor) | None => false end = false <->
  forall provided, cc_chain_anchor context = Some provided -> provided = anchor.
Proof.
  destruct (cc_chain_anchor context) as [p|]; [|by split].
  rewrite neq_decide_false. split; [by intros -> ? [= ->]|by auto].
Qed.

Lemma validated_input_ok s attempt response input context anchor dm :
  validated_input s attempt response input context = Ok (anchor, dm) <->
  strict_evidence (es_network s) attempt response input context anchor dm.
Proof.
  unfold validated_input. split.
  - intros E. case_bool_decide as Hs; [done|]. destruct (negb (rcode _ =? 0)) eqn:Hr; [done|].
    destruct (bool_decide _ || _ || _) eqn:Hq; [done|]. apply question_guard in Hq.
    destruct (vt_hns_authority _) as [authority|] eqn:Ha; [|done]. cbn [ok_or] in E.
    destruct (negb (vi_validation_unix_time input =? _)) eqn:Ht; [done|]. destruct (_ <=? _) eqn:Hf; [done|].
    destruct (negb (engine_network_id _ =? _)) eqn:Hn; [done|]. case_bool_decide as Hsni; [done|].
    case_bool_decide as Hrec; [done|].
    destruct (verify_dane_chain _ _ _ _ _) as [m|e] eqn:Hm; [|done]. cbn [lift_error] in E.
    destruct (match cc_chain_anchor context with Some _ => _ | None => _ end) eqn:Hp; [done|].
    injection E as <- <-. rewrite provided_guard in Hp. breflect. split; try done. by exists authority.
  - intros [Hs Hr Hq (authority & Ha & Ht & Hn & ->) Hf Hsni Hrec Hm Hp]. cbv zeta.
    apply question_guard in Hq. apply provided_guard in Hp.
    rewrite (proj2 (neq_decide_false _ _) Hs), Hr, Hq, Ha. cbn [ok_or negb].
    rewrite Ht, !Z.eqb_refl, (proj2 (Z.leb_gt _ _) Hf), Hn, Z.eqb_refl. cbn [negb].
    rewrite (proj2 (neq_decide_false _ _) Hsni), (proj2 (neq_decide_false _ _) Hrec). rewrite Ht in Hm. rewrite Hm. cbn [lift_error].
    by rewrite Hp.
Qed.

(** The completion the strict path returns. *)
Definition strict_completion (s : EngineState) (attempt : ResolutionAttempt) (response : ParsedResponse)
    (input : ValidatedDaneInput) (context : CompletionContext) (anchor : ChainAnchor) (dane_match : DaneMatch)
    : DaneCompletion :=
  let validated := vi_validated input in
  {| dc_admission_stamp := ra_runtime_stamp attempt;
     dc_provenance := provenance_of s attempt response evidence_verified (context_with_anchor context anchor);
     dc_dane_match := dane_match;
     dc_origin_sni := Some (map to_ascii_lowercase (trim_end_dots (vi_origin_sni input)));
     dc_bridge_service_port := tlsa_tcp_service_port (vt_requested_owner validated);
     dc_bridge_tlsa_records := Some (canonical_tlsa_rdata (vt_records validated));
     dc_bridge_valid_from := Some (vt_validated_at_unix validated);
     dc_bridge_valid_until := checked_pred (vt_expires_at_unix validated) |}.

(** A completion just made is current. *)
Lemma fresh_completion_current s s' attempt response evidence context m sni port recs vf vu :
  runtime_admits (es_runtime s) (ra_runtime_stamp attempt) = true ->
  advanced (es_runtime s) (es_runtime s') -> es_network s' = es_network s -> es_policy s' = es_policy s ->
  completion_ready (es_authority s') = true -> fully_verified evidence = true ->
  completion_is_current s'
    {| dc_admission_stamp := ra_runtime_stamp attempt;
       dc_provenance := provenance_of s' attempt response evidence context; dc_dane_match := m;
       dc_origin_sni := sni; dc_bridge_service_port := port; dc_bridge_tlsa_records := recs;
       dc_bridge_valid_from := vf; dc_bridge_valid_until := vu |} = true.
Proof.
  intros Ha [A1 A2 A3 A4] Hn Hp Hst Hv. unfold runtime_admits in Ha. breflect.
  assert (authority_admits_work (es_authority s') = true) as Hw by (by destruct (es_authority s')).
  unfold completion_is_current, runtime_admits, es_policy_generation. cbn. unfold es_authority in Hw.
  rewrite Hw, Hv, !(bool_decide_eq_true_2 _) by congruence.
  repeat (apply andb_true_iff; split); try done; rewrite ?Z.eqb_eq, ?Z.leb_le, ?Z.ltb_lt; try lia.
  unfold es_policy_generation. lia.
Qed.

Lemma validated_completion_inv s attempt response input context s' r :
  complete_resolution_with_validated_tlsa s attempt response input context = (s', r) ->
  match r with
  | Ok c => exists anchor dm, strict_evidence (es_network s) attempt response input context anchor dm /\
      complete_resolution s attempt response evidence_verified (context_with_anchor context anchor)
        = (s', Ok (dc_provenance c)) /\
      c = strict_completion s' attempt response input context anchor dm
  | Err _ => s' = s
  end.
Proof.
  unfold complete_resolution_with_validated_tlsa. intros E.
  destruct (validated_input _ _ _ _ _) as [[anchor dm]|e] eqn:Ev; [|by injection E as <- <-].
  apply validated_input_ok in Ev.
  destruct (complete_resolution _ _ _ _ _) as [s1 [p|e]] eqn:Ec.
  - injection E as <- <-. pose proof (complete_resolution_inv _ _ _ _ _ _ _ Ec) as Hc.
    destruct Hc as (_ & _ & _ & _ & _ & -> & _). exists anchor, dm. split; [done|]. split; [exact Ec|done].
  - injection E as <- <-. pose proof (complete_resolution_inv _ _ _ _ _ _ _ Ec) as [->|[? _]]; [done|discriminate].
Qed.
End completion.

(** ** The state invariant *)

Record provenance_current (s : EngineState) (p : ResolutionProvenance) : Prop := {
  pc_verified : fully_verified (prov_evidence p) = true;
  pc_evidence : es_last_evidence s = prov_evidence p;
  pc_session : prov_runtime_session p = session_bytes (rt_session (es_runtime s));
  pc_generation : prov_runtime_generation p = rt_generation (es_runtime s);
  pc_policy : prov_policy_generation p = es_policy_generation s;
  pc_network : prov_network p = es_network s;
  pc_event : rt_invalidation_sequence (es_runtime s) < prov_event_sequence p <= rt_event_sequence (es_runtime s);
  pc_state : bridge_ready (es_authority s) = true }.

(** Evidence is shown as verified only with a current provenance behind it. *)
Record engine_inv (s : EngineState) : Prop := {
  inv_runtime : runtime_wf (es_runtime s);
  inv_last : match es_last_provenance s with
             | Some p => provenance_current s p
             | None => fully_verified (es_last_evidence s) = false
             end }.

Lemma engine_new_inv config : engine_inv (engine_new config).
Proof. split; [|done]. unfold runtime_wf. cbn. width_lia. Qed.

Lemma provenance_kept s evs s' p :
  runtime_wf (es_runtime s) -> provenance_current s p -> engine_moves s evs s' -> existsb invalidating evs = false ->
  es_last_evidence s' = es_last_evidence s -> provenance_current s' p.
Proof.
  intros Hwf [] [Ht Hn Hp] Hi He.
  assert (existsb policy_event evs = false) as Hpe.
  { destruct (existsb policy_event evs) eqn:E; [|done]. by rewrite (policy_event_invalidating _ E) in Hi. }
  rewrite Hpe in Hp. pose proof (runtime_trace_session _ _ _ Ht). pose proof (runtime_trace_clock _ _ _ Ht).
  pose proof (runtime_trace_floor _ _ _ Hwf Ht) as Hf. rewrite Hi in Hf. destruct Hf as [Hg Hfl].
  split; unfold es_policy_generation, es_authority in *; rewrite ?Hn, ?Hp, ?He; try congruence; [lia|].
  eapply (bridge_states_stay bridge_ready); eauto using bridge_ready_stays.
Qed.

Lemma call_inv s evs s' : engine_inv s -> engine_call s evs s' -> engine_inv s'.
Proof.
  intros [Hwf Hlast] Hc.
  assert (runtime_wf (es_runtime s')) as Hwf' by (eapply runtime_trace_wf; [done|by apply call_moves]).
  split; [done|]. destruct Hc as [Hm Hk|attempt response evidence context p Hm Hi Ec].
  - unfold keeps_last in Hk. destruct (existsb invalidating evs) eqn:Hi.
    + by destruct Hk as [-> ->].
    + destruct Hk as [-> He]. destruct (es_last_provenance s) as [q|]; [|by rewrite He].
      exact (provenance_kept s evs s' q Hwf Hlast Hm Hi He).
  - pose proof (complete_resolution_inv _ _ _ _ _ _ _ Ec) as
      (_ & _ & _ & Hr & Hv & Ep & [_ _ Hclk Hfl] & Hst & Hn & Hp & -> & He).
    pose proof (completed_state_ready _ Hr) as Hb. rewrite <- Hst in Hb.
    destruct Hwf as (_ & ? & _). rewrite Ep. split; try done. cbn. lia.
Qed.

(** ** Gateway selections *)

(** The identities of a selection are within the gateway's bound. *)
Lemma validate_response_identities g bytes ids t :
  validate_response g bytes ids t = Ok tt ->
  forallb (identity_bounded (gw_limits g)) [id_peer ids; id_proxy ids; id_target ids] = true.
Proof.
  unfold validate_response. destruct (_ || _); [done|]. by destruct (forallb _ _).
Qed.

Lemma selection_identities ops g g' outs sel :
  gateway_wf g -> gateway_run g ops = (g', outs) -> sel ∈ selections outs ->
  forallb (identity_bounded (gw_limits g))
    [id_peer (sel_identities sel); id_proxy (sel_identities sel); id_target (sel_identities sel)] = true.
Proof.
  revert g outs. induction ops as [|op ops IH]; intros g outs Hwf E Hin.
  { simplify_eq/=. by apply not_elem_of_nil in Hin. }
  apply run_cons_inv in E as (g1 & out & outs' & -> & Hm & E).
  pose proof (move_wf _ _ _ Hwf Hm) as Hwf1. specialize (IH _ _ Hwf1 E).
  destruct (move_const _ _ _ Hm) as (_ & Hl & _). rewrite Hl in IH.
  destruct Hm as [e| |e| | |a bytes ids Hact Hv|a]; try (by apply IH).
  destruct (closed_run _ _ _ _ (revoke_closed g) E) as (_ & Hs & _).
  simpl in Hin. rewrite Hs, list_elem_of_singleton in Hin. subst sel.
  exact (validate_response_identities _ _ _ _ Hv).
Qed.

Lemma identity_bounds l identity :
  maximum_identity_bytes l <= MAX_TRANSPORT_IDENTITY_BYTES -> identity_bounded l identity = true ->
  identity_bad identity = false.
Proof.
  unfold identity_bounded, identity_bad. intros Hl. destruct identity as [i|]; [|done]. intros Hb. breflect.
  apply orb_false_iff. split; [apply bool_decide_eq_false; by intros ->|apply Z.ltb_ge; lia].
Qed.

Lemma selection_context_ok sel l :
  topology_ok (sel_transport sel) (sel_identities sel) ->
  (sel_direct_relay_fallback sel = true -> sel_transport sel = HandshakeP2pDnsRelay) ->
  maximum_identity_bytes l <= MAX_TRANSPORT_IDENTITY_BYTES ->
  forallb (identity_bounded l)
    [id_peer (sel_identities sel); id_proxy (sel_identities sel); id_target (sel_identities sel)] = true ->
  validate_completion_context (sel_transport sel) (selection_context sel) = Ok tt.
Proof.
  intros Ht Hf Hl Hb. cbn [forallb] in Hb. rewrite !andb_true_iff in Hb. destruct Hb as (H1 & H2 & H3 & _).
  unfold validate_completion_context, selection_context. cbn [existsb cc_peer_identity cc_proxy_identity
    cc_target_identity cc_direct_relay_fallback].
  rewrite !(identity_bounds l) by done. cbn [orb]. destruct sel as [gen t resp ids fb].
  cbn [sel_transport sel_identities sel_direct_relay_fallback] in *.
  destruct t; cbn [topology_ok] in Ht; try done;
    try (subst ids; destruct fb; [by specialize (Hf eq_refl)|done]).
  - destruct Ht as (proxy & target & -> & Hne). cbn. rewrite bool_decide_eq_false_2 by done.
    destruct fb; [by specialize (Hf eq_refl)|done].
  - destruct Ht as (peer & ->). done.
Qed.

(** An admission under the plan of the policy in force. *)
Lemma controller_admit_ok c t :
  plan_contains (transport_plan c) t = true -> t <> TransportUnavailable ->
  controller_admit c t = Ok {| adm_policy_generation := pol_generation (ctl_current c); adm_transport := t |}.
Proof. unfold controller_admit. intros -> Ht. by rewrite bool_decide_eq_false_2. Qed.

Lemma admit_event_ok r :
  authority_admits_work (rt_authority_state r) = true -> rt_event_sequence r < u64_max ->
  exists r' stamp, admit_event r = (r', Ok stamp).
Proof.
  intros Hw Hc. unfold admit_event, checked_add. rewrite bool_decide_eq_false_2 by (intros E; by rewrite E in Hw).
  unfold authority_admits_work in Hw. rewrite Hw. cbn [negb].
  destruct (rt_event_sequence r + 1 <=? u64_max) eqn:E; [eauto|]. breflect. lia.
Qed.

Lemma admitted_now r r' stamp : runtime_wf r -> admit_event r = (r', Ok stamp) -> runtime_admits r' stamp = true.
Proof.
  intros (_ & Hf & _) (Had & _ & Hw & ->)%admit_advances. destruct Had. unfold runtime_admits. cbn.
  rewrite Hw, bool_decide_eq_true_2, Z.eqb_refl by done. cbn. apply andb_true_iff. rewrite Z.ltb_lt, Z.leb_le. lia.
Qed.

Lemma admit_resolution_ok s t q :
  runtime_wf (es_runtime s) -> resolution_transport_ready (es_authority s) = true ->
  rt_event_sequence (es_runtime s) < u64_max ->
  plan_contains (transport_plan (es_policy s)) t = true -> t <> TransportUnavailable ->
  exists s' a, admit_resolution s t q = (s', Ok a) /\
    ra_admission a = {| adm_policy_generation := es_policy_generation s; adm_transport := t |} /\
    ra_query a = q /\ ensure_current s' a = Ok tt.
Proof.
  intros Hwf Hr Hc Hp Ht. unfold admit_resolution. rewrite Hr, controller_admit_ok by done. cbn [negb].
  destruct (admit_event_ok (es_runtime s)) as (rt & stamp & E); [by destruct (es_authority s) eqn:Ea; unfold es_authority in Ea; rewrite Ea|done|].
  rewrite E. do 2 eexists. split; [done|]. split; [done|]. split; [done|].
  apply ensure_current_ok. cbn. split; [by eapply admitted_now|]. by apply accept_completion_ok.
Qed.

Lemma begin_gateway_inv s next limits next' g :
  begin_gateway s next limits = (next', Ok g) ->
  gateway_wf g /\ gw_policy g = ctl_current (es_policy s) /\ gw_limits g = limits /\
  gw_next_candidate g = 0 /\ gw_odoh_attempted g = false.
Proof.
  unfold begin_gateway. destruct (gateway_new next _ limits) as [n [g0|e]] eqn:E; [|done]. intros [= <- <-].
  pose proof (gateway_new_wf _ _ _ _ _ E) as (? & ? & ? & _). by pose proof (gateway_new_fields _ _ _ _ _ E) as [? ?].
Qed.

(** What the gateway selects the engine admits. A selection made by a gateway
    that was begun from the engine, with identities within the engine's bound, has a
    completion context the engine accepts. If the policy has changed since, the engine
    refuses it as stale; if not, a ready engine with clock left admits it, for the
    selected transport under the policy generation the gateway ran with. *)
Theorem gateway_selection_admitted s0 next limits next' g ops g' outs sel s evs query plimits m ad :
  begin_gateway s0 next limits = (next', Ok g) -> gateway_run g ops = (g', outs) -> sel ∈ selections outs ->
  maximum_identity_bytes limits <= MAX_TRANSPORT_IDENTITY_BYTES ->
  runtime_wf (es_runtime s0) -> engine_moves s0 evs s ->
  parse_with_limits (sel_response sel) plimits = Ok m ->
  query_correlate query m = Ok {| cor_message := m; cor_untrusted_ad_claim := ad |} ->
  validate_completion_context (sel_transport sel) (selection_context sel) = Ok tt /\
  if existsb policy_event evs
  then admit_gateway_selection s sel query plimits = (s, Err StaleGatewaySelection)
  else resolution_transport_ready (es_authority s) = true -> rt_event_sequence (es_runtime s) < u64_max ->
    exists s' gr, admit_gateway_selection s sel query plimits = (s', Ok gr) /\
      ra_admission (gr_attempt gr)
        = {| adm_policy_generation := es_policy_generation s0; adm_transport := sel_transport sel |} /\
      ra_query (gr_attempt gr) = query /\ gr_context gr = selection_context sel /\
      rs_message (gr_response gr) = m /\ ensure_current s' (gr_attempt gr) = Ok tt.
Proof.
  intros Hb Hrun Hin Hl Hwf0 Hmv Hparse Hcor.
  apply begin_gateway_inv in Hb as (Hwf & Hpol & Hlim & _). subst limits.
  pose proof (selection_identities _ _ _ _ _ Hwf Hrun Hin) as Hids.
  destruct (run_selection _ _ _ _ _ Hwf Hrun Hin) as (_ & Hget & _ & Htop & Hgen & Hfb).
  assert (validate_completion_context (sel_transport sel) (selection_context sel) = Ok tt) as Hctx.
  { eapply selection_context_ok; [done| |exact Hl|exact Hids]. rewrite Hfb. intros [Ht _]%andb_true_iff. by breflect. }
  split; [done|]. unfold admit_gateway_selection, selection_response.
  rewrite Hparse. cbn [lift_error]. rewrite Hcor. cbn [lift_error cor_untrusted_ad_claim]. rewrite Hctx.
  rewrite Hpol in Hgen. destruct Hmv as [Htr Hn Hpp]. destruct (existsb policy_event evs).
  - unfold es_policy_generation in *. rewrite (proj2 (Z.eqb_neq _ _)) by lia. done.
  - intros Hr Hc. unfold es_policy_generation in *. rewrite Hpp, Hgen, Z.eqb_refl. cbn [negb].
    destruct (admit_resolution_ok s (sel_transport sel) query) as (s' & a & -> & Ha & Hq & He); try done.
    + by eapply runtime_trace_wf.
    + rewrite Hpp. unfold transport_plan. rewrite <- Hpol, <- (wf_plan _ Hwf). apply bool_decide_eq_true.
      unfold get in Hget. case_match; [done|]. by eapply list_elem_of_lookup_2.
    + intros Eu. by rewrite Eu in Htop.
    + do 2 eexists. split; [done|]. cbn. unfold es_policy_generation in Ha. by rewrite Ha, Hpp.
Qed.

(** ** The strict completion *)

Section strict.
Context `{DaneDigests} `{OpenSsl} `{ChainExternals}.

Lemma anchor_keeps_context t context anchor :
  validate_completion_context t (context_with_anchor context anchor) = validate_completion_context t context.
Proof. done. Qed.

Lemma complete_resolution_ok s attempt response evidence context :
  validate_completion_context (adm_transport (ra_admission attempt)) context = Ok tt ->
  ensure_current s attempt = Ok tt -> completion_ready (es_authority s) = true ->
  fully_verified evidence = true -> rt_event_sequence (es_runtime s) < u64_max ->
  exists s' p, complete_resolution s attempt response evidence context = (s', Ok p).
Proof.
  intros Hc He Hr Hv Hclk. unfold complete_resolution. rewrite Hc, He, Hr. cbn [negb].
  assert (exists rt, (if bool_decide (es_authority s = DnssecVerified)
    then let '(r, o) := transition (es_runtime s) DaneOriginVerified in (r, result_map (fun _ => tt) o)
    else let '(r, o) := admit_event (es_runtime s) in (r, result_map (fun _ => tt) o))
      = (rt, (Ok tt : result RuntimeError unit))) as (rt & ->).
  { case_bool_decide as Hd.
    - unfold transition, es_authority, checked_add in *. rewrite Hd. cbn [valid_authority_transition negb].
      destruct (_ <=? u64_max) eqn:E; [by eexists|breflect; lia].
    - destruct (admit_event_ok (es_runtime s)) as (rt & stamp & ->); [|done|by eexists].
      unfold es_authority in Hr. by destruct (rt_authority_state (es_runtime s)). }
  unfold require_verified_hns_https. cbn [prov_evidence]. rewrite Hv. by do 2 eexists.
Qed.

(** C11. The strict completion accepts exactly local evidence. It succeeds just when
    the response belongs to the current attempt and is a successful answer to a
    class-IN TLSA query for the validated owner, the validated set rests on an on-chain
    authority of this network and time, its base domain is the server name sent, its
    records are the answer's, and the presented chain matches them; it then records
    fully verified provenance anchored at that authority's tree root, and the
    completion is current. A refusal leaves the engine unchanged. *)
Theorem strict_completion_exact s attempt response input context s' r :
  complete_resolution_with_validated_tlsa s attempt response input context = (s', r) ->
  match r with
  | Err _ => s' = s /\ (rt_event_sequence (es_runtime s) < u64_max ->
      ensure_current s attempt = Ok tt -> completion_ready (es_authority s) = true ->
      validate_completion_context (adm_transport (ra_admission attempt)) context = Ok tt ->
      forall anchor dm, ~ strict_evidence (es_network s) attempt response input context anchor dm)
  | Ok c => exists anchor dm,
      strict_evidence (es_network s) attempt response input context anchor dm /\
      validate_completion_context (adm_transport (ra_admission attempt)) context = Ok tt /\
      ensure_current s attempt = Ok tt /\ completion_ready (es_authority s) = true /\
      c = strict_completion s' attempt response input context anchor dm /\
      prov_chain_anchor (dc_provenance c) = Some anchor /\ fully_verified (prov_evidence (dc_provenance c)) = true /\
      es_last_provenance s' = Some (dc_provenance c) /\ es_authority s' = completed_state (es_authority s) /\
      completion_is_current s' c = true
  end.
Proof.
  intros E. pose proof (validated_completion_inv _ _ _ _ _ _ _ E) as Hi. destruct r as [c|e].
  - destruct Hi as (anchor & dm & Hev & Hc & ->). exists anchor, dm. split; [done|].
    pose proof (complete_resolution_inv _ _ _ _ _ _ _ Hc) as
      (Hv & Ha & Hp & Hr & _ & _ & Had & Hst & Hn & Hpp & Hl & _).
    split_and!; try done; [by apply ensure_current_ok|].
    apply (fresh_completion_current s); try done. rewrite Hst. by destruct (es_authority s).
  - subst s'. split; [done|]. intros Hclk Hcur Hr Hctx anchor dm Hev%validated_input_ok.
    unfold complete_resolution_with_validated_tlsa in E. rewrite Hev in E.
    destruct (complete_resolution_ok s attempt response evidence_verified (context_with_anchor context anchor))
      as (s1 & p & Ec); try done. by rewrite Ec in E.
Qed.
End strict.

(** ** Concrete instances *)

Definition sample_engine (state : AuthorityState) : EngineState :=
  {| es_runtime := demo_runtime 1 6 0 state; es_network := Policy.Mainnet;
     es_policy := {| ctl_current := policy_snapshot_default |}; es_last_provenance := None;
     es_last_evidence := evidence_not_attempted |}.

Definition tlsa_query (owner : Name) : Query :=
  {| query_id := 7; query_question := {| q_name := owner; q_type := Tlsa; q_class := CLASS_IN |} |}.

(** A header with the response bit and one question, for [a.]. *)
Definition sample_answer : list Z := [0; 7; 128; 0; 0; 1; 0; 0; 0; 0; 0; 0; 1; 97; 0; 0; 52; 0; 1].
Definition sample_selecting : list gateway_op :=
  [OpNext policy_snapshot_default 100;
   OpComplete policy_snapshot_default (demo_attempt 0 DirectAuthoritativeUdp)
     (Response sample_answer identities_default) 101].
Definition sample_selected : GatewaySelection :=
  {| sel_policy_generation := 1; sel_transport := DirectAuthoritativeUdp; sel_response := sample_answer;
     sel_identities := identities_default; sel_direct_relay_fallback := false |}.

Lemma gateway_selection_admitted_witness :
  exists s' gr, admit_gateway_selection (sample_engine ResolutionTransportReady) sample_selected
    (tlsa_query {| name_labels := [[97]] |}) limits_browser = (s', Ok gr) /\ ensure_current s' (gr_attempt gr) = Ok tt.
Proof.
  destruct (parse_with_limits sample_answer limits_browser) as [m|e] eqn:Em; [|exfalso; revert Em; vm_compute; discriminate].
  destruct (gateway_selection_admitted (sample_engine ResolutionTransportReady) 1 gateway_limits_default 2 demo_gateway
    sample_selecting (fst (gateway_run demo_gateway sample_selecting)) (snd (gateway_run demo_gateway sample_selecting))
    sample_selected (sample_engine ResolutionTransportReady) [] (tlsa_query {| name_labels := [[97]] |})
    limits_browser m false) as [_ Ha].
  - reflexivity.
  - reflexivity.
  - vm_compute. left.
  - by vm_compute.
  - unfold runtime_wf. cbn. width_lia.
  - apply moves_refl.
  - exact Em.
  - vm_compute in Em. injection Em as <-. reflexivity.
  - destruct Ha as (s' & gr & E & _ & _ & _ & _ & Hc); [reflexivity|reflexivity|]. exists s', gr. split; [exact E|exact Hc].
Defined.

Definition sample_owner : Name := {| name_labels := [[95; 52; 52; 51]; [95; 116; 99; 112]; [97]] |}.
Definition sample_authority : HnsAuthorityEvidence :=
  {| he_anchor := {| anchor_network := LightChain.Mainnet; LightChain.anchor_height := 1; anchor_block_hash := [];
       LightChain.anchor_tree_root := [9]; anchor_chainwork := 1; anchor_validated_at := 5; anchor_valid_until := 60 |};
     he_zone := {| name_labels := [[97]] |}; he_validation_time := 5; he_expires_at_unix := 60 |}.
Definition sample_validated : ValidatedTlsa :=
  {| vt_requested_owner := sample_owner; vt_terminal_owner := sample_owner;
     vt_base_domain := {| name_labels := [[97]] |}; vt_base_domain_ascii := [97]; vt_records := sample_ta_records;
     vt_cname_chain := [];
     vt_rrset := {| vr_owner := sample_owner; vr_record_type := Tlsa; vr_key_tag := 0; vr_algorithm := 15;
                    vr_inception := 0; vr_expiration := 60; vr_observed_at_unix := 5; vr_expires_at_unix := 60 |};
     vt_hns_authority := Some sample_authority; vt_validated_at_unix := 5; vt_expires_at_unix := 60 |}.
Definition sample_attempt : ResolutionAttempt :=
  {| ra_runtime_stamp := demo_stamp;
     ra_admission := {| adm_policy_generation := 1; adm_transport := DirectAuthoritativeUdp |};
     ra_query := tlsa_query sample_owner |}.
Definition sample_parsed : ParsedResponse :=
  {| rs_attempt_stamp := demo_stamp;
     rs_message := {| msg_header := {| hdr_id := 7; hdr_flags := {| flags_bits := 0x8000 |}; question_count := 1;
         answer_count := 2; authority_count := 0; additional_count := 0 |};
       msg_questions := [query_question (tlsa_query sample_owner)];
       msg_answers := map (fun tlsa => {| rr_name := sample_owner; rr_type := Tlsa; rr_class := CLASS_IN; rr_ttl := 60;
                                          rr_rdata := RdataTlsa tlsa |}) sample_ta_records;
       msg_authorities := []; msg_additionals := [] |};
     rs_untrusted_ad_claim := false |}.
Definition sample_input : ValidatedDaneInput :=
  {| vi_validated := sample_validated; vi_certificate_chain_der := [sample_certificate]; vi_origin_sni := [97];
     vi_validation_unix_time := 5; vi_limits := dane_limits_default |}.

Lemma strict_completion_exact_witness :
  exists s' c, complete_resolution_with_validated_tlsa (H := sample_digests) (H0 := sample_openssl) (H1 := toy_externals)
    (sample_engine DnssecVerified) sample_attempt sample_parsed sample_input completion_context_default = (s', Ok c) /\
    completion_is_current s' c = true.
Proof.
  destruct (complete_resolution_with_validated_tlsa (H := sample_digests) (H0 := sample_openssl) (H1 := toy_externals)
    (sample_engine DnssecVerified) sample_attempt sample_parsed sample_input completion_context_default)
    as [s' [c|e]] eqn:E; [|exfalso; revert E; vm_compute; discriminate].
  exists s', c. split; [reflexivity|].
  pose proof (strict_completion_exact (H := sample_digests) (H0 := sample_openssl) (H1 := toy_externals)
    (sample_engine DnssecVerified) sample_attempt sample_parsed sample_input completion_context_default s' (Ok c) E)
    as (anchor & dm & _ & _ & _ & _ & _ & _ & _ & _ & _ & Hc). exact Hc.
Defined.
