(* ===== verification/Provider.v ===== *)
(** * Engine facade: origin contexts and provider authority

    Models the second half of [src/crates/hns-dane-engine/src/lib.rs]: binding an
    authenticated origin context to a namespace decision, the injection decision,
    and the opaque provider authority with its revalidation. Their fields are
    private in the source, so contexts and authorities only come from the methods
    below. The ICANN binding drops the engine's lock while the browser's TLS
    adapter runs: it is two steps, and any call may come between them. *)

From S2P Require Import Prelude Policy Runtime Engine.
From S2P Require Import NsTypes NsService NsPlan NsDecision NsFingerprint.

(** ** Origins *)

Record LogicalOrigin := { lo_scheme : OriginScheme; lo_host : list Z; lo_port : Z }.
#[export] Instance LogicalOrigin_eq_dec : EqDecision LogicalOrigin.
Proof. solve_decision. Defined.

Definition from_namespace_decision (decision : NamespaceDecision) : LogicalOrigin :=
  let query := nd_query decision in
  {| lo_scheme := oq_scheme query; lo_host := oq_host query; lo_port := origin_port query |}.
Definition is_secure (o : LogicalOrigin) : bool := uses_tls (lo_scheme o).

(** [decision.hns_network()]; the other case is its [unreachable!], which no
    decision over validated evidence reaches. *)
Definition decision_network (decision : NamespaceDecision) : HnsNetwork :=
  default NetMainnet (hns_network (nd_outcome decision)).

Definition network_matches (network : Policy.Network) (hns_network : HnsNetwork) : bool :=
  match network, hns_network with
  | Policy.Mainnet, NetMainnet | Policy.Testnet, NetTestnet | Policy.Regtest, NetRegtest
  | Policy.Simnet, NetSimnet => true
  | _, _ => false
  end.

(** [EngineSnapshot::hns_network]. *)
Definition snapshot_hns_network (s : EngineSnapshot) : HnsNetwork :=
  match sn_network s with
  | Policy.Mainnet => NetMainnet | Policy.Testnet => NetTestnet | Policy.Regtest => NetRegtest
  | Policy.Simnet => NetSimnet
  end.

Inductive AuthenticatedContextStatus :=
| Unauthenticated | HnsDaneVerified | IcannDaneVerified | IcannWebPkiAuthenticatedAbsence
| IcannWebPkiInsecureDelegation.
Inductive IcannTlsAuthenticationKind := DaneVerified | WebPkiVerified.

#[export] Instance AuthenticatedContextStatus_eq_dec : EqDecision AuthenticatedContextStatus.
Proof. solve_decision. Defined.

Record IcannOriginAuthenticationRequest := {
  iq_logical_origin : LogicalOrigin; iq_service_port : Z; iq_decision_fingerprint : list Z;
  iq_hns_network : HnsNetwork; iq_tls_policy : TlsTrustPolicy; iq_valid_until : Z;
  iq_runtime_stamp : RuntimeStamp; iq_policy_generation : Z }.
#[export] Instance IcannOriginAuthenticationRequest_eq_dec : EqDecision IcannOriginAuthenticationRequest.
Proof. solve_decision. Defined.

Record IcannOriginAuthentication := {
  ia_request : IcannOriginAuthenticationRequest; ia_kind : IcannTlsAuthenticationKind }.
Definition attest_dane_verified (r : IcannOriginAuthenticationRequest) : IcannOriginAuthentication :=
  {| ia_request := r; ia_kind := DaneVerified |}.
Definition attest_webpki_verified (r : IcannOriginAuthenticationRequest) : IcannOriginAuthentication :=
  {| ia_request := r; ia_kind := WebPkiVerified |}.

Record AuthenticatedOriginContext := {
  oc_logical_origin : LogicalOrigin; oc_selected_namespace : option Namespace;
  oc_status : AuthenticatedContextStatus; oc_runtime_session : list Z; oc_runtime_generation : Z;
  oc_policy_generation : Z; oc_event_sequence : Z; oc_admission_stamp : option RuntimeStamp;
  oc_decision_fingerprint : list Z; oc_valid_from : Z; oc_valid_until : Z }.

Definition stamp_origin_context (s : EngineState) (decision : NamespaceDecision)
    (status : AuthenticatedContextStatus) (valid_from valid_until : Z) (admission_stamp : option RuntimeStamp)
    : AuthenticatedOriginContext :=
  let runtime := runtime_snapshot (es_runtime s) in
  let '(runtime_session, runtime_generation, event_sequence) :=
    match admission_stamp with
    | None => (session_bytes (snap_session runtime), snap_generation runtime, snap_event_sequence runtime)
    | Some stamp => (session_bytes (stamp_session stamp), stamp_generation stamp, stamp_event_sequence stamp)
    end in
  {| oc_logical_origin := from_namespace_decision decision;
     oc_selected_namespace := selected_namespace (nd_outcome decision); oc_status := status;
     oc_runtime_session := runtime_session; oc_runtime_generation := runtime_generation;
     oc_policy_generation := es_policy_generation s; oc_event_sequence := event_sequence;
     oc_admission_stamp := admission_stamp; oc_decision_fingerprint := decision_fingerprint decision;
     oc_valid_from := valid_from; oc_valid_until := valid_until |}.

Definition decision_expires (d : NamespaceDecision) : Z := expires_at_unix (nd_outcome d).
Definition decision_fresh (d : NamespaceDecision) (now : Z) : bool := is_fresh_at (nd_outcome d) now.

Definition bind_unauthenticated_origin_context (s : EngineState) (decision : NamespaceDecision) (now : Z)
    : AuthenticatedOriginContext :=
  stamp_origin_context s decision Unauthenticated now (decision_expires decision) None.

Definition bridge_or_active (state : AuthorityState) : bool :=
  match state with BrowserBridgeReady | Active => true | _ => false end.

(** [bind_icann_origin_context] up to the callback: the request it is given. *)
Definition icann_request (s : EngineState) (decision : NamespaceDecision) (now : Z)
    : EngineState * result EngineError IcannOriginAuthenticationRequest :=
  let logical_origin := from_namespace_decision decision in
  match selected_plan (nd_outcome decision) with
  | None => (s, Err ProviderAuthenticationMismatch)
  | Some plan =>
      if negb (bool_decide (lo_scheme logical_origin = Https))
         || negb (bool_decide (selected_namespace (nd_outcome decision) = Some Icann))
         || negb (bool_decide (sb_transport (op_service plan) = TransportTcp))
         || negb (decision_fresh decision now)
      then (s, Err ProviderAuthenticationMismatch) else
      if negb (network_matches (es_network s) (decision_network decision))
         || negb (bridge_or_active (es_authority s))
      then (s, Err ProviderAuthenticationMismatch) else
      match admit_event (es_runtime s) with
      | (runtime, Err e) => (es_with_runtime s runtime, Err (map_runtime_error e))
      | (runtime, Ok stamp) =>
          (es_with_runtime s runtime,
           Ok {| iq_logical_origin := logical_origin; iq_service_port := sb_effective_port (op_service plan);
                 iq_decision_fingerprint := decision_fingerprint decision;
                 iq_hns_network := decision_network decision; iq_tls_policy := op_tls_policy plan;
                 iq_valid_until := decision_expires decision; iq_runtime_stamp := stamp;
                 iq_policy_generation := es_policy_generation s |})
      end
  end.

Definition icann_status (policy : TlsTrustPolicy) (kind : IcannTlsAuthenticationKind)
    : option AuthenticatedContextStatus :=
  match policy, kind with
  | Dane, DaneVerified => Some IcannDaneVerified
  | WebPkiAuthenticatedAbsence, WebPkiVerified => Some IcannWebPkiAuthenticatedAbsence
  | WebPkiInsecureDelegation, WebPkiVerified => Some IcannWebPkiInsecureDelegation
  | _, _ => None
  end.

(** [bind_icann_origin_context] after the callback's answer. *)
Definition icann_finish (s : EngineState) (decision : NamespaceDecision)
    (request : IcannOriginAuthenticationRequest) (authentication : option IcannOriginAuthentication) (now : Z)
    : EngineState * result EngineError AuthenticatedOriginContext :=
  match authentication with
  | None => (s, Err ProviderAuthenticationMismatch)
  | Some authentication =>
      if bool_decide (ia_request authentication <> request) then (s, Err ProviderAuthenticationMismatch) else
      match icann_status (iq_tls_policy request) (ia_kind authentication) with
      | None => (s, Err ProviderAuthenticationMismatch)
      | Some status =>
          if negb (network_matches (es_network s) (decision_network decision))
             || negb (es_policy_generation s =? iq_policy_generation request)
             || negb (runtime_admits (es_runtime s) (iq_runtime_stamp request))
             || negb (decision_fresh decision now)
          then (s, Err ProviderAuthenticationMismatch) else
          match admit_event (es_runtime s) with
          | (runtime, Err e) => (es_with_runtime s runtime, Err (map_runtime_error e))
          | (runtime, Ok stamp) =>
              let s := es_with_runtime s runtime in
              (s, Ok (stamp_origin_context s decision status now (decision_expires decision) (Some stamp)))
          end
      end
  end.

(** The records of the plan are the completion's, one by one. *)
Definition plan_records_match (plan : OriginPlan) (records : list (list Z)) : bool :=
  (zlen (op_tlsa_records plan) =? zlen records)
  && forallb (fun '(plan_record, record) => bool_decide (plan_record = record))
       (combine (op_tlsa_records plan) records).
Definition anchor_matches (decision : NamespaceDecision) (plan : OriginPlan) (anchor : option ChainAnchor) : bool :=
  match anchor with
  | None => false
  | Some anchor =>
      match op_provenance plan with
      | ProvHns network tree_root height =>
          bool_decide (network = decision_network decision)
          && bool_decide (tree_root = anchor_tree_root anchor) && (height =? anchor_height anchor)
      | ProvIcannDoh _ => false
      end
  end.

(** What [bind_hns_origin_context] checks before the lock: the validity interval. *)
Definition hns_binding (decision : NamespaceDecision) (completion : DaneCompletion) (now : Z)
    : result EngineError (Z * Z) :=
  let logical_origin := from_namespace_decision decision in
  let? origin := ok_or (dc_origin_sni completion) LegacyCompletionNotBridgeable in
  let? service_port := ok_or (dc_bridge_service_port completion) UnsupportedBridgeService in
  let? records := ok_or (dc_bridge_tlsa_records completion) LegacyCompletionNotBridgeable in
  let? valid_from := ok_or (dc_bridge_valid_from completion) LegacyCompletionNotBridgeable in
  let? valid_until := ok_or (dc_bridge_valid_until completion) LegacyCompletionNotBridgeable in
  if now <? valid_from then Err CompletionNotYetValid else
  if valid_until <? now then Err CompletionExpired else
  let? plan := ok_or (selected_plan (nd_outcome decision)) ProviderAuthenticationMismatch in
  if negb (bool_decide (lo_scheme logical_origin = Https))
     || negb (bool_decide (lo_host logical_origin = origin))
     || negb (bool_decide (selected_namespace (nd_outcome decision) = Some Hns))
     || negb (bool_decide (op_tls_policy plan = Dane))
     || negb (bool_decide (sb_transport (op_service plan) = TransportTcp))
     || negb (sb_effective_port (op_service plan) =? service_port)
     || negb (decision_fresh decision now)
     || negb (plan_records_match plan records)
     || negb (anchor_matches decision plan (prov_chain_anchor (dc_provenance completion)))
  then Err ProviderAuthenticationMismatch else Ok (valid_from, valid_until).

Definition bind_hns_origin_context (s : EngineState) (decision : NamespaceDecision) (completion : DaneCompletion)
    (now : Z) : EngineState * result EngineError AuthenticatedOriginContext :=
  match hns_binding decision completion now with
  | Err e => (s, Err e)
  | Ok (valid_from, completion_valid_until) =>
      if negb (network_matches (es_network s) (decision_network decision)) || negb (bridge_ready (es_authority s))
      then (s, Err ProviderAuthenticationMismatch) else
      if negb (completion_is_current s completion) then (s, Err CompletionNotCurrent) else
      let '(runtime, stepped) :=
        if bool_decide (es_authority s = DaneOriginVerified)
        then let '(r, o) := transition (es_runtime s) BrowserBridgeReady in (r, result_map (fun _ => tt) o)
        else (es_runtime s, Ok tt) in
      let s := es_with_runtime s runtime in
      match stepped with
      | Err e => (s, Err (map_runtime_error e))
      | Ok _ =>
          match admit_event (es_runtime s) with
          | (runtime, Err e) => (es_with_runtime s runtime, Err (map_runtime_error e))
          | (runtime, Ok stamp) =>
              let s := es_with_runtime s runtime in
              (s, Ok (stamp_origin_context s decision HnsDaneVerified valid_from
                        (Z.min (decision_expires decision) (saturating_add completion_valid_until 1)) (Some stamp)))
          end
      end
  end.

(** ** Injection *)

Inductive ProviderInjectionDenialReason :=
| InsecureOrigin | NoSelectedNamespace | UnauthenticatedContext | OriginMismatch | NamespaceMismatch
| DecisionMismatch | DecisionStale | NetworkMismatch | StaleRuntimeSession | DeniedStaleRuntimeGeneration
| StalePolicyGeneration | StaleAuthenticationEvent | DeniedAuthorityNotReady | AuthorityDegraded
| AuthorityRevoked | AuthorityStopped | AuthenticationPolicyMismatch | AuthenticationNotYetValid
| AuthenticationExpired | UnsupportedOriginScheme.

Record ProviderInjectionDecision := {
  pd_logical_origin : LogicalOrigin; pd_selected_namespace : option Namespace;
  pd_authenticated_context : AuthenticatedContextStatus; pd_runtime_session : list Z;
  pd_runtime_generation : Z; pd_policy_generation : Z; pd_event_sequence : Z; pd_decision_fingerprint : list Z;
  pd_authority_state : AuthorityState; pd_permitted : bool;
  pd_denial_reason : option ProviderInjectionDenialReason }.

Record ProviderAuthorityContext := {
  pa_origin_context : AuthenticatedOriginContext; pa_selected_namespace : Namespace;
  pa_hns_network : HnsNetwork; pa_service_port : Z; pa_tls_policy : TlsTrustPolicy }.

Inductive ProviderAuthorityOutcome :=
| Authorized (context : ProviderAuthorityContext)
| Denied (decision : ProviderInjectionDecision).

Definition authority_denial (state : AuthorityState) : option ProviderInjectionDenialReason :=
  match state with
  | BrowserBridgeReady | Active => None
  | Degraded => Some AuthorityDegraded
  | Revoked => Some AuthorityRevoked
  | Stopped => Some AuthorityStopped
  | Uninitialized | LocalStateOpened | HeaderSyncing | HeaderCurrent | ProofReady
  | ResolutionTransportReady | DnssecVerified | DaneOriginVerified => Some DeniedAuthorityNotReady
  end.

(** The [matches!] table of namespace, TLS policy and status. *)
Definition authentication_matches (n : Namespace) (policy : TlsTrustPolicy) (status : AuthenticatedContextStatus)
    : bool :=
  match n, policy, status with
  | Hns, Dane, HnsDaneVerified
  | Icann, Dane, IcannDaneVerified
  | Icann, WebPkiAuthenticatedAbsence, IcannWebPkiAuthenticatedAbsence
  | Icann, WebPkiInsecureDelegation, IcannWebPkiInsecureDelegation => true
  | _, _, _ => false
  end.

Definition authentication_policy_denial (decision : NamespaceDecision) (status : AuthenticatedContextStatus)
    : option ProviderInjectionDenialReason :=
  match selected_plan (nd_outcome decision) with
  | None => Some AuthenticationPolicyMismatch
  | Some plan =>
      if match selected_namespace (nd_outcome decision) with
         | Some n => authentication_matches n (op_tls_policy plan) status
         | None => false
         end
      then None else Some AuthenticationPolicyMismatch
  end.

Definition authenticated_context_is_admitted (s : EngineState) (context : AuthenticatedOriginContext) : bool :=
  match oc_admission_stamp context with
  | None => false
  | Some stamp =>
      bool_decide (session_bytes (stamp_session stamp) = oc_runtime_session context)
      && (stamp_generation stamp =? oc_runtime_generation context)
      && (stamp_event_sequence stamp =? oc_event_sequence context)
      && runtime_admits (es_runtime s) stamp
  end.

(** The first reason that applies, in the order of the source. *)
Definition denial_reason (s : EngineState) (decision : NamespaceDecision) (context : AuthenticatedOriginContext)
    (now : Z) : option ProviderInjectionDenialReason :=
  let runtime := runtime_snapshot (es_runtime s) in
  let logical_origin := from_namespace_decision decision in
  let selected := selected_namespace (nd_outcome decision) in
  if negb (is_secure logical_origin) then Some InsecureOrigin else
  if negb (bool_decide (lo_scheme logical_origin = Https)) then Some UnsupportedOriginScheme else
  if bool_decide (selected = None) then Some NoSelectedNamespace else
  if bool_decide (oc_status context = Unauthenticated) then Some UnauthenticatedContext else
  if negb (bool_decide (oc_logical_origin context = logical_origin)) then Some OriginMismatch else
  if negb (bool_decide (oc_selected_namespace context = selected)) then Some NamespaceMismatch else
  if negb (bool_decide (oc_decision_fingerprint context = decision_fingerprint decision)) then Some DecisionMismatch else
  if negb (decision_fresh decision now) then Some DecisionStale else
  if negb (network_matches (es_network s) (decision_network decision)) then Some NetworkMismatch else
  match authority_denial (snap_authority_state runtime) with
  | Some reason => Some reason
  | None =>
      if negb (bool_decide (oc_runtime_session context = session_bytes (snap_session runtime)))
      then Some StaleRuntimeSession else
      if negb (oc_runtime_generation context =? snap_generation runtime) then Some DeniedStaleRuntimeGeneration else
      if negb (oc_policy_generation context =? es_policy_generation s) then Some StalePolicyGeneration else
      if negb (authenticated_context_is_admitted s context) then Some StaleAuthenticationEvent else
      match authentication_policy_denial decision (oc_status context) with
      | Some reason => Some reason
      | None =>
          if now <? oc_valid_from context then Some AuthenticationNotYetValid else
          if oc_valid_until context <=? now then Some AuthenticationExpired else None
      end
  end.

Definition evaluate_provider_injection (s : EngineState) (decision : NamespaceDecision)
    (context : AuthenticatedOriginContext) (now : Z) : ProviderInjectionDecision :=
  let runtime := runtime_snapshot (es_runtime s) in
  let reason := denial_reason s decision context now in
  {| pd_logical_origin := from_namespace_decision decision;
     pd_selected_namespace := selected_namespace (nd_outcome decision);
     pd_authenticated_context := oc_status context;
     pd_runtime_session := session_bytes (snap_session runtime);
     pd_runtime_generation := snap_generation runtime; pd_policy_generation := es_policy_generation s;
     pd_event_sequence := snap_event_sequence runtime; pd_decision_fingerprint := decision_fingerprint decision;
     pd_authority_state := snap_authority_state runtime; pd_permitted := match reason with None => true | Some _ => false end;
     pd_denial_reason := reason |}.

(** An evaluation turned into a denial. *)
Definition pd_deny (p : ProviderInjectionDecision) (reason : ProviderInjectionDenialReason)
    : ProviderInjectionDecision :=
  {| pd_logical_origin := pd_logical_origin p; pd_selected_namespace := pd_selected_namespace p;
     pd_authenticated_context := pd_authenticated_context p; pd_runtime_session := pd_runtime_session p;
     pd_runtime_generation := pd_runtime_generation p; pd_policy_generation := pd_policy_generation p;
     pd_event_sequence := pd_event_sequence p; pd_decision_fingerprint := pd_decision_fingerprint p;
     pd_authority_state := pd_authority_state p; pd_permitted := false; pd_denial_reason := Some reason |}.

(** The context with its interval narrowed. *)
Definition oc_narrow (c : AuthenticatedOriginContext) (now expires : Z) : AuthenticatedOriginContext :=
  {| oc_logical_origin := oc_logical_origin c; oc_selected_namespace := oc_selected_namespace c;
     oc_status := oc_status c; oc_runtime_session := oc_runtime_session c;
     oc_runtime_generation := oc_runtime_generation c; oc_policy_generation := oc_policy_generation c;
     oc_event_sequence := oc_event_sequence c; oc_admission_stamp := oc_admission_stamp c;
     oc_decision_fingerprint := oc_decision_fingerprint c; oc_valid_from := Z.max (oc_valid_from c) now;
     oc_valid_until := Z.min (oc_valid_until c) expires |}.

Definition provider_authority_outcome (decision : NamespaceDecision) (context : AuthenticatedOriginContext)
    (evaluation : ProviderInjectionDecision) (now : Z) : ProviderAuthorityOutcome :=
  if negb (pd_permitted evaluation) then Denied evaluation else
  match selected_namespace (nd_outcome decision), selected_plan (nd_outcome decision) with
  | Some selected, Some plan =>
      if negb (bool_decide (sb_transport (op_service plan) = TransportTcp))
      then Denied (pd_deny evaluation AuthenticationPolicyMismatch) else
      Authorized {| pa_origin_context := oc_narrow context now (decision_expires decision);
                    pa_selected_namespace := selected; pa_hns_network := decision_network decision;
                    pa_service_port := sb_effective_port (op_service plan); pa_tls_policy := op_tls_policy plan |}
  | _, _ => Denied (pd_deny evaluation NoSelectedNamespace)
  end.

Definition provider_injection_decision := evaluate_provider_injection.

Definition authorize_provider_injection (s : EngineState) (decision : NamespaceDecision)
    (context : AuthenticatedOriginContext) (now : Z) : ProviderAuthorityOutcome :=
  provider_authority_outcome decision context (evaluate_provider_injection s decision context now) now.

Definition matches_decision (a : ProviderAuthorityContext) (decision : NamespaceDecision) : bool :=
  match selected_plan (nd_outcome decision) with
  | None => false
  | Some plan =>
      bool_decide (oc_logical_origin (pa_origin_context a) = from_namespace_decision decision)
      && bool_decide (selected_namespace (nd_outcome decision) = Some (pa_selected_namespace a))
      && bool_decide (decision_network decision = pa_hns_network a)
      && bool_decide (sb_transport (op_service plan) = TransportTcp)
      && (sb_effective_port (op_service plan) =? pa_service_port a)
      && bool_decide (op_tls_policy plan = pa_tls_policy a)
      && bool_decide (decision_fingerprint decision = oc_decision_fingerprint (pa_origin_context a))
  end.

Definition revalidate_provider_authority (s : EngineState) (decision : NamespaceDecision)
    (authority : ProviderAuthorityContext) (now : Z) : ProviderAuthorityOutcome :=
  let evaluation := evaluate_provider_injection s decision (pa_origin_context authority) now in
  let evaluation :=
    if pd_permitted evaluation && negb (matches_decision authority decision)
    then pd_deny evaluation DecisionMismatch else evaluation in
  provider_authority_outcome decision (pa_origin_context authority) evaluation now.

(** [provider_authority_is_current_in_state]. *)
Definition provider_authority_is_current (s : EngineState) (authority : ProviderAuthorityContext) (now : Z) : bool :=
  let runtime := runtime_snapshot (es_runtime s) in
  let context := pa_origin_context authority in
  match authority_denial (snap_authority_state runtime) with None => true | Some _ => false end
  && is_secure (oc_logical_origin context)
  && bool_decide (lo_scheme (oc_logical_origin context) = Https)
  && bool_decide (oc_selected_namespace context = Some (pa_selected_namespace authority))
  && negb (pa_service_port authority =? 0)
  && authentication_matches (pa_selected_namespace authority) (pa_tls_policy authority) (oc_status context)
  && bool_decide (oc_runtime_session context = session_bytes (snap_session runtime))
  && (oc_runtime_generation context =? snap_generation runtime)
  && (oc_policy_generation context =? es_policy_generation s)
  && network_matches (es_network s) (pa_hns_network authority)
  && authenticated_context_is_admitted s context
  && (oc_valid_from context <=? now)
  && (now <? oc_valid_until context).
