(* ===== verification/ProviderProps.v ===== *)
(** * Engine facade: what a provider authority rests on

    Runs of the whole facade, with the contexts, requests and authorities handed
    out so far (their fields are private, so a caller can only present what it was
    given). The theorems: the engine never shows verified evidence without current
    provenance, an authority is current exactly until the first invalidating event
    or its expiry, and a Handshake authority goes back to a strict completion for
    the very origin, service and tree root of its decision. *)

From S2P Require Import Prelude ByteOrder LightChain LightSnapshot LightResource.
From S2P Require Import DnsTypes DnsParse DaneDer DaneDerProps DaneMatch DaneMatchProps IcannDane Dnssec Resolver.
From S2P Require Import Policy PolicyCodec Runtime Gateway Engine EngineProps.
From S2P Require Import NsTypes NsService NsPlan NsDecision NsFingerprint Provider.

(** ** The calls *)

Lemma keeps_trans s evs s1 evs' s2 :
  engine_moves s evs s1 -> keeps_last s evs s1 -> engine_moves s1 evs' s2 -> keeps_last s1 evs' s2 ->
  existsb invalidating evs = false -> engine_call s (evs ++ evs') s2.
Proof.
  intros M1 K1 M2 K2 Hi. apply call_keeps; [by eapply moves_trans|].
  unfold keeps_last in *. rewrite Hi in K1. rewrite existsb_app, Hi. cbn [orb]. destruct K1 as [<- <-]. exact K2.
Qed.

Lemma admit_keeps s rt r :
  admit_event (es_runtime s) = (rt, r) ->
  exists evs, engine_moves s evs (es_with_runtime s rt) /\ keeps_last s evs (es_with_runtime s rt).
Proof.
  intros H. destruct r as [stamp|e]; [exists [EvAdmitted stamp]|exists [EvRejected e]];
    (split; [apply moves_runtime; [by econstructor|done]|done]).
Qed.

Lemma keeps_call s evs s' : engine_moves s evs s' /\ keeps_last s evs s' -> exists evs, engine_call s evs s'.
Proof. intros []. exists evs. by apply call_keeps. Qed.

Lemma bind_hns_call s d c now s' r : bind_hns_origin_context s d c now = (s', r) -> exists evs, engine_call s evs s'.
Proof.
  unfold bind_hns_origin_context. intros E.
  destruct (hns_binding d c now) as [[vf vu]|e]; [|injection E as <- _; eauto using call_refl].
  destruct (_ || _); [injection E as <- _; eauto using call_refl|].
  destruct (negb _); [injection E as <- _; eauto using call_refl|].
  case_bool_decide as Hd.
  - destruct (transition _ _) as [rt [sn|e]] eqn:Et; cbn [result_map] in E.
    + destruct (admit_event (es_runtime (es_with_runtime s rt))) as [rt' o] eqn:Ea.
      apply admit_keeps in Ea as (evs & Hm & Hk).
      exists ([EvTransition BrowserBridgeReady] ++ evs).
      replace s' with (es_with_runtime (es_with_runtime s rt) rt') by (by destruct o; injection E as <- _).
      apply (keeps_trans _ _ (es_with_runtime s rt)); [|done|exact Hm|exact Hk|done]. apply moves_runtime; [by econstructor|done].
    + injection E as <- _. exists [EvRejected e]. apply call_runtime; [by econstructor|done].
  - rewrite es_with_runtime_id in E. destruct (admit_event (es_runtime s)) as [rt' o] eqn:Ea.
    apply admit_call in Ea. by destruct o; injection E as <- _.
Qed.

Lemma icann_request_call s d now s' r : icann_request s d now = (s', r) -> exists evs, engine_call s evs s'.
Proof.
  unfold icann_request. intros E. destruct (selected_plan _) as [plan|]; [|injection E as <- _; eauto using call_refl].
  do 2 (destruct (_ || _); [injection E as <- _; eauto using call_refl|]).
  destruct (admit_event _) as [rt o] eqn:Ea. apply admit_call in Ea. by destruct o; injection E as <- _.
Qed.

Lemma icann_finish_call s d q auth now s' r : icann_finish s d q auth now = (s', r) -> exists evs, engine_call s evs s'.
Proof.
  unfold icann_finish. intros E. destruct auth as [auth|]; [|injection E as <- _; eauto using call_refl].
  case_bool_decide; [injection E as <- _; eauto using call_refl|].
  destruct (icann_status _ _); [|injection E as <- _; eauto using call_refl].
  destruct (_ || _); [injection E as <- _; eauto using call_refl|].
  destruct (admit_event _) as [rt o] eqn:Ea. apply admit_call in Ea. by destruct o; injection E as <- _.
Qed.

Section engine.
Context `{DaneDigests} `{OpenSsl} `{ChainExternals}.

(** One call of a method that takes the write lock, whatever it returns. *)
Inductive engine_step (s s' : EngineState) : Prop :=
| step_update g cfg r : update_policy s g cfg = (s', r) -> engine_step s s'
| step_update_blob g blob r : update_policy_blob s g blob = (s', r) -> engine_step s s'
| step_advance next r : advance_authority_state s next = (s', r) -> engine_step s s'
| step_admit_resolution t q r : admit_resolution s t q = (s', r) -> engine_step s s'
| step_admit_gateway sel q l r : admit_gateway_selection s sel q l = (s', r) -> engine_step s s'
| step_local_dane a p pre cert l ctx r :
    complete_resolution_with_local_dane s a p pre cert l ctx = (s', r) -> engine_step s s'
| step_validated a p input ctx r :
    complete_resolution_with_validated_tlsa s a p input ctx = (s', r) -> engine_step s s'
| step_bridge c now r : authorize_browser_bridge s c now = (s', r) -> engine_step s s'
| step_icann_request d now r : icann_request s d now = (s', r) -> engine_step s s'
| step_icann_finish d q auth now r : icann_finish s d q auth now = (s', r) -> engine_step s s'
| step_bind_hns d c now r : bind_hns_origin_context s d c now = (s', r) -> engine_step s s'.

Lemma engine_step_call s s' : engine_step s s' -> exists evs, engine_call s evs s'.
Proof.
  intros Hs. destruct Hs as [g cfg r E|g blob r E|next r E|t q r E|sel q l r E|a p pre cert l ctx r E|a p input ctx r E
    |c now r E|d now r E|d q auth now r E|d c now r E].
  - by eapply update_policy_call.
  - unfold update_policy_blob in E. destruct (policy_decode blob); [|injection E as <- _; eauto using call_refl].
    destruct (negb _); [injection E as <- _; eauto using call_refl|by eapply update_policy_call].
  - by eapply advance_call.
  - by eapply admit_resolution_call.
  - by eapply admit_gateway_call.
  - unfold complete_resolution_with_local_dane in E.
    do 4 (match type of E with (if ?b then _ else _) = _ => destruct b; [injection E as <- _; eauto using call_refl|] end).
    destruct (verify_dane_ee _ _ _); [|injection E as <- _; eauto using call_refl].
    destruct (complete_resolution _ _ _ _ _) as [s1 o] eqn:Ec. apply complete_resolution_call in Ec.
    by destruct o; injection E as <- _.
  - unfold complete_resolution_with_validated_tlsa in E.
    destruct (validated_input _ _ _ _ _) as [[anchor dm]|e]; [|injection E as <- _; eauto using call_refl].
    destruct (complete_resolution _ _ _ _ _) as [s1 o] eqn:Ec. apply complete_resolution_call in Ec.
    by destruct o; injection E as <- _.
  - unfold authorize_browser_bridge in E. match type of E with match ?m with _ => _ end = _ => destruct m as [[[[o vf] vu] p]|e] end;
      [|injection E as <- _; eauto using call_refl].
    destruct (if bool_decide _ then _ else _) as [rt o'] eqn:Es. apply step_or_admit_call in Es; [|done].
    by destruct o'; injection E as <- _.
  - by eapply icann_request_call.
  - by eapply icann_finish_call.
  - by eapply bind_hns_call.
Qed.

Lemma steps_inv s s' :
  rtc engine_step s s' -> engine_inv s ->
  engine_inv s' /\ rt_session (es_runtime s') = rt_session (es_runtime s) /\ es_network s' = es_network s.
Proof.
  induction 1 as [s|s s1 s2 Hst _ IH]; [done|]. intros Hi.
  apply engine_step_call in Hst as [evs Hc]. pose proof (call_inv _ _ _ Hi Hc) as Hi1.
  pose proof (call_moves _ _ _ Hc) as [Ht Hn _]. apply runtime_trace_session in Ht.
  destruct (IH Hi1) as (? & ? & ?). split; [done|]. split; congruence.
Qed.

(** C12. The engine never shows verified evidence that nothing current stands
    behind. After any sequence of calls on a new engine, either no provenance is
    recorded and the evidence is not fully verified, or the recorded provenance is
    fully verified, belongs to the current session, runtime generation, policy
    generation and network, is younger than every invalidation, and the authority
    state is at least that of a verified origin. *)
Theorem evidence_is_current config s :
  rtc engine_step (engine_new config) s ->
  match es_last_provenance s with
  | None => fully_verified (es_last_evidence s) = false
  | Some p =>
      fully_verified (prov_evidence p) = true /\ es_last_evidence s = prov_evidence p /\
      prov_runtime_session p = session_bytes (ec_runtime_session config) /\
      prov_runtime_generation p = rt_generation (es_runtime s) /\
      prov_policy_generation p = es_policy_generation s /\ prov_network p = ec_network config /\
      rt_invalidation_sequence (es_runtime s) < prov_event_sequence p <= rt_event_sequence (es_runtime s) /\
      bridge_ready (es_authority s) = true
  end.
Proof.
  intros Hr.
  destruct (steps_inv _ _ Hr (engine_new_inv config)) as ([_ Hl] & Hs & Hn).
  destruct (es_last_provenance s) as [p|]; [|done]. destruct Hl as [E1 E2 E3 E4 E5 E6 E7 E8]. cbn in Hs, Hn.
  rewrite Hs in E3. rewrite Hn in E6. done.
Qed.
End engine.

(** ** Provider authorities *)

#[local] Opaque decision_fingerprint.

(** What lets a context be injected. *)
Record injectable (s : EngineState) (decision : NamespaceDecision) (context : AuthenticatedOriginContext) (now : Z)
    : Prop := {
  inj_https : lo_scheme (from_namespace_decision decision) = Https;
  inj_selected : selected_namespace (nd_outcome decision) <> None;
  inj_status : oc_status context <> Unauthenticated;
  inj_origin : oc_logical_origin context = from_namespace_decision decision;
  inj_namespace : oc_selected_namespace context = selected_namespace (nd_outcome decision);
  inj_fingerprint : oc_decision_fingerprint context = decision_fingerprint decision;
  inj_fresh : decision_fresh decision now = true;
  inj_network : network_matches (es_network s) (decision_network decision) = true;
  inj_authority : authority_denial (es_authority s) = None;
  inj_session : oc_runtime_session context = session_bytes (rt_session (es_runtime s));
  inj_generation : oc_runtime_generation context = rt_generation (es_runtime s);
  inj_policy : oc_policy_generation context = es_policy_generation s;
  inj_admitted : authenticated_context_is_admitted s context = true;
  inj_authentication : authentication_policy_denial decision (oc_status context) = None;
  inj_interval : oc_valid_from context <= now < oc_valid_until context }.

Lemma denial_none s d c now : denial_reason s d c now = None <-> injectable s d c now.
Proof.
  unfold denial_reason. cbn [runtime_snapshot snap_authority_state snap_session snap_generation]. split.
  - intros E. cbv zeta in E.
    repeat match type of E with
    | (if ?b then Some _ else _) = None => destruct b eqn:?; [discriminate E|]
    | (if ?b then Some _ else None) = None => destruct b eqn:?; [discriminate E|]
    | match ?o with Some _ => Some _ | None => _ end = None => destruct o eqn:?; [discriminate E|]
    end.
    breflect. by split.
  - intros []. unfold is_secure, es_authority in *. cbv zeta. rewrite inj_https0. cbn [uses_tls negb].
    rewrite (bool_decide_eq_true_2 _ eq_refl), (bool_decide_eq_true_2 _ inj_origin0),
      (bool_decide_eq_true_2 _ inj_namespace0), (bool_decide_eq_true_2 _ inj_fingerprint0),
      (bool_decide_eq_true_2 _ inj_session0), (bool_decide_eq_false_2 _ inj_selected0),
      (bool_decide_eq_false_2 _ inj_status0). cbn [negb].
    rewrite inj_fresh0, inj_network0, inj_authority0, inj_generation0, inj_policy0, inj_admitted0, inj_authentication0.
    rewrite !Z.eqb_refl. cbn [negb]. rewrite (proj2 (Z.ltb_ge _ _)), (proj2 (Z.leb_gt _ _)) by lia.
    done.
Qed.

(** The authority an injectable context grants. *)
Definition granted_authority (d : NamespaceDecision) (c : AuthenticatedOriginContext) (now : Z) (n : Namespace)
    (plan : OriginPlan) : ProviderAuthorityContext :=
  {| pa_origin_context := oc_narrow c now (decision_expires d); pa_selected_namespace := n;
     pa_hns_network := decision_network d; pa_service_port := sb_effective_port (op_service plan);
     pa_tls_policy := op_tls_policy plan |}.

Lemma outcome_authorized d c p now a :
  provider_authority_outcome d c p now = Authorized a <->
  pd_permitted p = true /\ exists n plan, selected_namespace (nd_outcome d) = Some n /\
    selected_plan (nd_outcome d) = Some plan /\ sb_transport (op_service plan) = TransportTcp /\
    a = granted_authority d c now n plan.
Proof.
  unfold provider_authority_outcome. destruct (pd_permitted p); cbn [negb]; [|split; [done|by intros []]].
  destruct (selected_namespace _) as [n|]; [|split; [done|by intros (_ & ? & ? & ? & _)]].
  destruct (selected_plan _) as [plan|]; [|split; [done|intros (_ & ? & ? & _ & Hp & _); discriminate Hp]].
  case_bool_decide as Ht; cbn [negb].
  - split; [|by intros (_ & ? & ? & [= <-] & [= <-] & _ & ->)]. intros [= <-]. split; [done|]. by exists n, plan.
  - split; [done|]. by intros (_ & ? & ? & _ & [= <-] & ? & _).
Qed.

Lemma permitted_injectable s d c now :
  pd_permitted (evaluate_provider_injection s d c now) = true <-> injectable s d c now.
Proof. rewrite <- denial_none. cbn. by destruct (denial_reason s d c now). Qed.

(** Either way to an authority is a grant. *)
Record granted (s : EngineState) (d : NamespaceDecision) (c : AuthenticatedOriginContext) (now : Z)
    (a : ProviderAuthorityContext) : Prop := {
  gr_injectable : injectable s d c now;
  gr_plan : exists n plan, selected_namespace (nd_outcome d) = Some n /\ selected_plan (nd_outcome d) = Some plan /\
    sb_transport (op_service plan) = TransportTcp /\ a = granted_authority d c now n plan }.

Lemma authorize_granted s d c now a : authorize_provider_injection s d c now = Authorized a <-> granted s d c now a.
Proof.
  unfold authorize_provider_injection. rewrite outcome_authorized, permitted_injectable.
  split; [intros [? ?]|intros []]; by split.
Qed.

Lemma revalidate_granted s d a0 now a :
  revalidate_provider_authority s d a0 now = Authorized a <->
  matches_decision a0 d = true /\ granted s d (pa_origin_context a0) now a.
Proof.
  unfold revalidate_provider_authority. cbv zeta. rewrite outcome_authorized.
  pose proof (permitted_injectable s d (pa_origin_context a0) now) as Hp.
  destruct (pd_permitted (evaluate_provider_injection s d (pa_origin_context a0) now)) eqn:E; cbn [andb].
  - destruct (matches_decision a0 d); cbn [negb pd_deny pd_permitted];
      [rewrite E|split; [by intros []|by intros []]].
    split; [intros [? ?]|intros (_ & [? ?])]; repeat (split; try done); by apply Hp.
  - rewrite E. split; [by intros []|]. intros (_ & [Hi _]). by apply Hp in Hi.
Qed.

(** The states in which the bridge serves. *)
Definition serving (state : AuthorityState) : bool :=
  match authority_denial state with None => true | Some _ => false end.
Lemma serving_stays a b :
  serving a = true -> valid_authority_transition a b = true -> invalidating_state b = false -> serving b = true.
Proof. by destruct a, b. Qed.
Lemma serving_admits a : serving a = true -> authority_admits_work a = true.
Proof. by destruct a. Qed.

Lemma granted_static s d c now a :
  granted s d c now a ->
  is_secure (oc_logical_origin (pa_origin_context a)) = true /\
  lo_scheme (oc_logical_origin (pa_origin_context a)) = Https /\
  oc_selected_namespace (pa_origin_context a) = Some (pa_selected_namespace a) /\
  authentication_matches (pa_selected_namespace a) (pa_tls_policy a) (oc_status (pa_origin_context a)) = true.
Proof.
  intros [[] (n & plan & Hn & Hp & _ & ->)]. cbn. unfold is_secure. rewrite inj_origin0, inj_https0, inj_namespace0, Hn.
  split_and!; try done. unfold authentication_policy_denial in inj_authentication0. rewrite Hp, Hn in inj_authentication0.
  by destruct (authentication_matches _ _ _).
Qed.

(** The conditions of [provider_authority_is_current] that a grant does not fix. *)
Record live (s : EngineState) (a : ProviderAuthorityContext) (now : Z) : Prop := {
  live_serving : serving (es_authority s) = true;
  live_session : oc_runtime_session (pa_origin_context a) = session_bytes (rt_session (es_runtime s));
  live_generation : oc_runtime_generation (pa_origin_context a) = rt_generation (es_runtime s);
  live_policy : oc_policy_generation (pa_origin_context a) = es_policy_generation s;
  live_network : network_matches (es_network s) (pa_hns_network a) = true;
  live_admitted : authenticated_context_is_admitted s (pa_origin_context a) = true;
  live_interval : oc_valid_from (pa_origin_context a) <= now < oc_valid_until (pa_origin_context a) }.

Lemma current_live s d c now a s' later :
  granted s d c now a -> pa_service_port a <> 0 ->
  provider_authority_is_current s' a later = true <-> live s' a later.
Proof.
  intros (E1 & E2 & E3 & E4)%granted_static Hport. unfold provider_authority_is_current.
  rewrite E1, E2, E3, E4, (proj2 (Z.eqb_neq _ _) Hport), !(bool_decide_eq_true_2 _ eq_refl). cbn [negb].
  rewrite !andb_true_r, !andb_true_iff, !bool_decide_eq_true, !Z.eqb_eq, Z.leb_le, Z.ltb_lt.
  cbn [runtime_snapshot snap_authority_state snap_session snap_generation].
  split; [intros; destruct_and!; by split|]. intros [L1 L2 L3 L4 L5 L6 []]. by split_and!.
Qed.

Lemma fresh_later d now later : decision_fresh d now = true -> now <= later -> later < decision_expires d -> decision_fresh d later = true.
Proof.
  unfold decision_fresh, decision_expires, is_fresh_at, fresh_at. intros Hf Hl He.
  rewrite (proj2 (Z.ltb_lt _ _) He). destruct (nd_outcome d); cbn [expires_at_unix] in *; breflect; cbn;
    rewrite !andb_true_iff; rewrite ?Z.leb_le, ?Z.ltb_lt; lia.
Qed.

Lemma injectable_live s d c now a s' later :
  granted s d c now a -> now <= later ->
  injectable s' d (pa_origin_context a) later <-> live s' a later.
Proof.
  intros [[] (n & plan & Hn & Hp & _ & ->)] Hl. unfold granted_authority. split.
  - intros [I1 I2 I3 I4 I5 I6 I7 I8 I9 I10 I11 I12 I13 I14 I15]. split; try done. unfold serving. by rewrite I9.
  - intros [L1 L2 L3 L4 L5 L6 L7]. split; try done.
    + cbn in L7. eapply fresh_later; [done|lia|lia].
    + unfold serving in L1. by destruct (authority_denial (es_authority s')).
Qed.

Lemma granted_matches s d c now a : granted s d c now a -> matches_decision a d = true.
Proof.
  intros [[] (n & plan & Hn & Hp & Ht & ->)]. unfold matches_decision. rewrite Hp.
  cbn [granted_authority pa_origin_context oc_narrow oc_logical_origin pa_selected_namespace pa_hns_network
    pa_service_port pa_tls_policy oc_decision_fingerprint]. rewrite Hn, Ht, !(bool_decide_eq_true_2 _ eq_refl), Z.eqb_refl, (bool_decide_eq_true_2 _ inj_origin0).
  by rewrite bool_decide_eq_true_2.
Qed.

(** Once current, an authority stays current until the first invalidation. *)
Lemma current_later s a now evs s' later :
  runtime_wf (es_runtime s) -> provider_authority_is_current s a now = true -> engine_moves s evs s' ->
  provider_authority_is_current s' a later
  = negb (existsb invalidating evs)
    && (oc_valid_from (pa_origin_context a) <=? later) && (later <? oc_valid_until (pa_origin_context a)).
Proof.
  intros Hwf Hc [Ht Hn Hpol]. unfold provider_authority_is_current in *.
  cbn [runtime_snapshot snap_authority_state snap_session snap_generation] in *.
  rewrite !andb_true_iff in Hc.
  destruct Hc as ((((((((((((Hs & ->) & ->) & ->) & ->) & ->) & Hses) & Hgen) & Hpg) & Hnet) & Hadm) & _) & _).
  rewrite (runtime_trace_session _ _ _ Ht), Hses, Hn, Hnet. clear Hses Hnet.
  unfold authenticated_context_is_admitted in *.
  destruct (oc_admission_stamp (pa_origin_context a)) as [stamp|]; [|done].
  rewrite !andb_true_iff in Hadm. destruct Hadm as (((-> & ->) & ->) & Hadm).
  rewrite (admits_later _ _ _ _ Hwf Hadm Ht).
  pose proof (runtime_trace_floor _ _ _ Hwf Ht) as Hf. destruct (existsb invalidating evs) eqn:Hi; cbn [negb].
  { by rewrite !andb_false_r. }
  destruct Hf as [-> _]. rewrite Hgen.
  assert (existsb policy_event evs = false) as Hpe.
  { destruct (existsb policy_event evs) eqn:E; [|done]. by rewrite (policy_event_invalidating _ E) in Hi. }
  rewrite Hpe in Hpol. unfold es_policy_generation in *. rewrite Hpol, Hpg.
  assert (serving (rt_authority_state (es_runtime s')) = true) as Hs'
    by (eapply (bridge_states_stay serving); eauto using serving_stays).
  rewrite (serving_admits _ Hs'). unfold serving in Hs'. rewrite Hs'. by rewrite !andb_true_r.
Qed.

(** The cheap check is the full one. For an authority granted for a decision,
    in any later state of any engine, [provider_authority_is_current] answers as
    revalidating against the decision does: it holds exactly when revalidation
    authorizes, and the authority then returned is the same with its interval starting
    now; otherwise revalidation denies. *)
Theorem currency_is_revalidation s d c now a s' later :
  authorize_provider_injection s d c now = Authorized a -> pa_service_port a <> 0 -> now <= later ->
  match revalidate_provider_authority s' d a later with
  | Authorized a' => provider_authority_is_current s' a later = true /\
      a' = {| pa_origin_context := oc_narrow (pa_origin_context a) later (decision_expires d);
              pa_selected_namespace := pa_selected_namespace a; pa_hns_network := pa_hns_network a;
              pa_service_port := pa_service_port a; pa_tls_policy := pa_tls_policy a |} /\
      oc_valid_until (pa_origin_context a') = oc_valid_until (pa_origin_context a)
  | Denied p => provider_authority_is_current s' a later = false /\ pd_permitted p = false
  end.
Proof.
  intros Hg%authorize_granted Hport Hl. pose proof (current_live _ _ _ _ _ s' later Hg Hport) as Hc.
  pose proof (injectable_live _ _ _ _ _ s' later Hg Hl) as Hi.
  destruct (revalidate_provider_authority s' d a later) as [a'|p] eqn:E.
  - apply revalidate_granted in E as (_ & [Hin (n & plan & Hn & Hp & _ & ->)]).
    destruct Hg as [_ (n' & plan' & Hn' & Hp' & _ & ->)]. simplify_eq. split; [by apply Hc, Hi|]. split; [done|].
    cbn. lia.
  - split.
    + apply not_true_iff_false. intros Hlive%Hc%Hi.
      pose proof (granted_matches _ _ _ _ _ Hg) as Hm. destruct (gr_plan _ _ _ _ _ Hg) as (n & plan & Hn & Hp & Ht & _).
      assert (revalidate_provider_authority s' d a later
        = Authorized (granted_authority d (pa_origin_context a) later n plan)) as E'.
      { apply revalidate_granted. split; [exact Hm|]. split; [exact Hlive|]. by exists n, plan. }
      by rewrite E' in E.
    + clear Hc Hi. unfold revalidate_provider_authority, provider_authority_outcome in E.
      destruct (negb (pd_permitted _)) eqn:Ep; [injection E as <-; by apply negb_true_iff in Ep|].
      repeat case_match; simplify_eq; done.
Qed.

(** C4. The lifetime of an authority. Granted by authorization or by
    revalidation, it stays current exactly until the first policy change, degradation,
    revocation or stop, inside its interval, whatever else the engine does meanwhile;
    no later call revives it. *)
Theorem provider_authority_lifetime s d now a evs s' later :
  runtime_wf (es_runtime s) ->
  (exists c, authorize_provider_injection s d c now = Authorized a) \/
  (exists a0, revalidate_provider_authority s d a0 now = Authorized a) ->
  engine_moves s evs s' ->
  provider_authority_is_current s' a later
  = negb (pa_service_port a =? 0) && negb (existsb invalidating evs)
    && (oc_valid_from (pa_origin_context a) <=? later) && (later <? oc_valid_until (pa_origin_context a)).
Proof.
  intros Hwf Hga Hm.
  assert (exists c, granted s d c now a) as [c Hg].
  { destruct Hga as [[c Hg%authorize_granted]|[a0 [_ Hg]%revalidate_granted]]; eauto. }
  destruct (Z.eqb_spec (pa_service_port a) 0) as [Hport|Hport]; cbn [negb andb].
  { unfold provider_authority_is_current. by rewrite Hport, !andb_false_r, !andb_false_l. }
  apply (current_later s a now); [done| |done]. apply (current_live _ _ _ _ _ s now Hg Hport).
  pose proof (gr_injectable _ _ _ _ _ Hg) as Hi. destruct (gr_plan _ _ _ _ _ Hg) as (n & plan & _ & _ & _ & ->).
  destruct Hi as [I1 I2 I3 I4 I5 I6 I7 I8 I9 I10 I11 I12 I13 I14 I15].
  split; try done; [unfold serving; by rewrite I9|]. cbn [granted_authority pa_origin_context oc_narrow oc_valid_from oc_valid_until].
  unfold decision_fresh, is_fresh_at in I7. apply andb_true_iff in I7 as [I7%Z.ltb_lt _]. unfold decision_expires. lia.
Qed.

(** ** What was handed out

    The completions, requests, contexts and authorities a caller of the facade can
    hold, in runs where it presents only what it was given. *)

Inductive issued :=
| IsCompletion (input : ValidatedDaneInput) (completion : DaneCompletion)
| IsRequest (decision : NamespaceDecision) (request : IcannOriginAuthenticationRequest)
| IsContext (decision : NamespaceDecision) (context : AuthenticatedOriginContext)
| IsAuthority (decision : NamespaceDecision) (authority : ProviderAuthorityContext).

Lemma plan_records_eq plan records : plan_records_match plan records = true -> records = op_tlsa_records plan.
Proof.
  unfold plan_records_match. generalize (op_tlsa_records plan). intros l [Hl Hf]%andb_true_iff. apply Z.eqb_eq in Hl.
  revert records Hl Hf. induction l as [|x l IH]; intros [|y records] Hl Hf; try done;
    cbn [combine forallb] in Hf; unfold zlen in *; cbn [length] in Hl; try lia.
  apply andb_true_iff in Hf as [Hx Hf]. apply bool_decide_eq_true in Hx. f_equal; [done|]. apply IH; [lia|done].
Qed.

Lemma oc_narrow_twice c lo hi lo' hi' : oc_narrow (oc_narrow c lo hi) lo' hi' = oc_narrow c (Z.max lo lo') (Z.min hi hi').
Proof. unfold oc_narrow. cbn. f_equal; lia. Qed.

Section issued.
Context `{DaneDigests} `{OpenSsl} `{ChainExternals}.

Inductive engine_run (config : EngineConfig) : EngineState -> list issued -> Prop :=
| run_new : engine_run config (engine_new config) []
| run_call s log s' : engine_run config s log -> engine_step s s' -> engine_run config s' log
| run_completed s log t p input ctx s' c :
    engine_run config s log -> complete_resolution_with_validated_tlsa s t p input ctx = (s', Ok c) ->
    engine_run config s' (IsCompletion input c :: log)
| run_requested s log d now s' q :
    engine_run config s log -> icann_request s d now = (s', Ok q) -> engine_run config s' (IsRequest d q :: log)
| run_answered s log d q auth now s' oc :
    engine_run config s log -> IsRequest d q ∈ log -> icann_finish s d q auth now = (s', Ok oc) ->
    engine_run config s' (IsContext d oc :: log)
| run_bound s log d input c now s' oc :
    engine_run config s log -> IsCompletion input c ∈ log -> bind_hns_origin_context s d c now = (s', Ok oc) ->
    engine_run config s' (IsContext d oc :: log)
| run_unauthenticated s log d now :
    engine_run config s log -> engine_run config s (IsContext d (bind_unauthenticated_origin_context s d now) :: log)
| run_authorized s log d0 oc d now a :
    engine_run config s log -> IsContext d0 oc ∈ log -> authorize_provider_injection s d oc now = Authorized a ->
    engine_run config s (IsAuthority d a :: log)
| run_revalidated s log d0 a0 d now a :
    engine_run config s log -> IsAuthority d0 a0 ∈ log -> revalidate_provider_authority s d a0 now = Authorized a ->
    engine_run config s (IsAuthority d a :: log).

(** A completion handed out rests on the strict evidence of its input. *)
Definition completion_sound (network : Policy.Network) (input : ValidatedDaneInput) (c : DaneCompletion) : Prop :=
  exists s attempt response context anchor dm,
    strict_evidence network attempt response input context anchor dm /\
    c = strict_completion s attempt response input context anchor dm.

(** A context that claims Handshake authentication agrees with its completion. *)
Record hns_bound (network : Policy.Network) (d : NamespaceDecision) (oc : AuthenticatedOriginContext)
    (c : DaneCompletion) (plan : OriginPlan) (anchor : ChainAnchor) : Prop := {
  hb_plan : selected_plan (nd_outcome d) = Some plan;
  hb_namespace : selected_namespace (nd_outcome d) = Some Hns;
  hb_policy : op_tls_policy plan = Dane;
  hb_host : dc_origin_sni c = Some (lo_host (from_namespace_decision d));
  hb_port : dc_bridge_service_port c = Some (sb_effective_port (op_service plan));
  hb_records : dc_bridge_tlsa_records c = Some (op_tlsa_records plan);
  hb_anchor : prov_chain_anchor (dc_provenance c) = Some anchor;
  hb_provenance : op_provenance plan
    = ProvHns (decision_network d) (anchor_tree_root anchor) (anchor_height anchor);
  hb_network : network_matches network (decision_network d) = true;
  hb_interval : exists vu, dc_bridge_valid_until c = Some vu /\ dc_bridge_valid_from c = Some (oc_valid_from oc) /\
    oc_valid_until oc = Z.min (decision_expires d) (saturating_add vu 1) }.

Definition context_sound (network : Policy.Network) (log : list issued) (d : NamespaceDecision)
    (oc : AuthenticatedOriginContext) : Prop :=
  oc_logical_origin oc = from_namespace_decision d /\
  oc_selected_namespace oc = selected_namespace (nd_outcome d) /\
  oc_decision_fingerprint oc = decision_fingerprint d /\ oc_valid_until oc <= decision_expires d /\
  match oc_status oc with
  | Unauthenticated => True
  | HnsDaneVerified => exists input c plan anchor, IsCompletion input c ∈ log /\ hns_bound network d oc c plan anchor
  | status => exists q kind, IsRequest d q ∈ log /\ icann_status (iq_tls_policy q) kind = Some status
  end.

Definition authority_sound (log : list issued) (d : NamespaceDecision) (a : ProviderAuthorityContext) : Prop :=
  exists d0 oc, IsContext d0 oc ∈ log /\ decision_fingerprint d0 = decision_fingerprint d /\
    from_namespace_decision d0 = from_namespace_decision d /\
    selected_namespace (nd_outcome d0) = selected_namespace (nd_outcome d) /\
    lo_scheme (from_namespace_decision d) = Https /\
    selected_namespace (nd_outcome d) = Some (pa_selected_namespace a) /\
    authentication_matches (pa_selected_namespace a) (pa_tls_policy a) (oc_status oc) = true /\
    (exists plan, selected_plan (nd_outcome d) = Some plan /\ pa_service_port a = sb_effective_port (op_service plan) /\
       pa_tls_policy a = op_tls_policy plan) /\
    (exists lo hi, pa_origin_context a = oc_narrow oc lo hi /\ hi <= decision_expires d).

Definition issued_sound (network : Policy.Network) (log : list issued) (it : issued) : Prop :=
  match it with
  | IsCompletion input c => completion_sound network input c
  | IsRequest d q => iq_logical_origin q = from_namespace_decision d /\ selected_namespace (nd_outcome d) = Some Icann /\
      lo_scheme (iq_logical_origin q) = Https /\ iq_decision_fingerprint q = decision_fingerprint d /\
      exists plan, selected_plan (nd_outcome d) = Some plan /\ iq_tls_policy q = op_tls_policy plan /\
        iq_service_port q = sb_effective_port (op_service plan)
  | IsContext d oc => context_sound network log d oc
  | IsAuthority d a => authority_sound log d a
  end.

Lemma issued_sound_weaken network log it0 it : issued_sound network log it -> issued_sound network (it0 :: log) it.
Proof.
  destruct it as [input c|d q|d oc|d a]; cbn; [done|done| |].
  - intros (E1 & E2 & E3 & E4 & Hs). split_and!; try done. destruct (oc_status oc); try done.
    2-4: destruct Hs as (q & kind & ? & ?); exists q, kind; split; [by right|done].
    destruct Hs as (input & c & plan & anchor & ? & ?). exists input, c, plan, anchor. split; [by right|done].
  - intros (d0 & oc & Hin & Hs). exists d0, oc. split; [by right|exact Hs].
Qed.

(** ** One lemma per way of obtaining an item *)

Lemma stamped_sound network log s d st vf vu stamp :
  vu <= decision_expires d ->
  (match st with
   | Unauthenticated => True
   | HnsDaneVerified => exists input c plan anchor, IsCompletion input c ∈ log /\
       hns_bound network d (stamp_origin_context s d st vf vu stamp) c plan anchor
   | status => exists q kind, IsRequest d q ∈ log /\ icann_status (iq_tls_policy q) kind = Some status
   end) ->
  context_sound network log d (stamp_origin_context s d st vf vu stamp).
Proof. intros Hv Hst. unfold stamp_origin_context in *. destruct stamp, st; (split_and!; [done|done|done|exact Hv|exact Hst]). Qed.

Lemma hns_binding_ok d c now vf vu :
  hns_binding d c now = Ok (vf, vu) ->
  exists plan anchor, selected_plan (nd_outcome d) = Some plan /\ selected_namespace (nd_outcome d) = Some Hns /\
    op_tls_policy plan = Dane /\ dc_origin_sni c = Some (lo_host (from_namespace_decision d)) /\
    dc_bridge_service_port c = Some (sb_effective_port (op_service plan)) /\
    dc_bridge_tlsa_records c = Some (op_tlsa_records plan) /\
    prov_chain_anchor (dc_provenance c) = Some anchor /\
    op_provenance plan = ProvHns (decision_network d) (anchor_tree_root anchor) (anchor_height anchor) /\
    dc_bridge_valid_from c = Some vf /\ dc_bridge_valid_until c = Some vu /\ vf <= now <= vu.
Proof.
  unfold hns_binding. intros E.
  destruct (dc_origin_sni c) as [host|]; [|done]. cbn [ok_or] in E.
  destruct (dc_bridge_service_port c) as [port|]; [|done]. cbn [ok_or] in E.
  destruct (dc_bridge_tlsa_records c) as [records|]; [|done]. cbn [ok_or] in E.
  destruct (dc_bridge_valid_from c) as [f|]; [|done]. cbn [ok_or] in E.
  destruct (dc_bridge_valid_until c) as [u|]; [|done]. cbn [ok_or] in E.
  destruct (now <? f) eqn:Hf; [done|]. destruct (u <? now) eqn:Hu; [done|].
  destruct (selected_plan _) as [plan|]; [|done]. cbn [ok_or] in E.
  match type of E with (if ?b then _ else _) = _ => destruct b eqn:Hb; [done|] end. injection E as <- <-.
  rewrite !orb_false_iff, !negb_false_iff, !bool_decide_eq_true in Hb.
  destruct Hb as ((((((((_ & Hh) & Hn) & Hp) & _) & Hport) & _) & Hr) & Ha).
  unfold anchor_matches in Ha. destruct (prov_chain_anchor _) as [anchor|]; [|done].
  destruct (op_provenance plan) as [network root height|] eqn:Hprov; [|done].
  exists plan, anchor. breflect. subst. split_and!; try done; try lia.
  f_equal. by apply plan_records_eq.
Qed.

Lemma bound_sound network log s d input c now s' oc :
  es_network s = network -> IsCompletion input c ∈ log -> bind_hns_origin_context s d c now = (s', Ok oc) ->
  context_sound network log d oc.
Proof.
  unfold bind_hns_origin_context. intros Hnet Hin E. destruct (hns_binding d c now) as [[vf vu]|] eqn:Hb; [|done].
  apply hns_binding_ok in Hb as (plan & anchor & ? & ? & ? & ? & ? & ? & ? & ? & ? & ? & _).
  destruct (_ || _) eqn:Hg; [done|]. apply orb_false_iff in Hg as [Hnm%negb_false_iff _]. rewrite Hnet in Hnm.
  destruct (negb _); [done|]. destruct (if bool_decide _ then _ else _) as [rt [o|]]; [|done].
  destruct (admit_event _) as [rt' [stamp|]]; [|done]. injection E as _ <-.
  apply stamped_sound; [lia|]. exists input, c, plan, anchor. split; [done|]. split; try done.
  exists vu. split_and!; [done| |]; unfold stamp_origin_context; cbn; done.
Qed.

Lemma answered_sound network log s d q auth now s' oc :
  IsRequest d q ∈ log -> icann_finish s d q auth now = (s', Ok oc) -> context_sound network log d oc.
Proof.
  unfold icann_finish. intros Hin E. destruct auth as [auth|]; [|done]. case_bool_decide; [done|].
  destruct (icann_status _ _) as [st|] eqn:Hst; [|done]. destruct (_ || _); [done|].
  destruct (admit_event _) as [rt [stamp|]]; [|done]. injection E as _ <-.
  apply stamped_sound; [done|].
  pose proof Hst as Hc. unfold icann_status in Hc.
  destruct (iq_tls_policy q) eqn:Hq, (ia_kind auth) eqn:Hk; try done; injection Hc as <-;
    (exists q, (ia_kind auth); by rewrite Hq, Hk).
Qed.

Lemma requested_sound s d now s' q network log :
  icann_request s d now = (s', Ok q) -> issued_sound network log (IsRequest d q).
Proof.
  unfold icann_request. intros E. destruct (selected_plan _) as [plan|] eqn:Hp; [|done].
  destruct (_ || _) eqn:Hg; [done|]. rewrite !orb_false_iff, !negb_false_iff, !bool_decide_eq_true in Hg.
  destruct Hg as (((? & ?) & _) & _). destruct (_ || _); [done|].
  destruct (admit_event _) as [rt [stamp|]]; [|done]. injection E as _ <-. cbn. split_and!; try done. by exists plan.
Qed.

Lemma grant_sound log d oc0 d0 s c now a :
  IsContext d0 oc0 ∈ log -> context_sound (es_network s) log d0 oc0 -> granted s d c now a ->
  (exists lo hi, c = oc_narrow oc0 lo hi) \/ c = oc0 -> authority_sound log d a.
Proof.
  intros Hin (C1 & C2 & C3 & C4 & _) [[] (n & plan & Hn & Hp & _ & ->)] Hc.
  assert (oc_logical_origin c = oc_logical_origin oc0 /\ oc_selected_namespace c = oc_selected_namespace oc0 /\
    oc_decision_fingerprint c = oc_decision_fingerprint oc0 /\ oc_status c = oc_status oc0) as (D1 & D2 & D3 & D4)
    by (by destruct Hc as [(lo & hi & ->)| ->]).
  exists d0, oc0. split; [done|]. split_and!; try congruence; try done.
  - cbn. unfold authentication_policy_denial in inj_authentication0. rewrite Hp, Hn, D4 in inj_authentication0.
    by destruct (authentication_matches _ _ _).
  - by exists plan.
  - destruct Hc as [(lo & hi & ->)| ->]; cbn; [rewrite oc_narrow_twice|]; do 2 eexists; (split; [done|lia]).
Qed.

Lemma run_steps config s log : engine_run config s log -> rtc engine_step (engine_new config) s.
Proof.
  induction 1 as [|s log s' _ IH Hs|s log t p input ctx s' c _ IH E|s log d now s' q _ IH E
    |s log d q auth now s' oc _ IH _ E|s log d input c now s' oc _ IH _ E| | |];
    try done; [by eapply rtc_r| | | |]; (eapply rtc_r; [exact IH|]);
    [by eapply step_validated|by eapply step_icann_request|by eapply step_icann_finish|by eapply step_bind_hns].
Qed.

Lemma run_network config s log : engine_run config s log -> es_network s = ec_network config.
Proof. intros Hr%run_steps. by destruct (steps_inv _ _ Hr (engine_new_inv config)) as (_ & _ & ->). Qed.

Lemma run_issued config s log :
  engine_run config s log -> forall it, it ∈ log -> issued_sound (ec_network config) log it.
Proof.
  induction 1 as [|s log s' Hr IH Hs|s log t p input ctx s' c Hr IH E|s log d now s' q Hr IH E
    |s log d q auth now s' oc Hr IH Hin E|s log d input c now s' oc Hr IH Hin E|s log d now Hr IH
    |s log d0 oc d now a Hr IH Hin E|s log d0 a0 d now a Hr IH Hin E]; intros it Hit;
    [by apply not_elem_of_nil in Hit|by apply IH| | | | | | |];
    (apply elem_of_cons in Hit as [->|Hit]; [|by apply issued_sound_weaken, IH]); apply issued_sound_weaken;
    pose proof (run_network _ _ _ Hr) as Hn.
  - pose proof (validated_completion_inv _ _ _ _ _ _ _ E) as (anchor & dm & Hev & _ & ->). rewrite Hn in Hev.
    by exists s', t, p, ctx, anchor, dm.
  - by eapply requested_sound.
  - by eapply answered_sound.
  - by eapply bound_sound.
  - by apply stamped_sound.
  - apply authorize_granted in E. pose proof (IH _ Hin) as Hc. rewrite <- Hn in Hc.
    eapply grant_sound; [exact Hin|exact Hc|exact E|by right].
  - apply revalidate_granted in E as [_ Hg]. pose proof (IH _ Hin) as (d1 & oc & Hin1 & Ha).
    destruct Ha as (_ & _ & _ & _ & _ & _ & _ & lo & hi & Hoc & _).
    pose proof (IH _ Hin1) as Hc. rewrite <- Hn in Hc.
    eapply grant_sound; [exact Hin1|exact Hc|exact Hg|]. left. by exists lo, hi.
Qed.

Lemma icann_status_policy n policy policy' kind status :
  authentication_matches n policy status = true -> icann_status policy' kind = Some status -> policy' = policy.
Proof. by destruct n, policy, status, policy', kind. Qed.

Lemma bridge_until_bound e vu : checked_pred e = Some vu -> saturating_add vu 1 <= e.
Proof. unfold checked_pred, saturating_add. case_match; [done|]. intros [= <-]. lia. Qed.

(** C3. What an authority rests on. An authority handed out is for an HTTPS origin
    and goes back to a context bound for a decision with the same origin, namespace
    and fingerprint. For Handshake that context came from a strict completion: its
    on-chain authority is of the engine's network, the decision's host is the
    validated base domain, its TLS service the port of the queried owner, its TLSA
    records the validated ones, its tree root and height the authority's, a
    certificate chain matched those records, and the authority's interval lies within
    the validated one and the decision's. For ICANN it answered the request made for
    the decision, with the kind of authentication its TLS policy asks for. *)
Theorem authority_origin_sound config s log d a :
  engine_run config s log -> IsAuthority d a ∈ log ->
  lo_scheme (from_namespace_decision d) = Https /\
  exists d0, decision_fingerprint d0 = decision_fingerprint d /\
    from_namespace_decision d0 = from_namespace_decision d /\
    selected_namespace (nd_outcome d0) = Some (pa_selected_namespace a) /\
    match pa_selected_namespace a with
    | Hns => exists input c plan authority,
        IsCompletion input c ∈ log /\ vt_hns_authority (vi_validated input) = Some authority /\
        engine_network_id (ec_network config) = network_id (anchor_network (he_anchor authority)) /\
        selected_plan (nd_outcome d0) = Some plan /\ op_tls_policy plan = Dane /\
        lo_host (from_namespace_decision d)
          = map to_ascii_lowercase (trim_end_dots (vt_base_domain_ascii (vi_validated input))) /\
        tlsa_tcp_service_port (vt_requested_owner (vi_validated input)) = Some (sb_effective_port (op_service plan)) /\
        op_tlsa_records plan = canonical_tlsa_rdata (vt_records (vi_validated input)) /\
        op_provenance plan = ProvHns (decision_network d0) (LightChain.anchor_tree_root (he_anchor authority))
          (LightChain.anchor_height (he_anchor authority)) /\
        verify_dane_chain (vi_certificate_chain_der input) (vt_base_domain_ascii (vi_validated input))
          (vt_records (vi_validated input)) (he_validation_time authority) (vi_limits input) = Ok (dc_dane_match c) /\
        vt_validated_at_unix (vi_validated input) <= oc_valid_from (pa_origin_context a) /\
        oc_valid_until (pa_origin_context a) <= Z.min (decision_expires d) (vt_expires_at_unix (vi_validated input))
    | Icann => exists q kind, IsRequest d0 q ∈ log /\ iq_tls_policy q = pa_tls_policy a /\
        icann_status (pa_tls_policy a) kind = Some (oc_status (pa_origin_context a)) /\
        iq_logical_origin q = from_namespace_decision d /\
        oc_valid_until (pa_origin_context a) <= decision_expires d
    end.
Proof.
  intros Hr Ha. pose proof (run_issued _ _ _ Hr) as Hall.
  pose proof (Hall _ Ha) as (d0 & oc & Hin & Hfp & Hlo & Hns & Hs & Hsel & Hm & _ & lo & hi & Hoc & Hhi).
  split; [done|]. exists d0. split_and!; [done|done|congruence|].
  pose proof (Hall _ Hin) as (_ & _ & _ & Huntil & Hst). rewrite Hoc. destruct (pa_selected_namespace a).
  - destruct (oc_status oc); try (by destruct (pa_tls_policy a)).
    destruct Hst as (input & c & plan & anchor & Hc & [B1 B2 B3 B4 B5 B6 B7 B8 _ (vu & B9 & B10 & B11)]).
    pose proof (Hall _ Hc) as (s1 & t & p & ctx & anchor' & dm & Hev & Ec).
    destruct Hev as [_ _ _ (authority & S1 & S2 & S3 & S4) _ S5 _ S6 _]. rewrite S2 in S6.
    subst c. cbn [strict_completion dc_origin_sni dc_bridge_service_port dc_bridge_tlsa_records dc_dane_match
      dc_bridge_valid_from dc_bridge_valid_until] in *.
    cbn in B7. injection B7 as <-. subst anchor'. injection B10 as B10. apply bridge_until_bound in B9.
    injection B4 as B4. injection B6 as B6. rewrite S5 in B4. cbn [oc_narrow oc_valid_from oc_valid_until].
    exists input, (strict_completion s1 t p input ctx (derived_anchor authority) dm), plan, authority. split_and!; [exact Hc|exact S1|exact S3|exact B1|exact B3|rewrite <- Hlo; exact (eq_sym B4)|exact B5
      |by rewrite B6|exact B8|exact S6|lia|lia].
  - destruct (oc_status oc) eqn:Est; try (by destruct (pa_tls_policy a));
      (destruct Hst as (q & kind & Hq & Hk); pose proof (icann_status_policy _ _ _ _ _ Hm Hk) as Hp;
       pose proof (Hall _ Hq) as (Q1 & _); exists q, kind; rewrite <- Hp;
       split_and!; [done|done|cbn; by rewrite Est|congruence|cbn; lia]).
Qed.
End issued.

(** ** Concrete instances *)

(** https://a under Handshake, with the records, root and height of the sample completion. *)
Definition sample_query : OriginQuery :=
  {| oq_host := [97]; oq_scheme := Https; oq_explicit_port := None; oq_supported_protocols := capabilities_all |}.
Definition sample_binding : ServiceBinding :=
  {| sb_priority := None; sb_service_target := [97]; sb_mandatory_keys := []; sb_advertised_alpn := [];
     sb_selected_protocol := Http11; sb_effective_port := 443; sb_transport := TransportTcp;
     sb_connection_hints := []; sb_ech_config := None; sb_parameters := [] |}.
Definition sample_plan : OriginPlan :=
  {| op_namespace := Hns; op_query := sample_query; op_alias_path := []; op_terminal_target := [97];
     op_endpoint_alias_path := []; op_endpoint_target := [97]; op_endpoints := [toy_endpoint [1; 1; 1; 1]];
     op_service := sample_binding; op_tls_policy := Dane; op_tlsa_records := canonical_tlsa_rdata sample_ta_records;
     op_provenance := ProvHns NetMainnet [9] 1;
     op_freshness := {| fr_observed_at_unix := 5; fr_expires_at_unix := 50 |} |}.
Definition sample_decision : NamespaceDecision :=
  {| nd_query := sample_query; nd_policy := default_selection_policy;
     nd_outcome := HnsOnly sample_plan
       {| ab_namespace := Icann; ab_query := sample_query; ab_kind := IcannInsecureNxDomain;
          ab_provenance := ProvIcannDoh ChainProvenInsecure;
          ab_freshness := {| fr_observed_at_unix := 5; fr_expires_at_unix := 50 |} |} SingleRoot |}.

(** A context as a binding at time 6 leaves it. *)
Definition sample_context : AuthenticatedOriginContext :=
  stamp_origin_context (sample_engine BrowserBridgeReady) sample_decision HnsDaneVerified 5 50 (Some demo_stamp).
Definition sample_authority_at (now : Z) : ProviderAuthorityContext :=
  granted_authority sample_decision sample_context now Hns sample_plan.

Lemma provider_authority_lifetime_witness :
  provider_authority_is_current (sample_engine BrowserBridgeReady) (sample_authority_at 10) 20 = true /\
  forall s' evs later, engine_moves (sample_engine BrowserBridgeReady) evs s' -> existsb invalidating evs = true ->
    provider_authority_is_current s' (sample_authority_at 10) later = false.
Proof.
  assert (Hwf : runtime_wf (es_runtime (sample_engine BrowserBridgeReady))) by (unfold runtime_wf; cbn; width_lia).
  assert (Ha : authorize_provider_injection (sample_engine BrowserBridgeReady) sample_decision sample_context 10
    = Authorized (sample_authority_at 10)) by (vm_compute; reflexivity).
  split.
  - rewrite (provider_authority_lifetime (sample_engine BrowserBridgeReady) sample_decision 10 (sample_authority_at 10) []
      (sample_engine BrowserBridgeReady) 20 Hwf (or_introl (ex_intro _ sample_context Ha)) (moves_refl _)).
    vm_compute. reflexivity.
  - intros s' evs later Hm Hi.
    rewrite (provider_authority_lifetime (sample_engine BrowserBridgeReady) sample_decision 10 (sample_authority_at 10) evs
      s' later Hwf (or_introl (ex_intro _ sample_context Ha)) Hm), Hi, andb_false_r. reflexivity.
Defined.

Lemma currency_is_revalidation_witness :
  provider_authority_is_current (sample_engine BrowserBridgeReady) (sample_authority_at 10) 20 = true /\
  provider_authority_is_current (sample_engine Degraded) (sample_authority_at 10) 20 = false.
Proof.
  assert (Ha : authorize_provider_injection (sample_engine BrowserBridgeReady) sample_decision sample_context 10
    = Authorized (sample_authority_at 10)) by (vm_compute; reflexivity).
  assert (Hport : pa_service_port (sample_authority_at 10) <> 0) by (vm_compute; discriminate).
  split.
  - pose proof (currency_is_revalidation _ _ _ _ _ (sample_engine BrowserBridgeReady) 20 Ha Hport ltac:(lia)) as Hc.
    destruct (revalidate_provider_authority (sample_engine BrowserBridgeReady) sample_decision (sample_authority_at 10) 20)
      as [a'|q] eqn:E; [exact (proj1 Hc)|exfalso; revert E; vm_compute; discriminate].
  - pose proof (currency_is_revalidation _ _ _ _ _ (sample_engine Degraded) 20 Ha Hport ltac:(lia)) as Hc.
    destruct (revalidate_provider_authority (sample_engine Degraded) sample_decision (sample_authority_at 10) 20)
      as [a'|q] eqn:E; [exfalso; revert E; vm_compute; discriminate|exact (proj1 Hc)].
Defined.

(** A session walked up to transport readiness, admitted, completed, bound and authorized. *)
Definition sample_config : EngineConfig :=
  {| ec_runtime_session := demo_session; ec_network := Policy.Mainnet; ec_policy := policy_snapshot_default |}.
Definition advance_all (s : EngineState) (states : list AuthorityState) : EngineState :=
  fold_left (fun s next => fst (advance_authority_state s next)) states s.
Definition sample_verified : EngineState :=
  advance_all (fst (admit_resolution
    (advance_all (engine_new sample_config)
       [LocalStateOpened; HeaderSyncing; HeaderCurrent; ProofReady; ResolutionTransportReady])
    DirectAuthoritativeUdp (tlsa_query sample_owner))) [DnssecVerified].

Section sample.
Let D : DaneDigests := sample_digests.
Let O : OpenSsl := sample_openssl.
Let X : ChainExternals := toy_externals.

Lemma advance_all_steps s states : rtc (@engine_step D O X) s (advance_all s states).
Proof.
  revert s. induction states as [|next states IH]; intros s; [constructor|].
  eapply rtc_l; [|exact (IH _)]. destruct (advance_authority_state s next) as [s' r] eqn:E. by eapply step_advance.
Qed.

Lemma steps_run s log s' :
  rtc (@engine_step D O X) s s' -> @engine_run D O X sample_config s log -> @engine_run D O X sample_config s' log.
Proof. induction 1; [done|]. eauto using run_call. Qed.

Lemma sample_verified_run : @engine_run D O X sample_config sample_verified [].
Proof.
  eapply steps_run; [apply advance_all_steps|]. destruct (admit_resolution _ _ _) as [s1 r] eqn:E.
  eapply run_call; [eapply steps_run; [apply advance_all_steps|apply run_new]|]. by eapply step_admit_resolution.
Qed.
End sample.

Lemma sample_flow :
  exists s1 c s2 oc a, @complete_resolution_with_validated_tlsa sample_digests sample_openssl toy_externals
      sample_verified sample_attempt sample_parsed sample_input completion_context_default = (s1, Ok c) /\
    bind_hns_origin_context s1 sample_decision c 6 = (s2, Ok oc) /\
    authorize_provider_injection s2 sample_decision oc 10 = Authorized a /\
    oc_valid_until (pa_origin_context a) = 50 /\ bool_decide (es_last_provenance s1 = None) = false.
Proof.
  do 5 eexists. split; [vm_compute; reflexivity|]. split; [vm_compute; reflexivity|].
  split; [vm_compute; reflexivity|]. split; vm_compute; reflexivity.
Qed.

Lemma authority_origin_sound_witness :
  exists s log a, @engine_run sample_digests sample_openssl toy_externals sample_config s log /\
    IsAuthority sample_decision a ∈ log /\ oc_valid_until (pa_origin_context a) = 50 /\
    lo_scheme (from_namespace_decision sample_decision) = Https.
Proof.
  destruct sample_flow as (s1 & c & s2 & oc & a & Ec & Eb & Ea & Hu & _).
  pose proof (run_completed _ _ _ _ _ _ _ _ _ sample_verified_run Ec) as R1.
  pose proof (run_bound _ _ _ _ _ _ _ _ _ R1 (list_elem_of_here _ _) Eb) as R2.
  pose proof (run_authorized _ _ _ _ _ _ _ _ R2 (list_elem_of_here _ _) Ea) as R3.
  destruct (authority_origin_sound _ _ _ _ _ R3 (list_elem_of_here _ _)) as [Hs _].
  do 3 eexists. split; [exact R3|]. split; [left|]. split; [exact Hu|exact Hs].
Defined.

Lemma evidence_is_current_witness :
  exists s p, rtc (@engine_step sample_digests sample_openssl toy_externals) (engine_new sample_config) s /\
    es_last_provenance s = Some p /\ bridge_ready (es_authority s) = true.
Proof.
  destruct sample_flow as (s1 & c & s2 & oc & a & Ec & _ & _ & _ & Hp%bool_decide_eq_false).
  pose proof (run_steps _ _ _ (run_completed _ _ _ _ _ _ _ _ _ sample_verified_run Ec)) as Hr.
  pose proof (evidence_is_current _ _ Hr) as Hl. exists s1. destruct (es_last_provenance s1) as [p|]; [|destruct (Hp eq_refl)].
  exists p. split; [exact Hr|]. split; [reflexivity|]. apply Hl.
Defined.
