(* ===== verification/ProxyHead.v ===== *)
(** * Loopback proxy: endpoints, capability, hosts and the CONNECT head

    Models what [src/crates/hns-loopback-proxy/src/lib.rs] reads before any state
    changes: the numeric loopback endpoint, the Basic capability, strict hosts under
    one Handshake TLD, the limits, and the parser of a CONNECT request head. A
    [str] is its characters, a byte slice its bytes. Wiping memory on drop and the
    redacted Debug output are not modelled. *)

From S2P Require Import Prelude Text DnsTypes IcannDane NsTypes Engine.
Import Stdlib.Strings.String.StringSyntax.

(** ** Text, as the standard library has it *)

(** [char::is_control]. *)
Definition is_control (c : Z) : bool := ((0 <=? c) && (c <=? 0x1f)) || ((0x7f <=? c) && (c <=? 0x9f)).
(** The pattern [[' ', '\t']], and [trim_matches] on it. *)
Definition is_blank (c : Z) : bool := (c =? 32) || (c =? 9).
Definition trim_blanks (s : list Z) : list Z := trim_end is_blank (trim_start is_blank s).

(** [str::from_utf8]: the characters, or [None] where it fails. *)
Definition continuation (b : Z) : bool := (0x80 <=? b) && (b <=? 0xbf).
Fixpoint utf8_decode (input : list Z) : option (list Z) :=
  match input with
  | [] => Some []
  | a :: rest =>
      if a <? 0x80 then cons a <$> utf8_decode rest else
      if (0xc2 <=? a) && (a <=? 0xdf) then
        match rest with
        | b :: rest =>
            if continuation b then cons ((a - 192) * 64 + (b - 128)) <$> utf8_decode rest else None
        | _ => None
        end
      else if (0xe0 <=? a) && (a <=? 0xef) then
        match rest with
        | b :: c :: rest =>
            if continuation b && continuation c
               && negb ((a =? 0xe0) && (b <? 0xa0)) && negb ((a =? 0xed) && (0x9f <? b))
            then cons ((a - 224) * 4096 + (b - 128) * 64 + (c - 128)) <$> utf8_decode rest else None
        | _ => None
        end
      else if (0xf0 <=? a) && (a <=? 0xf4) then
        match rest with
        | b :: c :: d :: rest =>
            if continuation b && continuation c && continuation d
               && negb ((a =? 0xf0) && (b <? 0x90)) && negb ((a =? 0xf4) && (0x8f <? b))
            then cons ((a - 240) * 262144 + (b - 128) * 4096 + (c - 128) * 64 + (d - 128)) <$> utf8_decode rest
            else None
        | _ => None
        end
      else None
  end.

(** [s.split("\r\n")]. *)
Fixpoint split_crlf (s : list Z) : list (list Z) :=
  match s with
  | [] => [[]]
  | 13 :: 10 :: rest => [] :: split_crlf rest
  | c :: rest =>
      match split_crlf rest with
      | first :: others => (c :: first) :: others
      | [] => [[c]]
      end
  end.

(** [split_once] and [rsplit_once] at a character. *)
Fixpoint split_once (sep : Z) (s : list Z) : option (list Z * list Z) :=
  match s with
  | [] => None
  | c :: rest =>
      if c =? sep then Some ([], rest)
      else (fun '(before, after) => (c :: before, after)) <$> split_once sep rest
  end.
Fixpoint rsplit_once (sep : Z) (s : list Z) : option (list Z * list Z) :=
  match s with
  | [] => None
  | c :: rest =>
      match rsplit_once sep rest with
      | Some (before, after) => Some (c :: before, after)
      | None => if c =? sep then Some ([], rest) else None
      end
  end.

(** [s.split_at(s.find([' ', '\t'])?)]. *)
Fixpoint split_blank (s : list Z) : option (list Z * list Z) :=
  match s with
  | [] => None
  | c :: rest =>
      if is_blank c then Some ([], s)
      else (fun '(before, after) => (c :: before, after)) <$> split_blank rest
  end.

(** [strip_suffix]. *)
Definition strip_suffix (suffix s : list Z) : option (list Z) :=
  let n := (length s - length suffix)%nat in
  if Nat.leb (length suffix) (length s) && bool_decide (drop n s = suffix) then Some (take n s) else None.

(** The pairs of [windows(2)]. *)
Fixpoint windows2 (input : list Z) : list (Z * Z) :=
  match input with
  | a :: (b :: _) as rest => (a, b) :: windows2 rest
  | _ => []
  end.

(** ** Limits and errors *)

Definition DEFAULT_MAXIMUM_HEAD_BYTES : Z := 16384.
Definition DEFAULT_MAXIMUM_HEADERS : Z := 64.
Definition DEFAULT_MAXIMUM_PENDING : Z := 64.
Definition DEFAULT_MAXIMUM_PENDING_LIFETIME_SECONDS : Z := 15.
Definition MAXIMUM_PENDING_LIFETIME_SECONDS : Z := 60.
Definition DEFAULT_MAXIMUM_PUBLICATIONS : Z := 64.
Definition DEFAULT_MAXIMUM_PUBLICATION_LIFETIME_SECONDS : Z := 300.
Definition DEFAULT_MAXIMUM_GRANT_LIFETIME_SECONDS : Z := 30.
Definition MAXIMUM_GRANT_LIFETIME_SECONDS : Z := 60.

(** [Pr] marks the names other components use too. *)
Inductive ProxyError :=
| PrEngine (e : EngineError) | NonLoopbackEndpoint | ZeroProxyPort | NonLoopbackClient | ZeroRuntimeSession
| ZeroRuntimeGeneration | ZeroProcessSession | ZeroProcessGeneration | ZeroListenerGeneration | PrInvalidLimits
| PrClockRollback | TimeOverflow | PrInvalidHost | ScopeMustBeHnsTld | HostOutsideScope | StaleRuntime
| PrAuthorityNotReady | MalformedRequest | MalformedAuthority | AuthorityMismatch | RequestBodyOrUpgrade
| AuthenticationFailed | PendingLimit | PendingExpired | InstanceSequenceExhausted | RequestSequenceExhausted
| PublicationSequenceExhausted | RegistryGenerationExhausted | StaleRegistryGeneration | PublicationLimit
| PublicationAlreadyExists | PublicationMismatch | PendingMismatch | ProviderAuthorityMismatch
| ProviderAuthorityNotYetValid | ProviderAuthorityExpired.

Record ProxyLimits := {
  maximum_head_bytes : Z; maximum_headers : Z; maximum_pending : Z; maximum_pending_lifetime_seconds : Z;
  maximum_publications : Z; maximum_publication_lifetime_seconds : Z; maximum_grant_lifetime_seconds : Z }.
Definition proxy_limits_default : ProxyLimits :=
  {| maximum_head_bytes := DEFAULT_MAXIMUM_HEAD_BYTES; maximum_headers := DEFAULT_MAXIMUM_HEADERS;
     maximum_pending := DEFAULT_MAXIMUM_PENDING;
     maximum_pending_lifetime_seconds := DEFAULT_MAXIMUM_PENDING_LIFETIME_SECONDS;
     maximum_publications := DEFAULT_MAXIMUM_PUBLICATIONS;
     maximum_publication_lifetime_seconds := DEFAULT_MAXIMUM_PUBLICATION_LIFETIME_SECONDS;
     maximum_grant_lifetime_seconds := DEFAULT_MAXIMUM_GRANT_LIFETIME_SECONDS |}.

Definition proxy_limits_validate (l : ProxyLimits) : result ProxyError ProxyLimits :=
  if (maximum_head_bytes l <? 256) || (65536 <? maximum_head_bytes l)
     || (maximum_headers l =? 0) || (256 <? maximum_headers l)
     || (maximum_pending l =? 0) || (1024 <? maximum_pending l)
     || (maximum_pending_lifetime_seconds l =? 0)
     || (MAXIMUM_PENDING_LIFETIME_SECONDS <? maximum_pending_lifetime_seconds l)
     || (maximum_publications l =? 0) || (1024 <? maximum_publications l)
     || (maximum_publication_lifetime_seconds l =? 0) || (3600 <? maximum_publication_lifetime_seconds l)
     || (maximum_grant_lifetime_seconds l =? 0)
     || (maximum_publication_lifetime_seconds l <? maximum_grant_lifetime_seconds l)
     || (MAXIMUM_GRANT_LIFETIME_SECONDS <? maximum_grant_lifetime_seconds l)
  then Err PrInvalidLimits else Ok l.

(** ** Endpoint and instance *)

#[export] Instance NsAddr_eq_dec : EqDecision NsAddr.
Proof. solve_decision. Defined.
#[export] Instance SocketAddr_eq_dec : EqDecision SocketAddr.
Proof. solve_decision. Defined.

(** [IpAddr::is_loopback]. *)
Definition is_loopback (ip : NsAddr) : bool :=
  match ip with
  | AddrV4 octets => bool_decide (head octets = Some 127)
  | AddrV6 octets => bool_decide (octets = repeat 0 15 ++ [1])
  end.

Record LoopbackEndpoint := { le_address : SocketAddr }.
#[export] Instance LoopbackEndpoint_eq_dec : EqDecision LoopbackEndpoint.
Proof. solve_decision. Defined.
Definition endpoint_new (address : SocketAddr) : result ProxyError LoopbackEndpoint :=
  if negb (is_loopback (sa_ip address)) then Err NonLoopbackEndpoint else
  if sa_port address =? 0 then Err ZeroProxyPort else Ok {| le_address := address |}.

Record ProxyInstanceIdentity := { pi_process_session : list Z; pi_process_generation : Z; pi_listener_generation : Z }.
Definition identity_new (process_session : list Z) (process_generation listener_generation : Z)
    : result ProxyError ProxyInstanceIdentity :=
  if bool_decide (process_session = repeat 0 16) then Err ZeroProcessSession else
  if process_generation =? 0 then Err ZeroProcessGeneration else
  if listener_generation =? 0 then Err ZeroListenerGeneration else
  Ok {| pi_process_session := process_session; pi_process_generation := process_generation;
        pi_listener_generation := listener_generation |}.

(** ** The capability *)

Definition HEX : list Z := map Z.of_nat (seq 48 10) ++ map Z.of_nat (seq 97 6).
Definition append_hex (output input : list Z) : list Z :=
  output ++ concat (map (fun byte =>
    [default 48 (HEX !! Z.to_nat (Z.shiftr byte 4)); default 48 (HEX !! Z.to_nat (Z.land byte 0x0f))]) input).
Definition encode_hex (input : list Z) : list Z := append_hex [] input.

Definition ALPHABET : list Z :=
  map Z.of_nat (seq 65 26) ++ map Z.of_nat (seq 97 26) ++ map Z.of_nat (seq 48 10) ++ [43; 47].
Definition base64_character (index : Z) : Z := default 65 (ALPHABET !! Z.to_nat index).
(** One chunk of [chunks(3)]. *)
Definition base64_chunk (first : Z) (second third : option Z) : list Z :=
  let value := Z.lor (Z.lor (Z.shiftl first 16) (Z.shiftl (default 0 second) 8)) (default 0 third) in
  [base64_character (Z.land (Z.shiftr value 18) 0x3f); base64_character (Z.land (Z.shiftr value 12) 0x3f);
   match second with Some _ => base64_character (Z.land (Z.shiftr value 6) 0x3f) | None => 61 end;
   match third with Some _ => base64_character (Z.land value 0x3f) | None => 61 end].
Fixpoint encode_base64 (input : list Z) : list Z :=
  match input with
  | [] => []
  | [a] => base64_chunk a None None
  | [a; b] => base64_chunk a (Some b) None
  | a :: b :: c :: rest => base64_chunk a (Some b) (Some c) ++ encode_base64 rest
  end.

Definition PROXY_USERNAME : list Z := text "hns-browser".
Definition BASIC : list Z := text "Basic".

Record ProxyAuthorization := { pz_realm : list Z; pz_expected_token : list Z }.
Definition from_capability (realm_nonce capability : list Z) : ProxyAuthorization :=
  {| pz_realm := text "hns-loopback-" ++ encode_hex realm_nonce;
     pz_expected_token := encode_base64 (append_hex (PROXY_USERNAME ++ [58]) capability) |}.
Definition proxy_authorization_header_value (a : ProxyAuthorization) : list Z := BASIC ++ [32] ++ pz_expected_token a.

Definition challenge_header_value (a : ProxyAuthorization) : list Z :=
  text "Basic realm=" ++ [34] ++ pz_realm a ++ [34].

Definition basic_token (value : list Z) : option (list Z) :=
  if existsb (fun c => is_control c && negb (is_blank c)) value then None else
  let value := trim_blanks value in
  split_blank value ≫= fun '(scheme, remainder) =>
  if negb (eq_ignore_ascii_case scheme BASIC) then None else
  let token := trim_start is_blank remainder in
  if bool_decide (token = []) || existsb is_whitespace token then None else Some token.

(** [ct_eq] is equality of the bytes. *)
Definition verify_header_values (a : ProxyAuthorization) (values : list (list Z)) : bool :=
  match values with
  | [value] =>
      match basic_token value with
      | Some token =>
          (zlen (str_bytes token) =? zlen (pz_expected_token a))
          && bool_decide (str_bytes token = pz_expected_token a)
      | None => false
      end
  | _ => false
  end.

(** [Display] of a loopback address: the only one of version 6 is ::1. *)
Definition loopback_text (ip : NsAddr) : list Z :=
  match ip with
  | AddrV4 octets => match map decimal octets with
                     | [] => []
                     | first :: rest => first ++ concat (map (cons 46) rest)
                     end
  | AddrV6 _ => text "::1"
  end.
Definition matches_challenge (a : ProxyAuthorization) (endpoint : LoopbackEndpoint) (host : list Z) (port : Z)
    (realm : list Z) : bool :=
  let candidate :=
    match host with
    | 91 :: inner => if bool_decide (last inner = Some 93) then removelast inner else host
    | _ => host
    end in
  bool_decide (candidate = loopback_text (sa_ip (le_address endpoint)))
  && (port =? sa_port (le_address endpoint)) && bool_decide (realm = pz_realm a).

(** ** Hosts *)

Definition legacy_label (label : list Z) : bool :=
  match label with
  | 48 :: (120 | 88) :: hex =>
      negb (bool_decide (hex = []))
      && forallb (fun b => is_digit b || ((65 <=? b) && (b <=? 70)) || ((97 <=? b) && (b <=? 102))) hex
  | 48 :: _ :: _ => forallb (fun b => (48 <=? b) && (b <=? 55)) label
  | _ => negb (bool_decide (label = [])) && forallb is_digit label
  end.
(** The closure counts every label when all are numeric. *)
Definition looks_like_legacy_ipv4 (host : list Z) : bool :=
  let labels := split_on 46 host in
  forallb legacy_label labels && (1 <=? zlen labels) && (zlen labels <=? 4).

(** The last is the double quote. *)
Definition host_delimiters : list Z := text "/:?#@[]\<>" ++ [34].
Definition proxy_label_bad (label : list Z) : bool :=
  bool_decide (label = []) || (63 <? zlen label) || bool_decide (head label = Some 45)
  || bool_decide (last label = Some 45) || negb (forallb (fun b => is_ascii_alphanumeric b || (b =? 45)) label).

Definition normalized_host_parse (input : list Z) : result ProxyError (list Z) :=
  if bool_decide (input = []) || negb (bool_decide (trim input = input))
     || existsb (fun c => is_control c || is_whitespace c || existsb (Z.eqb c) host_delimiters) input
  then Err PrInvalidHost else
  let without_dot := strip_dot input in
  if bool_decide (without_dot = []) || bool_decide (last without_dot = Some 46) then Err PrInvalidHost else
  let normalized := map to_ascii_lowercase without_dot in
  if (253 <? zlen (str_bytes normalized)) || negb (forallb (fun c => c <? 128) normalized)
     || existsb proxy_label_bad (split_on 46 normalized)
     || ip_addr_from_str normalized || looks_like_legacy_ipv4 normalized
  then Err PrInvalidHost else Ok normalized.

Record HostScope := { hs_root : list Z }.
Definition from_verified_hns_tld (root : list Z) : result ProxyError HostScope :=
  let? root := normalized_host_parse root in
  if existsb (Z.eqb 46) root then Err ScopeMustBeHnsTld else Ok {| hs_root := root |}.
Definition scope_authorize (scope : HostScope) (candidate : list Z) : result ProxyError (list Z) :=
  let? candidate := normalized_host_parse candidate in
  if bool_decide (candidate = hs_root scope) then Ok candidate else
  let? prefix := ok_or (strip_suffix (hs_root scope) candidate) HostOutsideScope in
  if negb (bool_decide (last prefix = Some 46)) then Err HostOutsideScope else Ok candidate.

(** ** The CONNECT head *)

Record ParsedConnect := { pc_host : list Z; pc_port : Z; pc_authorization : list (list Z) }.

Definition parse_authority (input : list Z) : result ProxyError (list Z * Z) :=
  let? (host, port_text) := ok_or (rsplit_once 58 input) MalformedAuthority in
  if existsb (Z.eqb 58) host || bool_decide (port_text = [])
     || ((1 <? zlen (str_bytes port_text)) && bool_decide (head port_text = Some 48))
     || negb (forallb is_digit port_text)
  then Err MalformedAuthority else
  let? port := ok_or (parse_u16 port_text) MalformedAuthority in
  if port =? 0 then Err MalformedAuthority else
  let? host := normalized_host_parse host in Ok (host, port).

Definition CONNECT : list Z := text "CONNECT".
Definition HTTP_1_1 : list Z := text "HTTP/1.1".
Definition H_HOST : list Z := text "host".
Definition PROXY_AUTHORIZATION_HEADER : list Z := text "proxy-authorization".
Definition H_UPGRADE : list Z := text "upgrade".
(** The fields that announce a body or another protocol, and those that may. *)
Definition body_fields : list (list Z) :=
  [text "content-length"; text "transfer-encoding"; H_UPGRADE; text "expect"].
Definition connection_fields : list (list Z) := [text "connection"; text "proxy-connection"].
Definition token_punctuation : list Z := text "!#$%&'*+-.^_`|~".

(** The body of the loop over the fields: host values and authorizations so far. *)
Definition field_step (limits : ProxyLimits) (header_count : Z) (acc : list (list Z) * list (list Z)) (line : list Z)
    : result ProxyError (list (list Z) * list (list Z)) :=
  if (maximum_headers limits <? header_count) || bool_decide (line = [])
     || match line with c :: _ => is_blank c | [] => false end
  then Err MalformedRequest else
  let? (name, raw_value) := ok_or (split_once 58 line) MalformedRequest in
  if bool_decide (name = [])
     || negb (forallb (fun b => is_ascii_alphanumeric b || existsb (Z.eqb b) token_punctuation) (str_bytes name))
  then Err MalformedRequest else
  let value := trim_blanks raw_value in
  if bool_decide (value = []) || existsb (fun c => is_control c && negb (c =? 9)) value
  then Err MalformedRequest else
  if eq_ignore_ascii_case name H_HOST then Ok (fst acc ++ [value], snd acc) else
  if eq_ignore_ascii_case name PROXY_AUTHORIZATION_HEADER then Ok (fst acc, snd acc ++ [str_bytes value]) else
  if existsb (eq_ignore_ascii_case name) body_fields
     || (existsb (eq_ignore_ascii_case name) connection_fields
         && existsb (fun token => eq_ignore_ascii_case (trim token) H_UPGRADE) (split_on 44 value))
  then Err RequestBodyOrUpgrade else Ok acc.

Fixpoint fields_loop (limits : ProxyLimits) (header_count : Z) (acc : list (list Z) * list (list Z))
    (lines : list (list Z)) : result ProxyError (list (list Z) * list (list Z)) :=
  match lines with
  | [] => Ok acc
  | line :: rest =>
      let? acc := field_step limits (header_count + 1) acc line in
      fields_loop limits (header_count + 1) acc rest
  end.

Definition CRLF : list Z := [13; 10].

(** The checks on bytes: bounded, terminated, no bare line feed. *)
Definition head_bytes_bad (input : list Z) (limits : ProxyLimits) : bool :=
  (maximum_head_bytes limits <? zlen input)
  || negb (bool_decide (strip_suffix (CRLF ++ CRLF) input <> None))
  || (zlen (List.filter (fun pair => bool_decide (pair = (13, 10))) (windows2 input)) <? 2).
Definition bare_line_feed (input : list Z) : bool :=
  bool_decide (head input = Some 10)
  || existsb (fun '(a, b) => (b =? 10) && negb (a =? 13)) (windows2 input).

Definition request_target (request_line : list Z) : result ProxyError (list Z) :=
  if existsb (Z.eqb 9) request_line then Err MalformedRequest else
  match split_on 32 request_line with
  | [method; target; version] =>
      if negb (bool_decide (method = CONNECT)) || negb (bool_decide (version = HTTP_1_1)) || bool_decide (target = [])
      then Err MalformedRequest else Ok target
  | _ => Err MalformedRequest
  end.

Definition parse_connect_head (input : list Z) (limits : ProxyLimits) : result ProxyError ParsedConnect :=
  if head_bytes_bad input limits then Err MalformedRequest else
  let? request := ok_or (utf8_decode input) MalformedRequest in
  if bare_line_feed input then Err MalformedRequest else
  let? unterminated := ok_or (strip_suffix (CRLF ++ CRLF) request) MalformedRequest in
  match split_crlf unterminated with
  | [] => Err MalformedRequest
  | request_line :: lines =>
      let? target := request_target request_line in
      let? (host, port) := parse_authority target in
      let? (host_values, authorization) := fields_loop limits 0 ([], []) lines in
      if negb (zlen host_values =? 1) || negb (zlen authorization =? 1) then Err MalformedRequest else
      let? host_value := ok_or (head host_values) MalformedRequest in
      let? (host_header, host_port) := parse_authority host_value in
      if negb (bool_decide (host_header = host)) || negb (host_port =? port) then Err AuthorityMismatch else
      Ok {| pc_host := host; pc_port := port; pc_authorization := authorization |}
  end.
