(* ===== verification/ProxyHeadProps.v ===== *)
(** * Loopback proxy: scope, capability and head

    The host scope is the subdomains of its root and no more; the Basic token opens
    the proxy exactly to its capability; and a parsed CONNECT head is, byte for byte,
    the request line and fields it was read as, none of which announces a body. *)

From S2P Require Import Prelude Text DnsTypes IcannDane NsTypes Engine ProxyHead.
Import Stdlib.Strings.String.StringSyntax.

(** ** Hosts *)

(** A canonical host: what the parser returns. *)
Record canonical_host (h : list Z) : Prop := {
  ch_nonempty : h <> [];
  ch_chars : Forall (fun c => is_ascii_alphanumeric c || (c =? 45) || (c =? 46) = true) h;
  ch_lower : map to_ascii_lowercase h = h;
  ch_length : zlen h <= 253;
  ch_labels : Forall (fun l => proxy_label_bad l = false) (split_on 46 h);
  ch_not_address : ip_addr_from_str h = false /\ looks_like_legacy_ipv4 h = false }.

Lemma proxy_label_chars l :
  proxy_label_bad l = false -> l <> [] /\ Forall (fun c => is_ascii_alphanumeric c || (c =? 45) = true) l.
Proof.
  unfold proxy_label_bad. rewrite !orb_false_iff, negb_false_iff, bool_decide_eq_false. intros ((((? & _) & _) & _) & Hf).
  split; [done|]. apply Forall_forall. intros c Hc. rewrite forallb_forall in Hf. by apply Hf, list_elem_of_In.
Qed.

Lemma ascii_str_bytes s : Forall (fun c => c < 128) s -> str_bytes s = s.
Proof.
  unfold str_bytes. induction 1 as [|c s Hc _ IH]; [done|]. cbn [map concat]. rewrite IH. unfold utf8.
  by rewrite (proj2 (Z.ltb_lt _ _)) by lia.
Qed.

Lemma host_char_range c : is_ascii_alphanumeric c || (c =? 45) || (c =? 46) = true -> 45 <= c < 128.
Proof. 
  unfold is_ascii_alphanumeric. rewrite !orb_true_iff, !andb_true_iff, !Z.leb_le, !Z.eqb_eq. lia.
Qed.

Lemma lowercase_text_idem s : map to_ascii_lowercase (map to_ascii_lowercase s) = map to_ascii_lowercase s.
Proof. rewrite map_map. apply map_ext, lowercase_idem. Qed.

Lemma labels_chars s :
  Forall (fun l => proxy_label_bad l = false) (split_on 46 s) ->
  Forall (fun c => is_ascii_alphanumeric c || (c =? 45) || (c =? 46) = true) s.
Proof.
  intros Hl. assert (Forall (Forall (fun c => is_ascii_alphanumeric c || (c =? 45) = true)) (split_on 46 s)) as Hc.
  { eapply Forall_impl; [exact Hl|]. intros l Hb. by apply proxy_label_chars. }
  apply split_on_chars in Hc. eapply Forall_impl; [exact Hc|]. intros c [-> | ->]; [done|].
  by rewrite !orb_true_r.
Qed.

Lemma normalized_host_canonical input h : normalized_host_parse input = Ok h -> canonical_host h.
Proof.
  unfold normalized_host_parse. destruct (_ || _ || _); [done|]. cbv zeta. destruct (_ || _) eqn:Hd; [done|].
  set (n := map to_ascii_lowercase (strip_dot input)) in *.
  destruct (_ || _ || _ || _ || _) eqn:Hb; [done|]. intros [= <-].
  rewrite !orb_false_iff, negb_false_iff in Hb. destruct Hb as ((((Hlen & Ha) & Hl) & Hip) & Hleg).
  apply orb_false_iff in Hd as [Hne%bool_decide_eq_false _].
  assert (Forall (fun l => proxy_label_bad l = false) (split_on 46 n)) as Hlab.
  { apply Forall_forall. intros l Hin. apply not_true_iff_false. intros Ht.
    assert (existsb proxy_label_bad (split_on 46 n) = true); [|congruence].
    apply existsb_exists. exists l. split; [by apply list_elem_of_In|done]. }
  pose proof (labels_chars _ Hlab) as Hch. split; try done.
  - unfold n. by destruct (strip_dot input).
  - apply lowercase_text_idem.
  - rewrite ascii_str_bytes in Hlen; [by apply Z.ltb_ge in Hlen|].
    eapply Forall_impl; [exact Hch|]. intros c Hc%host_char_range. lia.
Qed.

Lemma canonical_bounds h c : canonical_host h -> c ∈ h -> 45 <= c < 128.
Proof. intros [] Hc. rewrite Forall_forall in ch_chars0. by apply host_char_range, ch_chars0. Qed.

Lemma canonical_trim h : canonical_host h -> trim h = h.
Proof.
  intros Hc. assert (forall c, c ∈ h -> is_whitespace c = false) as Hw.
  { intros c Hin. pose proof (canonical_bounds _ _ Hc Hin). unfold is_whitespace. zdecide; done. }
  unfold trim. destruct h as [|c h]; [done|]. rewrite trim_start_id by (apply Hw; left).
  destruct (exists_last (l := c :: h)) as (l & d & E); [done|]. rewrite E. apply trim_end_id, Hw.
  rewrite E. apply elem_of_app. right. left.
Qed.

Lemma canonical_last h : canonical_host h -> last h <> Some 46.
Proof.
  intros [] Hl. destruct (exists_last ch_nonempty0) as (l & d & ->). rewrite last_snoc in Hl. injection Hl as ->.
  rewrite split_on_app in ch_labels0. apply Forall_app in ch_labels0 as [_ Hb]. cbn in Hb.
  apply Forall_inv in Hb. by apply proxy_label_chars in Hb as [? _].
Qed.

(** Canonical hosts are exactly the fixed points of the parser. *)
Lemma normalized_host_fixed h : normalized_host_parse h = Ok h <-> canonical_host h.
Proof.
  split; [by apply normalized_host_canonical|]. intros Hc. pose proof (canonical_last _ Hc) as Hl.
  pose proof (canonical_trim _ Hc) as Ht. pose proof (canonical_bounds h) as Hr. pose proof Hc as [].
  unfold normalized_host_parse. rewrite (bool_decide_eq_false_2 _ ch_nonempty0), (bool_decide_eq_true_2 _ Ht). cbn [negb orb].
  assert (existsb (fun c => is_control c || is_whitespace c || existsb (Z.eqb c) host_delimiters) h = false) as ->.
  { apply not_true_iff_false. rewrite existsb_exists. intros (c & Hin%list_elem_of_In & Hx).
    rewrite Forall_forall in ch_chars0. specialize (ch_chars0 _ Hin).
    change host_delimiters with [47; 58; 63; 35; 64; 91; 93; 92; 60; 62; 34] in Hx. cbn [existsb] in Hx.
    unfold is_control, is_whitespace, is_ascii_alphanumeric in *.
    rewrite !orb_true_iff, !andb_true_iff, !Z.leb_le, !Z.eqb_eq in *. lia. }
  assert (strip_dot h = h) as -> by (unfold strip_dot; destruct (last h) as [[|p|p]|]; try done;
    repeat (destruct p; try done)).
  rewrite (bool_decide_eq_false_2 _ ch_nonempty0), (bool_decide_eq_false_2 _ Hl). cbn [orb]. rewrite ch_lower0.
  rewrite ascii_str_bytes by (apply Forall_forall; intros c Hin; pose proof (Hr c Hc Hin); lia).
  destruct ch_not_address0 as [-> ->]. rewrite (proj2 (Z.ltb_ge _ _)) by done.
  assert (forallb (fun c => c <? 128) h = true) as ->.
  { apply forallb_forall. intros c Hin%list_elem_of_In. pose proof (Hr c Hc Hin). lia. }
  assert (existsb proxy_label_bad (split_on 46 h) = false) as ->; [|done].
  apply not_true_iff_false. rewrite existsb_exists. intros (l & Hin%list_elem_of_In & Hx).
  rewrite Forall_forall in ch_labels0. by rewrite (ch_labels0 _ Hin) in Hx.
Qed.

(** ** The scope *)

Lemma strip_suffix_Some suffix s l : strip_suffix suffix s = Some l <-> s = l ++ suffix.
Proof.
  unfold strip_suffix. split.
  - destruct (Nat.leb _ _) eqn:Hl; cbn [andb]; [|done]. case_bool_decide as Hd; [|done]. intros [= <-].
    rewrite <- Hd at 2. by rewrite take_drop.
  - intros ->. rewrite length_app. replace (length l + length suffix - length suffix)%nat with (length l) by lia.
    rewrite (proj2 (Nat.leb_le _ _)) by lia. cbn [andb]. by rewrite drop_app_length, take_app_length, bool_decide_eq_true_2.
Qed.

(** The scope is the subdomains of its root. A host is authorized exactly if it is
    a valid host whose canonical form is the root or ends in a dot and the root; what
    is returned is that canonical form, which is in lower case, made of bounded labels
    of letters, digits and inner hyphens, not an address even in legacy notation, and
    parses to itself. The root itself is one label. *)
Theorem scope_is_subdomains root scope candidate h :
  from_verified_hns_tld root = Ok scope ->
  (canonical_host (hs_root scope) /\ 46 ∉ hs_root scope) /\
  (scope_authorize scope candidate = Ok h <->
   normalized_host_parse candidate = Ok h /\ (h = hs_root scope \/ exists sub, h = sub ++ 46 :: hs_root scope)) /\
  (scope_authorize scope candidate = Ok h -> canonical_host h /\ normalized_host_parse h = Ok h).
Proof.
  unfold from_verified_hns_tld. destruct (normalized_host_parse root) as [r|] eqn:Hr; [|done].
  destruct (existsb _ _) eqn:Hd; [done|]. intros [= <-]. cbn [hs_root]. split.
  { split; [by eapply normalized_host_canonical|]. intros Hin. apply not_true_iff_false in Hd. apply Hd.
    apply existsb_exists. exists 46. by rewrite <- list_elem_of_In. }
  assert (scope_authorize {| hs_root := r |} candidate = Ok h <->
    normalized_host_parse candidate = Ok h /\ (h = r \/ exists sub, h = sub ++ 46 :: r)) as Hiff.
  { unfold scope_authorize. cbn [hs_root]. destruct (normalized_host_parse candidate) as [c|]; [|by split; [|intros []]].
    case_bool_decide as Hc; [split; [by intros [= <-]; eauto|by intros [[= <-] _]]|].
    destruct (strip_suffix r c) as [prefix|] eqn:Hs; cbn [ok_or].
    - apply strip_suffix_Some in Hs. case_bool_decide as Hl; cbn [negb].
      + split; [|by intros [[= <-] _]]. intros [= <-]. split; [done|]. right.
        destruct (exists_last (l := prefix)) as (l & d & ->); [by intros ->|]. rewrite last_snoc in Hl. injection Hl as ->.
        exists l. by rewrite Hs, <- app_assoc.
      + split; [done|]. intros [[= ->] [->|(sub & Hsub)]]; [done|]. exfalso. apply Hl. rewrite Hs in Hsub.
        assert (prefix = sub ++ [46]) as ->; [|by rewrite last_snoc].
        eapply (app_inv_tail r). by rewrite <- app_assoc.
    - split; [done|]. intros [[= ->] [->|(sub & ->)]]; [done|].
      assert (strip_suffix r (sub ++ 46 :: r) = Some (sub ++ [46])); [|congruence].
      apply strip_suffix_Some. by rewrite <- app_assoc. }
  split; [exact Hiff|]. rewrite Hiff. intros [Hp _]. pose proof (normalized_host_canonical _ _ Hp) as Hc.
  split; [done|]. by apply normalized_host_fixed.
Qed.

Lemma scope_is_subdomains_witness :
  exists scope, from_verified_hns_tld (text "a") = Ok scope /\
    scope_authorize scope (text "B.A.") = Ok (text "b.a") /\ canonical_host (hs_root scope).
Proof.
  destruct (from_verified_hns_tld (text "a")) as [scope|] eqn:E; [|vm_compute in E; discriminate].
  destruct (scope_is_subdomains (text "a") scope (text "B.A.") (text "b.a") E) as ([Hr _] & Hiff & _).
  exists scope. split; [reflexivity|]. split; [|exact Hr]. apply Hiff. vm_compute in E. injection E as <-.
  split; [vm_compute; reflexivity|]. right. exists (text "b"). vm_compute. reflexivity.
Defined.

(** ** The capability *)

Lemma alphabet_nodup : NoDup ALPHABET.
Proof. apply (bool_decide_unpack (NoDup ALPHABET)). by vm_compute. Qed.

Lemma base64_character_inj i j :
  0 <= i < 64 -> 0 <= j < 64 -> base64_character i = base64_character j -> i = j.
Proof.
  unfold base64_character. intros Hi Hj.
  assert (forall k, 0 <= k < 64 -> exists c, ALPHABET !! Z.to_nat k = Some c) as Hin.
  { intros k Hk. apply lookup_lt_is_Some. change (length ALPHABET) with 64%nat. lia. }
  destruct (Hin i Hi) as [c Ec], (Hin j Hj) as [d Ed]. rewrite Ec, Ed. cbn. intros ->.
  pose proof (NoDup_lookup _ _ _ _ alphabet_nodup Ec Ed). lia.
Qed.

Lemma base64_character_not_pad i : base64_character i <> 61.
Proof.
  unfold base64_character. destruct (ALPHABET !! Z.to_nat i) as [c|] eqn:E; [|done]. cbn. intros ->.
  apply list_elem_of_lookup_2 in E. revert E. apply (bool_decide_unpack (61 ∉ ALPHABET)). by vm_compute.
Qed.

(** The 24 bits of a chunk, by arithmetic. *)
Lemma chunk_value a b c : in_u8 a -> in_u8 b -> in_u8 c ->
  Z.lor (Z.lor (Z.shiftl a 16) (Z.shiftl b 8)) c = a * 65536 + b * 256 + c.
Proof.
  unfold in_u8, u8_max. intros Ha Hb Hc.
  assert (Z.lor (Z.shiftl a 16) (Z.shiftl b 8) = Z.shiftl (a * 256 + b) 8) as ->.
  { replace (a * 256 + b) with (a * 2 ^ 8 + b) by lia.
    rewrite <- (lor_shift 8 a b) by lia. by rewrite Z.shiftl_lor, Z.shiftl_shiftl by lia. }
  rewrite lor_shift by lia. lia.
Qed.

Lemma sextet v n : 0 <= n -> Z.land (Z.shiftr v n) 0x3f = v / 2 ^ n mod 64.
Proof. intros. change 0x3f with (Z.ones 6). by rewrite Z.land_ones, Z.shiftr_div_pow2 by lia. Qed.

Lemma sextet0 v : Z.land v 0x3f = v mod 64.
Proof. change 0x3f with (Z.ones 6). by rewrite Z.land_ones by lia. Qed.

(** The bytes of a chunk from its four sextets. *)
Lemma sextets_inj a b c a' b' c' :
  in_u8 a -> in_u8 b -> in_u8 c -> in_u8 a' -> in_u8 b' -> in_u8 c' ->
  (a * 65536 + b * 256 + c) / 2 ^ 18 mod 64 = (a' * 65536 + b' * 256 + c') / 2 ^ 18 mod 64 ->
  (a * 65536 + b * 256 + c) / 2 ^ 12 mod 64 = (a' * 65536 + b' * 256 + c') / 2 ^ 12 mod 64 ->
  a = a' /\
  ((a * 65536 + b * 256 + c) / 2 ^ 6 mod 64 = (a' * 65536 + b' * 256 + c') / 2 ^ 6 mod 64 -> b = b' /\
   ((a * 65536 + b * 256 + c) mod 64 = (a' * 65536 + b' * 256 + c') mod 64 -> c = c')).
Proof.
  unfold in_u8, u8_max. intros. change (2 ^ 18) with 262144 in *. change (2 ^ 12) with 4096 in *. change (2 ^ 6) with 64 in *.
  Z.to_euclidean_division_equations. lia.
Qed.

Lemma base64_chunk_inj a b c a' b' c' :
  in_u8 a -> in_u8 a' -> from_option in_u8 True b -> from_option in_u8 True b' ->
  from_option in_u8 True c -> from_option in_u8 True c' -> (b = None -> c = None) -> (b' = None -> c' = None) ->
  base64_chunk a b c = base64_chunk a' b' c' -> a = a' /\ b = b' /\ c = c'.
Proof.
  intros Ha Ha' Hb Hb' Hc Hc' Hn Hn'. unfold base64_chunk. cbv zeta.
  assert (forall x : option Z, from_option in_u8 True x -> in_u8 (default 0 x)) as Hd
    by (intros [x|]; [done|]; unfold in_u8, u8_max; cbn; lia).
  pose proof (Hd _ Hb) as Ub. pose proof (Hd _ Hb') as Ub'. pose proof (Hd _ Hc) as Uc. pose proof (Hd _ Hc') as Uc'.
  rewrite !chunk_value, !sextet, !sextet0 by (done || lia).
  assert (forall v, 0 <= v mod 64 < 64) as Hm by (intros; apply Z.mod_pos_bound; lia).
  intros E. injection E as E1 E2 E3 E4.
  apply base64_character_inj in E1; [|done..]. apply base64_character_inj in E2; [|done..].
  destruct (sextets_inj _ _ _ _ _ _ Ha Ub Uc Ha' Ub' Uc' E1 E2) as [-> Hbc]. split; [done|].
  destruct b as [b|], b' as [b'|];
    [|by apply base64_character_not_pad in E3|by apply eq_sym, base64_character_not_pad in E3|by rewrite Hn, Hn'].
  apply base64_character_inj in E3; [|done..]. destruct (Hbc E3) as [Eb Hcc]. cbn in Eb. subst b'. split; [done|].
  destruct c as [c|], c' as [c'|];
    [|by apply base64_character_not_pad in E4|by apply eq_sym, base64_character_not_pad in E4|done].
  apply base64_character_inj in E4; [|done..]. f_equal. by apply Hcc.
Qed.

Lemma base64_chunk_app a b c a' b' c' rest rest' :
  base64_chunk a b c ++ rest = base64_chunk a' b' c' ++ rest' ->
  base64_chunk a b c = base64_chunk a' b' c' /\ rest = rest'.
Proof. unfold base64_chunk. cbv zeta. cbn [app]. intros E. injection E as E1 E2 E3 E4 ->. split; [congruence|done]. Qed.

(** Three bytes at a time. *)
Lemma encode_base64_chunk l :
  l <> [] -> exists a b c rest, encode_base64 l = base64_chunk a b c ++ encode_base64 rest /\
    l = a :: option_list b ++ option_list c ++ rest /\ (b = None -> c = None) /\ (c = None -> rest = []).
Proof.
  destruct l as [|a [|b [|c l]]]; [done| | |]; intros _.
  - by exists a, None, None, [].
  - exists a, (Some b), None, []. by rewrite app_nil_r.
  - by exists a, (Some b), (Some c), l.
Qed.

Lemma encode_base64_inj l l' :
  Forall in_u8 l -> Forall in_u8 l' -> encode_base64 l = encode_base64 l' -> l = l'.
Proof.
  remember (length l) as n eqn:En. revert l l' En. induction (lt_wf n) as [n _ IH]. intros l l' -> Hl Hl' E.
  destruct l as [|x l0]; [destruct l' as [|? [|? [|? ?]]]; try done|].
  destruct l' as [|x' l0']; [by destruct l0 as [|? [|? ?]]|].
  destruct (encode_base64_chunk (x :: l0)) as (a & b & c & rest & E1 & Ec & Hb & Hr); [done|].
  destruct (encode_base64_chunk (x' :: l0')) as (a' & b' & c' & rest' & E1' & Ec' & Hb' & Hr'); [done|].
  rewrite E1, E1' in E. apply base64_chunk_app in E as [Hchunk Hrest].
  rewrite Ec in Hl |- *. rewrite Ec' in Hl' |- *. apply Forall_cons in Hl as [Ua Hl], Hl' as [Ua' Hl'].
  apply Forall_app in Hl as [Ub [Uc Hl]%Forall_app], Hl' as [Ub' [Uc' Hl']%Forall_app].
  assert (forall o : option Z, Forall in_u8 (option_list o) -> from_option in_u8 True o) as Ho
    by (intros [o|]; [by intros ?%Forall_inv|done]).
  destruct (base64_chunk_inj a b c a' b' c') as (-> & -> & ->); eauto. do 3 f_equal.
  eapply (IH (length rest)); [|done|done|done|done]. rewrite Ec. cbn. rewrite !length_app. lia.
Qed.

Lemma hex_digit_inj i j : 0 <= i < 16 -> 0 <= j < 16 ->
  default 48 (HEX !! Z.to_nat i) = default 48 (HEX !! Z.to_nat j) -> i = j.
Proof.
  intros Hi Hj. assert (NoDup HEX) as Hnd by (apply (bool_decide_unpack (NoDup HEX)); by vm_compute).
  assert (forall k, 0 <= k < 16 -> exists c, HEX !! Z.to_nat k = Some c) as Hin.
  { intros k Hk. apply lookup_lt_is_Some. change (length HEX) with 16%nat. lia. }
  destruct (Hin i Hi) as [c Ec], (Hin j Hj) as [d Ed]. rewrite Ec, Ed. cbn. intros ->.
  pose proof (NoDup_lookup _ _ _ _ Hnd Ec Ed). lia.
Qed.

Lemma append_hex_inj output l l' :
  Forall in_u8 l -> Forall in_u8 l' -> append_hex output l = append_hex output l' -> l = l'.
Proof.
  unfold append_hex. intros Hl Hl' E%app_inv_head. revert l' Hl' E.
  induction Hl as [|b l Hb _ IH]; intros [|b' l'] Hl' E; try done. apply Forall_cons in Hl' as [Hb' Hl'].
  cbn [map concat app] in E. injection E as E1 E2 E. unfold in_u8, u8_max in *.
  assert (forall x, 0 <= x <= 255 -> Z.shiftr x 4 = x / 16 /\ Z.land x 0x0f = x mod 16) as Hx.
  { intros x _. change 0x0f with (Z.ones 4). by rewrite Z.shiftr_div_pow2, Z.land_ones by lia. }
  destruct (Hx b Hb) as [X1 X2], (Hx b' Hb') as [Y1 Y2]. rewrite X1, Y1 in E1. rewrite X2, Y2 in E2.
  apply hex_digit_inj in E1; [|Z.to_euclidean_division_equations; lia..].
  apply hex_digit_inj in E2; [|Z.to_euclidean_division_equations; lia..].
  f_equal; [Z.to_euclidean_division_equations; lia|by apply IH].
Qed.

Definition blanks (l : list Z) : Prop := Forall (fun c => is_blank c = true) l.

Lemma trim_start_split p s :
  exists pre, s = pre ++ trim_start p s /\ Forall (fun c => p c = true) pre /\
    forall c, head (trim_start p s) = Some c -> p c = false.
Proof.
  induction s as [|c s (pre & E & Hp & Hh)]; [by exists []|]. cbn. destruct (p c) eqn:Hc.
  - exists (c :: pre). split; [by rewrite E at 1|]. split; [by constructor|done].
  - exists []. split_and!; [done|done|]. by intros ? [= <-].
Qed.

Lemma trim_end_split p s :
  exists post, s = trim_end p s ++ post /\ Forall (fun c => p c = true) post /\
    forall c, last (trim_end p s) = Some c -> p c = false.
Proof.
  unfold trim_end. destruct (trim_start_split p (reverse s)) as (pre & E & Hp & Hh).
  exists (reverse pre). split_and!.
  - rewrite <- reverse_app, <- E. by rewrite reverse_involutive.
  - by apply Forall_reverse.
  - intros c. rewrite last_reverse. apply Hh.
Qed.

Lemma trim_start_app p pre s : Forall (fun c => p c = true) pre -> trim_start p (pre ++ s) = trim_start p s.
Proof. induction 1 as [|c pre Hc _ IH]; [done|]. cbn. by rewrite Hc. Qed.
Lemma trim_start_head p s : (forall c, head s = Some c -> p c = false) -> trim_start p s = s.
Proof. destruct s as [|c s]; [done|]. intros H. cbn. by rewrite (H c). Qed.

Lemma trim_blanks_app before s after :
  blanks before -> blanks after -> (forall c, head s = Some c -> is_blank c = false) ->
  (forall c, last s = Some c -> is_blank c = false) -> trim_blanks (before ++ s ++ after) = s.
Proof.
  intros Hb Ha Hh Hl. destruct s as [|c s].
  { unfold trim_blanks. rewrite trim_start_app by done. cbn [app]. rewrite <- (app_nil_r after), trim_start_app by done. done. }
  unfold trim_blanks. rewrite trim_start_app by done. rewrite trim_start_head by (intros d [= <-]; by apply Hh).
  unfold trim_end. rewrite reverse_app, trim_start_app by (by apply Forall_reverse).
  rewrite trim_start_head; [by rewrite reverse_involutive|]. intros d. rewrite <- last_reverse, reverse_involutive. apply Hl.
Qed.

Lemma split_blank_iff s before after :
  split_blank s = Some (before, after) <->
  s = before ++ after /\ Forall (fun c => is_blank c = false) before /\ exists c, head after = Some c /\ is_blank c = true.
Proof.
  revert before. induction s as [|c s IH]; intros before; cbn.
  { split; [done|]. by intros (E%eq_sym%app_nil & _ & c & Hh & _); destruct E as [_ ->]. }
  destruct (is_blank c) eqn:Hc.
  - split; [intros [= <- <-]; eauto|]. intros (E & Hb & _). destruct before as [|b before]; [by rewrite E|].
    injection E as <- _. apply Forall_inv in Hb. by rewrite Hc in Hb.
  - rewrite fmap_Some. split.
    + intros ([b a] & Hs & [= -> ->]). apply IH in Hs as (-> & Hb & Ha). split_and!; [done|by constructor|done].
    + intros (E & Hb & Ha). destruct before as [|b before].
      { cbn in E. subst after. destruct Ha as (d & [= <-] & Hd). by rewrite Hc in Hd. }
      injection E as <- ->. apply Forall_cons in Hb as [_ Hb]. exists (before, after). split; [by apply IH|done].
Qed.

(** A Basic header: blanks, the scheme in any case, blanks, one token, blanks. *)
Record basic_header (value token : list Z) : Prop := {
  bh_form : exists before scheme between after, value = before ++ scheme ++ between ++ token ++ after /\
    blanks before /\ blanks between /\ blanks after /\ between <> [] /\ eq_ignore_ascii_case scheme BASIC = true;
  bh_token : token <> [] /\ Forall (fun c => is_control c = false /\ is_whitespace c = false) token }.

Lemma existsb_false_forall {A} (f : A -> bool) l : existsb f l = false <-> Forall (fun x => f x = false) l.
Proof.
  induction l as [|x l IH]; cbn; [by split|]. rewrite orb_false_iff, IH, Forall_cons. done.
Qed.

Lemma basic_letters scheme :
  eq_ignore_ascii_case scheme BASIC = true -> length scheme = 5%nat /\ Forall (fun c => 65 <= c <= 122) scheme.
Proof.
  unfold eq_ignore_ascii_case. rewrite bool_decide_eq_true. change (map to_ascii_lowercase BASIC) with [98; 97; 115; 105; 99].
  assert (forall c d, to_ascii_lowercase c = d -> 97 <= d <= 122 -> 65 <= c <= 122) as Hc.
  { unfold to_ascii_lowercase. intros c d <-. destruct (Z.leb_spec 65 c), (Z.leb_spec c 90); cbn; lia. }
  intros E. destruct scheme as [|c1 [|c2 [|c3 [|c4 [|c5 [|c6 s]]]]]]; try discriminate E.
  cbn [map] in E. injection E as E1 E2 E3 E4 E5. split; [done|].
  repeat constructor; (by eapply Hc; [eassumption|lia]).
Qed.

Lemma blank_control c : is_blank c = true -> is_control c && negb (is_blank c) = false.
Proof. intros ->. by rewrite andb_false_r. Qed.
Lemma letter_plain c : 65 <= c <= 122 -> is_blank c = false /\ is_control c = false.
Proof. intros. unfold is_blank, is_control. split; zdecide; done. Qed.
Lemma space_blank c : is_whitespace c = false -> is_blank c = false.
Proof.
  intros Hw. apply not_true_iff_false. unfold is_blank. rewrite orb_true_iff, !Z.eqb_eq. by intros [-> | ->].
Qed.

Lemma basic_token_iff value token : basic_token value = Some token <-> basic_header value token.
Proof.
  unfold basic_token. split.
  - destruct (existsb _ value) eqn:Hctl; [done|]. apply existsb_false_forall in Hctl. cbv zeta.
    destruct (trim_start_split is_blank value) as (before & E1 & Hb & _).
    destruct (trim_end_split is_blank (trim_start is_blank value)) as (after & E2 & Ha & Hlast).
    fold (trim_blanks value) in E2, Hlast. rewrite E2 in E1.
    destruct (split_blank _) as [[scheme remainder]|] eqn:Hs; [|done]. apply split_blank_iff in Hs as (E3 & _ & d & Hd & Hblank).
    cbn [mbind option_bind]. destruct (eq_ignore_ascii_case scheme BASIC) eqn:Hbasic; cbn [negb]; [|done].
    destruct (trim_start_split is_blank remainder) as (between & E4 & Hbt & Hh).
    case_bool_decide as Hne; cbn [orb]; [done|]. destruct (existsb _ _) eqn:Hw; [done|]. intros [= <-].
    apply existsb_false_forall in Hw. split.
    + exists before, scheme, between, after. split; [|split_and!; try done].
      * rewrite E1, E3. rewrite E4 at 1. by rewrite <- !app_assoc.
      * intros ->. cbn [app] in E4. rewrite <- E4 in Hh. by rewrite (Hh _ Hd) in Hblank.
    + split; [done|]. apply Forall_forall. intros c Hin. rewrite Forall_forall in Hw. specialize (Hw _ Hin).
      split; [|done]. rewrite Forall_forall in Hctl. specialize (Hctl c).
      rewrite (space_blank _ Hw), andb_true_r in Hctl. apply Hctl. rewrite E1, E3, E4. set_solver.
  - intros [(before & scheme & between & after & -> & Hb & Hbt & Ha & Hne & Hs) [Htne Ht]].
    destruct (basic_letters _ Hs) as [Hlen Hlet].
    assert (Forall (fun c => is_blank c = false) token) as Htb
      by (eapply Forall_impl; [exact Ht|]; intros c [_ ?]; by apply space_blank).
    assert (Forall (fun c => is_blank c = false) scheme) as Hsb
      by (eapply Forall_impl; [exact Hlet|]; intros c ?; by apply letter_plain).
    assert (existsb (fun c => is_control c && negb (is_blank c)) (before ++ scheme ++ between ++ token ++ after) = false) as ->.
    { apply existsb_false_forall. rewrite !Forall_app. split_and!.
      1,3,5: eapply Forall_impl; [eassumption|]; intros c; apply blank_control.
      - eapply Forall_impl; [exact Hlet|]. intros c ?. by destruct (letter_plain c) as [_ ->].
      - eapply Forall_impl; [exact Ht|]. by intros c [-> _]. }
    assert (trim_blanks (before ++ scheme ++ between ++ token ++ after) = scheme ++ between ++ token) as ->.
    { replace (scheme ++ between ++ token ++ after) with ((scheme ++ between ++ token) ++ after) by (by rewrite <- !app_assoc).
      apply trim_blanks_app; try done.
      - destruct scheme as [|c scheme]; [done|]. intros d [= <-]. by apply Forall_inv in Hsb.
      - intros d. destruct (exists_last Htne) as (l & e & ->). rewrite !app_assoc, last_snoc. intros [= <-].
        rewrite Forall_app in Htb. by apply proj2, Forall_inv in Htb. }
    assert (split_blank (scheme ++ between ++ token) = Some (scheme, between ++ token)) as ->.
    { apply split_blank_iff. split_and!; [done|done|]. destruct between as [|c between]; [done|].
      exists c. split; [done|]. by apply Forall_inv in Hbt. }
    cbn [mbind option_bind]. rewrite Hs. cbn [negb]. rewrite trim_start_app by done.
    rewrite trim_start_head by (destruct token as [|c token]; [done|]; intros d [= <-]; by apply Forall_inv in Htb).
    rewrite (bool_decide_eq_false_2 _ Htne). cbn [orb].
    assert (existsb is_whitespace token = false) as ->; [|done].
    apply existsb_false_forall. eapply Forall_impl; [exact Ht|]. by intros c [_ ?].
Qed.

(** A text whose bytes are ASCII is its bytes. *)
Lemma str_bytes_ascii s b : str_bytes s = b -> Forall (fun c => c < 128) b -> s = b.
Proof.
  intros <- Hb. symmetry. apply ascii_str_bytes. unfold str_bytes in Hb. induction s as [|c s IH]; [constructor|].
  cbn [map concat] in Hb. apply Forall_app in Hb as [Hc Hs]. constructor; [|by apply IH].
  unfold utf8 in Hc. destruct (c <? 0x80) eqn:E; [by apply Z.ltb_lt in E|]. apply Z.ltb_ge in E. exfalso.
  destruct (c <? 0x800); [|destruct (c <? 0x10000)]; apply Forall_inv in Hc;
    match type of Hc with ?k + ?q < _ => assert (0 <= q) by (apply Z.div_pos; lia) end; lia.
Qed.

Lemma base64_ascii l : Forall (fun c => 43 <= c < 127) (encode_base64 l).
Proof.
  assert (forall i, 43 <= base64_character i < 127) as Hc.
  { intros i. unfold base64_character. destruct (ALPHABET !! Z.to_nat i) as [c|] eqn:E; [|cbn; lia].
    apply list_elem_of_lookup_2 in E. cbn.
    assert (Forall (fun c => 43 <= c < 127) ALPHABET) as Hall by (apply (bool_decide_unpack (Forall _ ALPHABET)); by vm_compute).
    rewrite Forall_forall in Hall. by apply Hall. }
  remember (length l) as n eqn:En. revert l En. induction (lt_wf n) as [n _ IH]. intros l ->.
  destruct l as [|x l0]; [constructor|].
  destruct (encode_base64_chunk (x :: l0)) as (a & b & c & rest & -> & Ec & _); [done|]. apply Forall_app. split.
  - unfold base64_chunk. cbv zeta. repeat constructor; try apply Hc; destruct b, c; try apply Hc; lia.
  - eapply IH; [|done]. rewrite Ec. cbn. rewrite !length_app. lia.
Qed.

Lemma credentials_u8 l : Forall in_u8 (append_hex (text "hns-browser:") l).
Proof.
  unfold append_hex. apply Forall_app. split.
  { apply (bool_decide_unpack (Forall in_u8 (text "hns-browser:"))). by vm_compute. }
  assert (forall i, in_u8 (default 48 (HEX !! i))) as Hd.
  { intros i. assert (Forall in_u8 HEX) as Hall by (apply (bool_decide_unpack (Forall in_u8 HEX)); by vm_compute).
    destruct (HEX !! i) as [c|] eqn:E; [|cbn; unfold in_u8, u8_max; lia]. rewrite Forall_forall in Hall.
    by apply Hall, (list_elem_of_lookup_2 _ i). }
  induction l as [|x l IH]; [constructor|]. cbn [map concat app]. constructor; [apply Hd|]. constructor; [apply Hd|exact IH].
Qed.

(** Only the capability opens the proxy. A request authenticates exactly with one
    Basic header, in any case and blanks, whose token is the base64 of the user name
    and the capability in hex; and the header of another capability never does. *)
Theorem capability_exact nonce capability values :
  Forall in_u8 capability ->
  (verify_header_values (from_capability nonce capability) values = true <->
   exists value, values = [value] /\
     basic_header value (encode_base64 (append_hex (text "hns-browser:") capability))) /\
  forall nonce' capability', Forall in_u8 capability' ->
    verify_header_values (from_capability nonce capability)
      [proxy_authorization_header_value (from_capability nonce' capability')] = true <-> capability' = capability.
Proof.
  intros Hcap.
  assert (forall n c values, verify_header_values (from_capability n c) values = true <->
    exists value, values = [value] /\ basic_header value (encode_base64 (append_hex (text "hns-browser:") c))) as Hiff.
  { intros n c vs. unfold verify_header_values. cbn [from_capability pz_expected_token].
    change (PROXY_USERNAME ++ [58]) with (text "hns-browser:").
    pose proof (base64_ascii (append_hex (text "hns-browser:") c)) as Hasc.
    set (token := encode_base64 _) in *.
    assert (Forall (fun c => c < 128) token) as Hlt by (eapply Forall_impl; [exact Hasc|]; cbn; intros; lia).
    destruct vs as [|v [|w vs]]; [by split; [|intros (? & ? & _)]| |by split; [|intros (? & ? & _)]].
    destruct (basic_token v) as [t|] eqn:Et.
    - split.
      + rewrite andb_true_iff, bool_decide_eq_true. intros [_ Hb]. exists v. split; [done|].
        apply basic_token_iff. rewrite Et. f_equal. by apply str_bytes_ascii.
      + intros (v' & [= <-] & Hb%basic_token_iff). rewrite Et in Hb. injection Hb as ->.
        by rewrite ascii_str_bytes, Z.eqb_refl, bool_decide_eq_true_2.
    - split; [done|]. intros (v' & [= <-] & Hb%basic_token_iff). by rewrite Et in Hb. }
  split; [apply Hiff|]. intros n' c' Hc'. rewrite Hiff. unfold proxy_authorization_header_value.
  cbn [from_capability pz_expected_token]. change (PROXY_USERNAME ++ [58]) with (text "hns-browser:").
  assert (forall c, basic_header (BASIC ++ [32] ++ encode_base64 (append_hex (text "hns-browser:") c))
    (encode_base64 (append_hex (text "hns-browser:") c))) as Hself.
  { intros c. split.
    - exists [], BASIC, [32], []. rewrite app_nil_r. split_and!; try done; by repeat constructor.
    - split; [done|]. eapply Forall_impl; [apply base64_ascii|]. intros d Hd.
      unfold is_control, is_whitespace. split; zdecide; done. }
  split; [|by intros ->; eauto]. intros (v & Hv & Hb).
  assert (v = BASIC ++ [32] ++ encode_base64 (append_hex (text "hns-browser:") c')) as -> by congruence.
  apply basic_token_iff in Hb. rewrite (proj2 (basic_token_iff _ _) (Hself c')) in Hb. apply (inj Some) in Hb.
  apply encode_base64_inj in Hb; [|apply credentials_u8..]. by apply append_hex_inj in Hb.
Qed.

Lemma capability_exact_witness :
  verify_header_values (from_capability (repeat 7 16) (repeat 255 32))
    [proxy_authorization_header_value (from_capability (repeat 9 16) (repeat 255 32))] = true /\
  verify_header_values (from_capability (repeat 7 16) (repeat 255 32))
    [proxy_authorization_header_value (from_capability (repeat 7 16) (repeat 254 32))] <> true.
Proof.
  assert (H1 : Forall in_u8 (repeat 255 32)) by (apply (bool_decide_unpack (Forall in_u8 (repeat 255 32))); by vm_compute).
  assert (H2 : Forall in_u8 (repeat 254 32)) by (apply (bool_decide_unpack (Forall in_u8 (repeat 254 32))); by vm_compute).
  split.
  - apply (proj2 (capability_exact (repeat 7 16) (repeat 255 32) [] H1)); [exact H1|reflexivity].
  - intros E. apply (proj2 (capability_exact (repeat 7 16) (repeat 255 32) [] H1)) in E; [discriminate E|exact H2].
Defined.

(** ** The head *)

(** A field as its line carries it, and the text of a head. *)
Definition field_line (f : list Z * list Z) : list Z := fst f ++ 58 :: snd f.
Definition head_text (target : list Z) (fields : list (list Z * list Z)) : list Z :=
  CONNECT ++ 32 :: target ++ 32 :: HTTP_1_1 ++ concat (map (fun f => CRLF ++ field_line f) fields) ++ CRLF ++ CRLF.

(** The values of the fields of a name, in order. *)
Definition values_of (name : list Z) (fields : list (list Z * list Z)) : list (list Z) :=
  map (fun f => trim_blanks (snd f)) (List.filter (fun f => eq_ignore_ascii_case (fst f) name) fields).

(** A field no reader takes for a body, another protocol, or a line of its own. *)
Record plain_field (f : list Z * list Z) : Prop := {
  pf_name : fst f <> [] /\
    Forall (fun b => is_ascii_alphanumeric b || existsb (Z.eqb b) token_punctuation = true) (str_bytes (fst f));
  pf_value : trim_blanks (snd f) <> [] /\ Forall (fun c => is_control c = true -> c = 9) (snd f);
  pf_no_body : existsb (eq_ignore_ascii_case (fst f)) body_fields = false;
  pf_no_upgrade : existsb (eq_ignore_ascii_case (fst f)) connection_fields = true ->
    Forall (fun token => eq_ignore_ascii_case (trim token) H_UPGRADE = false) (split_on 44 (trim_blanks (snd f))) }.

Lemma split_crlf_cons c s :
  (c = 13 /\ exists s', s = 10 :: s' /\ split_crlf (c :: s) = [] :: split_crlf s')
  \/ split_crlf (c :: s) = match split_crlf s with first :: others => (c :: first) :: others | [] => [[c]] end.
Proof.
  destruct (decide (c = 13)) as [->|Hc].
  - destruct s as [|d s]; [by right|]. destruct (decide (d = 10)) as [->|Hd]; [left; eauto|right].
    destruct d as [|d|d]; try done. repeat (destruct d as [d|d|]; try done).
  - right. destruct c as [|c|c]; try done. repeat (destruct c as [c|c|]; try done).
Qed.

Lemma split_crlf_spec s : exists first rest, split_crlf s = first :: rest /\ s = first ++ concat (map (app CRLF) rest).
Proof.
  remember (length s) as n eqn:En. revert s En. induction (lt_wf n) as [n _ IH]. intros s ->.
  destruct s as [|c s]; [by exists [], []|]. destruct (split_crlf_cons c s) as [(-> & s' & -> & E)|E]; rewrite E.
  - destruct (IH (length s') ltac:(cbn; lia) s' eq_refl) as (f & r & -> & H). exists [], (f :: r). split; [done|].
    cbn. by rewrite H at 1.
  - destruct (IH (length s) ltac:(cbn; lia) s eq_refl) as (f & r & -> & H). exists (c :: f), r. split; [done|].
    cbn. by rewrite H at 1.
Qed.

Lemma split_crlf_join s first rest :
  split_crlf s = first :: rest -> s = first ++ concat (map (app CRLF) rest).
Proof. destruct (split_crlf_spec s) as (f & r & -> & ->). by intros [= <- <-]. Qed.

Lemma split_once_Some sep s before after : split_once sep s = Some (before, after) -> s = before ++ sep :: after.
Proof.
  revert before. induction s as [|c s IH]; intros before; cbn; [done|]. destruct (Z.eqb_spec c sep) as [->|].
  - by intros [= <- <-].
  - intros ([b a] & Hs & E)%fmap_Some. injection E as -> ->. cbn. by rewrite (IH b Hs) at 1.
Qed.

Lemma split_on_join3 sep s a b c : split_on sep s = [a; b; c] -> s = a ++ sep :: b ++ sep :: c.
Proof.
  assert (forall s l r, split_on sep s = l :: r -> s = l ++ concat (map (cons sep) r)) as Hj.
  { clear. induction s as [|x s IH]; intros l r; cbn; [by intros [= <- <-]|].
    pose proof (split_on_nil sep s) as Hn. destruct (Z.eqb_spec x sep) as [->|].
    - intros [= <- <-]. destruct (split_on sep s) as [|f r]; [done|]. cbn. by rewrite <- (IH f r).
    - destruct (split_on sep s) as [|f r']; [done|]. intros [= <- <-]. cbn. by rewrite <- (IH f r'). }
  intros H%Hj. rewrite H. cbn. by rewrite app_nil_r.
Qed.

Lemma request_target_ok line target :
  request_target line = Ok target -> line = CONNECT ++ 32 :: target ++ 32 :: HTTP_1_1 /\ target <> [].
Proof.
  unfold request_target. destruct (existsb _ line); [done|]. destruct (split_on 32 line) as [|m [|t [|v [|]]]] eqn:E; try done.
  apply split_on_join3 in E. destruct (_ || _ || _) eqn:Hb; [done|]. intros [= <-].
  rewrite !orb_false_iff, !negb_false_iff, !bool_decide_eq_true, bool_decide_eq_false in Hb.
  by destruct Hb as [[-> ->] ?].
Qed.

Lemma parse_u16_bound digits v : parse_u16 digits = Some v -> 0 <= v <= u16_max.
Proof.
  unfold parse_u16. cbv zeta. set (ds := match digits with 43 :: ((_ :: _) as rest) => rest | _ => digits end).
  destruct (_ || _) eqn:Hb; [done|]. apply orb_false_iff in Hb as [_ Hd%negb_false_iff].
  case_match eqn:Hle; [|done]. intros [= <-]. apply Z.leb_le in Hle. split; [|done].
  assert (forall l x, 0 <= x -> forallb (fun c => (48 <=? c) && (c <=? 57)) l = true ->
    0 <= fold_left (fun v c => v * 10 + (c - 48)) l x) as Hf; [|by apply Hf].
  clear. induction l as [|c l IH]; intros x Hx; cbn; [done|]. rewrite !andb_true_iff, !Z.leb_le. intros [Hc Hl].
  apply IH; [lia|done].
Qed.

Lemma parse_authority_ok input host port :
  parse_authority input = Ok (host, port) -> canonical_host host /\ 1 <= port <= u16_max.
Proof.
  unfold parse_authority. destruct (rsplit_once 58 input) as [[h t]|]; cbn [ok_or]; [|done].
  destruct (_ || _ || _ || _); [done|]. destruct (parse_u16 t) as [p|] eqn:Hp; cbn [ok_or]; [|done].
  destruct (Z.eqb_spec p 0); [done|]. destruct (normalized_host_parse h) as [c|] eqn:Hc; [|done]. intros [= <- <-].
  split; [by eapply normalized_host_canonical|]. apply parse_u16_bound in Hp. lia.
Qed.

(** A name that is one of two fixed names is none of the others. *)
Lemma eq_ignore_trans a b c : eq_ignore_ascii_case a b = true -> eq_ignore_ascii_case a c = eq_ignore_ascii_case b c.
Proof. unfold eq_ignore_ascii_case. intros H%bool_decide_eq_true. by rewrite H. Qed.

Lemma named_elsewhere name known others :
  eq_ignore_ascii_case name known = true -> existsb (eq_ignore_ascii_case known) others = false ->
  existsb (eq_ignore_ascii_case name) others = false.
Proof.
  intros Hn Hk. apply existsb_false_forall in Hk. apply existsb_false_forall. eapply Forall_impl; [exact Hk|].
  intros o Ho. by rewrite (eq_ignore_trans _ _ _ Hn).
Qed.

Lemma plain_value raw :
  Forall (fun c => is_control c && negb (c =? 9) = false) (trim_blanks raw) -> Forall (fun c => is_control c = true -> c = 9) raw.
Proof.
  intros Hv. destruct (trim_start_split is_blank raw) as (pre & E1 & Hpre & _).
  destruct (trim_end_split is_blank (trim_start is_blank raw)) as (post & E2 & Hpost & _).
  rewrite E1, E2, !Forall_app.
  assert (forall c, is_blank c = true -> is_control c = true -> c = 9) as Hb.
  { unfold is_blank, is_control. intros c. rewrite !orb_true_iff, !andb_true_iff, !Z.eqb_eq, !Z.leb_le. lia. }
  split_and!; (eapply Forall_impl; [eassumption|]; intros c Hc; cbn beta in Hc).
  - by apply Hb.
  - intros Hctl. rewrite Hctl in Hc. cbn [andb] in Hc. by apply negb_false_iff, Z.eqb_eq in Hc.
  - by apply Hb.
Qed.

Lemma field_step_ok limits count acc line acc' :
  field_step limits count acc line = Ok acc' ->
  count <= maximum_headers limits /\ exists f, line = field_line f /\ plain_field f /\
    acc' = (fst acc ++ values_of H_HOST [f], snd acc ++ map str_bytes (values_of PROXY_AUTHORIZATION_HEADER [f])).
Proof.
  unfold field_step. destruct (_ || _ || _) eqn:H0; [done|].
  rewrite !orb_false_iff in H0. destruct H0 as [[Hc%Z.ltb_ge _] _].
  destruct (split_once 58 line) as [[name raw]|] eqn:Hs; cbn [ok_or]; [|done]. apply split_once_Some in Hs.
  destruct (_ || _) eqn:H1; [done|].
  apply orb_false_iff in H1 as [Hn%bool_decide_eq_false Ht%negb_false_iff]. cbv zeta.
  destruct (_ || _) eqn:H2; [done|].
  apply orb_false_iff in H2 as [Hv%bool_decide_eq_false Hctl%existsb_false_forall].
  intros Hend. split; [done|]. exists (name, raw). split; [done|]. unfold values_of. cbn [List.filter fst snd].
  assert (existsb (eq_ignore_ascii_case name) body_fields = false /\
    (existsb (eq_ignore_ascii_case name) connection_fields = true ->
       Forall (fun token => eq_ignore_ascii_case (trim token) H_UPGRADE = false) (split_on 44 (trim_blanks raw))) /\
    acc' = (fst acc ++ map (fun f => trim_blanks (snd f)) (if eq_ignore_ascii_case name H_HOST then [(name, raw)] else []),
            snd acc ++ map str_bytes (map (fun f => trim_blanks (snd f))
              (if eq_ignore_ascii_case name PROXY_AUTHORIZATION_HEADER then [(name, raw)] else [])))) as (Hb & Hu & Hacc).
  { destruct (eq_ignore_ascii_case name H_HOST) eqn:Eh.
    - injection Hend as <-. rewrite !(named_elsewhere name H_HOST) by (done || vm_compute; reflexivity).
      rewrite (eq_ignore_trans _ _ PROXY_AUTHORIZATION_HEADER Eh). change (eq_ignore_ascii_case H_HOST PROXY_AUTHORIZATION_HEADER) with false.
      split_and!; [done|done|]. cbn. by rewrite app_nil_r.
    - destruct (eq_ignore_ascii_case name PROXY_AUTHORIZATION_HEADER) eqn:Ea.
      + injection Hend as <-. rewrite !(named_elsewhere name PROXY_AUTHORIZATION_HEADER) by (done || vm_compute; reflexivity).
        split_and!; [done|done|]. cbn. by rewrite app_nil_r.
      + destruct (existsb (eq_ignore_ascii_case name) body_fields); cbn [orb] in Hend; [done|].
        destruct (_ && _) eqn:E; [done|]. injection Hend as <-. split_and!; [done| |].
        * intros Hconn. rewrite Hconn in E. by apply existsb_false_forall in E.
        * cbn. rewrite !app_nil_r. by destruct acc. }
  split; [|done]. split; cbn [fst snd]; [|split; [done|by apply plain_value]|done|done].
  split; [done|]. apply Forall_forall. intros b Hin%list_elem_of_In.
  by rewrite forallb_forall in Ht; apply Ht.
Qed.

Lemma zlen_singleton {A} (l : list A) : zlen l = 1 -> exists x, l = [x].
Proof. unfold zlen. destruct l as [|x [|y l]]; cbn [length]; [lia|eauto|lia]. Qed.

Lemma values_of_cons name f fields : values_of name (f :: fields) = values_of name [f] ++ values_of name fields.
Proof. unfold values_of. cbn [List.filter]. by destruct (eq_ignore_ascii_case (fst f) name). Qed.

Lemma fields_loop_ok limits lines : forall count acc acc',
  fields_loop limits count acc lines = Ok acc' ->
  count + zlen lines <= Z.max count (maximum_headers limits) /\ exists fields, lines = map field_line fields /\ Forall plain_field fields /\
    acc' = (fst acc ++ values_of H_HOST fields, snd acc ++ map str_bytes (values_of PROXY_AUTHORIZATION_HEADER fields)).
Proof.
  induction lines as [|line lines IH]; intros count acc acc' H; cbn [fields_loop] in H.
  { injection H as <-. split; [unfold zlen; cbn [length]; lia|]. exists []. cbn. rewrite !app_nil_r. by destruct acc. }
  destruct (field_step _ _ acc line) as [acc1|] eqn:Hs; [|done]. apply field_step_ok in Hs as (Hc & f & -> & Hf & ->).
  destruct (IH _ _ _ H) as (Hl & fields & -> & Hfs & ->). split; [rewrite zlen_cons; pose proof (zlen_nonneg (map field_line fields)); lia|].
  exists (f :: fields). split_and!; [done|by constructor|]. cbn [fst snd].
  rewrite !(values_of_cons _ f fields), map_app. by rewrite !app_assoc.
Qed.

(** An accepted head is what it reads as. Its text is, character for character, the
    CONNECT line of its target and lines of fields, within the limits, so nothing is
    left for another reader to find; every field has a token for a name and a value
    without control characters, none announces a body or an upgrade, one Host field
    agrees with the target's host and port, and the authorizations are the values of
    the one Proxy-Authorization field. The host is canonical, the port is not zero. *)
Theorem connect_head_sound input limits pc :
  parse_connect_head input limits = Ok pc ->
  zlen input <= maximum_head_bytes limits /\ canonical_host (pc_host pc) /\ 1 <= pc_port pc <= u16_max /\
  exists target fields host_value authorization,
    utf8_decode input = Some (head_text target fields) /\
    zlen fields <= Z.max 0 (maximum_headers limits) /\ Forall plain_field fields /\
    parse_authority target = Ok (pc_host pc, pc_port pc) /\
    values_of H_HOST fields = [host_value] /\ parse_authority host_value = Ok (pc_host pc, pc_port pc) /\
    values_of PROXY_AUTHORIZATION_HEADER fields = [authorization] /\ pc_authorization pc = [str_bytes authorization].
Proof.
  unfold parse_connect_head, head_bytes_bad. destruct (_ || _ || _) eqn:Hb; [done|].
  rewrite !orb_false_iff in Hb. destruct Hb as [[Hlen%Z.ltb_ge _] _].
  destruct (utf8_decode input) as [request|]; cbn [ok_or]; [|done]. destruct (bare_line_feed input); [done|].
  destruct (strip_suffix _ request) as [body|] eqn:Hs; cbn [ok_or]; [|done]. apply strip_suffix_Some in Hs as ->.
  destruct (split_crlf body) as [|line lines] eqn:Hl; [done|]. apply split_crlf_join in Hl as ->.
  destruct (request_target line) as [target|] eqn:Ht; [|done]. apply request_target_ok in Ht as [-> _].
  destruct (parse_authority target) as [[host port]|] eqn:Hp; [|done].
  destruct (fields_loop _ _ _ lines) as [[hosts auths]|] eqn:Hf; [|done].
  apply fields_loop_ok in Hf as (Hcount & fields & -> & Hplain & [= -> ->]). cbn [fst snd app].
  destruct (_ || _) eqn:Hone; [done|]. rewrite orb_false_iff, !negb_false_iff, !Z.eqb_eq in Hone. destruct Hone as [H1 H2].
  apply zlen_singleton in H1 as [host_value Eh].
  assert (exists authorization, values_of PROXY_AUTHORIZATION_HEADER fields = [authorization]) as [authorization Ea].
  { apply zlen_singleton. unfold zlen in *. by rewrite length_map in H2. }
  rewrite Eh, Ea.
  cbn [head ok_or map]. destruct (parse_authority host_value) as [[host' port']|] eqn:Hp'; [|done].
  destruct (_ || _) eqn:Hag; [done|]. apply orb_false_iff in Hag as [Hh%negb_false_iff Hpt%negb_false_iff].
  apply bool_decide_eq_true in Hh as ->. apply Z.eqb_eq in Hpt as ->. intros [= <-]. cbn [pc_host pc_port pc_authorization].
  destruct (parse_authority_ok _ _ _ Hp) as [Hcanon Hport]. split_and!; [done|done|lia|lia|].
  exists target, fields, host_value, authorization. split_and!; try done.
  - f_equal. unfold head_text. rewrite map_map. repeat (rewrite <- !app_assoc || cbn [app]). done.
  - revert Hcount. unfold zlen. rewrite length_map. lia.
Qed.

Definition sample_connect : list Z :=
  text "CONNECT www.example:443 HTTP/1.1" ++ CRLF ++ text "Host: WWW.Example:443" ++ CRLF
  ++ text "Proxy-Authorization: Basic eA==" ++ CRLF ++ text "Accept: */*" ++ CRLF ++ CRLF.

Lemma connect_head_sound_witness :
  exists pc, parse_connect_head sample_connect proxy_limits_default = Ok pc /\ canonical_host (pc_host pc) /\
    pc_host pc = text "www.example" /\ pc_authorization pc = [text "Basic eA=="].
Proof.
  destruct (parse_connect_head sample_connect proxy_limits_default) as [pc|] eqn:E; [|vm_compute in E; discriminate].
  pose proof (connect_head_sound _ _ _ E) as (_ & Hc & _). exists pc. split; [reflexivity|]. split; [exact Hc|].
  vm_compute in E. injection E as <-. split; vm_compute; reflexivity.
Defined.
