(* ===== verification/Proxy.v ===== *)
(** * Loopback proxy: admission and publication state

    Models the session of [src/crates/hns-loopback-proxy/src/lib.rs]: pending CONNECT
    requests, the registry of published provider authorities, tunnel grants and
    their revalidation. A method is a function of the session and of the engine,
    whose state stands still for one call (the source reads it behind the engine's
    own lock up to once per publication). An argument the source consumes is an
    argument here: that it is not used twice is what its type says there. Reading
    the engine fails only when its lock is poisoned, which no modelled method does. *)

From Stdlib Require String.
From S2P Require Import Prelude Text Policy Runtime Engine.
From S2P Require Import NsTypes NsService NsPlan NsDecision Provider ProxyHead.
Import Stdlib.Strings.String.StringSyntax.

#[export] Instance OriginScheme_countable : Countable OriginScheme.
Proof.
  refine (inj_countable' scheme_tag (fun n => match n with 1 => Http | 2 => Https | 3 => Ws | _ => Wss end) _).
  by intros [].
Defined.
#[export] Instance LogicalOrigin_countable : Countable LogicalOrigin.
Proof.
  refine (inj_countable' (fun o => (lo_scheme o, lo_host o, lo_port o))
    (fun '(s, h, p) => {| lo_scheme := s; lo_host := h; lo_port := p |}) _).
  by intros [].
Defined.

(** ** State *)

Record ProxyConfig := {
  px_endpoint : LoopbackEndpoint; px_identity : ProxyInstanceIdentity; px_runtime_session : list Z;
  px_runtime_generation : Z; px_scope : HostScope; px_authorization : ProxyAuthorization; px_limits : ProxyLimits }.
Definition proxy_config_new (endpoint : LoopbackEndpoint) (identity : ProxyInstanceIdentity)
    (runtime_session : list Z) (runtime_generation : Z) (scope : HostScope) (authorization : ProxyAuthorization)
    (limits : ProxyLimits) : result ProxyError ProxyConfig :=
  if bool_decide (runtime_session = repeat 0 16) then Err ZeroRuntimeSession else
  if runtime_generation =? 0 then Err ZeroRuntimeGeneration else
  let? limits := proxy_limits_validate limits in
  Ok {| px_endpoint := endpoint; px_identity := identity; px_runtime_session := runtime_session;
        px_runtime_generation := runtime_generation; px_scope := scope; px_authorization := authorization;
        px_limits := limits |}.

Record PendingRecord := { pr_host : list Z; pr_port : Z; pr_admitted_at : Z; pr_expires_at : Z }.
#[export] Instance PendingRecord_eq_dec : EqDecision PendingRecord.
Proof. solve_decision. Defined.
Record PendingConnect := {
  pq_instance_id : Z; pq_sequence : Z; pq_host : list Z; pq_port : Z; pq_admitted_at : Z; pq_expires_at : Z }.

Record PublicationRecord := {
  pb_publication_id : Z; pb_publication_generation : Z; pb_selected_namespace : Namespace;
  pb_authenticated_context : AuthenticatedContextStatus; pb_hns_network : HnsNetwork; pb_service_port : Z;
  pb_tls_policy : TlsTrustPolicy; pb_runtime_session : list Z; pb_runtime_generation : Z;
  pb_policy_generation : Z; pb_event_sequence : Z; pb_decision_fingerprint : list Z;
  pb_authority_valid_from : Z; pb_authority_valid_until : Z; pb_published_at : Z;
  pb_publication_valid_until : Z; pb_endpoint : LoopbackEndpoint; pb_process_session : list Z;
  pb_process_generation : Z; pb_listener_generation : Z; pb_authority : ProviderAuthorityContext }.

Record PublishedAdmission := {
  pm_instance_id : Z; pm_logical_origin : LogicalOrigin; pm_publication_id : Z; pm_publication_generation : Z;
  pm_registry_generation : Z; pm_endpoint : LoopbackEndpoint; pm_process_session : list Z;
  pm_process_generation : Z; pm_listener_generation : Z }.

Record TunnelGrant := {
  tg_instance_id : Z; tg_logical_origin : LogicalOrigin; tg_selected_namespace : Namespace;
  tg_authenticated_context : AuthenticatedContextStatus; tg_hns_network : HnsNetwork; tg_service_port : Z;
  tg_tls_policy : TlsTrustPolicy; tg_runtime_session : list Z; tg_runtime_generation : Z;
  tg_policy_generation : Z; tg_event_sequence : Z; tg_decision_fingerprint : list Z;
  tg_authority_valid_from : Z; tg_authority_valid_until : Z; tg_endpoint : LoopbackEndpoint;
  tg_process_session : list Z; tg_process_generation : Z; tg_listener_generation : Z;
  tg_registry_generation : Z; tg_publication_id : Z; tg_publication_generation : Z; tg_connect_sequence : Z;
  tg_issued_at : Z; tg_expires_at : Z }.

Record ProxySession := {
  ps_instance_id : Z; ps_config : ProxyConfig; ps_last_observed_time : option Z; ps_sequence : Z;
  ps_pending : gmap Z PendingRecord; ps_registry_generation : Z; ps_publication_sequence : Z;
  ps_publications : gmap LogicalOrigin PublicationRecord }.

(** Assignments to the fields of the session. *)
Definition ps_with_time (p : ProxySession) (t : option Z) : ProxySession :=
  {| ps_instance_id := ps_instance_id p; ps_config := ps_config p; ps_last_observed_time := t;
     ps_sequence := ps_sequence p; ps_pending := ps_pending p; ps_registry_generation := ps_registry_generation p;
     ps_publication_sequence := ps_publication_sequence p; ps_publications := ps_publications p |}.
Definition ps_with_pending (p : ProxySession) (sequence : Z) (pending : gmap Z PendingRecord) : ProxySession :=
  {| ps_instance_id := ps_instance_id p; ps_config := ps_config p; ps_last_observed_time := ps_last_observed_time p;
     ps_sequence := sequence; ps_pending := pending; ps_registry_generation := ps_registry_generation p;
     ps_publication_sequence := ps_publication_sequence p; ps_publications := ps_publications p |}.
Definition ps_with_registry (p : ProxySession) (generation publication_sequence : Z)
    (publications : gmap LogicalOrigin PublicationRecord) : ProxySession :=
  {| ps_instance_id := ps_instance_id p; ps_config := ps_config p; ps_last_observed_time := ps_last_observed_time p;
     ps_sequence := ps_sequence p; ps_pending := ps_pending p; ps_registry_generation := generation;
     ps_publication_sequence := publication_sequence; ps_publications := publications |}.

(** The process-wide counter is an argument and comes back. *)
Definition proxy_session_new (next_instance_id : Z) (config : ProxyConfig) : Z * result ProxyError ProxySession :=
  match checked_add next_instance_id 1 with
  | None => (next_instance_id, Err InstanceSequenceExhausted)
  | Some next =>
      (next, Ok {| ps_instance_id := next_instance_id; ps_config := config; ps_last_observed_time := None;
                   ps_sequence := 0; ps_pending := ∅; ps_registry_generation := 1; ps_publication_sequence := 0;
                   ps_publications := ∅ |})
  end.

(** ** Guards *)

Definition ensure_registry_generation (p : ProxySession) (expected : Z) : result ProxyError unit :=
  if negb (expected =? ps_registry_generation p) then Err StaleRegistryGeneration else Ok tt.
Definition observe_time (p : ProxySession) (now : Z) : ProxySession * result ProxyError unit :=
  if match ps_last_observed_time p with Some last_observed => now <? last_observed | None => false end
  then (p, Err PrClockRollback) else (ps_with_time p (Some now), Ok tt).
Definition next_registry_generation (p : ProxySession) : result ProxyError Z :=
  ok_or (checked_add (ps_registry_generation p) 1) RegistryGenerationExhausted.
Definition ensure_runtime_ready (p : ProxySession) (snapshot : EngineSnapshot) (bridge_required : bool)
    : result ProxyError unit :=
  if negb (bool_decide (sn_runtime_session snapshot = px_runtime_session (ps_config p)))
     || negb (sn_runtime_generation snapshot =? px_runtime_generation (ps_config p))
  then Err StaleRuntime else
  if negb (if bridge_required then bridge_or_active (sn_authority_state snapshot)
           else resolution_transport_ready (sn_authority_state snapshot))
  then Err PrAuthorityNotReady else Ok tt.

Definition authentication_challenge (p : ProxySession) : list Z :=
  text "HTTP/1.1 407 Proxy Authentication Required" ++ CRLF
  ++ text "Proxy-Authenticate: " ++ challenge_header_value (px_authorization (ps_config p)) ++ CRLF
  ++ text "Cache-Control: no-store" ++ CRLF ++ text "Connection: close" ++ CRLF
  ++ text "Content-Length: 0" ++ CRLF ++ CRLF.

(** ** CONNECT admission *)

(** What [admit_connect] decides after the purge of expired records. *)
Definition connect_request (p : ProxySession) (request_head : list Z) : result ProxyError (list Z * Z) :=
  let? parsed := parse_connect_head request_head (px_limits (ps_config p)) in
  let? host := scope_authorize (px_scope (ps_config p)) (pc_host parsed) in
  if negb (verify_header_values (px_authorization (ps_config p)) (omap utf8_decode (pc_authorization parsed)))
  then Err AuthenticationFailed else Ok (host, pc_port parsed).

Definition admit_connect (p : ProxySession) (engine : EngineState) (client : SocketAddr) (request_head : list Z)
    (now : Z) : ProxySession * result ProxyError PendingConnect :=
  match ensure_runtime_ready p (engine_snapshot engine) false with
  | Err e => (p, Err e)
  | Ok _ =>
  match observe_time p now with
  | (p, Err e) => (p, Err e)
  | (p, Ok _) =>
      if negb (is_loopback (sa_ip client)) then (p, Err NonLoopbackClient) else
      let p := ps_with_pending p (ps_sequence p) (filter (fun '(_, record) => now < pr_expires_at record) (ps_pending p)) in
      if maximum_pending (px_limits (ps_config p)) <=? Z.of_nat (size (ps_pending p)) then (p, Err PendingLimit) else
      match connect_request p request_head with
      | Err e => (p, Err e)
      | Ok (host, port) =>
          match checked_add (ps_sequence p) 1 with
          | None => (p, Err RequestSequenceExhausted)
          | Some sequence =>
              match checked_add now (maximum_pending_lifetime_seconds (px_limits (ps_config p))) with
              | None => (p, Err TimeOverflow)
              | Some expires_at =>
                  let record := {| pr_host := host; pr_port := port; pr_admitted_at := now; pr_expires_at := expires_at |} in
                  (ps_with_pending p sequence (<[sequence := record]> (ps_pending p)),
                   Ok {| pq_instance_id := ps_instance_id p; pq_sequence := sequence; pq_host := host; pq_port := port;
                         pq_admitted_at := now; pq_expires_at := expires_at |})
              end
          end
      end
  end end.

Definition cancel (p : ProxySession) (pending : PendingConnect) : ProxySession * result ProxyError unit :=
  if negb (pq_instance_id pending =? ps_instance_id p) then (p, Err PendingMismatch) else
  match ps_pending p !! pq_sequence pending with
  | Some _ => (ps_with_pending p (ps_sequence p) (delete (pq_sequence pending) (ps_pending p)), Ok tt)
  | None => (p, Err PendingMismatch)
  end.

(** ** Publication *)

Definition pa_status (a : ProviderAuthorityContext) : AuthenticatedContextStatus := oc_status (pa_origin_context a).

Definition bind_authority (p : ProxySession) (engine : EngineState) (authority : ProviderAuthorityContext)
    (publication_id publication_generation now : Z) : result ProxyError (LogicalOrigin * PublicationRecord) :=
  let snapshot := engine_snapshot engine in
  let? _ := ensure_runtime_ready p snapshot true in
  let context := pa_origin_context authority in
  let logical_origin := oc_logical_origin context in
  let? host := scope_authorize (px_scope (ps_config p)) (lo_host logical_origin) in
  if negb (bool_decide (lo_scheme logical_origin = Https)) || negb (bool_decide (host = lo_host logical_origin))
     || (lo_port logical_origin =? 0) || (pa_service_port authority =? 0)
     || bool_decide (pa_status authority = Unauthenticated) || bool_decide (pa_tls_policy authority = Cleartext)
     || negb (bool_decide (oc_runtime_session context = sn_runtime_session snapshot))
     || negb (oc_runtime_generation context =? sn_runtime_generation snapshot)
     || negb (oc_policy_generation context =? pol_generation (sn_policy snapshot))
     || negb (bool_decide (pa_hns_network authority = snapshot_hns_network snapshot))
  then Err ProviderAuthorityMismatch else
  if now <? oc_valid_from context then Err ProviderAuthorityNotYetValid else
  if oc_valid_until context <=? now then Err ProviderAuthorityExpired else
  if negb (provider_authority_is_current engine authority now) then Err ProviderAuthorityMismatch else
  let? publication_deadline :=
    ok_or (checked_add now (maximum_publication_lifetime_seconds (px_limits (ps_config p)))) TimeOverflow in
  let publication_valid_until := Z.min (oc_valid_until context) publication_deadline in
  if publication_valid_until <=? now then Err ProviderAuthorityExpired else
  let identity := px_identity (ps_config p) in
  Ok (logical_origin,
      {| pb_publication_id := publication_id; pb_publication_generation := publication_generation;
         pb_selected_namespace := pa_selected_namespace authority; pb_authenticated_context := pa_status authority;
         pb_hns_network := pa_hns_network authority; pb_service_port := pa_service_port authority;
         pb_tls_policy := pa_tls_policy authority; pb_runtime_session := oc_runtime_session context;
         pb_runtime_generation := oc_runtime_generation context;
         pb_policy_generation := oc_policy_generation context; pb_event_sequence := oc_event_sequence context;
         pb_decision_fingerprint := oc_decision_fingerprint context;
         pb_authority_valid_from := oc_valid_from context; pb_authority_valid_until := oc_valid_until context;
         pb_published_at := now; pb_publication_valid_until := publication_valid_until;
         pb_endpoint := px_endpoint (ps_config p); pb_process_session := pi_process_session identity;
         pb_process_generation := pi_process_generation identity;
         pb_listener_generation := pi_listener_generation identity; pb_authority := authority |}).

Definition admission_for (p : ProxySession) (logical_origin : LogicalOrigin)
    (publication_id publication_generation : Z) : PublishedAdmission :=
  let identity := px_identity (ps_config p) in
  {| pm_instance_id := ps_instance_id p; pm_logical_origin := logical_origin; pm_publication_id := publication_id;
     pm_publication_generation := publication_generation; pm_registry_generation := publication_generation;
     pm_endpoint := px_endpoint (ps_config p); pm_process_session := pi_process_session identity;
     pm_process_generation := pi_process_generation identity;
     pm_listener_generation := pi_listener_generation identity |}.

(** The process, listener and endpoint stamps of this session. *)
Definition same_instance (p : ProxySession) (instance_id : Z) (endpoint : LoopbackEndpoint) (process_session : list Z)
    (process_generation listener_generation : Z) : bool :=
  let identity := px_identity (ps_config p) in
  (instance_id =? ps_instance_id p) && bool_decide (endpoint = px_endpoint (ps_config p))
  && bool_decide (process_session = pi_process_session identity)
  && (process_generation =? pi_process_generation identity)
  && (listener_generation =? pi_listener_generation identity).

Definition validate_admission (p : ProxySession) (admission : PublishedAdmission) : result ProxyError PublicationRecord :=
  if negb (same_instance p (pm_instance_id admission) (pm_endpoint admission) (pm_process_session admission)
             (pm_process_generation admission) (pm_listener_generation admission))
  then Err PublicationMismatch else
  let? record := ok_or (ps_publications p !! pm_logical_origin admission) PublicationMismatch in
  if negb (pb_publication_id record =? pm_publication_id admission)
     || negb (pb_publication_generation record =? pm_publication_generation admission)
     || negb (bool_decide (pb_endpoint record = pm_endpoint admission))
     || negb (bool_decide (pb_process_session record = pm_process_session admission))
     || negb (pb_process_generation record =? pm_process_generation admission)
     || negb (pb_listener_generation record =? pm_listener_generation admission)
  then Err PublicationMismatch else Ok record.

Definition publication_is_current (engine : EngineState) (b : PublicationRecord) (now : Z) : bool :=
  let authority := pb_authority b in
  let context := pa_origin_context authority in
  bool_decide (pb_selected_namespace b = pa_selected_namespace authority)
  && bool_decide (pb_authenticated_context b = pa_status authority)
  && bool_decide (pb_hns_network b = pa_hns_network authority)
  && (pb_service_port b =? pa_service_port authority)
  && bool_decide (pb_tls_policy b = pa_tls_policy authority)
  && bool_decide (pb_runtime_session b = oc_runtime_session context)
  && (pb_runtime_generation b =? oc_runtime_generation context)
  && (pb_policy_generation b =? oc_policy_generation context)
  && (pb_event_sequence b =? oc_event_sequence context)
  && bool_decide (pb_decision_fingerprint b = oc_decision_fingerprint context)
  && (pb_authority_valid_from b =? oc_valid_from context)
  && (pb_authority_valid_until b =? oc_valid_until context)
  && (pb_authority_valid_from b <=? now) && (now <? pb_authority_valid_until b)
  && (pb_published_at b <=? now) && (now <? pb_publication_valid_until b)
  && provider_authority_is_current engine authority now.

Definition publish_authority (p : ProxySession) (engine : EngineState) (expected_registry_generation : Z)
    (authority : ProviderAuthorityContext) (now : Z) : ProxySession * result ProxyError PublishedAdmission :=
  match ensure_registry_generation p expected_registry_generation with
  | Err e => (p, Err e)
  | Ok _ =>
  match observe_time p now with
  | (p, Err e) => (p, Err e)
  | (p, Ok _) =>
      match
        (let? generation := next_registry_generation p in
         let? publication_id := ok_or (checked_add (ps_publication_sequence p) 1) PublicationSequenceExhausted in
         let? bound := bind_authority p engine authority publication_id generation now in
         Ok (generation, publication_id, bound))
      with
      | Err e => (p, Err e)
      | Ok (generation, publication_id, (logical_origin, record)) =>
          let current := filter (fun '(_, existing) => publication_is_current engine existing now = true) (ps_publications p) in
          let p := ps_with_registry p (ps_registry_generation p) (ps_publication_sequence p) current in
          if bool_decide (is_Some (current !! logical_origin)) then (p, Err PublicationAlreadyExists) else
          if maximum_publications (px_limits (ps_config p)) <=? Z.of_nat (size current)
          then (p, Err PublicationLimit) else
          (ps_with_registry p generation publication_id (<[logical_origin := record]> current),
           Ok (admission_for p logical_origin publication_id generation))
      end
  end end.

Definition replace_authority (p : ProxySession) (engine : EngineState) (expected_registry_generation : Z)
    (admission : PublishedAdmission) (authority : ProviderAuthorityContext) (now : Z)
    : ProxySession * result ProxyError PublishedAdmission :=
  match ensure_registry_generation p expected_registry_generation with
  | Err e => (p, Err e)
  | Ok _ =>
  match observe_time p now with
  | (p, Err e) => (p, Err e)
  | (p, Ok _) =>
      match
        (let? validated := validate_admission p admission in
         let publication_id := pb_publication_id validated in
         let? generation := next_registry_generation p in
         let? bound := bind_authority p engine authority publication_id generation now in
         Ok (publication_id, generation, bound))
      with
      | Err e => (p, Err e)
      | Ok (publication_id, generation, (logical_origin, record)) =>
          if negb (bool_decide (logical_origin = pm_logical_origin admission)) then (p, Err PublicationMismatch) else
          (ps_with_registry p generation (ps_publication_sequence p) (<[logical_origin := record]> (ps_publications p)),
           Ok (admission_for p logical_origin publication_id generation))
      end
  end end.

Definition revoke_authority (p : ProxySession) (expected_registry_generation : Z) (admission : PublishedAdmission)
    : ProxySession * result ProxyError Z :=
  match
    (let? _ := ensure_registry_generation p expected_registry_generation in
     let? _ := validate_admission p admission in
     let? generation := next_registry_generation p in
     let? _ := ok_or (ps_publications p !! pm_logical_origin admission) PublicationMismatch in
     Ok generation)
  with
  | Err e => (p, Err e)
  | Ok generation =>
      (ps_with_registry p generation (ps_publication_sequence p) (delete (pm_logical_origin admission) (ps_publications p)),
       Ok generation)
  end.

(** ** Grants *)

Definition pending_record (pending : PendingConnect) : PendingRecord :=
  {| pr_host := pq_host pending; pr_port := pq_port pending; pr_admitted_at := pq_admitted_at pending;
     pr_expires_at := pq_expires_at pending |}.

Definition authorize_connect (p : ProxySession) (engine : EngineState) (pending : PendingConnect)
    (admission : PublishedAdmission) (expected_registry_generation now : Z)
    : ProxySession * result ProxyError TunnelGrant :=
  if negb (pq_instance_id pending =? ps_instance_id p) then (p, Err PendingMismatch) else
  match ps_pending p !! pq_sequence pending with
  | None => (p, Err PendingMismatch)
  | Some record =>
      if negb (bool_decide (record = pending_record pending)) then (p, Err PendingMismatch) else
      let p := ps_with_pending p (ps_sequence p) (delete (pq_sequence pending) (ps_pending p)) in
      match observe_time p now with
      | (p, Err e) => (p, Err e)
      | (p, Ok _) =>
          (p,
           if (now <? pr_admitted_at record) || (pr_expires_at record <=? now) then Err PendingExpired else
           let? _ := ensure_registry_generation p expected_registry_generation in
           let? _ := ensure_runtime_ready p (engine_snapshot engine) true in
           let? b := validate_admission p admission in
           let origin := pm_logical_origin admission in
           if negb (bool_decide (lo_scheme origin = Https)) || negb (bool_decide (lo_host origin = pr_host record))
              || negb (lo_port origin =? pr_port record) || negb (publication_is_current engine b now)
           then Err ProviderAuthorityMismatch else
           let? grant_deadline :=
             ok_or (checked_add now (maximum_grant_lifetime_seconds (px_limits (ps_config p)))) TimeOverflow in
           let grant_expires_at := Z.min (pb_publication_valid_until b) grant_deadline in
           if grant_expires_at <=? now then Err ProviderAuthorityExpired else
           Ok {| tg_instance_id := ps_instance_id p; tg_logical_origin := origin;
                 tg_selected_namespace := pb_selected_namespace b;
                 tg_authenticated_context := pb_authenticated_context b; tg_hns_network := pb_hns_network b;
                 tg_service_port := pb_service_port b; tg_tls_policy := pb_tls_policy b;
                 tg_runtime_session := pb_runtime_session b; tg_runtime_generation := pb_runtime_generation b;
                 tg_policy_generation := pb_policy_generation b; tg_event_sequence := pb_event_sequence b;
                 tg_decision_fingerprint := pb_decision_fingerprint b;
                 tg_authority_valid_from := pb_authority_valid_from b;
                 tg_authority_valid_until := pb_authority_valid_until b; tg_endpoint := pb_endpoint b;
                 tg_process_session := pb_process_session b; tg_process_generation := pb_process_generation b;
                 tg_listener_generation := pb_listener_generation b;
                 tg_registry_generation := ps_registry_generation p; tg_publication_id := pb_publication_id b;
                 tg_publication_generation := pb_publication_generation b;
                 tg_connect_sequence := pq_sequence pending; tg_issued_at := now; tg_expires_at := grant_expires_at |})
      end
  end.

(** The long comparison of [revalidate_tunnel_grant]. *)
Definition grant_matches (b : PublicationRecord) (grant : TunnelGrant) : bool :=
  (pb_publication_id b =? tg_publication_id grant)
  && (pb_publication_generation b =? tg_publication_generation grant)
  && bool_decide (pb_selected_namespace b = tg_selected_namespace grant)
  && bool_decide (pb_authenticated_context b = tg_authenticated_context grant)
  && bool_decide (pb_hns_network b = tg_hns_network grant)
  && (pb_service_port b =? tg_service_port grant)
  && bool_decide (pb_tls_policy b = tg_tls_policy grant)
  && bool_decide (pb_runtime_session b = tg_runtime_session grant)
  && (pb_runtime_generation b =? tg_runtime_generation grant)
  && (pb_policy_generation b =? tg_policy_generation grant)
  && (pb_event_sequence b =? tg_event_sequence grant)
  && bool_decide (pb_decision_fingerprint b = tg_decision_fingerprint grant)
  && (pb_authority_valid_from b =? tg_authority_valid_from grant)
  && (pb_authority_valid_until b =? tg_authority_valid_until grant)
  && bool_decide (pb_endpoint b = tg_endpoint grant)
  && bool_decide (pb_process_session b = tg_process_session grant)
  && (pb_process_generation b =? tg_process_generation grant)
  && (pb_listener_generation b =? tg_listener_generation grant)
  && negb (pb_publication_valid_until b <? tg_expires_at grant).

Definition revalidate_tunnel_grant (p : ProxySession) (engine : EngineState) (grant : TunnelGrant)
    (expected_registry_generation now : Z) : ProxySession * result ProxyError unit :=
  match ensure_registry_generation p expected_registry_generation with
  | Err e => (p, Err e)
  | Ok _ =>
  match observe_time p now with
  | (p, Err e) => (p, Err e)
  | (p, Ok _) =>
      (p,
       if negb (tg_registry_generation grant =? expected_registry_generation)
          || negb (tg_instance_id grant =? ps_instance_id p)
          || negb (bool_decide (tg_endpoint grant = px_endpoint (ps_config p)))
       then Err PublicationMismatch else
       let identity := px_identity (ps_config p) in
       if negb (bool_decide (tg_process_session grant = pi_process_session identity))
          || negb (tg_process_generation grant =? pi_process_generation identity)
          || negb (tg_listener_generation grant =? pi_listener_generation identity)
       then Err PublicationMismatch else
       if (now <? tg_issued_at grant) || (tg_expires_at grant <=? now) then Err ProviderAuthorityExpired else
       let? _ := ensure_runtime_ready p (engine_snapshot engine) true in
       let? b := ok_or (ps_publications p !! tg_logical_origin grant) PublicationMismatch in
       if negb (grant_matches b grant) || negb (publication_is_current engine b now)
       then Err ProviderAuthorityMismatch else Ok tt)
  end end.
