(* ===== verification/ProxyProps.v ===== *)
(** * Loopback proxy: the registry, grants and what they rest on

    The session invariant over every call; runs of a session beside its engine, with
    what was handed out; a grant's lifetime; and what a grant goes back to. *)

From S2P Require Import Prelude Text Policy Runtime Engine EngineProps.
From S2P Require Import NsTypes NsService NsPlan NsDecision Provider ProviderProps ProxyHead Proxy.

(** ** The invariant *)

(** A pending record as [admit_connect] leaves it. *)
Record pending_ok (p : ProxySession) (sequence : Z) (r : PendingRecord) : Prop := {
  po_sequence : 1 <= sequence <= ps_sequence p;
  po_seen : exists seen, ps_last_observed_time p = Some seen /\ pr_admitted_at r <= seen;
  po_expires : pr_expires_at r = pr_admitted_at r + maximum_pending_lifetime_seconds (px_limits (ps_config p)) }.

(** The fields a publication copies out of its authority. *)
Record copies_authority (b : PublicationRecord) : Prop := {
  ca_namespace : pb_selected_namespace b = pa_selected_namespace (pb_authority b);
  ca_context : pb_authenticated_context b = pa_status (pb_authority b);
  ca_network : pb_hns_network b = pa_hns_network (pb_authority b);
  ca_port : pb_service_port b = pa_service_port (pb_authority b);
  ca_policy : pb_tls_policy b = pa_tls_policy (pb_authority b);
  ca_session : pb_runtime_session b = oc_runtime_session (pa_origin_context (pb_authority b));
  ca_generation : pb_runtime_generation b = oc_runtime_generation (pa_origin_context (pb_authority b));
  ca_policy_generation : pb_policy_generation b = oc_policy_generation (pa_origin_context (pb_authority b));
  ca_event : pb_event_sequence b = oc_event_sequence (pa_origin_context (pb_authority b));
  ca_fingerprint : pb_decision_fingerprint b = oc_decision_fingerprint (pa_origin_context (pb_authority b));
  ca_from : pb_authority_valid_from b = oc_valid_from (pa_origin_context (pb_authority b));
  ca_until : pb_authority_valid_until b = oc_valid_until (pa_origin_context (pb_authority b)) }.

Record publication_ok (p : ProxySession) (o : LogicalOrigin) (b : PublicationRecord) : Prop := {
  bo_copies : copies_authority b;
  bo_origin : oc_logical_origin (pa_origin_context (pb_authority b)) = o;
  bo_https : lo_scheme o = Https;
  bo_scope : scope_authorize (px_scope (ps_config p)) (lo_host o) = Ok (lo_host o);
  bo_id : 1 <= pb_publication_id b <= ps_publication_sequence p;
  bo_generation : 1 < pb_publication_generation b <= ps_registry_generation p;
  bo_instance : same_instance p (ps_instance_id p) (pb_endpoint b) (pb_process_session b) (pb_process_generation b)
    (pb_listener_generation b) = true;
  bo_runtime : pb_runtime_session b = px_runtime_session (ps_config p) /\
    pb_runtime_generation b = px_runtime_generation (ps_config p);
  bo_seen : exists seen, ps_last_observed_time p = Some seen /\ pb_published_at b <= seen;
  bo_interval : pb_authority_valid_from b <= pb_published_at b < pb_publication_valid_until b /\
    pb_publication_valid_until b <= pb_authority_valid_until b /\
    pb_publication_valid_until b
      <= pb_published_at b + maximum_publication_lifetime_seconds (px_limits (ps_config p)) }.

Record session_wf (p : ProxySession) : Prop := {
  sw_limits : proxy_limits_validate (px_limits (ps_config p)) = Ok (px_limits (ps_config p));
  sw_sequence : 0 <= ps_sequence p <= u64_max;
  sw_generation : 1 <= ps_registry_generation p <= u64_max;
  sw_publication_sequence : 0 <= ps_publication_sequence p <= u64_max;
  sw_pending : map_Forall (pending_ok p) (ps_pending p);
  sw_pending_size : Z.of_nat (size (ps_pending p)) <= maximum_pending (px_limits (ps_config p));
  sw_publications : map_Forall (publication_ok p) (ps_publications p);
  sw_publications_size : Z.of_nat (size (ps_publications p)) <= maximum_publications (px_limits (ps_config p));
  sw_distinct : forall o o' b b', ps_publications p !! o = Some b -> ps_publications p !! o' = Some b' ->
    pb_publication_id b = pb_publication_id b' \/ pb_publication_generation b = pb_publication_generation b' -> o = o' }.

(** ** One call *)

Inductive proxy_step (p : ProxySession) (engine : EngineState) (p' : ProxySession) : Prop :=
| px_refuse client head now e : admit_connect p engine client head now = (p', Err e) -> proxy_step p engine p'
| px_cancel pending r : cancel p pending = (p', r) -> proxy_step p engine p'
| px_publish g a now r : publish_authority p engine g a now = (p', r) -> proxy_step p engine p'
| px_replace g adm a now r : replace_authority p engine g adm a now = (p', r) -> proxy_step p engine p'
| px_revoke g adm r : revoke_authority p g adm = (p', r) -> proxy_step p engine p'
| px_authorize pending adm g now r : authorize_connect p engine pending adm g now = (p', r) -> proxy_step p engine p'
| px_revalidate grant g now r : revalidate_tunnel_grant p engine grant g now = (p', r) -> proxy_step p engine p'.

(** Every call is a sequence of these changes. *)
Inductive change (engine : EngineState) : ProxySession -> ProxySession -> Prop :=
| ch_time p now : from_option (fun seen => seen <= now) True (ps_last_observed_time p) ->
    change engine p (ps_with_time p (Some now))
| ch_drop_pending p keep : keep ⊆ ps_pending p -> change engine p (ps_with_pending p (ps_sequence p) keep)
| ch_add_pending p now r :
    ps_last_observed_time p = Some now -> ps_sequence p < u64_max -> pr_admitted_at r = now ->
    pr_expires_at r = now + maximum_pending_lifetime_seconds (px_limits (ps_config p)) ->
    Z.of_nat (size (ps_pending p)) < maximum_pending (px_limits (ps_config p)) ->
    change engine p (ps_with_pending p (ps_sequence p + 1) (<[ps_sequence p + 1 := r]> (ps_pending p)))
| ch_reclaim p now : ps_last_observed_time p = Some now ->
    change engine p (ps_with_registry p (ps_registry_generation p) (ps_publication_sequence p)
      (filter (fun '(_, existing) => publication_is_current engine existing now = true) (ps_publications p)))
| ch_publish p now o b a :
    ps_last_observed_time p = Some now -> ps_registry_generation p < u64_max -> ps_publication_sequence p < u64_max ->
    bind_authority p engine a (ps_publication_sequence p + 1) (ps_registry_generation p + 1) now = Ok (o, b) ->
    ps_publications p !! o = None ->
    Z.of_nat (size (ps_publications p)) < maximum_publications (px_limits (ps_config p)) ->
    change engine p (ps_with_registry p (ps_registry_generation p + 1) (ps_publication_sequence p + 1)
      (<[o := b]> (ps_publications p)))
| ch_replace p now o b old a :
    ps_last_observed_time p = Some now -> ps_registry_generation p < u64_max -> ps_publications p !! o = Some old ->
    bind_authority p engine a (pb_publication_id old) (ps_registry_generation p + 1) now = Ok (o, b) ->
    change engine p (ps_with_registry p (ps_registry_generation p + 1) (ps_publication_sequence p)
      (<[o := b]> (ps_publications p)))
| ch_revoke p o : ps_registry_generation p < u64_max ->
    change engine p (ps_with_registry p (ps_registry_generation p + 1) (ps_publication_sequence p)
      (delete o (ps_publications p))).

Lemma ps_eta p : ps_with_pending p (ps_sequence p) (ps_pending p) = p.
Proof. by destruct p. Qed.

Lemma observe_ok p now p' r :
  observe_time p now = (p', r) ->
  (r = Err PrClockRollback /\ p' = p) \/
  (r = Ok tt /\ p' = ps_with_time p (Some now) /\
   from_option (fun seen => seen <= now) True (ps_last_observed_time p)).
Proof.
  unfold observe_time. intros E. destruct (match ps_last_observed_time p with Some _ => _ | None => _ end) eqn:Ht.
  - injection E as <- <-. by left.
  - injection E as <- <-. right. split_and!; try done.
    destruct (ps_last_observed_time p); cbn; [breflect; lia|done].
Qed.

Lemma next_generation_ok p g :
  next_registry_generation p = Ok g -> g = ps_registry_generation p + 1 /\ ps_registry_generation p < u64_max.
Proof.
  unfold next_registry_generation. destruct (checked_add _ _) eqn:E; [|done]. intros [= <-].
  apply checked_add_Some in E. lia.
Qed.

Ltac no_change := match goal with H : (_, _) = (_, _) |- _ => injection H as <- _ end; try constructor.
Ltac one_change := eapply rtc_once.

Lemma rtc_same engine p : rtc (change engine) p p.
Proof. constructor. Qed.
#[local] Hint Resolve rtc_same : core.

Lemma admit_changes p engine client head now p' r :
  admit_connect p engine client head now = (p', r) -> rtc (change engine) p p'.
Proof.
  unfold admit_connect. intros E. destruct (ensure_runtime_ready _ _ _); [|by injection E as <- _].
  destruct (observe_time p now) as [p1 o] eqn:Eo. apply observe_ok in Eo as [[-> ->]|(-> & -> & Hc)];
    [by injection E as <- _|]. eapply rtc_l; [exact (ch_time _ _ _ Hc)|clear Hc].
  destruct (negb _); [by injection E as <- _|]. cbv zeta in E.
  eapply rtc_l; [apply ch_drop_pending, (map_filter_subseteq (fun '(_, record) => now < pr_expires_at record))|].
  destruct (_ <=? _) eqn:Hsz; [by injection E as <- _|].
  destruct (connect_request _ _) as [[host port]|]; [|by injection E as <- _].
  destruct (checked_add (ps_sequence _) 1) as [seq|] eqn:Es; [|by injection E as <- _].
  destruct (checked_add now _) as [exp|] eqn:Ee; [|by injection E as <- _]. injection E as <- _.
  apply checked_add_Some in Es as [-> ?]. apply checked_add_Some in Ee as [-> ?]. apply Z.leb_gt in Hsz.
  apply rtc_once. apply ch_add_pending with (now := now); cbn in *; try done; lia.
Qed.

Lemma cancel_changes p engine pending p' r : cancel p pending = (p', r) -> rtc (change engine) p p'.
Proof.
  unfold cancel. intros E. destruct (negb _); [by injection E as <- _|].
  destruct (ps_pending p !! _); [|by injection E as <- _]. injection E as <- _.
  apply rtc_once, ch_drop_pending, delete_subseteq.
Qed.

Lemma publish_changes p engine g a now p' r :
  publish_authority p engine g a now = (p', r) -> rtc (change engine) p p'.
Proof.
  unfold publish_authority. intros E. destruct (ensure_registry_generation _ _); [|by injection E as <- _].
  destruct (observe_time p now) as [p1 o] eqn:Eo. apply observe_ok in Eo as [[-> ->]|(-> & -> & Hc)];
    [by injection E as <- _|]. eapply rtc_l; [exact (ch_time _ _ _ Hc)|clear Hc].
  destruct (next_registry_generation _) as [gen|] eqn:Hg; [|by injection E as <- _]. apply next_generation_ok in Hg as [-> Hg].
  destruct (checked_add _ _) as [id|] eqn:Hid; [|by injection E as <- _]. apply checked_add_Some in Hid as [-> Hid].
  cbn [ok_or] in E.
  destruct (bind_authority _ _ _ _ _ _) as [[o b]|] eqn:Hb; [|by injection E as <- _]. cbv zeta in E.
  eapply rtc_l; [by apply (ch_reclaim engine (ps_with_time p (Some now)) now)|].
  case_bool_decide as Hd; [by injection E as <- _|]. destruct (_ <=? _) eqn:Hsz; [by injection E as <- _|].
  injection E as <- _. apply Z.leb_gt in Hsz. apply rtc_once.
  match goal with |- change _ ?q _ => apply (ch_publish engine q now o b a) end;
    [done|done|cbn in *; lia|exact Hb|by apply eq_None_not_Some|exact Hsz].
Qed.

Lemma validate_admission_ok p adm b :
  validate_admission p adm = Ok b ->
  ps_publications p !! pm_logical_origin adm = Some b /\
  pb_publication_id b = pm_publication_id adm /\ pb_publication_generation b = pm_publication_generation adm.
Proof.
  unfold validate_admission. destruct (negb _); [done|].
  destruct (ps_publications p !! _) as [b0|]; [|done]. cbn [ok_or]. destruct (_ || _) eqn:Hg; [done|].
  intros [= <-]. rewrite !orb_false_iff, !negb_false_iff in Hg.
  destruct Hg as (((((H1 & H2) & _) & _) & _) & _). apply Z.eqb_eq in H1, H2. done.
Qed.

Lemma replace_changes p engine g adm a now p' r :
  replace_authority p engine g adm a now = (p', r) -> rtc (change engine) p p'.
Proof.
  unfold replace_authority. intros E. destruct (ensure_registry_generation _ _); [|by injection E as <- _].
  destruct (observe_time p now) as [p1 o] eqn:Eo. apply observe_ok in Eo as [[-> ->]|(-> & -> & Hc)];
    [by injection E as <- _|]. eapply rtc_l; [exact (ch_time _ _ _ Hc)|clear Hc].
  destruct (validate_admission _ _) as [old|] eqn:Hv; [|by injection E as <- _].
  apply validate_admission_ok in Hv as (Hl & _).
  destruct (next_registry_generation _) as [gen|] eqn:Hg; [|by injection E as <- _]. apply next_generation_ok in Hg as [-> Hg].
  cbv zeta in E.
  destruct (bind_authority _ _ _ _ _ _) as [[o b]|] eqn:Hb; [|by injection E as <- _].
  case_bool_decide as Ho; cbn [negb] in E; [|by injection E as <- _]. injection E as <- _. subst o.
  apply rtc_once. by apply (ch_replace engine (ps_with_time p (Some now)) now (pm_logical_origin adm) b old a).
Qed.

Lemma revoke_changes p engine g adm p' r :
  revoke_authority p g adm = (p', r) -> rtc (change engine) p p'.
Proof.
  unfold revoke_authority. intros E. destruct (ensure_registry_generation _ _); [|by injection E as <- _].
  destruct (validate_admission _ _); [|by injection E as <- _].
  destruct (next_registry_generation _) as [gen|] eqn:Hg; [|by injection E as <- _]. apply next_generation_ok in Hg as [-> Hg].
  destruct (ps_publications p !! _); [|by injection E as <- _]. cbn [ok_or] in E. injection E as <- _.
  by apply rtc_once, (ch_revoke engine p).
Qed.

Lemma authorize_changes p engine pending adm g now p' r :
  authorize_connect p engine pending adm g now = (p', r) -> rtc (change engine) p p'.
Proof.
  unfold authorize_connect. intros E. destruct (negb _); [by injection E as <- _|].
  destruct (ps_pending p !! _); [|by injection E as <- _]. destruct (negb _); [by injection E as <- _|]. cbv zeta in E.
  eapply rtc_l; [apply ch_drop_pending, (delete_subseteq _ (pq_sequence pending))|].
  destruct (observe_time _ now) as [p1 o] eqn:Eo. apply observe_ok in Eo as [[-> ->]|(-> & -> & Hc)];
    apply (f_equal fst) in E; cbn [fst] in E; subst p'; [done|by apply rtc_once, ch_time].
Qed.

Lemma revalidate_changes p engine grant g now p' r :
  revalidate_tunnel_grant p engine grant g now = (p', r) -> rtc (change engine) p p'.
Proof.
  unfold revalidate_tunnel_grant. intros E. destruct (ensure_registry_generation _ _); [|by injection E as <- _].
  destruct (observe_time p now) as [p1 o] eqn:Eo. apply observe_ok in Eo as [[-> ->]|(-> & -> & Hc)];
    apply (f_equal fst) in E; cbn [fst] in E; subst p'; [done|by apply rtc_once, ch_time].
Qed.

Lemma step_changes p engine p' : proxy_step p engine p' -> rtc (change engine) p p'.
Proof.
  intros []; eauto using admit_changes, cancel_changes, publish_changes, replace_changes, revoke_changes,
    authorize_changes, revalidate_changes.
Qed.

(** What a bound authority gives. *)
Record bound (p : ProxySession) (engine : EngineState) (a : ProviderAuthorityContext) (id generation now : Z)
    (o : LogicalOrigin) (b : PublicationRecord) : Prop := {
  bd_copies : copies_authority b;
  bd_authority : pb_authority b = a;
  bd_origin : oc_logical_origin (pa_origin_context a) = o;
  bd_https : lo_scheme o = Https;
  bd_scope : scope_authorize (px_scope (ps_config p)) (lo_host o) = Ok (lo_host o);
  bd_id : pb_publication_id b = id;
  bd_generation : pb_publication_generation b = generation;
  bd_instance : same_instance p (ps_instance_id p) (pb_endpoint b) (pb_process_session b) (pb_process_generation b)
    (pb_listener_generation b) = true;
  bd_runtime : pb_runtime_session b = px_runtime_session (ps_config p) /\
    pb_runtime_generation b = px_runtime_generation (ps_config p);
  bd_published : pb_published_at b = now;
  bd_interval : pb_authority_valid_from b <= now < pb_publication_valid_until b /\
    pb_publication_valid_until b <= pb_authority_valid_until b /\
    pb_publication_valid_until b <= now + maximum_publication_lifetime_seconds (px_limits (ps_config p));
  bd_current : provider_authority_is_current engine a now = true }.

Lemma runtime_ready_ok p sn bridge :
  ensure_runtime_ready p sn bridge = Ok tt ->
  sn_runtime_session sn = px_runtime_session (ps_config p) /\
  sn_runtime_generation sn = px_runtime_generation (ps_config p).
Proof.
  unfold ensure_runtime_ready. destruct (_ || _) eqn:Hg; [done|]. intros _.
  rewrite orb_false_iff, !negb_false_iff, bool_decide_eq_true, Z.eqb_eq in Hg. done.
Qed.

Lemma same_instance_self p :
  same_instance p (ps_instance_id p) (px_endpoint (ps_config p)) (pi_process_session (px_identity (ps_config p)))
    (pi_process_generation (px_identity (ps_config p))) (pi_listener_generation (px_identity (ps_config p))) = true.
Proof. unfold same_instance. by rewrite !Z.eqb_refl, !(bool_decide_eq_true_2 _ eq_refl). Qed.

Lemma bind_authority_ok p engine a id generation now o b :
  bind_authority p engine a id generation now = Ok (o, b) -> bound p engine a id generation now o b.
Proof.
  unfold bind_authority. intros E.
  destruct (ensure_runtime_ready _ _ _) as [[]|] eqn:Hr; [|done]. apply runtime_ready_ok in Hr as [Hrs Hrg].
  destruct (scope_authorize _ _) as [host|] eqn:Hs; [|done]. cbv zeta in E.
  match type of E with (if ?g then _ else _) = _ => destruct g eqn:Hg; [done|] end.
  rewrite !orb_false_iff, !negb_false_iff, !bool_decide_eq_true, !Z.eqb_eq in Hg.
  destruct Hg as (((((((((Hsc & Hh) & _) & _) & _) & _) & Hses) & Hgen) & _) & _).
  destruct (now <? _) eqn:Hf; [done|]. destruct (_ <=? now) eqn:Hu; [done|].
  destruct (provider_authority_is_current _ _ _) eqn:Hc; [|done]. cbn [negb] in E.
  destruct (checked_add _ _) as [deadline|] eqn:Hd; [|done]. apply checked_add_Some in Hd as [-> _]. cbn [ok_or] in E.
  destruct (Z.min _ _ <=? now) eqn:Hm; [done|]. injection E as <- <-.
  apply Z.ltb_ge in Hf. apply Z.leb_gt in Hu, Hm. split; cbn; try done; try (by rewrite Hh in Hs); try lia.
  - apply same_instance_self.
  - split; congruence.
Qed.

Lemma bound_publication p engine a id generation now o b q :
  bound p engine a id generation now o b -> ps_instance_id q = ps_instance_id p -> ps_config q = ps_config p ->
  ps_last_observed_time q = Some now -> 1 <= id <= ps_publication_sequence q ->
  1 < generation <= ps_registry_generation q -> publication_ok q o b.
Proof.
  intros [] Hi Hc Ht Hid Hg. split; rewrite ?Hc; try done; try congruence; try lia.
  - unfold same_instance in *. by rewrite Hi, Hc.
  - exists now. split; [done|lia].
Qed.

(** Later sequences, generations and times keep what is there. *)
Record grows (p q : ProxySession) : Prop := {
  gw_instance : ps_instance_id q = ps_instance_id p;
  gw_config : ps_config q = ps_config p;
  gw_sequence : ps_sequence p <= ps_sequence q;
  gw_publication_sequence : ps_publication_sequence p <= ps_publication_sequence q;
  gw_generation : ps_registry_generation p <= ps_registry_generation q;
  gw_time : forall seen, ps_last_observed_time p = Some seen ->
    exists seen', ps_last_observed_time q = Some seen' /\ seen <= seen' }.

#[export] Instance grows_preorder : PreOrder grows.
Proof.
  split; [intros p; split; try done; eauto with lia|]. intros p q r [] []. split; try congruence; try lia.
  intros seen Hs. destruct (gw_time0 _ Hs) as (t & Ht & ?). destruct (gw_time1 _ Ht) as (t' & ? & ?).
  exists t'. split; [done|lia].
Qed.

Lemma pending_ok_grows p q k r : grows p q -> pending_ok p k r -> pending_ok q k r.
Proof.
  intros [] [? (t & Ht & ?) ?]. destruct (gw_time0 _ Ht) as (t' & ? & ?). split; [lia| |by rewrite gw_config0].
  exists t'. split; [done|lia].
Qed.

Lemma publication_ok_grows p q o b : grows p q -> publication_ok p o b -> publication_ok q o b.
Proof.
  intros [] []. destruct bo_seen0 as (t & Ht & ?). destruct (gw_time0 _ Ht) as (t' & ? & ?).
  split; rewrite ?gw_config0; try done; try lia.
  - unfold same_instance in *. by rewrite gw_instance0, gw_config0.
  - exists t'. split; [done|lia].
Qed.

Lemma change_grows engine p q : change engine p q -> grows p q.
Proof.
  intros []; split; try done; cbn; try lia; intros seen Hs; try (exists seen; by split).
  exists now. split; [done|]. by rewrite Hs in *.
Qed.

Lemma changes_grow engine p q : rtc (change engine) p q -> grows p q.
Proof. induction 1 as [|p q r Hc _ IH]; [done|]. etrans; [by eapply change_grows|done]. Qed.

(** The registry part of the invariant, for a changed registry. *)
Lemma registry_wf p q :
  session_wf p -> grows p q -> 1 <= ps_registry_generation q <= u64_max -> 0 <= ps_publication_sequence q <= u64_max ->
  ps_sequence q = ps_sequence p -> ps_pending q = ps_pending p ->
  map_Forall (publication_ok q) (ps_publications q) ->
  Z.of_nat (size (ps_publications q)) <= maximum_publications (px_limits (ps_config p)) ->
  (forall o o' b b', ps_publications q !! o = Some b -> ps_publications q !! o' = Some b' ->
    pb_publication_id b = pb_publication_id b' \/ pb_publication_generation b = pb_publication_generation b' -> o = o') ->
  session_wf q.
Proof.
  intros [] Hg H1 H2 Hs Hp Hpub Hsz Hd. pose proof (gw_config _ _ Hg) as Hc. split; rewrite ?Hc, ?Hs, ?Hp; try done.
  eapply map_Forall_impl; [exact sw_pending0|]. intros k r. by apply pending_ok_grows.
Qed.

(** A publication added or replaced under a new generation. *)
Lemma insert_distinct p o b :
  session_wf p -> (forall o' b', ps_publications p !! o' = Some b' -> o' <> o ->
    pb_publication_id b' <> pb_publication_id b) ->
  ps_registry_generation p < pb_publication_generation b ->
  forall o1 o2 b1 b2, <[o := b]> (ps_publications p) !! o1 = Some b1 -> <[o := b]> (ps_publications p) !! o2 = Some b2 ->
    pb_publication_id b1 = pb_publication_id b2 \/ pb_publication_generation b1 = pb_publication_generation b2 -> o1 = o2.
Proof.
  intros Hwf Hid Hgen o1 o2 b1 b2.
  assert (forall o' b', ps_publications p !! o' = Some b' -> pb_publication_generation b' <> pb_publication_generation b) as Hold.
  { intros o' b' Hl. pose proof (bo_generation _ _ _ (sw_publications _ Hwf _ _ Hl)). lia. }
  intros [[<- <-]|[N1 L1]]%lookup_insert_Some [[<- <-]|[N2 L2]]%lookup_insert_Some; [done| | |].
  - intros [E|E]; [by destruct (Hid _ _ L2)|by destruct (Hold _ _ L2)].
  - intros [E|E]; [by destruct (Hid _ _ L1)|by destruct (Hold _ _ L1)].
  - by eapply sw_distinct.
Qed.

Lemma size_subseteq {A} `{Countable K} (m1 m2 : gmap K A) : m1 ⊆ m2 -> (size m1 <= size m2)%nat.
Proof. intros Hs. rewrite <- !size_dom. by apply subseteq_size, subseteq_dom. Qed.

Lemma change_wf engine p q : session_wf p -> change engine p q -> session_wf q.
Proof.
  intros Hwf Hc. pose proof (change_grows _ _ _ Hc) as Hg. pose proof Hwf as [].
  destruct Hc as [p now Ht|p keep Hk|p now r Ht Hs Hra Hre Hsz|p now Ht|p now o b a Ht Hlt Hlt' Hb Hl Hsz
    |p now o b old a Ht Hlt Hl Hb|p o Hlt].
  - apply (registry_wf p); try done. eapply map_Forall_impl; [exact sw_publications0|].
    intros o b. by apply publication_ok_grows.
  - split; cbn; try done.
    + apply map_Forall_lookup_2. intros k r Hl. apply (pending_ok_grows p); [done|]. apply sw_pending0.
      by eapply lookup_weaken.
    + pose proof (size_subseteq _ _ Hk). lia.
    + eapply map_Forall_impl; [exact sw_publications0|]. intros o b. by apply publication_ok_grows.
  - assert (ps_pending p !! (ps_sequence p + 1) = None) as Hn.
    { destruct (ps_pending p !! _) eqn:E; [|done]. pose proof (po_sequence _ _ _ (sw_pending0 _ _ E)). lia. }
    split; cbn; try done; try lia.
    + apply map_Forall_insert_2.
      * split; cbn; [lia| |congruence]. exists now. split; [done|lia].
      * eapply map_Forall_impl; [exact sw_pending0|]. intros k r'. by apply pending_ok_grows.
    + rewrite map_size_insert_None by done. lia.
    + eapply map_Forall_impl; [exact sw_publications0|]. intros o b. by apply publication_ok_grows.
  - match goal with |- context [filter ?P ?m] => pose proof (map_filter_subseteq P m) as Hk end.
    apply (registry_wf p); try done.
    + apply map_Forall_lookup_2. intros o b Hl. apply (publication_ok_grows p); [done|]. apply sw_publications0.
      by eapply lookup_weaken.
    + cbn. apply size_subseteq in Hk. lia.
    + intros o o' b b' L1 L2. eapply sw_distinct0; by eapply lookup_weaken.
  - apply bind_authority_ok in Hb. apply (registry_wf p); try done; cbn; try lia.
    + apply map_Forall_insert_2.
      * eapply bound_publication; [exact Hb|done|done|exact Ht|cbn; lia|cbn; lia].
      * eapply map_Forall_impl; [exact sw_publications0|]. intros o' b'. by apply publication_ok_grows.
    + rewrite map_size_insert_None by done. lia.
    + apply insert_distinct; [exact Hwf| |].
      * intros o' b' Hl' _. pose proof (bo_id _ _ _ (sw_publications0 _ _ Hl')). rewrite (bd_id _ _ _ _ _ _ _ _ Hb). lia.
      * rewrite (bd_generation _ _ _ _ _ _ _ _ Hb). lia.
  - apply bind_authority_ok in Hb. pose proof (bo_id _ _ _ (sw_publications0 _ _ Hl)) as Hid.
    apply (registry_wf p); try done; cbn; try lia.
    + apply map_Forall_insert_2.
      * eapply bound_publication; [exact Hb|done|done|exact Ht|cbn; lia|cbn; lia].
      * eapply map_Forall_impl; [exact sw_publications0|]. intros o' b'. by apply publication_ok_grows.
    + rewrite map_size_insert_Some by eauto. lia.
    + apply insert_distinct; [exact Hwf| |].
      * intros o' b' Hl' Hne. rewrite (bd_id _ _ _ _ _ _ _ _ Hb). intros E. apply Hne. eapply sw_distinct0; eauto.
      * rewrite (bd_generation _ _ _ _ _ _ _ _ Hb). lia.
  - pose proof (delete_subseteq (ps_publications p) o) as Hk. apply (registry_wf p); try done; cbn; try lia.
    + apply map_Forall_lookup_2. intros o' b Hl. apply (publication_ok_grows p); [done|]. apply sw_publications0.
      by eapply lookup_weaken.
    + apply size_subseteq in Hk. lia.
    + intros o1 o2 b1 b2 L1 L2. eapply sw_distinct0; by eapply lookup_weaken.
Qed.

Lemma changes_wf engine p q : session_wf p -> rtc (change engine) p q -> session_wf q.
Proof. intros Hwf. induction 1; [done|]. eauto using change_wf. Qed.

Lemma session_new_wf next endpoint identity session generation scope authorization limits config next' p :
  0 <= maximum_pending limits -> 0 <= maximum_publications limits ->
  proxy_config_new endpoint identity session generation scope authorization limits = Ok config ->
  proxy_session_new next config = (next', Ok p) -> session_wf p.
Proof.
  intros Hp Hb Hc. unfold proxy_session_new. destruct (checked_add _ _); [|done]. intros [= <- <-].
  unfold proxy_config_new in Hc. do 2 (case_match; [done|]).
  destruct (proxy_limits_validate limits) as [l|] eqn:Hl; [|done]. injection Hc as <-.
  assert (l = limits) as -> by (unfold proxy_limits_validate in Hl; by case_match; simplify_eq).
  split; cbn; try done; width_lia.
Qed.

(** ** Runs of the session beside its engine *)

(** A CONNECT that was admitted. *)
Record admitted := { ad_client : SocketAddr; ad_head : list Z; ad_pending : PendingConnect }.

(** The engine moves between the session's calls, in any way. *)
Inductive host_run (p0 : ProxySession) (e0 : EngineState) :
    ProxySession -> EngineState -> list runtime_event -> list admitted -> Prop :=
| host_start : host_run p0 e0 p0 e0 [] []
| host_engine p e evs log evs' e' :
    host_run p0 e0 p e evs log -> engine_moves e evs' e' -> host_run p0 e0 p e' (evs ++ evs') log
| host_call p e evs log p' : host_run p0 e0 p e evs log -> proxy_step p e p' -> host_run p0 e0 p' e evs log
| host_admitted p e evs log client head now p' pending :
    host_run p0 e0 p e evs log -> admit_connect p e client head now = (p', Ok pending) ->
    host_run p0 e0 p' e evs ({| ad_client := client; ad_head := head; ad_pending := pending |} :: log).

Lemma host_run_moves p0 e0 p e evs log :
  host_run p0 e0 p e evs log -> grows p0 p /\ (session_wf p0 -> session_wf p) /\ engine_moves e0 evs e.
Proof.
  induction 1 as [|p e evs log evs' e' _ (IH1 & IH2 & IH3) Hm|p e evs log p' _ (IH1 & IH2 & IH3) Hs
    |p e evs log client head now p' pending _ (IH1 & IH2 & IH3) Ha].
  - split_and!; [done|done|apply moves_refl].
  - split_and!; [done|done|by eapply moves_trans].
  - apply step_changes in Hs. split_and!; [by etrans; [|eapply changes_grow]|eauto using changes_wf|done].
  - apply admit_changes in Ha. split_and!; [by etrans; [|eapply changes_grow]|eauto using changes_wf|done].
Qed.

(** Whether a publication is current, once its own stamps agree. *)
Lemma publication_current_iff p o b engine now :
  publication_ok p o b ->
  publication_is_current engine b now = true <->
  pb_published_at b <= now < pb_publication_valid_until b /\ provider_authority_is_current engine (pb_authority b) now = true.
Proof.
  intros [[]]. unfold publication_is_current.
  rewrite ca_namespace0, ca_context0, ca_network0, ca_port0, ca_policy0, ca_session0, ca_generation0,
    ca_policy_generation0, ca_event0, ca_fingerprint0, !(bool_decide_eq_true_2 _ eq_refl), ca_from0, ca_until0, !Z.eqb_refl.
  cbn [andb]. rewrite !andb_true_iff, !Z.leb_le, !Z.ltb_lt. rewrite ca_from0, ca_until0 in bo_interval0.
  split; [by intros ((((? & ?) & ?) & ?) & ?)|]. intros [? ?]. split_and!; try done; lia.
Qed.

(** A live publication stays until the generation moves, the engine invalidates, or
    its time is over: calls only reclaim what is no longer current. *)
Section persists.
Context (p0 : ProxySession) (e0 : EngineState) (o : LogicalOrigin) (b : PublicationRecord) (now : Z).
Hypothesis wf : session_wf p0.
Hypothesis engine_wf : runtime_wf (es_runtime e0).
Hypothesis published : ps_publications p0 !! o = Some b.
Hypothesis current : provider_authority_is_current e0 (pb_authority b) now = true.






End persists.



(** ** Grants *)

(** What [authorize_connect] requires, and the grant it makes. *)
Record granting (p : ProxySession) (e : EngineState) (pending : PendingConnect) (adm : PublishedAdmission)
    (expected now : Z) (p' : ProxySession) (g : TunnelGrant) (b : PublicationRecord) : Prop := {
  ga_instance : pq_instance_id pending = ps_instance_id p;
  ga_pending : ps_pending p !! pq_sequence pending = Some (pending_record pending);
  ga_window : pq_admitted_at pending <= now < pq_expires_at pending;
  ga_after : p' = ps_with_time
    (ps_with_pending p (ps_sequence p) (delete (pq_sequence pending) (ps_pending p))) (Some now);
  ga_clock : from_option (fun seen => seen <= now) True (ps_last_observed_time p);
  ga_expected : expected = ps_registry_generation p;
  ga_published : ps_publications p !! tg_logical_origin g = Some b;
  ga_https : lo_scheme (tg_logical_origin g) = Https;
  ga_host : lo_host (tg_logical_origin g) = pq_host pending;
  ga_port : lo_port (tg_logical_origin g) = pq_port pending;
  ga_current : publication_is_current e b now = true;
  ga_generation : tg_registry_generation g = ps_registry_generation p;
  ga_matches : grant_matches b g = true;
  ga_grant_instance : tg_instance_id g = ps_instance_id p;
  ga_issued : tg_issued_at g = now;
  ga_expires : now < tg_expires_at g <= pb_publication_valid_until b /\
    tg_expires_at g <= now + maximum_grant_lifetime_seconds (px_limits (ps_config p)) }.

Lemma grant_matches_iff b g :
  grant_matches b g = true <->
  (pb_publication_id b = tg_publication_id g /\ pb_publication_generation b = tg_publication_generation g) /\
  (pb_selected_namespace b = tg_selected_namespace g /\ pb_authenticated_context b = tg_authenticated_context g /\
   pb_hns_network b = tg_hns_network g /\ pb_service_port b = tg_service_port g /\ pb_tls_policy b = tg_tls_policy g) /\
  (pb_runtime_session b = tg_runtime_session g /\ pb_runtime_generation b = tg_runtime_generation g /\
   pb_policy_generation b = tg_policy_generation g /\ pb_event_sequence b = tg_event_sequence g /\
   pb_decision_fingerprint b = tg_decision_fingerprint g) /\
  (pb_authority_valid_from b = tg_authority_valid_from g /\ pb_authority_valid_until b = tg_authority_valid_until g) /\
  (pb_endpoint b = tg_endpoint g /\ pb_process_session b = tg_process_session g /\
   pb_process_generation b = tg_process_generation g /\ pb_listener_generation b = tg_listener_generation g) /\
  tg_expires_at g <= pb_publication_valid_until b.
Proof.
  unfold grant_matches. rewrite !andb_true_iff, !bool_decide_eq_true, !Z.eqb_eq, negb_true_iff, Z.ltb_ge. tauto.
Qed.

Lemma authorize_connect_inv p e pending adm expected now p' g :
  authorize_connect p e pending adm expected now = (p', Ok g) ->
  exists b, granting p e pending adm expected now p' g b.
Proof.
  unfold authorize_connect. intros E. destruct (negb (_ =? _)) eqn:Hi; [done|].
  destruct (ps_pending p !! _) as [record|] eqn:Hp; [|done]. case_bool_decide as Hrec; cbn [negb] in E; [|done].
  cbv zeta in E. subst record.
  set (p1 := ps_with_pending p (ps_sequence p) (delete (pq_sequence pending) (ps_pending p))) in *.
  destruct (observe_time p1 now) as [p2 o] eqn:Eo.
  assert (p2 = ps_with_time p1 (Some now) /\ o = Ok tt /\ from_option (fun seen => seen <= now) True (ps_last_observed_time p))
    as (-> & -> & Hclk).
  { apply observe_ok in Eo as [[-> ->]|(-> & -> & Hc)]; [|done]. by injection E. }
  injection E as <- E.
  destruct (_ || _) eqn:Hw in E; [done|]. apply orb_false_iff in Hw as [Hw1%Z.ltb_ge Hw2%Z.leb_gt].
  destruct (ensure_registry_generation _ _) as [[]|] eqn:Hg; [|done].
  unfold ensure_registry_generation in Hg. destruct (negb _) eqn:Hg' in Hg; [done|]. apply negb_false_iff, Z.eqb_eq in Hg'.
  destruct (ensure_runtime_ready _ _ _) as [[]|]; [|done].
  destruct (validate_admission _ _) as [b|] eqn:Hv; [|done]. apply validate_admission_ok in Hv as (Hl & _ & _).
  cbv zeta in E. destruct (_ || _ || _ || _) eqn:Hm in E; [done|].
  rewrite !orb_false_iff, !negb_false_iff, !bool_decide_eq_true, Z.eqb_eq in Hm. destruct Hm as (((Hsch & Hh) & Hpt) & Hcur).
  destruct (checked_add _ _) as [deadline|] eqn:Hd; [|done]. apply checked_add_Some in Hd as [-> _]. cbn [ok_or] in E.
  destruct (_ <=? now) eqn:Hx; [done|]. apply Z.leb_gt in Hx. injection E as <-.
  apply negb_false_iff, Z.eqb_eq in Hi. exists b.
  split; try done. 
  - apply grant_matches_iff. cbn. split_and!; try done. lia.
  - cbn. lia.
Qed.





(** What an admitted CONNECT was: an authenticated request of a loopback client for
    a host in scope. *)
Record connect_checked (config : ProxyConfig) (client : SocketAddr) (head : list Z) (pending : PendingConnect)
    : Prop := {
  cc_loopback : is_loopback (sa_ip client) = true;
  cc_request : exists parsed, parse_connect_head head (px_limits config) = Ok parsed /\
    scope_authorize (px_scope config) (pc_host parsed) = Ok (pq_host pending) /\
    pc_port parsed = pq_port pending /\
    verify_header_values (px_authorization config) (omap utf8_decode (pc_authorization parsed)) = true }.

Lemma admit_connect_ok p e client head now p' pending :
  admit_connect p e client head now = (p', Ok pending) ->
  connect_checked (ps_config p) client head pending /\
  pq_sequence pending = ps_sequence p + 1 /\ pq_instance_id pending = ps_instance_id p /\
  exists keep, keep ⊆ ps_pending p /\ ps_sequence p' = ps_sequence p + 1 /\
    ps_pending p' = <[pq_sequence pending := pending_record pending]> keep /\ ps_instance_id p' = ps_instance_id p /\
    ps_config p' = ps_config p.
Proof.
  unfold admit_connect. intros E. destruct (ensure_runtime_ready _ _ _); [|done].
  destruct (observe_time p now) as [p1 o] eqn:Eo. apply observe_ok in Eo as [[-> ->]|(-> & -> & _)]; [done|].
  destruct (is_loopback _) eqn:Hl; cbn [negb] in E; [|done]. cbv zeta in E.
  destruct (_ <=? _); [done|]. destruct (connect_request _ _) as [[host port]|] eqn:Hc; [|done].
  destruct (checked_add (ps_sequence _) 1) as [seq|] eqn:Es; [|done]. destruct (checked_add now _) as [exp|]; [|done].
  apply checked_add_Some in Es as [-> _]. injection E as <- <-. unfold connect_request in Hc.
  destruct (parse_connect_head _ _) as [parsed|] eqn:Hp; [|done].
  destruct (scope_authorize _ _) as [h|] eqn:Hs; [|done].
  destruct (verify_header_values _ _) eqn:Hv; [|done]. injection Hc as <- <-. split; [|split; [done|split; [done|]]].
  - split; [done|]. by exists parsed.
  - eexists. split; [apply (map_filter_subseteq (fun '(_, record) => now < pr_expires_at record))|]. done.
Qed.

(** Other calls only take pending requests away. *)
Lemma changes_pending e p q : rtc (change e) p q -> ps_sequence q = ps_sequence p -> ps_pending q ⊆ ps_pending p.
Proof.
  induction 1 as [|p q r Hc Hr IH]; [done|]. intros Hg.
  pose proof (gw_sequence _ _ (change_grows _ _ _ Hc)). pose proof (gw_sequence _ _ (changes_grow _ _ _ Hr)).
  etrans; [apply IH; lia|]. destruct Hc; cbn in *; try done; lia.
Qed.

Lemma step_sequence p e p' : proxy_step p e p' -> ps_sequence p' = ps_sequence p.
Proof.
  assert (forall q now q' r, observe_time q now = (q', r) -> ps_sequence q' = ps_sequence q) as Ho.
  { unfold observe_time. intros q now q' r E. case_match; by injection E as <- _. }
  intros [client head now r E|pending r E|g a now r E|g adm a now r E|g adm r E|pending adm g now r E|grant g now r E].
  - unfold admit_connect in E. repeat (case_match; simplify_eq/=); eauto.
  - unfold cancel in E. repeat (case_match; simplify_eq/=); eauto.
  - unfold publish_authority in E. repeat (case_match; simplify_eq/=); eauto.
  - unfold replace_authority in E. repeat (case_match; simplify_eq/=); eauto.
  - unfold revoke_authority in E. repeat (case_match; simplify_eq/=); eauto.
  - unfold authorize_connect in E. destruct (negb _); [by injection E as <- _|].
    destruct (ps_pending p !! _); [|by injection E as <- _]. destruct (negb _); [by injection E as <- _|]. cbv zeta in E.
    destruct (observe_time _ now) as [q [u|x]] eqn:Eo; apply (f_equal fst) in E; cbn [fst] in E; subst p';
      exact (Ho _ _ _ _ Eo).
  - unfold revalidate_tunnel_grant in E. destruct (ensure_registry_generation _ _); [|by injection E as <- _].
    destruct (observe_time _ now) as [q [u|x]] eqn:Eo; apply (f_equal fst) in E; cbn [fst] in E; subst p';
      exact (Ho _ _ _ _ Eo).
Qed.
(** Everything pending in a run from a fresh session was admitted in it. *)
Lemma run_pending p0 e0 p e evs log k r :
  ps_pending p0 = ∅ -> host_run p0 e0 p e evs log -> ps_pending p !! k = Some r ->
  exists client head pending, {| ad_client := client; ad_head := head; ad_pending := pending |} ∈ log /\
    pq_sequence pending = k /\ pending_record pending = r /\ pq_instance_id pending = ps_instance_id p0 /\
    connect_checked (ps_config p0) client head pending.
Proof.
  intros H0 Hr. revert k r. induction Hr as [|p e evs log evs' e' Hr IH Hm|p e evs log p' Hr IH Hs
    |p e evs log client head now p' pending Hr IH Ha]; intros k r Hl.
  - rewrite H0 in Hl. by apply lookup_empty_Some in Hl.
  - by apply IH.
  - pose proof (step_sequence _ _ _ Hs) as Heq. apply step_changes in Hs. apply IH.
    eapply lookup_weaken; [exact Hl|]. by eapply changes_pending.
  - apply admit_connect_ok in Ha as (Hc & Hseq & Hi & keep & Hk & _ & Hp & _).
    destruct (host_run_moves _ _ _ _ _ _ Hr) as ([] & _ & _).
    rewrite Hp in Hl. apply lookup_insert_Some in Hl as [[<- <-]|[_ Hl]].
    + exists client, head, pending. split; [left|]. split_and!; try done; congruence.
    + destruct (IH _ _ (lookup_weaken _ _ _ _ Hl Hk)) as (c & h & q & Hin & Hq). exists c, h, q. split; [by right|done].
Qed.

(** A consumed request never comes back. *)
Lemma run_consumed p0 e0 p e evs log k :
  k <= ps_sequence p0 -> ps_pending p0 !! k = None -> host_run p0 e0 p e evs log ->
  ps_pending p !! k = None.
Proof.
  intros Hk H0. induction 1 as [|p e evs log evs' e' Hr IH Hm|p e evs log p' Hr IH Hs
    |p e evs log client head now p' pending Hr IH Ha]; [done|done| |].
  - pose proof (step_sequence _ _ _ Hs) as Heq. apply step_changes in Hs.
    eapply lookup_weaken_None; [exact IH|]. by eapply changes_pending.
  - apply admit_connect_ok in Ha as (_ & Hseq & _ & keep & Hsub & _ & -> & _).
    destruct (host_run_moves _ _ _ _ _ _ Hr) as ([] & _ & _).
    rewrite lookup_insert_ne by lia. by eapply lookup_weaken_None.
Qed.

(** C6. What a grant rests on. In any run of a fresh session beside its engine, a
    granted tunnel answers a CONNECT admitted in that run: from a loopback client,
    with a well-formed head carrying the capability, for that host in the Handshake
    scope and that port. It is for the origin of a provider authority that is
    published at that moment and current in the engine, carries that authority's
    decision, service and trust, and ends within the authority, the publication and
    the bound on grants. *)
Theorem grant_rests_on_admission p0 e0 p e evs log pending adm expected now p' g :
  session_wf p0 -> ps_pending p0 = ∅ -> host_run p0 e0 p e evs log ->
  authorize_connect p e pending adm expected now = (p', Ok g) ->
  (exists client head, {| ad_client := client; ad_head := head; ad_pending := pending |} ∈ log /\
    connect_checked (ps_config p0) client head pending /\ pq_admitted_at pending <= now < pq_expires_at pending) /\
  exists b, ps_publications p !! tg_logical_origin g = Some b /\
    tg_logical_origin g = {| lo_scheme := Https; lo_host := pq_host pending; lo_port := pq_port pending |} /\
    oc_logical_origin (pa_origin_context (pb_authority b)) = tg_logical_origin g /\
    provider_authority_is_current e (pb_authority b) now = true /\
    tg_decision_fingerprint g = oc_decision_fingerprint (pa_origin_context (pb_authority b)) /\
    tg_service_port g = pa_service_port (pb_authority b) /\ tg_tls_policy g = pa_tls_policy (pb_authority b) /\
    tg_selected_namespace g = pa_selected_namespace (pb_authority b) /\
    now < tg_expires_at g /\
    tg_expires_at g <= Z.min (oc_valid_until (pa_origin_context (pb_authority b)))
      (Z.min (pb_publication_valid_until b) (now + maximum_grant_lifetime_seconds (px_limits (ps_config p0)))).
Proof.
  intros Hwf H0 Hrun Ha. apply authorize_connect_inv in Ha as (b & []).
  destruct (host_run_moves _ _ _ _ _ _ Hrun) as (G & Hwf' & _). specialize (Hwf' Hwf).
  split.
  - destruct (run_pending _ _ _ _ _ _ _ _ H0 Hrun ga_pending0) as (client & head & q & Hin & Hk & Hr & Hi & Hc).
    assert (q = pending) as ->.
    { destruct q, pending. unfold pending_record in Hr. cbn in *. destruct G. simplify_eq. f_equal. congruence. }
    exists client, head. done.
  - exists b. pose proof (sw_publications _ Hwf' _ _ ga_published0) as Hok.
    apply (publication_current_iff p (tg_logical_origin g) b) in ga_current0 as [_ Hcur]; [|done].
    apply grant_matches_iff in ga_matches0 as (_ & (<- & _ & _ & <- & <-) & (_ & _ & _ & _ & <-) & _).
    destruct Hok as [[] Hor _ _ _ _ _ _ _ (? & ? & ?)]. rewrite (gw_config _ _ G) in ga_expires0.
    split_and!; try done; try lia. destruct (tg_logical_origin g). cbn in *. congruence.
Qed.

(** C32. A pending request is used once. Whatever [authorize_connect] answers but
    [PendingMismatch], the same request is refused with it ever after, by
    authorization and by cancellation, without any effect. *)
Theorem pending_single_use p e pending adm expected now p1 r p2 e2 evs log e' adm' expected' now' :
  session_wf p -> authorize_connect p e pending adm expected now = (p1, r) -> r <> Err PendingMismatch ->
  host_run p1 e p2 e2 evs log ->
  authorize_connect p2 e' pending adm' expected' now' = (p2, Err PendingMismatch) /\
  cancel p2 pending = (p2, Err PendingMismatch).
Proof.
  intros Hwf Ha Hr Hrun.
  assert (ps_pending p !! pq_sequence pending <> None /\ ps_pending p1 !! pq_sequence pending = None /\
    ps_sequence p1 = ps_sequence p) as (H1 & H2 & H3).
  { unfold authorize_connect in Ha. destruct (negb _); [by injection Ha as _ <-|].
    destruct (ps_pending p !! _) as [rec|]; [|by injection Ha as _ <-]. destruct (negb _); [by injection Ha as _ <-|].
    cbv zeta in Ha. destruct (observe_time _ now) as [q o] eqn:Eo. apply observe_ok in Eo.
    assert (ps_pending q = delete (pq_sequence pending) (ps_pending p) /\ ps_sequence q = ps_sequence p) as [Hq Hs]
      by (by destruct Eo as [[_ ->]|(_ & -> & _)]).
    assert (p1 = q) as -> by (destruct o; apply (f_equal fst) in Ha; cbn [fst] in Ha; congruence).
    rewrite Hq. by rewrite lookup_delete_eq. }
  destruct (ps_pending p !! pq_sequence pending) as [rec|] eqn:Hl; [|done].
  pose proof (po_sequence _ _ _ (sw_pending _ Hwf _ _ Hl)) as Hk.
  assert (pq_sequence pending <= ps_sequence p1) as Hle by lia.
  pose proof (run_consumed _ _ _ _ _ _ _ Hle H2 Hrun) as Hn.
  unfold authorize_connect, cancel. rewrite Hn. split; by case_match.
Qed.

(** The registry invariant. Every call keeps it: sequences, generations and both
    tables stay within their bounds, every pending request and publication lies within
    its lifetime, each publication copies its authority, is for an HTTPS origin in
    scope under this process and listener, and no two share an identity. *)
Theorem session_stays_valid next endpoint identity session generation scope authorization limits config next' p0 e0
    p e evs log :
  0 <= maximum_pending limits -> 0 <= maximum_publications limits ->
  proxy_config_new endpoint identity session generation scope authorization limits = Ok config ->
  proxy_session_new next config = (next', Ok p0) -> host_run p0 e0 p e evs log -> session_wf p.
Proof.
  intros Hp Hb Hc Hn Hr. apply (host_run_moves _ _ _ _ _ _ Hr). by eapply session_new_wf.
Qed.

(** ** Concrete instances *)

Import Stdlib.Strings.String.StringSyntax.

Definition sample_loopback : SocketAddr :=
  {| sa_ip := AddrV4 [127; 0; 0; 1]; sa_port := 8080; sa_flowinfo := 0; sa_scope := 0 |}.
Definition sample_capability : ProxyAuthorization := from_capability (repeat 7 16) (repeat 255 32).
Definition sample_identity : ProxyInstanceIdentity :=
  {| pi_process_session := repeat 3 16; pi_process_generation := 1; pi_listener_generation := 1 |}.
Definition sample_proxy_config : ProxyConfig :=
  {| px_endpoint := {| le_address := sample_loopback |}; px_identity := sample_identity;
     px_runtime_session := session_bytes demo_session; px_runtime_generation := 1;
     px_scope := {| hs_root := text "a" |}; px_authorization := sample_capability; px_limits := proxy_limits_default |}.
Definition sample_head : list Z :=
  text "CONNECT a:443 HTTP/1.1" ++ CRLF ++ text "Host: A:443" ++ CRLF
  ++ text "Proxy-Authorization: " ++ proxy_authorization_header_value sample_capability ++ CRLF ++ CRLF.
Definition sample_serving : EngineState := sample_engine BrowserBridgeReady.

(** A CONNECT admitted, an authority published, a grant issued and revalidated. *)
Lemma sample_proxy_flow :
  exists p0 p1 pending p2 adm p3 g p4, proxy_session_new 1 sample_proxy_config = (2, Ok p0) /\
    admit_connect p0 sample_serving sample_loopback sample_head 11 = (p1, Ok pending) /\
    publish_authority p1 sample_serving 1 (sample_authority_at 10) 12 = (p2, Ok adm) /\
    authorize_connect p2 sample_serving pending adm 2 13 = (p3, Ok g) /\
    revalidate_tunnel_grant p3 sample_serving g 2 14 = (p4, Ok tt) /\
    size (ps_publications p3) = 1%nat /\ ps_pending p0 = ∅.
Proof.
  do 8 eexists. split; [vm_compute; reflexivity|]. split; [vm_compute; reflexivity|].
  split; [vm_compute; reflexivity|]. split; [vm_compute; reflexivity|]. split; [vm_compute; reflexivity|].
  split; vm_compute; reflexivity.
Qed.

Lemma sample_proxy_config_new :
  proxy_config_new {| le_address := sample_loopback |} sample_identity (session_bytes demo_session) 1
    {| hs_root := text "a" |} sample_capability proxy_limits_default = Ok sample_proxy_config.
Proof. vm_compute. reflexivity. Qed.

Lemma sample_new_wf p0 : proxy_session_new 1 sample_proxy_config = (2, Ok p0) -> session_wf p0.
Proof. intros E. eapply session_new_wf; [| |exact sample_proxy_config_new|exact E]; vm_compute; discriminate. Qed.


Lemma session_stays_valid_witness :
  exists p, session_wf p /\ size (ps_publications p) = 1%nat.
Proof.
  destruct sample_proxy_flow as (p0 & p1 & q & p2 & adm & p3 & g & p4 & E0 & E1 & E2 & E3 & _ & Hs & _).
  exists p3. split; [|exact Hs].
  apply (session_stays_valid 1 {| le_address := sample_loopback |} sample_identity (session_bytes demo_session) 1
    {| hs_root := text "a" |} sample_capability proxy_limits_default sample_proxy_config 2 p0 sample_serving p3
    sample_serving [] [{| ad_client := sample_loopback; ad_head := sample_head; ad_pending := q |}]).
  - vm_compute. discriminate.
  - vm_compute. discriminate.
  - exact sample_proxy_config_new.
  - exact E0.
  - eapply host_call; [eapply host_call; [eapply host_admitted; [apply host_start|exact E1]|by eapply px_publish]|by eapply px_authorize].
Defined.

Lemma grant_rests_on_admission_witness :
  exists p adm pending p' g client head, authorize_connect p sample_serving pending adm 2 13 = (p', Ok g) /\
    connect_checked sample_proxy_config client head pending.
Proof.
  destruct sample_proxy_flow as (p0 & p1 & q & p2 & adm & p3 & g & p4 & E0 & E1 & E2 & E3 & _ & _ & H0).
  assert (Hc : ps_config p0 = sample_proxy_config) by (unfold proxy_session_new in E0; cbn in E0; by injection E0 as <-).
  assert (Hrun : host_run p0 sample_serving p2 sample_serving []
    [{| ad_client := sample_loopback; ad_head := sample_head; ad_pending := q |}])
    by (eapply host_call; [eapply host_admitted; [apply host_start|exact E1]|by eapply px_publish]).
  destruct (grant_rests_on_admission p0 sample_serving p2 sample_serving [] _ q adm 2 13 p3 g (sample_new_wf _ E0) H0 Hrun E3)
    as [(client & head & _ & Hk & _) _].
  rewrite Hc in Hk. exists p2, adm, q, p3, g, client, head. split; [exact E3|exact Hk].
Defined.

Lemma pending_single_use_witness :
  exists p adm pending, authorize_connect p sample_serving pending adm 2 13 = (p, Err PendingMismatch).
Proof.
  destruct sample_proxy_flow as (p0 & p1 & q & p2 & adm & p3 & g & p4 & E0 & E1 & E2 & E3 & _ & _ & H0).
  assert (Hwf : session_wf p2).
  { eapply changes_wf; [|by eapply publish_changes]. eapply changes_wf; [by apply sample_new_wf|by eapply admit_changes]. }
  exists p3, adm, q.
  exact (proj1 (pending_single_use p2 sample_serving q adm 2 13 p3 (Ok g) p3 sample_serving [] [] sample_serving adm 2 13
    Hwf E3 ltac:(discriminate) (host_start _ _))).
Defined.

