(* ===== verification/RateLimit.v ===== *)
(** * Loopback listener: admission and rate limits

    Models [src/crates/hns-browser-loopback-proxy/src/mobile/rate_limit.rs] (its
    Chromium copy is the same file): the active-client counter, whose [try_acquire]
    is a compare-and-swap loop run by several threads, and the request limiter, one
    critical section under a mutex. Instants and durations are nanoseconds. What the
    standard library leaves open is a parameter: the greatest [Instant], and the
    keyed hash of a host name. *)

From S2P Require Import Prelude.

Definition NANOSECONDS : Z := 1000000000.

(** ** Configuration *)

Definition DEFAULT_MAX_ACTIVE_CLIENTS : Z := 128.
Definition DEFAULT_GLOBAL_REQUESTS_PER_WINDOW : Z := 2048.
Definition DEFAULT_HOST_REQUESTS_PER_WINDOW : Z := 1024.
Definition DEFAULT_MAX_TRACKED_HOSTS : Z := 256.
Definition DEFAULT_RATE_WINDOW : Z := 10 * NANOSECONDS.

Record RateLimitConfig := { global_requests : Z; per_host_requests : Z; rl_window : Z; max_tracked_hosts : Z }.
Definition rate_limit_default : RateLimitConfig :=
  {| global_requests := DEFAULT_GLOBAL_REQUESTS_PER_WINDOW; per_host_requests := DEFAULT_HOST_REQUESTS_PER_WINDOW;
     rl_window := DEFAULT_RATE_WINDOW; max_tracked_hosts := DEFAULT_MAX_TRACKED_HOSTS |}.

Inductive RateLimitConfigError :=
| ZeroGlobalLimit | ZeroHostLimit | ZeroWindow | ZeroTrackedHosts | HostLimitExceedsGlobal | ExceedsMaximum.

Definition rate_limit_validate (c : RateLimitConfig) : result RateLimitConfigError RateLimitConfig :=
  if global_requests c =? 0 then Err ZeroGlobalLimit else
  if per_host_requests c =? 0 then Err ZeroHostLimit else
  if rl_window c =? 0 then Err ZeroWindow else
  if max_tracked_hosts c =? 0 then Err ZeroTrackedHosts else
  if global_requests c <? per_host_requests c then Err HostLimitExceedsGlobal else
  if (DEFAULT_GLOBAL_REQUESTS_PER_WINDOW <? global_requests c)
     || (DEFAULT_HOST_REQUESTS_PER_WINDOW <? per_host_requests c)
     || (DEFAULT_RATE_WINDOW <? rl_window c) || (DEFAULT_MAX_TRACKED_HOSTS <? max_tracked_hosts c)
  then Err ExceedsMaximum else Ok c.

(** ** Active clients *)

(** A thread in [try_acquire], past it, or outside. *)
Inductive ClientState := Outside | Loaded (active : Z) | Refused | Holding.
#[export] Instance ClientState_eq_dec : EqDecision ClientState.
Proof. solve_decision. Defined.

(** The shared counter, and the threads. *)
Record ActiveClientLimiter := { al_active : Z; al_threads : list ClientState }.

(** One turn of the loop: refuse, or try to swap in the next count. *)
Definition acquire_turn (max_active active : Z) : option Z :=
  if max_active <=? active then None else Some (active + 1).

(** The atomic steps of the threads, in any interleaving. A weak exchange may fail on
    an equal value; then, as on another value, it returns the one it saw. *)
Inductive client_step (max_active : Z) (l : ActiveClientLimiter) : ActiveClientLimiter -> Prop :=
| step_load i : al_threads l !! i = Some Outside ->
    client_step max_active l {| al_active := al_active l; al_threads := <[i := Loaded (al_active l)]> (al_threads l) |}
| step_refuse i active : al_threads l !! i = Some (Loaded active) -> acquire_turn max_active active = None ->
    client_step max_active l {| al_active := al_active l; al_threads := <[i := Refused]> (al_threads l) |}
| step_exchange i active next : al_threads l !! i = Some (Loaded active) -> acquire_turn max_active active = Some next ->
    al_active l = active ->
    client_step max_active l {| al_active := next; al_threads := <[i := Holding]> (al_threads l) |}
| step_retry i active next : al_threads l !! i = Some (Loaded active) -> acquire_turn max_active active = Some next ->
    client_step max_active l {| al_active := al_active l; al_threads := <[i := Loaded (al_active l)]> (al_threads l) |}
| step_drop i : al_threads l !! i = Some Holding ->
    client_step max_active l {| al_active := (al_active l - 1) mod 2 ^ 64; al_threads := <[i := Outside]> (al_threads l) |}
| step_leave i : al_threads l !! i = Some Refused ->
    client_step max_active l {| al_active := al_active l; al_threads := <[i := Outside]> (al_threads l) |}.

(** [ActiveClientLimiter::new], with its threads outside. *)
Definition active_new (threads : nat) : ActiveClientLimiter := {| al_active := 0; al_threads := repeat Outside threads |}.

(** ** Requests *)

Inductive RateLimitScope := GlobalScope | HostWindowScope.
Inductive RateLimitDecision := Allowed | Limited (scope : RateLimitScope) (retry_after : Z).

(** Requests by time, oldest first. *)
Record RateLimitState := { rs_global : list Z; rs_hosts : gmap Z (list Z) }.

Section limiter.
(** The greatest instant of the platform, and the instance's keyed hash. *)
Context (INSTANT_MAX : Z) (host_hasher : list Z -> Z).

(** [Instant::checked_add] and [saturating_duration_since]. *)
Definition instant_add (instant duration : Z) : option Z :=
  if instant + duration <=? INSTANT_MAX then Some (instant + duration) else None.
Definition saturating_since (later earlier : Z) : Z := Z.max 0 (later - earlier).

Definition host_key (canonical_host : list Z) : Z := host_hasher (map to_ascii_lowercase canonical_host).

Fixpoint expire_requests (requests : list Z) (now window : Z) : list Z :=
  match requests with
  | [] => []
  | request :: rest =>
      if match instant_add request window with Some expires => expires <=? now | None => false end
      then expire_requests rest now window else requests
  end.

Definition retry_after (requests : list Z) (now window : Z) : Z :=
  match head requests ≫= fun request => instant_add request window with
  | Some expires => saturating_since expires now
  | None => window
  end.

Definition min_of (l : list Z) : option Z :=
  match l with [] => None | x :: l => Some (fold_left Z.min l x) end.

(** The shortest wait for a tracked host to go. *)
Definition tracked_retry (hosts : gmap Z (list Z)) (now window : Z) : Z :=
  default window (min_of (map (fun expires => saturating_since expires now)
    (omap (fun request => instant_add request window) (omap head (map snd (map_to_list hosts)))))).

Definition rate_check (config : RateLimitConfig) (s : RateLimitState) (canonical_host : list Z) (now : Z)
    : RateLimitState * RateLimitDecision :=
  let key := host_key canonical_host in
  let global := expire_requests (rs_global s) now (rl_window config) in
  let hosts := filter (fun '(_, requests) => requests <> [])
                      ((fun requests => expire_requests requests now (rl_window config)) <$> rs_hosts s) in
  let s := {| rs_global := global; rs_hosts := hosts |} in
  if global_requests config <=? zlen global
  then (s, Limited GlobalScope (retry_after global now (rl_window config))) else
  match hosts !! key with
  | Some requests =>
      if per_host_requests config <=? zlen requests
      then (s, Limited HostWindowScope (retry_after requests now (rl_window config)))
      else ({| rs_global := global ++ [now]; rs_hosts := <[key := requests ++ [now]]> hosts |}, Allowed)
  | None =>
      if max_tracked_hosts config <=? Z.of_nat (size hosts)
      then (s, Limited HostWindowScope (tracked_retry hosts now (rl_window config)))
      else ({| rs_global := global ++ [now]; rs_hosts := <[key := [now]]> hosts |}, Allowed)
  end.

(** [RequestRateLimiter::new]. *)
Definition rate_limiter_new (config : RateLimitConfig) : result RateLimitConfigError (RateLimitConfig * RateLimitState) :=
  let? config := rate_limit_validate config in Ok (config, {| rs_global := []; rs_hosts := ∅ |}).

Definition tracked_hosts (s : RateLimitState) : Z := Z.of_nat (size (rs_hosts s)).

End limiter.
