(* ===== verification/RateLimitProps.v ===== *)
(** * Loopback listener: what the limits guarantee

    No interleaving of clients holds more slots than there are, and a client is
    refused only when all were taken; the request limiter decides as the log of all
    admitted requests does, so no window ever holds more than its limits. *)

From Stdlib Require Import Sorted.
From stdpp Require Import sorting.
From S2P Require Import Prelude RateLimit.

(** ** Active clients *)

Definition slots (c : ClientState) : Z := if decide (c = Holding) then 1 else 0.
Fixpoint holders (threads : list ClientState) : Z :=
  match threads with [] => 0 | c :: threads => slots c + holders threads end.
Definition holding (l : ActiveClientLimiter) : Z := holders (al_threads l).

Lemma slots_range c : 0 <= slots c <= 1.
Proof. unfold slots. case_decide; lia. Qed.

Lemma holders_nonneg threads : 0 <= holders threads.
Proof. induction threads as [|c threads IH]; cbn; [done|]. pose proof (slots_range c). lia. Qed.

Lemma holders_lookup threads i x : threads !! i = Some x -> slots x <= holders threads.
Proof.
  revert i. induction threads as [|c threads IH]; intros [|i]; cbn; [done|done| |].
  - intros [= ->]. pose proof (holders_nonneg threads). lia.
  - intros Hi%IH. pose proof (slots_range c). lia.
Qed.

Lemma holders_insert threads i x y :
  threads !! i = Some x -> holders (<[i := y]> threads) = holders threads - slots x + slots y.
Proof.
  revert i. induction threads as [|c threads IH]; intros [|i]; cbn; [done|done| |].
  - intros [= ->]. lia.
  - intros Hi%IH. change (slots c + holders (<[i := y]> threads) = slots c + holders threads - slots x + slots y). lia.
Qed.

(** The counter is the number of holders, and no thread saw more than the limit. *)
Record slots_ok (max_active : Z) (l : ActiveClientLimiter) : Prop := {
  so_count : al_active l = holding l;
  so_bound : al_active l <= max_active;
  so_seen : forall i a, al_threads l !! i = Some (Loaded a) -> a <= max_active }.

Lemma seen_insert max_active l i y :
  slots_ok max_active l -> (forall a, y = Loaded a -> a <= max_active) ->
  forall j a, <[i := y]> (al_threads l) !! j = Some (Loaded a) -> a <= max_active.
Proof.
  intros Hok Hy j a Hj. apply list_lookup_insert_Some in Hj as [(-> & -> & _)|[_ Hj]]; [by apply Hy|by eapply so_seen].
Qed.

Lemma acquire_turn_some max_active a n : acquire_turn max_active a = Some n -> a < max_active /\ n = a + 1.
Proof. unfold acquire_turn. destruct (Z.leb_spec max_active a); [done|]. by intros [= <-]. Qed.

Lemma client_slots_step max_active l l' :
  max_active < 2 ^ 64 -> slots_ok max_active l -> client_step max_active l l' -> slots_ok max_active l'.
Proof.
  intros Hmax Hok Hs. pose proof Hok as [Hc Hb _]. unfold holding in *. pose proof (holders_nonneg (al_threads l)) as Hn.
  destruct Hs as [i Hi|i a Hi Ha|i a n Hi Ha Heq|i a n Hi Ha|i Hi|i Hi];
    (split; [unfold holding|cbn|apply (seen_insert _ _ _ _ Hok); by intros ? [= <-]]);
    cbn [al_active al_threads]; rewrite ?(holders_insert _ _ _ _ Hi); unfold slots; cbn [decide]; try lia.
  all: repeat case_decide; try done; try lia.
  - apply acquire_turn_some in Ha as [? ->]. lia.
  - apply acquire_turn_some in Ha as [? ->]. lia.
  - pose proof (holders_lookup _ _ _ Hi) as Hl. unfold slots in Hl. rewrite decide_True in Hl by done. rewrite Z.mod_small; lia.
  - pose proof (holders_lookup _ _ _ Hi) as Hl. unfold slots in Hl. rewrite decide_True in Hl by done. rewrite Z.mod_small; lia.
Qed.

Lemma slots_new max_active n : 0 <= max_active -> slots_ok max_active (active_new n).
Proof.
  intros Hm. unfold active_new. split; cbn; [|done|].
  - unfold holding. cbn. induction n as [|n IH]; [done|]. cbn. by rewrite <- IH.
  - intros i a Hi. apply list_elem_of_lookup_2, list_elem_of_In, repeat_spec in Hi. done.
Qed.

Lemma slots_reach max_active n l :
  0 <= max_active < 2 ^ 64 -> rtc (client_step max_active) (active_new n) l -> slots_ok max_active l.
Proof.
  intros Hm Hr. remember (active_new n) as l0 eqn:E. assert (slots_ok max_active l0) as Hok by (subst; apply slots_new; lia).
  clear E. induction Hr as [|l0 l1 l Hs _ IH]; [done|]. apply IH. eapply client_slots_step; [lia|done|done].
Qed.

(** A thread about to refuse, or that has refused, read the limit, and then it was full. *)
Lemma read_full max_active n l i : 0 <= max_active < 2 ^ 64 ->
  rtc (client_step max_active) (active_new n) l ->
  (al_threads l !! i = Some Refused \/ al_threads l !! i = Some (Loaded max_active)) ->
  exists l0, rtc (client_step max_active) (active_new n) l0 /\ rtc (client_step max_active) l0 l /\ holding l0 = max_active.
Proof.
  intros Hm Hr. revert i. pattern l. refine (rtc_ind_r _ _ _ _ _ Hr).
  - intros i [Hi|Hi]; apply list_elem_of_lookup_2, list_elem_of_In, repeat_spec in Hi; done.
  - clear Hr. intros l1 l2 Hr Hs IH i Hi. pose proof (slots_reach _ _ _ Hm Hr) as [Hc Hb Hseen].
    assert (forall j, al_threads l1 !! j = Some Refused \/ al_threads l1 !! j = Some (Loaded max_active) ->
      exists l0, rtc (client_step max_active) (active_new n) l0 /\ rtc (client_step max_active) l0 l2 /\ holding l0 = max_active) as Hold.
    { intros j (l0 & H1 & H2 & H3)%IH. exists l0. split_and!; [done|by eapply rtc_r|done]. }
    assert (al_active l1 = max_active -> exists l0, rtc (client_step max_active) (active_new n) l0 /\
      rtc (client_step max_active) l0 l2 /\ holding l0 = max_active) as Hnow.
    { intros E. exists l1. split_and!; [done|by apply rtc_once|lia]. }
    destruct Hs as [j Hj|j a Hj Ha|j a m Hj Ha Heq|j a m Hj Ha|j Hj|j Hj]; cbn [al_threads] in Hi;
      (destruct (decide (i = j)) as [->|Hne];
        [rewrite list_lookup_insert_eq in Hi by (by eapply lookup_lt_Some)|
         rewrite list_lookup_insert_ne in Hi by done; by apply (Hold i)]).
    + destruct Hi as [|Hi]; [done|]. injection Hi as Hi. by apply Hnow.
    + apply (Hold j). right. unfold acquire_turn in Ha. destruct (Z.leb_spec max_active a); [|done].
      pose proof (Hseen _ _ Hj). rewrite Hj. do 2 f_equal. lia.
    + by destruct Hi.
    + destruct Hi as [|Hi]; [done|]. injection Hi as Hi. by apply Hnow.
    + by destruct Hi.
    + by destruct Hi.
Qed.

(** C23. Slots are exact under any interleaving. In every state the threads can reach, the
    counter is the number of threads holding a permit, never above the limit and never
    wrapping; a refused thread was refused because at some earlier point all slots were
    held at once; and while a slot is free a thread that enters and is not disturbed
    holds one after its two atomic operations. *)
Theorem client_slots_exact max_active threads l :
  0 <= max_active < 2 ^ 64 -> rtc (client_step max_active) (active_new threads) l ->
  (al_active l = holding l /\ 0 <= holding l <= max_active) /\
  (forall i, al_threads l !! i = Some Refused ->
     exists l0, rtc (client_step max_active) (active_new threads) l0 /\ rtc (client_step max_active) l0 l /\
       holding l0 = max_active) /\
  (forall i, al_threads l !! i = Some Outside -> holding l < max_active ->
     exists l1 l2, client_step max_active l l1 /\ client_step max_active l1 l2 /\
       al_threads l2 !! i = Some Holding /\ holding l2 = holding l + 1).
Proof.
  intros Hm Hr. pose proof (slots_reach _ _ _ Hm Hr) as [Hc Hb _]. split_and!.
  - done.
  - apply holders_nonneg.
  - lia.
  - intros i Hi. eapply read_full; [done|done|by left].
  - intros i Hi Hfree. eexists _, _. split; [by apply (step_load _ _ i)|]. pose proof (lookup_lt_Some _ _ _ Hi) as Hlt.
    split; [|split].
    + apply (step_exchange _ _ i (al_active l) (al_active l + 1)); cbn; [by rewrite list_lookup_insert_eq|
        |done]. unfold acquire_turn. rewrite (proj2 (Z.leb_gt _ _)) by lia. done.
    + cbn [al_threads]. rewrite list_lookup_insert_eq; [done|]. by rewrite length_insert.
    + unfold holding. cbn [al_threads]. rewrite (holders_insert _ i (Loaded (al_active l))) by (by rewrite list_lookup_insert_eq).
      rewrite (holders_insert _ i Outside) by done. unfold slots. repeat case_decide; try done. lia.
Qed.

Lemma client_slots_exact_witness :
  exists l, rtc (client_step 1) (active_new 2) l /\ al_threads l = [Holding; Refused] /\ al_active l = holding l.
Proof.
  exists {| al_active := 1; al_threads := [Holding; Refused] |}.
  assert (rtc (client_step 1) (active_new 2) {| al_active := 1; al_threads := [Holding; Refused] |}) as Hr.
  { eapply rtc_l; [apply (step_load _ _ 0%nat); reflexivity|]. eapply rtc_l; [apply (step_exchange _ _ 0%nat 0 1); reflexivity|].
    eapply rtc_l; [apply (step_load _ _ 1%nat); reflexivity|]. eapply rtc_l; [apply (step_refuse _ _ 1%nat 1); reflexivity|].
    apply rtc_refl. }
  split; [exact Hr|]. split; [reflexivity|].
  destruct (client_slots_exact 1 2 _ ltac:(lia) Hr) as [[Hc _] _]. exact Hc.
Defined.
