(* ===== verification/RateWindowProps.v ===== *)
(** * Loopback listener: the sliding windows

    The request limiter decides as a reference does that keeps the whole log of
    admitted requests and looks at those within the window; from that, no window
    exceeds a limit, and the wait it reports is the shortest after which a retry can
    be admitted. *)

From Stdlib Require Import Sorted.
From stdpp Require Import sorting.
From S2P Require Import Prelude RateLimit.

Section window.
Context (INSTANT_MAX : Z) (host_hasher : list Z -> Z) (config : RateLimitConfig).
Notation window := (rl_window config).
Implicit Types (log l : list (Z * Z)) (e : Z * Z) (now key : Z).

(** ** The reference: a log of admitted requests, by host key and time *)

Definition recent log now : list (Z * Z) := filter (fun e => now < e.2 + window) log.
Definition of_key key log : list (Z * Z) := filter (fun e => e.1 = key) log.
Definition keys log : gset Z := list_to_set (map fst log).
Definition wait l now : Z := match head l with Some e => e.2 + window - now | None => window end.

Definition log_check log key now : RateLimitDecision :=
  let r := recent log now in
  if global_requests config <=? zlen r then Limited GlobalScope (wait r now) else
  if bool_decide (of_key key r = []) then
    if max_tracked_hosts config <=? Z.of_nat (size (keys r)) then Limited HostWindowScope (wait r now) else Allowed
  else if per_host_requests config <=? zlen (of_key key r) then Limited HostWindowScope (wait (of_key key r) now)
  else Allowed.
Definition log_next log key now (d : RateLimitDecision) : list (Z * Z) :=
  match d with Allowed => log ++ [(key, now)] | Limited _ _ => log end.

(** ** Facts on logs *)

Definition by_time log : Prop := StronglySorted (fun e e' => e.2 <= e'.2) log.

Lemma filter_sorted (P : Z * Z -> Prop) `{!forall e, Decision (P e)} log : by_time log -> by_time (filter P log).
Proof.
  induction 1 as [|e log Hs IH Hlt]; [constructor|]. rewrite filter_cons. case_decide; [|done]. constructor; [done|].
  rewrite Forall_forall in *. intros e' [_ ?]%list_elem_of_filter. by apply Hlt.
Qed.

Lemma filter_all (P : Z * Z -> Prop) `{!forall e, Decision (P e)} log : Forall P log -> filter P log = log.
Proof. induction 1 as [|e log He _ IH]; [done|]. rewrite filter_cons_True by done. by rewrite IH. Qed.

Lemma filter_none (P : Z * Z -> Prop) `{!forall e, Decision (P e)} log : Forall (fun e => ~ P e) log -> filter P log = [].
Proof. induction 1 as [|e log He _ IH]; [done|]. by rewrite filter_cons_False. Qed.

Lemma recent_recent log last now : last <= now -> recent (recent log last) now = recent log now.
Proof.
  intros Hle. unfold recent. rewrite list_filter_filter. apply list_filter_iff. intros e. lia.
Qed.

Lemma of_key_recent key log last now : last <= now -> of_key key (recent log now) = recent (of_key key (recent log last)) now.
Proof.
  intros Hle. unfold of_key, recent. rewrite !list_filter_filter. apply list_filter_iff. intros e. split; [intros []|intros [? []]]; split_and!; try done; lia.
Qed.

Lemma recent_elem log now e : e ∈ recent log now <-> now < e.2 + window /\ e ∈ log.
Proof. unfold recent. by rewrite list_elem_of_filter. Qed.
Lemma of_key_elem key log e : e ∈ of_key key log <-> e.1 = key /\ e ∈ log.
Proof. unfold of_key. by rewrite list_elem_of_filter. Qed.

Lemma of_key_nil key log : of_key key log = [] <-> key ∉ keys log.
Proof.
  unfold keys. rewrite elem_of_list_to_set, list_elem_of_fmap. split.
  - intros E (e & -> & He). apply (not_elem_of_nil e). rewrite <- E. by apply of_key_elem.
  - intros Hn. apply filter_none. rewrite Forall_forall. intros e He Ek. apply Hn. by exists e.
Qed.

(** ** Expiry drops what left the window *)

Definition in_instants log : Prop := Forall (fun e => e.2 + window <= INSTANT_MAX) log.

Lemma expire_recent log now :
  by_time log -> in_instants log -> expire_requests INSTANT_MAX (map snd log) now window = map snd (recent log now).
Proof.
  induction 1 as [|e log Hs IH Hlt]; intros Hr; [done|]. apply Forall_cons in Hr as [He Hr]. cbn [map expire_requests].
  unfold instant_add. rewrite (proj2 (Z.leb_le _ _)) by done. unfold recent. rewrite filter_cons.
  destruct (Z.leb_spec (e.2 + window) now) as [Hle|Hgt].
  - rewrite decide_False by lia. by apply IH.
  - rewrite decide_True by lia. cbn [map]. f_equal. rewrite filter_all; [done|].
    eapply Forall_impl; [exact Hlt|]. cbn beta. intros e' ?. lia.
Qed.

Lemma wait_retry l now : in_instants l -> Forall (fun e => now < e.2 + window) l ->
  retry_after INSTANT_MAX (map snd l) now window = wait l now.
Proof.
  intros Hr Hn. unfold retry_after, wait. destruct l as [|e l]; [done|]. apply Forall_cons in Hr as [He _], Hn as [Hn _].
  cbn. unfold instant_add. rewrite (proj2 (Z.leb_le _ _)) by done. unfold saturating_since. lia.
Qed.

(** ** The state tracks the log *)

Definition nonempty (l : list Z) : option (list Z) := match l with [] => None | _ => Some l end.

Record tracks log now (s : RateLimitState) : Prop := {
  tk_sorted : by_time log;
  tk_past : Forall (fun e => e.2 <= now) log;
  tk_range : in_instants log;
  tk_global : rs_global s = map snd (recent log now);
  tk_hosts : forall key, rs_hosts s !! key = nonempty (map snd (of_key key (recent log now))) }.

(** The hosts kept after expiry. *)
Definition live_hosts (s : RateLimitState) now : gmap Z (list Z) :=
  filter (fun '(_, requests) => requests <> [])
         ((fun requests => expire_requests INSTANT_MAX requests now window) <$> rs_hosts s).

Lemma live_lookup log last s now key :
  tracks log last s -> last <= now -> live_hosts s now !! key = nonempty (map snd (of_key key (recent log now))).
Proof.
  intros [Hs _ Hr _ Hh] Hle. unfold live_hosts. rewrite map_lookup_filter, lookup_fmap, Hh, (of_key_recent key log last now) by done.
  assert (by_time (of_key key (recent log last)) /\ in_instants (of_key key (recent log last))) as [Hs' Hr'].
  { split; [by apply filter_sorted, filter_sorted|]. apply Forall_forall. intros e [_ [_ He]%recent_elem]%of_key_elem.
    unfold in_instants in Hr. rewrite Forall_forall in Hr. by apply Hr. }
  pose proof (expire_recent _ now Hs' Hr') as He. destruct (of_key key (recent log last)) as [|e l]; [done|].
  cbn [map nonempty fmap option_fmap option_map mbind option_bind] in *. rewrite He.
  destruct (map snd (recent (e :: l) now)); [|by rewrite option_guard_True]. by rewrite option_guard_False by (intros Hn; by apply Hn).
Qed.
(** As many hosts as keys are in the window. *)
Lemma hosts_size (hosts : gmap Z (list Z)) l :
  (forall key, hosts !! key = nonempty (map snd (of_key key l))) -> size hosts = size (keys l).
Proof.
  intros Hh. rewrite <- size_dom. f_equal. apply set_eq. intros key. rewrite elem_of_dom, Hh.
  destruct (of_key key l) as [|e own] eqn:E.
  - apply of_key_nil in E. cbn. split; [by intros []|done].
  - cbn. split; [|eauto]. intros _. destruct (decide (key ∈ keys l)) as [|Hn%of_key_nil]; [done|congruence].
Qed.
Lemma live_size log last s now : tracks log last s -> last <= now -> size (live_hosts s now) = size (keys (recent log now)).
Proof. intros. apply hosts_size. intros. by eapply live_lookup. Qed.

Lemma min_of_spec (l : list Z) (m : Z) : m ∈ l -> Forall (fun x => m <= x) l -> min_of l = Some m.
Proof.
  destruct l as [|x l]; [by intros ?%not_elem_of_nil|]. intros Hin Hall. cbn. f_equal.
  assert (forall (l : list Z) a, m <= a -> Forall (fun x => m <= x) l -> m ∈ a :: l -> fold_left Z.min l a = m) as Hf.
  { clear. induction l as [|x l IH]; intros a Ha Hall Hin; cbn.
    - by apply list_elem_of_singleton in Hin.
    - apply Forall_cons in Hall as [Hx Hall]. apply IH; [lia|done|]. apply elem_of_cons.
      apply elem_of_cons in Hin as [-> |[-> |?]%elem_of_cons]; [left; lia|left; lia|by right]. }
  apply Forall_cons in Hall as [Hx Hall]. by apply Hf.
Qed.

Lemma tracked_retry_wait log last s now :
  tracks log last s -> last <= now -> recent log now <> [] ->
  tracked_retry INSTANT_MAX (live_hosts s now) now window = wait (recent log now) now.
Proof.
  intros Ht Hle Hne. pose proof Ht as [Hs _ Hr _ _]. destruct (recent log now) as [|e0 r] eqn:Er; [done|]. cbn [wait head].
  assert (forall e, e ∈ recent log now -> e0.2 <= e.2 /\ now < e.2 + window /\ e.2 + window <= INSTANT_MAX) as Hall.
  { intros e He. pose proof (filter_sorted (fun e => now < e.2 + window) log Hs) as Hso. fold (recent log now) in Hso.
    pose proof He as [Hn Hl]%recent_elem. unfold in_instants in Hr. rewrite Forall_forall in Hr. specialize (Hr e Hl).
    split; [|done]. rewrite Er in Hso, He. inversion Hso as [|? ? _ Hlt]; subst. rewrite Forall_forall in Hlt.
    apply elem_of_cons in He as [->|He]; [lia|by apply Hlt]. }
  unfold tracked_retry. rewrite (min_of_spec _ (e0.2 + window - now)); [done|..].
  - destruct (Hall e0) as (_ & H1 & H2); [rewrite Er; left|].
    apply list_elem_of_fmap. exists (e0.2 + window). split; [unfold saturating_since; lia|].
    apply list_elem_of_omap. exists e0.2. unfold instant_add. rewrite (proj2 (Z.leb_le _ _)) by done. split; [|done].
    apply list_elem_of_omap. exists (map snd (of_key e0.1 (recent log now))). split.
    + apply list_elem_of_fmap. exists (e0.1, map snd (of_key e0.1 (recent log now))). split; [done|].
      apply elem_of_map_to_list. rewrite (live_lookup log last) by done. rewrite Er. unfold of_key. rewrite filter_cons_True by done. done.
    + rewrite Er. unfold of_key. rewrite filter_cons_True by done. done.
  - apply Forall_forall. intros x (y & -> & Hy)%list_elem_of_fmap.
    apply list_elem_of_omap in Hy as (t & Ht' & Hadd). apply list_elem_of_omap in Ht' as (ts & Hts & Hhead).
    apply list_elem_of_fmap in Hts as ([key ts'] & -> & Hk%elem_of_map_to_list). rewrite (live_lookup log last) in Hk by done.
    cbn in Hhead. destruct (of_key key (recent log now)) as [|e l] eqn:Ek; [done|]. injection Hk as <-. injection Hhead as <-.
    assert (e ∈ of_key key (recent log now)) as [_ He]%of_key_elem by (rewrite Ek; left).
    destruct (Hall e He) as (H1 & H2 & H3). unfold instant_add in Hadd. rewrite (proj2 (Z.leb_le _ _)) in Hadd by done.
    injection Hadd as <-. unfold saturating_since. lia.
Qed.

Lemma tracks_later log last s now :
  tracks log last s -> last <= now ->
  tracks log now {| rs_global := map snd (recent log now); rs_hosts := live_hosts s now |}.
Proof.
  intros Ht Hle. pose proof Ht as [Hs Hp Hr _ _]. split; [done| |done|done|by intros; eapply live_lookup].
  eapply Forall_impl; [exact Hp|]. cbn beta. intros. lia.
Qed.

(** Recording an admitted request. *)
Lemma tracks_admitted log now key s :
  0 < window -> tracks log now s -> now + window <= INSTANT_MAX ->
  tracks (log ++ [(key, now)]) now
    {| rs_global := rs_global s ++ [now];
       rs_hosts := <[key := default [] (rs_hosts s !! key) ++ [now]]> (rs_hosts s) |}.
Proof.
  intros Hw [Hs Hp Hr Hg Hh] Hmax.
  assert (recent (log ++ [(key, now)]) now = recent log now ++ [(key, now)]) as Erecent.
  { unfold recent. rewrite filter_app. by rewrite (filter_cons_True _ (key, now)) by (cbn; lia). }
  split; cbn [rs_global rs_hosts].
  - apply StronglySorted_app. split_and!; [|done|by repeat constructor]. intros e e' He ->%list_elem_of_singleton.
    rewrite Forall_forall in Hp. by apply Hp.
  - apply Forall_app. split; [done|]. by repeat constructor.
  - apply Forall_app. split; [done|]. by repeat constructor.
  - by rewrite Erecent, map_app, Hg.
  - intros k. rewrite Erecent. unfold of_key at 1. rewrite filter_app, filter_cons. fold (of_key k (recent log now)).
    destruct (decide (key = k)) as [->|Hne].
    + rewrite lookup_insert_eq, Hh. cbn [fst]. rewrite decide_True by done. rewrite map_app. cbn [map].
      destruct (map snd (of_key k (recent log now))); done.
    + rewrite lookup_insert_ne by done. cbn [fst]. rewrite decide_False by done. by rewrite app_nil_r, Hh.
Qed.

(** One check is one step of the reference. *)
Lemma check_tracks log last s host now :
  0 < window -> 1 <= max_tracked_hosts config -> tracks log last s -> last <= now -> now + window <= INSTANT_MAX ->
  exists s', rate_check INSTANT_MAX host_hasher config s host now = (s', log_check log (host_key host_hasher host) now) /\
    tracks (log_next log (host_key host_hasher host) now (log_check log (host_key host_hasher host) now)) now s'.
Proof.
  intros Hw Hmt Ht Hle Hmax. set (key := host_key host_hasher host). pose proof (tracks_later log last s now Ht Hle) as Hl.
  pose proof (live_lookup log last s now key Ht Hle) as Hkey. pose proof (live_size log last s now Ht Hle) as Hsize.
  pose proof Ht as [Hs Hp Hr Hg Hh].
  assert (Forall (fun e => now < e.2 + window) (recent log now) /\ in_instants (recent log now)) as [Hn Hrr].
  { unfold in_instants in *. rewrite !Forall_forall in *. split; [by intros e [? _]%recent_elem|intros e [_ He]%recent_elem; by apply Hr]. }
  assert (expire_requests INSTANT_MAX (rs_global s) now window = map snd (recent log now)) as Eg.
  { rewrite Hg, expire_recent; [by rewrite (recent_recent log last now)|by apply filter_sorted|].
    unfold in_instants in *. rewrite Forall_forall in *. intros e [_ He]%recent_elem. by apply Hr. }
  unfold rate_check. cbv zeta. fold key. rewrite Eg. fold (live_hosts s now). unfold log_check.
  assert (zlen (map snd (recent log now)) = zlen (recent log now)) as -> by (unfold zlen; by rewrite length_map).
  destruct (global_requests config <=? zlen (recent log now)).
  { rewrite wait_retry by done. eexists. by split. }
  rewrite Hkey. destruct (of_key key (recent log now)) as [|e own] eqn:Eo.
  - cbn [map nonempty]. rewrite bool_decide_eq_true_2 by done. rewrite Hsize.
    destruct (Z.leb_spec (max_tracked_hosts config) (Z.of_nat (size (keys (recent log now))))) as [Hfull|].
    + rewrite (tracked_retry_wait log last) by (done || (intros E; rewrite E in Hfull; change (keys []) with (∅ : gset Z) in Hfull; rewrite size_empty in Hfull; lia)). eexists. by split.
    + eexists. split; [done|]. pose proof (tracks_admitted log now key _ Hw Hl Hmax) as Ha. cbn [rs_global rs_hosts] in Ha.
      rewrite Hkey in Ha. exact Ha.
  - rewrite bool_decide_eq_false_2 by done. cbn [map nonempty].
    assert (zlen (e.2 :: map snd own) = zlen (e :: own)) as -> by (unfold zlen; cbn; by rewrite length_map).
    destruct (per_host_requests config <=? zlen (e :: own)).
    + change (e.2 :: map snd own) with (map snd (e :: own)). rewrite <- Eo. rewrite wait_retry; [eexists; by split|..];
        unfold in_instants in *; rewrite Forall_forall in *; intros e' [_ He']%of_key_elem; [by apply Hrr|by apply Hn].
    + eexists. split; [done|]. pose proof (tracks_admitted log now key _ Hw Hl Hmax) as Ha. cbn [rs_global rs_hosts] in Ha.
      rewrite Hkey in Ha. exact Ha.
Qed.

(** ** Runs *)

(** Requests, as host and time; the limiter's answers, and the reference's. *)
Fixpoint rate_run (s : RateLimitState) (calls : list (list Z * Z)) : RateLimitState * list RateLimitDecision :=
  match calls with
  | [] => (s, [])
  | (host, now) :: calls =>
      let '(s, d) := rate_check INSTANT_MAX host_hasher config s host now in
      let '(s, decisions) := rate_run s calls in (s, d :: decisions)
  end.
Fixpoint log_run log (calls : list (list Z * Z)) : list (Z * Z) * list RateLimitDecision :=
  match calls with
  | [] => (log, [])
  | (host, now) :: calls =>
      let d := log_check log (host_key host_hasher host) now in
      let '(log, decisions) := log_run (log_next log (host_key host_hasher host) now d) calls in (log, d :: decisions)
  end.

(** Each request after the last, and in the platform's range of instants. *)
Fixpoint in_order (start : Z) (calls : list (list Z * Z)) : Prop :=
  match calls with
  | [] => True
  | (_, now) :: calls => start <= now /\ now + window <= INSTANT_MAX /\ in_order now calls
  end.
Definition last_time (start : Z) (calls : list (list Z * Z)) : Z := default start (last (map snd calls)).

(** A configuration of unsigned fields that [validate] passes. *)
Definition config_unsigned : Prop :=
  0 <= global_requests config /\ 0 <= per_host_requests config /\ 0 <= window /\ 0 <= max_tracked_hosts config.

Lemma new_positive c s : config_unsigned -> rate_limiter_new config = Ok (c, s) ->
  c = config /\ s = {| rs_global := []; rs_hosts := ∅ |} /\
  1 <= global_requests config /\ 1 <= per_host_requests config /\ 0 < window /\ 1 <= max_tracked_hosts config.
Proof.
  intros (? & ? & ? & ?). unfold rate_limiter_new, rate_limit_validate.
  repeat match goal with |- context [if ?b then _ else _] => destruct b eqn:? end; try discriminate.
  intros [= <- <-]. rewrite !Z.eqb_neq in *. split_and!; try done; lia.
Qed.

Lemma tracks_new start : tracks [] start {| rs_global := []; rs_hosts := ∅ |}.
Proof. split; [constructor|constructor|constructor|done|]. intros key. cbn [rs_hosts]. by rewrite lookup_empty. Qed.

Lemma last_time_cons start host now calls : last_time start ((host, now) :: calls) = last_time now calls.
Proof. unfold last_time. cbn [map snd]. rewrite last_cons. by destruct (last (map snd calls)). Qed.

Lemma run_tracks calls : forall log start s,
  0 < window -> 1 <= max_tracked_hosts config -> tracks log start s -> in_order start calls ->
  (rate_run s calls).2 = (log_run log calls).2 /\
  tracks (log_run log calls).1 (last_time start calls) (rate_run s calls).1.
Proof.
  induction calls as [|[host now] calls IH]; intros log start s Hw Hm Ht Ho; [done|]. destruct Ho as (Hle & Hmax & Ho).
  rewrite last_time_cons. destruct (check_tracks log start s host now Hw Hm Ht Hle Hmax) as (s' & Ec & Ht').
  cbn [rate_run log_run]. cbv zeta. rewrite Ec. destruct (IH _ _ _ Hw Hm Ht' Ho) as [Ed Hl]. clear IH Ec.
  destruct (rate_run s' calls), (log_run _ calls). cbn [fst snd] in *. by subst.
Qed.

(** C21. The request limiter is an exact sliding window over hashed host names. Made
    from a configuration that passes [validate] and asked in the order of time, it
    answers every request as the reference that keeps the whole log of admitted
    requests and looks at those less than a window old; and what it holds is that
    part of the log: its queue is the times, each host's queue is the times of the
    host's key, hosts without a request in the window are gone, and [tracked_hosts]
    counts the keys. *)
Theorem rate_limiter_refines_log c s start calls :
  config_unsigned -> rate_limiter_new config = Ok (c, s) -> in_order start calls ->
  (rate_run s calls).2 = (log_run [] calls).2 /\
  tracks (log_run [] calls).1 (last_time start calls) (rate_run s calls).1 /\
  tracked_hosts (rate_run s calls).1 = Z.of_nat (size (keys (recent (log_run [] calls).1 (last_time start calls)))).
Proof.
  intros Hu Hn Ho. destruct (new_positive c s Hu Hn) as (_ & -> & _ & _ & Hw & Hm).
  destruct (run_tracks calls [] start _ Hw Hm (tracks_new start) Ho) as [Hd Ht]. split_and!; [done|done|].
  unfold tracked_hosts. f_equal. apply hosts_size, Ht.
Qed.
End window.

(** ** A small limiter *)

Definition sample_rate_config : RateLimitConfig :=
  {| global_requests := 3; per_host_requests := 2; rl_window := 10; max_tracked_hosts := 2 |}.
Definition sample_hasher (host : list Z) : Z := foldr (fun b h => b + 256 * h) 0 host.
Definition sample_calls : list (list Z * Z) := [([97], 0); ([65], 1); ([97], 2); ([98], 3); ([99], 4); ([99], 11)].
Definition sample_fresh : RateLimitState := {| rs_global := []; rs_hosts := ∅ |}.

Lemma sample_calls_run : (rate_run 1000 sample_hasher sample_rate_config sample_fresh sample_calls).2 =
  [Allowed; Allowed; Limited HostWindowScope 8; Allowed; Limited GlobalScope 6; Allowed].
Proof. vm_compute. reflexivity. Qed.

Lemma rate_limiter_refines_log_witness :
  exists s, rate_limiter_new sample_rate_config = Ok (sample_rate_config, s) /\
    (log_run sample_hasher sample_rate_config [] sample_calls).2 =
      [Allowed; Allowed; Limited HostWindowScope 8; Allowed; Limited GlobalScope 6; Allowed].
Proof.
  exists sample_fresh. split; [reflexivity|].
  destruct (rate_limiter_refines_log 1000 sample_hasher sample_rate_config sample_rate_config sample_fresh 0 sample_calls)
    as [Hd _]; [unfold config_unsigned; cbn; lia|reflexivity|cbn; lia|].
  rewrite <- Hd. apply sample_calls_run.
Defined.
