(* ===== verification/RateRetryProps.v ===== *)
(** * Loopback listener: what the windows promise

    From the reference of [RateWindowProps]: no window of the admitted requests
    exceeds a limit, and the wait reported with a refusal is how long the refusal
    lasts; for a full host table it is only how long it lasts at least. *)

From Stdlib Require Import Sorted.
From stdpp Require Import sorting.
From S2P Require Import Prelude RateLimit RateWindowProps.

Section retry.
Context (INSTANT_MAX : Z) (host_hasher : list Z -> Z) (config : RateLimitConfig).
Notation window := (rl_window config).
Notation recent := (recent config).
Notation wait := (wait config).
Notation log_check := (log_check config).
Notation hash := (host_key host_hasher).
Implicit Types (log l : list (Z * Z)) (now key : Z).

(** ** No window exceeds a limit *)

(** The requests of the window that ends at [t]. *)
Definition in_window (t : Z) log : list (Z * Z) := filter (fun e => t - window < e.2 <= t) log.

Definition within_limits l : Prop :=
  zlen l <= global_requests config /\ (forall key, zlen (of_key key l) <= per_host_requests config) /\
  Z.of_nat (size (keys l)) <= max_tracked_hosts config.

Lemma keys_subset l l' : (forall e, e ∈ l -> e ∈ l') -> keys l ⊆ keys l'.
Proof.
  intros H k. unfold keys. rewrite !elem_of_list_to_set, !list_elem_of_fmap. intros (e & -> & He). exists e. auto.
Qed.

Lemma zlen_filter (P : Z * Z -> Prop) `{!forall e, Decision (P e)} l : zlen (filter P l) <= zlen l.
Proof. unfold zlen. pose proof (length_filter P l). lia. Qed.

Lemma limits_filter (P : Z * Z -> Prop) `{!forall e, Decision (P e)} l : within_limits l -> within_limits (filter P l).
Proof.
  intros (H1 & H2 & H3). split_and!.
  - etrans; [apply zlen_filter|done].
  - intros key. etrans; [|apply (H2 key)].
    assert (of_key key (filter P l) = filter P (of_key key l)) as ->; [|apply zlen_filter].
    unfold of_key. rewrite !list_filter_filter. apply list_filter_iff. tauto.
  - etrans; [|exact H3]. apply inj_le, subseteq_size, keys_subset. by intros e [_ ?]%list_elem_of_filter.
Qed.

(** Up to the present, the window is what is recent. *)
Lemma in_window_recent log now : Forall (fun e => e.2 <= now) log -> in_window now log = recent log now.
Proof.
  intros Hp. unfold in_window, RateWindowProps.recent. induction Hp as [|e log He _ IH]; [done|]. rewrite !filter_cons, IH.
  by repeat case_decide; try lia.
Qed.

(** An admitted request leaves the limits kept. *)
Lemma admit_limits l key now : 1 <= per_host_requests config -> within_limits l -> zlen l < global_requests config ->
  (of_key key l = [] /\ Z.of_nat (size (keys l)) < max_tracked_hosts config \/
   of_key key l <> [] /\ zlen (of_key key l) < per_host_requests config) ->
  within_limits (l ++ [(key, now)]).
Proof.
  intros Hph (_ & H2 & H3) Hg Hk. split_and!.
  - rewrite zlen_app. unfold zlen at 2. cbn [length]. lia.
  - intros k. unfold of_key at 1. rewrite filter_app, filter_cons, zlen_app. fold (of_key k l). cbn [fst].
    destruct (decide (key = k)) as [<-|Hne].
    + rewrite filter_nil. unfold zlen at 2. cbn [length]. destruct Hk as [[-> _]|[_ ?]]; [unfold zlen; cbn [length]|]; lia.
    + rewrite filter_nil. unfold zlen at 2. cbn [length]. specialize (H2 k). lia.
  - assert (keys (l ++ [(key, now)]) = keys l ∪ {[key]}) as ->.
    { unfold keys. rewrite map_app, list_to_set_app_L. cbn. set_solver. }
    destruct Hk as [[Hnew ?]|[Hin _]].
    + rewrite of_key_nil in Hnew. rewrite size_union, size_singleton by set_solver. lia.
    + rewrite of_key_nil in Hin. apply dec_stable in Hin. replace (keys l ∪ {[key]}) with (keys l) by set_solver. done.
Qed.

Definition bounded log : Prop := forall t, within_limits (in_window t log).

Lemma bounded_recent log now : bounded log -> Forall (fun e => e.2 <= now) log -> within_limits (recent log now).
Proof. intros Hb Hp. rewrite <- in_window_recent by done. apply Hb. Qed.

Lemma check_allowed log key now : log_check log key now = Allowed ->
  zlen (recent log now) < global_requests config /\
  (of_key key (recent log now) = [] /\ Z.of_nat (size (keys (recent log now))) < max_tracked_hosts config \/
   of_key key (recent log now) <> [] /\ zlen (of_key key (recent log now)) < per_host_requests config).
Proof.
  unfold RateWindowProps.log_check. cbv zeta. destruct (Z.leb_spec (global_requests config) (zlen (recent log now))); [done|].
  case_bool_decide.
  - destruct (Z.leb_spec (max_tracked_hosts config) (Z.of_nat (size (keys (recent log now))))); [done|]. auto.
  - destruct (Z.leb_spec (per_host_requests config) (zlen (of_key key (recent log now)))); [done|]. auto.
Qed.

Lemma admit_bounded log key now :
  0 < window -> 1 <= per_host_requests config -> bounded log -> Forall (fun e => e.2 <= now) log ->
  log_check log key now = Allowed -> bounded (log ++ [(key, now)]).
Proof.
  intros Hw Hph Hb Hp [Hg Hk]%check_allowed t. destruct (Z.le_gt_cases now t) as [Hle|Hgt].
  - assert (in_window t (log ++ [(key, now)]) = filter (fun e => t - window < e.2) (recent log now ++ [(key, now)])) as ->.
    { unfold in_window, RateWindowProps.recent. rewrite !filter_app, list_filter_filter. f_equal.
      - clear -Hp Hle. induction Hp as [|e log He _ IH]; [done|]. rewrite !filter_cons, IH. by repeat case_decide; try lia.
      - rewrite !filter_cons. cbn [snd]. by repeat case_decide; try lia. }
    apply limits_filter, admit_limits; [done|by apply bounded_recent|done|done].
  - unfold in_window. rewrite filter_app, (filter_cons_False _ (key, now)) by (cbn; lia). rewrite app_nil_r. apply Hb.
Qed.

(** The admitted requests of a run. *)
Definition admitted (calls : list (list Z * Z)) (decisions : list RateLimitDecision) : list (Z * Z) :=
  omap (fun '((host, now), d) => match d with Allowed => Some (hash host, now) | Limited _ _ => None end) (zip calls decisions).

Lemma log_run_admitted calls : forall log,
  (log_run host_hasher config log calls).1 = log ++ admitted calls (log_run host_hasher config log calls).2.
Proof.
  induction calls as [|[host now] calls IH]; intros log; cbn [log_run]; cbv zeta; [by rewrite app_nil_r|].
  specialize (IH (log_next log (hash host) now (log_check log (hash host) now))).
  destruct (log_run _ _ (log_next _ _ _ _) calls) as [log' ds]. cbn [fst snd] in *. rewrite IH. unfold admitted. cbn [zip zip_with omap list_omap].
  destruct (log_check log (hash host) now); cbn [log_next]; [by rewrite <- app_assoc|done].
Qed.

Lemma log_run_bounded calls : forall log start,
  0 < window -> 1 <= per_host_requests config -> bounded log -> Forall (fun e => e.2 <= start) log ->
  in_order INSTANT_MAX config start calls -> bounded (log_run host_hasher config log calls).1.
Proof.
  induction calls as [|[host now] calls IH]; intros log start Hw Hph Hb Hp Ho; [done|]. destruct Ho as (Hle & _ & Ho).
  cbn [log_run]. cbv zeta. assert (Forall (fun e => e.2 <= now) log) as Hp'.
  { eapply Forall_impl; [exact Hp|]. cbn beta. intros. lia. }
  assert (bounded (log_next log (hash host) now (log_check log (hash host) now)) /\
          Forall (fun e => e.2 <= now) (log_next log (hash host) now (log_check log (hash host) now))) as [Hb' Hn].
  { destruct (log_check log (hash host) now) eqn:E; cbn [log_next]; [|done]. split; [by apply admit_bounded|].
    apply Forall_app. split; [done|]. by repeat constructor. }
  specialize (IH _ now Hw Hph Hb' Hn Ho). destruct (log_run _ _ (log_next _ _ _ _) calls). exact IH.
Qed.

Lemma bounded_nil : 0 <= global_requests config -> 0 <= per_host_requests config -> 0 <= max_tracked_hosts config -> bounded [].
Proof. intros ? ? ? t. split_and!; [done|done|]. change (keys (in_window t [])) with (∅ : gset Z). by rewrite size_empty. Qed.

(** ** How long a refusal lasts *)

Lemma recent_keeps l now e : by_time l -> e < wait l now -> recent l (now + e) = l.
Proof.
  intros [|e0 l' Hs Hlt] Hw; [done|]. cbn in Hw. apply filter_all. constructor; [cbn; lia|].
  eapply Forall_impl; [exact Hlt|]. cbn beta. intros. lia.
Qed.

Lemma recent_drops l now : l <> [] -> zlen (recent l (now + wait l now)) < zlen l.
Proof.
  destruct l as [|e l]; [done|]. intros _. unfold RateWindowProps.recent. rewrite filter_cons_False by (cbn; lia).
  pose proof (zlen_filter (fun e' => now + wait (e :: l) now < e'.2 + window) l) as Hz. unfold zlen in *. cbn [length]. lia.
Qed.

Lemma wait_later l now e : l <> [] -> wait l (now + e) = wait l now - e.
Proof. destruct l; [done|]. intros _. cbn. lia. Qed.

Lemma wait_positive l now : 0 < window -> Forall (fun e => now < e.2 + window /\ e.2 <= now) l -> 0 < wait l now <= window.
Proof. intros Hw Hn. destruct l as [|e l]; cbn; [lia|]. apply Forall_cons in Hn as [? _]. lia. Qed.

Lemma keys_missing (X Y : gset Z) : ~ X ⊆ Y -> exists k, k ∈ X /\ k ∉ Y.
Proof.
  intros Hn. destruct (set_choose_or_empty (X ∖ Y)) as [(k & Hk)|He]; [exists k; set_solver|].
  exfalso. apply Hn. intros k Hk. destruct (decide (k ∈ Y)); [done|]. exfalso. apply (not_elem_of_empty (C := gset Z) k).
  apply He. by apply elem_of_difference.
Qed.

Lemma full_nonempty l n : 1 <= n -> n <= zlen l -> l <> [].
Proof. intros ? ? ->. unfold zlen in *. cbn [length] in *. lia. Qed.

(** How the reference answers some time after a refusal: as before, or otherwise. *)
Section refused.
Context (log : list (Z * Z)) (key now : Z).
Context (Hw : 0 < window) (HG : 1 <= global_requests config) (HP : 1 <= per_host_requests config)
        (HM : 1 <= max_tracked_hosts config).
Context (Hs : by_time log) (Hp : Forall (fun e => e.2 <= now) log) (Hb : bounded log).
Notation r := (recent log now).
Notation own := (of_key key r).

Lemma r_sorted : by_time r. Proof. by apply filter_sorted. Qed.
Lemma own_sorted : by_time own. Proof. apply filter_sorted, r_sorted. Qed.
Lemma r_elem e : e ∈ r -> now < e.2 + window /\ e.2 <= now.
Proof. intros [? He]%recent_elem. rewrite Forall_forall in Hp. auto. Qed.
Lemma r_later d : 0 <= d -> recent log (now + d) = recent r (now + d).
Proof. intros. symmetry. apply recent_recent. lia. Qed.
Lemma own_later d : 0 <= d -> of_key key (recent log (now + d)) = recent own (now + d).
Proof. intros. apply of_key_recent. lia. Qed.
Lemma own_wait_positive : 0 < wait own now <= window.
Proof. apply wait_positive; [done|]. apply Forall_forall. intros e [_ He]%of_key_elem. by apply r_elem. Qed.
Lemma r_wait_positive : 0 < wait r now <= window.
Proof. apply wait_positive; [done|]. apply Forall_forall. intros e He. by apply r_elem. Qed.
Lemma r_shrinks d : 0 <= d -> zlen (recent log (now + d)) <= zlen r.
Proof. intros. rewrite r_later by done. apply zlen_filter. Qed.

Lemma global_lasts d : global_requests config <= zlen r -> 0 <= d < wait r now ->
  log_check log key (now + d) = Limited GlobalScope (wait r now - d).
Proof.
  intros Hfull Hd. assert (r <> []) as Hne by (eapply full_nonempty; [|exact Hfull]; done).
  unfold RateWindowProps.log_check. cbv zeta. rewrite r_later, recent_keeps by (apply r_sorted || lia).
  rewrite (proj2 (Z.leb_le _ _)) by done. by rewrite wait_later.
Qed.

Lemma global_ends : global_requests config <= zlen r -> zlen (recent log (now + wait r now)) < global_requests config.
Proof.
  intros Hfull. assert (r <> []) as Hne by (eapply full_nonempty; [|exact Hfull]; done).
  pose proof r_wait_positive. rewrite r_later by lia. pose proof (recent_drops r now Hne).
  destruct (bounded_recent log now Hb Hp) as (? & _). lia.
Qed.

(** Below the aggregate limit, a full window of the host. *)
Lemma host_lasts d : zlen r < global_requests config -> per_host_requests config <= zlen own -> 0 <= d < wait own now ->
  log_check log key (now + d) = Limited HostWindowScope (wait own now - d).
Proof.
  intros Hg Hfull Hd. assert (own <> []) as Hne by (eapply full_nonempty; [|exact Hfull]; done).
  pose proof (r_shrinks d ltac:(lia)). unfold RateWindowProps.log_check. cbv zeta.
  rewrite (proj2 (Z.leb_gt _ _)) by lia. rewrite own_later, recent_keeps by (apply own_sorted || lia).
  rewrite bool_decide_eq_false_2 by done. rewrite (proj2 (Z.leb_le _ _)) by done. by rewrite wait_later.
Qed.

Lemma keys_shrink d : 0 <= d -> keys (recent log (now + d)) ⊆ keys r.
Proof. intros. rewrite r_later by done. apply keys_subset. by intros e [_ ?]%recent_elem. Qed.

Lemma host_ends : zlen r < global_requests config -> per_host_requests config <= zlen own ->
  log_check log key (now + wait own now) = Allowed.
Proof.
  intros Hg Hfull. assert (own <> []) as Hne by (eapply full_nonempty; [|exact Hfull]; done).
  pose proof own_wait_positive. pose proof (r_shrinks (wait own now) ltac:(lia)).
  destruct (bounded_recent log now Hb Hp) as (_ & Ho & Hk). specialize (Ho key).
  unfold RateWindowProps.log_check. cbv zeta. rewrite (proj2 (Z.leb_gt _ _)) by lia. case_bool_decide as Hnil.
  - rewrite (proj2 (Z.leb_gt _ _)); [done|]. rewrite of_key_nil in Hnil, Hne. apply dec_stable in Hne.
    enough (size (keys (recent log (now + wait own now))) < size (keys r))%nat by lia.
    apply subset_size. pose proof (keys_shrink (wait own now) ltac:(lia)). set_solver.
  - rewrite own_later by lia. pose proof (recent_drops own now Hne). rewrite (proj2 (Z.leb_gt _ _)) by lia. done.
Qed.

(** Below the aggregate limit, a full table and a host not in it. *)
Lemma table_lasts d : zlen r < global_requests config -> own = [] ->
  max_tracked_hosts config <= Z.of_nat (size (keys r)) -> 0 <= d < wait r now ->
  log_check log key (now + d) = Limited HostWindowScope (wait r now - d).
Proof.
  intros Hg Hnil Hfull Hd.
  assert (r <> []) as Hne by (intros E; rewrite E in Hfull; change (keys []) with (∅ : gset Z) in Hfull; rewrite size_empty in Hfull; lia).
  unfold RateWindowProps.log_check. cbv zeta. rewrite r_later, recent_keeps by (apply r_sorted || lia).
  rewrite (proj2 (Z.leb_gt _ _)) by done. rewrite bool_decide_eq_true_2 by done.
  rewrite (proj2 (Z.leb_le _ _)) by done. by rewrite wait_later.
Qed.

Lemma table_ends : zlen r < global_requests config -> own = [] ->
  max_tracked_hosts config <= Z.of_nat (size (keys r)) ->
  log_check log key (now + wait r now) = Allowed <->
  exists k, of_key k r <> [] /\ Forall (fun e => e.2 = now + wait r now - window) (of_key k r).
Proof.
  intros Hg Hnil Hfull. pose proof r_wait_positive. pose proof (r_shrinks (wait r now) ltac:(lia)) as Hz.
  pose proof (keys_shrink (wait r now) ltac:(lia)) as Hsub. destruct (bounded_recent log now Hb Hp) as (_ & _ & Hk).
  assert (forall k, of_key k (recent log (now + wait r now)) = [] <->
                    Forall (fun e => e.2 = now + wait r now - window) (of_key k r)) as Hgone.
  { intros k. rewrite (of_key_recent _ k log now) by lia. split; intros Hf.
    - apply Forall_forall. intros e He. pose proof He as [_ Hr]%of_key_elem.
      assert (wait r now <= e.2 + window - now).
      { pose proof r_sorted as Hso. destruct r as [|e0 r'] eqn:Er; [by apply not_elem_of_nil in Hr|]. cbn.
        inversion Hso as [|? ? _ Hlt]; subst. rewrite Forall_forall in Hlt.
        apply elem_of_cons in Hr as [->|Hr]; [lia|]. specialize (Hlt e Hr). lia. }
      destruct (decide (now + wait r now < e.2 + window)) as [Hlt|]; [|lia].
      exfalso. apply (not_elem_of_nil e). rewrite <- Hf. by apply recent_elem.
    - apply filter_none. eapply Forall_impl; [exact Hf|]. cbn beta. intros. lia. }
  unfold RateWindowProps.log_check. cbv zeta. rewrite (proj2 (Z.leb_gt _ _)) by lia.
  rewrite bool_decide_eq_true_2 by (apply Hgone; rewrite Hnil; constructor).
  destruct (Z.leb_spec (max_tracked_hosts config) (Z.of_nat (size (keys (recent log (now + wait r now)))))) as [Hle|Hlt].
  - split; [done|]. intros (k & Hin & Hf%Hgone). exfalso. rewrite of_key_nil in Hin, Hf. apply dec_stable in Hin.
    enough (size (keys (recent log (now + wait r now))) < size (keys r))%nat by lia. apply subset_size. set_solver.
  - split; [|done]. intros _. destruct (decide (keys r ⊆ keys (recent log (now + wait r now)))) as [Hs'|Hn].
    { apply subseteq_size in Hs'. lia. }
    destruct (keys_missing _ _ Hn) as (k & Hin & Hout).
    exists k. split; [rewrite of_key_nil; tauto|]. by apply Hgone, of_key_nil.
Qed.
End refused.

(** What a refusal says of the log. *)
Lemma check_limited log key now scope d : log_check log key now = Limited scope d ->
  (scope = GlobalScope /\ global_requests config <= zlen (recent log now) /\ d = wait (recent log now) now) \/
  (scope = HostWindowScope /\ zlen (recent log now) < global_requests config /\
   ((of_key key (recent log now) <> [] /\ per_host_requests config <= zlen (of_key key (recent log now)) /\
     d = wait (of_key key (recent log now)) now) \/
    (of_key key (recent log now) = [] /\ max_tracked_hosts config <= Z.of_nat (size (keys (recent log now))) /\
     d = wait (recent log now) now))).
Proof.
  unfold RateWindowProps.log_check. cbv zeta. destruct (Z.leb_spec (global_requests config) (zlen (recent log now))).
  { intros [= <- <-]. auto. }
  case_bool_decide.
  - destruct (Z.leb_spec (max_tracked_hosts config) (Z.of_nat (size (keys (recent log now))))); [|done]. intros [= <- <-].
    right. split_and!; [done|done|]. by right.
  - destruct (Z.leb_spec (per_host_requests config) (zlen (of_key key (recent log now)))); [|done]. intros [= <- <-].
    right. split_and!; [done|done|]. by left.
Qed.

(** The state after a run, and the answers from it. *)
Lemma run_state s calls start c : config_unsigned config -> rate_limiter_new config = Ok (c, s) ->
  in_order INSTANT_MAX config start calls ->
  let log := (log_run host_hasher config [] calls).1 in
  let last := last_time start calls in
  bounded log /\ tracks INSTANT_MAX config log last (rate_run INSTANT_MAX host_hasher config s calls).1 /\
  log = admitted calls (rate_run INSTANT_MAX host_hasher config s calls).2.
Proof.
  intros Hu Hn Ho. cbv zeta. destruct (new_positive config c s Hu Hn) as (_ & -> & HG & HP & Hw & HM).
  destruct (run_tracks INSTANT_MAX host_hasher config calls [] start _ Hw HM (tracks_new _ _ start) Ho) as [Hd Ht].
  split_and!; [|done|by rewrite Hd, (log_run_admitted calls [])].
  apply (log_run_bounded calls [] start); [done|done|by apply bounded_nil; lia|constructor|done].
Qed.

(** C22. No window exceeds a limit. Whatever a limiter made from a validated
    configuration is asked, in the order of time, the requests it admits within any
    window -- at whatever instant the window ends -- are at most [global_requests]
    in all, at most [per_host_requests] for each host key, and for at most
    [max_tracked_hosts] keys. *)
Theorem rate_window_bounds c s start calls t :
  config_unsigned config -> rate_limiter_new config = Ok (c, s) -> in_order INSTANT_MAX config start calls ->
  zlen (in_window t (admitted calls (rate_run INSTANT_MAX host_hasher config s calls).2)) <= global_requests config /\
  (forall key, zlen (of_key key (in_window t (admitted calls (rate_run INSTANT_MAX host_hasher config s calls).2)))
               <= per_host_requests config) /\
  Z.of_nat (size (keys (in_window t (admitted calls (rate_run INSTANT_MAX host_hasher config s calls).2))))
    <= max_tracked_hosts config.
Proof. intros Hu Hn Ho. destruct (run_state s calls start c Hu Hn Ho) as (Hb & _ & <-). apply Hb. Qed.

Lemma keys_of_state log last s key : tracks INSTANT_MAX config log last s ->
  is_Some (rs_hosts s !! key) <-> of_key key (recent log last) <> [].
Proof.
  intros [_ _ _ _ Hh]. rewrite Hh. destruct (of_key key (recent log last)); cbn; split; try done; (by intros []) || eauto.
Qed.

Lemma table_of_state log last s t : tracks INSTANT_MAX config log last s ->
  (exists k, of_key k (recent log last) <> [] /\ Forall (fun e => e.2 = t) (of_key k (recent log last))) <->
  (exists k requests, rs_hosts s !! k = Some requests /\ Forall (eq t) requests).
Proof.
  intros [_ _ _ _ Hh]. split.
  - intros (k & Hne & Hf). exists k, (map snd (of_key k (recent log last))). rewrite Hh. split.
    + by destruct (of_key k (recent log last)).
    + apply Forall_map. eapply Forall_impl; [exact Hf|]. done.
  - intros (k & requests & Hk & Hf). rewrite Hh in Hk. exists k. destruct (of_key k (recent log last)) as [|e l]; [done|].
    split; [done|]. injection Hk as <-. change (e.2 :: map snd l) with (map snd (e :: l)) in Hf. rewrite Forall_map in Hf.
    eapply Forall_impl; [exact Hf|]. done.
Qed.

(** C39. How long a refusal lasts. The wait reported with it is more than nothing and
    at most a window; any retry of the host before it has passed is refused in the
    same scope, with what is left as the wait. When it has passed, the aggregate
    limit no longer refuses; for a host whose own window was full, the retry is then
    admitted; and for a host that found the table of hosts full, it is admitted just
    if some host of the table made all its requests at the oldest instant -- since
    the wait is taken from the hosts' oldest requests, while a host stays in the
    table until its newest has expired. *)
Theorem retry_after_exact c s0 start calls s host now s' scope d :
  config_unsigned config -> rate_limiter_new config = Ok (c, s0) ->
  in_order INSTANT_MAX config start calls -> (rate_run INSTANT_MAX host_hasher config s0 calls).1 = s ->
  last_time start calls <= now -> now + 2 * window <= INSTANT_MAX ->
  rate_check INSTANT_MAX host_hasher config s host now = (s', Limited scope d) ->
  0 < d <= window /\
  (forall e, 0 <= e < d -> (rate_check INSTANT_MAX host_hasher config s' host (now + e)).2 = Limited scope (d - e)) /\
  match scope with
  | GlobalScope => forall d', (rate_check INSTANT_MAX host_hasher config s' host (now + d)).2 <> Limited GlobalScope d'
  | HostWindowScope =>
      (rate_check INSTANT_MAX host_hasher config s' host (now + d)).2 = Allowed <->
      is_Some (rs_hosts s' !! hash host) \/
      exists key requests, rs_hosts s' !! key = Some requests /\ Forall (eq (now + d - window)) requests
  end.
Proof.
  intros Hu Hn Ho Hrun Hle Hmax Hc. destruct (run_state s0 calls start c Hu Hn Ho) as (Hb & Ht & _). rewrite Hrun in Ht.
  set (log := (log_run host_hasher config [] calls).1) in *.
  destruct (new_positive config c s0 Hu Hn) as (_ & _ & HG & HP & Hw & HM).
  destruct (check_tracks _ host_hasher _ log _ s host now Hw HM Ht Hle ltac:(lia)) as (s1 & E & Ht').
  rewrite Hc in E. injection E as <- E. symmetry in E. rewrite E in Ht'. cbn [log_next] in Ht'.
  assert (forall e, 0 <= e <= window ->
            (rate_check INSTANT_MAX host_hasher config s' host (now + e)).2 = log_check log (hash host) (now + e)) as Hlater.
  { intros e He. destruct (check_tracks _ host_hasher _ log now s' host (now + e) Hw HM Ht' ltac:(lia) ltac:(lia)) as (s2 & -> & _). done. }
  pose proof Ht' as [Hs Hp _ _ _]. pose proof (r_wait_positive log now Hw Hp) as Hr.
  pose proof (own_wait_positive log (hash host) now Hw Hp) as Hown.
  pose proof (keys_of_state log now s' (hash host) Ht') as Hkeys. pose proof (table_of_state log now s' (now + d - window) Ht') as Htable.
  destruct (check_limited log (hash host) now scope d E)
    as [(-> & Hf & ->)|(-> & Hg & [(Hne & Hf & ->)|(Hnil & Hf & ->)])]; (split; [done|]); (split; [intros e He; rewrite Hlater by lia|]).
  - by apply global_lasts.
  - intros d'. rewrite Hlater by lia. pose proof (global_ends log now Hw HG Hp Hb Hf).
    unfold RateWindowProps.log_check. cbv zeta. rewrite (proj2 (Z.leb_gt _ _)) by done. by repeat case_match.
  - by apply host_lasts.
  - rewrite Hlater by lia. split; [by left; apply Hkeys|]. intros _. by apply host_ends.
  - by apply table_lasts.
  - rewrite Hlater by lia. rewrite (table_ends log (hash host) now) by done. rewrite Htable. split; [by right|].
    intros [Hin|]; [|done]. by apply Hkeys in Hin.
Qed.
End retry.

(** ** A small limiter *)

Lemma rate_window_bounds_witness :
  exists s, rate_limiter_new sample_rate_config = Ok (sample_rate_config, s) /\
    in_window sample_rate_config 9
      (admitted sample_hasher sample_calls (rate_run 1000 sample_hasher sample_rate_config s sample_calls).2) =
      [(97, 0); (97, 1); (98, 3)] /\
    zlen (in_window sample_rate_config 9
      (admitted sample_hasher sample_calls (rate_run 1000 sample_hasher sample_rate_config s sample_calls).2)) <= 3.
Proof.
  exists sample_fresh. split; [reflexivity|]. split; [vm_compute; reflexivity|].
  apply (rate_window_bounds 1000 sample_hasher sample_rate_config sample_rate_config sample_fresh 0 sample_calls 9);
    [unfold config_unsigned; cbn; lia|reflexivity|cbn; lia].
Defined.

(** One host to track, which asked twice. *)
Definition single_host_config : RateLimitConfig :=
  {| global_requests := 4; per_host_requests := 2; rl_window := 10; max_tracked_hosts := 1 |}.
Definition single_host_calls : list (list Z * Z) := [([97], 0); ([97], 5)].
Definition single_host_state : RateLimitState := {| rs_global := [0; 5]; rs_hosts := {[97 := [0; 5]]} |}.

(** The wait is until the first of the two expires, and then the second still holds
    the table. *)
Lemma retry_after_exact_witness :
  rate_check 1000 sample_hasher single_host_config single_host_state [98] 6 =
    (single_host_state, Limited HostWindowScope 4) /\
  (rate_check 1000 sample_hasher single_host_config single_host_state [98] 9).2 = Limited HostWindowScope 1 /\
  (rate_check 1000 sample_hasher single_host_config single_host_state [98] 10).2 <> Allowed.
Proof.
  assert (rate_check 1000 sample_hasher single_host_config single_host_state [98] 6 =
    (single_host_state, Limited HostWindowScope 4)) as Hc by (vm_compute; reflexivity).
  split; [exact Hc|].
  destruct (retry_after_exact 1000 sample_hasher single_host_config single_host_config sample_fresh 0 single_host_calls
    single_host_state [98] 6 single_host_state HostWindowScope 4) as (_ & Hearly & Hlate);
    [unfold config_unsigned; cbn; lia|reflexivity|cbn; lia|vm_compute; reflexivity|cbn; lia|cbn; lia|exact Hc|].
  split; [apply (Hearly 3); lia|]. intros E. apply Hlate in E as [[? Hs]|(key & requests & Hk & Hf)].
  - vm_compute in Hs. discriminate Hs.
  - unfold single_host_state in Hk. cbn [rs_hosts] in Hk. apply lookup_singleton_Some in Hk as [<- <-].
    apply Forall_cons in Hf as [_ Hf]. apply Forall_cons in Hf as [Hf _]. cbn in Hf. lia.
Defined.
