(* ===== verification/IpText.v ===== *)
(** * Internet addresses as text

    The standard library's [Ipv4Addr] and [Ipv6Addr]: parsing to octets and groups,
    on the number reader of [IcannDane], and display. *)

From S2P Require Import Prelude IcannDane.

(** [read_octets] with the values. *)
Fixpoint read_octet_values (index count : nat) (s : list Z) : option (list Z * list Z) :=
  match count with
  | O => Some ([], s)
  | S count =>
      read_separator 46 index (read_number 10 3 255 false) s ≫= fun '(octet, s) =>
      read_octet_values (S index) count s ≫= fun '(octets, s) => Some (octet :: octets, s)
  end.

(** [Ipv4Addr::from_str]. *)
Definition ipv4_from_str (s : list Z) : option (list Z) :=
  if 15 <? zlen s then None else
  read_octet_values 0 4 s ≫= fun '(octets, rest) => if bool_decide (rest = []) then Some octets else None.

(** Two groups from four octets. *)
Definition octet_groups (octets : list Z) : list Z :=
  match octets with
  | [a; b; c; d] => [a * 256 + b; c * 256 + d]
  | _ => []
  end.

(** [read_groups]: the groups, whether they end in an address of version 4, and the rest. *)
Fixpoint read_group_values (index remaining : nat) (s : list Z) : list Z * bool * list Z :=
  match remaining with
  | O => ([], false, s)
  | S remaining =>
      match (if Nat.leb 1 remaining then read_separator 58 index (read_octet_values 0 4) s else None) with
      | Some (octets, rest) => (octet_groups octets, true, rest)
      | None =>
          match read_separator 58 index (read_number 16 4 65535 true) s with
          | Some (group, rest) =>
              let '(groups, v4, rest) := read_group_values (S index) remaining rest in (group :: groups, v4, rest)
          | None => ([], false, s)
          end
      end
  end.

(** [read_ipv6_addr]: eight groups, or fewer around a double colon. *)
Definition read_ipv6_value (s : list Z) : option (list Z * list Z) :=
  let '(groups, v4, rest) := read_group_values 0 8 s in
  if Nat.eqb (length groups) 8 then Some (groups, rest) else
  if (v4 : bool) then None else
  match rest with
  | 58 :: 58 :: rest =>
      let '(tail, _, rest) := read_group_values 0 (8 - (length groups + 1)) rest in
      Some (groups ++ repeat 0 (8 - length groups - length tail) ++ tail, rest)
  | _ => None
  end.

(** [Ipv6Addr::from_str]. *)
Definition ipv6_from_str (s : list Z) : option (list Z) :=
  read_ipv6_value s ≫= fun '(groups, rest) => if bool_decide (rest = []) then Some groups else None.

(** Items with a separator between them. *)
Definition separated (sep : Z) (items : list (list Z)) : list Z :=
  match items with
  | [] => []
  | first :: rest => first ++ concat (map (cons sep) rest)
  end.

(** [Display] of an address of version 4. *)
Definition ipv4_text (octets : list Z) : list Z := separated 46 (map decimal octets).

(** [{:x}] of a group. *)
Definition hex_char (n : Z) : Z := if n <? 10 then 48 + n else 87 + n.
Definition hex_text (n : Z) : list Z :=
  if n <? 16 then [hex_char n] else
  if n <? 256 then [hex_char (n / 16); hex_char (n mod 16)] else
  if n <? 4096 then [hex_char (n / 256); hex_char (n / 16 mod 16); hex_char (n mod 16)] else
  [hex_char (n / 4096); hex_char (n / 256 mod 16); hex_char (n / 16 mod 16); hex_char (n mod 16)].
Definition groups_text (groups : list Z) : list Z := separated 58 (map hex_text groups).

(** The first of the longest runs of zero groups: start and length. *)
Fixpoint zero_spans (index : Z) (groups : list Z) (longest current : Z * Z) : Z * Z :=
  match groups with
  | [] => longest
  | group :: groups =>
      if group =? 0 then
        let current := (if snd current =? 0 then index else fst current, snd current + 1) in
        zero_spans (index + 1) groups (if snd longest <? snd current then current else longest) current
      else zero_spans (index + 1) groups longest (0, 0)
  end.

(** [Ipv6Addr::to_ipv4_mapped]. *)
Definition to_ipv4_mapped (groups : list Z) : option (list Z) :=
  match groups with
  | [0; 0; 0; 0; 0; 65535; ab; cd] => Some [ab / 256; ab mod 256; cd / 256; cd mod 256]
  | _ => None
  end.

(** [Display] of an address of version 6. *)
Definition ipv6_text (groups : list Z) : list Z :=
  match to_ipv4_mapped groups with
  | Some octets => [58; 58; 102; 102; 102; 102; 58] ++ ipv4_text octets
  | None =>
      let '(start, length) := zero_spans 0 groups (0, 0) (0, 0) in
      if 1 <? length
      then groups_text (take (Z.to_nat start) groups) ++ [58; 58] ++ groups_text (drop (Z.to_nat (start + length)) groups)
      else groups_text groups
  end.
