(* ===== verification/Http1.v ===== *)
(** * Loopback listener: the HTTP/1 request reader

    Models [src/crates/hns-browser-loopback-proxy/src/mobile/http1.rs] (its Chromium
    copy is the same file): request heads, targets and authorities, body framing,
    fixed and chunked bodies, and the fields that may be forwarded. A reader is the
    bytes still to come and how each call will go; the functions that read are in a
    monad over it whose [None] is a loop that does not end. The crates [httparse] and
    [idna] are parameters. The Debug output, the reason phrases and the failure to
    reserve memory have no model. *)

From S2P Require Import Prelude Text IcannDane NsTypes Engine ProxyHead IpText.
Import Stdlib.Strings.String.StringSyntax.

Definition DEFAULT_MAX_REQUEST_HEAD_BYTES : Z := 64 * 1024.
Definition DEFAULT_MAX_REQUEST_BODY_BYTES : Z := 1024 * 1024.
Definition MAX_REQUEST_HEADERS : Z := 256.
Definition MAX_CHUNK_LINE_BYTES : Z := 8 * 1024.
Definition MAX_CHUNK_TRAILER_BYTES : Z := 64 * 1024.
Definition HEAD_END : list Z := CRLF ++ CRLF.

(** The kinds of I/O errors the code tells apart. *)
Inductive IoError := IoInterrupted | IoOther.

Inductive Http1Error :=
| Io (e : IoError) | UnexpectedEof | HeadTooLarge | TooManyHeaders | InvalidRequestLine | UnsupportedHttpVersion
| InvalidHeader | DuplicateProxyAuthorization | InvalidTarget | InvalidAuthority | TargetMismatch | MissingHost
| HostMismatch | InvalidContentLength | AmbiguousFraming | UnsupportedTransferEncoding | BodyTooLarge
| UnexpectedBodyEof | InvalidChunkedBody | TrailersTooLarge.

Definition status_code (e : Http1Error) : Z :=
  match e with
  | HeadTooLarge | TooManyHeaders => 431
  | BodyTooLarge => 413
  | UnsupportedTransferEncoding => 501
  | _ => 400
  end.

Inductive HttpVersion := Http10 | Http11.
#[export] Instance HttpVersion_eq_dec : EqDecision HttpVersion.
Proof. solve_decision. Defined.
Definition version_text (v : HttpVersion) : list Z :=
  match v with Http10 => text "HTTP/1.0" | Http11 => text "HTTP/1.1" end.

Record Header := { header_name : list Z; header_value : list Z }.
#[export] Instance Header_eq_dec : EqDecision Header.
Proof. solve_decision. Defined.

Record RequestHead := {
  head_method : list Z; head_target : list Z; head_version : HttpVersion; head_headers : list Header }.

Record Authority := { authority_host : list Z; authority_port : Z }.
#[export] Instance Authority_eq_dec : EqDecision Authority.
Proof. solve_decision. Defined.

Inductive Scheme := SchemeHttp | SchemeHttps | SchemeWs | SchemeWss.
Definition scheme_default_port (s : Scheme) : Z :=
  match s with SchemeHttp | SchemeWs => 80 | SchemeHttps | SchemeWss => 443 end.
Definition scheme_is_secure (s : Scheme) : bool := match s with SchemeHttps | SchemeWss => true | _ => false end.

Record AbsoluteTarget := { at_scheme : Scheme; at_authority : Authority; at_path_and_query : list Z }.
Record OriginTarget := { ot_authority : Authority; ot_path_and_query : list Z }.
Inductive RequestTarget :=
| TargetAbsolute (target : AbsoluteTarget) | TargetConnect (authority : Authority) | TargetOrigin (target : OriginTarget).
Definition target_authority (t : RequestTarget) : Authority :=
  match t with TargetAbsolute t => at_authority t | TargetConnect a => a | TargetOrigin t => ot_authority t end.
Definition target_path_and_query (t : RequestTarget) : option (list Z) :=
  match t with
  | TargetAbsolute t => Some (at_path_and_query t)
  | TargetConnect _ => None
  | TargetOrigin t => Some (ot_path_and_query t)
  end.

Inductive BodyFraming := FramingNone | FramingContentLength (length : Z) | FramingChunked.

(** ** Bytes *)

Definition slice_ends_with (suffix s : list Z) : bool := bool_decide (strip_suffix suffix s <> None).
Definition starts_with (prefix s : list Z) : bool := bool_decide (take (length prefix) s = prefix).
Definition strip_prefix (prefix s : list Z) : option (list Z) :=
  if starts_with prefix s then Some (drop (length prefix) s) else None.

(** [windows(n).position(|w| w == pattern)]. *)
Fixpoint find_window (pattern s : list Z) : option Z :=
  if starts_with pattern s then Some 0 else
  match s with [] => None | _ :: s => Z.succ <$> find_window pattern s end.
Definition find_head_end (bytes : list Z) : option Z := (fun index => index + zlen HEAD_END) <$> find_window HEAD_END bytes.

(** Each byte with the one before it. *)
Fixpoint crlf_ok (before : option Z) (bytes : list Z) : bool :=
  match bytes with
  | [] => true
  | b :: rest =>
      negb ((b =? 13) && negb (bool_decide (head rest = Some 10)))
      && negb ((b =? 10) && negb (bool_decide (before = Some 13))) && crlf_ok (Some b) rest
  end.
Definition validate_crlf (bytes : list Z) : result Http1Error unit :=
  if crlf_ok None bytes then Ok tt else Err InvalidHeader.

Definition trim_ows (value : list Z) : list Z := trim_blanks value.
Definition is_http_token (value : list Z) : bool :=
  negb (bool_decide (value = []))
  && forallb (fun b => is_ascii_alphanumeric b || existsb (Z.eqb b) token_punctuation) value.
Definition is_valid_field_value (value : list Z) : bool := forallb (fun b => (b =? 9) || ((32 <=? b) && (b <=? 126))) value.

Definition hop_by_hop : list (list Z) :=
  [text "connection"; text "keep-alive"; text "proxy-authenticate"; text "proxy-authorization";
   text "proxy-connection"; text "te"; text "trailer"; text "transfer-encoding"; text "upgrade"].
Definition is_hop_by_hop (lower_name : list Z) : bool := bool_decide (lower_name ∈ hop_by_hop).

(** [from_utf8]. *)
Definition from_utf8 (bytes : list Z) (e : Http1Error) : result Http1Error (list Z) := ok_or (utf8_decode bytes) e.

(** ** The head *)

Definition parse_request_line (bytes : list Z) : result Http1Error (list Z * list Z * HttpVersion) :=
  if negb (forallb (fun b => b <? 128) bytes) || existsb (Z.eqb 9) bytes then Err InvalidRequestLine else
  match split_on 32 bytes with
  | method :: target :: version :: rest =>
      if negb (bool_decide (rest = [])) || negb (is_http_token method) || bool_decide (target = [])
         || negb (forallb (fun b => (0x21 <=? b) && (b <=? 0x7e)) target)
      then Err InvalidRequestLine else
      let? version :=
        if bool_decide (version = version_text Http10) then Ok Http10 else
        if bool_decide (version = version_text Http11) then Ok Http11 else
        if starts_with (text "HTTP/") version then Err UnsupportedHttpVersion else Err InvalidRequestLine in
      let? method := from_utf8 method InvalidRequestLine in
      let? target := from_utf8 target InvalidRequestLine in
      Ok (method, target, version)
  | _ => Err InvalidRequestLine
  end.

(** A field line, without its end; the error is the caller's. *)
Definition parse_field (e : Http1Error) (line : list Z) : result Http1Error (list Z * list Z) :=
  if bool_decide (line = []) || match line with b :: _ => is_blank b | [] => false end then Err e else
  let? (name, rest) := ok_or (split_once 58 line) e in
  let value := trim_ows rest in
  if negb (is_http_token name) || negb (is_valid_field_value value) then Err e else Ok (name, value).

Fixpoint header_lines (headers : list Header) (lines : list (list Z)) : result Http1Error (list Header) :=
  match lines with
  | [] => Ok headers
  | raw_line :: lines =>
      if bool_decide (raw_line = []) then header_lines headers lines else
      let? line := ok_or (strip_suffix [13] raw_line) InvalidHeader in
      let? (name, value) := parse_field InvalidHeader line in
      if zlen headers =? MAX_REQUEST_HEADERS then Err TooManyHeaders else
      let? name := from_utf8 name InvalidHeader in
      let? value := from_utf8 value InvalidHeader in
      header_lines (headers ++ [{| header_name := name; header_value := value |}]) lines
  end.
Definition parse_header_block (bytes : list Z) : result Http1Error (list Header) :=
  if bool_decide (bytes = []) then Ok [] else header_lines [] (split_on 10 bytes).

Definition parse_single_header_line (line : list Z) : result Http1Error Header :=
  let? (name, value) := parse_field InvalidChunkedBody line in
  let? name := from_utf8 name InvalidChunkedBody in
  let? value := from_utf8 value InvalidChunkedBody in
  Ok {| header_name := name; header_value := value |}.

(** What [httparse::Request::parse] says of a head: its length, method, path, minor
    version and number of fields. *)
Inductive HttparseStatus :=
| HpComplete (length : Z) (method path : option (list Z)) (version : option Z) (headers : Z)
| HpPartial | HpTooManyHeaders | HpError.

Section http1.
(** The parser of the crate [httparse] with room for [MAX_REQUEST_HEADERS], and
    [domain_to_ascii_cow] of the crate [idna] with the URL deny list. *)
Context (httparse : list Z -> HttparseStatus) (domain_to_ascii : list Z -> option (list Z)).

Definition parse_request_head (bytes : list Z) : result Http1Error RequestHead :=
  if DEFAULT_MAX_REQUEST_HEAD_BYTES <? zlen bytes then Err HeadTooLarge else
  let? last := ok_or (find_head_end bytes) UnexpectedEof in
  if negb (last =? zlen bytes) then Err InvalidHeader else
  let? _ := validate_crlf bytes in
  let? line_end := ok_or (find_window CRLF bytes) InvalidRequestLine in
  let? (method, target, version) := parse_request_line (take (Z.to_nat line_end) bytes) in
  match httparse bytes with
  | HpPartial => Err UnexpectedEof
  | HpTooManyHeaders => Err TooManyHeaders
  | HpError => Err InvalidHeader
  | HpComplete parsed_len parsed_method parsed_path parsed_version parsed_headers =>
      if negb (parsed_len =? zlen bytes) || negb (bool_decide (parsed_method = Some method))
         || negb (bool_decide (parsed_path = Some target))
      then Err InvalidRequestLine else
      let? parsed_version := match parsed_version with
                             | Some 0 => Ok Http10
                             | Some 1 => Ok Http11
                             | _ => Err UnsupportedHttpVersion
                             end in
      if negb (bool_decide (parsed_version = version)) then Err InvalidRequestLine else
      let raw_headers := take (length bytes - 2 - Z.to_nat (line_end + 2)) (drop (Z.to_nat (line_end + 2)) bytes) in
      let? headers := parse_header_block raw_headers in
      if negb (zlen headers =? parsed_headers) then Err InvalidHeader else
      Ok {| head_method := method; head_target := target; head_version := version; head_headers := headers |}
  end.

(** ** Authorities and targets *)

Definition parse_port (default_port : option Z) (port_text : option (list Z)) : result Http1Error Z :=
  match port_text with
  | Some digits =>
      if negb (bool_decide (digits = [])) && forallb is_digit (str_bytes digits) then
        let? port := ok_or (parse_u16 digits) InvalidAuthority in
        if port =? 0 then Err InvalidAuthority else Ok port
      else Err InvalidAuthority
  | None => ok_or default_port InvalidAuthority
  end.

Definition host_label_bad (label : list Z) : bool :=
  bool_decide (label = []) || (63 <? zlen label) || bool_decide (head label = Some 45) || bool_decide (last label = Some 45)
  || negb (forallb (fun b => is_ascii_alphanumeric b || (b =? 45)) label).
Definition normalize_host (host : list Z) : result Http1Error (list Z) :=
  match ipv6_from_str host with Some groups => Ok (ipv6_text groups) | None =>
  match ipv4_from_str host with Some octets => Ok (ipv4_text octets) | None =>
  if forallb (fun b => is_digit b || (b =? 46)) (str_bytes host) then Err InvalidAuthority else
  let? ascii := ok_or (domain_to_ascii (str_bytes host)) InvalidAuthority in
  let ascii := strip_dot (map to_ascii_lowercase ascii) in
  if bool_decide (ascii = []) || (253 <? zlen ascii) || existsb host_label_bad (split_on 46 ascii)
  then Err InvalidAuthority else Ok ascii
  end end.

(** The host and the port's text: brackets hold an address of version 6. *)
Definition authority_parts (value : list Z) : result Http1Error (list Z * option (list Z)) :=
  match value with
  | 91 :: bracketed =>
      let? (host, suffix) := ok_or (split_once 93 bracketed) InvalidAuthority in
      let? port := match suffix with
                   | [] => Ok None
                   | 58 :: port => Ok (Some port)
                   | _ => Err InvalidAuthority
                   end in
      if negb (bool_decide (ipv6_from_str host <> None)) then Err InvalidAuthority else Ok (host, port)
  | _ =>
      if 1 <? zlen (List.filter (Z.eqb 58) value) then Err InvalidAuthority else
      match rsplit_once 58 value with
      | Some (host, port) => Ok (host, Some port)
      | None => Ok (value, None)
      end
  end.
Definition authority_delimiters : list Z := text "@/?#\".
Definition parse_authority (value : list Z) (default_port : option Z) (require_explicit_port : bool)
    : result Http1Error Authority :=
  if bool_decide (value = []) || existsb (fun b => (b <=? 32) || (b =? 127)) (str_bytes value)
     || existsb (fun c => existsb (Z.eqb c) authority_delimiters) value
  then Err InvalidAuthority else
  let? (host, port_text) := authority_parts value in
  if bool_decide (host = []) || (require_explicit_port && bool_decide (port_text = None)) then Err InvalidAuthority else
  let? port := parse_port default_port port_text in
  let? host := normalize_host host in
  Ok {| authority_host := host; authority_port := port |}.
Definition authority_parse (value : list Z) (default_port : Z) : result Http1Error Authority :=
  parse_authority value (Some default_port) false.

Definition host_header (a : Authority) (default_port : Z) : list Z :=
  let host := if existsb (Z.eqb 58) (authority_host a) then 91 :: authority_host a ++ [93] else authority_host a in
  if authority_port a =? default_port then host else host ++ 58 :: decimal (authority_port a).

(** [split_once("://")]. *)
Fixpoint split_scheme (s : list Z) : option (list Z * list Z) :=
  match s with
  | [] => None
  | c :: rest =>
      if starts_with [58; 47; 47] s then Some ([], drop 3 s)
      else (fun '(before, after) => (c :: before, after)) <$> split_scheme rest
  end.
(** Up to the first slash or question mark, and from it. *)
Fixpoint split_path (s : list Z) : list Z * list Z :=
  match s with
  | [] => ([], [])
  | c :: rest => if (c =? 47) || (c =? 63) then ([], s) else let '(before, after) := split_path rest in (c :: before, after)
  end.

Definition scheme_of (scheme_text : list Z) : option Scheme :=
  if eq_ignore_ascii_case scheme_text (text "http") then Some SchemeHttp else
  if eq_ignore_ascii_case scheme_text (text "https") then Some SchemeHttps else
  if eq_ignore_ascii_case scheme_text (text "ws") then Some SchemeWs else
  if eq_ignore_ascii_case scheme_text (text "wss") then Some SchemeWss else None.
Definition parse_absolute_target (target : list Z) : result Http1Error AbsoluteTarget :=
  let? (scheme_text, remainder) := ok_or (split_scheme target) InvalidTarget in
  let? scheme := ok_or (scheme_of scheme_text) InvalidTarget in
  if existsb (Z.eqb 35) remainder || existsb (Z.eqb 92) remainder then Err InvalidTarget else
  let '(authority_text, suffix) := split_path remainder in
  let? authority := parse_authority authority_text (Some (scheme_default_port scheme)) false in
  let path_and_query := match suffix with [] => [47] | 63 :: _ => 47 :: suffix | _ => suffix end in
  Ok {| at_scheme := scheme; at_authority := authority; at_path_and_query := path_and_query |}.

Definition parse_request_target (method target : list Z) (connected_to : option Authority)
    : result Http1Error RequestTarget :=
  if eq_ignore_ascii_case method CONNECT then
    match connected_to with
    | Some _ => Err TargetMismatch
    | None => result_map TargetConnect (parse_authority target None true)
    end else
  match connected_to with
  | Some connected_to =>
      if starts_with [47] target then
        if existsb (Z.eqb 35) target then Err InvalidTarget
        else Ok (TargetOrigin {| ot_authority := connected_to; ot_path_and_query := target |})
      else
        let? absolute := parse_absolute_target target in
        if negb (scheme_is_secure (at_scheme absolute)) || negb (bool_decide (at_authority absolute = connected_to))
        then Err TargetMismatch else Ok (TargetAbsolute absolute)
  | None => result_map TargetAbsolute (parse_absolute_target target)
  end.

Definition header_values (name : list Z) (headers : list Header) : list (list Z) :=
  map header_value (List.filter (fun header => eq_ignore_ascii_case (header_name header) name) headers).
Definition proxy_authorization (h : RequestHead) : result Http1Error (option (list Z)) :=
  match header_values (text "proxy-authorization") (head_headers h) with
  | [] => Ok None
  | [value] => Ok (Some value)
  | _ => Err DuplicateProxyAuthorization
  end.
Definition host_authority (h : RequestHead) (default_port : Z) : result Http1Error (option Authority) :=
  match header_values H_HOST (head_headers h) with
  | [] => Ok None
  | [value] => map_err (result_map Some (authority_parse value default_port)) HostMismatch
  | _ => Err HostMismatch
  end.

Definition validated_target (h : RequestHead) (connected_to : option Authority) : result Http1Error RequestTarget :=
  let? target := parse_request_target (head_method h) (head_target h) connected_to in
  let default_port := match target with
                      | TargetAbsolute t => scheme_default_port (at_scheme t)
                      | TargetConnect a => authority_port a
                      | TargetOrigin _ => 443
                      end in
  let? host := host_authority h default_port in
  match host with
  | Some host => if bool_decide (host = target_authority target) then Ok target else Err HostMismatch
  | None => if bool_decide (head_version h = Http10) then Ok target else Err MissingHost
  end.

(** ** Framing and forwarding *)

Definition parse_u64 (radix : Z) (digits : list Z) : option Z :=
  let value := fold_left (fun v b => v * radix + default 0 (to_digit radix b)) digits 0 in
  if value <=? u64_max then Some value else None.
Definition parse_content_length (value : list Z) : result Http1Error Z :=
  if bool_decide (value = []) || negb (forallb is_digit (str_bytes value)) then Err InvalidContentLength
  else ok_or (parse_u64 10 value) InvalidContentLength.

Definition H_CONTENT_LENGTH : list Z := text "content-length".
Definition H_TRANSFER_ENCODING : list Z := text "transfer-encoding".
Definition determine_body_framing (headers : list Header) : result Http1Error BodyFraming :=
  let content_lengths := header_values H_CONTENT_LENGTH headers in
  if 1 <? zlen content_lengths then Err InvalidContentLength else
  let? content_length := match content_lengths with
                         | [] => Ok None
                         | value :: _ => result_map Some (parse_content_length value)
                         end in
  match header_values H_TRANSFER_ENCODING headers with
  | [] => Ok (match content_length with None => FramingNone | Some length => FramingContentLength length end)
  | value :: more =>
      if bool_decide (content_length <> None) then Err AmbiguousFraming else
      if negb (bool_decide (more = [])) || negb (eq_ignore_ascii_case value (text "chunked"))
      then Err UnsupportedTransferEncoding else Ok FramingChunked
  end.

Definition connection_tokens (value : list Z) : list (list Z) := map trim (split_on 44 value).
Definition is_connection (header : Header) : bool :=
  eq_ignore_ascii_case (header_name header) (text "connection")
  || eq_ignore_ascii_case (header_name header) (text "proxy-connection").
Definition connection_nominated_fields (headers : list Header) : result Http1Error (gset (list Z)) :=
  let tokens := concat (map (fun header => connection_tokens (header_value header)) (List.filter is_connection headers)) in
  if existsb (fun token => bool_decide (token = []) || negb (is_http_token (str_bytes token))) tokens then Err InvalidHeader
  else Ok (list_to_set (map (map to_ascii_lowercase) tokens)).

Definition proxy_prefix : list Z := text "proxy-".
Definition internal_prefix : list Z := text "x-hns-".
Definition forwarded (nominated : gset (list Z)) (header : Header) : bool :=
  let lower := map to_ascii_lowercase (header_name header) in
  negb (is_hop_by_hop lower) && negb (starts_with proxy_prefix lower) && negb (starts_with internal_prefix lower)
  && negb (bool_decide (lower ∈ nominated)).
Definition sanitize_forward_headers (headers : list Header) : result Http1Error (list Header) :=
  let? nominated := connection_nominated_fields headers in Ok (List.filter (forwarded nominated) headers).

Definition connection_upgrade (headers : list Header) : bool :=
  existsb (fun header => eq_ignore_ascii_case (header_name header) (text "connection")
                         && existsb (fun token => eq_ignore_ascii_case token H_UPGRADE) (connection_tokens (header_value header)))
          headers.
Definition upgrade_fields : list Header :=
  [{| header_name := text "Connection"; header_value := text "Upgrade" |};
   {| header_name := text "Upgrade"; header_value := text "websocket" |}].
Definition sanitize_upgrade_forward_headers (headers : list Header) : result Http1Error (list Header) :=
  let? nominated := connection_nominated_fields headers in
  match header_values H_UPGRADE headers with
  | [value] =>
      if negb (connection_upgrade headers) || negb (eq_ignore_ascii_case value (text "websocket")) then Err InvalidHeader
      else Ok (List.filter (forwarded nominated) headers ++ upgrade_fields)
  | _ => Err InvalidHeader
  end.

(** ** Reading *)

(** How one call of [read] will go: at most so many bytes (one at least), or an error. *)
Inductive ReadStep := Give (n : Z) | Interrupt | Fault.
(** The bytes to come and the next calls; when these run out, every call is filled. *)
Record Input := { in_bytes : list Z; in_steps : list ReadStep }.

(** [Read::read] of [want] bytes: fewer than one only at the end. *)
Definition read (want : Z) (i : Input) : result IoError (list Z) * Input :=
  let give n steps := (Ok (take (Z.to_nat (Z.min want n)) (in_bytes i)),
                       {| in_bytes := drop (Z.to_nat (Z.min want n)) (in_bytes i); in_steps := steps |}) in
  match in_steps i with
  | [] => give want []
  | Give n :: steps => give (Z.max 1 n) steps
  | Interrupt :: steps => (Err IoInterrupted, {| in_bytes := in_bytes i; in_steps := steps |})
  | Fault :: steps => (Err IoOther, {| in_bytes := in_bytes i; in_steps := steps |})
  end.

(** Computations that read: a result and the input after it, or no end. *)
Definition Reads (A : Type) : Type := Input -> option (result Http1Error A * Input).
Definition rret {A} (a : A) : Reads A := fun i => Some (Ok a, i).
Definition rfail {A} (e : Http1Error) : Reads A := fun i => Some (Err e, i).
Definition rlift {A} (r : result Http1Error A) : Reads A := fun i => Some (r, i).
Definition rbind {A B} (m : Reads A) (k : A -> Reads B) : Reads B := fun i =>
  match m i with
  | Some (Ok a, i) => k a i
  | Some (Err e, i) => Some (Err e, i)
  | None => None
  end.
Notation "'let!' x ':=' m 'in' k" := (rbind m (fun x => k)) (at level 10, x pattern, m at level 200, k at level 200).

(** A [loop] of at most [fuel] turns. *)
Fixpoint turns {St A} (fuel : nat) (step : St -> Reads (St + A)) (s : St) : Reads A :=
  match fuel with
  | O => fun _ => None
  | S fuel => let! next := step s in match next with inl s => turns fuel step s | inr a => rret a end
  end.

(** [input.read(&mut byte)?] of one byte: [None] at the end. *)
Definition read_byte : Reads (option Z) := fun i =>
  match read 1 i with
  | (Ok bytes, i) => Some (Ok (head bytes), i)
  | (Err e, i) => Some (Err (Io e), i)
  end.

Fixpoint head_loop (room : nat) (bytes : list Z) : Reads RequestHead :=
  match room with
  | O => rfail HeadTooLarge
  | S room =>
      let! byte := read_byte in
      match byte with
      | None => rfail UnexpectedEof
      | Some byte =>
          let bytes := bytes ++ [byte] in
          if slice_ends_with HEAD_END bytes then rlift (parse_request_head bytes) else head_loop room bytes
      end
  end.
Definition read_request_head (max_head_bytes : Z) : Reads RequestHead :=
  if max_head_bytes <? zlen HEAD_END then rfail HeadTooLarge else head_loop (Z.to_nat max_head_bytes) [].

(** One turn of [read_exact_body]: what is still wanted, and what was read. *)
Definition exact_turn (s : Z * list Z) : Reads (Z * list Z + list Z) := fun i =>
  let '(want, got) := s in
  if want <=? 0 then Some (Ok (inr got), i) else
  match read want i with
  | (Ok [], i) => Some (Err UnexpectedBodyEof, i)
  | (Ok bytes, i) => Some (Ok (inl (want - zlen bytes, got ++ bytes)), i)
  | (Err IoInterrupted, i) => Some (Ok (inl (want, got)), i)
  | (Err e, i) => Some (Err (Io e), i)
  end.
(** A turn uses a byte or a step, unless it is the last. *)
Definition read_exact_body (want : Z) : Reads (list Z) := fun i =>
  turns (S (S (length (in_bytes i) + length (in_steps i)))) exact_turn (want, []) i.

Definition read_fixed_body (length max_body_bytes : Z) : Reads (list Z) :=
  if max_body_bytes <? length then rfail BodyTooLarge else read_exact_body length.

Fixpoint line_loop (room : nat) (limit_error : Http1Error) (line : list Z) : Reads (list Z) :=
  match room with
  | O => rfail limit_error
  | S room =>
      let! byte := read_byte in
      match byte with
      | None => rfail UnexpectedBodyEof
      | Some byte =>
          let line := line ++ [byte] in
          match strip_suffix CRLF line with
          | Some line => rret line
          | None => if byte =? 10 then rfail InvalidChunkedBody else line_loop room limit_error line
          end
      end
  end.
Definition read_crlf_line (limit : Z) (limit_error : Http1Error) : Reads (list Z) :=
  line_loop (Z.to_nat limit) limit_error [].

(** Fields a trailer must not carry. *)
Definition trailer_refused (name : list Z) : bool :=
  let lower := map to_ascii_lowercase name in
  is_hop_by_hop lower || bool_decide (lower = H_CONTENT_LENGTH) || bool_decide (lower = H_HOST)
  || starts_with proxy_prefix lower || starts_with internal_prefix lower.
(** One turn of [read_chunk_trailers]: bytes consumed and fields counted. *)
Definition trailer_turn (s : Z * Z) : Reads (Z * Z + unit) :=
  let '(consumed, count) := s in
  if MAX_CHUNK_TRAILER_BYTES - consumed <? 2 then rfail TrailersTooLarge else
  let! line := read_crlf_line (Z.min (MAX_CHUNK_TRAILER_BYTES - consumed) MAX_CHUNK_LINE_BYTES) InvalidChunkedBody in
  if bool_decide (line = []) then rret (inr tt) else
  if MAX_REQUEST_HEADERS <? count + 1 then rfail InvalidChunkedBody else
  let! header := rlift (parse_single_header_line line) in
  if trailer_refused (header_name header) then rfail InvalidChunkedBody
  else rret (inl (consumed + (zlen line + 2), count + 1)).
Definition read_chunk_trailers : Reads unit := fun i => turns (S (length (in_bytes i))) trailer_turn (0, 0) i.

Fixpoint quoted_ok (escaped : bool) (inner : list Z) : bool :=
  match inner with
  | [] => negb escaped
  | b :: inner =>
      if escaped then ((b =? 9) || ((32 <=? b) && (b <=? 126))) && quoted_ok false inner
      else if b =? 92 then quoted_ok true inner
      else ((b =? 9) || (b =? 32) || (b =? 33) || ((35 <=? b) && (b <=? 91)) || ((93 <=? b) && (b <=? 126)))
           && quoted_ok false inner
  end.
Definition is_valid_quoted_string (value : list Z) : bool :=
  match strip_prefix [34] value ≫= strip_suffix [34] with
  | Some inner => quoted_ok false inner
  | None => false
  end.
Definition extension_ok (extension : list Z) : bool :=
  let '(name, value) := match split_once 61 extension with
                        | Some (name, value) => (name, Some value)
                        | None => (extension, None)
                        end in
  is_http_token name && match value with Some value => is_http_token value || is_valid_quoted_string value | None => true end.
(** The extensions begin with their semicolon and are cut at each. *)
Definition validate_chunk_extensions (extensions : list Z) : result Http1Error unit :=
  match extensions with
  | [] => Ok tt
  | first :: rest =>
      if (first =? 59) && forallb extension_ok (split_on 59 rest) then Ok tt else Err InvalidChunkedBody
  end.

Definition is_hex_digit (b : Z) : bool :=
  is_digit b || ((65 <=? b) && (b <=? 70)) || ((97 <=? b) && (b <=? 102)).
Definition parse_chunk_size (line : list Z) : result Http1Error Z :=
  let '(size_text, extensions) := match split_once 59 line with
                                  | Some (size_text, extensions) => (size_text, 59 :: extensions)
                                  | None => (line, [])
                                  end in
  if bool_decide (size_text = []) || negb (forallb is_hex_digit size_text) then Err InvalidChunkedBody else
  let? _ := validate_chunk_extensions extensions in
  let? size_text := from_utf8 size_text InvalidChunkedBody in
  ok_or (parse_u64 16 size_text) InvalidChunkedBody.

(** One turn of [read_chunked_body]: the body so far and its announced total. *)
Definition chunk_turn (max_body_bytes : Z) (s : list Z * Z) : Reads (list Z * Z + list Z) :=
  let '(output, total) := s in
  let! line := read_crlf_line MAX_CHUNK_LINE_BYTES InvalidChunkedBody in
  let! size := rlift (parse_chunk_size line) in
  if size =? 0 then let! _ := read_chunk_trailers in rret (inr output) else
  let! total := rlift (ok_or (checked_add total size) BodyTooLarge) in
  if max_body_bytes <? total then rfail BodyTooLarge else
  let! _ := rlift (ok_or (checked_add (zlen output) size) BodyTooLarge) in
  let! chunk := read_exact_body size in
  let! crlf := read_exact_body 2 in
  if negb (bool_decide (crlf = CRLF)) then rfail InvalidChunkedBody else rret (inl (output ++ chunk, total)).
Definition read_chunked_body (max_body_bytes : Z) : Reads (list Z) := fun i =>
  turns (S (length (in_bytes i))) (chunk_turn max_body_bytes) ([], 0) i.

Definition read_request_body (framing : BodyFraming) (max_body_bytes : Z) : Reads (list Z) :=
  match framing with
  | FramingNone => rret []
  | FramingContentLength length => read_fixed_body length max_body_bytes
  | FramingChunked => read_chunked_body max_body_bytes
  end.
End http1.

Notation "'let!' x ':=' m 'in' k" := (rbind m (fun x => k)) (at level 10, x pattern, m at level 200, k at level 200).
