(* ===== verification/Http1ReadProps.v ===== *)
(** * Loopback listener: reading from a stream

    What the primitives of [Http1] do to a reader, whatever its calls give: bytes are
    consumed from the front, loops end, and on a reader without faults the outcome is
    a function of the bytes. *)

From S2P Require Import Prelude Text IcannDane NsTypes Engine ProxyHead ProxyHeadProps IpText Http1.
Import Stdlib.Strings.String.StringSyntax.

(** A reader whose calls all succeed, by whatever amounts. *)
Definition gives (s : ReadStep) : Prop := match s with Give _ => True | _ => False end.
Definition quiet (i : Input) : Prop := Forall gives (in_steps i).

(** [i'] is [i] after some bytes, and its calls are some of the calls of [i]. *)
Definition consumed (taken : list Z) (i i' : Input) : Prop :=
  in_bytes i = taken ++ in_bytes i' /\ (quiet i -> quiet i') /\ (length (in_steps i') <= length (in_steps i))%nat.

Lemma consumed_trans a b i i1 i2 : consumed a i i1 -> consumed b i1 i2 -> consumed (a ++ b) i i2.
Proof.
  intros (E & Hq & Hl) (E' & Hq' & Hl'). unfold consumed. rewrite E, E', <- app_assoc. split_and!; [done|auto|lia].
Qed.
Lemma consumed_refl i : consumed [] i i.
Proof. by split_and!. Qed.

(** ** The primitive *)

Lemma read_ok want i bytes i' : 0 < want -> read want i = (Ok bytes, i') ->
  consumed bytes i i' /\ zlen bytes <= want /\ (bytes = [] <-> in_bytes i = []) /\
  (in_steps i = [] -> zlen bytes = want \/ in_bytes i' = []) /\
  (length (in_steps i') < length (in_steps i) \/ in_steps i = [])%nat.
Proof.
  intros Hw. unfold read. cbv zeta.
  assert (forall n, 1 <= n -> take (Z.to_nat (Z.min want n)) (in_bytes i) = [] <-> in_bytes i = []) as Hnil.
  { intros n Hn. destruct (in_bytes i) as [|b bs]; [by rewrite take_nil|]. destruct (Z.to_nat (Z.min want n)) eqn:E; [lia|done]. }
  assert (forall n, zlen (take (Z.to_nat (Z.min want n)) (in_bytes i)) <= want) as Hlen.
  { intros n. unfold zlen. rewrite length_take. lia. }
  destruct (in_steps i) as [|[n| |] steps] eqn:Es; intros [= <- <-]; unfold consumed, quiet; cbn [in_bytes in_steps].
  - split_and!; [by rewrite take_drop|by rewrite Es|by rewrite Es|apply Hlen|apply Hnil; lia| |by right].
    intros _. unfold zlen. rewrite length_take. destruct (decide (Z.to_nat (Z.min want want) <= length (in_bytes i))%nat); [left; lia|].
    right. apply drop_ge. lia.
  - split_and!; [by rewrite take_drop| |rewrite Es; cbn; lia|apply Hlen|apply Hnil; lia|done|left; cbn; lia].
    rewrite Es. by intros [_ ?]%Forall_cons.
Qed.

Lemma read_err want i e i' : read want i = (Err e, i') ->
  consumed [] i i' /\ ~ quiet i /\ (length (in_steps i') < length (in_steps i))%nat.
Proof.
  unfold read. cbv zeta. destruct (in_steps i) as [|[n| |] steps] eqn:Es; intros [= <- <-]; unfold consumed, quiet; cbn [in_bytes in_steps];
    rewrite Es; (split_and!; [done|by intros [? _]%Forall_cons|cbn; lia|by intros [? _]%Forall_cons|cbn; lia]).
Qed.

(** ** Loops *)

Section turns.
Context {St A : Type} (step : St -> Reads (St + A)).

(** A loop ends when each turn ends and each turn that goes on lowers a measure. *)
Lemma turns_return (measure : St -> Input -> nat) fuel : forall s i,
  (forall s i, exists r, step s i = Some r) ->
  (forall s i s' i', step s i = Some (Ok (inl s'), i') -> (measure s' i' < measure s i)%nat) ->
  (measure s i < fuel)%nat -> exists r, turns fuel step s i = Some r.
Proof.
  induction fuel as [|fuel IH]; intros s i Hr Hm Hf; [lia|]. cbn. unfold rbind.
  destruct (Hr s i) as [[[[s'|a]|e] i'] E]; rewrite E; [|by eexists..].
  apply IH; [done|done|]. specialize (Hm _ _ _ _ E). lia.
Qed.

(** What each turn keeps, and what the last one then gives, holds of the loop. *)
Lemma turns_inv (I : St -> Input -> Prop) (Q : result Http1Error A -> Input -> Prop) fuel : forall s i r i',
  (forall s i s' i', I s i -> step s i = Some (Ok (inl s'), i') -> I s' i') ->
  (forall s i a i', I s i -> step s i = Some (Ok (inr a), i') -> Q (Ok a) i') ->
  (forall s i e i', I s i -> step s i = Some (Err e, i') -> Q (Err e) i') ->
  I s i -> turns fuel step s i = Some (r, i') -> Q r i'.
Proof.
  induction fuel as [|fuel IH]; intros s i r i' Hl Hr He Hi; [done|]. cbn. unfold rbind.
  destruct (step s i) as [[[[s'|a']|e] i1]|] eqn:E; [|intros [= <- <-]; eauto|intros [= <- <-]; eauto|done]. apply IH; eauto.
Qed.

Lemma turns_more fuel fuel' : forall s i r,
  (fuel <= fuel')%nat -> turns fuel step s i = Some r -> turns fuel' step s i = Some r.
Proof.
  revert fuel'. induction fuel as [|fuel IH]; intros fuel' s i r Hle; [done|]. destruct fuel' as [|fuel']; [lia|]. cbn. unfold rbind.
  destruct (step s i) as [[[[s'|a]|e] i1]|]; try done. apply IH. lia.
Qed.
End turns.

Lemma rbind_Ok {A B} (m : Reads A) (k : A -> Reads B) i b i' :
  rbind m k i = Some (Ok b, i') <-> exists a i1, m i = Some (Ok a, i1) /\ k a i1 = Some (Ok b, i').
Proof.
  unfold rbind. destruct (m i) as [[[a|e] i1]|]; split; try done.
  - intros. by exists a, i1.
  - by intros (? & ? & [= <- <-] & ?).
  - by intros (? & ? & [=] & ?).
  - by intros (? & ? & [=] & ?).
Qed.
Lemma rbind_returns {A B} (m : Reads A) (k : A -> Reads B) i :
  (exists r, m i = Some r) -> (forall a i, exists r, k a i = Some r) -> exists r, rbind m k i = Some r.
Proof. intros [[[a|e] i1] E] Hk; unfold rbind; rewrite E; [apply Hk|by eexists]. Qed.

(** ** One byte *)

Lemma read_byte_returns i : exists r, read_byte i = Some r.
Proof. unfold read_byte. destruct (read 1 i) as [[bytes|e] i']; by eexists. Qed.

Lemma read_byte_ok i b i' : read_byte i = Some (Ok b, i') ->
  match b with Some b => consumed [b] i i' | None => in_bytes i = [] /\ consumed [] i i' end.
Proof.
  unfold read_byte. destruct (read 1 i) as [[bytes|e] i1] eqn:E; [|done]. intros [= <- <-].
  apply read_ok in E as (Hc & Hl & Hn & _); [|lia]. destruct bytes as [|b bytes]; cbn.
  - split; [by apply Hn|done].
  - destruct bytes; [done|]. unfold zlen in Hl. cbn in Hl. lia.
Qed.

Lemma read_byte_quiet i : quiet i -> exists i', read_byte i = Some (Ok (head (in_bytes i)), i') /\ quiet i' /\
  in_bytes i' = tail (in_bytes i).
Proof.
  intros Hq. unfold read_byte. destruct (read 1 i) as [[bytes|e] i'] eqn:E.
  - apply read_ok in E as ((Eb & Hq' & _) & Hl & Hn & _); [|lia]. exists i'.
    destruct bytes as [|b bytes]; [destruct Hn as [Hn _]; rewrite Hn by done; split_and!; [done|auto|]; cbn in Eb; by rewrite <- Eb, Hn|].
    destruct bytes; [|unfold zlen in Hl; cbn in Hl; lia]. rewrite Eb. split_and!; [done|auto|done].
  - by apply read_err in E as (_ & ? & _).
Qed.

(** ** An exact number of bytes *)

Lemma exact_turn_returns s i : exists r, exact_turn s i = Some r.
Proof.
  destruct s as [want got]. unfold exact_turn. destruct (want <=? 0); [by eexists|].
  destruct (read want i) as [[[|b bytes]|[|]] i']; by eexists.
Qed.

(** A turn that goes on read something, or retried. *)
Lemma exact_turn_next want got i s' i' : exact_turn (want, got) i = Some (Ok (inl s'), i') ->
  0 < want /\ exists bytes, s' = (want - zlen bytes, got ++ bytes) /\ consumed bytes i i' /\ zlen bytes <= want /\
    (length (in_bytes i') + length (in_steps i') < length (in_bytes i) + length (in_steps i))%nat.
Proof.
  unfold exact_turn. destruct (Z.leb_spec want 0); [done|]. destruct (read want i) as [[bytes|e] i1] eqn:E.
  - apply read_ok in E as (Hc & Hl & Hn & _); [|done]. destruct bytes as [|b bytes]; [done|]. intros [= <- <-]. split; [done|].
    exists (b :: bytes). split_and!; [done|exact Hc|done|].
    destruct Hc as (-> & _ & Hs). rewrite length_app. cbn. lia.
  - apply read_err in E as (Hc & _ & Hs). destruct e; [|done]. intros [= <- <-]. split; [done|]. exists [].
    rewrite zlen_nil, Z.sub_0_r, app_nil_r. split_and!; [done|exact Hc|lia|].
    destruct Hc as (-> & _). cbn. lia.
Qed.

Lemma read_exact_returns want i : exists r, read_exact_body want i = Some r.
Proof.
  unfold read_exact_body. apply (turns_return exact_turn (fun _ i => (length (in_bytes i) + length (in_steps i))%nat)).
  - apply exact_turn_returns.
  - intros [w g] i0 s' i' (_ & bytes & _ & _ & _ & ?)%exact_turn_next. done.
  - lia.
Qed.

Lemma read_exact_ok want i got i' : 0 <= want -> read_exact_body want i = Some (Ok got, i') ->
  consumed got i i' /\ zlen got = want.
Proof.
  intros Hw H. refine (turns_inv exact_turn
    (fun s i1 => consumed (snd s) i i1 /\ zlen (snd s) + fst s = want /\ 0 <= fst s)
    (fun r i' => match r with Ok got => consumed got i i' /\ zlen got = want | Err _ => True end) _ _ _ _ _ _ _ _ _ H).
  - intros [w g] i1 s' i2 (Hc & Hl & Hp) (_ & bytes & -> & Hc' & Hb & _)%exact_turn_next. cbn [fst snd] in *.
    split; [by eapply consumed_trans|]. rewrite zlen_app. lia.
  - intros [w g] i1 a i2 (Hc & Hl & Hp). unfold exact_turn. cbn [fst snd] in *. destruct (Z.leb_spec w 0).
    + intros [= <- <-]. split; [done|lia].
    + destruct (read w i1) as [[[|b bytes]|[|]] i3]; done.
  - done.
  - split; [apply consumed_refl|]. cbn [fst snd]. rewrite zlen_nil. lia.
Qed.

Lemma read_exact_quiet taken rest i : quiet i -> in_bytes i = taken ++ rest ->
  exists i', read_exact_body (zlen taken) i = Some (Ok taken, i') /\ quiet i' /\ in_bytes i' = rest.
Proof.
  intros Hq E. destruct (read_exact_returns (zlen taken) i) as [[[got|e] i'] Hr].
  - pose proof (read_exact_ok _ _ _ _ (zlen_nonneg _) Hr) as [(E' & Hq' & _) Hl]. rewrite E in E'.
    apply app_inj_1 in E' as [-> ->]; [|unfold zlen in Hl; lia]. exists i'. split_and!; [done|auto|done].
  - exfalso. refine (turns_inv exact_turn
      (fun s i1 => consumed (snd s) i i1 /\ zlen (snd s) + fst s = zlen taken /\ 0 <= fst s)
      (fun r _ => match r with Ok _ => True | Err _ => False end) _ _ _ _ _ _ _ _ _ Hr).
    + intros [w g] i1 s' i2 (Hc & Hl & Hp) (_ & bytes & -> & Hc' & Hb & _)%exact_turn_next. cbn [fst snd] in *.
      split; [by eapply consumed_trans|]. rewrite zlen_app. lia.
    + done.
    + intros [w g] i1 e1 i2 (Hc & Hl & Hp). unfold exact_turn. cbn [fst snd] in *. destruct (Z.leb_spec w 0); [done|].
      destruct (read w i1) as [[[|b bytes]|e2] i3] eqn:Er; [| |].
      * apply read_ok in Er as (_ & _ & [Hn _] & _); [|done]. destruct Hc as (Ec & _). rewrite Hn, app_nil_r in Ec by done.
        rewrite Ec in E. apply (f_equal zlen) in E. rewrite zlen_app in E. pose proof (zlen_nonneg rest). lia.
      * done.
      * apply read_err in Er as (_ & Hn & _). destruct Hc as (_ & Hqc & _). exfalso. auto.
    + split; [apply consumed_refl|]. cbn [fst snd]. rewrite zlen_nil. pose proof (zlen_nonneg taken). lia.
Qed.

(** ** A line *)

Lemma line_loop_returns room e : forall line i, exists r, line_loop room e line i = Some r.
Proof.
  induction room as [|room IH]; intros line i; [by eexists|]. cbn [line_loop].
  apply rbind_returns; [apply read_byte_returns|]. intros [b|] i1; [|by eexists].
  destruct (strip_suffix CRLF (line ++ [b])); [by eexists|]. destruct (b =? 10); [by eexists|]. apply IH.
Qed.

Lemma line_loop_ok room e : forall acc i line i', 10 ∉ acc -> line_loop room e acc i = Some (Ok line, i') ->
  exists taken, consumed taken i i' /\ acc ++ taken = line ++ CRLF /\ 10 ∉ line /\ zlen taken <= Z.of_nat room.
Proof.
  induction room as [|room IH]; intros acc i line i' Hn; [done|]. cbn [line_loop].
  intros ([b|] & i1 & Hb & H)%rbind_Ok; [|done]. apply read_byte_ok in Hb.
  destruct (strip_suffix CRLF (acc ++ [b])) as [l|] eqn:Es.
  - injection H as <- <-. apply strip_suffix_Some in Es. exists [b]. split_and!; [exact Hb|done| |unfold zlen; cbn; lia].
    change CRLF with ([13] ++ [10]) in Es. rewrite app_assoc in Es. apply app_inj_tail in Es as [-> _]. set_solver.
  - destruct (Z.eqb_spec b 10) as [|Hne]; [done|]. apply IH in H as (t & Hc & E & Hl & Hz); [|set_solver].
    exists (b :: t). split_and!; [exact (consumed_trans [b] t i i1 i' Hb Hc)|by rewrite <- E, <- app_assoc|done|].
    rewrite zlen_cons. lia.
Qed.

Lemma line_loop_quiet room e line rest : forall acc i taken,
  quiet i -> in_bytes i = taken ++ rest -> acc ++ taken = line ++ CRLF -> 10 ∉ line -> taken <> [] ->
  zlen taken <= Z.of_nat room ->
  exists i', line_loop room e acc i = Some (Ok line, i') /\ quiet i' /\ in_bytes i' = rest.
Proof.
  induction room as [|room IH]; intros acc i taken Hq Ei E Hn Ht Hz.
  { apply zlen_pos in Ht. lia. }
  destruct taken as [|b t]; [done|]. destruct (read_byte_quiet i Hq) as (i1 & Hb & Hq1 & E1). rewrite Ei in Hb, E1. cbn [head tail app] in Hb, E1.
  cbn [line_loop]. unfold rbind. rewrite Hb. destruct t as [|c t].
  - assert (strip_suffix CRLF (acc ++ [b]) = Some line) as -> by (by apply strip_suffix_Some). by exists i1.
  - assert (b ∈ line ++ [13]) as Hin.
    { destruct (exists_last (l := c :: t)) as (t' & d & Et); [done|]. rewrite Et in E.
      change CRLF with ([13] ++ [10]) in E. rewrite (app_assoc line) in E. change (b :: t' ++ [d]) with ((b :: t') ++ [d]) in E.
      rewrite app_assoc in E. apply app_inj_tail in E as [<- _]. set_solver. }
    assert (b <> 10) as Hne by set_solver.
    destruct (strip_suffix CRLF (acc ++ [b])) as [l|] eqn:Es.
    { apply strip_suffix_Some in Es. change CRLF with ([13] ++ [10]) in Es. rewrite app_assoc in Es. by apply app_inj_tail in Es as [_ ?]. }
    rewrite (proj2 (Z.eqb_neq b 10)) by done. apply (IH _ _ (c :: t)); [done|done|by rewrite <- app_assoc|done|done|].
    rewrite zlen_cons in Hz. lia.
Qed.

Lemma read_line_ok limit e i line i' : read_crlf_line limit e i = Some (Ok line, i') ->
  consumed (line ++ CRLF) i i' /\ 10 ∉ line /\ zlen line + 2 <= limit.
Proof.
  intros (taken & Hc & E & Hn & Hz)%line_loop_ok; [|apply not_elem_of_nil]. cbn [app] in E. subst taken. split_and!; [exact Hc|done|].
  rewrite zlen_app in Hz. unfold zlen at 2 in Hz. cbn in Hz. pose proof (zlen_nonneg line). lia.
Qed.
Lemma read_line_quiet limit e i line rest : quiet i -> in_bytes i = line ++ CRLF ++ rest -> 10 ∉ line -> zlen line + 2 <= limit ->
  exists i', read_crlf_line limit e i = Some (Ok line, i') /\ quiet i' /\ in_bytes i' = rest.
Proof.
  intros Hq E Hn Hz. apply (line_loop_quiet _ _ _ _ [] i (line ++ CRLF)); [done|by rewrite <- app_assoc|done|done|by destruct line|].
  rewrite zlen_app. unfold zlen at 2. cbn. pose proof (zlen_nonneg line). lia.
Qed.
Lemma read_line_returns limit e i : exists r, read_crlf_line limit e i = Some r.
Proof. apply line_loop_returns. Qed.
