(* ===== verification/Http1FieldProps.v ===== *)
(** * Loopback listener: fields

    The field lines of [Http1]: what the parser of one line accepts; which body the
    fields announce, with every refusal; and which fields are forwarded. *)

From S2P Require Import Prelude Text IcannDane NsTypes Engine ProxyHead ProxyHeadProps IpText Http1.
Import Stdlib.Strings.String.StringSyntax.

(** ** Text *)

Lemma utf8_decode_ascii s : Forall (fun b => b < 128) s -> utf8_decode s = Some s.
Proof.
  induction 1 as [|b s Hb _ IH]; [done|]. cbn [utf8_decode]. rewrite (proj2 (Z.ltb_lt b 0x80)) by lia. by rewrite IH.
Qed.
Lemma from_utf8_ascii s e : Forall (fun b => b < 128) s -> from_utf8 s e = Ok s.
Proof. intros. unfold from_utf8. by rewrite utf8_decode_ascii. Qed.

Definition graphic (b : Z) : Prop := 33 <= b <= 126.
Definition printable (b : Z) : Prop := b = 9 \/ 32 <= b <= 126.

Lemma token_graphic v : is_http_token v = true -> v <> [] /\ Forall graphic v.
Proof.
  unfold is_http_token. rewrite andb_true_iff, negb_true_iff, bool_decide_eq_false, forallb_forall. intros [Hn Hf]. split; [done|].
  apply Forall_forall. intros b Hb%list_elem_of_In%Hf. unfold graphic. apply orb_true_iff in Hb as [Ha|Hp].
  - unfold is_ascii_alphanumeric in Ha. rewrite !orb_true_iff, !andb_true_iff, !Z.leb_le in Ha. lia.
  - assert (Forall (fun c => 33 <= c <= 126) token_punctuation) as Ht by (repeat constructor; done).
    apply existsb_exists in Hp as (c & Hc & ->%Z.eqb_eq). rewrite Forall_forall in Ht. by apply Ht, list_elem_of_In.
Qed.
Lemma token_no_colon v : is_http_token v = true -> 58 ∉ v.
Proof.
  unfold is_http_token. rewrite andb_true_iff, forallb_forall. intros [_ Hf] Hin%list_elem_of_In%Hf. vm_compute in Hin. done.
Qed.
Lemma token_no_semicolon v : is_http_token v = true -> 59 ∉ v.
Proof.
  unfold is_http_token. rewrite andb_true_iff, forallb_forall. intros [_ Hf] Hin%list_elem_of_In%Hf. vm_compute in Hin. done.
Qed.

Lemma value_printable v : is_valid_field_value v = true <-> Forall printable v.
Proof.
  unfold is_valid_field_value, printable. rewrite forallb_forall, Forall_forall. split.
  - intros H b Hb%list_elem_of_In%H. rewrite orb_true_iff, Z.eqb_eq, andb_true_iff, !Z.leb_le in Hb. lia.
  - intros H b Hb%list_elem_of_In%H. rewrite orb_true_iff, Z.eqb_eq, andb_true_iff, !Z.leb_le. lia.
Qed.

Lemma graphic_printable b : graphic b -> printable b. Proof. unfold graphic, printable. lia. Qed.
Lemma blanks_printable l : blanks l -> Forall printable l.
Proof. intros H. eapply Forall_impl; [exact H|]. unfold is_blank, printable. cbn beta. intros b. rewrite orb_true_iff, !Z.eqb_eq. lia. Qed.
Lemma printable_lines l : Forall printable l -> 10 ∉ l /\ 13 ∉ l.
Proof. rewrite Forall_forall. unfold printable. split; intros H'%H; lia. Qed.
Lemma printable_ascii l : Forall printable l -> Forall (fun b => b < 128) l.
Proof. intros H. eapply Forall_impl; [exact H|]. unfold printable. cbn beta. lia. Qed.

(** [split_once] at the first separator. *)
Lemma split_once_iff sep s before after : split_once sep s = Some (before, after) <-> s = before ++ sep :: after /\ sep ∉ before.
Proof.
  split.
  - intros H. split; [by apply split_once_Some|]. revert before H. induction s as [|c s IH]; intros before; cbn; [done|].
    destruct (Z.eqb_spec c sep) as [->|]; [intros [= <- <-]; apply not_elem_of_nil|].
    intros ([b a] & Hs & E)%fmap_Some. injection E as -> ->. specialize (IH b Hs). set_solver.
  - intros [-> Hn]. induction before as [|c before IH]; cbn; [by rewrite Z.eqb_refl|].
    destruct (Z.eqb_spec c sep) as [->|]; [set_solver|]. by rewrite IH by set_solver.
Qed.
Lemma split_once_none sep s : split_once sep s = None <-> sep ∉ s.
Proof.
  induction s as [|c s IH]; cbn; [split; [intros _; apply not_elem_of_nil|done]|].
  destruct (Z.eqb_spec c sep) as [->|]; [split; [done|set_solver]|]. rewrite fmap_None, IH. set_solver.
Qed.

(** [split] cuts at each separator. *)
Lemma split_on_iff sep s l r :
  split_on sep s = l :: r <-> s = l ++ concat (map (cons sep) r) /\ Forall (fun x => sep ∉ x) (l :: r).
Proof.
  split.
  - revert l r. induction s as [|x s IH]; intros l r; cbn.
    { intros [= <- <-]. split; [done|]. repeat constructor. apply not_elem_of_nil. }
    pose proof (split_on_nil sep s) as Hn. destruct (split_on sep s) as [|f r']; [done|]. destruct (IH f r' eq_refl) as [-> Hf].
    destruct (Z.eqb_spec x sep) as [->|Hx].
    + intros [= <- <-]. split; [done|]. constructor; [apply not_elem_of_nil|done].
    + intros [= <- <-]. split; [done|]. apply Forall_cons in Hf as [Hf Hr]. constructor; [set_solver|done].
  - intros [-> Hf]. apply Forall_cons in Hf as [Hl Hr]. revert l Hl. induction Hr as [|x r Hx _ IH]; intros l Hl; cbn.
    + rewrite app_nil_r. by apply split_on_none.
    + rewrite split_on_app, (split_on_none sep l) by done. cbn. by rewrite IH.
Qed.

(** ** One field line *)

(** A line that reads as a field: blanks around the value are not part of it. *)
Definition field_line (line name value : list Z) : Prop :=
  exists before after, line = name ++ 58 :: before ++ value ++ after /\ is_http_token name = true /\ Forall printable value /\
    blanks before /\ blanks after /\
    (forall c, head value = Some c -> is_blank c = false) /\ (forall c, last value = Some c -> is_blank c = false).

Lemma parse_field_iff e line name value : parse_field e line = Ok (name, value) <-> field_line line name value.
Proof.
  unfold parse_field, trim_ows. split.
  - destruct (bool_decide (line = []) || _) eqn:Hh; [done|]. destruct (split_once 58 line) as [[n rest]|] eqn:E; [|done]. cbn [ok_or].
    destruct (negb (is_http_token n) || _) eqn:Hv; [done|].
    intros [= <- <-]. apply orb_false_iff in Hv as [Ht%negb_false_iff Hv%negb_false_iff].
    apply split_once_iff in E as [-> _]. unfold trim_blanks in *. destruct (trim_start_split is_blank rest) as (before & Eb & Hb & Hhead).
    destruct (trim_end_split is_blank (trim_start is_blank rest)) as (after & Ea & Ha & Hlast).
    exists before, after. rewrite <- Ea, <- Eb. split_and!; [done|done|by apply value_printable|done|done| |done].
    intros c Hc. apply Hhead. rewrite Ea. by destruct (trim_end is_blank (trim_start is_blank rest)).
  - intros (before & after & -> & Ht & Hv & Hb & Ha & Hh & Hl).
    assert (split_once 58 (name ++ 58 :: before ++ value ++ after) = Some (name, before ++ value ++ after)) as ->.
    { apply split_once_iff. split; [done|]. by apply token_no_colon. }
    destruct (token_graphic name Ht) as [Hne Hg]. rewrite bool_decide_eq_false_2 by (by destruct name). cbn [orb].
    destruct name as [|c name]; [done|]. cbn [app]. apply Forall_cons in Hg as [Hg _]. unfold graphic in Hg.
    replace (is_blank c) with false by (symmetry; unfold is_blank; rewrite orb_false_iff, !Z.eqb_neq; lia).
    cbn [ok_or]. rewrite trim_blanks_app by done. by rewrite Ht, (proj2 (value_printable value) Hv).
Qed.

Lemma field_line_printable line name value : field_line line name value ->
  Forall printable line /\ Forall graphic name /\ Forall printable value.
Proof.
  intros (before & after & -> & [_ Hn]%token_graphic & Hv & Hb%blanks_printable & Ha%blanks_printable & _).
  split_and!; [|done|done]. apply Forall_app. split; [eapply Forall_impl; [exact Hn|apply graphic_printable]|].
  constructor; [unfold printable; lia|]. by rewrite !Forall_app.
Qed.

Lemma field_line_utf8 line name value e : field_line line name value -> from_utf8 name e = Ok name /\ from_utf8 value e = Ok value.
Proof.
  intros (_ & Hn & Hv)%field_line_printable. split; apply from_utf8_ascii, printable_ascii; [|done].
  eapply Forall_impl; [exact Hn|apply graphic_printable].
Qed.

Lemma single_header_iff line h : parse_single_header_line line = Ok h <-> field_line line (header_name h) (header_value h).
Proof.
  unfold parse_single_header_line. split.
  - destruct (parse_field InvalidChunkedBody line) as [[n v]|] eqn:E; [|done]. apply parse_field_iff in E.
    destruct (field_line_utf8 _ _ _ InvalidChunkedBody E) as [-> ->]. by intros [= <-].
  - intros E. destruct (field_line_utf8 _ _ _ InvalidChunkedBody E) as [En Ev].
    apply (parse_field_iff InvalidChunkedBody) in E. rewrite E, En, Ev. by destruct h.
Qed.

(** ** The announced body *)

Definition decimal_value (digits : list Z) : Z := fold_left (fun v b => v * 10 + (b - 48)) digits 0.
(** A [Content-Length] that is a number in range. *)
Definition content_length (value : list Z) (n : Z) : Prop :=
  value <> [] /\ Forall (fun b => 48 <= b <= 57) value /\ n = decimal_value value /\ n <= u64_max.

Lemma digits_value v : forall acc, Forall (fun b => 48 <= b <= 57) v ->
  fold_left (fun v b => v * 10 + default 0 (to_digit 10 b)) v acc = fold_left (fun v b => v * 10 + (b - 48)) v acc.
Proof.
  induction v as [|b v IH]; intros acc Hv; [done|]. apply Forall_cons in Hv as [Hb Hv]. cbn [fold_left]. rewrite IH by done.
  unfold to_digit. by rewrite (proj2 (Z.leb_le 48 b)), (proj2 (Z.leb_le b 57)), (proj2 (Z.ltb_lt (b - 48) 10)) by lia.
Qed.

Lemma digits_str v : forallb is_digit (str_bytes v) = true <-> Forall (fun b => 48 <= b <= 57) v.
Proof.
  assert (forall l, forallb is_digit l = true <-> Forall (fun b => 48 <= b <= 57) l) as Hd.
  { intros l. rewrite forallb_forall, Forall_forall. unfold is_digit. split; intros H b Hb.
    - apply list_elem_of_In, H in Hb. rewrite andb_true_iff, !Z.leb_le in Hb. done.
    - apply list_elem_of_In, H in Hb. rewrite andb_true_iff, !Z.leb_le. done. }
  rewrite Hd. split; intros H.
  - rewrite (str_bytes_ascii v (str_bytes v)); [done|done|]. eapply Forall_impl; [exact H|]. cbn beta. lia.
  - rewrite ascii_str_bytes; [done|]. eapply Forall_impl; [exact H|]. cbn beta. lia.
Qed.

Lemma parse_content_length_iff v n : parse_content_length v = Ok n <-> content_length v n.
Proof.
  unfold parse_content_length, content_length, parse_u64, decimal_value. case_bool_decide as Hn; cbn [orb].
  { split; [done|]. by intros [? _]. }
  destruct (forallb is_digit (str_bytes v)) eqn:Hd; cbn [negb].
  - apply digits_str in Hd. rewrite digits_value by done. case_match eqn:Hle; rewrite ?Z.leb_le, ?Z.leb_gt in Hle; cbn [ok_or].
    + split; [by intros [= <-]|by intros (_ & _ & -> & _)].
    + split; [done|]. intros (_ & _ & -> & ?). lia.
  - split; [done|]. intros (_ & Hf%digits_str & _). congruence.
Qed.
Lemma parse_content_length_err v e : parse_content_length v = Err e -> e = InvalidContentLength.
Proof. unfold parse_content_length, ok_or. repeat case_match; congruence. Qed.

(** C30. Which body a request announces. A body has a length exactly when there is one
    [Content-Length], a decimal number in 64 bits, and no [Transfer-Encoding]; it is
    chunked exactly when there is one [Transfer-Encoding], which says just that, and
    no [Content-Length]; there is none exactly when there is neither field; and each
    refusal names its case: a repeated or malformed length, both fields, or a coding
    that is another or one of several. *)
Theorem framing_exact headers :
  match determine_body_framing headers with
  | Ok FramingNone => header_values H_CONTENT_LENGTH headers = [] /\ header_values H_TRANSFER_ENCODING headers = []
  | Ok (FramingContentLength n) =>
      (exists value, header_values H_CONTENT_LENGTH headers = [value] /\ content_length value n) /\
      header_values H_TRANSFER_ENCODING headers = []
  | Ok FramingChunked =>
      header_values H_CONTENT_LENGTH headers = [] /\
      exists value, header_values H_TRANSFER_ENCODING headers = [value] /\ eq_ignore_ascii_case value (text "chunked") = true
  | Err InvalidContentLength =>
      header_values H_CONTENT_LENGTH headers <> [] /\
      forall value n, header_values H_CONTENT_LENGTH headers = [value] -> ~ content_length value n
  | Err AmbiguousFraming =>
      (exists value n, header_values H_CONTENT_LENGTH headers = [value] /\ content_length value n) /\
      header_values H_TRANSFER_ENCODING headers <> []
  | Err UnsupportedTransferEncoding =>
      header_values H_CONTENT_LENGTH headers = [] /\ header_values H_TRANSFER_ENCODING headers <> [] /\
      forall value, header_values H_TRANSFER_ENCODING headers = [value] -> eq_ignore_ascii_case value (text "chunked") = false
  | Err _ => False
  end.
Proof.
  unfold determine_body_framing. cbv zeta.
  destruct (header_values H_CONTENT_LENGTH headers) as [|v [|v' vs]]; cycle 2.
  { rewrite (proj2 (Z.ltb_lt _ _)) by (rewrite !zlen_cons; pose proof (zlen_nonneg vs); lia). split; [done|by intros ? ? [=]]. }
  - change (1 <? zlen (@nil (list Z))) with false. cbn match. destruct (header_values H_TRANSFER_ENCODING headers) as [|t [|t' ts]]; [done| |];
      rewrite bool_decide_eq_false_2 by (by intros []).
    + rewrite bool_decide_eq_true_2 by done. cbn [negb orb]. destruct (eq_ignore_ascii_case t (text "chunked")) eqn:E; cbn [negb].
      * split; [done|]. by exists t.
      * split_and!; [done|done|]. by intros ? [= <-].
    + rewrite bool_decide_eq_false_2 by done. cbn [negb orb]. by split_and!.
  - change (1 <? zlen [v]) with false. cbn match. destruct (parse_content_length v) as [n|e] eqn:E; cbn [result_map].
    + apply parse_content_length_iff in E. destruct (header_values H_TRANSFER_ENCODING headers) as [|t ts].
      * split; [|done]. by exists v.
      * rewrite (bool_decide_eq_true_2 (Some n <> None)) by done. split; [|done]. by exists v, n.
    + pose proof (parse_content_length_err _ _ E) as ->. split; [done|]. intros ? n [= <-] Hc.
      apply parse_content_length_iff in Hc. congruence.
Qed.

(** ** The fields that are forwarded *)

(** Some [Connection] or [Proxy-Connection] field lists the name. *)
Definition nominated_by (headers : list Header) (name : list Z) : Prop :=
  exists h token, h ∈ headers /\ is_connection h = true /\ token ∈ connection_tokens (header_value h) /\
    eq_ignore_ascii_case token name = true.
Definition withheld (headers : list Header) (h : Header) : Prop :=
  is_hop_by_hop (map to_ascii_lowercase (header_name h)) = true \/
  starts_with proxy_prefix (map to_ascii_lowercase (header_name h)) = true \/
  starts_with internal_prefix (map to_ascii_lowercase (header_name h)) = true \/
  nominated_by headers (header_name h).

(** A listed token that is none. *)
Definition bad_nomination (headers : list Header) : Prop :=
  exists h token, h ∈ headers /\ is_connection h = true /\ token ∈ connection_tokens (header_value h) /\
    (token = [] \/ is_http_token (str_bytes token) = false).

Lemma elem_of_tokens headers token :
  token ∈ concat (map (fun h => connection_tokens (header_value h)) (List.filter is_connection headers)) <->
  exists h, h ∈ headers /\ is_connection h = true /\ token ∈ connection_tokens (header_value h).
Proof.
  rewrite list_elem_of_In, in_concat. split.
  - intros (l & (h & <- & [Hin Hc]%filter_In)%in_map_iff & Ht). exists h. by rewrite !list_elem_of_In.
  - intros (h & Hin & Hc & Ht). exists (connection_tokens (header_value h)). split; [|by apply list_elem_of_In].
    apply in_map_iff. exists h. split; [done|]. apply filter_In. by rewrite <- list_elem_of_In.
Qed.

Lemma nominated_fields headers :
  match connection_nominated_fields headers with
  | Ok nominated => ~ bad_nomination headers /\
      forall name, map to_ascii_lowercase name ∈ nominated <-> nominated_by headers name
  | Err e => e = InvalidHeader /\ bad_nomination headers
  end.
Proof.
  unfold connection_nominated_fields. cbv zeta.
  destruct (existsb _ _) eqn:E.
  - split; [done|]. apply existsb_exists in E as (token & Hin%list_elem_of_In & Hb). apply elem_of_tokens in Hin as (h & ? & ? & ?).
    exists h, token. rewrite orb_true_iff, bool_decide_eq_true, negb_true_iff in Hb. done.
  - apply existsb_false_forall in E. rewrite Forall_forall in E. split.
    + intros (h & token & H1 & H2 & H3 & H4). assert (token ∈ concat (map (fun h => connection_tokens (header_value h)) (List.filter is_connection headers))) as Hin
        by (apply elem_of_tokens; by exists h).
      apply E in Hin. rewrite orb_false_iff, bool_decide_eq_false, negb_false_iff in Hin. destruct Hin, H4; congruence.
    + intros name. rewrite elem_of_list_to_set, list_elem_of_fmap. unfold nominated_by, eq_ignore_ascii_case. split.
      * intros (token & Heq & (h & ? & ? & ?)%elem_of_tokens). exists h, token. by rewrite bool_decide_eq_true.
      * intros (h & token & ? & ? & ? & Heq). rewrite bool_decide_eq_true in Heq. exists token. split; [done|].
        apply elem_of_tokens. by exists h.
Qed.

Lemma forwarded_iff headers nominated h :
  (forall name, map to_ascii_lowercase name ∈ nominated <-> nominated_by headers name) ->
  forwarded nominated h = true <-> ~ withheld headers h.
Proof.
  intros Hn. unfold forwarded, withheld. cbv zeta. rewrite !andb_true_iff, !negb_true_iff, bool_decide_eq_false, Hn.
  rewrite <- !not_true_iff_false. tauto.
Qed.

Lemma connection_withheld headers h : is_connection h = true -> withheld headers h.
Proof.
  unfold is_connection, eq_ignore_ascii_case. rewrite orb_true_iff, !bool_decide_eq_true. intros [E|E]; left; unfold is_hop_by_hop; rewrite E; vm_compute; done.
Qed.
Lemma encoding_withheld headers h : eq_ignore_ascii_case (header_name h) H_TRANSFER_ENCODING = true -> withheld headers h.
Proof. unfold eq_ignore_ascii_case. rewrite bool_decide_eq_true. intros E. left. unfold is_hop_by_hop. rewrite E. vm_compute. done. Qed.

Lemma filter_forallb {A} (p : A -> bool) l : (forall x, x ∈ l -> p x = true) -> List.filter p l = l.
Proof.
  induction l as [|x l IH]; intros H; [done|]. cbn. rewrite (H x) by left. f_equal. apply IH. intros y Hy. apply H. by right.
Qed.
Lemma filter_false {A} (p : A -> bool) l : (forall x, x ∈ l -> p x = false) -> List.filter p l = [].
Proof.
  induction l as [|x l IH]; intros H; [done|]. cbn. rewrite (H x) by left. apply IH. intros y Hy. apply H. by right.
Qed.
Lemma filter_same {A} (p q : A -> bool) l : (forall x, x ∈ l -> p x = q x) -> List.filter p l = List.filter q l.
Proof.
  induction l as [|x l IH]; intros H; [done|]. cbn. rewrite (H x) by left. rewrite IH; [done|]. intros y Hy. apply H. by right.
Qed.
Lemma elem_of_filter_list {A} (p : A -> bool) l x : x ∈ List.filter p l <-> x ∈ l /\ p x = true.
Proof. by rewrite !list_elem_of_In, filter_In. Qed.

(** Fields that are not of a name do not give it a value. *)
Lemma no_values name fields : (forall h, h ∈ fields -> eq_ignore_ascii_case (header_name h) name = false) -> header_values name fields = [].
Proof. intros H. unfold header_values. by rewrite filter_false. Qed.

Lemma sanitize_ok headers out : sanitize_forward_headers headers = Ok out ->
  exists nominated, out = List.filter (forwarded nominated) headers /\
    (forall name, map to_ascii_lowercase name ∈ nominated <-> nominated_by headers name).
Proof.
  unfold sanitize_forward_headers. pose proof (nominated_fields headers) as Hn.
  destruct (connection_nominated_fields headers) as [nominated|e]; [|done]. intros [= <-]. exists nominated. split; [done|apply Hn].
Qed.

(** What is forwarded. The fields are refused exactly if a [Connection] or
    [Proxy-Connection] field lists something that is no token. Else the forwarded
    ones are, in their order and as often, exactly those that are not hop-by-hop,
    begin with neither [proxy-] nor [x-hns-], and are not listed by such a field, in
    any case of letters; they announce no transfer coding, and sanitizing them again
    changes nothing. *)
Theorem forwarded_fields_exact headers :
  match sanitize_forward_headers headers with
  | Ok out =>
      ~ bad_nomination headers /\
      (forall keep, (forall h, h ∈ headers -> keep h = true <-> ~ withheld headers h) -> out = List.filter keep headers) /\
      header_values H_TRANSFER_ENCODING out = [] /\
      sanitize_forward_headers out = Ok out
  | Err e => e = InvalidHeader /\ bad_nomination headers
  end.
Proof.
  destruct (sanitize_forward_headers headers) as [out|e] eqn:E.
  - pose proof (sanitize_ok _ _ E) as (nominated & -> & Hn).
    assert (forall h, h ∈ List.filter (forwarded nominated) headers -> ~ withheld headers h) as Hout
      by (intros h [_ Hf]%elem_of_filter_list; by eapply forwarded_iff).
    unfold sanitize_forward_headers in E. pose proof (nominated_fields headers) as Hb.
    destruct (connection_nominated_fields headers); [|done]. split_and!; [apply Hb| | |].
    + intros keep Hk. apply filter_same. intros h Hh. apply eq_true_iff_eq. rewrite Hk by done. by apply forwarded_iff.
    + apply no_values. intros h Hh. apply not_true_iff_false. intros Hte. by apply (Hout h Hh), encoding_withheld.
    + unfold sanitize_forward_headers, connection_nominated_fields. cbv zeta. rewrite (filter_false is_connection).
      2: { intros h Hh. apply not_true_iff_false. intros Hc. by apply (Hout h Hh), connection_withheld. }
      cbn [map concat existsb list_to_set]. f_equal. apply filter_forallb. intros h Hh%Hout.
      apply (forwarded_iff headers nominated) in Hh; [|done]. unfold forwarded in *. cbv zeta in *.
      rewrite !andb_true_iff in *. destruct Hh as [[[? ?] ?] _]. split; [done|].
      by rewrite bool_decide_eq_false_2 by apply not_elem_of_empty.
  - unfold sanitize_forward_headers in E. pose proof (nominated_fields headers) as Hb.
    destruct (connection_nominated_fields headers); [done|]. injection E as ->. exact Hb.
Qed.

(** A request for a WebSocket: one [Upgrade] field that says so, and a [Connection]
    field that lists it. *)
Definition upgrade_requested (headers : list Header) : Prop :=
  (exists value, header_values H_UPGRADE headers = [value] /\ eq_ignore_ascii_case value (text "websocket") = true) /\
  exists h token, h ∈ headers /\ eq_ignore_ascii_case (header_name h) (text "connection") = true /\
    token ∈ connection_tokens (header_value h) /\ eq_ignore_ascii_case token H_UPGRADE = true.

Lemma connection_upgrade_iff headers : connection_upgrade headers = true <->
  exists h token, h ∈ headers /\ eq_ignore_ascii_case (header_name h) (text "connection") = true /\
    token ∈ connection_tokens (header_value h) /\ eq_ignore_ascii_case token H_UPGRADE = true.
Proof.
  unfold connection_upgrade. rewrite existsb_exists. split.
  - intros (h & Hin & [Hc (token & Ht & Hu)%existsb_exists]%andb_true_iff). exists h, token. by rewrite !list_elem_of_In.
  - intros (h & token & Hin & Hc & Ht & Hu). exists h. rewrite <- list_elem_of_In, andb_true_iff, existsb_exists. split_and!; [done|done|].
    exists token. by rewrite <- list_elem_of_In.
Qed.

Lemma header_values_app name a b : header_values name (a ++ b) = header_values name a ++ header_values name b.
Proof. unfold header_values. by rewrite List.filter_app, map_app. Qed.
Lemma values_kept name p headers : (forall h, h ∈ headers -> eq_ignore_ascii_case (header_name h) name = true -> p h = true) ->
  header_values name (List.filter p headers) = header_values name headers.
Proof.
  intros H. unfold header_values. f_equal. induction headers as [|h headers IH]; [done|]. cbn.
  assert (List.filter (fun h => eq_ignore_ascii_case (header_name h) name) (List.filter p headers) =
          List.filter (fun h => eq_ignore_ascii_case (header_name h) name) headers) as IH' by (apply IH; intros; apply H; [by right|done]).
  destruct (p h) eqn:Hp; cbn; rewrite IH'; [done|].
  destruct (eq_ignore_ascii_case (header_name h) name) eqn:Hn; [|done]. specialize (H h ltac:(left) Hn). congruence.
Qed.

(** C35. A WebSocket handshake is forwarded exactly if its fields may be and it asks for
    the upgrade: what is forwarded of any request, then one [Connection] and one
    [Upgrade] field of the proxy's own, which are the only ones of their names, and no
    transfer coding; but a [Content-Length] that no [Connection] field lists stays. *)
Theorem upgrade_fields_exact headers out :
  (sanitize_upgrade_forward_headers headers = Ok out <->
   exists kept, sanitize_forward_headers headers = Ok kept /\ upgrade_requested headers /\ out = kept ++ upgrade_fields) /\
  (sanitize_upgrade_forward_headers headers = Ok out ->
   header_values (text "connection") out = [text "Upgrade"] /\ header_values H_UPGRADE out = [text "websocket"] /\
   header_values H_TRANSFER_ENCODING out = [] /\
   (~ nominated_by headers H_CONTENT_LENGTH -> header_values H_CONTENT_LENGTH out = header_values H_CONTENT_LENGTH headers)).
Proof.
  assert (sanitize_upgrade_forward_headers headers = Ok out <->
   exists kept, sanitize_forward_headers headers = Ok kept /\ upgrade_requested headers /\ out = kept ++ upgrade_fields) as Hiff.
  { unfold sanitize_upgrade_forward_headers, sanitize_forward_headers, upgrade_requested. setoid_rewrite <- (connection_upgrade_iff headers).
    destruct (connection_nominated_fields headers) as [nominated|e]; [|by split; [done|intros (? & ? & _)]].
    destruct (header_values H_UPGRADE headers) as [|v [|]];
      [by split; [done|intros (? & _ & [(? & ? & _) _] & _)]| |by split; [done|intros (? & _ & [(? & ? & _) _] & _)]].
    destruct (connection_upgrade headers); cbn [negb orb]; [|by split; [done|intros (? & _ & [_ ?] & _)]].
    destruct (eq_ignore_ascii_case v (text "websocket")) eqn:Ev; cbn [negb].
    - split; [intros [= <-]; eauto 8|]. by intros (? & [= <-] & _ & ->).
    - split; [done|]. intros (? & _ & [(? & [= <-] & ?) _] & _). congruence. }
  split; [done|]. intros (kept & E & _ & ->)%Hiff. pose proof (forwarded_fields_exact headers) as Hf.
  destruct (sanitize_ok _ _ E) as (nominated & -> & Hn). rewrite !header_values_app.
  assert (forall h, h ∈ List.filter (forwarded nominated) headers -> ~ withheld headers h) as Hout
    by (intros h [_ Hk]%elem_of_filter_list; by eapply forwarded_iff).
  assert (forall name, is_hop_by_hop (map to_ascii_lowercase name) = true -> header_values name (List.filter (forwarded nominated) headers) = []) as Hnone.
  { intros name Hhop. apply no_values. intros h Hh. apply not_true_iff_false. unfold eq_ignore_ascii_case. rewrite bool_decide_eq_true.
    intros Heq. apply (Hout h Hh). left. by rewrite Heq. }
  rewrite (Hnone (text "connection")), (Hnone H_UPGRADE), (Hnone H_TRANSFER_ENCODING) by (vm_compute; reflexivity).
  split_and!; [vm_compute; reflexivity..|]. intros Hcl. rewrite values_kept; [by rewrite app_nil_r|].
  intros h Hh Hname. apply (forwarded_iff headers); [done|]. unfold eq_ignore_ascii_case in Hname. rewrite bool_decide_eq_true in Hname.
  unfold withheld. rewrite Hname. intros [H|[H|[H|H]]]; [vm_compute in H; discriminate..|]. apply Hcl.
  destruct H as (h' & token & ? & ? & ? & Heq). exists h', token. split_and!; [done|done|done|].
  unfold eq_ignore_ascii_case in *. apply bool_decide_eq_true in Heq. apply bool_decide_eq_true. congruence.
Qed.

(** ** A handshake with a length *)

Definition field (name value : list Z) : Header := {| header_name := name; header_value := value |}.
Definition sample_handshake : list Header :=
  [field (text "Host") (text "a.example"); field (text "Connection") (text "keep-alive, Upgrade, X-Session");
   field (text "Upgrade") (text "WebSocket"); field (text "X-Session") (text "1");
   field (text "Proxy-Authorization") (text "Basic eA=="); field (text "Content-Length") (text "5");
   field (text "Sec-WebSocket-Version") (text "13")].

(** The length stays among the forwarded fields. *)
Example handshake_keeps_length :
  sanitize_upgrade_forward_headers sample_handshake =
    Ok ([field (text "Host") (text "a.example"); field (text "Content-Length") (text "5");
         field (text "Sec-WebSocket-Version") (text "13")] ++ upgrade_fields).
Proof. vm_compute. reflexivity. Qed.
