(* ===== verification/Http1BodyProps.v ===== *)
(** * Loopback listener: request bodies

    The chunked coding as a grammar, and the reader of [Http1] against it: on any
    stream it returns, what it accepts is a coded body and nothing after it is
    consumed, and on a stream without faults every coded body within the limits is
    accepted, however the calls split it. *)

From S2P Require Import Prelude Text IcannDane NsTypes Engine ProxyHead ProxyHeadProps IpText Http1 Http1ReadProps Http1FieldProps.
Import Stdlib.Strings.String.StringSyntax.

(** A line is read by up to thousands of turns: it is never unfolded. *)
#[local] Strategy opaque [read_crlf_line].

(** ** The line of a chunk *)

Definition hex_value (digits : list Z) : Z := fold_left (fun v b => v * 16 + default 0 (to_digit 16 b)) digits 0.
(** Digits, then extensions each after a semicolon. *)
Definition size_line (line : list Z) (size : Z) : Prop :=
  exists digits extensions, line = digits ++ concat (map (cons 59) extensions) /\
    digits <> [] /\ forallb is_hex_digit digits = true /\ hex_value digits = size /\ size <= u64_max /\
    Forall (fun x => extension_ok x = true /\ 59 ∉ x) extensions.

Lemma hex_digits_graphic digits : forallb is_hex_digit digits = true -> Forall graphic digits /\ 59 ∉ digits.
Proof.
  rewrite forallb_forall. intros H.
  assert (forall b, b ∈ digits -> 48 <= b <= 57 \/ 65 <= b <= 70 \/ 97 <= b <= 102) as Hd.
  { intros b Hb%list_elem_of_In%H. unfold is_hex_digit, is_digit in Hb. rewrite !orb_true_iff, !andb_true_iff, !Z.leb_le in Hb. lia. }
  split; [apply Forall_forall; intros b Hb%Hd; unfold graphic; lia|intros Hb%Hd; lia].
Qed.

Lemma extensions_iff extensions : validate_chunk_extensions extensions = Ok tt <->
  exists items, extensions = concat (map (cons 59) items) /\ Forall (fun x => extension_ok x = true /\ 59 ∉ x) items.
Proof.
  unfold validate_chunk_extensions. destruct extensions as [|first rest].
  { split; [|done]. intros _. by exists []. }
  destruct (split_on 59 rest) as [|l r] eqn:E; [by apply split_on_nil in E|]. destruct (Z.eqb_spec first 59) as [->|Hne]; cbn [andb].
  - pose proof E as [-> Hc]%split_on_iff. split.
    + destruct (forallb extension_ok (l :: r)) eqn:Hok; [|done]. intros _. exists (l :: r). split; [done|].
      rewrite forallb_forall in Hok. rewrite Forall_forall in *. intros x Hx. split; [by apply Hok, list_elem_of_In|by apply Hc].
    + intros (items & Ei & Hi). destruct items as [|i items]; [done|]. cbn in Ei. injection Ei as Ei.
      assert (split_on 59 (i ++ concat (map (cons 59) items)) = i :: items) as Es.
      { apply split_on_iff. split; [done|]. eapply Forall_impl; [exact Hi|]. by intros x [_ ?]. }
      rewrite <- Ei, E in Es. injection Es as -> ->. replace (forallb extension_ok (i :: items)) with true; [done|].
      symmetry. apply forallb_forall. intros x Hx%list_elem_of_In. rewrite Forall_forall in Hi. by apply Hi.
  - split; [done|]. intros (items & Ei & _). destruct items; [done|]. cbn in Ei. by injection Ei as -> _.
Qed.
Lemma extensions_err extensions e : validate_chunk_extensions extensions = Err e -> e = InvalidChunkedBody.
Proof. unfold validate_chunk_extensions. destruct extensions; [done|]. destruct (_ && _); congruence. Qed.

Lemma parse_chunk_size_iff line size : parse_chunk_size line = Ok size <-> size_line line size.
Proof.
  assert (forall digits extensions, digits <> [] -> forallb is_hex_digit digits = true ->
    (let? _ := validate_chunk_extensions extensions in
     let? digits := from_utf8 digits InvalidChunkedBody in ok_or (parse_u64 16 digits) InvalidChunkedBody) = Ok size <->
    validate_chunk_extensions extensions = Ok tt /\ hex_value digits = size /\ size <= u64_max) as Hparse.
  { intros digits extensions Hne Hd. destruct (hex_digits_graphic _ Hd) as [Hg _].
    rewrite from_utf8_ascii by (eapply printable_ascii, Forall_impl; [exact Hg|apply graphic_printable]).
    destruct (validate_chunk_extensions extensions) as [[]|]; [|by split; [|intros [? _]]].
    unfold parse_u64. fold (hex_value digits). destruct (Z.leb_spec (hex_value digits) u64_max); cbn [ok_or];
      (split; [intros [=]|intros (_ & ? & ?)]); subst; try done; lia. }
  unfold parse_chunk_size, size_line. destruct (split_once 59 line) as [[digits rest]|] eqn:E.
  - pose proof E as [-> Hn]%split_once_iff. case_bool_decide as Hne; cbn [orb].
    { split; [done|]. intros (d & exts & Ed & Hd & Hh & _). destruct (hex_digits_graphic _ Hh) as [_ H59]. subst digits.
      destruct d as [|c d]; [done|]. cbn in Ed. injection Ed as <- _. set_solver. }
    destruct (forallb is_hex_digit digits) eqn:Hd; cbn [negb].
    + rewrite Hparse by done. rewrite extensions_iff. split.
      * intros ((items & Ei & Hi) & ? & ?). exists digits, items. by rewrite <- Ei.
      * intros (d & exts & Ed & Hdn & Hh & Hv & Hle & He). destruct (hex_digits_graphic _ Hh) as [_ H59].
        assert (digits = d /\ 59 :: rest = concat (map (cons 59) exts)) as [<- Er]; [|by split; [exists exts|]].
        destruct exts as [|x exts]; cbn in Ed; [rewrite app_nil_r in Ed; subst d; set_solver|].
        assert (split_once 59 (digits ++ 59 :: rest) = Some (d, x ++ concat (map (cons 59) exts))) as E2 by (apply split_once_iff; done).
        rewrite E in E2. by injection E2 as -> ->.
    + split; [done|]. intros (d & exts & Ed & Hdn & Hh & Hv & Hle & He). destruct (hex_digits_graphic _ Hh) as [_ H59].
      destruct exts as [|x exts]; cbn in Ed; [rewrite app_nil_r in Ed; subst d; set_solver|].
      assert (split_once 59 (digits ++ 59 :: rest) = Some (d, x ++ concat (map (cons 59) exts))) as E2 by (apply split_once_iff; done).
      rewrite E in E2. injection E2 as -> _. congruence.
  - apply split_once_none in E. assert (forall d exts, line = d ++ concat (map (cons 59) exts) -> exts = [] /\ d = line) as Hno.
    { intros d [|x exts] ->; cbn in E; [by rewrite app_nil_r|set_solver]. }
    case_bool_decide as Hne; cbn [orb].
    { split; [done|]. intros (d & exts & Ed & Hd & _). apply Hno in Ed as [_ ->]. done. }
    destruct (forallb is_hex_digit line) eqn:Hd; cbn [negb].
    + rewrite Hparse by done. split; [intros (_ & ? & ?); exists line, []; by rewrite app_nil_r|].
      intros (d & exts & Ed & _ & _ & ? & ? & _). by apply Hno in Ed as [_ ->].
    + split; [done|]. intros (d & exts & Ed & _ & ? & _). apply Hno in Ed as [_ ->]. congruence.
Qed.

Lemma quoted_printable escaped inner : quoted_ok escaped inner = true -> Forall printable inner.
Proof.
  revert escaped. induction inner as [|b inner IH]; intros escaped; [constructor|]. cbn [quoted_ok].
  destruct escaped; [|destruct (Z.eqb_spec b 92) as [->|]].
  - intros [Hb Hi]%andb_true_iff. constructor; [|by eapply IH]. unfold printable.
    rewrite orb_true_iff, Z.eqb_eq, andb_true_iff, !Z.leb_le in Hb. lia.
  - intros Hi. constructor; [unfold printable; lia|by eapply IH].
  - intros [Hb Hi]%andb_true_iff. constructor; [|by eapply IH]. unfold printable.
    rewrite !orb_true_iff, !Z.eqb_eq, !andb_true_iff, !Z.leb_le in Hb. lia.
Qed.

Lemma strip_prefix_Some prefix s l : strip_prefix prefix s = Some l <-> s = prefix ++ l.
Proof.
  unfold strip_prefix, starts_with. case_bool_decide as E.
  - split; [intros [= <-]; rewrite <- E at 1; by rewrite take_drop|intros ->; by rewrite drop_app_length].
  - split; [done|]. intros ->. by rewrite take_app_length in E.
Qed.

Lemma extension_printable x : extension_ok x = true -> Forall printable x.
Proof.
  assert (forall v, is_http_token v = true -> Forall printable v) as Ht.
  { intros v [_ Hg]%token_graphic. eapply Forall_impl; [exact Hg|apply graphic_printable]. }
  unfold extension_ok. destruct (split_once 61 x) as [[n v]|] eqn:E.
  - apply split_once_iff in E as [-> _]. intros [Hn%Ht Hv]%andb_true_iff. apply Forall_app. split; [done|].
    constructor; [unfold printable; lia|]. apply orb_true_iff in Hv as [Hv|Hv]; [by apply Ht|]. unfold is_valid_quoted_string in Hv.
    destruct (strip_prefix [34] v ≫= strip_suffix [34]) as [inner|] eqn:Es; [|done].
    apply bind_Some in Es as (r & ->%strip_prefix_Some & ->%strip_suffix_Some). apply quoted_printable in Hv.
    constructor; [unfold printable; lia|]. apply Forall_app. split; [done|]. constructor; [unfold printable; lia|constructor].
  - rewrite andb_true_r. apply Ht.
Qed.

Lemma size_line_printable line size : size_line line size -> Forall printable line.
Proof.
  intros (d & exts & -> & _ & [Hd _]%hex_digits_graphic & _ & _ & He). apply Forall_app. split.
  - eapply Forall_impl; [exact Hd|apply graphic_printable].
  - induction He as [|x exts [Hx%extension_printable _] _ IH]; [constructor|]. cbn. constructor; [unfold printable; lia|].
    by apply Forall_app.
Qed.

(** ** The coded body *)

Definition chunk_bytes (chunk : list Z * list Z) : list Z := chunk.1 ++ CRLF ++ chunk.2 ++ CRLF.
Definition trailer_bytes (lines : list (list Z)) : list Z := concat (map (fun line => line ++ CRLF) lines) ++ CRLF.

(** A chunk: a line that gives the size of its data, which is not nothing. *)
Definition chunk_ok (chunk : list Z * list Z) : Prop :=
  size_line chunk.1 (zlen chunk.2) /\ chunk.2 <> [] /\ zlen chunk.1 + 2 <= MAX_CHUNK_LINE_BYTES.
(** A trailer line: a field that is neither of framing, nor of routing, nor of the proxy. *)
Definition trailer_ok (line : list Z) : Prop :=
  (exists h, field_line line (header_name h) (header_value h) /\ trailer_refused (header_name h) = false) /\
  zlen line + 2 <= MAX_CHUNK_LINE_BYTES.

(** The coded form of a body: chunks, a chunk of no data, trailers. *)
Record chunked (coded body : list Z) (max_body_bytes : Z) : Prop := {
  ck_parts : exists chunks last trailers,
    coded = concat (map chunk_bytes chunks) ++ last ++ CRLF ++ trailer_bytes trailers /\
    body = concat (map snd chunks) /\
    Forall chunk_ok chunks /\ size_line last 0 /\ zlen last + 2 <= MAX_CHUNK_LINE_BYTES /\
    Forall trailer_ok trailers /\ zlen trailers <= MAX_REQUEST_HEADERS /\ zlen (trailer_bytes trailers) <= MAX_CHUNK_TRAILER_BYTES;
  ck_length : zlen body <= max_body_bytes }.

(** ** The trailers *)

Lemma trailer_turn_returns s i : exists r, trailer_turn s i = Some r.
Proof.
  destruct s as [consumed count]. unfold trailer_turn. case_match; [by eexists|].
  apply rbind_returns; [apply read_line_returns|]. intros line i1. case_match; [by eexists|]. case_match; [by eexists|].
  apply rbind_returns; [by eexists|]. intros h i2. case_match; by eexists.
Qed.

(** A turn reads one trailer, or the empty line. *)
Lemma trailer_turn_ok used count i r i' : trailer_turn (used, count) i = Some (Ok r, i') ->
  used + 2 <= MAX_CHUNK_TRAILER_BYTES /\
  match r with
  | inl s' => exists line, consumed (line ++ CRLF) i i' /\ trailer_ok line /\ used + zlen line + 2 <= MAX_CHUNK_TRAILER_BYTES /\
                count + 1 <= MAX_REQUEST_HEADERS /\ s' = (used + (zlen line + 2), count + 1)
  | inr _ => consumed CRLF i i'
  end.
Proof.
  unfold trailer_turn. destruct (Z.ltb_spec (MAX_CHUNK_TRAILER_BYTES - used) 2); [done|].
  intros (line & i1 & (Hc & _ & Hl)%read_line_ok & H1)%rbind_Ok. split; [lia|].
  case_bool_decide as Hne; [injection H1 as <- <-; by subst line|].
  destruct (Z.ltb_spec MAX_REQUEST_HEADERS (count + 1)); [done|]. apply rbind_Ok in H1 as (h & i2 & Hh & H1).
  injection Hh as Hh <-. apply single_header_iff in Hh. destruct (trailer_refused (header_name h)) eqn:Hr; [done|].
  injection H1 as <- <-. exists line. split_and!; [exact Hc| |lia|lia|done]. split; [by exists h|lia].
Qed.

Lemma trailers_return i : exists r, read_chunk_trailers i = Some r.
Proof.
  unfold read_chunk_trailers. apply (turns_return trailer_turn (fun _ i => length (in_bytes i))); [apply trailer_turn_returns| |lia].
  intros [used count] i0 s' i' [_ (line & (-> & _) & _)]%trailer_turn_ok. rewrite !length_app. cbn. lia.
Qed.

Lemma zlen_trailer_cons line lines : zlen (trailer_bytes (line :: lines)) = zlen line + 2 + zlen (trailer_bytes lines).
Proof. unfold trailer_bytes. cbn [map concat]. rewrite !zlen_app. change (zlen CRLF) with 2. lia. Qed.

Lemma trailer_loop_ok fuel : forall used count i i',
  turns fuel trailer_turn (used, count) i = Some (Ok tt, i') ->
  exists lines, consumed (trailer_bytes lines) i i' /\ Forall trailer_ok lines /\
    (lines = [] \/ count + zlen lines <= MAX_REQUEST_HEADERS) /\ used + zlen (trailer_bytes lines) <= MAX_CHUNK_TRAILER_BYTES.
Proof.
  induction fuel as [|fuel IH]; intros used count i i'; [done|]. cbn [turns]. intros (r & i1 & Ht & H)%rbind_Ok.
  apply trailer_turn_ok in Ht as [Hu Ht]. destruct r as [s'|[]].
  - destruct Ht as (line & Hc & Hl & Hz & Hn & ->). apply IH in H as (lines & Hc' & Hls & Hcount & Hz').
    exists (line :: lines). rewrite zlen_trailer_cons, zlen_cons. split_and!; [|by constructor| |lia].
    + unfold trailer_bytes. cbn [map concat]. rewrite <- app_assoc. by eapply consumed_trans.
    + right. destruct Hcount as [->|]; [rewrite zlen_nil|]; lia.
  - injection H as <-. exists []. split_and!; [exact Ht|constructor|by left|]. unfold trailer_bytes, zlen. cbn. lia.
Qed.

Lemma trailer_loop_quiet lines rest : forall fuel used count i,
  (length lines < fuel)%nat -> quiet i -> in_bytes i = trailer_bytes lines ++ rest -> Forall trailer_ok lines ->
  count + zlen lines <= MAX_REQUEST_HEADERS -> used + zlen (trailer_bytes lines) <= MAX_CHUNK_TRAILER_BYTES ->
  exists i', turns fuel trailer_turn (used, count) i = Some (Ok tt, i') /\ quiet i' /\ in_bytes i' = rest.
Proof.
  induction lines as [|line lines IH]; intros fuel used count i Hf Hq E Hls Hcount Hz; (destruct fuel as [|fuel]; [cbn in Hf; lia|]);
    cbn [turns]; unfold rbind at 1, trailer_turn at 1.
  - unfold trailer_bytes in Hz, E. cbn [map concat app] in Hz, E. unfold zlen in Hz. cbn in Hz.
    rewrite (proj2 (Z.ltb_ge _ _)) by lia. unfold rbind.
    destruct (read_line_quiet (Z.min (MAX_CHUNK_TRAILER_BYTES - used) MAX_CHUNK_LINE_BYTES) InvalidChunkedBody i [] rest Hq E)
      as (i' & -> & Hq' & Er); [apply not_elem_of_nil|rewrite zlen_nil; unfold MAX_CHUNK_LINE_BYTES; lia|]. by exists i'.
  - rewrite zlen_trailer_cons in Hz. rewrite zlen_cons in Hcount. apply Forall_cons in Hls as [[(h & Hfl & Href) Hl] Hls].
    pose proof (zlen_nonneg line). pose proof (zlen_nonneg (trailer_bytes lines)). pose proof (zlen_nonneg lines).
    destruct (field_line_printable _ _ _ Hfl) as [[H10 _]%printable_lines _]. rewrite (proj2 (Z.ltb_ge _ _)) by lia. unfold rbind.
    unfold trailer_bytes in E. cbn [map concat] in E. rewrite <- !app_assoc in E.
    destruct (read_line_quiet (Z.min (MAX_CHUNK_TRAILER_BYTES - used) MAX_CHUNK_LINE_BYTES) InvalidChunkedBody i line _ Hq E)
      as (i' & -> & Hq' & Er); [done|lia|].
    rewrite bool_decide_eq_false_2 by (destruct Hfl as (? & ? & -> & _); by destruct (header_name h)).
    rewrite (proj2 (Z.ltb_ge _ _)) by lia. unfold rlift. rewrite (proj2 (single_header_iff line h) Hfl), Href. cbn match.
    apply IH; [cbn in Hf; lia|done|unfold trailer_bytes; by rewrite <- app_assoc|done|lia|lia].
Qed.

(** ** The chunks *)

Lemma hex_value_nonneg digits : 0 <= hex_value digits.
Proof.
  unfold hex_value. assert (forall l v, 0 <= v -> 0 <= fold_left (fun v b => v * 16 + default 0 (to_digit 16 b)) l v) as Hf; [|by apply Hf].
  induction l as [|b l IH]; intros v Hv; cbn [fold_left]; [done|]. apply IH.
  assert (0 <= default 0 (to_digit 16 b)); [|lia]. unfold to_digit. repeat case_match; cbn; breflect; lia.
Qed.
Lemma size_line_nonneg line size : size_line line size -> 0 <= size.
Proof. intros (d & exts & _ & _ & _ & <- & _). apply hex_value_nonneg. Qed.

Lemma rlift_Ok {A} (r : result Http1Error A) i a i' : rlift r i = Some (Ok a, i') <-> r = Ok a /\ i' = i.
Proof. unfold rlift. split; [by intros [= -> ->]|by intros [-> ->]]. Qed.

Section chunks.
Context (max_body_bytes : Z) (Hmax : 0 <= max_body_bytes <= u64_max).
Notation turn := (chunk_turn max_body_bytes).

Lemma chunk_turn_returns s i : exists r, turn s i = Some r.
Proof.
  destruct s as [output total]. unfold chunk_turn. apply rbind_returns; [apply read_line_returns|]. intros line i1.
  apply rbind_returns; [by eexists|]. intros size i2. case_match.
  { apply rbind_returns; [apply trailers_return|]. intros; by eexists. }
  apply rbind_returns; [by eexists|]. intros t i3. case_match; [by eexists|]. apply rbind_returns; [by eexists|]. intros _ i4.
  apply rbind_returns; [apply read_exact_returns|]. intros chunk i5. apply rbind_returns; [apply read_exact_returns|].
  intros crlf i6. case_match; by eexists.
Qed.

(** The coded end of a body. *)
Definition coded_end (last : list Z) (trailers : list (list Z)) : list Z := last ++ CRLF ++ trailer_bytes trailers.
Definition end_ok (last : list Z) (trailers : list (list Z)) : Prop :=
  size_line last 0 /\ zlen last + 2 <= MAX_CHUNK_LINE_BYTES /\ Forall trailer_ok trailers /\
  zlen trailers <= MAX_REQUEST_HEADERS /\ zlen (trailer_bytes trailers) <= MAX_CHUNK_TRAILER_BYTES.

(** A turn reads one chunk, or the end. *)
Lemma chunk_turn_ok output total i r i' : turn (output, total) i = Some (Ok r, i') ->
  match r with
  | inl s' => exists chunk, consumed (chunk_bytes chunk) i i' /\ chunk_ok chunk /\
                s' = (output ++ chunk.2, total + zlen chunk.2) /\ total + zlen chunk.2 <= max_body_bytes
  | inr body => body = output /\ exists last trailers, consumed (coded_end last trailers) i i' /\ end_ok last trailers
  end.
Proof.
  unfold chunk_turn. intros (line & i1 & (Hc & _ & Hl)%read_line_ok & H)%rbind_Ok.
  apply rbind_Ok in H as (size & i2 & [Hs ->]%rlift_Ok & H). apply parse_chunk_size_iff in Hs.
  pose proof (size_line_nonneg _ _ Hs) as Hpos. destruct (Z.eqb_spec size 0) as [->|Hne].
  - apply rbind_Ok in H as ([] & i3 & Ht & H). injection H as <- ->. split; [done|]. unfold read_chunk_trailers in Ht.
    apply trailer_loop_ok in Ht as (trailers & Hct & Hts & Hcount & Hz). exists line, trailers. split.
    + unfold coded_end. rewrite app_assoc. by eapply consumed_trans.
    + split_and!; [done|done|done| |lia]. destruct Hcount as [->|]; [rewrite zlen_nil; unfold MAX_REQUEST_HEADERS|]; lia.
  - apply rbind_Ok in H as (t & i3 & [(-> & _)%ok_or_Ok%checked_add_Some ->]%rlift_Ok & H).
    destruct (Z.ltb_spec max_body_bytes (total + size)); [done|]. apply rbind_Ok in H as (? & i4 & [_ ->]%rlift_Ok & H).
    apply rbind_Ok in H as (chunk & i5 & [Hc5 Hz]%read_exact_ok & H); [|done].
    apply rbind_Ok in H as (crlf & i6 & [Hc6 _]%read_exact_ok & H); [|done]. case_bool_decide; cbn [negb] in H; [|done].
    injection H as <- ->. subst crlf size. exists (line, chunk). cbn [fst snd]. split_and!; [| |done|done].
    + unfold chunk_bytes. cbn [fst snd]. rewrite (app_assoc line). eapply consumed_trans; [exact Hc|]. by eapply consumed_trans.
    + split_and!; [done|cbn; intros ->; by rewrite zlen_nil in Hne|done].
Qed.

Lemma chunk_loop_ok fuel : forall output total i body i',
  turns fuel turn (output, total) i = Some (Ok body, i') ->
  exists chunks last trailers, consumed (concat (map chunk_bytes chunks) ++ coded_end last trailers) i i' /\
    body = output ++ concat (map snd chunks) /\ Forall chunk_ok chunks /\ end_ok last trailers /\
    (chunks = [] \/ total + zlen (concat (map snd chunks)) <= max_body_bytes).
Proof.
  induction fuel as [|fuel IH]; intros output total i body i'; [done|]. cbn [turns].
  intros (r & i1 & Ht%chunk_turn_ok & H)%rbind_Ok. destruct r as [s'|b].
  - destruct Ht as (chunk & Hc & Hok & -> & Hm). apply IH in H as (chunks & last & trailers & Hc' & -> & Hcs & He & Hz).
    exists (chunk :: chunks), last, trailers. cbn [map concat]. rewrite <- !app_assoc. split_and!; [by eapply consumed_trans|done|by constructor|done|].
    right. rewrite zlen_app. destruct Hz as [->|]; [unfold zlen at 2; cbn|]; lia.
  - destruct Ht as (-> & last & trailers & Hc & He). injection H as <- ->. exists [], last, trailers.
    cbn [map concat]. rewrite app_nil_r. split_and!; [exact Hc|done|constructor|done|by left].
Qed.

Lemma chunk_line_quiet line size i rest : quiet i -> in_bytes i = line ++ CRLF ++ rest -> size_line line size ->
  zlen line + 2 <= MAX_CHUNK_LINE_BYTES ->
  exists i', read_crlf_line MAX_CHUNK_LINE_BYTES InvalidChunkedBody i = Some (Ok line, i') /\ quiet i' /\ in_bytes i' = rest.
Proof. intros Hq E [H10 _]%size_line_printable%printable_lines Hl. by apply read_line_quiet. Qed.

Lemma chunk_loop_quiet chunks last trailers rest : end_ok last trailers -> forall fuel output total i,
  (length chunks < fuel)%nat -> quiet i -> in_bytes i = concat (map chunk_bytes chunks) ++ coded_end last trailers ++ rest ->
  Forall chunk_ok chunks -> zlen output = total -> total + zlen (concat (map snd chunks)) <= max_body_bytes ->
  exists i', turns fuel turn (output, total) i = Some (Ok (output ++ concat (map snd chunks)), i') /\ quiet i' /\ in_bytes i' = rest.
Proof.
  intros (Hs & Hll & Hts & Hcount & Htz). induction chunks as [|[line data] chunks IH]; intros fuel output total i Hf Hq E Hcs Ho Hz;
    (destruct fuel as [|fuel]; [cbn in Hf; lia|]); cbn [turns]; unfold rbind at 1, chunk_turn at 1; unfold rbind.
  - unfold coded_end in E. cbn [map concat app] in E. rewrite <- !app_assoc in E.
    destruct (chunk_line_quiet last 0 i _ Hq E Hs Hll) as (i1 & -> & Hq1 & E1). unfold rlift.
    rewrite (proj2 (parse_chunk_size_iff last 0) Hs). cbn [Z.eqb]. unfold read_chunk_trailers.
    destruct (trailer_loop_quiet trailers rest (S (length (in_bytes i1))) 0 0 i1) as (i2 & -> & Hq2 & E2); [|done|done|done|lia|lia|].
    + rewrite E1, length_app. assert (length trailers <= length (trailer_bytes trailers))%nat; [|lia].
      clear. unfold trailer_bytes. rewrite length_app. induction trailers as [|t ts IH]; cbn [map concat length]; [lia|].
      rewrite !length_app in *. change (length CRLF) with 2%nat in *. lia.
    + exists i2. cbn [map concat]. by rewrite app_nil_r.
  - apply Forall_cons in Hcs as [(Hsl & Hne & Hl) Hcs]. cbn [map concat fst snd] in *. rewrite zlen_app in Hz.
    unfold chunk_bytes at 1 in E. cbn [fst snd] in E. rewrite <- !app_assoc in E.
    pose proof (zlen_pos data Hne). pose proof (zlen_nonneg (concat (map snd chunks))). pose proof (zlen_nonneg output).
    destruct (chunk_line_quiet line (zlen data) i _ Hq E Hsl Hl) as (i1 & -> & Hq1 & E1). unfold rlift.
    rewrite (proj2 (parse_chunk_size_iff line (zlen data)) Hsl), (proj2 (Z.eqb_neq _ 0)) by lia.
    rewrite !checked_add_small by lia. cbn [ok_or]. rewrite (proj2 (Z.ltb_ge _ _)) by lia.
    destruct (read_exact_quiet data _ i1 Hq1 E1) as (i2 & -> & Hq2 & E2).
    destruct (read_exact_quiet CRLF _ i2 Hq2 E2) as (i3 & E3 & Hq3 & E4). change (zlen CRLF) with 2 in E3. rewrite E3.
    rewrite bool_decide_eq_true_2 by done. cbn [negb rret]. rewrite app_assoc.
    apply IH; [cbn in Hf; lia|done|done|done|rewrite zlen_app; lia|lia].
Qed.

Lemma chunked_returns i : exists r, read_chunked_body max_body_bytes i = Some r.
Proof.
  unfold read_chunked_body. apply (turns_return turn (fun _ i => length (in_bytes i))); [apply chunk_turn_returns| |lia].
  intros [o t] i0 s' i' (chunk & (-> & _) & _)%chunk_turn_ok. unfold chunk_bytes. rewrite !length_app. cbn. lia.
Qed.

(** C29. The chunked coding. On any reader, whatever its calls give, the body is read to
    an end; if it is accepted, what was consumed is a coded form of it within the
    limits -- of lines, trailers and length -- and the rest of the stream is left;
    and on a reader without faults every coded form is accepted, however the calls
    split it. *)
Theorem chunked_body_exact i :
  (exists r i', read_chunked_body max_body_bytes i = Some (r, i')) /\
  (forall body i', read_chunked_body max_body_bytes i = Some (Ok body, i') ->
     exists coded, in_bytes i = coded ++ in_bytes i' /\ chunked coded body max_body_bytes) /\
  (forall coded body rest, quiet i -> in_bytes i = coded ++ rest -> chunked coded body max_body_bytes ->
     exists i', read_chunked_body max_body_bytes i = Some (Ok body, i') /\ in_bytes i' = rest).
Proof.
  split_and!.
  - destruct (chunked_returns i) as [[r i'] E]. by exists r, i'.
  - intros body i' H. unfold read_chunked_body in H. apply chunk_loop_ok in H as (chunks & last & trailers & (E & _) & -> & Hcs & He & Hz).
    exists (concat (map chunk_bytes chunks) ++ coded_end last trailers). split; [done|]. destruct He as (H1 & H2 & H3 & H4 & H5). split.
    + by exists chunks, last, trailers.
    + cbn [app]. destruct Hz as [->|]; [cbn [map concat app]; rewrite zlen_nil|]; lia.
  - intros coded body rest Hq E [(chunks & last & trailers & -> & -> & Hcs & H1 & H2 & H3 & H4 & H5) Hz].
    change (last ++ CRLF ++ trailer_bytes trailers) with (coded_end last trailers) in E. rewrite <- app_assoc in E.
    destruct (chunk_loop_quiet chunks last trailers rest ltac:(done) (S (length (in_bytes i))) [] 0 i) as (i' & Hr & _ & Er);
      [|done|done|done|done|lia|by exists i'].
    rewrite E, length_app. assert (length chunks <= length (concat (map chunk_bytes chunks)))%nat; [|lia].
    clear. induction chunks as [|c cs IH]; cbn [map concat length]; [lia|]. rewrite length_app. unfold chunk_bytes at 1. rewrite !length_app. change (length CRLF) with 2%nat. lia.
Qed.
End chunks.

(** The coding is unambiguous: no stream begins with two bodies. *)
Lemma chunked_unambiguous max c1 b1 r1 c2 b2 r2 : 0 <= max <= u64_max ->
  chunked c1 b1 max -> chunked c2 b2 max -> c1 ++ r1 = c2 ++ r2 -> b1 = b2 /\ r1 = r2.
Proof.
  intros Hm H1 H2 E. pose (i := {| in_bytes := c1 ++ r1; in_steps := [] |}). assert (quiet i) as Hq by constructor.
  destruct (chunked_body_exact max Hm i) as (_ & _ & Hall). destruct (Hall c1 b1 r1 Hq eq_refl H1) as (i1 & E1 & <-).
  destruct (Hall c2 b2 r2 Hq E H2) as (i2 & E2 & <-). rewrite E1 in E2. by injection E2 as <- <-.
Qed.

(** ** A body in one chunk *)

Definition sample_coded : list Z :=
  text "3;a=b" ++ CRLF ++ text "abc" ++ CRLF ++ text "0" ++ CRLF ++ text "X-Sum: y" ++ CRLF ++ CRLF.
Definition sample_stream : Input := {| in_bytes := sample_coded ++ text "GET /"; in_steps := [Give 1; Give 7; Give 0; Give 2] |}.

Lemma sample_chunked : chunked sample_coded (text "abc") 10.
Proof.
  split; [|vm_compute; discriminate]. exists [(text "3;a=b", text "abc")], (text "0"), [text "X-Sum: y"].
  split; [reflexivity|]. split; [reflexivity|]. split; [|split; [|split; [|split; [|split]]]].
  - constructor; [|constructor]. split; [apply parse_chunk_size_iff; vm_compute; reflexivity|]. split; [discriminate|vm_compute; discriminate].
  - apply parse_chunk_size_iff. vm_compute. reflexivity.
  - vm_compute. discriminate.
  - constructor; [|constructor]. split; [|vm_compute; discriminate].
    exists (field (text "X-Sum") (text "y")). split; [apply single_header_iff; vm_compute; reflexivity|vm_compute; reflexivity].
  - vm_compute. discriminate.
  - vm_compute. discriminate.
Qed.

Lemma chunked_body_exact_witness :
  exists i', read_chunked_body 10 sample_stream = Some (Ok (text "abc"), i') /\ in_bytes i' = text "GET /".
Proof.
  assert (0 <= 10 <= u64_max) as Hm by (vm_compute; split; discriminate).
  destruct (chunked_body_exact 10 Hm sample_stream) as (_ & _ & Hall).
  apply (Hall sample_coded (text "abc") (text "GET /")); [repeat constructor|reflexivity|apply sample_chunked].
Defined.
