(* ===== verification/Http1HeadProps.v ===== *)
(** * Loopback listener: request heads

    The heads [Http1] accepts, as a grammar, and the reader that stops right after
    one. *)

From S2P Require Import Prelude Text IcannDane NsTypes Engine ProxyHead ProxyHeadProps IpText Http1 Http1ReadProps Http1FieldProps.
Import Stdlib.Strings.String.StringSyntax.

(** ** Bytes *)

Lemma starts_with_iff prefix s : starts_with prefix s = true <-> exists l, s = prefix ++ l.
Proof.
  unfold starts_with. rewrite bool_decide_eq_true. split.
  - intros E. exists (drop (length prefix) s). rewrite <- E at 1. by rewrite take_drop.
  - intros [l ->]. by rewrite take_app_length.
Qed.
Lemma ends_with_iff suffix s : slice_ends_with suffix s = true <-> exists l, s = l ++ suffix.
Proof.
  unfold slice_ends_with. rewrite bool_decide_eq_true. split.
  - intros H. destruct (strip_suffix suffix s) as [l|] eqn:E; [|done]. exists l. by apply strip_suffix_Some.
  - intros [l ->]. by rewrite (proj2 (strip_suffix_Some suffix (l ++ suffix) l)).
Qed.

(** The first place of a pattern. *)
Lemma find_window_iff pattern s n : find_window pattern s = Some n <->
  exists before after, s = before ++ pattern ++ after /\ n = zlen before /\
    forall b a, s = b ++ pattern ++ a -> (length before <= length b)%nat.
Proof.
  revert n. induction s as [|c s IH]; intros n.
  - cbn. destruct (starts_with pattern []) eqn:E.
    + apply starts_with_iff in E as [l E]. destruct pattern; [|done]. split.
      * intros [= <-]. exists [], []. split_and!; [done|done|]. cbn. lia.
      * intros (b & a & Eb & -> & _). destruct b; [done|]. done.
    + split; [done|]. intros (b & a & Eb & _ & _). destruct b; [|done]. cbn in Eb.
      assert (starts_with pattern [] = true) by (apply starts_with_iff; eauto). congruence.
  - cbn [find_window]. destruct (starts_with pattern (c :: s)) eqn:E.
    + apply starts_with_iff in E as [l E]. split.
      * intros [= <-]. exists [], l. split_and!; [done|done|]. cbn. lia.
      * intros (b & a & Eb & -> & Hmin). specialize (Hmin [] l E). destruct b; [done|]. cbn in Hmin. lia.
    + assert (forall a, c :: s <> pattern ++ a) as Hno.
      { intros a Ea. assert (starts_with pattern (c :: s) = true) by (apply starts_with_iff; eauto). congruence. }
      rewrite fmap_Some. split.
      * intros (m & (b & a & -> & -> & Hmin)%IH & ->). exists (c :: b), a. split_and!; [done|by rewrite zlen_cons; lia|].
        intros [|c' b'] a' Eb'; [by apply Hno in Eb'|]. injection Eb' as _ Eb'. apply Hmin in Eb'. cbn. lia.
      * intros ([|c' b] & a & Eb & -> & Hmin); [by apply Hno in Eb|]. injection Eb as <- Eb. exists (zlen b). rewrite zlen_cons.
        split; [|lia]. apply IH. exists b, a. split_and!; [done|done|]. intros b' a' Eb'.
        specialize (Hmin (c :: b') a'). rewrite Eb' in Hmin. specialize (Hmin eq_refl). cbn in Hmin. lia.
Qed.

(** ** The grammar *)

Definition crlf_lines (lines : list (list Z)) : list Z := concat (map (fun line => line ++ CRLF) lines).
Definition request_line (method target : list Z) (version : HttpVersion) : list Z :=
  method ++ 32 :: target ++ 32 :: version_text version.

(** A head: the request line and the field lines, each with its end, and an empty line. *)
Record head_of (bytes : list Z) (h : RequestHead) : Prop := {
  ho_method : is_http_token (head_method h) = true;
  ho_target : head_target h <> [] /\ Forall graphic (head_target h);
  ho_lines : exists lines,
    bytes = request_line (head_method h) (head_target h) (head_version h) ++ CRLF ++ crlf_lines lines ++ CRLF /\
    Forall2 (fun line f => field_line line (header_name f) (header_value f)) lines (head_headers h);
  ho_limits : zlen (head_headers h) <= MAX_REQUEST_HEADERS /\ zlen bytes <= DEFAULT_MAX_REQUEST_HEAD_BYTES }.

(** ** The request line *)

Lemma version_graphic v : Forall graphic (version_text v).
Proof.
  assert (forallb (fun b => (33 <=? b) && (b <=? 126)) (version_text v) = true) as H by (destruct v; vm_compute; reflexivity).
  rewrite forallb_forall in H. apply Forall_forall. intros b Hb%list_elem_of_In%H. rewrite andb_true_iff, !Z.leb_le in Hb. exact Hb.
Qed.

Lemma graphic_no_space l : Forall graphic l -> 32 ∉ l.
Proof. rewrite Forall_forall. intros H Hin%H. unfold graphic in Hin. lia. Qed.

Lemma parse_request_line_iff bytes method target version :
  parse_request_line bytes = Ok (method, target, version) <->
  bytes = request_line method target version /\ is_http_token method = true /\ target <> [] /\ Forall graphic target.
Proof.
  assert (forall t, forallb (fun b => (0x21 <=? b) && (b <=? 0x7e)) t = true <-> Forall graphic t) as Hg.
  { intros t. rewrite forallb_forall, Forall_forall. unfold graphic. split; intros H b Hb.
    - apply list_elem_of_In, H in Hb. rewrite andb_true_iff, !Z.leb_le in Hb. lia.
    - apply list_elem_of_In, H in Hb. rewrite andb_true_iff, !Z.leb_le. lia. }
  assert (forall l, Forall graphic l -> Forall (fun b => b < 128) l) as Hascii
    by (intros l Hl; eapply Forall_impl; [exact Hl|]; unfold graphic; cbn beta; lia).
  unfold parse_request_line, request_line. split.
  - destruct (negb _ || _); [done|]. destruct (split_on 32 bytes) as [|m [|t [|v rest]]] eqn:E; try done.
    apply split_on_iff in E as [-> _]. destruct (_ || _ || _ || _) eqn:Hb; [done|].
    rewrite !orb_false_iff, !negb_false_iff, bool_decide_eq_true, bool_decide_eq_false, Hg in Hb. destruct Hb as [[[-> Hm] Ht] Htg].
    destruct (token_graphic _ Hm) as [_ Hmg].
    intros H. assert (exists ver, v = version_text ver /\
      (let? method0 := from_utf8 m InvalidRequestLine in let? target0 := from_utf8 t InvalidRequestLine in
       Ok (method0, target0, ver)) = Ok (method, target, version)) as (ver & -> & H').
    { case_bool_decide; [by exists Http10|]. case_bool_decide; [by exists Http11|]. by destruct (starts_with _ v). }
    rewrite !from_utf8_ascii in H' by auto. injection H' as <- <- <-. split_and!; [|done|done|done]. cbn. by rewrite app_nil_r.
  - intros (-> & Hm & Ht & Htg). destruct (token_graphic _ Hm) as [Hmn Hmg]. pose proof (version_graphic version) as Hvg.
    rewrite (proj2 (forallb_forall _ _)).
    2: { intros b Hb%list_elem_of_In. apply Z.ltb_lt. rewrite Forall_forall in Hmg, Htg, Hvg. unfold graphic in *.
         rewrite elem_of_app, !elem_of_cons, elem_of_app, elem_of_cons in Hb.
         destruct Hb as [H%Hmg|[->|[H%Htg|[->|H%Hvg]]]]; lia. }
    rewrite (proj2 (existsb_false_forall _ _)).
    2: { apply Forall_forall. intros b Hb. apply Z.eqb_neq. intros <-. rewrite Forall_forall in Hmg, Htg, Hvg. unfold graphic in *.
         rewrite elem_of_app, !elem_of_cons, elem_of_app, elem_of_cons in Hb.
         destruct Hb as [H%Hmg|[|[H%Htg|[|H%Hvg]]]]; lia. }
    cbn [negb orb].
    assert (split_on 32 (method ++ 32 :: target ++ 32 :: version_text version) = [method; target; version_text version]) as ->.
    { apply split_on_iff. cbn. rewrite app_nil_r. split; [done|]. repeat constructor; by apply graphic_no_space. }
    rewrite Hm, (proj2 (Hg target) Htg), (bool_decide_eq_false_2 (target = [])), (bool_decide_eq_true_2 (@nil (list Z) = [])) by done.
    cbn [negb orb].
    assert ((if bool_decide (version_text version = version_text Http10) then Ok Http10 else
        if bool_decide (version_text version = version_text Http11) then Ok Http11 else
        if starts_with (text "HTTP/") (version_text version) then Err UnsupportedHttpVersion else Err InvalidRequestLine) = @Ok Http1Error _ version) as ->
      by (destruct version; vm_compute; reflexivity).
    by rewrite !from_utf8_ascii by auto.
Qed.

(** ** Lines *)

(** Text without line characters. *)
Definition plain (l : list Z) : Prop := 10 ∉ l /\ 13 ∉ l.

Lemma crlf_ok_suffix l : forall before rest, crlf_ok before (l ++ 10 :: rest) = true -> crlf_ok (Some 10) rest = true.
Proof.
  induction l as [|b l IH]; intros before rest; cbn [app crlf_ok]; rewrite !andb_true_iff; intros [_ H]; [done|by eapply IH].
Qed.

Lemma crlf_ok_line l rest : plain l -> forall before, crlf_ok before (l ++ CRLF ++ rest) = crlf_ok (Some 10) rest.
Proof.
  induction l as [|b l IH]; intros [H10 H13] before; [done|]. cbn [app crlf_ok].
  rewrite (proj2 (Z.eqb_neq b 13)), (proj2 (Z.eqb_neq b 10)) by set_solver. cbn [andb negb]. apply IH. split; set_solver.
Qed.
Lemma crlf_ok_lines lines : Forall plain lines -> forall rest, crlf_ok (Some 10) (crlf_lines lines ++ rest) = crlf_ok (Some 10) rest.
Proof.
  induction 1 as [|l lines Hl _ IH]; intros rest; [done|]. unfold crlf_lines. cbn [map concat]. rewrite <- !app_assoc, crlf_ok_line by done. apply IH.
Qed.

Lemma field_line_plain line n v : field_line line n v -> plain line /\ line <> [].
Proof.
  intros H. destruct (field_line_printable _ _ _ H) as (Hp & _). split; [by apply printable_lines|].
  destruct H as (? & ? & -> & _). by destruct n.
Qed.

(** An empty line ends lines of which none is empty nowhere but at their end. *)
Lemma head_end_last lines b a : Forall (fun l => plain l /\ l <> []) lines ->
  crlf_lines lines ++ CRLF = b ++ HEAD_END ++ a -> a = [].
Proof.
  intros Hl. revert b. induction Hl as [|l lines [[H10 H13] Hne] Hls IH]; intros b E.
  { apply (f_equal length) in E. rewrite !length_app in E. cbn in E. lia. }
  unfold crlf_lines in E. cbn [map concat] in E. fold (crlf_lines lines) in E. rewrite <- !app_assoc in E.
  assert (forall x rest y r, 13 ∉ x -> x ++ CRLF ++ rest = y ++ HEAD_END ++ r ->
    (y = x /\ rest = CRLF ++ r) \/ exists z, y = x ++ CRLF ++ z /\ rest = z ++ HEAD_END ++ r) as Hcut.
  { clear. induction x as [|c x IH]; intros rest y r Hx E.
    - destruct y as [|d y]; [left; by injection E as ->|]. injection E as <- E. destruct y as [|d y]; [by injection E|].
      injection E as <- E. right. by exists y.
    - destruct y as [|d y]; [injection E as -> _; set_solver|]. injection E as <- E.
      destruct (IH rest y r ltac:(set_solver) E) as [[-> ->]|(z & -> & ->)]; [by left|right; by exists z]. }
  destruct (Hcut _ _ _ _ H13 E) as [[-> E2]|(z & -> & E2)]; [|by eapply IH].
  destruct Hls as [|l' lines [[H10' H13'] Hne'] Hls]; [cbn in E2; by injection E2 as <-|].
  unfold crlf_lines in E2. cbn [map concat] in E2. destruct l' as [|c l']; [done|]. cbn in E2. injection E2 as -> _. set_solver.
Qed.

(** ** The field lines *)

Lemma header_lines_ok pieces : forall p0 headers out before,
  crlf_ok before (p0 ++ concat (map (cons 10) pieces) ++ CRLF) = true -> (p0 = [] -> before <> Some 13) ->
  header_lines headers (p0 :: pieces) = Ok out -> zlen headers <= MAX_REQUEST_HEADERS ->
  exists lines fields, p0 ++ concat (map (cons 10) pieces) = crlf_lines lines /\ out = headers ++ fields /\
    Forall2 (fun line f => field_line line (header_name f) (header_value f)) lines fields /\ zlen out <= MAX_REQUEST_HEADERS.
Proof.
  induction pieces as [|p1 pieces IH]; intros p0 headers out before Hc Hb H Hz; cbn [header_lines] in H; cbn [map concat] in Hc |- *.
  - case_bool_decide as Hp0.
    + injection H as <-. subst p0. exists [], []. rewrite app_nil_r. split_and!; [done|by rewrite app_nil_r|constructor|done].
    + destruct (strip_suffix [13] p0) as [l|] eqn:E; [|done]. apply strip_suffix_Some in E as ->. exfalso.
      clear -Hc. revert before Hc. induction l as [|b l IH]; intros before; cbn [app crlf_ok]; rewrite !andb_true_iff; intros [[Hx _] Hc].
      * done.
      * by eapply IH.
  - case_bool_decide as Hp0.
    { subst p0. exfalso. cbn [app crlf_ok] in Hc. rewrite !andb_true_iff in Hc. destruct Hc as [[_ Hc] _].
      rewrite bool_decide_eq_false_2 in Hc by auto. done. }
    destruct (strip_suffix [13] p0) as [l|] eqn:E; [|done]. apply strip_suffix_Some in E as ->. cbn [ok_or] in H.
    destruct (parse_field InvalidHeader l) as [[n v]|] eqn:Ef; [|done]. apply parse_field_iff in Ef.
    destruct (Z.eqb_spec (zlen headers) MAX_REQUEST_HEADERS) as [|Hlt]; [done|].
    destruct (field_line_utf8 _ _ _ InvalidHeader Ef) as [En Ev]. rewrite En, Ev in H.
    change ((10 :: p1) ++ concat (map (cons 10) pieces)) with (10 :: (p1 ++ concat (map (cons 10) pieces))) in *.
    rewrite <- app_comm_cons in Hc. apply crlf_ok_suffix in Hc. rewrite <- app_assoc in Hc.
    destruct (IH p1 _ out _ Hc ltac:(done) H) as (lines & fields & Ep & -> & Hf & Hzo).
    { rewrite zlen_app. unfold zlen at 2. cbn. lia. }
    exists (l :: lines), ({| header_name := n; header_value := v |} :: fields). rewrite Ep. split_and!.
    + unfold crlf_lines. cbn [map concat]. by rewrite <- !app_assoc.
    + by rewrite <- app_assoc.
    + by constructor.
    + done.
Qed.

Lemma header_lines_form lines fields : Forall2 (fun line f => field_line line (header_name f) (header_value f)) lines fields ->
  forall headers, zlen headers + zlen fields <= MAX_REQUEST_HEADERS ->
  header_lines headers (map (fun l => l ++ [13]) lines ++ [[]]) = Ok (headers ++ fields).
Proof.
  induction 1 as [|l f lines fields Hf _ IH]; intros headers Hz; cbn [map app header_lines]; [by rewrite app_nil_r|].
  rewrite bool_decide_eq_false_2 by (by destruct l). rewrite (proj2 (strip_suffix_Some [13] (l ++ [13]) l) eq_refl). cbn [ok_or].
  rewrite (proj2 (parse_field_iff InvalidHeader l _ _) Hf). rewrite zlen_cons in Hz. pose proof (zlen_nonneg fields).
  rewrite (proj2 (Z.eqb_neq _ _)) by lia. destruct (field_line_utf8 _ _ _ InvalidHeader Hf) as [-> ->].
  rewrite IH; [by destruct f; rewrite <- app_assoc|]. rewrite zlen_app. unfold zlen at 2. cbn. lia.
Qed.

(** ** The head *)

Lemma request_line_plain method target version : is_http_token method = true -> Forall graphic target ->
  plain (request_line method target version) /\ request_line method target version <> [].
Proof.
  intros [Hne Hm]%token_graphic Ht. split; [|by destruct method]. apply printable_lines. unfold request_line.
  assert (forall l, Forall graphic l -> Forall printable l) as Hp by (intros l Hl; eapply Forall_impl; [exact Hl|apply graphic_printable]).
  pose proof (version_graphic version). rewrite !Forall_app, !Forall_cons, !Forall_app, !Forall_cons.
  split_and!; auto; unfold printable; lia.
Qed.

(** The end of a head is the first empty line, and all its line characters are in pairs. *)
Lemma head_lines_end lines : Forall (fun l => plain l /\ l <> []) lines -> lines <> [] ->
  find_head_end (crlf_lines lines ++ CRLF) = Some (zlen (crlf_lines lines ++ CRLF)).
Proof.
  intros Hl Hne. unfold find_head_end. destruct (exists_last Hne) as (front & l & ->).
  assert (crlf_lines (front ++ [l]) ++ CRLF = (crlf_lines front ++ l) ++ HEAD_END) as E.
  { unfold crlf_lines. rewrite map_app, concat_app. cbn [map concat]. by rewrite app_nil_r, <- !app_assoc. }
  assert (find_window HEAD_END (crlf_lines (front ++ [l]) ++ CRLF) = Some (zlen (crlf_lines front ++ l))) as ->.
  { apply find_window_iff. exists (crlf_lines front ++ l), []. split_and!; [by rewrite app_nil_r|done|].
    intros b a Eb. pose proof (head_end_last _ _ _ Hl Eb) as ->. rewrite E, app_nil_r in Eb. apply app_inj_2 in Eb as [-> _]; [lia|done]. }
  cbn. f_equal. rewrite E, (zlen_app _ HEAD_END). done.
Qed.

Lemma first_line l rest : plain l -> find_window CRLF (l ++ CRLF ++ rest) = Some (zlen l).
Proof.
  intros [_ H13]. apply find_window_iff. exists l, rest. split_and!; [done|done|]. intros b a E.
  destruct (Nat.le_gt_cases (length l) (length b)) as [|Hlt]; [done|]. exfalso. apply H13.
  assert ((l ++ CRLF ++ rest) !! length b = Some 13) as Hb by (rewrite E; change (CRLF ++ a) with (13 :: 10 :: a); by rewrite list_lookup_middle).
  rewrite lookup_app_l in Hb by done. by eapply list_elem_of_lookup_2.
Qed.

Lemma piece_lines lines : Forall plain lines -> split_on 10 (crlf_lines lines) = map (fun l => l ++ [13]) lines ++ [[]].
Proof.
  induction 1 as [|l lines [H10 _] _ IH]; [done|]. unfold crlf_lines. cbn [map concat]. fold (crlf_lines lines).
  assert ((l ++ CRLF) ++ crlf_lines lines = (l ++ [13]) ++ 10 :: crlf_lines lines) as -> by (by rewrite <- !app_assoc).
  rewrite split_on_app, (split_on_none 10 (l ++ [13])) by set_solver. cbn [app]. by rewrite IH.
Qed.

(** A terminated head is a line and a block. *)
Lemma head_parts bytes n : find_head_end bytes = Some (zlen bytes) -> find_window CRLF bytes = Some n ->
  exists line block, bytes = line ++ CRLF ++ block ++ CRLF /\ n = zlen line.
Proof.
  intros Eend (line & after & Ebytes & -> & Hmin)%find_window_iff. unfold find_head_end in Eend.
  apply fmap_Some in Eend as (n & (b & a & Eb & -> & _)%find_window_iff & En). rewrite Eb, !zlen_app in En.
  assert (a = []) as -> by (apply zlen_0; lia). rewrite app_nil_r in Eb. specialize (Hmin b CRLF Eb).
  exists line, (drop (length (line ++ CRLF)) (b ++ CRLF)). split; [|done].
  assert (take (length (line ++ CRLF)) (b ++ CRLF) = line ++ CRLF) as E.
  { transitivity (take (length (line ++ CRLF)) ((b ++ CRLF) ++ CRLF)).
    - symmetry. apply take_app_le. rewrite !length_app. lia.
    - rewrite <- app_assoc. change (CRLF ++ CRLF) with HEAD_END. rewrite <- Eb, Ebytes, app_assoc. by rewrite take_app_length. }
  rewrite app_assoc, (app_assoc (line ++ CRLF)), <- E at 1. rewrite take_drop, <- app_assoc. exact Eb.
Qed.

(** The block between the request line and the empty line. *)
Lemma raw_block line block :
  take (Z.to_nat (zlen line)) (line ++ CRLF ++ block ++ CRLF) = line /\
  take (length (line ++ CRLF ++ block ++ CRLF) - 2 - Z.to_nat (zlen line + 2)) (drop (Z.to_nat (zlen line + 2)) (line ++ CRLF ++ block ++ CRLF)) = block.
Proof.
  unfold zlen. rewrite Nat2Z.id, take_app_length. split; [done|].
  replace (Z.to_nat (Z.of_nat (length line) + 2)) with (length (line ++ CRLF)) by (rewrite length_app; cbn; lia).
  rewrite (app_assoc line), drop_app_length, !length_app. replace (_ - 2 - _)%nat with (length block) by (cbn; lia).
  by rewrite take_app_length.
Qed.

Definition fields_of (lines : list (list Z)) (headers : list Header) : Prop :=
  Forall2 (fun line f => field_line line (header_name f) (header_value f)) lines headers.

Lemma fields_plain lines headers : fields_of lines headers -> Forall (fun l => plain l /\ l <> []) lines.
Proof.
  induction 1 as [|l f lines headers Hl _ IH]; [constructor|]. constructor; [by eapply field_line_plain|done].
Qed.

Lemma header_block_sound line block headers :
  crlf_ok None (line ++ CRLF ++ block ++ CRLF) = true -> parse_header_block block = Ok headers ->
  exists lines, block = crlf_lines lines /\ fields_of lines headers /\ zlen headers <= MAX_REQUEST_HEADERS.
Proof.
  intros Hcrlf Eh. unfold parse_header_block in Eh. case_bool_decide as Hb; [injection Eh as <-; subst block; by exists []; repeat constructor|].
  destruct (split_on 10 block) as [|p0 pieces] eqn:Es; [by apply split_on_nil in Es|]. apply split_on_iff in Es as [Es _].
  assert (line ++ CRLF ++ block ++ CRLF = (line ++ [13]) ++ 10 :: (p0 ++ concat (map (cons 10) pieces) ++ CRLF)) as E.
  { rewrite Es, <- !app_assoc. done. }
  rewrite E in Hcrlf. apply crlf_ok_suffix in Hcrlf.
  destruct (header_lines_ok pieces p0 [] headers _ Hcrlf ltac:(done) Eh ltac:(done)) as (lines & fields & El & -> & Hf & Hz).
  exists lines. by rewrite Es.
Qed.

Lemma header_block_form lines headers : fields_of lines headers -> zlen headers <= MAX_REQUEST_HEADERS ->
  parse_header_block (crlf_lines lines) = Ok headers.
Proof.
  intros Hf Hz. unfold parse_header_block. case_bool_decide as Hb.
  - destruct Hf as [|l f lines headers]; [done|]. unfold crlf_lines in Hb. cbn in Hb. by destruct l.
  - rewrite piece_lines.
    + apply (header_lines_form lines headers Hf []). rewrite zlen_nil. lia.
    + eapply Forall_impl; [by eapply fields_plain|]. by intros l [].
Qed.

Section head.
Context (httparse : list Z -> HttparseStatus).
Notation parse := (parse_request_head httparse).

Definition version_number (v : HttpVersion) : Z := match v with Http10 => 0 | Http11 => 1 end.
(** What [httparse] answers when it reads the same request. *)
Definition agrees (bytes : list Z) (h : RequestHead) : Prop :=
  httparse bytes = HpComplete (zlen bytes) (Some (head_method h)) (Some (head_target h))
                     (Some (version_number (head_version h))) (zlen (head_headers h)).

Lemma parse_head_sound bytes h : parse bytes = Ok h -> head_of bytes h /\ agrees bytes h.
Proof.
  unfold parse_request_head. destruct (Z.ltb_spec DEFAULT_MAX_REQUEST_HEAD_BYTES (zlen bytes)) as [|Hlen]; [done|].
  destruct (find_head_end bytes) as [last|] eqn:Eend; [|done]. cbn [ok_or]. destruct (Z.eqb_spec last (zlen bytes)) as [->|]; [|done].
  cbn [negb]. unfold validate_crlf. destruct (crlf_ok None bytes) eqn:Hcrlf; [|done].
  destruct (find_window CRLF bytes) as [n|] eqn:Eline; [|done]. cbn [ok_or].
  destruct (head_parts bytes n Eend Eline) as (line & block & Ebytes & ->). rewrite Ebytes in Hcrlf.
  destruct (raw_block line block) as [Et Er]. rewrite <- Ebytes in Et, Er. rewrite Et, Er.
  destruct (parse_request_line line) as [[[method target] version]|] eqn:El; [|done].
  apply parse_request_line_iff in El as (-> & Hm & Ht & Htg).
  destruct (httparse bytes) as [pl pm pp pv ph| | |] eqn:Ep; [|done..].
  destruct (Z.eqb_spec pl (zlen bytes)) as [->|]; [|done]. cbn [negb orb]. case_bool_decide as Hpm; [|done]. case_bool_decide as Hpp; [|done].
  cbn [negb orb]. subst pm pp. destruct (parse_header_block block) as [headers|] eqn:Eh; [|by destruct pv as [[|[]|]|]; destruct version].
  intros H. assert (pv = Some (version_number version) /\ zlen headers = ph /\
    h = {| head_method := method; head_target := target; head_version := version; head_headers := headers |}) as (-> & <- & ->).
  { clear -H. destruct pv as [[|[p|p|]|p]|]; try done; destruct version; try done;
      (cbn in H; destruct (Z.eqb_spec (zlen headers) ph); [|done]; by injection H as <-). }
  split; [|exact Ep]. destruct (header_block_sound _ _ _ Hcrlf Eh) as (lines & -> & Hf & Hz).
  split; [done|done|by exists lines|done].
Qed.

Lemma parse_head_complete bytes h : head_of bytes h -> agrees bytes h -> parse bytes = Ok h.
Proof.
  intros [Hm [Ht Htg] (lines & E & Hf) [Hz Hlen]] Hp. unfold agrees in Hp. destruct h as [method target version headers].
  cbn [head_method head_target head_version head_headers] in *. destruct (request_line_plain method target version Hm Htg) as [Hpl Hne].
  set (line := request_line method target version) in *.
  pose proof (fields_plain _ _ Hf) as Hlines.
  assert (bytes = crlf_lines (line :: lines) ++ CRLF) as E2 by (rewrite E; unfold crlf_lines; cbn [map concat]; by rewrite <- !app_assoc).
  unfold parse_request_head. rewrite (proj2 (Z.ltb_ge _ _)) by done.
  assert (find_head_end bytes = Some (zlen bytes)) as -> by (rewrite E2; apply head_lines_end; [by constructor|done]).
  cbn [ok_or]. rewrite Z.eqb_refl. cbn [negb]. unfold validate_crlf.
  assert (crlf_ok None bytes = true) as ->.
  { rewrite E, crlf_ok_line by done. rewrite crlf_ok_lines; [done|]. eapply Forall_impl; [exact Hlines|]. by intros l []. }
  assert (find_window CRLF bytes = Some (zlen line)) as -> by (rewrite E; by apply first_line). cbn [ok_or].
  destruct (raw_block line (crlf_lines lines)) as [Et Er]. rewrite <- E in Et, Er. rewrite Et, Er.
  rewrite (proj2 (parse_request_line_iff line method target version)) by done. rewrite Hp, Z.eqb_refl, !bool_decide_eq_true_2 by done.
  cbn [negb orb]. rewrite (header_block_form lines headers) by done.
  destruct version; cbn; rewrite Z.eqb_refl; done.
Qed.

(** C28. Which heads are accepted. A head is read as a request exactly when its bytes
    are the method, the target and the version with single spaces, then for each of
    the fields, in order, one line -- a token, a colon, and the printable value with
    blanks around it -- and an empty line, within the limits on bytes and fields; and
    the second parser reads the same method, target, version and number of fields. *)
Theorem request_head_exact bytes h : parse bytes = Ok h <-> head_of bytes h /\ agrees bytes h.
Proof. split; [apply parse_head_sound|]. intros [? ?]. by apply parse_head_complete. Qed.

(** ** Reading a head *)

Lemma head_loop_returns room : forall acc i, exists r, head_loop httparse room acc i = Some r.
Proof.
  induction room as [|room IH]; intros acc i; [by eexists|]. cbn [head_loop]. apply rbind_returns; [apply read_byte_returns|].
  intros [b|] i1; [|by eexists]. destruct (slice_ends_with HEAD_END (acc ++ [b])); [by eexists|]. apply IH.
Qed.

Lemma head_loop_ok room : forall acc i h i', head_loop httparse room acc i = Some (Ok h, i') ->
  exists taken, consumed taken i i' /\ zlen taken <= Z.of_nat room /\ parse (acc ++ taken) = Ok h.
Proof.
  induction room as [|room IH]; intros acc i h i'; [done|]. cbn [head_loop].
  intros ([b|] & i1 & Hb%read_byte_ok & H)%rbind_Ok; [|done]. destruct (slice_ends_with HEAD_END (acc ++ [b])).
  - injection H as H <-. exists [b]. split_and!; [exact Hb|unfold zlen; cbn; lia|done].
  - apply IH in H as (t & Hc & Hz & Hp). exists (b :: t). split_and!; [exact (consumed_trans [b] t i i1 i' Hb Hc)|rewrite zlen_cons; lia|].
    by rewrite <- app_assoc in Hp.
Qed.

(** Before the end of a head, nothing read so far ends one. *)
Lemma no_end_before p q : find_head_end (p ++ q) = Some (zlen (p ++ q)) -> q <> [] -> slice_ends_with HEAD_END p = false.
Proof.
  intros E Hq. apply not_true_iff_false. intros [b ->]%ends_with_iff. unfold find_head_end in E.
  apply fmap_Some in E as (n & (x & a & _ & -> & Hmin)%find_window_iff & En). rewrite <- app_assoc in Hmin. specialize (Hmin b q eq_refl).
  rewrite !zlen_app in En. apply zlen_pos in Hq. unfold zlen in *. lia.
Qed.
Lemma head_end_ends bytes : find_head_end bytes = Some (zlen bytes) -> slice_ends_with HEAD_END bytes = true.
Proof.
  unfold find_head_end. intros (n & (b & a & Eb & -> & _)%find_window_iff & En)%fmap_Some. rewrite Eb, !zlen_app in En.
  assert (a = []) as -> by (apply zlen_0; lia). apply ends_with_iff. exists b. by rewrite app_nil_r in Eb.
Qed.

Lemma head_loop_quiet rest : forall taken room acc i,
  quiet i -> in_bytes i = taken ++ rest -> find_head_end (acc ++ taken) = Some (zlen (acc ++ taken)) -> taken <> [] ->
  zlen taken <= Z.of_nat room ->
  exists i', head_loop httparse room acc i = Some (parse (acc ++ taken), i') /\ quiet i' /\ in_bytes i' = rest.
Proof.
  induction taken as [|b t IH]; intros room acc i Hq Ei E Ht Hz; [done|]. rewrite zlen_cons in Hz. pose proof (zlen_nonneg t).
  destruct room as [|room]; [lia|]. destruct (read_byte_quiet i Hq) as (i1 & Hb & Hq1 & E1). rewrite Ei in Hb, E1. cbn [head tail app] in Hb, E1.
  cbn [head_loop]. unfold rbind. rewrite Hb. change (b :: t) with ([b] ++ t) in *. rewrite (app_assoc acc) in *. destruct t as [|c t].
  - rewrite app_nil_r in *. rewrite (head_end_ends _ E). by exists i1.
  - rewrite (no_end_before (acc ++ [b]) (c :: t)) by done. by apply IH; [| | | |lia].
Qed.

(** C34. Reading one head. On any reader a head is read to an end; if it is accepted,
    what was consumed is one accepted head within the limit, and everything after it
    is left to be read as the body; and on a reader without faults, up to the first
    empty line within the limit, the answer is that of the parser, however the calls
    split the bytes. *)
Theorem read_head_exact max_head_bytes i :
  (exists r i', read_request_head httparse max_head_bytes i = Some (r, i')) /\
  (forall h i', read_request_head httparse max_head_bytes i = Some (Ok h, i') ->
     exists bytes, in_bytes i = bytes ++ in_bytes i' /\ zlen bytes <= max_head_bytes /\ head_of bytes h /\ agrees bytes h) /\
  (forall bytes rest, quiet i -> in_bytes i = bytes ++ rest -> find_head_end bytes = Some (zlen bytes) -> zlen bytes <= max_head_bytes ->
     exists i', read_request_head httparse max_head_bytes i = Some (parse bytes, i') /\ in_bytes i' = rest).
Proof.
  unfold read_request_head. change (zlen HEAD_END) with 4. split_and!.
  - destruct (max_head_bytes <? 4); [by eexists _, _|]. destruct (head_loop_returns (Z.to_nat max_head_bytes) [] i) as [[r i'] E]. by exists r, i'.
  - intros h i'. destruct (Z.ltb_spec max_head_bytes 4); [done|]. intros (bytes & (E & _) & Hz & Hp%request_head_exact)%head_loop_ok.
    exists bytes. split_and!; [done|lia|apply Hp|apply Hp].
  - intros bytes rest Hq E Hend Hz. assert (4 <= zlen bytes) as H4.
    { pose proof (head_end_ends _ Hend) as [b ->]%ends_with_iff. rewrite zlen_app. change (zlen HEAD_END) with 4. pose proof (zlen_nonneg b). lia. }
    rewrite (proj2 (Z.ltb_ge _ _)) by lia.
    destruct (head_loop_quiet rest bytes (Z.to_nat max_head_bytes) [] i) as (i' & Hr & _ & Er); [done|done|done|by intros ->|lia|by exists i'].
Qed.
End head.

(** ** A request *)

Definition sample_request : list Z :=
  text "GET /a HTTP/1.1" ++ CRLF ++ text "Host: a.example" ++ CRLF ++ text "Content-Length: 2" ++ CRLF ++ CRLF.
Definition sample_httparse (bytes : list Z) : HttparseStatus :=
  HpComplete (zlen bytes) (Some (text "GET")) (Some (text "/a")) (Some 1) 2.

(** The body is left on the stream. *)
Example sample_request_read :
  option_map (fun '(r, i) => (r, in_bytes i))
    (read_request_head sample_httparse 8192 {| in_bytes := sample_request ++ text "okGET"; in_steps := [Give 3; Give 1] |}) =
  Some (Ok {| head_method := text "GET"; head_target := text "/a"; head_version := Http11;
              head_headers := [field (text "Host") (text "a.example"); field (text "Content-Length") (text "2")] |}, text "okGET").
Proof. vm_compute. reflexivity. Qed.
