(* ===== verification/Http1TargetProps.v ===== *)
(** * Loopback listener: request targets

    What a validated target of [Http1] names: its form before and after a CONNECT,
    the authority the Host field repeats, and hosts and paths in their normal form. *)

From S2P Require Import Prelude Text IcannDane NsTypes Engine ProxyHead ProxyHeadProps IpText Http1 Http1FieldProps.
Import Stdlib.Strings.String.StringSyntax.

(** ** Hosts and ports *)

(** The text of an address, or a name of at most 253 bytes in lower-case labels. *)
Definition host_normal (host : list Z) : Prop :=
  (exists groups s, ipv6_from_str s = Some groups /\ host = ipv6_text groups) \/
  (exists octets s, ipv4_from_str s = Some octets /\ host = ipv4_text octets) \/
  (host <> [] /\ zlen host <= 253 /\ Forall (fun label => host_label_bad label = false) (split_on 46 host) /\
   map to_ascii_lowercase host = host).
Definition authority_ok (a : Authority) : Prop := host_normal (authority_host a) /\ 1 <= authority_port a <= u16_max.

Lemma lower_strip_dot s : map to_ascii_lowercase (strip_dot (map to_ascii_lowercase s)) = strip_dot (map to_ascii_lowercase s).
Proof.
  unfold strip_dot. destruct (last (map to_ascii_lowercase s)) as [c|]; [|apply lowercase_text_idem].
  assert (map to_ascii_lowercase (removelast (map to_ascii_lowercase s)) = removelast (map to_ascii_lowercase s)) as Hr.
  { induction s as [|b s IH]; [done|]. destruct s as [|b' s]; [done|].
    change (removelast (map to_ascii_lowercase (b :: b' :: s))) with (to_ascii_lowercase b :: removelast (map to_ascii_lowercase (b' :: s))).
    rewrite map_cons, lowercase_idem. f_equal. exact IH. }
  repeat case_match; try apply lowercase_text_idem; exact Hr.
Qed.

(** ** Authorities as they are spelled *)

(** A host, in brackets if its text is an IPv6 address, and a port after a colon. *)
Inductive spelled : list Z -> list Z -> option (list Z) -> Prop :=
| spelled_bare host : 58 ∉ host -> spelled host host None
| spelled_port host port : 58 ∉ host -> 58 ∉ port -> spelled (host ++ 58 :: port) host (Some port)
| spelled_bracket host : 93 ∉ host -> ipv6_from_str host <> None -> spelled (91 :: host ++ [93]) host None
| spelled_bracket_port host port : 93 ∉ host -> ipv6_from_str host <> None ->
    spelled (91 :: host ++ 93 :: 58 :: port) host (Some port).

Definition colons (s : list Z) : Z := zlen (List.filter (Z.eqb 58) s).
Lemma colons_cons c s : colons (c :: s) = (if c =? 58 then 1 else 0) + colons s.
Proof. unfold colons. cbn [List.filter]. rewrite (Z.eqb_sym 58 c). destruct (c =? 58); [by rewrite zlen_cons|lia]. Qed.
Lemma colons_none s : colons s <= 0 -> 58 ∉ s.
Proof.
  induction s as [|c s IH]; [set_solver|]. rewrite colons_cons. pose proof (zlen_nonneg (List.filter (Z.eqb 58) s)). fold (colons s) in *.
  destruct (Z.eqb_spec c 58); [lia|]. intros Hs [?|Hin]%elem_of_cons; [done|]. apply IH; [lia|done].
Qed.
Lemma rsplit_none s : rsplit_once 58 s = None -> 58 ∉ s.
Proof.
  induction s as [|c s IH]; [set_solver|]. cbn. destruct (rsplit_once 58 s) as [[? ?]|]; [done|].
  destruct (Z.eqb_spec c 58); [done|]. intros _ [?|Hin]%elem_of_cons; [done|by apply IH].
Qed.
Lemma rsplit_some s before after : rsplit_once 58 s = Some (before, after) -> colons s <= 1 ->
  s = before ++ 58 :: after /\ 58 ∉ before /\ 58 ∉ after.
Proof.
  revert before after. induction s as [|c s IH]; intros before after; [done|]. cbn. rewrite colons_cons.
  pose proof (zlen_nonneg (List.filter (Z.eqb 58) s)) as Hn. fold (colons s) in Hn.
  destruct (rsplit_once 58 s) as [[b a]|] eqn:E.
  - intros [= <- <-] Hc. destruct (IH b a eq_refl ltac:(destruct (c =? 58); lia)) as (-> & Hb & Ha).
    destruct (Z.eqb_spec c 58) as [->|]; [exfalso|by split_and!; [|set_solver|]].
    assert (58 ∉ b ++ 58 :: a) as H58 by (apply colons_none; lia). set_solver.
  - destruct (Z.eqb_spec c 58) as [->|]; [|done]. intros [= <- <-] Hc. split_and!; [done|set_solver|]. apply colons_none. lia.
Qed.

Lemma authority_parts_spelled value host port_text : authority_parts value = Ok (host, port_text) -> spelled value host port_text.
Proof.
  intros E. destruct (decide (head value = Some 91)) as [Hh|Hh].
  - destruct value as [|c bracketed]; [done|]. injection Hh as ->. cbn [authority_parts] in E.
    destruct (split_once 93 bracketed) as [[h suffix]|] eqn:Es; [|done]. cbn [ok_or] in E. apply split_once_iff in Es as [-> Hn].
    assert (forall p, (if negb (bool_decide (ipv6_from_str h <> None)) then Err InvalidAuthority else Ok (h, p)) = Ok (host, port_text) ->
      h = host /\ p = port_text /\ ipv6_from_str host <> None) as Hok.
    { intros p. case_bool_decide; [|done]. by intros [= <- <-]. }
    destruct suffix as [|c port]; [apply Hok in E as (-> & <- & ?); by constructor|].
    destruct (decide (c = 58)) as [->|Hne]; [apply Hok in E as (-> & <- & ?); by constructor|].
    revert E. repeat (case_match; try done).
  - assert ((if 1 <? colons value then Err InvalidAuthority else
             match rsplit_once 58 value with Some (h, p) => Ok (h, Some p) | None => Ok (value, None) end) = Ok (host, port_text)) as E'.
    { destruct value as [|c value]; [exact E|]. revert E. unfold authority_parts, colons. repeat (case_match; try done). }
    destruct (Z.ltb_spec 1 (colons value)) as [|Hc]; [done|]. destruct (rsplit_once 58 value) as [[h p]|] eqn:Er.
    + injection E' as <- <-. apply rsplit_some in Er as (-> & ? & ?); [|done]. by constructor.
    + injection E' as <- <-. constructor. by apply rsplit_none.
Qed.

(** A text split at its first "://". *)
Lemma split_scheme_text s before after : split_scheme s = Some (before, after) -> s = before ++ text "://" ++ after.
Proof.
  revert before after. induction s as [|c s IH]; intros before after; [done|]. cbn [split_scheme].
  destruct (starts_with [58; 47; 47] (c :: s)) eqn:Es.
  - intros [= <- <-]. unfold starts_with in Es. apply bool_decide_eq_true in Es. cbn [length] in Es.
    rewrite <- (take_drop 3 (c :: s)) at 1. by rewrite Es.
  - destruct (split_scheme s) as [[b a]|]; [|done]. intros [= <- <-]. by rewrite (IH b a eq_refl).
Qed.

(** The port a Host field without one stands for. *)
Definition host_default_port (t : RequestTarget) : Z :=
  match t with
  | TargetAbsolute t => match at_scheme t with SchemeHttp | SchemeWs => 80 | SchemeHttps | SchemeWss => 443 end
  | TargetConnect a => authority_port a
  | TargetOrigin _ => 443
  end.

Section targets.
Context (domain_to_ascii : list Z -> option (list Z)).
Notation normalize := (normalize_host domain_to_ascii).
Notation authority := (parse_authority domain_to_ascii).

Lemma normalize_host_normal host h : normalize host = Ok h -> host_normal h.
Proof.
  unfold normalize_host, host_normal. destruct (ipv6_from_str host) as [g|] eqn:E6; [intros [= <-]; left; by exists g, host|].
  destruct (ipv4_from_str host) as [o|] eqn:E4; [intros [= <-]; right; left; by exists o, host|].
  destruct (forallb _ _); [done|]. destruct (domain_to_ascii (str_bytes host)) as [ascii|]; [|done]. cbn [ok_or]. cbv zeta.
  set (name := strip_dot (map to_ascii_lowercase ascii)). destruct (_ || _ || _) eqn:Hb; [done|]. intros [= <-]. right. right.
  rewrite !orb_false_iff, bool_decide_eq_false, Z.ltb_ge, existsb_false_forall in Hb. destruct Hb as [[? ?] ?].
  split_and!; [done|done|done|apply lower_strip_dot].
Qed.

(** A text read as an authority: the host in its normal form, and the port it gives or
    the default. *)
Definition authority_reads (value : list Z) (default : option Z) (a : Authority) : Prop :=
  exists host port_text, spelled value host port_text /\ normalize host = Ok (authority_host a) /\
    match port_text with
    | Some digits => digits <> [] /\ Forall (fun b => is_digit b = true) digits /\ parse_u16 digits = Some (authority_port a)
    | None => default = Some (authority_port a)
    end.

Lemma digits_plain digits : forallb is_digit (str_bytes digits) = true -> Forall (fun b => is_digit b = true) digits.
Proof.
  induction digits as [|c digits IH]; [constructor|]. change (str_bytes (c :: digits)) with (utf8 c ++ str_bytes digits).
  rewrite forallb_app, andb_true_iff. intros [Hc Hd]. constructor; [|by apply IH].
  revert Hc. unfold utf8. destruct (Z.ltb_spec c 0x80); [cbn; by rewrite andb_true_r|].
  assert (2 <= c / 64) by (apply Z.div_le_lower_bound; lia). assert (0 <= c / 4096 /\ 0 <= c / 262144) as [? ?] by (split; apply Z.div_pos; lia).
  assert (forall b l, 57 < b -> forallb is_digit (b :: l) = true -> is_digit c = true) as Hbig.
  { intros b l Hb. cbn. unfold is_digit at 1. rewrite (proj2 (Z.leb_gt b 57)) by lia. by rewrite andb_false_r. }
  destruct (c <? 0x800); [apply Hbig; lia|]. destruct (c <? 0x10000); apply Hbig; lia.
Qed.

Lemma authority_spelling value default explicit a : authority value default explicit = Ok a ->
  authority_reads value (if explicit then None else default) a.
Proof.
  unfold parse_authority. destruct (_ || _ || _); [done|].
  destruct (authority_parts value) as [[host port_text]|] eqn:Eh; [|done]. apply authority_parts_spelled in Eh.
  destruct (_ || _) eqn:Hb; [done|]. apply orb_false_iff in Hb as [_ Hb].
  destruct (parse_port default port_text) as [port|] eqn:Ep; [|done].
  destruct (normalize host) as [h|] eqn:En; [|done]. intros [= <-]. exists host, port_text. cbn [authority_host authority_port].
  split_and!; [done|done|]. destruct port_text as [digits|].
  - cbn in Ep. destruct (negb _ && _) eqn:Hd; [|done]. apply andb_true_iff in Hd as [Hd1 Hd2%digits_plain].
    apply negb_true_iff, bool_decide_eq_false in Hd1. destruct (parse_u16 digits) as [p|]; [|done]. cbn [ok_or] in Ep.
    destruct (p =? 0); [done|]. by injection Ep as <-.
  - apply ok_or_Ok in Ep. rewrite bool_decide_eq_true_2, andb_true_r in Hb by done. by subst explicit.
Qed.

Lemma parse_port_range default port_text port :
  (forall d, default = Some d -> 1 <= d <= u16_max) -> parse_port default port_text = Ok port -> 1 <= port <= u16_max.
Proof.
  intros Hd. unfold parse_port. destruct port_text as [digits|].
  - destruct (_ && _); [|done]. destruct (parse_u16 digits) as [p|] eqn:E; [|done]. cbn [ok_or]. apply parse_u16_bound in E.
    destruct (Z.eqb_spec p 0); [done|]. intros [= <-]. lia.
  - intros Hp%ok_or_Ok. by apply Hd.
Qed.

Lemma authority_sound value default explicit a :
  (forall d, default = Some d -> 1 <= d <= u16_max) -> authority value default explicit = Ok a -> authority_ok a.
Proof.
  intros Hd. unfold parse_authority. destruct (_ || _ || _); [done|].
  destruct (authority_parts value) as [[host port_text]|]; [|done].
  destruct (_ || _); [done|]. destruct (parse_port default port_text) as [port|] eqn:Ep; [|done].
  destruct (normalize host) as [h|] eqn:Eh; [|done]. intros [= <-]. split; cbn; [by eapply normalize_host_normal|by eapply parse_port_range].
Qed.

Lemma scheme_port_range s : 1 <= scheme_default_port s <= u16_max.
Proof. destruct s; cbn; unfold u16_max; lia. Qed.

(** ** Targets *)

Definition path_ok (path : list Z) : Prop := head path = Some 47 /\ 35 ∉ path.

Lemma split_path_spec s before after : split_path s = (before, after) ->
  s = before ++ after /\ (after = [] \/ exists c rest, after = c :: rest /\ (c = 47 \/ c = 63)).
Proof.
  revert before after. induction s as [|c s IH]; intros before after; cbn; [intros [= <- <-]; auto|].
  destruct (_ || _) eqn:Hc.
  - intros [= <- <-]. split; [done|]. right. exists c, s. rewrite orb_true_iff, !Z.eqb_eq in Hc. auto.
  - destruct (split_path s) as [b a] eqn:E. intros [= <- <-]. destruct (IH b a eq_refl) as [-> H]. auto.
Qed.

(** A target read as an address: scheme, authority and the rest, which becomes the path. *)
Definition absolute_reads (target : list Z) (t : AbsoluteTarget) : Prop :=
  exists scheme_text authority_text suffix, target = scheme_text ++ text "://" ++ authority_text ++ suffix /\
    scheme_of scheme_text = Some (at_scheme t) /\ 47 ∉ authority_text /\ 63 ∉ authority_text /\
    authority_reads authority_text (Some (scheme_default_port (at_scheme t))) (at_authority t) /\
    (suffix = [] /\ at_path_and_query t = [47] \/
     (exists query, suffix = 63 :: query /\ at_path_and_query t = 47 :: suffix) \/
     (exists path, suffix = 47 :: path /\ at_path_and_query t = suffix)).

Lemma split_path_authority s before after : split_path s = (before, after) -> 47 ∉ before /\ 63 ∉ before.
Proof.
  revert before after. induction s as [|c s IH]; intros before after; cbn; [intros [= <- <-]; set_solver|].
  destruct (_ || _) eqn:Hc; [intros [= <- <-]; set_solver|]. apply orb_false_iff in Hc as [Hc1%Z.eqb_neq Hc2%Z.eqb_neq].
  destruct (split_path s) as [b a] eqn:E. intros [= <- <-]. destruct (IH b a eq_refl). set_solver.
Qed.

Lemma absolute_sound target t : parse_absolute_target domain_to_ascii target = Ok t ->
  absolute_reads target t /\ authority_ok (at_authority t) /\ path_ok (at_path_and_query t).
Proof.
  unfold parse_absolute_target. destruct (split_scheme target) as [[scheme_text remainder]|] eqn:Et; [|done]. cbn [ok_or].
  apply split_scheme_text in Et.
  destruct (scheme_of scheme_text) as [scheme|] eqn:Esc; [|done]. cbn [ok_or]. destruct (_ || _) eqn:Hb; [done|].
  apply orb_false_iff in Hb as [Hb _]. destruct (split_path remainder) as [authority_text suffix] eqn:Es.
  destruct (authority authority_text _ _) as [a|] eqn:Ea; [|done]. intros [= <-]. cbn [at_authority at_path_and_query].
  pose proof (split_path_authority _ _ _ Es) as [H47 H63]. apply split_path_spec in Es as [-> Hs].
  assert (authority_ok a) as Hok by (eapply authority_sound; [|exact Ea]; intros d [= <-]; apply scheme_port_range).
  apply authority_spelling in Ea. assert (35 ∉ suffix) as H35.
  { intros Hin. apply existsb_false_forall in Hb. rewrite Forall_forall in Hb. specialize (Hb 35).
    assert (35 ∈ authority_text ++ suffix) as Hin' by (apply elem_of_app; by right). by apply Hb in Hin'. }
  assert (forall path, (suffix = [] /\ path = [47] \/ (exists query, suffix = 63 :: query /\ path = 47 :: suffix) \/
     (exists p, suffix = 47 :: p /\ path = suffix)) ->
    absolute_reads target {| at_scheme := scheme; at_authority := a; at_path_and_query := path |}) as Hreads
    by (intros path Hp; exists scheme_text, authority_text, suffix; by split_and!).
  destruct Hs as [->|(c & rest & -> & [->| ->])]; (split; [apply Hreads|split; [done|]]); cbn; eauto 6;
    unfold path_ok; cbn; (split; [done|]); set_solver.
Qed.

(** The form of a target, in a tunnel to [connected_to] or outside of one, and how the
    text of the request line reads as it. *)
Definition target_form (h : RequestHead) (connected_to : option Authority) (t : RequestTarget) : Prop :=
  match connected_to, t with
  | None, TargetConnect a => eq_ignore_ascii_case (head_method h) CONNECT = true /\ authority_reads (head_target h) None a
  | None, TargetAbsolute t => eq_ignore_ascii_case (head_method h) CONNECT = false /\ absolute_reads (head_target h) t
  | Some a, TargetAbsolute t =>
      eq_ignore_ascii_case (head_method h) CONNECT = false /\ absolute_reads (head_target h) t /\
      at_authority t = a /\ scheme_is_secure (at_scheme t) = true
  | Some a, TargetOrigin t =>
      eq_ignore_ascii_case (head_method h) CONNECT = false /\ ot_authority t = a /\ ot_path_and_query t = head_target h
  | _, _ => False
  end.

Lemma request_target_sound h connected_to t :
  (forall a, connected_to = Some a -> authority_ok a) ->
  parse_request_target domain_to_ascii (head_method h) (head_target h) connected_to = Ok t ->
  target_form h connected_to t /\ authority_ok (target_authority t) /\ (forall p, target_path_and_query t = Some p -> path_ok p).
Proof.
  intros Hc. unfold parse_request_target, target_form. destruct (eq_ignore_ascii_case (head_method h) CONNECT).
  - destruct connected_to; [done|]. intros (a & Ha & ->)%result_map_Ok. split_and!; [done| | |done].
    + by apply (authority_spelling _ None true).
    + eapply authority_sound; [|exact Ha]. done.
  - destruct connected_to as [a|].
    + destruct (starts_with [47] (head_target h)) eqn:Hs.
      * destruct (existsb (Z.eqb 35) (head_target h)) eqn:Hh; [done|]. intros [= <-]. split; [done|]. split; [by apply Hc|].
        intros p [= <-]. split.
        -- unfold starts_with in Hs. apply bool_decide_eq_true in Hs. cbn [length] in Hs. destruct (head_target h); [done|]. cbn in Hs. injection Hs as ->. done.
        -- intros Hin. apply existsb_false_forall in Hh. rewrite Forall_forall in Hh. by apply Hh in Hin.
      * destruct (parse_absolute_target domain_to_ascii (head_target h)) as [abs|] eqn:E; [|done].
        destruct (_ || _) eqn:Hb; [done|]. intros [= <-]. apply orb_false_iff in Hb as [Hsec%negb_false_iff Heq%negb_false_iff].
        apply bool_decide_eq_true in Heq. apply absolute_sound in E as (Hr & Ha & Hp). split; [done|]. split; [done|]. by intros p [= <-].
    + intros (abs & (Hr & Ha & Hp)%absolute_sound & ->)%result_map_Ok. split_and!; [done|done|done|]. by intros p [= <-].
Qed.

(** C31. What a validated target names. The text of the request line reads as it: outside a
    tunnel it is an authority with its own port, for CONNECT alone, or an address whose
    scheme, authority and path are the target's; inside one it names the tunnel's own
    authority, by a path or by an address of a secure scheme, and never CONNECT. The
    one Host field reads as the target's authority, where a field without a port stands
    for the port of the address's scheme, for the port CONNECT asks for, or for 443 on a
    path in a tunnel, and only HTTP/1.0 may leave it out. Hosts are in normal form, ports not zero, and paths
    begin with a slash and hold no fragment. *)
Theorem validated_target_sound h connected_to t :
  (forall a, connected_to = Some a -> authority_ok a) ->
  validated_target domain_to_ascii h connected_to = Ok t ->
  target_form h connected_to t /\ authority_ok (target_authority t) /\
  (forall p, target_path_and_query t = Some p -> path_ok p) /\
  ((exists value, header_values H_HOST (head_headers h) = [value] /\
      authority_reads value (Some (host_default_port t)) (target_authority t)) \/
   (header_values H_HOST (head_headers h) = [] /\ head_version h = Http10)).
Proof.
  intros Hc. unfold validated_target.
  destruct (parse_request_target domain_to_ascii (head_method h) (head_target h) connected_to) as [t'|] eqn:Et; [|done]. cbv zeta.
  change (match t' with TargetAbsolute t => _ | _ => _ end) with (host_default_port t'). unfold host_authority. intros H.
  assert (t' = t /\ ((exists value, header_values H_HOST (head_headers h) = [value] /\
      authority_reads value (Some (host_default_port t)) (target_authority t)) \/
   (header_values H_HOST (head_headers h) = [] /\ head_version h = Http10))) as [-> Hhost].
  { destruct (header_values H_HOST (head_headers h)) as [|value [|]]; [| |done].
    - case_bool_decide; [|done]. injection H as <-. auto.
    - destruct (authority_parse domain_to_ascii value _) as [a|] eqn:Ea; [|done]. cbn in H. case_bool_decide as Heq; [|done].
      injection H as <-. subst a. split; [done|]. left. exists value. split; [done|].
      by apply (authority_spelling value (Some (host_default_port t')) false). }
  destruct (request_target_sound h connected_to t Hc Et) as (? & ? & ?). by split_and!.
Qed.
End targets.

(** ** A request in a tunnel *)

Definition sample_idna (s : list Z) : option (list Z) := Some s.
Definition sample_authority : Authority := {| authority_host := text "a.example"; authority_port := 443 |}.
Definition sample_head : RequestHead :=
  {| head_method := text "GET"; head_target := text "/a?b"; head_version := Http11;
     head_headers := [field (text "Host") (text "A.example:443")] |}.

Lemma validated_target_sound_witness :
  exists t, validated_target sample_idna sample_head (Some sample_authority) = Ok t /\
    target_authority t = sample_authority /\ authority_ok (target_authority t).
Proof.
  exists (TargetOrigin {| ot_authority := sample_authority; ot_path_and_query := text "/a?b" |}).
  assert (validated_target sample_idna sample_head (Some sample_authority) =
    Ok (TargetOrigin {| ot_authority := sample_authority; ot_path_and_query := text "/a?b" |})) as E by (vm_compute; reflexivity).
  split; [exact E|]. split; [reflexivity|].
  refine (proj1 (proj2 (validated_target_sound sample_idna sample_head (Some sample_authority) _ _ E))).
  intros a [= <-]. apply (authority_sound sample_idna (text "a.example:443") None true); [done|vm_compute; reflexivity].
Defined.
