(* ===== verification/WalletBloom.v ===== *)
(** * Light wallet: the bloom filter a peer matches with

    Models the BIP37 filter of [src/crates/hns-light-wallet/src/lib.rs]: its shape,
    insertion, membership, Murmur3 and the [filterload] and [filteradd] payloads.
    The byte codec is external ([WalletExternals], on top of [ChainExternals]), and
    so is floating-point arithmetic ([Float64]), which only the rate-derived shape
    uses. *)

From S2P Require Import Prelude Text LightChain.
Import Stdlib.Strings.String.StringSyntax.

(** ** External code *)

(** The byte codec, headers, transactions and P2P bounds, as the wallet uses them. *)
Class WalletExternals `{ChainExternals} := {
  header_decode : list Z -> result HeaderError Header;
  put_varbytes : list Z -> list Z;
  read_varbytes : Z -> list Z -> list Z -> result DecodeError (list Z * list Z);
  read_compact_usize : Z -> list Z -> list Z -> result DecodeError (Z * list Z);
  HEADER_SIZE : Z;
  MAX_INVENTORY_ITEMS : Z;
  Transaction : Type;
  TransactionError : Type;
  Transaction_eq_dec :: EqDecision Transaction;
  transaction_hash : Transaction -> result TransactionError (list Z) }.

(** What the filter payload relies on: the codec is canonical, so reading inverts
    writing and what is read is what was written. *)
Class WalletCodecLaws `{WalletExternals} : Prop := {
  law_varbytes : forall limit label b r, zlen b <= limit -> in_u32 limit ->
    read_varbytes limit label (put_varbytes b ++ r) = Ok (b, r);
  law_read_varbytes : forall limit label l b r, bytes_ok l -> read_varbytes limit label l = Ok (b, r) ->
    l = put_varbytes b ++ r /\ zlen b <= limit;
  law_varbytes_bound : forall limit label l b r, read_varbytes limit label l = Ok (b, r) -> zlen b <= limit;
  law_read_u32 : forall l v r, bytes_ok l -> read_u32_le l = Ok (v, r) -> l = put_u32_le v ++ r;
  law_read_array : forall n l b r, 0 <= n -> read_array n l = Ok (b, r) -> l = b ++ r /\ zlen b = n;
  law_read_u8 : forall l v r, bytes_ok l -> read_u8 l = Ok (v, r) -> l = put_u8 v ++ r;
  law_finish_empty : forall l u, finish l = Ok u -> l = [] }.

(** Rust's [f64]. *)
Class Float64 := {
  f64 : Type;
  f64_zero : f64; f64_one : f64; f64_ln_2 : f64;
  f64_of_usize : Z -> f64; f64_as_usize : f64 -> Z; f64_as_u32 : f64 -> Z;
  f64_is_finite : f64 -> bool;
  f64_le : f64 -> f64 -> bool; f64_lt : f64 -> f64 -> bool;
  f64_neg : f64 -> f64; f64_mul : f64 -> f64 -> f64; f64_div : f64 -> f64 -> f64;
  f64_ln : f64 -> f64; f64_floor : f64 -> f64 }.

(** ** Murmur3 *)

Definition MURMUR_C1 : Z := 0xcc9e2d51.
Definition MURMUR_C2 : Z := 0x1b873593.
Definition murmur_scramble (word : Z) : Z := wrapping_mul32 (rotate_left32 (wrapping_mul32 word MURMUR_C1) 15) MURMUR_C2.

(** The loop over [chunks_exact(4)]: the hash after it and the remainder. *)
Fixpoint murmur_chunks (hash : Z) (value : list Z) : Z * list Z :=
  match value with
  | first :: second :: third :: fourth :: rest =>
      let word := first + second * 2 ^ 8 + third * 2 ^ 16 + fourth * 2 ^ 24 in
      let hash := Z.lxor hash (murmur_scramble word) in
      murmur_chunks (wrapping_add32 (wrapping_mul32 (rotate_left32 hash 13) 5) 0xe6546b64) rest
  | _ => (hash, value)
  end.

Definition murmur_tail (hash : Z) (remainder : list Z) : Z :=
  let tail := match get remainder 2 with Some byte => Z.lxor 0 (Z.shiftl byte 16) | None => 0 end in
  let tail := match get remainder 1 with Some byte => Z.lxor tail (Z.shiftl byte 8) | None => tail end in
  match get remainder 0 with
  | Some byte => Z.lxor hash (murmur_scramble (Z.lxor tail byte))
  | None => hash
  end.

Definition murmur3 (value : list Z) (seed : Z) : Z :=
  let '(hash, remainder) := murmur_chunks seed value in
  let hash := murmur_tail hash remainder in
  let hash := Z.lxor hash (zlen value mod 2 ^ 32) in
  let hash := Z.lxor hash (Z.shiftr hash 16) in
  let hash := wrapping_mul32 hash 0x85ebca6b in
  let hash := Z.lxor hash (Z.shiftr hash 13) in
  let hash := wrapping_mul32 hash 0xc2b2ae35 in
  Z.lxor hash (Z.shiftr hash 16).

Definition BLOOM_TWEAK_MULTIPLIER : Z := 0xfba4c795.
Definition bloom_hash (value : list Z) (function tweak : Z) : Z :=
  murmur3 value (wrapping_add32 (wrapping_mul32 function BLOOM_TWEAK_MULTIPLIER) tweak).

(** ** The filter *)

Definition MAX_BLOOM_FILTER_BYTES : Z := 36000.
Definition MAX_BLOOM_HASH_FUNCTIONS : Z := 50.
Definition MAX_FILTER_ADD_ELEMENT_BYTES : Z := 520.

Inductive BloomUpdate := UpdateNone | UpdateAll | UpdatePubkeyOnly.
#[export] Instance BloomUpdate_eq_dec : EqDecision BloomUpdate.
Proof. solve_decision. Defined.
Definition update_as_u8 (u : BloomUpdate) : Z :=
  match u with UpdateNone => 0 | UpdateAll => 1 | UpdatePubkeyOnly => 2 end.

Record HsdBloomFilter := { bf_bytes : list Z; bf_hash_functions : Z; bf_tweak : Z; bf_update : BloomUpdate }.
#[export] Instance HsdBloomFilter_eq_dec : EqDecision HsdBloomFilter.
Proof. solve_decision. Defined.
Definition bf_with_bytes (f : HsdBloomFilter) (bytes : list Z) : HsdBloomFilter :=
  {| bf_bytes := bytes; bf_hash_functions := bf_hash_functions f; bf_tweak := bf_tweak f; bf_update := bf_update f |}.

(** The packets the wallet builds. *)
Inductive InventoryKind := FilteredBlock.
Record Inventory := { inv_kind : InventoryKind; inv_hash : list Z }.
Inductive WalletPacket := FilterLoad (payload : list Z) | FilterAdd (payload : list Z) | GetData (inventory : list Inventory).

(** The hash functions, numbered from zero. *)
Definition bloom_functions (f : HsdBloomFilter) : list Z := map Z.of_nat (seq 0 (Z.to_nat (bf_hash_functions f))).
Definition bloom_size_bits (f : HsdBloomFilter) : Z := zlen (bf_bytes f) * 8.
(** [bloom_hash(..) as usize % size]; the filter has at least one byte. *)
Definition bloom_index (f : HsdBloomFilter) (value : list Z) (function : Z) : Z :=
  bloom_hash value function (bf_tweak f) mod bloom_size_bits f.

Definition bloom_contains (f : HsdBloomFilter) (value : list Z) : bool :=
  forallb (fun function =>
    let index := bloom_index f value function in
    match get (bf_bytes f) (Z.shiftr index 3) with
    | Some byte => negb (Z.land byte (Z.shiftl 1 (Z.land index 7)) =? 0)
    | None => false
    end) (bloom_functions f).

Section bloom.
Context `{WalletExternals}.

Inductive BloomError :=
| ZeroExpectedItems | InvalidFalsePositiveRate | FilterTooLarge | TooManyHashFunctions | ZeroHashFunctions
| EmptyFilter | InvalidUpdate | ElementTooLarge | BloomDecode (e : DecodeError) | InternalInvariant.

Definition bloom_update_try_from (value : Z) : result BloomError BloomUpdate :=
  match value with
  | 0 => Ok UpdateNone
  | 1 => Ok UpdateAll
  | 2 => Ok UpdatePubkeyOnly
  | _ => Err InvalidUpdate
  end.

Definition bloom_new (size_bits hash_functions tweak : Z) (update : BloomUpdate) : result BloomError HsdBloomFilter :=
  let size_bits := Z.max size_bits 8 in
  if MAX_BLOOM_FILTER_BYTES * 8 <? size_bits then Err FilterTooLarge else
  let hash_functions := Z.max hash_functions 1 in
  if MAX_BLOOM_HASH_FUNCTIONS <? hash_functions then Err TooManyHashFunctions else
  let size_bytes := (size_bits - Z.land size_bits 7) / 8 in
  Ok {| bf_bytes := repeat 0 (Z.to_nat size_bytes); bf_hash_functions := hash_functions; bf_tweak := tweak;
        bf_update := update |}.

Definition bloom_from_rate `{Float64} (expected_items : Z) (false_positive_rate : f64) (tweak : Z) (update : BloomUpdate)
    : result BloomError HsdBloomFilter :=
  if expected_items =? 0 then Err ZeroExpectedItems else
  if negb (f64_is_finite false_positive_rate) || f64_le false_positive_rate f64_zero
     || f64_le f64_one false_positive_rate
  then Err InvalidFalsePositiveRate else
  let expected_items_float := f64_of_usize expected_items in
  let calculated_bits :=
    f64_floor (f64_div (f64_mul (f64_neg expected_items_float) (f64_ln false_positive_rate))
                       (f64_mul f64_ln_2 f64_ln_2)) in
  if negb (f64_is_finite calculated_bits) || f64_lt (f64_of_usize (MAX_BLOOM_FILTER_BYTES * 8)) calculated_bits
  then Err FilterTooLarge else
  let size_bits := Z.max (f64_as_usize calculated_bits) 8 in
  let hash_functions :=
    Z.max (f64_as_u32 (f64_floor (f64_mul (f64_div (f64_of_usize size_bits) expected_items_float) f64_ln_2))) 1 in
  bloom_new size_bits hash_functions tweak update.

(** One turn of [insert]: the byte of the index, with its bit set. *)
Definition bloom_set (f : HsdBloomFilter) (value : list Z) (function : Z) : result BloomError HsdBloomFilter :=
  let index := bloom_index f value function in
  let? byte := ok_or (get (bf_bytes f) (Z.shiftr index 3)) InternalInvariant in
  Ok (bf_with_bytes f (<[Z.to_nat (Z.shiftr index 3) := Z.lor byte (Z.shiftl 1 (Z.land index 7))]> (bf_bytes f))).
Fixpoint bloom_insert_loop (f : HsdBloomFilter) (value : list Z) (functions : list Z)
    : HsdBloomFilter * result BloomError unit :=
  match functions with
  | [] => (f, Ok tt)
  | function :: rest =>
      match bloom_set f value function with
      | Ok f => bloom_insert_loop f value rest
      | Err e => (f, Err e)
      end
  end.
Definition bloom_insert (f : HsdBloomFilter) (value : list Z) : HsdBloomFilter * result BloomError unit :=
  bloom_insert_loop f value (bloom_functions f).

(** ** Payloads *)

Definition bloom_encode (f : HsdBloomFilter) : list Z :=
  put_varbytes (bf_bytes f) ++ put_u32_le (bf_hash_functions f) ++ put_u32_le (bf_tweak f)
  ++ put_u8 (update_as_u8 (bf_update f)).

Definition lift_decode {A} (r : result DecodeError A) : result BloomError A :=
  match r with Ok a => Ok a | Err e => Err (BloomDecode e) end.

Definition bloom_decode_strict (input : list Z) : result BloomError HsdBloomFilter :=
  let? (bytes, input) := lift_decode (read_varbytes MAX_BLOOM_FILTER_BYTES (text "bloom filter") input) in
  let? (hash_functions, input) := lift_decode (read_u32_le input) in
  let? (tweak, input) := lift_decode (read_u32_le input) in
  let? (kind, input) := lift_decode (read_u8 input) in
  let? update := bloom_update_try_from kind in
  let? _ := lift_decode (finish input) in
  if bool_decide (bytes = []) then Err EmptyFilter else
  if hash_functions =? 0 then Err ZeroHashFunctions else
  if MAX_BLOOM_HASH_FUNCTIONS <? hash_functions then Err TooManyHashFunctions else
  Ok {| bf_bytes := bytes; bf_hash_functions := hash_functions; bf_tweak := tweak; bf_update := update |}.

Definition load_packet (f : HsdBloomFilter) : WalletPacket := FilterLoad (bloom_encode f).

Definition add_packet (f : HsdBloomFilter) (value : list Z) : HsdBloomFilter * result BloomError WalletPacket :=
  if MAX_FILTER_ADD_ELEMENT_BYTES <? zlen value then (f, Err ElementTooLarge) else
  match bloom_insert f value with
  | (f, Ok _) => (f, Ok (FilterAdd (put_varbytes value)))
  | (f, Err e) => (f, Err e)
  end.

End bloom.
