(* ===== verification/WalletBloomProps.v ===== *)
(** * Light wallet: what the bloom filter matches

    A filter is its set of bits: insertion adds the bits of the value's hashes and
    never fails, membership asks for all of them, so what was inserted is always
    matched, also by the peer that decodes the payload. *)

From S2P Require Import Prelude Text LightChain LightSnapshot WalletBloom.
Import Stdlib.Strings.String.StringSyntax.

(** The reference value of Murmur3 and the filter of the reference client. *)
Example murmur3_hello : murmur3 (text "hello") 0 = 0x248bfa47.
Proof. by vm_compute. Qed.

(** ** Filters as sets of bits *)

Definition filter_bit (f : HsdBloomFilter) (i : Z) : bool :=
  match get (bf_bytes f) (Z.shiftr i 3) with Some byte => Z.testbit byte (Z.land i 7) | None => false end.

(** Filters that can be sent: bounded, not empty, with a bounded number of functions. *)
Record bloom_wf (f : HsdBloomFilter) : Prop := {
  bw_bytes : 1 <= zlen (bf_bytes f) <= MAX_BLOOM_FILTER_BYTES;
  bw_functions : 1 <= bf_hash_functions f <= MAX_BLOOM_HASH_FUNCTIONS;
  bw_tweak : in_u32 (bf_tweak f) }.

Record same_shape (f g : HsdBloomFilter) : Prop := {
  sh_bytes : length (bf_bytes g) = length (bf_bytes f);
  sh_functions : bf_hash_functions g = bf_hash_functions f;
  sh_tweak : bf_tweak g = bf_tweak f;
  sh_update : bf_update g = bf_update f }.

Lemma same_shape_refl f : same_shape f f.
Proof. by split. Qed.
Lemma same_shape_trans f g h : same_shape f g -> same_shape g h -> same_shape f h.
Proof. intros [] []. split; congruence. Qed.

Lemma shape_functions f g : same_shape f g -> bloom_functions g = bloom_functions f.
Proof. intros []. unfold bloom_functions. by rewrite sh_functions0. Qed.
Lemma shape_index f g v k : same_shape f g -> bloom_index g v k = bloom_index f v k.
Proof. intros []. unfold bloom_index, bloom_size_bits, zlen. by rewrite sh_bytes0, sh_tweak0. Qed.
Lemma shape_wf f g : same_shape f g -> bloom_wf f -> bloom_wf g.
Proof. intros [] []. split; unfold zlen in *; by rewrite ?sh_bytes0, ?sh_functions0, ?sh_tweak0. Qed.

Lemma index_range f v k : bloom_wf f -> 0 <= bloom_index f v k < bloom_size_bits f.
Proof. intros []. unfold bloom_index, bloom_size_bits in *. apply Z.mod_pos_bound. lia. Qed.

Lemma byte_and_bit i : 0 <= i -> i = 8 * Z.shiftr i 3 + Z.land i 7 /\ 0 <= Z.land i 7 < 8 /\ 0 <= Z.shiftr i 3.
Proof.
  intros Hi. change 7 with (Z.ones 3). rewrite Z.land_ones, Z.shiftr_div_pow2 by lia. change (2 ^ 3) with 8.
  Z.to_euclidean_division_equations. lia.
Qed.

Lemma mask_testbit b k : 0 <= k -> negb (Z.land b (Z.shiftl 1 k) =? 0) = Z.testbit b k.
Proof.
  intros Hk. assert (forall m, 0 <= m -> Z.testbit (Z.land b (Z.shiftl 1 k)) m = Z.testbit b m && (m =? k)) as Hm.
  { intros m ?. rewrite Z.land_spec, Z.shiftl_1_l, Z.pow2_bits_eqb by lia. by rewrite Z.eqb_sym. }
  destruct (Z.testbit b k) eqn:E.
  - apply negb_true_iff, Z.eqb_neq. intros H0. specialize (Hm k Hk). by rewrite H0, Z.bits_0, E, Z.eqb_refl in Hm.
  - apply negb_false_iff, Z.eqb_eq, Z.bits_inj'. intros m ?. rewrite Hm, Z.bits_0 by done.
    destruct (Z.eqb_spec m k) as [->|]; [by rewrite E|by rewrite andb_false_r].
Qed.

Lemma contains_bits f v :
  bloom_wf f -> bloom_contains f v = forallb (fun k => filter_bit f (bloom_index f v k)) (bloom_functions f).
Proof.
  intros Hf. unfold bloom_contains, filter_bit. induction (bloom_functions f) as [|k l IH]; [done|]. cbn [forallb].
  rewrite IH. f_equal. destruct (get _ _); [|done]. apply mask_testbit.
  pose proof (index_range f v k Hf). destruct (byte_and_bit (bloom_index f v k)); lia.
Qed.

Section insertion.
Context `{WalletExternals}.

(** One bit set. *)
Lemma bloom_set_bits f v k :
  bloom_wf f -> exists f', bloom_set f v k = Ok f' /\ same_shape f f' /\
    forall j, 0 <= j -> filter_bit f' j = filter_bit f j || (bloom_index f v k =? j).
Proof.
  intros Hf. pose proof (index_range f v k Hf) as Hi. destruct (byte_and_bit (bloom_index f v k)) as (Ei & Hb & Hq); [lia|].
  unfold bloom_set. cbv zeta. set (i := bloom_index f v k) in *.
  assert (exists byte, bf_bytes f !! Z.to_nat (Z.shiftr i 3) = Some byte) as [byte Hbyte].
  { apply lookup_lt_is_Some. unfold bloom_size_bits, zlen in Hi. lia. }
  unfold get at 1. rewrite (proj2 (Z.ltb_ge _ _)) by done. rewrite Hbyte. cbn [ok_or].
  eexists. split; [done|]. split; [split; cbn; by rewrite ?length_insert|]. intros j Hj.
  destruct (byte_and_bit j Hj) as (Ej & Hbj & Hqj). unfold filter_bit, get. cbn [bf_bytes bf_with_bytes].
  rewrite !(proj2 (Z.ltb_ge _ _)) by done. destruct (decide (Z.shiftr j 3 = Z.shiftr i 3)) as [E|E].
  - rewrite E, list_lookup_insert_eq by (apply lookup_lt_is_Some; eauto). rewrite Hbyte, Z.lor_spec, Z.shiftl_1_l, Z.pow2_bits_eqb by lia.
    f_equal. apply eq_true_iff_eq. rewrite !Z.eqb_eq. lia.
  - rewrite list_lookup_insert_ne by lia. destruct (Z.eqb_spec i j) as [<-|]; [done|]. by rewrite orb_false_r.
Qed.

Lemma insert_loop_bits v ks : forall f, bloom_wf f ->
  exists f', bloom_insert_loop f v ks = (f', Ok tt) /\ same_shape f f' /\
    forall j, 0 <= j -> filter_bit f' j = filter_bit f j || existsb (fun k => bloom_index f v k =? j) ks.
Proof.
  induction ks as [|k ks IH]; intros f Hf; cbn.
  { exists f. split_and!; [done|apply same_shape_refl|]. intros. by rewrite orb_false_r. }
  destruct (bloom_set_bits f v k Hf) as (f1 & -> & Hs1 & Hb1).
  destruct (IH f1 (shape_wf _ _ Hs1 Hf)) as (f2 & -> & Hs2 & Hb2). exists f2. split_and!; [done|by eapply same_shape_trans|].
  intros j Hj. rewrite Hb2, Hb1, <- orb_assoc by done. do 2 f_equal.
  clear -Hs1. induction ks as [|k' ks IHk]; [done|]. cbn. rewrite IHk. by rewrite (shape_index _ _ _ _ Hs1).
Qed.

(** The values of a list, inserted in turn. *)
Fixpoint bloom_insert_all (f : HsdBloomFilter) (values : list (list Z)) : HsdBloomFilter * result BloomError unit :=
  match values with
  | [] => (f, Ok tt)
  | v :: values =>
      match bloom_insert f v with
      | (f, Ok _) => bloom_insert_all f values
      | (f, Err e) => (f, Err e)
      end
  end.

(** A bit some value of the list sets. *)
Definition hashed (f : HsdBloomFilter) (values : list (list Z)) (j : Z) : Prop :=
  exists v k, v ∈ values /\ k ∈ bloom_functions f /\ bloom_index f v k = j.

Lemma hashed_cons f v values j :
  hashed f (v :: values) j <-> existsb (fun k => bloom_index f v k =? j) (bloom_functions f) = true \/ hashed f values j.
Proof.
  unfold hashed. rewrite existsb_exists. split.
  - intros (w & k & [-> | Hw]%elem_of_cons & Hk & E); [left|right; eauto]. exists k.
    by rewrite <- list_elem_of_In, Z.eqb_eq.
  - intros [(k & Hk%list_elem_of_In & E%Z.eqb_eq)|(w & k & Hw & Hk & E)].
    + exists v, k. split_and!; [left|done|done].
    + exists w, k. split_and!; [by right|done|done].
Qed.

Lemma hashed_shape f g values j : same_shape f g -> hashed g values j <-> hashed f values j.
Proof.
  intros Hs. unfold hashed. rewrite (shape_functions _ _ Hs).
  by setoid_rewrite (fun v k => shape_index f g v k Hs).
Qed.

Lemma insert_all_bits values : forall f, bloom_wf f ->
  exists f', bloom_insert_all f values = (f', Ok tt) /\ same_shape f f' /\
    forall j, 0 <= j -> filter_bit f' j = true <-> filter_bit f j = true \/ hashed f values j.
Proof.
  induction values as [|v values IH]; intros f Hf; cbn.
  { exists f. split_and!; [done|apply same_shape_refl|]. intros j _. split; [by left|]. intros [?|(? & ? & Hin & _)]; [done|].
    by apply not_elem_of_nil in Hin. }
  destruct (insert_loop_bits v (bloom_functions f) f Hf) as (f1 & E1 & Hs1 & Hb1). unfold bloom_insert. rewrite E1.
  destruct (IH f1 (shape_wf _ _ Hs1 Hf)) as (f2 & -> & Hs2 & Hb2). exists f2. split_and!; [done|by eapply same_shape_trans|].
  intros j Hj. rewrite Hb2, Hb1, orb_true_iff, hashed_cons, (hashed_shape _ _ _ _ Hs1) by done. tauto.
Qed.

(** A new filter is the empty set of bits, of the size asked for in whole bytes. *)
Lemma bloom_new_empty size functions tweak update f :
  bloom_new size functions tweak update = Ok f -> in_u32 tweak -> bloom_wf f /\ forall j, 0 <= j -> filter_bit f j = false.
Proof.
  unfold bloom_new. intros Hn Ht. revert Hn. cbv zeta. destruct (Z.ltb_spec (MAX_BLOOM_FILTER_BYTES * 8) (Z.max size 8)); [done|].
  destruct (Z.ltb_spec MAX_BLOOM_HASH_FUNCTIONS (Z.max functions 1)); [done|]. intros [= <-].
  destruct (byte_and_bit (Z.max size 8)) as (E & Hb & Hq); [lia|].
  assert ((Z.max size 8 - Z.land (Z.max size 8) 7) / 8 = Z.shiftr (Z.max size 8) 3) as ->.
  { replace (Z.max size 8 - _) with (Z.shiftr (Z.max size 8) 3 * 8) by lia. by rewrite Z.div_mul. }
  split; [split; cbn [bf_bytes bf_hash_functions bf_tweak]; [|lia|done]|].
  - unfold zlen. rewrite repeat_length. unfold MAX_BLOOM_FILTER_BYTES in *. lia.
  - intros j Hj. unfold filter_bit, get. cbn [bf_bytes]. destruct (Z.ltb_spec (Z.shiftr j 3) 0); [done|].
    destruct (repeat _ _ !! _) as [byte|] eqn:Hl; [|done]. apply list_elem_of_lookup_2, list_elem_of_In, repeat_spec in Hl as ->.
    apply Z.bits_0.
Qed.

(** ** The payload *)

Lemma update_exact kind u : bloom_update_try_from kind = Ok u <-> kind = update_as_u8 u.
Proof.
  split; [|intros ->; by destruct u]. unfold bloom_update_try_from.
  destruct kind as [|[[p|p|]|[p|p|]|]|p]; try done; by intros [= <-].
Qed.

Context `{!ChainExternalsLaws, !WalletCodecLaws}.

Lemma bloom_decode_encode f : bloom_wf f -> bloom_decode_strict (bloom_encode f) = Ok f.
Proof.
  intros [Hb Hf Ht]. unfold bloom_decode_strict, bloom_encode. rewrite law_varbytes by (done || lia). cbn [lift_decode].
  unfold MAX_BLOOM_HASH_FUNCTIONS in *.
  destruct (law_u32 (bf_hash_functions f) (put_u32_le (bf_tweak f) ++ put_u8 (update_as_u8 (bf_update f)))) as [_ ->];
    [unfold in_u32, u32_max; lia|]. cbn [lift_decode].
  destruct (law_u32 (bf_tweak f) (put_u8 (update_as_u8 (bf_update f))) Ht) as [_ ->]. cbn [lift_decode].
  destruct (law_u8 (update_as_u8 (bf_update f)) []) as [_ Hu]; [by destruct (bf_update f)|]. rewrite app_nil_r in Hu. rewrite Hu.
  cbn [lift_decode]. rewrite (proj2 (update_exact _ _) eq_refl), law_finish. cbn [lift_decode].
  rewrite bool_decide_eq_false_2 by (intros E; rewrite E in Hb; unfold zlen in Hb; cbn [length] in Hb; lia).
  rewrite (proj2 (Z.eqb_neq _ _)), (proj2 (Z.ltb_ge _ _)) by lia. by destruct f.
Qed.

(** The filter payload is a bijection between the filters that can be sent and the
    byte strings accepted: what decodes is a bounded, nonempty filter with one to fifty
    hash functions and re-encodes to the same bytes, and every such filter decodes from
    its own payload. *)
Theorem bloom_codec_exact input f :
  bytes_ok input -> bloom_decode_strict input = Ok f <-> bloom_wf f /\ input = bloom_encode f.
Proof.
  intros Hok. split; [|intros [Hf ->]; by apply bloom_decode_encode]. unfold bloom_decode_strict.
  destruct (read_varbytes _ _ input) as [[bytes r1]|] eqn:E1; cbn [lift_decode]; [|done].
  apply law_read_varbytes in E1 as [-> Hlen]; [|done]. apply Forall_app in Hok as [_ Hok].
  destruct (read_u32_le r1) as [[functions r2]|] eqn:E2; cbn [lift_decode]; [|done].
  pose proof (law_read_u32_range _ _ _ E2) as Hfr. apply law_read_u32 in E2 as ->; [|done]. apply Forall_app in Hok as [_ Hok].
  destruct (read_u32_le r2) as [[tweak r3]|] eqn:E3; cbn [lift_decode]; [|done].
  pose proof (law_read_u32_range _ _ _ E3) as Htw. apply law_read_u32 in E3 as ->; [|done]. apply Forall_app in Hok as [_ Hok].
  destruct (read_u8 r3) as [[kind r4]|] eqn:E4; cbn [lift_decode]; [|done]. apply law_read_u8 in E4 as ->; [|done].
  destruct (bloom_update_try_from kind) as [update|] eqn:Eu; [|done]. apply update_exact in Eu as ->.
  destruct (finish r4) as [u|] eqn:E5; cbn [lift_decode]; [|done]. apply law_finish_empty in E5 as ->.
  case_bool_decide as Hne; [done|]. destruct (Z.eqb_spec functions 0); [done|].
  destruct (Z.ltb_spec MAX_BLOOM_HASH_FUNCTIONS functions); [done|]. intros [= <-]. split.
  - unfold in_u32 in Hfr. split; cbn; [|lia|done]. split; [|done]. destruct bytes; [done|]. rewrite zlen_cons.
    pose proof (zlen_nonneg bytes). lia.
  - unfold bloom_encode. cbn. by rewrite app_nil_r.
Qed.

(** A filter is the exact set of the values inserted, up to its hashes. From a new
    filter every list of values is inserted without an error; the payload sent decodes,
    at the peer, to the same filter; and that filter matches a value exactly if each of
    its bits is a bit of some value inserted, so it matches each of those. *)
Theorem bloom_matches_inserted size functions tweak update f0 values :
  bloom_new size functions tweak update = Ok f0 -> in_u32 tweak ->
  exists f, bloom_insert_all f0 values = (f, Ok tt) /\ bloom_decode_strict (bloom_encode f) = Ok f /\
    bloom_size_bits f = bloom_size_bits f0 /\
    (forall w, bloom_contains f w = true <-> forall k, k ∈ bloom_functions f0 -> hashed f0 values (bloom_index f0 w k)) /\
    (forall v, v ∈ values -> bloom_contains f v = true).
Proof.
  intros Hn Ht. destruct (bloom_new_empty _ _ _ _ _ Hn Ht) as [Hwf Hempty].
  destruct (insert_all_bits values f0 Hwf) as (f & E & Hs & Hb). pose proof (shape_wf _ _ Hs Hwf) as Hwf'.
  assert (forall w, bloom_contains f w = true <->
    forall k, k ∈ bloom_functions f0 -> hashed f0 values (bloom_index f0 w k)) as Hc.
  { intros w. rewrite contains_bits, forallb_forall, (shape_functions _ _ Hs) by done.
    split; intros Hall k; [intros Hk|intros Hk%list_elem_of_In]; specialize (Hall k); pose proof (index_range f0 w k Hwf).
    - rewrite (shape_index _ _ _ _ Hs), Hb, Hempty in Hall by lia. apply list_elem_of_In in Hk. by destruct (Hall Hk).
    - rewrite (shape_index _ _ _ _ Hs), Hb by lia. right. by apply Hall. }
  exists f. split_and!; [done|by apply bloom_decode_encode| |done|].
  - unfold bloom_size_bits, zlen. destruct Hs. by rewrite sh_bytes0.
  - intros v Hv. apply Hc. intros k Hk. by exists v, k.
Qed.

End insertion.

(** ** An instance of the external code *)

Definition toy_read_varbytes (limit : Z) (label l : list Z) : result unit (list Z * list Z) :=
  match toy_read 4 l with
  | Ok (n, r) => if limit <? n then Err tt else toy_slice n r
  | Err e => Err e
  end.

#[export] Instance toy_wallet : WalletExternals := {|
  header_decode := fun l => Ok {| toy_previous := zero_hash; toy_time := from_be l; toy_bits := 7; toy_nonce := 5 |};
  put_varbytes := fun b => reverse (to_be 4 (zlen b)) ++ b;
  read_varbytes := toy_read_varbytes;
  read_compact_usize := fun limit _ l =>
    match toy_read 1 l with Ok (n, r) => if limit <? n then Err tt else Ok (n, r) | Err e => Err e end;
  HEADER_SIZE := 32;
  MAX_INVENTORY_ITEMS := 50000;
  Transaction := list Z;
  TransactionError := unit;
  transaction_hash := fun t => if bool_decide (t = []) then Err tt else Ok (to_be 32 (from_be t)) |}.

Lemma toy_read_canonical n l v r :
  bytes_ok l -> toy_read n l = Ok (v, r) -> l = reverse (to_be n v) ++ r.
Proof.
  unfold toy_read. intros Hok. destruct (Z.leb_spec (Z.of_nat n) (zlen l)) as [Hn|]; [|done]. intros [= <- <-].
  assert (length (reverse (take n l)) = n) as Hl by (rewrite length_reverse, length_take; unfold zlen in Hn; lia).
  assert (bytes_ok (reverse (take n l))) as Hr by (apply Forall_reverse, Forall_take, Hok).
  pose proof (from_be_bound _ Hr) as Hb. unfold zlen in Hb. rewrite Hl in Hb.
  replace (Z.max 0 _) with (from_be (reverse (take n l))) by lia.
  rewrite <- Hl at 1. by rewrite (to_be_from_be _ Hr), reverse_involutive, take_drop.
Qed.

#[export] Instance toy_wallet_laws : WalletCodecLaws.
Proof.
  constructor; cbn -[to_be from_be zlen toy_read toy_slice Z.pow].
  - intros limit label b r Hb Hlim. unfold toy_read_varbytes. rewrite <- app_assoc. pose proof (zlen_nonneg b).
    destruct (toy_read_put 4 (zlen b) (b ++ r)) as [_ ->]; [unfold in_u32, u32_max in Hlim; lia|].
    rewrite (proj2 (Z.ltb_ge _ _)) by done. apply toy_slice_put.
  - intros limit label l b r Hok. unfold toy_read_varbytes. destruct (toy_read 4 l) as [[n r']|] eqn:E; [|done].
    apply toy_read_canonical in E as ->; [|done]. destruct (Z.ltb_spec limit n); [done|]. unfold toy_slice.
    destruct (_ && _) eqn:Hs; [|done]. breflect. intros [= <- <-].
    assert (zlen (take (Z.to_nat n) r') = n) as Hl by (unfold zlen in *; rewrite length_take; lia).
    rewrite Hl. split; [|done]. by rewrite <- app_assoc, take_drop.
  - intros limit label l b r. unfold toy_read_varbytes. destruct (toy_read 4 l) as [[n r']|]; [|done].
    destruct (Z.ltb_spec limit n); [done|]. unfold toy_slice. destruct (_ && _) eqn:Hs; [|done]. breflect. intros [= <- <-].
    unfold zlen in *. rewrite length_take. lia.
  - intros l v r Hok E. by apply toy_read_canonical.
  - intros n l b r Hn. unfold toy_slice. destruct (_ && _) eqn:Hs; [|done]. breflect. intros [= <- <-].
    rewrite take_drop. split; [done|]. unfold zlen in *. rewrite length_take. lia.
  - intros l v r Hok E. by apply toy_read_canonical.
  - intros l u. destruct (Z.eqb_spec (zlen l) 0) as [E|]; [|done]. intros _. destruct l; [done|]. unfold zlen in E. cbn in E. lia.
Qed.

(** The filter of the reference client's own test: three address hashes, 24 bits. *)
Definition sample_elements : list (list Z) :=
  [to_be 20 0x99108ad8ed9bb6274d3980bab5a85c048f0950c8; to_be 20 0xb5a2c786d9ef4658287ced5914b37a1b4aa32eee;
   to_be 20 0xb9300670b4c5366e95b2699e8b18bc75e5f729c5].
Definition sample_filter : HsdBloomFilter :=
  {| bf_bytes := [0x61; 0x4e; 0x9b]; bf_hash_functions := 5; bf_tweak := 0; bf_update := UpdateAll |}.

Definition sample_empty : HsdBloomFilter :=
  {| bf_bytes := [0; 0; 0]; bf_hash_functions := 5; bf_tweak := 0; bf_update := UpdateAll |}.

Lemma bloom_matches_inserted_witness :
  bloom_new 24 5 0 UpdateAll = Ok sample_empty /\ bloom_insert_all sample_empty sample_elements = (sample_filter, Ok tt) /\
  bloom_decode_strict (bloom_encode sample_filter) = Ok sample_filter.
Proof.
  assert (bloom_new 24 5 0 UpdateAll = Ok sample_empty) as E by reflexivity.
  destruct (bloom_matches_inserted 24 5 0 UpdateAll sample_empty sample_elements E) as (f & Hi & Hd & _);
    [split; discriminate|].
  assert (bloom_insert_all sample_empty sample_elements = (sample_filter, Ok tt)) as Hs
    by (vm_cast_no_check (@eq_refl (HsdBloomFilter * result BloomError unit) (sample_filter, Ok tt))).
  assert (f = sample_filter) as -> by exact (eq_trans (eq_sym (f_equal fst Hi)) (f_equal fst Hs)).
  split; [exact E|]. split; [exact Hs|exact Hd].
Defined.

Lemma bloom_codec_exact_witness :
  bytes_ok (bloom_encode sample_filter) /\ bloom_decode_strict (bloom_encode sample_filter) = Ok sample_filter.
Proof.
  assert (bytes_ok (bloom_encode sample_filter)) as Hok.
  { apply (bool_decide_unpack (Forall in_u8 (bloom_encode sample_filter))). vm_compute. exact I. }
  split; [exact Hok|]. apply (bloom_codec_exact (bloom_encode sample_filter) sample_filter Hok). split; [|reflexivity].
  split; vm_compute; repeat split; discriminate.
Defined.
