(* ===== verification/WalletBlock.v ===== *)
(** * Light wallet: filtered blocks

    Models the evidence half of [src/crates/hns-light-wallet/src/lib.rs]: the partial
    Merkle tree of a filtered block read against a validated header, the collector
    that correlates the transactions following it, and the union of several peers'
    views of one block. Hashing, headers and transactions are external
    ([ChainExternals], [WalletExternals]). *)

From S2P Require Import Prelude Text LightChain WalletBloom.
Import Stdlib.Strings.String.StringSyntax.

(** A [BTreeMap] with integer keys, in ascending order; [insert] returns the value it
    replaces, and [into_values] is the second components. *)
Fixpoint btree_insert {V} (k : Z) (v : V) (m : list (Z * V)) : option V * list (Z * V) :=
  match m with
  | [] => (None, [(k, v)])
  | (k', v') :: rest =>
      if k <? k' then (None, (k, v) :: m) else
      if k =? k' then (Some v', (k, v) :: rest) else
      let '(old, rest) := btree_insert k v rest in (old, (k', v') :: rest)
  end.

Definition MAX_FILTERED_BLOCK_TRANSACTIONS : Z := 1000000 / 60.
Definition MAX_PARTIAL_MERKLE_FLAG_BYTES : Z := (MAX_FILTERED_BLOCK_TRANSACTIONS * 2 + 7) / 8.

(** ** Anchors and evidence *)

Record WalletHeaderAnchor := {
  wa_height : Z; wa_hash : list Z; wa_previous_block : list Z; wa_tree_root : list Z; wa_merkle_root : list Z;
  wa_time : Z }.
#[export] Instance WalletHeaderAnchor_eq_dec : EqDecision WalletHeaderAnchor.
Proof. solve_decision. Defined.

Definition anchor_from_entry (e : HeaderEntry) : WalletHeaderAnchor :=
  {| wa_height := e_height e; wa_hash := e_hash e; wa_previous_block := e_previous_block e;
     wa_tree_root := e_tree_root e; wa_merkle_root := e_merkle_root e; wa_time := e_time e |}.

Record MatchedTransaction := { mt_hash : list Z; mt_index : Z }.
#[export] Instance MatchedTransaction_eq_dec : EqDecision MatchedTransaction.
Proof. solve_decision. Defined.

Record WalletBlockEvidence := {
  wb_header : WalletHeaderAnchor; wb_total_transactions : Z; wb_matches : list MatchedTransaction }.

Record DecodedPartialMerkle := { dm_total_transactions : Z; dm_matches : list MatchedTransaction }.

(** [usize::div_ceil] by [1 << height]. *)
Definition tree_width (total height : Z) : Z := (total + (2 ^ height - 1)) / 2 ^ height.

(** [while tree_width(total, height) > 1]; [None] is out of fuel. *)
Fixpoint merkle_height (fuel : nat) (total : Z) (height : nat) : option nat :=
  match fuel with
  | O => None
  | S fuel => if 1 <? tree_width total (Z.of_nat height) then merkle_height fuel total (S height) else Some height
  end.
(** More turns than a [usize] has bits. *)
Definition MERKLE_HEIGHT_FUEL : nat := 65.

Section block.
Context `{WalletExternals}.

Definition MAX_MERKLE_BLOCK_PAYLOAD_BYTES : Z :=
  HEADER_SIZE + 4 + 9 + MAX_FILTERED_BLOCK_TRANSACTIONS * 32 + 9 + MAX_PARTIAL_MERKLE_FLAG_BYTES.

Inductive WalletEvidenceError :=
| EmptyBlockRequest | TooManyBlockRequests | EmptyPeerViews | PeerViewHeaderMismatch | PeerViewTransactionMismatch
| PeerViewConflict | MerkleBlockTooLarge | EvidenceDecode (e : DecodeError) | EvidenceHeader (e : HeaderError)
| WrongHeader | ZeroTransactions | TooManyTransactions | TooManyHashes | FlagsTooSmall | ExhaustedFlags
| ExhaustedHashes | UnusedFlagBits | UnusedHashes | MerkleRootMismatch | DuplicateMatchedTransaction
| UnexpectedTransaction | DuplicateTransactionIndex | MissingTransactions
| EvidenceTransaction (e : TransactionError) | EvidenceArithmeticOverflow.

(** The [?] operator on an external error. *)
Definition from_error {E A} (wrap : E -> WalletEvidenceError) (r : result E A) : result WalletEvidenceError A :=
  match r with Ok a => Ok a | Err e => Err (wrap e) end.

Definition from_validated_header (height : Z) (header : Header) : WalletHeaderAnchor :=
  {| wa_height := height; wa_hash := block_hash header; wa_previous_block := header_previous_block header;
     wa_tree_root := header_tree_root header; wa_merkle_root := header_merkle_root header;
     wa_time := header_time header |}.

Definition request_filtered_blocks (headers : list HeaderEntry) : result WalletEvidenceError WalletPacket :=
  if bool_decide (headers = []) then Err EmptyBlockRequest else
  if MAX_INVENTORY_ITEMS <? zlen headers then Err TooManyBlockRequests else
  Ok (GetData (map (fun entry => {| inv_kind := FilteredBlock; inv_hash := e_hash entry |}) headers)).

(** ** The partial Merkle tree *)

Definition hash_empty : list Z := blake2b_256 [].
Definition hash_leaf (hash : list Z) : list Z := blake2b_256 ([0] ++ hash).
Definition hash_internal (left right : list Z) : list Z := blake2b_256 ([1] ++ left ++ right).

(** [PartialTreeReader], apart from the total, flags and hashes it borrows. *)
Record TreeReader := {
  tr_bits_used : Z; tr_hashes_used : Z; tr_matches : list MatchedTransaction; tr_matched_hashes : gset (list Z) }.

Definition read_bit (flags : list Z) (r : TreeReader) : result WalletEvidenceError (bool * TreeReader) :=
  let? byte := ok_or (get flags (tr_bits_used r / 8)) ExhaustedFlags in
  let bit := negb (Z.land byte (Z.shiftl 1 (tr_bits_used r mod 8)) =? 0) in
  let? bits_used := ok_or (checked_add (tr_bits_used r) 1) EvidenceArithmeticOverflow in
  Ok (bit, {| tr_bits_used := bits_used; tr_hashes_used := tr_hashes_used r; tr_matches := tr_matches r;
              tr_matched_hashes := tr_matched_hashes r |}).

Definition read_hash (hashes : list (list Z)) (r : TreeReader) : result WalletEvidenceError (list Z * TreeReader) :=
  let? hash := ok_or (get hashes (tr_hashes_used r)) ExhaustedHashes in
  let? hashes_used := ok_or (checked_add (tr_hashes_used r) 1) EvidenceArithmeticOverflow in
  Ok (hash, {| tr_bits_used := tr_bits_used r; tr_hashes_used := hashes_used; tr_matches := tr_matches r;
               tr_matched_hashes := tr_matched_hashes r |}).

(** The matched leaf of [traverse]. *)
Definition match_leaf (hash : list Z) (position : Z) (r : TreeReader)
    : result WalletEvidenceError (list Z * TreeReader) :=
  if bool_decide (hash ∈ tr_matched_hashes r) then Err DuplicateMatchedTransaction else
  if u32_max <? position then Err EvidenceArithmeticOverflow else
  Ok (hash_leaf hash,
      {| tr_bits_used := tr_bits_used r; tr_hashes_used := tr_hashes_used r;
         tr_matches := tr_matches r ++ [{| mt_hash := hash; mt_index := position |}];
         tr_matched_hashes := {[hash]} ∪ tr_matched_hashes r |}).

Fixpoint traverse (total : Z) (flags : list Z) (hashes : list (list Z)) (height : nat) (position : Z) (r : TreeReader)
    : result WalletEvidenceError (list Z * TreeReader) :=
  let? (parent, r) := read_bit flags r in
  match height with
  | O =>
      let? (hash, r) := read_hash hashes r in
      if parent then match_leaf hash position r else Ok (hash, r)
  | S child_height =>
      if negb parent then read_hash hashes r else
      let? left_position := ok_or (if position * 2 <=? u64_max then Some (position * 2) else None)
                                  EvidenceArithmeticOverflow in
      let? (left_hash, r) := traverse total flags hashes child_height left_position r in
      let? right_position := ok_or (checked_add left_position 1) EvidenceArithmeticOverflow in
      let? (right_hash, r) :=
        if right_position <? tree_width total (Z.of_nat child_height)
        then traverse total flags hashes child_height right_position r
        else Ok (hash_empty, r) in
      Ok (hash_internal left_hash right_hash, r)
  end.

(** [for _ in 0..hash_count { hashes.push(decoder.read_array()?) }]. *)
Fixpoint read_hashes (count : nat) (input : list Z) : result WalletEvidenceError (list (list Z) * list Z) :=
  match count with
  | O => Ok ([], input)
  | S count =>
      let? (hash, input) := from_error EvidenceDecode (read_array 32 input) in
      let? (hashes, input) := read_hashes count input in
      Ok (hash :: hashes, input)
  end.

(** The traversal and the checks after it. *)
Definition check_partial_tree (total : Z) (hashes : list (list Z)) (flags : list Z) (merkle_root : list Z)
    : result WalletEvidenceError (list MatchedTransaction) :=
  if total <? zlen hashes then Err TooManyHashes else
  if Z.min (zlen flags * 8) u64_max <? zlen hashes then Err FlagsTooSmall else
  match merkle_height MERKLE_HEIGHT_FUEL total 0 with
  | None => Err EvidenceArithmeticOverflow
  | Some height =>
      let? (root, r) := traverse total flags hashes height 0
        {| tr_bits_used := 0; tr_hashes_used := 0; tr_matches := []; tr_matched_hashes := ∅ |} in
      if negb ((tr_bits_used r + 7) / 8 =? zlen flags) then Err UnusedFlagBits else
      if negb (tr_hashes_used r =? zlen hashes) then Err UnusedHashes else
      if negb (bool_decide (root = merkle_root)) then Err MerkleRootMismatch else Ok (tr_matches r)
  end.

Definition decode_partial_merkle (input expected_hash expected_merkle_root : list Z)
    : result WalletEvidenceError DecodedPartialMerkle :=
  if MAX_MERKLE_BLOCK_PAYLOAD_BYTES <? zlen input then Err MerkleBlockTooLarge else
  let? (header_bytes, input) := from_error EvidenceDecode (read_slice HEADER_SIZE input) in
  let? header := from_error EvidenceHeader (header_decode header_bytes) in
  if negb (bool_decide (block_hash header = expected_hash))
     || negb (bool_decide (header_merkle_root header = expected_merkle_root))
  then Err WrongHeader else
  let? (total, input) := from_error EvidenceDecode (read_u32_le input) in
  if total =? 0 then Err ZeroTransactions else
  if MAX_FILTERED_BLOCK_TRANSACTIONS <? total then Err TooManyTransactions else
  let? (hash_count, input) := from_error EvidenceDecode (read_compact_usize total (text "partial Merkle hashes") input) in
  let? (hashes, input) := read_hashes (Z.to_nat hash_count) input in
  let? (flags, input) := from_error EvidenceDecode
    (read_varbytes MAX_PARTIAL_MERKLE_FLAG_BYTES (text "partial Merkle flags") input) in
  let? _ := from_error EvidenceDecode (finish input) in
  let? matches := check_partial_tree total hashes flags (header_merkle_root header) in
  Ok {| dm_total_transactions := total; dm_matches := matches |}.

Definition decode_for_anchor (input : list Z) (header : WalletHeaderAnchor)
    : result WalletEvidenceError WalletBlockEvidence :=
  let? decoded := decode_partial_merkle input (wa_hash header) (wa_merkle_root header) in
  Ok {| wb_header := header; wb_total_transactions := dm_total_transactions decoded; wb_matches := dm_matches decoded |}.

Definition decode_for_header (input : list Z) (header : HeaderEntry) : result WalletEvidenceError WalletBlockEvidence :=
  decode_for_anchor input (anchor_from_entry header).

(** ** The collector *)

Record FilteredBlockCollector := {
  fc_evidence : WalletBlockEvidence; fc_pending : gmap (list Z) Z; fc_transactions : list (Z * Transaction) }.

Fixpoint collect_pending (pending : gmap (list Z) Z) (matches : list MatchedTransaction)
    : result WalletEvidenceError (gmap (list Z) Z) :=
  match matches with
  | [] => Ok pending
  | m :: matches =>
      match pending !! mt_hash m with
      | Some _ => Err DuplicateMatchedTransaction
      | None => collect_pending (<[mt_hash m := mt_index m]> pending) matches
      end
  end.
(** [WalletBlockEvidence::collect]. *)
Definition collector_new (evidence : WalletBlockEvidence) : result WalletEvidenceError FilteredBlockCollector :=
  let? pending := collect_pending ∅ (wb_matches evidence) in
  Ok {| fc_evidence := evidence; fc_pending := pending; fc_transactions := [] |}.

Definition collector_remaining (c : FilteredBlockCollector) : Z := Z.of_nat (size (fc_pending c)).

Definition admit_transaction (c : FilteredBlockCollector) (t : Transaction)
    : FilteredBlockCollector * result WalletEvidenceError Z :=
  match transaction_hash t with
  | Err e => (c, Err (EvidenceTransaction e))
  | Ok hash =>
      match fc_pending c !! hash with
      | None => (c, Err UnexpectedTransaction)
      | Some index =>
          let pending := delete hash (fc_pending c) in
          let '(old, transactions) := btree_insert index t (fc_transactions c) in
          ({| fc_evidence := fc_evidence c; fc_pending := pending; fc_transactions := transactions |},
           match old with
           | Some _ => Err DuplicateTransactionIndex
           | None => Ok (Z.of_nat (size pending))
           end)
      end
  end.

Record VerifiedWalletBlock := { vw_evidence : WalletBlockEvidence; vw_transactions : list Transaction }.

Definition collector_finish (c : FilteredBlockCollector) : result WalletEvidenceError VerifiedWalletBlock :=
  if negb (bool_decide (fc_pending c = ∅)) then Err MissingTransactions else
  Ok {| vw_evidence := fc_evidence c; vw_transactions := map snd (fc_transactions c) |}.

(** ** Several views of one block *)

Record MergeState := {
  ms_matches : list (Z * MatchedTransaction); ms_positions : gmap (list Z) Z;
  ms_transactions : gmap (list Z) Transaction }.

(** The transactions of one view by their hashes. *)
Fixpoint view_transactions (found : gmap (list Z) Transaction) (transactions : list Transaction)
    : result WalletEvidenceError (gmap (list Z) Transaction) :=
  match transactions with
  | [] => Ok found
  | t :: transactions =>
      let? hash := from_error EvidenceTransaction (transaction_hash t) in
      match found !! hash with
      | Some _ => Err PeerViewTransactionMismatch
      | None => view_transactions (<[hash := t]> found) transactions
      end
  end.

(** One match of one view: what is left of the view's transactions, and the union. *)
Definition merge_match (found : gmap (list Z) Transaction) (s : MergeState) (m : MatchedTransaction)
    : result WalletEvidenceError (gmap (list Z) Transaction * MergeState) :=
  let? t := ok_or (found !! mt_hash m) PeerViewTransactionMismatch in
  let found := delete (mt_hash m) found in
  let '(replaced, matches) := btree_insert (mt_index m) m (ms_matches s) in
  if match ms_positions s !! mt_hash m with Some position => negb (position =? mt_index m) | None => false end
     || match replaced with Some existing => negb (bool_decide (mt_hash existing = mt_hash m)) | None => false end
     || match ms_transactions s !! mt_hash m with Some existing => negb (bool_decide (existing = t)) | None => false end
  then Err PeerViewConflict else
  Ok (found, {| ms_matches := matches; ms_positions := <[mt_hash m := mt_index m]> (ms_positions s);
                ms_transactions := <[mt_hash m := t]> (ms_transactions s) |}).

Fixpoint merge_matches (found : gmap (list Z) Transaction) (s : MergeState) (matches : list MatchedTransaction)
    : result WalletEvidenceError (gmap (list Z) Transaction * MergeState) :=
  match matches with
  | [] => Ok (found, s)
  | m :: matches => let? (found, s) := merge_match found s m in merge_matches found s matches
  end.

Definition merge_view (header : WalletHeaderAnchor) (total_transactions : Z) (s : MergeState) (block : VerifiedWalletBlock)
    : result WalletEvidenceError MergeState :=
  if negb (bool_decide (wb_header (vw_evidence block) = header))
     || negb (wb_total_transactions (vw_evidence block) =? total_transactions)
  then Err PeerViewHeaderMismatch else
  if negb (zlen (vw_transactions block) =? zlen (wb_matches (vw_evidence block)))
  then Err PeerViewTransactionMismatch else
  let? found := view_transactions ∅ (vw_transactions block) in
  let? (found, s) := merge_matches found s (wb_matches (vw_evidence block)) in
  if negb (bool_decide (found = ∅)) then Err PeerViewTransactionMismatch else Ok s.

Fixpoint merge_views (header : WalletHeaderAnchor) (total_transactions : Z) (s : MergeState) (blocks : list VerifiedWalletBlock)
    : result WalletEvidenceError MergeState :=
  match blocks with
  | [] => Ok s
  | block :: blocks => let? s := merge_view header total_transactions s block in merge_views header total_transactions s blocks
  end.

(** The union's transactions in the order of its matches, and those left over. *)
Fixpoint merged_order (matches : list MatchedTransaction) (transactions : gmap (list Z) Transaction)
    : result WalletEvidenceError (list Transaction * gmap (list Z) Transaction) :=
  match matches with
  | [] => Ok ([], transactions)
  | m :: matches =>
      let? t := ok_or (transactions !! mt_hash m) PeerViewTransactionMismatch in
      let? (rest, transactions) := merged_order matches (delete (mt_hash m) transactions) in
      Ok (t :: rest, transactions)
  end.

Definition merge_peer_views (blocks : list VerifiedWalletBlock) : result WalletEvidenceError VerifiedWalletBlock :=
  let? first := ok_or (head blocks) EmptyPeerViews in
  let header := wb_header (vw_evidence first) in
  let total_transactions := wb_total_transactions (vw_evidence first) in
  let? s := merge_views header total_transactions
              {| ms_matches := []; ms_positions := ∅; ms_transactions := ∅ |} blocks in
  let matches := map snd (ms_matches s) in
  let? (transactions, left_over) := merged_order matches (ms_transactions s) in
  if negb (bool_decide (left_over = ∅)) then Err PeerViewTransactionMismatch else
  Ok {| vw_evidence := {| wb_header := header; wb_total_transactions := total_transactions; wb_matches := matches |};
        vw_transactions := transactions |}.

End block.
