(* ===== verification/WalletBlockProps.v ===== *)
(** * Light wallet: what a filtered block proves

    An accepted partial tree is, flag for flag and hash for hash, the encoding of a
    pruned Merkle tree, and every such encoding is accepted; and what it matches is
    in the block whose root it opens, at the positions it names, up to a collision
    among the strings hashed. *)

From Stdlib Require Import Sorted.
From stdpp Require Import sorting.
From S2P Require Import Prelude Text LightChain LightSnapshot WalletBloom WalletBloomProps WalletBlock.
Import Stdlib.Strings.String.StringSyntax.

(** ** Pruned trees *)

(** The tree a message spells: nodes left as hashes, matched transactions, inner nodes
    with two children, and those at the right edge with one. *)
Inductive ptree := Pruned (hash : list Z) | Matched (hash : list Z) | Branch (l r : ptree) | Single (l : ptree).

(** The flags in preorder, and the hashes. *)
Fixpoint tree_flags (t : ptree) : list bool :=
  match t with
  | Pruned _ => [false]
  | Matched _ => [true]
  | Branch l r => true :: tree_flags l ++ tree_flags r
  | Single l => true :: tree_flags l
  end.
Fixpoint tree_hashes (t : ptree) : list (list Z) :=
  match t with
  | Pruned h | Matched h => [h]
  | Branch l r => tree_hashes l ++ tree_hashes r
  | Single l => tree_hashes l
  end.
(** The matches, by their positions below the node at [position]. *)
Fixpoint tree_matches (position : Z) (t : ptree) : list MatchedTransaction :=
  match t with
  | Pruned _ => []
  | Matched h => [{| mt_hash := h; mt_index := position |}]
  | Branch l r => tree_matches (position * 2) l ++ tree_matches (position * 2 + 1) r
  | Single l => tree_matches (position * 2) l
  end.

(** The shape of the tree of [total] transactions below a node: matches are leaves, and
    a node has a right child exactly where the level below has that position. *)
Fixpoint fits (total : Z) (height : nat) (position : Z) (t : ptree) : Prop :=
  match t, height with
  | Pruned _, _ => True
  | Matched _, O => True
  | Branch l r, S h => fits total h (position * 2) l /\ fits total h (position * 2 + 1) r /\
                       (position * 2 + 1) * 2 ^ Z.of_nat h < total
  | Single l, S h => fits total h (position * 2) l /\ total <= (position * 2 + 1) * 2 ^ Z.of_nat h
  | _, _ => False
  end.

(** The flags of a message, least significant bit of each byte first. *)
Definition byte_flags (b : Z) : list bool := map (fun i => Z.testbit b (Z.of_nat i)) (seq 0 8).
Definition all_flags (flags : list Z) : list bool := concat (map byte_flags flags).

Lemma width_iff total height position :
  0 <= height -> position < tree_width total height <-> position * 2 ^ height < total.
Proof.
  intros Hh. unfold tree_width. assert (0 < 2 ^ height) by lia. set (k := 2 ^ height) in *. clearbody k.
  Z.to_euclidean_division_equations. split; intros; nia.
Qed.

Lemma all_flags_lookup flags i :
  0 <= i -> all_flags flags !! Z.to_nat i = (fun b => Z.testbit b (i mod 8)) <$> get flags (i / 8).
Proof.
  intros Hi. unfold get. assert (0 <= i / 8) by (Z.to_euclidean_division_equations; lia).
  rewrite (proj2 (Z.ltb_ge _ _)) by done. unfold all_flags. revert i Hi H.
  induction flags as [|b flags IH]; intros i Hi Hq; [done|]. cbn [map concat].
  destruct (decide (i < 8)) as [Hlt|Hge].
  - rewrite lookup_app_l by (change (length (byte_flags b)) with 8%nat; lia). rewrite Z.div_small, Z.mod_small by lia. cbn [fmap option_fmap option_map].
    unfold byte_flags. rewrite list_lookup_fmap, lookup_seq_lt by lia.
    change (Some (Z.testbit b (Z.of_nat (0 + Z.to_nat i))) = Some (Z.testbit b i)). do 2 f_equal. lia.
  - rewrite lookup_app_r by (change (length (byte_flags b)) with 8%nat; lia).
    change (length (byte_flags b)) with 8%nat. replace (Z.to_nat i - 8)%nat with (Z.to_nat (i - 8)) by lia.
    rewrite IH by (Z.to_euclidean_division_equations; lia).
    replace ((i - 8) mod 8) with (i mod 8) by (Z.to_euclidean_division_equations; lia).
    replace (Z.to_nat (i / 8)) with (S (Z.to_nat ((i - 8) / 8))) by (Z.to_euclidean_division_equations; lia). done.
Qed.

Lemma all_flags_length flags : length (all_flags flags) = (8 * length flags)%nat.
Proof. unfold all_flags. induction flags as [|b flags IH]; [done|]. cbn [map concat]. rewrite length_app, IH. cbn. lia. Qed.

Section reading.
Context `{WalletExternals}.

Fixpoint tree_value (t : ptree) : list Z :=
  match t with
  | Pruned h => h
  | Matched h => hash_leaf h
  | Branch l r => hash_internal (tree_value l) (tree_value r)
  | Single l => hash_internal (tree_value l) hash_empty
  end.

Context (total : Z) (flags : list Z) (hashes : list (list Z)).

(** What the reader has left. *)
Definition flags_left (r : TreeReader) : list bool := drop (Z.to_nat (tr_bits_used r)) (all_flags flags).
Definition hashes_left (r : TreeReader) : list (list Z) := drop (Z.to_nat (tr_hashes_used r)) hashes.

(** A reader within its message: what it has left, and what it matched. *)
Record reads (r : TreeReader) (fl : list bool) (hl : list (list Z)) (ms : list MatchedTransaction) : Prop := {
  rd_bits : 0 <= tr_bits_used r <= zlen flags * 8;
  rd_flags : flags_left r = fl;
  rd_used : 0 <= tr_hashes_used r <= zlen hashes;
  rd_hashes : hashes_left r = hl;
  rd_matches : tr_matches r = ms;
  rd_set : forall h, h ∈ tr_matched_hashes r <-> h ∈ map mt_hash ms }.

(** Messages are far below the width of the counters. *)
Context (Hsmall : zlen flags * 8 < u64_max /\ zlen hashes < u64_max).

Lemma drop_cons_lookup {A} (l : list A) n x rest : drop n l = x :: rest <-> l !! n = Some x /\ rest = drop (S n) l.
Proof.
  split.
  - intros E. split; [by rewrite <- (Nat.add_0_r n), <- lookup_drop, E|].
    rewrite <- (Nat.add_1_r n), <- drop_drop, E. done.
  - intros [Hl ->]. by apply drop_S.
Qed.

Lemma read_bit_ok r fl hl ms b r' :
  reads r fl hl ms -> read_bit flags r = Ok (b, r') -> exists fl', fl = b :: fl' /\ reads r' fl' hl ms.
Proof.
  intros [Hb <- Hu <- <- Hs]. unfold read_bit. destruct (get flags _) as [byte|] eqn:E; cbn [ok_or]; [|done].
  unfold checked_add. destruct (Z.leb_spec (tr_bits_used r + 1) u64_max); cbn [ok_or]; [|done]. intros [= <- <-].
  exists (drop (Z.to_nat (tr_bits_used r + 1)) (all_flags flags)). split; [|split; try done; cbn].
  2: { unfold get in E. destruct (Z.ltb_spec (tr_bits_used r / 8) 0); [done|]. apply lookup_lt_Some in E. unfold zlen.
       Z.to_euclidean_division_equations. lia. }
  unfold flags_left. replace (Z.to_nat (tr_bits_used r + 1)) with (S (Z.to_nat (tr_bits_used r))) by lia.
  apply drop_cons_lookup. split; [|done]. rewrite all_flags_lookup, E by lia. cbn. f_equal. symmetry. apply mask_testbit.
  by apply Z.mod_pos_bound.
Qed.

Lemma read_bit_next r b fl hl ms :
  reads r (b :: fl) hl ms -> exists r', read_bit flags r = Ok (b, r') /\ reads r' fl hl ms.
Proof.
  intros [Hb Hf Hu <- <- Hs]. unfold flags_left in Hf. apply drop_cons_lookup in Hf as [Hl ->].
  pose proof (lookup_lt_Some _ _ _ Hl) as Hlt. rewrite all_flags_length in Hlt. rewrite all_flags_lookup in Hl by lia.
  apply fmap_Some in Hl as (byte & E & ->). unfold read_bit. rewrite E. cbn [ok_or].
  rewrite checked_add_small by (unfold zlen in Hsmall; lia). cbn [ok_or]. rewrite mask_testbit by (by apply Z.mod_pos_bound).
  eexists. split; [done|]. split; try done; [cbn; unfold zlen; lia|]. unfold flags_left. cbn [tr_bits_used]. f_equal. lia.
Qed.

Lemma read_hash_ok r fl hl ms h r' :
  reads r fl hl ms -> read_hash hashes r = Ok (h, r') -> exists hl', hl = h :: hl' /\ reads r' fl hl' ms.
Proof.
  intros [Hb <- Hu <- <- Hs]. unfold read_hash, get. rewrite (proj2 (Z.ltb_ge _ _)) by lia.
  destruct (hashes !! _) as [hash|] eqn:E; cbn [ok_or]; [|done].
  unfold checked_add. destruct (Z.leb_spec (tr_hashes_used r + 1) u64_max); cbn [ok_or]; [|done]. intros [= <- <-].
  pose proof (lookup_lt_Some _ _ _ E) as Hlt.
  exists (drop (Z.to_nat (tr_hashes_used r + 1)) hashes). split; [|split; try done; cbn; unfold zlen; lia].
  unfold hashes_left. replace (Z.to_nat (tr_hashes_used r + 1)) with (S (Z.to_nat (tr_hashes_used r))) by lia.
  by apply drop_cons_lookup.
Qed.

Lemma read_hash_next r fl h hl ms :
  reads r fl (h :: hl) ms -> exists r', read_hash hashes r = Ok (h, r') /\ reads r' fl hl ms.
Proof.
  intros [Hb <- Hu Hh <- Hs]. unfold hashes_left in Hh. apply drop_cons_lookup in Hh as [Hl ->].
  pose proof (lookup_lt_Some _ _ _ Hl) as Hlt. unfold read_hash, get. rewrite (proj2 (Z.ltb_ge _ _)) by lia. rewrite Hl.
  cbn [ok_or]. rewrite checked_add_small by (unfold zlen in Hsmall; lia). cbn [ok_or].
  eexists. split; [done|]. split; try done; [cbn; unfold zlen; lia|]. unfold hashes_left. cbn [tr_hashes_used]. f_equal. lia.
Qed.

Lemma match_leaf_ok r fl hl ms h position v r' :
  reads r fl hl ms -> match_leaf h position r = Ok (v, r') ->
  v = hash_leaf h /\ h ∉ map mt_hash ms /\ reads r' fl hl (ms ++ [{| mt_hash := h; mt_index := position |}]).
Proof.
  intros [Hb <- Hu <- <- Hs]. unfold match_leaf. case_bool_decide as Hin; [done|].
  destruct (u32_max <? position); [done|]. intros [= <- <-]. split; [done|]. rewrite Hs in Hin. split; [done|].
  split; try done. intros x. cbn [tr_matched_hashes]. rewrite map_app. cbn [map mt_hash]. rewrite elem_of_union, Hs. set_solver.
Qed.

Lemma match_leaf_next r fl hl ms h position :
  reads r fl hl ms -> h ∉ map mt_hash ms -> position <= u32_max ->
  exists r', match_leaf h position r = Ok (hash_leaf h, r') /\
    reads r' fl hl (ms ++ [{| mt_hash := h; mt_index := position |}]).
Proof.
  intros [Hb <- Hu <- <- Hs] Hin Hp. unfold match_leaf. rewrite <- Hs in Hin. rewrite bool_decide_eq_false_2 by done.
  rewrite (proj2 (Z.ltb_ge _ _)) by done. eexists. split; [done|]. split; try done.
  intros x. cbn [tr_matched_hashes]. rewrite map_app. cbn [map mt_hash]. rewrite elem_of_union, Hs. set_solver.
Qed.

(** ** The traversal reads one tree *)

Lemma traverse_ok height : forall position r fl hl ms v r',
  reads r fl hl ms -> 0 <= position -> NoDup (map mt_hash ms) ->
  traverse total flags hashes height position r = Ok (v, r') ->
  exists t fl' hl', fits total height position t /\ v = tree_value t /\ fl = tree_flags t ++ fl' /\
    hl = tree_hashes t ++ hl' /\ reads r' fl' hl' (ms ++ tree_matches position t) /\
    NoDup (map mt_hash (ms ++ tree_matches position t)).
Proof.
  induction height as [|height IH]; intros position r fl hl ms v r' Hr Hp Hnd; cbn [traverse];
    (destruct (read_bit flags r) as [[parent r1]|] eqn:Eb; [|done]);
    apply (read_bit_ok _ _ _ _ _ _ Hr) in Eb as (fl1 & -> & Hr1).
  - destruct (read_hash hashes r1) as [[h r2]|] eqn:Eh; [|done].
    apply (read_hash_ok _ _ _ _ _ _ Hr1) in Eh as (hl2 & -> & Hr2). destruct parent.
    + intros E. destruct (match_leaf_ok _ _ _ _ _ _ _ _ Hr2 E) as (-> & Hnew & Hr'). exists (Matched h), fl1, hl2.
      split_and!; try done. cbn [tree_matches]. rewrite map_app. cbn. apply NoDup_app. split_and!; [done|set_solver|].
      apply NoDup_singleton.
    + intros [= <- <-]. exists (Pruned h), fl1, hl2. cbn [tree_matches]. rewrite app_nil_r. by split_and!.
  - destruct parent; cbn [negb].
    + destruct (Z.leb_spec (position * 2) u64_max); cbn [ok_or]; [|done].
      destruct (traverse _ _ _ height (position * 2) r1) as [[lv r2]|] eqn:El; [|done].
      apply (IH _ _ _ _ _ _ _ Hr1) in El as (lt & fl2 & hl2 & Hfl & -> & -> & -> & Hr2 & Hnd2); [|lia|done].
      unfold checked_add. destruct (Z.leb_spec (position * 2 + 1) u64_max); cbn [ok_or]; [|done].
      destruct (Z.ltb_spec (position * 2 + 1) (tree_width total (Z.of_nat height))) as [Hw|Hw].
      * destruct (traverse _ _ _ height (position * 2 + 1) r2) as [[rv r3]|] eqn:Er; [|done].
        apply (IH _ _ _ _ _ _ _ Hr2) in Er as (rt & fl3 & hl3 & Hfr & -> & -> & -> & Hr3 & Hnd3); [|lia|done].
        intros [= <- <-]. exists (Branch lt rt), fl3, hl3. cbn [tree_flags tree_hashes tree_matches tree_value fits].
        rewrite <- app_assoc in Hr3, Hnd3. apply width_iff in Hw; [|lia].
        split_and!; try done; by rewrite <- ?app_comm_cons, <- !app_assoc.
      * intros [= <- <-]. exists (Single lt), fl2, hl2. cbn [tree_flags tree_hashes tree_matches tree_value fits].
        split_and!; try done. apply Z.le_ngt. intros Hw'. apply width_iff in Hw'; lia.
    + intros E. apply (read_hash_ok _ _ _ _ _ _ Hr1) in E as (hl2 & -> & Hr2). exists (Pruned v), fl1, hl2.
      cbn [tree_matches]. rewrite app_nil_r. by split_and!.
Qed.

Lemma traverse_next (Htotal : total <= u32_max) t : forall height position r fl hl ms,
  fits total height position t -> 0 <= position -> position * 2 ^ Z.of_nat height < total ->
  reads r (tree_flags t ++ fl) (tree_hashes t ++ hl) ms -> NoDup (map mt_hash (ms ++ tree_matches position t)) ->
  exists r', traverse total flags hashes height position r = Ok (tree_value t, r') /\
    reads r' fl hl (ms ++ tree_matches position t).
Proof.
  induction t as [h|h|l IHl rt IHr|l IHl]; intros height position r fl hl ms Hfit Hp Hpos Hr Hnd;
    apply read_bit_next in Hr as (r1 & Eb & Hr1).
  - apply read_hash_next in Hr1 as (r2 & Eh & Hr2). exists r2. cbn [tree_matches]. rewrite app_nil_r. split; [|done].
    destruct height; cbn [traverse]; rewrite Eb; cbn [negb]; rewrite Eh; done.
  - destruct height; [|done]. apply read_hash_next in Hr1 as (r2 & Eh & Hr2). cbn [traverse]. rewrite Eb, Eh.
    cbn [tree_matches] in *. rewrite map_app in Hnd. apply NoDup_app in Hnd as (_ & Hnew & _).
    apply match_leaf_next; [done| |lia]. intros Hin. apply (Hnew h Hin). cbn. set_solver.
  - destruct height as [|height]; [done|]. destruct Hfit as (Hfl & Hfr & Hw). cbn [traverse]. rewrite Eb. cbn [negb].
    assert (2 ^ Z.of_nat (S height) = 2 * 2 ^ Z.of_nat height) as Epow by (rewrite Nat2Z.inj_succ, Z.pow_succ_r by lia; lia).
    assert (0 < 2 ^ Z.of_nat height) by lia. unfold u32_max, u64_max in *.
    rewrite (proj2 (Z.leb_le _ _)) by nia. cbn [ok_or]. cbn [tree_hashes tree_matches] in *.
    assert (reads r1 (tree_flags l ++ tree_flags rt ++ fl) (tree_hashes l ++ tree_hashes rt ++ hl) ms) as Hr1'
      by (rewrite !app_assoc; exact Hr1).
    rewrite !app_assoc, map_app in Hnd. pose proof Hnd as (Hnd1 & _)%NoDup_app.
    destruct (IHl _ _ _ _ _ _ Hfl ltac:(lia) ltac:(nia) Hr1' Hnd1) as (r2 & -> & Hr2). rewrite <- map_app in Hnd.
    rewrite checked_add_small by (unfold u64_max; nia). cbn [ok_or].
    rewrite (proj2 (Z.ltb_lt _ _)) by (by apply width_iff; [lia|]).
    destruct (IHr _ _ _ _ _ _ Hfr ltac:(lia) Hw Hr2 Hnd) as (r3 & -> & Hr3). exists r3. split; [done|].
    by rewrite app_assoc.
  - destruct height as [|height]; [done|]. destruct Hfit as (Hfl & Hw). cbn [traverse]. rewrite Eb. cbn [negb].
    assert (2 ^ Z.of_nat (S height) = 2 * 2 ^ Z.of_nat height) as Epow by (rewrite Nat2Z.inj_succ, Z.pow_succ_r by lia; lia).
    assert (0 < 2 ^ Z.of_nat height) by lia. unfold u32_max, u64_max in *.
    rewrite (proj2 (Z.leb_le _ _)) by nia. cbn [ok_or].
    destruct (IHl _ _ _ _ _ _ Hfl ltac:(lia) ltac:(nia) Hr1 Hnd) as (r2 & -> & Hr2).
    rewrite checked_add_small by (unfold u64_max; nia). cbn [ok_or].
    rewrite (proj2 (Z.ltb_ge _ _)) by (apply Z.le_ngt; intros Hw'; apply width_iff in Hw'; lia). by exists r2.
Qed.

End reading.

(** ** Acceptance *)

Lemma pow2_succ h : 2 ^ Z.of_nat (S h) = 2 * 2 ^ Z.of_nat h.
Proof. by rewrite Nat2Z.inj_succ, Z.pow_succ_r by lia. Qed.

(** The least height whose level has one node. *)
Definition tree_height (total : Z) (height : nat) : Prop :=
  total <= 2 ^ Z.of_nat height /\ forall h, (h < height)%nat -> 2 ^ Z.of_nat h < total.

Lemma merkle_height_least fuel : forall total height,
  1 <= total <= 2 ^ (Z.of_nat height + Z.of_nat fuel - 1) -> (1 <= fuel)%nat ->
  (forall h, (h < height)%nat -> 2 ^ Z.of_nat h < total) ->
  exists height', merkle_height fuel total height = Some height' /\ tree_height total height'.
Proof.
  induction fuel as [|fuel IH]; intros total height Ht Hf Hlow; [lia|]. cbn [merkle_height].
  assert (1 < tree_width total (Z.of_nat height) <-> 2 ^ Z.of_nat height < total) as Hw
    by (rewrite width_iff by lia; by rewrite Z.mul_1_l).
  destruct (Z.ltb_spec 1 (tree_width total (Z.of_nat height))) as [Hlt|Hge].
  - apply Hw in Hlt. destruct fuel as [|fuel].
    { replace (Z.of_nat height + Z.of_nat 1 - 1) with (Z.of_nat height) in Ht by lia. lia. }
    apply IH; [|lia|].
    + replace (Z.of_nat (S height) + _ - 1) with (Z.of_nat height + Z.of_nat (S (S fuel)) - 1) by lia. done.
    + intros h Hh. destruct (decide (h = height)) as [->|]; [done|]. apply Hlow. lia.
  - exists height. split; [done|]. split; [|done]. apply Z.le_ngt. intros Hlt%Hw. lia.
Qed.

Lemma tree_height_unique total h h' : tree_height total h -> tree_height total h' -> h = h'.
Proof.
  intros [H1 L1] [H2 L2]. destruct (Nat.lt_trichotomy h h') as [Hlt|[Heq|Hlt]]; [|done|].
  - specialize (L2 _ Hlt). lia.
  - specialize (L1 _ Hlt). lia.
Qed.

Lemma tree_hashes_bound total t : forall height position, fits total height position t ->
  position * 2 ^ Z.of_nat height < total ->
  zlen (tree_hashes t) <= 2 ^ Z.of_nat height /\ zlen (tree_hashes t) <= total - position * 2 ^ Z.of_nat height.
Proof.
  induction t as [h|h|l IHl rt IHr|l IHl]; intros height position Hfit Hpos;
    [unfold zlen; cbn; lia|unfold zlen; cbn; lia|..]; (destruct height as [|height]; [done|]); rewrite pow2_succ in *;
    cbn [tree_hashes fits] in *.
  - destruct Hfit as (Hl & Hr & Hw). rewrite zlen_app.
    specialize (IHl _ _ Hl ltac:(nia)). specialize (IHr _ _ Hr Hw). nia.
  - destruct Hfit as (Hl & Hw). specialize (IHl _ _ Hl ltac:(nia)). nia.
Qed.

Lemma tree_hashes_flags t : zlen (tree_hashes t) <= zlen (tree_flags t).
Proof.
  induction t; cbn [tree_hashes tree_flags]; rewrite ?zlen_cons, ?zlen_app; try (unfold zlen; cbn; lia); lia.
Qed.

Section acceptance.
Context `{WalletExternals}.

(** The tree a message spells, and that it opens the root. *)
Record opens (total : Z) (hashes : list (list Z)) (flags root : list Z) (t : ptree) : Prop := {
  op_fits : exists height, tree_height total height /\ fits total height 0 t;
  op_hashes : tree_hashes t = hashes;
  op_flags : tree_flags t `prefix_of` all_flags flags;
  op_exact : (zlen (tree_flags t) + 7) / 8 = zlen flags;
  op_value : tree_value t = root;
  op_distinct : NoDup (map mt_hash (tree_matches 0 t)) }.

(** Acceptance of a partial Merkle tree is exact. The traversal accepts a total, hashes
    and flags, with some matches, if and only if they are the preorder encoding of a
    pruned tree of that total whose value is the root, with no hash, no flag byte left
    over and no transaction matched twice; the matches are the tree's, in order, at
    their leaf positions. *)
Theorem partial_tree_exact total hashes flags root matches :
  1 <= total <= MAX_FILTERED_BLOCK_TRANSACTIONS -> zlen flags <= MAX_PARTIAL_MERKLE_FLAG_BYTES ->
  check_partial_tree total hashes flags root = Ok matches <->
  exists t, opens total hashes flags root t /\ matches = tree_matches 0 t.
Proof.
  unfold MAX_PARTIAL_MERKLE_FLAG_BYTES, MAX_FILTERED_BLOCK_TRANSACTIONS.
  change (1000000 / 60) with 16666. change ((16666 * 2 + 7) / 8) with 4167. intros Ht Hfl.
  destruct (merkle_height_least MERKLE_HEIGHT_FUEL total 0) as (height & Eh & Hheight);
    [change (2 ^ _) with (2 ^ 64); lia|unfold MERKLE_HEIGHT_FUEL; lia|lia|].
  unfold check_partial_tree. rewrite Eh. rewrite (Z.min_l _ u64_max) by (unfold u64_max; lia).
  set (r0 := {| tr_bits_used := 0; tr_hashes_used := 0; tr_matches := []; tr_matched_hashes := ∅ |}).
  assert (reads flags hashes r0 (all_flags flags) hashes []) as Hr0.
  { pose proof (zlen_nonneg flags). pose proof (zlen_nonneg hashes). split; [unfold r0; cbn [tr_bits_used]; lia|done|unfold r0; cbn [tr_hashes_used]; lia|done|done|].
    intros h. unfold r0. cbn [tr_matched_hashes map]. set_solver. }
  pose proof (zlen_nonneg flags) as Hfn.
  assert (zlen (all_flags flags) = 8 * zlen flags) as Hal by (unfold zlen; rewrite all_flags_length; lia).
  split.
  - destruct (Z.ltb_spec total (zlen hashes)) as [|Hh]; [done|]. destruct (zlen flags * 8 <? zlen hashes); [done|].
    destruct (traverse _ _ _ _ _ _) as [[v r]|] eqn:Et; [|done].
    assert (zlen flags * 8 < u64_max /\ zlen hashes < u64_max) as Hsmall by (unfold u64_max; lia).
    apply (traverse_ok total flags hashes Hsmall height 0 _ _ _ _ _ _ Hr0) in Et
      as (t & fl & hl & Hfit & -> & Hf & Hhs & Hr & Hnd); [|lia|constructor].
    destruct (Z.eqb_spec ((tr_bits_used r + 7) / 8) (zlen flags)) as [Eb|]; [|done].
    destruct (Z.eqb_spec (tr_hashes_used r) (zlen hashes)) as [Eu|]; [|done].
    case_bool_decide as Er; [|done]. intros [= <-]. destruct Hr as [Hb Hfr Hu Hhr Hm _]. exists t. split; [|done].
    assert (zlen (tree_flags t) = tr_bits_used r) as Elen.
    { assert (tr_bits_used r <= 8 * zlen flags) by (Z.to_euclidean_division_equations; lia).
      apply (f_equal zlen) in Hf. rewrite zlen_app, <- Hfr in Hf. unfold flags_left, zlen in *. rewrite length_drop in Hf. lia. }
    assert (hl = []) as ->.
    { apply nil_length_inv. rewrite <- Hhr. unfold hashes_left. rewrite length_drop. unfold zlen in Eu. lia. }
    split; [by exists height|by rewrite app_nil_r in Hhs|by exists fl|by rewrite Elen|done|done].
  - intros (t & [(height' & Hh' & Hfit) Hhs [fl Hf] Hx Hv Hnd] & ->).
    rewrite (tree_height_unique _ _ _ Hh' Hheight) in Hfit. pose proof (tree_hashes_flags t) as Hhf.
    destruct (tree_hashes_bound total t height 0 Hfit) as [_ Hbound]; [lia|]. rewrite Hhs in Hbound, Hhf.
    assert (zlen (tree_flags t) <= zlen flags * 8) by (apply (f_equal zlen) in Hf; rewrite zlen_app in Hf; pose proof (zlen_nonneg fl); lia).
    rewrite (proj2 (Z.ltb_ge _ _)), (proj2 (Z.ltb_ge _ _)) by lia.
    assert (zlen flags * 8 < u64_max /\ zlen hashes < u64_max) as Hsmall by (unfold u64_max; lia).
    rewrite Hf in Hr0. rewrite <- (app_nil_r hashes), <- Hhs in Hr0 at 2.
    destruct (traverse_next total flags hashes Hsmall ltac:(unfold u32_max; lia) t height 0 r0 fl [] [] Hfit) as (r & Et & Hr);
      [lia|lia|done|done|]. rewrite Et. destruct Hr as [Hb Hfr Hu Hhr Hm _].
    assert (tr_bits_used r = zlen (tree_flags t)) as Elen.
    { apply (f_equal zlen) in Hfr. apply (f_equal zlen) in Hf. rewrite zlen_app in Hf. unfold flags_left, zlen in *.
      rewrite length_drop in Hfr. lia. }
    assert (tr_hashes_used r = zlen hashes) as Eu.
    { apply (f_equal zlen) in Hhr. unfold hashes_left, zlen in *. rewrite length_drop in Hhr. cbn in Hhr. lia. }
    rewrite Elen, Hx, Eu, !Z.eqb_refl, Hv, bool_decide_eq_true_2, Hm by done. done.
Qed.
(** ** The block's own tree *)

(** The strings hashed for one level from the one below: pairs, the last one with the
    empty hash; the levels of a block's transactions. *)
Fixpoint pair_strings (l : list (list Z)) : list (list Z) :=
  match l with
  | [] => []
  | [a] => [[1] ++ a ++ hash_empty]
  | a :: b :: rest => ([1] ++ a ++ b) :: pair_strings rest
  end.
Fixpoint level (n : nat) (block : list (list Z)) : list (list Z) :=
  match n with
  | O => map hash_leaf block
  | S n => map blake2b_256 (pair_strings (level n block))
  end.
(** The block's root is the one node of its last level. *)
Definition block_root (levels : nat) (block : list (list Z)) (root : list Z) : Prop := level levels block = [root].

Definition block_strings (levels : nat) (block : list (list Z)) : list (list Z) :=
  [] :: map (app [0]) block ++ concat (map (fun n => pair_strings (level n block)) (seq 0 levels)).
Fixpoint tree_strings (t : ptree) : list (list Z) :=
  match t with
  | Pruned _ => []
  | Matched h => [[0] ++ h]
  | Branch l r => ([1] ++ tree_value l ++ tree_value r) :: tree_strings l ++ tree_strings r
  | Single l => ([1] ++ tree_value l ++ hash_empty) :: tree_strings l
  end.

(** Two different strings of the list have one hash. *)
Definition collides (strings : list (list Z)) : Prop :=
  exists x y, x ∈ strings /\ y ∈ strings /\ x <> y /\ blake2b_256 x = blake2b_256 y.

Lemma same_hash strings x y : x ∈ strings -> y ∈ strings -> blake2b_256 x = blake2b_256 y -> x = y \/ collides strings.
Proof. intros Hx Hy E. destruct (decide (x = y)); [by left|right]. by exists x, y. Qed.

Lemma collides_mono l k : (forall x, x ∈ l -> x ∈ k) -> collides l -> collides k.
Proof. intros Hs (x & y & Hx & Hy & ?). exists x, y. split_and!; [by apply Hs|by apply Hs|tauto..]. Qed.

Lemma pair_strings_lookup k : forall l p s, (length l <= k)%nat -> pair_strings l !! p = Some s ->
  exists a, l !! (2 * p)%nat = Some a /\ s = [1] ++ a ++ default hash_empty (l !! (2 * p + 1)%nat).
Proof.
  induction k as [|k IH]; intros l p s Hk; destruct l as [|a [|b l]]; cbn [pair_strings length] in *; try lia; try done.
  - destruct p as [|p]; [|done]. intros [= <-]. by exists a.
  - destruct p as [|p]; cbn [lookup list_lookup]; [intros [= <-]; by exists a|]. intros Hp.
    apply (IH l p s) in Hp as (c & Hc & ->); [|lia]. exists c.
    replace (2 * S p)%nat with (S (S (2 * p))) by lia. replace (S (S (2 * p)) + 1)%nat with (S (S (2 * p + 1))) by lia. done.
Qed.

Context `{!ChainExternalsLaws}.

Lemma level_width n block x : x ∈ level n block -> zlen x = 32.
Proof. destruct n; cbn [level]; intros (y & -> & _)%list_elem_of_fmap; apply law_checksum_len. Qed.

(** A node of a level, as the hash of a string of the block. *)
Lemma level_leaf block p v :
  level 0 block !! p = Some v -> exists h, block !! p = Some h /\ v = hash_leaf h.
Proof. cbn [level]. rewrite list_lookup_fmap. intros (h & Hh & ->)%fmap_Some. eauto. Qed.

Lemma level_inner n block p v :
  level (S n) block !! p = Some v ->
  exists a, level n block !! (2 * p)%nat = Some a /\
    v = hash_internal a (default hash_empty (level n block !! (2 * p + 1)%nat)) /\
    [1] ++ a ++ default hash_empty (level n block !! (2 * p + 1)%nat) ∈ pair_strings (level n block).
Proof.
  cbn [level]. rewrite list_lookup_fmap. intros (s & Hs & ->)%fmap_Some. pose proof (list_elem_of_lookup_2 _ _ _ Hs) as Hin.
  apply (pair_strings_lookup (length (level n block))) in Hs as (a & Ha & ->); [|done]. by exists a.
Qed.

Lemma tree_value_width t : Forall (fun h => zlen h = 32) (tree_hashes t) -> zlen (tree_value t) = 32.
Proof. destruct t; cbn; intros Hw; [by apply Forall_inv in Hw|apply law_checksum_len..]. Qed.

(** A tree with a match is hashed from a string that is not empty. *)
Lemma matched_string t position m :
  m ∈ tree_matches position t -> exists s, s ∈ tree_strings t /\ s <> [] /\ tree_value t = blake2b_256 s.
Proof.
  destruct t; cbn [tree_matches tree_strings tree_value]; intros Hm; [by apply not_elem_of_nil in Hm|..];
    eexists; (split; [left|split; [|reflexivity]]); done.
Qed.

Lemma leaf_string n block p h : block !! p = Some h -> [0] ++ h ∈ block_strings n block.
Proof.
  intros Hh. right. apply elem_of_app. left. apply list_elem_of_fmap. exists h. split; [done|].
  by apply list_elem_of_lookup_2 in Hh.
Qed.

Lemma level_string k n block s : (k < n)%nat -> s ∈ pair_strings (level k block) -> s ∈ block_strings n block.
Proof.
  intros Hk Hs. right. apply elem_of_app. right. apply list_elem_of_In, in_concat.
  exists (pair_strings (level k block)). split; [|by apply list_elem_of_In].
  apply in_map_iff. exists k. split; [done|]. apply in_seq. lia.
Qed.

Lemma strings_below n block s : s ∈ block_strings n block -> s ∈ block_strings (S n) block.
Proof.
  unfold block_strings. rewrite seq_S, map_app, concat_app, !elem_of_cons, !elem_of_app. tauto.
Qed.

Section same_value.
Context (block strings : list (list Z)).

Definition in_block (m : MatchedTransaction) : Prop := block !! Z.to_nat (mt_index m) = Some (mt_hash m).

(** A node of the block's tree and one of the message's: leaf and leaf, inner and inner. *)
Lemma same_leaf n p h :
  [0] ++ h ∈ strings -> (forall s, s ∈ block_strings n block -> s ∈ strings) ->
  level n block !! p = Some (hash_leaf h) -> block !! p = Some h \/ collides strings.
Proof.
  intros Hh Hs Hv. destruct n as [|n].
  - apply level_leaf in Hv as (h' & Hb & E). destruct (same_hash strings ([0] ++ h) ([0] ++ h')) as [E'|]; [done| |done| |by right].
    + by apply Hs, (leaf_string _ _ p).
    + injection E' as ->. by left.
  - apply level_inner in Hv as (a & _ & E & Hin). right.
    destruct (same_hash strings ([0] ++ h) ([1] ++ a ++ default hash_empty (level n block !! (2 * p + 1)%nat))) as [E'|];
      [done| |done|by discriminate E'|done].
    by apply Hs, (level_string n); [lia|].
Qed.

Lemma same_inner n p l r :
  [1] ++ l ++ r ∈ strings -> (forall s, s ∈ block_strings n block -> s ∈ strings) -> zlen l = 32 ->
  level n block !! p = Some (hash_internal l r) ->
  (exists k, n = S k /\ level k block !! (2 * p)%nat = Some l /\
     r = default hash_empty (level k block !! (2 * p + 1)%nat)) \/ collides strings.
Proof.
  intros Hh Hs Hl Hv. destruct n as [|n].
  - apply level_leaf in Hv as (h' & Hb & E). right.
    destruct (same_hash strings ([1] ++ l ++ r) ([0] ++ h')) as [E'|]; [done| |done|by discriminate E'|done].
    by apply Hs, (leaf_string _ _ p).
  - apply level_inner in Hv as (a & Ha & E & Hin).
    destruct (same_hash strings ([1] ++ l ++ r) ([1] ++ a ++ default hash_empty (level n block !! (2 * p + 1)%nat))) as [E'|];
      [done| |done| |by right].
    { by apply Hs, (level_string n); [lia|]. }
    left. exists n. apply app_inv_head in E'. apply app_inj_1 in E' as [-> ->]; [done|].
    pose proof (level_width n block a (list_elem_of_lookup_2 _ _ _ Ha)) as Hw. unfold zlen in *. lia.
Qed.

(** Same value, same matches, unless the hash breaks. *)
Lemma matches_in_block t : forall n position,
  Forall (fun h => zlen h = 32) (tree_hashes t) ->
  (forall s, s ∈ tree_strings t -> s ∈ strings) -> (forall s, s ∈ block_strings n block -> s ∈ strings) ->
  0 <= position -> level n block !! Z.to_nat position = Some (tree_value t) ->
  Forall in_block (tree_matches position t) \/ collides strings.
Proof.
  induction t as [h|h|l IHl r IHr|l IHl]; intros n position Hw Ht Hs Hp Hv; cbn [tree_matches tree_value tree_strings tree_hashes] in *.
  - by left.
  - destruct (same_leaf n (Z.to_nat position) h) as [Hh|]; [by apply Ht; left|done|done| |by right].
    left. by repeat constructor.
  - apply Forall_app in Hw as [Hwl Hwr].
    destruct (same_inner n (Z.to_nat position) (tree_value l) (tree_value r)) as [(k & -> & Hl & Hr)|];
      [by apply Ht; left|done|by apply tree_value_width|done| |by right].
    assert (forall s, s ∈ block_strings k block -> s ∈ strings) as Hs' by (intros s Hin; by apply Hs, strings_below).
    replace (2 * Z.to_nat position)%nat with (Z.to_nat (position * 2)) in Hl by lia.
    replace (2 * Z.to_nat position + 1)%nat with (Z.to_nat (position * 2 + 1)) in Hr by lia.
    destruct (IHl k (position * 2)) as [Hml|]; [done|intros s Hin; apply Ht; right; apply elem_of_app; by left|done|lia|done| |by right].
    destruct (level k block !! Z.to_nat (position * 2 + 1)) as [b|] eqn:Eb; cbn in Hr.
    + destruct (IHr k (position * 2 + 1)) as [Hmr|];
        [done|intros s Hin; apply Ht; right; apply elem_of_app; by right|done|lia|by rewrite Hr| |by right].
      left. by apply Forall_app.
    + destruct (tree_matches (position * 2 + 1) r) as [|m ms] eqn:Em; [left; by rewrite app_nil_r|right].
      destruct (matched_string r (position * 2 + 1) m) as (s & Hin & Hne & E); [rewrite Em; left|].
      exists s, []. split_and!; [apply Ht; right; apply elem_of_app; by right|apply Hs; left|done|by rewrite <- E, Hr].
  - destruct (same_inner n (Z.to_nat position) (tree_value l) hash_empty) as [(k & -> & Hl & _)|];
      [by apply Ht; left|done|by apply tree_value_width|done| |by right].
    replace (2 * Z.to_nat position)%nat with (Z.to_nat (position * 2)) in Hl by lia.
    apply (IHl k); [done|intros s Hin; apply Ht; by right|intros s Hin; by apply Hs, strings_below|lia|done].
Qed.

End same_value.

(** ** From bytes *)

Context `{!WalletCodecLaws}.

Lemma read_hashes_width count : forall input hashes rest,
  read_hashes count input = Ok (hashes, rest) -> Forall (fun h => zlen h = 32) hashes.
Proof.
  induction count as [|count IH]; intros input hashes rest; cbn [read_hashes]; [by intros [= <- _]|].
  destruct (read_array 32 input) as [[h r]|] eqn:E; cbn [from_error]; [|done].
  destruct (read_hashes count r) as [[hs r']|] eqn:Er; [|done]. intros [= <- _]. constructor; [|by eapply IH].
  by apply law_read_array in E as [_ ?].
Qed.

(** The total, hashes and flags a message carries after its header. *)
Definition carries (input : list Z) (total : Z) (hashes : list (list Z)) (flags : list Z) : Prop :=
  exists header r0 r1 count r2 r3 r4,
    read_slice HEADER_SIZE input = Ok (header, r0) /\ read_u32_le r0 = Ok (total, r1) /\
    read_compact_usize total (text "partial Merkle hashes") r1 = Ok (count, r2) /\
    read_hashes (Z.to_nat count) r2 = Ok (hashes, r3) /\
    read_varbytes MAX_PARTIAL_MERKLE_FLAG_BYTES (text "partial Merkle flags") r3 = Ok (flags, r4).

Lemma decode_for_anchor_tree input anchor ev :
  decode_for_anchor input anchor = Ok ev ->
  wb_header ev = anchor /\ 1 <= wb_total_transactions ev <= MAX_FILTERED_BLOCK_TRANSACTIONS /\
  exists hashes flags t, carries input (wb_total_transactions ev) hashes flags /\
    opens (wb_total_transactions ev) hashes flags (wa_merkle_root anchor) t /\ wb_matches ev = tree_matches 0 t /\
    Forall (fun h => zlen h = 32) hashes.
Proof.
  unfold decode_for_anchor, decode_partial_merkle. destruct (_ <? zlen input); [done|].
  destruct (read_slice _ _) as [[hb r0]|] eqn:Es; cbn [from_error]; [|done].
  destruct (header_decode hb) as [header|]; cbn [from_error]; [|done].
  destruct (_ || _) eqn:Hb; [done|]. apply orb_false_iff in Hb as [_ Hroot%negb_false_iff%bool_decide_eq_true].
  destruct (read_u32_le r0) as [[total r1]|] eqn:Eu; cbn [from_error]; [|done]. pose proof (law_read_u32_range _ _ _ Eu) as Hr.
  destruct (Z.eqb_spec total 0); [done|]. destruct (Z.ltb_spec MAX_FILTERED_BLOCK_TRANSACTIONS total); [done|].
  destruct (read_compact_usize _ _ _) as [[count r2]|] eqn:Ec; cbn [from_error]; [|done].
  destruct (read_hashes _ _) as [[hashes r3]|] eqn:Eh; [|done]. pose proof (read_hashes_width _ _ _ _ Eh) as Hw.
  destruct (read_varbytes _ _ r3) as [[flags r4]|] eqn:Ef; cbn [from_error]; [|done].
  destruct (finish r4); cbn [from_error]; [|done].
  destruct (check_partial_tree _ _ _ _) as [matches|] eqn:Ep; [|done]. intros [= <-]. cbn. split; [done|].
  unfold in_u32 in Hr. assert (1 <= total <= MAX_FILTERED_BLOCK_TRANSACTIONS) as Ht by lia. split; [done|].
  apply partial_tree_exact in Ep as (t & Ht' & ->); [|done|by eapply law_varbytes_bound]. rewrite Hroot in Ht'.
  exists hashes, flags, t. split_and!; [by exists hb, r0, r1, count, r2, r3, r4|done..].
Qed.

(** Positions below a node: in the node's range, and ascending. *)
Lemma tree_matches_sorted total t : forall height position, fits total height position t -> 0 <= position ->
  position * 2 ^ Z.of_nat height < total ->
  Forall (fun m => position * 2 ^ Z.of_nat height <= mt_index m < (position + 1) * 2 ^ Z.of_nat height /\ mt_index m < total)
    (tree_matches position t) /\
  StronglySorted (fun m m' => mt_index m < mt_index m') (tree_matches position t).
Proof.
  induction t as [h|h|l IHl r IHr|l IHl]; intros height position Hfit Hp Hpos; cbn [tree_matches].
  - split; constructor.
  - destruct height; [|done]. split; repeat constructor; cbn [mt_index]; cbn in *; lia.
  - destruct height as [|height]; [done|]. destruct Hfit as (Hl & Hr & Hw). rewrite pow2_succ in *.
    destruct (IHl _ _ Hl ltac:(lia) ltac:(nia)) as [Fl Sl], (IHr _ _ Hr ltac:(lia) Hw) as [Fr Sr]. split.
    + apply Forall_app. split; (eapply Forall_impl; [eassumption|]; cbn beta; intros m ?; nia).
    + apply StronglySorted_app. split_and!; [|done|done]. intros m m' Hm Hm'. rewrite Forall_forall in Fl, Fr.
      specialize (Fl _ Hm). specialize (Fr _ Hm'). nia.
  - destruct height as [|height]; [done|]. destruct Hfit as (Hl & Hw). rewrite pow2_succ in *.
    destruct (IHl _ _ Hl ltac:(lia) ltac:(nia)) as [Fl Sl]. split; [|done].
    eapply Forall_impl; [exact Fl|]. cbn beta. intros m ?. nia.
Qed.

(** Distinct transactions at ascending positions. *)
Record evidence_ok (ev : WalletBlockEvidence) : Prop := {
  eo_distinct : NoDup (map mt_hash (wb_matches ev));
  eo_sorted : StronglySorted (fun m m' => mt_index m < mt_index m') (wb_matches ev);
  eo_range : Forall (fun m => 0 <= mt_index m < wb_total_transactions ev) (wb_matches ev) }.

Lemma opens_evidence_ok ev hashes flags root t :
  1 <= wb_total_transactions ev -> opens (wb_total_transactions ev) hashes flags root t ->
  wb_matches ev = tree_matches 0 t -> evidence_ok ev.
Proof.
  intros Ht [(height & Hheight & Hfit) Hhs Hf Hx Hv Hnd] Hm. 
  destruct (tree_matches_sorted _ _ _ _ Hfit) as [Hrange Hsorted]; [lia|lia|]. split; rewrite Hm; [done|done|].
  eapply Forall_impl; [exact Hrange|]. cbn beta. lia.
Qed.

Lemma decode_for_anchor_ok input anchor ev : decode_for_anchor input anchor = Ok ev -> evidence_ok ev.
Proof.
  intros Hd. destruct (decode_for_anchor_tree _ _ _ Hd) as (_ & Ht & hashes & flags & t & _ & Ho & Hm & _).
  eapply opens_evidence_ok; [lia|done|done].
Qed.

(** C19. Filtered-block evidence is about the block. If a message is accepted for a header
    anchor, its matches are distinct transactions at ascending positions below the
    total; and if the anchor's root is the root of some list of transactions, each
    match is the transaction of that list at its position, unless the strings hashed
    for the message's tree and for that block contain a collision. *)
Theorem merkle_evidence_binding input anchor ev levels block :
  decode_for_anchor input anchor = Ok ev -> block_root levels block (wa_merkle_root anchor) ->
  wb_header ev = anchor /\ evidence_ok ev /\
  exists hashes flags t, carries input (wb_total_transactions ev) hashes flags /\
    opens (wb_total_transactions ev) hashes flags (wa_merkle_root anchor) t /\
    (Forall (in_block block) (wb_matches ev) \/ collides (tree_strings t ++ block_strings levels block)).
Proof.
  intros Hd Hroot. pose proof (decode_for_anchor_ok _ _ _ Hd) as Hok.
  destruct (decode_for_anchor_tree _ _ _ Hd) as (Hh & Ht & hashes & flags & t & Hc & Ho & Hm & Hw).
  split_and!; [done|done|]. exists hashes, flags, t. split_and!; [done|done|]. rewrite Hm. destruct Ho as [_ Hhs _ _ Hv _].
  apply (matches_in_block block _ t levels 0); [by rewrite Hhs|set_solver|set_solver|lia|]. by rewrite Hv, Hroot.
Qed.

End acceptance.

(** ** A sample *)

(** Three transactions, the second of which is matched. *)
Definition sample_block : list (list Z) := [to_be 32 11; to_be 32 22; to_be 32 33].
Definition sample_tree : ptree :=
  Branch (Branch (Pruned (hash_leaf (to_be 32 11))) (Matched (to_be 32 22)))
         (Pruned (hash_internal (hash_leaf (to_be 32 33)) hash_empty)).
Definition sample_root : list Z := tree_value sample_tree.
Definition sample_message : list Z :=
  sample_root ++ put_u32_le 3 ++ [3] ++ concat (tree_hashes sample_tree) ++ put_varbytes [11].
Definition sample_anchor : WalletHeaderAnchor :=
  from_validated_header 7 {| toy_previous := zero_hash; toy_time := from_be sample_root; toy_bits := 7; toy_nonce := 5 |}.
Definition sample_evidence : WalletBlockEvidence :=
  {| wb_header := sample_anchor; wb_total_transactions := 3;
     wb_matches := [{| mt_hash := to_be 32 22; mt_index := 1 |}] |}.

Lemma sample_message_accepted : decode_for_anchor sample_message sample_anchor = Ok sample_evidence.
Proof. vm_cast_no_check (@eq_refl (result WalletEvidenceError WalletBlockEvidence) (Ok sample_evidence)). Qed.

Lemma merkle_evidence_binding_witness :
  block_root 2 sample_block (wa_merkle_root sample_anchor) /\
  decode_for_anchor sample_message sample_anchor = Ok sample_evidence /\
  evidence_ok sample_evidence.
Proof.
  assert (block_root 2 sample_block (wa_merkle_root sample_anchor)) as Hroot by (vm_compute; reflexivity).
  split; [exact Hroot|]. split; [exact sample_message_accepted|].
  exact (proj1 (proj2 (merkle_evidence_binding _ _ _ _ _ sample_message_accepted Hroot))).
Defined.

Lemma partial_tree_exact_witness :
  check_partial_tree 3 (tree_hashes sample_tree) [11] sample_root = Ok (wb_matches sample_evidence).
Proof.
  apply (partial_tree_exact 3 (tree_hashes sample_tree) [11] sample_root);
    [split; vm_compute; discriminate|vm_compute; discriminate|].
  exists sample_tree. split; [split|reflexivity].
  - exists 2%nat. split; [split; [vm_compute; discriminate|intros [|[|h]] Hh; [reflexivity|reflexivity|lia]]|].
    vm_compute. repeat split.
  - reflexivity.
  - exists [false; false; false]. reflexivity.
  - reflexivity.
  - reflexivity.
  - vm_compute. repeat constructor. intros Hin. inversion Hin.
Defined.
