(* ===== verification/WalletCollectProps.v ===== *)
(** * Light wallet: collecting and merging filtered blocks

    The collector returns, for each match in block order, the first transaction that
    arrived with its hash, and finishes exactly when there is one for every match;
    merging takes the union of several views exactly when they are consistent. *)

From Stdlib Require Import Sorted.
From stdpp Require Import sorting.
From S2P Require Import Prelude LightChain LightSnapshot WalletBloom WalletBloomProps WalletBlock WalletBlockProps.

(** ** Ascending maps *)

(** A list sorted by a key is determined by its elements. *)
Lemma sorted_ext {A} (key : A -> Z) (l l' : list A) :
  StronglySorted (fun x y => key x < key y) l -> StronglySorted (fun x y => key x < key y) l' ->
  (forall x, x ∈ l <-> x ∈ l') -> l = l'.
Proof.
  intros Hm. revert l'. induction Hm as [|x m Hm IH Hlt]; intros m' Hm' Heq.
  - destruct m' as [|y m']; [done|]. exfalso. eapply not_elem_of_nil, Heq. left.
  - destruct Hm' as [|y m' Hm' Hlt']; [exfalso; eapply not_elem_of_nil, Heq; left|].
    rewrite Forall_forall in Hlt, Hlt'.
    assert (x = y) as ->.
    { assert (x ∈ y :: m') as [?|Hx]%elem_of_cons by (apply Heq; left); [done|].
      assert (y ∈ x :: m) as [?|Hy]%elem_of_cons by (apply Heq; left); [done|].
      specialize (Hlt _ Hy). specialize (Hlt' _ Hx). lia. }
    f_equal. apply IH; [done|]. intros z. specialize (Heq z). rewrite !elem_of_cons in Heq. split; intros Hz.
    + destruct (proj1 Heq (or_intror Hz)) as [->|]; [|done]. specialize (Hlt _ Hz). lia.
    + destruct (proj2 Heq (or_intror Hz)) as [->|]; [|done]. specialize (Hlt' _ Hz). lia.
Qed.

Section btree.
Context {V : Type}.
Implicit Types (m : list (Z * V)).

Definition ascending m : Prop := StronglySorted (fun x y => x.1 < y.1) m.

Lemma btree_insert_old k v m : ascending m ->
  (forall old, (btree_insert k v m).1 = Some old <-> (k, old) ∈ m).
Proof.
  intros Hm old. induction Hm as [|[k' v'] m Hm IH Hlt]; cbn [btree_insert].
  { split; [done|]. by intros ?%not_elem_of_nil. }
  rewrite Forall_forall in Hlt. destruct (Z.ltb_spec k k') as [Hk|Hk]; cbn [fst].
  - split; [done|]. intros [E|Hin]%elem_of_cons; [injection E as -> ->; lia|]. specialize (Hlt _ Hin). cbn in Hlt. lia.
  - destruct (Z.eqb_spec k k') as [->|Hne]; cbn [fst].
    + split; [intros [= ->]; left|]. intros [E|Hin]%elem_of_cons; [by injection E as ->|]. specialize (Hlt _ Hin). cbn in Hlt. lia.
    + destruct (btree_insert k v m) as [o rest] eqn:E. cbn [fst] in *. rewrite IH, elem_of_cons. split; [by right|].
      intros [E'|]; [injection E' as -> ->; lia|done].
Qed.

Lemma btree_insert_elem k v m : ascending m ->
  forall x, x ∈ (btree_insert k v m).2 <-> x = (k, v) \/ (x ∈ m /\ x.1 <> k).
Proof.
  intros Hm x. induction Hm as [|[k' v'] m Hm IH Hlt]; cbn [btree_insert].
  { cbn [snd]. rewrite elem_of_cons. split; [intros [?|?%not_elem_of_nil]; [by left|done]|]. intros [?|[?%not_elem_of_nil _]]; [by left|done]. }
  rewrite Forall_forall in Hlt. destruct (Z.ltb_spec k k') as [Hk|Hk]; cbn [snd].
  - rewrite !elem_of_cons. split; [|tauto]. intros [?|[->|Hin]]; [by left|right; cbn; split; [by left|lia]|].
    right. split; [by right|]. specialize (Hlt _ Hin). cbn in Hlt. lia.
  - destruct (Z.eqb_spec k k') as [->|Hne]; cbn [snd].
    + rewrite !elem_of_cons. split.
      * intros [?|Hin]; [by left|]. right. split; [by right|]. specialize (Hlt _ Hin). cbn in Hlt. lia.
      * intros [?|[[->|Hin] Hx]]; [by left|done|by right].
    + destruct (btree_insert k v m) as [o rest] eqn:E. cbn [snd] in *. rewrite !elem_of_cons, IH. split.
      * intros [->|[->|[? ?]]]; [right; cbn; split; [by left|lia]|by left|right; split; [by right|done]].
      * intros [->|[[->|?] ?]]; [by right; left|by left|right; by right].
Qed.

Lemma btree_insert_ascending k v m : ascending m -> ascending (btree_insert k v m).2.
Proof.
  intros Hm. induction Hm as [|[k' v'] m Hm IH Hlt]; cbn [btree_insert]; [by repeat constructor|].
  destruct (Z.ltb_spec k k') as [Hk|Hk]; cbn [snd].
  - constructor; [by constructor|]. constructor; [done|]. eapply Forall_impl; [exact Hlt|]. cbn. lia.
  - destruct (Z.eqb_spec k k') as [->|Hne]; cbn [snd]; [by constructor|].
    pose proof (btree_insert_elem k v m Hm) as He. destruct (btree_insert k v m) as [o rest] eqn:E. cbn [snd] in *.
    constructor; [done|]. apply Forall_forall. intros x [->|[Hx _]]%He; [cbn; lia|]. rewrite Forall_forall in Hlt. by apply Hlt.
Qed.

End btree.

(** ** The collector *)

Section collector.
Context `{WalletExternals}.

Definition has_hash (h : list Z) (t : Transaction) : bool :=
  match transaction_hash t with Ok h' => bool_decide (h' = h) | Err _ => false end.
(** The first transaction of a hash to arrive. *)
Definition first_with (h : list Z) (arrived : list Transaction) : option Transaction := List.find (has_hash h) arrived.

(** Transactions admitted in turn, whatever each answer. *)
Definition admit_all (c : FilteredBlockCollector) (arrived : list Transaction) : FilteredBlockCollector :=
  fold_left (fun c t => fst (admit_transaction c t)) arrived c.

Lemma has_hash_true h t : has_hash h t = true <-> transaction_hash t = Ok h.
Proof.
  unfold has_hash. destruct (transaction_hash t) as [h'|]; [|done]. rewrite bool_decide_eq_true. split; [by intros ->|by intros [= ->]].
Qed.

Lemma first_with_snoc h arrived t :
  first_with h (arrived ++ [t]) =
  match first_with h arrived with Some u => Some u | None => if has_hash h t then Some t else None end.
Proof.
  unfold first_with. induction arrived as [|u l IH]; cbn; [done|]. by destruct (has_hash h u).
Qed.

Lemma same_position ev m m' :
  evidence_ok ev -> m ∈ wb_matches ev -> m' ∈ wb_matches ev -> mt_index m = mt_index m' -> m = m'.
Proof.
  intros [_ Hs _]. induction Hs as [|x l Hs IH Hlt]; [by intros ?%not_elem_of_nil|]. rewrite Forall_forall in Hlt.
  intros [->|Hm]%elem_of_cons [->|Hm']%elem_of_cons E; [done|specialize (Hlt _ Hm'); lia|specialize (Hlt _ Hm); lia|by apply IH].
Qed.

Lemma same_hash_match ev m m' :
  evidence_ok ev -> m ∈ wb_matches ev -> m' ∈ wb_matches ev -> mt_hash m = mt_hash m' -> m = m'.
Proof.
  intros [Hn _ _] Hm Hm' E. apply list_elem_of_lookup in Hm as [i Hi], Hm' as [j Hj].
  assert (i = j) as ->; [|congruence].
  eapply (NoDup_lookup (map mt_hash (wb_matches ev))); [done|rewrite list_lookup_fmap, Hi; done|rewrite list_lookup_fmap, Hj; cbn; by rewrite E].
Qed.

(** The collector after some arrivals. *)
Record collecting (ev : WalletBlockEvidence) (arrived : list Transaction) (c : FilteredBlockCollector) : Prop := {
  cl_evidence : fc_evidence c = ev;
  cl_pending : forall h i, fc_pending c !! h = Some i <->
    {| mt_hash := h; mt_index := i |} ∈ wb_matches ev /\ first_with h arrived = None;
  cl_ascending : ascending (fc_transactions c);
  cl_transactions : forall i t, (i, t) ∈ fc_transactions c <->
    exists h, {| mt_hash := h; mt_index := i |} ∈ wb_matches ev /\ first_with h arrived = Some t }.

Lemma collect_pending_ok matches : forall pending,
  NoDup (map mt_hash matches) -> (forall m, m ∈ matches -> pending !! mt_hash m = None) ->
  exists pending', collect_pending pending matches = Ok pending' /\
    forall h i, pending' !! h = Some i <-> pending !! h = Some i \/ {| mt_hash := h; mt_index := i |} ∈ matches.
Proof.
  induction matches as [|m matches IH]; intros pending Hnd Hfresh; cbn [collect_pending].
  { exists pending. split; [done|]. intros h i. split; [by left|]. intros [?|?%not_elem_of_nil]; done. }
  cbn in Hnd. apply NoDup_cons in Hnd as [Hm Hnd]. rewrite Hfresh by left.
  destruct (IH (<[mt_hash m := mt_index m]> pending) Hnd) as (pending' & -> & Hp).
  { intros m' Hm'. rewrite lookup_insert_ne; [apply Hfresh; by right|]. intros E. apply Hm. rewrite E. by apply list_elem_of_fmap_2. }
  exists pending'. split; [done|]. intros h i. rewrite Hp, elem_of_cons. split.
  - intros [[[<- <-]|[_ ?]]%lookup_insert_Some|?]; [right; left; by destruct m|by left|by right; right].
  - intros [Hh|[<-|?]]; [left|left; apply lookup_insert_eq|by right].
    rewrite lookup_insert_ne; [done|]. intros E. rewrite <- E, Hfresh in Hh by left. done.
Qed.

Lemma collector_new_ok ev : evidence_ok ev -> exists c, collector_new ev = Ok c /\ collecting ev [] c.
Proof.
  intros [Hn _ _]. unfold collector_new. destruct (collect_pending_ok (wb_matches ev) ∅ Hn) as (p & -> & Hp).
  { intros. apply lookup_empty. }
  eexists. split; [done|]. split; cbn; [done| |constructor|].
  - intros h i. rewrite Hp, lookup_empty. naive_solver.
  - intros i t. split; [by intros ?%not_elem_of_nil|naive_solver].
Qed.

Lemma collecting_same ev arrived arrived' c :
  collecting ev arrived c -> (forall m, m ∈ wb_matches ev -> first_with (mt_hash m) arrived' = first_with (mt_hash m) arrived) ->
  collecting ev arrived' c.
Proof.
  intros [He Hp Ha Ht] Hall.
  assert (forall h i, {| mt_hash := h; mt_index := i |} ∈ wb_matches ev -> first_with h arrived' = first_with h arrived) as Hsame
    by (intros h i Hm; apply (Hall _ Hm)).
  split; [done| |done|].
  - intros h i. rewrite Hp. split; intros [Hm Hf]; (split; [done|]); pose proof (Hsame _ _ Hm); congruence.
  - intros i t. rewrite Ht. split; intros (h & Hm & Hf); exists h; (split; [done|]); pose proof (Hsame _ _ Hm); congruence.
Qed.

Lemma admit_collecting ev arrived c t :
  evidence_ok ev -> collecting ev arrived c ->
  collecting ev (arrived ++ [t]) (fst (admit_transaction c t)) /\
  ((exists n, snd (admit_transaction c t) = Ok n) <->
   exists m, m ∈ wb_matches ev /\ transaction_hash t = Ok (mt_hash m) /\ first_with (mt_hash m) arrived = None).
Proof.
  intros Hok Hc. pose proof Hc as [He Hp Ha Ht]. unfold admit_transaction.
  destruct (transaction_hash t) as [h|e] eqn:Eh.
  2: { cbn [fst snd]. split; [|split; [by intros []|by intros (? & _ & ? & _)]]. apply (collecting_same _ _ _ _ Hc).
       intros m _. rewrite first_with_snoc. destruct (first_with _ _); [done|]. destruct (has_hash (mt_hash m) t) eqn:E; [|done].
       apply has_hash_true in E. congruence. }
  destruct (fc_pending c !! h) as [i|] eqn:Ep.
  - apply Hp in Ep as Hm. destruct Hm as [Hm Hf].
    pose proof (btree_insert_old i t _ Ha) as Hold. pose proof (btree_insert_elem i t _ Ha) as Helem.
    pose proof (btree_insert_ascending i t _ Ha) as Hasc. destruct (btree_insert i t (fc_transactions c)) as [old ts].
    cbn [fst snd] in *.
    assert (forall h', {| mt_hash := h'; mt_index := i |} ∈ wb_matches ev -> h' = h) as Hpos.
    { intros h' Hin. pose proof (same_position ev _ _ Hok Hin Hm eq_refl). congruence. }
    assert (old = None) as ->.
    { destruct old as [u|]; [|done].
      destruct (proj1 (Ht i u) (proj1 (Hold u) eq_refl)) as (h' & Hin & Hu). rewrite (Hpos _ Hin) in Hu. congruence. }
    assert (forall h', first_with h' (arrived ++ [t]) =
      if decide (h' = h) then Some t else first_with h' arrived) as Hsnoc.
    { intros h'. rewrite first_with_snoc. case_decide as Hd.
      - rewrite Hd, Hf. by rewrite (proj2 (has_hash_true h t) Eh).
      - destruct (first_with h' arrived); [done|]. destruct (has_hash h' t) eqn:E; [|done]. apply has_hash_true in E. congruence. }
    split; [split; cbn; [done| |done|]|].
    + intros h' j. rewrite Hsnoc. split.
      * intros [Hne Hl]%lookup_delete_Some. rewrite decide_False by done. by apply Hp.
      * case_decide as Hd; [by intros []|]. intros Hin. rewrite lookup_delete_ne by done. by apply Hp.
    + intros j u. rewrite Helem, Ht. split.
      * intros [[= -> ->]|[(h' & Hin & Hu) Hj]]; [exists h; by rewrite Hsnoc, decide_True|]. exists h'. split; [done|].
        rewrite Hsnoc. case_decide as Hd; [|done]. subst h'. by rewrite Hf in Hu.
      * intros (h' & Hin & Hu). rewrite Hsnoc in Hu. case_decide as Hd.
        -- subst h'. injection Hu as ->. left. pose proof (same_hash_match ev _ _ Hok Hin Hm eq_refl). congruence.
        -- right. split; [by exists h'|]. cbn. intros ->. by apply Hd, Hpos.
    + split; [intros _; by exists {| mt_hash := h; mt_index := i |}|intros _; eauto].
  - cbn [fst snd]. split.
    + apply (collecting_same _ _ _ _ Hc). intros [h' j] Hm. cbn [mt_hash]. rewrite first_with_snoc.
      destruct (first_with h' arrived) eqn:Ef; [done|]. destruct (has_hash h' t) eqn:E; [|done]. apply has_hash_true in E.
      assert (h' = h) as -> by congruence. pose proof (proj2 (Hp h j) (conj Hm Ef)). congruence.
    + split; [by intros []|]. intros ([h' j] & Hm & E & Hf). cbn in *. injection E as ->.
      pose proof (proj2 (Hp h' j) (conj Hm Hf)). congruence.
Qed.

Lemma admit_all_collecting ev arrived c0 :
  evidence_ok ev -> collecting ev [] c0 -> collecting ev arrived (admit_all c0 arrived).
Proof.
  intros Hok Hc. induction arrived as [|t arrived IH] using rev_ind; [done|].
  unfold admit_all in *. rewrite fold_left_app. cbn [fold_left]. by apply admit_collecting.
Qed.

(** What is collected, in block order. *)
Lemma collected_order ev arrived c :
  evidence_ok ev -> collecting ev arrived c ->
  fc_transactions c = omap (fun m => (fun t => (mt_index m, t)) <$> first_with (mt_hash m) arrived) (wb_matches ev).
Proof.
  intros [_ Hs _] [_ _ Ha Ht]. apply (sorted_ext fst); [done| |].
  - unfold ascending. clear -Hs. induction Hs as [|m l Hs IH Hlt]; cbn; [constructor|].
    destruct (first_with (mt_hash m) arrived) as [t|]; cbn; [|done]. constructor; [done|]. apply Forall_forall.
    intros x (m' & Hm' & (u & _ & ->)%fmap_Some)%list_elem_of_omap. rewrite Forall_forall in Hlt. by apply Hlt.
  - intros [i t]. rewrite Ht, list_elem_of_omap. split.
    + intros (h & Hm & Hf). exists {| mt_hash := h; mt_index := i |}. cbn. by rewrite Hf.
    + intros ([h j] & Hm & (u & Hf & E)%fmap_Some). cbn in *. injection E as -> ->. eauto.
Qed.

Context `{!ChainExternalsLaws, !WalletCodecLaws}.

(** The collector correlates exactly. After any transactions arrived, in any order and
    with any errors on the way, a transaction is admitted exactly if its hash was
    matched and none with it arrived before; and the collector finishes exactly if
    every match arrived, with, for each match in block order, the first transaction
    that came with its hash. *)
Theorem collector_exact input anchor ev c0 arrived :
  decode_for_anchor input anchor = Ok ev -> collector_new ev = Ok c0 ->
  (forall t, (exists n, snd (admit_transaction (admit_all c0 arrived) t) = Ok n) <->
     exists m, m ∈ wb_matches ev /\ transaction_hash t = Ok (mt_hash m) /\ first_with (mt_hash m) arrived = None) /\
  (forall vb, collector_finish (admit_all c0 arrived) = Ok vb <->
     vw_evidence vb = ev /\
     map Some (vw_transactions vb) = map (fun m => first_with (mt_hash m) arrived) (wb_matches ev)).
Proof.
  intros Hd Hn. pose proof (decode_for_anchor_ok _ _ _ Hd) as Hok.
  destruct (collector_new_ok ev Hok) as (c & E & Hc). rewrite Hn in E. injection E as <-.
  pose proof (admit_all_collecting ev arrived c0 Hok Hc) as Hall. split.
  { intros t. by apply admit_collecting. }
  pose proof (collected_order ev arrived _ Hok Hall) as Horder. destruct Hall as [He Hp _ _]. intros vb.
  unfold collector_finish. rewrite Horder, He.
  assert (fc_pending (admit_all c0 arrived) = ∅ <->
    Forall (fun m => is_Some (first_with (mt_hash m) arrived)) (wb_matches ev)) as Hempty.
  { rewrite map_empty, Forall_forall. split.
    - intros Hnone [h i] Hm. cbn. destruct (first_with h arrived) eqn:Ef; [eauto|].
      pose proof (proj2 (Hp h i) (conj Hm Ef)). by rewrite Hnone in *.
    - intros Hsome h. destruct (fc_pending _ !! h) as [i|] eqn:E; [|done]. apply Hp in E as [Hm Hf].
      destruct (Hsome _ Hm) as [t Ht]. cbn in Ht. congruence. }
  case_bool_decide as Hb; cbn [negb].
  - apply Hempty in Hb.
    assert (map Some (map snd (omap (fun m => (fun t => (mt_index m, t)) <$> first_with (mt_hash m) arrived) (wb_matches ev)))
      = map (fun m => first_with (mt_hash m) arrived) (wb_matches ev)) as Hmap.
    { clear -Hb. induction Hb as [|m l [t Ht] _ IH]; [done|]. cbn. rewrite Ht. cbn. f_equal. exact IH. }
    split; [by intros [= <-]|]. intros [Hev Htx]. destruct vb as [e ts]. cbn in *. subst e. do 2 f_equal.
    rewrite <- Hmap in Htx. by apply (inj (map Some)) in Htx.
  - split; [done|]. intros [_ Htx]. exfalso. apply Hb, Hempty. apply Forall_forall. intros m Hm.
    assert (first_with (mt_hash m) arrived ∈ map (fun m => first_with (mt_hash m) arrived) (wb_matches ev)) as Hin
      by (by apply (list_elem_of_fmap_2 (fun m => first_with (mt_hash m) arrived))).
    rewrite <- Htx in Hin. apply list_elem_of_fmap in Hin as (t & -> & _). eauto.
Qed.

End collector.

(** The match of the sample block, after a transaction no one asked for. *)
Definition sample_collector : FilteredBlockCollector :=
  {| fc_evidence := sample_evidence; fc_pending := {[to_be 32 22 := 1]}; fc_transactions := [] |}.

Lemma collector_exact_witness :
  collector_new sample_evidence = Ok sample_collector /\
  collector_finish (admit_all sample_collector [[33]; [22]; [0; 22]]) =
    Ok {| vw_evidence := sample_evidence; vw_transactions := [[22]] |}.
Proof.
  assert (collector_new sample_evidence = Ok sample_collector) as Hn by reflexivity.
  split; [exact Hn|].
  destruct (collector_exact sample_message sample_anchor sample_evidence sample_collector [[33]; [22]; [0; 22]]
              sample_message_accepted Hn) as [_ Hf].
  apply Hf. split; [reflexivity|]. vm_compute. reflexivity.
Defined.
