(* ===== verification/WalletMergeProps.v ===== *)
(** * Light wallet: merging views of one block

    Merging succeeds exactly when every view correlates its matches with its
    transactions, all are of one anchor and total, and no two disagree on a position,
    a hash or a transaction; the result is then the union, in block order. *)

From Stdlib Require Import Sorted.
From stdpp Require Import sorting.
From S2P Require Import Prelude LightChain LightSnapshot WalletBloom WalletBloomProps WalletBlock WalletBlockProps WalletCollectProps.

Section merge.
Context `{WalletExternals}.

(** A match with its transaction. *)
Notation pair := (MatchedTransaction * Transaction)%type.
Implicit Types (P Q R : list pair) (x y : pair).

Definition pair_hash (x : pair) : list Z := mt_hash x.1.
Definition pair_index (x : pair) : Z := mt_index x.1.

(** A view whose transactions are those of its matches. *)
Record correlated (v : VerifiedWalletBlock) P : Prop := {
  co_matches : map fst P = wb_matches (vw_evidence v);
  co_transactions : map snd P ≡ₚ vw_transactions v;
  co_hashes : Forall (fun x => transaction_hash x.2 = Ok (pair_hash x)) P;
  co_distinct : NoDup (map pair_hash P) }.

(** No two claims conflict. *)
Definition agree x y : Prop :=
  (pair_hash x = pair_hash y -> x = y) /\ (pair_index x = pair_index y -> pair_hash x = pair_hash y).
Definition consistent R : Prop := forall x y, x ∈ R -> y ∈ R -> agree x y.

Lemma agree_sym x y : agree x y -> agree y x.
Proof. intros [H1 H2]. split; intros E; symmetry; auto. Qed.

Lemma consistent_snoc R x : consistent (R ++ [x]) <-> consistent R /\ forall y, y ∈ R -> agree y x.
Proof.
  unfold consistent. setoid_rewrite elem_of_app. setoid_rewrite list_elem_of_singleton. split.
  - intros Hc. split; intros; apply Hc; auto.
  - intros [Hc Hx] y z [Hy| ->] [Hz| ->]; [by apply Hc|by apply Hx|by apply agree_sym, Hx|by split].
Qed.

Lemma consistent_prefix R R' : consistent (R ++ R') -> consistent R.
Proof. intros Hc x y Hx Hy. apply Hc; apply elem_of_app; by left. Qed.

(** ** The union so far *)

Record merged R (s : MergeState) : Prop := {
  mg_consistent : consistent R;
  mg_ascending : ascending (ms_matches s);
  mg_matches : forall i m, (i, m) ∈ ms_matches s <-> exists y, y ∈ R /\ y.1 = m /\ pair_index y = i;
  mg_positions : forall h i, ms_positions s !! h = Some i <-> exists y, y ∈ R /\ pair_hash y = h /\ pair_index y = i;
  mg_transactions : forall h t, ms_transactions s !! h = Some t <-> exists y, y ∈ R /\ pair_hash y = h /\ y.2 = t }.

Lemma merged_empty : merged [] {| ms_matches := []; ms_positions := ∅; ms_transactions := ∅ |}.
Proof.
  split; cbn; [by intros x y ?%not_elem_of_nil|constructor|..].
  - intros i m. split; [by intros ?%not_elem_of_nil|by intros (y & ?%not_elem_of_nil & _)].
  - intros h i. rewrite lookup_empty. split; [done|by intros (y & ?%not_elem_of_nil & _)].
  - intros h t. rewrite lookup_empty. split; [done|by intros (y & ?%not_elem_of_nil & _)].
Qed.

(** The three conflict tests are agreement with what is there. *)
Lemma conflict_iff R s m t :
  merged R s ->
  match ms_positions s !! mt_hash m with Some position => negb (position =? mt_index m) | None => false end
  || match (btree_insert (mt_index m) m (ms_matches s)).1 with
     | Some existing => negb (bool_decide (mt_hash existing = mt_hash m)) | None => false end
  || match ms_transactions s !! mt_hash m with Some existing => negb (bool_decide (existing = t)) | None => false end = false
  <-> forall y, y ∈ R -> agree y (m, t).
Proof.
  intros [Hc Ha Hm Hp Ht]. pose proof (btree_insert_old (mt_index m) m _ Ha) as Hold.
  rewrite !orb_false_iff. split.
  - intros [[H1 H2] H3] y Hy. unfold agree, pair_hash, pair_index in *. cbn [fst snd]. split; intros E.
    + assert (ms_positions s !! mt_hash m = Some (mt_index y.1)) as Ep by (apply Hp; by exists y).
      assert (ms_transactions s !! mt_hash m = Some y.2) as Et by (apply Ht; by exists y).
      rewrite Ep in H1. rewrite Et in H3. apply negb_false_iff, Z.eqb_eq in H1. apply negb_false_iff, bool_decide_eq_true in H3.
      destruct y as [[h i] u], m as [h' i']. cbn in *. congruence.
    + assert ((btree_insert (mt_index m) m (ms_matches s)).1 = Some y.1) as Eo by (apply Hold, Hm; by exists y).
      rewrite Eo in H2. by apply negb_false_iff, bool_decide_eq_true in H2.
  - intros Hall. split_and!.
    + destruct (ms_positions s !! mt_hash m) as [p|] eqn:Ep; [|done]. apply Hp in Ep as (y & Hy & Eh & <-).
      destruct (Hall y Hy) as [Hsame _]. rewrite (Hsame Eh). by apply negb_false_iff, Z.eqb_eq.
    + destruct (btree_insert _ _ _).1 as [e|]; [|done]. destruct (proj1 (Hm _ _) (proj1 (Hold e) eq_refl)) as (y & Hy & <- & Ei).
      destruct (Hall y Hy) as [_ Hi]. by apply negb_false_iff, bool_decide_eq_true, Hi.
    + destruct (ms_transactions s !! mt_hash m) as [u|] eqn:Et; [|done]. apply Ht in Et as (y & Hy & Eh & <-).
      destruct (Hall y Hy) as [Hsame _]. by apply negb_false_iff, bool_decide_eq_true; rewrite (Hsame Eh).
Qed.

Lemma merge_match_merged R s m t :
  merged R s -> (forall y, y ∈ R -> agree y (m, t)) ->
  merged (R ++ [(m, t)])
    {| ms_matches := (btree_insert (mt_index m) m (ms_matches s)).2; ms_positions := <[mt_hash m := mt_index m]> (ms_positions s);
       ms_transactions := <[mt_hash m := t]> (ms_transactions s) |}.
Proof.
  intros [Hc Ha Hm Hp Ht] Hall. 
  assert (forall y, y ∈ R ++ [(m, t)] <-> y ∈ R \/ y = (m, t)) as Hin by (intros y; by rewrite elem_of_app, list_elem_of_singleton).
  split; cbn [ms_matches ms_positions ms_transactions].
  - by apply consistent_snoc.
  - by apply btree_insert_ascending.
  - intros i m'. rewrite (btree_insert_elem _ _ _ Ha), Hm. setoid_rewrite Hin. cbn [fst]. split.
    + intros [[= -> ->]|[(y & Hy & E) _]]; [by exists (m, t); auto|by exists y; auto].
    + intros (y & [Hy| ->] & <- & <-); [|by left]. destruct (decide (pair_index y = mt_index m)) as [E|]; [left|right; eauto].
      destruct (Hall y Hy) as [H1 H2]. by rewrite (H1 (H2 E)).
  - intros h i. setoid_rewrite Hin. destruct (decide (mt_hash m = h)) as [<-|Hne].
    + rewrite lookup_insert_eq. split; [intros [= <-]; exists (m, t); auto|].
      intros (y & [Hy| ->] & E & <-); [|done]. destruct (Hall y Hy) as [H1 _]. by rewrite (H1 E).
    + rewrite lookup_insert_ne, Hp by done. split; [intros (y & Hy & E); exists y; auto|].
      intros (y & [Hy| ->] & E & E'); [by exists y|done].
  - intros h u. setoid_rewrite Hin. destruct (decide (mt_hash m = h)) as [<-|Hne].
    + rewrite lookup_insert_eq. split; [intros [= <-]; exists (m, t); auto|].
      intros (y & [Hy| ->] & E & <-); [|done]. destruct (Hall y Hy) as [H1 _]. by rewrite (H1 E).
    + rewrite lookup_insert_ne, Ht by done. split; [intros (y & Hy & E); exists y; auto|].
      intros (y & [Hy| ->] & E & E'); [by exists y|done].
Qed.
(** ** One view *)

(** Matches read off the transactions found: what is left of them. *)
Record read_off (F : gmap (list Z) Transaction) P (F' : gmap (list Z) Transaction) : Prop := {
  rf_found : Forall (fun x => F !! pair_hash x = Some x.2) P;
  rf_distinct : NoDup (map pair_hash P);
  rf_left : forall h, F' !! h = if decide (h ∈ map pair_hash P) then None else F !! h }.

Lemma read_off_nil F : read_off F [] F.
Proof. split; [constructor|constructor|]. intros h. by rewrite decide_False by apply not_elem_of_nil. Qed.

Lemma read_off_cons F m t P F' :
  read_off F ((m, t) :: P) F' <-> F !! mt_hash m = Some t /\ read_off (delete (mt_hash m) F) P F'.
Proof.
  split.
  - intros [Hf Hd Hl]. apply Forall_cons in Hf as [Hm Hf]. cbn in Hd. apply NoDup_cons in Hd as [Hn Hd]. cbn in Hm.
    split; [done|]. split; [|done|].
    + apply Forall_forall. intros x Hx. rewrite Forall_forall in Hf. rewrite lookup_delete_ne; [by apply Hf|].
      intros E. apply Hn. unfold pair_hash at 1. cbn. rewrite E. by apply list_elem_of_fmap_2.
    + intros h. rewrite Hl. cbn [map]. destruct (decide (h ∈ map pair_hash P)) as [Hh|Hh].
      * by rewrite decide_True by (by right).
      * destruct (decide (h = mt_hash m)) as [->|Hne].
        -- by rewrite decide_True, lookup_delete_eq by left.
        -- rewrite decide_False, lookup_delete_ne; [done|done|]. by intros [?|?]%elem_of_cons.
  - intros [Hm [Hf Hd Hl]].
    assert (mt_hash m ∉ map pair_hash P) as Hn.
    { intros (x & E & Hx)%list_elem_of_fmap. rewrite Forall_forall in Hf. specialize (Hf x Hx). by rewrite <- E, lookup_delete_eq in Hf. }
    split.
    + constructor; [done|]. eapply Forall_impl; [exact Hf|]. intros x Hx. by apply lookup_delete_Some in Hx as [_ ?].
    + by constructor.
    + intros h. rewrite Hl. cbn [map]. destruct (decide (h ∈ map pair_hash P)) as [Hh|Hh].
      * by rewrite decide_True by (by right).
      * destruct (decide (h = mt_hash m)) as [->|Hne].
        -- by rewrite decide_True, lookup_delete_eq by left.
        -- rewrite decide_False, lookup_delete_ne; [done|done|]. by intros [?|?]%elem_of_cons.
Qed.

Lemma merge_match_ok R F s m F' s' :
  merged R s -> merge_match F s m = Ok (F', s') ->
  exists t, F !! mt_hash m = Some t /\ F' = delete (mt_hash m) F /\ merged (R ++ [(m, t)]) s'.
Proof.
  intros Hs. unfold merge_match. destruct (F !! mt_hash m) as [t|]; cbn [ok_or]; [|done].
  pose proof (conflict_iff R s m t Hs) as Hiff. pose proof (merge_match_merged R s m t Hs) as Hnext.
  destruct (btree_insert _ _ _) as [old ms]. cbn [fst snd] in *.
  destruct (_ || _) eqn:E; [done|]. intros [= <- <-]. exists t. split_and!; [done|done|]. by apply Hnext, Hiff.
Qed.

Lemma merge_match_next R F s m t :
  merged R s -> F !! mt_hash m = Some t -> consistent (R ++ [(m, t)]) ->
  exists s', merge_match F s m = Ok (delete (mt_hash m) F, s') /\ merged (R ++ [(m, t)]) s'.
Proof.
  intros Hs Hf [_ Hc]%consistent_snoc. unfold merge_match. rewrite Hf. cbn [ok_or].
  pose proof (conflict_iff R s m t Hs) as Hiff. pose proof (merge_match_merged R s m t Hs) as Hnext.
  destruct (btree_insert _ _ _) as [old ms]. cbn [fst snd] in *. rewrite (proj2 Hiff Hc). eexists. split; [done|]. by apply Hnext.
Qed.

Lemma merge_matches_ok matches : forall R F s F' s',
  merged R s -> merge_matches F s matches = Ok (F', s') ->
  exists P, map fst P = matches /\ read_off F P F' /\ merged (R ++ P) s'.
Proof.
  induction matches as [|m matches IH]; intros R F s F' s' Hs; cbn [merge_matches].
  { intros [= <- <-]. exists []. rewrite app_nil_r. split_and!; [done|apply read_off_nil|done]. }
  destruct (merge_match F s m) as [[F1 s1]|] eqn:E; [|done].
  destruct (merge_match_ok _ _ _ _ _ _ Hs E) as (t & Hf & -> & Hs1). intros Hrest.
  destruct (IH _ _ _ _ _ Hs1 Hrest) as (P & <- & Hr & Hm). exists ((m, t) :: P).
  split_and!; [done|by apply read_off_cons|]. by rewrite <- app_assoc in Hm.
Qed.

Lemma merge_matches_next P : forall R F s F',
  merged R s -> read_off F P F' -> consistent (R ++ P) ->
  exists F2 s', merge_matches F s (map fst P) = Ok (F2, s') /\ (forall h, F2 !! h = F' !! h) /\ merged (R ++ P) s'.
Proof.
  induction P as [|[m t] P IH]; intros R F s F' Hs Hr Hc; cbn [map merge_matches fst].
  { exists F, s. rewrite app_nil_r. split_and!; [done| |done]. intros h. destruct Hr as [_ _ Hl]. rewrite Hl.
    by rewrite decide_False by apply not_elem_of_nil. }
  apply read_off_cons in Hr as [Hf Hr]. replace (R ++ (m, t) :: P) with ((R ++ [(m, t)]) ++ P) in * by (by rewrite <- app_assoc).
  destruct (merge_match_next R F s m t Hs Hf) as (s1 & -> & Hs1); [by eapply consistent_prefix|].
  by apply IH.
Qed.

(** The transactions of a view by hash. *)
Lemma view_transactions_ok ts : forall found F,
  view_transactions found ts = Ok F ->
  exists hs, Forall2 (fun t h => transaction_hash t = Ok h) ts hs /\ NoDup hs /\ Forall (fun h => found !! h = None) hs /\
    forall h t, F !! h = Some t <-> found !! h = Some t \/ (t ∈ ts /\ transaction_hash t = Ok h).
Proof.
  induction ts as [|t ts IH]; intros found F; cbn [view_transactions].
  { intros [= <-]. exists []. split_and!; [constructor|constructor|constructor|]. intros h t. split; [by left|].
    intros [?|[?%not_elem_of_nil _]]; done. }
  destruct (transaction_hash t) as [h|] eqn:Eh; cbn [from_error]; [|done]. destruct (found !! h) eqn:Ef; [done|].
  intros Hv. destruct (IH _ _ Hv) as (hs & Hts & Hnd & Hfresh & HF). rewrite Forall_forall in Hfresh.
  exists (h :: hs). split_and!; [by constructor| |constructor; [done|]|].
  - constructor; [|done]. intros Hin. specialize (Hfresh h Hin). by rewrite lookup_insert_eq in Hfresh.
  - apply Forall_forall. intros h' Hin. specialize (Hfresh h' Hin). by apply lookup_insert_None in Hfresh as [? _].
  - intros h' u. rewrite HF, elem_of_cons. split.
    + intros [[[<- <-]|[_ ?]]%lookup_insert_Some|[? ?]]; [right; auto|by left|right; auto].
    + intros [Hu|[[->|Hu] E]].
      * left. rewrite lookup_insert_ne; [done|]. intros <-. by rewrite Ef in Hu.
      * left. assert (h' = h) as -> by congruence. apply lookup_insert_eq.
      * right. auto.
Qed.

Lemma view_transactions_next ts hs : forall found,
  Forall2 (fun t h => transaction_hash t = Ok h) ts hs -> NoDup hs -> Forall (fun h => found !! h = None) hs ->
  exists F, view_transactions found ts = Ok F.
Proof.
  intros found Hts. revert found. induction Hts as [|t h ts hs Eh Hts IH]; intros found Hnd Hfresh; cbn [view_transactions]; [eauto|].
  apply NoDup_cons in Hnd as [Hn Hnd]. apply Forall_cons in Hfresh as [Hh Hfresh]. rewrite Eh. cbn [from_error]. rewrite Hh.
  apply IH; [done|]. apply Forall_forall. intros h' Hin. rewrite lookup_insert_ne by (by intros <-).
  rewrite Forall_forall in Hfresh. by apply Hfresh.
Qed.
Lemma hashes_distinct ts hs : Forall2 (fun t h => transaction_hash t = Ok h) ts hs -> NoDup hs -> NoDup ts.
Proof.
  induction 1 as [|t h ts hs Eh Hts IH]; intros Hnd; [constructor|]. apply NoDup_cons in Hnd as [Hn Hnd]. constructor; [|by apply IH].
  intros [i Hi]%list_elem_of_lookup. destruct (Forall2_lookup_l _ _ _ _ _ Hts Hi) as (h' & Hh' & E). apply Hn.
  assert (h' = h) as -> by congruence. by eapply list_elem_of_lookup_2.
Qed.

(** A pair found in a view is determined by its transaction. *)
Lemma correlated_transactions F P F' ts hs :
  Forall2 (fun t h => transaction_hash t = Ok h) ts hs -> NoDup hs ->
  (forall h t, F !! h = Some t <-> t ∈ ts /\ transaction_hash t = Ok h) -> read_off F P F' -> F' = ∅ ->
  map snd P ≡ₚ ts /\ Forall (fun x => transaction_hash x.2 = Ok (pair_hash x)) P.
Proof.
  intros Hts Hnd HF [Hf Hd Hl] ->.
  assert (Forall (fun x => transaction_hash x.2 = Ok (pair_hash x)) P) as Hh.
  { eapply Forall_impl; [exact Hf|]. intros x Hx. by apply HF in Hx as [_ ?]. }
  split; [|done]. rewrite Forall_forall in Hf, Hh. apply NoDup_Permutation.
  - clear -Hd Hh. induction P as [|x P IH]; [constructor|]. cbn in *. apply NoDup_cons in Hd as [Hn Hd]. constructor.
    + intros (y & E & Hy)%list_elem_of_fmap. apply Hn. 
      pose proof (Hh x ltac:(left)) as H1. pose proof (Hh y ltac:(by right)) as H2. 
      assert (pair_hash x = pair_hash y) as -> by congruence. by apply list_elem_of_fmap_2.
    + apply IH; [done|]. intros y Hy. apply Hh. by right.
  - by eapply hashes_distinct.
  - intros t. split.
    + intros (x & -> & Hx)%list_elem_of_fmap. by apply (proj1 (HF _ _) (Hf x Hx)).
    + intros Ht. pose proof Ht as [i Hi]%list_elem_of_lookup. destruct (Forall2_lookup_l _ _ _ _ _ Hts Hi) as (h & _ & E).
      pose proof (proj2 (HF h t) (conj Ht E)) as Hfound. specialize (Hl h). rewrite lookup_empty in Hl.
      case_decide as Hin; [|congruence]. apply list_elem_of_fmap in Hin as (x & -> & Hx). rewrite (Hf x Hx) in Hfound.
      injection Hfound as <-. by apply list_elem_of_fmap_2.
Qed.

Definition same_anchor (header : WalletHeaderAnchor) (total : Z) (v : VerifiedWalletBlock) : Prop :=
  wb_header (vw_evidence v) = header /\ wb_total_transactions (vw_evidence v) = total.

Lemma merge_view_ok R s header total v s' :
  merged R s -> merge_view header total s v = Ok s' ->
  same_anchor header total v /\ exists P, correlated v P /\ merged (R ++ P) s'.
Proof.
  intros Hs. unfold merge_view. destruct (_ || _) eqn:Ea; [done|].
  apply orb_false_iff in Ea as [Eh%negb_false_iff%bool_decide_eq_true Et%negb_false_iff%Z.eqb_eq].
  destruct (Z.eqb_spec (zlen (vw_transactions v)) (zlen (wb_matches (vw_evidence v)))) as [El|]; cbn [negb]; [|done].
  destruct (view_transactions ∅ _) as [F|] eqn:Ev; [|done].
  destruct (view_transactions_ok _ _ _ Ev) as (hs & Hts & Hnd & _ & HF).
  assert (forall h t, F !! h = Some t <-> t ∈ vw_transactions v /\ transaction_hash t = Ok h) as HF'.
  { intros h t. rewrite HF, lookup_empty. naive_solver. }
  destruct (merge_matches F s _) as [[F' s1]|] eqn:Em; [|done].
  destruct (merge_matches_ok _ _ _ _ _ _ Hs Em) as (P & Hm & Hr & Hs1).
  case_bool_decide as Hempty; cbn [negb]; [|done]. intros [= <-]. split; [by split|]. exists P. split; [|done].
  destruct (correlated_transactions F P F' _ hs Hts Hnd HF' Hr Hempty) as [Hperm Hh]. by split; [| | |destruct Hr].
Qed.

Lemma merge_view_next R s header total v P :
  merged R s -> same_anchor header total v -> correlated v P -> consistent (R ++ P) ->
  exists s', merge_view header total s v = Ok s' /\ merged (R ++ P) s'.
Proof.
  intros Hs [Eh Et] [Hm Hp Hh Hd] Hc. unfold merge_view. rewrite Eh, Et, bool_decide_eq_true_2, Z.eqb_refl by done. cbn [negb orb].
  assert (zlen (vw_transactions v) = zlen (wb_matches (vw_evidence v))) as ->.
  { unfold zlen. by rewrite <- Hm, <- Hp, !length_map. }
  rewrite Z.eqb_refl. cbn [negb].
  set (hash_of := fun t => match transaction_hash t with Ok h => h | Err _ => [] end).
  assert (Forall2 (fun t h => transaction_hash t = Ok h) (vw_transactions v) (map hash_of (vw_transactions v))) as Hts.
  { apply Forall2_fmap_r, Forall_Forall2_diag. rewrite <- Hp. apply Forall_fmap. eapply Forall_impl; [exact Hh|].
    intros x Hx. cbn. unfold hash_of. cbn. by rewrite Hx. }
  assert (NoDup (map hash_of (vw_transactions v))) as Hnd.
  { rewrite <- Hp, map_map. replace (map (fun x => hash_of x.2) P) with (map pair_hash P); [done|].
    clear -Hh. induction Hh as [|x P Hx _ IH]; [done|]. cbn. rewrite IH. unfold hash_of at 2. by rewrite Hx. }
  destruct (view_transactions_next _ _ ∅ Hts Hnd) as [F Ev]; [apply Forall_forall; intros; apply lookup_empty|]. rewrite Ev.
  destruct (view_transactions_ok _ _ _ Ev) as (hs & _ & _ & _ & HF).
  assert (forall h t, F !! h = Some t <-> t ∈ vw_transactions v /\ transaction_hash t = Ok h) as HF'.
  { intros h t. rewrite HF, lookup_empty. naive_solver. }
  assert (read_off F P ∅) as Hr.
  { rewrite Forall_forall in Hh. split; [|done|].
    - apply Forall_forall. intros x Hx. apply HF'. split; [|by apply Hh]. rewrite <- Hp. by apply list_elem_of_fmap_2.
    - intros h. rewrite lookup_empty. case_decide as Hin; [done|]. destruct (F !! h) as [t|] eqn:E; [|done]. exfalso.
      apply HF' in E as [Ht E]. rewrite <- Hp in Ht. apply list_elem_of_fmap in Ht as (x & -> & Hx). apply Hin.
      pose proof (Hh x Hx). assert (h = pair_hash x) as -> by congruence. by apply list_elem_of_fmap_2. }
  rewrite <- Hm. destruct (merge_matches_next P R F s ∅ Hs Hr Hc) as (F2 & s' & -> & HF2 & Hs').
  exists s'. split; [|done]. rewrite bool_decide_eq_true_2; [done|]. apply map_eq. intros h. by rewrite HF2.
Qed.

Lemma merge_views_ok header total blocks : forall R s s',
  merged R s -> merge_views header total s blocks = Ok s' ->
  exists Ps, Forall2 correlated blocks Ps /\ Forall (same_anchor header total) blocks /\ merged (R ++ concat Ps) s'.
Proof.
  induction blocks as [|v blocks IH]; intros R s s' Hs; cbn [merge_views].
  { intros [= <-]. exists []. cbn. rewrite app_nil_r. by split_and!. }
  destruct (merge_view header total s v) as [s1|] eqn:E; [|done].
  destruct (merge_view_ok _ _ _ _ _ _ Hs E) as (Ha & P & Hco & Hs1). intros Hrest.
  destruct (IH _ _ _ Hs1 Hrest) as (Ps & Hcos & Has & Hs'). exists (P :: Ps). cbn [concat]. rewrite app_assoc.
  split_and!; [by constructor|by constructor|done].
Qed.

Lemma merge_views_next header total blocks Ps : Forall2 correlated blocks Ps -> Forall (same_anchor header total) blocks ->
  forall R s, merged R s -> consistent (R ++ concat Ps) ->
  exists s', merge_views header total s blocks = Ok s' /\ merged (R ++ concat Ps) s'.
Proof.
  induction 1 as [|v P blocks Ps Hco Hcos IH]; intros Ha R s Hs Hc; cbn [merge_views concat] in *.
  { exists s. by rewrite app_nil_r. }
  apply Forall_cons in Ha as [Hv Ha]. rewrite app_assoc in Hc.
  destruct (merge_view_next R s header total v P Hs Hv Hco) as (s1 & -> & Hs1); [by eapply consistent_prefix|].
  rewrite app_assoc. by apply IH.
Qed.
(** ** The union in block order *)

Definition block_order Q : Prop := StronglySorted (fun x y => pair_index x < pair_index y) Q.

Lemma sorted_keys {A} (key : A -> Z) (l : list A) :
  StronglySorted (fun a b => key a < key b) l <-> StronglySorted Z.lt (map key l).
Proof.
  induction l as [|a l IH]; [split; constructor|]. cbn [map]. rewrite !StronglySorted_cons, IH. by rewrite Forall_fmap.
Qed.

Lemma sorted_nodup Q : block_order Q -> NoDup Q.
Proof.
  induction 1 as [|x Q Hs IH Hlt]; [constructor|]. constructor; [|done]. intros Hx. rewrite Forall_forall in Hlt.
  specialize (Hlt x Hx). lia.
Qed.

Lemma pairs_of R (l : list (Z * MatchedTransaction)) :
  (forall e, e ∈ l -> exists y, y ∈ R /\ y.1 = e.2 /\ pair_index y = e.1) ->
  exists Q, map fst Q = map snd l /\ map pair_index Q = map fst l /\ Forall (fun y => y ∈ R) Q.
Proof.
  induction l as [|e l IH]; intros Hall; [by exists []|].
  destruct IH as (Q & H1 & H2 & H3); [intros; apply Hall; by right|].
  destruct (Hall e) as (y & Hy & E1 & E2); [left|]. exists (y :: Q). cbn. rewrite H1, H2, E1, E2.
  split_and!; [done|done|by constructor].
Qed.

Lemma merged_pairs R s :
  merged R s -> exists Q, map fst Q = map snd (ms_matches s) /\ block_order Q /\ (forall x, x ∈ Q <-> x ∈ R) /\
    read_off (ms_transactions s) Q ∅.
Proof.
  intros [Hc Ha Hm _ Ht]. destruct (pairs_of R (ms_matches s)) as (Q & Hf & Hi & Hin).
  { intros [i m] Hx. by apply Hm. }
  assert (block_order Q) as Hs by (apply sorted_keys; rewrite Hi; apply (sorted_keys fst); exact Ha).
  rewrite Forall_forall in Hin.
  assert (forall x, x ∈ Q <-> x ∈ R) as Hiff.
  { intros x. split; [apply Hin|]. intros Hx. assert ((pair_index x, x.1) ∈ ms_matches s) as Hms by (apply Hm; by exists x).
    assert (x.1 ∈ map fst Q) as (y & E & Hy)%list_elem_of_fmap by (rewrite Hf; by apply (list_elem_of_fmap_2 snd) in Hms).
    destruct (Hc x y Hx (Hin y Hy)) as [Hsame _]. unfold pair_hash in Hsame. by rewrite Hsame by (by rewrite E). }
  exists Q. split_and!; [done|done|done|]. split.
  - apply Forall_forall. intros x Hx%Hiff. apply Ht. by exists x.
  - apply NoDup_fmap_2_strong; [|by apply sorted_nodup]. intros x y Hx%Hiff Hy%Hiff E. by apply (Hc x y Hx Hy).
  - intros h. rewrite lookup_empty. case_decide as Hh; [done|]. destruct (ms_transactions s !! h) as [t|] eqn:E; [|done].
    exfalso. apply Ht in E as (y & Hy & <- & _). apply Hh. apply list_elem_of_fmap_2. by apply Hiff.
Qed.

Lemma merged_order_ok Q : forall T T', read_off T Q T' ->
  exists T2, merged_order (map fst Q) T = Ok (map snd Q, T2) /\ forall h, T2 !! h = T' !! h.
Proof.
  induction Q as [|[m t] Q IH]; intros T T' Hr; cbn [map fst snd merged_order].
  { exists T. split; [done|]. intros h. destruct Hr as [_ _ Hl]. rewrite Hl. by rewrite decide_False by apply not_elem_of_nil. }
  apply read_off_cons in Hr as [Hf Hr]. rewrite Hf. cbn [ok_or]. destruct (IH _ _ Hr) as (T2 & -> & HT). by exists T2.
Qed.

(** C20. Merging is an exact, conflict-checked union. The views merge if and only if each
    correlates its matches one for one with its transactions, all are of the first
    one's anchor and total, and no two matches of any two views give one position two
    hashes, or one hash two positions or two transactions. The result then has exactly
    the matches of all views, each with its transaction, in block order; so no view
    hides what another proves. *)
Theorem merge_exact first blocks mv :
  merge_peer_views (first :: blocks) = Ok mv <->
  exists Ps Q, Forall2 correlated (first :: blocks) Ps /\
    Forall (same_anchor (wb_header (vw_evidence first)) (wb_total_transactions (vw_evidence first))) (first :: blocks) /\
    consistent (concat Ps) /\ block_order Q /\ (forall x, x ∈ Q <-> x ∈ concat Ps) /\
    mv = {| vw_evidence := {| wb_header := wb_header (vw_evidence first);
                              wb_total_transactions := wb_total_transactions (vw_evidence first);
                              wb_matches := map fst Q |};
            vw_transactions := map snd Q |}.
Proof.
  unfold merge_peer_views. cbn [head ok_or].
  set (header := wb_header (vw_evidence first)). set (total := wb_total_transactions (vw_evidence first)).
  set (s0 := {| ms_matches := []; ms_positions := ∅; ms_transactions := ∅ |}). pose proof merged_empty as Hs0. fold s0 in Hs0.
  assert (forall R s, merged R s -> exists Q T2, merged_order (map snd (ms_matches s)) (ms_transactions s) = Ok (map snd Q, T2) /\
    T2 = ∅ /\ map snd (ms_matches s) = map fst Q /\ block_order Q /\ forall x, x ∈ Q <-> x ∈ R) as Hunion.
  { intros R s Hs. destruct (merged_pairs R s Hs) as (Q & Hf & Ho & Hiff & Hr). destruct (merged_order_ok Q _ _ Hr) as (T2 & E & HT).
    exists Q, T2. rewrite <- Hf. split_and!; try done. apply map_eq. intros h. by rewrite HT. }
  split.
  - destruct (merge_views _ _ s0 _) as [s|] eqn:Ev; [|done].
    destruct (merge_views_ok _ _ _ _ _ _ Hs0 Ev) as (Ps & Hco & Ha & Hs). cbn [app] in Hs.
    destruct (Hunion _ _ Hs) as (Q & T2 & -> & -> & -> & Ho & Hiff). cbn. intros [= <-].
    exists Ps, Q. split_and!; try done. by destruct Hs.
  - intros (Ps & Q & Hco & Ha & Hc & Ho & Hiff & ->).
    destruct (merge_views_next header total _ _ Hco Ha [] s0 Hs0 Hc) as (s & -> & Hs). cbn [app] in Hs.
    destruct (Hunion _ _ Hs) as (Q' & T2 & -> & -> & -> & Ho' & Hiff'). cbn.
    assert (Q' = Q) as ->; [|done]. apply (sorted_ext pair_index); [done|done|]. intros x. by rewrite Hiff, Hiff'.
Qed.

End merge.

(** Two views of one block, each hiding a match of the other. *)
Definition sample_view (matches : list MatchedTransaction) (transactions : list Transaction) : VerifiedWalletBlock :=
  {| vw_evidence := {| wb_header := sample_anchor; wb_total_transactions := 3; wb_matches := matches |};
     vw_transactions := transactions |}.
Definition sample_match (value index : Z) : MatchedTransaction := {| mt_hash := to_be 32 value; mt_index := index |}.

Example merge_two_views :
  merge_peer_views [sample_view [sample_match 22 1] [[22]]; sample_view [sample_match 11 0; sample_match 22 1] [[22]; [11]]]
  = Ok (sample_view [sample_match 11 0; sample_match 22 1] [[11]; [22]]).
Proof. vm_cast_no_check (@eq_refl (result WalletEvidenceError VerifiedWalletBlock)
  (Ok (sample_view [sample_match 11 0; sample_match 22 1] [[11]; [22]]))). Qed.

Example merge_conflicting_views :
  merge_peer_views [sample_view [sample_match 22 1] [[22]]; sample_view [sample_match 11 1] [[11]]] = Err PeerViewConflict.
Proof. vm_cast_no_check (@eq_refl (result WalletEvidenceError VerifiedWalletBlock) (Err PeerViewConflict)). Qed.
