(* ===== verification/BrowserChain.v ===== *)
(** * Browser header chain

    Models [src/crates/hns-browser-chain/src/lib.rs]: headers verified against their
    parent -- difficulty, proof of work, checkpoints, work -- and kept in a store with
    the canonical chain to the best of them. The chain is written against the class
    of its store; the store in memory is the instance. The SQLite store is a database
    schema with the same contract, and is not modelled. *)

From S2P Require Import Prelude Text ByteOrder IcannDane PrimHash PrimPow PrimHeader.
Import Stdlib.Strings.String.StringSyntax.

Definition MAINNET_POW_BITS : Z := 0x1c00ffff.
Definition MAINNET_TARGET_SPACING : Z := 10 * 60.
Definition MAINNET_BLOCKS_PER_DAY : Z := 144.
Definition MAINNET_MIN_ACTUAL_TIMESPAN : Z := 36 * MAINNET_TARGET_SPACING.
Definition MAINNET_MAX_ACTUAL_TIMESPAN : Z := 576 * MAINNET_TARGET_SPACING.

Record StoredHeader := { sh_hash : Hash; sh_header : BlockHeader; sh_height : Z; sh_chainwork : Z }.
Record HeaderCheckpoint := { cp_height : Z; cp_hash : Hash }.

Inductive DifficultyPolicy := PolicyMainnet | PolicyPermissive.
#[export] Instance DifficultyPolicy_eq_dec : EqDecision DifficultyPolicy.
Proof. solve_decision. Defined.
#[export] Instance BlockHeader_eq_dec : EqDecision BlockHeader.
Proof. solve_decision. Defined.

Inductive ChainError :=
| InvalidGenesisHeader | UnknownParent | DuplicateHeader | MissingBestHeader
| InvalidDifficultyBits (actual expected : Z) | InvalidDifficultyWindow | InvalidProofOfWork
| InvalidCheckpoint (height : Z) (actual expected : Hash) | ChainPow (e : PowError) | Storage.

(** The [?] on a [PowError]. *)
Definition pow_error {A} (r : result PowError A) : result ChainError A :=
  match r with Ok a => Ok a | Err e => Err (ChainPow e) end.

(** ** Checkpoints *)

(** [Hash::from_hex] of a literal: two digits a byte. *)
Fixpoint hex_bytes (digits : list Z) : list Z :=
  match digits with
  | high :: low :: digits => default 0 (to_digit 16 high) * 16 + default 0 (to_digit 16 low) :: hex_bytes digits
  | _ => []
  end.
Definition checkpoint_hash (hex_value : list Z) : Hash := hex_bytes hex_value.

Definition mainnet_checkpoints : list (Z * Hash) :=
  [(1008, checkpoint_hash (text "0000000000001013c28fa079b545fb805f04c496687799b98e35e83cbbb8953e"));
   (2016, checkpoint_hash (text "0000000000000424ee6c2a5d6e0da5edfc47a4a10328c1792056ee48303c3e40"));
   (10000, checkpoint_hash (text "00000000000001a86811a6f520bf67cefa03207dc84fd315f58153b28694ec51"));
   (20000, checkpoint_hash (text "0000000000000162c7ac70a582256f59c189b5c90d8e9861b3f374ed714c58de"));
   (30000, checkpoint_hash (text "0000000000000004f790862846b23c3a81585aea0fa79a7d851b409e027bcaa7"));
   (40000, checkpoint_hash (text "0000000000000002966206a40b10a575cb46531253b08dae8e1b356cfa277248"));
   (50000, checkpoint_hash (text "00000000000000020c7447e7139feeb90549bfc77a7f18d4ff28f327c04f8d6e"));
   (56880, checkpoint_hash (text "0000000000000001d4ef9ea6908bb4eb970d556bd07cbd7d06a634e1cd5bbf4e"));
   (61043, checkpoint_hash (text "00000000000000015b84385e0307370f8323420eaa27ef6e407f2d3162f1fd05"));
   (100000, checkpoint_hash (text "000000000000000136d7d3efa688072f40d9fdd71bd47bb961694c0f38950246"));
   (130000, checkpoint_hash (text "0000000000000005ee5106df9e48bcd232a1917684ac344b35ddd9b9e4101096"));
   (160000, checkpoint_hash (text "00000000000000021e723ce5aedc021ab4f85d46a6914e40148f01986baa46c9"));
   (200000, checkpoint_hash (text "000000000000000181ebc18d6c34442ffef3eedca90c57ca8ecc29016a1cfe16"));
   (225000, checkpoint_hash (text "00000000000000021f0be013ebad018a9ef97c8501766632f017a778781320d5"));
   (258026, checkpoint_hash (text "0000000000000004963d20732c58e5a91cb7e1b61ec6709d031f1a5ca8c55b95"))].
Definition mainnet_checkpoint_hash (height : Z) : option Hash :=
  snd <$> List.find (fun '(h, _) => h =? height) mainnet_checkpoints.
Definition mainnet_sync_checkpoints : list HeaderCheckpoint :=
  omap (fun height => (fun hash => {| cp_height := height; cp_hash := hash |}) <$> mainnet_checkpoint_hash height)
    [50000; 100000; 160000; 200000; 225000; 258026].

(** ** The store *)

(** What a chain asks of its store. A method on [&mut self] gives the store after the
    call, also after an error. *)
Class HeaderStore (S : Type) := {
  get_header : S -> Hash -> option StoredHeader;
  put_header : S -> StoredHeader -> S * result ChainError unit;
  best_hash : S -> option Hash;
  canonical_hash : S -> Z -> option Hash;
  promote_canonical_tip : S -> StoredHeader -> S * result ChainError unit;
  replace_canonical_chain : S -> list StoredHeader -> S * result ChainError unit }.

Section defaults.
Context {S : Type} `{HeaderStore S}.

(** The provided methods: one call for each header, up to the first error. *)
Fixpoint each (op : S -> StoredHeader -> S * result ChainError unit) (s : S) (headers : list StoredHeader)
    : S * result ChainError unit :=
  match headers with
  | [] => (s, Ok tt)
  | header :: headers =>
      let '(s, r) := op s header in
      match r with Ok _ => each op s headers | Err e => (s, Err e) end
  end.
Definition put_headers : S -> list StoredHeader -> S * result ChainError unit := each put_header.
Definition promote_canonical_tips : S -> list StoredHeader -> S * result ChainError unit := each promote_canonical_tip.
End defaults.

Record MemoryHeaderStore := {
  ms_headers : gmap Hash StoredHeader; ms_canonical : gmap Z Hash; ms_best : option Hash }.
Definition memory_store_default : MemoryHeaderStore := {| ms_headers := ∅; ms_canonical := ∅; ms_best := None |}.

Definition memory_put_header (s : MemoryHeaderStore) (header : StoredHeader) : MemoryHeaderStore * result ChainError unit :=
  match ms_headers s !! sh_hash header with
  | Some _ => (s, Err DuplicateHeader)
  | None => ({| ms_headers := <[sh_hash header := header]> (ms_headers s); ms_canonical := ms_canonical s; ms_best := ms_best s |},
             Ok tt)
  end.
Definition memory_promote_canonical_tip (s : MemoryHeaderStore) (header : StoredHeader)
    : MemoryHeaderStore * result ChainError unit :=
  match ms_headers s !! sh_hash header with
  | None => (s, Err MissingBestHeader)
  | Some _ => ({| ms_headers := ms_headers s; ms_canonical := <[sh_height header := sh_hash header]> (ms_canonical s);
                  ms_best := Some (sh_hash header) |}, Ok tt)
  end.
Definition memory_replace_canonical_chain (s : MemoryHeaderStore) (headers : list StoredHeader)
    : MemoryHeaderStore * result ChainError unit :=
  match last headers with
  | None => (s, Err MissingBestHeader)
  | Some tip =>
      if existsb (fun header => bool_decide (ms_headers s !! sh_hash header = None)) headers then (s, Err MissingBestHeader) else
      ({| ms_headers := ms_headers s;
          ms_canonical := fold_left (fun m header => <[sh_height header := sh_hash header]> m) headers ∅;
          ms_best := Some (sh_hash tip) |}, Ok tt)
  end.
#[export] Instance StoredHeader_eq_dec : EqDecision StoredHeader.
Proof. solve_decision. Defined.
#[export] Instance memory_store : HeaderStore MemoryHeaderStore := {
  get_header s hash := ms_headers s !! hash;
  put_header := memory_put_header;
  best_hash := ms_best;
  canonical_hash s height := ms_canonical s !! height;
  promote_canonical_tip := memory_promote_canonical_tip;
  replace_canonical_chain := memory_replace_canonical_chain }.

(** ** The chain *)

Record HeaderChain (S : Type) := { hc_store : S; hc_policy : DifficultyPolicy }.
Arguments hc_store {S} h.
Arguments hc_policy {S} h.

Section chain.
Context `{Hashers} {S : Type} `{HeaderStore S}.
Notation Chain := (HeaderChain S).

Definition with_difficulty_policy (store : S) (policy : DifficultyPolicy) : Chain := {| hc_store := store; hc_policy := policy |}.
Definition header_chain_new (store : S) : Chain := with_difficulty_policy store PolicyMainnet.
(** The chain after an operation on its store. *)
Definition with_store (c : Chain) (store : S) : Chain := {| hc_store := store; hc_policy := hc_policy c |}.

Definition height_succ (height : Z) : option Z := if height + 1 <=? u32_max then Some (height + 1) else None.

Definition previous_with_pending (c : Chain) (header : StoredHeader) (pending : gmap Hash StoredHeader)
    : result ChainError StoredHeader :=
  let? previous := ok_or (match pending !! h_prev_block (sh_header header) with
                          | Some previous => Some previous
                          | None => get_header (hc_store c) (h_prev_block (sh_header header))
                          end) UnknownParent in
  if negb (bool_decide (height_succ (sh_height previous) = Some (sh_height header))) then Err InvalidDifficultyWindow
  else Ok previous.

(** [sort_by_key] of the three blocks by time: stable. *)
Fixpoint insert_by_time (block : StoredHeader) (blocks : list StoredHeader) : list StoredHeader :=
  match blocks with
  | [] => [block]
  | other :: rest =>
      if h_time (sh_header block) <=? h_time (sh_header other) then block :: blocks else other :: insert_by_time block rest
  end.
Definition sort_by_time (blocks : list StoredHeader) : list StoredHeader := foldr insert_by_time [] blocks.

Definition suitable_block_with_pending (c : Chain) (header : StoredHeader) (pending : gmap Hash StoredHeader)
    : result ChainError StoredHeader :=
  let z := header in
  let? y := previous_with_pending c z pending in
  let? x := previous_with_pending c y pending in
  Ok (default z (sort_by_time [x; y; z] !! 1%nat)).

(** The [while] of [ancestor_with_pending]: each turn goes down by one, so there are
    no more turns than the heights between. *)
Fixpoint ancestor_loop (c : Chain) (turns : nat) (height : Z) (pending : gmap Hash StoredHeader) (current : StoredHeader)
    : result ChainError StoredHeader :=
  if height <? sh_height current then
    match turns with
    | O => Err InvalidDifficultyWindow
    | Datatypes.S turns => let? current := previous_with_pending c current pending in ancestor_loop c turns height pending current
    end
  else Ok current.
Definition ancestor_with_pending (c : Chain) (header : StoredHeader) (height : Z) (pending : gmap Hash StoredHeader)
    : result ChainError StoredHeader :=
  if sh_height header <? height then Err InvalidDifficultyWindow
  else ancestor_loop c (Z.to_nat (sh_height header - height)) height pending header.

Definition retarget_bits (first last : StoredHeader) : result ChainError Z :=
  if sh_height last <=? sh_height first then Err InvalidDifficultyWindow else
  let actual_timespan := saturating_sub (h_time (sh_header last)) (h_time (sh_header first)) in
  let actual_timespan := Z.min (Z.max actual_timespan MAINNET_MIN_ACTUAL_TIMESPAN) MAINNET_MAX_ACTUAL_TIMESPAN in
  let? work := ok_or (chainwork_checked_sub (sh_chainwork last) (sh_chainwork first)) InvalidDifficultyWindow in
  let? work := ok_or (chainwork_div_u64 (work * MAINNET_TARGET_SPACING) actual_timespan) InvalidDifficultyWindow in
  if work =? 0 then Ok MAINNET_POW_BITS else
  let? target := pow_error (target_for_work work) in
  let? limit := pow_error (compact_to_target MAINNET_POW_BITS) in
  if limit <? target then Ok MAINNET_POW_BITS else Ok (target_to_compact target).

Definition expected_mainnet_bits_with_pending (c : Chain) (parent : StoredHeader) (pending : gmap Hash StoredHeader)
    : result ChainError Z :=
  if sh_height parent <? MAINNET_BLOCKS_PER_DAY + 2 then Ok MAINNET_POW_BITS else
  let? last := suitable_block_with_pending c parent pending in
  let? ancestor := ancestor_with_pending c parent (sh_height parent - MAINNET_BLOCKS_PER_DAY) pending in
  let? first := suitable_block_with_pending c ancestor pending in
  retarget_bits first last.

Definition validate_difficulty_bits_with_pending (c : Chain) (header : BlockHeader) (parent : StoredHeader)
    (pending : gmap Hash StoredHeader) : result ChainError unit :=
  match hc_policy c with
  | PolicyPermissive => Ok tt
  | PolicyMainnet =>
      let? expected := expected_mainnet_bits_with_pending c parent pending in
      if negb (h_bits header =? expected) then Err (InvalidDifficultyBits (h_bits header) expected) else Ok tt
  end.
Definition validate_difficulty_bits (c : Chain) (header : BlockHeader) (parent : StoredHeader) : result ChainError unit :=
  validate_difficulty_bits_with_pending c header parent ∅.

Definition validate_genesis (c : Chain) (header : BlockHeader) : result ChainError unit :=
  if bool_decide (hc_policy c = PolicyMainnet) && negb (bool_decide (header = genesis_for_network Mainnet))
  then Err InvalidGenesisHeader else Ok tt.
Definition validate_checkpoint (c : Chain) (height : Z) (hash : Hash) : result ChainError unit :=
  if negb (bool_decide (hc_policy c = PolicyMainnet)) then Ok tt else
  match mainnet_checkpoint_hash height with
  | None => Ok tt
  | Some expected => if negb (bool_decide (hash = expected)) then Err (InvalidCheckpoint height hash expected) else Ok tt
  end.

(** The [while] of [canonical_chain_to], with as many turns as the height; the headers
    so far, the last in front. *)
Fixpoint chain_loop (c : Chain) (turns : nat) (current : StoredHeader) (headers : list StoredHeader)
    : result ChainError (list StoredHeader) :=
  if 0 <? sh_height current then
    match turns with
    | O => Err InvalidDifficultyWindow
    | Datatypes.S turns =>
        let? previous := ok_or (get_header (hc_store c) (h_prev_block (sh_header current))) UnknownParent in
        if negb (bool_decide (height_succ (sh_height previous) = Some (sh_height current))) then Err InvalidDifficultyWindow
        else chain_loop c turns previous (previous :: headers)
    end
  else Ok headers.
(** Pushing and reversing at the end is consing. *)
Definition canonical_chain_to (c : Chain) (hash : Hash) : result ChainError (list StoredHeader) :=
  let? current := ok_or (get_header (hc_store c) hash) MissingBestHeader in
  chain_loop c (Z.to_nat (sh_height current)) current [current].
Definition promote_best_hash (c : Chain) (hash : Hash) : Chain * result ChainError unit :=
  match canonical_chain_to c hash with
  | Err e => (c, Err e)
  | Ok headers => let '(s, r) := replace_canonical_chain (hc_store c) headers in (with_store c s, r)
  end.

Definition best_header (c : Chain) : result ChainError (option StoredHeader) :=
  match best_hash (hc_store c) with
  | Some hash => let? best := ok_or (get_header (hc_store c) hash) MissingBestHeader in Ok (Some best)
  | None => Ok None
  end.
Definition canonical_header (c : Chain) (height : Z) : option StoredHeader :=
  canonical_hash (hc_store c) height ≫= get_header (hc_store c).

Definition insert_genesis (c : Chain) (header : BlockHeader) : Chain * result ChainError StoredHeader :=
  match validate_genesis c header with
  | Err e => (c, Err e)
  | Ok _ =>
  match pow_error (chainwork_from_bits (h_bits header)) with
  | Err e => (c, Err e)
  | Ok work =>
      let stored := {| sh_hash := header_hash header; sh_header := header; sh_height := 0; sh_chainwork := work |} in
      let '(s, r) := put_header (hc_store c) stored in
      let c := with_store c s in
      match r with
      | Err e => (c, Err e)
      | Ok _ => let '(c, r) := promote_best_hash c (sh_hash stored) in (c, result_map (fun _ => stored) r)
      end
  end end.

(** What [insert_header] checks of a header before it changes the store. *)
Definition check_header (c : Chain) (header : BlockHeader) : result ChainError StoredHeader :=
  let? parent := ok_or (get_header (hc_store c) (h_prev_block header)) UnknownParent in
  let hash := header_hash header in
  let? height := ok_or (height_succ (sh_height parent)) InvalidDifficultyWindow in
  let? _ := validate_difficulty_bits c header parent in
  let? proved := pow_error (verify_pow hash (h_bits header)) in
  if negb proved then Err InvalidProofOfWork else
  let? _ := validate_checkpoint c height hash in
  let? work := pow_error (chainwork_from_bits (h_bits header)) in
  Ok {| sh_hash := hash; sh_header := header; sh_height := height; sh_chainwork := sh_chainwork parent + work |}.
Definition insert_header (c : Chain) (header : BlockHeader) : Chain * result ChainError StoredHeader :=
  match check_header c header with
  | Err e => (c, Err e)
  | Ok stored =>
      let '(s, r) := put_header (hc_store c) stored in
      let c := with_store c s in
      match r with
      | Err e => (c, Err e)
      | Ok _ =>
      match best_header c with
      | Err e => (c, Err e)
      | Ok best =>
          let extends_best := match best with Some best => bool_decide (h_prev_block header = sh_hash best) | None => false end in
          let should_promote := match best with Some best => sh_chainwork best <? sh_chainwork stored | None => true end in
          if should_promote then
            let '(c, r) := if extends_best then let '(s, r) := promote_canonical_tip (hc_store c) stored in (with_store c s, r)
                           else promote_best_hash c (sh_hash stored) in
            (c, result_map (fun _ => stored) r)
          else (c, Ok stored)
      end end
  end.

(** The batch so far: hashes seen, headers pending by hash, work by bits, accepted. *)
Record Batch := {
  bt_seen : gset Hash; bt_pending : gmap Hash StoredHeader; bt_work : gmap Z Z; bt_accepted : list StoredHeader }.
Definition batch_new : Batch := {| bt_seen := ∅; bt_pending := ∅; bt_work := ∅; bt_accepted := [] |}.

Definition work_of_bits (work : gmap Z Z) (bits : Z) : result ChainError (gmap Z Z * Z) :=
  match work !! bits with
  | Some w => Ok (work, w)
  | None => let? w := pow_error (chainwork_from_bits bits) in Ok (<[bits := w]> work, w)
  end.
(** One turn over the headers of [insert_headers]. *)
Definition batch_step (c : Chain) (b : Batch) (header : BlockHeader) : result ChainError Batch :=
  let hash := header_hash header in
  let seen := {[hash]} ∪ bt_seen b in
  if bool_decide (hash ∈ bt_seen b) || bool_decide (get_header (hc_store c) hash <> None)
  then Ok {| bt_seen := seen; bt_pending := bt_pending b; bt_work := bt_work b; bt_accepted := bt_accepted b |} else
  let? parent := ok_or (match bt_pending b !! h_prev_block header with
                        | Some parent => Some parent
                        | None => get_header (hc_store c) (h_prev_block header)
                        end) UnknownParent in
  let? _ := validate_difficulty_bits_with_pending c header parent (bt_pending b) in
  let? proved := pow_error (verify_pow hash (h_bits header)) in
  if negb proved then Err InvalidProofOfWork else
  let? height := ok_or (height_succ (sh_height parent)) InvalidDifficultyWindow in
  let? _ := validate_checkpoint c height hash in
  let? (work, header_work) := work_of_bits (bt_work b) (h_bits header) in
  let stored := {| sh_hash := hash; sh_header := header; sh_height := height; sh_chainwork := sh_chainwork parent + header_work |} in
  Ok {| bt_seen := seen; bt_pending := <[hash := stored]> (bt_pending b); bt_work := work; bt_accepted := bt_accepted b ++ [stored] |}.
Fixpoint batch_run (c : Chain) (b : Batch) (headers : list BlockHeader) : result ChainError Batch :=
  match headers with
  | [] => Ok b
  | header :: headers => let? b := batch_step c b header in batch_run c b headers
  end.

(** [max_by] on the work, over indices: of equals the last. *)
Fixpoint max_by_work (index : nat) (best : nat * StoredHeader) (headers : list StoredHeader) : nat * StoredHeader :=
  match headers with
  | [] => best
  | header :: headers =>
      max_by_work (Datatypes.S index) (if sh_chainwork header <? sh_chainwork (snd best) then best else (index, header)) headers
  end.
Definition best_candidate (accepted : list StoredHeader) : option (nat * StoredHeader) :=
  match accepted with [] => None | header :: headers => Some (max_by_work 1 (0%nat, header) headers) end.

Fixpoint all_linked (headers : list StoredHeader) : bool :=
  match headers with
  | a :: (b :: _) as rest => bool_decide (h_prev_block (sh_header b) = sh_hash a) && all_linked rest
  | _ => true
  end.

Definition insert_headers (c : Chain) (headers : list BlockHeader) : Chain * result ChainError (list StoredHeader) :=
  match batch_run c batch_new headers with
  | Err e => (c, Err e)
  | Ok b =>
  let accepted := bt_accepted b in
  if bool_decide (accepted = []) then (c, Ok accepted) else
  match best_header c with
  | Err e => (c, Err e)
  | Ok best =>
  match best_candidate accepted with
  | None => (c, Err MissingBestHeader)
  | Some (best_index, candidate) =>
      let upto := take (Datatypes.S best_index) accepted in
      let should_promote := match best with Some best => sh_chainwork best <? sh_chainwork candidate | None => true end in
      let extends_best := match best, accepted with
                          | Some best, first :: _ => bool_decide (h_prev_block (sh_header first) = sh_hash best) && all_linked upto
                          | _, _ => false
                          end in
      let '(s, r) := put_headers (hc_store c) accepted in
      let c := with_store c s in
      match r with
      | Err e => (c, Err e)
      | Ok _ =>
          if should_promote then
            let '(c, r) := if extends_best then let '(s, r) := promote_canonical_tips (hc_store c) upto in (with_store c s, r)
                           else promote_best_hash c (sh_hash candidate) in
            (c, result_map (fun _ => accepted) r)
          else (c, Ok accepted)
      end
  end end end.
End chain.
