(* ===== verification/BrowserChainProps.v ===== *)
(** * Browser header chain: the store and the canonical chain

    Everything the chain of [BrowserChain] keeps was verified against its parent, the
    canonical chain is the path to the header of most work, and a call that fails
    changes nothing. *)

From S2P Require Import Prelude Text ByteOrder IcannDane PrimHash PrimPow PrimHeader BrowserChain.

Section props.
Context `{Hashers}.
Notation Chain := (HeaderChain MemoryHeaderStore).
Notation stored c := (ms_headers (hc_store c)).
Implicit Types (c : Chain) (x p : StoredHeader) (pending : gmap Hash StoredHeader).

(** ** What the checks read *)

(** Pending headers hide those of the store. *)
Definition look c pending (hash : Hash) : option StoredHeader :=
  match pending !! hash with Some x => Some x | None => stored c !! hash end.
(** Another chain of the same policy that knows all the first one does. *)
Definition extends c pending c' pending' : Prop :=
  hc_policy c' = hc_policy c /\ forall hash x, look c pending hash = Some x -> look c' pending' hash = Some x.

Section grows.
Context {c c' : Chain} {pending pending' : gmap Hash StoredHeader} (He : extends c pending c' pending').

Lemma previous_grows x p : previous_with_pending c x pending = Ok p -> previous_with_pending c' x pending' = Ok p.
Proof.
  unfold previous_with_pending. change (get_header (hc_store c) (h_prev_block (sh_header x))) with (stored c !! h_prev_block (sh_header x)).
  change (get_header (hc_store c') (h_prev_block (sh_header x))) with (stored c' !! h_prev_block (sh_header x)).
  fold (look c pending (h_prev_block (sh_header x))) (look c' pending' (h_prev_block (sh_header x))).
  destruct (look c pending (h_prev_block (sh_header x))) as [q|] eqn:E; [|done]. apply He in E. by rewrite E.
Qed.

Lemma suitable_grows x p : suitable_block_with_pending c x pending = Ok p -> suitable_block_with_pending c' x pending' = Ok p.
Proof.
  unfold suitable_block_with_pending. cbv zeta. destruct (previous_with_pending c x pending) as [y|] eqn:E; [|done].
  rewrite (previous_grows _ _ E). destruct (previous_with_pending c y pending) as [z|] eqn:E2; [|done]. by rewrite (previous_grows _ _ E2).
Qed.

Lemma ancestor_loop_grows n height : forall x p,
  ancestor_loop c n height pending x = Ok p -> ancestor_loop c' n height pending' x = Ok p.
Proof.
  induction n as [|n IH]; intros x p; cbn; (destruct (height <? sh_height x); [|done]); [done|].
  destruct (previous_with_pending c x pending) as [y|] eqn:E; [|done]. rewrite (previous_grows _ _ E). apply IH.
Qed.

Lemma expected_grows x bits :
  expected_mainnet_bits_with_pending c x pending = Ok bits -> expected_mainnet_bits_with_pending c' x pending' = Ok bits.
Proof.
  unfold expected_mainnet_bits_with_pending, ancestor_with_pending. destruct (_ <? _); [done|].
  destruct (suitable_block_with_pending c x pending) as [last|] eqn:E1; [|done]. rewrite (suitable_grows _ _ E1).
  destruct (sh_height x <? _); [done|]. destruct (ancestor_loop c _ _ pending x) as [a|] eqn:E2; [|done].
  rewrite (ancestor_loop_grows _ _ _ _ E2). destruct (suitable_block_with_pending c a pending) as [first|] eqn:E3; [|done].
  by rewrite (suitable_grows _ _ E3).
Qed.

Lemma difficulty_grows header p :
  validate_difficulty_bits_with_pending c header p pending = Ok tt -> validate_difficulty_bits_with_pending c' header p pending' = Ok tt.
Proof.
  unfold validate_difficulty_bits_with_pending. destruct He as [-> _]. destruct (hc_policy c); [|done].
  destruct (expected_mainnet_bits_with_pending c p pending) as [bits|] eqn:E; [|done]. by rewrite (expected_grows _ _ E).
Qed.
End grows.

Lemma checkpoint_policy c c' height hash : hc_policy c' = hc_policy c -> validate_checkpoint c' height hash = validate_checkpoint c height hash.
Proof. unfold validate_checkpoint. by intros ->. Qed.

(** ** Verified headers *)

(** A header of height zero: the genesis, of its own work. *)
Definition genesis_ok c x : Prop :=
  sh_height x = 0 /\ chainwork_from_bits (h_bits (sh_header x)) = Ok (sh_chainwork x) /\
  (hc_policy c = PolicyMainnet -> sh_header x = genesis_for_network Mainnet).
(** A header verified against its parent [p]. *)
Definition child_ok c pending x p : Prop :=
  look c pending (h_prev_block (sh_header x)) = Some p /\ 0 <= sh_height p /\ sh_height x = sh_height p + 1 /\ sh_height x <= u32_max /\
  validate_difficulty_bits_with_pending c (sh_header x) p pending = Ok tt /\
  verify_pow (sh_hash x) (h_bits (sh_header x)) = Ok true /\
  validate_checkpoint c (sh_height x) (sh_hash x) = Ok tt /\
  exists work, chainwork_from_bits (h_bits (sh_header x)) = Ok work /\ sh_chainwork x = sh_chainwork p + work.
Definition header_ok c pending x : Prop :=
  sh_hash x = header_hash (sh_header x) /\ (genesis_ok c x \/ exists p, child_ok c pending x p).

Lemma child_grows c c' pending pending' x p : extends c pending c' pending' -> child_ok c pending x p -> child_ok c' pending' x p.
Proof.
  intros He (Hl & H0 & Hh & Hu & Hd & Hp & Hc & Hw). pose proof He as [Hpol Hlook]. split_and!; auto.
  - by eapply difficulty_grows.
  - by rewrite (checkpoint_policy c c').
Qed.
Lemma header_grows c c' pending pending' x : extends c pending c' pending' -> header_ok c pending x -> header_ok c' pending' x.
Proof.
  intros He [Hh [(H1 & H2 & H3)|[p Hp]]]; (split; [done|]); [left|right; exists p; by eapply child_grows].
  unfold genesis_ok. destruct He as [-> _]. done.
Qed.

Lemma compact_positive bits t : compact_to_target bits = Ok t -> 0 < t < 2 ^ 256.
Proof.
  unfold compact_to_target. cbv zeta. set (target := if _ <=? 3 then _ else _). intros Ht.
  destruct (negb _); [done|]. destruct (_ =? 0) eqn:Hm; [done|]. destruct (Z.eqb_spec target 0); [done|].
  destruct (Z.ltb_spec 256 (big_bits target)); [done|]. injection Ht as <-.
  assert (0 <= target) as Hpos.
  { unfold target. assert (0 <= Z.land bits 0x007fffff) by (apply Z.land_nonneg; lia).
    destruct (_ <=? 3); [by apply Z.shiftr_nonneg|by apply Z.shiftl_nonneg]. }
  split; [lia|]. by apply (big_bits_le target 256).
Qed.
Lemma work_positive bits w : chainwork_from_bits bits = Ok w -> 1 <= w.
Proof.
  unfold chainwork_from_bits, work_for_target. destruct (compact_to_target bits) as [t|] eqn:E; [|done].
  apply compact_positive in E. rewrite (proj2 (Z.eqb_neq t 0)) by lia. intros [= <-]. rewrite Z.shiftl_mul_pow2 by lia.
  apply Z.div_le_lower_bound; lia.
Qed.

(** ** Paths *)

(** From the genesis up, each header on top of the one before. *)
Definition path_ok (headers : gmap Hash StoredHeader) (l : list StoredHeader) : Prop :=
  forall i x, l !! i = Some x ->
    sh_height x = Z.of_nat i /\ headers !! sh_hash x = Some x /\
    (forall j p, i = S j -> l !! j = Some p -> h_prev_block (sh_header x) = sh_hash p).

Definition canonical_of (l : list StoredHeader) : gmap Z Hash :=
  fold_left (fun m header => <[sh_height header := sh_hash header]> m) l ∅.

Lemma canonical_of_snoc l x : canonical_of (l ++ [x]) = <[sh_height x := sh_hash x]> (canonical_of l).
Proof. unfold canonical_of. by rewrite fold_left_app. Qed.

Lemma path_prefix headers l x : path_ok headers (l ++ [x]) -> path_ok headers l.
Proof.
  intros Hp i y Hi. destruct (Hp i y) as (H1 & H2 & H3); [by apply lookup_app_l_Some|]. split_and!; [done|done|].
  intros j p Ej Hj. apply (H3 j p Ej). by apply lookup_app_l_Some.
Qed.
Lemma path_snoc headers l x p :
  path_ok headers l -> last l = Some p -> headers !! sh_hash x = Some x -> sh_height x = sh_height p + 1 ->
  h_prev_block (sh_header x) = sh_hash p -> path_ok headers (l ++ [x]).
Proof.
  intros Hp Hl Hx Hh Hprev i y [Hi|[Hi Hy]]%lookup_app_Some.
  - destruct (Hp i y Hi) as (H1 & H2 & H3). split_and!; [done|done|]. intros j q -> Hj.
    apply (H3 j q eq_refl). apply lookup_lt_Some in Hi. by rewrite lookup_app_l in Hj by lia.
  - apply list_lookup_singleton_Some in Hy as [Ei <-]. assert (i = length l) as -> by lia.
    rewrite last_lookup in Hl. destruct (Hp _ _ Hl) as (Hhp & _). pose proof (lookup_lt_Some _ _ _ Hl) as Hlen.
    split_and!; [lia|done|]. intros j q Ej Hj. rewrite Ej in Hl. cbn in Hl. rewrite lookup_app_l in Hj by lia. congruence.
Qed.
Lemma path_grows headers headers' l : headers ⊆ headers' -> path_ok headers l -> path_ok headers' l.
Proof. intros Hs Hp i x Hi. destruct (Hp i x Hi) as (? & ? & ?). split_and!; [done|by eapply lookup_weaken|done]. Qed.

(** A header has one path. *)
Lemma path_unique headers l l' b : path_ok headers l -> path_ok headers l' -> last l = Some b -> last l' = Some b -> l = l'.
Proof.
  revert l' b. induction l as [|x l IH] using rev_ind; [done|]. intros l' b Hp Hp' Hl Hl'. rewrite last_snoc in Hl. injection Hl as ->.
  destruct l' as [|x' l' _] using rev_ind; [done|]. rewrite last_snoc in Hl'. injection Hl' as ->. f_equal.
  destruct (Hp (length l) b) as (Hh & _ & Hprev); [by rewrite list_lookup_middle|].
  destruct (Hp' (length l') b) as (Hh' & _ & Hprev'); [by rewrite list_lookup_middle|].
  destruct (last l) as [p|] eqn:Ep, (last l') as [p'|] eqn:Ep'.
  - pose proof Ep as E1. pose proof Ep' as E2. rewrite last_lookup in E1, E2.
    pose proof (lookup_lt_Some _ _ _ E1). pose proof (lookup_lt_Some _ _ _ E2).
    specialize (Hprev (pred (length l)) p ltac:(lia)). specialize (Hprev' (pred (length l')) p' ltac:(lia)).
    rewrite lookup_app_l in Hprev, Hprev' by lia. specialize (Hprev E1). specialize (Hprev' E2).
    destruct (path_prefix _ _ _ Hp _ _ E1) as (_ & S1 & _). destruct (path_prefix _ _ _ Hp' _ _ E2) as (_ & S2 & _).
    assert (p = p') as <- by congruence. by apply (IH l' p (path_prefix _ _ _ Hp) (path_prefix _ _ _ Hp')).
  - apply last_None in Ep' as ->. apply last_Some in Ep as [? ->]. rewrite length_app in Hh. cbn in Hh, Hh'. lia.
  - apply last_None in Ep as ->. apply last_Some in Ep' as [? ->]. rewrite length_app in Hh'. cbn in Hh, Hh'. lia.
  - apply last_None in Ep as ->. by apply last_None in Ep' as ->.
Qed.

(** The canonical hash of a height is the path's. *)
Lemma canonical_lookup headers l k : path_ok headers l ->
  canonical_of l !! k = if 0 <=? k then sh_hash <$> l !! Z.to_nat k else None.
Proof.
  induction l as [|x l IH] using rev_ind; intros Hp; [cbn; by case_match|]. rewrite canonical_of_snoc.
  destruct (Hp (length l) x) as (Hx & _); [by rewrite list_lookup_middle|]. specialize (IH (path_prefix _ _ _ Hp)).
  destruct (decide (k = sh_height x)) as [->|Hne].
  - rewrite lookup_insert_eq, Hx, (proj2 (Z.leb_le _ _)) by lia. by rewrite Nat2Z.id, list_lookup_middle.
  - rewrite lookup_insert_ne, IH by done. destruct (Z.leb_spec 0 k); [|done]. f_equal.
    destruct (decide (Z.to_nat k < length l)%nat); [by rewrite lookup_app_l|].
    rewrite (lookup_ge_None_2 l), (lookup_ge_None_2 (l ++ [x])); [done|rewrite length_app; cbn; lia|lia].
Qed.

(** ** A store of verified headers *)

Record kept c : Prop := {
  kp_keys : forall hash x, stored c !! hash = Some x -> sh_hash x = hash;
  kp_ok : forall hash x, stored c !! hash = Some x -> header_ok c ∅ x;
  kp_root : forall hash hash' x y, stored c !! hash = Some x -> stored c !! hash' = Some y ->
    sh_height x = 0 -> sh_height y = 0 -> x = y }.

(** The checks read the policy and the headers alone. *)
Lemma kept_same c c' : hc_policy c' = hc_policy c -> stored c' = stored c -> kept c -> kept c'.
Proof.
  intros Hp Hs [Hk Hok Hr]. split; rewrite Hs; [done| |done]. intros hash x Hx. eapply header_grows; [|by eapply Hok].
  split; [done|]. intros h y. unfold look. by rewrite lookup_empty, Hs.
Qed.

Lemma header_height c pending x : header_ok c pending x -> 0 <= sh_height x.
Proof. intros [_ [(H1 & _)|(p & _ & H1 & H2 & _)]]; lia. Qed.

Lemma look_stored c hash : look c ∅ hash = stored c !! hash.
Proof. unfold look. by rewrite lookup_empty. Qed.

(** The path to a stored header is found. *)
Lemma chain_loop_path c : kept c -> forall n x acc, stored c !! sh_hash x = Some x -> sh_height x = Z.of_nat n ->
  exists pre, chain_loop c n x (x :: acc) = Ok (pre ++ x :: acc) /\ path_ok (stored c) (pre ++ [x]).
Proof.
  intros [Hk Hok _]. induction n as [|n IH]; intros x acc Hx Hh; cbn [chain_loop].
  - rewrite (proj2 (Z.ltb_ge _ _)) by lia. exists []. split; [done|]. intros [|i] y Hy; [|done]. injection Hy as <-. by split_and!.
  - rewrite (proj2 (Z.ltb_lt _ _)) by lia. destruct (Hok _ _ Hx) as [_ [(H0 & _)|(p & Hl & H0 & Hhp & Hu & _)]]; [lia|].
    rewrite look_stored in Hl. change (get_header (hc_store c) (h_prev_block (sh_header x))) with (stored c !! h_prev_block (sh_header x)).
    rewrite Hl. cbn [ok_or]. unfold height_succ. rewrite (proj2 (Z.leb_le _ _)), Hhp, bool_decide_eq_true_2 by (done || lia). cbn [negb].
    pose proof (Hk _ _ Hl) as Hkey. destruct (IH p (x :: acc)) as (pre & -> & Hp); [by rewrite Hkey|lia|].
    exists (pre ++ [p]). rewrite <- app_assoc. split; [done|]. by eapply path_snoc; [exact Hp|by rewrite last_snoc|..].
Qed.

Definition with_best c (l : list StoredHeader) (best : Hash) : Chain :=
  with_store c {| ms_headers := stored c; ms_canonical := canonical_of l; ms_best := Some best |}.

Lemma promote_best_path c x : kept c -> stored c !! sh_hash x = Some x ->
  exists l, promote_best_hash c (sh_hash x) = (with_best c l (sh_hash x), Ok tt) /\ path_ok (stored c) l /\ last l = Some x.
Proof.
  intros Hkept Hx. pose proof (header_height _ _ _ (kp_ok c Hkept _ _ Hx)) as Hh. unfold promote_best_hash, canonical_chain_to.
  change (get_header (hc_store c) (sh_hash x)) with (stored c !! sh_hash x). rewrite Hx. cbn [ok_or].
  destruct (chain_loop_path c Hkept (Z.to_nat (sh_height x)) x [] Hx ltac:(lia)) as (pre & -> & Hp).
  exists (pre ++ [x]). rewrite last_snoc. split_and!; [|done|done]. cbn [replace_canonical_chain memory_store].
  unfold memory_replace_canonical_chain. rewrite last_snoc.
  replace (existsb _ (pre ++ [x])) with false; [done|]. symmetry. apply not_true_iff_false.
  intros (y & Hin%list_elem_of_In & Hn%bool_decide_eq_true)%existsb_exists. apply list_elem_of_lookup in Hin as [i Hi].
  destruct (Hp _ _ Hi) as (_ & Hy & _). congruence.
Qed.

(** ** Adding headers *)

Definition added (headers : gmap Hash StoredHeader) (l : list StoredHeader) : gmap Hash StoredHeader :=
  fold_left (fun m x => <[sh_hash x := x]> m) l headers.
Definition with_headers c (headers : gmap Hash StoredHeader) : Chain :=
  with_store c {| ms_headers := headers; ms_canonical := ms_canonical (hc_store c); ms_best := ms_best (hc_store c) |}.

Lemma added_snoc headers l x : added headers (l ++ [x]) = <[sh_hash x := x]> (added headers l).
Proof. unfold added. by rewrite fold_left_app. Qed.
Lemma added_lookup headers l hash :
  added headers l !! hash = match added ∅ l !! hash with Some x => Some x | None => headers !! hash end.
Proof.
  induction l as [|x l IH] using rev_ind; [done|]. rewrite !added_snoc. destruct (decide (sh_hash x = hash)) as [<-|].
  - by rewrite !lookup_insert_eq.
  - by rewrite !lookup_insert_ne.
Qed.
Lemma added_elem l hash x : added ∅ l !! hash = Some x -> x ∈ l /\ sh_hash x = hash.
Proof.
  induction l as [|y l IH] using rev_ind; [done|]. rewrite added_snoc. destruct (decide (sh_hash y = hash)) as [<-|].
  - rewrite lookup_insert_eq. intros [= ->]. split; [set_solver|done].
  - rewrite lookup_insert_ne by done. intros [? ?]%IH. split; [set_solver|done].
Qed.
Lemma added_has l x : NoDup (map sh_hash l) -> x ∈ l -> added ∅ l !! sh_hash x = Some x.
Proof.
  induction l as [|y l IH] using rev_ind; [set_solver|]. rewrite map_app, NoDup_app. intros (Hl & Hn & _) Hin.
  rewrite added_snoc. apply elem_of_app in Hin as [Hin| ->%list_elem_of_singleton]; [|by rewrite lookup_insert_eq].
  rewrite lookup_insert_ne; [by apply IH|]. intros E. apply (Hn (sh_hash x)); [by apply list_elem_of_fmap_2|]. rewrite <- E. set_solver.
Qed.

(** New headers, distinct and verified against each other and the store. *)
Record fresh c (l : list StoredHeader) : Prop := {
  fr_nodup : NoDup (map sh_hash l);
  fr_new : forall x, x ∈ l -> stored c !! sh_hash x = None;
  fr_ok : forall x, x ∈ l -> header_ok c (added ∅ l) x /\ 0 < sh_height x }.

Lemma added_extends c l : fresh c l -> extends c (added ∅ l) (with_headers c (added (stored c) l)) ∅.
Proof.
  intros _. split; [done|]. intros hash x. rewrite look_stored. cbn [with_headers with_store hc_store ms_headers].
  rewrite added_lookup. done.
Qed.
Lemma stored_extends c l : fresh c l -> extends c ∅ (with_headers c (added (stored c) l)) ∅.
Proof.
  intros [_ Hn _]. split; [done|]. intros hash x. rewrite !look_stored. cbn [with_headers with_store hc_store ms_headers].
  rewrite added_lookup. intros Hx. destruct (added ∅ l !! hash) as [y|] eqn:E; [|done]. apply added_elem in E as [Hin <-].
  specialize (Hn y Hin). congruence.
Qed.
Lemma stored_subset c l : fresh c l -> stored c ⊆ added (stored c) l.
Proof.
  intros Hf. apply map_subseteq_spec. intros hash x Hx. destruct (stored_extends c l Hf) as [_ He]. specialize (He hash x).
  rewrite !look_stored in He. by apply He.
Qed.

Lemma kept_added c l : kept c -> fresh c l -> kept (with_headers c (added (stored c) l)).
Proof.
  intros [Hk Hok Hr] Hf. assert (forall hash x, added (stored c) l !! hash = Some x -> x ∈ l /\ sh_hash x = hash \/ stored c !! hash = Some x) as Hcase.
  { intros hash x. rewrite added_lookup. destruct (added ∅ l !! hash) as [y|] eqn:E; [|by right].
    intros [= <-]. left. by apply added_elem. }
  split; cbn [with_headers with_store hc_store ms_headers].
  - intros hash x [[_ ?]|Hx]%Hcase; [done|by eapply Hk].
  - intros hash x [[Hin _]|Hx]%Hcase.
    + eapply header_grows; [by apply added_extends|]. by apply (fr_ok c l Hf).
    + eapply header_grows; [by apply stored_extends|]. by eapply Hok.
  - intros hash hash' x y Hx Hy H0 H0'.
    apply Hcase in Hx as [[Hx _]|Hx]; [destruct (fr_ok c l Hf x Hx); lia|].
    apply Hcase in Hy as [[Hy _]|Hy]; [destruct (fr_ok c l Hf y Hy); lia|]. by eapply Hr.
Qed.

Lemma put_fresh c l : fresh c l -> put_headers (hc_store c) l = (hc_store (with_headers c (added (stored c) l)), Ok tt).
Proof.
  intros [Hd Hn _]. unfold put_headers, with_headers. cbn [hc_store with_store]. destruct (hc_store c) as [headers canonical best]. cbn [ms_headers ms_canonical ms_best] in *.
  revert headers Hn. induction l as [|x l IH]; intros headers Hn; [done|]. cbn [each put_header memory_store].
  unfold memory_put_header. cbn [ms_headers ms_canonical ms_best]. rewrite (Hn x) by left.
  apply NoDup_cons in Hd as [Hx Hd]. apply IH; [done|]. intros y Hy. rewrite lookup_insert_ne; [apply Hn; by right|].
  intros E. apply Hx. rewrite E. by apply list_elem_of_fmap_2.
Qed.

(** ** The canonical chain *)

(** The best header, the path to it, and the canonical hashes of that path; no header
    has more work. *)
Definition best_ok c (best : Hash) : Prop :=
  exists b l, stored c !! best = Some b /\ path_ok (stored c) l /\ last l = Some b /\
    ms_canonical (hc_store c) = canonical_of l /\
    forall hash x, stored c !! hash = Some x -> sh_chainwork x <= sh_chainwork b.
Record chain_valid c : Prop := {
  cv_kept : kept c;
  cv_best : match ms_best (hc_store c) with
            | Some best => best_ok c best
            | None => stored c = ∅ /\ ms_canonical (hc_store c) = ∅
            end }.

Lemma valid_best c b : chain_valid c -> best_header c = Ok (Some b) ->
  ms_best (hc_store c) = Some (sh_hash b) /\ stored c !! sh_hash b = Some b /\
  exists l, path_ok (stored c) l /\ last l = Some b /\ ms_canonical (hc_store c) = canonical_of l /\
    forall hash x, stored c !! hash = Some x -> sh_chainwork x <= sh_chainwork b.
Proof.
  intros [Hk Hb]. unfold best_header. cbn [best_hash memory_store get_header]. destruct (ms_best (hc_store c)) as [best|]; [|done].
  destruct Hb as (b' & l & Hx & Hp & Hl & Hc & Hm). rewrite Hx. intros [= <-]. pose proof (kp_keys c Hk _ _ Hx) as ->. eauto 8.
Qed.
Lemma best_header_cases c : chain_valid c -> (stored c = ∅ /\ best_header c = Ok None) \/ exists best, best_header c = Ok (Some best).
Proof.
  intros [_ Hb]. unfold best_header. cbn [best_hash memory_store get_header].
  destruct (ms_best (hc_store c)) as [best|]; [right|left; by destruct Hb]. destruct Hb as (b & _ & Hb & _). rewrite Hb. by exists b.
Qed.
Lemma valid_has_best c x hash : chain_valid c -> stored c !! hash = Some x -> exists b, best_header c = Ok (Some b).
Proof.
  intros [Hk Hb] Hx. unfold best_header. cbn [best_hash memory_store get_header]. destruct (ms_best (hc_store c)) as [best|].
  - destruct Hb as (b & l & Hb & _). rewrite Hb. by exists b.
  - destruct Hb as [E _]. by rewrite E in Hx.
Qed.

(** The state a promotion leaves. *)
Lemma promoted_valid c l x : kept c -> stored c !! sh_hash x = Some x -> path_ok (stored c) l -> last l = Some x ->
  (forall hash y, stored c !! hash = Some y -> sh_chainwork y <= sh_chainwork x) -> chain_valid (with_best c l (sh_hash x)).
Proof.
  intros Hk Hx Hp Hl Hm. split; [by apply (kept_same c)|]. cbn [with_best with_store hc_store ms_best]. exists x, l. by split_and!.
Qed.

(** Promoting tips on top of the best header. *)
Lemma promote_tips c l l' : kept c -> ms_canonical (hc_store c) = canonical_of l -> path_ok (stored c) (l ++ l') ->
  match last l' with
  | Some x => promote_canonical_tips (hc_store c) l' = (hc_store (with_best c (l ++ l') (sh_hash x)), Ok tt)
  | None => True
  end.
Proof.
  intros Hk Hc. induction l' as [|x l' IH] using rev_ind; [done|]. intros Hp. rewrite last_snoc.
  assert (forall s x, each promote_canonical_tip s (l' ++ [x]) =
    match each promote_canonical_tip s l' with (s, Ok _) => promote_canonical_tip s x | (s, Err e) => (s, Err e) end) as Heach.
  { clear. induction l' as [|y l' IH]; intros s x; cbn; [by destruct (memory_promote_canonical_tip s x) as [? [[]|]]|].
    destruct (memory_promote_canonical_tip s y) as [s' [[]|e]]; [apply IH|done]. }
  unfold promote_canonical_tips. rewrite Heach. clear Heach. rewrite app_assoc in Hp.
  assert (stored c !! sh_hash x = Some x) as Hx by (destruct (Hp (length (l ++ l')) x) as (_ & ? & _); [by rewrite list_lookup_middle|done]).
  specialize (IH (path_prefix _ _ _ Hp)). rewrite app_assoc. unfold promote_canonical_tips in IH.
  destruct (last l') as [y|] eqn:El.
  - rewrite IH. cbn [promote_canonical_tip memory_store with_best with_store hc_store]. unfold memory_promote_canonical_tip.
    cbn [ms_headers ms_canonical]. by rewrite Hx, canonical_of_snoc.
  - apply last_None in El as ->. cbn [each promote_canonical_tip memory_store with_best with_store hc_store].
    unfold memory_promote_canonical_tip. rewrite Hx, app_nil_r, canonical_of_snoc, Hc. done.
Qed.

(** What is left of a chain when headers were added but nothing promoted. *)
Lemma unpromoted_valid c l b : chain_valid c -> fresh c l -> best_header c = Ok (Some b) ->
  (forall x, x ∈ l -> sh_chainwork x <= sh_chainwork b) -> chain_valid (with_headers c (added (stored c) l)).
Proof.
  intros Hv Hf Hbest Hm. destruct (valid_best c b Hv Hbest) as (Eb & Hb & path & Hp & Hl & Hc & Hmax).
  pose proof (kept_added c l (cv_kept c Hv) Hf) as Hk. split; [done|]. cbn [with_headers with_store hc_store ms_best]. rewrite Eb.
  exists b, path. cbn [with_headers with_store hc_store ms_headers ms_canonical]. split_and!; [| |done|done|].
  - eapply lookup_weaken; [exact Hb|by apply stored_subset].
  - by eapply path_grows; [apply stored_subset|].
  - intros hash x. rewrite added_lookup. destruct (added ∅ l !! hash) as [y|] eqn:E; [|apply Hmax].
    intros [= <-]. apply added_elem in E as [Hin _]. by apply Hm.
Qed.

(** ** Settling the best header *)

(** Headers on top of one another, the first on top of the last of the path. *)
Fixpoint linked (prev : Hash) (l : list StoredHeader) : Prop :=
  match l with [] => True | x :: l => h_prev_block (sh_header x) = prev /\ linked (sh_hash x) l end.

Lemma tips_linked_snoc prev l x : linked prev (l ++ [x]) <->
  linked prev l /\ h_prev_block (sh_header x) = match last l with Some y => sh_hash y | None => prev end.
Proof.
  revert prev. induction l as [|y l IH]; intros prev; cbn [linked app]; [cbn; tauto|]. rewrite IH, last_cons.
  destruct (last l); tauto.
Qed.
Lemma linked_iff b x l : linked b (x :: l) <-> bool_decide (h_prev_block (sh_header x) = b) && all_linked (x :: l) = true.
Proof.
  revert b x. induction l as [|y l IH]; intros b x; [cbn; rewrite andb_true_r, bool_decide_eq_true; tauto|].
  change (linked b (x :: y :: l)) with (h_prev_block (sh_header x) = b /\ linked (sh_hash x) (y :: l)).
  change (all_linked (x :: y :: l)) with (bool_decide (h_prev_block (sh_header y) = sh_hash x) && all_linked (y :: l)).
  by rewrite IH, (andb_true_iff (bool_decide (_ = b))), bool_decide_eq_true.
Qed.

(** A path goes on along linked headers. *)
Lemma path_linked c path b l : kept c -> path_ok (stored c) path -> last path = Some b ->
  (forall x, x ∈ l -> stored c !! sh_hash x = Some x /\ 0 < sh_height x) -> linked (sh_hash b) l -> path_ok (stored c) (path ++ l).
Proof.
  intros Hk Hp Hl. induction l as [|x l IH] using rev_ind; [by rewrite app_nil_r|]. intros Hs [Hlink Hprev]%tips_linked_snoc.
  specialize (IH (fun y Hy => Hs y (proj2 (elem_of_app _ _ _) (or_introl Hy))) Hlink).
  destruct (Hs x) as [Hx H0]; [set_solver|]. rewrite app_assoc.
  assert (exists q, last (path ++ l) = Some q /\ h_prev_block (sh_header x) = sh_hash q) as (q & Hq & Eq).
  { rewrite last_app. destruct (last l) as [y|]; eauto. }
  eapply path_snoc; [done|exact Hq|done| |done].
  destruct (kp_ok c Hk _ _ Hx) as [_ [(H1 & _)|(p & Hlook & _ & Hh & _)]]; [lia|]. rewrite look_stored, Eq in Hlook.
  rewrite last_lookup in Hq. destruct (IH _ _ Hq) as (_ & Hq' & _). congruence.
Qed.

Section settle.
Context {c : Chain} {l : list StoredHeader} {b x : StoredHeader}.
Context (Hv : chain_valid c) (Hf : fresh c l) (Hbest : best_header c = Ok (Some b)).
Context (Hin : x ∈ l) (Hmax : forall y, y ∈ l -> sh_chainwork y <= sh_chainwork x) (Hmore : sh_chainwork b < sh_chainwork x).
Notation c1 := (with_headers c (added (stored c) l)).

Lemma settled_stored y : y ∈ l -> stored c1 !! sh_hash y = Some y.
Proof. intros Hy. cbn [with_headers with_store hc_store ms_headers]. by rewrite added_lookup, (added_has l y (fr_nodup c l Hf) Hy). Qed.
Lemma settled_max hash y : stored c1 !! hash = Some y -> sh_chainwork y <= sh_chainwork x.
Proof.
  destruct (valid_best c b Hv Hbest) as (_ & _ & _ & _ & _ & _ & Hall). cbn [with_headers with_store hc_store ms_headers]. rewrite added_lookup.
  destruct (added ∅ l !! hash) as [z|] eqn:E; [|intros Hy; specialize (Hall _ _ Hy); lia]. intros [= <-]. apply added_elem in E as [Hz _]. by apply Hmax.
Qed.

Lemma settle_replace : exists path, promote_best_hash c1 (sh_hash x) = (with_best c1 path (sh_hash x), Ok tt) /\
  chain_valid (with_best c1 path (sh_hash x)).
Proof.
  pose proof (kept_added c l (cv_kept c Hv) Hf) as Hk.
  destruct (promote_best_path c1 x Hk (settled_stored x Hin)) as (path & -> & Hp & Hl). exists path. split; [done|].
  apply promoted_valid; [done|by apply settled_stored|done|done|by apply settled_max].
Qed.

Lemma settle_tips upto : (forall y, y ∈ upto -> y ∈ l) -> last upto = Some x -> linked (sh_hash b) upto ->
  exists path, promote_canonical_tips (hc_store c1) upto = (hc_store (with_best c1 path (sh_hash x)), Ok tt) /\
    chain_valid (with_best c1 path (sh_hash x)).
Proof.
  intros Hsub Hlast Hlink. pose proof (kept_added c l (cv_kept c Hv) Hf) as Hk.
  destruct (valid_best c b Hv Hbest) as (_ & _ & path & Hp & Hl & Hc & _).
  assert (path_ok (stored c1) (path ++ upto)) as Hp'.
  { eapply path_linked; [done|by eapply path_grows; [apply stored_subset|]|done| |done]. intros y Hy%Hsub.
    split; [by apply settled_stored|by apply (fr_ok c l Hf)]. }
  pose proof (promote_tips c1 path upto Hk Hc Hp') as Htips. rewrite Hlast in Htips. exists (path ++ upto). split; [done|].
  apply promoted_valid; [done|by apply settled_stored|done|by rewrite last_app, Hlast|by apply settled_max].
Qed.
End settle.

(** ** Which header becomes the best *)

Definition best_of c : option StoredHeader := match best_header c with Ok best => best | Err _ => None end.
(** The best of before, unless a header has more work; after headers in turn. *)
Definition more (best : option StoredHeader) x : option StoredHeader :=
  match best with Some b => if sh_chainwork b <? sh_chainwork x then Some x else best | None => Some x end.
Definition first_most (best : option StoredHeader) (l : list StoredHeader) : option StoredHeader := fold_left more l best.

Lemma best_of_ok c best : best_header c = Ok best -> best_of c = best.
Proof. unfold best_of. by intros ->. Qed.
Lemma best_of_with_best c path x : stored c !! sh_hash x = Some x -> best_of (with_best c path (sh_hash x)) = Some x.
Proof. intros Hx. unfold best_of, best_header. cbn [best_hash memory_store get_header with_best with_store hc_store ms_best ms_headers]. by rewrite Hx. Qed.

Lemma first_most_none b l : (forall x, x ∈ l -> sh_chainwork x <= sh_chainwork b) -> first_most (Some b) l = Some b.
Proof.
  unfold first_most. induction l as [|x l IH]; [done|]. intros Hl. cbn [fold_left more].
  rewrite (proj2 (Z.ltb_ge _ _)) by (apply Hl; by left). apply IH. intros y Hy. apply Hl. by right.
Qed.
Lemma first_most_below b l w : sh_chainwork b < w -> (forall x, x ∈ l -> sh_chainwork x < w) ->
  exists b', first_most (Some b) l = Some b' /\ sh_chainwork b' < w.
Proof.
  unfold first_most. revert b. induction l as [|x l IH]; intros b Hb Hl; [by exists b|]. cbn [fold_left more].
  destruct (_ <? _); apply IH; try done; try (intros y Hy; apply Hl; by right). apply Hl. by left.
Qed.
(** The first of those with most work. *)
Lemma first_most_at b pre x post : sh_chainwork b < sh_chainwork x -> (forall y, y ∈ pre -> sh_chainwork y < sh_chainwork x) ->
  (forall y, y ∈ post -> sh_chainwork y <= sh_chainwork x) -> first_most (Some b) (pre ++ x :: post) = Some x.
Proof.
  intros Hb Hpre Hpost. destruct (first_most_below b pre _ Hb Hpre) as (b' & E & Hb'). unfold first_most in *.
  rewrite fold_left_app, E. cbn [fold_left more]. rewrite (proj2 (Z.ltb_lt _ _)) by done. by apply first_most_none.
Qed.

(** Where no two tie for most work, the order does not matter. *)
Definition chosen (best : option StoredHeader) (l : list StoredHeader) (r : option StoredHeader) : Prop :=
  (r = best \/ exists x, x ∈ l /\ r = Some x /\ forall b, best = Some b -> sh_chainwork b < sh_chainwork x) /\
  (forall x, x ∈ l -> exists y, r = Some y /\ sh_chainwork x <= sh_chainwork y) /\
  (forall b, best = Some b -> exists y, r = Some y /\ sh_chainwork b <= sh_chainwork y).
Lemma first_most_chosen best l : chosen best l (first_most best l).
Proof.
  unfold first_most. induction l as [|x l IH] using rev_ind; [split_and!; [by left|set_solver|intros b ->; by exists b]|].
  rewrite fold_left_app. cbn [fold_left]. destruct IH as (Hr & Hl & Hb).
  destruct (fold_left more l best) as [r|] eqn:E; cbn [more].
  - destruct (Z.ltb_spec (sh_chainwork r) (sh_chainwork x)).
    + split_and!.
      * right. exists x. split_and!; [set_solver|done|]. intros b Eb. destruct (Hb b Eb) as (y & [= <-] & ?). lia.
      * intros y [Hy| ->%list_elem_of_singleton]%elem_of_app; exists x; [|done]. destruct (Hl y Hy) as (? & [= <-] & ?). split; [done|lia].
      * intros b Eb. destruct (Hb b Eb) as (y & [= <-] & ?). exists x. split; [done|lia].
    + split_and!.
      * destruct Hr as [Hr|(y & Hy & Hr)]; [by left|right; exists y; split; [set_solver|done]].
      * intros y [Hy| ->%list_elem_of_singleton]%elem_of_app; [by apply Hl|by exists r].
      * done.
  - assert (l = []) as -> by (destruct l as [|y l]; [done|]; destruct (Hl y) as (? & ? & _); [by left|done]).
    split_and!.
    + right. exists x. split_and!; [set_solver|done|]. intros b Eb. by destruct (Hb b Eb) as (? & ? & _).
    + intros y ->%list_elem_of_singleton. by exists x.
    + intros b Eb. by destruct (Hb b Eb) as (? & ? & _).
Qed.
Definition no_tie (l : list StoredHeader) : Prop :=
  forall x y, x ∈ l -> y ∈ l -> sh_chainwork x = sh_chainwork y -> (forall z, z ∈ l -> sh_chainwork z <= sh_chainwork x) -> x = y.
Lemma first_most_no_tie best l : no_tie l -> first_most best (reverse l) = first_most best l.
Proof.
  intros Ht. pose proof (first_most_chosen best (reverse l)) as Hc. pose proof (first_most_chosen best l) as Hc'.
  revert Hc Hc'. generalize (first_most best (reverse l)) (first_most best l). intros r r' (Hr & Hl & _) (Hr' & Hl' & _).
  setoid_rewrite elem_of_reverse in Hl. setoid_rewrite elem_of_reverse in Hr.
  destruct Hr as [Hr|(x & Hx & Hr & Hbx)]; destruct Hr' as [Hr'|(x' & Hx' & Hr' & Hbx')].
  - congruence.
  - destruct (Hl x' Hx') as (y & Hy & ?). specialize (Hbx' y ltac:(congruence)). lia.
  - destruct (Hl' x Hx) as (y & Hy & ?). specialize (Hbx y ltac:(congruence)). lia.
  - subst r r'. destruct (Hl x' Hx') as (? & [= <-] & ?). destruct (Hl' x Hx) as (? & [= <-] & ?). f_equal.
    apply Ht; [done|done|lia|]. intros z Hz. by destruct (Hl z Hz) as (? & [= <-] & ?).
Qed.

(** ** One header *)

(** The header of a hash is known. *)
Definition known c (hash : Hash) : bool := negb (bool_decide (stored c !! hash = None)).

Lemma extends_pending c l : (forall x, x ∈ l -> stored c !! sh_hash x = None) -> extends c ∅ c (added ∅ l).
Proof.
  intros Hn. split; [done|]. intros hash x. rewrite look_stored. unfold look. intros Hx.
  destruct (added ∅ l !! hash) as [y|] eqn:E; [|done]. apply added_elem in E as [Hin <-]. specialize (Hn _ Hin). congruence.
Qed.

Lemma check_child c header x : kept c -> check_header c header = Ok x ->
  sh_header x = header /\ sh_hash x = header_hash header /\ exists p, child_ok c ∅ x p.
Proof.
  intros Hk. unfold check_header. change (get_header (hc_store c) (h_prev_block header)) with (stored c !! h_prev_block header).
  destruct (stored c !! h_prev_block header) as [p|] eqn:Ep; [|done]. cbn [ok_or]. unfold height_succ.
  destruct (Z.leb_spec (sh_height p + 1) u32_max) as [Hu|]; [|done]. cbn [ok_or].
  destruct (validate_difficulty_bits c header p) as [[]|] eqn:Ed; [|done].
  destruct (verify_pow _ _) as [[]|] eqn:Ew; [|done..]. cbn [pow_error negb].
  destruct (validate_checkpoint _ _ _) as [[]|] eqn:Ec; [|done]. destruct (chainwork_from_bits _) as [w|] eqn:Eb; [|done].
  intros [= <-]. cbn. split_and!; [done|done|]. exists p. split_and!; cbn; [by rewrite look_stored| |done|done|done|done|done|by exists w].
  by eapply header_height, (kp_ok c Hk).
Qed.

(** A checked header of a new hash can be added. *)
Lemma check_fresh c header x : kept c -> check_header c header = Ok x -> stored c !! sh_hash x = None -> fresh c [x].
Proof.
  intros Hk Hcheck Hn. destruct (check_child c header x Hk Hcheck) as (Eh & Ehash & p & Hp).
  assert (forall y, y ∈ [x] -> stored c !! sh_hash y = None) as Hnew by (intros y ->%list_elem_of_singleton; done).
  split; [by apply NoDup_singleton|done|]. intros y ->%list_elem_of_singleton. split.
  - split; [by rewrite Eh|]. right. exists p. eapply child_grows; [by apply extends_pending|done].
  - destruct Hp as (_ & H1 & H2 & _). lia.
Qed.
(** Its parent is stored, so there is a best header. *)
Lemma check_has_best c header x : chain_valid c -> check_header c header = Ok x -> exists b, best_header c = Ok (Some b).
Proof.
  intros Hv Hcheck. destruct (check_child c header x (cv_kept c Hv) Hcheck) as (_ & _ & p & Hl & _).
  rewrite look_stored in Hl. by eapply valid_has_best.
Qed.

Lemma with_store_self c : with_store c (hc_store c) = c.
Proof. by destruct c. Qed.
Lemma best_with_headers c headers b : best_header c = Ok (Some b) -> stored c ⊆ headers -> best_header (with_headers c headers) = Ok (Some b).
Proof.
  unfold best_header. cbn [best_hash memory_store get_header with_headers with_store hc_store ms_best ms_headers].
  destruct (ms_best _) as [best|]; [|done]. destruct (stored c !! best) as [b'|] eqn:E; [|done]. intros [= ->] Hs.
  by rewrite (lookup_weaken _ _ _ _ E Hs).
Qed.

(** What a call does: an error leaves the chain as it was; a header checked against
    the chain is added and the best header settled. *)
Record inserted c c' (l : list StoredHeader) : Prop := {
  in_valid : chain_valid c';
  in_policy : hc_policy c' = hc_policy c;
  in_stored : stored c' = added (stored c) l;
  in_nodup : NoDup (map sh_hash l);
  in_new : forall x, x ∈ l -> stored c !! sh_hash x = None }.

Lemma inserted_fresh c c' l : fresh c l -> chain_valid c' -> hc_policy c' = hc_policy c -> stored c' = added (stored c) l -> inserted c c' l.
Proof. intros [Hd Hn _] **. by split. Qed.
Lemma inserted_with_best c l path best : fresh c l -> chain_valid (with_best (with_headers c (added (stored c) l)) path best) ->
  inserted c (with_best (with_headers c (added (stored c) l)) path best) l.
Proof. intros Hf Hv. by apply inserted_fresh. Qed.

Lemma insert_header_does c header : chain_valid c ->
  match insert_header c header with
  | (c', Ok x) => check_header c header = Ok x /\ known c (sh_hash x) = false /\ inserted c c' [x] /\ best_of c' = more (best_of c) x
  | (c', Err e) => c' = c /\ (check_header c header = Err e \/ known c (header_hash header) = true)
  end.
Proof.
  intros Hv. unfold insert_header. destruct (check_header c header) as [x|e] eqn:Hcheck; [|by split; [|left]].
  destruct (check_child c header x (cv_kept c Hv) Hcheck) as (Eh & Ehash & _).
  cbn [put_header memory_store]. unfold memory_put_header. destruct (stored c !! sh_hash x) as [y|] eqn:Hn.
  { cbv zeta beta iota. rewrite with_store_self. split; [done|]. right. unfold known. by rewrite <- Ehash, Hn. }
  pose proof (check_fresh c header x (cv_kept c Hv) Hcheck Hn) as Hf. destruct (check_has_best c header x Hv Hcheck) as [b Hb].
  rewrite (best_of_ok _ _ Hb).
  assert (forall P, inserted c P [x] -> best_of P = more (Some b) x ->
    @Ok ChainError _ x = Ok x /\ known c (sh_hash x) = false /\ inserted c P [x] /\
    best_of P = more (Some b) x) as Hdone.
  { intros P HP HB. split_and!; [done| |done..]. unfold known. by rewrite Hn. }
  change (with_store c _) with (with_headers c (added (stored c) [x])).
  pose proof (best_with_headers c _ b Hb (stored_subset c [x] Hf)) as Hb1. rewrite Hb1.
  assert (x ∈ [x]) as Hin by set_solver. assert (forall y, y ∈ [x] -> sh_chainwork y <= sh_chainwork x) as Hmax by (intros y ->%list_elem_of_singleton; lia).
  pose proof (fun path => best_of_with_best (with_headers c (added (stored c) [x])) path x (settled_stored Hf x Hin)) as Hbest.
  destruct (sh_chainwork b <? sh_chainwork x) eqn:Hlt; [apply Z.ltb_lt in Hlt as Hmore|apply Z.ltb_ge in Hlt as Hless].
  - assert (forall path, best_of (with_best (with_headers c (added (stored c) [x])) path (sh_hash x)) =
      more (Some b) x) as Hbest' by (intros path; cbn [more]; by rewrite Hlt, Hbest).
    destruct (bool_decide _) eqn:Hext.
    + apply bool_decide_eq_true in Hext.
      destruct (settle_tips Hv Hf Hb Hin Hmax Hmore [x]) as (path & Htips & Hvalid); [done|done|by split; [congruence|]|].
      cbn [promote_canonical_tips each] in Htips. unfold promote_canonical_tips in Htips. cbn [each] in Htips.
      destruct (promote_canonical_tip _ x) as [s [[]|]]; [|done]. injection Htips as ->.
      exact (Hdone _ (inserted_with_best c [x] path (sh_hash x) Hf Hvalid) (Hbest' path)).
    + destruct (settle_replace Hv Hf Hb Hin Hmax Hmore) as (path & -> & Hvalid).
      exact (Hdone _ (inserted_with_best c [x] path (sh_hash x) Hf Hvalid) (Hbest' path)).
  - apply Hdone; [apply inserted_fresh; [done| |done|done]|cbn [more]; rewrite Hlt; by apply best_of_ok].
    apply (unpromoted_valid c [x] b Hv Hf Hb). intros y ->%list_elem_of_singleton. done.
Qed.

(** ** The genesis *)

(** A genesis is taken by an empty store, or under the policy of the main network. *)
Definition genesis_allowed c : Prop := hc_policy c = PolicyMainnet \/ stored c = ∅.

Lemma valid_root c : chain_valid c -> stored c <> ∅ -> exists r, stored c !! sh_hash r = Some r /\ sh_height r = 0.
Proof.
  intros [Hk Hb] Hne. destruct (ms_best _) as [best|]; [|by destruct Hb].
  destruct Hb as (b & l & _ & Hp & Hl & _). destruct l as [|r l]; [done|]. destruct (Hp 0%nat r eq_refl) as (Hr & Hs & _). exists r. done.
Qed.

Lemma insert_genesis_does c header : chain_valid c -> genesis_allowed c ->
  match insert_genesis c header with
  | (c', Ok x) => stored c = ∅ /\ genesis_ok c x /\ sh_header x = header /\ inserted c c' [x]
  | (c', Err e) => c' = c
  end.
Proof.
  intros Hv Hallow. unfold insert_genesis. destruct (validate_genesis c header) as [[]|] eqn:Hgen; [|done].
  destruct (chainwork_from_bits (h_bits header)) as [w|] eqn:Hw; [|done]. cbn [pow_error]. cbv zeta.
  set (x := {| sh_hash := header_hash header; sh_header := header; sh_height := 0; sh_chainwork := w |}).
  assert (hc_policy c = PolicyMainnet -> header = genesis_for_network Mainnet) as Hmain.
  { intros E. revert Hgen. unfold validate_genesis. rewrite (bool_decide_eq_true_2 (hc_policy c = PolicyMainnet) E).
    by destruct (decide (header = genesis_for_network Mainnet)); [|rewrite bool_decide_eq_false_2]. }
  cbn [put_header memory_store]. unfold memory_put_header. destruct (stored c !! sh_hash x) as [y|] eqn:Hn.
  { cbv zeta beta iota. by rewrite with_store_self. }
  assert (stored c = ∅) as Hempty.
  { destruct Hallow as [Hp|]; [|done]. destruct (decide (stored c = ∅)) as [|Hne]; [done|exfalso].
    destruct (valid_root c Hv Hne) as (r & Hr & H0). destruct (kp_ok c (cv_kept c Hv) _ _ Hr) as [Hh [(_ & _ & Hg)|(p & _ & Hp0 & Hp1 & _)]]; [|lia].
    unfold x in Hn. cbn [sh_hash] in Hn. rewrite (Hmain Hp), <- (Hg Hp), <- Hh, Hr in Hn. done. }
  change (with_store c _) with (with_headers c (added (stored c) [x])).
  set (c1 := with_headers c (added (stored c) [x])).
  assert (genesis_ok c x) as Hok by done.
  assert (forall hash y, stored c1 !! hash = Some y -> hash = sh_hash x /\ y = x) as Hall.
  { intros hash y. cbn [c1 with_headers with_store hc_store ms_headers]. rewrite Hempty. cbn [added fold_left]. intros [[<- <-]|[_ ?]]%lookup_insert_Some; done. }
  assert (kept c1) as Hk.
  { split; [by intros hash y [-> ->]%Hall|intros hash y [_ ->]%Hall; split; [done|by left]|].
    by intros hash hash' y z [_ ->]%Hall [_ ->]%Hall. }
  assert (stored c1 !! sh_hash x = Some x) as Hx by (cbn [c1 with_headers with_store hc_store ms_headers added fold_left]; by rewrite lookup_insert_eq).
  destruct (promote_best_path c1 x Hk Hx) as (path & -> & Hp & Hl). split_and!; [done|done|done|].
  split; [|done|done|by apply NoDup_singleton|intros y _; by rewrite Hempty].
  apply promoted_valid; [done..|]. intros hash y [_ ->]%Hall. done.
Qed.
End props.
