(* ===== verification/BrowserBatchProps.v ===== *)
(** * Browser header chain: inserting a batch

    A batch reads the headers it accepted before as if they were stored, so it accepts
    what inserting one by one accepts; it settles the best header once, at the end. *)

From S2P Require Import Prelude Text ByteOrder IcannDane PrimHash PrimPow PrimHeader BrowserChain BrowserChainProps.

Section batch.
Context `{Hashers}.
Notation Chain := (HeaderChain MemoryHeaderStore).
Notation stored c := (ms_headers (hc_store c)).
Implicit Types (c d : Chain) (x p : StoredHeader) (b : Batch).

(** ** One turn of the batch is one check *)

(** The two chains know the same headers. *)
Definition same_view c pending d : Prop := extends c pending d ∅ /\ extends d ∅ c pending.

Lemma same_view_added c l : fresh c l -> same_view c (added ∅ l) (with_headers c (added (stored c) l)).
Proof.
  intros Hf. split; [by apply added_extends|]. split; [done|]. intros hash x. rewrite look_stored.
  cbn [with_headers with_store hc_store ms_headers]. by rewrite added_lookup.
Qed.

(** Equal up to the error. *)
Definition same_ok {E E' A} (r : result E A) (r' : result E' A) : Prop := forall a, r = Ok a <-> r' = Ok a.

Lemma same_view_look c pending d hash : same_view c pending d -> look c pending hash = look d ∅ hash.
Proof.
  intros [[_ H1] [_ H2]]. destruct (look c pending hash) as [x|] eqn:E; [by rewrite (H1 _ _ E)|].
  destruct (look d ∅ hash) as [x|] eqn:E2; [by rewrite (H2 _ _ E2) in E|done].
Qed.
Lemma same_view_difficulty c pending d header p : same_view c pending d ->
  validate_difficulty_bits_with_pending c header p pending = Ok tt <-> validate_difficulty_bits d header p = Ok tt.
Proof. intros [H1 H2]. split; [by apply difficulty_grows|by apply difficulty_grows]. Qed.

(** The batch so far, over the chain it started from. *)
Record batch_inv c b : Prop := {
  bi_pending : bt_pending b = added ∅ (bt_accepted b);
  bi_fresh : fresh c (bt_accepted b);
  bi_seen : forall hash, hash ∈ bt_seen b -> known (with_headers c (added (stored c) (bt_accepted b))) hash = true;
  bi_accepted : forall x, x ∈ bt_accepted b -> sh_hash x ∈ bt_seen b;
  bi_work : forall bits w, bt_work b !! bits = Some w -> chainwork_from_bits bits = Ok w }.

Lemma batch_new_inv c : batch_inv c batch_new.
Proof.
  split; cbn; [done| |set_solver|set_solver|done]. split; [constructor|set_solver|set_solver].
Qed.

Lemma work_of_bits_ok (work : gmap Z Z) bits : (forall k w, work !! k = Some w -> chainwork_from_bits k = Ok w) ->
  match work_of_bits work bits with
  | Ok (work', w) => chainwork_from_bits bits = Ok w /\ forall k v, work' !! k = Some v -> chainwork_from_bits k = Ok v
  | Err e => pow_error (chainwork_from_bits bits) = Err e
  end.
Proof.
  intros Hw. unfold work_of_bits. destruct (work !! bits) as [w|] eqn:E; [by split; [apply Hw|]|].
  destruct (chainwork_from_bits bits) as [w|e] eqn:Ew; [|done]. cbn. split; [done|].
  intros k v [[<- <-]|[_ Hv]]%lookup_insert_Some; [done|by apply Hw].
Qed.

(** The chain the batch stands for. *)
Notation after c b := (with_headers c (added (stored c) (bt_accepted b))).

Lemma known_after c b hash : batch_inv c b -> known (after c b) hash = bool_decide (hash ∈ bt_seen b) || bool_decide (stored c !! hash <> None).
Proof.
  intros Hb. destruct (decide (hash ∈ bt_seen b)) as [Hs|Hs].
  - rewrite (bool_decide_eq_true_2 (hash ∈ bt_seen b)) by done. by apply (bi_seen c b Hb).
  - rewrite (bool_decide_eq_false_2 (hash ∈ bt_seen b)) by done. cbn [orb]. unfold known.
    cbn [with_headers with_store hc_store ms_headers]. rewrite added_lookup. destruct (added ∅ _ !! hash) as [x|] eqn:E.
    + apply added_elem in E as [Hin <-]. by apply (bi_accepted c b Hb) in Hin.
    + symmetry. apply bool_decide_not.
Qed.

Section step.
Context {c : Chain} {b : Batch} (Hk : kept c) (Hb : batch_inv c b) (header : BlockHeader).
Notation d := (after c b).
Notation hash := (header_hash header).

Lemma batch_look : match bt_pending b !! h_prev_block header with
                   | Some parent => Some parent
                   | None => get_header (hc_store c) (h_prev_block header)
                   end = stored d !! h_prev_block header.
Proof.
  rewrite (bi_pending c b Hb). change (get_header (hc_store c) (h_prev_block header)) with (stored c !! h_prev_block header).
  cbn [with_headers with_store hc_store ms_headers]. by rewrite (added_lookup (stored c)).
Qed.
Lemma batch_difficulty p :
  validate_difficulty_bits_with_pending c header p (bt_pending b) = Ok tt <-> validate_difficulty_bits d header p = Ok tt.
Proof. apply same_view_difficulty. rewrite (bi_pending c b Hb). by apply same_view_added, Hb. Qed.

Lemma batch_skip : known d hash = true ->
  exists b', batch_step c b header = Ok b' /\ bt_accepted b' = bt_accepted b /\ batch_inv c b'.
Proof.
  intros Hknown. pose proof Hknown as Hnew. rewrite (known_after c b _ Hb) in Hnew. unfold batch_step. cbv zeta.
  change (get_header (hc_store c) hash) with (stored c !! hash). rewrite Hnew.
  eexists. split_and!; [done|done|]. split; cbn; [apply (bi_pending c b Hb)|apply (bi_fresh c b Hb)| | |apply (bi_work c b Hb)].
  - intros h [->%elem_of_singleton|Hh]%elem_of_union; [done|by apply (bi_seen c b Hb)].
  - intros x Hx. apply elem_of_union_r. by apply (bi_accepted c b Hb).
Qed.

(** A checked header joins the batch. *)
Lemma fresh_snoc x : check_header d header = Ok x -> known d hash = false -> fresh c (bt_accepted b ++ [x]).
Proof.
  intros Hcheck Hnew. pose proof (bi_fresh c b Hb) as Hf. pose proof (kept_added c _ Hk Hf) as Hkd.
  destruct (check_child d header x Hkd Hcheck) as (Eh & Ehash & p & Hp). rewrite <- Ehash in Hnew.
  unfold known in Hnew. apply negb_false_iff, bool_decide_eq_true in Hnew.
  assert (forall h y, stored d !! h = Some y -> stored (with_headers c (added (stored c) (bt_accepted b ++ [x]))) !! h = Some y) as Hgrow.
  { intros h y Hy. cbn [with_headers with_store hc_store ms_headers]. rewrite added_snoc.
    destruct (decide (sh_hash x = h)) as [<-|Hne]; [congruence|by rewrite lookup_insert_ne]. }
  assert (extends d ∅ c (added ∅ (bt_accepted b ++ [x]))) as He.
  { split; [done|]. intros h y. rewrite look_stored. intros Hy%Hgrow. revert Hy. cbn [with_headers with_store hc_store ms_headers].
    by rewrite added_lookup. }
  assert (stored c !! sh_hash x = None) as Hn.
  { apply eq_None_not_Some. intros [y Hy]. pose proof (lookup_weaken _ _ _ _ Hy (stored_subset c _ Hf)) as Hy'. cbn in Hnew. congruence. }
  split.
  - rewrite map_app. apply NoDup_app. split_and!; [apply (fr_nodup c _ Hf)| |by apply NoDup_singleton].
    intros h (y & -> & Hy)%list_elem_of_fmap Hh%list_elem_of_singleton. cbn in Hnew. rewrite added_lookup, <- Hh, (added_has _ y (fr_nodup c _ Hf) Hy) in Hnew. done.
  - intros y [Hy| ->%list_elem_of_singleton]%elem_of_app; [by apply (fr_new c _ Hf)|done].
  - intros y [Hy| ->%list_elem_of_singleton]%elem_of_app.
    + destruct (fr_ok c _ Hf y Hy) as [Hok H0]. split; [|done]. eapply header_grows; [|exact Hok].
      split; [done|]. intros h z Hz. apply He. rewrite look_stored. cbn [with_headers with_store hc_store ms_headers]. by rewrite added_lookup.
    + split; [|destruct Hp as (_ & ? & ? & _); lia]. eapply header_grows; [exact He|]. split; [by rewrite Eh|]. right. by exists p.
Qed.

Lemma batch_accept x work : check_header d header = Ok x -> known d hash = false ->
  (forall k v, work !! k = Some v -> chainwork_from_bits k = Ok v) ->
  batch_inv c {| bt_seen := {[hash]} ∪ bt_seen b; bt_pending := <[hash := x]> (bt_pending b); bt_work := work;
                 bt_accepted := bt_accepted b ++ [x] |}.
Proof.
  intros Hcheck Hnew Hwork. pose proof (fresh_snoc x Hcheck Hnew) as Hf. pose proof (kept_added c _ Hk (bi_fresh c b Hb)) as Hkd.
  destruct (check_child d header x Hkd Hcheck) as (_ & Ehash & _). split; cbn [bt_seen bt_pending bt_work bt_accepted]; [|done| | |done].
  - by rewrite added_snoc, Ehash, (bi_pending c b Hb).
  - intros h Hh. unfold known. cbn [with_headers with_store hc_store ms_headers]. rewrite added_snoc.
    destruct (decide (sh_hash x = h)) as [<-|Hne]; [by rewrite lookup_insert_eq|]. rewrite lookup_insert_ne by done.
    apply elem_of_union in Hh as [Hh%elem_of_singleton|Hh]; [congruence|]. by apply (bi_seen c b Hb) in Hh.
  - intros y [Hy| ->%list_elem_of_singleton]%elem_of_app; [apply elem_of_union_r; by apply (bi_accepted c b Hb)|].
    rewrite Ehash. set_solver.
Qed.

Lemma batch_step_ok x : check_header d header = Ok x -> known d hash = false ->
  exists b', batch_step c b header = Ok b' /\ bt_accepted b' = bt_accepted b ++ [x] /\ batch_inv c b'.
Proof.
  intros Hcheck Hnew. pose proof Hcheck as Hc. unfold check_header in Hc. cbv zeta in Hc.
  change (get_header (hc_store d) (h_prev_block header)) with (stored d !! h_prev_block header) in Hc.
  pose proof Hnew as Hseen. rewrite (known_after c b _ Hb) in Hseen. unfold batch_step. cbv zeta.
  rewrite batch_look. change (get_header (hc_store c) hash) with (stored c !! hash). rewrite Hseen.
  destruct (stored d !! h_prev_block header) as [p|]; [|done]. cbn [ok_or] in Hc |- *.
  destruct (height_succ (sh_height p)) as [height|]; [|done]. cbn [ok_or] in Hc |- *.
  destruct (validate_difficulty_bits d header p) as [[]|] eqn:Ed; [|done]. rewrite (proj2 (batch_difficulty p) Ed).
  destruct (pow_error (verify_pow hash (h_bits header))) as [[]|]; [|done..]. cbn [negb] in Hc |- *.
  rewrite <- (checkpoint_policy c d) by done. destruct (validate_checkpoint d height hash); [|done].
  pose proof (work_of_bits_ok (bt_work b) (h_bits header) (bi_work c b Hb)) as Hw.
  destruct (work_of_bits (bt_work b) (h_bits header)) as [[work w]|e]; [destruct Hw as [Ew Hwork]|by rewrite Hw in Hc].
  rewrite Ew in Hc. injection Hc as Ex. rewrite Ex. eexists. split_and!; [done|done|]. by apply batch_accept.
Qed.

Lemma batch_step_err e : check_header d header = Err e -> known d hash = false -> exists e', batch_step c b header = Err e'.
Proof.
  intros Hc Hseen. destruct (batch_step c b header) as [b'|e'] eqn:Hstep; [exfalso|by eexists].
  unfold check_header in Hc. cbv zeta in Hc.
  change (get_header (hc_store d) (h_prev_block header)) with (stored d !! h_prev_block header) in Hc.
  rewrite (known_after c b _ Hb) in Hseen. unfold batch_step in Hstep. cbv zeta in Hstep.
  rewrite batch_look in Hstep. change (get_header (hc_store c) hash) with (stored c !! hash) in Hstep. rewrite Hseen in Hstep.
  destruct (stored d !! h_prev_block header) as [p|]; [|done]. cbn [ok_or] in Hc, Hstep.
  destruct (validate_difficulty_bits_with_pending _ _ _ _) as [[]|] eqn:Ed; [|done]. rewrite (proj1 (batch_difficulty p) Ed) in Hc.
  destruct (pow_error (verify_pow hash (h_bits header))) as [[]|]; [|done..]. cbn [negb] in Hc, Hstep.
  destruct (height_succ (sh_height p)) as [height|]; [|done]. cbn [ok_or] in Hc, Hstep.
  rewrite <- (checkpoint_policy c d) in Hstep by done. destruct (validate_checkpoint d height hash); [|done].
  pose proof (work_of_bits_ok (bt_work b) (h_bits header) (bi_work c b Hb)) as Hw.
  destruct (work_of_bits (bt_work b) (h_bits header)) as [[work w]|e'']; [|done]. destruct Hw as [Ew _]. by rewrite Ew in Hc.
Qed.
End step.

(** ** The batch is the sequence *)

(** The headers one by one, those already known passed over. *)
Fixpoint insert_new c (headers : list BlockHeader) : Chain * result ChainError (list StoredHeader) :=
  match headers with
  | [] => (c, Ok [])
  | header :: headers =>
      if known c (header_hash header) then insert_new c headers else
      let '(c, r) := insert_header c header in
      match r with
      | Err e => (c, Err e)
      | Ok x => let '(c, r) := insert_new c headers in (c, result_map (cons x) r)
      end
  end.

Lemma check_grows c d header x : extends c ∅ d ∅ -> check_header c header = Ok x -> check_header d header = Ok x.
Proof.
  intros He. unfold check_header. cbv zeta. change (get_header (hc_store c) (h_prev_block header)) with (stored c !! h_prev_block header).
  change (get_header (hc_store d) (h_prev_block header)) with (stored d !! h_prev_block header).
  destruct (stored c !! h_prev_block header) as [p|] eqn:Ep; [|done]. pose proof He as [Hpol Hlook].
  rewrite <- look_stored in Ep. apply Hlook in Ep. rewrite look_stored in Ep. rewrite Ep. cbn [ok_or].
  destruct (height_succ (sh_height p)); [|done]. cbn [ok_or]. rewrite (checkpoint_policy c d _ _ Hpol).
  destruct (validate_difficulty_bits c header p) as [[]|] eqn:Ed; [|done].
  by rewrite (difficulty_grows He _ _ Ed : validate_difficulty_bits d header p = Ok tt).
Qed.
Lemma extends_same c d : hc_policy d = hc_policy c -> stored d = stored c -> extends c ∅ d ∅.
Proof. intros Hp Hs. split; [done|]. intros h x. by rewrite !look_stored, Hs. Qed.
Lemma check_same c d header x : hc_policy d = hc_policy c -> stored d = stored c -> check_header c header = Ok x <-> check_header d header = Ok x.
Proof. intros Hp Hs. split; apply check_grows; by apply extends_same. Qed.

Lemma run_sequential c : kept c -> forall headers b d, batch_inv c b ->
  chain_valid d -> hc_policy d = hc_policy c -> stored d = added (stored c) (bt_accepted b) ->
  match batch_run c b headers, insert_new d headers with
  | Ok b', (d', Ok l) => batch_inv c b' /\ bt_accepted b' = bt_accepted b ++ l /\ best_of d' = first_most (best_of d) l /\
                         chain_valid d' /\ hc_policy d' = hc_policy c /\ stored d' = added (stored c) (bt_accepted b')
  | Err _, (_, Err _) => True
  | _, _ => False
  end.
Proof.
  intros Hk. induction headers as [|header headers IH]; intros b d Hb Hd Hp Hs; cbn [batch_run insert_new].
  { by rewrite app_nil_r. }
  assert (known d (header_hash header) = known (after c b) (header_hash header)) as Hknown by (unfold known; by rewrite Hs).
  rewrite Hknown. destruct (known (after c b) (header_hash header)) eqn:Hnew.
  { destruct (batch_skip Hb header Hnew) as (b' & -> & Ha & Hb'). rewrite <- Ha in Hs |- *. by apply IH. }
  pose proof (insert_header_does d header Hd) as Hins. destruct (insert_header d header) as [d1 [x|e]].
  - destruct Hins as (Hcheck & _ & [Hd1 Hp1 Hs1 _ _] & Hb1).
    apply (check_same (after c b) d) in Hcheck; [|done..].
    destruct (batch_step_ok Hk Hb header x Hcheck Hnew) as (b' & -> & Ha & Hb').
    specialize (IH b' d1 Hb' Hd1). rewrite Ha, added_snoc, Hp1 in IH. rewrite Hs1, Hs in IH. specialize (IH Hp eq_refl).
    destruct (batch_run c b' headers) as [b2|]; destruct (insert_new d1 headers) as [d2 [l|]]; cbn [result_map]; try done.
    destruct IH as (? & -> & Hb2 & ? & ? & ->). rewrite <- app_assoc. split_and!; try done. by rewrite Hb2, Hb1.
  - destruct Hins as [-> [Hcheck|?]]; [|congruence].
    destruct (check_header (after c b) header) as [x|e'] eqn:Hc.
    + apply (check_same (after c b) d) in Hc; [congruence|done..].
    + by destruct (batch_step_err Hb header e' Hc Hnew) as [e2 ->].
Qed.

(** ** The best of the accepted *)

(** The last of those with most work, at index [i]. *)
Definition last_most_at (l : list StoredHeader) (i : nat) x : Prop :=
  exists pre post, l = pre ++ x :: post /\ length pre = i /\ (forall y, y ∈ pre -> sh_chainwork y <= sh_chainwork x) /\
    forall y, y ∈ post -> sh_chainwork y < sh_chainwork x.

Lemma max_by_work_best headers seen i y : last_most_at seen i y ->
  let '(j, x) := max_by_work (length seen) (i, y) headers in last_most_at (seen ++ headers) j x.
Proof.
  revert seen i y. induction headers as [|h headers IH]; intros seen i y Hy; cbn [max_by_work snd].
  { by rewrite app_nil_r. }
  specialize (IH (seen ++ [h])). rewrite <- app_assoc, length_app, Nat.add_1_r in IH. cbn [app] in IH. destruct Hy as (pre & post & -> & Hi & Hpre & Hpost).
  destruct (Z.ltb_spec (sh_chainwork h) (sh_chainwork y)) as [Hlt|Hge].
  - apply IH. exists pre, (post ++ [h]). rewrite <- app_assoc. split_and!; [done|done|done|].
    intros z [Hz| ->%list_elem_of_singleton]%elem_of_app; [by apply Hpost|done].
  - apply IH. exists (pre ++ y :: post), []. split_and!; [done|done| |set_solver].
    intros z [Hz|[->|Hz]%elem_of_cons]%elem_of_app; [specialize (Hpre z Hz); lia|lia|specialize (Hpost z Hz); lia].
Qed.
Lemma best_candidate_best l : l <> [] -> exists i x, best_candidate l = Some (i, x) /\ last_most_at l i x.
Proof.
  destruct l as [|h l]; [done|]. intros _. unfold best_candidate. pose proof (max_by_work_best l [h] 0 h) as Hm. cbn [length app] in Hm.
  destruct (max_by_work 1 (0%nat, h) l) as [i x]. exists i, x. split; [done|]. apply Hm. exists [], []. split_and!; [done|done|set_solver|set_solver].
Qed.
Lemma last_most_spec l i x : last_most_at l i x -> l !! i = Some x /\ forall y, y ∈ l -> sh_chainwork y <= sh_chainwork x.
Proof.
  intros (pre & post & -> & <- & Hpre & Hpost). split; [by apply list_lookup_middle|].
  intros y [Hy|[->|Hy]%elem_of_cons]%elem_of_app; [by apply Hpre|lia|specialize (Hpost y Hy); lia].
Qed.
(** Taking the headers from the last to the first, it is the first with more work. *)
Lemma last_most_reverse best l i x : sh_chainwork best < sh_chainwork x -> last_most_at l i x ->
  first_most (Some best) (reverse l) = Some x.
Proof.
  intros Hb (pre & post & -> & _ & Hpre & Hpost). rewrite reverse_app, reverse_cons, <- app_assoc. cbn [app].
  apply first_most_at; [done|intros y Hy; apply Hpost; by apply elem_of_reverse|intros y Hy; apply Hpre; by apply elem_of_reverse].
Qed.

(** ** The batch settled *)

(** Some header of the batch has a stored parent: heights go down to one. *)
Lemma fresh_has_best c l x : chain_valid c -> fresh c l -> x ∈ l -> exists best, best_header c = Ok (Some best).
Proof.
  intros Hv Hf. assert (forall n x, x ∈ l -> sh_height x <= Z.of_nat n -> exists best, best_header c = Ok (Some best)) as Hdown.
  { induction n as [|n IH]; intros y Hy Hn; destruct (fr_ok c l Hf y Hy) as [[_ [(H0 & _)|(p & Hp & _ & Hh & _)]] Hpos]; [lia..|lia|].
    unfold look in Hp. destruct (added ∅ l !! _) as [q|] eqn:E.
    - injection Hp as ->. apply added_elem in E as [Hin _]. apply (IH p Hin). lia.
    - by eapply valid_has_best. }
  intros Hx. apply (Hdown (Z.to_nat (sh_height x)) x Hx). lia.
Qed.

Lemma insert_headers_settles c b headers : chain_valid c -> batch_inv c b -> batch_run c batch_new headers = Ok b ->
  exists c', insert_headers c headers = (c', Ok (bt_accepted b)) /\ inserted c c' (bt_accepted b) /\
    best_of c' = first_most (best_of c) (reverse (bt_accepted b)).
Proof.
  intros Hv Hb Hrun. unfold insert_headers. rewrite Hrun. cbv zeta. pose proof (bi_fresh c b Hb) as Hf.
  destruct (decide (bt_accepted b = [])) as [->|Hne].
  { rewrite bool_decide_eq_true_2 by done. exists c. split_and!; [done| |done]. split; [done|done|done|constructor|set_solver]. }
  rewrite bool_decide_eq_false_2 by done. destruct (best_candidate_best _ Hne) as (i & x & -> & Hlast).
  destruct (last_most_spec _ _ _ Hlast) as [Hi Hmax].
  pose proof (list_elem_of_lookup_2 _ _ _ Hi) as Hin. destruct (fresh_has_best c _ x Hv Hf Hin) as [best Hbest]. rewrite Hbest.
  rewrite (best_of_ok _ _ Hbest), (put_fresh c _ Hf). change (with_store c (hc_store ?d)) with d. set (l := bt_accepted b) in *.
  destruct (Z.ltb_spec (sh_chainwork best) (sh_chainwork x)) as [Hmore|Hless].
  - rewrite (last_most_reverse best l i x Hmore Hlast).
    pose proof (fun path => best_of_with_best (with_headers c (added (stored c) l)) path x (settled_stored Hf x Hin)) as Hb1.
    destruct (match l with [] => false | first :: _ => _ end) eqn:Hext.
    + assert (linked (sh_hash best) (take (S i) l)) as Hlink.
      { destruct l as [|first l']; [done|]. cbn [take] in Hext |- *. by apply linked_iff. }
      destruct (settle_tips Hv Hf Hbest Hin Hmax Hmore (take (S i) l)) as (path & -> & Hvalid); [|by rewrite (take_S_r _ _ x), last_snoc|done|].
      * intros y Hy. apply list_elem_of_lookup in Hy as [j Hj]. apply lookup_take_Some in Hj as [Hj _]. by eapply list_elem_of_lookup_2.
      * eexists. split; [done|]. exact (conj (inserted_with_best c l path (sh_hash x) Hf Hvalid) (Hb1 path)).
    + destruct (settle_replace Hv Hf Hbest Hin Hmax Hmore) as (path & -> & Hvalid).
      eexists. split; [done|]. exact (conj (inserted_with_best c l path (sh_hash x) Hf Hvalid) (Hb1 path)).
  - rewrite first_most_none by (intros y Hy; rewrite elem_of_reverse in Hy; specialize (Hmax y Hy); lia).
    eexists. split; [done|]. split; [|by apply best_of_ok, best_with_headers, stored_subset].
    apply inserted_fresh; [done| |done|done]. apply (unpromoted_valid c l best Hv Hf Hbest). intros y Hy. specialize (Hmax y Hy). lia.
Qed.

Lemma insert_headers_does c headers : chain_valid c ->
  match insert_headers c headers, insert_new c headers with
  | (c', Ok l), (d, Ok l') => l = l' /\ inserted c c' l /\ inserted c d l /\
      best_of c' = first_most (best_of c) (reverse l) /\ best_of d = first_most (best_of c) l
  | (c', Err _), (_, Err _) => c' = c
  | _, _ => False
  end.
Proof.
  intros Hv. pose proof (run_sequential c (cv_kept c Hv) headers batch_new c (batch_new_inv c) Hv eq_refl eq_refl) as Hrun.
  destruct (batch_run c batch_new headers) as [b|e] eqn:E; destruct (insert_new c headers) as [d [l|]]; try done.
  - destruct Hrun as (Hb & Hl & Hbest & Hd & Hp & Hs). destruct (insert_headers_settles c b headers Hv Hb E) as (c' & -> & Hins & Hbest').
    cbn [batch_new bt_accepted app] in Hl. rewrite Hl in *.
    split_and!; [done|done| |done|done]. destruct Hins as [_ _ _ Hnodup Hnew]. by split.
  - unfold insert_headers. by rewrite E.
Qed.
End batch.
