(* ===== verification/BrowserReachProps.v ===== *)
(** * Browser header chain: every chain that can arise

    What holds of a chain in memory after any operations: the invariant of the store,
    the canonical chain read back, the batch against the sequence, failed operations,
    and the bounds of the difficulty it asks for. *)

From S2P Require Import Prelude Text ByteOrder IcannDane PrimHash PrimPow PrimHeader BrowserChain BrowserChainProps BrowserBatchProps.

Section reach.
Context `{Hashers}.
Notation Chain := (HeaderChain MemoryHeaderStore).
Notation stored c := (ms_headers (hc_store c)).
Implicit Types (c d : Chain) (x p : StoredHeader).

Inductive ChainOp := OpGenesis (header : BlockHeader) | OpHeader (header : BlockHeader) | OpHeaders (headers : list BlockHeader).

(** The chain after an operation, and the headers it gave back. *)
Definition chain_op c (op : ChainOp) : Chain * result ChainError (list StoredHeader) :=
  match op with
  | OpGenesis header => let '(c, r) := insert_genesis c header in (c, result_map (fun x => [x]) r)
  | OpHeader header => let '(c, r) := insert_header c header in (c, result_map (fun x => [x]) r)
  | OpHeaders headers => insert_headers c headers
  end.
(** Off the main network the genesis is given once, first. *)
Definition op_allowed c (op : ChainOp) : Prop := match op with OpGenesis _ => genesis_allowed c | _ => True end.

(** The chains that can arise from an empty store. *)
Inductive reach (policy : DifficultyPolicy) : Chain -> Prop :=
| reach_new : reach policy (with_difficulty_policy memory_store_default policy)
| reach_op c op : reach policy c -> op_allowed c op -> reach policy (fst (chain_op c op)).

Lemma new_valid policy : chain_valid (with_difficulty_policy memory_store_default policy).
Proof. by split; [split|]. Qed.

Lemma chain_op_does c op : chain_valid c -> op_allowed c op ->
  match chain_op c op with
  | (c', Ok l) => inserted c c' l
  | (c', Err _) => c' = c
  end.
Proof.
  intros Hv Ha. destruct op as [header|header|headers]; cbn [chain_op].
  - pose proof (insert_genesis_does c header Hv Ha) as Hd. destruct (insert_genesis c header) as [c' [x|]]; cbn; [apply Hd|done].
  - pose proof (insert_header_does c header Hv) as Hd. destruct (insert_header c header) as [c' [x|]]; cbn; apply Hd.
  - pose proof (insert_headers_does c headers Hv) as Hd. destruct (insert_headers c headers) as [c' [l|]], (insert_new c headers) as [d [l'|]]; [by destruct Hd as (_ & ? & _)|done|done|done].
Qed.

Lemma reach_valid policy c : reach policy c -> chain_valid c /\ hc_policy c = policy.
Proof.
  induction 1 as [|c op Hr [Hv Hp] Ha]; [split; [apply new_valid|done]|].
  pose proof (chain_op_does c op Hv Ha) as Hd. destruct (chain_op c op) as [c' [l|]]; cbn.
  - destruct Hd as [? -> _ _ _]. done.
  - by subst c'.
Qed.

(** C24. Whatever operations an empty header chain is given, in any order, with any
    headers -- on the main network any at all, under the permissive policy with one
    restriction: a genesis only while the store is empty -- every header it keeps lies under
    its own hash, and is either the genesis or follows a kept parent at the next height,
    with the difficulty the chain asked for, a hash that proves it, the checkpoint of its
    height if there is one, and the parent's work plus its own; there is one genesis; the
    canonical hashes are those of the path from it to the best header, and no kept header
    has more work than that. The restriction is needed: [second_genesis_demotes] below. *)
Theorem chain_stays_valid policy c : reach policy c ->
  chain_valid c /\ (policy = PolicyMainnet -> forall op, op_allowed c op).
Proof.
  intros Hr. destruct (reach_valid policy c Hr) as [Hv Hp]. split; [done|]. intros ->. by intros [|header|headers]; [left|..].
Qed.

(** An operation that fails leaves the chain exactly as it was; one that succeeds adds
    precisely the headers it gives back, none of which was known before. *)
Theorem failed_insert_changes_nothing policy c op :
  reach policy c -> op_allowed c op ->
  match chain_op c op with
  | (c', Ok l) => stored c' = added (stored c) l /\ NoDup (map sh_hash l) /\ forall x, x ∈ l -> stored c !! sh_hash x = None
  | (c', Err _) => c' = c
  end.
Proof.
  intros Hr Ha. destruct (reach_valid policy c Hr) as [Hv _]. pose proof (chain_op_does c op Hv Ha) as Hd.
  destruct (chain_op c op) as [c' [l|]]; [by destruct Hd|done].
Qed.

(** ** The canonical chain read back *)

Lemma canonical_header_path c l k : path_ok (stored c) l -> ms_canonical (hc_store c) = canonical_of l ->
  canonical_header c k = if 0 <=? k then l !! Z.to_nat k else None.
Proof.
  intros Hp Hc. unfold canonical_header. cbn [canonical_hash memory_store get_header]. rewrite Hc, (canonical_lookup _ _ _ Hp).
  destruct (0 <=? k); [|done]. destruct (l !! Z.to_nat k) as [x|] eqn:E; [|done]. by destruct (Hp _ _ E) as (_ & Hx & _).
Qed.

Lemma header_checkpoint c pending x hash : hc_policy c = PolicyMainnet -> header_ok c pending x ->
  mainnet_checkpoint_hash (sh_height x) = Some hash -> sh_hash x = hash.
Proof.
  intros Hp [_ [(-> & _)|(p & _ & _ & _ & _ & _ & _ & Hc & _)]] Hh; [done|]. unfold validate_checkpoint in Hc.
  rewrite bool_decide_eq_true_2, Hh in Hc by done. cbn [negb] in Hc. destruct (bool_decide (sh_hash x = hash)) eqn:E; [|done].
  by apply bool_decide_eq_true in E.
Qed.

(** C25. In every chain that can arise: no kept header has more work than the best one; the
    canonical chain has a header at exactly the heights from zero to the best header's,
    the last is the best header itself, each is at its own height and on top of the one
    before, each was verified, and on the main network each checkpointed height has
    the checkpointed hash. *)
Theorem canonical_chain_exact policy c best :
  reach policy c -> best_header c = Ok (Some best) ->
  (forall hash x, stored c !! hash = Some x -> sh_chainwork x <= sh_chainwork best) /\
  canonical_header c (sh_height best) = Some best /\
  (forall k, is_Some (canonical_header c k) <-> 0 <= k <= sh_height best) /\
  forall k x, canonical_header c k = Some x ->
    sh_height x = k /\ header_ok c ∅ x /\
    (forall p, canonical_header c (k - 1) = Some p -> h_prev_block (sh_header x) = sh_hash p) /\
    (policy = PolicyMainnet -> forall hash, mainnet_checkpoint_hash k = Some hash -> sh_hash x = hash).
Proof.
  intros Hr Hb. destruct (reach_valid policy c Hr) as [Hv Hpol].
  destruct (valid_best c best Hv Hb) as (_ & _ & l & Hp & Hl & Hc & Hmax).
  pose proof (fun k => canonical_header_path c l k Hp Hc) as Hcan. rewrite last_lookup in Hl.
  destruct (Hp _ _ Hl) as (Hh & _ & _). pose proof (lookup_lt_Some _ _ _ Hl) as Hlen. split_and!; [done| | |].
  - rewrite Hcan, (proj2 (Z.leb_le _ _)), Hh, Nat2Z.id by lia. done.
  - intros k. rewrite Hcan. destruct (Z.leb_spec 0 k); [rewrite lookup_lt_is_Some; lia|]. split; [by intros [? ?]|lia].
  - intros k x. rewrite !Hcan. destruct (Z.leb_spec 0 k) as [H0|]; [|done]. intros Hx. destruct (Hp _ _ Hx) as (Hk & Hs & Hprev).
    assert (sh_height x = k) as E by lia. pose proof (kp_ok c (cv_kept c Hv) _ _ Hs) as Hok. split_and!; [done|done| |].
    + intros p. destruct (Z.leb_spec 0 (k - 1)); [|done]. apply Hprev. lia.
    + intros -> hash. rewrite <- E. by apply (header_checkpoint c ∅).
Qed.

(** ** The batch and the sequence *)

(** The work of the best header. *)
Definition best_work c : option Z :=
  match best_header c with Ok (Some best) => Some (sh_chainwork best) | _ => None end.

Lemma best_work_stored c d : chain_valid c -> chain_valid d -> stored c = stored d -> best_work c = best_work d.
Proof.
  intros Hc Hd Hs. unfold best_work.
  destruct (best_header_cases c Hc) as [[Ec ->]|[b Hb]].
  - destruct (best_header_cases d Hd) as [[_ ->]|[b Hb]]; [done|]. destruct (valid_best d b Hd Hb) as (_ & Hin & _).
    by rewrite <- Hs, Ec in Hin.
  - rewrite Hb. destruct (valid_best c b Hc Hb) as (_ & Hin & _ & _ & _ & _ & Hmax). rewrite Hs in Hin.
    destruct (valid_has_best d b _ Hd Hin) as [b' Hb']. rewrite Hb'. destruct (valid_best d b' Hd Hb') as (_ & Hin' & _ & _ & _ & _ & Hmax').
    rewrite <- Hs in Hin'. specialize (Hmax _ _ Hin'). specialize (Hmax' _ _ Hin). f_equal. lia.
Qed.

(** The path to a header is determined by the headers kept. *)
Lemma canonical_determined c d k : chain_valid c -> chain_valid d -> stored c = stored d -> best_of c = best_of d ->
  canonical_header c k = canonical_header d k.
Proof.
  intros Hc Hd Hs Hb. unfold best_of in Hb.
  destruct (best_header_cases c Hc) as [[Ec Hbc]|[b Hbc]]; destruct (best_header_cases d Hd) as [[Ed Hbd]|[b' Hbd]];
    rewrite Hbc, Hbd in Hb; [| |done|]; [|done|].
  - unfold canonical_header. cbn [canonical_hash memory_store get_header].
    by destruct (ms_canonical (hc_store c) !! k), (ms_canonical (hc_store d) !! k); rewrite ?Ec, ?Ed, ?lookup_empty.
  - injection Hb as <-. destruct (valid_best c b Hc Hbc) as (_ & _ & l & Hl & El & Hcc & _).
    destruct (valid_best d b Hd Hbd) as (_ & _ & l' & Hl' & El' & Hcd & _). rewrite <- Hs in Hl'.
    rewrite (canonical_header_path c l k Hl Hcc), (canonical_header_path d l' k) by (done || by rewrite <- Hs).
    by rewrite (path_unique (stored c) l l' b).
Qed.

(** C26. Inserting a batch does what inserting its headers one by one does, those already
    known passed over: both succeed or both fail, they give back the same headers and keep
    the same headers. Both keep the old best header unless a new one has more work; one
    by one the first of the headers with most work becomes the best, in a batch the last.
    So the best headers have the same work, though they may differ ([batch_ties] below);
    they are the same header if no two of those given back tie for most work, and then
    the canonical chains are the same. A batch that fails keeps nothing of it. *)
Theorem batch_is_sequential policy c headers :
  reach policy c ->
  match insert_headers c headers, insert_new c headers with
  | (c', Ok l), (d, Ok l') => l = l' /\ stored c' = stored d /\ best_work c' = best_work d /\
      best_of d = first_most (best_of c) l /\ best_of c' = first_most (best_of c) (reverse l) /\
      (no_tie l -> best_of c' = best_of d) /\
      (best_of c' = best_of d -> forall k, canonical_header c' k = canonical_header d k)
  | (c', Err _), (_, Err _) => c' = c
  | _, _ => False
  end.
Proof.
  intros Hr. destruct (reach_valid policy c Hr) as [Hv _]. pose proof (insert_headers_does c headers Hv) as Hd.
  destruct (insert_headers c headers) as [c' [l|]], (insert_new c headers) as [d [l'|]]; [|done|done|done].
  destruct Hd as (-> & [Hc _ Hsc _ _] & [Hdv _ Hsd _ _] & Hbc & Hbd). assert (stored c' = stored d) as Hs by (by rewrite Hsc, Hsd).
  split_and!; [done|done|by apply best_work_stored|done|done| |intros; by apply canonical_determined].
  intros Ht. rewrite Hbc, Hbd. by apply first_most_no_tie.
Qed.

(** ** Difficulty *)

(** C27. The difficulty asked for after a window of headers is within bounds: as long as
    chainwork stays below 2^256 its bits decode, to a positive target no easier than the
    limit of the network. *)
Theorem retarget_in_limit first last bits :
  0 <= sh_chainwork first -> sh_chainwork last < 2 ^ 256 -> retarget_bits first last = Ok bits ->
  exists target limit, compact_to_target bits = Ok target /\ compact_to_target MAINNET_POW_BITS = Ok limit /\ 0 < target <= limit.
Proof.
  intros H0 H1. unfold retarget_bits. destruct (_ <=? _); [done|]. cbv zeta.
  set (span := Z.min _ _). assert (MAINNET_MIN_ACTUAL_TIMESPAN <= span) as Hspan by (unfold span, MAINNET_MIN_ACTUAL_TIMESPAN, MAINNET_MAX_ACTUAL_TIMESPAN, MAINNET_TARGET_SPACING; lia).
  unfold chainwork_checked_sub, chainwork_div_u64. destruct (Z.ltb_spec (sh_chainwork last) (sh_chainwork first)); [done|]. cbn [ok_or].
  destruct (Z.eqb_spec span 0); [done|]. cbn [ok_or]. set (work := (sh_chainwork last - sh_chainwork first) * MAINNET_TARGET_SPACING / span).
  assert (0 <= work < 2 ^ 255) as Hwork.
  { unfold work, MAINNET_MIN_ACTUAL_TIMESPAN, MAINNET_TARGET_SPACING in *. split; [apply Z.div_pos; lia|]. apply Z.div_lt_upper_bound; lia. }
  assert (compact_to_target MAINNET_POW_BITS = Ok (0xffff * 256 ^ 25)) as Hlim by (vm_compute; reflexivity).
  assert (exists target limit, compact_to_target MAINNET_POW_BITS = Ok target /\ compact_to_target MAINNET_POW_BITS = Ok limit /\ 0 < target <= limit) as Hself
    by (eexists _, _; split_and!; [exact Hlim|exact Hlim|lia|lia]).
  destruct (Z.eqb_spec work 0) as [|Hne]; [by intros [= <-]|]. unfold target_for_work. rewrite (proj2 (Z.eqb_neq work 0) Hne).
  assert (2 <= Z.shiftl 1 256 / work) as Hq by (apply Z.div_le_lower_bound; [lia|]; rewrite Z.shiftl_mul_pow2 by lia; lia).
  assert (Z.shiftl 1 256 / work <= 2 ^ 256) as Hq' by (apply Z.div_le_upper_bound; [lia|]; rewrite Z.shiftl_mul_pow2 by lia; nia).
  rewrite (proj2 (Z.eqb_neq (Z.shiftl 1 256 / work) 0)) by lia. cbn [pow_error]. rewrite Hlim. cbn [pow_error].
  set (target := Z.shiftl 1 256 / work - 1) in *. destruct (Z.ltb_spec (0xffff * 256 ^ 25) target); [by intros [= <-]|]. intros [= <-].
  destruct (compact_encoding_truncates target) as (_ & t & Ht & Hle & _); [lia|]. eexists _, _. split_and!; [exact Ht|done|lia|lia].
Qed.
End reach.

(** ** A concrete chain *)

#[local] Instance low_hashers : Hashers := {|
  blake2b_var := fun n l => replicate (Z.to_nat n) (from_be l mod 101); sha3_var := fun l => replicate 32 (from_be l mod 103) |}.

Definition easy_header (nonce : Z) (prev : Hash) : BlockHeader :=
  {| h_nonce := nonce; h_time := 1580745080 + nonce; h_prev_block := prev; h_tree_root := hash_ZERO;
     h_extra_nonce := replicate 24 0; h_reserved_root := hash_ZERO;
     h_witness_root := hash_ZERO; h_merkle_root := hash_ZERO;
     h_version := 0; h_bits := 0x207fffff; h_mask := hash_ZERO |}.
Definition easy_0 : BlockHeader := easy_header 0 hash_ZERO.
Definition easy_1 : BlockHeader := easy_header 1 (header_hash easy_0).
Definition easy_2 : BlockHeader := easy_header 2 (header_hash easy_1).
Definition easy_side : BlockHeader := easy_header 7 (header_hash easy_0).
Definition easy_started : HeaderChain MemoryHeaderStore :=
  fst (chain_op (with_difficulty_policy memory_store_default PolicyPermissive) (OpGenesis easy_0)).
Definition easy_aside : HeaderChain MemoryHeaderStore := fst (chain_op easy_started (OpHeader easy_side)).
Definition easy_chain : HeaderChain MemoryHeaderStore := fst (chain_op easy_aside (OpHeaders [easy_1; easy_1; easy_2])).

Lemma easy_reach : reach PolicyPermissive easy_chain.
Proof.
  assert (reach PolicyPermissive easy_started) as H1 by exact (reach_op _ _ (OpGenesis easy_0) (reach_new _) (or_intror eq_refl)).
  assert (reach PolicyPermissive easy_aside) as H2 by exact (reach_op _ _ (OpHeader easy_side) H1 I).
  exact (reach_op _ _ (OpHeaders [easy_1; easy_1; easy_2]) H2 I).
Qed.

(** Two headers on the genesis overtake one on its side. *)
Lemma chain_stays_valid_witness : chain_valid easy_chain /\ best_work easy_chain = Some 6.
Proof. split; [exact (proj1 (chain_stays_valid PolicyPermissive easy_chain easy_reach))|vm_compute; reflexivity]. Defined.

(** A second genesis off the main network, with less work than the best header has,
    becomes the best header all the same, and a second header without a parent. *)
Definition easy_next : HeaderChain MemoryHeaderStore := fst (chain_op easy_started (OpHeader easy_1)).
Lemma second_genesis_demotes :
  best_work easy_next = Some 4 /\
  let '(c, r) := chain_op easy_next (OpGenesis easy_2) in is_ok r = true /\ best_work c = Some 2.
Proof. vm_compute. split; [reflexivity|split; reflexivity]. Qed.

Definition best_header_of (c : HeaderChain MemoryHeaderStore) : option StoredHeader :=
  match best_header c with Ok best => best | Err _ => None end.
Definition best_height (c : HeaderChain MemoryHeaderStore) : option Z := sh_height <$> best_header_of c.
Lemma canonical_chain_exact_witness :
  canonical_header easy_chain 2 = best_header_of easy_chain /\ is_Some (canonical_header easy_chain 1).
Proof.
  assert (best_height easy_chain = Some 2) as Hh by (vm_compute; reflexivity).
  unfold best_height, best_header_of in *. destruct (best_header easy_chain) as [[best|]|] eqn:E; [|discriminate Hh..].
  injection Hh as Hh. destruct (canonical_chain_exact PolicyPermissive easy_chain best easy_reach E) as (_ & Hb & Hall & _).
  rewrite Hh in Hb, Hall. split; [exact Hb|]. apply Hall. lia.
Defined.

(** A batch whose last header is an orphan fails as a whole. *)
Definition easy_orphan : ChainOp := OpHeaders [easy_header 9 (header_hash easy_2); easy_header 3 hash_ZERO].
Lemma failed_insert_changes_nothing_witness : fst (chain_op easy_chain easy_orphan) = easy_chain.
Proof.
  pose proof (failed_insert_changes_nothing PolicyPermissive easy_chain easy_orphan easy_reach I) as Hf.
  assert (is_ok (snd (chain_op easy_chain easy_orphan)) = false) as Hs by (vm_compute; reflexivity).
  revert Hf Hs. generalize (chain_op easy_chain easy_orphan). intros [c' [l|e]] Hf Hs; [discriminate Hs|exact Hf].
Defined.

Definition easy_more : list BlockHeader := [easy_2; easy_header 3 (header_hash easy_2)].
Lemma batch_is_sequential_witness :
  best_work (fst (insert_headers easy_chain easy_more)) = Some 8 /\ best_work (fst (insert_new easy_chain easy_more)) = Some 8.
Proof.
  pose proof (batch_is_sequential PolicyPermissive easy_chain easy_more easy_reach) as Hb.
  assert (best_work (fst (insert_headers easy_chain easy_more)) = Some 8) as Hw by (vm_compute; reflexivity).
  assert (is_ok (snd (insert_headers easy_chain easy_more)) = true) as Hs by (vm_compute; reflexivity).
  revert Hb Hw Hs. generalize (insert_headers easy_chain easy_more) (insert_new easy_chain easy_more).
  intros [c' [l|e]] [d [l'|e']] Hb Hw Hs; [|destruct Hb|discriminate Hs..].
  destruct Hb as (_ & _ & E & _). split; [exact Hw|]. cbn [fst] in Hw |- *. rewrite <- E. exact Hw.
Defined.

(** Two headers on the genesis with the same work: one by one the first is the best, in
    a batch the second. *)
Lemma batch_ties :
  (header_hash easy_side, header_hash easy_1) =
    (default hash_ZERO (sh_hash <$> best_of (fst (insert_headers easy_started [easy_1; easy_side]))),
     default hash_ZERO (sh_hash <$> best_of (fst (insert_new easy_started [easy_1; easy_side])))) /\
  header_hash easy_side <> header_hash easy_1.
Proof. vm_compute. split; [reflexivity|discriminate]. Qed.

Definition window_header (height work time : Z) : StoredHeader :=
  {| sh_hash := hash_ZERO; sh_height := height; sh_chainwork := work;
     sh_header := {| h_nonce := 0; h_time := time; h_prev_block := hash_ZERO; h_tree_root := hash_ZERO;
       h_extra_nonce := []; h_reserved_root := hash_ZERO; h_witness_root := hash_ZERO; h_merkle_root := hash_ZERO;
       h_version := 0; h_bits := MAINNET_POW_BITS; h_mask := hash_ZERO |} |}.
(** Ninety-six target spacings over 144 blocks: the difficulty rises by half. *)
Lemma retarget_in_limit_witness :
  exists target limit, compact_to_target 0x1c00aaaa = Ok target /\ compact_to_target MAINNET_POW_BITS = Ok limit /\ 0 < target <= limit.
Proof.
  apply (retarget_in_limit (window_header 10 (11 * 0x10000 * 2 ^ 24) 1000) (window_header 154 (155 * 0x10000 * 2 ^ 24) 58600));
    [cbn; lia|cbn; lia|vm_compute; reflexivity].
Defined.
